(* ===== verification/_CoqProject ===== *)
-Q . S2P
Prelude.v
VInt.v
Murmur3.v
FloatCmp.v
Values.v
Keys.v
Oss50.v
BtiNodes.v
BtiTrie.v
BtiTree.v
BtiWalks.v
BtiPartitions.v
BtiSweep.v
BtiPartitionsProps.v
BtiRows.v
BtiRowsProps.v
MergeModel.v
Reconcile.v
ReconcileSpec.v
ReconcileProps.v
RangeTombstones.v
Coalesce.v
PartitionMerge.v
PartitionProps.v
KWay.v
KWayProps.v
Streaming.v
StreamingProps.v
StreamingRun.v
Expired.v
Bloom.v
Mutation.v
Wal.v
WalProps.v
Memtable.v
Durability.v
Generations.v
Engine.v
EngineProps.v
Stats.v
StatsProps.v
Baselines.v
Histograms.v
Cells.v
CellProps.v
Columns.v
Rows.v
RowProps.v
Markers.v
MarkerProps.v
Items.v
RowGroup.v
RowGroupProps.v
StaticRows.v
CompactionRows.v
RowImage.v
PartitionReader.v
PartitionWriter.v
Session.v
Compression.v
CompressionProps.v
Crc.v
CrcProps.v
IndexDb.v
SummaryDb.v
BtiState.v
BtiStateProps.v
SSTable.v
IndexProps.v
SummaryProps.v
PartitionReaderProps.v
PartitionRoundtrip.v
ItemProps.v
SessionProps.v
SSTableProps.v
ItemRanges.v
Flush.v
