(* ===== verification/Prelude.v ===== *)
(** * The write path of cqlite, verified

    [cqlite] reads and writes Apache Cassandra 5.0 SSTables without a cluster. This
    development models its write engine from the acknowledgement of a write to the bytes of
    an SSTable, the reading of those bytes by compaction, and the merge that compaction is.
    Paths below are relative to [src/cqlite-core/src/]; [merge/] is
    [storage/write_engine/merge/], [data_writer/] is [storage/sstable/writer/data_writer/],
    [row_decoder/] is [storage/sstable/reader/parsing/row_decoder/].

    ** How the program works

    A write is appended to the write-ahead log and put into the memtable ([Engine], [Wal],
    [Memtable]). A flush takes the partitions of the memtable in token order: a pre-pass
    computes the baselines of the whole SSTable ([Stats], [Baselines]), each partition is
    reconciled row by row ([RowGroup], [StaticRows]) and written ([PartitionWriter]: header,
    static row, rows and range tombstone bounds in clustering order ([Items]), end marker),
    statistics, the Bloom filter, Index.db ([IndexDb]), Summary.db ([SummaryDb]) and the
    checksums ([Crc]) are fed ([SSTable]), and once the files are durable the log is
    truncated ([Durability], [Generations]). Rows ([Rows]) hold cells ([Cells]) encoded as
    differences to the baselines; bounds are markers ([Markers]). A point read asks the
    filter, finds the interval of the key between two samples of the summary and scans
    Index.db there for the offset in Data.db. A trie-indexed table has Partitions.db and
    Rows.db in place of both: the first leads from a token to the partition, or, when it is
    wide, to the trie of its blocks in the second ([BtiState], [BtiPartitions], [BtiRows]);
    the keys of that trie are byte-comparable forms of clustering keys ([Oss50]). What is
    read of Data.db is checked chunk by chunk, against CRC.db or, in a compressed table, the
    checksum behind each chunk ([Compression]).

    A compaction reads each input SSTable partition by partition ([PartitionReader]), turns
    what it reads into merge entries ([CompactionRows]), and merges the runs. [KWayMerger]
    holds one buffered reader per run and a heap with the next entry of each ([KWay]). A step
    takes every entry of the smallest partition off the heap and hands the collected rows
    to [merge_partition_rows] ([PartitionMerge]); the production merge does the same work
    one clustering key at a time and hands rows out as soon as it may ([Streaming]). In
    both, range tombstones and partition deletions are split out as carriers; the other rows
    are grouped by clustering key; each group is reconciled to at most one row
    ([Reconcile]); the partition deletion and the coalesced range tombstones
    ([RangeTombstones]) shadow the result; and the markers that may still be needed are put
    back in the output. Its rows are written one at a time ([Session]). Before all that,
    SSTables in which everything is expired and shadows nothing elsewhere are dropped whole
    ([Expired]). The order of partitions is
    that of Murmur3 tokens ([Murmur3]) and of key bytes ([Keys]), the order inside a
    partition that of typed CQL values ([Values], [FloatCmp]); lengths and deltas on disk
    are variable-length integers ([VInt]).

    ** The files

    Foundations:
    - [Prelude]: Rust's [Result] as a monad, machine integers as [Z] with their
      wrap-around, byte strings and their order, [Ordering] combinators, stable sorting,
      total-order lemmas, lists, the automation.
    - [VInt] (parser/vint.rs, storage/serialization/vint.rs), [Murmur3]
      (util/cassandra_murmur3.rs), [FloatCmp] (float_cmp.rs), [Values] (types.rs,
      [compare_values] of storage/write_engine/mutation.rs), [Keys] (schema/mod.rs,
      types/comparator.rs, storage/write_engine/mutation.rs).

    The merge of compaction (merge/):
    - [MergeModel] (model.rs, schema_order.rs, reconcile_rules.rs): cells, rows, entries,
      the heap orders and tie-breaks; [Reconcile] (reconcile.rs): the kernel in the order
      [reconcile_cluster_with_overlap_counted] calls its steps; [ReconcileSpec]: the
      abstract merged row [spec_merge]; [ReconcileProps].
    - [RangeTombstones], [Coalesce] (mod.rs): coalescing, cuts, the binary search.
    - [PartitionMerge] (carriers.rs, mod.rs), [PartitionProps]; [KWay] (mod.rs), [KWayProps];
      [Streaming] (streaming.rs), [StreamingProps], [StreamingRun]; [Expired]
      (fully_expired.rs).

    The log, the memtable and the engine (storage/write_engine/):
    - [Mutation] (mutation.rs, the record layouts of wal.rs), [Wal] (wal.rs), [WalProps],
      [Memtable] (memtable.rs), [Engine] (mod.rs), [EngineProps], [Durability]
      (durability.rs), [Generations] (the names of SSTable files in mod.rs, maintenance.rs
      and sweep.rs).

    An SSTable, written and read:
    - [Bloom] (storage/sstable/bloom.rs); [Stats], [StatsProps], [Baselines], [Histograms],
      [Flush] (the statistics of storage/sstable/writer/ and the header's baselines).
    - [Columns] (column_cache.rs, schema_helpers.rs, row_decoder/mod.rs): the order of
      columns on both sides.
    - [Cells], [CellProps] (data_writer/cells.rs, encoding.rs; row_decoder/cell_value*.rs).
    - [Rows], [RowProps] (data_writer/rows.rs, complex.rs; row_decoder/row_data.rs,
      row_framing.rs).
    - [Markers], [MarkerProps] (data_writer/cells.rs; row_framing.rs); [Items], [ItemProps]
      (data_writer/partition.rs, marker_merge.rs).
    - [RowGroup], [RowGroupProps] (data_writer/rows.rs, encoding.rs); [StaticRows]
      (static_ops.rs, static_rows.rs).
    - [CompactionRows] (compaction_row.rs, row_decoder/compaction.rs,
      merge/producer_iter_convert.rs), [RowImage].
    - [PartitionWriter] (data_writer/partition.rs, mod.rs, index_prefix.rs);
      [PartitionReader] (row_framing.rs, partition_driver.rs, compaction.rs),
      [PartitionReaderProps], [PartitionRoundtrip], [ItemRanges].
    - [Session], [SessionProps] (data_writer/streaming_partition.rs and its twin
      incremental_partition.rs): a partition written in steps.
    - [IndexDb], [IndexProps] (storage/sstable/writer/index_writer.rs, index_reader/,
      header_spec.rs, promoted_index_reader.rs); [SummaryDb], [SummaryProps]
      (writer/summary_writer.rs, summary_reader/, reader/summary_point.rs).
    - [Compression], [CompressionProps] (compression_info.rs, chunk_decompressor.rs,
      chunk_reader.rs, zstd_frame.rs and their writers); [Crc], [CrcProps]
      (writer/crc_writer.rs, reader/crc.rs, reader/block_io.rs).
    - [Oss50] (bti/parser/encoding.rs): byte-comparable clustering keys; [BtiNodes]
      (writer/partitions_writer.rs, bti/node.rs, bti/parser/node_decode.rs, slice_walk.rs,
      traversal.rs): the nodes of a trie, written and parsed, with [BtiTrie] on what a
      written node means; [BtiTree] (the same files with partition_successor_walk.rs and
      rows_floor.rs): tries in memory, their writer and the walks, with [BtiWalks] on what
      the walks find.
    - [BtiPartitions], [BtiSweep], [BtiPartitionsProps] (writer/partitions_writer.rs,
      bti/parser/partitions.rs): Partitions.db; [BtiRows], [BtiRowsProps] (the same writer,
      bti/parser/rows.rs, rows_root.rs, rows_floor.rs): Rows.db; [BtiState],
      [BtiStateProps] (writer/bti_state.rs): both files of a table.
    - [SSTable], [SSTableProps] (writer/mod.rs, incremental.rs, finish.rs, filter_writer.rs,
      toc_writer.rs): the whole writer, and the lookup of a key in its files.

    ** How code becomes definitions

    Integers are [Z]; operations that wrap in Rust are written with [as_u64], [as_i64] and
    their like, and casts are explicit; arithmetic is that of a release build. A float is
    its bit pattern. A byte is a [Z] and a byte string a [list Z]. Structs are records, enums
    are inductive types with the source's constructors. [&mut self] is state passing; a
    fallible function returns [result]. A reader of bytes takes what is left of them and
    returns the value with the rest, except where the code computes with offsets
    ([Markers], [PartitionReader]). A [HashMap] is a [gmap]; where the code exposes its
    iteration order, the order is an argument of which only the content is known
    ([HashOrder]). The [BTreeMap] of clusters is the ordered list of its entries and the
    binary heap the list of its entries in heap order. [partition_point] is the standard
    library's contract. A run's iterator is the list of the results it yields. Tracing and
    metrics have no effect and are left out; counters the code returns are returned.

    The outside world enters as arguments. A clock reading is an argument ([now],
    [clock k] at the [k]th unfiltered). The outcome of every I/O call is an argument: [Ok], an
    error, or for writes how many bytes reached the file before the error. A crash is a
    state of the disk: [crash_image] and [crash_disk] say which bytes survive, those synced
    and any prefix of the others; an operation that faults and is followed by a crash is
    covered by the same lemmas.

    Code that is not modelled enters as a parameter, and no theorem assumes more of it than
    its hypotheses say: the mapping from type names to comparators ([from_data_type]) and
    the marshal names of the header ([marshal]), the [Debug] text that orders values without
    a typed comparison ([DebugFmt]), the sizes of Rust types ([Layout]), the reader of a
    [Statistics.db] file ([read_timestamp_stats]), the record codec ([Bincode] with
    [BincodeLaws], which promise a round trip only of mutations without JSON values: bincode
    writes those and refuses to read them) and checksum ([Crc32]) of the log, floating-point arithmetic
    ([FloatOps]), the SSTable writer as its outcome in [Engine], and the codecs of collections, tuples
    and UDTs ([ValueSerializer], [ComplexDecoder], [ComplexWriter], [ComplexColumnReader]),
    the compressors ([Codecs] with [CodecLaws]) and the hasher of checksums ([CrcHasher]
    with [CrcHasherLaws]), the length of a clustering prefix in a promoted index.
    The UDT registry is left out and lower-casing is that of ASCII. Each theorem with
    hypotheses is followed by a witness at concrete values.

    Recursion on data needs no fuel. Fuel appears where the code loops on a condition: the
    collection loop of a step ([KWayProps.step_total]: one more than the entries left), the
    streaming loop ([StreamingRun]), the size estimate of the memtable
    ([Memtable.estimate_sound]), the scan of the log, the bins of a histogram, the walks of
    a trie ([BtiTree.walk_fuel]: the bound on visited nodes that the code itself keeps; the
    lookup of a key is bounded by the key), the stack of the sweep that writes Partitions.db
    (one pop per node on it), and the driver of a partition ([PartitionRoundtrip.block_reads]: [block_fuel], one per
    unfiltered and partition). Each is proved enough where the code ends;
    [PartitionRoundtrip.endless_driver] is an input on which it does not.

    ** What the theorems show

    - Durability ([EngineProps], [WalProps], [Durability], [Generations]): every
      acknowledged write survives every crash, in the log or in SSTables; the log recovers
      the records written before a crash and only those; its truncation comes after the
      SSTable's directories are synced; the startup sweep deletes unpublished files only.
    - Flush ([RowGroupProps], [Baselines], [Flush], [StatsProps]): a written row is
      reconciled and keeps the newest operation of each column; every time written is at
      or above the baselines, which the reader gets back from the header.
    - Bytes ([CellProps], [RowProps], [MarkerProps], [PartitionRoundtrip], [ItemRanges]):
      reading undoes writing for cells, rows, bounds, and whole partitions, and the driver
      of compaction terminates on them ([PartitionRoundtrip] states what it yields with a
      function of the parsed rows, [ItemRanges] in terms of the rows and ranges that were
      written: [row_back] says which row of a compaction's input stands for a written row);
      range tombstones that do not overlap come back through the bytes as they were; the one-pass merge of rows and bounds is their sort ([ItemProps]); a
      partition fed in steps is the partition written at once ([SessionProps]).
    - Files ([SSTableProps], [IndexProps], [SummaryProps], [CompressionProps], [CrcProps]):
      in the files of a written SSTable every key is found, at the offset of its partition,
      and no other key is; Index.db and promoted indexes read back; compressed and
      uncompressed data read back, and no byte is served of a chunk whose checksum is wrong, in any
      state that a sequence of reads, seeks and cache operations, failed ones included, can
      leave the decompressor in ([CompressionProps.reached]).
    - Trie indexes ([BtiStateProps], [BtiPartitionsProps], [BtiRowsProps], [BtiSweep],
      [Oss50]): in the two files written for a table every partition is found, at its offset
      or at its entry with its blocks, the block around any clustering key is found from
      there, and no other partition is; the bounded-memory emitter writes the bytes that the
      writer of the whole trie would; byte-comparable keys sort as clustering keys do.
    - Merge of a partition ([PartitionProps]): a cell covered by a partition deletion, a
      range tombstone, a row deletion or a collection deletion is not in the output; a cell
      that nothing covers and that wins its column is; a marker that may still shadow data
      outside the compaction is re-emitted; the output is in clustering order.
    - Reconciliation ([ReconcileProps]): the kernel with its maps and retain loops refines
      [spec_merge]; deletions persist until the grace period and the overlap bound allow
      their purge; merging in two stages or in another order gives the same row.
    - Range tombstones ([RangeTombstones], [Coalesce]): coalescing covers the same points
      with the same timestamps, its output is canonical, the binary search finds the floor.
    - K-way merge ([KWayProps], [StreamingRun]): a step always ends; over ordered runs the
      steps hand every partition to the merge once, with all its rows, in token order; the
      streaming merge yields what the buffered one yields.
    - Whole-file expiry ([Expired]), the Bloom filter ([Bloom]: no false negatives, its file
      round trips), orders ([FloatCmp], [Values], [Keys], [Murmur3]), codecs ([VInt]).

    Where the code does not do what it means to, an [Example] shows it on a concrete input:
    - merge: [ReconcileProps.purge_drops_live_marker],
      [PartitionProps.range_keeps_older_marker], [PartitionProps.shadowing_drops_complex],
      [ReconcileProps.value_tie_order_dependent], [StreamingRun.streaming_resurrects_row],
      [StreamingRun.partial_keys_split];
    - log: [WalProps.json_write_skipped];
    - flush: [ItemRanges.overlapping_ranges_misread], [ItemRanges.repeated_range_misread],
      [ItemProps.prefix_bound_misplaced], [RowGroupProps.row_ttl_by_hash_order],
      [RowProps.ttl_zero_refused], [Baselines.ttl_zero_lowers_minimum],
      [Baselines.finalize_moves_baseline],
      [StatsProps.merged_histogram_diverges];
    - reader against writer: [PartitionRoundtrip.partial_key_row_misread],
      [PartitionRoundtrip.long_key_misread], [PartitionRoundtrip.reinserted_row_lost],
      [PartitionRoundtrip.endless_driver], [RowProps.wide_row_misread],
      [RowProps.boolean_clustering_misread], [MarkerProps.empty_bound_misread];
    - files: [SSTableProps.equal_tokens_refused], [SummaryProps.empty_summary_refused],
      [CompressionProps.noop_refused], [CompressionProps.zero_chunk_size_diverges],
      [Oss50.descending_text_inverted], [BtiRowsProps.prefix_separator_lost],
      [BtiRowsProps.early_deletion_lost].

    ** What is not modelled, and what comes next

    Complex columns with the codecs of collections, tuples and UDTs; the driver of a
    compaction; the enumeration of a whole trie and the window of bytes that a read of
    clustering rows takes from a row index; the size tiers that choose a
    compaction's inputs; the commit log reader; the parser of type names, which would turn
    [from_data_type] into a definition. The bytes of Statistics.db, the scanning readers and
    the query engine above them are large and rest on what is modelled here; the command
    line, the Flight server and the language bindings are interfaces to the core and are
    left aside. *)

From Stdlib Require Export ZArith Lia Bool List.
From stdpp Require Export base option list numbers sorting.
From stdpp Require Export strings gmap.
From Stdlib Require Import Btauto.

Open Scope Z_scope.
Open Scope bool_scope.

(** ** Results: Rust's [Result<T, E>] as a monad *)

Inductive result (E A : Type) : Type :=
| Ok (a : A)
| Err (e : E).
Arguments Ok {E A} a.
Arguments Err {E A} e.

#[export] Instance result_ret E : MRet (result E) := fun A => @Ok E A.
#[export] Instance result_bind E : MBind (result E) :=
  fun A B f m => match m with Ok a => f a | Err e => Err e end.
#[export] Instance result_fmap E : FMap (result E) :=
  fun A B f m => match m with Ok a => Ok (f a) | Err e => Err e end.
#[export] Instance result_eq_dec E A `{EqDecision E, EqDecision A} :
  EqDecision (result E A).
Proof. solve_decision. Defined.

#[export] Instance ok_inj E A : Inj (=) (=) (@Ok E A).
Proof. by intros ?? [=]. Qed.

(** [opt.ok_or(e)]. *)
Definition ok_or {E A} (e : E) (o : option A) : result E A :=
  match o with Some a => Ok a | None => Err e end.

(** ** Fixed-width integers

    A Rust integer of width [w] is the [Z] it denotes; [wrap] is the reduction
    of an unsigned operation and [swrap] the two's-complement reading. *)

Definition wrap (w x : Z) : Z := x mod 2 ^ w.
Definition swrap (w x : Z) : Z := (x + 2 ^ (w - 1)) mod 2 ^ w - 2 ^ (w - 1).

Definition as_u8 (x : Z) : Z := wrap 8 x.
Definition as_u16 (x : Z) : Z := wrap 16 x.
Definition as_u32 (x : Z) : Z := wrap 32 x.
Definition as_u64 (x : Z) : Z := wrap 64 x.
Definition as_i8 (x : Z) : Z := swrap 8 x.
Definition as_i32 (x : Z) : Z := swrap 32 x.
Definition as_i64 (x : Z) : Z := swrap 64 x.

Definition u_range (w x : Z) : Prop := 0 <= x < 2 ^ w.
Definition i_range (w x : Z) : Prop := - 2 ^ (w - 1) <= x < 2 ^ (w - 1).
Definition is_byte (x : Z) : Prop := u_range 8 x.
Definition is_u64 (x : Z) : Prop := u_range 64 x.
Definition is_i64 (x : Z) : Prop := i_range 64 x.

Definition i64_MIN : Z := - 2 ^ 63.
Definition i64_MAX : Z := 2 ^ 63 - 1.
Definition u64_MAX : Z := 2 ^ 64 - 1.

(** [u64::saturating_add], [saturating_mul]; unsigned [saturating_sub]. *)
Definition sat_add64 (a b : Z) : Z := Z.min (a + b) u64_MAX.
Definition sat_mul64 (a b : Z) : Z := Z.min (a * b) u64_MAX.
Definition sat_sub (a b : Z) : Z := Z.max 0 (a - b).

Lemma wrap_range w x : 0 <= w -> u_range w (wrap w x).
Proof. intros H. apply Z.mod_pos_bound. apply Z.pow_pos_nonneg; lia. Qed.

Lemma wrap_id w x : u_range w x -> wrap w x = x.
Proof. intros H. apply Z.mod_small, H. Qed.

Lemma swrap_range w x : 0 < w -> i_range w (swrap w x).
Proof.
  intros H. unfold i_range, swrap.
  assert (E : 2 ^ w = 2 * 2 ^ (w - 1))
    by (rewrite <- Z.pow_succ_r by lia; f_equal; lia).
  pose proof (Z.mod_pos_bound (x + 2 ^ (w - 1)) (2 ^ w)
                ltac:(apply Z.pow_pos_nonneg; lia)).
  lia.
Qed.

Lemma swrap_id w x : 0 < w -> i_range w x -> swrap w x = x.
Proof.
  intros Hw H. unfold i_range, swrap in *.
  assert (E : 2 ^ w = 2 * 2 ^ (w - 1))
    by (rewrite <- Z.pow_succ_r by lia; f_equal; lia).
  rewrite Z.mod_small by lia. lia.
Qed.

Lemma swrap_wrap w x : 0 < w -> swrap w (wrap w x) = swrap w x.
Proof. intros H. unfold swrap, wrap. rewrite Zplus_mod_idemp_l. done. Qed.

Lemma wrap_swrap w x : 0 < w -> wrap w (swrap w x) = wrap w x.
Proof.
  intros H. unfold swrap, wrap. rewrite Zminus_mod_idemp_l. f_equal. lia.
Qed.

(** Wrapping is congruent modulo [2 ^ w], so inner wraps of sums drop out. *)
Lemma swrap_cong w x y : x mod 2 ^ w = y mod 2 ^ w -> swrap w x = swrap w y.
Proof.
  intros H. unfold swrap. rewrite (Zplus_mod x), (Zplus_mod y), H. done.
Qed.

Lemma swrap_mod w x : 0 < w -> swrap w x mod 2 ^ w = x mod 2 ^ w.
Proof. intros H. exact (wrap_swrap w x H). Qed.

Lemma wrap_mod w x : 0 < w -> wrap w x mod 2 ^ w = x mod 2 ^ w.
Proof. intros H. unfold wrap. apply Zmod_mod. Qed.

Lemma swrap_add_swrap w x y : 0 < w -> swrap w (swrap w x + y) = swrap w (x + y).
Proof. intros H. apply swrap_cong. by rewrite Zplus_mod, swrap_mod, <- Zplus_mod. Qed.

Lemma swrap_add_wrap w x y : 0 < w -> swrap w (wrap w x + y) = swrap w (x + y).
Proof. intros H. apply swrap_cong. by rewrite Zplus_mod, wrap_mod, <- Zplus_mod. Qed.

Lemma swrap_sub_wrap w x y : 0 < w -> swrap w (wrap w x - y) = swrap w (x - y).
Proof. intros H. apply swrap_cong. by rewrite Zminus_mod, wrap_mod, <- Zminus_mod. Qed.


(** [Vec::is_empty], [Option::is_some], [Vec::len] *)
Definition is_empty {A} (l : list A) : bool :=
  match l with [] => true | _ => false end.
Definition is_some {A} (o : option A) : bool :=
  match o with Some _ => true | None => false end.
Definition is_ok {E A} (r : result E A) : bool :=
  match r with Ok _ => true | Err _ => false end.
Definition zlen {A} (l : list A) : Z := Z.of_nat (length l).

Lemma zlen_nonneg {A} (l : list A) : 0 <= zlen l.
Proof. unfold zlen. lia. Qed.

Lemma zlen_cons {A} (x : A) l : zlen (x :: l) = 1 + zlen l.
Proof. unfold zlen. cbn. lia. Qed.

Lemma zlen_app {A} (l1 l2 : list A) : zlen (l1 ++ l2) = zlen l1 + zlen l2.
Proof. unfold zlen. rewrite length_app. lia. Qed.

(** [slice::partition_point]: the length of the leading run on which the predicate holds;
    on a slice it partitions, the binary search finds the same. *)
Fixpoint partition_point {A} (p : A -> bool) (l : list A) : nat :=
  match l with
  | [] => 0
  | x :: l' => if p x then S (partition_point p l') else 0
  end.

Lemma partition_point_app {A} (p : A -> bool) l1 l2 :
  Forall (fun x => p x = true) l1 -> from_option p false (head l2) = false ->
  partition_point p (l1 ++ l2) = length l1.
Proof.
  induction 1 as [|x l1 Hx H IH]; intros H2; cbn.
  - destruct l2 as [|y l2]; [done|]. cbn in *. by rewrite H2.
  - by rewrite Hx, IH.
Qed.

(** The sum of a list of integers. *)
Definition zsum (l : list Z) : Z := foldr Z.add 0 l.
#[global] Arguments zsum : simpl never.

Lemma zsum_cons x l : zsum (x :: l) = x + zsum l.
Proof. done. Qed.

Lemma zsum_app l1 l2 : zsum (l1 ++ l2) = zsum l1 + zsum l2.
Proof. unfold zsum. induction l1 as [|x l1 IH]; cbn; lia. Qed.

Lemma zsum_rev l : zsum (rev l) = zsum l.
Proof.
  induction l as [|x l IH]; [done|]. cbn [rev]. rewrite zsum_app, IH. unfold zsum. cbn. lia.
Qed.

Lemma zsum_nonneg l : Forall (fun x => 0 <= x) l -> 0 <= zsum l.
Proof. unfold zsum. induction 1; cbn; lia. Qed.

(** ** Big-endian and little-endian byte strings *)

(** The [n] low bytes of [v], most significant first ([to_be_bytes] for
    [n = 8]). *)
Fixpoint be_bytes (n : nat) (v : Z) : list Z :=
  match n with
  | O => []
  | S k => Z.land (Z.shiftr v (8 * Z.of_nat k)) 255 :: be_bytes k v
  end.

Definition from_be (l : list Z) : Z :=
  fold_left (fun acc b => 256 * acc + b) l 0.

Definition le_bytes (n : nat) (v : Z) : list Z := rev (be_bytes n v).
Definition from_le (l : list Z) : Z := from_be (rev l).

Lemma from_be_acc l a :
  fold_left (fun acc b => 256 * acc + b) l a
  = a * 256 ^ Z.of_nat (length l) + from_be l.
Proof.
  unfold from_be. revert a. induction l as [|b l IH]; intros a; cbn [fold_left length].
  - rewrite Z.pow_0_r. lia.
  - rewrite IH, (IH (256 * 0 + b)), Nat2Z.inj_succ, Z.pow_succ_r by lia. lia.
Qed.

Lemma from_be_cons b l :
  from_be (b :: l) = b * 256 ^ Z.of_nat (length l) + from_be l.
Proof. unfold from_be at 1. cbn [fold_left]. rewrite from_be_acc. lia. Qed.

Lemma from_be_nil : from_be [] = 0.
Proof. done. Qed.

Lemma from_be_app l1 l2 :
  from_be (l1 ++ l2) = from_be l1 * 256 ^ Z.of_nat (length l2) + from_be l2.
Proof.
  unfold from_be at 1. rewrite fold_left_app. fold (from_be l1). apply from_be_acc.
Qed.

Lemma pow256 n : 256 ^ Z.of_nat n = 2 ^ (8 * Z.of_nat n).
Proof. rewrite Z.pow_mul_r by lia. done. Qed.

Lemma pow256_pos n : 0 < 256 ^ Z.of_nat n.
Proof. apply Z.pow_pos_nonneg; lia. Qed.

Lemma from_be_bound l :
  Forall is_byte l -> 0 <= from_be l < 256 ^ Z.of_nat (length l).
Proof.
  induction 1 as [|b l Hb _ IH].
  - rewrite from_be_nil. cbn. lia.
  - rewrite from_be_cons. cbn [length]. rewrite Nat2Z.inj_succ, Z.pow_succ_r by lia.
    unfold is_byte, u_range in Hb. change (2 ^ 8) with 256 in Hb.
    pose proof (pow256_pos (length l)). nia.
Qed.

Lemma from_be_zeros n l : from_be (replicate n 0 ++ l) = from_be l.
Proof.
  induction n as [|n IH]; [done|].
  cbn [replicate app]. rewrite from_be_cons, IH. lia.
Qed.

Lemma land_255 x : Z.land x 255 = x mod 256.
Proof. change 255 with (Z.ones 8). rewrite Z.land_ones by lia. done. Qed.

Lemma be_bytes_length n v : length (be_bytes n v) = n.
Proof. induction n; cbn; auto. Qed.

Lemma be_bytes_bytes n v : Forall is_byte (be_bytes n v).
Proof.
  induction n; cbn [be_bytes]; constructor; auto.
  rewrite land_255. apply (wrap_range 8). lia.
Qed.

Lemma from_be_bytes n v : from_be (be_bytes n v) = v mod 256 ^ Z.of_nat n.
Proof.
  induction n as [|n IH].
  - cbn. by rewrite Z.mod_1_r.
  - cbn [be_bytes]. rewrite from_be_cons, be_bytes_length, IH, land_255.
    rewrite Z.shiftr_div_pow2, <- pow256, Nat2Z.inj_succ, Z.pow_succ_r by lia.
    pose proof (pow256_pos n).
    rewrite (Z.mul_comm 256), Z.rem_mul_r by lia. lia.
Qed.

Lemma from_be_bytes_id n v :
  u_range (8 * Z.of_nat n) v -> from_be (be_bytes n v) = v.
Proof.
  intros H. rewrite from_be_bytes, pow256. by apply Z.mod_small.
Qed.

Lemma be_bytes_cong n v1 v2 :
  v1 mod 256 ^ Z.of_nat n = v2 mod 256 ^ Z.of_nat n ->
  be_bytes n v1 = be_bytes n v2.
Proof.
  induction n as [|n IH]; [done|].
  rewrite Nat2Z.inj_succ, Z.pow_succ_r, (Z.mul_comm 256) by lia.
  pose proof (pow256_pos n).
  rewrite !Z.rem_mul_r by lia. intros H'. cbn [be_bytes].
  pose proof (Z.mod_pos_bound v1 (256 ^ Z.of_nat n) ltac:(lia)).
  pose proof (Z.mod_pos_bound v2 (256 ^ Z.of_nat n) ltac:(lia)).
  rewrite !land_255, !Z.shiftr_div_pow2, <- !pow256 by lia.
  assert (v1 mod 256 ^ Z.of_nat n = v2 mod 256 ^ Z.of_nat n
          /\ (v1 / 256 ^ Z.of_nat n) mod 256 = (v2 / 256 ^ Z.of_nat n) mod 256)
    as [E1 E2].
  { apply and_comm, (Z.div_mod_unique (256 ^ Z.of_nat n)); lia. }
  f_equal; auto.
Qed.

Lemma be_bytes_from_be l :
  Forall is_byte l -> be_bytes (length l) (from_be l) = l.
Proof.
  induction 1 as [|b l Hb Hl IH]; [done|].
  cbn [length be_bytes]. rewrite from_be_cons.
  pose proof (from_be_bound l Hl) as Hbd. pose proof (pow256_pos (length l)).
  rewrite Z.shiftr_div_pow2, <- pow256 by lia.
  f_equal.
  - rewrite land_255, Z.div_add_l, Z.div_small, Z.add_0_r by lia.
    apply Z.mod_small, Hb.
  - transitivity (be_bytes (length l) (from_be l)); [|exact IH].
    apply be_bytes_cong. rewrite Z.add_comm, Z.mod_add by lia. done.
Qed.

Lemma be_bytes_inj n v1 v2 :
  u_range (8 * Z.of_nat n) v1 -> u_range (8 * Z.of_nat n) v2 ->
  be_bytes n v1 = be_bytes n v2 -> v1 = v2.
Proof.
  intros H1 H2 E%(f_equal from_be). by rewrite !from_be_bytes_id in E.
Qed.

Lemma from_le_bytes_id n v :
  u_range (8 * Z.of_nat n) v -> from_le (le_bytes n v) = v.
Proof. unfold from_le, le_bytes. rewrite rev_involutive. apply from_be_bytes_id. Qed.

Lemma le_bytes_length n v : length (le_bytes n v) = n.
Proof. unfold le_bytes. by rewrite length_rev, be_bytes_length. Qed.

Lemma le_bytes_bytes n v : Forall is_byte (le_bytes n v).
Proof. apply Forall_rev, be_bytes_bytes. Qed.

Lemma le_bytes_from_le n l :
  Forall is_byte l -> length l = n -> le_bytes n (from_le l) = l.
Proof.
  intros Hl <-. unfold le_bytes, from_le. rewrite <- length_rev, be_bytes_from_be.
  - apply rev_involutive.
  - by apply Forall_rev.
Qed.

(** Blocks of [n] elements laid end to end, read back by position. *)
Section Blocks.
Context {A : Type} (n : nat).

Lemma concat_blocks_length (ls : list (list A)) :
  Forall (fun l => length l = n) ls -> length (concat ls) = (n * length ls)%nat.
Proof. induction 1 as [|l ls Hl _ IH]; cbn; [lia|]. rewrite length_app. lia. Qed.

Lemma block_at (ls : list (list A)) i l :
  Forall (fun l => length l = n) ls -> ls !! i = Some l -> take n (drop (i * n) (concat ls)) = l.
Proof.
  intros Hls. revert i. induction Hls as [|x ls Hx _ IH]; intros [|i] E; try done.
  - injection E as ->. cbn [Nat.mul concat drop]. by apply take_app_length'.
  - cbn [concat]. change (S i * n)%nat with (n + i * n)%nat.
    rewrite <- drop_drop, drop_app_length' by done. by apply IH.
Qed.

Lemma blocks_of (l : list A) k :
  length l = (k * n)%nat -> concat (map (fun i => take n (drop (i * n) l)) (seq 0 k)) = l.
Proof.
  revert l. induction k as [|k IH]; intros l Hl; [by destruct l|].
  cbn [seq map concat Nat.mul drop]. rewrite <- seq_shift, map_map.
  rewrite (map_ext _ (fun i => take n (drop (i * n) (drop n l)))).
  - rewrite IH, take_drop; [done|]. rewrite length_drop. lia.
  - intros i. rewrite drop_drop. f_equal.
Qed.
End Blocks.

Lemma from_le_bound l :
  Forall is_byte l -> 0 <= from_le l < 256 ^ Z.of_nat (length l).
Proof.
  intros H. unfold from_le. rewrite <- length_rev. apply from_be_bound.
  by apply Forall_rev.
Qed.

(** ** Bitwise equalities *)

(** [lor] of a multiple of [2^n] and a number below [2^n] is their sum. *)
Lemma lor_add n a b :
  0 <= n -> 0 <= b < 2 ^ n -> Z.lor (Z.shiftl a n) b = a * 2 ^ n + b.
Proof.
  intros Hn Hb. pose proof (Z.add_lor_land (Z.shiftl a n) b) as Hadd.
  assert (Z.land (Z.shiftl a n) b = 0) as H0.
  { apply Z.bits_inj'. intros i Hi. rewrite Z.land_spec, Z.bits_0.
    destruct (decide (i < n)).
    - rewrite Z.shiftl_spec_low by lia. done.
    - rewrite <- (Z.mod_small b (2 ^ n)), Z.mod_pow2_bits_high by lia.
      by rewrite andb_false_r. }
  rewrite Z.shiftl_mul_pow2 in * by lia. lia.
Qed.

Lemma land_low_mask n x : 0 <= n -> Z.land x (Z.shiftl 1 n - 1) = x mod 2 ^ n.
Proof.
  intros Hn. by rewrite <- Z.land_ones by lia.
Qed.

Lemma testbit_above w x i : u_range w x -> 0 <= w <= i -> Z.testbit x i = false.
Proof.
  intros Hx Hi. rewrite <- (Z.mod_small x (2 ^ w)) by apply Hx.
  by apply Z.mod_pow2_bits_high.
Qed.

Lemma u_range_bits w x :
  0 <= w -> 0 <= x -> (forall i, w <= i -> Z.testbit x i = false) -> u_range w x.
Proof.
  intros Hw Hx Hb. split; [done|].
  destruct (decide (x = 0)) as [->|]; [apply Z.pow_pos_nonneg; lia|].
  apply Z.log2_lt_pow2; [lia|]. apply Z.nle_gt. intros Hle.
  specialize (Hb _ Hle). rewrite Z.bit_log2 in Hb by lia. done.
Qed.

Lemma u_range_mono w1 w2 x : 0 <= w1 <= w2 -> u_range w1 x -> u_range w2 x.
Proof.
  intros Hw [Hx1 Hx2]. split; [done|].
  pose proof (Z.pow_le_mono_r 2 w1 w2). lia.
Qed.

Lemma u_range_lxor w x y : 0 <= w -> u_range w x -> u_range w y -> u_range w (Z.lxor x y).
Proof.
  intros Hw Hx Hy. apply u_range_bits; [done|apply Z.lxor_nonneg; split; intros; [apply Hy|apply Hx]|].
  intros i Hi. rewrite Z.lxor_spec, !(testbit_above w) by (done || lia). done.
Qed.

Lemma u_range_lor w x y : 0 <= w -> u_range w x -> u_range w y -> u_range w (Z.lor x y).
Proof.
  intros Hw Hx Hy. apply u_range_bits; [done|apply Z.lor_nonneg; split; apply Hx || apply Hy|].
  intros i Hi. rewrite Z.lor_spec, !(testbit_above w) by (done || lia). done.
Qed.

Lemma u_range_shiftr w x n : 0 <= w -> 0 <= n -> u_range w x -> u_range w (Z.shiftr x n).
Proof.
  intros Hw Hn Hx. apply u_range_bits; [done|apply Z.shiftr_nonneg, Hx|].
  intros i Hi. rewrite Z.shiftr_spec, (testbit_above w) by (done || lia). done.
Qed.

(** ** Exhaustive checks over bytes *)

(** A decidable statement about a byte is settled by evaluating it on all 256. *)
Lemma byte_forall (P : Z -> bool) :
  forallb P (seqZ 0 256) = true -> forall b, is_byte b -> P b = true.
Proof.
  intros H b [Hb1 Hb2]. rewrite forallb_forall in H. apply H.
  apply list_elem_of_In, elem_of_seqZ. change (2 ^ 8) with 256 in *. lia.
Qed.

(** Split an [if] on an integer comparison in the goal. *)
Ltac case_zb :=
  match goal with
  | |- context [Z.leb ?a ?b] => destruct (Z.leb_spec a b)
  | |- context [Z.ltb ?a ?b] => destruct (Z.ltb_spec a b)
  | |- context [Z.gtb ?a ?b] => rewrite (Z.gtb_ltb a b); destruct (Z.ltb_spec b a)
  | |- context [Z.geb ?a ?b] => rewrite (Z.geb_leb a b); destruct (Z.leb_spec b a)
  | |- context [Z.eqb ?a ?b] => destruct (Z.eqb_spec a b)
  end.

(** Flipping the [w] low bits of a [w]-bit number subtracts it from all-ones. *)
Lemma lxor_ones w a : 0 <= w -> u_range w a -> Z.lxor a (2 ^ w - 1) = 2 ^ w - 1 - a.
Proof.
  intros Hw Ha.
  assert (E1 : 2 ^ w - 1 = Z.ones w) by (rewrite Z.ones_equiv; lia).
  rewrite E1, Z.sub_nocarry_ldiff.
  - apply Z.bits_inj'. intros i Hi. rewrite Z.lxor_spec, Z.ldiff_spec.
    destruct (decide (i < w)).
    + rewrite Z.ones_spec_low by lia. by destruct (Z.testbit a i).
    + rewrite Z.ones_spec_high, (testbit_above w) by (done || lia). done.
  - apply Z.bits_inj'. intros i Hi. rewrite Z.ldiff_spec, Z.bits_0.
    destruct (decide (i < w)).
    + rewrite Z.ones_spec_low by lia. by destruct (Z.testbit a i).
    + rewrite (testbit_above w) by (done || lia). done.
Qed.

(** ** Orderings

    [std::cmp::Ordering] is [comparison]: [Less] is [Lt], [Greater] is [Gt]. *)

Definition then_with (c d : comparison) : comparison :=
  match c with Eq => d | _ => c end.

(** What Rust's [Ord] contract asks of a comparison, on the values satisfying
    [P] (a comparison that can fail on ill-typed values obeys it on the
    well-typed ones only). *)
Class OrdOn {A} (P : A -> Prop) (cmp : A -> A -> comparison) : Prop := {
  on_refl x : P x -> cmp x x = Eq;
  on_sym x y : P x -> P y -> cmp y x = CompOpp (cmp x y);
  on_trans x y z : P x -> P y -> P z -> cmp x y = Lt -> cmp y z = Lt -> cmp x z = Lt;
  on_eq_l x y z : P x -> P y -> P z -> cmp x y = Eq -> cmp x z = cmp y z;
}.

Abbreviation OrdLaws cmp := (OrdOn (fun _ => True) cmp).

Section OrdFacts.
Context {A : Type} {P : A -> Prop} (cmp : A -> A -> comparison) `{!OrdOn P cmp}.

Lemma on_eq_r x y z : P x -> P y -> P z -> cmp y z = Eq -> cmp x y = cmp x z.
Proof.
  intros Hx Hy Hz H. rewrite (on_sym (cmp := cmp) y x), (on_sym (cmp := cmp) z x) by done.
  f_equal. by apply (on_eq_l (cmp := cmp)).
Qed.

Lemma on_eq_sym x y : P x -> P y -> cmp x y = Eq -> cmp y x = Eq.
Proof. intros Hx Hy H. by rewrite (on_sym (cmp := cmp) x y), H by done. Qed.

Lemma on_gt_lt x y : P x -> P y -> cmp x y = Gt <-> cmp y x = Lt.
Proof. intros Hx Hy. rewrite (on_sym (cmp := cmp) y x) by done. destruct (cmp y x); split; done. Qed.

(** [x <= y]: not greater. *)
Lemma on_le_trans x y z :
  P x -> P y -> P z -> cmp x y <> Gt -> cmp y z <> Gt -> cmp x z <> Gt.
Proof.
  intros Hx Hy Hz H1 H2. destruct (cmp x y) eqn:E1; [|destruct (cmp y z) eqn:E2|done].
  - by rewrite (on_eq_l (cmp := cmp) x y z) by done.
  - by rewrite <- (on_eq_r x y z), E1 by done.
  - by rewrite (on_trans (cmp := cmp) x y z) by done.
  - done.
Qed.

Lemma on_le_lt_trans x y z :
  P x -> P y -> P z -> cmp x y <> Gt -> cmp y z = Lt -> cmp x z = Lt.
Proof.
  intros Hx Hy Hz H1 H2. destruct (cmp x y) eqn:E1; [|by apply (on_trans (cmp := cmp) x y z)|done].
  by rewrite (on_eq_l (cmp := cmp) x y z) by done.
Qed.

Lemma on_lt_le_trans x y z :
  P x -> P y -> P z -> cmp x y = Lt -> cmp y z <> Gt -> cmp x z = Lt.
Proof.
  intros Hx Hy Hz H1 H2. destruct (cmp y z) eqn:E1; [|by apply (on_trans (cmp := cmp) x y z)|done].
  by rewrite <- (on_eq_r x y z) by done.
Qed.

Lemma on_ge_le x y : P x -> P y -> cmp x y <> Lt <-> cmp y x <> Gt.
Proof. intros Hx Hy. rewrite (on_sym (cmp := cmp) x y) by done. destruct (cmp x y); split; done. Qed.

Lemma on_le_total x y : P x -> P y -> cmp x y <> Gt \/ cmp y x <> Gt.
Proof.
  intros Hx Hy. destruct (cmp x y) eqn:E; [by left|by left|right].
  apply on_gt_lt in E; [|done..]. by rewrite E.
Qed.

Lemma on_le_antisym x y : P x -> P y -> cmp x y <> Gt -> cmp y x <> Gt -> cmp x y = Eq.
Proof.
  intros Hx Hy H1 H2. rewrite (on_sym (cmp := cmp) x y) in H2 by done. by destruct (cmp x y).
Qed.
End OrdFacts.

Section TotalOrdFacts.
Context {A : Type} (cmp : A -> A -> comparison) `{!OrdLaws cmp}.
Lemma ord_refl x : cmp x x = Eq.
Proof. by apply (on_refl (P := fun _ => True) (cmp := cmp)). Qed.
Lemma ord_sym x y : cmp y x = CompOpp (cmp x y).
Proof. by apply (on_sym (P := fun _ => True) (cmp := cmp)). Qed.
Lemma ord_trans x y z : cmp x y = Lt -> cmp y z = Lt -> cmp x z = Lt.
Proof. by apply (on_trans (P := fun _ => True) (cmp := cmp)). Qed.
Lemma ord_eq_l x y z : cmp x y = Eq -> cmp x z = cmp y z.
Proof. by apply (on_eq_l (P := fun _ => True) (cmp := cmp)). Qed.
End TotalOrdFacts.

#[export] Instance Z_compare_laws : OrdLaws Z.compare.
Proof.
  split; intros.
  - apply Z.compare_refl.
  - by rewrite <- Z.compare_antisym.
  - rewrite Z.compare_lt_iff in *. lia.
  - match goal with H : (_ ?= _) = Eq |- _ => apply Z.compare_eq in H end. by subst.
Qed.

#[export] Instance nat_compare_laws : OrdLaws Nat.compare.
Proof.
  split; intros.
  - apply Nat.compare_refl.
  - by rewrite <- Nat.compare_antisym.
  - rewrite Nat.compare_lt_iff in *. lia.
  - match goal with H : _ = Eq |- _ => apply Nat.compare_eq in H end. by subst.
Qed.

Definition bool_cmp (a b : bool) : comparison :=
  match a, b with
  | false, true => Lt
  | true, false => Gt
  | _, _ => Eq
  end.

#[export] Instance bool_cmp_laws : OrdLaws bool_cmp.
Proof.
  split; intros; repeat match goal with b : bool |- _ => destruct b end; done. Qed.

(** Orders pull back along a key, flip, and combine lexicographically. *)
Lemma ord_weaken {A} (P Q : A -> Prop) cmp :
  (forall x, Q x -> P x) -> OrdOn P cmp -> OrdOn Q cmp.
Proof.
  intros HPQ [H1 H2 H3 H4].
  split; [intros x ?; apply H1|intros x y ? ?; apply H2
         |intros x y z ? ? ? ? ?; apply (H3 x y z)|intros x y z ? ? ? ?; apply H4]; auto.
Qed.

Lemma ord_ext {A} (P : A -> Prop) (c d : A -> A -> comparison) :
  (forall x y, P x -> P y -> d x y = c x y) -> OrdOn P c -> OrdOn P d.
Proof.
  intros E [H1 H2 H3 H4].
  split; [intros x ?|intros x y ? ?|intros x y z ? ? ?|intros x y z ? ? ?];
    rewrite !E by done; auto. by apply H3.
Qed.

Lemma ord_on {A B} (P : A -> Prop) (Q : B -> Prop) (f : A -> B) cmp `{!OrdOn Q cmp} :
  (forall x, P x -> Q (f x)) -> OrdOn P (fun x y : A => cmp (f x) (f y)).
Proof.
  intros HPQ. destruct OrdOn0 as [H1 H2 H3 H4].
  split; [intros x ?; apply H1|intros x y ? ?; apply H2
         |intros x y z ? ? ? ? ?; apply (H3 (f x) (f y) (f z))
         |intros x y z ? ? ? ?; apply H4]; auto.
Qed.

Lemma ord_rev {A} (P : A -> Prop) cmp `{!OrdOn P cmp} :
  OrdOn P (fun x y => CompOpp (cmp x y)).
Proof.
  split.
  - intros x Hx. by rewrite (on_refl (cmp := cmp)).
  - intros x y Hx Hy. by rewrite (on_sym (cmp := cmp) x y).
  - intros x y z Hx Hy Hz. rewrite <- (on_sym (cmp := cmp) x y), <- (on_sym (cmp := cmp) y z), <- (on_sym (cmp := cmp) x z) by done.
    intros H1 H2. by apply (on_trans (cmp := cmp) z y x).
  - intros x y z Hx Hy Hz H. f_equal. apply (on_eq_l (cmp := cmp)); [done..|].
    by destruct (cmp x y).
Qed.

Lemma ord_then {A} (P : A -> Prop) (c d : A -> A -> comparison) `{!OrdOn P c, !OrdOn P d} :
  OrdOn P (fun x y => then_with (c x y) (d x y)).
Proof.
  split.
  - intros x Hx. by rewrite (on_refl (cmp := c)), (on_refl (cmp := d)) by done.
  - intros x y Hx Hy. rewrite (on_sym (cmp := c) x y), (on_sym (cmp := d) x y) by done.
    by destruct (c x y).
  - intros x y z Hx Hy Hz. destruct (c x y) eqn:E1; [|destruct (c y z) eqn:E2|done].
    + rewrite (on_eq_l (cmp := c) x y z) by done.
      destruct (c y z); [by apply (on_trans (cmp := d) x y z)|done..].
    + by rewrite <- (on_eq_r c x y z), E1 by done.
    + by rewrite (on_trans (cmp := c) x y z).
    + done.
  - intros x y z Hx Hy Hz. destruct (c x y) eqn:E1; [|done..]. intros E2. cbn in E2.
    by rewrite (on_eq_l (cmp := c) x y z), (on_eq_l (cmp := d) x y z) by done.
Qed.

(** [Ord for [T]]: lexicographic, a proper prefix first. *)
Section ListCmp.
Context {A : Type} (cmp : A -> A -> comparison).

Fixpoint list_cmp (a b : list A) : comparison :=
  match a, b with
  | [], [] => Eq
  | [], _ => Lt
  | _, [] => Gt
  | x :: a', y :: b' => then_with (cmp x y) (list_cmp a' b')
  end.

#[export] Instance list_cmp_laws (P : A -> Prop) `{!OrdOn P cmp} : OrdOn (Forall P) list_cmp.
Proof.
  split.
  - induction 1 as [|x a Hx _ IH]; cbn; [done|]. by rewrite (on_refl (cmp := cmp)), IH.
  - intros x y Hx. revert y. induction Hx as [|x a Hx _ IH]; intros [|y b]; cbn; try done.
    intros [Hy Hb]%Forall_cons. rewrite (on_sym (cmp := cmp) x y), IH by done.
    by destruct (cmp x y).
  - intros x y z Hx. revert y z. induction Hx as [|x a Hx _ IH]; intros [|y b] [|z c]; cbn; try done.
    intros [Hy Hb]%Forall_cons [Hz Hc]%Forall_cons.
    destruct (cmp x y) eqn:E1; [|destruct (cmp y z) eqn:E2|done].
    + rewrite (on_eq_l (cmp := cmp) x y z) by done.
      destruct (cmp y z); [by apply IH|done..].
    + by rewrite <- (on_eq_r cmp x y z), E1 by done.
    + by rewrite (on_trans (cmp := cmp) x y z).
    + done.
  - intros x y z Hx. revert y z. induction Hx as [|x a Hx _ IH]; intros [|y b] [|z c]; cbn; try done.
    intros [Hy Hb]%Forall_cons [Hz Hc]%Forall_cons. destruct (cmp x y) eqn:E1; [|done..].
    intros E. cbn in E. rewrite (on_eq_l (cmp := cmp) x y z), (IH b c) by done. done.
Qed.
End ListCmp.

(** [Ord for [u8]]. *)
Definition bytes_cmp : list Z -> list Z -> comparison := list_cmp Z.compare.

Lemma bytes_cmp_eq a b : bytes_cmp a b = Eq <-> a = b.
Proof.
  revert b. induction a as [|x a IH]; intros [|y b]; cbn; try (split; congruence).
  destruct (Z.compare_spec x y) as [->|H|H]; cbn.
  - rewrite IH. split; congruence.
  - split; [done|]. intros [= -> _]. lia.
  - split; [done|]. intros [= -> _]. lia.
Qed.

#[export] Instance bytes_cmp_laws : OrdLaws bytes_cmp.
Proof.
  eapply (ord_weaken (Forall (fun _ => True))); [|apply list_cmp_laws, Z_compare_laws].
  intros x _. by apply Forall_true.
Qed.

Lemma Forall_both {A} (P Q : A -> Prop) l :
  Forall P l -> Forall Q l -> Forall (fun x => P x /\ Q x) l.
Proof. intros. by apply Forall_and. Qed.

Lemma filter_b_perm {A} (p : A -> bool) l l' : l ≡ₚ l' -> List.filter p l ≡ₚ List.filter p l'.
Proof.
  induction 1 as [|x l l' _ IH|x y l|l1 l2 l3 _ IH1 _ IH2]; cbn.
  - done.
  - destruct (p x); [by constructor|done].
  - destruct (p x), (p y); (done || constructor).
  - by rewrite IH1.
Qed.

(** ** Stable sorting

    [slice::sort_by] is a stable sort; for a total preorder its result is the one
    insertion sort computes. *)
Section SortBy.
Context {A : Type} (cmp : A -> A -> comparison).

Fixpoint insert_by (x : A) (l : list A) : list A :=
  match l with
  | [] => [x]
  | y :: l' => match cmp x y with Gt => y :: insert_by x l' | _ => x :: l end
  end.

Definition sort_by (l : list A) : list A := foldr insert_by [] l.

Lemma insert_by_perm x l : insert_by x l ≡ₚ x :: l.
Proof.
  induction l as [|y l IH]; cbn; [done|]. destruct (cmp x y); [done..|].
  rewrite IH. apply perm_swap.
Qed.

Lemma sort_by_perm l : sort_by l ≡ₚ l.
Proof. induction l as [|x l IH]; cbn; [done|]. by rewrite insert_by_perm, IH. Qed.

Definition le_by (x y : A) : Prop := cmp x y <> Gt.

Context (P : A -> Prop) `{!OrdOn P cmp}.

Lemma insert_by_sorted x l :
  P x -> Forall P l -> StronglySorted le_by l -> StronglySorted le_by (insert_by x l).
Proof.
  intros Hx HP. induction 1 as [|y l Hs IH Hy]; cbn; [by repeat constructor|].
  apply Forall_cons in HP as [HPy HPl].
  destruct (cmp x y) eqn:E.
  - constructor; [by constructor|]. constructor; [by unfold le_by; rewrite E|].
    rewrite Forall_forall in *. intros z Hz. unfold le_by in *.
    rewrite (on_eq_l (cmp := cmp) x y z) by auto. auto.
  - constructor; [by constructor|]. constructor; [by unfold le_by; rewrite E|].
    rewrite Forall_forall in *. intros z Hz. unfold le_by in *.
    apply (on_le_trans cmp x y z); auto. by rewrite E.
  - constructor; [by apply IH|]. rewrite insert_by_perm. constructor; [|done].
    unfold le_by. apply (on_gt_lt cmp) in E; [|done..]. by rewrite E.
Qed.

Lemma sort_by_sorted l : Forall P l -> StronglySorted le_by (sort_by l).
Proof.
  induction 1 as [|x l Hx Hl IH]; [constructor|]. cbn. fold (sort_by l).
  apply insert_by_sorted; [done| |done]. by rewrite sort_by_perm.
Qed.

(** Elements an order does not tell apart keep their input order. *)
Lemma sort_by_sorted_id l : StronglySorted le_by l -> sort_by l = l.
Proof.
  induction 1 as [|x l Hs IH Hx]; [done|]. cbn. fold (sort_by l). rewrite IH.
  destruct l as [|y l]; [done|]. cbn. apply Forall_cons in Hx as [Hxy _].
  unfold le_by in Hxy. by destruct (cmp x y).
Qed.

Lemma insert_by_least x l : Forall (le_by x) l -> insert_by x l = x :: l.
Proof. destruct 1 as [|y l Hy _]; [done|]. cbn. unfold le_by in Hy. by destruct (cmp x y). Qed.

(** Selecting and sorting commute. *)
Lemma insert_by_filter (f : A -> bool) x l :
  P x -> Forall P l -> StronglySorted le_by l ->
  List.filter f (insert_by x l) = if f x then insert_by x (List.filter f l) else List.filter f l.
Proof.
  intros Hx HP. induction 1 as [|y l Hs IH Hy]; [cbn; by destruct (f x)|].
  apply Forall_cons in HP as [HPy HPl]. cbn [insert_by List.filter].
  assert (Hle : cmp x y <> Gt -> List.filter f (x :: y :: l) = if f x then insert_by x (List.filter f (y :: l)) else List.filter f (y :: l)).
  { intros Hxy. cbn [List.filter]. destruct (f x); [|done]. symmetry. apply insert_by_least.
    assert (H : Forall (le_by x) (y :: l)).
    { apply Forall_cons. split; [done|]. rewrite Forall_forall in *. intros z Hz.
      apply (on_le_trans (P := P) cmp x y z); auto. by apply Hy. }
    rewrite Forall_forall in *. intros z Hz. apply H.
    change (z ∈ List.filter f (y :: l)) in Hz. apply list_elem_of_In, filter_In in Hz as [Hz _]. by apply list_elem_of_In. }
  destruct (cmp x y) eqn:E; [by apply Hle..|]. cbn [List.filter]. rewrite IH by done.
  destruct (f x), (f y); cbn [insert_by]; by rewrite ?E.
Qed.

Lemma sort_by_filter (f : A -> bool) l :
  Forall P l -> List.filter f (sort_by l) = sort_by (List.filter f l).
Proof.
  induction 1 as [|x l Hx Hl IH]; [done|]. cbn [sort_by foldr List.filter]. fold (sort_by l).
  rewrite insert_by_filter; [|done|by rewrite sort_by_perm|by apply sort_by_sorted]. rewrite IH.
  by destruct (f x).
Qed.
End SortBy.

(** ** Lists without repetition, in first-seen order *)

Section PushNew.
Context {A : Type} `{EqDecision A}.

(** [if !acc.contains(x) { acc.push(x) }] *)
Definition push_new (acc : list A) (x : A) : list A :=
  if bool_decide (x ∈ acc) then acc else acc ++ [x].

Definition first_seen (l : list A) : list A := foldl push_new [] l.

Lemma push_new_elem acc x y : y ∈ push_new acc x <-> y ∈ acc \/ y = x.
Proof.
  unfold push_new. case_bool_decide; rewrite ?elem_of_app, ?list_elem_of_singleton; [|tauto].
  split; [tauto|]. intros [?| ->]; done.
Qed.

Lemma push_new_nodup acc x : NoDup acc -> NoDup (push_new acc x).
Proof.
  intros H. unfold push_new. case_bool_decide; [done|].
  apply NoDup_app. split_and!; [done| |apply NoDup_singleton].
  intros y Hy ->%list_elem_of_singleton. done.
Qed.

Lemma foldl_push_elem l acc y : y ∈ foldl push_new acc l <-> y ∈ acc \/ y ∈ l.
Proof.
  revert acc. induction l as [|x l IH]; intros acc; cbn.
  - split; [tauto|]. intros [?|H]; [done|by apply elem_of_nil in H].
  - rewrite IH, push_new_elem, elem_of_cons. tauto.
Qed.

Lemma foldl_push_nodup l acc : NoDup acc -> NoDup (foldl push_new acc l).
Proof.
  revert acc. induction l as [|x l IH]; intros acc H; cbn; [done|].
  by apply IH, push_new_nodup.
Qed.

Lemma first_seen_elem l y : y ∈ first_seen l <-> y ∈ l.
Proof.
  unfold first_seen. rewrite foldl_push_elem. split; [|by right].
  intros [H|?]; [by apply elem_of_nil in H|done].
Qed.

Lemma first_seen_nodup l : NoDup (first_seen l).
Proof. apply foldl_push_nodup, NoDup_nil_2. Qed.

Lemma first_seen_app l x : first_seen (l ++ [x]) = push_new (first_seen l) x.
Proof. unfold first_seen. by rewrite foldl_app. Qed.
End PushNew.

(** ** First maximum *)

Section FirstMax.
Context {A : Type} (gt : A -> A -> bool).

Definition max_step (acc : option A) (x : A) : option A :=
  match acc with
  | None => Some x
  | Some e => if gt x e then Some x else Some e
  end.

(** The first element no other element is above: what a scan keeps when only a
    strictly greater candidate replaces the current one. *)
Definition first_max (l : list A) : option A := foldl max_step None l.

Lemma first_max_app l x : first_max (l ++ [x]) = max_step (first_max l) x.
Proof. unfold first_max. by rewrite foldl_app. Qed.

Lemma first_max_none l : first_max l = None <-> l = [].
Proof.
  induction l as [|x l _] using rev_ind; [done|]. rewrite first_max_app.
  split; [|intros H; by destruct l].
  destruct (first_max l); cbn; [destruct (gt x a)|]; done.
Qed.

Context (cmp : A -> A -> comparison) `{!OrdLaws cmp}.
Hypothesis gt_cmp : forall x y, gt x y = true <-> cmp x y = Gt.

Lemma first_max_spec l w :
  first_max l = Some w ->
  exists l1 l2, l = l1 ++ w :: l2
    /\ (forall x, x ∈ l1 -> cmp x w = Lt) /\ (forall x, x ∈ l2 -> cmp x w <> Gt).
Proof.
  revert w. induction l as [|x l IH] using rev_ind; intros w; [done|].
  rewrite first_max_app. destruct (first_max l) as [e|] eqn:E; cbn.
  - destruct (IH e eq_refl) as (l1 & l2 & -> & H1 & H2).
    destruct (gt x e) eqn:G; intros [= <-].
    + exists (l1 ++ e :: l2), []. split; [done|]. split; [|intros ? []%elem_of_nil].
      apply gt_cmp in G.
      assert (cmp e x = Lt) by (rewrite (ord_sym cmp x e), G; done).
      intros y [Hy|[->|Hy]%elem_of_cons]%elem_of_app; [|done|].
      * by apply (ord_trans cmp y e x); [apply H1|].
      * apply (on_le_lt_trans cmp y e x); auto.
    + exists l1, (l2 ++ [x]). split; [by rewrite <- app_assoc|]. split; [done|].
      intros y [Hy| ->%list_elem_of_singleton]%elem_of_app; [auto|].
      intros C%gt_cmp. congruence.
  - apply first_max_none in E as ->. intros [= <-]. exists [], []. split; [done|].
    split; intros ? []%elem_of_nil.
Qed.

Lemma first_max_elem l w : first_max l = Some w -> w ∈ l.
Proof.
  intros (l1 & l2 & -> & _)%first_max_spec. apply elem_of_app. right. by left.
Qed.

Lemma first_max_ge l w x : first_max l = Some w -> x ∈ l -> cmp x w <> Gt.
Proof.
  intros (l1 & l2 & -> & H1 & H2)%first_max_spec [Hx|[->|Hx]%elem_of_cons]%elem_of_app.
  - by rewrite H1.
  - by rewrite (ord_refl cmp).
  - auto.
Qed.

(** The maximum's rank does not depend on the order of the elements. *)
Lemma first_max_perm l l' w :
  l ≡ₚ l' -> first_max l = Some w ->
  exists w', first_max l' = Some w' /\ cmp w w' = Eq.
Proof.
  intros Hp Hw. destruct (first_max l') as [w'|] eqn:E.
  - exists w'. split; [done|].
    apply (on_le_antisym (P := fun _ => True) cmp); [done|done| |].
    + apply (first_max_ge l'); [done|]. rewrite <- Hp. by apply first_max_elem.
    + apply (first_max_ge l); [done|]. rewrite Hp. by apply first_max_elem.
  - apply first_max_none in E as ->. symmetry in Hp.
    apply Permutation_nil_l in Hp. by subst.
Qed.
End FirstMax.

(** ** Keeping the first maximum of each key in a map *)

Section GroupBest.
Context {K A : Type} `{Countable K} (keyof : A -> K) (gt : A -> A -> bool).

Definition group_step (acc : list K * gmap K A) (x : A) : list K * gmap K A :=
  match snd acc !! keyof x with
  | None => (fst acc ++ [keyof x], <[keyof x := x]> (snd acc))
  | Some e => if gt x e then (fst acc, <[keyof x := x]> (snd acc)) else acc
  end.

Definition with_key (k : K) (l : list A) : list A :=
  List.filter (fun x => bool_decide (keyof x = k)) l.

Lemma with_key_elem k l x : x ∈ with_key k l <-> x ∈ l /\ keyof x = k.
Proof.
  unfold with_key. rewrite !list_elem_of_In, filter_In, bool_decide_eq_true. done.
Qed.

Lemma with_key_app k l x :
  with_key k (l ++ [x]) = with_key k l ++ (if bool_decide (keyof x = k) then [x] else []).
Proof. unfold with_key. by rewrite List.filter_app. Qed.

Lemma group_fold l :
  fst (foldl group_step ([], ∅) l) = first_seen (map keyof l)
  /\ forall k, snd (foldl group_step ([], ∅) l) !! k = first_max gt (with_key k l).
Proof.
  induction l as [|x l IH] using rev_ind.
  - split; [done|]. intros k. apply lookup_empty.
  - rewrite foldl_app. cbn [foldl]. destruct (foldl group_step ([], ∅) l) as [o m].
    destruct IH as [Ho Hm]. cbn in Ho, Hm.
    rewrite map_app. cbn [map]. rewrite first_seen_app, <- Ho.
    unfold group_step, push_new. cbn [fst snd]. rewrite Hm.
    destruct (first_max gt (with_key (keyof x) l)) as [e|] eqn:E.
    + rewrite bool_decide_eq_true_2.
      2: { rewrite Ho, first_seen_elem. apply list_elem_of_In, in_map_iff.
           destruct (with_key (keyof x) l) as [|y ys] eqn:Ey; [done|].
           assert (Hy : y ∈ with_key (keyof x) l) by (rewrite Ey; by left).
           apply with_key_elem in Hy as [Hy Hk]. exists y.
           by rewrite <- list_elem_of_In. }
      split; [by destruct (gt x e)|]. intros k. rewrite with_key_app.
      destruct (decide (keyof x = k)) as [<-|Hne].
      * rewrite bool_decide_eq_true_2, first_max_app, E by done. cbn.
        destruct (gt x e); cbn; [by rewrite lookup_insert_eq|]. by rewrite Hm.
      * rewrite bool_decide_eq_false_2, app_nil_r by done.
        destruct (gt x e); cbn; [by rewrite lookup_insert_ne|done].
    + rewrite bool_decide_eq_false_2.
      2: { rewrite Ho, first_seen_elem, list_elem_of_In, in_map_iff. intros (y & Hk & Hy).
           apply first_max_none in E.
           assert (Hy' : y ∈ with_key (keyof x) l)
             by (apply with_key_elem; by rewrite list_elem_of_In).
           rewrite E in Hy'. by apply elem_of_nil in Hy'. }
      split; [done|]. intros k. rewrite with_key_app. cbn.
      destruct (decide (keyof x = k)) as [<-|Hne].
      * by rewrite bool_decide_eq_true_2, first_max_app, E, lookup_insert_eq.
      * by rewrite bool_decide_eq_false_2, app_nil_r, lookup_insert_ne.
Qed.

(** [keys.into_iter().filter_map(|k| map.remove(&k))] *)
Fixpoint take_keys (ks : list K) (m : gmap K A) : list A * gmap K A :=
  match ks with
  | [] => ([], m)
  | k :: ks' =>
      match m !! k with
      | Some x => let '(xs, m') := take_keys ks' (delete k m) in (x :: xs, m')
      | None => take_keys ks' m
      end
  end.

Lemma omap_ext_in {B} (f g : K -> option B) (ks : list K) :
  (forall k, k ∈ ks -> f k = g k) -> omap f ks = omap g ks.
Proof.
  induction ks as [|k ks IH]; intros Hfg; cbn; [done|].
  rewrite (Hfg k) by by left. rewrite IH; [done|]. intros k' Hk'. apply Hfg. by right.
Qed.

Lemma take_keys_omap ks m : NoDup ks -> fst (take_keys ks m) = omap (m !!.) ks.
Proof.
  intros Hnd. revert m. induction Hnd as [|k ks Hk Hnd IH]; intros m; cbn; [done|].
  destruct (m !! k) as [x|] eqn:E; [|apply IH].
  specialize (IH (delete k m)). destruct (take_keys ks (delete k m)) as [xs m'].
  cbn in *. rewrite IH. f_equal. apply omap_ext_in.
  intros k' Hk'. rewrite lookup_delete_ne; [done|]. by intros ->.
Qed.
End GroupBest.

(** A list without repeated keys is its own grouping. *)
Section GroupNoDup.
Context {K A : Type} `{Countable K} (keyof : A -> K) (gt : A -> A -> bool).

Lemma first_seen_id (l : list K) : NoDup l -> first_seen l = l.
Proof.
  induction l as [|k l IH] using rev_ind; intros Hnd; [done|].
  apply NoDup_app in Hnd as (Hl & Hk & _). rewrite first_seen_app, IH by done.
  unfold push_new. rewrite bool_decide_eq_false_2; [done|]. intros Hin.
  apply (Hk k Hin). by left.
Qed.

Lemma with_key_nodup l x : NoDup (map keyof l) -> x ∈ l -> with_key keyof (keyof x) l = [x].
Proof.
  induction l as [|y l IH]; intros Hnd Hx; [by apply elem_of_nil in Hx|].
  cbn in Hnd. apply NoDup_cons in Hnd as [Hy Hnd]. unfold with_key. cbn.
  apply elem_of_cons in Hx as [<-|Hx].
  - rewrite bool_decide_eq_true_2 by done. f_equal. fold (with_key keyof (keyof x) l).
    destruct (with_key keyof (keyof x) l) as [|z zs] eqn:E; [done|]. exfalso.
    assert (Hz : z ∈ with_key keyof (keyof x) l) by (rewrite E; by left).
    apply with_key_elem in Hz as [Hz Hk]. apply Hy. rewrite <- Hk.
    by apply (list_elem_of_fmap_2 keyof).
  - rewrite bool_decide_eq_false_2; [by apply IH|]. intros E. apply Hy. rewrite E.
    by apply (list_elem_of_fmap_2 keyof).
Qed.

Lemma omap_key_id (f : K -> option A) (l : list A) :
  (forall x, x ∈ l -> f (keyof x) = Some x) -> omap f (map keyof l) = l.
Proof.
  induction l as [|x l IH]; intros Hall; [done|]. cbn.
  rewrite (Hall x) by by left. f_equal. apply IH. intros y Hy. apply Hall. by right.
Qed.

Lemma group_nodup_id l :
  NoDup (map keyof l) ->
  omap (fun k => first_max gt (with_key keyof k l)) (first_seen (map keyof l)) = l.
Proof.
  intros Hnd. rewrite first_seen_id by done. apply omap_key_id.
  intros x Hx. by rewrite with_key_nodup.
Qed.
End GroupNoDup.

Section FirstMaxAcc.
Context {A : Type} (gt : A -> A -> bool) (cmp : A -> A -> comparison) `{!OrdLaws cmp}.
Hypothesis gt_cmp : forall x y, gt x y = true <-> cmp x y = Gt.

(** A scan that starts from [w] compares [w] with the maximum of the rest. *)
Lemma first_max_acc w l :
  foldl (max_step gt) (Some w) l
  = match first_max gt l with
    | Some x => if gt x w then Some x else Some w
    | None => Some w
    end.
Proof.
  induction l as [|y l IH] using rev_ind; [done|].
  rewrite foldl_app, first_max_app. cbn [foldl]. rewrite IH.
  destruct (first_max gt l) as [x|]; cbn; [|done].
  assert (Htr : gt x w = true -> gt y x = true -> gt y w = true).
  { rewrite !gt_cmp, !(on_gt_lt (P := fun _ => True) cmp) by done.
    intros. by apply (ord_trans cmp w x y). }
  assert (Htr' : gt x w = false -> gt y x = false -> gt y w = false).
  { rewrite <- !not_true_iff_false, !gt_cmp. intros H1 H2 H3.
    apply (on_le_trans (P := fun _ => True) cmp y x w); done. }
  destruct (gt x w) eqn:E1, (gt y x) eqn:E2; cbn; rewrite ?E1, ?E2; try done.
  - by rewrite Htr.
  - by rewrite Htr'.
Qed.
End FirstMaxAcc.
