(* ===== verification/VInt.v ===== *)
(** Variable-length integers: the read-side decoder and the encoders of
    [cqlite-core/src/parser/vint.rs], and the write-side encoder of
    [cqlite-core/src/storage/serialization/vint.rs]. *)

From S2P Require Import Prelude.

(** ** The decoder (parser/vint.rs) *)

Definition MAX_VINT_SIZE : Z := 9.
Definition MAX_VINT_LENGTH : Z := 1024 * 1024 * 1024.

Inductive VIntError := Truncated.

#[export] Instance VIntError_eq_dec : EqDecision VIntError.
Proof. solve_decision. Defined.

(** [u8::leading_ones] and [u64::leading_zeros]: bits scanned from the top. *)
Fixpoint leading_run (bit : bool) (k : nat) (x : Z) : nat :=
  match k with
  | O => O
  | S k' => if Bool.eqb (Z.testbit x (Z.of_nat k')) bit
            then S (leading_run bit k' x) else O
  end.

Definition leading_ones8 (b : Z) : nat := leading_run true 8 b.
Definition leading_zeros64 (x : Z) : nat := leading_run false 64 x.

Definition decode_unsigned (input : list Z) : result VIntError (Z * nat) :=
  first ← ok_or Truncated (head input);
  let extra := leading_ones8 first in
  let total := (extra + 1)%nat in
  if (length input <? total)%nat then Err Truncated
  else if (extra =? 0)%nat then Ok (first, 1%nat)
  else
    let rest := drop 1 input in
    let be := replicate (8 - extra) 0 ++ take extra rest in
    let tail := from_be be in
    let value :=
      if (extra =? 8)%nat then tail
      else
        let data_bits_first := 7 - Z.of_nat extra in
        let mask := Z.shiftl 1 data_bits_first - 1 in
        Z.lor (as_u64 (Z.shiftl (Z.land first mask) (Z.of_nat extra * 8))) tail in
    Ok (value, total).

(** [((value >> 1) ^ ((!0u64).wrapping_mul(value & 1))) as i64] *)
Definition zigzag_decode (value : Z) : Z :=
  as_i64 (Z.lxor (Z.shiftr value 1) (as_u64 (u64_MAX * Z.land value 1))).

(** [((value << 1) ^ (value >> 63)) as u64]; the shift of an [i64] drops the
    top bit. *)
Definition zigzag_encode (value : Z) : Z :=
  as_u64 (Z.lxor (as_i64 (Z.shiftl value 1)) (Z.shiftr value 63)).

Definition decode_signed (input : list Z) : result VIntError (Z * nat) :=
  '(unsigned, consumed) ← decode_unsigned input;
  Ok (zigzag_decode unsigned, consumed).

(** The nom adapters: a failure carries the input it failed on. *)
Inductive ErrorKind := Eof | Verify | TooLarge.
Definition nom_error : Type := list Z * ErrorKind.

#[export] Instance ErrorKind_eq_dec : EqDecision ErrorKind.
Proof. solve_decision. Defined.

Definition parse_vint (input : list Z) : result nom_error (list Z * Z) :=
  match decode_signed input with
  | Ok (value, consumed) => Ok (drop consumed input, value)
  | Err _ => Err (input, Eof)
  end.

Definition parse_vuint (input : list Z) : result nom_error (list Z * Z) :=
  match decode_unsigned input with
  | Ok (value, consumed) => Ok (drop consumed input, value)
  | Err _ => Err (input, Eof)
  end.

Definition parse_vint_length (input : list Z) : result nom_error (list Z * Z) :=
  '(remaining, value) ← parse_vuint input;
  if value >? MAX_VINT_LENGTH then Err (input, TooLarge)
  else Ok (remaining, value).

Definition parse_vint_length_signed (input : list Z) : result nom_error (list Z * Z) :=
  '(remaining, value) ← parse_vint input;
  if value <? 0 then Err (input, Verify)
  else if value >? MAX_VINT_LENGTH then Err (input, TooLarge)
  else Ok (remaining, value).

(** ** The encoders (parser/vint.rs) *)

(** [((value >> n) & 0xFF) as u8] *)
Definition byte_at (value n : Z) : Z := as_u8 (Z.land (Z.shiftr value n) 0xFF).
(** [(value & 0xFF) as u8] *)
Definition low_byte (value : Z) : Z := as_u8 (Z.land value 0xFF).
(** [tag | ((value >> n) & m) as u8] *)
Definition lead_byte (tag value n m : Z) : Z :=
  Z.lor tag (as_u8 (Z.land (Z.shiftr value n) m)).

Definition vint_size (value : Z) : Z :=
  if value =? 0 then 1
  else if value <=? 127 then 1
  else if value <=? 16383 then 2
  else if value <=? 2097151 then 3
  else if value <=? 268435455 then 4
  else if value <=? 34359738367 then 5
  else if value <=? 4398046511103 then 6
  else if value <=? 562949953421311 then 7
  else if value <=? 72057594037927935 then 8
  else 9.

Definition encode_vuint (value : Z) : list Z :=
  if value <=? 0x7F then [as_u8 value]
  else if value <=? 0x3FFF then
    [lead_byte 0x80 value 8 0x3F; low_byte value]
  else if value <=? 0x1FFFFF then
    [lead_byte 0xC0 value 16 0x1F; byte_at value 8; low_byte value]
  else if value <=? 0xFFFFFFF then
    [lead_byte 0xE0 value 24 0x0F; byte_at value 16; byte_at value 8; low_byte value]
  else if value <=? 0x7FFFFFFFF then
    [lead_byte 0xF0 value 32 0x07; byte_at value 24; byte_at value 16;
     byte_at value 8; low_byte value]
  else if value <=? 0x3FFFFFFFFFF then
    [lead_byte 0xF8 value 40 0x03; byte_at value 32; byte_at value 24;
     byte_at value 16; byte_at value 8; low_byte value]
  else if value <=? 0x1FFFFFFFFFFFF then
    [lead_byte 0xFC value 48 0x01; byte_at value 40; byte_at value 32;
     byte_at value 24; byte_at value 16; byte_at value 8; low_byte value]
  else if value <=? 0xFFFFFFFFFFFFFF then
    [0xFE; byte_at value 48; byte_at value 40; byte_at value 32;
     byte_at value 24; byte_at value 16; byte_at value 8; low_byte value]
  else
    [0xFF; byte_at value 56; byte_at value 48; byte_at value 40; byte_at value 32;
     byte_at value 24; byte_at value 16; byte_at value 8; low_byte value].

Definition encode_vint_zigzag (value : Z) : list Z :=
  let unsigned_value := zigzag_encode value in
  if unsigned_value <=? 0x7F then [as_u8 unsigned_value]
  else if unsigned_value <=? 0x3FFF then
    [lead_byte 0x80 unsigned_value 8 0x3F; low_byte unsigned_value]
  else if unsigned_value <=? 0x1FFFFF then
    [lead_byte 0xC0 unsigned_value 16 0x1F; byte_at unsigned_value 8;
     low_byte unsigned_value]
  else if unsigned_value <=? 0xFFFFFFF then
    [lead_byte 0xE0 unsigned_value 24 0x0F; byte_at unsigned_value 16;
     byte_at unsigned_value 8; low_byte unsigned_value]
  else if unsigned_value <=? 0x7FFFFFFFF then
    [lead_byte 0xF0 unsigned_value 32 0x07; byte_at unsigned_value 24;
     byte_at unsigned_value 16; byte_at unsigned_value 8; low_byte unsigned_value]
  else if unsigned_value <=? 0x3FFFFFFFFFF then
    [lead_byte 0xF8 unsigned_value 40 0x03; byte_at unsigned_value 32;
     byte_at unsigned_value 24; byte_at unsigned_value 16; byte_at unsigned_value 8;
     low_byte unsigned_value]
  else if unsigned_value <=? 0x1FFFFFFFFFFFF then
    [lead_byte 0xFC unsigned_value 48 0x01; byte_at unsigned_value 40;
     byte_at unsigned_value 32; byte_at unsigned_value 24; byte_at unsigned_value 16;
     byte_at unsigned_value 8; low_byte unsigned_value]
  else if unsigned_value <=? 0xFFFFFFFFFFFFFF then
    [0xFE; byte_at unsigned_value 48; byte_at unsigned_value 40;
     byte_at unsigned_value 32; byte_at unsigned_value 24; byte_at unsigned_value 16;
     byte_at unsigned_value 8; low_byte unsigned_value]
  else
    [0xFF; byte_at unsigned_value 56; byte_at unsigned_value 48;
     byte_at unsigned_value 40; byte_at unsigned_value 32; byte_at unsigned_value 24;
     byte_at unsigned_value 16; byte_at unsigned_value 8; low_byte unsigned_value].

Definition encode_vint (value : Z) : list Z := encode_vint_zigzag value.

(** ** The write-side encoder (storage/serialization/vint.rs) *)

Definition unsigned_len_value (value : Z) : Z :=
  let magnitude := Z.of_nat (leading_zeros64 (Z.lor value 1)) in
  Z.shiftr (639 - magnitude * 9) 6.

Definition unsigned_len (value : Z) : Z := unsigned_len_value value.

Definition signed_len (value : Z) : Z := unsigned_len_value (zigzag_encode value).

Definition encode_extra_bytes_to_read (extra_bytes : Z) : Z :=
  if extra_bytes =? 0 then 0x00
  else if extra_bytes >=? 8 then 0xFF
  else as_u8 (Z.shiftl 0xFF (8 - extra_bytes)).

(** [for i in (0..n).rev() { buf.push(((value >> (i * 8)) & 0xFF) as u8) }] *)
Fixpoint push_be (n : nat) (value : Z) (buf : list Z) : list Z :=
  match n with
  | O => buf
  | S i => push_be i value (buf ++ [byte_at value (Z.of_nat i * 8)])
  end.

Definition encode_unsigned (value : Z) (buf : list Z) : list Z :=
  let size := unsigned_len_value value in
  if size =? 1 then buf ++ [as_u8 value]
  else if size =? 9 then buf ++ [0xFF] ++ be_bytes 8 value
  else
    let extra_bytes := size - 1 in
    let mask := encode_extra_bytes_to_read extra_bytes in
    let first_byte_data_bits := 8 - extra_bytes - 1 in
    let shift := extra_bytes * 8 in
    let first_byte_data :=
      as_u8 (Z.land (Z.shiftr value shift) (Z.shiftl 1 first_byte_data_bits - 1)) in
    push_be (Z.to_nat extra_bytes) value (buf ++ [Z.lor mask first_byte_data]).

Definition encode_signed (value : Z) (buf : list Z) : list Z :=
  encode_unsigned (zigzag_encode value) buf.

(** ** The canonical form *)

(** What every encoder writes: [e] continuation bytes behind a lead byte whose
    [e] leading ones announce them. *)
Definition canonical (e : nat) (v : Z) : list Z :=
  Z.lor (Z.land (Z.shiftl 0xFF (8 - Z.of_nat e)) 0xFF) (Z.shiftr v (8 * Z.of_nat e))
  :: be_bytes e v.

(** The values [e] continuation bytes can carry. *)
Definition fits (e : nat) (v : Z) : Prop :=
  (e < 8)%nat /\ u_range (7 * (Z.of_nat e + 1)) v \/ e = 8%nat /\ u_range 64 v.

Lemma byte_land_255 x : as_u8 (Z.land x 0xFF) = Z.land x 255.
Proof. rewrite land_255. apply wrap_id, (wrap_range 8). lia. Qed.

Lemma byte_at_eq v n : byte_at v n = Z.land (Z.shiftr v n) 255.
Proof. apply byte_land_255. Qed.

Lemma low_byte_eq v : low_byte v = Z.land (Z.shiftr v (8 * Z.of_nat 0)) 255.
Proof. unfold low_byte. rewrite byte_land_255, Z.shiftr_0_r. done. Qed.

(** Masking the lead byte's data bits is the identity on a value that fits. *)
Lemma lead_byte_eq tag v n m k :
  m = Z.ones k -> 0 <= n -> 0 <= k <= 8 -> u_range (n + k) v ->
  lead_byte tag v n m = Z.lor tag (Z.shiftr v n).
Proof.
  intros -> Hn Hk [Hv1 Hv2]. unfold lead_byte. f_equal.
  assert (Hs : u_range k (Z.shiftr v n)).
  { rewrite Z.shiftr_div_pow2 by lia. rewrite Z.pow_add_r in Hv2 by lia.
    split; [apply Z.div_pos; lia|apply Z.div_lt_upper_bound; lia]. }
  rewrite Z.land_ones, (Z.mod_small _ (2 ^ k)) by (apply Hs || lia).
  apply wrap_id, (u_range_mono k); [lia|done].
Qed.

Lemma shiftr_big v n : 0 <= n -> u_range n v -> Z.shiftr v n = 0.
Proof. intros Hn Hv. rewrite Z.shiftr_div_pow2 by lia. by apply Z.div_small. Qed.

(** The number of continuation bytes [encode_vuint] picks. *)
Definition extra_of (v : Z) : nat :=
  if v <=? 0x7F then 0 else if v <=? 0x3FFF then 1 else if v <=? 0x1FFFFF then 2
  else if v <=? 0xFFFFFFF then 3 else if v <=? 0x7FFFFFFFF then 4
  else if v <=? 0x3FFFFFFFFFF then 5 else if v <=? 0x1FFFFFFFFFFFF then 6
  else if v <=? 0xFFFFFFFFFFFFFF then 7 else 8.

Lemma extra_of_fits v : is_u64 v -> fits (extra_of v) v.
Proof.
  unfold is_u64, u_range, extra_of, fits. intros Hv.
  repeat case_zb; first [left; split; [lia|] | right; split; [done|]];
    unfold u_range; simpl; lia.
Qed.

Lemma extra_of_le v : (extra_of v <= 8)%nat.
Proof. unfold extra_of. repeat case_zb; lia. Qed.

Ltac lead_byte_tac :=
  match goal with
  | |- context [lead_byte ?t ?v ?n ?m] =>
      rewrite (lead_byte_eq t v n m (Z.log2 m + 1));
      [reflexivity|reflexivity|lia|cbn; lia|unfold u_range; cbn; lia]
  end.

Lemma encode_vuint_canonical v : is_u64 v -> encode_vuint v = canonical (extra_of v) v.
Proof.
  unfold is_u64, u_range. intros Hv. unfold encode_vuint, extra_of, canonical.
  repeat case_zb; rewrite ?byte_at_eq, ?low_byte_eq; cbn [be_bytes]; f_equal;
    try lead_byte_tac.
  - rewrite Z.shiftr_0_r, Z.lor_0_l. apply wrap_id. unfold u_range. lia.
  - by rewrite (shiftr_big v) by (unfold u_range; cbn; lia).
  - by rewrite (shiftr_big v) by (unfold u_range; cbn; lia).
Qed.

(** ** Decoding the canonical form *)

Definition lead_ok (e : nat) (d : Z) : bool :=
  let h := Z.lor (Z.land (Z.shiftl 0xFF (8 - Z.of_nat e)) 0xFF) d in
  (leading_ones8 h =? e)%nat && (0 <=? h) && (h <? 256)
  && (Z.land h (Z.shiftl 1 (7 - Z.of_nat e) - 1) =? (if (e =? 8)%nat then Z.land h (-1) else d)).

Lemma lead_ok_all :
  forallb (fun e => forallb (lead_ok e) (seqZ 0 (Z.max 1 (2 ^ (7 - Z.of_nat e)))))
    (seq 0 9) = true.
Proof. vm_compute. reflexivity. Qed.

Lemma lead_facts e d :
  (e <= 8)%nat -> 0 <= d < Z.max 1 (2 ^ (7 - Z.of_nat e)) -> lead_ok e d = true.
Proof.
  intros He Hd. pose proof lead_ok_all as H. rewrite forallb_forall in H.
  specialize (H e). rewrite forallb_forall in H. apply H.
  - apply in_seq. lia.
  - apply list_elem_of_In, elem_of_seqZ. lia.
Qed.

Lemma fits_data_bits e v :
  fits e v -> 0 <= Z.shiftr v (8 * Z.of_nat e) < Z.max 1 (2 ^ (7 - Z.of_nat e)).
Proof.
  intros [[He Hv]|[-> Hv]].
  - destruct Hv as [Hv1 Hv2]. rewrite Z.shiftr_div_pow2 by lia.
    replace (7 * (Z.of_nat e + 1)) with (8 * Z.of_nat e + (7 - Z.of_nat e)) in Hv2 by lia.
    rewrite Z.pow_add_r in Hv2 by lia.
    pose proof (Z.pow_pos_nonneg 2 (8 * Z.of_nat e)).
    assert (v / 2 ^ (8 * Z.of_nat e) < 2 ^ (7 - Z.of_nat e))
      by (apply Z.div_lt_upper_bound; lia).
    split; [apply Z.div_pos; lia|lia].
  - rewrite shiftr_big by (done || lia). simpl. lia.
Qed.

Lemma fits_le e v : fits e v -> (e <= 8)%nat.
Proof. intros [[? _]|[-> _]]; lia. Qed.

Lemma fits_u64 e v : fits e v -> is_u64 v.
Proof.
  intros [[He Hv]|[-> Hv]]; [|done]. eapply u_range_mono, Hv. lia.
Qed.

Lemma canonical_length e v : length (canonical e v) = S e.
Proof. cbn. by rewrite be_bytes_length. Qed.

Lemma canonical_bytes e v : fits e v -> Forall is_byte (canonical e v).
Proof.
  intros Hf. constructor; [|apply be_bytes_bytes].
  pose proof (lead_facts e _ (fits_le _ _ Hf) (fits_data_bits _ _ Hf)) as H.
  unfold lead_ok in H. unfold is_byte, u_range. lia.
Qed.

(** The decoder inverts the canonical form, whatever follows it in the input. *)
Lemma decode_canonical e v rest :
  fits e v -> decode_unsigned (canonical e v ++ rest) = Ok (v, S e).
Proof.
  intros Hf.
  pose proof (lead_facts e _ (fits_le _ _ Hf) (fits_data_bits _ _ Hf)) as Hl.
  pose proof (fits_le _ _ Hf) as He.
  unfold lead_ok in Hl. apply andb_true_iff in Hl as [Hl Hd].
  repeat rewrite andb_true_iff in Hl. destruct Hl as [[Hlo Hh1] Hh2].
  apply Nat.eqb_eq in Hlo. apply Z.eqb_eq in Hd.
  unfold decode_unsigned. unfold canonical in *. cbn [app head ok_or mbind result_bind].
  set (h := Z.lor _ _) in *. rewrite Hlo.
  replace (_ <? e + 1)%nat with false
    by (symmetry; apply Nat.ltb_ge; cbn; rewrite length_app, be_bytes_length; lia).
  replace (e + 1)%nat with (S e) by lia.
  rewrite skipn_cons, drop_0. rewrite take_app_length' by (symmetry; apply be_bytes_length).
  rewrite from_be_zeros, from_be_bytes, pow256.
  destruct (Nat.eqb_spec e 0) as [->|Hne].
  { assert (h = v) as ->; [|done].
    destruct Hf as [[_ Hv]|[? _]]; [|lia].
    unfold h. change (Z.land (0xFF ≪ (8 - Z.of_nat 0)) 0xFF) with 0.
    by rewrite Z.shiftr_0_r, Z.lor_0_l. }
  destruct (Nat.eqb_spec e 8) as [->|Hne8].
  { destruct Hf as [[? _]|[_ Hv]]; [lia|]. by rewrite Z.mod_small by apply Hv. }
  rewrite Hd. do 2 f_equal.
  pose proof (Z.mod_pos_bound v (2 ^ (8 * Z.of_nat e)) ltac:(apply Z.pow_pos_nonneg; lia)).
  assert (Hu := fits_u64 _ _ Hf).
  unfold as_u64, is_u64 in *. rewrite (Z.mul_comm (Z.of_nat e)), wrap_id.
  - rewrite lor_add by lia. rewrite Z.shiftr_div_pow2 by lia.
    rewrite Z.mul_comm. symmetry. apply Z.div_mod. 
    pose proof (Z.pow_pos_nonneg 2 (8 * Z.of_nat e)). lia.
  - rewrite Z.shiftl_mul_pow2, Z.shiftr_div_pow2 by lia.
    pose proof (Z.mul_div_le v (2 ^ (8 * Z.of_nat e)) ltac:(apply Z.pow_pos_nonneg; lia)).
    unfold u_range in *. split; [|lia].
    apply Z.mul_nonneg_nonneg; [apply Z.div_pos|]; lia.
Qed.

(** ** ZigZag *)

Lemma zigzag_encode_arith v :
  is_i64 v -> zigzag_encode v = if v >=? 0 then 2 * v else - 2 * v - 1.
Proof.
  unfold is_i64, i_range. cbn [Z.sub Z.add]. intros Hv. unfold zigzag_encode, as_u64, as_i64.
  rewrite Z.shiftl_mul_pow2, Z.shiftr_div_pow2 by lia. change (2 ^ 1) with 2.
  case_zb.
  - rewrite Z.div_small, Z.lxor_0_r, wrap_swrap by lia.
    rewrite wrap_id; [lia|unfold u_range; lia].
  - replace (v / 2 ^ 63) with (-1).
    2:{ apply (Z.div_unique _ _ _ (v + 2 ^ 63)); lia. }
    rewrite Z.lxor_m1_r. unfold Z.lnot, Z.pred, wrap, swrap. change (64 - 1) with 63.
    assert (Hm : (v * 2 + 2 ^ 63) mod 2 ^ 64 = v * 2 + 2 ^ 63
                 \/ (v * 2 + 2 ^ 63) mod 2 ^ 64 = v * 2 + 2 ^ 63 + 2 ^ 64).
    { destruct (decide (- 2 ^ 63 <= v * 2)); [left; apply Z.mod_small; lia|right].
      symmetry. apply (Z.mod_unique_pos _ _ (-1)); lia. }
    destruct Hm as [-> | ->].
    + rewrite Z.mod_small; lia.
    + symmetry. apply (Z.mod_unique_pos _ _ (-1)); lia.
Qed.

Lemma zigzag_decode_arith u :
  is_u64 u -> zigzag_decode u = if Z.even u then u / 2 else - (u / 2) - 1.
Proof.
  unfold is_u64, u_range. intros Hu. unfold zigzag_decode, as_i64, as_u64.
  change (Z.land u 1) with (Z.land u (Z.ones 1)).
  rewrite Z.land_ones, Z.shiftr_div_pow2, Zmod_even by lia. change (2 ^ 1) with 2.
  pose proof (Z.div_pos u 2 ltac:(lia) ltac:(lia)).
  pose proof (Z.div_lt_upper_bound u 2 (2 ^ 63) ltac:(lia) ltac:(lia)).
  destruct (Z.even u).
  - change (wrap 64 (u64_MAX * 0)) with 0. rewrite Z.lxor_0_r.
    apply swrap_id; unfold i_range; lia.
  - change (wrap 64 (u64_MAX * 1)) with (2 ^ 64 - 1).
    rewrite lxor_ones by (unfold u_range; lia). unfold swrap.
    rewrite <- (Z.mod_unique_pos _ (2 ^ 64) 1 (2 ^ 63 - 1 - u / 2)) by lia. lia.
Qed.

Lemma zigzag_encode_u64 v : is_i64 v -> is_u64 (zigzag_encode v).
Proof. intros _. apply wrap_range. lia. Qed.

Lemma zigzag_decode_i64 u : is_i64 (zigzag_decode u).
Proof. apply swrap_range. lia. Qed.

Lemma zigzag_decode_encode v : is_i64 v -> zigzag_decode (zigzag_encode v) = v.
Proof.
  intros Hv. rewrite zigzag_decode_arith by by apply zigzag_encode_u64.
  rewrite zigzag_encode_arith by done. case_zb.
  - rewrite Z.even_mul. cbn. rewrite Z.mul_comm, Z.div_mul by lia. done.
  - replace (-2 * v - 1) with (1 + (- v - 1) * 2) by lia.
    rewrite Z.even_add, Z.even_mul, orb_true_r. cbn.
    rewrite Z.div_add by lia. change (1 / 2) with 0. lia.
Qed.

Lemma zigzag_encode_decode u : is_u64 u -> zigzag_encode (zigzag_decode u) = u.
Proof.
  intros Hu. rewrite zigzag_encode_arith by apply zigzag_decode_i64.
  rewrite zigzag_decode_arith by done. unfold is_u64, u_range in Hu.
  pose proof (Z.div_mod u 2 ltac:(lia)) as E. rewrite Zmod_even in E.
  pose proof (Z.div_pos u 2 ltac:(lia) ltac:(lia)).
  destruct (Z.even u); case_zb; lia.
Qed.

(** ** Equivalence of the encoders *)

Lemma encode_vint_zigzag_eq v : encode_vint_zigzag v = encode_vuint (zigzag_encode v).
Proof. reflexivity. Qed.

(** Position of the highest set bit, read off [leading_run]. *)
Lemma leading_run_log2 k x :
  0 < x < 2 ^ Z.of_nat k -> Z.of_nat (leading_run false k x) = Z.of_nat k - 1 - Z.log2 x.
Proof.
  induction k as [|k IH]; intros Hx; [cbn in Hx; lia|].
  cbn [leading_run]. rewrite Nat2Z.inj_succ, Z.pow_succ_r in Hx by lia.
  destruct (decide (x < 2 ^ Z.of_nat k)) as [Hlt|Hge].
  - rewrite (testbit_above (Z.of_nat k)) by (unfold u_range; lia). cbn [Bool.eqb].
    rewrite Nat2Z.inj_succ, IH by lia. lia.
  - assert (Z.log2 x = Z.of_nat k) as Hl.
    { apply Z.log2_unique; [lia|]. rewrite Z.pow_succ_r; lia. }
    rewrite <- Hl, Z.bit_log2 by lia. cbn [Bool.eqb]. lia.
Qed.

Lemma log2_lor_1 v : 0 <= v -> Z.log2 (Z.lor v 1) = Z.log2 v.
Proof.
  intros Hv. rewrite Z.log2_lor by lia. change (Z.log2 1) with 0.
  pose proof (Z.log2_nonneg v). lia.
Qed.

(** The closed formula [(639 - 9 * clz(v | 1)) >> 6] agrees with the ladder. *)
Lemma unsigned_len_extra v : is_u64 v -> unsigned_len v = Z.of_nat (extra_of v) + 1.
Proof.
  intros Hv. unfold unsigned_len, unsigned_len_value, leading_zeros64.
  assert (H1 : 0 < Z.lor v 1 < 2 ^ Z.of_nat 64).
  { destruct (u_range_lor 64 v 1 ltac:(lia) Hv ltac:(unfold u_range; lia)) as [Hlo Hhi].
    split; [|done]. assert (Z.lor v 1 <> 0); [|lia].
    intros [_ ?]%Z.lor_eq_0_iff. done. }
  rewrite leading_run_log2, log2_lor_1 by (done || apply Hv).
  unfold is_u64, u_range in Hv. rewrite Z.shiftr_div_pow2 by lia.
  assert (Hlog : v = 0 \/ 2 ^ Z.log2 v <= v < 2 ^ Z.succ (Z.log2 v)).
  { destruct (decide (v = 0)); [by left|right; apply Z.log2_spec; lia]. }
  assert (Hr : 0 <= Z.log2 v < 64).
  { split; [apply Z.log2_nonneg|]. destruct (decide (v = 0)) as [->|]; [done|].
    apply Z.log2_lt_pow2; lia. }
  assert (Hn : In (Z.log2 v) (seqZ 0 64)) by (apply list_elem_of_In, elem_of_seqZ; lia).
  remember (Z.log2 v) as n eqn:En. unfold extra_of.
  destruct Hlog as [->|Hlog]; [subst n; reflexivity|].
  vm_compute seqZ in Hn. clear En Hr H1. simpl in Hn.
  repeat (destruct Hn as [<-|Hn];
    [cbn in Hlog; repeat (case_zb; try lia); vm_compute; reflexivity|]).
  destruct Hn.
Qed.

Lemma push_be_app n v buf : push_be n v buf = buf ++ be_bytes n v.
Proof.
  revert buf. induction n as [|n IH]; intros buf; cbn [push_be be_bytes].
  - by rewrite app_nil_r.
  - rewrite IH, <- app_assoc, byte_at_eq, (Z.mul_comm _ 8). done.
Qed.

Lemma extra_mask e :
  (1 <= e <= 7)%nat ->
  encode_extra_bytes_to_read (Z.of_nat e) = Z.land (Z.shiftl 0xFF (8 - Z.of_nat e)) 0xFF.
Proof.
  intros He. assert (In e (seq 1 7)) as Hin by (apply in_seq; lia). simpl in Hin.
  repeat (destruct Hin as [<-|Hin]; [reflexivity|]). destruct Hin.
Qed.

Lemma encode_unsigned_canonical v buf :
  is_u64 v -> encode_unsigned v buf = buf ++ canonical (extra_of v) v.
Proof.
  intros Hv. unfold encode_unsigned. fold (unsigned_len v).
  rewrite unsigned_len_extra by done. pose proof (extra_of_le v) as He.
  pose proof (extra_of_fits v Hv) as Hf. generalize dependent (extra_of v).
  intros e He Hf. destruct (Z.eqb_spec (Z.of_nat e + 1) 1) as [E|E].
  { assert (e = 0%nat) as -> by lia. unfold canonical. cbn [be_bytes]. do 2 f_equal.
    destruct Hf as [[_ Hf]|[? _]]; [|lia].
    rewrite Z.shiftr_0_r. apply wrap_id, (u_range_mono 7); [lia|exact Hf]. }
  destruct (Z.eqb_spec (Z.of_nat e + 1) 9) as [E9|E9].
  { assert (e = 8%nat) as -> by lia. unfold canonical.
    by rewrite (shiftr_big v) by (done || lia). }
  replace (Z.of_nat e + 1 - 1) with (Z.of_nat e) by lia.
  rewrite push_be_app, Nat2Z.id, <- app_assoc.
  rewrite extra_mask by lia.
  unfold canonical. cbn [app]. do 3 f_equal.
  replace (8 - Z.of_nat e - 1) with (7 - Z.of_nat e) by lia.
  rewrite (Z.mul_comm _ 8), land_low_mask by lia.
  pose proof (fits_data_bits e v Hf) as Hd.

  assert (H7 : 0 <= 7 - Z.of_nat e) by lia.
  pose proof (Z.pow_pos_nonneg 2 _ ltac:(lia) H7).
  rewrite Z.max_r in Hd by lia.
  rewrite Z.mod_small by lia. apply wrap_id, (u_range_mono (7 - Z.of_nat e)); [lia|done].
Qed.

(** ** What the decoder accepts *)

(** The value a lead byte [h] and its [e] continuation bytes [cs] denote. *)
Definition vint_value (e : nat) (h : Z) (cs : list Z) : Z :=
  if (e =? 0)%nat then h
  else if (e =? 8)%nat then from_be cs
  else Z.land h (Z.shiftl 1 (7 - Z.of_nat e) - 1) * 256 ^ Z.of_nat e + from_be cs.

Definition lead_data_ok (h : Z) : bool :=
  let e := leading_ones8 h in
  (e <=? 8)%nat &&
  ((e =? 8)%nat || (Z.land h (Z.shiftl 1 (7 - Z.of_nat e) - 1) <? 2 ^ (7 - Z.of_nat e))
                   && (0 <=? Z.land h (Z.shiftl 1 (7 - Z.of_nat e) - 1)))
  && (negb (e =? 0)%nat || (h <? 128)).

Lemma lead_data h : is_byte h -> lead_data_ok h = true.
Proof. apply byte_forall. vm_compute. reflexivity. Qed.

Lemma leading_ones8_le h : (leading_ones8 h <= 8)%nat.
Proof.
  unfold leading_ones8. generalize 8%nat. intros k.
  induction k as [|k IH]; cbn [leading_run]; [lia|]. destruct (Bool.eqb _ _); lia.
Qed.

Lemma vint_value_fits h cs :
  is_byte h -> Forall is_byte cs -> length cs = leading_ones8 h ->
  fits (leading_ones8 h) (vint_value (leading_ones8 h) h cs).
Proof.
  intros Hh Hcs Hlen. pose proof (lead_data h Hh) as Hd. unfold lead_data_ok in Hd.
  pose proof (from_be_bound cs Hcs) as Hb. rewrite Hlen in Hb.
  rewrite !andb_true_iff in Hd. destruct Hd as [[Hle Hd] H0].
  apply Nat.leb_le in Hle. remember (leading_ones8 h) as e eqn:Ee. clear Ee.
  unfold fits, vint_value, is_byte, u_range in *.
  destruct (Nat.eqb_spec e 8) as [->|Hne].
  { right. split; [done|]. cbn [Nat.eqb]. exact Hb. }
  left. split; [lia|]. cbn in Hd. apply andb_true_iff in Hd as [Hd1%Z.ltb_lt Hd2%Z.leb_le].
  destruct (Nat.eqb_spec e 0) as [->|Hne0].
  { cbn in H0. apply Z.ltb_lt in H0. split; [lia|]. cbn. lia. }
  split; [pose proof (pow256_pos e); nia|].
  replace (7 * (Z.of_nat e + 1)) with ((7 - Z.of_nat e) + 8 * Z.of_nat e) by lia.
  rewrite Z.pow_add_r, <- pow256 by lia. pose proof (pow256_pos e). nia.
Qed.

Lemma decode_unsigned_cons h t :
  is_byte h -> Forall is_byte t ->
  decode_unsigned (h :: t)
  = if (length t <? leading_ones8 h)%nat then Err Truncated
    else Ok (vint_value (leading_ones8 h) h (take (leading_ones8 h) t), S (leading_ones8 h)).
Proof.
  intros Hh Ht. unfold decode_unsigned. cbn [head ok_or mbind result_bind length].
  pose proof (leading_ones8_le h) as He.
  destruct (Nat.ltb_spec (length t) (leading_ones8 h)) as [Hlt|Hge].
  { by replace (_ <? _)%nat with true by (symmetry; apply Nat.ltb_lt; lia). }
  replace (_ <? _)%nat with false by (symmetry; apply Nat.ltb_ge; lia).
  rewrite Nat.add_1_r. rewrite skipn_cons, drop_0, from_be_zeros.
  assert (Hlen : length (take (leading_ones8 h) t) = leading_ones8 h)
    by (rewrite length_take; lia).
  assert (Hcs : Forall is_byte (take (leading_ones8 h) t)) by by apply Forall_take.
  pose proof (vint_value_fits h _ Hh Hcs Hlen) as Hf.
  pose proof (from_be_bound _ Hcs) as Hb. rewrite Hlen in Hb.
  remember (take (leading_ones8 h) t) as cs eqn:Ecs. clear Ecs.
  unfold vint_value in *. remember (leading_ones8 h) as e eqn:Ee. clear Ee.
  destruct (Nat.eqb_spec e 0) as [->|Hne0]; [done|].
  destruct (Nat.eqb_spec e 8) as [->|Hne8]; [done|].
  do 2 f_equal. apply fits_u64 in Hf. rewrite pow256 in Hb, Hf |- *.
  set (d := Z.land _ _) in *.
  assert (Hd0 : 0 <= d).
  { apply Z.land_nonneg. left. apply Hh. }
  unfold as_u64, is_u64, u_range in *. rewrite (Z.mul_comm (Z.of_nat e)), wrap_id.
  - rewrite lor_add by lia. done.
  - rewrite Z.shiftl_mul_pow2 by lia.
    pose proof (Z.pow_pos_nonneg 2 (8 * Z.of_nat e)). unfold u_range. nia.
Qed.

Lemma fits_extra_of e v : fits e v -> (extra_of v <= e)%nat.
Proof.
  intros Hf. destruct (decide (e = 8%nat)) as [->|]; [apply extra_of_le|].
  destruct Hf as [[He [H1 H2]]|[? _]]; [|lia].
  assert (In e (seq 0 8)) as Hin by (apply in_seq; lia). simpl in Hin. unfold extra_of.
  repeat (destruct Hin as [<-|Hin]; [cbn in H2; repeat (case_zb; try lia)|]). destruct Hin.
Qed.

(** ** Properties *)

Lemma decode_encode v rest :
  is_u64 v ->
  decode_unsigned (encode_vuint v ++ rest) = Ok (v, length (encode_vuint v)).
Proof.
  intros Hv. rewrite encode_vuint_canonical, canonical_length by done.
  by apply decode_canonical, extra_of_fits.
Qed.

Lemma parse_vuint_encode v rest : is_u64 v -> parse_vuint (encode_vuint v ++ rest) = Ok (rest, v).
Proof. intros Hv. unfold parse_vuint. by rewrite decode_encode, drop_app_length by done. Qed.

Lemma unsigned_len_vuint v : is_u64 v -> unsigned_len v = zlen (encode_vuint v).
Proof.
  intros Hv. rewrite encode_vuint_canonical, unsigned_len_extra by done.
  unfold zlen. rewrite canonical_length. lia.
Qed.

Lemma parse_vint_encode v rest : is_i64 v -> parse_vint (encode_vint v ++ rest) = Ok (rest, v).
Proof.
  intros Hv. unfold parse_vint, encode_vint, decode_signed.
  rewrite encode_vint_zigzag_eq, decode_encode by (by apply zigzag_encode_u64).
  cbn. by rewrite zigzag_decode_encode, drop_app_length by done.
Qed.

Lemma push_be_append n v : forall buf, push_be n v buf = buf ++ push_be n v [].
Proof.
  induction n as [|n IH]; intros buf; cbn [push_be]; [by rewrite app_nil_r|].
  by rewrite IH, (IH ([] ++ _)), app_assoc.
Qed.

Lemma encode_unsigned_append v buf : encode_unsigned v buf = buf ++ encode_unsigned v [].
Proof.
  unfold encode_unsigned. repeat case_match; [done|done|].
  by rewrite push_be_append, (push_be_append _ _ ([] ++ _)), app_assoc.
Qed.

Lemma encode_unsigned_app v buf : is_u64 v -> encode_unsigned v buf = buf ++ encode_vuint v.
Proof. intros Hv. rewrite encode_unsigned_canonical, encode_vuint_canonical by done. done. Qed.

Lemma encode_signed_app v buf : is_i64 v -> encode_signed v buf = buf ++ encode_vint v.
Proof.
  intros Hv. unfold encode_signed, encode_vint.
  by rewrite encode_unsigned_app, encode_vint_zigzag_eq by (by apply zigzag_encode_u64).
Qed.

(** Unsigned round trip. [parse_vuint] reads back every [u64] that
    [encode_vuint] writes, whatever bytes follow, and leaves exactly those bytes. *)
Theorem parse_encode_vuint v rest :
  is_u64 v -> parse_vuint (encode_vuint v ++ rest) = Ok (rest, v).
Proof.
  intros Hv. unfold parse_vuint. rewrite decode_encode by done.
  by rewrite drop_app_length.
Qed.

Lemma parse_encode_vuint_witness :
  is_u64 300 /\ parse_vuint (encode_vuint 300 ++ [7]) = Ok ([7], 300).
Proof.
  assert (H : is_u64 300) by (unfold is_u64, u_range; lia).
  split; [exact H | exact (parse_encode_vuint 300 [7] H)].
Defined.

(** Signed round trip. [parse_vint] reads back every [i64] that
    [encode_vint] writes (ZigZag then unsigned VInt), negative values and both
    extremes included, and leaves exactly the bytes that follow. *)
Theorem parse_encode_vint v rest :
  is_i64 v -> parse_vint (encode_vint v ++ rest) = Ok (rest, v).
Proof.
  intros Hv. unfold parse_vint, decode_signed, encode_vint.
  rewrite encode_vint_zigzag_eq, decode_encode by by apply zigzag_encode_u64.
  cbn. by rewrite zigzag_decode_encode, drop_app_length by done.
Qed.

Lemma parse_encode_vint_witness :
  is_i64 i64_MIN /\ parse_vint (encode_vint i64_MIN ++ [1; 2]) = Ok ([1; 2], i64_MIN).
Proof.
  assert (H : is_i64 i64_MIN) by (unfold is_i64, i_range, i64_MIN; lia).
  split; [exact H | exact (parse_encode_vint i64_MIN [1; 2] H)].
Defined.

(** The write-side encoder of storage/serialization (closed-form length,
    mask and shift loop) appends exactly the bytes of the read-side ladder
    [encode_vuint], and [unsigned_len] announces their number, between 1 and 9. *)
Theorem write_side_encoder_agrees v buf :
  is_u64 v ->
  encode_unsigned v buf = buf ++ encode_vuint v
  /\ unsigned_len v = Z.of_nat (length (encode_vuint v))
  /\ vint_size v = unsigned_len v
  /\ 1 <= unsigned_len v <= MAX_VINT_SIZE.
Proof.
  intros Hv. rewrite encode_unsigned_canonical, encode_vuint_canonical by done.
  rewrite canonical_length, unsigned_len_extra by done.
  pose proof (extra_of_le v). repeat split; unfold MAX_VINT_SIZE; try lia.
  unfold is_u64, u_range in Hv. unfold vint_size, extra_of. repeat case_zb; lia.
Qed.

Lemma write_side_encoder_agrees_witness :
  is_u64 16384 /\
  encode_unsigned 16384 [9] = [9] ++ encode_vuint 16384 /\ unsigned_len 16384 = 3.
Proof.
  assert (H : is_u64 16384) by (unfold is_u64, u_range; lia).
  split; [exact H | split; [|vm_compute; reflexivity]].
  exact (proj1 (write_side_encoder_agrees 16384 [9] H)).
Defined.

(** Totality and bounds of [decode_unsigned]. On any byte string it either
    reports [Truncated], exactly when the string is empty or shorter than its
    lead byte's leading ones announce, or returns a 64-bit value after consuming
    between 1 and 9 of the available bytes, and never fewer than the encoder
    would have written for that value. *)
Theorem decode_unsigned_total input :
  Forall is_byte input ->
  match decode_unsigned input with
  | Err Truncated =>
      match input with
      | [] => True
      | h :: t => (length t < leading_ones8 h)%nat
      end
  | Ok (v, n) =>
      is_u64 v /\ (1 <= n <= 9)%nat /\ (n <= length input)%nat
      /\ (length (encode_vuint v) <= n)%nat
  end.
Proof.
  destruct input as [|h t]; [done|]. intros [Hh Ht]%Forall_cons_iff.
  rewrite decode_unsigned_cons by done. pose proof (leading_ones8_le h) as He.
  destruct (Nat.ltb_spec (length t) (leading_ones8 h)) as [Hc|Hc]; [done|].
  assert (Hf : fits (leading_ones8 h)
                 (vint_value (leading_ones8 h) h (take (leading_ones8 h) t))).
  { apply vint_value_fits; [done|by apply Forall_take|rewrite length_take; lia]. }
  pose proof (fits_extra_of _ _ Hf). split; [by eapply fits_u64|].
  rewrite encode_vuint_canonical, canonical_length by by eapply fits_u64.
  cbn [length]. lia.
Qed.

Lemma decode_unsigned_total_witness :
  Forall is_byte [0x80; 0x00; 5] /\
  match decode_unsigned [0x80; 0x00; 5] with
  | Ok (v, n) => is_u64 v /\ (length (encode_vuint v) <= n)%nat
  | Err _ => False
  end.
Proof.
  assert (H : Forall is_byte [0x80; 0x00; 5])
    by (repeat constructor; unfold is_byte, u_range; lia).
  split; [exact H|]. pose proof (decode_unsigned_total [0x80; 0x00; 5] H) as T.
  vm_compute decode_unsigned in *. destruct T as (T1 & _ & _ & T2). split; assumption.
Defined.

(** VInts are self-delimiting: once [decode_unsigned] has consumed [n] bytes
    its answer depends on those [n] bytes alone, so concatenated fields decode
    independently of what is stored after them. *)
Theorem decode_unsigned_prefix input v n rest :
  Forall is_byte input -> Forall is_byte rest ->
  decode_unsigned input = Ok (v, n) ->
  decode_unsigned (take n input ++ rest) = Ok (v, n).
Proof.
  destruct input as [|h t]; [done|]. intros [Hh Ht]%Forall_cons_iff Hr.
  rewrite decode_unsigned_cons by done.
  destruct (Nat.ltb_spec (length t) (leading_ones8 h)) as [Hc|Hc]; [done|].
  intros [= <- <-].
  assert (Hall : Forall is_byte (take (leading_ones8 h) t ++ rest))
    by (apply Forall_app; split; [by apply Forall_take|done]).
  cbn [take app]. rewrite decode_unsigned_cons by done.
  rewrite length_app, length_take, Nat.min_l by lia.
  replace (_ <? _)%nat with false by (symmetry; apply Nat.ltb_ge; lia).
  by rewrite take_app_length' by (rewrite length_take; lia).
Qed.

Lemma decode_unsigned_prefix_witness :
  decode_unsigned [0xC0; 1; 2; 77] = Ok (258, 3%nat) /\
  decode_unsigned (take 3 [0xC0; 1; 2; 77] ++ [99; 98]) = Ok (258, 3%nat).
Proof.
  assert (E : decode_unsigned [0xC0; 1; 2; 77] = Ok (258, 3%nat)) by (vm_compute; reflexivity).
  split; [exact E|].
  apply (decode_unsigned_prefix [0xC0; 1; 2; 77] 258 3 [99; 98]);
    [repeat constructor; unfold is_byte, u_range; lia..|exact E].
Defined.

(** Length fields are guarded: [parse_vint_length] (unsigned) and
    [parse_vint_length_signed] (ZigZag) return a length only when it lies in
    [0, 1 GiB]; a longer one is [TooLarge] and a negative one [Verify], each
    error carrying the untouched input. *)
Theorem length_guards v s rest :
  is_u64 v -> is_i64 s ->
  parse_vint_length (encode_vuint v ++ rest)
  = (if v <=? MAX_VINT_LENGTH then Ok (rest, v)
     else Err (encode_vuint v ++ rest, TooLarge))
  /\ parse_vint_length_signed (encode_vint s ++ rest)
  = (if s <? 0 then Err (encode_vint s ++ rest, Verify)
     else if s <=? MAX_VINT_LENGTH then Ok (rest, s)
     else Err (encode_vint s ++ rest, TooLarge)).
Proof.
  intros Hv Hs. unfold parse_vint_length, parse_vint_length_signed.
  unfold parse_vuint, parse_vint, decode_signed, encode_vint.
  rewrite encode_vint_zigzag_eq.
  rewrite !decode_encode by (done || by apply zigzag_encode_u64).
  cbn. rewrite zigzag_decode_encode, !drop_app_length by done.
  split; repeat case_zb; done || lia.
Qed.

Lemma length_guards_witness :
  parse_vint_length_signed (encode_vint (-3) ++ [1]) = Err (encode_vint (-3) ++ [1], Verify).
Proof.
  assert (H1 : is_u64 5) by (unfold is_u64, u_range; lia).
  assert (H2 : is_i64 (-3)) by (unfold is_i64, i_range; lia).
  exact (proj2 (length_guards 5 (-3) [1] H1 H2)).
Defined.
