(* ===== verification/Murmur3.v ===== *)
(** Cassandra's Murmur3 hash and the Murmur3Partitioner token
    ([cqlite-core/src/util/cassandra_murmur3.rs]). *)

From S2P Require Import Prelude.

Definition C1 : Z := 0x87c37b91114253d5.
Definition C2 : Z := 0x4cf5ad432745937f.
Definition H1_ADD : Z := 0x52dce729.
Definition H2_ADD : Z := 0x38495ab5.
Definition FMIX_C1 : Z := 0xff51afd7ed558ccd.
Definition FMIX_C2 : Z := 0xc4ceb9fe1a85ec53.

(** [u64::wrapping_mul], [wrapping_add], [rotate_left]. *)
Definition wmul (a b : Z) : Z := as_u64 (a * b).
Definition wadd (a b : Z) : Z := as_u64 (a + b).
Definition rotate_left (a n : Z) : Z :=
  Z.lor (as_u64 (Z.shiftl a n)) (Z.shiftr a (64 - n)).

Definition fmix64 (value : Z) : Z :=
  let value := Z.lxor value (Z.shiftr value 33) in
  let value := wmul value FMIX_C1 in
  let value := Z.lxor value (Z.shiftr value 33) in
  let value := wmul value FMIX_C2 in
  Z.lxor value (Z.shiftr value 33).

(** One 16-byte block of the body loop. *)
Definition body_block (block : list Z) (h : Z * Z) : Z * Z :=
  let '(h1, h2) := h in
  let k1 := from_le (take 8 block) in
  let k2 := from_le (take 8 (drop 8 block)) in
  let k1 := wmul k1 C1 in
  let k1 := rotate_left k1 31 in
  let k1 := wmul k1 C2 in
  let h1 := Z.lxor h1 k1 in
  let h1 := rotate_left h1 27 in
  let h1 := wadd h1 h2 in
  let h1 := wadd (wmul h1 5) H1_ADD in
  let k2 := wmul k2 C2 in
  let k2 := rotate_left k2 33 in
  let k2 := wmul k2 C1 in
  let h2 := Z.lxor h2 k2 in
  let h2 := rotate_left h2 31 in
  let h2 := wadd h2 h1 in
  let h2 := wadd (wmul h2 5) H2_ADD in
  (h1, h2).

(** [for block in data.chunks_exact(16)]: [fuel] bounds the number of blocks;
    the second component is [chunks.remainder()]. *)
Fixpoint body_loop (fuel : nat) (data : list Z) (h : Z * Z) : (Z * Z) * list Z :=
  match fuel with
  | O => (h, data)
  | S fuel' =>
      if (length data <? 16)%nat then (h, data)
      else body_loop fuel' (drop 16 data) (body_block (take 16 data) h)
  end.

(** [byte as i8 as i64 as u64] *)
Definition signed (byte : Z) : Z := as_u64 (as_i8 byte).

(** [for (pos, &byte) in tail.iter().enumerate()]; the sign extension is a
    parameter so that the reference hash below shares the loop. *)
Fixpoint tail_loop (ext : Z -> Z) (pos : nat) (tail : list Z) (k : Z * Z) : Z * Z :=
  match tail with
  | [] => k
  | byte :: rest =>
      let '(k1, k2) := k in
      let shift := Z.of_nat (pos mod 8) * 8 in
      let k' :=
        if (pos <? 8)%nat then (Z.lxor k1 (as_u64 (Z.shiftl (ext byte) shift)), k2)
        else (k1, Z.lxor k2 (as_u64 (Z.shiftl (ext byte) shift))) in
      tail_loop ext (S pos) rest k'
  end.

Definition hash_with (ext : Z -> Z) (data : list Z) : Z * Z :=
  let '((h1, h2), tail) := body_loop (length data) data (0, 0) in
  let '(k1, k2) := tail_loop ext 0 tail (0, 0) in
  let h2 :=
    if (9 <=? length tail)%nat then
      let k2 := wmul k2 C2 in
      let k2 := rotate_left k2 33 in
      let k2 := wmul k2 C1 in
      Z.lxor h2 k2
    else h2 in
  let h1 :=
    if negb (length tail =? 0)%nat then
      let k1 := wmul k1 C1 in
      let k1 := rotate_left k1 31 in
      let k1 := wmul k1 C2 in
      Z.lxor h1 k1
    else h1 in
  let len := as_u64 (Z.of_nat (length data)) in
  let h1 := Z.lxor h1 len in
  let h2 := Z.lxor h2 len in
  let h1 := wadd h1 h2 in
  let h2 := wadd h2 h1 in
  let h1 := fmix64 h1 in
  let h2 := fmix64 h2 in
  let h1 := wadd h1 h2 in
  let h2 := wadd h2 h1 in
  (as_i64 h1, as_i64 h2).

Definition cassandra_murmur3_x64_128 (data : list Z) : Z * Z := hash_with signed data.

(** The reference algorithm: Murmur3 x64 128 with seed 0 reads tail bytes
    unsigned. *)
Definition standard_murmur3_x64_128 (data : list Z) : Z * Z := hash_with (fun b => b) data.

Definition normalize (v : Z) : Z := if v =? i64_MIN then i64_MAX else v.

Definition cassandra_murmur3_normalize_token (h1 : Z) : Z := normalize h1.

Definition cassandra_murmur3_token (data : list Z) : Z :=
  let '(h1, _) := cassandra_murmur3_x64_128 data in
  cassandra_murmur3_normalize_token h1.

Definition cassandra_partition_filter_hash_lower_bits (data : list Z) : Z :=
  let '(_, h2) := cassandra_murmur3_x64_128 data in h2.

Definition cmp_partition_keys_by_token (a b : list Z) : comparison :=
  then_with (cassandra_murmur3_token a ?= cassandra_murmur3_token b) (bytes_cmp a b).

(** ** The loops *)

Lemma body_loop_tail fuel data h :
  (length data <= fuel)%nat ->
  snd (body_loop fuel data h) = drop (16 * (length data / 16)) data.
Proof.
  revert data h. induction fuel as [|fuel IH]; intros data h Hf; cbn [body_loop].
  - destruct data; [done|cbn in Hf; lia].
  - destruct (Nat.ltb_spec (length data) 16) as [Hlt|Hge].
    + by rewrite Nat.div_small by done.
    + rewrite IH, length_drop, drop_drop by (rewrite length_drop; lia). f_equal.
      replace (length data) with ((length data - 16) + 1 * 16)%nat at 2 by lia.
      rewrite Nat.div_add by lia. lia.
Qed.

Lemma body_loop_fuel fuel1 fuel2 data h :
  (length data <= fuel1)%nat -> (length data <= fuel2)%nat ->
  body_loop fuel1 data h = body_loop fuel2 data h.
Proof.
  revert fuel2 data h. induction fuel1 as [|f1 IH]; intros [|f2] data h H1 H2;
    cbn [body_loop]; try done.
  - destruct data; [done|cbn in H1; lia].
  - destruct data; [done|cbn in H2; lia].
  - destruct (Nat.ltb_spec (length data) 16); [done|].
    apply IH; rewrite length_drop; lia.
Qed.

Lemma signed_small b : 0 <= b < 128 -> signed b = b.
Proof.
  intros Hb. unfold signed, as_u64, as_i8.
  rewrite swrap_id, wrap_id by (unfold i_range, u_range; lia). done.
Qed.

Lemma tail_loop_ext f g pos tail k :
  Forall (fun b => f b = g b) tail -> tail_loop f pos tail k = tail_loop g pos tail k.
Proof.
  intros H. revert pos k. induction H as [|b t Hb _ IH]; intros pos [k1 k2]; cbn [tail_loop].
  - done.
  - rewrite Hb. apply IH.
Qed.

(** ** The finaliser is a bijection *)

Definition xorshift33 (x : Z) : Z := Z.lxor x (Z.shiftr x 33).

Lemma xorshift33_range x : is_u64 x -> is_u64 (xorshift33 x).
Proof.
  intros Hx. apply u_range_lxor; [lia|done|]. apply u_range_shiftr; [lia|lia|done].
Qed.

Lemma xorshift33_involutive x : is_u64 x -> xorshift33 (xorshift33 x) = x.
Proof.
  intros Hx. unfold xorshift33. rewrite Z.shiftr_lxor, Z.shiftr_shiftr by lia.
  replace (Z.shiftr x (33 + 33)) with 0.
  - rewrite Z.lxor_0_r, Z.lxor_assoc, Z.lxor_nilpotent, Z.lxor_0_r. done.
  - symmetry. rewrite Z.shiftr_div_pow2 by lia. apply Z.div_small.
    unfold is_u64, u_range in Hx. lia.
Qed.

Lemma wmul_range a b : is_u64 (wmul a b).
Proof. apply wrap_range. lia. Qed.

Lemma wmul_inverse a c c' :
  is_u64 a -> (c * c') mod 2 ^ 64 = 1 -> wmul (wmul a c) c' = a.
Proof.
  intros Ha Hc. unfold wmul, as_u64, wrap.
  rewrite Zmult_mod_idemp_l, <- Z.mul_assoc, Zmult_mod, Hc, Z.mul_1_r, Zmod_mod.
  by apply Z.mod_small.
Qed.

(** Inverses of the two multipliers modulo [2^64]. *)
Definition FMIX_C1_INV : Z := 0x4f74430c22a54005.
Definition FMIX_C2_INV : Z := 0x9cb4b2f8129337db.

Definition fmix64_inv (value : Z) : Z :=
  xorshift33 (wmul (xorshift33 (wmul (xorshift33 value) FMIX_C2_INV)) FMIX_C1_INV).

Lemma fmix64_unfold x :
  fmix64 x = xorshift33 (wmul (xorshift33 (wmul (xorshift33 x) FMIX_C1)) FMIX_C2).
Proof. reflexivity. Qed.

Create HintDb murmur.
#[export] Hint Resolve xorshift33_range wmul_range : murmur.

Lemma fmix64_inv_l x : is_u64 x -> fmix64_inv (fmix64 x) = x.
Proof.
  intros Hx. rewrite fmix64_unfold. unfold fmix64_inv.
  rewrite xorshift33_involutive by auto with murmur.
  rewrite wmul_inverse by (auto with murmur || reflexivity).
  rewrite xorshift33_involutive by auto with murmur.
  rewrite wmul_inverse by (auto with murmur || reflexivity).
  by apply xorshift33_involutive.
Qed.

Lemma fmix64_inv_r y : is_u64 y -> fmix64 (fmix64_inv y) = y.
Proof.
  intros Hy. rewrite fmix64_unfold. unfold fmix64_inv.
  rewrite xorshift33_involutive by auto with murmur.
  rewrite wmul_inverse by (auto with murmur || reflexivity).
  rewrite xorshift33_involutive by auto with murmur.
  rewrite wmul_inverse by (auto with murmur || reflexivity).
  by apply xorshift33_involutive.
Qed.

(** ** Properties *)

Lemma hash_with_range ext data :
  is_i64 (fst (hash_with ext data)) /\ is_i64 (snd (hash_with ext data)).
Proof.
  unfold hash_with. destruct (body_loop _ _ _) as [[h1 h2] tail].
  destruct (tail_loop _ _ _ _) as [k1 k2]. cbn zeta. cbn [fst snd].
  split; apply swrap_range; lia.
Qed.

Lemma cassandra_token_bounds data : i64_MIN < cassandra_murmur3_token data <= i64_MAX.
Proof.
  unfold cassandra_murmur3_token, cassandra_murmur3_x64_128.
  destruct (hash_with_range signed data) as [H1 H2].
  destruct (hash_with signed data) as [h1 h2]. cbn [fst snd] in *.
  unfold cassandra_murmur3_normalize_token, normalize, is_i64, i_range, i64_MIN, i64_MAX in *.
  case_zb; lia.
Qed.

(** Token range. Both hash words are [i64] values, and the token of any
    partition key lies strictly above [i64::MIN]: the partitioner's excluded
    minimum token is never assigned to a key. *)
Theorem token_range data :
  i64_MIN < cassandra_murmur3_token data <= i64_MAX
  /\ is_i64 (cassandra_partition_filter_hash_lower_bits data).
Proof.
  split; [apply cassandra_token_bounds|].
  unfold cassandra_partition_filter_hash_lower_bits, cassandra_murmur3_x64_128.
  pose proof (proj2 (hash_with_range signed data)) as H.
  by destruct (hash_with signed data).
Qed.

(** Cassandra's hash is Murmur3 x64-128 up to its sign-extension quirk: it
    equals the standard algorithm on every key whose tail (the bytes past the
    last whole 16-byte block) has no byte of 0x80 or above. *)
Theorem cassandra_is_standard_murmur3 data :
  Forall (fun b => 0 <= b < 128) (drop (16 * (length data / 16)) data) ->
  cassandra_murmur3_x64_128 data = standard_murmur3_x64_128 data.
Proof.
  intros Htail. unfold cassandra_murmur3_x64_128, standard_murmur3_x64_128, hash_with.
  pose proof (body_loop_tail (length data) data (0, 0) ltac:(lia)) as Ht.
  destruct (body_loop _ _ _) as [[h1 h2] tail]. cbn [snd] in Ht. subst tail.
  rewrite (tail_loop_ext signed (fun b => b)); [done|].
  eapply Forall_impl; [exact Htail|]. intros b Hb. by apply signed_small.
Qed.

(** The quirk is real: the two algorithms differ on a one-byte key 0x80, and the
    tokens of the vectors the project verified against Cassandra 5.0 come out. *)
Example sign_extension_differs :
  cassandra_murmur3_x64_128 [0x80] <> standard_murmur3_x64_128 [0x80].
Proof. vm_compute. intros [=]. Qed.

Example cassandra_token_vectors :
  cassandra_murmur3_token [97] = -8839064797231613815
  /\ cassandra_murmur3_token [104; 101; 108; 108; 111] = -3758069500696749310
  /\ cassandra_murmur3_token [0xFF; 0xFF; 0xFF; 0xFF] = 7297452126230313552
  /\ cassandra_murmur3_token (replicate 16 0) = 5457549051747178710.
Proof. vm_compute. repeat split. Qed.

Lemma cassandra_is_standard_murmur3_witness :
  cassandra_murmur3_x64_128 (replicate 16 255 ++ [1; 2; 3])
  = standard_murmur3_x64_128 (replicate 16 255 ++ [1; 2; 3]).
Proof.
  apply (cassandra_is_standard_murmur3 (replicate 16 255 ++ [1; 2; 3])).
  repeat constructor; lia.
Defined.

(** The finaliser [fmix64] permutes the 64-bit words: [fmix64_inv] undoes it
    on both sides, so finalisation never merges two hash states. *)
Theorem fmix64_bijective x :
  is_u64 x ->
  is_u64 (fmix64 x) /\ fmix64_inv (fmix64 x) = x /\ fmix64 (fmix64_inv x) = x.
Proof.
  intros Hx. split; [|split; [by apply fmix64_inv_l|by apply fmix64_inv_r]].
  rewrite fmix64_unfold. auto with murmur.
Qed.

Lemma fmix64_bijective_witness : is_u64 12345 /\ fmix64_inv (fmix64 12345) = 12345.
Proof.
  assert (H : is_u64 12345) by (unfold is_u64, u_range; lia).
  split; [exact H | exact (proj1 (proj2 (fmix64_bijective 12345 H)))].
Defined.

#[export] Instance cmp_partition_keys_laws : OrdLaws cmp_partition_keys_by_token.
Proof.
  apply (ord_then _ (fun a b => cassandra_murmur3_token a ?= cassandra_murmur3_token b)); [|apply _].
  by apply (ord_on _ (fun _ => True) cassandra_murmur3_token Z.compare).
Qed.

Lemma cmp_partition_keys_eq a b : cmp_partition_keys_by_token a b = Eq <-> a = b.
Proof.
  split; [|intros ->; apply (ord_refl cmp_partition_keys_by_token)].
  unfold cmp_partition_keys_by_token.
  destruct (_ ?= _) eqn:E; cbn; [|done..]. apply bytes_cmp_eq.
Qed.

(** The token-ring comparator every access path shares is a total order on
    raw keys: reflexive, antisymmetric, transitive, refining the token order, and
    equal only for identical keys (equal tokens are told apart by their bytes). *)
Theorem token_order_total a b c :
  cmp_partition_keys_by_token b a = CompOpp (cmp_partition_keys_by_token a b)
  /\ (cmp_partition_keys_by_token a b = Eq <-> a = b)
  /\ (cmp_partition_keys_by_token a b = Lt -> cmp_partition_keys_by_token b c = Lt ->
      cmp_partition_keys_by_token a c = Lt)
  /\ (cassandra_murmur3_token a < cassandra_murmur3_token b ->
      cmp_partition_keys_by_token a b = Lt).
Proof.
  split; [apply (ord_sym cmp_partition_keys_by_token)|]. split; [apply cmp_partition_keys_eq|].
  split; [apply (ord_trans cmp_partition_keys_by_token)|].
  intros H. unfold cmp_partition_keys_by_token.
  by apply Z.compare_lt_iff in H as ->.
Qed.

Lemma token_order_total_witness :
  cmp_partition_keys_by_token [97] [104; 101; 108; 108; 111] = Lt.
Proof.
  apply (proj2 (proj2 (proj2 (token_order_total [97] [104; 101; 108; 108; 111] [])))).
  vm_compute. reflexivity.
Defined.
