(* ===== verification/FloatCmp.v ===== *)
(** Cassandra's total order on floats ([cqlite-core/src/float_cmp.rs]). A float is
    its IEEE-754 bit pattern. *)

From S2P Require Import Prelude.

(** ** Bit patterns of [f64] *)

Definition f64_sign (x : Z) : bool := Z.testbit x 63.
(** Exponent and fraction bits. *)
Definition f64_mag (x : Z) : Z := x mod 2 ^ 63.
Definition f64_EXP_MASK : Z := Z.shiftl 0x7FF 52.
Definition f64_is_nan (x : Z) : bool := f64_mag x >? f64_EXP_MASK.

(** IEEE order of two non-NaN patterns is the order of their signed magnitudes;
    both zeros have magnitude 0. *)
Definition f64_smag (x : Z) : Z := if f64_sign x then - f64_mag x else f64_mag x.

(** [f64::partial_cmp] *)
Definition f64_partial_cmp (a b : Z) : option comparison :=
  if f64_is_nan a || f64_is_nan b then None else Some (f64_smag a ?= f64_smag b).

(** [x as f64] for an [f32] pattern: exact; a subnormal becomes normal. *)
Definition f32_as_f64 (x : Z) : Z :=
  let s := Z.shiftl (Z.shiftr x 31 mod 2) 63 in
  let e := Z.shiftr x 23 mod 256 in
  let m := x mod 2 ^ 23 in
  if e =? 255 then s + f64_EXP_MASK + Z.shiftl m 29
  else if e =? 0 then
    if m =? 0 then s
    else let k := Z.log2 m in
         s + Z.shiftl (k - 149 + 1023) 52 + Z.shiftl (m - 2 ^ k) (52 - k)
  else s + Z.shiftl (e - 127 + 1023) 52 + Z.shiftl m 29.

(** ** The comparator *)

Definition sign_bit_tiebreak (a b : Z) : comparison :=
  match f64_sign a, f64_sign b with
  | true, false => Lt
  | false, true => Gt
  | _, _ => Eq
  end.

Definition cassandra_double_cmp (a b : Z) : comparison :=
  match f64_partial_cmp a b with
  | Some Eq => sign_bit_tiebreak a b
  | Some ord => ord
  | None =>
      match f64_is_nan a, f64_is_nan b with
      | true, true => Eq
      | true, false => Gt
      | false, true => Lt
      | false, false => Eq
      end
  end.

Definition cassandra_float_cmp (a b : Z) : comparison :=
  cassandra_double_cmp (f32_as_f64 a) (f32_as_f64 b).

(** ** Total order *)

(** The comparator is the lexicographic order of this key: NaN last, then the
    numeric value, then the sign of zero. *)
Definition double_key (x : Z) : bool * (Z * bool) :=
  if f64_is_nan x then (true, (0, true)) else (false, (f64_smag x, negb (f64_sign x))).

Definition key_cmp (p q : bool * (Z * bool)) : comparison :=
  then_with (bool_cmp p.1 q.1)
    (then_with (p.2.1 ?= q.2.1) (bool_cmp p.2.2 q.2.2)).

#[export] Instance key_cmp_laws : OrdLaws key_cmp.
Proof.
  apply (ord_then _ (fun p q : bool * (Z * bool) => bool_cmp p.1 q.1)).
  - by apply (ord_on _ (fun _ => True) fst bool_cmp).
  - apply (ord_then _ (fun p q : bool * (Z * bool) => p.2.1 ?= q.2.1)).
    + by apply (ord_on _ (fun _ => True) (fun p : bool * (Z * bool) => p.2.1) Z.compare).
    + by apply (ord_on _ (fun _ => True) (fun p : bool * (Z * bool) => p.2.2) bool_cmp).
Qed.

Lemma double_cmp_key a b : cassandra_double_cmp a b = key_cmp (double_key a) (double_key b).
Proof.
  unfold cassandra_double_cmp, f64_partial_cmp, key_cmp, double_key.
  destruct (f64_is_nan a), (f64_is_nan b); try done.
  unfold sign_bit_tiebreak. cbn [orb fst snd].
  generalize (f64_sign a), (f64_sign b). intros [] [];
    by destruct (f64_smag a ?= f64_smag b).
Qed.

#[export] Instance double_cmp_laws : OrdLaws cassandra_double_cmp.
Proof.
  destruct (ord_on (fun _ : Z => True) (fun _ => True) double_key key_cmp (fun _ _ => I))
    as [H1 H2 H3 H4].
  split; intros *; rewrite !double_cmp_key;
    [apply H1|apply H2|apply H3|apply H4].
Qed.

#[export] Instance float_cmp_laws : OrdLaws cassandra_float_cmp.
Proof. by apply (ord_on _ (fun _ => True) f32_as_f64 cassandra_double_cmp). Qed.

(** Java's [Double.compare] order. On 64-bit patterns [cassandra_double_cmp]
    is a total preorder; NaN is above everything and equal to every NaN; two
    non-NaN values with different numeric values follow the IEEE order, and
    [-0.0] sorts strictly below [+0.0]. *)
Theorem double_cmp_total_order a b c :
  cassandra_double_cmp b a = CompOpp (cassandra_double_cmp a b)
  /\ (cassandra_double_cmp a b = Lt -> cassandra_double_cmp b c = Lt ->
      cassandra_double_cmp a c = Lt)
  /\ (f64_is_nan a = true ->
      cassandra_double_cmp a b = if f64_is_nan b then Eq else Gt)
  /\ (f64_partial_cmp a b = Some Lt -> cassandra_double_cmp a b = Lt)
  /\ (f64_partial_cmp a b = Some Eq -> f64_sign a = true -> f64_sign b = false ->
      cassandra_double_cmp a b = Lt).
Proof.
  split; [apply (ord_sym cassandra_double_cmp)|].
  split; [apply (ord_trans cassandra_double_cmp)|].
  unfold cassandra_double_cmp, f64_partial_cmp, sign_bit_tiebreak. split; [|split].
  - intros ->. cbn. by destruct (f64_is_nan b).
  - by intros ->.
  - by intros -> -> ->.
Qed.

(** [-0.0 < +0.0 < 1.0 < +inf < NaN], and [1.0f32] widens to [1.0f64]. *)
Lemma double_cmp_total_order_witness :
  cassandra_double_cmp (2 ^ 63) 0 = Lt
  /\ cassandra_double_cmp 0x3FF0000000000000 0x7FF0000000000000 = Lt
  /\ cassandra_double_cmp 0x7FF8000000000000 0x7FF0000000000000 = Gt
  /\ f32_as_f64 0x3F800000 = 0x3FF0000000000000.
Proof.
  split; [|split; [|split]].
  - apply (proj2 (proj2 (proj2 (proj2 (double_cmp_total_order (2 ^ 63) 0 0)))));
      vm_compute; reflexivity.
  - apply (proj1 (proj2 (proj2 (proj2
             (double_cmp_total_order 0x3FF0000000000000 0x7FF0000000000000 0)))));
      vm_compute; reflexivity.
  - apply (proj1 (proj2 (proj2
             (double_cmp_total_order 0x7FF8000000000000 0x7FF0000000000000 0))));
      vm_compute; reflexivity.
  - vm_compute. reflexivity.
Defined.
