(* ===== verification/Values.v ===== *)
(** CQL values and their order: the [Value] enum of [cqlite-core/src/types.rs] and
    [compare_values] of [storage/write_engine/mutation.rs], the comparator behind
    every clustering key of the memtable and of compaction. *)

From S2P Require Import Prelude FloatCmp.

Open Scope Z_scope.

(** ** Data *)

Inductive TombstoneType :=
| RowTombstone
| CellTombstone
| RangeTombstoneType
| TtlExpiration
| PartitionTombstone.

#[export] Instance tombstone_type_eq_dec : EqDecision TombstoneType.
Proof. solve_decision. Defined.

(** [range_start]/[range_end] are row keys, raw bytes. *)
Record TombstoneInfo := mkTombstoneInfo {
  deletion_time : Z;
  tombstone_type : TombstoneType;
  info_local_deletion_time : Z;
  info_ttl : option Z;
  range_start : option (list Z);
  range_end : option (list Z);
}.

#[export] Instance tombstone_info_eq_dec : EqDecision TombstoneInfo.
Proof. solve_decision. Defined.

(** The [Value] enum. Text, blobs and the like are byte lists; floats are bit
    patterns; [Json] keeps the document as text, which no modelled operation
    reads; a UDT is its type name, keyspace and named optional fields. *)
Inductive Value : Type :=
| Null
| Boolean (b : bool)
| Integer (n : Z)
| BigInt (n : Z)
| Counter (n : Z)
| Float (bits : Z)
| Text (s : list Z)
| Blob (s : list Z)
| Timestamp (ms : Z)
| Date (days : Z)
| Time (nanos : Z)
| Uuid (s : list Z)
| Varint (s : list Z)
| Decimal (scale : Z) (unscaled : list Z)
| Duration (months days nanos : Z)
| Json (doc : list Z)
| TinyInt (n : Z)
| SmallInt (n : Z)
| Float32 (bits : Z)
| List (l : list Value)
| VSet (l : list Value)
| Map (l : list (Value * Value))
| Tuple (l : list Value)
| Udt (type_name keyspace : string) (fields : list (string * option Value))
| Frozen (v : Value)
| Tombstone (info : TombstoneInfo)
| Inet (s : list Z).

(** The values directly inside a value. *)
Definition children (v : Value) : list Value :=
  match v with
  | List l | VSet l | Tuple l => l
  | Map l => concat (map (fun e => [e.1; e.2]) l)
  | Udt _ _ fields => omap snd fields
  | Frozen v => [v]
  | _ => []
  end.

(** No JSON document anywhere inside: what a format without type tags reads back (the tests
    of [types.rs] leave [Json] out of their bincode round trip for it). *)
Fixpoint json_free (v : Value) : bool :=
  match v with
  | Json _ => false
  | List l | VSet l | Tuple l => forallb json_free l
  | Map l => forallb (fun e => json_free e.1 && json_free e.2) l
  | Udt _ _ fields => forallb (fun f => match f.2 with Some v => json_free v | None => true end) fields
  | Frozen v => json_free v
  | _ => true
  end.

(** Induction through lists, pairs and optional fields. *)
Lemma value_nested_ind (P : Value -> Prop) :
  (forall v, Forall P (children v) -> P v) -> forall v, P v.
Proof.
  intros H. fix IH 1. intros v. apply H. destruct v; cbn; try constructor; [..|apply IH|constructor].
  - induction l; constructor; [apply IH|done].
  - induction l; constructor; [apply IH|done].
  - induction l as [|[x y] l IHl]; cbn; [constructor|].
    constructor; [apply IH|constructor; [apply IH|done]].
  - induction l; constructor; [apply IH|done].
  - induction fields as [|[x [y|]] l IHl]; cbn; [constructor| |done].
    constructor; [apply IH|done].
Qed.

(** The [Error] variants the modelled operations raise; the messages are left out. *)
Inductive Error :=
| InvalidInput
| SchemaError
| Storage
| InvalidOperation
| WriteDirLocked
| Corruption
| InvalidFormat
| UnsupportedFormat
| Io
| Parse.

#[export] Instance error_eq_dec : EqDecision Error.
Proof. solve_decision. Defined.

(** ** [compare_values] *)

(** [for (x, y) in a.iter().zip(b.iter()) { let ord = f(x, y)?; if ord != Equal
    { return Ok(ord) } }], falling through with [Ok(Equal)]. *)
Section ZipCmp.
Context {A : Type} (f : A -> A -> result Error comparison).

Fixpoint zip_cmp (a b : list A) : result Error comparison :=
  match a, b with
  | x :: a', y :: b' =>
      match f x y with
      | Ok Eq => zip_cmp a' b'
      | r => r
      end
  | _, _ => Ok Eq
  end.

(** The loop, then [Ok(a.len().cmp(&b.len()))]. *)
Definition zip_cmp_len (a b : list A) : result Error comparison :=
  match zip_cmp a b with
  | Ok Eq => Ok (Nat.compare (length a) (length b))
  | r => r
  end.
End ZipCmp.

Fixpoint compare_values (a b : Value) {struct a} : result Error comparison :=
  match a, b with
  | Null, Null => Ok Eq
  | Null, _ => Ok Lt
  | _, Null => Ok Gt
  | Boolean a, Boolean b => Ok (bool_cmp a b)
  | TinyInt a, TinyInt b => Ok (a ?= b)
  | SmallInt a, SmallInt b => Ok (a ?= b)
  | Integer a, Integer b => Ok (a ?= b)
  | BigInt a, BigInt b => Ok (a ?= b)
  | Counter a, Counter b => Ok (a ?= b)
  | Float32 a, Float32 b => Ok (cassandra_float_cmp a b)
  | Float a, Float b => Ok (cassandra_double_cmp a b)
  | Text a, Text b => Ok (bytes_cmp a b)
  | Blob a, Blob b => Ok (bytes_cmp a b)
  | Timestamp a, Timestamp b => Ok (a ?= b)
  | Date a, Date b => Ok (a ?= b)
  | Time a, Time b => Ok (a ?= b)
  | Uuid a, Uuid b => Ok (bytes_cmp a b)
  | Inet a, Inet b => Ok (bytes_cmp a b)
  | List a, List b | VSet a, VSet b => zip_cmp_len compare_values a b
  | Map a, Map b =>
      zip_cmp_len (fun p q =>
        let '(ka, va) := p in
        let '(kb, vb) := q in
        match compare_values ka kb with
        | Ok Eq => compare_values va vb
        | r => r
        end) a b
  | Tuple a, Tuple b => zip_cmp_len compare_values a b
  | Frozen a, Frozen b => compare_values a b
  | _, _ => Err InvalidInput
  end.

(** ** Types whose values are comparable *)

Inductive CTy :=
| TBoolean | TTinyInt | TSmallInt | TInt | TBigInt | TCounter | TFloat | TDouble
| TText | TBlob | TTimestamp | TDate | TTime | TUuid | TInet
| TList (t : CTy) | TSet (t : CTy) | TMap (k v : CTy) | TTuple (ts : list CTy)
| TFrozen (t : CTy).

Fixpoint CTy_ind' (P : CTy -> Prop)
    (Hbase : forall t, (match t with TList _ | TSet _ | TMap _ _ | TTuple _ | TFrozen _ => False
                        | _ => True end) -> P t)
    (Hlist : forall t, P t -> P (TList t)) (Hset : forall t, P t -> P (TSet t))
    (Hmap : forall k v, P k -> P v -> P (TMap k v))
    (Htuple : forall ts, Forall P ts -> P (TTuple ts))
    (Hfrozen : forall t, P t -> P (TFrozen t)) (t : CTy) : P t :=
  let rec := CTy_ind' P Hbase Hlist Hset Hmap Htuple Hfrozen in
  match t with
  | TList t => Hlist t (rec t)
  | TSet t => Hset t (rec t)
  | TMap k v => Hmap k v (rec k) (rec v)
  | TTuple ts =>
      Htuple ts ((fix go ts : Forall P ts :=
        match ts with
        | [] => Forall_nil_2 P
        | t :: ts' => Forall_cons_2 P t ts' (rec t) (go ts')
        end) ts)
  | TFrozen t => Hfrozen t (rec t)
  | t => Hbase t I
  end.

(** [PTs] typed position by position; a tuple may omit trailing fields. *)
Section Positions.
Context {T A : Type} (H : T -> A -> Prop).
Fixpoint typed_prefix (ts : list T) (l : list A) : Prop :=
  match ts, l with
  | _, [] => True
  | t :: ts', x :: l' => H t x /\ typed_prefix ts' l'
  | [], _ :: _ => False
  end.
End Positions.

(** [has_type t v]: [v] is a value of type [t]; [Null] belongs to every type. *)
Fixpoint has_type (t : CTy) (v : Value) {struct t} : Prop :=
  match v with
  | Null => True
  | _ =>
      match t, v with
      | TBoolean, Boolean _ | TTinyInt, TinyInt _ | TSmallInt, SmallInt _
      | TInt, Integer _ | TBigInt, BigInt _ | TCounter, Counter _
      | TFloat, Float32 _ | TDouble, Float _ | TText, Text _ | TBlob, Blob _
      | TTimestamp, Timestamp _ | TDate, Date _ | TTime, Time _ | TUuid, Uuid _
      | TInet, Inet _ => True
      | TList t, List l | TSet t, VSet l => Forall (has_type t) l
      | TMap tk tv, Map l => Forall (fun p => has_type tk p.1 /\ has_type tv p.2) l
      | TTuple ts, Tuple l => typed_prefix has_type ts l
      | TFrozen t, Frozen v => has_type t v
      | _, _ => False
      end
  end.

(** ** [compare_values] on typed values *)

(** The order inside a fallible comparator. *)
Definition ok_cmp {A} (f : A -> A -> result Error comparison) (a b : A) : comparison :=
  match f a b with Ok c => c | Err _ => Eq end.

(** [f] never fails on [P] and orders it. *)
Class TotalOn {A} (P : A -> Prop) (f : A -> A -> result Error comparison) : Prop := {
  total_ok a b : P a -> P b -> f a b = Ok (ok_cmp f a b);
  total_ord : OrdOn P (ok_cmp f);
}.

Lemma zip_cmp_len_list_cmp {A} (f : A -> A -> result Error comparison) cmp a b :
  Forall (fun p => f p.1 p.2 = Ok (cmp p.1 p.2)) (zip a b) ->
  zip_cmp_len f a b = Ok (list_cmp cmp a b).
Proof.
  unfold zip_cmp_len. revert b. induction a as [|x a IH]; intros [|y b] Hf; try done.
  apply Forall_cons in Hf as [Hxy Hf]. cbn in Hxy.
  cbn [zip_cmp list_cmp]. rewrite Hxy.
  destruct (cmp x y); [|done..]. cbn [then_with length Nat.compare].
  by apply IH.
Qed.

Lemma zip_cmp_len_ext {A} (f g : A -> A -> result Error comparison) a b :
  (forall x y, f x y = g x y) -> zip_cmp_len f a b = zip_cmp_len g a b.
Proof.
  intros Hfg. unfold zip_cmp_len.
  assert (zip_cmp f a b = zip_cmp g a b) as ->; [|done].
  revert b. induction a as [|x a IH]; intros [|y b]; cbn; try done. rewrite Hfg.
  by destruct (g x y) as [[]|].
Qed.

(** Lexicographic order of sequences whose [i]-th element has the [i]-th type. *)
Lemma list_cmp_positions {T A} (H : T -> A -> Prop) cmp ts :
  Forall (fun t => OrdOn (H t) cmp) ts -> OrdOn (typed_prefix H ts) (list_cmp cmp).
Proof.
  intros Hts. split.
  - induction Hts as [|t ts Ht _ IH]; intros [|x a]; cbn; try done.
    intros [Hx Ha]. by rewrite (on_refl (cmp := cmp) x Hx), IH.
  - induction Hts as [|t ts Ht _ IH]; intros [|x a] [|y b]; cbn; try done.
    intros [Hx Ha] [Hy Hb]. rewrite (on_sym (cmp := cmp) x y Hx Hy), (IH a b) by done.
    by destruct (cmp x y).
  - induction Hts as [|t ts Ht _ IH]; intros [|x a] [|y b] [|z c]; cbn; try done.
    intros [Hx Ha] [Hy Hb] [Hz Hc].
    destruct (cmp x y) eqn:E1; [|destruct (cmp y z) eqn:E2|done].
    + rewrite (on_eq_l (cmp := cmp) x y z Hx Hy Hz E1).
      destruct (cmp y z); [by apply IH|done..].
    + by rewrite <- (on_eq_r (P := H t) cmp x y z), E1 by done.
    + by rewrite (on_trans (cmp := cmp) x y z Hx Hy Hz E1 E2).
    + done.
  - induction Hts as [|t ts Ht _ IH]; intros [|x a] [|y b] [|z c]; cbn; try done.
    intros [Hx Ha] [Hy Hb] [Hz Hc].
    destruct (cmp x y) eqn:E1; [|done..]. intros E. cbn in E.
    by rewrite (on_eq_l (cmp := cmp) x y z Hx Hy Hz E1), (IH a b c).
Qed.

Lemma compare_values_null_l v : v <> Null -> compare_values Null v = Ok Lt.
Proof. by destruct v. Qed.

Lemma compare_values_null_r v : v <> Null -> compare_values v Null = Ok Gt.
Proof. by destruct v. Qed.

(** [f] puts [Null] first. *)
Definition null_first (f : Value -> Value -> result Error comparison) : Prop :=
  f Null Null = Ok Eq
  /\ forall v, v <> Null -> f Null v = Ok Lt /\ f v Null = Ok Gt.

Lemma compare_values_null_first : null_first compare_values.
Proof.
  split; [done|]. intros v Hv.
  by rewrite compare_values_null_l, compare_values_null_r.
Qed.

(** A comparator that puts [Null] first and compares the other values, all of
    the form [wrap b], as the [b]s are. *)
Lemma total_null_first {B} f (wrap : B -> Value) (PB : B -> Prop) cmpB (P : Value -> Prop)
    `{HB : !OrdOn PB cmpB} :
  null_first f ->
  (forall v, P v -> v = Null \/ exists b, v = wrap b /\ PB b) ->
  (forall b, PB b -> wrap b <> Null) ->
  (forall a b, PB a -> PB b -> f (wrap a) (wrap b) = Ok (cmpB a b)) ->
  TotalOn P f.
Proof.
  intros [Hn0 Hn1] Hcase Hnn Hcmp.
  assert (Hv : forall a b, PB a -> PB b -> ok_cmp f (wrap a) (wrap b) = cmpB a b)
    by (intros a b Ha Hb; unfold ok_cmp; by rewrite Hcmp).
  assert (Hl : forall a, PB a -> ok_cmp f Null (wrap a) = Lt)
    by (intros a Ha; unfold ok_cmp; by rewrite (proj1 (Hn1 _ (Hnn a Ha)))).
  assert (Hr : forall a, PB a -> ok_cmp f (wrap a) Null = Gt)
    by (intros a Ha; unfold ok_cmp; by rewrite (proj2 (Hn1 _ (Hnn a Ha)))).
  assert (Hn : ok_cmp f Null Null = Eq) by (unfold ok_cmp; by rewrite Hn0).
  split.
  - intros a b [->|(x & -> & Hx)]%Hcase [->|(y & -> & Hy)]%Hcase.
    + by rewrite Hn.
    + by rewrite Hl, (proj1 (Hn1 _ (Hnn y Hy))).
    + by rewrite Hr, (proj2 (Hn1 _ (Hnn x Hx))).
    + by rewrite Hv, Hcmp.
  - destruct HB as [H1 H2 H3 H4]. split.
    + intros a [->|(x & -> & Hx)]%Hcase; [done|]. rewrite Hv; auto.
    + intros a b [->|(x & -> & Hx)]%Hcase [->|(y & -> & Hy)]%Hcase;
        rewrite ?Hl, ?Hr, ?Hn, ?Hv by done; auto.
    + intros a b c [->|(x & -> & Hx)]%Hcase [->|(y & -> & Hy)]%Hcase [->|(z & -> & Hz)]%Hcase;
        rewrite ?Hl, ?Hr, ?Hn, ?Hv by done; try done. apply H3; done.
    + intros a b c [->|(x & -> & Hx)]%Hcase [->|(y & -> & Hy)]%Hcase [->|(z & -> & Hz)]%Hcase;
        rewrite ?Hl, ?Hr, ?Hn, ?Hv by done; try done. by apply H4.
Qed.

(** The key-value order of a map entry. *)
Definition pair_cmp (p q : Value * Value) : result Error comparison :=
  match compare_values p.1 q.1 with
  | Ok Eq => compare_values p.2 q.2
  | r => r
  end.

Lemma pair_cmp_total (P Q : Value -> Prop)
    `{HP : !TotalOn P compare_values, HQ : !TotalOn Q compare_values} :
  TotalOn (fun p => P p.1 /\ Q p.2) pair_cmp.
Proof.
  destruct HP as [Hp1 Hp2], HQ as [Hq1 Hq2].
  assert (E : forall p q, P p.1 /\ Q p.2 -> P q.1 /\ Q q.2 ->
    pair_cmp p q = Ok (then_with (ok_cmp compare_values p.1 q.1)
                                 (ok_cmp compare_values p.2 q.2))).
  { intros p q [? ?] [? ?]. unfold pair_cmp. rewrite Hp1, Hq1 by done.
    by destruct (ok_cmp compare_values p.1 q.1). }
  split.
  - intros p q Hp Hq. unfold ok_cmp at 1. by rewrite E.
  - assert (Hord : OrdOn (fun p : Value * Value => P p.1 /\ Q p.2) (fun p q =>
        then_with (ok_cmp compare_values p.1 q.1) (ok_cmp compare_values p.2 q.2))).
    { apply ord_then.
      - apply (ord_on _ P fst (ok_cmp compare_values)). by intros ? [? ?].
      - apply (ord_on _ Q snd (ok_cmp compare_values)). by intros ? [? ?]. }
    destruct Hord as [H1 H2 H3 H4].
    split; [intros p Hp|intros p q Hp Hq|intros p q r Hp Hq Hr|intros p q r Hp Hq Hr];
      unfold ok_cmp; rewrite !E by done; auto. apply H3; auto.
Qed.

Lemma list_total {A} (P : A -> Prop) f `{HP : !TotalOn P f} a b :
  Forall P a -> Forall P b -> zip_cmp_len f a b = Ok (list_cmp (ok_cmp f) a b).
Proof.
  intros Ha Hb. apply zip_cmp_len_list_cmp. revert b Hb.
  induction Ha as [|x a Hx _ IH]; intros [|y b] Hb; try by constructor.
  apply Forall_cons in Hb as [Hy Hb]. constructor; [|by apply IH].
  by apply (total_ok (P := P) (f := f)).
Qed.

Lemma tuple_total ts a b :
  Forall (fun t => TotalOn (has_type t) compare_values) ts ->
  typed_prefix has_type ts a -> typed_prefix has_type ts b ->
  zip_cmp_len compare_values a b = Ok (list_cmp (ok_cmp compare_values) a b).
Proof.
  intros Hts Ha Hb. apply zip_cmp_len_list_cmp. revert a b Ha Hb.
  induction Hts as [|t ts Ht _ IH]; intros [|x a] [|y b]; cbn; try done; try by constructor.
  intros [Hx Ha] [Hy Hb]. constructor; [by apply (total_ok (P := has_type t))|]. by apply IH.
Qed.

(** The values of a type: [Null], or one constructor's. *)
Local Ltac typed_cases :=
  intros [] Hv; first [ exact (False_ind _ Hv) | left; reflexivity
                      | right; eexists; split; [reflexivity|exact Hv] ].

Local Ltac null_first_case wrap P cmp :=
  apply (total_null_first compare_values wrap P cmp);
  [typeclasses eauto | exact compare_values_null_first
  | typed_cases | done | done].

(** Every type's values are totally preordered, and comparing two of them never
    fails. *)
#[export] Instance compare_values_total t : TotalOn (has_type t) compare_values.
Proof.
  induction t as [t Hb|t IH|t IH|k v IHk IHv|ts IH|t IH] using CTy_ind'.
  - destruct t; try contradiction.
    + null_first_case Boolean (fun _ : bool => True) bool_cmp.
    + null_first_case TinyInt (fun _ : Z => True) Z.compare.
    + null_first_case SmallInt (fun _ : Z => True) Z.compare.
    + null_first_case Integer (fun _ : Z => True) Z.compare.
    + null_first_case BigInt (fun _ : Z => True) Z.compare.
    + null_first_case Counter (fun _ : Z => True) Z.compare.
    + null_first_case Float32 (fun _ : Z => True) cassandra_float_cmp.
    + null_first_case Float (fun _ : Z => True) cassandra_double_cmp.
    + null_first_case Text (fun _ : list Z => True) bytes_cmp.
    + null_first_case Blob (fun _ : list Z => True) bytes_cmp.
    + null_first_case Timestamp (fun _ : Z => True) Z.compare.
    + null_first_case Date (fun _ : Z => True) Z.compare.
    + null_first_case Time (fun _ : Z => True) Z.compare.
    + null_first_case Uuid (fun _ : list Z => True) bytes_cmp.
    + null_first_case Inet (fun _ : list Z => True) bytes_cmp.
  - pose proof (total_ord (TotalOn := IH)).
    apply (total_null_first compare_values List (Forall (has_type t)) (list_cmp (ok_cmp compare_values)));
      [typeclasses eauto | exact compare_values_null_first
      | typed_cases | done |].
    apply (list_total (has_type t) compare_values).
  - pose proof (total_ord (TotalOn := IH)).
    apply (total_null_first compare_values VSet (Forall (has_type t)) (list_cmp (ok_cmp compare_values)));
      [typeclasses eauto | exact compare_values_null_first
      | typed_cases | done |].
    apply (list_total (has_type t) compare_values).
  - pose proof (pair_cmp_total (has_type k) (has_type v)) as Hp.
    pose proof (total_ord (TotalOn := Hp)).
    apply (total_null_first compare_values Map (Forall (fun p => has_type k p.1 /\ has_type v p.2))
             (list_cmp (ok_cmp pair_cmp)));
      [typeclasses eauto | exact compare_values_null_first
      | typed_cases | done |].
    intros a b Ha Hb.
    rewrite <- (list_total (fun p => has_type k p.1 /\ has_type v p.2) pair_cmp a b Ha Hb).
    apply zip_cmp_len_ext. by intros [] [].
  - assert (OrdOn (typed_prefix has_type ts) (list_cmp (ok_cmp compare_values))).
    { apply list_cmp_positions. eapply Forall_impl; [exact IH|]. by intros ? []. }
    apply (total_null_first compare_values Tuple (typed_prefix has_type ts)
             (list_cmp (ok_cmp compare_values)));
      [done | exact compare_values_null_first
      | typed_cases | done |].
    intros a b. by apply tuple_total.
  - pose proof (total_ord (TotalOn := IH)).
    apply (total_null_first compare_values Frozen (has_type t) (ok_cmp compare_values));
      [done | exact compare_values_null_first
      | typed_cases | done |].
    apply (total_ok (TotalOn := IH)).
Qed.

#[export] Instance compare_values_ord t : OrdOn (has_type t) (ok_cmp compare_values).
Proof. apply total_ord. Qed.

(** ** The order, written out *)

(** [a] is before [b] in the lexicographic order over the equivalence [eqv] and the strict
    order [lt] of the elements: they agree on a beginning, and then [a] ends or has the
    smaller element. *)
Definition lex_before {A} (eqv lt : A -> A -> Prop) (a b : list A) : Prop :=
  exists p q r s, a = p ++ r /\ b = q ++ s /\ Forall2 eqv p q
    /\ ((r = [] /\ s <> []) \/ exists x y r' s', r = x :: r' /\ s = y :: s' /\ lt x y).

Lemma lex_before_cons {A} (eqv lt : A -> A -> Prop) x a y b :
  ~ (eqv x y /\ lt x y) ->
  lex_before eqv lt (x :: a) (y :: b) <-> lt x y \/ (eqv x y /\ lex_before eqv lt a b).
Proof.
  intros Hexcl. split.
  - intros (p & q & r & s & Ea & Eb & Hpq & Hrs). destruct Hpq as [|u v p q Huv Hpq]; cbn in Ea, Eb.
    + left. destruct Hrs as [[-> _]|(x' & y' & r' & s' & -> & -> & Hlt)]; [done|]. by injection Ea as -> ->; injection Eb as -> ->.
    + right. injection Ea as -> ->. injection Eb as -> ->. split; [done|]. by exists p, q, r, s.
  - intros [Hlt|[He (p & q & r & s & -> & -> & Hpq & Hrs)]].
    + exists [], [], (x :: a), (y :: b). split; [done|]. split; [done|]. split; [constructor|]. right. by exists x, y, a, b.
    + exists (x :: p), (y :: q), r, s. split; [done|]. split; [done|]. split; [by constructor|done].
Qed.

Lemma lex_before_nil_l {A} (eqv lt : A -> A -> Prop) b : lex_before eqv lt [] b <-> b <> [].
Proof.
  split.
  - intros (p & q & r & s & Ea & -> & Hpq & Hrs). destruct p, r; try done. apply Forall2_nil_inv_l in Hpq as ->.
    destruct Hrs as [[_ ?]|(? & ? & ? & ? & ? & _)]; done.
  - intros Hb. exists [], [], [], b. split; [done|]. split; [done|]. split; [constructor|]. by left.
Qed.

Lemma lex_before_nil_r {A} (eqv lt : A -> A -> Prop) a : ~ lex_before eqv lt a [].
Proof.
  intros (p & q & r & s & _ & Eb & _ & Hrs). destruct q, s; try done.
  destruct Hrs as [[_ ?]|(? & ? & ? & ? & _ & ? & _)]; done.
Qed.

Lemma list_cmp_before {A} (cmp : A -> A -> comparison) a b :
  list_cmp cmp a b = Lt <-> lex_before (fun x y => cmp x y = Eq) (fun x y => cmp x y = Lt) a b.
Proof.
  revert b. induction a as [|x a IH]; intros [|y b]; cbn [list_cmp].
  - by rewrite lex_before_nil_l.
  - by rewrite lex_before_nil_l.
  - split; [done|]. by intros ?%lex_before_nil_r.
  - rewrite lex_before_cons by (intros [E1 E2]; congruence). rewrite <- IH.
    destruct (cmp x y); cbn; intuition congruence.
Qed.

Lemma zip_cmp_before {A} (f : A -> A -> result Error comparison) a b :
  zip_cmp_len f a b = Ok Lt <-> lex_before (fun x y => f x y = Ok Eq) (fun x y => f x y = Ok Lt) a b.
Proof.
  revert b. induction a as [|x a IH]; intros [|y b].
  - rewrite lex_before_nil_l. by cbn.
  - rewrite lex_before_nil_l. by cbn.
  - split; [done|]. by intros ?%lex_before_nil_r.
  - rewrite lex_before_cons by (intros [E1 E2]; congruence). rewrite <- IH.
    unfold zip_cmp_len. cbn [zip_cmp length Nat.compare].
    destruct (f x y) as [[]|]; intuition congruence.
Qed.

Lemma lex_before_iff {A} (eqv eqv' lt lt' : A -> A -> Prop) a b :
  (forall x y, eqv x y <-> eqv' x y) -> (forall x y, lt x y <-> lt' x y) ->
  lex_before eqv lt a b <-> lex_before eqv' lt' a b.
Proof.
  intros He Hl. unfold lex_before.
  assert (H2 : forall p q, Forall2 eqv p q <-> Forall2 eqv' p q).
  { intros p q. split; intros H; (eapply Forall2_impl; [exact H|]); intros ? ?; apply He. }
  split; intros (p & q & r & s & -> & -> & Hpq & Hrs); exists p, q, r, s; (split; [done|]); (split; [done|]);
    (split; [by apply H2|]);
    (destruct Hrs as [?|(x & y & r' & s' & E1 & E2 & Hlt)]; [by left|right; exists x, y, r', s'; by rewrite (Hl x y) in * ]).
Qed.

(** A number before another as Java orders doubles: NaN last, then by value, the negative
    zero before the positive. *)
Definition double_before (x y : Z) : Prop :=
  f64_is_nan x = false
  /\ (f64_is_nan y = true
      \/ f64_smag x < f64_smag y
      \/ (f64_smag x = f64_smag y /\ f64_sign x = true /\ f64_sign y = false)).

Lemma double_cmp_before x y : cassandra_double_cmp x y = Lt <-> double_before x y.
Proof.
  unfold cassandra_double_cmp, f64_partial_cmp, sign_bit_tiebreak, double_before.
  destruct (f64_is_nan x), (f64_is_nan y); cbn [orb]; try (intuition congruence).
  destruct (Z.compare_spec (f64_smag x) (f64_smag y)); destruct (f64_sign x), (f64_sign y); intuition (congruence || lia).
Qed.

(** What it takes for [a] to come before [b]. *)
Definition comes_before (a b : Value) : Prop :=
  let eqv x y := compare_values x y = Ok Eq in
  let lt x y := compare_values x y = Ok Lt in
  match a, b with
  | Null, Null => False
  | Null, _ => True
  | Boolean x, Boolean y => x = false /\ y = true
  | TinyInt x, TinyInt y | SmallInt x, SmallInt y | Integer x, Integer y | BigInt x, BigInt y
  | Counter x, Counter y | Timestamp x, Timestamp y | Date x, Date y | Time x, Time y => x < y
  | Float32 x, Float32 y => double_before (f32_as_f64 x) (f32_as_f64 y)
  | Float x, Float y => double_before x y
  | Text x, Text y | Blob x, Blob y | Uuid x, Uuid y | Inet x, Inet y => lex_before eq Z.lt x y
  | List x, List y | VSet x, VSet y | Tuple x, Tuple y => lex_before eqv lt x y
  | Map x, Map y =>
      lex_before (fun p q => eqv p.1 q.1 /\ eqv p.2 q.2)
        (fun p q => lt p.1 q.1 \/ (eqv p.1 q.1 /\ lt p.2 q.2)) x y
  | Frozen x, Frozen y => lt x y
  | _, _ => False
  end.

Lemma bytes_cmp_before x y : bytes_cmp x y = Lt <-> lex_before eq Z.lt x y.
Proof.
  unfold bytes_cmp. rewrite list_cmp_before. apply lex_before_iff.
  - intros u v. apply Z.compare_eq_iff.
  - done.
Qed.

Lemma ok_lt_iff (c : comparison) : @Ok Error comparison c = Ok Lt <-> c = Lt.
Proof. split; congruence. Qed.

Lemma compare_values_before a b : compare_values a b = Ok Lt <-> comes_before a b.
Proof.
  destruct a, b; cbn [compare_values comes_before]; try (split; done); try apply zip_cmp_before;
    rewrite ?ok_lt_iff; try done; try apply double_cmp_before; try apply bytes_cmp_before.
  - destruct b0, b; cbn; intuition congruence.
  - rewrite zip_cmp_before. apply lex_before_iff; intros [k v] [k' v']; cbn [fst snd];
      destruct (compare_values k k') as [[]|]; intuition congruence.
Qed.

(** The types that [compare_values] knows nothing of. *)
Definition unordered (v : Value) : bool :=
  match v with
  | Varint _ | Decimal _ _ | Duration _ _ _ | Json _ | Udt _ _ _ | Tombstone _ => true
  | _ => false
  end.

(** C40: The order of clustering values. [compare_values] is a total preorder on the values
    of each type built from boolean, the integers (tinyint to bigint, counter), float, double, text, blob, timestamp,
    date, time, uuid and inet by list, set, map, tuple and frozen: on one type it never fails, and it is
    antisymmetric and transitive (in its strict part and its equivalence, so the [BTreeMap] of the
    memtable and the sort of a compaction are well defined). The order is this one: [Null] first; false before true;
    integers, timestamps, dates and times by number; floats as Java orders them (by value,
    -0.0 before 0.0, NaN last); text, blob, uuid and inet by unsigned bytes; lists, sets and tuples by their
    elements and then their length, maps so by key and value, and a frozen value as what it
    holds. Varint, decimal, duration, UDT, JSON and tombstone values have no order: comparing one
    with anything but [Null] is an error. *)
Theorem compare_values_total_order t a b c
    (Ha : has_type t a) (Hb : has_type t b) (Hc : has_type t c) :
  (exists o, compare_values a b = Ok o /\ compare_values b a = Ok (CompOpp o))
  /\ compare_values a a = Ok Eq
  /\ (compare_values a b = Ok Lt -> compare_values b c = Ok Lt -> compare_values a c = Ok Lt)
  /\ (compare_values a b = Ok Eq -> compare_values a c = compare_values b c)
  /\ (compare_values a b = Ok Lt <-> comes_before a b)
  /\ (forall x y, unordered x = true -> y <> Null ->
        compare_values x y = Err InvalidInput /\ compare_values y x = Err InvalidInput).
Proof.
  set (P := has_type t). set (cmp := ok_cmp compare_values).
  assert (E : forall x y, P x -> P y -> compare_values x y = Ok (cmp x y))
    by apply total_ok.
  split_and!; [rewrite !E by done..| |].
  - exists (cmp a b). split; [done|]. f_equal. by apply (on_sym (P := P) (cmp := cmp)).
  - f_equal. by apply (on_refl (P := P) (cmp := cmp)).
  - intros [= H1] [= H2]. f_equal. by apply (on_trans (P := P) (cmp := cmp) a b c).
  - intros [= H]. f_equal. by apply (on_eq_l (P := P) (cmp := cmp)).
  - apply compare_values_before.
  - intros [] [] Hx Hy; done.
Qed.

(** A [frozen<map<text, list<double>>>] whose values differ in a signed zero. *)
Lemma compare_values_total_order_witness :
  let v x := Frozen (Map [(Text [97], List [Float x; Null])]) in
  compare_values (v (2 ^ 63)) (v 0) = Ok Lt
  /\ compare_values (v 0) (v 0x3FF0000000000000) = Ok Lt
  /\ compare_values (v (2 ^ 63)) (v 0x3FF0000000000000) = Ok Lt.
Proof.
  intros v. split; [vm_compute; reflexivity|]. split; [vm_compute; reflexivity|].
  assert (H : forall x, has_type (TFrozen (TMap TText (TList TDouble))) (v x))
    by (intros x; cbn; repeat constructor).
  apply (proj1 (proj2 (proj2 (compare_values_total_order
    (TFrozen (TMap TText (TList TDouble)))
    (v (2 ^ 63)) (v 0) (v 0x3FF0000000000000) (H _) (H _) (H _)))));
    vm_compute; reflexivity.
Defined.
