(* ===== verification/Keys.v ===== *)
(** Schemas and keys: [TableSchema] of [schema/mod.rs]; partition keys, decorated
    keys, clustering keys and range tombstones of [storage/write_engine/mutation.rs]. *)

From S2P Require Import Prelude Values.
From S2P Require Import Murmur3.

Open Scope Z_scope.

(** ** Schema *)

Inductive ClusteringOrder := Asc | Desc.
#[export] Instance clustering_order_eq_dec : EqDecision ClusteringOrder.
Proof. solve_decision. Defined.

Record KeyColumn := mkKeyColumn {
  kc_name : string; kc_data_type : string; kc_position : nat }.

Record ClusteringColumn := mkClusteringColumn {
  cc_name : string; cc_data_type : string; cc_position : nat; cc_order : ClusteringOrder }.

(** The JSON [default] is kept as its text. *)
Record Column := mkColumn {
  col_name : string; col_data_type : string; col_nullable : bool;
  col_default : option string; col_is_static : bool }.

Record TableSchema := mkTableSchema {
  keyspace : string;
  table : string;
  partition_keys : list KeyColumn;
  clustering_keys : list ClusteringColumn;
  columns : list Column;
  comments : gmap string string;
  dropped_columns : gmap string Z;
}.

(** ** Comparators and the bytes of a partition key *)

Inductive ComparatorType : Type :=
| CBoolean | CTinyInt | CSmallInt | CInt | CBigInt | CCounter | CFloat32 | CFloat
| CText | CBlob | CTimestamp | CUuid | CVarint | CDecimal | CDuration | CDate | CJson
| CList (c : ComparatorType) | CSet (c : ComparatorType)
| CMap (k v : ComparatorType) | CTuple (cs : list ComparatorType)
| CUdt (type_name : string) (keyspace : option string)
    (fields : list (string * ComparatorType))
| CFrozen (c : ComparatorType)
| CCustom (name : string).

(** [n.to_be_bytes()] of an integer of [w] bytes reads its two's complement. *)
Definition serialize_value_bytes (value : Value) (comparator : ComparatorType)
    : result Error (list Z) :=
  match value, comparator with
  | Null, _ => Ok []
  | Boolean b, CBoolean => Ok [if b then 1 else 0]
  | TinyInt n, CTinyInt => Ok [as_u8 n]
  | SmallInt n, CSmallInt => Ok (be_bytes 2 n)
  | Integer n, CInt => Ok (be_bytes 4 n)
  | BigInt n, CBigInt => Ok (be_bytes 8 n)
  | Counter n, CCounter => Ok (be_bytes 8 n)
  | Float32 f, CFloat32 => Ok (be_bytes 4 f)
  | Float f, CFloat => Ok (be_bytes 8 f)
  | Text s, CText => Ok s
  | Blob bytes, CBlob => Ok bytes
  | Timestamp millis, CTimestamp => Ok (be_bytes 8 millis)
  | Date days, CDate =>
      let stored := as_u32 (as_i32 (days - (- 2 ^ 31))) in
      Ok (be_bytes 4 stored)
  | Uuid bytes, CUuid => Ok bytes
  | Time nanos, CCustom name =>
      if decide (name = "time"%string) then Ok (be_bytes 8 nanos) else Err InvalidInput
  | Inet bytes, CCustom name =>
      if decide (name = "inet"%string) then Ok bytes else Err InvalidInput
  | Varint bytes, CVarint => Ok bytes
  | Decimal scale unscaled, CDecimal => Ok (be_bytes 4 scale ++ unscaled)
  | Duration months days nanos, CDuration =>
      Ok (be_bytes 4 months ++ be_bytes 4 days ++ be_bytes 8 nanos)
  | _, _ => Err InvalidInput
  end.

Definition PartitionKey := list (string * Value).

(** [ComparatorType::from_data_type], the parser of type names
    ([schema/cql_type_parser.rs]), is a parameter. *)
Section PartitionKeyBytes.
Context (from_data_type : string -> result Error ComparatorType).

Definition serialize_value (value : Value) (key_column : KeyColumn)
    : result Error (list Z) :=
  comparator ← from_data_type (kc_data_type key_column);
  serialize_value_bytes value comparator.

(** The loop over a composite key; [pks] are the schema columns still to come. *)
Fixpoint to_bytes_loop (columns : PartitionKey) (pks : list KeyColumn)
    : result Error (list Z) :=
  match columns, pks with
  | (_, value) :: columns', pk :: pks' =>
      value_bytes ← serialize_value value pk;
      if Z.of_nat (length value_bytes) >? 0xFFFF then Err InvalidInput
      else
        rest ← to_bytes_loop columns' pks';
        Ok (be_bytes 2 (Z.of_nat (length value_bytes)) ++ value_bytes ++ [0] ++ rest)
  | _, _ => Ok []
  end.

Definition to_bytes (columns : PartitionKey) (schema : TableSchema)
    : result Error (list Z) :=
  if decide (columns = []) then Err InvalidInput
  else if negb (Nat.eqb (length columns) (length (partition_keys schema)))
  then Err InvalidInput
  else match columns, partition_keys schema with
       | [(_, value)], [pk] => serialize_value value pk
       | _, _ => to_bytes_loop columns (partition_keys schema)
       end.
End PartitionKeyBytes.

(** ** Decorated keys *)

Record DecoratedKey := mkDecoratedKey { token : Z; key : list Z }.
#[export] Instance decorated_key_eq_dec : EqDecision DecoratedKey.
Proof. solve_decision. Defined.

(** An empty key has the minimum token, which no other key has. *)
Definition calculate_murmur3_token (key_bytes : list Z) : Z :=
  if decide (key_bytes = []) then i64_MIN else cassandra_murmur3_token key_bytes.

Definition from_key_bytes (key_bytes : list Z) : DecoratedKey :=
  mkDecoratedKey (calculate_murmur3_token key_bytes) key_bytes.

Definition to_decorated_key (from_data_type : string -> result Error ComparatorType)
    (columns : PartitionKey) (schema : TableSchema) : result Error DecoratedKey :=
  key_bytes ← to_bytes from_data_type columns schema;
  Ok (mkDecoratedKey (calculate_murmur3_token key_bytes) key_bytes).

(** [Ord for DecoratedKey]: token, then raw bytes. *)
Definition dk_cmp (a b : DecoratedKey) : comparison :=
  match token a ?= token b with
  | Eq => bytes_cmp (key a) (key b)
  | other => other
  end.

#[export] Instance dk_cmp_laws : OrdLaws dk_cmp.
Proof.
  apply (ord_ext _ (fun a b => then_with (token a ?= token b) (bytes_cmp (key a) (key b)))).
  { intros a b _ _. unfold dk_cmp. by destruct (token a ?= token b). }
  apply ord_then.
  - by apply (ord_on _ (fun _ => True) token Z.compare).
  - by apply (ord_on _ (fun _ => True) key bytes_cmp).
Qed.

Lemma dk_cmp_eq a b : dk_cmp a b = Eq <-> a = b.
Proof.
  destruct a as [t1 k1], b as [t2 k2]. unfold dk_cmp. cbn.
  destruct (Z.compare_spec t1 t2) as [->|H|H]; cbn.
  - rewrite bytes_cmp_eq. split; congruence.
  - split; [done|]. intros [= -> _]. lia.
  - split; [done|]. intros [= -> _]. lia.
Qed.

Lemma dk_cmp_refl k : dk_cmp k k = Eq.
Proof. by apply dk_cmp_eq. Qed.

(** ** Clustering keys *)

(** Column name and value pairs, in schema order; trailing columns may be absent. *)
Definition ClusteringKey := list (string * Value).

Definition ck_value (k : ClusteringKey) (i : nat) : Value :=
  match k !! i with Some (_, v) => v | None => Null end.

(** One column: NULL and absent sort first in either direction; DESC reverses the
    comparison of two present values only. *)
Definition col_compare (order : ClusteringOrder) (a_val b_val : Value)
    : result Error comparison :=
  match a_val, b_val with
  | Null, Null => Ok Eq
  | Null, _ => Ok Lt
  | _, Null => Ok Gt
  | _, _ =>
      ordering ← compare_values a_val b_val;
      Ok (if decide (order = Desc) then CompOpp ordering else ordering)
  end.

(** The loop over the schema's clustering columns from position [i]. *)
Fixpoint ck_compare_loop (cols : list ClusteringColumn) (i : nat) (a b : ClusteringKey)
    : result Error comparison :=
  match cols with
  | [] => Ok Eq
  | cluster_col :: cols' =>
      final_ordering ← col_compare (cc_order cluster_col) (ck_value a i) (ck_value b i);
      match final_ordering with
      | Eq => ck_compare_loop cols' (S i) a b
      | o => Ok o
      end
  end.

(** [ClusteringKey::compare] *)
Definition ck_compare (a b : ClusteringKey) (schema : TableSchema)
    : result Error comparison :=
  if ((length (clustering_keys schema) <? length a)
      || (length (clustering_keys schema) <? length b))%nat
  then Err SchemaError
  else ck_compare_loop (clustering_keys schema) 0 a b.

(** The text of [format!("{v:?}")], which the schemaless order falls back on. *)
Class DebugFmt := debug_fmt : Value -> list Z.

Section FallbackOrder.
Context `{DebugFmt}.

Definition fallback_value_cmp (a_val b_val : Value) : comparison :=
  match compare_values a_val b_val with
  | Ok o => o
  | Err _ => bytes_cmp (debug_fmt a_val) (debug_fmt b_val)
  end.

Fixpoint ck_cmp_loop (a b : ClusteringKey) : comparison :=
  match a, b with
  | (_, a_val) :: a', (_, b_val) :: b' =>
      match fallback_value_cmp a_val b_val with
      | Eq => ck_cmp_loop a' b'
      | o => o
      end
  | _, _ => Eq
  end.

(** [Ord for ClusteringKey] *)
Definition ck_cmp (a b : ClusteringKey) : comparison :=
  match ck_cmp_loop a b with
  | Eq => Nat.compare (length a) (length b)
  | o => o
  end.

(** [a.compare(b, schema).unwrap_or_else(|_| a.cmp(b))], the merge's order. *)
Definition ck_schema_cmp (schema : TableSchema) (a b : ClusteringKey) : comparison :=
  match ck_compare a b schema with
  | Ok o => o
  | Err _ => ck_cmp a b
  end.
End FallbackOrder.

(** ** Range tombstones *)

Inductive ClusteringBound :=
| Inclusive (k : ClusteringKey)
| Exclusive (k : ClusteringKey)
| Bottom
| Top.

Record RangeTombstone := mkRangeTombstone {
  rt_start : ClusteringBound;
  rt_end : ClusteringBound;
  rt_deletion_time : Z;
  rt_local_deletion_time : Z;
}.

(** ** The order of typed clustering keys *)

#[export] Instance col_compare_total o t : TotalOn (has_type t) (col_compare o).
Proof.
  pose proof (compare_values_ord t).
  set (c := fun v w => if decide (o = Desc) then CompOpp (ok_cmp compare_values v w)
                       else ok_cmp compare_values v w).
  assert (OrdOn (fun v => has_type t v /\ v <> Null) c).
  { apply (ord_weaken (has_type t)); [by intros ? []|]. unfold c.
    destruct (decide (o = Desc)); [by apply ord_rev|done]. }
  apply (total_null_first _ (fun v : Value => v) (fun v => has_type t v /\ v <> Null) c);
    [done| | | |].
  - split; [done|]. intros v Hv. by destruct v.
  - intros v Hv. assert (v = Null \/ v <> Null) as [->|Hn] by (destruct v; (by left) || (by right));
      [by left|right; eauto].
  - by intros v [_ Hv].
  - intros v w [Hv Hvn] [Hw Hwn]. unfold c.
    assert (col_compare o v w = (ordering ← compare_values v w;
      Ok (if decide (o = Desc) then CompOpp ordering else ordering))) as ->
      by (destruct v, w; done).
    rewrite (total_ok (P := has_type t) (f := compare_values) v w) by done.
    cbn. by destruct (decide (o = Desc)).
Qed.

(** A clustering value tagged with its column's direction. *)
Definition oval : Type := ClusteringOrder * Value.
Definition oval_cmp (p q : oval) : comparison := ok_cmp (col_compare p.1) p.2 q.2.

(** The types of the clustering columns, with their directions. *)
Definition ck_types (cols : list ClusteringColumn) (ts : list CTy)
    : list (ClusteringOrder * CTy) := zip (map cc_order cols) ts.
Definition oval_typed (ot : ClusteringOrder * CTy) (p : oval) : Prop :=
  p.1 = ot.1 /\ has_type ot.2 p.2.

#[export] Instance oval_cmp_ord ot : OrdOn (oval_typed ot) oval_cmp.
Proof.
  destruct ot as [o t].
  eapply (ord_ext _ (fun p q : oval => ok_cmp (col_compare o) p.2 q.2)).
  - intros [o1 v] [o2 w] [E1 _] [E2 _]. cbn in *. by subst.
  - pose proof (total_ord (TotalOn := col_compare_total o t)).
    apply (ord_on _ (has_type t) (fun p : oval => p.2) (ok_cmp (col_compare o))).
    by intros [o1 v] [_ Hv].
Qed.

(** The values of [k] from column [i] on, one per schema column, [Null] if absent. *)
Fixpoint ck_padded (cols : list ClusteringColumn) (i : nat) (k : ClusteringKey) : list oval :=
  match cols with
  | [] => []
  | col :: cols' => (cc_order col, ck_value k i) :: ck_padded cols' (S i) k
  end.

(** [k] has at most the schema's columns, each of its column's type. *)
Definition ck_typed (schema : TableSchema) (ts : list CTy) (k : ClusteringKey) : Prop :=
  length ts = length (clustering_keys schema)
  /\ typed_prefix has_type ts (map snd k).

Lemma typed_prefix_length {T A} (H : T -> A -> Prop) ts l :
  typed_prefix H ts l -> (length l <= length ts)%nat.
Proof.
  revert l. induction ts as [|t ts IH]; intros [|x l]; cbn; try lia; try done.
  intros [_ Hl]. apply IH in Hl. lia.
Qed.

Lemma ck_typed_length schema ts k :
  ck_typed schema ts k -> (length k <= length (clustering_keys schema))%nat.
Proof.
  intros [Hl Hp]. apply typed_prefix_length in Hp. rewrite length_map in Hp. lia.
Qed.

Lemma ck_typed_value schema ts k i t :
  ck_typed schema ts k -> ts !! i = Some t -> has_type t (ck_value k i).
Proof.
  intros [_ Hp]. unfold ck_value. revert k i Hp.
  induction ts as [|t' ts IH]; intros [|[n v] k] i Hp; try done.
  - intros _. by destruct t, i.
  - destruct Hp as [Hv Hp]. destruct i; cbn; [intros [= <-]; done|]. by apply IH.
Qed.

Lemma ck_padded_typed cols ts i (k : ClusteringKey) :
  (forall j t, ts !! j = Some t -> has_type t (ck_value k (i + j))) ->
  length ts = length cols ->
  typed_prefix oval_typed (ck_types cols ts) (ck_padded cols i k).
Proof.
  revert ts i. induction cols as [|col cols IH]; intros [|t ts] i Hv Hl; try done.
  cbn. split.
  - split; [done|]. cbn. rewrite <- (Nat.add_0_r i). by apply Hv.
  - apply IH; [|cbn in Hl; lia]. intros j u Hj. rewrite Nat.add_succ_comm. by apply Hv.
Qed.

Lemma ck_compare_loop_padded cols ts i a b :
  (forall j t, ts !! j = Some t -> has_type t (ck_value a (i + j))) ->
  (forall j t, ts !! j = Some t -> has_type t (ck_value b (i + j))) ->
  length ts = length cols ->
  ck_compare_loop cols i a b = Ok (list_cmp oval_cmp (ck_padded cols i a) (ck_padded cols i b)).
Proof.
  revert ts i. induction cols as [|col cols IH]; intros [|t ts] i Ha Hb Hl; try done.
  cbn [ck_compare_loop ck_padded list_cmp].
  rewrite (total_ok (P := has_type t)).
  2: { rewrite <- (Nat.add_0_r i). by apply Ha. }
  2: { rewrite <- (Nat.add_0_r i). by apply Hb. }
  unfold oval_cmp at 1. cbn.
  destruct (ok_cmp _ _ _); [|done..]. cbn.
  apply (IH ts); [| |cbn in Hl; lia]; intros j u Hj; rewrite Nat.add_succ_comm; auto.
Qed.

(** On typed keys the schema-aware comparison is the lexicographic order of the
    padded values. *)
Lemma ck_compare_padded schema ts a b :
  ck_typed schema ts a -> ck_typed schema ts b ->
  ck_compare a b schema
  = Ok (list_cmp oval_cmp (ck_padded (clustering_keys schema) 0 a)
                          (ck_padded (clustering_keys schema) 0 b)).
Proof.
  intros Ha Hb. unfold ck_compare.
  pose proof (ck_typed_length _ _ _ Ha). pose proof (ck_typed_length _ _ _ Hb).
  destruct (Nat.ltb_spec (length (clustering_keys schema)) (length a)); [lia|].
  destruct (Nat.ltb_spec (length (clustering_keys schema)) (length b)); [lia|]. cbn.
  apply (ck_compare_loop_padded _ ts); [| |apply Ha];
    intros j t Hj; by eapply ck_typed_value.
Qed.

#[export] Instance ck_compare_total schema ts :
  TotalOn (ck_typed schema ts) (fun a b => ck_compare a b schema).
Proof.
  set (cols := clustering_keys schema).
  assert (E : forall a b, ck_typed schema ts a -> ck_typed schema ts b ->
    ok_cmp (fun a b => ck_compare a b schema) a b
    = list_cmp oval_cmp (ck_padded cols 0 a) (ck_padded cols 0 b)).
  { intros a b Ha Hb. unfold ok_cmp. by rewrite (ck_compare_padded schema ts). }
  split.
  - intros a b Ha Hb. by rewrite E, (ck_compare_padded schema ts).
  - eapply ord_ext; [exact E|].
    pose proof (list_cmp_positions oval_typed oval_cmp (ck_types cols ts)
      ltac:(apply Forall_true; intros; apply oval_cmp_ord)).
    apply (ord_on _ (typed_prefix oval_typed (ck_types cols ts)) (ck_padded cols 0)
             (list_cmp oval_cmp)).
    intros k Hk. apply ck_padded_typed; [|apply Hk].
    intros j t Hj. by eapply ck_typed_value.
Qed.

#[export] Instance ck_schema_cmp_ord `{DebugFmt} schema ts :
  OrdOn (ck_typed schema ts) (ck_schema_cmp schema).
Proof.
  pose proof (total_ord (TotalOn := ck_compare_total schema ts)).
  eapply ord_ext; [|done]. intros a b Ha Hb. unfold ck_schema_cmp.
  rewrite (total_ok (P := ck_typed schema ts) (f := fun a b => ck_compare a b schema)) by done.
  done.
Qed.

Lemma ck_compare_loop_at cols i n a b col o :
  cols !! n = Some col ->
  (forall j, (j < n)%nat -> forall col', cols !! j = Some col' ->
     col_compare (cc_order col') (ck_value a (i + j)) (ck_value b (i + j)) = Ok Eq) ->
  col_compare (cc_order col) (ck_value a (i + n)) (ck_value b (i + n)) = Ok o ->
  o <> Eq -> ck_compare_loop cols i a b = Ok o.
Proof.
  revert i n. induction cols as [|c cols IH]; intros i [|n] Hcol Hpre Ho Hne; try done.
  - injection Hcol as ->. cbn. rewrite Nat.add_0_r in Ho. rewrite Ho. by destruct o.
  - cbn. pose proof (Hpre 0%nat ltac:(lia) c eq_refl) as H0. rewrite Nat.add_0_r in H0.
    rewrite H0. cbn. apply (IH (S i) n); [done| |by rewrite Nat.add_succ_comm|done].
    intros j Hj col' Hcol'. rewrite Nat.add_succ_comm. apply Hpre; [lia|done].
Qed.

(** [ClusteringKey::compare] on keys of the schema's types never fails and is
    a total preorder; it is decided by the first column on which the keys differ,
    where NULL (or an absent trailing component) comes first in either direction
    and DESC reverses the order of present values. A key with more columns than
    the schema is an error. *)
Theorem clustering_compare_order schema ts a b c
    (Ha : ck_typed schema ts a) (Hb : ck_typed schema ts b) (Hc : ck_typed schema ts c) :
  (exists o, ck_compare a b schema = Ok o /\ ck_compare b a schema = Ok (CompOpp o))
  /\ (ck_compare a b schema = Ok Lt -> ck_compare b c schema = Ok Lt ->
      ck_compare a c schema = Ok Lt)
  /\ (forall n col, clustering_keys schema !! n = Some col ->
      (forall j col', (j < n)%nat -> clustering_keys schema !! j = Some col' ->
         col_compare (cc_order col') (ck_value a j) (ck_value b j) = Ok Eq) ->
      (ck_value a n = Null -> ck_value b n <> Null -> ck_compare a b schema = Ok Lt)
      /\ (ck_value a n <> Null -> ck_value b n <> Null ->
          compare_values (ck_value a n) (ck_value b n) = Ok Lt ->
          ck_compare a b schema = Ok (if decide (cc_order col = Desc) then Gt else Lt)))
  /\ (forall long, (length (clustering_keys schema) < length long)%nat ->
      ck_compare long a schema = Err SchemaError /\ ck_compare a long schema = Err SchemaError).
Proof.
  set (f := fun a b => ck_compare a b schema).
  assert (E : forall x y, ck_typed schema ts x -> ck_typed schema ts y ->
     ck_compare x y schema = Ok (ok_cmp f x y))
    by (intros; by apply (total_ok (P := ck_typed schema ts) (f := f))).
  pose proof (total_ord (TotalOn := ck_compare_total schema ts)) as Hord. fold f in Hord.
  pose proof (ck_typed_length _ _ _ Ha). pose proof (ck_typed_length _ _ _ Hb).
  split_and!.
  - exists (ok_cmp f a b). rewrite !E by done. split; [done|]. f_equal.
    by apply (on_sym (cmp := ok_cmp f)).
  - rewrite !E by done. intros [= H1] [= H2]. f_equal.
    by apply (on_trans (cmp := ok_cmp f) a b c).
  - intros n col Hcol Hpre.
    assert (Hat : forall o, col_compare (cc_order col) (ck_value a n) (ck_value b n) = Ok o ->
      o <> Eq -> ck_compare a b schema = Ok o).
    { intros o Ho Hne. unfold ck_compare.
      do 2 (match goal with |- context [(?x <? ?y)%nat] => destruct (Nat.ltb_spec x y) end;
        [lia|]). cbn.
      apply (ck_compare_loop_at _ 0 n a b col o); auto. }
    split; intros.
    + apply Hat; [|done]. rewrite H1. by destruct (ck_value b n).
    + apply Hat; [|by destruct (decide _)].
      transitivity (ordering ← compare_values (ck_value a n) (ck_value b n);
        Ok (E := Error) (if decide (cc_order col = Desc) then CompOpp ordering else ordering)).
      * unfold col_compare. by destruct (ck_value a n), (ck_value b n).
      * rewrite H3. cbn. by destruct (decide _).
  - intros long Hlong. unfold ck_compare.
    destruct (Nat.ltb_spec (length (clustering_keys schema)) (length long)); [|lia].
    by rewrite orb_true_r.
Qed.

(** [PRIMARY KEY (p, c1, c2) WITH CLUSTERING ORDER BY (c1 DESC, c2 ASC)]. *)
Definition demo_schema : TableSchema :=
  mkTableSchema "ks" "t"
    [mkKeyColumn "p" "int" 0; mkKeyColumn "q" "text" 1]
    [mkClusteringColumn "c1" "int" 0 Desc; mkClusteringColumn "c2" "text" 1 Asc]
    [] ∅ ∅.

Lemma clustering_compare_order_witness :
  let k v := [("c1"%string, v)] in
  ck_compare (k (Integer 7)) (k (Integer 3)) demo_schema = Ok Lt
  /\ ck_compare [] (k (Integer 7)) demo_schema = Ok Lt
  /\ ck_compare [] (k (Integer 3)) demo_schema = Ok Lt.
Proof.
  intros k. split; [vm_compute; reflexivity|]. split; [vm_compute; reflexivity|].
  apply (proj1 (proj2 (clustering_compare_order demo_schema [TInt; TText]
           [] (k (Integer 7)) (k (Integer 3))
           ltac:(split; [reflexivity|cbn; auto])
           ltac:(split; [reflexivity|cbn; auto])
           ltac:(split; [reflexivity|cbn; auto]))));
    vm_compute; reflexivity.
Defined.

(** ** Injectivity of partition-key bytes *)

(** The values a Rust [Value] can hold, at the widths the encoder writes. *)
Definition value_wf (v : Value) : Prop :=
  match v with
  | TinyInt n => i_range 8 n
  | SmallInt n => i_range 16 n
  | Integer n | Date n => i_range 32 n
  | BigInt n | Counter n | Timestamp n | Time n => i_range 64 n
  | Float32 f => u_range 32 f
  | Float f => u_range 64 f
  | Decimal scale _ => i_range 32 scale
  | Duration months days nanos => i_range 32 months /\ i_range 32 days /\ i_range 64 nanos
  | _ => True
  end.

Lemma be_bytes_i_inj n v1 v2 :
  (0 < n)%nat -> i_range (8 * Z.of_nat n) v1 -> i_range (8 * Z.of_nat n) v2 ->
  be_bytes n v1 = be_bytes n v2 -> v1 = v2.
Proof.
  intros Hn H1 H2 E%(f_equal from_be). rewrite !from_be_bytes, pow256 in E.
  rewrite <- (swrap_id (8 * Z.of_nat n) v1), <- (swrap_id (8 * Z.of_nat n) v2) by (done || lia).
  rewrite <- (swrap_wrap _ v1), <- (swrap_wrap _ v2) by lia. unfold wrap. by rewrite E.
Qed.

Lemma be_bytes_app_inj n v1 v2 l1 l2 :
  be_bytes n v1 ++ l1 = be_bytes n v2 ++ l2 -> be_bytes n v1 = be_bytes n v2 /\ l1 = l2.
Proof. intros E. apply app_inj_1 in E; [done|]. by rewrite !be_bytes_length. Qed.

Lemma date_stored_inj d1 d2 :
  i_range 32 d1 -> i_range 32 d2 ->
  be_bytes 4 (as_u32 (as_i32 (d1 - - 2 ^ 31))) = be_bytes 4 (as_u32 (as_i32 (d2 - - 2 ^ 31))) ->
  d1 = d2.
Proof.
  unfold as_u32, as_i32. rewrite !wrap_swrap by lia. intros H1 H2 E.
  apply (be_bytes_inj 4) in E; try (apply (wrap_range 32); lia).
  unfold i_range in H1, H2. change (32 - 1) with 31 in *.
  rewrite !wrap_id in E by (unfold u_range; lia). lia.
Qed.

Local Ltac signed_inj E Hv Hw :=
  eapply be_bytes_i_inj; [| | |exact E]; [lia|exact Hv|exact Hw].

Lemma serialize_value_bytes_inj c v w bs :
  value_wf v -> value_wf w -> v <> Null -> w <> Null ->
  serialize_value_bytes v c = Ok bs -> serialize_value_bytes w c = Ok bs -> v = w.
Proof.
  intros Hv Hw Hvn Hwn E1 E2.
  destruct v, c; try done; destruct w; try done;
    cbn [serialize_value_bytes value_wf] in *; repeat case_decide; try done; try (subst; discriminate);
    rewrite <- E2 in E1; clear E2; apply (inj Ok) in E1; try (by f_equal); f_equal;
    try (signed_inj E1 Hv Hw);
    try (by apply date_stored_inj);
    try (eapply be_bytes_inj; [| |exact E1]; [exact Hv|exact Hw]).
  - by destruct b, b0.
  - apply be_bytes_app_inj in E1 as [E1 _].
    signed_inj E1 Hv Hw.
  - by apply be_bytes_app_inj in E1 as [_ ->].
  - destruct Hv as (Hv & _ & _), Hw as (Hw & _ & _). apply be_bytes_app_inj in E1 as [E1 _].
    signed_inj E1 Hv Hw.
  - destruct Hv as (_ & Hv & _), Hw as (_ & Hw & _).
    apply be_bytes_app_inj in E1 as [_ E1]. apply be_bytes_app_inj in E1 as [E1 _].
    signed_inj E1 Hv Hw.
  - destruct Hv as (_ & _ & Hv), Hw as (_ & _ & Hw).
    apply be_bytes_app_inj in E1 as [_ E1]. apply be_bytes_app_inj in E1 as [_ E1].
    signed_inj E1 Hv Hw.
  - injection E1 as E1. unfold as_u8 in E1. apply (f_equal (swrap 8)) in E1.
    by rewrite !swrap_wrap, !swrap_id in E1 by (done || lia).
Qed.

Lemma to_bytes_loop_inj fd c1 c2 pks bs :
  Forall (fun p => value_wf p.2 /\ p.2 <> Null) c1 ->
  Forall (fun p => value_wf p.2 /\ p.2 <> Null) c2 ->
  length c1 = length pks -> length c2 = length pks ->
  to_bytes_loop fd c1 pks = Ok bs -> to_bytes_loop fd c2 pks = Ok bs ->
  map snd c1 = map snd c2.
Proof.
  intros H1. revert c2 pks bs. induction H1 as [|[n1 v1] c1 [Hv1 Hn1] _ IH];
    intros [|[n2 v2] c2] [|pk pks] bs H2 L1 L2; try done.
  apply Forall_cons in H2 as [[Hv2 Hn2] H2]. cbn [to_bytes_loop map snd] in *.
  unfold serialize_value. destruct (fd (kc_data_type pk)) as [c|]; [|done].
  cbn [mbind result_bind].
  destruct (serialize_value_bytes v1 c) as [b1|] eqn:E1; [|done].
  destruct (serialize_value_bytes v2 c) as [b2|] eqn:E2; [|done]. cbn [mbind result_bind].
  rewrite !Z.gtb_ltb.
  destruct (Z.ltb_spec 0xFFFF (Z.of_nat (length b1))); [done|].
  destruct (Z.ltb_spec 0xFFFF (Z.of_nat (length b2))); [done|].
  destruct (to_bytes_loop fd c1 pks) as [r1|] eqn:R1; [|done].
  destruct (to_bytes_loop fd c2 pks) as [r2|] eqn:R2; [|done].
  cbn [mbind result_bind]. intros B1%(inj Ok) B2%(inj Ok). rewrite <- B2 in B1.
  apply be_bytes_app_inj in B1 as [Hlen B].
  apply (be_bytes_inj 2) in Hlen; [|unfold u_range; change (2 ^ (8 * Z.of_nat 2)) with 65536; lia..].
  apply app_inj_1 in B as [-> B]; [|lia]. injection B as ->.
  f_equal; [by eapply serialize_value_bytes_inj|].
  cbn in L1, L2. apply (IH c2 pks r2); auto.
Qed.

(** The bytes of a partition key determine it: for a given schema two keys
    of non-null values with the same bytes have the same values. (A composite key
    frames each component with its length and a zero byte; a single-column key is
    the raw bytes of its value.) *)
Theorem to_bytes_injective fd schema c1 c2 bs
    (H1 : Forall (fun p => value_wf p.2 /\ p.2 <> Null) c1)
    (H2 : Forall (fun p => value_wf p.2 /\ p.2 <> Null) c2)
    (E1 : to_bytes fd c1 schema = Ok bs) (E2 : to_bytes fd c2 schema = Ok bs) :
  map snd c1 = map snd c2.
Proof.
  unfold to_bytes in *. repeat case_decide; try done.
  destruct (Nat.eqb_spec (length c1) (length (partition_keys schema))) as [L1|]; [|done].
  destruct (Nat.eqb_spec (length c2) (length (partition_keys schema))) as [L2|]; [|done].
  cbn [negb] in *.
  destruct c1 as [|[n1 v1] [|p1 c1]], c2 as [|[n2 v2] [|p2 c2]],
    (partition_keys schema) as [|pk [|pk' pks]]; try done.
  - unfold serialize_value in *. destruct (fd _) as [c|]; [|done].
    apply Forall_cons in H1 as [[] _], H2 as [[] _].
    cbn. f_equal. by eapply serialize_value_bytes_inj.
  - by eapply (to_bytes_loop_inj fd _ _ (pk :: pk' :: pks)).
Qed.

(** A type-name parser for two names, to evaluate the encoder. *)
Definition demo_types (s : string) : result Error ComparatorType :=
  if decide (s = "int"%string) then Ok CInt
  else if decide (s = "text"%string) then Ok CText else Err SchemaError.

Definition demo_key : PartitionKey :=
  [("p"%string, Integer (-1)); ("q"%string, Text [0x68; 0x69])].

(** A composite [(int, text)] key: [0004 ffffffff 00 | 0002 6869 00]. *)
Lemma to_bytes_injective_witness :
  to_bytes demo_types demo_key demo_schema
    = Ok [0; 4; 255; 255; 255; 255; 0; 0; 2; 0x68; 0x69; 0]
  /\ map snd demo_key = map snd demo_key.
Proof.
  assert (Hk : Forall (fun p : string * Value => value_wf p.2 /\ p.2 <> Null) demo_key).
  { repeat constructor; cbn; unfold i_range; (done || lia). }
  assert (Hb : to_bytes demo_types demo_key demo_schema
    = Ok [0; 4; 255; 255; 255; 255; 0; 0; 2; 0x68; 0x69; 0]) by (vm_compute; reflexivity).
  exact (conj Hb (to_bytes_injective demo_types demo_schema demo_key demo_key _ Hk Hk Hb Hb)).
Defined.

(** Decorated keys are totally ordered, by token and then by raw bytes, so
    two keys compare equal exactly when their bytes are equal (a hash collision
    never merges two partitions), and the empty key precedes every other one. *)
Theorem decorated_key_order k1 k2 k3 :
  dk_cmp (from_key_bytes k2) (from_key_bytes k1)
    = CompOpp (dk_cmp (from_key_bytes k1) (from_key_bytes k2))
  /\ (dk_cmp (from_key_bytes k1) (from_key_bytes k2) = Eq <-> k1 = k2)
  /\ (dk_cmp (from_key_bytes k1) (from_key_bytes k2) = Lt ->
      dk_cmp (from_key_bytes k2) (from_key_bytes k3) = Lt ->
      dk_cmp (from_key_bytes k1) (from_key_bytes k3) = Lt)
  /\ (k1 <> [] -> dk_cmp (from_key_bytes []) (from_key_bytes k1) = Lt).
Proof.
  split_and!.
  - apply (ord_sym dk_cmp).
  - rewrite dk_cmp_eq. split; [by intros [=]|by intros ->].
  - apply (ord_trans dk_cmp).
  - intros Hk. unfold dk_cmp, from_key_bytes, calculate_murmur3_token. cbn [token].
    rewrite decide_True, decide_False by done.
    pose proof (cassandra_token_bounds k1) as [Ht _].
    by rewrite (proj2 (Z.compare_lt_iff _ _) Ht).
Qed.

Lemma decorated_key_order_witness :
  dk_cmp (from_key_bytes []) (from_key_bytes [0; 0; 0; 1]) = Lt
  /\ dk_cmp (from_key_bytes [0; 0; 0; 1]) (from_key_bytes [0; 0; 0; 2]) = Lt
  /\ dk_cmp (from_key_bytes []) (from_key_bytes [0; 0; 0; 2]) = Lt.
Proof.
  split; [vm_compute; reflexivity|]. split; [vm_compute; reflexivity|].
  apply (proj1 (proj2 (proj2 (decorated_key_order [] [0; 0; 0; 1] [0; 0; 0; 2]))));
    vm_compute; reflexivity.
Defined.

(** ** The schemaless order *)

(** The values of a key that has every column. *)
Lemma ck_padded_full cols i k :
  length k = (i + length cols)%nat ->
  ck_padded cols i k = zip (map cc_order cols) (map snd (drop i k)).
Proof.
  revert i. induction cols as [|col cols IH]; intros i Hl; [done|].
  cbn in Hl. destruct (lookup_lt_is_Some_2 k i ltac:(lia)) as [[n v] Hk].
  rewrite (drop_S _ _ _ Hk). cbn [ck_padded map zip_with snd].
  unfold ck_value, ClusteringKey in *. rewrite Hk. f_equal. apply IH. lia.
Qed.

(** On a table without DESC columns the memtable's schemaless key order is
    the schema's order, for keys that have all their columns. *)
Theorem fallback_order_agrees `{DebugFmt} schema ts a b
    (Hasc : Forall (fun c => cc_order c = Asc) (clustering_keys schema))
    (Ha : ck_typed schema ts a) (Hb : ck_typed schema ts b)
    (La : length a = length (clustering_keys schema))
    (Lb : length b = length (clustering_keys schema)) :
  ck_compare a b schema = Ok (ck_cmp a b).
Proof.
  rewrite (ck_compare_padded schema ts) by done.
  rewrite !ck_padded_full by (cbn; lia). rewrite !drop_0.
  destruct Ha as [_ Ha], Hb as [_ Hb]. f_equal. unfold ck_cmp.
  revert ts a b Ha Hb La Lb.
  induction Hasc as [|col cols Hcol _ IH]; intros [|t ts] [|[n v] a] [|[m w] b] Ha Hb La Lb;
    try done.
  destruct Ha as [Hv Ha], Hb as [Hw Hb]. cbn in La, Lb.
  cbn [map zip_with list_cmp ck_cmp_loop snd].
  rewrite (IH ts a b) by (done || lia).
  unfold oval_cmp, fallback_value_cmp. cbn [fst snd]. rewrite Hcol.
  rewrite (total_ok (P := has_type t) v w) by done.
  assert (ok_cmp (col_compare Asc) v w = ok_cmp compare_values v w) as ->.
  { unfold ok_cmp.
    assert (col_compare Asc v w = compare_values v w) as ->; [|done].
    transitivity (ordering ← compare_values v w; Ok (E := Error) ordering);
      [by destruct v, w|by destruct (compare_values v w)]. }
  by destruct (ok_cmp compare_values v w).
Qed.

(** An ascending [int] clustering column, and a debug format the typed keys never
    reach. *)
Definition asc_schema : TableSchema :=
  mkTableSchema "ks" "t" [mkKeyColumn "p" "int" 0]
    [mkClusteringColumn "c1" "int" 0 Asc] [] ∅ ∅.

Lemma fallback_order_agrees_witness :
  @ck_cmp (fun _ => []) [("c1"%string, Integer 3)] [("c1"%string, Integer 7)] = Lt
  /\ ck_compare [("c1"%string, Integer 3)] [("c1"%string, Integer 7)] asc_schema
     = Ok (@ck_cmp (fun _ => []) [("c1"%string, Integer 3)] [("c1"%string, Integer 7)]).
Proof.
  split; [vm_compute; reflexivity|].
  apply (@fallback_order_agrees (fun _ => []) asc_schema [TInt]);
    [repeat constructor | split; [reflexivity|cbn; auto] | split; [reflexivity|cbn; auto]
    | reflexivity | reflexivity].
Defined.
