(* ===== verification/Oss50.v ===== *)
(** Byte-comparable clustering keys ([bti/parser/encoding.rs]): the escaped encoding of
    text and blobs, the encoding of a clustering component, and of a clustering prefix in
    the order of its columns, which the separators of Rows.db are made of; and that the
    bytes of two clustering keys compare as the keys do. *)

From S2P Require Import Prelude Values Keys.

Open Scope Z_scope.

(** ** The encoding *)

Definition OSS50_NEXT_COMPONENT : Z := 0x40.
Definition OSS50_ESCAPE : Z := 0x00.
Definition OSS50_ESCAPED_0_CONT : Z := 0xFE.
Definition OSS50_ESCAPED_0_DONE : Z := 0xFF.

Fixpoint escape_loop (escaped : bool) (bytes out : list Z) : list Z :=
  match bytes with
  | [] => out ++ [if escaped then OSS50_ESCAPED_0_CONT else OSS50_ESCAPE]
  | b :: bytes =>
      if escaped && (b =? OSS50_ESCAPE) then escape_loop true bytes (out ++ [OSS50_ESCAPED_0_CONT])
      else
        let out := if escaped then out ++ [OSS50_ESCAPED_0_DONE] else out in
        escape_loop (b =? OSS50_ESCAPE) bytes (out ++ [b])
  end.

Definition encode_varlen_oss50 (bytes out : list Z) : list Z := escape_loop false bytes out.

(** [(v as uW ^ signbit).to_be_bytes()] of an integer of [n] bytes. *)
Definition sign_flipped (n : nat) (v : Z) : list Z :=
  be_bytes n (Z.lxor (wrap (8 * Z.of_nat n) v) (2 ^ (8 * Z.of_nat n - 1))).

Definition encode_clustering_component_oss50 (value : Value) (out : list Z) : result Error (list Z) :=
  match value with
  | Integer v => Ok (out ++ sign_flipped 4 v)
  | BigInt v | Counter v => Ok (out ++ sign_flipped 8 v)
  | SmallInt v => Ok (out ++ sign_flipped 2 v)
  | TinyInt v => Ok (out ++ sign_flipped 1 v)
  | Boolean b => Ok (out ++ [if b then 0x01 else 0x00])
  | Timestamp v => Ok (out ++ sign_flipped 8 v)
  | Uuid bytes => Ok (out ++ bytes)
  | Text s => Ok (encode_varlen_oss50 s out)
  | Blob b | Inet b => Ok (encode_varlen_oss50 b out)
  | _ => Err Parse
  end.

Fixpoint encode_bound_loop (values : list Value) (is_reversed : list bool) (out : list Z) :
    result Error (list Z) :=
  match values with
  | [] => Ok out
  | v :: values =>
      let out := out ++ [OSS50_NEXT_COMPONENT] in
      out ← (if default false (head is_reversed) then
               scratch ← encode_clustering_component_oss50 v [];
               Ok (out ++ map (Z.lxor 0xFF) scratch)
             else encode_clustering_component_oss50 v out);
      encode_bound_loop values (tail is_reversed) out
  end.

Definition encode_clustering_bound_oss50_with_order (values : list Value) (is_reversed : list bool) :
    result Error (list Z) := encode_bound_loop values is_reversed [].

Definition encode_clustering_bound_oss50 (values : list Value) : result Error (list Z) :=
  encode_bound_loop values [] [].

(** ** Values the encoding covers *)

(** A type of fixed or of variable width, and the values of it that the encoder sees. *)
Definition oss50_value (t : CTy) (v : Value) : Prop :=
  match t, v with
  | TInt, Integer n => i_range 32 n
  | TBigInt, BigInt n | TCounter, Counter n | TTimestamp, Timestamp n => i_range 64 n
  | TSmallInt, SmallInt n => i_range 16 n
  | TTinyInt, TinyInt n => i_range 8 n
  | TBoolean, Boolean _ => True
  | TUuid, Uuid s => length s = 16%nat /\ Forall is_byte s
  | TText, Text s | TBlob, Blob s | TInet, Inet s => Forall is_byte s
  | _, _ => False
  end.

Definition varlen (t : CTy) : bool :=
  match t with TText | TBlob | TInet => true | _ => false end.

(** A full clustering key whose values the encoder covers. *)
Definition oss50_key (schema : TableSchema) (ts : list CTy) (k : ClusteringKey) : Prop :=
  length ts = length (clustering_keys schema) /\ Forall2 oss50_value ts (map snd k).

Definition schema_reversed (schema : TableSchema) : list bool :=
  map (fun c => bool_decide (cc_order c = Desc)) (clustering_keys schema).

(** The escapes of a key's last component are not followed by another one, so in a
    descending column they would sort before what they extend. *)
Definition last_ascending (schema : TableSchema) (ts : list CTy) : Prop :=
  forall t c, last ts = Some t -> last (clustering_keys schema) = Some c ->
  varlen t = true -> cc_order c = Asc.

(** ** The loop appends *)

Fixpoint escaped_form (escaped : bool) (bytes : list Z) : list Z :=
  match bytes with
  | [] => [if escaped then OSS50_ESCAPED_0_CONT else OSS50_ESCAPE]
  | b :: bytes =>
      if escaped then
        if b =? 0 then OSS50_ESCAPED_0_CONT :: escaped_form true bytes
        else OSS50_ESCAPED_0_DONE :: b :: escaped_form false bytes
      else b :: escaped_form (b =? 0) bytes
  end.

Lemma escape_loop_app escaped bytes out :
  escape_loop escaped bytes out = out ++ escaped_form escaped bytes.
Proof.
  revert escaped out. induction bytes as [|b bytes IH]; intros escaped out; [done|].
  cbn [escape_loop escaped_form]. change OSS50_ESCAPE with 0.
  destruct escaped; cbn [andb].
  - destruct (Z.eqb_spec b 0) as [->|].
    + by rewrite IH, <- app_assoc.
    + by rewrite IH, <- !app_assoc.
  - by rewrite IH, <- app_assoc.
Qed.

Definition component_form (v : Value) : list Z :=
  match v with
  | Integer v => sign_flipped 4 v
  | BigInt v | Counter v | Timestamp v => sign_flipped 8 v
  | SmallInt v => sign_flipped 2 v
  | TinyInt v => sign_flipped 1 v
  | Boolean b => [if b then 1 else 0]
  | Uuid s => s
  | Text s | Blob s | Inet s => escaped_form false s
  | _ => []
  end.

Lemma component_app t v out :
  oss50_value t v -> encode_clustering_component_oss50 v out = Ok (out ++ component_form v).
Proof.
  intros H. destruct t, v; try done; cbn; unfold encode_varlen_oss50; by rewrite ?escape_loop_app.
Qed.

(** A byte of a component in its column's direction. *)
Definition directed (d : bool) (b : Z) : Z := if d then Z.lxor 0xFF b else b.
Definition flipped (d : bool) (c : comparison) : comparison := if d then CompOpp c else c.

Fixpoint bound_form (values : list Value) (is_reversed : list bool) : list Z :=
  match values with
  | [] => []
  | v :: values =>
      OSS50_NEXT_COMPONENT :: map (directed (default false (head is_reversed))) (component_form v)
      ++ bound_form values (tail is_reversed)
  end.

Lemma encode_bound_app ts values is_reversed out :
  Forall2 oss50_value ts values ->
  encode_bound_loop values is_reversed out = Ok (out ++ bound_form values is_reversed).
Proof.
  intros H. revert is_reversed out. induction H as [|t v ts values Hv _ IH]; intros rs out.
  { cbn. by rewrite app_nil_r. }
  cbn [encode_bound_loop bound_form].
  destruct (default false (head rs)); rewrite (component_app t) by done; cbn [mbind result_bind].
  - rewrite IH, <- !app_assoc. done.
  - rewrite IH, <- !app_assoc. cbn [app directed]. by rewrite map_id.
Qed.

(** ** Order *)

Lemma bytes_cmp_app a b s t :
  length a = length b -> bytes_cmp (a ++ s) (b ++ t) = then_with (bytes_cmp a b) (bytes_cmp s t).
Proof.
  revert b. induction a as [|x a IH]; intros [|y b] Hl; try done.
  cbn in Hl. unfold bytes_cmp in *. cbn [app list_cmp]. rewrite IH by lia.
  by destruct (x ?= y).
Qed.

Lemma be_bytes_cmp n x y :
  u_range (8 * Z.of_nat n) x -> u_range (8 * Z.of_nat n) y ->
  bytes_cmp (be_bytes n x) (be_bytes n y) = (x ?= y).
Proof.
  assert (G : forall a b, length a = length b -> Forall is_byte a -> Forall is_byte b ->
    bytes_cmp a b = (from_be a ?= from_be b)).
  { induction a as [|x' a IH]; intros [|y' b] Hl Ha Hb; try done.
    apply Forall_cons in Ha as [Hx Ha]. apply Forall_cons in Hb as [Hy Hb]. cbn in Hl.
    unfold bytes_cmp in *. cbn [list_cmp]. rewrite IH by (lia || done).
    rewrite !from_be_cons. replace (length b) with (length a) by lia.
    pose proof (from_be_bound a Ha). pose proof (from_be_bound b Hb) as Hbb.
    replace (length b) with (length a) in Hbb by lia.
    pose proof (pow256_pos (length a)).
    destruct (Z.compare_spec x' y') as [->|Hc|Hc]; cbn [then_with].
    - destruct (Z.compare_spec (from_be a) (from_be b)) as [->|?|?]; symmetry;
        [apply Z.compare_refl|rewrite Z.compare_lt_iff|rewrite Z.compare_gt_iff]; lia.
    - symmetry. rewrite Z.compare_lt_iff. nia.
    - symmetry. rewrite Z.compare_gt_iff. nia. }
  intros Hx Hy. rewrite G by (rewrite ?be_bytes_length; auto using be_bytes_bytes).
  by rewrite !from_be_bytes_id.
Qed.

Lemma sign_flip_add w v :
  0 < w -> i_range w v -> Z.lxor (wrap w v) (2 ^ (w - 1)) = v + 2 ^ (w - 1).
Proof.
  unfold i_range, wrap. intros Hw Hv.
  assert (Hp : 2 ^ w = 2 * 2 ^ (w - 1)) by (rewrite <- Z.pow_succ_r by lia; f_equal; lia).
  assert (Hlow : forall x, 0 <= x < 2 ^ (w - 1) -> Z.lxor x (2 ^ (w - 1)) = x + 2 ^ (w - 1)).
  { intros x Hx. symmetry. apply Z.add_nocarry_lxor, Z.bits_inj'. intros i Hi.
    rewrite Z.land_spec, Z.bits_0. destruct (Z.eq_dec i (w - 1)) as [->|Hne].
    - rewrite (testbit_above (w - 1)); [done|done|lia].
    - rewrite (Z.pow2_bits_false (w - 1) i) by lia. apply andb_false_r. }
  destruct (Z.neg_nonneg_cases v) as [Hneg|Hpos].
  - replace (v mod 2 ^ w) with ((v + 2 ^ (w - 1)) + 2 ^ (w - 1)).
    + rewrite <- (Hlow (v + 2 ^ (w - 1))) by lia.
      by rewrite Z.lxor_assoc, Z.lxor_nilpotent, Z.lxor_0_r.
    + apply (Z.mod_unique _ _ (-1)); lia.
  - rewrite Z.mod_small by lia. apply Hlow. lia.
Qed.

Lemma sign_flipped_cmp n x y s t :
  (0 < n)%nat -> i_range (8 * Z.of_nat n) x -> i_range (8 * Z.of_nat n) y ->
  bytes_cmp (sign_flipped n x ++ s) (sign_flipped n y ++ t) = then_with (x ?= y) (bytes_cmp s t).
Proof.
  intros Hn Hx Hy. unfold sign_flipped. rewrite !sign_flip_add by (lia || done).
  unfold i_range in Hx, Hy.
  assert (2 ^ (8 * Z.of_nat n) = 2 * 2 ^ (8 * Z.of_nat n - 1)) as Hp
    by (rewrite <- Z.pow_succ_r by lia; f_equal; lia).
  rewrite bytes_cmp_app by (by rewrite !be_bytes_length).
  rewrite be_bytes_cmp by (unfold u_range; lia). by rewrite !(Z.add_comm _ (2 ^ (8 * Z.of_nat n - 1))), Z.add_compare_mono_l.
Qed.

Lemma directed_byte d b : is_byte b -> directed d b = if d then 255 - b else b.
Proof.
  intros Hb. destruct d; [|done]. cbn [directed]. rewrite Z.lxor_comm. by apply (lxor_ones 8).
Qed.

Lemma directed_cmp d x y : is_byte x -> is_byte y -> (directed d x ?= directed d y) = flipped d (x ?= y).
Proof.
  intros Hx Hy. rewrite !directed_byte by done. destruct d; [|done]. cbn [flipped].
  rewrite <- Z.compare_antisym.
  destruct (Z.compare_spec y x) as [->|?|?]; [apply Z.compare_refl|apply Z.compare_lt_iff|apply Z.compare_gt_iff]; lia.
Qed.

Lemma flipped_then d c c' : flipped d (then_with c c') = then_with (flipped d c) (flipped d c').
Proof. by destruct d, c. Qed.

Lemma directed_bytes_cmp d a b :
  length a = length b -> Forall is_byte a -> Forall is_byte b ->
  bytes_cmp (map (directed d) a) (map (directed d) b) = flipped d (bytes_cmp a b).
Proof.
  revert b. induction a as [|x a IH]; intros [|y b] Hl Ha Hb; try done; [by destruct d|].
  apply Forall_cons in Ha as [Hx Ha]. apply Forall_cons in Hb as [Hy Hb]. cbn in Hl.
  unfold bytes_cmp in *. cbn [map list_cmp]. rewrite IH, directed_cmp, flipped_then by (lia || done). done.
Qed.

(** What may follow a component of variable width: below its escapes in its direction. *)
Definition tail_ok (d : bool) (s : list Z) : Prop :=
  match s with
  | [] => d = false
  | h :: _ => if d then 0x01 < h else h < 0xFE
  end.

Lemma escaped_head bytes :
  exists h l, escaped_form true bytes = h :: l /\ (h = OSS50_ESCAPED_0_CONT \/ h = OSS50_ESCAPED_0_DONE).
Proof. destruct bytes as [|b l]; cbn; [eauto|]. destruct (b =? 0); eauto. Qed.

(** A component that ends where the other goes on with a zero. *)
Lemma ended_below d bytes s t :
  tail_ok d s -> bytes_cmp s (map (directed d) (escaped_form true bytes) ++ t) = flipped d Lt.
Proof.
  intros Hs. destruct (escaped_head bytes) as (h & l & -> & Hh). unfold bytes_cmp.
  assert (is_byte h) by (destruct Hh as [-> | ->]; done).
  cbn [map app]. rewrite directed_byte by done. destruct s as [|x s].
  { cbn in Hs. by subst. }
  cbn [tail_ok] in Hs. cbn [list_cmp].
  assert ((x ?= if d then 255 - h else h) = flipped d Lt) as ->; [|by destruct d].
  destruct d; cbn [flipped CompOpp]; [apply Z.compare_gt_iff|apply Z.compare_lt_iff];
    destruct Hh as [-> | ->]; unfold OSS50_ESCAPED_0_CONT, OSS50_ESCAPED_0_DONE; lia.
Qed.

Lemma below_ended d bytes s t :
  tail_ok d t -> bytes_cmp (map (directed d) (escaped_form true bytes) ++ s) t = flipped d Gt.
Proof. intros Ht. rewrite (ord_sym bytes_cmp), ended_below by done. by destruct d. Qed.

Lemma cmp_step d x y s t :
  is_byte x -> is_byte y ->
  bytes_cmp (directed d x :: s) (directed d y :: t) = then_with (flipped d (x ?= y)) (bytes_cmp s t).
Proof. intros Hx Hy. unfold bytes_cmp. cbn [list_cmp]. by rewrite directed_cmp. Qed.

Lemma cmp_same d x s t :
  is_byte x -> bytes_cmp (directed d x :: s) (directed d x :: t) = bytes_cmp s t.
Proof. intros Hx. rewrite cmp_step, Z.compare_refl by done. by destruct d. Qed.

Lemma then_with_lt d c c' : c = Lt -> then_with (flipped d c) c' = flipped d Lt.
Proof. intros ->. by destruct d. Qed.

Lemma then_with_gt d c c' : c = Gt -> then_with (flipped d c) c' = flipped d Gt.
Proof. intros ->. by destruct d. Qed.

(** A component ended: the other is longer, and comes after. *)
Lemma nil_cons_escaped d e c l s t :
  is_byte c -> tail_ok d s ->
  bytes_cmp (map (directed d) (escaped_form e []) ++ s) (map (directed d) (escaped_form e (c :: l)) ++ t)
  = flipped d Lt.
Proof.
  intros Hc Hs. unfold is_byte, u_range in Hc. change (2 ^ 8) with 256 in Hc.
  destruct e; cbn [escaped_form]; destruct (Z.eqb_spec c 0) as [->|Hne];
    cbn [map app]; unfold OSS50_ESCAPE, OSS50_ESCAPED_0_CONT, OSS50_ESCAPED_0_DONE in *.
  - rewrite cmp_same by done. by apply ended_below.
  - by rewrite cmp_step, then_with_lt by done.
  - rewrite cmp_same by done. by apply ended_below.
  - rewrite cmp_step by (done || unfold is_byte, u_range; lia).
    apply then_with_lt, Z.compare_lt_iff. lia.
Qed.

(** The escaped forms compare as the bytes do, whatever follows them. *)
Lemma escaped_cmp d e a b s t :
  Forall is_byte a -> Forall is_byte b -> tail_ok d s -> tail_ok d t ->
  bytes_cmp (map (directed d) (escaped_form e a) ++ s) (map (directed d) (escaped_form e b) ++ t)
  = then_with (flipped d (bytes_cmp a b)) (bytes_cmp s t).
Proof.
  intros Ha. revert e b. induction Ha as [|x a Hx Ha IH]; intros e [|y b] Hb Hs Ht.
  - destruct e; cbn [escaped_form map app]; rewrite cmp_same by done; by destruct d.
  - apply Forall_cons in Hb as [Hy Hb]. rewrite nil_cons_escaped by done. by destruct d.
  - rewrite (ord_sym bytes_cmp), nil_cons_escaped by done. by destruct d.
  - apply Forall_cons in Hb as [Hy Hb]. specialize (fun e => IH e b Hb Hs Ht).
    unfold bytes_cmp at 2. cbn [list_cmp]. fold bytes_cmp. rewrite flipped_then.
    pose proof Hx as Hx'. pose proof Hy as Hy'. unfold is_byte, u_range in Hx', Hy'. change (2 ^ 8) with 256 in *.
    destruct e; cbn [escaped_form];
      destruct (Z.eqb_spec x 0) as [->|Hxn], (Z.eqb_spec y 0) as [->|Hyn]; cbn [map app];
      unfold OSS50_ESCAPED_0_CONT, OSS50_ESCAPED_0_DONE in *.
    + rewrite cmp_same, IH by done. by destruct d.
    + rewrite cmp_step, then_with_lt by done.
      assert ((0 ?= y) = Lt) as -> by (apply Z.compare_lt_iff; lia). by destruct d.
    + rewrite cmp_step, then_with_gt by done.
      assert ((x ?= 0) = Gt) as -> by (apply Z.compare_gt_iff; lia). by destruct d.
    + rewrite cmp_same, cmp_step, IH by done. by destruct (x ?= y), d.
    + rewrite cmp_same, IH by done. by destruct d.
    + rewrite cmp_step by done. assert ((0 ?= y) = Lt) as -> by (apply Z.compare_lt_iff; lia). by destruct d.
    + rewrite cmp_step by done. assert ((x ?= 0) = Gt) as -> by (apply Z.compare_gt_iff; lia). by destruct d.
    + rewrite cmp_step, IH by done. by destruct (x ?= y), d.
Qed.

(** The components of two values of a type compare as the values do. *)
Lemma component_cmp d t v w s u :
  oss50_value t v -> oss50_value t w ->
  (varlen t = true -> tail_ok d s /\ tail_ok d u) ->
  exists c, compare_values v w = Ok c /\
  bytes_cmp (map (directed d) (component_form v) ++ s) (map (directed d) (component_form w) ++ u)
  = then_with (flipped d c) (bytes_cmp s u).
Proof.
  assert (Hfix : forall n x y, (0 < n)%nat -> i_range (8 * Z.of_nat n) x -> i_range (8 * Z.of_nat n) y ->
    bytes_cmp (map (directed d) (sign_flipped n x) ++ s) (map (directed d) (sign_flipped n y) ++ u)
    = then_with (flipped d (x ?= y)) (bytes_cmp s u)).
  { intros n x y Hn Hx Hy. rewrite bytes_cmp_app by (unfold sign_flipped; by rewrite !length_map, !be_bytes_length).
    rewrite directed_bytes_cmp by (unfold sign_flipped; rewrite ?be_bytes_length; auto using be_bytes_bytes).
    pose proof (sign_flipped_cmp n x y [] [] Hn Hx Hy) as E. rewrite !app_nil_r in E. rewrite E.
    by destruct (x ?= y). }
  intros Hv Hw Ht. destruct t, v; try done; destruct w; try done; cbn in Hv, Hw;
    (eexists; split; [reflexivity|]; cbn [component_form]);
    first [ apply Hfix; [lia|exact Hv|exact Hw]
          | by (apply escaped_cmp; try done; apply Ht)
          | idtac ].
  - destruct b, b0; cbn [map app]; rewrite ?cmp_same, ?cmp_step by done; by destruct d.
  - destruct Hv as [Hl Hv], Hw as [Hl' Hw].
    rewrite bytes_cmp_app by (rewrite !length_map; lia). by rewrite directed_bytes_cmp by (lia || done).
Qed.

Definition descending (o : ClusteringOrder) : bool := bool_decide (o = Desc).

Lemma oval_cmp_flipped t o v w c :
  oss50_value t v -> oss50_value t w -> compare_values v w = Ok c ->
  oval_cmp (o, v) (o, w) = flipped (descending o) c.
Proof.
  intros Hv Hw Hc. unfold oval_cmp, ok_cmp, col_compare, descending. cbn [fst snd].
  assert (v <> Null /\ w <> Null) as [Hn Hm] by (split; intros ->; by destruct t).
  destruct v; try done; destruct w; try done; rewrite Hc; cbn [mbind result_bind];
    destruct o; reflexivity.
Qed.

(** What may follow the components of a key of these types. *)
Definition bound_tail_ok (ts : list CTy) (orders : list ClusteringOrder) (s : list Z) : Prop :=
  forall t o, last ts = Some t -> last orders = Some o -> varlen t = true -> tail_ok (descending o) s.

Lemma bound_tail_cons t ts o orders s :
  bound_tail_ok (t :: ts) (o :: orders) s -> length ts = length orders -> ts <> [] ->
  bound_tail_ok ts orders s.
Proof.
  intros H Hl Hne t' o' Ht Ho. apply H; [by destruct ts|by destruct orders, ts].
Qed.

(** The components after one begin with a separator, unless there is none. *)
Lemma tail_ok_rest ts t o values orders s :
  bound_tail_ok (t :: ts) (o :: orders) s -> length ts = length orders -> Forall2 oss50_value ts values ->
  varlen t = true -> tail_ok (descending o) (bound_form values (map descending orders) ++ s).
Proof.
  intros Ht Hl Hv Hvar. destruct Hv as [|t' v ts values _ _].
  - destruct orders; [|done]. by apply (Ht t o).
  - cbn. by destruct (descending o).
Qed.

Lemma bound_form_cmp ts orders a b s u :
  length ts = length orders -> Forall2 oss50_value ts a -> Forall2 oss50_value ts b ->
  bound_tail_ok ts orders s -> bound_tail_ok ts orders u ->
  bytes_cmp (bound_form a (map descending orders) ++ s) (bound_form b (map descending orders) ++ u)
  = then_with (list_cmp oval_cmp (zip orders a) (zip orders b)) (bytes_cmp s u).
Proof.
  intros Hl Ha. revert orders b Hl.
  induction Ha as [|t v ts a Hv Ha IH]; intros [|o orders] b' Hl Hb Hs Hu; try done;
    inversion Hb as [|? w ? b Hw Hb']; subst; [done|].
  cbn in Hl. cbn [map bound_form head tail default app zip_with list_cmp].
  rewrite <- !app_assoc. change (fun x : list Z => bytes_cmp x) with bytes_cmp.
  destruct (component_cmp (descending o) t v w
    (bound_form a (map descending orders) ++ s) (bound_form b (map descending orders) ++ u) Hv Hw) as (c & Hc & E).
  { intros Hvar. split; eapply tail_ok_rest; eauto with lia. }
  transitivity (bytes_cmp
    (map (directed (descending o)) (component_form v) ++ bound_form a (map descending orders) ++ s)
    (map (directed (descending o)) (component_form w) ++ bound_form b (map descending orders) ++ u)); [done|].
  rewrite E, (oval_cmp_flipped t o v w c) by done.
  assert (bytes_cmp (bound_form a (map descending orders) ++ s) (bound_form b (map descending orders) ++ u)
          = then_with (list_cmp oval_cmp (zip orders a) (zip orders b)) (bytes_cmp s u)) as ->.
  { destruct ts as [|t' ts].
    - inversion Ha; subst. inversion Hb'; subst. destruct orders; done.
    - apply IH; [cbn in *; lia|done|..]; (eapply (bound_tail_cons t); [eassumption|cbn in *; lia|done]). }
  by destruct c, (descending o).
Qed.

Lemma schema_reversed_orders schema :
  schema_reversed schema = map descending (map cc_order (clustering_keys schema)).
Proof. unfold schema_reversed. by rewrite map_map. Qed.

Lemma oss50_key_typed schema ts k : oss50_key schema ts k -> ck_typed schema ts k.
Proof.
  intros [Hl H]. split; [done|]. clear Hl. revert H. generalize (map snd k).
  intros l H. induction H as [|t v ts l Hv _ IH]; [done|]. split; [|done]. by destruct t, v.
Qed.

Lemma last_ascending_tail schema ts :
  last_ascending schema ts -> bound_tail_ok ts (map cc_order (clustering_keys schema)) [].
Proof.
  intros H t o Ht Ho Hvar. change (last (cc_order <$> clustering_keys schema) = Some o) in Ho. rewrite fmap_last in Ho.
  destruct (last (clustering_keys schema)) as [c|] eqn:Ec; [|done]. injection Ho as <-.
  cbn. unfold descending. by rewrite (H t c).
Qed.

Lemma key_encodes schema ts k :
  oss50_key schema ts k ->
  encode_clustering_bound_oss50_with_order (map snd k) (schema_reversed schema)
  = Ok (bound_form (map snd k) (schema_reversed schema)).
Proof. intros [_ H]. apply (encode_bound_app ts _ _ [] H). Qed.

Lemma key_bytes_cmp schema ts a b :
  oss50_key schema ts a -> oss50_key schema ts b -> last_ascending schema ts ->
  ck_compare a b schema
  = Ok (bytes_cmp (bound_form (map snd a) (schema_reversed schema)) (bound_form (map snd b) (schema_reversed schema))).
Proof.
  intros Ha Hb Hlast. rewrite (ck_compare_padded schema ts) by (by apply oss50_key_typed). f_equal.
  destruct Ha as [Hl Ha], Hb as [_ Hb].
  pose proof (Forall2_length _ _ _ Ha) as Hla. pose proof (Forall2_length _ _ _ Hb) as Hlb.
  rewrite length_map in Hla, Hlb.
  rewrite !ck_padded_full by lia. rewrite !drop_0, schema_reversed_orders.
  pose proof (bound_form_cmp ts (map cc_order (clustering_keys schema)) (map snd a) (map snd b) [] []) as E.
  rewrite !app_nil_r in E. rewrite E by (rewrite ?length_map; auto using last_ascending_tail).
  by destruct (list_cmp _ _ _).
Qed.

(** ** Properties *)

(** C14: The byte-comparable form of a clustering key sorts as the key does. Two full keys of
    a schema, of any column types the encoder covers and in any mix of ascending and
    descending columns, are both encoded, and their bytes compare lexicographically exactly
    as [ClusteringKey::compare] compares them: smaller, greater or equal. The one exception
    is a last column of variable width in descending order. *)
Theorem oss50_preserves_order schema ts a b :
  oss50_key schema ts a -> oss50_key schema ts b -> last_ascending schema ts ->
  exists ea eb,
    encode_clustering_bound_oss50_with_order (map snd a) (schema_reversed schema) = Ok ea /\
    encode_clustering_bound_oss50_with_order (map snd b) (schema_reversed schema) = Ok eb /\
    ck_compare a b schema = Ok (bytes_cmp ea eb).
Proof.
  intros Ha Hb Hlast. do 2 eexists. rewrite (key_encodes schema ts a), (key_encodes schema ts b) by done.
  split; [reflexivity|]. split; [reflexivity|]. by apply (key_bytes_cmp _ ts).
Qed.

Definition sample_schema : TableSchema :=
  mkTableSchema "ks" "t" [mkKeyColumn "id" "int" 0]
    [mkClusteringColumn "name" "text" 0 Desc; mkClusteringColumn "seq" "int" 1 Asc] [] ∅ ∅.

Definition sample_key (name : list Z) (seq : Z) : ClusteringKey := [("name"%string, Text name); ("seq"%string, Integer seq)].

Lemma sample_key_covered name seq :
  Forall is_byte name -> i_range 32 seq -> oss50_key sample_schema [TText; TInt] (sample_key name seq).
Proof. intros Hn Hs. split; [done|]. constructor; [exact Hn|constructor; [exact Hs|constructor]]. Qed.

Lemma oss50_preserves_order_witness :
  ck_compare (sample_key [65; 0] 5) (sample_key [65] (-7)) sample_schema = Ok Lt /\
  exists ea eb,
    encode_clustering_bound_oss50_with_order [Text [65; 0]; Integer 5] [true; false] = Ok ea /\
    encode_clustering_bound_oss50_with_order [Text [65]; Integer (-7)] [true; false] = Ok eb /\
    ck_compare (sample_key [65; 0] 5) (sample_key [65] (-7)) sample_schema = Ok (bytes_cmp ea eb).
Proof.
  split; [reflexivity|].
  apply (oss50_preserves_order sample_schema [TText; TInt] (sample_key [65; 0] 5) (sample_key [65] (-7))).
  - apply sample_key_covered; [repeat constructor; done|done].
  - apply sample_key_covered; [repeat constructor; done|done].
  - intros t c [= <-] [= <-] Hv. done.
Defined.

(** In a descending last column of text, what ends before a zero byte sorts first in bytes
    and last in the table. *)
Example descending_text_inverted :
  let schema := mkTableSchema "ks" "t" [mkKeyColumn "id" "int" 0] [mkClusteringColumn "name" "text" 0 Desc] [] ∅ ∅ in
  ck_compare [("name"%string, Text [65; 0])] [("name"%string, Text [65])] schema = Ok Lt /\
  encode_clustering_bound_oss50_with_order [Text [65; 0]] (schema_reversed schema) = Ok [0x40; 0xBE; 0xFF; 0x01] /\
  encode_clustering_bound_oss50_with_order [Text [65]] (schema_reversed schema) = Ok [0x40; 0xBE; 0xFF] /\
  bytes_cmp [0x40; 0xBE; 0xFF; 0x01] [0x40; 0xBE; 0xFF] = Gt.
Proof. by vm_compute. Qed.
