(* ===== verification/BtiNodes.v ===== *)
(** The nodes of a BTI trie. The writer's leaves, sparse and dense nodes
    ([writer/partitions_writer.rs]); the parser of the sixteen node types
    ([bti/parser/node_decode.rs]), the descent to one child ([slice_walk.rs]), the children
    in order ([traversal.rs]) and the sized integers of payloads ([partitions.rs],
    [bti/sized_ints.rs]).

    A buffer is the list of its bytes, an offset an integer; a writer returns the offset of
    the node it wrote with the grown buffer. [node_type], [level] and [key_prefix] of a node
    are constants of its constructor and left out. *)

From S2P Require Import Prelude Values VInt.

Open Scope Z_scope.

(** [slice[a..a + n]] and [slice[i]], at places whose bounds have been checked. *)
Definition sub_bytes (data : list Z) (a n : Z) : list Z := take (Z.to_nat n) (drop (Z.to_nat a) data).
Definition byte_of (data : list Z) (i : Z) : Z := nth (Z.to_nat i) data 0.

(** ** Sized integers *)

Definition div_ceil (a b : Z) : Z := (a + b - 1) / b.

Definition sized_ints_non_zero_size (value : Z) : Z :=
  let abs_value := if value <? 0 then Z.lnot value else value in
  if abs_value =? 0 then 1
  else
    let significant_bits := 64 - Z.of_nat (leading_zeros64 abs_value) in
    Z.min (Z.max (div_ceil (significant_bits + 1) 8) 1) 8.

(** [value.to_be_bytes()[8 - bytes..]] *)
Definition write_be_unsigned (buf : list Z) (value bytes : Z) : list Z :=
  buf ++ drop (Z.to_nat (8 - bytes)) (be_bytes 8 value).

Definition write_sized_int_be (buf : list Z) (value bytes : Z) : list Z :=
  write_be_unsigned buf (as_u64 value) bytes.

(** [SizedInts.read] on a slice of one to eight bytes: a signed head, an unsigned tail. *)
Definition sized_ints_read_from_slice (data : list Z) : result Error Z :=
  let signed := fun n l => swrap (8 * n) (from_be l) in
  let parts := fun head width => Z.lor (Z.shiftl (signed head (take (Z.to_nat head) data)) width)
                                       (from_be (drop (Z.to_nat head) data)) in
  match length data with
  | 0%nat => Ok 0
  | 1%nat => Ok (signed 1 data)
  | 2%nat => Ok (signed 2 data)
  | 3%nat => Ok (parts 1 16)
  | 4%nat => Ok (signed 4 data)
  | 5%nat => Ok (parts 1 32)
  | 6%nat => Ok (parts 2 32)
  | 7%nat =>
      Ok (Z.lor (Z.lor (Z.shiftl (signed 1 (take 1 data)) 48) (Z.shiftl (from_be (take 2 (drop 1 data))) 32))
                (from_be (drop 3 data)))
  | 8%nat => Ok (signed 8 data)
  | _ => Err Parse
  end.

(** ** Node types *)

Inductive BtiNodeType := PayloadOnly | Single | Sparse | Dense.

Definition classify_node_nibble (nibble : Z) : result Error BtiNodeType :=
  if nibble =? 0 then Ok PayloadOnly
  else if (1 <=? nibble) && (nibble <=? 4) then Ok Single
  else if (5 <=? nibble) && (nibble <=? 9) then Ok Sparse
  else if (10 <=? nibble) && (nibble <=? 15) then Ok Dense
  else Err Parse.

Definition pointer_bytes_for_ordinal (ordinal : Z) : Z :=
  match ordinal with
  | 2 => 1 | 4 => 2 | 5 => 1 | 7 => 2 | 8 => 3 | 9 => 5
  | 11 => 2 | 12 => 3 | 13 => 4 | 14 => 5 | 15 => 8
  | _ => 0
  end.

Definition dense_ordinal_for_delta (max_delta : Z) : Z * Z :=
  if max_delta <=? 0xFFFF then (11, 2)
  else if max_delta <=? 0xFFFFFF then (12, 3)
  else if max_delta <=? 0xFFFFFFFF then (13, 4)
  else if max_delta <=? 0xFFFFFFFFFF then (14, 5)
  else (15, 8).

Definition sparse_ordinal_for_delta (max_delta : Z) : result Error (Z * Z) :=
  if max_delta <=? 0xFF then Ok (5, 1)
  else if max_delta <=? 0xFFFF then Ok (7, 2)
  else if max_delta <=? 0xFFFFFF then Ok (8, 3)
  else if max_delta <=? 0xFFFFFFFFFF then Ok (9, 5)
  else Err InvalidInput.

(** ** Writing *)

Definition max_delta (node_offset : Z) (child_offsets : list (Z * Z)) : Z :=
  foldr Z.max 0 (map (fun c => node_offset - c.2) child_offsets).

Definition write_deltas (node_offset ptr_bytes : Z) (child_offsets : list (Z * Z)) (buf : list Z) : list Z :=
  foldl (fun buf c => write_be_unsigned buf (node_offset - c.2) ptr_bytes) buf child_offsets.

Definition write_sparse (child_offsets : list (Z * Z)) (buf : list Z) : result Error (Z * list Z) :=
  let count := zlen child_offsets in
  if count =? 0 then Err InvalidInput
  else if count >? 255 then Err InvalidInput
  else
    let node_offset := zlen buf in
    '(ordinal, ptr_bytes) ← sparse_ordinal_for_delta (max_delta node_offset child_offsets);
    let buf := buf ++ [as_u8 (Z.shiftl ordinal 4)] ++ [as_u8 count] ++ map fst child_offsets in
    Ok (node_offset, write_deltas node_offset ptr_bytes child_offsets buf).

Definition write_dense (child_offsets : list (Z * Z)) (buf : list Z) : result Error (Z * list Z) :=
  if negb (zlen child_offsets =? 256) then Err InvalidInput
  else
    let start_byte := default 0 (head (map fst child_offsets)) in
    let node_offset := zlen buf in
    let '(ordinal, ptr_bytes) := dense_ordinal_for_delta (max_delta node_offset child_offsets) in
    let buf := buf ++ [as_u8 (Z.shiftl ordinal 4)] ++ [start_byte] ++ [as_u8 (zlen child_offsets - 1)] in
    Ok (node_offset, write_deltas node_offset ptr_bytes child_offsets buf).

(** [emit_internal], and the chooser at the end of [write_node] and [write_row_node]. *)
Definition emit_internal (child_offsets : list (Z * Z)) (buf : list Z) : result Error (Z * list Z) :=
  if zlen child_offsets =? 256 then write_dense child_offsets buf else write_sparse child_offsets buf.

(** ** Parsing a node *)

(** At most eight bytes. *)
Definition read_be_unsigned (data : list Z) : Z :=
  fold_left (fun result byte => Z.lor (as_u64 (Z.shiftl result 8)) byte) data 0.

Definition read_12bit_packed (data : list Z) (index : Z) : Z :=
  let byte_offset := 3 * index / 2 in
  if byte_offset + 1 >=? zlen data then 0
  else
    let word := Z.lor (as_u16 (Z.shiftl (byte_of data byte_offset) 8)) (byte_of data (byte_offset + 1)) in
    if Z.land index 1 =? 0 then Z.shiftr word 4 else Z.land word 0x0FFF.

Record PayloadRef := mkPayloadRef { pr_offset : Z; pr_length : Z }.

(** Children are absolute offsets; [None] in a dense node is no transition. *)
Inductive BtiNode :=
| NPayloadOnly (payload : PayloadRef)
| NSingle (transition : Z * Z)
| NSparse (transitions : list (Z * Z))
| NDense (start_byte : Z) (children : list (option Z)).

Definition require_len (data : list Z) (needed : Z) : result Error () :=
  if zlen data <? needed then Err Parse else Ok ().

Definition parse_payload_ref (data : list Z) : result Error PayloadRef :=
  _ ← require_len data 12;
  Ok (mkPayloadRef (from_be (sub_bytes data 0 8)) (from_be (sub_bytes data 8 4))).

Definition parse_payload_only_node (data : list Z) (has_payload : bool) : result Error BtiNode :=
  if negb has_payload then Err Parse
  else payload ← parse_payload_ref (drop 1 data); Ok (NPayloadOnly payload).

Definition parse_single_node (data : list Z) (offset ordinal header_byte : Z) : result Error BtiNode :=
  if ordinal =? 1 then
    _ ← require_len data 2;
    Ok (NSingle (byte_of data 1, sat_sub offset (Z.land header_byte 0x0F)))
  else if ordinal =? 3 then
    _ ← require_len data 3;
    let delta := Z.lor (Z.shiftl (Z.land header_byte 0x0F) 8) (byte_of data 1) in
    Ok (NSingle (byte_of data 2, sat_sub offset delta))
  else
    let ptr_bytes := pointer_bytes_for_ordinal ordinal in
    _ ← require_len data (2 + ptr_bytes);
    let delta := read_be_unsigned (sub_bytes data 2 ptr_bytes) in
    Ok (NSingle (byte_of data 1, sat_sub offset delta)).

(** The [i]th delta behind [start], of [ptr_bytes] bytes or packed in twelve bits. *)
Definition delta_at (data : list Z) (packed : bool) (start ptr_bytes i : Z) : Z :=
  if packed then read_12bit_packed (drop (Z.to_nat start) data) i
  else read_be_unsigned (sub_bytes data (start + i * ptr_bytes) ptr_bytes).

(** The bytes that [count] deltas take. *)
Definition ptr_area (packed : bool) (ptr_bytes count : Z) : Z :=
  if packed then div_ceil (count * 3) 2 else count * ptr_bytes.

Definition parse_sparse_node (data : list Z) (offset ordinal : Z) : result Error BtiNode :=
  _ ← require_len data 2;
  let count := byte_of data 1 in
  if count =? 0 then Err Parse
  else
    let bytes_start := 2 in
    let pointers_start := bytes_start + count in
    let ptr_bytes := pointer_bytes_for_ordinal ordinal in
    let packed := ordinal =? 6 in
    _ ← require_len data (pointers_start + ptr_area packed ptr_bytes count);
    Ok (NSparse (map (fun i => (byte_of data (bytes_start + i),
                                sat_sub offset (delta_at data packed pointers_start ptr_bytes i)))
                     (seqZ 0 count))).

Definition dense_slot (offset delta : Z) : option Z :=
  if delta =? 0 then None else Some (sat_sub offset delta).

Definition parse_dense_node (data : list Z) (offset ordinal : Z) : result Error BtiNode :=
  _ ← require_len data 3;
  let start_byte := byte_of data 1 in
  let range_len := byte_of data 2 + 1 in
  let ptr_bytes := pointer_bytes_for_ordinal ordinal in
  let packed := ordinal =? 10 in
  _ ← require_len data (3 + ptr_area packed ptr_bytes range_len);
  Ok (NDense start_byte (map (fun i => dense_slot offset (delta_at data packed 3 ptr_bytes i))
                             (seqZ 0 range_len))).

Definition parse_bti_node (data : list Z) (offset : Z) : result Error BtiNode :=
  header_byte ← ok_or Parse (head data);
  let ordinal := Z.land (Z.shiftr header_byte 4) 0x0F in
  let payload_flags := Z.land header_byte 0x0F in
  node_type ← classify_node_nibble ordinal;
  match node_type with
  | PayloadOnly => parse_payload_only_node data (negb (payload_flags =? 0))
  | Single => parse_single_node data offset ordinal header_byte
  | Sparse => parse_sparse_node data offset ordinal
  | Dense => parse_dense_node data offset ordinal
  end.

(** A leaf's payload is left to its reader. *)
Definition parse_bti_node_for_traversal (trie_data : list Z) (node_offset : Z) : result Error BtiNode :=
  if node_offset >=? zlen trie_data then Err Parse
  else
    let data := drop (Z.to_nat node_offset) trie_data in
    let header_byte := byte_of data 0 in
    let ordinal := Z.land (Z.shiftr header_byte 4) 0x0F in
    let payload_flags := Z.land header_byte 0x0F in
    node_type ← classify_node_nibble ordinal;
    match node_type with
    | PayloadOnly => if payload_flags =? 0 then Err Parse else Ok (NPayloadOnly (mkPayloadRef 0 0))
    | _ => parse_bti_node data node_offset
    end.

Definition payload_start_in_node (node : BtiNode) (trie_data : list Z) (node_offset : Z) : Z :=
  let ordinal := Z.land (Z.shiftr (byte_of trie_data node_offset) 4) 0x0F in
  let ptr_bytes := pointer_bytes_for_ordinal ordinal in
  match node with
  | NPayloadOnly _ => node_offset + 1
  | NSingle _ => node_offset + 1 + 1 + ptr_bytes
  | NSparse transitions =>
      let count := zlen transitions in
      node_offset + 1 + 1 + count + ptr_area (ordinal =? 6) ptr_bytes count
  | NDense _ children => node_offset + 1 + 1 + 1 + ptr_area (ordinal =? 10) ptr_bytes (zlen children)
  end.

(** ** The children of a node *)

(** [sort_by_key] on the transition byte: stable. *)
Definition byte_le (a b : Z * Z) : comparison := a.1 ?= b.1.

Definition ordered_children (node : BtiNode) : list (Z * Z) :=
  match node with
  | NPayloadOnly _ => []
  | NSingle transition => [transition]
  | NSparse transitions => sort_by byte_le transitions
  | NDense start_byte children =>
      omap (fun '(i, child) => distance ← child; Some (as_u8 (start_byte + i), distance))
           (zip (seqZ 0 (zlen children)) children)
  end.

(** [slice::binary_search] on bytes sorted and unique: the index of [b]. *)
Definition binary_search (b : Z) (l : list Z) : option nat :=
  let idx := partition_point (fun x => x <? b) l in
  if decide (l !! idx = Some b) then Some idx else None.

Definition find_child (node : BtiNode) (byte : Z) : option Z :=
  match node with
  | NPayloadOnly _ => None
  | NSingle transition => if transition.1 =? byte then Some transition.2 else None
  | NSparse transitions => idx ← binary_search byte (map fst transitions); snd <$> transitions !! idx
  | NDense start_byte children =>
      if (byte >=? start_byte) && (byte <? start_byte + zlen children)
      then mjoin (children !! Z.to_nat (byte - start_byte))
      else None
  end.

(** ** The descent to one child *)

Definition single_child (data : list Z) (off ptr_bytes search_byte : Z) : result Error (option Z) :=
  _ ← require_len data (2 + ptr_bytes);
  if negb (byte_of data 1 =? search_byte) then Ok None
  else Ok (Some (sat_sub off (read_be_unsigned (sub_bytes data 2 ptr_bytes)))).

Definition sparse_child (data : list Z) (off : Z) (packed : bool) (ptr_bytes search_byte : Z) :
    result Error (option Z) :=
  _ ← require_len data 2;
  let count := byte_of data 1 in
  if count =? 0 then Err Parse
  else
    let bytes_start := 2 in
    let pointers_start := bytes_start + count in
    _ ← require_len data (pointers_start + ptr_area packed ptr_bytes count);
    match binary_search search_byte (sub_bytes data bytes_start count) with
    | None => Ok None
    | Some idx => Ok (Some (sat_sub off (delta_at data packed pointers_start ptr_bytes (Z.of_nat idx))))
    end.

Definition dense_child (data : list Z) (off : Z) (packed : bool) (ptr_bytes search_byte : Z) :
    result Error (option Z) :=
  _ ← require_len data 3;
  let start_byte := byte_of data 1 in
  let range_len := byte_of data 2 + 1 in
  _ ← require_len data (3 + ptr_area packed ptr_bytes range_len);
  if search_byte <? start_byte then Ok None
  else
    let idx := search_byte - start_byte in
    if idx >=? range_len then Ok None
    else
      let delta := delta_at data packed 3 ptr_bytes idx in
      if delta =? 0 then Ok None else Ok (Some (sat_sub off delta)).

Definition find_child_offset (trie_data : list Z) (node_offset search_byte : Z) : result Error (option Z) :=
  if node_offset >=? zlen trie_data then Err Parse
  else
    let data := drop (Z.to_nat node_offset) trie_data in
    let header_byte := byte_of data 0 in
    let ordinal := Z.land (Z.shiftr header_byte 4) 0x0F in
    _ ← classify_node_nibble ordinal;
    let off := node_offset in
    match ordinal with
    | 0 => Ok None
    | 1 =>
        _ ← require_len data 2;
        if negb (byte_of data 1 =? search_byte) then Ok None
        else Ok (Some (sat_sub off (Z.land header_byte 0x0F)))
    | 2 => single_child data off 1 search_byte
    | 3 =>
        _ ← require_len data 3;
        if negb (byte_of data 2 =? search_byte) then Ok None
        else Ok (Some (sat_sub off (Z.lor (Z.shiftl (Z.land header_byte 0x0F) 8) (byte_of data 1))))
    | 4 => single_child data off 2 search_byte
    | 5 => sparse_child data off false 1 search_byte
    | 6 => sparse_child data off true 0 search_byte
    | 7 => sparse_child data off false 2 search_byte
    | 8 => sparse_child data off false 3 search_byte
    | 9 => sparse_child data off false 5 search_byte
    | 10 => dense_child data off true 0 search_byte
    | 11 => dense_child data off false 2 search_byte
    | 12 => dense_child data off false 3 search_byte
    | 13 => dense_child data off false 4 search_byte
    | 14 => dense_child data off false 5 search_byte
    | 15 => dense_child data off false 8 search_byte
    | _ => Ok None
    end.
