(* ===== verification/BtiTrie.v ===== *)
(** What the writer's trie nodes mean to the readers: sized integers read back, a written
    node parses to its children, the descent to one child agrees with the parser on every
    buffer; and tries laid out in a buffer, with the writer of whole trees. *)

From S2P Require Import Prelude Values VInt Oss50 BtiNodes.

Open Scope Z_scope.

(** ** Bytes *)

Lemma be_bytes_drop n v : forall k, (k <= n)%nat -> drop (n - k) (be_bytes n v) = be_bytes k v.
Proof.
  induction n as [|n IH]; intros k Hk.
  - by replace k with 0%nat by lia.
  - destruct (decide (k = S n)) as [->|]; [by rewrite Nat.sub_diag|].
    replace (S n - k)%nat with (S (n - k)) by lia. cbn [be_bytes drop]. apply IH. lia.
Qed.

Lemma write_be_unsigned_eq buf v n : 0 <= n <= 8 -> write_be_unsigned buf v n = buf ++ be_bytes (Z.to_nat n) v.
Proof.
  intros Hn. unfold write_be_unsigned. f_equal.
  replace (Z.to_nat (8 - n)) with (8 - Z.to_nat n)%nat by lia. apply be_bytes_drop. lia.
Qed.

(** Bytes shifted in one by one, behind what is there. *)
Lemma fold_be l acc :
  Forall is_byte l -> 0 <= acc -> acc * 256 ^ zlen l + from_be l < 2 ^ 64 ->
  fold_left (fun result byte => Z.lor (as_u64 (Z.shiftl result 8)) byte) l acc = acc * 256 ^ zlen l + from_be l.
Proof.
  intros Hb. enough (G : 0 <= acc -> acc * 256 ^ zlen l + from_be l < 2 ^ 64 ->
    fold_left (fun result byte => Z.lor (as_u64 (Z.shiftl result 8)) byte) l acc
    = fold_left (fun acc b => 256 * acc + b) l acc).
  { intros Ha Hlt. rewrite G by done. apply from_be_acc. }
  revert acc. induction Hb as [|b l Hx Hb IH]; intros acc Ha Hlt; [done|].
  cbn [fold_left]. rewrite zlen_cons, from_be_cons in Hlt. unfold zlen in *.
  rewrite Z.pow_add_r in Hlt by lia. pose proof (from_be_bound l Hb). pose proof (pow256_pos (length l)).
  unfold is_byte, u_range in Hx. change (2 ^ 8) with 256 in Hx.
  assert (Hacc : 256 * acc + b < 2 ^ 64) by nia.
  assert (E : Z.lor (as_u64 (Z.shiftl acc 8)) b = 256 * acc + b).
  { assert (as_u64 (Z.shiftl acc 8) = Z.shiftl acc 8) as ->.
    { apply wrap_id. unfold u_range. rewrite Z.shiftl_mul_pow2 by lia. lia. }
    rewrite lor_add by lia. lia. }
  rewrite E. apply IH; [lia|]. nia.
Qed.

Lemma read_be_unsigned_eq l : (length l <= 8)%nat -> Forall is_byte l -> read_be_unsigned l = from_be l.
Proof.
  intros Hl Hb. unfold read_be_unsigned. rewrite fold_be; [lia|done|lia|].
  pose proof (from_be_bound l Hb) as B.
  assert (256 ^ Z.of_nat (length l) <= 256 ^ 8) by (apply Z.pow_le_mono_r; lia). lia.
Qed.

(** ** Sized integers *)

Lemma signed_concat h w (a b : list Z) :
  (0 < length a)%nat -> Forall is_byte b -> h = 8 * zlen a -> w = 8 * zlen b ->
  Z.lor (Z.shiftl (swrap h (from_be a)) w) (from_be b) = swrap (h + w) (from_be (a ++ b)).
Proof.
  intros Ha Hb -> ->. pose proof (from_be_bound b Hb) as B. rewrite pow256 in B. unfold zlen.
  rewrite lor_add by lia. rewrite from_be_app, pow256. unfold swrap.
  set (m := 2 ^ (8 * Z.of_nat (length b))) in *. set (k := 8 * Z.of_nat (length a)).
  set (x := from_be a). set (y := from_be b) in *. assert (0 < m) by (apply Z.pow_pos_nonneg; lia).
  rewrite Z.pow_add_r by lia. fold m.
  replace (2 ^ (k + 8 * Z.of_nat (length b) - 1)) with (2 ^ (k - 1) * m)
    by (unfold m; rewrite <- Z.pow_add_r by lia; f_equal; lia).
  replace (x * m + y + 2 ^ (k - 1) * m) with ((x + 2 ^ (k - 1)) * m + y) by ring.
  set (z := x + 2 ^ (k - 1)). assert (0 < 2 ^ k) by (apply Z.pow_pos_nonneg; lia).
  assert ((z * m + y) mod (2 ^ k * m) = z mod 2 ^ k * m + y) as ->; [|ring].
  symmetry. apply (Z.mod_unique_pos _ _ (z / 2 ^ k)).
  - pose proof (Z.mod_pos_bound z (2 ^ k)). nia.
  - rewrite (Z.div_mod z (2 ^ k)) at 1 by lia. ring.
Qed.

Lemma sized_ints_read_eq l :
  (1 <= length l <= 8)%nat -> Forall is_byte l ->
  sized_ints_read_from_slice l = Ok (swrap (8 * zlen l) (from_be l)).
Proof.
  intros Hl Hb. unfold sized_ints_read_from_slice.
  assert (S1 : forall h, (0 < h <= length l)%nat ->
    Z.lor (Z.shiftl (swrap (8 * Z.of_nat h) (from_be (take h l))) (8 * (zlen l - Z.of_nat h))) (from_be (drop h l))
    = swrap (8 * zlen l) (from_be l)).
  { intros h Hh. rewrite (signed_concat _ _ (take h l) (drop h l));
      rewrite ?take_drop; unfold zlen; rewrite ?length_take, ?length_drop; try lia; [|by apply Forall_drop].
    do 2 f_equal. lia. }
  destruct l as [|b1 [|b2 [|b3 [|b4 [|b5 [|b6 [|b7 [|b8 [|]]]]]]]]]; cbn in Hl; try lia; f_equal; try done;
    try exact (S1 1%nat ltac:(cbn; lia)); try exact (S1 2%nat ltac:(cbn; lia)).
  rewrite <- (S1 1%nat ltac:(cbn; lia)). set (l := [b1; b2; b3; b4; b5; b6; b7]) in *.
  rewrite <- Z.lor_assoc. f_equal.
  change (drop 1 l) with ([b2; b3] ++ [b4; b5; b6; b7]). rewrite from_be_app.
  change (drop 3 l) with [b4; b5; b6; b7].
  pose proof (from_be_bound (drop 3 l) ltac:(by apply Forall_drop)) as B.
  exact (lor_add 32 (from_be [b2; b3]) (from_be [b4; b5; b6; b7]) ltac:(lia) B).
Qed.

Lemma leading_zeros_log2 x : 0 < x < 2 ^ 64 -> 64 - Z.of_nat (leading_zeros64 x) = Z.log2 x + 1.
Proof. intros Hx. unfold leading_zeros64. rewrite leading_run_log2 by done. lia. Qed.

Lemma non_zero_size_fits v :
  is_i64 v -> let n := sized_ints_non_zero_size v in 1 <= n <= 8 /\ i_range (8 * n) v.
Proof.
  intros Hv n. unfold is_i64, i_range in Hv. unfold n, sized_ints_non_zero_size.
  set (a := if v <? 0 then Z.lnot v else v).
  assert (Ha : 0 <= a < 2 ^ 63) by (unfold a, Z.lnot; destruct (Z.ltb_spec v 0); lia).
  destruct (Z.eqb_spec a 0) as [E|E].
  - split; [lia|]. unfold a, Z.lnot in E. unfold i_range. destruct (Z.ltb_spec v 0); lia.
  - rewrite leading_zeros_log2 by lia. unfold div_ceil.
    assert (0 <= Z.log2 a < 63) as Hlog.
    { split; [apply Z.log2_nonneg|]. apply Z.log2_lt_pow2; lia. }
    set (k := (Z.log2 a + 1 + 1 + 8 - 1) / 8).
    assert (Hk : 8 * k <= Z.log2 a + 9 < 8 * k + 8).
    { unfold k. pose proof (Z.div_mod (Z.log2 a + 1 + 1 + 8 - 1) 8 ltac:(lia)).
      pose proof (Z.mod_pos_bound (Z.log2 a + 1 + 1 + 8 - 1) 8 ltac:(lia)). lia. }
    split; [lia|]. replace (Z.min (Z.max k 1) 8) with k by lia.
    assert (a < 2 ^ (8 * k - 1)).
    { apply Z.lt_le_trans with (2 ^ (Z.log2 a + 1)); [apply Z.log2_spec; lia|apply Z.pow_le_mono_r; lia]. }
    unfold i_range. unfold a, Z.lnot in *. destruct (Z.ltb_spec v 0); lia.
Qed.

Lemma sized_int_roundtrip v :
  is_i64 v -> sized_ints_read_from_slice (be_bytes (Z.to_nat (sized_ints_non_zero_size v)) v) = Ok v.
Proof.
  intros Hv. destruct (non_zero_size_fits v Hv) as [Hn Hr].
  rewrite sized_ints_read_eq by (rewrite ?be_bytes_length; auto using be_bytes_bytes; lia). f_equal.
  unfold zlen. rewrite be_bytes_length, Z2Nat.id by lia. rewrite from_be_bytes, pow256, Z2Nat.id by lia.
  change (v mod 2 ^ (8 * sized_ints_non_zero_size v)) with (wrap (8 * sized_ints_non_zero_size v) v).
  rewrite swrap_wrap by lia. apply swrap_id; [lia|done].
Qed.

Lemma write_sized_eq buf v n :
  0 <= n <= 8 -> write_sized_int_be buf v n = buf ++ be_bytes (Z.to_nat n) v.
Proof.
  intros Hn. unfold write_sized_int_be. rewrite write_be_unsigned_eq by done. f_equal.
  apply be_bytes_cong. rewrite pow256, Z2Nat.id by lia. unfold as_u64, wrap.
  replace (2 ^ 64) with (2 ^ (8 * n) * 2 ^ (64 - 8 * n)) by (rewrite <- Z.pow_add_r by lia; f_equal; lia).
  assert (0 < 2 ^ (8 * n)) by (apply Z.pow_pos_nonneg; lia).
  assert (0 < 2 ^ (64 - 8 * n)) by (apply Z.pow_pos_nonneg; lia).
  rewrite Z.rem_mul_r by lia. rewrite (Z.mul_comm (2 ^ (8 * n)) (_ mod _)), Z.mod_add by lia. by rewrite Z.mod_mod by lia.
Qed.

(** ** One child or the whole node *)

Lemma sub_bytes_map data a n :
  0 <= a -> 0 <= n -> a + n <= zlen data ->
  sub_bytes data a n = map (fun i => byte_of data (a + i)) (seqZ 0 n).
Proof.
  intros Ha Hn Hl. unfold zlen in Hl. apply list_eq. intros i. unfold sub_bytes.
  change (map ?f ?l) with (f <$> l). rewrite list_lookup_fmap. destruct (decide (i < Z.to_nat n)%nat) as [Hi|Hi].
  - rewrite lookup_take, decide_True by done. rewrite lookup_drop, lookup_seqZ_lt by lia. cbn.
    unfold byte_of. replace (Z.to_nat (a + (0 + Z.of_nat i))) with (Z.to_nat a + i)%nat by lia.
    destruct (nth_lookup_or_length data (Z.to_nat a + i) 0); [done|lia].
  - rewrite lookup_take, decide_False by done. rewrite lookup_seqZ_ge by lia. done.
Qed.

Lemma find_dense off start n g b :
  0 <= n ->
  find_child (NDense start (map (fun i => dense_slot off (g i)) (seqZ 0 n))) b
  = if b <? start then None
    else if b - start >=? n then None
    else if g (b - start) =? 0 then None else Some (sat_sub off (g (b - start))).
Proof.
  intros Hn. cbn [find_child]. assert (zlen (map (fun i => dense_slot off (g i)) (seqZ 0 n)) = n) as ->.
  { unfold zlen. rewrite length_map, length_seqZ. lia. }
  rewrite !Z.geb_leb. destruct (Z.ltb_spec b start), (Z.leb_spec start b); try lia; [done|].
  cbn [andb]. destruct (Z.leb_spec n (b - start)), (Z.ltb_spec b (start + n)); try lia; [done|].
  change (map ?f ?l) with (f <$> l). rewrite list_lookup_fmap, lookup_seqZ_lt by lia.
  cbn [fmap option_fmap option_map mjoin option_join]. rewrite Z.add_0_l, Z2Nat.id by lia. done.
Qed.

Lemma find_sparse data off n g b :
  0 <= n -> 2 + n <= zlen data ->
  find_child (NSparse (map (fun i => (byte_of data (2 + i), sat_sub off (g i))) (seqZ 0 n))) b
  = match binary_search b (sub_bytes data 2 n) with
    | None => None
    | Some idx => Some (sat_sub off (g (Z.of_nat idx)))
    end.
Proof.
  intros Hn Hl. cbn [find_child]. rewrite map_map, sub_bytes_map by lia. cbn [fst].
  destruct (binary_search b _) as [idx|] eqn:E; [|done]. cbn [mbind option_bind].
  assert (Z.of_nat idx < n) as Hi.
  { unfold binary_search in E. case_decide as Hd; [|done]. injection E as <-.
    apply lookup_lt_Some in Hd. rewrite length_map, length_seqZ in Hd. lia. }
  change (map ?f ?l) with (f <$> l). rewrite list_lookup_fmap, lookup_seqZ_lt by lia. done.
Qed.

Lemma nibble_range x : 0 <= Z.land x 0x0F <= 15.
Proof.
  replace (Z.land x 0x0F) with (x mod 16) by (symmetry; apply (Z.land_ones x 4); lia).
  pose proof (Z.mod_pos_bound x 16 ltac:(lia)). lia.
Qed.

Lemma require_len_ok data n : n <= zlen data -> require_len data n = Ok ().
Proof. intros H. unfold require_len. by destruct (Z.ltb_spec (zlen data) n); [lia|]. Qed.

Lemma require_len_bind {A} data n (k : () -> result Error A) :
  require_len data n ≫= k = if zlen data <? n then Err Parse else k ().
Proof. unfold require_len. by destruct (_ <? _). Qed.

Lemma byte_of_byte data i : Forall is_byte data -> is_byte (byte_of data i).
Proof.
  intros H. unfold byte_of. destruct (nth_lookup_or_length data (Z.to_nat i) 0) as [E|E].
  - by eapply (Forall_lookup_1 is_byte).
  - by rewrite nth_overflow.
Qed.

(** The descent to one child finds what the whole node holds. *)
Lemma find_child_sparse data off packed ptr_bytes ordinal b :
  0 <= byte_of data 1 -> packed = (ordinal =? 6) -> ptr_bytes = pointer_bytes_for_ordinal ordinal ->
  0 <= ptr_bytes ->
  sparse_child data off packed ptr_bytes b = (node ← parse_sparse_node data off ordinal; Ok (find_child node b)).
Proof.
  intros Hb -> -> Hp. unfold sparse_child, parse_sparse_node. rewrite !require_len_bind.
  destruct (zlen data <? 2); [done|]. destruct (byte_of data 1 =? 0); [done|].
  destruct (Z.ltb_spec (zlen data) (2 + byte_of data 1 + ptr_area (ordinal =? 6) (pointer_bytes_for_ordinal ordinal) (byte_of data 1)));
    [done|]. cbn [mbind result_bind].
  assert (0 <= ptr_area (ordinal =? 6) (pointer_bytes_for_ordinal ordinal) (byte_of data 1)).
  { unfold ptr_area, div_ceil. destruct (ordinal =? 6); [apply Z.div_pos; lia|nia]. }
  rewrite find_sparse by lia. by destruct (binary_search _ _).
Qed.

Lemma find_child_dense data off packed ptr_bytes ordinal b :
  0 <= byte_of data 2 -> packed = (ordinal =? 10) -> ptr_bytes = pointer_bytes_for_ordinal ordinal ->
  dense_child data off packed ptr_bytes b = (node ← parse_dense_node data off ordinal; Ok (find_child node b)).
Proof.
  intros Hb -> ->. unfold dense_child, parse_dense_node. rewrite !require_len_bind.
  destruct (zlen data <? 3); [done|].
  destruct (_ <? _); [done|]. cbn [mbind result_bind].
  rewrite find_dense by lia.
  by repeat case_match.
Qed.

Lemma find_child_single data off ptr_bytes ordinal header b :
  ordinal <> 1 -> ordinal <> 3 -> ptr_bytes = pointer_bytes_for_ordinal ordinal ->
  single_child data off ptr_bytes b = (node ← parse_single_node data off ordinal header; Ok (find_child node b)).
Proof.
  intros H1 H3 ->. unfold single_child, parse_single_node.
  destruct (Z.eqb_spec ordinal 1), (Z.eqb_spec ordinal 3); try done. rewrite !require_len_bind.
  destruct (_ <? _); [done|]. cbn [mbind result_bind find_child fst snd]. by destruct (byte_of data 1 =? b).
Qed.

Lemma find_child_offset_eq data off b :
  0 <= off < zlen data -> 0 <= byte_of data (off + 1) -> 0 <= byte_of data (off + 2) ->
  Z.land (Z.shiftr (byte_of data off) 4) 0x0F <> 0 ->
  find_child_offset data off b = (node ← parse_bti_node (drop (Z.to_nat off) data) off; Ok (find_child node b)).
Proof.
  intros Ho Hd1 Hd2 Hn. unfold find_child_offset, parse_bti_node.
  destruct (Z.geb_spec off (zlen data)); [lia|].
  set (d := drop (Z.to_nat off) data) in *.
  assert (Ei : forall i, 0 <= i -> byte_of d i = byte_of data (off + i)).
  { intros i Hi. unfold d, byte_of. rewrite !nth_lookup, lookup_drop. do 2 f_equal. lia. }
  pose proof (Ei 0 ltac:(lia)) as E0. rewrite Z.add_0_r in E0. rewrite <- (Ei 1), <- (Ei 2) in * by lia.
  assert (Hh : head d = Some (byte_of data off)).
  { rewrite <- E0. unfold byte_of. rewrite nth_lookup. unfold d. change (Z.to_nat 0) with 0%nat.
    rewrite head_lookup, lookup_drop.
    unfold zlen in Ho. destruct (lookup_lt_is_Some_2 data (Z.to_nat off + 0) ltac:(lia)) as [x ->]. done. }
  rewrite Hh, E0. cbn [ok_or mbind result_bind].
  pose proof (nibble_range (Z.shiftr (byte_of data off) 4)) as Hr.
  set (h := byte_of data off) in *. set (ord := Z.land (Z.shiftr h 4) 15) in *.
  assert (Hc : ord = 1 \/ ord = 2 \/ ord = 3 \/ ord = 4 \/ ord = 5 \/ ord = 6 \/ ord = 7 \/ ord = 8 \/ ord = 9 \/ ord = 10
    \/ ord = 11 \/ ord = 12 \/ ord = 13 \/ ord = 14 \/ ord = 15) by lia.
  clearbody ord. clear Hn Hr.
  repeat (destruct Hc as [Hc|Hc]); subst ord; cbn [classify_node_nibble Z.eqb Z.leb Pos.eqb Z.compare Pos.compare Pos.compare_cont andb mbind result_bind];
    first [ by apply find_child_single
          | by (apply find_child_sparse; try done; lia)
          | by apply find_child_dense
          | unfold parse_single_node; cbn [Z.eqb Pos.eqb]; rewrite !require_len_bind; destruct (_ <? _); [done|];
            cbn [mbind result_bind find_child fst snd]; by destruct (_ =? b) ].
Qed.

(** ** A written node *)

(** [w] appends [bs] at offset [o] and reports [o]. *)
Definition appends (w : list Z -> result Error (Z * list Z)) (o : Z) (bs : list Z) : Prop :=
  forall buf, zlen buf = o -> w buf = Ok (o, buf ++ bs).

Definition bytes_at (data : list Z) (off : Z) (bs : list Z) : Prop :=
  exists pre post, data = pre ++ bs ++ post /\ zlen pre = off.

Lemma bytes_at_app data ext off bs : bytes_at data off bs -> bytes_at (data ++ ext) off bs.
Proof. intros (pre & post & -> & H). exists pre, (post ++ ext). by rewrite <- !app_assoc. Qed.

Lemma bytes_at_end buf bs : bytes_at (buf ++ bs) (zlen buf) bs.
Proof. exists buf, []. by rewrite app_nil_r. Qed.

Lemma bytes_at_inside data off bs : bytes_at data off bs -> 0 <= off /\ off + zlen bs <= zlen data.
Proof.
  intros (pre & post & -> & <-). rewrite !zlen_app. pose proof (zlen_nonneg pre). pose proof (zlen_nonneg post). lia.
Qed.

Lemma bytes_at_prefix data off a b : bytes_at data off (a ++ b) -> bytes_at data off a.
Proof. intros (pre & post & -> & H). exists pre, (b ++ post). by rewrite <- !app_assoc. Qed.

Lemma bytes_at_suffix data off a b : bytes_at data off (a ++ b) -> bytes_at data (off + zlen a) b.
Proof. intros (pre & post & -> & H). exists (pre ++ a), post. rewrite <- !app_assoc, zlen_app. split; [done|lia]. Qed.

Lemma bytes_at_cons data off x bs : bytes_at data off (x :: bs) -> byte_of data off = x /\ bytes_at data (off + 1) bs.
Proof.
  intros H. split; [|by apply (bytes_at_suffix data off [x])]. destruct H as (pre & post & -> & <-).
  unfold byte_of, zlen. rewrite Nat2Z.id, app_nth2 by lia. by rewrite Nat.sub_diag.
Qed.

Lemma bytes_at_sub data off bs n : bytes_at data off bs -> n = zlen bs -> sub_bytes data off n = bs.
Proof.
  intros (pre & post & -> & <-) ->. unfold sub_bytes, zlen. rewrite !Nat2Z.id, drop_app_length. apply take_app_length.
Qed.

Fixpoint child_at {A} (b : Z) (cs : list (Z * A)) : option A :=
  match cs with
  | [] => None
  | (b', a) :: cs => if b' =? b then Some a else child_at b cs
  end.

(** Children in ascending order of their transition bytes, all before the node at [o]. *)
Record children_ok (o : Z) (cs : list (Z * Z)) : Prop := {
  cs_sorted : StronglySorted Z.lt (map fst cs);
  cs_bytes : Forall (fun c => is_byte c.1) cs;
  cs_before : Forall (fun c => 0 <= c.2 < o) cs;
}.

Definition deltas (p : nat) (o : Z) (cs : list (Z * Z)) : list Z :=
  concat (map (fun c => be_bytes p (o - c.2)) cs).

Lemma write_deltas_eq o p cs : 0 <= p <= 8 ->
  forall buf, write_deltas o p cs buf = buf ++ deltas (Z.to_nat p) o cs.
Proof.
  intros Hp. unfold write_deltas, deltas. induction cs as [|c cs IH]; intros buf; cbn [foldl map concat].
  - by rewrite app_nil_r.
  - by rewrite IH, write_be_unsigned_eq, <- app_assoc.
Qed.

Lemma max_delta_le o cs : Forall (fun c => o - c.2 <= max_delta o cs) cs.
Proof.
  apply Forall_forall. intros c Hc. unfold max_delta. apply list_elem_of_In in Hc.
  induction cs as [|d cs IH]; [done|]. cbn [map foldr]. destruct Hc as [->|Hc]; [lia|].
  specialize (IH Hc). lia.
Qed.

(** The pointers of a node of this ordinal hold every delta. *)
Definition pointers_fit (ord p o : Z) (cs : list (Z * Z)) : Prop :=
  5 <= ord <= 15 /\ pointer_bytes_for_ordinal ord = p /\ 0 < p <= 8 /\
  Forall (fun c => o - c.2 < 2 ^ (8 * p)) cs.

Lemma sparse_fit o cs ord p :
  sparse_ordinal_for_delta (max_delta o cs) = Ok (ord, p) ->
  pointers_fit ord p o cs /\ 5 <= ord <= 9 /\ ord <> 6.
Proof.
  intros H. unfold sparse_ordinal_for_delta in H. unfold pointers_fit.
  pose proof (max_delta_le o cs) as Hm.
  repeat match type of H with context [if ?a <=? ?b then _ else _] => destruct (Z.leb_spec a b) end; try done;
    injection H as <- <-; (split; [split; [lia|split; [done|split; [lia|]]]|lia]);
    (eapply Forall_impl; [exact Hm|]; cbv beta; intros c Hc;
     match goal with |- _ < ?x => let v := eval vm_compute in x in change x with v end; lia).
Qed.

Lemma dense_fit o cs ord p :
  dense_ordinal_for_delta (max_delta o cs) = (ord, p) -> Forall (fun c => 0 <= c.2) cs -> 0 <= o < 2 ^ 64 ->
  pointers_fit ord p o cs /\ 11 <= ord <= 15.
Proof.
  intros H Hpos Ho. unfold dense_ordinal_for_delta in H. unfold pointers_fit.
  pose proof (max_delta_le o cs) as Hm.
  repeat match type of H with context [if ?a <=? ?b then _ else _] => destruct (Z.leb_spec a b) end;
    injection H as <- <-; (split; [split; [lia|split; [done|split; [lia|]]]|lia]);
    (eapply Forall_impl; [exact (proj2 (Forall_and _ _) (conj Hm Hpos))|]; cbv beta; intros c [Hc Hc'];
     match goal with |- _ < ?x => let v := eval vm_compute in x in change x with v end; lia).
Qed.

(** The bytes of a node before its deltas. *)
Definition node_head (sparse : bool) (ord : Z) (cs : list (Z * Z)) : list Z :=
  if sparse then [ord * 16; zlen cs] ++ map fst cs else [ord * 16; default 0 (head (map fst cs)); 255].

Definition shape_ok (sparse : bool) (ord p o : Z) (cs : list (Z * Z)) : Prop :=
  pointers_fit ord p o cs /\ 0 < zlen cs <= 256 /\
  if sparse then 5 <= ord <= 9 /\ ord <> 6 /\ zlen cs <> 256 else 11 <= ord <= 15 /\ zlen cs = 256.

Lemma ordinal_byte ord : 0 <= ord <= 15 -> as_u8 (Z.shiftl ord 4) = ord * 16.
Proof.
  intros H. unfold as_u8, wrap. rewrite Z.shiftl_mul_pow2 by lia. apply Z.mod_small.
  change (2 ^ 4) with 16. change (2 ^ 8) with 256. lia.
Qed.

Lemma emit_shape cs buf o buf' :
  emit_internal cs buf = Ok (o, buf') -> Forall (fun c => 0 <= c.2) cs -> zlen buf < 2 ^ 64 ->
  o = zlen buf /\ exists (sparse : bool) ord p, shape_ok sparse ord p o cs /\
    appends (emit_internal cs) o (node_head sparse ord cs ++ deltas (Z.to_nat p) o cs).
Proof.
  intros H Hpos Hbuf. pose proof (zlen_nonneg buf). pose proof (zlen_nonneg cs). unfold appends, emit_internal in *.
  destruct (Z.eqb_spec (zlen cs) 256) as [E|E].
  - unfold write_dense in *. destruct (negb _); [done|].
    destruct (dense_ordinal_for_delta (max_delta (zlen buf) cs)) as [ord p] eqn:Ed.
    injection H as <- _. split; [done|].
    pose proof (dense_fit _ _ _ _ Ed Hpos ltac:(lia)) as [Hf Ho]. exists false, ord, p.
    split; [split; [done|split; [lia|done]]|]. intros buf0 Hb. rewrite Hb, Ed.
    destruct Hf as (_ & _ & Hp & _). rewrite write_deltas_eq, ordinal_byte by lia. cbn [node_head].
    rewrite <- !app_assoc, E. done.
  - unfold write_sparse in *. destruct (Z.eqb_spec (zlen cs) 0); [done|].
    destruct (Z.gtb_spec (zlen cs) 255); [done|].
    destruct (sparse_ordinal_for_delta (max_delta (zlen buf) cs)) as [[ord p]|] eqn:Ed; [|done].
    injection H as <- _. split; [done|].
    pose proof (sparse_fit _ _ _ _ Ed) as (Hf & Ho & Ho6). exists true, ord, p.
    split; [split; [done|split; [lia|done]]|]. intros buf0 Hb. rewrite Hb, Ed. cbn [mbind result_bind].
    destruct Hf as (_ & _ & Hp & _). rewrite write_deltas_eq, ordinal_byte by lia. cbn [node_head].
    rewrite <- !app_assoc. cbn [app].
    unfold as_u8, wrap. change (2 ^ 8) with 256. by rewrite (Z.mod_small (zlen cs) 256) by lia.
Qed.

Lemma deltas_length p o cs : zlen (deltas p o cs) = Z.of_nat p * zlen cs.
Proof.
  unfold deltas, zlen. rewrite (concat_blocks_length p); [rewrite length_map; lia|].
  apply Forall_map, Forall_true. intros c. apply be_bytes_length.
Qed.

Lemma delta_read hd ord p o cs rest i c :
  pointers_fit ord p o cs -> Forall (fun c => 0 <= c.2 < o) cs -> cs !! i = Some c ->
  delta_at (hd ++ deltas (Z.to_nat p) o cs ++ rest) false (zlen hd) p (Z.of_nat i) = o - c.2.
Proof.
  intros (_ & _ & Hp & Hfit) Hb Hi. unfold delta_at, sub_bytes, zlen.
  replace (Z.to_nat (Z.of_nat (length hd) + Z.of_nat i * p)) with (length hd + i * Z.to_nat p)%nat by nia.
  rewrite drop_app_add'. 2: done.
  assert (Hlen : length (deltas (Z.to_nat p) o cs) = (Z.to_nat p * length cs)%nat).
  { pose proof (deltas_length (Z.to_nat p) o cs) as E. unfold zlen in E. lia. }
  pose proof (lookup_lt_Some _ _ _ Hi) as Hlt.
  rewrite drop_app_le by nia. rewrite take_app_le by (rewrite length_drop; nia).
  unfold deltas. rewrite (block_at (Z.to_nat p) _ i (be_bytes (Z.to_nat p) (o - c.2))).
  - pose proof (Forall_lookup_1 _ _ _ _ Hfit Hi) as Hf. pose proof (Forall_lookup_1 _ _ _ _ Hb Hi) as Hc. cbv beta in Hf, Hc.
    rewrite read_be_unsigned_eq by (rewrite ?be_bytes_length; auto using be_bytes_bytes; lia).
    apply from_be_bytes_id. unfold u_range. rewrite Z2Nat.id by lia. lia.
  - apply Forall_map, Forall_true. intros d. apply be_bytes_length.
  - change (map ?f ?l) with (f <$> l). by rewrite list_lookup_fmap, Hi.
Qed.

Lemma emit_grows cs buf o buf' : emit_internal cs buf = Ok (o, buf') -> zlen buf <= zlen buf'.
Proof.
  assert (Hd : forall o p cs buf, zlen buf <= zlen (write_deltas o p cs buf)).
  { clear. intros o p cs. unfold write_deltas. induction cs as [|c cs IH]; intros buf; cbn [foldl]; [done|].
    etransitivity; [|apply IH]. unfold write_be_unsigned. rewrite zlen_app.
    match goal with |- _ <= _ + zlen ?l => pose proof (zlen_nonneg l) end. lia. }
  unfold emit_internal, write_dense, write_sparse. intros H.
  assert (G : exists o p l, buf' = write_deltas o p cs (buf ++ l)).
  { destruct (zlen cs =? 256).
    - destruct (negb _); [done|]. destruct (dense_ordinal_for_delta _) as [ord p].
      injection H as _ <-. eauto.
    - destruct (_ =? 0); [done|]. destruct (_ >? 255); [done|].
      destruct (sparse_ordinal_for_delta _) as [[ord p]|]; [|done]. injection H as _ <-. eauto. }
  destruct G as (o' & p & l & ->). specialize (Hd o' p cs (buf ++ l)). rewrite zlen_app in Hd.
  pose proof (zlen_nonneg l). lia.
Qed.

(** ** Reading a written node *)

Lemma child_at_none {A} b (cs : list (Z * A)) : Forall (fun c => b <> c.1) cs -> child_at b cs = None.
Proof.
  induction 1 as [|[x a] cs Hx _ IH]; [done|]. cbn in *. by destruct (Z.eqb_spec x b); [lia|].
Qed.

Lemma Forall_fst {A} (P : Z -> Prop) (cs : list (Z * A)) : Forall P (map fst cs) <-> Forall (fun c => P c.1) cs.
Proof. apply (Forall_fmap fst P cs). Qed.

Lemma binary_search_child (cs : list (Z * Z)) b :
  StronglySorted Z.lt (map fst cs) ->
  (idx ← binary_search b (map fst cs); snd <$> cs !! idx) = child_at b cs.
Proof.
  induction cs as [|[x a] cs IH]; intros Hs; [done|].
  cbn [map fst] in Hs. inversion Hs as [|? ? Hs' Hall]; subst. unfold binary_search in *.
  cbn [map fst partition_point child_at]. destruct (Z.ltb_spec x b).
  - destruct (Z.eqb_spec x b); [lia|]. rewrite <- IH by done.
    set (k := partition_point _ _). change ((x :: map fst cs) !! S k) with (map fst cs !! k).
    by destruct (decide (map fst cs !! k = Some b)).
  - destruct (Z.eqb_spec x b) as [->|].
    + by rewrite decide_True.
    + rewrite decide_False by (cbn; congruence). symmetry. apply child_at_none.
      rewrite Forall_fst in Hall. eapply Forall_impl; [exact Hall|]. cbn. lia.
Qed.

Lemma sort_children cs : StronglySorted Z.lt (map fst cs) -> sort_by byte_le cs = cs.
Proof.
  intros Hs. apply sort_by_sorted_id. induction cs as [|c cs IH]; [constructor|].
  cbn [map] in Hs. inversion Hs as [|? ? Hs' Hall]; subst. constructor; [by apply IH|].
  rewrite Forall_fst in Hall. eapply Forall_impl; [exact Hall|]. cbv beta. intros d Hd.
  unfold le_by, byte_le. by apply Z.lt_le_incl in Hd.
Qed.

Lemma sorted_full l a n :
  StronglySorted Z.lt l -> Forall (fun x => a <= x < a + n) l -> zlen l = n -> l = seqZ a n.
Proof.
  revert a n. induction l as [|x l IH]; intros a n Hs Hr Hl.
  - cbn in Hl. by subst.
  - inversion Hs as [|? ? Hs' Hall]; subst. apply Forall_cons in Hr as [Hx Hr].
    rewrite zlen_cons in *. pose proof (zlen_nonneg l).
    assert (Hb : forall l x u, StronglySorted Z.lt l -> Forall (fun y => x < y < u) l -> zlen l <= Z.max 0 (u - x - 1)).
    { clear. induction l as [|y l IH]; intros x u Hs Hr; [unfold zlen; cbn [length]; lia|].
      inversion Hs as [|? ? Hs' Hall]; subst. apply Forall_cons in Hr as [Hy Hr]. rewrite zlen_cons. cbn in Hy.
      specialize (IH y u Hs'). assert (zlen l <= Z.max 0 (u - y - 1)); [|lia]. apply IH.
      apply Forall_forall. intros z Hz. rewrite Forall_forall in Hall, Hr. specialize (Hall z Hz). specialize (Hr z Hz). cbn in Hr. lia. }
    specialize (Hb l x (a + (1 + zlen l)) Hs').
    assert (zlen l <= Z.max 0 (a + (1 + zlen l) - x - 1)) as Hle.
    { apply Hb. apply Forall_forall. intros z Hz. rewrite Forall_forall in Hall, Hr. specialize (Hall z Hz). specialize (Hr z Hz). cbn in Hr. lia. }
    rewrite seqZ_cons by lia. destruct (decide (x = a)) as [->|].
    + f_equal. apply (IH (Z.succ a) (Z.pred (1 + zlen l))); [done| |lia].
      apply Forall_forall. intros z Hz. rewrite Forall_forall in Hall, Hr. specialize (Hall z Hz). specialize (Hr z Hz). cbn in Hr. lia.
    + lia.
Qed.

Lemma child_at_range {A} (cs : list (Z * A)) s n b :
  map fst cs = seqZ s n -> 0 <= n ->
  child_at b cs = if (b >=? s) && (b <? s + n) then snd <$> cs !! Z.to_nat (b - s) else None.
Proof.
  revert s n. induction cs as [|[x a] cs IH]; intros s n E Hn.
  - destruct (_ && _); done.
  - assert (0 < n) as Hpos. { destruct (decide (n = 0)) as [->|]; [done|lia]. }
    rewrite seqZ_cons in E by lia. cbn [map fst] in E. injection E as -> E. cbn [child_at].
    rewrite (IH _ _ E ltac:(lia)). rewrite !Z.geb_leb.
    destruct (Z.eqb_spec s b) as [->|].
    + rewrite Z.sub_diag. destruct (Z.leb_spec b b), (Z.ltb_spec b (b + n)); try lia. done.
    + destruct (Z.leb_spec (Z.succ s) b), (Z.leb_spec s b); try lia; cbn [andb]; [|done].
      replace (Z.succ s + Z.pred n) with (s + n) by lia. destruct (Z.ltb_spec b (s + n)); [|done].
      replace (Z.to_nat (b - s)) with (S (Z.to_nat (b - Z.succ s))) by lia. done.
Qed.

Lemma dense_children (cs : list (Z * Z)) s n :
  map fst cs = seqZ s n -> 0 <= s -> s + n <= 256 -> 
  omap (fun '(i, child) => distance ← child; Some (as_u8 (s + i), distance))
    (zip (seqZ 0 n) (map (fun c => Some c.2) cs)) = cs.
Proof.
  intros E Hs Hn. rewrite <- (Z.sub_diag s).
  enough (G : forall k, 0 <= k -> map fst cs = seqZ (s + k) n -> s + k + n <= 256 ->
    omap (fun '(i, child) => distance ← child; Some (as_u8 (s + i), distance))
      (zip (seqZ k n) (map (fun c => Some c.2) cs)) = cs).
  { rewrite Z.sub_diag. apply G; [lia|by rewrite Z.add_0_r|lia]. }
  clear E Hn. revert n. induction cs as [|[x a] cs IH]; intros n k Hk E Hn.
  - by destruct (seqZ k n).
  - assert (0 < n) as Hpos. { destruct (Z.le_gt_cases n 0); [|done]. by rewrite seqZ_nil in E by lia. }
    rewrite seqZ_cons in E by lia. injection E as -> E. rewrite seqZ_cons by lia. cbn [map zip_with omap list_omap].
    cbn [mbind option_bind snd]. f_equal.
    + unfold as_u8. rewrite wrap_id; [done|]. unfold u_range. change (2 ^ 8) with 256. lia.
    + apply (IH (Z.pred n) (Z.succ k)); [lia| |lia]. by rewrite Z.add_succ_r.
Qed.

(** A node without payload at [off], with these children. *)
Record node_at (data : list Z) (off : Z) (cs : list (Z * Z)) : Prop := {
  na_inside : 0 <= off < zlen data;
  na_ordinal : 5 <= Z.land (Z.shiftr (byte_of data off) 4) 0x0F <= 15;
  na_flags : Z.land (byte_of data off) 0x0F = 0;
  na_next : 0 <= byte_of data (off + 1) /\ 0 <= byte_of data (off + 2);
  na_parse : exists node, parse_bti_node (drop (Z.to_nat off) data) off = Ok node /\
    ordered_children node = cs /\ forall b, find_child node b = child_at b cs;
}.

Lemma node_find data off cs b : node_at data off cs -> find_child_offset data off b = Ok (child_at b cs).
Proof.
  intros [Hin Ho Hf [H1 H2] (node & Hp & _ & Hfc)].
  rewrite find_child_offset_eq by (done || lia). rewrite Hp. cbn [mbind result_bind]. by rewrite Hfc.
Qed.

Lemma node_children data off cs :
  node_at data off cs ->
  exists node, parse_bti_node_for_traversal data off = Ok node /\ ordered_children node = cs.
Proof.
  intros [Hin Ho Hf _ (node & Hp & Hch & _)]. exists node. split; [|done].
  unfold parse_bti_node_for_traversal. destruct (Z.geb_spec off (zlen data)); [lia|].
  assert (byte_of (drop (Z.to_nat off) data) 0 = byte_of data off) as ->.
  { unfold byte_of. rewrite !nth_lookup, lookup_drop. do 2 f_equal. lia. }
  assert (classify_node_nibble (Z.land (Z.shiftr (byte_of data off) 4) 15) = Ok Sparse \/
          classify_node_nibble (Z.land (Z.shiftr (byte_of data off) 4) 15) = Ok Dense) as [-> | ->];
    [|done..]. unfold classify_node_nibble. set (ord := Z.land _ 15) in *.
  destruct (Z.eqb_spec ord 0); [lia|]. destruct (Z.leb_spec 1 ord), (Z.leb_spec ord 4); try lia; cbn [andb].
  destruct (Z.leb_spec 5 ord), (Z.leb_spec ord 9); try lia; cbn [andb]; [by left|right].
  by destruct (Z.leb_spec 10 ord), (Z.leb_spec ord 15); try lia.
Qed.

Lemma ordinal_nibbles ord : 0 <= ord <= 15 -> Z.land (Z.shiftr (ord * 16) 4) 0x0F = ord /\ Z.land (ord * 16) 0x0F = 0.
Proof.
  intros H. assert (In ord (seqZ 0 16)) as Hin by (apply list_elem_of_In, elem_of_seqZ; lia).
  vm_compute seqZ in Hin. cbn in Hin. by repeat (destruct Hin as [<-|Hin]; [split; reflexivity|]).
Qed.

Lemma map_seqZ_eq {A} (f : Z -> A) l n :
  zlen l = n -> (forall i x, l !! i = Some x -> f (Z.of_nat i) = x) -> map f (seqZ 0 n) = l.
Proof.
  intros <- Hf. apply list_eq. intros i. change (map ?f ?l) with (f <$> l). rewrite list_lookup_fmap. unfold zlen.
  destruct (l !! i) as [x|] eqn:E.
  - pose proof (lookup_lt_Some _ _ _ E). rewrite lookup_seqZ_lt by lia. cbn. f_equal. rewrite Z.add_0_l. by apply Hf.
  - apply lookup_ge_None in E. by rewrite lookup_seqZ_ge by lia.
Qed.

Lemma nat_byte_of l i x : l !! i = Some x -> byte_of l (Z.of_nat i) = x.
Proof. intros H. unfold byte_of. rewrite Nat2Z.id. by apply nth_lookup_Some. Qed.

Lemma sparse_node_parses ord p o cs rest :
  shape_ok true ord p o cs -> children_ok o cs ->
  parse_sparse_node (node_head true ord cs ++ deltas (Z.to_nat p) o cs ++ rest) o ord = Ok (NSparse cs).
Proof.
  intros (Hf & Hlen & Hord & Hn6 & _) [Hs Hb Hlt]. unfold parse_sparse_node.
  set (d := node_head true ord cs ++ deltas (Z.to_nat p) o cs ++ rest).
  assert (Hd : zlen d = 2 + zlen cs + p * zlen cs + zlen rest).
  { unfold d. rewrite !zlen_app, deltas_length. destruct Hf as (_ & _ & Hp & _). rewrite Z2Nat.id by lia.
    cbn [node_head app]. rewrite !zlen_cons. unfold zlen. rewrite length_map. lia. }
  pose proof (zlen_nonneg rest). pose proof Hf as (_ & Hpb & Hp & _). pose proof (zlen_nonneg cs).
  rewrite !require_len_bind. destruct (Z.ltb_spec (zlen d) 2); [nia|].
  change (byte_of d 1) with (zlen cs). destruct (Z.eqb_spec (zlen cs) 0); [lia|].
  rewrite (proj2 (Z.eqb_neq ord 6)) by done. unfold ptr_area. rewrite Hpb.
  destruct (Z.ltb_spec (zlen d) (2 + zlen cs + zlen cs * p)); [nia|]. do 2 f_equal.
  apply map_seqZ_eq; [done|]. intros i [x a] Hi.
  assert (Hh : byte_of d (2 + Z.of_nat i) = x).
  { replace (2 + Z.of_nat i) with (Z.of_nat (2 + i)) by lia. apply nat_byte_of.
    change (d !! (2 + i)%nat) with ((map fst cs ++ deltas (Z.to_nat p) o cs ++ rest) !! i).
    apply lookup_app_l_Some. change (map ?f ?l) with (f <$> l). by rewrite list_lookup_fmap, Hi. }
  rewrite Hh. f_equal.
  replace (2 + zlen cs) with (zlen (node_head true ord cs))
    by (cbn [node_head app]; rewrite !zlen_cons; unfold zlen; rewrite length_map; lia).
  unfold d. rewrite (delta_read _ ord p o cs rest i (x, a)) by done.
  pose proof (Forall_lookup_1 _ _ _ _ Hlt Hi) as Ha. cbn in *. unfold sat_sub. lia.
Qed.

Lemma dense_node_parses ord p o cs rest :
  shape_ok false ord p o cs -> children_ok o cs ->
  parse_dense_node (node_head false ord cs ++ deltas (Z.to_nat p) o cs ++ rest) o ord
  = Ok (NDense 0 (map (fun c => Some c.2) cs)) /\ map fst cs = seqZ 0 256.
Proof.
  intros (Hf & Hlen & Hord & H256) [Hs Hb Hlt].
  assert (Efst : map fst cs = seqZ 0 256).
  { apply sorted_full; [done| |unfold zlen; rewrite length_map; done].
    apply Forall_fst. eapply Forall_impl; [exact Hb|]. intros c [H1 H2]. change (2 ^ 8) with 256 in H2. lia. }
  split; [|done]. unfold parse_dense_node.
  set (d := node_head false ord cs ++ deltas (Z.to_nat p) o cs ++ rest).
  assert (Hd : zlen d = 3 + p * 256 + zlen rest).
  { unfold d. rewrite !zlen_app, deltas_length. destruct Hf as (_ & _ & Hp & _). rewrite Z2Nat.id, H256 by lia.
    change (zlen (node_head false ord cs)) with 3. lia. }
  pose proof (zlen_nonneg rest). pose proof Hf as (_ & Hpb & Hp & _).
  rewrite !require_len_bind. destruct (Z.ltb_spec (zlen d) 3); [nia|].
  change (byte_of d 2) with 255. change (byte_of d 1) with (default 0 (head (map fst cs))). rewrite Efst.
  rewrite (proj2 (Z.eqb_neq ord 10)) by lia. unfold ptr_area. rewrite Hpb.
  destruct (Z.ltb_spec (zlen d) (3 + (255 + 1) * p)); [nia|]. cbn [mbind result_bind default head seqZ].
  change (255 + 1) with 256. change (default 0 (head (seqZ 0 256))) with 0. do 2 f_equal.
  apply map_seqZ_eq; [unfold zlen; rewrite length_map; done|]. intros i y Hi.
  change (map ?f ?l) with (f <$> l) in Hi. rewrite list_lookup_fmap in Hi.
  destruct (cs !! i) as [c|] eqn:Ec; [|done]. injection Hi as <-.
  change 3 with (zlen (node_head false ord cs)). unfold d. rewrite (delta_read _ ord p o cs rest i c) by done.
  pose proof (Forall_lookup_1 _ _ _ _ Hlt Ec) as Ha. cbn in Ha. unfold dense_slot, sat_sub.
  destruct (Z.eqb_spec (o - c.2) 0); [lia|]. f_equal. lia.
Qed.

Lemma written_node cs o sparse ord p data :
  shape_ok sparse ord p o cs -> children_ok o cs ->
  bytes_at data o (node_head sparse ord cs ++ deltas (Z.to_nat p) o cs) -> node_at data o cs.
Proof.
  intros Hsh Hc (pre & post & -> & Hpre). pose proof (zlen_nonneg pre).
  set (bs := node_head sparse ord cs ++ deltas (Z.to_nat p) o cs) in *.
  assert (Hord : 5 <= ord <= 15) by (by destruct Hsh as ((Hord & _) & _)).
  assert (Hdrop : drop (Z.to_nat o) (pre ++ bs ++ post) = bs ++ post).
  { apply drop_app_length'. unfold zlen in Hpre. lia. }
  assert (Hhead : exists t, bs ++ post = ord * 16 :: t).
  { unfold bs. destruct sparse; cbn [node_head app]; eauto. }
  destruct Hhead as (t & Et).
  assert (Hbyte : byte_of (pre ++ bs ++ post) o = ord * 16).
  { unfold byte_of. rewrite nth_lookup, lookup_app_r by (unfold zlen in *; lia).
    replace (Z.to_nat o - length pre)%nat with 0%nat by (unfold zlen in *; lia). by rewrite Et. }
  destruct (ordinal_nibbles ord ltac:(lia)) as [Hn1 Hn2].
  split.
  - rewrite !zlen_app. replace (zlen bs + zlen post) with (zlen (bs ++ post)) by (by rewrite zlen_app).
    rewrite Et, zlen_cons. pose proof (zlen_nonneg t). lia.
  - rewrite Hbyte. lia.
  - by rewrite Hbyte.
  - assert (Hb : forall i x, (bs ++ post) !! i = Some x -> byte_of (pre ++ bs ++ post) (o + Z.of_nat i) = x).
    { intros i x Hi. unfold byte_of. rewrite nth_lookup, lookup_app_r by (unfold zlen in *; lia).
      replace (Z.to_nat (o + Z.of_nat i) - length pre)%nat with i by (unfold zlen in *; lia). by rewrite Hi. }
    destruct Hsh as (_ & Hl & _), Hc as [_ Hby _].
    destruct cs as [|[b c] cs]; [unfold zlen in Hl; cbn [length] in Hl; lia|]. apply Forall_cons in Hby as [[Hb0 _] _]. cbn [fst] in Hb0.
    destruct sparse.
    + change (o + 1) with (o + Z.of_nat 1); change (o + 2) with (o + Z.of_nat 2). rewrite (Hb 1%nat (zlen ((b, c) :: cs)) eq_refl), (Hb 2%nat b eq_refl). pose proof (zlen_nonneg ((b, c) :: cs)). lia.
    + change (o + 1) with (o + Z.of_nat 1); change (o + 2) with (o + Z.of_nat 2). rewrite (Hb 1%nat b eq_refl), (Hb 2%nat 255 eq_refl). lia.
  - rewrite Hdrop. unfold parse_bti_node. rewrite Et. cbn [head ok_or mbind result_bind]. rewrite Hn1.
    rewrite <- Et. unfold bs. rewrite <- app_assoc. destruct sparse.
    + assert (classify_node_nibble ord = Ok Sparse) as ->.
      { unfold classify_node_nibble. destruct Hsh as (_ & _ & Ho & _).
        by repeat (case_zb; try lia). }
      cbn [mbind result_bind]. exists (NSparse cs). split; [by apply (sparse_node_parses ord p)|].
      split; [by apply sort_children, Hc|]. intros b. apply binary_search_child, Hc.
    + assert (classify_node_nibble ord = Ok Dense) as ->.
      { unfold classify_node_nibble. destruct Hsh as (_ & _ & Ho & _).
        by repeat (case_zb; try lia). }
      destruct (dense_node_parses ord p o cs post Hsh Hc) as [E Efst].
      exists (NDense 0 (map (fun c => Some c.2) cs)). split; [done|].
      assert (zlen (map (fun c : Z * Z => Some c.2) cs) = 256) as Hz.
      { unfold zlen. rewrite length_map. change (zlen cs = 256). apply Hsh. }
      split.
      * cbn [ordered_children]. rewrite Hz. by apply dense_children.
      * intros b. cbn [find_child]. rewrite Hz, (child_at_range cs 0 256) by done.
        destruct (_ && _); [|done]. change (map ?f ?l) with (f <$> l). rewrite list_lookup_fmap.
        by destruct (cs !! _).
Qed.
