(* ===== verification/BtiWalks.v ===== *)
(** Tries of an index file, built, written and read. What a trie holds is the ascending
    list of its entries. Inserting entries in ascending order builds the trie of them; what
    the writer lays out in the buffer, the readers walk: the lookup of a key, the entry
    after a key and the last entry up to a key are those of the list.

    A payload's codec is an interface, [LeafCodec]: Partitions.db and Rows.db each
    implement it. *)

From S2P Require Import Prelude Values VInt Oss50 BtiNodes BtiTrie BtiTree.

Open Scope Z_scope.

(** ** Tries and their entries *)

Section Entries.
Context {P : Type}.

Lemma trie_ind (Q : TrieBuildNode P -> Prop) :
  (forall p, Q (Leaf p)) -> (forall cs, Forall (fun c => Q c.2) cs -> Q (Internal cs)) -> forall t, Q t.
Proof.
  intros Hl Hi. fix IH 1. intros [p|cs]; [apply Hl|]. apply Hi.
  induction cs as [|[b c] cs IHcs]; constructor; [apply IH|done].
Qed.

Fixpoint entries (t : TrieBuildNode P) : list (list Z * P) :=
  match t with
  | Leaf p => [([], p)]
  | Internal cs => concat (map (fun c => map (fun e => (c.1 :: e.1, e.2)) (entries c.2)) cs)
  end.

(** The entries below a child, from its parent. *)
Definition under (b : Z) (es : list (list Z * P)) : list (list Z * P) := map (fun e => (b :: e.1, e.2)) es.

Lemma entries_internal cs : entries (Internal cs) = concat (map (fun c => under c.1 (entries c.2)) cs).
Proof. done. Qed.

Lemma entries_app cs1 cs2 : entries (Internal (cs1 ++ cs2)) = entries (Internal cs1) ++ entries (Internal cs2).
Proof. rewrite !entries_internal, map_app, concat_app. done. Qed.

Lemma entries_one b c : entries (Internal [(b, c)]) = under b (entries c).
Proof. rewrite entries_internal. cbn. apply app_nil_r. Qed.

(** Children ascend, and no subtree is empty. *)
Inductive ordered (ok : P -> Prop) : TrieBuildNode P -> Prop :=
| ordered_leaf p : ok p -> ordered ok (Leaf p)
| ordered_internal cs :
    cs <> [] -> StronglySorted Z.lt (map fst cs) -> Forall (fun c => is_byte c.1) cs ->
    Forall (fun c => ordered ok c.2) cs -> ordered ok (Internal cs).

Lemma ordered_entries ok t : ordered ok t -> entries t <> [].
Proof.
  induction t as [p|cs IH] using trie_ind; intros H; [done|].
  inversion H as [|? Hne Hs Hb Hc]; subst. destruct cs as [|[b c] cs]; [done|].
  apply Forall_cons in IH as [IH _]. apply Forall_cons in Hc as [Hc _].
  specialize (IH Hc). cbn [snd] in IH. cbn [entries map concat fst snd]. destruct (entries c); [by destruct IH|]. cbn. done.
Qed.

(** [a] comes before [b], and neither is a prefix of the other. *)
Fixpoint diverges (a b : list Z) : Prop :=
  match a, b with
  | x :: a', y :: b' => x < y \/ x = y /\ diverges a' b'
  | _, _ => False
  end.

Lemma diverges_lt a b : diverges a b -> bytes_cmp a b = Lt.
Proof.
  revert b. induction a as [|x a IH]; intros [|y b] H; try done. unfold bytes_cmp in *. cbn [list_cmp].
  destruct H as [H|[-> H]]; [by rewrite (proj2 (Z.compare_lt_iff x y) H)|].
  rewrite Z.compare_refl. by apply IH.
Qed.

Lemma same_length_diverges a b : length a = length b -> bytes_cmp a b = Lt -> diverges a b.
Proof.
  revert b. induction a as [|x a IH]; intros [|y b] Hl H; try done. unfold bytes_cmp in *. cbn [list_cmp] in H.
  cbn. destruct (Z.compare_spec x y) as [->|Hc|Hc]; [right; split; [done|]|by left|done].
  apply IH; [cbn in Hl; lia|done].
Qed.

Lemma btree_insert_last {A} b (x : A) cs :
  Forall (fun c => c.1 < b) cs -> btree_insert b x cs = cs ++ [(b, x)].
Proof.
  induction 1 as [|[b' y] cs Hb _ IH]; [done|]. cbn in *.
  destruct (Z.ltb_spec b b'); [lia|]. destruct (Z.eqb_spec b b'); [lia|]. by rewrite IH.
Qed.

Lemma btree_insert_over {A} b (x y : A) cs :
  Forall (fun c => c.1 < b) cs -> btree_insert b x (cs ++ [(b, y)]) = cs ++ [(b, x)].
Proof.
  induction 1 as [|[b' z] cs Hb _ IH]; cbn in *.
  - destruct (Z.ltb_spec b b); [lia|]. by rewrite Z.eqb_refl.
  - destruct (Z.ltb_spec b b'); [lia|]. destruct (Z.eqb_spec b b'); [lia|]. by rewrite IH.
Qed.

Lemma child_at_last {A} b (y : A) cs : Forall (fun c => c.1 < b) cs -> child_at b (cs ++ [(b, y)]) = Some y.
Proof.
  induction 1 as [|[b' z] cs Hb _ IH]; cbn in *; [by rewrite Z.eqb_refl|].
  by destruct (Z.eqb_spec b' b); [lia|].
Qed.

(** The children of a node all of whose entries come before a key: those below its first
    byte, and perhaps one for it. *)
Lemma children_before ok cs b rest :
  ordered ok (Internal cs) -> Forall (fun e => diverges e.1 (b :: rest)) (entries (Internal cs)) ->
  Forall (fun c => c.1 < b) cs \/
  exists cs' c, cs = cs' ++ [(b, c)] /\ Forall (fun c => c.1 < b) cs' /\ ordered ok c /\
    Forall (fun e => diverges e.1 rest) (entries c).
Proof.
  intros H Hd. inversion H as [|? Hne Hs Hb Hc]; subst. clear H Hne Hb.
  induction cs as [|[x c] cs IH]; [by left|].
  apply Forall_cons in Hc as [Hc Hcs]. cbn [snd] in Hc. cbn [map fst] in Hs. inversion Hs as [|? ? Hs' Hlt]; subst.
  change (entries (Internal ((x, c) :: cs))) with (under x (entries c) ++ entries (Internal cs)) in Hd.
  apply Forall_app in Hd as [Hd1 Hd2]. unfold under in Hd1. rewrite Forall_map in Hd1.
  assert (Hx : x < b \/ x = b /\ Forall (fun e => diverges e.1 rest) (entries c)).
  { pose proof (ordered_entries _ _ Hc) as Hn. destruct (entries c) as [|e es]; [by destruct Hn|].
    pose proof Hd1 as Hd1'. apply Forall_cons in Hd1' as [[He|[He _]] _]; [by left|].
    right. split; [done|]. eapply Forall_impl; [exact Hd1|]. intros e' [He'|[_ He']]; [lia|done]. }
  destruct Hx as [Hx|[-> Hx]].
  - destruct (IH Hd2 Hs' Hcs) as [Hall|(cs' & c' & -> & Hall & Ho & He)].
    + left. by constructor.
    + right. exists ((x, c) :: cs'), c'. split; [done|]. split; [by constructor|done].
  - right. exists [], c. assert (cs = []) as ->; [|by repeat split].
    destruct cs as [|[y d] cs]; [done|]. exfalso. apply Forall_cons in Hcs as [Ho _]. cbn [snd] in Ho.
    pose proof (ordered_entries _ _ Ho) as Hn. cbn [map fst] in Hlt. apply Forall_cons in Hlt as [Hlt _].
    change (entries (Internal ((y, d) :: cs))) with (under y (entries d) ++ entries (Internal cs)) in Hd2.
    apply Forall_app in Hd2 as [Hd2 _]. destruct (entries d) as [|e es]; [by destruct Hn|].
    apply Forall_cons in Hd2 as [[He|[He _]] _]; lia.
Qed.

Lemma sorted_snoc {A} (cs : list (Z * A)) b (x : A) :
  StronglySorted Z.lt (map fst cs) -> Forall (fun c => c.1 < b) cs -> StronglySorted Z.lt (map fst (cs ++ [(b, x)])).
Proof.
  intros Hs Hb. rewrite map_app. apply StronglySorted_app_2; [|done|by repeat constructor].
  intros y z Hy Hz. cbn in Hz. apply list_elem_of_singleton in Hz as ->. apply (Forall_fst (fun y => y < b)) in Hb.
  rewrite Forall_forall in Hb. by apply Hb.
Qed.

Lemma insert_deep (cs : list (Z * TrieBuildNode P)) b rest p : rest <> [] ->
  insert (Internal cs) (b :: rest) p
  = Internal (btree_insert b (insert (default (Internal []) (child_at b cs)) rest p) cs) /\
  insert_row (Internal cs) (b :: rest) p
  = (child ← insert_row (default (Internal []) (child_at b cs)) rest p; Ok (Internal (btree_insert b child cs))).
Proof. by destruct rest. Qed.

(** Inserting an entry after all others appends it. *)
Lemma insert_last ok k p : forall t,
  k <> [] -> Forall is_byte k -> ok p ->
  ordered ok t \/ t = Internal [] -> Forall (fun e => diverges e.1 k) (entries t) ->
  insert_row t k p = Ok (insert t k p) /\ ordered ok (insert t k p) /\ entries (insert t k p) = entries t ++ [(k, p)].
Proof.
  induction k as [|b rest IH]; intros t Hne Hk Hp Ht Hd; [done|]. clear Hne.
  apply Forall_cons in Hk as [Hb Hk].
  destruct t as [q|cs]; [destruct Ht as [Ht|Ht]; [|done]; cbn in Hd; by apply Forall_cons in Hd as [? _]|].
  assert (Hcs : Forall (fun c => c.1 < b) cs \/
    exists cs' c, cs = cs' ++ [(b, c)] /\ Forall (fun c => c.1 < b) cs' /\ ordered ok c /\
      Forall (fun e => diverges e.1 rest) (entries c)).
  { destruct Ht as [Ht|[= ->]]; [by apply (children_before ok)|by left]. }
  assert (Hord : StronglySorted Z.lt (map fst cs) /\ Forall (fun c => is_byte c.1) cs /\ Forall (fun c => ordered ok c.2) cs).
  { destruct Ht as [Ht|[= ->]]; [by inversion Ht|by repeat constructor]. }
  destruct Hord as (Hs & Hby & Ho).
  assert (Happ : forall cs' c, Forall (fun c => c.1 < b) cs' -> StronglySorted Z.lt (map fst cs') ->
    Forall (fun c => is_byte c.1) cs' -> Forall (fun c => ordered ok c.2) cs' -> ordered ok c ->
    ordered ok (Internal (cs' ++ [(b, c)]))).
  { intros cs' c H1 H2 H3 H4 H5. constructor; [by destruct cs'|by apply sorted_snoc|..];
      apply Forall_app; split; try done; by apply Forall_singleton. }
  destruct Hcs as [Hlt|(cs' & c & -> & Hlt & Hoc & Hdc)].
  - assert (Hnone : child_at b cs = None).
    { apply child_at_none. eapply Forall_impl; [exact Hlt|]. cbn. lia. }
    destruct rest as [|b2 rest].
    + cbn [insert insert_row]. rewrite btree_insert_last by done. split; [done|].
      split; [apply Happ; try done; by constructor|]. by rewrite entries_app.
    + destruct (IH (Internal []) ltac:(done) Hk Hp ltac:(by right) ltac:(by constructor)) as (Ei & Ho' & Ee).
      destruct (insert_deep cs b (b2 :: rest) p ltac:(done)) as [-> ->].
      rewrite Hnone. cbn [default from_option id]. rewrite Ei. cbn [mbind result_bind].
      rewrite !btree_insert_last by done. split; [done|]. split; [by apply Happ|].
      rewrite entries_app, entries_one, Ee. done.
  - rewrite map_app in Hs. apply StronglySorted_app in Hs as (_ & Hs & _).
    apply Forall_app in Hby as [Hby _]. apply Forall_app in Ho as [Ho _].
    destruct rest as [|b2 rest].
    { exfalso. pose proof (ordered_entries _ _ Hoc) as Hn. destruct (entries c) as [|[e ?] es]; [by destruct Hn|].
      apply Forall_cons in Hdc as [Hdc _]. by destruct e. }
    destruct (IH c ltac:(done) Hk Hp ltac:(by left) Hdc) as (Ei & Ho' & Ee).
    destruct (insert_deep (cs' ++ [(b, c)]) b (b2 :: rest) p ltac:(done)) as [-> ->]. rewrite child_at_last by done. cbn [default from_option id]. rewrite Ei. cbn [mbind result_bind].
    rewrite !btree_insert_over by done. split; [done|]. split; [by apply Happ|].
    rewrite !entries_app, !entries_one, Ee. unfold under. rewrite map_app, app_assoc. done.
Qed.

Definition entry_ok (ok : P -> Prop) (e : list Z * P) : Prop := e.1 <> [] /\ Forall is_byte e.1 /\ ok e.2.

Lemma insert_all ok : forall es t,
  Forall (entry_ok ok) es -> ordered ok t \/ t = Internal [] ->
  StronglySorted (fun a b => diverges a.1 b.1) (entries t ++ es) ->
  let t' := foldl (fun root e => insert root e.1 e.2) t es in
  insert_rows t es = Ok t' /\ entries t' = entries t ++ es /\ (ordered ok t' \/ t' = Internal []).
Proof.
  induction es as [|[k p] es IH]; intros t He Ht Hs; [by rewrite app_nil_r|].
  apply Forall_cons in He as [(Hne & Hk & Hp) He]. cbn [fst snd] in Hne, Hk, Hp.
  pose proof Hs as Hs'. apply StronglySorted_app in Hs' as (Hd & _ & _).
  destruct (insert_last ok k p t Hne Hk Hp Ht) as (Ei & Ho & Ee).
  { apply Forall_forall. intros e Hin. apply (Hd e (k, p)); [done|by left]. }
  cbn [insert_rows foldl fst snd]. rewrite Ei. cbn [mbind result_bind].
  destruct (IH (insert t k p) He (or_introl Ho)) as (E1 & E2 & E3); [by rewrite Ee, <- app_assoc|].
  rewrite E1, E2, Ee, <- app_assoc. done.
Qed.

(** Entries in ascending order, none a prefix of another, are what their trie holds. *)
Lemma build_exact ok es :
  Forall (entry_ok ok) es -> StronglySorted (fun a b => diverges a.1 b.1) es -> es <> [] ->
  build_row_trie es = Ok (build_trie es) /\ entries (build_trie es) = es /\ ordered ok (build_trie es).
Proof.
  intros He Hs Hne. destruct (insert_all ok es (Internal []) He (or_intror eq_refl) Hs) as (E1 & E2 & E3).
  split; [done|]. split; [done|]. unfold build_trie in *. destruct E3 as [?|E3]; [done|].
  rewrite E3 in E2. cbn in E2. by subst.
Qed.
End Entries.

(** ** What is written, laid out *)

Class LeafCodec {P V} (write_leaf : P -> list Z -> result Error (Z * list Z))
    (read_payload : list Z -> Z -> result Error (option V)) (ok : P -> Prop) (view : P -> V) : Prop := {
  leaf_appends p buf o buf' :
    write_leaf p buf = Ok (o, buf') ->
    o = zlen buf /\ exists bs, buf' = buf ++ bs /\ appends (write_leaf p) o bs;
  leaf_reads p o bs data :
    ok p -> appends (write_leaf p) o bs -> bytes_at data o bs ->
    0 <= o < zlen data /\ Z.land (Z.shiftr (byte_of data o) 4) 0x0F = 0 /\
    Z.land (byte_of data o) 0x0F <> 0 /\ read_payload data o = Ok (Some (view p));
  inner_reads data o :
    0 <= o < zlen data -> 5 <= Z.land (Z.shiftr (byte_of data o) 4) 0x0F <= 15 ->
    Z.land (byte_of data o) 0x0F = 0 -> read_payload data o = Ok None;
}.

Section Laid.
Context {P V : Type} (write_leaf : P -> list Z -> result Error (Z * list Z))
  (read_payload : list Z -> Z -> result Error (option V)) (ok : P -> Prop) (view : P -> V)
  `{!LeafCodec write_leaf read_payload ok view}.

(** A node whose bytes are at [off], with children at these offsets. *)
Definition written_at (data : list Z) (off : Z) (cs : list (Z * Z)) : Prop :=
  children_ok off cs /\ exists sparse ord p,
    shape_ok sparse ord p off cs /\ bytes_at data off (node_head sparse ord cs ++ deltas (Z.to_nat p) off cs).

Lemma written_node_at data off cs : written_at data off cs -> node_at data off cs.
Proof. intros (Hc & sparse & ord & p & Hs & Hb). by apply (written_node cs off sparse ord p). Qed.

(** The trie [t] lies in [data] with its root at [off]. *)
Inductive laid (data : list Z) : Z -> TrieBuildNode P -> Prop :=
| laid_leaf off p bs :
    ok p -> appends (write_leaf p) off bs -> bytes_at data off bs -> laid data off (Leaf p)
| laid_internal off cs offs :
    written_at data off offs -> map fst offs = map fst cs ->
    Forall2 (fun c o => laid data o.2 c.2) cs offs -> laid data off (Internal cs).

Lemma laid_app data ext t : forall off, laid data off t -> laid (data ++ ext) off t.
Proof.
  induction t as [p|cs IH] using trie_ind; intros off H; inversion H as [? ? bs Hok Ha Hb|? ? offs Hw Hf Hc]; subst.
  - apply (laid_leaf _ _ _ bs); [done..|by apply bytes_at_app].
  - apply (laid_internal _ _ _ offs); [|done|].
    + destruct Hw as (Hch & sparse & ord & p & Hs & Hb). split; [done|]. exists sparse, ord, p.
      split; [done|]. by apply bytes_at_app.
    + clear -IH Hc. revert IH. induction Hc as [|c o cs offs Hco _ IHc]; intros IH; constructor.
      * apply Forall_cons in IH as [IH _]. by apply IH.
      * apply Forall_cons in IH as [_ IH]. by apply IHc.
Qed.

Definition lays_out (t : TrieBuildNode P) : Prop :=
  forall buf off buf', ordered ok t -> write_node write_leaf t buf = Ok (off, buf') -> zlen buf' < 2 ^ 64 ->
  exists ext, buf' = buf ++ ext /\ zlen buf <= off < zlen buf' /\ laid buf' off t.

Lemma each_grows (cs : list (Z * TrieBuildNode P)) : forall buf offs buf',
  Forall (fun c => forall buf off buf', write_node write_leaf c.2 buf = Ok (off, buf') -> zlen buf <= zlen buf') cs ->
  write_each (write_node write_leaf) cs buf = Ok (offs, buf') -> zlen buf <= zlen buf'.
Proof.
  induction cs as [|[b c] cs IH]; intros buf offs buf' Hg H; cbn [write_each] in H; [by injection H as _ <-|].
  apply Forall_cons in Hg as [Hc Hg]. destruct (write_node write_leaf c buf) as [[off buf1]|] eqn:E; [|done].
  cbn [mbind result_bind] in H. destruct (write_each _ cs buf1) as [[rest buf2]|] eqn:E2; [|done]. injection H as _ <-.
  etransitivity; [by eapply Hc|by eapply IH].
Qed.

Lemma write_node_grows (t : TrieBuildNode P) : forall buf off buf',
  write_node write_leaf t buf = Ok (off, buf') -> zlen buf <= zlen buf'.
Proof.
  induction t as [p|cs IH] using trie_ind; intros buf off buf' H.
  - cbn [write_node] in H. apply leaf_appends in H as (_ & bs & -> & _). rewrite zlen_app. pose proof (zlen_nonneg bs). lia.
  - cbn [write_node] in H. destruct (write_each _ cs buf) as [[offs buf1]|] eqn:E; [|done].
    etransitivity; [by eapply each_grows|by eapply emit_grows].
Qed.

Lemma each_laid (cs : list (Z * TrieBuildNode P)) :
  Forall (fun c => lays_out c.2) cs -> Forall (fun c => ordered ok c.2) cs -> forall buf offs buf',
  write_each (write_node write_leaf) cs buf = Ok (offs, buf') -> zlen buf' < 2 ^ 64 ->
  exists ext, buf' = buf ++ ext /\ map fst offs = map fst cs /\
    Forall (fun o => zlen buf <= o.2 < zlen buf') offs /\ Forall2 (fun c o => laid buf' o.2 c.2) cs offs.
Proof.
  induction cs as [|[b c] cs IH]; intros Hl Ho buf offs buf' H Hlen; cbn [write_each] in H.
  { injection H as <- <-. exists []. rewrite app_nil_r. by repeat split. }
  apply Forall_cons in Hl as [Hc Hl]. apply Forall_cons in Ho as [Hoc Ho].
  destruct (write_node write_leaf c buf) as [[off buf1]|] eqn:E; [|done].
  cbn [mbind result_bind] in H. destruct (write_each _ cs buf1) as [[rest buf2]|] eqn:E2; [|done]. injection H as <- <-.
  assert (zlen buf1 <= zlen buf2) as Hle.
  { eapply each_grows; [|exact E2]. apply Forall_true. intros d. apply write_node_grows. }
  destruct (Hc buf off buf1 Hoc E ltac:(lia)) as (e1 & -> & Hoff & Hl1).
  destruct (IH Hl Ho _ _ _ E2 Hlen) as (e2 & -> & Hfst & Hoffs & Hl2).
  exists (e1 ++ e2). rewrite <- app_assoc. split; [done|]. split; [cbn; by rewrite Hfst|].
  rewrite !zlen_app in *. pose proof (zlen_nonneg e1). pose proof (zlen_nonneg e2). split.
  - constructor; [cbn; lia|]. eapply Forall_impl; [exact Hoffs|]. cbn. lia.
  - rewrite (app_assoc buf). constructor; [|done]. cbn [snd]. by apply laid_app.
Qed.

(** The writer lays the trie out behind the buffer. *)
Lemma write_node_laid t : lays_out t.
Proof.
  induction t as [p|cs IH] using trie_ind; intros buf off buf' Ho Hw Hlen.
  - inversion Ho as [? Hok|]; subst. cbn [write_node] in Hw. apply leaf_appends in Hw as (-> & bs & -> & Ha).
    exists bs. split; [done|].
    assert (Hl : laid (buf ++ bs) (zlen buf) (Leaf p)).
    { apply (laid_leaf _ _ _ bs); [done..|apply bytes_at_end]. }
    split; [|done]. destruct (leaf_reads p (zlen buf) bs (buf ++ bs) Hok Ha (bytes_at_end buf bs)) as [? _]. lia.
  - cbn [write_node] in Hw. inversion Ho as [|? Hne Hs Hb Hc]; subst.
    destruct (write_each (write_node write_leaf) cs buf) as [[offs buf1]|] eqn:Ee; [|done]. cbn [mbind result_bind] in Hw.
    pose proof (emit_grows _ _ _ _ Hw) as Hlen1.
    destruct (each_laid cs IH Hc buf offs buf1 Ee ltac:(lia)) as (ext & -> & Hfst & Hoffs & Hl).
    pose proof (zlen_nonneg buf).
    destruct (emit_shape _ _ _ _ Hw) as (-> & sparse & ord & p & Hsh & Ha).
    { eapply Forall_impl; [exact Hoffs|]. cbn. lia. }
    { lia. }
    rewrite (Ha (buf ++ ext)) in Hw by done. injection Hw as <-.
    set (bs := node_head sparse ord offs ++ deltas (Z.to_nat p) (zlen (buf ++ ext)) offs) in *.
    assert (Hw : written_at ((buf ++ ext) ++ bs) (zlen (buf ++ ext)) offs).
    { split; [|exists sparse, ord, p; split; [done|apply bytes_at_end]]. split; rewrite ?Hfst; [done|..].
      - apply (Forall_fst is_byte). rewrite Hfst. by apply (Forall_fst is_byte).
      - eapply Forall_impl; [exact Hoffs|]. cbn. lia. }
    exists (ext ++ bs). split; [by rewrite app_assoc|]. split.
    + pose proof (na_inside _ _ _ (written_node_at _ _ _ Hw)). rewrite zlen_app in *. pose proof (zlen_nonneg ext). lia.
    + apply (laid_internal _ _ _ offs); [done|done|].
      eapply Forall2_impl; [exact Hl|]. intros c o Hco. by apply laid_app.
Qed.

(** The root of what is written ends the buffer. *)
Lemma write_node_root cs buf off buf' :
  ordered ok (Internal cs) -> write_node write_leaf (Internal cs) buf = Ok (off, buf') -> zlen buf' < 2 ^ 64 ->
  exists offs sparse ord p, shape_ok sparse ord p off offs /\
    bytes_at buf' off (node_head sparse ord offs ++ deltas (Z.to_nat p) off offs) /\
    zlen buf' = off + zlen (node_head sparse ord offs ++ deltas (Z.to_nat p) off offs).
Proof.
  intros Ho Hw Hlen. cbn [write_node] in Hw. inversion Ho as [|? Hne Hs Hb Hc]; subst.
  destruct (write_each (write_node write_leaf) cs buf) as [[offs buf1]|] eqn:Ee; [|done]. cbn [mbind result_bind] in Hw.
  pose proof (emit_grows _ _ _ _ Hw) as Hlen1.
  destruct (each_laid cs (Forall_true _ _ (fun c => write_node_laid c.2)) Hc buf offs buf1 Ee ltac:(lia)) as (ext & -> & _ & Hoffs & _).
  pose proof (zlen_nonneg buf).
  destruct (emit_shape _ _ _ _ Hw) as (-> & sparse & ord & p & Hsh & Ha).
  { eapply Forall_impl; [exact Hoffs|]. cbn. lia. }
  { lia. }
  rewrite (Ha (buf ++ ext)) in Hw by done. injection Hw as <-. exists offs, sparse, ord, p.
  split; [done|]. split; [apply bytes_at_end|]. by rewrite zlen_app.
Qed.

(** ** What the walks see *)

Lemma laid_leaf_facts data off p :
  laid data off (Leaf p) ->
  0 <= off < zlen data /\ Z.land (Z.shiftr (byte_of data off) 4) 0x0F = 0 /\
  read_payload data off = Ok (Some (view p)) /\
  exists node, parse_bti_node_for_traversal data off = Ok node /\ ordered_children node = [].
Proof.
  intros H. inversion H as [? ? bs Hok Ha Hb|]; subst.
  destruct (leaf_reads p off bs data Hok Ha Hb) as (Hin & Ho & Hf & Hr). repeat (split; [done|]).
  exists (NPayloadOnly (mkPayloadRef 0 0)). split; [|done]. unfold parse_bti_node_for_traversal.
  destruct (Z.geb_spec off (zlen data)); [lia|].
  assert (byte_of (drop (Z.to_nat off) data) 0 = byte_of data off) as ->.
  { unfold byte_of. rewrite !nth_lookup, lookup_drop. do 2 f_equal. lia. }
  rewrite Ho. cbn [classify_node_nibble Z.eqb mbind result_bind]. by rewrite (proj2 (Z.eqb_neq _ _) Hf).
Qed.

(** An internal node, from the reader's side. *)
Record inner (data : list Z) (off : Z) (cs : list (Z * TrieBuildNode P)) (offs : list (Z * Z)) : Prop := {
  in_inside : 0 <= off < zlen data;
  in_ordinal : Z.land (Z.shiftr (byte_of data off) 4) 0x0F <> 0;
  in_flags : Z.land (byte_of data off) 0x0F = 0;
  in_payload : read_payload data off = Ok None;
  in_find b : find_child_offset data off b = Ok (child_at b offs);
  in_children : exists node, parse_bti_node_for_traversal data off = Ok node /\ ordered_children node = offs;
  in_fst : map fst offs = map fst cs;
  in_below : Forall (fun o => 0 <= o.2 < off) offs;
  in_laid : Forall2 (fun c o => laid data o.2 c.2) cs offs;
}.

Lemma laid_inner data off cs : laid data off (Internal cs) -> exists offs, inner data off cs offs.
Proof.
  intros H. inversion H as [|? ? offs Hw Hf Hc]; subst. exists offs.
  pose proof (written_node_at _ _ _ Hw) as Hn. destruct Hw as [[_ _ Hbelow] _]. destruct Hn as [H1 H2 H3 H4 H5] eqn:E. clear E.
  split; try done; [lia|by apply inner_reads| |].
  - intros b. by apply node_find.
  - by apply node_children.
Qed.

Lemma children_agree data cs offs b :
  map fst offs = map fst cs -> Forall2 (fun c o => laid data o.2 c.2) cs offs ->
  match child_at b cs, child_at b offs with
  | Some c, Some o => laid data o c
  | None, None => True
  | _, _ => False
  end.
Proof.
  intros Hf H. revert Hf. induction H as [|[x c] [y o] cs offs Hco _ IH]; intros Hf; [done|].
  cbn [map fst] in Hf. injection Hf as -> Hf. cbn [child_at]. destruct (x =? b); [done|]. by apply IH.
Qed.

Fixpoint lookup_trie (t : TrieBuildNode P) (key : list Z) : option P :=
  match t, key with
  | Leaf p, _ => Some p
  | Internal cs, [] => None
  | Internal cs, b :: key => c ← child_at b cs; lookup_trie c key
  end.

Lemma walk_trie_exact data key : forall t off,
  laid data off t -> walk_trie read_payload data off key = Ok (view <$> lookup_trie t key).
Proof.
  induction key as [|b key IH]; intros [p|cs] off H.
  1, 3: destruct (laid_leaf_facts _ _ _ H) as (Hin & Ho & Hr & _); cbn [walk_trie];
    destruct (Z.geb_spec off (zlen data)); [lia|]; by rewrite Ho.
  - destruct (laid_inner _ _ _ H) as (offs & [Hin Ho Hf _ _ _ _ _ _]). cbn [walk_trie].
    destruct (Z.geb_spec off (zlen data)); [lia|]. by rewrite (proj2 (Z.eqb_neq _ _) Ho), Hf.
  - destruct (laid_inner _ _ _ H) as (offs & [Hin Ho Hf _ Hfind _ Hfst _ Hl]). cbn [walk_trie lookup_trie].
    destruct (Z.geb_spec off (zlen data)); [lia|]. rewrite (proj2 (Z.eqb_neq _ _) Ho), Hfind. cbn [mbind result_bind].
    pose proof (children_agree data cs offs b Hfst Hl) as Hb.
    destruct (child_at b cs) as [c|], (child_at b offs) as [o|]; try done. by apply IH.
Qed.

(** ** Lookups and entries *)

Lemma child_at_elem {A} b (c : A) cs : StronglySorted Z.lt (map fst cs) -> (b, c) ∈ cs -> child_at b cs = Some c.
Proof.
  induction cs as [|[x d] cs IH]; intros Hs Hin; [by apply not_elem_of_nil in Hin|].
  cbn [map fst] in Hs. inversion Hs as [|? ? Hs' Hlt]; subst. cbn [child_at].
  apply elem_of_cons in Hin as [[= -> ->]|Hin]; [by rewrite Z.eqb_refl|].
  apply Forall_fst in Hlt. rewrite Forall_forall in Hlt. specialize (Hlt _ Hin). cbn in Hlt.
  destruct (Z.eqb_spec x b); [lia|]. by apply IH.
Qed.

Lemma child_at_in {A} b (c : A) cs : child_at b cs = Some c -> (b, c) ∈ cs.
Proof.
  induction cs as [|[x d] cs IH]; [done|]. cbn [child_at]. destruct (Z.eqb_spec x b) as [->|].
  - intros [= ->]. by left.
  - intros H. right. by apply IH.
Qed.

Lemma entries_elem (k : list Z) (p : P) cs :
  (k, p) ∈ entries (Internal cs) <-> exists b k' c, k = b :: k' /\ (b, c) ∈ cs /\ (k', p) ∈ entries c.
Proof.
  rewrite entries_internal. split.
  - intros H. apply list_elem_of_In, in_concat in H as (l & Hl & Hin). apply in_map_iff in Hl as ([b c] & <- & Hc).
    unfold under in Hin. apply in_map_iff in Hin as ([k' p'] & [= <- <-] & Hin).
    exists b, k', c. split; [done|]. split; by apply list_elem_of_In.
  - intros (b & k' & c & -> & Hc & Hin). apply list_elem_of_In, in_concat. exists (under b (entries c)).
    split; [apply in_map_iff; exists (b, c); split; [done|by apply list_elem_of_In]|].
    unfold under. apply in_map_iff. exists (k', p). split; [done|by apply list_elem_of_In].
Qed.

Lemma lookup_trie_in : forall t k p, ordered ok t -> (k, p) ∈ entries t -> lookup_trie t k = Some p.
Proof.
  induction t as [q|cs IH] using trie_ind; intros k p Ho Hin.
  - cbn [entries] in Hin. apply list_elem_of_singleton in Hin as [= -> ->]. done.
  - apply entries_elem in Hin as (b & k' & c & -> & Hc & Hin). inversion Ho as [|? _ Hs _ Hoc]; subst.
    cbn [lookup_trie]. rewrite (child_at_elem b c cs Hs Hc). cbn [mbind option_bind].
    rewrite Forall_forall in IH, Hoc. by apply (IH (b, c) Hc k' p (Hoc (b, c) Hc)).
Qed.

Lemma lookup_trie_out : forall n t k,
  Forall (fun e => length e.1 = n) (entries t) -> length k = n -> lookup_trie t k <> None ->
  exists p, (k, p) ∈ entries t.
Proof.
  induction n as [|n IH]; intros [q|cs] k Hn Hk Hl.
  - exists q. destruct k; [by left|done].
  - by destruct k.
  - cbn [entries] in Hn. by apply Forall_cons in Hn as [? _].
  - destruct k as [|b k]; [done|]. cbn [lookup_trie] in Hl. destruct (child_at b cs) as [c|] eqn:Ec; [|done].
    cbn [mbind option_bind] in Hl. apply child_at_in in Ec. destruct (IH c k) as (p & Hp).
    + apply Forall_forall. intros [k' p'] Hin. rewrite Forall_forall in Hn.
      assert (length (b :: k') = S n) as E; [|by injection E].
      apply (Hn (b :: k', p')), entries_elem. by exists b, k', c.
    + by injection Hk.
    + done.
    + exists p. apply entries_elem. by exists b, k, c.
Qed.

(** ** The entries around a key *)

Definition key_gt (key : list Z) (e : list Z * P) : bool :=
  match bytes_cmp e.1 key with Gt => true | _ => false end.

(** The first entry after a key, the last one not after it. *)
Definition first_after (key : list Z) (es : list (list Z * P)) : option P :=
  snd <$> head (List.filter (key_gt key) es).
Definition last_upto (key : list Z) (es : list (list Z * P)) : option P :=
  snd <$> last (List.filter (fun e => negb (key_gt key e)) es).

Lemma key_gt_cons b key e : key_gt (b :: key) (b :: e.1, e.2) = key_gt key e.
Proof. unfold key_gt, bytes_cmp. cbn [fst list_cmp]. by rewrite Z.compare_refl. Qed.

Lemma filter_under (f : bool -> bool) b key es :
  List.filter (fun e => f (key_gt (b :: key) e)) (under b es) = under b (List.filter (fun e => f (key_gt key e)) es).
Proof.
  induction es as [|e es IH]; [done|]. cbn [under map List.filter]. rewrite key_gt_cons.
  unfold under in IH. destruct (f (key_gt key e)); cbn [map]; by rewrite IH.
Qed.

Lemma filter_kept {A} (f : A -> bool) l : Forall (fun x => f x = true) l -> List.filter f l = l.
Proof. induction 1 as [|x l Hx _ IH]; [done|]. cbn. by rewrite Hx, IH. Qed.

Lemma filter_dropped {A} (f : A -> bool) l : Forall (fun x => f x = false) l -> List.filter f l = [].
Proof. induction 1 as [|x l Hx _ IH]; [done|]. cbn. by rewrite Hx. Qed.

(** The entries below children of other bytes. *)
Lemma entries_gt (cs : list (Z * TrieBuildNode P)) b key :
  Forall (fun c => b < c.1) cs -> Forall (fun e => key_gt (b :: key) e = true) (entries (Internal cs)).
Proof.
  intros H. apply Forall_forall. intros [k p] Hin. apply entries_elem in Hin as (x & k' & c & -> & Hc & _).
  rewrite Forall_forall in H. specialize (H _ Hc). cbn in H. unfold key_gt, bytes_cmp. cbn [fst list_cmp].
  by rewrite (proj2 (Z.compare_gt_iff x b)).
Qed.

Lemma entries_lt (cs : list (Z * TrieBuildNode P)) b key :
  Forall (fun c => c.1 < b) cs -> Forall (fun e => key_gt (b :: key) e = false) (entries (Internal cs)).
Proof.
  intros H. apply Forall_forall. intros [k p] Hin. apply entries_elem in Hin as (x & k' & c & -> & Hc & _).
  rewrite Forall_forall in H. specialize (H _ Hc). cbn in H. unfold key_gt, bytes_cmp. cbn [fst list_cmp].
  by rewrite (proj2 (Z.compare_lt_iff x b)).
Qed.

Lemma entries_gt_nil (cs : list (Z * TrieBuildNode P)) :
  Forall (fun e => key_gt [] e = true) (entries (Internal cs)).
Proof. apply Forall_forall. intros [k p] Hin. by apply entries_elem in Hin as (x & k' & c & -> & _). Qed.

(** Children around a byte. *)
Lemma split_children {A} b (cs : list (Z * A)) :
  StronglySorted Z.lt (map fst cs) ->
  exists cs1 mid cs2, cs = cs1 ++ mid ++ cs2 /\ Forall (fun c => c.1 < b) cs1 /\ Forall (fun c => b < c.1) cs2 /\
    (mid = [] \/ exists c, mid = [(b, c)]).
Proof.
  induction cs as [|[x c] cs IH]; intros Hs.
  { exists [], [], []. repeat split; try constructor; done. }
  cbn [map fst] in Hs. inversion Hs as [|? ? Hs' Hlt]; subst. apply Forall_fst in Hlt.
  destruct (Z.lt_trichotomy x b) as [Hx|[->|Hx]].
  - destruct (IH Hs') as (cs1 & mid & cs2 & -> & H1 & H2 & Hm).
    exists ((x, c) :: cs1), mid, cs2. split; [done|]. split; [by constructor|done].
  - exists [], [(b, c)], cs. repeat split; [constructor|done|right; by exists c].
  - exists [], [], ((x, c) :: cs). repeat split; [constructor| |by left].
    constructor; [done|]. eapply Forall_impl; [exact Hlt|]. cbn. lia.
Qed.

Lemma search_split {A} (offs1 mid offs2 : list (Z * A)) b :
  Forall (fun c => c.1 < b) offs1 -> Forall (fun c => b < c.1) offs2 -> (mid = [] \/ exists o, mid = [(b, o)]) ->
  partition_point (fun c => c.1 <? b) (offs1 ++ mid ++ offs2) = length offs1.
Proof.
  intros H1 H2 Hm. apply partition_point_app.
  - eapply Forall_impl; [exact H1|]. intros c Hc. by apply Z.ltb_lt.
  - destruct Hm as [->|[o ->]]; cbn [app].
    + destruct H2 as [|c l Hc _]; [done|]. cbn in *. apply Z.ltb_ge. lia.
    + cbn. by rewrite Z.ltb_irrefl.
Qed.

Lemma search_found offs1 (o : Z) offs2 b :
  Forall (fun c => c.1 < b) offs1 -> Forall (fun c => b < c.1) offs2 ->
  search_children (offs1 ++ (b, o) :: offs2) (Some b) = mkChildSearch (length offs1) (Some (length offs1)).
Proof.
  intros H1 H2. unfold search_children.
  rewrite (search_split offs1 [(b, o)] offs2) by (try done; right; by exists o). cbv zeta.
  rewrite lookup_app_r, Nat.sub_diag by done. cbn [lookup list_lookup fst]. by rewrite Z.eqb_refl.
Qed.

Lemma search_missed (offs1 offs2 : list (Z * Z)) b :
  Forall (fun c => c.1 < b) offs1 -> Forall (fun c => b < c.1) offs2 ->
  search_children (offs1 ++ offs2) (Some b) = mkChildSearch (length offs1) None.
Proof.
  intros H1 H2. unfold search_children.
  rewrite (search_split offs1 [] offs2) by (try done; by left). cbv zeta. f_equal.
  rewrite lookup_app_r, Nat.sub_diag by done. destruct H2 as [|c l Hc _]; [done|]. cbn in *.
  by destruct (Z.eqb_spec c.1 b); [lia|].
Qed.

(** A child and where it was written. *)
Definition kid (data : list Z) (off : Z) (c : Z * TrieBuildNode P) (o : Z * Z) : Prop :=
  c.1 = o.1 /\ laid data o.2 c.2 /\ 0 <= o.2 < off.

Lemma inner_kids data off cs offs : inner data off cs offs -> Forall2 (kid data off) cs offs.
Proof.
  intros [_ _ _ _ _ _ Hf Hb Hl]. revert Hf Hb. induction Hl as [|c o cs offs Hco _ IH]; intros Hf Hb; constructor.
  - apply Forall_cons in Hb as [Hb _]. cbn [map] in Hf. split; [congruence|done].
  - apply Forall_cons in Hb as [_ Hb]. apply IH; [|done]. cbn [map] in Hf. congruence.
Qed.

Lemma kids_fst (Q : Z -> Prop) data off cs offs :
  Forall2 (kid data off) cs offs -> Forall (fun c => Q c.1) cs -> Forall (fun o => Q o.1) offs.
Proof.
  induction 1 as [|c o cs offs (Hf & _) _ IH]; intros H; constructor; apply Forall_cons in H as [Hc H]; [by rewrite <- Hf|by apply IH].
Qed.

Lemma fuel_step fuel off (o : Z) : (Z.to_nat off < S fuel)%nat -> 0 <= o < off -> (Z.to_nat o < fuel)%nat.
Proof. lia. Qed.

Lemma go_min_exact : forall t data off fuel,
  laid data off t -> ordered ok t -> (Z.to_nat off < fuel)%nat ->
  exists p, snd <$> head (entries t) = Some p /\ go_min read_payload fuel data off = Ok (view p).
Proof.
  induction t as [p|cs IH] using trie_ind; intros data off [|fuel] H Ho Hf; try lia.
  - destruct (laid_leaf_facts _ _ _ H) as (Hin & _ & Hr & _). exists p. split; [done|].
    cbn [go_min]. by rewrite Hr.
  - destruct (laid_inner _ _ _ H) as (offs & Hi). pose proof (inner_kids _ _ _ _ Hi) as Hk.
    destruct Hi as [Hin _ _ Hr _ (node & Hp & Hc) _ _ _]. cbn [go_min]. rewrite Hr. cbn [mbind result_bind].
    rewrite Hp. cbn [mbind result_bind]. rewrite Hc.
    inversion Ho as [|? Hne _ _ Hoc]; subst. destruct Hk as [|[b c] [b' o] cs offs (_ & Hl & Hb) _]; [done|].
    apply Forall_cons in IH as [IH _]. apply Forall_cons in Hoc as [Hoc _]. cbn [fst snd] in *.
    destruct (IH data o fuel Hl Hoc ltac:(lia)) as (p & Ep & Eg). exists p. split; [|done].
    change (entries (Internal ((b, c) :: cs))) with (under b (entries c) ++ entries (Internal cs)).
    by destruct (entries c).
Qed.

Lemma snoc_case {A} (l : list A) : l = [] \/ exists l' x, l = l' ++ [x].
Proof. destruct l as [|x l] using rev_ind; [by left|right; eauto]. Qed.

Lemma go_max_exact : forall t data off fuel,
  laid data off t -> ordered ok t -> (Z.to_nat off < fuel)%nat ->
  exists p, snd <$> last (entries t) = Some p /\ go_max read_payload fuel data off = Ok (view p).
Proof.
  induction t as [p|cs IH] using trie_ind; intros data off [|fuel] H Ho Hf; try lia.
  - destruct (laid_leaf_facts _ _ _ H) as (Hin & _ & Hr & node & Hp & Hc). exists p. split; [done|].
    cbn [go_max]. rewrite Hp. cbn [mbind result_bind]. by rewrite Hc, Hr.
  - destruct (laid_inner _ _ _ H) as (offs & Hi). pose proof (inner_kids _ _ _ _ Hi) as Hk.
    destruct Hi as [Hin _ _ _ _ (node & Hp & Hc) _ _ _]. cbn [go_max]. rewrite Hp. cbn [mbind result_bind]. rewrite Hc.
    inversion Ho as [|? Hne _ _ Hoc]; subst. destruct (snoc_case cs) as [->|(cs' & [b c] & ->)]; [done|].
    apply Forall2_app_inv_l in Hk as (offs' & l & _ & Hk & ->). inversion Hk as [|? [b' o] ? ? (_ & Hl & Hb) Hnil]; subst.
    inversion Hnil; subst. rewrite last_snoc.
    apply Forall_app in IH as [_ IH]. apply Forall_cons in IH as [IH _].
    apply Forall_app in Hoc as [_ Hoc]. apply Forall_cons in Hoc as [Hoc _]. cbn [fst snd] in *.
    destruct (IH data o fuel Hl Hoc ltac:(lia)) as (p & Ep & Eg). exists p. split; [|done].
    rewrite entries_app, entries_one. unfold under.
    destruct (snoc_case (entries c)) as [E|(es & e & E)]; rewrite E in *; [done|].
    rewrite last_snoc in Ep. rewrite map_app, app_assoc. cbn [map]. by rewrite last_snoc.
Qed.

(** A branch found by a walk: a subtree whose first (or last) entry has this payload. *)
Definition branch (pick : list (list Z * P) -> option (list Z * P)) (data : list Z) (r : option Z) (p : P) : Prop :=
  exists o t, r = Some o /\ laid data o t /\ ordered ok t /\ snd <$> pick (entries t) = Some p.

Lemma kid_branch pick data off c o :
  kid data off c o -> ordered ok c.2 -> forall p, snd <$> pick (entries c.2) = Some p ->
  branch pick data (Some o.2) p.
Proof. intros (_ & Hl & _) Ho p Hp. exists o.2, c.2. done. Qed.

(** The first (last) of some children, as a branch. *)
Lemma first_kid data off cs offs :
  Forall2 (kid data off) cs offs -> Forall (fun c => ordered ok c.2) cs ->
  match snd <$> head (entries (Internal cs)) with
  | Some p => exists o, offs !! 0%nat = Some o /\ branch head data (Some o.2) p
  | None => offs = []
  end.
Proof.
  intros [|[b c] o cs' offs' Hkid Hk'] Hoc; [done|]. apply Forall_cons in Hoc as [Hoc _].
  change (entries (Internal ((b, c) :: cs'))) with (under b (entries c) ++ entries (Internal cs')).
  pose proof (ordered_entries _ _ Hoc) as Hn. cbn [snd] in Hn.
  destruct (entries c) as [|[k p] es] eqn:Ee; [by destruct Hn|]. cbn.
  exists o. split; [done|]. apply (kid_branch head data off (b, c) o Hkid Hoc). cbn [snd]. by rewrite Ee.
Qed.

Lemma last_kid data off cs offs :
  Forall2 (kid data off) cs offs -> Forall (fun c => ordered ok c.2) cs ->
  match snd <$> last (entries (Internal cs)) with
  | Some p => exists o, last offs = Some o /\ branch last data (Some o.2) p
  | None => offs = []
  end.
Proof.
  intros Hk Hoc. destruct (snoc_case cs) as [->|(cs' & [b c] & ->)]; [by inversion Hk|].
  apply Forall2_app_inv_l in Hk as (offs' & l & _ & Hk & ->). inversion Hk as [|? o ? ? Hkid Hnil]; subst.
  inversion Hnil; subst. apply Forall_app in Hoc as [_ Hoc]. apply Forall_cons in Hoc as [Hoc _].
  pose proof (ordered_entries _ _ Hoc) as Hn. cbn [snd] in Hn. rewrite entries_app, entries_one. unfold under.
  destruct (snoc_case (entries c)) as [E|(es & [k p] & E)]; [by rewrite E in Hn|].
  rewrite E, map_app, app_assoc. cbn [map]. rewrite last_snoc. cbn. exists o. rewrite last_snoc. split; [done|].
  apply (kid_branch last data off (b, c) o Hkid Hoc). cbn [snd]. by rewrite E, last_snoc.
Qed.

Lemma after_under b key es : first_after (b :: key) (under b es) = first_after key es.
Proof.
  unfold first_after. rewrite (filter_under (fun x => x)). unfold under. by destruct (List.filter _ es).
Qed.

Lemma upto_under b key es : last_upto (b :: key) (under b es) = last_upto key es.
Proof.
  unfold last_upto. rewrite (filter_under negb). unfold under. set (l := List.filter _ es).
  destruct (snoc_case l) as [->|(l' & e & ->)]; [done|]. rewrite map_app. cbn [map]. by rewrite !last_snoc.
Qed.

(** Around a byte, the answer is below it, or at the nearest child beyond it. *)
Lemma after_split (cs1 mid cs2 : list (Z * TrieBuildNode P)) b key :
  Forall (fun c => c.1 < b) cs1 -> Forall (fun c => b < c.1) cs2 ->
  first_after (b :: key) (entries (Internal (cs1 ++ mid ++ cs2)))
  = match first_after (b :: key) (entries (Internal mid)) with
    | Some p => Some p
    | None => snd <$> head (entries (Internal cs2))
    end.
Proof.
  intros H1 H2. unfold first_after. rewrite !entries_app, !List.filter_app.
  rewrite (filter_dropped _ (entries (Internal cs1))) by (by apply entries_lt).
  rewrite (filter_kept _ (entries (Internal cs2))) by (by apply entries_gt).
  by destruct (List.filter _ (entries (Internal mid))).
Qed.

Lemma negb_all (f : list Z * P -> bool) es : Forall (fun e => f e = false) es -> Forall (fun e => negb (f e) = true) es.
Proof. intros H. eapply Forall_impl; [exact H|]. cbn. intros e. by destruct (f e). Qed.

Lemma negb_none (f : list Z * P -> bool) es : Forall (fun e => f e = true) es -> Forall (fun e => negb (f e) = false) es.
Proof. intros H. eapply Forall_impl; [exact H|]. cbn. intros e. by destruct (f e). Qed.

Lemma upto_split (cs1 mid cs2 : list (Z * TrieBuildNode P)) b key :
  Forall (fun c => c.1 < b) cs1 -> Forall (fun c => b < c.1) cs2 ->
  last_upto (b :: key) (entries (Internal (cs1 ++ mid ++ cs2)))
  = match last_upto (b :: key) (entries (Internal mid)) with
    | Some p => Some p
    | None => snd <$> last (entries (Internal cs1))
    end.
Proof.
  intros H1 H2. unfold last_upto. rewrite !entries_app, !List.filter_app.
  rewrite (filter_kept _ (entries (Internal cs1))) by (by apply negb_all, entries_lt).
  rewrite (filter_dropped _ (entries (Internal cs2))) by (by apply negb_none, entries_gt).
  rewrite app_nil_r. set (l := List.filter _ (entries (Internal mid))).
  destruct (snoc_case l) as [->|(l' & e & ->)]; [by rewrite app_nil_r|]. by rewrite app_assoc, !last_snoc.
Qed.

(** The children and their offsets around a byte. *)
Lemma split_kids data off cs offs b :
  Forall2 (kid data off) cs offs -> StronglySorted Z.lt (map fst cs) ->
  exists cs1 offs1 mid om cs2 offs2,
    cs = cs1 ++ mid ++ cs2 /\ offs = offs1 ++ om ++ offs2 /\
    Forall2 (kid data off) cs1 offs1 /\ Forall2 (kid data off) cs2 offs2 /\
    Forall (fun c => c.1 < b) cs1 /\ Forall (fun c => b < c.1) cs2 /\
    Forall (fun o => o.1 < b) offs1 /\ Forall (fun o => b < o.1) offs2 /\
    (mid = [] /\ om = [] \/ exists c o, mid = [(b, c)] /\ om = [(b, o)] /\ laid data o c /\ 0 <= o < off).
Proof.
  intros Hk Hs. destruct (split_children b cs Hs) as (cs1 & mid & cs2 & -> & H1 & H2 & Hm).
  apply Forall2_app_inv_l in Hk as (offs1 & l & Hk1 & Hk & ->). apply Forall2_app_inv_l in Hk as (om & offs2 & Hkm & Hk2 & ->).
  exists cs1, offs1, mid, om, cs2, offs2. repeat (split; [done|]).
  split; [by eapply (kids_fst (fun x => x < b))|]. split; [by eapply (kids_fst (fun x => b < x))|].
  destruct Hm as [->|[c ->]]; [left; by inversion Hkm|right].
  inversion Hkm as [|? [b' o] ? ? (Eb & Hl & Hb) Hnil]; subst. inversion Hnil; subst. cbn in Eb, Hl, Hb. subst b'.
  by exists c, o.
Qed.

Lemma ceiling_walk_exact : forall t data off fuel key gb,
  laid data off t -> ordered ok t -> (Z.to_nat off < fuel)%nat ->
  exists r, ceiling_walk fuel data off key gb = Ok r /\
    match first_after key (entries t) with Some p => branch head data r p | None => r = gb end.
Proof.
  induction t as [p|cs IH] using trie_ind; intros data off [|fuel] key gb H Ho Hf; try lia.
  - destruct (laid_leaf_facts _ _ _ H) as (Hin & _ & _ & node & Hp & Hc). exists gb.
    cbn [ceiling_walk]. rewrite Hp. cbn [mbind result_bind]. rewrite Hc. by destruct key.
  - destruct (laid_inner _ _ _ H) as (offs & Hi). pose proof (inner_kids _ _ _ _ Hi) as Hk.
    destruct Hi as [Hin _ _ _ _ (node & Hp & Hc) _ _ _]. cbn [ceiling_walk]. rewrite Hp. cbn [mbind result_bind]. rewrite Hc. clear Hc.
    inversion Ho as [|? Hne Hs _ Hoc]; subst. destruct key as [|b key].
    + cbn [head search_children exact insertion]. exists (match offs !! 0%nat with Some c => Some c.2 | None => gb end).
      split; [done|]. unfold first_after. rewrite filter_kept by apply entries_gt_nil.
      pose proof (first_kid data off cs offs Hk Hoc) as Hh. destruct (snd <$> head (entries (Internal cs))) as [p|].
      * destruct Hh as (o & -> & Hb). done.
      * by rewrite Hh.
    + destruct (split_kids data off cs offs b Hk Hs)
        as (cs1 & offs1 & mid & om & cs2 & offs2 & -> & -> & Hk1 & Hk2 & H1 & H2 & Ho1 & Ho2 & Hm).
      apply Forall_app in Hoc as [_ Hoc]. apply Forall_app in Hoc as [Hom Hoc2].
      pose proof (first_kid data off cs2 offs2 Hk2 Hoc2) as Hh. cbn [head tail]. rewrite after_split by done.
      destruct Hm as [[-> ->]|(c & o & -> & -> & Hl & Hb)]; cbn [app].
      * rewrite search_missed by done. cbn [exact insertion mbind option_bind].
        rewrite lookup_app_r, Nat.sub_diag by done. eexists. split; [done|].
        change (first_after (b :: key) (entries (Internal []))) with (@None P).
        destruct (snd <$> head (entries (Internal cs2))) as [p|]; [by destruct Hh as (o & -> & Hb)|by rewrite Hh].
      * rewrite search_found by done. cbn [exact insertion mbind option_bind].
        rewrite !lookup_app_r by lia. rewrite Nat.sub_diag. replace (S (length offs1) - length offs1)%nat with 1%nat by lia.
        cbn [lookup list_lookup snd].
        apply Forall_app in IH as [_ IH]. apply Forall_cons in IH as [IH _]. apply Forall_cons in Hom as [Hom _].
        destruct (IH data o fuel key (match offs2 !! 0%nat with Some c => Some c.2 | None => gb end) Hl Hom ltac:(lia)) as (r & Er & Hr).
        exists r. split; [done|]. rewrite entries_one, after_under. cbn [snd] in Hr.
        destruct (first_after key (entries c)) as [p|]; [done|]. subst r.
        destruct (snd <$> head (entries (Internal cs2))) as [p|]; [by destruct Hh as (o' & -> & Hb')|by rewrite Hh].
Qed.

Lemma floor_walk_exact : forall t data off fuel key pl lb,
  laid data off t -> ordered ok t -> (Z.to_nat off < fuel)%nat ->
  exists r, floor_walk read_payload fuel data off key pl lb = Ok r /\
    match last_upto key (entries t) with
    | Some p => r.1 = Some (view p) \/ r.1 = None /\ branch last data r.2 p
    | None => r = (pl, lb)
    end.
Proof.
  induction t as [p|cs IH] using trie_ind; intros data off [|fuel] key pl lb H Ho Hf; try lia.
  - destruct (laid_leaf_facts _ _ _ H) as (Hin & _ & Hr & node & Hp & Hc). exists (Some (view p), lb).
    cbn [floor_walk]. rewrite Hp. cbn [mbind result_bind]. rewrite Hc, Hr. destruct key; (split; [done|by left]).
  - destruct (laid_inner _ _ _ H) as (offs & Hi). pose proof (inner_kids _ _ _ _ Hi) as Hk.
    destruct Hi as [Hin _ _ Hr _ (node & Hp & Hc) _ _ _]. cbn [floor_walk]. rewrite Hp. cbn [mbind result_bind]. rewrite Hc. clear Hc.
    inversion Ho as [|? Hne Hs _ Hoc]; subst. destruct key as [|b key].
    + cbn [head search_children exact insertion]. rewrite Hr. exists (pl, lb). split; [done|].
      unfold last_upto. rewrite filter_dropped; [done|]. apply negb_none, entries_gt_nil.
    + destruct (split_kids data off cs offs b Hk Hs)
        as (cs1 & offs1 & mid & om & cs2 & offs2 & -> & -> & Hk1 & Hk2 & H1 & H2 & Ho1 & Ho2 & Hm).
      apply Forall_app in Hoc as [Hoc1 Hoc]. apply Forall_app in Hoc as [Hom _].
      pose proof (last_kid data off cs1 offs1 Hk1 Hoc1) as Hh. cbn [head tail]. rewrite upto_split by done.
      (* The state after this node. *)
      assert (Hst : exists pl' lb',
        (match length offs1 with
         | O => p ← read_payload data off; Ok (match p with Some _ => p | None => pl end, lb)
         | S i => Ok (None, snd <$> (offs1 ++ om ++ offs2) !! i)
         end) = Ok (pl', lb') /\
        match snd <$> last (entries (Internal cs1)) with
        | Some p => pl' = None /\ branch last data lb' p
        | None => (pl', lb') = (pl, lb)
        end).
      { destruct (snoc_case offs1) as [->|(offs' & o & ->)].
        - exists pl, lb. cbn [length]. rewrite Hr. split; [done|]. inversion Hk1; subst. done.
        - rewrite length_app, Nat.add_comm. cbn [length Nat.add]. eexists _, _. split; [done|].
          destruct (snd <$> last (entries (Internal cs1))) as [p|]; [|by destruct offs'].
          destruct Hh as (o' & Eo & Hb). rewrite last_snoc in Eo. injection Eo as <-. split; [done|].
          rewrite <- app_assoc, lookup_app_r, Nat.sub_diag by done. done. }
      destruct Hst as (pl' & lb' & Est & Hst).
      destruct Hm as [[-> ->]|(c & o & -> & -> & Hl & Hb)]; cbn [app] in *.
      * rewrite search_missed by done. cbn [exact insertion]. rewrite Est. cbn [mbind result_bind option_bind].
        exists (pl', lb'). split; [done|]. change (last_upto (b :: key) (entries (Internal []))) with (@None P).
        destruct (snd <$> last (entries (Internal cs1))) as [p|]; [by right|done].
      * rewrite search_found by done. cbn [exact insertion]. rewrite Est. cbn [mbind result_bind option_bind].
        rewrite lookup_app_r, Nat.sub_diag by done. cbn [lookup list_lookup snd].
        apply Forall_app in IH as [_ IH]. apply Forall_cons in IH as [IH _]. apply Forall_cons in Hom as [Hom _].
        destruct (IH data o fuel key pl' lb' Hl Hom ltac:(lia)) as (r & Er & Hr').
        exists r. split; [done|]. rewrite entries_one, upto_under. cbn [snd] in Hr'.
        destruct (last_upto key (entries c)) as [p|]; [done|]. subst r.
        destruct (snd <$> last (entries (Internal cs1))) as [p|]; [by right|done].
Qed.

Lemma laid_inside t data off : laid data off t -> 0 <= off < zlen data.
Proof.
  destruct t; intros H; [by apply laid_leaf_facts in H as [? _]|]. by apply laid_inner in H as (? & [? _]).
Qed.

Lemma walk_fuel_enough (data : list Z) o : 0 <= o < zlen data -> (Z.to_nat o < walk_fuel data)%nat.
Proof. unfold walk_fuel, zlen. lia. Qed.

Lemma floor_exact t data off key :
  laid data off t -> ordered ok t -> floor read_payload data off key = Ok (view <$> last_upto key (entries t)).
Proof.
  intros H Ho. unfold floor.
  destruct (floor_walk_exact t data off (walk_fuel data) key None None H Ho (walk_fuel_enough _ _ (laid_inside _ _ _ H)))
    as ([pl lb] & -> & Hr).
  cbn [mbind result_bind]. destruct (last_upto key (entries t)) as [p|]; [|by injection Hr as -> ->].
  cbn [fst snd] in Hr. destruct Hr as [-> |[-> (o & t' & -> & Hl & Ho' & Hp)]]; [done|].
  destruct (go_max_exact t' data o (walk_fuel data) Hl Ho' (walk_fuel_enough _ _ (laid_inside _ _ _ Hl))) as (p' & Ep & ->).
  rewrite Hp in Ep. by injection Ep as <-.
Qed.

Lemma strict_ceiling_exact t data off key :
  laid data off t -> ordered ok t ->
  strict_ceiling read_payload data off key = Ok (view <$> first_after key (entries t)).
Proof.
  intros H Ho. unfold strict_ceiling.
  destruct (ceiling_walk_exact t data off (walk_fuel data) key None H Ho (walk_fuel_enough _ _ (laid_inside _ _ _ H))) as (r & -> & Hr).
  cbn [mbind result_bind]. destruct (first_after key (entries t)) as [p|]; [|by subst].
  destruct Hr as (o & t' & -> & Hl & Ho' & Hp).
  destruct (go_min_exact t' data o (walk_fuel data) Hl Ho' (walk_fuel_enough _ _ (laid_inside _ _ _ Hl))) as (p' & Ep & ->).
  rewrite Hp in Ep. by injection Ep as <-.
Qed.
End Laid.

(** ** The writer succeeds *)

Section Total.
Context {P : Type} (write_leaf : P -> list Z -> result Error (Z * list Z)) (ok : P -> Prop) (leaf_size : Z).
Context (leaf_total : forall p buf, ok p ->
  exists o buf', write_leaf p buf = Ok (o, buf') /\ zlen buf <= o <= zlen buf' /\ zlen buf' <= zlen buf + leaf_size).

(** A bound on the bytes of a trie. *)
Fixpoint weight (t : TrieBuildNode P) : Z :=
  match t with
  | Leaf _ => leaf_size
  | Internal cs => 3 + zsum (map (fun c => 9 + weight c.2) cs)
  end.

Definition entries_weight (es : list (list Z * P)) : Z := zsum (map (fun e => 12 * zlen e.1 + leaf_size) es).

Lemma weight_nonneg t : 0 <= leaf_size -> 0 <= weight t.
Proof.
  intros Hl. induction t as [p|cs IH] using trie_ind; cbn [weight]; [done|].
  assert (0 <= zsum (map (fun c => 9 + weight c.2) cs)); [|lia]. apply zsum_nonneg, Forall_map.
  eapply Forall_impl; [exact IH|]. cbn. lia.
Qed.

Lemma weight_entries t : ordered ok t -> 0 <= leaf_size -> weight t <= entries_weight (entries t).
Proof.
  intros Ho Hl. induction t as [p|cs IH] using trie_ind.
  { unfold entries_weight, zsum, zlen. cbn [entries map foldr fst length weight]. lia. }
  inversion Ho as [|? Hne _ _ Hoc]; subst. cbn [weight].
  assert (G : zsum (map (fun c => 9 + weight c.2) cs) + 3 * zlen cs <= entries_weight (entries (Internal cs))).
  { clear Ho Hne. induction cs as [|[b c] cs IHcs]; [done|].
    apply Forall_cons in IH as [IHc IH]. apply Forall_cons in Hoc as [Hc Hoc]. specialize (IHcs IH Hoc). specialize (IHc Hc).
    change (entries (Internal ((b, c) :: cs))) with (under b (entries c) ++ entries (Internal cs)).
    unfold entries_weight in *. rewrite map_app, zsum_app. cbn [map]. rewrite zsum_cons, zlen_cons. cbn [snd] in *.
    assert (E : forall es, zsum (map (fun e : list Z * P => 12 * zlen e.1 + leaf_size) (under b es))
      = zsum (map (fun e => 12 * zlen e.1 + leaf_size) es) + 12 * zlen es).
    { clear. induction es as [|e es IH]; [done|]. cbn [under map] in *. rewrite !zsum_cons, !zlen_cons. cbn [fst].
      rewrite zlen_cons. unfold under in IH. lia. }
    rewrite E. pose proof (ordered_entries _ _ Hc) as Hn. destruct (entries c) as [|e es]; [by destruct Hn|].
    rewrite zlen_cons. pose proof (zlen_nonneg es). lia. }
  destruct cs as [|c cs]; [done|]. rewrite zlen_cons in G. pose proof (zlen_nonneg cs). lia.
Qed.

Lemma sorted_bytes_length l : StronglySorted Z.lt l -> Forall is_byte l -> zlen l <= 256.
Proof.
  intros Hs Hb. enough (G : forall l a, StronglySorted Z.lt l -> Forall (fun x => a <= x < 256) l -> zlen l <= Z.max 0 (256 - a)).
  { apply (G l 0 Hs). eapply Forall_impl; [exact Hb|]. intros x [H1 H2]. change (2 ^ 8) with 256 in H2. lia. }
  clear. induction l as [|x l IH]; intros a Hs Hr; [unfold zlen; cbn [length]; lia|].
  inversion Hs as [|? ? Hs' Hlt]; subst. apply Forall_cons in Hr as [Hx Hr]. cbn in Hx. rewrite zlen_cons.
  specialize (IH (x + 1) Hs'). assert (zlen l <= Z.max 0 (256 - (x + 1))); [|lia]. apply IH.
  apply Forall_forall. intros y Hy. rewrite Forall_forall in Hlt, Hr. specialize (Hlt y Hy). specialize (Hr y Hy). cbn in Hr. lia.
Qed.

Lemma emit_total cs buf :
  0 < zlen cs <= 256 -> Forall (fun c => 0 <= c.2) cs -> zlen buf < 2 ^ 40 ->
  exists o buf', emit_internal cs buf = Ok (o, buf') /\ o = zlen buf /\
    zlen buf <= zlen buf' /\ zlen buf' <= zlen buf + 3 + 9 * zlen cs.
Proof.
  intros Hl Hpos Hb. pose proof (zlen_nonneg buf).
  assert (Hm : max_delta (zlen buf) cs <= 2 ^ 40 - 1).
  { unfold max_delta. clear Hl. induction Hpos as [|c cs Hc _ IH]; cbn [map foldr]; [lia|]. lia. }
  assert (Hok : exists o buf', emit_internal cs buf = Ok (o, buf')).
  { unfold emit_internal, write_dense, write_sparse. destruct (Z.eqb_spec (zlen cs) 256).
    - cbn [negb]. destruct (dense_ordinal_for_delta _). eauto.
    - destruct (Z.eqb_spec (zlen cs) 0); [lia|]. destruct (Z.gtb_spec (zlen cs) 255); [lia|].
      assert (exists op, sparse_ordinal_for_delta (max_delta (zlen buf) cs) = Ok op) as [[ord p] ->]; [|eauto].
      unfold sparse_ordinal_for_delta. repeat case_zb; eauto. exfalso. change (2 ^ 40) with 1099511627776 in *. lia. }
  destruct Hok as (o & buf' & E). exists o, buf'. split; [done|].
  destruct (emit_shape cs buf o buf' E Hpos ltac:(change (2 ^ 40) with 1099511627776 in *; lia)) as (-> & sparse & ord & p & (Hf & _) & Ha).
  split; [done|]. split; [by eapply emit_grows|]. rewrite (Ha buf eq_refl) in E. injection E as <-. rewrite !zlen_app, deltas_length.
  destruct Hf as (_ & _ & Hp & _). rewrite Z2Nat.id by lia.
  assert (zlen (node_head sparse ord cs) <= 3 + zlen cs); [|nia].
  destruct sparse; cbn [node_head app]; rewrite !zlen_cons; unfold zlen; [rewrite length_map|cbn [length]]; lia.
Qed.

Lemma write_node_total : forall t buf,
  ordered ok t -> 0 <= leaf_size -> zlen buf + weight t <= 2 ^ 40 ->
  exists off buf', write_node write_leaf t buf = Ok (off, buf') /\ zlen buf <= off <= zlen buf' /\ zlen buf' <= zlen buf + weight t.
Proof.
  induction t as [p|cs IH] using trie_ind; intros buf Ho Hsz Hb.
  { inversion Ho; subst. cbn [write_node weight] in *. by apply leaf_total. }
  inversion Ho as [|? Hne Hs Hby Hoc]; subst. cbn [write_node weight] in *.
  assert (G : forall buf, zlen buf + zsum (map (fun c => 9 + weight c.2) cs) <= 2 ^ 40 ->
    exists offs buf', write_each (write_node write_leaf) cs buf = Ok (offs, buf') /\ zlen offs = zlen cs /\
      Forall (fun c => 0 <= c.2) offs /\ zlen buf <= zlen buf' /\
      zlen buf' + 9 * zlen cs <= zlen buf + zsum (map (fun c => 9 + weight c.2) cs)).
  { clear Hne Hs Hby Hb Ho. clear buf. induction cs as [|[b c] cs IHcs]; intros buf Hb.
    - exists [], buf. split; [done|]. split; [done|]. split; [constructor|]. unfold zlen, zsum. cbn [length map foldr]. lia.
    - apply Forall_cons in IH as [IHc IH]. apply Forall_cons in Hoc as [Hc Hoc]. cbn [map snd] in *. rewrite zsum_cons in *.
      assert (Hpos : 0 <= zsum (map (fun c => 9 + weight c.2) cs)).
      { apply zsum_nonneg, Forall_map, Forall_true. intros [x d]. cbn [snd]. pose proof (weight_nonneg d Hsz). lia. }
      destruct (IHc buf Hc Hsz ltac:(lia)) as (off & buf1 & E1 & Ho & Hb1). cbn [write_each]. rewrite E1. cbn [mbind result_bind].
      destruct (IHcs IH Hoc buf1 ltac:(lia)) as (offs & buf2 & E2 & Hl & Hp & Hg & Hb2). rewrite E2. cbn [mbind result_bind].
      exists ((b, off) :: offs), buf2. rewrite !zlen_cons. split; [done|]. split; [lia|].
      split; [constructor; [cbn; pose proof (zlen_nonneg buf); lia|done]|lia]. }
  destruct (G buf ltac:(lia)) as (offs & buf1 & E1 & Hl & Hp & Hg & Hb1). rewrite E1. cbn [mbind result_bind].
  assert (Hlen : 0 < zlen cs <= 256).
  { split; [destruct cs; [done|rewrite zlen_cons; pose proof (zlen_nonneg cs); lia]|].
    pose proof (sorted_bytes_length (map fst cs) Hs) as Hb'. unfold zlen in *. rewrite length_map in Hb'.
    apply Hb', Forall_fst. exact Hby. }
  destruct (emit_total offs buf1 ltac:(lia) Hp ltac:(lia)) as (o & buf2 & -> & -> & Hb2 & Hb3).
  exists (zlen buf1), buf2. split; [done|]. split; [lia|]. rewrite Hl in Hb3. lia.
Qed.
End Total.
