(* ===== verification/BtiPartitions.v ===== *)
(** The partition index of the trie-indexed format, Partitions.db: its writer
    ([writer/partitions_writer.rs]) and its readers ([bti/parser/partitions.rs],
    [slice_walk.rs], [partition_successor_walk.rs]).

    A partition is filed under nine bytes made of its token; its leaf holds a hash byte and
    a position, negative for an offset in Data.db and not negative for one in Rows.db. The
    writer emits the trie in one sweep over the sorted entries, and holds only the path to
    the last leaf. *)

From S2P Require Import Prelude Murmur3 Values VInt Oss50 BtiNodes BtiTrie BtiTree BtiWalks.

Open Scope Z_scope.

(** ** The key of a partition *)

Definition encode_bti_trie_key_from_token (token : Z) : list Z :=
  0x40 :: be_bytes 8 (Z.lxor (as_u64 token) 0x8000000000000000).

(** [encode_partition_key_for_bti_trie], and its variant that does not count. *)
Definition encode_partition_key_for_bti_trie (raw_key_bytes : list Z) : list Z :=
  encode_bti_trie_key_from_token (cassandra_murmur3_token raw_key_bytes).

(** ** Writing *)

Inductive PartitionPayload := ToDataOffset (offset : Z) | ToRowsOffset (offset : Z).

Definition FLAG_HAS_HASH_BYTE : Z := 8.

(** A leaf's hash byte and payload. *)
Definition leaf_position (payload : PartitionPayload) : result Error Z :=
  match payload with
  | ToDataOffset data_offset => if data_offset >? i64_MAX then Err InvalidInput else Ok (Z.lnot (as_i64 data_offset))
  | ToRowsOffset rows_offset => if rows_offset >? i64_MAX then Err InvalidInput else Ok (as_i64 rows_offset)
  end.

Definition write_leaf (leaf : Z * PartitionPayload) (buf : list Z) : result Error (Z * list Z) :=
  let '(hash_byte, payload) := leaf in
  position ← leaf_position payload;
  let position_bytes := sized_ints_non_zero_size position in
  let payload_bits := FLAG_HAS_HASH_BYTE + (position_bytes - 1) in
  let offset := zlen buf in
  let header := Z.land payload_bits 0x0F in
  Ok (offset, write_sized_int_be (buf ++ [header] ++ [hash_byte]) position position_bytes).

Record PartitionTrieEntry := mkTrieEntry {
  te_key : list Z;
  te_hash_byte : Z;
  te_payload : PartitionPayload;
}.

(** *** The single sweep *)

Definition PARTITION_TRIE_KEY_LEN : nat := 9.

Record PendingNode := mkPendingNode { transition_byte : Z; child_offsets : list (Z * Z) }.

Definition push_child (node : PendingNode) (c : Z * Z) : PendingNode :=
  mkPendingNode (transition_byte node) (child_offsets node ++ [c]).

(** The stack, deepest node first. *)
Definition push_deepest (stack : list PendingNode) (c : Z * Z) : list PendingNode :=
  match stack with
  | [] => []
  | node :: stack => push_child node c :: stack
  end.

Definition pop_and_link (stack : list PendingNode) (buf : list Z) : result Error (list PendingNode * list Z) :=
  match stack with
  | [] => Ok ([], buf)
  | node :: stack =>
      '(off, buf) ← emit_internal (child_offsets node) buf;
      Ok (push_deepest stack (transition_byte node, off), buf)
  end.

(** [while stack.len() > bound { pop_and_link }] *)
Fixpoint pop_while (fuel bound : nat) (stack : list PendingNode) (buf : list Z) :
    result Error (list PendingNode * list Z) :=
  match fuel with
  | O => Ok (stack, buf)
  | S fuel =>
      if (length stack <=? bound)%nat then Ok (stack, buf)
      else '(stack, buf) ← pop_and_link stack buf; pop_while fuel bound stack buf
  end.

(** [while l < 9 && key[l] == prev[l]] *)
Fixpoint lcp (key prev : list Z) : nat :=
  match key, prev with
  | b :: key, b' :: prev => if b =? b' then S (lcp key prev) else O
  | _, _ => O
  end.

(** [while stack.len() < 9]: one new node per depth that is missing. *)
Fixpoint extend_path (missing : nat) (key : list Z) (stack : list PendingNode) : list PendingNode :=
  match missing with
  | O => stack
  | S missing =>
      let depth := length stack in
      let transition_byte := match depth with O => 0 | S d => nth d key 0 end in
      extend_path missing key (mkPendingNode transition_byte [] :: stack)
  end.

Definition emit_entry (stack : list PendingNode) (prev_key : option (list Z)) (entry : PartitionTrieEntry)
    (buf : list Z) : result Error (list PendingNode * list Z) :=
  let key := te_key entry in
  let l := match prev_key with None => O | Some prev => lcp key prev end in
  '(stack, buf) ← pop_while (length stack) (l + 1) stack buf;
  let stack := extend_path (PARTITION_TRIE_KEY_LEN - length stack) key stack in
  '(leaf_off, buf) ← write_leaf (te_hash_byte entry, te_payload entry) buf;
  Ok (push_deepest stack (nth (PARTITION_TRIE_KEY_LEN - 1) key 0, leaf_off), buf).

Fixpoint emit_entries (entries : list PartitionTrieEntry) (stack : list PendingNode) (prev_key : option (list Z))
    (buf : list Z) : result Error (list PendingNode * list Z) :=
  match entries with
  | [] => Ok (stack, buf)
  | entry :: entries =>
      '(stack, buf) ← emit_entry stack prev_key entry buf;
      emit_entries entries stack (Some (te_key entry)) buf
  end.

Definition emit_partitions_trie (entries : list PartitionTrieEntry) (buf : list Z) : result Error (Z * list Z) :=
  match entries with
  | [] => Err InvalidInput
  | _ =>
      '(stack, buf) ← emit_entries entries [] None buf;
      '(stack, buf) ← pop_while (length stack) 1 stack buf;
      match stack with
      | root :: _ => emit_internal (child_offsets root) buf
      | [] => Err InvalidInput
      end
  end.

(** *** The writer *)

Record PartitionsTrieWriter := mkPartitionsWriter {
  pw_entries : list PartitionTrieEntry;
  first_raw : option (list Z * list Z);
  last_raw : option (list Z * list Z);
}.

Definition partitions_new : PartitionsTrieWriter := mkPartitionsWriter [] None None.

Definition add_partition_with_payload (w : PartitionsTrieWriter) (raw_key_bytes : list Z) (payload : PartitionPayload) :
    PartitionsTrieWriter :=
  let '(h1, h2) := cassandra_murmur3_x64_128 raw_key_bytes in
  let key := encode_bti_trie_key_from_token (cassandra_murmur3_normalize_token h1) in
  let hash_byte := as_u8 h2 in
  let boundary (keep : comparison -> bool) (cur : option (list Z * list Z)) :=
    match cur with
    | Some (k, _) => if keep (bytes_cmp key k) then cur else Some (key, raw_key_bytes)
    | None => Some (key, raw_key_bytes)
    end in
  mkPartitionsWriter
    (pw_entries w ++ [mkTrieEntry key hash_byte payload])
    (boundary (fun c => match c with Lt => false | _ => true end) (first_raw w))
    (boundary (fun c => match c with Gt => false | _ => true end) (last_raw w)).

Definition add_partition (w : PartitionsTrieWriter) (raw_key_bytes : list Z) (data_offset : Z) : PartitionsTrieWriter :=
  add_partition_with_payload w raw_key_bytes (ToDataOffset data_offset).

Definition write_with_short_length (buf bytes : list Z) : result Error (list Z) :=
  if zlen bytes >? 65535 then Err InvalidInput else Ok (buf ++ be_bytes 2 (zlen bytes) ++ bytes).

Definition trie_entry_cmp (a b : PartitionTrieEntry) : comparison := bytes_cmp (te_key a) (te_key b).

(** [entries.windows(2)]: two neighbours with the same key. *)
Fixpoint has_duplicate (entries : list PartitionTrieEntry) : bool :=
  match entries with
  | a :: (b :: _) as rest => bool_decide (te_key a = te_key b) || has_duplicate rest
  | _ => false
  end.

Definition partitions_finish (w : PartitionsTrieWriter) : result Error (list Z) :=
  match pw_entries w with
  | [] => Ok []
  | _ =>
      let entries := sort_by trie_entry_cmp (pw_entries w) in
      if has_duplicate entries then Err InvalidInput
      else
        let first_key := from_option snd [] (first_raw w) in
        let last_key := from_option snd [] (last_raw w) in
        let key_count := as_i64 (zlen entries) in
        '(root_offset, buf) ← emit_partitions_trie entries [];
        let first_pos := as_i64 (zlen buf) in
        buf ← write_with_short_length buf first_key;
        buf ← write_with_short_length buf last_key;
        Ok (buf ++ be_bytes 8 first_pos ++ be_bytes 8 key_count ++ be_bytes 8 (as_i64 root_offset))
  end.

(** ** Reading *)

Inductive BtiPartitionLocation := DataOffset (offset : Z) | RowsOffset (offset : Z).

Definition decode_bti_partition_payload (trie_data : list Z) (payload_start payload_bits : Z) :
    result Error BtiPartitionLocation :=
  if payload_bits <? FLAG_HAS_HASH_BYTE then Err Parse
  else if payload_bits >? 16 then Err Parse
  else
    let position_bytes := payload_bits - FLAG_HAS_HASH_BYTE + 1 in
    let needed := 1 + position_bytes in
    if payload_start + needed >? zlen trie_data then Err Parse
    else
      position ← sized_ints_read_from_slice (sub_bytes trie_data (payload_start + 1) position_bytes);
      Ok (if position <? 0 then DataOffset (as_u64 (Z.lnot position)) else RowsOffset (as_u64 position)).

Definition read_node_payload_with (parsed : option BtiNode) (trie_data : list Z) (node_offset : Z) :
    result Error (option BtiPartitionLocation) :=
  if node_offset >=? zlen trie_data then Err Parse
  else
    let header_byte := byte_of trie_data node_offset in
    let ordinal := Z.land (Z.shiftr header_byte 4) 0x0F in
    let payload_flags := Z.land header_byte 0x0F in
    if (ordinal =? 1) || (ordinal =? 3) then Ok None
    else if ordinal =? 0 then
      if payload_flags =? 0 then Err Parse
      else loc ← decode_bti_partition_payload trie_data (node_offset + 1) payload_flags; Ok (Some loc)
    else if negb (payload_flags =? 0) then
      node ← match parsed with
             | Some n => Ok n
             | None => parse_bti_node (drop (Z.to_nat node_offset) trie_data) node_offset
             end;
      loc ← decode_bti_partition_payload trie_data (payload_start_in_node node trie_data node_offset) payload_flags;
      Ok (Some loc)
    else Ok None.

Definition read_node_payload := read_node_payload_with None.

Definition walk_bti_trie := walk_trie read_node_payload.

(** The trie and the root of a file: the last eight bytes point to it. *)
Definition footer (file_bytes : list Z) : result Error (list Z * Z) :=
  let file_size := zlen file_bytes in
  if file_size <? 8 then Err Parse
  else
    let trie_size := file_size - 8 in
    let root_offset := from_be (sub_bytes file_bytes trie_size 8) in
    if root_offset >=? trie_size then Err Parse
    else Ok (take (Z.to_nat trie_size) file_bytes, root_offset).

(** [lookup_partition_in_bti_slice]; [lookup_partition_in_bti_file] reads the same file. *)
Definition lookup_partition_in_bti_slice (file_bytes encoded_key : list Z) :
    result Error (option BtiPartitionLocation) :=
  '(trie_data, root_offset) ← footer file_bytes;
  walk_bti_trie trie_data root_offset encoded_key.

Definition lookup_raw_key_in_bti_partitions_db (file_bytes raw_key_bytes : list Z) :
    result Error (option BtiPartitionLocation) :=
  lookup_partition_in_bti_slice file_bytes (encode_partition_key_for_bti_trie raw_key_bytes).

Definition partition_strict_ceiling_location := strict_ceiling read_node_payload.

Definition partition_successor_in_bti_slice (file_bytes encoded_key : list Z) :
    result Error (option BtiPartitionLocation) :=
  '(trie_data, root_offset) ← footer file_bytes;
  partition_strict_ceiling_location trie_data root_offset encoded_key.
