(* ===== verification/BtiSweep.v ===== *)
(** The single sweep of [emit_partitions_trie] against the writer of the whole trie: on
    sorted keys of nine bytes both give the same bytes, and fail together. The stack of
    the sweep is the right spine of the trie built so far, every subtree to the left of
    it being written. *)

From S2P Require Import Prelude Values VInt BtiNodes BtiTrie BtiTree BtiWalks BtiPartitions.

Open Scope Z_scope.

Section Sweep.
Abbreviation T := (TrieBuildNode (Z * PartitionPayload)).
Abbreviation wn := (write_node write_leaf).

(** What the sweep has done with a trie of depth [d] but for the nodes on its right
    spine: the pending nodes, deepest first, and the bytes written. *)
Fixpoint spine (d : nat) (tb : Z) (t : T) (buf : list Z) : result Error (list PendingNode * list Z) :=
  match d, t with
  | S d', Internal cs =>
      match last cs with
      | Some (b, c) =>
          '(offs, buf) ← write_each wn (removelast cs) buf;
          match d' with
          | O => '(off, buf) ← wn c buf; Ok ([mkPendingNode tb (offs ++ [(b, off)])], buf)
          | S _ => '(st, buf) ← spine d' b c buf; Ok (st ++ [mkPendingNode tb offs], buf)
          end
      | None => Ok ([mkPendingNode tb []], buf)
      end
  | _, _ => Ok ([], buf)
  end.

(** Every leaf is [d] levels down. *)
Fixpoint uniform (d : nat) (t : T) : Prop :=
  match d, t with
  | O, Leaf _ => True
  | S d, Internal cs => cs <> [] /\ Forall (fun c => uniform d c.2) cs
  | _, _ => False
  end.

Lemma ordered_uniform ok d : forall t,
  ordered ok t -> Forall (fun e => length e.1 = d) (entries t) -> uniform d t.
Proof.
  induction d as [|d IH]; intros [p|cs] Ho Hl; cbn [uniform]; [done|..].
  - inversion Ho as [|? Hne _ _ Hc]; subst. destruct cs as [|[b c] cs]; [done|].
    apply Forall_cons in Hc as [Hc _]. pose proof (ordered_entries _ _ Hc) as Hn. cbn [snd] in Hn.
    change (entries (Internal ((b, c) :: cs))) with (under b (entries c) ++ entries (Internal cs)) in Hl.
    apply Forall_app in Hl as [Hl _]. destruct (entries c); [done|]. cbn [under map] in Hl. by apply Forall_cons in Hl as [? _].
  - cbn [entries] in Hl. by apply Forall_cons in Hl as [? _].
  - inversion Ho as [|? Hne _ _ Hc]; subst. split; [done|]. apply Forall_forall. intros [b c] Hin.
    apply (IH c (proj1 (Forall_forall _ _) Hc _ Hin)). apply Forall_forall. intros [k p] Hk.
    assert (length (b :: k) = S d) as E; [|by injection E].
    apply (proj1 (Forall_forall _ _) Hl (b :: k, p)), entries_elem. by exists b, k, c.
Qed.

Lemma spine_snoc d tb cs b c buf :
  spine (S d) tb (Internal (cs ++ [(b, c)])) buf
  = '(offs, buf) ← write_each wn cs buf;
    match d with
    | O => '(off, buf) ← wn c buf; Ok ([mkPendingNode tb (offs ++ [(b, off)])], buf)
    | S _ => '(st, buf) ← spine d b c buf; Ok (st ++ [mkPendingNode tb offs], buf)
    end.
Proof. cbn [spine]. by rewrite last_snoc, removelast_last. Qed.

Lemma spine_one d tb b c buf :
  spine (S d) tb (Internal [(b, c)]) buf
  = match d with
    | O => '(off, buf) ← wn c buf; Ok ([mkPendingNode tb [(b, off)]], buf)
    | S _ => '(st, buf) ← spine d b c buf; Ok (st ++ [mkPendingNode tb []], buf)
    end.
Proof. apply (spine_snoc d tb [] b c buf). Qed.

Lemma write_each_snoc cs b c buf :
  write_each wn (cs ++ [(b, c)]) buf
  = '(offs, buf) ← write_each wn cs buf; '(off, buf) ← wn c buf; Ok (offs ++ [(b, off)], buf).
Proof.
  revert buf. induction cs as [|[b' c'] cs IH]; intros buf; cbn [write_each app].
  - cbn [mbind result_bind]. destruct (wn c buf) as [[off buf']|]; done.
  - destruct (wn c' buf) as [[off buf']|]; [|done]. cbn [mbind result_bind]. rewrite IH.
    destruct (write_each wn cs buf') as [[offs buf2]|]; [|done]. cbn [mbind result_bind].
    by destruct (wn c buf2) as [[off2 buf3]|].
Qed.

Lemma uniform_snoc d t : uniform (S d) t ->
  exists cs b c, t = Internal (cs ++ [(b, c)]) /\ uniform d c.
Proof.
  destruct t as [p|cs]; [done|]. intros [Hne Hu]. destruct (snoc_case cs) as [->|(cs' & [b c] & ->)]; [done|].
  exists cs', b, c. split; [done|]. apply Forall_app in Hu as [_ Hu]. by apply Forall_cons in Hu as [Hu _].
Qed.

(** *** Popping *)

Definition pops (bound : nat) (stack : list PendingNode) (buf : list Z) := pop_while (length stack) bound stack buf.

Lemma push_deepest_length stack c : length (push_deepest stack c) = length stack.
Proof. by destruct stack. Qed.

Lemma pops_done bound stack buf : (length stack <= bound)%nat -> pops bound stack buf = Ok (stack, buf).
Proof. intros H. unfold pops. destruct (length stack) eqn:E; [done|]. cbn [pop_while]. rewrite E. by rewrite (proj2 (Nat.leb_le _ _) H). Qed.

Lemma pops_step bound node stack buf :
  (bound <= length stack)%nat ->
  pops bound (node :: stack) buf
  = '(off, buf) ← emit_internal (child_offsets node) buf;
    pops bound (push_deepest stack (transition_byte node, off)) buf.
Proof.
  intros H. unfold pops at 1. cbn [length pop_while]. rewrite (proj2 (Nat.leb_gt _ _)) by lia.
  cbn [pop_and_link]. destruct (emit_internal _ _) as [[off buf']|]; [|done]. cbn [mbind result_bind].
  unfold pops. by rewrite push_deepest_length.
Qed.

Lemma pops_compose b1 b2 stack buf :
  (b1 <= b2)%nat -> pops b1 stack buf = '(stack, buf) ← pops b2 stack buf; pops b1 stack buf.
Proof.
  intros Hb. remember (length stack) as n eqn:En. revert stack buf En.
  induction n as [|n IH]; intros [|node stack] buf En; try done.
  destruct (decide (length stack < b2)%nat).
  - by rewrite (pops_done b2) by (cbn; lia).
  - rewrite !pops_step by lia. destruct (emit_internal _ _) as [[off buf']|]; [|done]. cbn [mbind result_bind].
    apply IH. rewrite push_deepest_length. by injection En.
Qed.

(** The pending nodes of a subtree, written: the subtree is. *)
Lemma close_spine d : forall t tb buf parent rest,
  uniform (S d) t ->
  ('(st, buf) ← spine (S d) tb t buf; pops (S (length rest)) (st ++ parent :: rest) buf)
  = '(off, buf) ← wn t buf; Ok (push_child parent (tb, off) :: rest, buf).
Proof.
  induction d as [|d IH]; intros t tb buf parent rest Hu; destruct (uniform_snoc _ _ Hu) as (cs & b & c & -> & Hc);
    rewrite spine_snoc; cbn [write_node]; rewrite write_each_snoc;
    (destruct (write_each wn cs buf) as [[offs buf1]|]; [|done]); cbn [mbind result_bind].
  - destruct (wn c buf1) as [[off buf2]|]; [|done]. cbn [mbind result_bind app].
    rewrite pops_step by (cbn; lia). cbn [child_offsets transition_byte push_deepest].
    destruct (emit_internal _ _) as [[o buf3]|]; [|done]. cbn [mbind result_bind]. by rewrite pops_done by (cbn; lia).
  - specialize (IH c b buf1 (mkPendingNode tb offs) (parent :: rest) Hc).
    destruct (spine (S d) b c buf1) as [[st buf2]|]; cbn [mbind result_bind] in *.
    2: { by destruct (wn c buf1) as [[off buf3]|]. }
    rewrite <- app_assoc. cbn [app]. rewrite (pops_compose _ (S (length (parent :: rest)))) by (cbn; lia). rewrite IH.
    destruct (wn c buf1) as [[off buf3]|]; [|done]. cbn [mbind result_bind]. unfold push_child at 1. cbn [transition_byte child_offsets].
    rewrite pops_step by (cbn; lia). cbn [child_offsets transition_byte push_deepest].
    destruct (emit_internal _ _) as [[o buf4]|]; [|done]. cbn [mbind result_bind]. by rewrite pops_done by (cbn; lia).
Qed.

(** *** A new path *)

Lemma insert_fresh b rest (p : Z * PartitionPayload) :
  insert (Internal []) (b :: rest) p
  = Internal [(b, match rest with [] => Leaf p | _ => insert (Internal []) rest p end)].
Proof. by destruct rest. Qed.

Lemma push_path d : forall tb pre k stack p buf,
  length k = S d -> length pre = length stack -> (length pre + S d)%nat = PARTITION_TRIE_KEY_LEN ->
  tb = match length stack with O => 0 | S i => nth i (pre ++ k) 0 end ->
  ('(leaf_off, buf) ← write_leaf p buf;
   Ok (push_deepest (extend_path (S d) (pre ++ k) stack) (nth (PARTITION_TRIE_KEY_LEN - 1) (pre ++ k) 0, leaf_off), buf))
  = '(st, buf) ← spine (S d) tb (insert (Internal []) k p) buf; Ok (st ++ stack, buf).
Proof.
  induction d as [|d IH]; intros tb pre k stack p buf Hk Hpre Hlen Htb.
  - destruct k as [|x [|]]; try done. cbn [insert btree_insert]. rewrite spine_one. cbn [write_node].
    destruct (write_leaf p buf) as [[off buf']|]; [|done]. cbn [mbind result_bind extend_path push_deepest]. rewrite <- Htb.
    rewrite <- Hlen. replace (length pre + 1 - 1)%nat with (length pre) by lia.
    rewrite app_nth2 by lia. by rewrite Nat.sub_diag.
  - destruct k as [|x k]; [done|]. injection Hk as Hk. rewrite insert_fresh. destruct k as [|y k]; [done|].
    set (k' := y :: k) in *. rewrite spine_one.
    assert (E : forall s key, extend_path (S (S d)) key s
      = extend_path (S d) key (mkPendingNode (match length s with O => 0 | S i => nth i key 0 end) [] :: s)) by done.
    rewrite E, <- Htb. replace (pre ++ x :: k') with ((pre ++ [x]) ++ k') in * by (by rewrite <- app_assoc).
    rewrite (IH x); [| done | rewrite length_app; cbn; lia | rewrite length_app; cbn; lia |].
    + destruct (spine (S d) x _ buf) as [[st buf']|]; [|done]. cbn [mbind result_bind]. by rewrite <- app_assoc.
    + cbn [length]. rewrite <- Hpre, <- app_assoc, app_nth2 by lia. by rewrite Nat.sub_diag.
Qed.

(** *** One entry *)

Lemma last_under b (es : list (list Z * (Z * PartitionPayload))) : last (under b es) = (fun e => (b :: e.1, e.2)) <$> last es.
Proof. unfold under. change (map ?f ?l) with (f <$> l). by rewrite fmap_last. Qed.

Lemma last_entries_snoc ok (cs : list (Z * T)) b c k q :
  ordered ok c -> last (entries (Internal (cs ++ [(b, c)]))) = Some (k, q) ->
  exists k', k = b :: k' /\ last (entries c) = Some (k', q).
Proof.
  intros Ho H. rewrite entries_app, entries_one, last_app, last_under in H.
  pose proof (ordered_entries _ _ Ho) as Hn. destruct (last (entries c)) as [[k' q']|] eqn:E.
  - cbn in H. injection H as <- <-. eauto.
  - by apply last_None in E.
Qed.

(** Filing an entry after all others, level by level. *)
Definition file_entry (base : nat) (key : list Z) (l : nat) (p : Z * PartitionPayload) (stack : list PendingNode)
    (buf : list Z) : result Error (list PendingNode * list Z) :=
  '(stack, buf) ← pops (base + l + 1) stack buf;
  let stack := extend_path (PARTITION_TRIE_KEY_LEN - length stack) key stack in
  '(leaf_off, buf) ← write_leaf p buf;
  Ok (push_deepest stack (nth (PARTITION_TRIE_KEY_LEN - 1) key 0, leaf_off), buf).

Lemma file_entry_spine ok d : forall t tb pre k prev p q rest buf,
  ordered ok t -> uniform (S d) t -> last (entries t) = Some (prev, q) -> diverges prev k ->
  length k = S d -> length pre = length rest -> (length pre + S d)%nat = PARTITION_TRIE_KEY_LEN ->
  ('(st, buf) ← spine (S d) tb t buf; file_entry (length rest) (pre ++ k) (lcp k prev) p (st ++ rest) buf)
  = '(st, buf) ← spine (S d) tb (insert t k p) buf; Ok (st ++ rest, buf).
Proof.
  induction d as [|d IH]; intros t tb pre k prev p q rest buf Ho Hu Hlast Hdiv Hk Hpre Hlen;
    destruct (uniform_snoc _ _ Hu) as (cs & b' & c & -> & Hc);
    (inversion Ho as [|? _ Hs _ Hoc]; subst); apply Forall_app in Hoc as [_ Hoc];
    apply Forall_cons in Hoc as [Hoc _]; cbn [snd] in Hoc;
    destruct (last_entries_snoc ok cs b' c prev q Hoc Hlast) as (prev' & -> & Hlast');
    (destruct k as [|b k]; [done|]); rewrite map_app in Hs; apply StronglySorted_app in Hs as (Hlt & _ & _);
    (assert (Hcs : Forall (fun c => c.1 < b') cs);
      [apply (Forall_fst (fun x => x < b')), Forall_forall; intros x Hx; apply Hlt; [done|by left]|]).
  - destruct k; [|done]. destruct Hdiv as [Hb|[_ Hd]]; [|by destruct prev'].
    assert (Hcs' : Forall (fun c => c.1 < b) (cs ++ [(b', c)])).
    { apply Forall_app. split; [|by apply Forall_singleton]. eapply Forall_impl; [exact Hcs|]. cbn. lia. }
    cbn [insert lcp]. destruct (Z.eqb_spec b b'); [lia|]. rewrite btree_insert_last by done. rewrite !spine_snoc, write_each_snoc.
    destruct (write_each wn cs buf) as [[offs buf1]|]; [|done]. cbn [mbind result_bind].
    destruct (wn c buf1) as [[off buf2]|]; [|done]. cbn [mbind result_bind app write_node]. unfold file_entry.
    rewrite pops_done by (cbn; lia). cbn [mbind result_bind length]. replace (PARTITION_TRIE_KEY_LEN - S (length rest))%nat with O by lia.
    cbn [extend_path]. destruct (write_leaf p buf2) as [[o buf3]|]; [|done]. cbn [mbind result_bind push_deepest app].
    unfold push_child. cbn [transition_byte child_offsets]. rewrite <- Hlen.
    replace (length pre + 1 - 1)%nat with (length pre) by lia. rewrite app_nth2 by lia. by rewrite Nat.sub_diag.
  - injection Hk as Hk. destruct k as [|y k]; [done|]. set (k' := y :: k) in *.
    destruct (insert_deep (cs ++ [(b', c)]) b k' p ltac:(done)) as [-> _]. destruct Hdiv as [Hb|[-> Hd]].
    + assert (Hcs' : Forall (fun c => c.1 < b) (cs ++ [(b', c)])).
      { apply Forall_app. split; [|by apply Forall_singleton]. eapply Forall_impl; [exact Hcs|]. cbn. lia. }
      rewrite child_at_none by (eapply Forall_impl; [exact Hcs'|]; cbn; lia). cbn [default from_option id].
      rewrite btree_insert_last by done. rewrite !spine_snoc, write_each_snoc.
      destruct (write_each wn cs buf) as [[offs buf1]|]; [|done]. cbn [mbind result_bind].
      cbn [lcp]. destruct (Z.eqb_spec b b'); [lia|].
      pose proof (close_spine d c b' buf1 (mkPendingNode tb offs) rest Hc) as Hclose.
      destruct (spine (S d) b' c buf1) as [[st buf2]|]; cbn [mbind result_bind] in *.
      2: { by destruct (wn c buf1) as [[off buf3]|]. }
      unfold file_entry. rewrite <- app_assoc. cbn [app]. replace (length rest + 0 + 1)%nat with (S (length rest)) by lia.
      rewrite Hclose. destruct (wn c buf1) as [[off buf3]|]; [|done]. cbn [mbind result_bind].
      unfold push_child. cbn [transition_byte child_offsets length].
      replace (PARTITION_TRIE_KEY_LEN - S (length rest))%nat with (S d) by lia.
      replace (pre ++ b :: k') with ((pre ++ [b]) ++ k') by (by rewrite <- app_assoc).
      rewrite (push_path d b); [| done | rewrite length_app; cbn; lia | rewrite length_app; cbn; lia |].
      * destruct (spine (S d) b _ buf3) as [[st2 buf4]|]; [|done]. cbn [mbind result_bind]. by rewrite <- app_assoc.
      * cbn [length]. rewrite <- Hpre, <- app_assoc, app_nth2 by lia. by rewrite Nat.sub_diag.
    + rewrite child_at_last by done. cbn [default from_option id]. rewrite btree_insert_over by done. rewrite !spine_snoc.
      destruct (write_each wn cs buf) as [[offs buf1]|]; [|done]. cbn [mbind result_bind].
      specialize (IH c b (pre ++ [b]) k' prev' p q (mkPendingNode tb offs :: rest) buf1 Hoc Hc Hlast' Hd Hk).
      rewrite <- app_assoc in IH. cbn [app length] in IH.
      specialize (IH ltac:(rewrite length_app; cbn; lia) ltac:(rewrite length_app; cbn; lia)).
      cbn [lcp]. rewrite Z.eqb_refl.
      destruct (spine (S d) b c buf1) as [[st buf2]|]; destruct (spine (S d) b (insert c k' p) buf1) as [[st2 buf3]|];
        cbn [mbind result_bind] in *; rewrite <- ?app_assoc; cbn [app]; try done.
      all: unfold file_entry in *; replace (length rest + S (lcp k' prev') + 1)%nat with (S (length rest) + lcp k' prev' + 1)%nat by lia; done.
Qed.

(** *** All entries *)

Definition entry_pair (e : PartitionTrieEntry) : list Z * (Z * PartitionPayload) := (te_key e, (te_hash_byte e, te_payload e)).

Definition file_all (t : T) (es : list (list Z * (Z * PartitionPayload))) : T :=
  foldl (fun root e => insert root e.1 e.2) t es.

Lemma emit_entry_file st prev e buf :
  emit_entry st (Some prev) e buf = file_entry 0 (te_key e) (lcp (te_key e) prev) (te_hash_byte e, te_payload e) st buf.
Proof. done. Qed.

Definition key_ok (e : PartitionTrieEntry) : Prop := length (te_key e) = PARTITION_TRIE_KEY_LEN /\ Forall is_byte (te_key e).

Lemma emit_entries_spine es : forall t prev q buf,
  ordered (fun _ => True) t -> Forall (fun e => length e.1 = PARTITION_TRIE_KEY_LEN) (entries t) ->
  last (entries t) = Some (prev, q) -> Forall key_ok es ->
  StronglySorted (fun a b => diverges a.1 b.1) (entries t ++ map entry_pair es) ->
  ('(st, buf) ← spine PARTITION_TRIE_KEY_LEN 0 t buf; emit_entries es st (Some prev) buf)
  = spine PARTITION_TRIE_KEY_LEN 0 (file_all t (map entry_pair es)) buf /\
  uniform PARTITION_TRIE_KEY_LEN (file_all t (map entry_pair es)).
Proof.
  induction es as [|e es IH]; intros t prev q buf Ho Hu Hlast Hes Hs; cbn [map file_all foldl emit_entries].
  { split; [|by eapply ordered_uniform]. by destruct (spine PARTITION_TRIE_KEY_LEN 0 t buf) as [[st buf']|]. }
  apply Forall_cons in Hes as [[Hlen Hb] Hes]. cbn [map] in Hs.
  pose proof Hs as Hs'. apply StronglySorted_app in Hs' as (Hd & _ & _).
  assert (Hde : Forall (fun x => diverges x.1 (te_key e)) (entries t)).
  { apply Forall_forall. intros x Hx. apply (Hd x (entry_pair e)); [done|by left]. }
  destruct (insert_last (fun _ => True) (te_key e) (te_hash_byte e, te_payload e) t) as (_ & Ho' & Ee); try done.
  { by destruct (te_key e). } { by left. }
  assert (Hdp : diverges prev (te_key e)).
  { rewrite Forall_forall in Hde. apply (Hde (prev, q)). apply last_Some in Hlast as [l ->]. apply elem_of_app. right. by left. }
  pose proof (file_entry_spine (fun _ => True) 8 t 0 [] (te_key e) prev (te_hash_byte e, te_payload e) q [] buf
    Ho (ordered_uniform _ _ _ Ho Hu) Hlast Hdp Hlen eq_refl eq_refl) as Hstep.
  destruct (IH (insert t (te_key e) (te_hash_byte e, te_payload e)) (te_key e) (te_hash_byte e, te_payload e) buf) as [IH1 IH2]; try done.
  - rewrite Ee. apply Forall_app. split; [done|by apply Forall_singleton].
  - by rewrite Ee, last_snoc.
  - by rewrite Ee, <- app_assoc.
  - split; [|done]. etransitivity; [|exact IH1]. change (S 8) with PARTITION_TRIE_KEY_LEN in Hstep. cbn [length app] in Hstep.
    destruct (spine _ 0 t buf) as [[st buf1]|], (spine _ 0 (insert t _ _) buf) as [[st2 buf2]|]; cbn [mbind result_bind] in *;
      rewrite ?app_nil_r in Hstep; rewrite ?emit_entry_file, ?Hstep; try done; by injection Hstep as ->.
Qed.

(** The sweep is the writer of the whole trie. *)
Lemma sweep_is_write_node entries buf :
  entries <> [] -> Forall key_ok entries ->
  StronglySorted (fun a b => diverges a.1 b.1) (map entry_pair entries) ->
  emit_partitions_trie entries buf = wn (build_trie (map entry_pair entries)) buf.
Proof.
  destruct entries as [|e es]; [done|]. intros _ Hk Hs. pose proof Hk as Hk'. apply Forall_cons in Hk' as [[Hlen Hb] Hes].
  unfold emit_partitions_trie. cbn [emit_entries map] in *. set (p := (te_hash_byte e, te_payload e)) in *.
  change (entry_pair e) with (te_key e, p) in *.
  destruct (insert_last (fun _ => True) (te_key e) p (Internal [])) as (_ & Ho & Ee); try done.
  { by destruct (te_key e). } { by right. }
  cbn in Ee.
  destruct (emit_entries_spine es (insert (Internal []) (te_key e) p) (te_key e) p buf) as [Hsp Hu]; try done.
  { rewrite Ee. by apply Forall_singleton. } { by rewrite Ee. } { by rewrite Ee. }
  assert (Efirst : emit_entry [] None e buf
    = spine PARTITION_TRIE_KEY_LEN 0 (insert (Internal []) (te_key e) p) buf).
  { pose proof (push_path 8 0 [] (te_key e) [] p buf Hlen eq_refl eq_refl eq_refl) as Hp.
    change (S 8) with PARTITION_TRIE_KEY_LEN in Hp. unfold emit_entry. cbn [length pop_while mbind result_bind]. 
    rewrite Nat.sub_0_r. fold p. cbn [app] in Hp. rewrite Hp.
    destruct (spine _ 0 _ buf) as [[st buf1]|]; [|done]. cbn [mbind result_bind]. by rewrite app_nil_r. }
  rewrite Efirst. clear Efirst.
  change (build_trie ((te_key e, p) :: map entry_pair es)) with (file_all (insert (Internal []) (te_key e) p) (map entry_pair es)).
  set (t := file_all _ _) in *.
  destruct (uniform_snoc 8 t Hu) as (cs & b & c & Et & Hc). rewrite Et in Hsp |- *.
  change PARTITION_TRIE_KEY_LEN with (S (S 7)) in Hsp at 2. rewrite spine_snoc in Hsp. cbn [write_node]. rewrite write_each_snoc.
  destruct (spine PARTITION_TRIE_KEY_LEN 0 (insert (Internal []) (te_key e) p) buf) as [[st0 buf0]|]; cbn [mbind result_bind] in *.
  - rewrite Hsp. clear Hsp. destruct (write_each wn cs buf) as [[offs buf1]|]; [|done]. cbn [mbind result_bind].
    pose proof (close_spine 7 c b buf1 (mkPendingNode 0 offs) [] Hc) as Hclose. change (S 7) with 8%nat in Hclose.
    destruct (spine 8 b c buf1) as [[st buf2]|]; cbn [mbind result_bind] in *.
    + change (pop_while (length (st ++ [mkPendingNode 0 offs])) 1 (st ++ [mkPendingNode 0 offs]) buf2)
        with (pops 1 (st ++ [mkPendingNode 0 offs]) buf2). cbn [length] in Hclose. rewrite Hclose.
      by destruct (wn c buf1) as [[off buf3]|].
    + destruct (wn c buf1) as [[off buf3]|]; [done|]. cbn [mbind result_bind] in *. by injection Hclose as ->.
  - destruct (write_each wn cs buf) as [[offs buf1]|]; cbn [mbind result_bind] in *; [|by injection Hsp as ->].
    pose proof (close_spine 7 c b buf1 (mkPendingNode 0 offs) [] Hc) as Hclose. change (S 7) with 8%nat in Hclose.
    destruct (spine 8 b c buf1) as [[st buf2]|]; cbn [mbind result_bind] in *; [done|].
    destruct (wn c buf1) as [[off buf3]|]; [done|]. cbn [mbind result_bind] in *. congruence.
Qed.
End Sweep.
