(* ===== verification/BtiPartitionsProps.v ===== *)
(** Theorems about Partitions.db: the single sweep writes the bytes of the whole trie; a
    written index finds every partition, no other, and the partition after each. *)

From S2P Require Import Prelude Murmur3 Values VInt Oss50 BtiNodes BtiTrie BtiTree BtiWalks BtiPartitions BtiSweep.

Open Scope Z_scope.

(** ** The codec of a partition's leaf *)

Definition payload_offset (p : PartitionPayload) : Z := match p with ToDataOffset o | ToRowsOffset o => o end.

Definition leaf_ok (leaf : Z * PartitionPayload) : Prop := is_byte leaf.1 /\ 0 <= payload_offset leaf.2 <= i64_MAX.

Definition location (p : PartitionPayload) : BtiPartitionLocation :=
  match p with ToDataOffset o => DataOffset o | ToRowsOffset o => RowsOffset o end.

Lemma lnot_i64 x : is_i64 x -> is_i64 (Z.lnot x).
Proof. unfold is_i64, i_range, Z.lnot. change (2 ^ (64 - 1)) with 9223372036854775808. lia. Qed.

Lemma leaf_position_i64 payload position : leaf_position payload = Ok position -> is_i64 position.
Proof.
  destruct payload as [o|o]; cbn [leaf_position]; destruct (o >? i64_MAX); intros [= <-];
    [apply lnot_i64|]; by apply swrap_range.
Qed.

Lemma leaf_position_ok leaf :
  leaf_ok leaf -> exists position, leaf_position leaf.2 = Ok position /\
    (if position <? 0 then DataOffset (as_u64 (Z.lnot position)) else RowsOffset (as_u64 position)) = location leaf.2.
Proof.
  destruct leaf as [h [o|o]]; intros [_ Ho]; cbn [fst snd payload_offset] in *; cbn [leaf_position location];
    destruct (Z.gtb_spec o i64_MAX); try lia; unfold i64_MAX in Ho; change (2 ^ 63 - 1) with 9223372036854775807 in Ho;
    assert (as_i64 o = o) as -> by (apply swrap_id; unfold i_range; lia); eexists; (split; [done|]).
  - rewrite Z.lnot_involutive. destruct (Z.ltb_spec (Z.lnot o) 0); [|unfold Z.lnot in *; lia].
    f_equal. apply wrap_id. unfold u_range. lia.
  - destruct (Z.ltb_spec o 0); [lia|]. f_equal. apply wrap_id. unfold u_range. lia.
Qed.

(** The bytes of a leaf. *)
Definition leaf_bytes (hash_byte position : Z) : list Z :=
  let n := sized_ints_non_zero_size position in
  Z.land (FLAG_HAS_HASH_BYTE + (n - 1)) 0x0F :: hash_byte :: be_bytes (Z.to_nat n) position.

Lemma write_leaf_eq hash_byte payload position buf :
  leaf_position payload = Ok position ->
  write_leaf (hash_byte, payload) buf = Ok (zlen buf, buf ++ leaf_bytes hash_byte position).
Proof.
  intros H. unfold write_leaf. rewrite H. cbn [mbind result_bind].
  destruct (non_zero_size_fits position (leaf_position_i64 _ _ H)) as [Hn _].
  rewrite write_sized_eq by lia. by rewrite <- !app_assoc.
Qed.

Lemma leaf_header n : 1 <= n <= 8 ->
  Z.land (Z.shiftr (Z.land (FLAG_HAS_HASH_BYTE + (n - 1)) 0x0F) 4) 0x0F = 0 /\
  Z.land (Z.land (FLAG_HAS_HASH_BYTE + (n - 1)) 0x0F) 0x0F = n + 7.
Proof.
  intros Hn. assert (In n (seqZ 1 8)) as Hin by (apply list_elem_of_In, elem_of_seqZ; lia).
  vm_compute seqZ in Hin. cbn in Hin. by repeat (destruct Hin as [<-|Hin]; [split; reflexivity|]).
Qed.

#[export] Instance partition_leaf_codec :
  LeafCodec write_leaf read_node_payload leaf_ok (fun leaf => location leaf.2).
Proof.
  split.
  - intros [h payload] buf o buf' H. unfold write_leaf in H.
    destruct (leaf_position payload) as [position|] eqn:E; [|done].
    pose proof (write_leaf_eq h payload position buf E) as H'. unfold write_leaf in H'. rewrite E in H'.
    rewrite H' in H. injection H as <- <-. split; [done|]. exists (leaf_bytes h position). split; [done|].
    intros buf2 <-. by apply write_leaf_eq.
  - intros [h payload] o bs data Hok Ha Hb. destruct (leaf_position_ok _ Hok) as (position & E & Eloc). cbn [snd] in *.
    assert (bs = leaf_bytes h position) as ->.
    { destruct Hb as (pre & post & _ & Ho). specialize (Ha pre Ho). rewrite (write_leaf_eq h payload position pre E) in Ha.
      injection Ha as _ Ha. by apply app_inv_head in Ha. }
    destruct (non_zero_size_fits position (leaf_position_i64 _ _ E)) as [Hn _].
    pose proof (bytes_at_inside _ _ _ Hb) as [Ho Hin]. unfold leaf_bytes in *. set (n := sized_ints_non_zero_size position) in *.
    apply bytes_at_cons in Hb as [Hh Hb]. apply bytes_at_cons in Hb as [_ Hb]. rewrite Hh.
    destruct (leaf_header n Hn) as [E1 E2]. rewrite E1, E2.
    assert (Hlen : zlen (be_bytes (Z.to_nat n) position) = n) by (unfold zlen; rewrite be_bytes_length; lia).
    rewrite !zlen_cons, Hlen in Hin. split; [lia|]. split; [done|]. split; [lia|].
    unfold read_node_payload, read_node_payload_with. destruct (Z.geb_spec o (zlen data)); [lia|].
    rewrite Hh, E1, E2. cbn [Z.eqb orb]. rewrite (proj2 (Z.eqb_neq (n + 7) 0)) by lia.
    unfold decode_bti_partition_payload, FLAG_HAS_HASH_BYTE.
    destruct (Z.ltb_spec (n + 7) 8); [lia|]. destruct (Z.gtb_spec (n + 7) 16); [lia|].
    replace (n + 7 - 8 + 1) with n by lia. destruct (Z.gtb_spec (o + 1 + (1 + n)) (zlen data)); [lia|].
    rewrite (bytes_at_sub _ _ _ n Hb) by done. unfold n. rewrite sized_int_roundtrip by (by eapply leaf_position_i64).
    cbn [mbind result_bind]. by rewrite Eloc.
  - intros data o Ho Hord Hf. unfold read_node_payload, read_node_payload_with.
    destruct (Z.geb_spec o (zlen data)); [lia|].
    set (ord := Z.land (Z.shiftr (byte_of data o) 4) 0x0F) in *. rewrite Hf.
    rewrite !(proj2 (Z.eqb_neq ord _)) by lia. done.
Qed.

Lemma write_leaf_total leaf buf :
  leaf_ok leaf ->
  exists o buf', write_leaf leaf buf = Ok (o, buf') /\ zlen buf <= o <= zlen buf' /\ zlen buf' <= zlen buf + 10.
Proof.
  intros Hok. destruct leaf as [h payload]. destruct (leaf_position_ok _ Hok) as (position & E & _). cbn [snd] in E.
  rewrite (write_leaf_eq h payload position buf E). eexists _, _. split; [done|].
  destruct (non_zero_size_fits position (leaf_position_i64 _ _ E)) as [Hn _]. rewrite zlen_app.
  unfold leaf_bytes, zlen. cbn [length]. rewrite be_bytes_length. lia.
Qed.

(** ** Keys by token *)

Lemma trie_key_cmp a b :
  bytes_cmp (encode_partition_key_for_bti_trie a) (encode_partition_key_for_bti_trie b)
  = (cassandra_murmur3_token a ?= cassandra_murmur3_token b).
Proof.
  assert (G : forall k, i_range 64 (cassandra_murmur3_token k)).
  { intros k. pose proof (cassandra_token_bounds k) as H. unfold i64_MIN, i64_MAX in H. unfold i_range.
    change (2 ^ 63) with 9223372036854775808 in H. change (2 ^ (64 - 1)) with 9223372036854775808. lia. }
  unfold encode_partition_key_for_bti_trie, encode_bti_trie_key_from_token, as_u64.
  change 0x8000000000000000 with (2 ^ (64 - 1)). rewrite !sign_flip_add by (lia || apply G).
  pose proof (G a) as Ha. pose proof (G b) as Hb. unfold i_range in Ha, Hb.
  transitivity (bytes_cmp (be_bytes 8 (cassandra_murmur3_token a + 2 ^ (64 - 1))) (be_bytes 8 (cassandra_murmur3_token b + 2 ^ (64 - 1)))).
  { by unfold bytes_cmp. }
  rewrite be_bytes_cmp by (unfold u_range; change (2 ^ (8 * Z.of_nat 8)) with 18446744073709551616;
    change (2 ^ (64 - 1)) with 9223372036854775808 in *; lia).
  by rewrite !(Z.add_comm _ (2 ^ (64 - 1))), Z.add_compare_mono_l.
Qed.

Lemma trie_key_inj a b :
  encode_partition_key_for_bti_trie a = encode_partition_key_for_bti_trie b <->
  cassandra_murmur3_token a = cassandra_murmur3_token b.
Proof. by rewrite <- bytes_cmp_eq, trie_key_cmp, Z.compare_eq_iff. Qed.

Lemma trie_key_bytes k :
  length (encode_partition_key_for_bti_trie k) = PARTITION_TRIE_KEY_LEN /\ Forall is_byte (encode_partition_key_for_bti_trie k).
Proof.
  split; [done|]. constructor; [done|]. apply be_bytes_bytes.
Qed.

(** ** The writer's state *)

(** Partitions added, in order. *)
Definition partitions_of (adds : list (list Z * PartitionPayload)) : PartitionsTrieWriter :=
  foldl (fun w a => add_partition_with_payload w a.1 a.2) partitions_new adds.

Definition entry_of (a : list Z * PartitionPayload) : PartitionTrieEntry :=
  mkTrieEntry (encode_partition_key_for_bti_trie a.1) (as_u8 (cassandra_partition_filter_hash_lower_bits a.1)) a.2.

Lemma partitions_of_snoc adds a :
  partitions_of (adds ++ [a]) = add_partition_with_payload (partitions_of adds) a.1 a.2.
Proof. unfold partitions_of. by rewrite foldl_app. Qed.

Lemma add_partition_entries w a : pw_entries (add_partition_with_payload w a.1 a.2) = pw_entries w ++ [entry_of a].
Proof.
  destruct a as [k p]. unfold add_partition_with_payload, entry_of, encode_partition_key_for_bti_trie, cassandra_murmur3_token,
    cassandra_partition_filter_hash_lower_bits. cbn [fst snd]. by destruct (cassandra_murmur3_x64_128 k) as [h1 h2].
Qed.

Lemma partitions_of_entries adds : pw_entries (partitions_of adds) = map entry_of adds.
Proof.
  induction adds as [|a adds IH] using rev_ind; [done|]. by rewrite partitions_of_snoc, add_partition_entries, IH, map_app.
Qed.

(** The boundary keys: those of a first and a last partition in trie order. *)
Definition bounds (keep : Z -> Z -> Prop) (adds : list (list Z * PartitionPayload)) (raw : option (list Z * list Z)) : Prop :=
  match raw with
  | Some (key, k) =>
      key = encode_partition_key_for_bti_trie k /\ k ∈ map fst adds /\
      Forall (fun a => keep (cassandra_murmur3_token k) (cassandra_murmur3_token a.1)) adds
  | None => adds = []
  end.

Lemma bounds_snoc (keep : Z -> Z -> Prop) adds raw a :
  (forall x y z, keep x y -> keep y z -> keep x z) -> (forall x, keep x x) -> bounds keep adds raw ->
  forall raw', raw' = raw /\ (exists key k, raw = Some (key, k) /\ keep (cassandra_murmur3_token k) (cassandra_murmur3_token a.1)) \/
    raw' = Some (encode_partition_key_for_bti_trie a.1, a.1) /\
    (forall key k, raw = Some (key, k) -> keep (cassandra_murmur3_token a.1) (cassandra_murmur3_token k)) ->
  bounds keep (adds ++ [a]) raw'.
Proof.
  intros Htrans Hrefl Hb raw' [[-> (key & k & -> & Hk)]|[-> Hk]]; cbn [bounds] in *.
  - destruct Hb as (-> & Hin & Hall). split; [done|]. rewrite map_app. split; [apply elem_of_app; by left|].
    apply Forall_app. split; [done|by apply Forall_singleton].
  - split; [done|]. rewrite map_app. split; [apply elem_of_app; right; by left|]. apply Forall_app.
    split; [|by apply Forall_singleton]. destruct raw as [[key k]|]; cbn [bounds] in Hb; [|by rewrite Hb]. destruct Hb as (_ & _ & Hall).
    eapply Forall_impl; [exact Hall|]. intros b Hb. by eapply Htrans; [eapply Hk|].
Qed.

Lemma partitions_of_bounds adds :
  bounds Z.le adds (first_raw (partitions_of adds)) /\ bounds Z.ge adds (last_raw (partitions_of adds)).
Proof.
  induction adds as [|a adds [IH1 IH2]] using rev_ind; [done|]. rewrite partitions_of_snoc.
  destruct a as [k p]. set (a := (k, p)). unfold add_partition_with_payload. 
  assert (E : encode_bti_trie_key_from_token (cassandra_murmur3_normalize_token (cassandra_murmur3_x64_128 k).1)
    = encode_partition_key_for_bti_trie k).
  { unfold encode_partition_key_for_bti_trie, cassandra_murmur3_token. by destruct (cassandra_murmur3_x64_128 k). }
  destruct (cassandra_murmur3_x64_128 k) as [h1 h2] eqn:Eh. cbn [fst snd] in *. unfold a in *. cbn [fst snd]. rewrite Eh, E. cbn [first_raw last_raw].
  split; (eapply (bounds_snoc _ _ _ (k, p)); [intros; lia|intros; lia|eassumption|]); cbn [fst];
    [destruct (first_raw (partitions_of adds)) as [[key k']|] eqn:Er|destruct (last_raw (partitions_of adds)) as [[key k']|] eqn:Er].
  all: try (right; split; [done|]; intros ? ? [=]).
  - destruct IH1 as (-> & _). rewrite trie_key_cmp. destruct (Z.compare_spec (cassandra_murmur3_token k) (cassandra_murmur3_token k')).
    1, 3: left; split; [done|]; do 2 eexists; split; [done|lia].
    right. split; [done|]. intros ? ? [= <- <-]. lia.
  - destruct IH2 as (-> & _). rewrite trie_key_cmp. destruct (Z.compare_spec (cassandra_murmur3_token k) (cassandra_murmur3_token k')).
    1, 2: left; split; [done|]; do 2 eexists; split; [done|lia].
    right. split; [done|]. intros ? ? [= <- <-]. lia.
Qed.

(** ** The sorted entries *)

#[export] Instance entry_cmp_laws : OrdLaws trie_entry_cmp.
Proof. unfold trie_entry_cmp. by apply (ord_on _ (fun _ => True) te_key bytes_cmp). Qed.

Definition tokens (adds : list (list Z * PartitionPayload)) : list Z := map (fun a => cassandra_murmur3_token a.1) adds.
Definition sorted_entries (adds : list (list Z * PartitionPayload)) : list PartitionTrieEntry :=
  sort_by trie_entry_cmp (map entry_of adds).

Lemma strictly_sorted es :
  StronglySorted (le_by trie_entry_cmp) es -> has_duplicate es = false -> StronglySorted (fun a b => trie_entry_cmp a b = Lt) es.
Proof.
  induction 1 as [|a es Hs IH Ha]; intros Hd; [constructor|].
  destruct es as [|b es]; [by repeat constructor|].
  change (bool_decide (te_key a = te_key b) || has_duplicate (b :: es) = false) in Hd. apply orb_false_iff in Hd as [Hab Hd].
  specialize (IH Hd). constructor; [done|]. apply bool_decide_eq_false in Hab.
  apply Forall_cons in Ha as [Hle _]. assert (Hlt : trie_entry_cmp a b = Lt).
  { unfold le_by, trie_entry_cmp in *. destruct (bytes_cmp (te_key a) (te_key b)) eqn:E; [|done|done]. by apply bytes_cmp_eq in E. }
  constructor; [done|]. inversion IH as [|? ? _ Hb]; subst. eapply Forall_impl; [exact Hb|]. cbn. intros c Hc.
  by apply (on_trans (cmp := trie_entry_cmp) a b c).
Qed.

Lemma no_duplicate es : NoDup (map te_key es) -> has_duplicate es = false.
Proof.
  induction es as [|a es IH]; [done|]. cbn [map]. intros H. apply NoDup_cons in H as [Hn H].
  destruct es as [|b es]; [done|]. change (bool_decide (te_key a = te_key b) || has_duplicate (b :: es) = false).
  rewrite (IH H), bool_decide_eq_false_2; [done|]. intros E. apply Hn. rewrite E. by left.
Qed.

Lemma strict_nodup es : StronglySorted (fun a b => trie_entry_cmp a b = Lt) es -> NoDup (map te_key es).
Proof.
  induction 1 as [|a es _ IH Ha]; cbn [map]; constructor; [|done]. intros Hin.
  apply list_elem_of_fmap in Hin as (b & E & Hb). rewrite Forall_forall in Ha. specialize (Ha b Hb). unfold trie_entry_cmp in Ha.
  by rewrite <- E, (proj2 (bytes_cmp_eq _ _) eq_refl) in Ha.
Qed.

Lemma tokens_nodup adds : NoDup (tokens adds) <-> NoDup (map te_key (map entry_of adds)).
Proof.
  induction adds as [|a adds IH]; [split; constructor|]. cbn [tokens map te_key entry_of]. rewrite !NoDup_cons. fold (tokens adds). rewrite IH.
  enough (cassandra_murmur3_token a.1 ∈ tokens adds <->
    encode_partition_key_for_bti_trie a.1 ∈ map te_key (map entry_of adds)) by tauto.
  unfold tokens. rewrite map_map. cbn [te_key entry_of].
  split; intros (b & E & Hb)%list_elem_of_fmap; apply list_elem_of_fmap; exists b; (split; [|done]); by apply trie_key_inj.
Qed.

Lemma sorted_entries_perm adds : sorted_entries adds ≡ₚ map entry_of adds.
Proof. apply sort_by_perm. Qed.

Lemma has_duplicate_tokens adds : has_duplicate (sorted_entries adds) = false <-> NoDup (tokens adds).
Proof.
  rewrite tokens_nodup. assert (E : NoDup (map te_key (sorted_entries adds)) <-> NoDup (map te_key (map entry_of adds))).
  { by rewrite (fmap_Permutation te_key _ _ (sorted_entries_perm adds)). }
  rewrite <- E. split; [|apply no_duplicate]. intros H. apply strict_nodup, strictly_sorted; [|done].
  apply (sort_by_sorted trie_entry_cmp (fun _ => True)), Forall_true. done.
Qed.

(** A partition as its leaf in the trie. *)
Definition pair_of (a : list Z * PartitionPayload) : list Z * (Z * PartitionPayload) := entry_pair (entry_of a).

Definition pairs_of (adds : list (list Z * PartitionPayload)) : list (list Z * (Z * PartitionPayload)) :=
  map entry_pair (sorted_entries adds).

Lemma pairs_elem adds x : x ∈ pairs_of adds <-> exists a, a ∈ adds /\ x = pair_of a.
Proof.
  unfold pairs_of. split.
  - intros (e & -> & He)%list_elem_of_fmap. rewrite sorted_entries_perm in He.
    apply list_elem_of_fmap in He as (a & -> & Ha). by exists a.
  - intros (a & Ha & ->). apply list_elem_of_fmap. exists (entry_of a). split; [done|].
    rewrite sorted_entries_perm. by apply list_elem_of_fmap_2.
Qed.

Lemma entries_key_ok adds : Forall key_ok (sorted_entries adds).
Proof. rewrite sorted_entries_perm. apply Forall_map, Forall_true. intros a. apply trie_key_bytes. Qed.

Lemma pairs_diverge adds : NoDup (tokens adds) -> StronglySorted (fun a b => diverges a.1 b.1) (pairs_of adds).
Proof.
  intros Hn. assert (Hs : StronglySorted (fun a b => trie_entry_cmp a b = Lt) (sorted_entries adds)).
  { apply strictly_sorted; [|by apply has_duplicate_tokens].
    apply (sort_by_sorted trie_entry_cmp (fun _ => True)), Forall_true. done. }
  pose proof (entries_key_ok adds) as Hk. unfold pairs_of. induction Hs as [|a es _ IH Ha]; [constructor|].
  apply Forall_cons in Hk as [[Hla _] Hk]. cbn [map]. constructor; [by apply IH|]. apply Forall_map.
  rewrite Forall_forall in *. intros b Hb. cbn. apply same_length_diverges; [|by apply Ha].
  destruct (Hk b Hb) as [-> _]. done.
Qed.

Definition add_ok (a : list Z * PartitionPayload) : Prop := 0 <= payload_offset a.2 <= i64_MAX /\ zlen a.1 <= 65535.

Lemma pairs_ok adds : Forall add_ok adds -> Forall (entry_ok leaf_ok) (pairs_of adds).
Proof.
  intros H. apply Forall_forall. intros x (a & Ha & ->)%pairs_elem. rewrite Forall_forall in H. destruct (H a Ha) as [Ho _].
  destruct (trie_key_bytes a.1) as [Hl Hb]. split; [|split; [done|split; [|done]]].
  - unfold pair_of, entry_pair. cbn [fst te_key entry_of]. intros E. by rewrite E in Hl.
  - cbn. apply (wrap_range 8). lia.
Qed.

(** ** The file *)

Definition short_bytes (k : list Z) : list Z := be_bytes 2 (zlen k) ++ k.

Lemma write_short buf k : zlen k <= 65535 -> write_with_short_length buf k = Ok (buf ++ short_bytes k).
Proof. intros H. unfold write_with_short_length. by destruct (Z.gtb_spec (zlen k) 65535); [lia|]. Qed.

Lemma footer_of x r : 0 <= r < zlen x -> r < 2 ^ 64 -> footer (x ++ be_bytes 8 r) = Ok (x, r).
Proof.
  intros Hr Hr64. unfold footer. rewrite zlen_app. assert (E : zlen (be_bytes 8 r) = 8) by done. rewrite E.
  destruct (Z.ltb_spec (zlen x + 8) 8); [lia|]. replace (zlen x + 8 - 8) with (zlen x) by lia.
  rewrite (bytes_at_sub _ _ (be_bytes 8 r)) by (done || apply bytes_at_end).
  rewrite from_be_bytes_id by (change (8 * Z.of_nat 8) with 64; unfold u_range; lia).
  destruct (Z.geb_spec r (zlen x)); [lia|]. unfold zlen. by rewrite Nat2Z.id, take_app_length.
Qed.

Lemma from_option_bound keep adds raw :
  Forall add_ok adds -> adds <> [] -> bounds keep adds raw -> zlen (from_option snd [] raw) <= 65535.
Proof.
  intros Hok Hne Hb. destruct raw as [[key k]|]; cbn [bounds] in Hb; [|done]. destruct Hb as (_ & Hin & _).
  apply list_elem_of_fmap in Hin as (a & -> & Ha). rewrite Forall_forall in Hok. by apply Hok.
Qed.

(** The trie of distinct partitions, laid out at the start of the file. *)
Lemma finish_layout adds :
  adds <> [] -> NoDup (tokens adds) -> Forall add_ok adds -> zlen adds <= 2 ^ 33 ->
  exists t buf tail root,
    partitions_finish (partitions_of adds) = Ok ((buf ++ tail) ++ be_bytes 8 root) /\
    ordered leaf_ok t /\ entries t = pairs_of adds /\ laid write_leaf leaf_ok (buf ++ tail) root t /\ root < 2 ^ 64.
Proof.
  intros Hne Hn Hok Hlen. pose proof (pairs_diverge adds Hn) as Hd. pose proof (pairs_ok adds Hok) as Hp.
  assert (Hpl : zlen (pairs_of adds) = zlen adds).
  { unfold pairs_of, zlen. rewrite length_map. unfold sorted_entries. rewrite (Permutation_length (sort_by_perm _ _)). by rewrite length_map. }
  assert (Hpn : pairs_of adds <> []).
  { intros E. rewrite E in Hpl. destruct adds; [done|]. rewrite zlen_cons in Hpl. pose proof (zlen_nonneg adds).
    unfold zlen at 1 in Hpl. cbn [length] in Hpl. lia. }
  destruct (build_exact leaf_ok (pairs_of adds) Hp Hd Hpn) as (_ & Ee & Ho). set (t := build_trie (pairs_of adds)) in *.
  assert (Hw : weight 10 t <= 2 ^ 40).
  { etransitivity; [apply (weight_entries leaf_ok 10 t Ho); lia|]. rewrite Ee.
    assert (G : forall es, Forall (fun e => length (te_key e) = 9%nat) es -> entries_weight 10 (map entry_pair es) = 118 * zlen es).
    { clear. induction 1 as [|e es He _ IH]; [done|]. unfold entries_weight in *. cbn [map]. rewrite zsum_cons, IH, zlen_cons.
      cbn [fst entry_pair]. unfold zlen at 1. rewrite He. lia. }
    unfold pairs_of. rewrite G; [|eapply Forall_impl; [apply entries_key_ok|]; by intros ? []].
    assert (zlen (sorted_entries adds) = zlen adds) as -> by (rewrite <- Hpl; unfold pairs_of, zlen; by rewrite length_map).
    change (2 ^ 33) with 8589934592 in Hlen. change (2 ^ 40) with 1099511627776. lia. }
  destruct (write_node_total write_leaf leaf_ok 10 write_leaf_total t [] Ho ltac:(lia)) as (root & buf & Ew & Hroot & Hbuf).
  { exact Hw. }
  change (zlen []) with 0 in Hroot, Hbuf.
  assert (Hb64 : zlen buf < 2 ^ 64).
  { change (2 ^ 64) with 18446744073709551616. change (2 ^ 40) with 1099511627776 in Hw. lia. }
  destruct (write_node_laid write_leaf read_node_payload leaf_ok _ t [] root buf Ho Ew Hb64) as (ext & _ & Hin & Hl).
  destruct (partitions_of_bounds adds) as [Hb1 Hb2]. set (w := partitions_of adds) in *.
  set (k1 := from_option snd [] (first_raw w)). set (k2 := from_option snd [] (last_raw w)).
  exists t, buf, (short_bytes k1 ++ short_bytes k2 ++ be_bytes 8 (as_i64 (zlen buf)) ++ be_bytes 8 (as_i64 (zlen (sorted_entries adds)))), root.
  split; [|split; [done|split; [done|split; [by apply laid_app|lia]]]].
  assert (Es : sort_by trie_entry_cmp (pw_entries w) = sorted_entries adds) by (unfold w; by rewrite partitions_of_entries).
  unfold partitions_finish. destruct (pw_entries w) as [|e es] eqn:E.
  { unfold w in E. rewrite partitions_of_entries in E. by destruct adds. }
  rewrite Es, (proj2 (has_duplicate_tokens adds) Hn).
  rewrite sweep_is_write_node; [|intros E'; apply Hpn; unfold pairs_of; by rewrite E'|apply entries_key_ok|done].
  fold (pairs_of adds). fold t. rewrite Ew. cbn [mbind result_bind]. fold k1 k2.
  rewrite write_short by (by eapply from_option_bound). cbn [mbind result_bind].
  rewrite write_short by (by eapply from_option_bound). cbn [mbind result_bind].
  assert (as_i64 root = root) as ->; [|by rewrite <- !app_assoc].
  apply swrap_id; [lia|]. unfold i_range. change (2 ^ (64 - 1)) with 9223372036854775808.
  change (2 ^ 40) with 1099511627776 in Hw. lia.
Qed.

(** ** What the readers find *)

Lemma first_after_spec (adds : list (list Z * PartitionPayload)) k :
  NoDup (tokens adds) ->
  match first_after (encode_partition_key_for_bti_trie k) (pairs_of adds) with
  | Some leaf => exists a, a ∈ adds /\ leaf.2 = a.2 /\ cassandra_murmur3_token k < cassandra_murmur3_token a.1 /\
      Forall (fun b => cassandra_murmur3_token k < cassandra_murmur3_token b.1 ->
                       cassandra_murmur3_token a.1 <= cassandra_murmur3_token b.1) adds
  | None => Forall (fun b => cassandra_murmur3_token b.1 <= cassandra_murmur3_token k) adds
  end.
Proof.
  intros Hn. pose proof (pairs_diverge adds Hn) as Hd. pose proof (pairs_elem adds) as Hin.
  assert (Hgt : forall a, key_gt (encode_partition_key_for_bti_trie k) (pair_of a) = true <->
    cassandra_murmur3_token k < cassandra_murmur3_token a.1).
  { intros a. unfold key_gt. change ((pair_of a).1) with (encode_partition_key_for_bti_trie a.1). rewrite trie_key_cmp.
    destruct (Z.compare_spec (cassandra_murmur3_token a.1) (cassandra_murmur3_token k)); split; (done || lia). }
  unfold first_after. set (f := key_gt (encode_partition_key_for_bti_trie k)) in *.
  assert (G : forall x, x ∈ List.filter f (pairs_of adds) <-> x ∈ pairs_of adds /\ f x = true).
  { intros x. rewrite !list_elem_of_In. apply filter_In. }
  destruct (List.filter f (pairs_of adds)) as [|x l] eqn:E; cbn.
  - apply Forall_forall. intros b Hb. apply Z.nlt_ge. intros Hlt. apply Hgt in Hlt.
    assert (pair_of b ∈ []) as H%not_elem_of_nil; [|done]. apply G. split; [apply Hin; by exists b|done].
  - destruct (proj1 (G x) ltac:(by left)) as [Hx Hfx]. apply Hin in Hx as (a & Ha & ->). exists a. split; [done|]. split; [done|].
    split; [by apply Hgt|]. apply Forall_forall. intros b Hb Hlt.
    assert (Hbl : pair_of b ∈ pair_of a :: l) by (apply G; split; [apply Hin; by exists b|by apply Hgt]).
    apply elem_of_cons in Hbl as [Hbl|Hbl].
    { apply (f_equal fst) in Hbl. apply trie_key_inj in Hbl. lia. }
    assert (Hs : StronglySorted (fun a b => diverges a.1 b.1) (pair_of a :: l)).
    { rewrite <- E. clear -Hd. induction Hd as [|y ys _ IH Hy]; [constructor|]. cbn. destruct (f y); [|done].
      constructor; [done|]. apply Forall_forall. intros z Hz. apply list_elem_of_In, filter_In in Hz as [Hz _].
      rewrite Forall_forall in Hy. by apply Hy, list_elem_of_In. }
    inversion Hs as [|? ? _ Hall]; subst. rewrite Forall_forall in Hall. specialize (Hall _ Hbl).
    apply diverges_lt in Hall. change ((pair_of ?x).1) with (encode_partition_key_for_bti_trie x.1) in Hall.
    rewrite trie_key_cmp in Hall. by apply Z.lt_le_incl, Z.compare_lt_iff.
Qed.

Lemma partitions_index adds :
  adds <> [] -> NoDup (tokens adds) -> Forall add_ok adds -> zlen adds <= 2 ^ 33 ->
  exists file, partitions_finish (partitions_of adds) = Ok file /\
    (forall a, a ∈ adds -> lookup_raw_key_in_bti_partitions_db file a.1 = Ok (Some (location a.2))) /\
    (forall k, cassandra_murmur3_token k ∉ tokens adds -> lookup_raw_key_in_bti_partitions_db file k = Ok None) /\
    (forall k, exists next,
      partition_successor_in_bti_slice file (encode_partition_key_for_bti_trie k)
      = Ok ((fun a : list Z * PartitionPayload => location a.2) <$> next) /\
      match next with
      | Some a => a ∈ adds /\ cassandra_murmur3_token k < cassandra_murmur3_token a.1 /\
          Forall (fun b => cassandra_murmur3_token k < cassandra_murmur3_token b.1 ->
                           cassandra_murmur3_token a.1 <= cassandra_murmur3_token b.1) adds
      | None => Forall (fun b => cassandra_murmur3_token b.1 <= cassandra_murmur3_token k) adds
      end).
Proof.
  intros Hne Hn Hok Hlen. destruct (finish_layout adds Hne Hn Hok Hlen) as (t & buf & tail & root & Ef & Ho & Ee & Hl & Hr).
  eexists. split; [exact Ef|]. pose proof (laid_inside write_leaf read_node_payload leaf_ok _ t _ _ Hl) as Hin.
  assert (Hfoot : footer ((buf ++ tail) ++ be_bytes 8 root) = Ok (buf ++ tail, root)) by (apply footer_of; lia).
  assert (Hlook : forall k, lookup_raw_key_in_bti_partitions_db ((buf ++ tail) ++ be_bytes 8 root) k
    = Ok ((fun leaf : Z * PartitionPayload => location leaf.2) <$> lookup_trie t (encode_partition_key_for_bti_trie k))).
  { intros k. unfold lookup_raw_key_in_bti_partitions_db, lookup_partition_in_bti_slice. rewrite Hfoot. cbn [mbind result_bind].
    by apply (walk_trie_exact write_leaf read_node_payload leaf_ok (fun leaf => location leaf.2)). }
  split; [|split].
  - intros a Ha. rewrite Hlook, (lookup_trie_in leaf_ok t _ (pair_of a).2 Ho); [done|].
    rewrite Ee. apply pairs_elem. by exists a.
  - intros k Hk. rewrite Hlook. destruct (lookup_trie t _) as [leaf|] eqn:El; [|done]. exfalso.
    destruct (lookup_trie_out PARTITION_TRIE_KEY_LEN t (encode_partition_key_for_bti_trie k)) as (p & Hp).
    { rewrite Ee. apply Forall_forall. intros x (a & _ & ->)%pairs_elem. apply trie_key_bytes. }
    { apply trie_key_bytes. } { by rewrite El. }
    rewrite Ee in Hp. apply pairs_elem in Hp as (a & Ha & E). apply (f_equal fst) in E.
    apply trie_key_inj in E. apply Hk, list_elem_of_fmap. by exists a.
  - intros k. unfold partition_successor_in_bti_slice. rewrite Hfoot. cbn [mbind result_bind].
    unfold partition_strict_ceiling_location.
    rewrite (strict_ceiling_exact write_leaf read_node_payload leaf_ok (fun leaf => location leaf.2) t _ root _ Hl Ho), Ee.
    pose proof (first_after_spec adds k Hn) as Hf. destruct (first_after _ _) as [leaf|].
    + destruct Hf as (a & Ha & Ea & Hk & Hall). exists (Some a). cbn [fmap option_fmap option_map]. by rewrite Ea.
    + by exists None.
Qed.

(** C11: The index of a written SSTable finds its partitions. Partitions of distinct tokens,
    with keys of at most 65535 bytes and offsets of an [i64], at most [2 ^ 33] of them, in
    any order: [finish] gives a file in which the lookup of a raw key is exactly the
    location added for a partition of its token, or nothing when no partition has it; and
    the successor of any key is the partition of the least token above its token, or
    nothing when it is at or after the last. *)
Theorem partitions_index_exact adds :
  adds <> [] -> NoDup (tokens adds) -> Forall add_ok adds -> zlen adds <= 2 ^ 33 ->
  exists file, partitions_finish (partitions_of adds) = Ok file /\
    (forall a, a ∈ adds -> lookup_raw_key_in_bti_partitions_db file a.1 = Ok (Some (location a.2))) /\
    (forall k, cassandra_murmur3_token k ∉ tokens adds -> lookup_raw_key_in_bti_partitions_db file k = Ok None) /\
    (forall k, exists next,
      partition_successor_in_bti_slice file (encode_partition_key_for_bti_trie k)
      = Ok ((fun a : list Z * PartitionPayload => location a.2) <$> next) /\
      match next with
      | Some a => a ∈ adds /\ cassandra_murmur3_token k < cassandra_murmur3_token a.1 /\
          Forall (fun b => cassandra_murmur3_token k < cassandra_murmur3_token b.1 ->
                           cassandra_murmur3_token a.1 <= cassandra_murmur3_token b.1) adds
      | None => Forall (fun b => cassandra_murmur3_token b.1 <= cassandra_murmur3_token k) adds
      end).
Proof. apply partitions_index. Qed.

Lemma partitions_index_exact_witness :
  NoDup (tokens [([107; 49], ToDataOffset 0); ([107; 50], ToRowsOffset 300)]) /\
  exists file, partitions_finish (partitions_of [([107; 49], ToDataOffset 0); ([107; 50], ToRowsOffset 300)]) = Ok file.
Proof.
  assert (Hn : NoDup (tokens [([107; 49], ToDataOffset 0); ([107; 50], ToRowsOffset 300)])).
  { apply (bool_decide_unpack _). vm_compute. exact I. }
  split; [exact Hn|].
  destruct (partitions_index_exact [([107; 49], ToDataOffset 0); ([107; 50], ToRowsOffset 300)]) as (file & H & _).
  - discriminate.
  - exact Hn.
  - constructor; [|constructor; [|constructor]]; (split; [split; cbn; unfold i64_MAX; lia|vm_compute; discriminate]).
  - vm_compute. discriminate.
  - exists file. exact H.
Defined.

(** C13: The bounded-memory emitter writes the bytes of the whole-tree writer. For entries
    with keys of nine bytes, ascending and distinct, whatever is in the buffer before, the
    sweep that holds only the path to the last leaf returns exactly what building the trie
    and writing it in post-order returns: the same bytes and root, or the same error. *)
Theorem sweep_matches_whole_tree entries buf :
  entries <> [] -> Forall key_ok entries -> StronglySorted (fun a b => trie_entry_cmp a b = Lt) entries ->
  emit_partitions_trie entries buf = write_node write_leaf (build_trie (map entry_pair entries)) buf.
Proof.
  intros Hne Hk Hs. apply sweep_is_write_node; [done|done|].
  clear Hne. induction Hs as [|e es _ IH Hlt]; cbn [map]; [constructor|]. apply Forall_cons in Hk as [[Hl _] Hk].
  constructor; [by apply IH|]. apply Forall_map. rewrite Forall_forall in *. intros e' He'. cbn.
  apply same_length_diverges; [|by apply Hlt]. destruct (Hk e' He') as [-> _]. done.
Qed.

Lemma sweep_matches_whole_tree_witness :
  emit_partitions_trie [mkTrieEntry [64; 0; 0; 0; 0; 0; 0; 0; 1] 7 (ToDataOffset 9); mkTrieEntry [64; 0; 0; 0; 0; 0; 0; 2; 0] 8 (ToRowsOffset 10)] []
  = write_node write_leaf (build_trie (map entry_pair
      [mkTrieEntry [64; 0; 0; 0; 0; 0; 0; 0; 1] 7 (ToDataOffset 9); mkTrieEntry [64; 0; 0; 0; 0; 0; 0; 2; 0] 8 (ToRowsOffset 10)])) [].
Proof.
  apply sweep_matches_whole_tree.
  - discriminate.
  - repeat apply Forall_cons_2; [| |apply Forall_nil_2]; (split; [reflexivity|]); cbn [te_key];
      repeat (apply Forall_cons_2; [unfold is_byte, u_range; cbn; lia|]); apply Forall_nil_2.
  - constructor; [constructor; constructor|]. constructor; [reflexivity|constructor].
Defined.

(** Two partitions of one token are refused. *)
Lemma partitions_duplicate_refused adds :
  ~ NoDup (tokens adds) -> partitions_finish (partitions_of adds) = Err InvalidInput.
Proof.
  intros Hn. unfold partitions_finish. rewrite partitions_of_entries. fold (sorted_entries adds).
  destruct (has_duplicate (sorted_entries adds)) eqn:E; [|by apply has_duplicate_tokens in E].
  destruct adds; [|done]. by exfalso; apply Hn; constructor.
Qed.
