(* ===== verification/BtiRows.v ===== *)
(** The row index of wide partitions, Rows.db: its writer ([writer/partitions_writer.rs]),
    the resolution of a partition's entry with the validation of its root
    ([bti/parser/rows.rs], [rows_root.rs]) and the walks from the root ([rows_floor.rs]).

    A wide partition's blocks are filed under separators in a trie whose leaves hold a
    block's offset and the deletion open at its start; after the trie comes the partition's
    entry, from which a reader finds the root by a signed delta. *)

From S2P Require Import Prelude Values VInt BtiNodes BtiTrie BtiTree BtiPartitions.

Open Scope Z_scope.

(** ** Variable-length integers of Rows.db *)

(** [while n < 8 && (7 - n) + 8 * n < significant_bits { n += 1 }], [k] more times. *)
Fixpoint extra_bytes_from (k : nat) (n significant_bits : Z) : Z :=
  match k with
  | O => n
  | S k => if (7 - n) + 8 * n <? significant_bits then extra_bytes_from k (n + 1) significant_bits else n
  end.

Definition write_unsigned_vint (buf : list Z) (value : Z) : list Z :=
  let extra_bytes := if value =? 0 then 0 else extra_bytes_from 8 0 (64 - Z.of_nat (leading_zeros64 value)) in
  if extra_bytes =? 0 then buf ++ [as_u8 value]
  else if extra_bytes >=? 8 then buf ++ [0xFF] ++ be_bytes 8 value
  else
    let data_bits_first := 7 - extra_bytes in
    let leading_ones := as_u8 (Z.shiftl 0xFF (8 - extra_bytes)) in
    let total_bytes := extra_bytes + 1 in
    let tail := drop (Z.to_nat (8 - total_bytes)) (be_bytes 8 value) in
    let first := Z.lor leading_ones (Z.land (byte_of tail 0) (Z.shiftl 1 data_bits_first - 1)) in
    buf ++ [first] ++ drop 1 tail.

Definition write_signed_vint (buf : list Z) (value : Z) : list Z := write_unsigned_vint buf (zigzag_encode value).

Definition read_unsigned_vint_from_slice (data : list Z) : result Error (Z * nat) :=
  match data with
  | [] => Err Parse
  | first :: rest =>
      let extra_bytes := leading_ones8 first in
      let total := (extra_bytes + 1)%nat in
      if (length data <? total)%nat then Err Parse
      else
        let value :=
          if (8 <=? extra_bytes)%nat then 0
          else
            let data_bits := 8 - Z.of_nat extra_bytes - 1 in
            Z.land first (if data_bits =? 0 then 0 else Z.shiftl 1 data_bits - 1) in
        Ok (fold_left (fun value b => Z.lor (as_u64 (Z.shiftl value 8)) b) (take extra_bytes rest) value, total)
  end.

Definition read_signed_vint_from_slice (data : list Z) : result Error (Z * nat) :=
  '(u, n) ← read_unsigned_vint_from_slice data;
  Ok (Z.lxor (as_i64 (Z.shiftr u 1)) (- Z.land u 1), n).

(** ** Deletion times *)

Definition DA_DELETION_TIME_LIVE_SENTINEL : Z := 0x80.
Definition DA_DELETION_TIME_BODY_LEN : Z := 12.

(** A deletion is [(local_deletion_time, marked_for_delete_at)]. *)
Definition write_da_deletion_time (buf : list Z) (deletion : option (Z * Z)) : list Z :=
  match deletion with
  | None => buf ++ [0x80]
  | Some (local_deletion_time, marked_for_delete_at) =>
      buf ++ be_bytes 8 marked_for_delete_at ++ be_bytes 4 (as_u32 local_deletion_time)
  end.

Definition decode_da_deletion_time (data : list Z) (start : Z) : result Error (option (Z * Z) * Z) :=
  if start >=? zlen data then Err Parse
  else if byte_of data start =? DA_DELETION_TIME_LIVE_SENTINEL then Ok (None, 1)
  else if start + DA_DELETION_TIME_BODY_LEN >? zlen data then Err Parse
  else
    let marked_for_delete_at := swrap 64 (from_be (sub_bytes data start 8)) in
    let local_deletion_time := as_i32 (from_be (sub_bytes data (start + 8) 4)) in
    Ok (Some (local_deletion_time, marked_for_delete_at), DA_DELETION_TIME_BODY_LEN).

(** ** Writing *)

Definition FLAG_OPEN_MARKER : Z := 0x8.

Record RowIndexBlock := mkRowIndexBlock {
  separator_key : list Z;
  block_offset : Z;
  block_open_marker : option (Z * Z);
}.

(** A leaf's offset and open marker. *)
Definition write_row_leaf (leaf : Z * option (Z * Z)) (buf : list Z) : result Error (Z * list Z) :=
  let '(block_offset, open_marker) := leaf in
  if block_offset >? i64_MAX then Err InvalidInput
  else
    let offset_bytes := sized_ints_non_zero_size (as_i64 block_offset) in
    if negb ((1 <=? offset_bytes) && (offset_bytes <=? 7)) then Err InvalidInput
    else
      let payload_bits := Z.lor offset_bytes (match open_marker with Some _ => FLAG_OPEN_MARKER | None => 0 end) in
      let offset := zlen buf in
      let buf := write_sized_int_be (buf ++ [Z.land payload_bits 0x0F]) (as_i64 block_offset) offset_bytes in
      Ok (offset, match open_marker with Some m => write_da_deletion_time buf (Some m) | None => buf end).

(** [write_row_node] *)
Definition write_row_node := write_node write_row_leaf.

Definition row_trie_entry (b : RowIndexBlock) : list Z * (Z * option (Z * Z)) :=
  (separator_key b, (block_offset b, block_open_marker b)).

Definition write_trie_index_entry (buf partition_key : list Z) (data_position trie_root block_count : Z)
    (partition_deletion : option (Z * Z)) : result Error (list Z) :=
  let entry_start := zlen buf in
  let key_length := zlen partition_key in
  if key_length >? 65535 then Err InvalidInput
  else
    let buf := buf ++ be_bytes 2 key_length ++ partition_key in
    let buf := write_unsigned_vint buf data_position in
    let base := entry_start + 2 + key_length in
    let root_delta := as_i64 (trie_root - base) in
    let buf := write_signed_vint buf root_delta in
    let buf := write_unsigned_vint buf block_count in
    Ok (write_da_deletion_time buf partition_deletion).

Record PartitionRowIndex := mkRowIndex {
  ri_partition_key : list Z;
  ri_data_position : Z;
  ri_blocks : list RowIndexBlock;
  ri_partition_deletion : option (Z * Z);
}.

(** [windows(2)]: every separator below the next. *)
Fixpoint separators_ascend (blocks : list RowIndexBlock) : bool :=
  match blocks with
  | a :: (b :: _) as rest =>
      match bytes_cmp (separator_key a) (separator_key b) with Lt => separators_ascend rest | _ => false end
  | _ => true
  end.

(** [RowsTrieWriter], its partitions in the order added. *)
Definition RowsTrieWriter : Type := list PartitionRowIndex.

Definition add_partition_row_index (w : RowsTrieWriter) (partition_key : list Z) (data_position : Z)
    (blocks : list RowIndexBlock) (partition_deletion : option (Z * Z)) : RowsTrieWriter :=
  w ++ [mkRowIndex partition_key data_position blocks partition_deletion].

Definition write_partition_rows (part : PartitionRowIndex) (buf : list Z) : result Error (Z * list Z) :=
  match ri_blocks part with
  | [] => Err InvalidInput
  | _ =>
      if negb (separators_ascend (ri_blocks part)) then Err InvalidInput
      else
        root ← build_row_trie (map row_trie_entry (ri_blocks part));
        '(trie_root, buf) ← write_row_node root buf;
        let rows_offset := zlen buf in
        buf ← write_trie_index_entry buf (ri_partition_key part) (ri_data_position part) trie_root
                (zlen (ri_blocks part)) (ri_partition_deletion part);
        Ok (rows_offset, buf)
  end.

Fixpoint rows_finish_loop (parts : list PartitionRowIndex) (buf rows_offsets : list Z) :
    result Error (list Z * list Z) :=
  match parts with
  | [] => Ok (buf, rows_offsets)
  | part :: parts =>
      '(rows_offset, buf) ← write_partition_rows part buf;
      rows_finish_loop parts buf (rows_offsets ++ [rows_offset])
  end.

(** The file, and the entry's offset of each partition. *)
Definition rows_finish (w : RowsTrieWriter) : result Error (list Z * list Z) := rows_finish_loop w [] [].

(** ** Payloads *)

Record BtiRowIndexEntry := mkBtiRowIndexEntry { data_offset : Z; open_marker : option (Z * Z) }.

Definition decode_bti_row_payload (trie_data : list Z) (payload_start payload_bits : Z) :
    result Error BtiRowIndexEntry :=
  if payload_start >? zlen trie_data then Err Parse
  else
    let offset_bytes := Z.land payload_bits (Z.lnot FLAG_OPEN_MARKER) in
    if (offset_bytes =? 0) || (offset_bytes >? 7) then Err Parse
    else if payload_start + offset_bytes >? zlen trie_data then Err Parse
    else
      raw ← sized_ints_read_from_slice (sub_bytes trie_data payload_start offset_bytes);
      open_marker ← (if negb (Z.land payload_bits FLAG_OPEN_MARKER =? 0) then
                       '(deletion, _) ← decode_da_deletion_time trie_data (payload_start + offset_bytes); Ok deletion
                     else Ok None);
      Ok (mkBtiRowIndexEntry (as_u64 raw) open_marker).

Definition read_row_node_payload_with (parsed : option BtiNode) (trie_data : list Z) (node_offset : Z) :
    result Error (option BtiRowIndexEntry) :=
  if node_offset >=? zlen trie_data then Err Parse
  else
    let header_byte := byte_of trie_data node_offset in
    let ordinal := Z.land (Z.shiftr header_byte 4) 0x0F in
    let payload_flags := Z.land header_byte 0x0F in
    if (ordinal =? 1) || (ordinal =? 3) then Ok None
    else if ordinal =? 0 then
      if payload_flags =? 0 then Err Parse
      else p ← decode_bti_row_payload trie_data (node_offset + 1) payload_flags; Ok (Some p)
    else if negb (payload_flags =? 0) then
      node ← match parsed with
             | Some n => Ok n
             | None => parse_bti_node (drop (Z.to_nat node_offset) trie_data) node_offset
             end;
      p ← decode_bti_row_payload trie_data (payload_start_in_node node trie_data node_offset) payload_flags;
      Ok (Some p)
    else Ok None.

Definition read_row_node_payload := read_row_node_payload_with None.

Definition rows_floor_block := floor read_row_node_payload.
Definition rows_strict_ceiling_block := strict_ceiling read_row_node_payload.

(** ** The root of a partition's trie *)

Inductive RowsTrieRootRejectReason :=
| NotBelowEntry
| PayloadIncapableNodeType (header_byte : Z)
| ChildlessRootWithoutPayload (header_byte : Z)
| TruncatedNode
| SparseNodeWithoutTransitions
| InvalidPayloadBits (payload_bits : Z)
| ExtentNotAtEntry (extent_end : Z).

Record RowsTrieRootRejection := mkRejection {
  resolved_offset : Z;
  rejected_rows_offset : Z;
  reason : RowsTrieRootRejectReason;
}.

(** [slice.get(i)] of a buffer. *)
Definition get_byte (data : list Z) (i : Z) : result RowsTrieRootRejectReason Z :=
  ok_or TruncatedNode (data !! Z.to_nat i).

Definition node_structure_len (rows_db : list Z) (node_offset : Z) : result RowsTrieRootRejectReason Z :=
  header_byte ← get_byte rows_db node_offset;
  let ordinal := Z.land (Z.shiftr header_byte 4) 0x0F in
  let ptr_bytes := pointer_bytes_for_ordinal ordinal in
  match ordinal with
  | 0 => Ok 1
  | 1 => Ok 2
  | 2 => Ok 3
  | 3 => Ok 3
  | 4 => Ok 4
  | 5 | 6 | 7 | 8 | 9 =>
      count ← get_byte rows_db (node_offset + 1);
      if count =? 0 then Err SparseNodeWithoutTransitions
      else Ok (2 + count + ptr_area (ordinal =? 6) ptr_bytes count)
  | _ =>
      b ← get_byte rows_db (node_offset + 2);
      let range_len := b + 1 in
      Ok (3 + ptr_area (ordinal =? 10) ptr_bytes range_len)
  end.

Record RowsNodeExtent := mkExtent { shortest_end : Z; ambiguous_end : option Z }.

Definition ends_at (e : RowsNodeExtent) (offset : Z) : bool :=
  (shortest_end e =? offset) || bool_decide (ambiguous_end e = Some offset).

Definition rows_payload_lens (rows_db : list Z) (payload_start payload_bits : Z) :
    result RowsTrieRootRejectReason (Z * option Z) :=
  let offset_bytes := Z.land payload_bits (Z.lnot FLAG_OPEN_MARKER) in
  if offset_bytes =? 0 then Err (InvalidPayloadBits payload_bits)
  else
    let after_offset := payload_start + offset_bytes in
    if after_offset >? zlen rows_db then Err TruncatedNode
    else if Z.land payload_bits FLAG_OPEN_MARKER =? 0 then Ok (offset_bytes, None)
    else
      first ← get_byte rows_db after_offset;
      let body_len := DA_DELETION_TIME_BODY_LEN in
      let body_fits := after_offset + body_len <=? zlen rows_db in
      if first =? DA_DELETION_TIME_LIVE_SENTINEL then
        Ok (offset_bytes + 1, if body_fits then Some (offset_bytes + body_len) else None)
      else if body_fits then Ok (offset_bytes + body_len, None)
      else Err TruncatedNode.

Definition rows_node_serialized_extent (rows_db : list Z) (node_offset : Z) :
    result RowsTrieRootRejectReason RowsNodeExtent :=
  header_byte ← get_byte rows_db node_offset;
  let payload_bits := Z.land header_byte 0x0F in
  structure_len ← node_structure_len rows_db node_offset;
  let payload_start := node_offset + structure_len in
  if payload_start >? zlen rows_db then Err TruncatedNode
  else
    let ordinal := Z.land (Z.shiftr header_byte 4) 0x0F in
    '(payload_len, ambiguous_payload_len) ←
      (if (payload_bits =? 0) || (ordinal =? 1) || (ordinal =? 3) then Ok (0, None)
       else rows_payload_lens rows_db payload_start payload_bits);
    let e := payload_start + payload_len in
    if e >? zlen rows_db then Err TruncatedNode
    else
      Ok (mkExtent e (len ← ambiguous_payload_len;
                      let alt := payload_start + len in
                      if alt <=? zlen rows_db then Some alt else None)).

(** The validated root's offset. *)
Definition validate_rows_trie_root (rows_db : list Z) (resolved_root rows_offset : Z) :
    result RowsTrieRootRejection Z :=
  let reject := mkRejection resolved_root rows_offset in
  if (resolved_root <? 0) || (resolved_root >=? rows_offset) then Err (reject NotBelowEntry)
  else
    let root := resolved_root in
    match rows_db !! Z.to_nat root with
    | None => Err (reject TruncatedNode)
    | Some header_byte =>
        let ordinal := Z.land (Z.shiftr header_byte 4) 0x0F in
        if (ordinal =? 1) || (ordinal =? 3) then Err (reject (PayloadIncapableNodeType header_byte))
        else if (ordinal =? 0) && (Z.land header_byte 0x0F =? 0)
        then Err (reject (ChildlessRootWithoutPayload header_byte))
        else
          match rows_node_serialized_extent rows_db root with
          | Err r => Err (reject r)
          | Ok extent =>
              if negb (ends_at extent rows_offset) then Err (reject (ExtentNotAtEntry (shortest_end extent)))
              else Ok root
          end
    end.

(** ** The entry of a partition *)

Record BtiRowIndexHeader := mkRowIndexHeader {
  data_position : Z;
  trie_root : result RowsTrieRootRejection Z;
  block_count : Z;
  partition_deletion : option (Z * Z);
}.

Definition require_trie_root (h : BtiRowIndexHeader) : result Error Z :=
  match trie_root h with Ok root => Ok root | Err _ => Err Parse end.

(** [i64::saturating_add] *)
Definition sat_add_i64 (a b : Z) : Z := Z.max i64_MIN (Z.min (a + b) i64_MAX).

(** [resolve_rows_db_entry], and its variant that does not count. *)
Definition resolve_rows_db_entry (rows_db : list Z) (rows_offset : Z) : result Error BtiRowIndexHeader :=
  if rows_offset + 2 >? zlen rows_db then Err Parse
  else
    let key_length := from_be (sub_bytes rows_db rows_offset 2) in
    let entry_start := rows_offset + 2 + key_length in
    if entry_start >? zlen rows_db then Err Parse
    else
      let base := entry_start in
      let cur := entry_start in
      '(data_position, n) ← read_unsigned_vint_from_slice (drop (Z.to_nat cur) rows_db);
      let cur := cur + Z.of_nat n in
      '(root_delta, n) ← read_signed_vint_from_slice (drop (Z.to_nat cur) rows_db);
      let cur := cur + Z.of_nat n in
      let trie_root_signed := sat_add_i64 root_delta (as_i64 base) in
      let trie_root := validate_rows_trie_root rows_db trie_root_signed rows_offset in
      '(block_count_u64, n) ← read_unsigned_vint_from_slice (drop (Z.to_nat cur) rows_db);
      let cur := cur + Z.of_nat n in
      _ ← (if block_count_u64 >? 2 ^ 32 - 1 then Err Parse else Ok ());
      let partition_deletion :=
        match decode_da_deletion_time rows_db cur with Ok (deletion, _) => deletion | Err _ => None end in
      Ok (mkRowIndexHeader data_position trie_root block_count_u64 partition_deletion).

(** ** Blocks of a range, from the list of all *)

Definition bytes_le (a b : list Z) : bool := match bytes_cmp a b with Gt => false | _ => true end.

Fixpoint select_blocks (entries : list (list Z * BtiRowIndexEntry)) (start stop : list Z) : list BtiRowIndexEntry :=
  match entries with
  | [] => []
  | (sep, block) :: rest =>
      let next_is_greater_than_start :=
        match rest with
        | (sep_next, _) :: _ => match bytes_cmp sep_next start with Gt => true | _ => false end
        | [] => true
        end in
      (if bytes_le sep stop && next_is_greater_than_start then [block] else []) ++ select_blocks rest start stop
  end.

Definition select_row_index_blocks_for_range (entries : list (list Z * BtiRowIndexEntry)) (start stop : list Z) :
    list BtiRowIndexEntry :=
  match bytes_cmp start stop, entries with
  | Gt, _ | _, [] => []
  | _, _ => select_blocks entries start stop
  end.
