(* ===== verification/BtiRowsProps.v ===== *)
(** Theorems about Rows.db: its integers and deletion times read back; the entry of every
    wide partition is resolved with its validated root, and the walks from the root find
    the blocks around a key. *)

From S2P Require Import Prelude Values VInt Oss50 BtiNodes BtiTrie BtiTree BtiWalks BtiPartitions BtiPartitionsProps BtiRows.

Open Scope Z_scope.

(** ** Integers *)

Lemma extra_bytes_eq v : 0 < v < 2 ^ 64 ->
  extra_bytes_from 8 0 (64 - Z.of_nat (leading_zeros64 v)) = Z.of_nat (extra_of v).
Proof.
  intros Hv. rewrite leading_zeros_log2 by done.
  assert (Hlog : 0 <= Z.log2 v < 64) by (split; [apply Z.log2_nonneg|apply Z.log2_lt_pow2; lia]).
  assert (D : forall l, 0 <= l < 64 -> extra_bytes_from 8 0 (l + 1)
    = if l <? 7 then 0 else if l <? 14 then 1 else if l <? 21 then 2 else if l <? 28 then 3 else if l <? 35 then 4
      else if l <? 42 then 5 else if l <? 49 then 6 else if l <? 56 then 7 else 8).
  { intros l Hl. cbn [extra_bytes_from]. repeat case_zb; lia. }
  rewrite D by lia. unfold extra_of.
  assert (Hlt : forall k, 0 <= k -> Z.log2 v < k <-> v <= 2 ^ k - 1).
  { intros k Hk. rewrite <- Z.log2_lt_pow2 by lia. lia. }
  pose proof (Hlt 7) as H7. pose proof (Hlt 14) as H14. pose proof (Hlt 21) as H21. pose proof (Hlt 28) as H28.
  pose proof (Hlt 35) as H35. pose proof (Hlt 42) as H42. pose proof (Hlt 49) as H49. pose proof (Hlt 56) as H56.
  cbn in H7, H14, H21, H28, H35, H42, H49, H56. clear D Hlt.
  repeat case_zb; lia.
Qed.

Lemma write_unsigned_vint_eq buf v : is_u64 v -> write_unsigned_vint buf v = buf ++ canonical (extra_of v) v.
Proof.
  intros Hv. unfold write_unsigned_vint. unfold is_u64, u_range in Hv.
  assert ((if v =? 0 then 0 else extra_bytes_from 8 0 (64 - Z.of_nat (leading_zeros64 v))) = Z.of_nat (extra_of v)) as ->.
  { destruct (Z.eqb_spec v 0) as [->|]; [done|]. apply extra_bytes_eq. lia. }
  pose proof (extra_of_fits v Hv) as Hf. pose proof (fits_le _ _ Hf) as He. pose proof (fits_data_bits _ _ Hf) as Hd.
  revert He Hf Hd. generalize (extra_of v) as e. intros e He Hf Hd.
  destruct (Z.eqb_spec (Z.of_nat e) 0) as [E|E].
  { assert (e = 0%nat) as -> by lia. unfold canonical. cbn [be_bytes]. f_equal. f_equal.
    change (8 * Z.of_nat 0) with 0 in *. rewrite Z.shiftr_0_r in *. change (Z.max 1 (2 ^ (7 - Z.of_nat 0))) with 128 in Hd.
    transitivity v; [apply wrap_id; unfold u_range; change (2 ^ 8) with 256; lia|]. done. }
  destruct (Z.geb_spec (Z.of_nat e) 8).
  { assert (e = 8%nat) as -> by lia. unfold canonical. rewrite shiftr_big by (done || lia). done. }
  unfold canonical. replace (Z.to_nat (8 - (Z.of_nat e + 1))) with (8 - S e)%nat by lia.
  rewrite be_bytes_drop by lia. cbn [be_bytes drop app]. do 2 f_equal. unfold byte_of. cbn [Z.to_nat nth].
  rewrite land_255, land_low_mask by lia. change (as_u8 (Z.shiftl 255 (8 - Z.of_nat e))) with (Z.shiftl 255 (8 - Z.of_nat e) mod 2 ^ 8).
  rewrite land_255. f_equal. assert (Hp : 0 < 2 ^ (7 - Z.of_nat e)) by (apply Z.pow_pos_nonneg; lia).
  assert (2 ^ (7 - Z.of_nat e) <= 2 ^ 7) by (apply Z.pow_le_mono_r; lia). change (2 ^ 7) with 128 in *.
  rewrite (Z.mod_small _ 256) by lia. apply Z.mod_small. lia.
Qed.

Lemma read_vint_canonical e v rest : fits e v -> read_unsigned_vint_from_slice (canonical e v ++ rest) = Ok (v, S e).
Proof.
  intros Hf. pose proof (lead_facts e _ (fits_le _ _ Hf) (fits_data_bits _ _ Hf)) as Hl.
  pose proof (fits_le _ _ Hf) as He. pose proof (fits_data_bits _ _ Hf) as Hd. pose proof (fits_u64 _ _ Hf) as Hv.
  unfold lead_ok in Hl. rewrite !andb_true_iff in Hl. destruct Hl as [[[Hlo _] _] Hm].
  apply Nat.eqb_eq in Hlo. apply Z.eqb_eq in Hm. unfold canonical. cbn [app].
  unfold read_unsigned_vint_from_slice. set (h := Z.lor _ _) in *. rewrite Hlo.
  rewrite (proj2 (Nat.ltb_ge _ _)) by (cbn [length]; rewrite length_app, be_bytes_length; lia).
  rewrite take_app_length' by (by rewrite be_bytes_length). replace (e + 1)%nat with (S e) by lia. do 2 f_equal.
  unfold is_u64, u_range in Hv.
  assert (Hlead : (if (8 <=? e)%nat then 0
    else Z.land h (if 8 - Z.of_nat e - 1 =? 0 then 0 else Z.shiftl 1 (8 - Z.of_nat e - 1) - 1)) = Z.shiftr v (8 * Z.of_nat e)).
  { destruct (Nat.leb_spec 8 e).
    - assert (e = 8%nat) as -> by lia. by rewrite shiftr_big by (unfold u_range; lia).
    - replace (e =? 8)%nat with false in Hm by (symmetry; apply Nat.eqb_neq; lia). rewrite <- Hm.
      replace (8 - Z.of_nat e - 1) with (7 - Z.of_nat e) by lia. by destruct (Z.eqb_spec (7 - Z.of_nat e) 0) as [->|]. }
  rewrite Hlead.
  assert (Hsum : Z.shiftr v (8 * Z.of_nat e) * 256 ^ zlen (be_bytes e v) + from_be (be_bytes e v) = v).
  { unfold zlen. rewrite be_bytes_length, from_be_bytes, pow256, Z.shiftr_div_pow2 by lia.
    pose proof (Z.div_mod v (2 ^ (8 * Z.of_nat e))). assert (0 < 2 ^ (8 * Z.of_nat e)) by (apply Z.pow_pos_nonneg; lia). lia. }
  rewrite fold_be, Hsum; [done|apply be_bytes_bytes|apply Hd|lia].
Qed.

Lemma read_vint v rest : is_u64 v -> read_unsigned_vint_from_slice (canonical (extra_of v) v ++ rest) = Ok (v, S (extra_of v)).
Proof. intros Hv. by apply read_vint_canonical, extra_of_fits. Qed.

(** A signed integer's zigzag form is undone without its mask. *)
Lemma read_signed_vint v rest :
  is_i64 v ->
  read_signed_vint_from_slice (canonical (extra_of (zigzag_encode v)) (zigzag_encode v) ++ rest)
  = Ok (v, S (extra_of (zigzag_encode v))).
Proof.
  intros Hv. unfold read_signed_vint_from_slice. rewrite read_vint by (by apply zigzag_encode_u64).
  cbn [mbind result_bind]. do 2 f_equal. rewrite zigzag_encode_arith by done. unfold is_i64, i_range in Hv.
  change (2 ^ (64 - 1)) with 9223372036854775808 in Hv. rewrite Z.shiftr_div_pow2 by lia. change (2 ^ 1) with 2.
  assert (L1 : forall u, Z.land u 1 = u mod 2) by (intros u; apply (Z.land_ones u 1); lia). rewrite L1.
  assert (Hid : forall x, 0 <= x < 9223372036854775808 -> as_i64 x = x).
  { intros x Hx. apply swrap_id; [lia|]. unfold i_range. change (2 ^ (64 - 1)) with 9223372036854775808. lia. }
  destruct (Z.geb_spec v 0) as [Hs|Hs].
  2: { replace (-2 * v - 1) with (1 + (- v - 1) * 2) by lia. rewrite Z.div_add, Z_mod_plus_full by lia.
    change (1 / 2) with 0. change (1 mod 2) with 1. rewrite Hid by lia.
    change (- 1) with (-1). rewrite Z.lxor_m1_r. unfold Z.lnot. lia. }
  replace (2 * v) with (v * 2) by lia. rewrite Z.div_mul, Z_mod_mult by lia. rewrite Hid by lia. apply Z.lxor_0_r.
Qed.

(** ** Deletion times *)

Definition da_bytes (deletion : option (Z * Z)) : list Z :=
  match deletion with
  | None => [0x80]
  | Some (ldt, mfda) => be_bytes 8 mfda ++ be_bytes 4 (as_u32 ldt)
  end.

Lemma write_da_eq buf deletion : write_da_deletion_time buf deletion = buf ++ da_bytes deletion.
Proof. by destruct deletion as [[]|]. Qed.

(** Deletions whose first byte is not the live sentinel's. *)
Definition da_ok (deletion : option (Z * Z)) : Prop :=
  match deletion with
  | None => True
  | Some (ldt, mfda) => i_range 32 ldt /\ i64_MIN + 2 ^ 56 <= mfda <= i64_MAX
  end.

Lemma da_decodes data start deletion :
  da_ok deletion -> bytes_at data start (da_bytes deletion) ->
  decode_da_deletion_time data start = Ok (deletion, zlen (da_bytes deletion)).
Proof.
  intros Hok Hb. pose proof (bytes_at_inside _ _ _ Hb) as [H0 Hin]. unfold decode_da_deletion_time.
  destruct deletion as [[ldt mfda]|]; cbn [da_bytes da_ok] in *.
  - destruct Hok as [Hl Hm]. pose proof Hb as Hb'. apply bytes_at_prefix in Hb' as H8.
    apply bytes_at_suffix in Hb as H4. rewrite zlen_app in Hin.
    assert (E8 : zlen (be_bytes 8 mfda) = 8) by done. assert (E4 : zlen (be_bytes 4 (as_u32 ldt)) = 4) by done. rewrite E8 in *. rewrite E4 in *.
    destruct (Z.geb_spec start (zlen data)); [lia|].
    apply bytes_at_prefix in Hb' as Hh. cbn [be_bytes] in Hh. apply bytes_at_cons in Hh as [Hh _]. rewrite Hh.
    change DA_DELETION_TIME_LIVE_SENTINEL with 0x80. unfold i64_MIN, i64_MAX in Hm. change (2 ^ 63) with 9223372036854775808 in Hm. change (2 ^ 56) with 72057594037927936 in Hm.
    assert (Hne : Z.land (Z.shiftr mfda (8 * Z.of_nat 7)) 255 <> 0x80).
    { rewrite land_255, Z.shiftr_div_pow2 by lia. change (2 ^ (8 * Z.of_nat 7)) with 72057594037927936.
      set (q := mfda / 72057594037927936). assert (-127 <= q <= 127).
      { unfold q. split; [apply Z.div_le_lower_bound; lia|]. apply Z.lt_succ_r, Z.div_lt_upper_bound; lia. }
      destruct (Z.ltb_spec q 0); [|rewrite Z.mod_small by lia; lia].
      rewrite <- (Z.mod_unique q 256 (-1) (q + 256)) by lia. lia. }
    rewrite (proj2 (Z.eqb_neq _ _) Hne). unfold DA_DELETION_TIME_BODY_LEN.
    destruct (Z.gtb_spec (start + 12) (zlen data)); [lia|].
    rewrite (bytes_at_sub _ _ _ 8 H8) by done. rewrite (bytes_at_sub _ _ _ 4 H4) by done. rewrite zlen_app, E8, E4.
    do 4 f_equal.
    + unfold as_i32. rewrite from_be_bytes, pow256. unfold as_u32. change (8 * Z.of_nat 4) with 32.
      change (wrap 32 ldt mod 2 ^ 32) with (wrap 32 (wrap 32 ldt)). rewrite !swrap_wrap by lia. by apply swrap_id.
    + rewrite from_be_bytes, pow256. change (8 * Z.of_nat 8) with 64. change (mfda mod 2 ^ 64) with (wrap 64 mfda).
      rewrite swrap_wrap by lia. apply swrap_id; [lia|]. unfold i_range. change (2 ^ (64 - 1)) with 9223372036854775808. lia.
  - change (zlen [128]) with 1 in *. destruct (Z.geb_spec start (zlen data)); [lia|].
    apply bytes_at_cons in Hb as [Hh _]. by rewrite Hh.
Qed.

(** ** The codec of a row's leaf *)

Definition row_leaf_ok (leaf : Z * option (Z * Z)) : Prop := 0 <= leaf.1 < 2 ^ 55 /\ da_ok leaf.2.

Definition row_view (leaf : Z * option (Z * Z)) : BtiRowIndexEntry := mkBtiRowIndexEntry leaf.1 leaf.2.

Definition row_leaf_bytes (off : Z) (marker : option (Z * Z)) : list Z :=
  let n := sized_ints_non_zero_size off in
  Z.land (Z.lor n (match marker with Some _ => FLAG_OPEN_MARKER | None => 0 end)) 0x0F
  :: be_bytes (Z.to_nat n) off ++ match marker with Some m => da_bytes (Some m) | None => [] end.

Lemma row_leaf_appends off marker buf o buf' :
  write_row_leaf (off, marker) buf = Ok (o, buf') -> o = zlen buf /\ buf' = buf ++ row_leaf_bytes (as_i64 off) marker.
Proof.
  unfold write_row_leaf. destruct (off >? i64_MAX); [done|].
  destruct (non_zero_size_fits (as_i64 off)) as [Hn _]; [by apply swrap_range|].
  destruct (negb _); [done|]. intros [= <- <-]. split; [done|]. rewrite write_sized_eq by lia. unfold row_leaf_bytes.
  destruct marker as [[ldt mfda]|]; [cbn [da_bytes]|rewrite app_nil_r]; by rewrite <- !app_assoc.
Qed.

Lemma small_size off : 0 <= off < 2 ^ 55 -> 1 <= sized_ints_non_zero_size off <= 7.
Proof.
  intros Ho. unfold sized_ints_non_zero_size. destruct (Z.ltb_spec off 0); [lia|].
  destruct (Z.eqb_spec off 0); [lia|]. change (2 ^ 55) with 36028797018963968 in Ho. rewrite leading_zeros_log2 by lia. unfold div_ceil.
  assert (0 <= Z.log2 off < 55) by (split; [apply Z.log2_nonneg|apply Z.log2_lt_pow2; lia]).
  assert ((Z.log2 off + 1 + 1 + 8 - 1) / 8 <= 7); [|lia]. apply Z.lt_succ_r, Z.div_lt_upper_bound; lia.
Qed.

Lemma write_row_leaf_eq off marker buf :
  0 <= off < 2 ^ 55 -> write_row_leaf (off, marker) buf = Ok (zlen buf, buf ++ row_leaf_bytes off marker).
Proof.
  intros Ho. assert (Hid : as_i64 off = off).
  { apply swrap_id; [lia|]. unfold i_range. change (2 ^ 55) with 36028797018963968 in Ho. change (2 ^ (64 - 1)) with 9223372036854775808. lia. }
  destruct (write_row_leaf (off, marker) buf) as [[o buf']|e] eqn:E.
  - apply row_leaf_appends in E as [-> ->]. by rewrite Hid.
  - exfalso. unfold write_row_leaf in E. destruct (Z.gtb_spec off i64_MAX) as [H|H].
    { unfold i64_MAX in H. change (2 ^ 55) with 36028797018963968 in Ho. change (2 ^ 63 - 1) with 9223372036854775807 in H. lia. }
    rewrite Hid in E. pose proof (small_size off Ho) as [H1 H2].
    rewrite (proj2 (Z.leb_le _ _) H1), (proj2 (Z.leb_le _ _) H2) in E. done.
Qed.

Lemma row_header n (flag : bool) : 1 <= n <= 7 ->
  let h := Z.land (Z.lor n (if flag then FLAG_OPEN_MARKER else 0)) 0x0F in
  Z.land (Z.shiftr h 4) 0x0F = 0 /\ Z.land h 0x0F <> 0 /\
  Z.land (Z.land h 0x0F) (Z.lnot FLAG_OPEN_MARKER) = n /\
  negb (Z.land (Z.land h 0x0F) FLAG_OPEN_MARKER =? 0) = flag.
Proof.
  intros Hn. assert (In n (seqZ 1 7)) as Hin by (apply list_elem_of_In, elem_of_seqZ; lia).
  vm_compute seqZ in Hin. cbn in Hin.
  repeat (destruct Hin as [<-|Hin]; [by destruct flag|]). done.
Qed.

#[export] Instance row_leaf_codec : LeafCodec write_row_leaf read_row_node_payload row_leaf_ok row_view.
Proof.
  split.
  - intros [off marker] buf o buf' H. pose proof H as H'. apply row_leaf_appends in H' as [-> ->]. split; [done|].
    exists (row_leaf_bytes (as_i64 off) marker). split; [done|]. intros buf2 <-.
    destruct (write_row_leaf (off, marker) buf2) as [[o2 b2]|] eqn:E.
    + by apply row_leaf_appends in E as [-> ->].
    + unfold write_row_leaf in H, E. destruct (off >? i64_MAX); [done|]. by destruct (negb _).
  - intros [off marker] o bs data [Hoff Hda] Ha Hb. cbn [fst snd] in Hoff, Hda.
    assert (bs = row_leaf_bytes off marker) as ->.
    { destruct Hb as (pre & post & _ & Ho). specialize (Ha pre Ho). rewrite write_row_leaf_eq in Ha by done.
      injection Ha as _ Ha. by apply app_inv_head in Ha. }
    pose proof (small_size off Hoff) as Hn. pose proof (bytes_at_inside _ _ _ Hb) as [H0 Hin].
    unfold row_leaf_bytes in *. set (n := sized_ints_non_zero_size off) in *.
    apply bytes_at_cons in Hb as [Hh Hb]. rewrite Hh. rewrite zlen_cons, zlen_app in Hin.
    assert (Hlen : zlen (be_bytes (Z.to_nat n) off) = n) by (unfold zlen; rewrite be_bytes_length; lia). rewrite Hlen in Hin.
    pose proof (row_header n (match marker with Some _ => true | None => false end) Hn) as Hhd. cbn beta zeta in Hhd.
    replace (if match marker with Some _ => true | None => false end then FLAG_OPEN_MARKER else 0)
      with (match marker with Some _ => FLAG_OPEN_MARKER | None => 0 end) in Hhd by (by destruct marker).
    destruct Hhd as (E1 & E2 & E3 & E4). pose proof (zlen_nonneg (match marker with Some m => da_bytes (Some m) | None => [] end)).
    split; [lia|]. split; [done|]. split; [done|].
    unfold read_row_node_payload, read_row_node_payload_with. destruct (Z.geb_spec o (zlen data)); [lia|].
    rewrite Hh, E1. cbn [Z.eqb orb]. rewrite (proj2 (Z.eqb_neq _ _) E2). unfold decode_bti_row_payload.
    destruct (Z.gtb_spec (o + 1) (zlen data)); [lia|]. rewrite E3, E4.
    destruct (Z.eqb_spec n 0); [lia|]. destruct (Z.gtb_spec n 7); [lia|]. cbn [orb].
    destruct (Z.gtb_spec (o + 1 + n) (zlen data)); [lia|].
    apply bytes_at_prefix in Hb as Hb1. rewrite (bytes_at_sub _ _ _ n Hb1) by done. unfold n.
    assert (Hi : is_i64 off) by (unfold is_i64, i_range; change (2 ^ 55) with 36028797018963968 in Hoff; change (2 ^ (64 - 1)) with 9223372036854775808; lia).
    rewrite sized_int_roundtrip by done. cbn [mbind result_bind]. fold n.
    assert (as_u64 off = off) as ->.
    { apply wrap_id. unfold u_range. change (2 ^ 55) with 36028797018963968 in Hoff. lia. }
    apply bytes_at_suffix in Hb. rewrite Hlen in Hb. destruct marker as [m|]; [|done].
    by rewrite (da_decodes data (o + 1 + n) (Some m)).
  - intros data o Ho Hord Hf. unfold read_row_node_payload, read_row_node_payload_with.
    destruct (Z.geb_spec o (zlen data)); [lia|].
    set (ord := Z.land (Z.shiftr (byte_of data o) 4) 0x0F) in *. rewrite Hf.
    rewrite !(proj2 (Z.eqb_neq ord _)) by lia. done.
Qed.

Lemma write_row_leaf_total leaf buf :
  row_leaf_ok leaf ->
  exists o buf', write_row_leaf leaf buf = Ok (o, buf') /\ zlen buf <= o <= zlen buf' /\ zlen buf' <= zlen buf + 20.
Proof.
  destruct leaf as [off marker]. intros [Ho _]. cbn [fst] in Ho. rewrite write_row_leaf_eq by done. do 2 eexists. split; [done|].
  pose proof (small_size off Ho). rewrite zlen_app. unfold row_leaf_bytes, zlen. cbn [length]. rewrite length_app, be_bytes_length.
  destruct marker as [[]|]; cbn [da_bytes length]; rewrite ?length_app, ?be_bytes_length; lia.
Qed.

(** ** The entry of a partition *)

Definition vint_bytes (v : Z) : list Z := canonical (extra_of v) v.

Definition entry_bytes (part : PartitionRowIndex) (root base : Z) : list Z :=
  (be_bytes 2 (zlen (ri_partition_key part)) ++ ri_partition_key part) ++
  vint_bytes (ri_data_position part) ++ vint_bytes (zigzag_encode (root - base)) ++
  vint_bytes (zlen (ri_blocks part)) ++ da_bytes (ri_partition_deletion part).

Record part_ok (part : PartitionRowIndex) : Prop := {
  po_blocks : ri_blocks part <> [];
  po_leaves : Forall (fun b => entry_ok row_leaf_ok (row_trie_entry b)) (ri_blocks part);
  po_ascend : StronglySorted (fun a b => diverges (separator_key a) (separator_key b)) (ri_blocks part);
  po_count : zlen (ri_blocks part) < 2 ^ 32;
  po_key : zlen (ri_partition_key part) <= 65535;
  po_position : is_u64 (ri_data_position part);
  po_deletion : da_ok (ri_partition_deletion part);
}.

Lemma count_u64 part : part_ok part -> is_u64 (zlen (ri_blocks part)).
Proof. intros []. pose proof (zlen_nonneg (ri_blocks part)). unfold is_u64, u_range. lia. Qed.

Lemma near_i64 x y : 0 <= x < 2 ^ 41 -> 0 <= y < 2 ^ 41 -> is_i64 (x - y).
Proof. unfold is_i64, i_range. change (2 ^ 41) with 2199023255552. change (2 ^ (64 - 1)) with 9223372036854775808. lia. Qed.

Lemma write_entry_eq part buf root :
  part_ok part -> 0 <= root < 2 ^ 41 -> zlen buf < 2 ^ 40 ->
  write_trie_index_entry buf (ri_partition_key part) (ri_data_position part) root (zlen (ri_blocks part)) (ri_partition_deletion part)
  = Ok (buf ++ entry_bytes part root (zlen buf + 2 + zlen (ri_partition_key part))).
Proof.
  intros Hok Hr Hb. pose proof (count_u64 part Hok) as Hc. destruct Hok. pose proof (zlen_nonneg (ri_partition_key part)). pose proof (zlen_nonneg buf).
  unfold write_trie_index_entry. destruct (Z.gtb_spec (zlen (ri_partition_key part)) 65535); [lia|].
  assert (Hi : is_i64 (root - (zlen buf + 2 + zlen (ri_partition_key part)))).
  { apply near_i64; [done|]. change (2 ^ 40) with 1099511627776 in Hb. change (2 ^ 41) with 2199023255552. lia. }
  assert (as_i64 (root - (zlen buf + 2 + zlen (ri_partition_key part))) = root - (zlen buf + 2 + zlen (ri_partition_key part))) as ->.
  { by apply swrap_id. }
  unfold write_signed_vint. rewrite write_da_eq, !write_unsigned_vint_eq by (done || by apply zigzag_encode_u64).
  unfold entry_bytes, vint_bytes. by rewrite <- !app_assoc.
Qed.

Lemma bytes_at_drop data off bs : bytes_at data off bs -> exists post, drop (Z.to_nat off) data = bs ++ post.
Proof. intros (pre & post & -> & <-). exists post. unfold zlen. by rewrite Nat2Z.id, drop_app_length. Qed.

Lemma vint_at data off v rest :
  is_u64 v -> bytes_at data off (vint_bytes v ++ rest) ->
  read_unsigned_vint_from_slice (drop (Z.to_nat off) data) = Ok (v, S (extra_of v)) /\
  bytes_at data (off + Z.of_nat (S (extra_of v))) rest.
Proof.
  intros Hv Hb. split.
  - destruct (bytes_at_drop _ _ _ Hb) as (post & ->). unfold vint_bytes. rewrite <- app_assoc. by apply read_vint.
  - apply bytes_at_suffix in Hb. unfold vint_bytes, zlen in Hb. by rewrite canonical_length in Hb.
Qed.

Lemma signed_vint_at data off v rest :
  is_i64 v -> bytes_at data off (vint_bytes (zigzag_encode v) ++ rest) ->
  read_signed_vint_from_slice (drop (Z.to_nat off) data) = Ok (v, S (extra_of (zigzag_encode v))) /\
  bytes_at data (off + Z.of_nat (S (extra_of (zigzag_encode v)))) rest.
Proof.
  intros Hv Hb. split.
  - destruct (bytes_at_drop _ _ _ Hb) as (post & ->). unfold vint_bytes. rewrite <- app_assoc. by apply read_signed_vint.
  - apply bytes_at_suffix in Hb. unfold vint_bytes, zlen in Hb. by rewrite canonical_length in Hb.
Qed.

Lemma resolve_entry data ro part root :
  part_ok part -> 0 <= root < 2 ^ 41 -> ro < 2 ^ 40 ->
  bytes_at data ro (entry_bytes part root (ro + 2 + zlen (ri_partition_key part))) ->
  resolve_rows_db_entry data ro
  = Ok (mkRowIndexHeader (ri_data_position part) (validate_rows_trie_root data root ro) (zlen (ri_blocks part)) (ri_partition_deletion part)).
Proof.
  intros Hok Hr Hro Hb. pose proof (count_u64 part Hok) as Hc. pose proof Hok as [_ _ _ Hcount Hkey Hpos Hdel].
  pose proof (bytes_at_inside _ _ _ Hb) as [H0 Hin]. pose proof (zlen_nonneg (ri_partition_key part)) as Hk0.
  unfold entry_bytes in *. pose proof Hb as Hb0. apply bytes_at_prefix in Hb0. apply bytes_at_suffix in Hb.
  apply bytes_at_prefix in Hb0 as Hkl. set (kl := zlen (ri_partition_key part)) in *.
  assert (E2 : zlen (be_bytes 2 kl) = 2) by done. rewrite zlen_app, E2 in Hb. fold kl in Hb.
  pose proof (bytes_at_inside _ _ _ Hb0) as [_ Hin0]. rewrite zlen_app, E2 in Hin0. fold kl in Hin0.
  unfold resolve_rows_db_entry. destruct (Z.gtb_spec (ro + 2) (zlen data)); [lia|].
  rewrite (bytes_at_sub _ _ _ 2 Hkl) by done.
  rewrite from_be_bytes_id by (unfold u_range; change (2 ^ (8 * Z.of_nat 2)) with 65536; lia).
  destruct (Z.gtb_spec (ro + 2 + kl) (zlen data)); [lia|]. replace (ro + (2 + kl)) with (ro + 2 + kl) in Hb by lia.
  set (base := ro + 2 + kl) in *. assert (Hbase : 0 <= base < 2 ^ 41).
  { change (2 ^ 40) with 1099511627776 in Hro. change (2 ^ 41) with 2199023255552. lia. }
  destruct (vint_at _ _ _ _ Hpos Hb) as [-> Hb1]. cbn [mbind result_bind].
  destruct (signed_vint_at _ _ _ _ (near_i64 root base Hr Hbase) Hb1) as [-> Hb2]. cbn [mbind result_bind].
  destruct (vint_at _ _ _ _ Hc Hb2) as [-> Hb3]. cbn [mbind result_bind].
  destruct (Z.gtb_spec (zlen (ri_blocks part)) (2 ^ 32 - 1)); [lia|]. cbn [mbind result_bind].
  rewrite (da_decodes _ _ _ Hdel Hb3).
  assert (as_i64 base = base) as ->.
  { apply swrap_id; [lia|]. replace base with (base - 0) by lia. apply near_i64; [done|by vm_compute]. }
  assert (sat_add_i64 (root - base) base = root) as ->; [|done].
  unfold sat_add_i64, i64_MIN, i64_MAX. change (2 ^ 63) with 9223372036854775808. change (2 ^ 41) with 2199023255552 in Hr. lia.
Qed.

(** ** The root is accepted *)

Lemma get_at data off x bs : bytes_at data off (x :: bs) -> get_byte data off = Ok x.
Proof.
  intros (pre & post & -> & <-). unfold get_byte, zlen. rewrite Nat2Z.id, lookup_app_r by lia. by rewrite Nat.sub_diag.
Qed.

Lemma root_accepted data root ro offs sparse ord p :
  shape_ok sparse ord p root offs -> 0 <= root ->
  bytes_at data root (node_head sparse ord offs ++ deltas (Z.to_nat p) root offs) ->
  ro = root + zlen (node_head sparse ord offs ++ deltas (Z.to_nat p) root offs) ->
  validate_rows_trie_root data root ro = Ok root.
Proof.
  intros ((Hord & Hptr & Hp & _) & Hlen & Hs) H0 Hb Hro. pose proof (bytes_at_inside _ _ _ Hb) as [_ Hin]. rewrite <- Hro in Hin.
  rewrite zlen_app, deltas_length, Z2Nat.id in Hro by lia.
  assert (Hhd : exists l, node_head sparse ord offs = ord * 16 :: l) by (destruct sparse; cbn; eauto).
  destruct Hhd as (l & Hhd). rewrite Hhd in Hb, Hro. cbn [app] in Hb. pose proof (get_at _ _ _ _ Hb) as Hg.
  destruct (ordinal_nibbles ord ltac:(lia)) as [E1 E2].
  assert (Hl : 0 <= zlen l) by apply zlen_nonneg. rewrite zlen_cons in Hro.
  unfold validate_rows_trie_root. destruct (Z.ltb_spec root 0); [lia|]. destruct (Z.geb_spec root ro); [nia|]. cbn [orb].
  unfold get_byte in Hg. destruct (data !! Z.to_nat root) as [hb|] eqn:Eh; [|done]. cbn in Hg. injection Hg as ->.
  rewrite E1, E2. rewrite !(proj2 (Z.eqb_neq ord _)) by lia. cbn [orb andb].
  assert (Hstruct : node_structure_len data root = Ok (ro - root)).
  { unfold node_structure_len, get_byte. rewrite Eh. cbn [ok_or mbind result_bind]. rewrite E1, Hptr.
    apply bytes_at_cons in Hb as [_ Hb]. destruct sparse; cbn [node_head app] in Hhd; injection Hhd as <-; cbn [app] in Hb.
    - apply get_at in Hb. unfold get_byte in Hb. rewrite Hb. cbn [mbind result_bind].
      destruct (Z.eqb_spec (zlen offs) 0); [lia|]. unfold ptr_area. rewrite (proj2 (Z.eqb_neq ord 6)) by lia.
      rewrite zlen_cons in Hro. unfold zlen in Hro at 1. rewrite length_map in Hro. fold (zlen offs) in Hro.
      assert (Hcase : ord = 5 \/ ord = 7 \/ ord = 8 \/ ord = 9) by lia.
      replace (ro - root) with (2 + zlen offs + zlen offs * p) by lia. by destruct Hcase as [->|[->|[->| ->]]].
    - apply bytes_at_cons in Hb as [_ Hb]. replace (root + 1 + 1) with (root + 2) in Hb by lia.
      apply get_at in Hb. unfold get_byte in Hb. rewrite Hb. cbn [mbind result_bind].
      unfold ptr_area. rewrite (proj2 (Z.eqb_neq ord 10)) by lia. destruct Hs as [Hs H256]. rewrite H256 in Hro.
      assert (Hcase : ord = 11 \/ ord = 12 \/ ord = 13 \/ ord = 14 \/ ord = 15) by lia.
      unfold zlen in Hro. cbn [length] in Hro.
      replace (ro - root) with (3 + (255 + 1) * p) by lia. by destruct Hcase as [->|[->|[->|[->| ->]]]]. }
  unfold rows_node_serialized_extent. unfold get_byte at 1. rewrite Eh. cbn [ok_or mbind result_bind]. rewrite Hstruct, E1, E2.
  cbn [mbind result_bind Z.eqb orb]. replace (root + (ro - root)) with ro by lia.
  destruct (Z.gtb_spec ro (zlen data)); [lia|]. cbn [mbind result_bind]. rewrite Z.add_0_r.
  destruct (Z.gtb_spec ro (zlen data)); [lia|]. cbn [mbind option_bind]. unfold ends_at. cbn [shortest_end]. by rewrite Z.eqb_refl.
Qed.

(** ** The file *)

(** A partition's trie and entry lie in the file. *)
Definition placed (data : list Z) (ro : Z) (part : PartitionRowIndex) : Prop :=
  exists t root offs sparse ord p,
    entries t = map row_trie_entry (ri_blocks part) /\ ordered row_leaf_ok t /\ laid write_row_leaf row_leaf_ok data root t /\
    0 <= root < 2 ^ 41 /\ ro < 2 ^ 40 /\ shape_ok sparse ord p root offs /\
    bytes_at data root (node_head sparse ord offs ++ deltas (Z.to_nat p) root offs) /\
    ro = root + zlen (node_head sparse ord offs ++ deltas (Z.to_nat p) root offs) /\
    bytes_at data ro (entry_bytes part root (ro + 2 + zlen (ri_partition_key part))).

Lemma placed_app data ext ro part : placed data ro part -> placed (data ++ ext) ro part.
Proof.
  intros (t & root & offs & sparse & ord & p & He & Ho & Hl & Hr & Hro & Hs & Hb & E & Hb2).
  exists t, root, offs, sparse, ord, p. do 2 (split; [done|]). split; [by apply laid_app|].
  do 3 (split; [done|]). split; [by apply bytes_at_app|]. split; [done|by apply bytes_at_app].
Qed.

(** A bound on what a partition takes. *)
Definition part_weight (part : PartitionRowIndex) : Z :=
  entries_weight 20 (map row_trie_entry (ri_blocks part)) + zlen (ri_partition_key part) + 41.

Lemma ascending_separators blocks :
  StronglySorted (fun a b => diverges (separator_key a) (separator_key b)) blocks -> separators_ascend blocks = true.
Proof.
  induction 1 as [|a blocks _ IH Ha]; [done|]. destruct blocks as [|b blocks]; [done|].
  apply Forall_cons in Ha as [Ha _].
  change (separators_ascend (a :: b :: blocks)) with
    (match bytes_cmp (separator_key a) (separator_key b) with Lt => separators_ascend (b :: blocks) | _ => false end).
  by rewrite (diverges_lt _ _ Ha).
Qed.

Lemma entry_length part root base : part_ok part -> zlen (entry_bytes part root base) <= zlen (ri_partition_key part) + 41.
Proof.
  intros _. unfold entry_bytes, vint_bytes, zlen. rewrite !length_app, !be_bytes_length, !canonical_length.
  pose proof (extra_of_le (ri_data_position part)). pose proof (extra_of_le (zigzag_encode (root - base))).
  pose proof (extra_of_le (Z.of_nat (length (ri_blocks part)))).
  destruct (ri_partition_deletion part) as [[]|]; cbn [da_bytes length]; rewrite ?length_app, ?be_bytes_length; lia.
Qed.

Lemma internal_root (t : TrieBuildNode (Z * option (Z * Z))) :
  Forall (entry_ok row_leaf_ok) (entries t) -> exists cs, t = Internal cs.
Proof.
  destruct t as [p|cs]; [|by exists cs]. cbn [entries]. intros H. by apply Forall_cons in H as [[? _] _].
Qed.

Lemma write_partition_nonempty part buf :
  ri_blocks part <> [] ->
  write_partition_rows part buf =
  if negb (separators_ascend (ri_blocks part)) then Err InvalidInput
  else
    root ← build_row_trie (map row_trie_entry (ri_blocks part));
    '(trie_root, buf) ← write_row_node root buf;
    buf' ← write_trie_index_entry buf (ri_partition_key part) (ri_data_position part) trie_root
             (zlen (ri_blocks part)) (ri_partition_deletion part);
    Ok (zlen buf, buf').
Proof. intros H. unfold write_partition_rows. by destruct (ri_blocks part). Qed.

Lemma write_partition_placed part buf :
  part_ok part -> zlen buf + part_weight part <= 2 ^ 40 ->
  exists ro ext, write_partition_rows part buf = Ok (ro, buf ++ ext) /\
    placed (buf ++ ext) ro part /\ zlen ext <= part_weight part.
Proof.
  intros Hok Hb. pose proof Hok as [Hne Hleaves Hasc _ _ _ _]. set (es := map row_trie_entry (ri_blocks part)) in *.
  assert (Hes : es <> []) by (by destruct (ri_blocks part)).
  destruct (build_exact row_leaf_ok es) as (Ebt & Ee & Ho); [by apply Forall_map| |done|].
  { unfold es. clear -Hasc. induction Hasc as [|a l _ IH Ha]; cbn [map]; constructor; [done|by apply Forall_map]. }
  set (t := build_trie es) in *.
  assert (Hw : weight 20 t <= entries_weight 20 es) by (rewrite <- Ee; apply (weight_entries row_leaf_ok 20 t Ho); lia).
  unfold part_weight in Hb. fold es in Hb. pose proof (zlen_nonneg (ri_partition_key part)). pose proof (zlen_nonneg buf).
  destruct (write_node_total write_row_leaf row_leaf_ok 20 write_row_leaf_total t buf Ho ltac:(lia) ltac:(lia)) as (root & buf1 & Ew & Hroot & Hbuf1).
  assert (Hb64 : zlen buf1 < 2 ^ 64).
  { change (2 ^ 40) with 1099511627776 in Hb. change (2 ^ 64) with 18446744073709551616. lia. }
  destruct (write_node_laid write_row_leaf read_row_node_payload row_leaf_ok row_view t buf root buf1 Ho Ew Hb64) as (ext & -> & Hin & Hl).
  destruct (internal_root t) as (cs & Et); [by rewrite Ee; apply Forall_map|]. rewrite Et in Ho, Ew, Hl, Ee.
  destruct (write_node_root write_row_leaf read_row_node_payload row_leaf_ok row_view cs buf root _ Ho Ew Hb64)
    as (offs & sparse & ord & p & Hsh & Hbytes & Hend).
  assert (H41 : 0 <= root < 2 ^ 41 /\ zlen (buf ++ ext) < 2 ^ 40).
  { change (2 ^ 40) with 1099511627776 in *. change (2 ^ 41) with 2199023255552. lia. }
  destruct H41 as [Hr41 Hb40]. set (ro := zlen (buf ++ ext)) in *.
  set (eb := entry_bytes part root (ro + 2 + zlen (ri_partition_key part))).
  exists ro, (ext ++ eb). rewrite app_assoc. split; [|split].
  - rewrite write_partition_nonempty by done. rewrite (ascending_separators _ Hasc). fold es. rewrite Ebt. cbn [negb mbind result_bind]. fold t. rewrite Et. unfold write_row_node. rewrite Ew.
    cbn [mbind result_bind]. fold ro. by rewrite write_entry_eq.
  - exists (Internal cs), root, offs, sparse, ord, p. do 2 (split; [done|]). split; [by apply laid_app|].
    do 3 (split; [done|]). split; [by apply bytes_at_app|]. split; [done|apply bytes_at_end].
  - rewrite zlen_app. pose proof (entry_length part root (ro + 2 + zlen (ri_partition_key part)) Hok) as Heb. fold eb in Heb.
    unfold ro in Hbuf1. rewrite zlen_app in Hbuf1. unfold part_weight. fold es. lia.
Qed.

Lemma rows_finish_placed parts : forall buf offs,
  Forall part_ok parts -> zlen buf + zsum (map part_weight parts) <= 2 ^ 40 ->
  exists ros ext, rows_finish_loop parts buf offs = Ok (buf ++ ext, offs ++ ros) /\ Forall2 (placed (buf ++ ext)) ros parts.
Proof.
  induction parts as [|part parts IH]; intros buf offs Hok Hb.
  { exists [], []. rewrite !app_nil_r. split; [done|constructor]. }
  apply Forall_cons in Hok as [Hp Hok]. cbn [map] in Hb. rewrite zsum_cons in Hb.
  assert (Hnn : 0 <= zsum (map part_weight parts)).
  { apply zsum_nonneg, Forall_map, Forall_true. intros q. unfold part_weight, entries_weight.
    pose proof (zlen_nonneg (ri_partition_key q)). enough (0 <= zsum (map (fun e : list Z * (Z * option (Z * Z)) => 12 * zlen e.1 + 20) (map row_trie_entry (ri_blocks q)))) by lia.
    apply zsum_nonneg, Forall_map, Forall_true. intros e. pose proof (zlen_nonneg e.1). lia. }
  destruct (write_partition_placed part buf Hp ltac:(lia)) as (ro & ext & Ew & Hpl & Hext).
  cbn [rows_finish_loop]. rewrite Ew. cbn [mbind result_bind].
  destruct (IH (buf ++ ext) (offs ++ [ro]) Hok) as (ros & ext2 & El & Hall).
  { rewrite zlen_app. lia. }
  exists (ro :: ros), (ext ++ ext2). rewrite El. rewrite <- !app_assoc in *. split; [done|].
  constructor; [|done]. rewrite app_assoc. by apply placed_app.
Qed.

(** The entry a reader gets of a block. *)
Definition block_view (b : RowIndexBlock) : BtiRowIndexEntry := mkBtiRowIndexEntry (block_offset b) (block_open_marker b).

(** The last block whose separator is not after a key, the first whose separator is. *)
Definition floor_of (key : list Z) (blocks : list RowIndexBlock) : option RowIndexBlock :=
  last (List.filter (fun b => bytes_le (separator_key b) key) blocks).
Definition after_of (key : list Z) (blocks : list RowIndexBlock) : option RowIndexBlock :=
  head (List.filter (fun b => negb (bytes_le (separator_key b) key)) blocks).

Lemma floor_of_entries key blocks :
  row_view <$> last_upto key (map row_trie_entry blocks) = block_view <$> floor_of key blocks.
Proof.
  unfold last_upto, floor_of.
  assert (E : List.filter (fun e => negb (key_gt key e)) (map row_trie_entry blocks)
    = row_trie_entry <$> List.filter (fun b => bytes_le (separator_key b) key) blocks).
  { induction blocks as [|b blocks IH]; [done|]. cbn [map List.filter]. rewrite IH. unfold key_gt, bytes_le. cbn [fst row_trie_entry].
    by destruct (bytes_cmp (separator_key b) key). }
  rewrite E, fmap_last. by destruct (last _).
Qed.

Lemma after_of_entries key blocks :
  row_view <$> first_after key (map row_trie_entry blocks) = block_view <$> after_of key blocks.
Proof.
  unfold first_after, after_of.
  assert (E : List.filter (key_gt key) (map row_trie_entry blocks)
    = row_trie_entry <$> List.filter (fun b => negb (bytes_le (separator_key b) key)) blocks).
  { induction blocks as [|b blocks IH]; [done|]. cbn [map List.filter]. rewrite IH. unfold key_gt, bytes_le. cbn [fst row_trie_entry].
    by destruct (bytes_cmp (separator_key b) key). }
  rewrite E. by destruct (List.filter _ blocks).
Qed.

(** A wide partition, as its readers see it. *)
Definition row_index_reads (file : list Z) (ro : Z) (part : PartitionRowIndex) : Prop :=
  exists root,
    resolve_rows_db_entry file ro
    = Ok (mkRowIndexHeader (ri_data_position part) (Ok root) (zlen (ri_blocks part)) (ri_partition_deletion part)) /\
    forall key,
      rows_floor_block file root key = Ok (block_view <$> floor_of key (ri_blocks part)) /\
      rows_strict_ceiling_block file root key = Ok (block_view <$> after_of key (ri_blocks part)).

Lemma placed_reads file ro part : part_ok part -> placed file ro part -> row_index_reads file ro part.
Proof.
  intros Hok (t & root & offs & sparse & ord & p & He & Ho & Hl & Hr & Hro & Hs & Hb & E & Hb2). exists root. split.
  - rewrite (resolve_entry file ro part root) by done. by rewrite (root_accepted file root ro offs sparse ord p) by (done || lia).
  - intros key. unfold rows_floor_block, rows_strict_ceiling_block.
    rewrite (floor_exact write_row_leaf read_row_node_payload row_leaf_ok row_view t file root key Hl Ho).
    rewrite (strict_ceiling_exact write_row_leaf read_row_node_payload row_leaf_ok row_view t file root key Hl Ho).
    by rewrite He, floor_of_entries, after_of_entries.
Qed.

(** C12: Rows.db reads back. For wide partitions of 1 to 2^32 - 1 blocks, whose separators are
    not empty, ascend and are not prefixes of one another, whose block offsets fit seven
    bytes (below 2^55), whose keys fit the 16-bit length, whose deletions do not begin with
    the live sentinel's byte, and whose total weight is at most 2^40, [finish] succeeds, and at
    the offset it returns for each partition a reader resolves that partition's data
    position, block count and deletion with a root that passes validation; from this root
    the separator floor of any key is the last block whose separator is not after it, and
    the strict ceiling the first block whose separator is, in every partition of the file. *)
Theorem row_indexes_read_back parts :
  Forall part_ok parts -> zsum (map part_weight parts) <= 2 ^ 40 ->
  exists file rows_offsets, rows_finish parts = Ok (file, rows_offsets) /\ Forall2 (row_index_reads file) rows_offsets parts.
Proof.
  intros Hok Hw. destruct (rows_finish_placed parts [] [] Hok) as (ros & ext & E & Hall); [exact Hw|].
  exists ext, ros. split; [exact E|]. clear E Hw. cbn [app] in Hall. induction Hall as [|ro part ros parts Hp _ IH]; [constructor|].
  apply Forall_cons in Hok as [Hpart Hok]. constructor; [by apply placed_reads|by apply IH].
Qed.

Definition sample_part : PartitionRowIndex :=
  mkRowIndex [107; 49] 4096
    [mkRowIndexBlock [0x40; 0x80; 0; 0; 1] 20 None; mkRowIndexBlock [0x40; 0x80; 0; 0; 9] 16404 (Some (1700000000, 55))] None.

Lemma sample_part_ok : part_ok sample_part.
Proof.
  assert (Hb : forall x, 0 <= x < 256 -> is_byte x) by (intros x Hx; exact Hx).
  split; cbn [sample_part ri_blocks ri_partition_key ri_data_position ri_partition_deletion]; try done.
  - repeat apply Forall_cons_2; [| |apply Forall_nil_2]; (split; [done|]); cbn [row_trie_entry fst snd separator_key block_offset block_open_marker];
      (split; [repeat (apply Forall_cons_2; [apply Hb; lia|]); apply Forall_nil_2|]); (split; [by vm_compute|]); [done|].
    cbn [da_ok snd]. split; unfold i_range, i64_MIN, i64_MAX; cbn; lia.
  - constructor; [constructor; constructor|]. constructor; [|constructor]. cbn. lia.
Qed.

Lemma row_indexes_read_back_witness :
  part_ok sample_part /\ exists file rows_offsets,
    rows_finish [sample_part] = Ok (file, rows_offsets) /\ Forall2 (row_index_reads file) rows_offsets [sample_part].
Proof.
  split; [exact sample_part_ok|].
  apply (row_indexes_read_back [sample_part]).
  - apply Forall_cons_2; [exact sample_part_ok|apply Forall_nil_2].
  - vm_compute. discriminate.
Defined.

(** *** What the conditions exclude *)

(** A separator that goes on where another ends passes the check of the order, and its block
    is lost. *)
Example prefix_separator_lost :
  let blocks := [mkRowIndexBlock [0x40; 0x00] 10 None; mkRowIndexBlock [0x40; 0x00; 0xFE] 20 None] in
  separators_ascend blocks = true /\
  exists file,
    rows_finish [mkRowIndex [1] 0 blocks None] = Ok (file, [10]) /\
    trie_root <$> resolve_rows_db_entry file 10 = Ok (Ok 6) /\
    rows_floor_block file 6 [0x40; 0x00; 0xFE] = Ok (Some (mkBtiRowIndexEntry 10 None)).
Proof.
  split; [vm_compute; reflexivity|].
  exists [1; 10; 80; 1; 0; 2; 80; 1; 64; 4; 0; 1; 1; 0; 13; 2; 128].
  split; [vm_compute; reflexivity|]. split; vm_compute; reflexivity.
Qed.

(** The body of a deletion whose timestamp is near the minimum is read as no deletion. *)
Example early_deletion_lost ldt :
  decode_da_deletion_time (da_bytes (Some (ldt, i64_MIN))) 0 = Ok (None, 1).
Proof. unfold decode_da_deletion_time, da_bytes. cbn [be_bytes]. done. Qed.
