(* ===== verification/MergeModel.v ===== *)
(** The entities that flow through the merge: [merge/model.rs], the schema-aware
    heap order of [merge/schema_order.rs], the row-marker liveness of
    [sstable/reader/compaction_row.rs] and the shared tie-break rules of
    [reconcile_rules.rs]. *)

From S2P Require Import Prelude Values Keys.

Open Scope Z_scope.

(** ** Cells *)

Record CellData := mkCellData {
  column : string;
  value : Value;
  timestamp : Z;
  ttl : option Z;
  cell_path : option (list Z);
  local_deletion_time : option Z;
  is_complex_element : bool;
  is_deleted : bool;
  has_empty_value : bool;
}.

(** [CellData::new] *)
Definition cell_new (col : string) (v : Value) (ts : Z) : CellData :=
  mkCellData col v ts None None None false false false.

Record ComplexDeletion := mkComplexDeletion {
  cd_column : string;
  marked_for_delete_at : Z;
  cd_local_deletion_time : Z;
}.
#[export] Instance complex_deletion_eq_dec : EqDecision ComplexDeletion.
Proof. solve_decision. Defined.

Inductive RowData :=
| Live (cells : list CellData)
| RTombstone (row_deletion_time : Z) (row_local_deletion_time : Z).

(** ** Row liveness *)

Record RowLiveness := mkRowLiveness {
  has_marker : bool;
  expires_at_seconds : option Z;
  marker_timestamp : option Z;
}.
#[export] Instance row_liveness_eq_dec : EqDecision RowLiveness.
Proof. solve_decision. Defined.

Definition liveness_default : RowLiveness := mkRowLiveness false None None.

Definition marker_live_at (l : RowLiveness) (now_secs : Z) : bool :=
  has_marker l
  && match expires_at_seconds l with None => true | Some s => s >? now_secs end.

Definition marker_survives_floor (l : RowLiveness) (row_timestamp floor : Z) : bool :=
  match marker_timestamp l with
  | Some marker_ts => marker_ts >? floor
  | None => row_timestamp >? floor
  end.

(** Later expiry, live-forever being the latest; the left operand wins a tie. *)
Definition expiry_ge (a b : option Z) : bool :=
  match a, b with
  | None, _ => true
  | _, None => false
  | Some a, Some b => a >=? b
  end.

Definition liveness_merge (self other : RowLiveness) : RowLiveness :=
  match has_marker self, has_marker other with
  | false, false => liveness_default
  | true, false => self
  | false, true => other
  | true, true =>
      let self_wins :=
        match marker_timestamp self, marker_timestamp other with
        | Some a, Some b =>
            if a =? b then expiry_ge (expires_at_seconds self) (expires_at_seconds other)
            else a >? b
        | _, _ => expiry_ge (expires_at_seconds self) (expires_at_seconds other)
        end in
      if self_wins then self else other
  end.

(** ** Entries *)

Record MergeEntry := mkMergeEntry {
  run_index : Z;
  me_key : DecoratedKey;
  clustering_key : option ClusteringKey;
  me_timestamp : Z;
  row_data : RowData;
  complex_deletions : list ComplexDeletion;
  range_deletion : option RangeTombstone;
  row_deletion : option (Z * Z);
  partition_deletion : option (Z * Z);
  row_liveness : RowLiveness;
}.

(** [MergeEntry::new] *)
Definition entry_new (run : Z) (k : DecoratedKey) (ck : option ClusteringKey)
    (ts : Z) (rd : RowData) : MergeEntry :=
  mkMergeEntry run k ck ts rd [] None None None liveness_default.

Definition with_row_liveness (e : MergeEntry) (l : RowLiveness) : MergeEntry :=
  mkMergeEntry (run_index e) (me_key e) (clustering_key e) (me_timestamp e) (row_data e)
    (complex_deletions e) (range_deletion e) (row_deletion e) (partition_deletion e) l.

Definition with_complex_deletions (e : MergeEntry) (cds : list ComplexDeletion) : MergeEntry :=
  mkMergeEntry (run_index e) (me_key e) (clustering_key e) (me_timestamp e) (row_data e)
    cds (range_deletion e) (row_deletion e) (partition_deletion e) (row_liveness e).

Definition with_row_deletion (e : MergeEntry) (dt ldt : Z) : MergeEntry :=
  mkMergeEntry (run_index e) (me_key e) (clustering_key e) (me_timestamp e) (row_data e)
    (complex_deletions e) (range_deletion e) (Some (dt, ldt)) (partition_deletion e)
    (row_liveness e).

Definition with_range_deletion (e : MergeEntry) (rt : RangeTombstone) : MergeEntry :=
  mkMergeEntry (run_index e) (me_key e) (clustering_key e) (me_timestamp e) (row_data e)
    (complex_deletions e) (Some rt) (row_deletion e) (partition_deletion e) (row_liveness e).

Definition with_partition_deletion (e : MergeEntry) (pd : Z * Z) : MergeEntry :=
  mkMergeEntry (run_index e) (me_key e) (clustering_key e) (me_timestamp e) (row_data e)
    (complex_deletions e) (range_deletion e) (row_deletion e) (Some pd) (row_liveness e).

Definition live_empty (rd : RowData) : bool :=
  match rd with Live [] => true | _ => false end.

Definition is_metadata_only_no_op (e : MergeEntry) : bool :=
  live_empty (row_data e)
  && is_empty (complex_deletions e)
  && negb (is_some (range_deletion e))
  && negb (is_some (row_deletion e))
  && negb (is_some (partition_deletion e)).

Definition is_partition_delete_carrier (e : MergeEntry) : bool :=
  is_some (partition_deletion e).

(** ** Orders of entries *)

(** Both orders are token, key bytes, clustering key (none first), run index;
    they differ in how two clustering keys compare. *)
Definition entry_cmp_with (cmp : ClusteringKey -> ClusteringKey -> comparison)
    (a b : MergeEntry) : comparison :=
  match token (me_key a) ?= token (me_key b) with
  | Eq =>
      match bytes_cmp (key (me_key a)) (key (me_key b)) with
      | Eq =>
          match clustering_key a, clustering_key b with
          | None, None => run_index a ?= run_index b
          | None, Some _ => Lt
          | Some _, None => Gt
          | Some ka, Some kb =>
              match cmp ka kb with
              | Eq => run_index a ?= run_index b
              | other_ord => other_ord
              end
          end
      | other_ord => other_ord
      end
  | other_ord => other_ord
  end.

(** [Ord for MergeEntry] *)
Definition entry_cmp `{DebugFmt} : MergeEntry -> MergeEntry -> comparison :=
  entry_cmp_with ck_cmp.

(** [Ord for SchemaOrderedEntry] *)
Definition schema_entry_cmp `{DebugFmt} (schema : TableSchema)
    : MergeEntry -> MergeEntry -> comparison :=
  entry_cmp_with (ck_schema_cmp schema).

Definition opt_ck_cmp (cmp : ClusteringKey -> ClusteringKey -> comparison)
    (a b : option ClusteringKey) : comparison :=
  match a, b with
  | None, None => Eq
  | None, Some _ => Lt
  | Some _, None => Gt
  | Some a, Some b => cmp a b
  end.

Definition opt_P {A} (P : A -> Prop) (o : option A) : Prop :=
  match o with None => True | Some a => P a end.

#[export] Instance opt_ck_cmp_ord P cmp `{!OrdOn P cmp} : OrdOn (opt_P P) (opt_ck_cmp cmp).
Proof.
  destruct OrdOn0 as [H1 H2 H3 H4].
  split; [intros [a|] ?|intros [a|] [b|] ? ?|intros [a|] [b|] [c|] ? ? ?
         |intros [a|] [b|] [c|] ? ? ?]; cbn in *; auto; try done.
  by apply H3.
Qed.

#[export] Instance entry_cmp_with_ord P cmp `{!OrdOn P cmp} :
  OrdOn (fun e => opt_P P (clustering_key e)) (entry_cmp_with cmp).
Proof.
  apply (ord_ext _ (fun a b => then_with (dk_cmp (me_key a) (me_key b))
    (then_with (opt_ck_cmp cmp (clustering_key a) (clustering_key b))
       (run_index a ?= run_index b)))).
  { intros a b _ _. unfold entry_cmp_with, dk_cmp.
    destruct (_ ?= _); [|done..]. destruct (bytes_cmp _ _); [|done..]. cbn.
    destruct (clustering_key a), (clustering_key b); try done. cbn.
    by destruct (cmp _ _). }
  apply ord_then; [|apply ord_then].
  - by apply (ord_on _ (fun _ => True) me_key dk_cmp).
  - by apply (ord_on _ (opt_P P) clustering_key (opt_ck_cmp cmp)).
  - by apply (ord_on _ (fun _ => True) run_index Z.compare).
Qed.

(** ** The shared reconcile rules *)

(** The view of a cell both write paths share. *)
Class ReconcileCell (C : Type) := {
  rc_timestamp : C -> Z;
  rc_is_tombstone : C -> bool;
}.

Definition cell_wins {C} `{ReconcileCell C} (candidate existing : C) : bool :=
  if negb (rc_timestamp candidate =? rc_timestamp existing)
  then rc_timestamp candidate >? rc_timestamp existing
  else rc_is_tombstone candidate && negb (rc_is_tombstone existing).

Definition complex_deletion_supersedes (candidate_mfda active_mfda : Z) : bool :=
  candidate_mfda >? active_mfda.

Definition element_survives_complex_deletion (element_ts mfda : Z) : bool :=
  element_ts >? mfda.

(** [KWayMerger::is_cell_tombstone] *)
Definition is_cell_tombstone (cell : CellData) : bool :=
  match value cell with
  | Tombstone info => bool_decide (tombstone_type info = CellTombstone)
  | _ => false
  end || is_deleted cell.

(** [KWayMerger::cell_effective_ldt] *)
Definition cell_effective_ldt (cell : CellData) : option Z :=
  match local_deletion_time cell with
  | Some ldt => Some ldt
  | None =>
      match value cell with
      | Tombstone info =>
          if bool_decide (tombstone_type info = CellTombstone)
             && negb (info_local_deletion_time info =? 0)
          then Some (as_i32 (info_local_deletion_time info))
          else None
      | _ => None
      end
  end.

#[export] Instance cell_data_reconcile : ReconcileCell CellData := {
  rc_timestamp := timestamp;
  rc_is_tombstone := is_cell_tombstone;
}.
