(* ===== verification/Reconcile.v ===== *)
(** The clustering-group reconciliation kernel: [merge/reconcile.rs], driven by
    [KWayMerger::reconcile_cluster_with_overlap_counted] of [merge/mod.rs]. *)

From S2P Require Import Prelude Values Keys MergeModel.

Open Scope Z_scope.

(** ** State *)

(** [(column, cell_path)] *)
Definition CellKey : Type := string * option (list Z).
Definition cell_key (c : CellData) : CellKey := (column c, cell_path c).

Record PurgeCounts := mkPurgeCounts {
  cell_tombstones : Z;
  row_tombstones : Z;
  range_tombstones : Z;
  pc_complex_deletions : Z;
  partition_tombstones : Z;
  suppressed : Z;
  emitted : Z;
}.

Definition purges_default : PurgeCounts := mkPurgeCounts 0 0 0 0 0 0 0.

Definition purges_total (p : PurgeCounts) : Z :=
  sat_add64 (sat_add64 (sat_add64 (sat_add64 (cell_tombstones p) (row_tombstones p))
    (range_tombstones p)) (pc_complex_deletions p)) (partition_tombstones p).

Definition add_cell_tombstones (n : Z) (p : PurgeCounts) : PurgeCounts :=
  mkPurgeCounts (cell_tombstones p + n) (row_tombstones p) (range_tombstones p)
    (pc_complex_deletions p) (partition_tombstones p) (suppressed p) (emitted p).
Definition add_row_tombstones (n : Z) (p : PurgeCounts) : PurgeCounts :=
  mkPurgeCounts (cell_tombstones p) (row_tombstones p + n) (range_tombstones p)
    (pc_complex_deletions p) (partition_tombstones p) (suppressed p) (emitted p).
Definition add_range_tombstones (n : Z) (p : PurgeCounts) : PurgeCounts :=
  mkPurgeCounts (cell_tombstones p) (row_tombstones p) (range_tombstones p + n)
    (pc_complex_deletions p) (partition_tombstones p) (suppressed p) (emitted p).
Definition add_complex_deletions (n : Z) (p : PurgeCounts) : PurgeCounts :=
  mkPurgeCounts (cell_tombstones p) (row_tombstones p) (range_tombstones p)
    (pc_complex_deletions p + n) (partition_tombstones p) (suppressed p) (emitted p).
Definition add_partition_tombstones (n : Z) (p : PurgeCounts) : PurgeCounts :=
  mkPurgeCounts (cell_tombstones p) (row_tombstones p) (range_tombstones p)
    (pc_complex_deletions p) (partition_tombstones p + n) (suppressed p) (emitted p).
Definition add_suppressed (n : Z) (p : PurgeCounts) : PurgeCounts :=
  mkPurgeCounts (cell_tombstones p) (row_tombstones p) (range_tombstones p)
    (pc_complex_deletions p) (partition_tombstones p) (suppressed p + n) (emitted p).
Definition add_emitted (n : Z) (p : PurgeCounts) : PurgeCounts :=
  mkPurgeCounts (cell_tombstones p) (row_tombstones p) (range_tombstones p)
    (pc_complex_deletions p) (partition_tombstones p) (suppressed p) (emitted p + n).

(** The working set of one clustering group. [winners] is the hash map; its
    iteration order is never observed, [order] carries the first-seen order. *)
Record ReconcileState := mkState {
  st_clustering_key : option ClusteringKey;
  st_key : option DecoratedKey;
  st_run_index : Z;
  row_del : option Z;
  row_del_ldt : Z;
  order : list CellKey;
  winners : gmap CellKey CellData;
  st_complex_deletions : list ComplexDeletion;
  st_range_deletion : option RangeTombstone;
  after_row_del : list CellData;
  surviving : list CellData;
  had_data_before : bool;
  st_row_liveness : RowLiveness;
}.

(** [ReconcileState::new]; [run_index] starts at [usize::MAX]. *)
Definition state_new (ck : option ClusteringKey) : ReconcileState :=
  mkState ck None u64_MAX None 0 [] ∅ [] None [] [] false liveness_default.

Definition has_key (st : ReconcileState) : bool := is_some (st_key st).

(** ** Step 1: [fold_row_deletions] *)

(** A deletion timestamp above the current maximum replaces it, with its paired
    local deletion time. *)
Definition fold_row_del (acc : option Z * Z) (del : option (Z * Z)) : option Z * Z :=
  match del with
  | Some (del_ts, del_ldt) =>
      if match fst acc with None => true | Some d => del_ts >? d end
      then (Some del_ts, del_ldt) else acc
  | None => acc
  end.

Definition tombstone_del (rd : RowData) : option (Z * Z) :=
  match rd with RTombstone dt ldt => Some (dt, ldt) | Live _ => None end.

(** [if !self.complex_deletions.contains(cd) { self.complex_deletions.push(..) }] *)
Definition push_complex : list ComplexDeletion -> ComplexDeletion -> list ComplexDeletion :=
  push_new.

Definition fold_range_deletion (acc rd : option RangeTombstone) : option RangeTombstone :=
  match rd with
  | None => acc
  | Some r =>
      if match acc with None => true | Some cur => rt_deletion_time r >? rt_deletion_time cur end
      then Some r else acc
  end.

Definition fold_entry (st : ReconcileState) (entry : MergeEntry) : ReconcileState :=
  let k := match st_key st with None => Some (me_key entry) | Some k => Some k end in
  let del := fold_row_del (row_del st, row_del_ldt st) (row_deletion entry) in
  let del := fold_row_del del (tombstone_del (row_data entry)) in
  mkState (st_clustering_key st) k
    (Z.min (st_run_index st) (run_index entry))
    (fst del) (snd del) (order st) (winners st)
    (foldl push_complex (st_complex_deletions st) (complex_deletions entry))
    (fold_range_deletion (st_range_deletion st) (range_deletion entry))
    (after_row_del st) (surviving st) (had_data_before st)
    (liveness_merge (st_row_liveness st) (row_liveness entry)).

Definition fold_row_deletions (st : ReconcileState) (cluster_rows : list MergeEntry)
    : ReconcileState := foldl fold_entry st cluster_rows.

(** ** Step 2: [resolve_cell_winners] *)

Definition row_cells (rd : RowData) : list CellData :=
  match rd with Live cells => cells | RTombstone _ _ => [] end.

Definition resolve_cell (acc : list CellKey * gmap CellKey CellData) (cell : CellData)
    : list CellKey * gmap CellKey CellData :=
  let '(ord, win) := acc in
  match win !! cell_key cell with
  | None => (ord ++ [cell_key cell], <[cell_key cell := cell]> win)
  | Some existing =>
      if cell_wins cell existing then (ord, <[cell_key cell := cell]> win) else acc
  end.

Definition resolve_entry (acc : list CellKey * gmap CellKey CellData) (entry : MergeEntry) :=
  foldl resolve_cell acc (row_cells (row_data entry)).

Definition with_winners (st : ReconcileState) (ow : list CellKey * gmap CellKey CellData)
    : ReconcileState :=
  mkState (st_clustering_key st) (st_key st) (st_run_index st) (row_del st) (row_del_ldt st)
    (fst ow) (snd ow) (st_complex_deletions st) (st_range_deletion st)
    (after_row_del st) (surviving st) (had_data_before st) (st_row_liveness st).

Definition resolve_cell_winners (st : ReconcileState) (cluster_rows : list MergeEntry)
    : ReconcileState :=
  with_winners st (foldl resolve_entry (order st, winners st) cluster_rows).

(** ** Step 2b: [apply_complex_deletions] *)

(** The active deletion per column name, with the first-seen column order. *)
Definition collapse_step (acc : gmap string ComplexDeletion * list string)
    (cd : ComplexDeletion) : gmap string ComplexDeletion * list string :=
  let '(active, active_order) := acc in
  match active !! cd_column cd with
  | None => (<[cd_column cd := cd]> active, active_order ++ [cd_column cd])
  | Some existing =>
      if complex_deletion_supersedes (marked_for_delete_at cd) (marked_for_delete_at existing)
      then (<[cd_column cd := cd]> active, active_order)
      else acc
  end.

Definition collapse_complex (cds : list ComplexDeletion)
    : gmap string ComplexDeletion * list string := foldl collapse_step (∅, []) cds.

(** [order.retain(..)] for one column, removing covered winners on the way. *)
Fixpoint retain_elements (col : string) (mfda : Z) (ord : list CellKey)
    (win : gmap CellKey CellData) : list CellKey * gmap CellKey CellData :=
  match ord with
  | [] => ([], win)
  | k :: ord' =>
      if negb (bool_decide (fst k = col)) || negb (is_some (snd k))
      then let '(o, w) := retain_elements col mfda ord' win in (k :: o, w)
      else match win !! k with
           | Some cell =>
               if element_survives_complex_deletion (timestamp cell) mfda
               then let '(o, w) := retain_elements col mfda ord' win in (k :: o, w)
               else retain_elements col mfda ord' (delete k win)
           | None => retain_elements col mfda ord' win
           end
  end.

Definition shadow_column (active : gmap string ComplexDeletion)
    (acc : list CellKey * gmap CellKey CellData) (col : string)
    : list CellKey * gmap CellKey CellData :=
  match active !! col with
  | Some cd => retain_elements col (marked_for_delete_at cd) (fst acc) (snd acc)
  | None => acc
  end.

(** [active_order.into_iter().filter_map(|c| active.remove(&c)).collect()] *)
Definition take_active (active_order : list string) (active : gmap string ComplexDeletion)
    : list ComplexDeletion := fst (take_keys active_order active).

Definition apply_complex_deletions (st : ReconcileState) : ReconcileState :=
  if is_empty (st_complex_deletions st) then st
  else
    let '(active, active_order) := collapse_complex (st_complex_deletions st) in
    let ow := foldl (shadow_column active) (order st, winners st) active_order in
    mkState (st_clustering_key st) (st_key st) (st_run_index st) (row_del st) (row_del_ldt st)
      (fst ow) (snd ow) (take_active active_order active) (st_range_deletion st)
      (after_row_del st) (surviving st) (had_data_before st) (st_row_liveness st).

(** ** Step 3: [shadow_by_row_deletion] *)

Definition ck_names (ck : option ClusteringKey) : list string :=
  match ck with Some k => map fst k | None => [] end.

Definition is_data_cell (ck : option ClusteringKey) (cell : CellData) : bool :=
  negb (bool_decide (column cell ∈ ck_names ck)).

(** [order.into_iter().filter_map(|k| winners.remove(&k))] *)
Definition take_winners (ord : list CellKey) (win : gmap CellKey CellData)
    : list CellData * gmap CellKey CellData := take_keys ord win.

Definition survives_row_del (rd : option Z) (cell : CellData) : bool :=
  match rd with Some d => timestamp cell >? d | None => true end.

Definition counts_suppressed (ck : option ClusteringKey) (rd : option Z) (cell : CellData)
    : bool :=
  negb (survives_row_del rd cell) && negb (is_cell_tombstone cell) && is_data_cell ck cell.

Definition shadow_by_row_deletion (st : ReconcileState) (purges : PurgeCounts)
    : ReconcileState * PurgeCounts :=
  let '(cells, win) := take_winners (order st) (winners st) in
  (mkState (st_clustering_key st) (st_key st) (st_run_index st) (row_del st) (row_del_ldt st)
     [] win (st_complex_deletions st) (st_range_deletion st)
     (List.filter (survives_row_del (row_del st)) cells)
     (surviving st) (had_data_before st) (st_row_liveness st),
   add_suppressed
     (zlen (List.filter (counts_suppressed (st_clustering_key st) (row_del st)) cells)) purges).

(** ** Step 3b: [filter_dropped_columns] *)

Definition survives_drop (dropped : gmap string Z) (cell : CellData) : bool :=
  match dropped !! column cell with
  | Some drop_time => timestamp cell >? drop_time
  | None => true
  end.

Definition filter_dropped_columns (st : ReconcileState) (dropped : gmap string Z)
    : ReconcileState :=
  mkState (st_clustering_key st) (st_key st) (st_run_index st) (row_del st) (row_del_ldt st)
    (order st) (winners st) (st_complex_deletions st) (st_range_deletion st)
    [] (List.filter (survives_drop dropped) (after_row_del st))
    (existsb (is_data_cell (st_clustering_key st)) (after_row_del st)) (st_row_liveness st).

(** ** Step 3b': [expire_ttl_cells] *)

Definition expire_cell (now : Z) (cell : CellData) : CellData :=
  if is_cell_tombstone cell then cell
  else match ttl cell, local_deletion_time cell with
       | Some t, Some ldt =>
           if as_u32 ldt >? now then cell
           else
             let creation_secs := sat_sub (as_u32 ldt) t in
             mkCellData (column cell)
               (Tombstone (mkTombstoneInfo (timestamp cell) CellTombstone creation_secs
                  None None None))
               (timestamp cell) None (cell_path cell) (Some (as_i32 creation_secs))
               (is_complex_element cell)
               (if is_complex_element cell then true else is_deleted cell)
               (has_empty_value cell)
       | _, _ => cell
       end.

Definition with_surviving (st : ReconcileState) (cells : list CellData) : ReconcileState :=
  mkState (st_clustering_key st) (st_key st) (st_run_index st) (row_del st) (row_del_ldt st)
    (order st) (winners st) (st_complex_deletions st) (st_range_deletion st)
    (after_row_del st) cells (had_data_before st) (st_row_liveness st).

Definition expire_ttl_cells (st : ReconcileState) (now_secs : option Z) : ReconcileState :=
  match now_secs with
  | None => st
  | Some now => with_surviving st (map (expire_cell now) (surviving st))
  end.

(** ** Step 3c: [purge_gc_grace] *)

Definition keep_cell (gc_before maxp : Z) (cell : CellData) : bool :=
  if is_cell_tombstone cell || is_deleted cell then
    let gc_purgeable :=
      match cell_effective_ldt cell with
      | Some ldt => as_u32 ldt <? gc_before
      | None => false
      end in
    let overlap_purgeable := timestamp cell <? maxp in
    negb (gc_purgeable && overlap_purgeable)
  else true.

Definition purges_row_del (gc_before maxp : Z) (rd : option Z) (ldt : Z) : bool :=
  negb (ldt =? 0) && (as_u32 ldt <? gc_before)
  && match rd with Some d => d <? maxp | None => false end.

Definition keep_complex (gc_before maxp : Z) (cd : ComplexDeletion) : bool :=
  negb ((as_u32 (cd_local_deletion_time cd) <? gc_before)
        && (marked_for_delete_at cd <? maxp)).

Definition purge_gc_grace (st : ReconcileState) (gc_before_secs : option Z) (maxp : Z)
    (purges : PurgeCounts) : ReconcileState * PurgeCounts :=
  match gc_before_secs with
  | None => (st, purges)
  | Some gc_before =>
      let kept := List.filter (keep_cell gc_before maxp) (surviving st) in
      let purges := add_cell_tombstones (zlen (surviving st) - zlen kept) purges in
      let p := purges_row_del gc_before maxp (row_del st) (row_del_ldt st) in
      let purges := if p then add_row_tombstones 1 purges else purges in
      let cds := List.filter (keep_complex gc_before maxp) (st_complex_deletions st) in
      let purges :=
        add_complex_deletions (zlen (st_complex_deletions st) - zlen cds) purges in
      (mkState (st_clustering_key st) (st_key st) (st_run_index st)
         (if p then None else row_del st) (row_del_ldt st)
         (order st) (winners st) cds (st_range_deletion st)
         (after_row_del st) kept (had_data_before st) (st_row_liveness st), purges)
  end.

(** ** Step 4: [build] *)

(** [iter().map(|c| c.timestamp).max().unwrap_or(d)] *)
Definition max_timestamp (cells : list CellData) (d : Z) : Z :=
  match map timestamp cells with
  | [] => d
  | t :: ts => foldl Z.max t ts
  end.

Definition build (st : ReconcileState) (purges : PurgeCounts)
    : option MergeEntry * PurgeCounts :=
  match st_key st with
  | None => (None, purges)
  | Some k =>
      let ck := st_clustering_key st in
      let has_data_after := existsb (is_data_cell ck) (surviving st) in
      let purged_to_empty := had_data_before st && negb has_data_after in
      let retained :=
        List.filter (fun c => is_cell_tombstone c || is_deleted c) (surviving st) in
      let purges := add_emitted (zlen retained) purges in
      let has_carried_metadata :=
        negb (is_empty (st_complex_deletions st)) || is_some (st_range_deletion st) in
      let '(built, purges) :=
        if negb (is_empty (surviving st)) && negb purged_to_empty then
          let live := entry_new (st_run_index st) k ck (max_timestamp (surviving st) 0)
                        (Live (surviving st)) in
          match row_del st with
          | Some deletion_time =>
              (Some (with_row_deletion live deletion_time (row_del_ldt st)),
               add_emitted 1 purges)
          | None => (Some live, purges)
          end
        else match row_del st with
        | Some deletion_time =>
            (Some (entry_new (st_run_index st) k ck deletion_time
                     (RTombstone deletion_time (row_del_ldt st))),
             add_emitted 1 purges)
        | None =>
            if has_carried_metadata
            then (Some (entry_new (st_run_index st) k ck 0 (Live [])), purges)
            else (None, purges)
        end in
      (option_map (fun entry =>
         let entry := with_row_liveness entry (st_row_liveness st) in
         let entry := if is_empty (st_complex_deletions st) then entry
                      else with_complex_deletions entry (st_complex_deletions st) in
         match st_range_deletion st with
         | Some rd => with_range_deletion entry rd
         | None => entry
         end) built, purges)
  end.

(** ** The driver *)

Definition reconcile_cluster_with_overlap_counted
    (ck : option ClusteringKey) (cluster_rows : list MergeEntry)
    (dropped : gmap string Z) (gc_before_secs : option Z) (maxp : Z) (now_secs : option Z)
    (purges : PurgeCounts) : option MergeEntry * PurgeCounts :=
  let st := state_new ck in
  let st := fold_row_deletions st cluster_rows in
  let st := resolve_cell_winners st cluster_rows in
  if negb (has_key st) then (None, purges)
  else
    let st := apply_complex_deletions st in
    let '(st, purges) := shadow_by_row_deletion st purges in
    let st := filter_dropped_columns st dropped in
    let st := expire_ttl_cells st now_secs in
    let '(st, purges) := purge_gc_grace st gc_before_secs maxp purges in
    build st purges.
