(* ===== verification/ReconcileSpec.v ===== *)
(** What reconciliation promises: an abstract specification of a merged row, the
    refinement of [Reconcile] to it, and the properties of the merge. *)

From S2P Require Import Prelude Values Keys MergeModel Reconcile.

Open Scope Z_scope.

(** ** Ranks

    Each of the four scans of the kernel keeps the first maximum of a rank. *)

Definition cell_rank_cmp (a b : CellData) : comparison :=
  then_with (timestamp a ?= timestamp b)
            (bool_cmp (is_cell_tombstone a) (is_cell_tombstone b)).

#[export] Instance cell_rank_laws : OrdLaws cell_rank_cmp.
Proof.
  apply (ord_then _ (fun a b => timestamp a ?= timestamp b)).
  - by apply (ord_on _ (fun _ => True) timestamp Z.compare).
  - by apply (ord_on _ (fun _ => True) is_cell_tombstone bool_cmp).
Qed.

Lemma gtb_compare a b : (a >? b) = true <-> (a ?= b) = Gt.
Proof. rewrite Z.gtb_ltb, Z.ltb_lt, Z.compare_gt_iff. done. Qed.

Lemma cell_wins_rank c e : cell_wins c e = true <-> cell_rank_cmp c e = Gt.
Proof.
  unfold cell_wins, cell_rank_cmp. cbn [rc_timestamp rc_is_tombstone cell_data_reconcile].
  destruct (Z.eqb_spec (timestamp c) (timestamp e)) as [->|Hne]; cbn [negb].
  - rewrite Z.compare_refl. cbn. by destruct (is_cell_tombstone c), (is_cell_tombstone e).
  - rewrite gtb_compare. destruct (Z.compare_spec (timestamp c) (timestamp e)); done.
Qed.

Definition supersedes (a b : ComplexDeletion) : bool :=
  complex_deletion_supersedes (marked_for_delete_at a) (marked_for_delete_at b).
Definition mfda_cmp (a b : ComplexDeletion) : comparison :=
  marked_for_delete_at a ?= marked_for_delete_at b.
Definition del_gt (a b : Z * Z) : bool := fst a >? fst b.
Definition del_cmp (a b : Z * Z) : comparison := fst a ?= fst b.
Definition range_gt (a b : RangeTombstone) : bool := rt_deletion_time a >? rt_deletion_time b.

#[export] Instance mfda_laws : OrdLaws mfda_cmp.
Proof. by apply (ord_on _ (fun _ => True) marked_for_delete_at Z.compare). Qed.
#[export] Instance del_laws : OrdLaws del_cmp.
Proof. by apply (ord_on _ (fun _ => True) (fun d : Z * Z => fst d) Z.compare). Qed.

(** ** Specification of a merged row *)

Definition all_cells (rows : list MergeEntry) : list CellData :=
  concat (map (fun e => row_cells (row_data e)) rows).

(** The winning cell of one [(column, path)], and the winners in first-seen order. *)
Definition winner (rows : list MergeEntry) (k : CellKey) : option CellData :=
  first_max cell_wins (with_key cell_key k (all_cells rows)).
Definition spec_winners (rows : list MergeEntry) : list CellData :=
  omap (winner rows) (first_seen (map cell_key (all_cells rows))).

(** The active complex deletion of a column. *)
Definition all_complex (rows : list MergeEntry) : list ComplexDeletion :=
  first_seen (concat (map complex_deletions rows)).
Definition active_complex (rows : list MergeEntry) (col : string) : option ComplexDeletion :=
  first_max supersedes (with_key cd_column col (all_complex rows)).
Definition spec_complex (rows : list MergeEntry) : list ComplexDeletion :=
  omap (active_complex rows) (first_seen (map cd_column (all_complex rows))).

(** The row deletion with the greatest timestamp, from tombstone rows and from
    deletions that coexist with live cells. *)
Definition opt_list {A} (o : option A) : list A :=
  match o with Some a => [a] | None => [] end.
Definition row_dels (rows : list MergeEntry) : list (Z * Z) :=
  concat (map (fun e => opt_list (row_deletion e) ++ opt_list (tombstone_del (row_data e))) rows).
Definition spec_row_del (rows : list MergeEntry) : option (Z * Z) := first_max del_gt (row_dels rows).

Definition spec_range (rows : list MergeEntry) : option RangeTombstone :=
  first_max range_gt (concat (map (fun e => opt_list (range_deletion e)) rows)).

Definition survives_complex (rows : list MergeEntry) (c : CellData) : bool :=
  match cell_path c with
  | None => true
  | Some _ =>
      match active_complex rows (column c) with
      | Some cd => timestamp c >? marked_for_delete_at cd
      | None => true
      end
  end.

(** The cells before the dropped-column filter, and the final ones. *)
Definition spec_undeleted (rows : list MergeEntry) : list CellData :=
  List.filter (survives_row_del (option_map fst (spec_row_del rows)))
    (List.filter (survives_complex rows) (spec_winners rows)).

Definition spec_expire (now : option Z) (c : CellData) : CellData :=
  match now with Some n => expire_cell n c | None => c end.
Definition spec_keep (gc : option Z) (maxp : Z) (c : CellData) : bool :=
  match gc with Some g => keep_cell g maxp c | None => true end.

Definition spec_surviving (rows : list MergeEntry) (dropped : gmap string Z)
    (gc : option Z) (maxp : Z) (now : option Z) : list CellData :=
  List.filter (spec_keep gc maxp)
    (map (spec_expire now) (List.filter (survives_drop dropped) (spec_undeleted rows))).

Definition spec_row_del_kept (rows : list MergeEntry) (gc : option Z) (maxp : Z)
    : option (Z * Z) :=
  match spec_row_del rows, gc with
  | Some (d, ldt), Some g => if purges_row_del g maxp (Some d) ldt then None else Some (d, ldt)
  | rd, _ => rd
  end.

Definition spec_complex_kept (rows : list MergeEntry) (gc : option Z) (maxp : Z)
    : list ComplexDeletion :=
  match gc with
  | Some g => List.filter (keep_complex g maxp) (spec_complex rows)
  | None => spec_complex rows
  end.

Definition spec_liveness (rows : list MergeEntry) : RowLiveness :=
  foldl liveness_merge liveness_default (map row_liveness rows).

(** The row held data, and none of it survived the dropped-column filter, TTL
    expiry and purge: only clustering pseudo-cells are left. *)
Definition spec_purged_to_empty (ck : option ClusteringKey) (rows : list MergeEntry)
    (cells : list CellData) : bool :=
  existsb (is_data_cell ck) (spec_undeleted rows) && negb (existsb (is_data_cell ck) cells).

(** The content of the merged row: a live row, with the surviving row deletion
    beside it; else that row deletion; else a carrier of the surviving complex or
    range deletions; else nothing. *)
Definition spec_row (ck : option ClusteringKey) (rows : list MergeEntry)
    (dropped : gmap string Z) (gc : option Z) (maxp : Z) (now : option Z)
    : option (Z * RowData * option (Z * Z)) :=
  let cells := spec_surviving rows dropped gc maxp now in
  let rd := spec_row_del_kept rows gc maxp in
  if negb (is_empty cells) && negb (spec_purged_to_empty ck rows cells) then
    Some (max_timestamp cells 0, Live cells, rd)
  else match rd with
       | Some (d, ldt) => Some (d, RTombstone d ldt, None)
       | None =>
           if negb (is_empty (spec_complex_kept rows gc maxp)) || is_some (spec_range rows)
           then Some (0, Live [], None) else None
       end.

(** The newest run among the entries. *)
Definition spec_run_index (rows : list MergeEntry) : Z :=
  foldl Z.min u64_MAX (map run_index rows).

Definition spec_merge (ck : option ClusteringKey) (rows : list MergeEntry)
    (dropped : gmap string Z) (gc : option Z) (maxp : Z) (now : option Z)
    : option MergeEntry :=
  match rows with
  | [] => None
  | e :: _ =>
      match spec_row ck rows dropped gc maxp now with
      | Some (ts, rd, rdel) =>
          Some (mkMergeEntry (spec_run_index rows) (me_key e) ck ts rd
                  (spec_complex_kept rows gc maxp) (spec_range rows) rdel None
                  (spec_liveness rows))
      | None => None
      end
  end.

(** ** Refinement: step by step *)

Lemma foldl_concat {A B C} (f : C -> A -> C) (g : B -> list A) (l : list B) (acc : C) :
  foldl (fun a x => foldl f a (g x)) acc l = foldl f acc (concat (map g l)).
Proof.
  revert acc. induction l as [|x l IH]; intros acc; cbn; [done|]. by rewrite foldl_app, <- IH.
Qed.

Lemma resolve_cell_group acc c : resolve_cell acc c = group_step cell_key cell_wins acc c.
Proof.
  destruct acc as [o w]. unfold resolve_cell, group_step. cbn.
  destruct (w !! cell_key c); [|done]. by destruct (cell_wins c c0).
Qed.

Lemma foldl_ext {A B} (f g : A -> B -> A) l acc :
  (forall a b, f a b = g a b) -> foldl f acc l = foldl g acc l.
Proof. intros H. revert acc. induction l; intros acc; cbn; [done|]. rewrite H. auto. Qed.

Lemma resolve_fold rows :
  let ow := foldl resolve_entry ([], ∅) rows in
  fst ow = first_seen (map cell_key (all_cells rows))
  /\ forall k, snd ow !! k = winner rows k.
Proof.
  cbn. unfold resolve_entry. rewrite foldl_concat.
  rewrite (foldl_ext _ (group_step cell_key cell_wins)) by apply resolve_cell_group.
  apply group_fold.
Qed.

(** [collapse_complex] is the same grouping, its two components swapped. *)
Lemma collapse_group cds :
  snd (collapse_complex cds) = first_seen (map cd_column cds)
  /\ forall col, fst (collapse_complex cds) !! col
                 = first_max supersedes (with_key cd_column col cds).
Proof.
  set (swap := fun g : list string * gmap string ComplexDeletion => (snd g, fst g)).
  assert (Hs : forall g cd, collapse_step (swap g) cd = swap (group_step cd_column supersedes g cd)).
  { intros [o m] cd. unfold collapse_step, group_step, supersedes, swap. cbn [fst snd].
    destruct (m !! cd_column cd); [|done]. by destruct (complex_deletion_supersedes _ _). }
  assert (E : forall g, foldl collapse_step (swap g) cds
                        = swap (foldl (group_step cd_column supersedes) g cds)).
  { induction cds as [|cd cds IH]; intros g; [done|]. cbn [foldl]. by rewrite Hs, IH. }
  unfold collapse_complex. change (∅, []) with (swap ([], ∅)). rewrite E. apply group_fold.
Qed.

(** One column of shadow-before-purge. *)
Definition key_survives (win : gmap CellKey CellData) (col : string) (mfda : Z) (k : CellKey)
    : bool :=
  if negb (bool_decide (fst k = col)) || negb (is_some (snd k)) then true
  else match win !! k with
       | Some cell => element_survives_complex_deletion (timestamp cell) mfda
       | None => false
       end.

Lemma retain_elements_spec col mfda ord win :
  NoDup ord ->
  let ow := retain_elements col mfda ord win in
  fst ow = List.filter (key_survives win col mfda) ord
  /\ forall k, ~ k ∈ ord \/ key_survives win col mfda k = true -> snd ow !! k = win !! k.
Proof.
  intros Hnd. revert win. induction Hnd as [|k ord Hk Hnd IH]; intros win; [done|].
  cbn [retain_elements List.filter]. unfold key_survives at 1.
  assert (Hdel : forall k', k' ∈ ord ->
            key_survives (delete k win) col mfda k' = key_survives win col mfda k').
  { intros k' Hk'. unfold key_survives. rewrite lookup_delete_ne; [done|]. by intros ->. }
  assert (Hkeep : let ow := (let '(o, w) := retain_elements col mfda ord win in (k :: o, w)) in
    fst ow = k :: List.filter (key_survives win col mfda) ord
    /\ forall k', ~ k' ∈ k :: ord \/ key_survives win col mfda k' = true -> snd ow !! k' = win !! k').
  { specialize (IH win). destruct (retain_elements col mfda ord win) as [o w]. cbn in *.
    destruct IH as [-> IH]. split; [done|]. intros k' [Hk'|Hk']; apply IH; [left|by right].
    intros ?. apply Hk'. by right. }
  destruct (negb (bool_decide (fst k = col)) || negb (is_some (snd k))) eqn:Eb; [exact Hkeep|].
  destruct (win !! k) as [cell|] eqn:Ew.
  - destruct (element_survives_complex_deletion (timestamp cell) mfda) eqn:Es; [exact Hkeep|].
    destruct (IH (delete k win)) as [IH1 IH2]. split.
    + rewrite IH1. apply List.filter_ext_in. intros k' Hk'. apply Hdel.
      by apply list_elem_of_In.
    + intros k' Hk'. destruct (decide (k' = k)) as [->|Hne].
      { exfalso. destruct Hk' as [Hk'|Hk']; [apply Hk'; by left|].
        unfold key_survives in Hk'. by rewrite Eb, Ew, Es in Hk'. }
      rewrite IH2; [by rewrite lookup_delete_ne|].
      destruct Hk' as [Hk'|Hk']; [left; intros ?; apply Hk'; by right|].
      destruct (decide (k' ∈ ord)); [right; by rewrite Hdel|by left].
  - destruct (IH win) as [IH1 IH2]. split; [done|].
    intros k' [Hk'|Hk']; apply IH2; [left; intros ?; apply Hk'; by right|by right].
Qed.

(** All columns of shadow-before-purge, in turn. *)
Definition key_survives_all (active : gmap string ComplexDeletion) (win : gmap CellKey CellData)
    (cols : list string) (k : CellKey) : bool :=
  forallb (fun col => match active !! col with
                      | Some cd => key_survives win col (marked_for_delete_at cd) k
                      | None => true
                      end) cols.

Lemma key_survives_agree win win' col mfda k :
  win !! k = win' !! k -> key_survives win col mfda k = key_survives win' col mfda k.
Proof. intros E. unfold key_survives. by rewrite E. Qed.

Lemma forallb_ext {A} (p q : A -> bool) l :
  (forall x, p x = q x) -> forallb p l = forallb q l.
Proof. intros H. induction l as [|x l IH]; cbn; [done|]. by rewrite H, IH. Qed.

Lemma filter_filter {A} (p q : A -> bool) l :
  List.filter p (List.filter q l) = List.filter (fun x => q x && p x) l.
Proof.
  induction l as [|x l IH]; cbn; [done|]. destruct (q x); cbn; [|done].
  destruct (p x); by rewrite IH.
Qed.

Lemma shadow_columns_spec active cols ord win :
  NoDup ord ->
  let ow := foldl (shadow_column active) (ord, win) cols in
  fst ow = List.filter (key_survives_all active win cols) ord
  /\ forall k, k ∈ fst ow -> snd ow !! k = win !! k.
Proof.
  revert ord win. induction cols as [|col cols IH]; intros ord win Hnd.
  - cbn. split; [|done]. symmetry. by apply forallb_filter_id, forallb_forall.
  - cbn [foldl]. unfold key_survives_all. cbn [forallb].
    destruct (shadow_column active (ord, win) col) as [o1 w1] eqn:Es.
    unfold shadow_column in Es. cbn [fst snd] in Es.
    destruct (active !! col) as [cd|]; [|injection Es as <- <-; by apply IH].
    destruct (retain_elements_spec col (marked_for_delete_at cd) ord win Hnd) as [H1 H2].
    rewrite Es in H1, H2. cbn [fst snd] in *.
    assert (Hnd1 : NoDup o1)
      by (rewrite H1; apply NoDup_ListNoDup, List.NoDup_filter, NoDup_ListNoDup, Hnd).
    assert (Hag : forall k, k ∈ o1 -> w1 !! k = win !! k).
    { intros k Hk. apply H2. right. rewrite H1, list_elem_of_In, filter_In in Hk. apply Hk. }
    destruct (IH o1 w1 Hnd1) as [I1 I2]. split.
    + rewrite I1. transitivity (List.filter (key_survives_all active win cols) o1).
      * apply List.filter_ext_in. intros k Hk%list_elem_of_In.
        unfold key_survives_all. apply forallb_ext. intros c.
        destruct (active !! c); [|done]. apply key_survives_agree. by apply Hag.
      * rewrite H1. apply filter_filter.
    + intros k Hk. rewrite I2 by done. apply Hag.
      rewrite I1, list_elem_of_In, filter_In in Hk. apply list_elem_of_In, Hk.
Qed.

Lemma omap_filter {A B} (f : A -> option B) (p : A -> bool) (q : B -> bool) (l : list A) :
  (forall x y, x ∈ l -> f x = Some y -> p x = q y) ->
  omap f (List.filter p l) = List.filter q (omap f l).
Proof.
  induction l as [|x l IH]; intros H; [done|]. cbn.
  assert (IH' : omap f (List.filter p l) = List.filter q (omap f l))
    by (apply IH; intros; apply H; [by right|done]).
  destruct (f x) as [y|] eqn:E.
  - specialize (H x y ltac:(by left) E). cbn. rewrite <- H.
    destruct (p x); cbn; [by rewrite E, IH'|done].
  - destruct (p x); cbn; [by rewrite E|done].
Qed.

Lemma winner_key rows k c : winner rows k = Some c -> cell_key c = k.
Proof.
  intros H. apply (first_max_elem cell_wins cell_rank_cmp cell_wins_rank) in H.
  by apply with_key_elem in H as [_ H].
Qed.

Lemma active_complex_none rows col :
  ~ col ∈ map cd_column (all_complex rows) -> active_complex rows col = None.
Proof.
  intros H. apply first_max_none. destruct (with_key _ _ _) as [|cd l] eqn:E; [done|].
  exfalso. apply H. assert (Hcd : cd ∈ with_key cd_column col (all_complex rows))
    by (rewrite E; by left).
  apply with_key_elem in Hcd as [Hcd <-]. by apply list_elem_of_fmap_2.
Qed.

(** Step 2b on the winners of [rows]. *)
Lemma complex_step_winners rows active win cols :
  (forall col, active !! col = active_complex rows col) ->
  (forall k, win !! k = winner rows k) ->
  cols = first_seen (map cd_column (all_complex rows)) ->
  omap (win !!.) (List.filter (key_survives_all active win cols)
                    (first_seen (map cell_key (all_cells rows))))
  = List.filter (survives_complex rows) (spec_winners rows).
Proof.
  intros Ha Hw ->. unfold spec_winners.
  rewrite (omap_ext_in (winner rows) (win !!.)) by (intros; by rewrite Hw).
  apply omap_filter. intros k c _ Hc.
  assert (Hk : cell_key c = k) by (rewrite Hw in Hc; by eapply winner_key).
  assert (Hks : forall col mfda, key_survives win col mfda k
     = if bool_decide (column c = col) && is_some (cell_path c)
       then timestamp c >? mfda else true).
  { intros col mfda. unfold key_survives. rewrite Hc, <- Hk. unfold cell_key. cbn [fst snd].
    destruct (bool_decide (column c = col)), (is_some (cell_path c)); done. }
  unfold key_survives_all, survives_complex.
  destruct (cell_path c) as [p|] eqn:Ep.
  2: { apply forallb_forall. intros col _. destruct (active !! col); [|done].
       by rewrite Hks, andb_false_r. }
  destruct (active_complex rows (column c)) as [cd|] eqn:Ecd.
  - assert (Hin : column c ∈ first_seen (map cd_column (all_complex rows))).
    { apply first_seen_elem. destruct (decide (column c ∈ map cd_column (all_complex rows))); [done|].
      by rewrite active_complex_none in Ecd. }
    destruct (timestamp c >? marked_for_delete_at cd) eqn:Et.
    + apply forallb_forall. intros col _. destruct (active !! col) as [cd'|] eqn:E'; [|done].
      rewrite Hks. destruct (bool_decide_reflect (column c = col)) as [<-|]; cbn; [|done].
      rewrite Ha, Ecd in E'. by injection E' as <-.
    + apply not_true_is_false. rewrite forallb_forall. intros Hall.
      specialize (Hall (column c) ltac:(by apply list_elem_of_In)).
      rewrite Ha, Ecd, Hks, bool_decide_eq_true_2 in Hall by done. cbn in Hall. congruence.
  - apply forallb_forall. intros col _. destruct (active !! col) as [cd'|] eqn:E'; [|done].
    rewrite Hks. destruct (bool_decide_reflect (column c = col)) as [<-|]; cbn; [|done].
    by rewrite Ha, Ecd in E'.
Qed.

(** Step 1, field by field. *)
Definition del_state (o : option (Z * Z)) : option Z * Z :=
  match o with Some (d, l) => (Some d, l) | None => (None, 0) end.

Lemma fold_row_del_step o x :
  fold_row_del (del_state o) (Some x) = del_state (max_step del_gt o x).
Proof.
  destruct o as [[d l]|], x as [d' l']; cbn; [|done].
  unfold del_gt. cbn. by destruct (d' >? d).
Qed.

Lemma fold_row_del_list o l :
  foldl (fun a x => fold_row_del a (Some x)) (del_state o) l
  = del_state (foldl (max_step del_gt) o l).
Proof.
  revert o. induction l as [|x l IH]; intros o; [done|]. cbn [foldl].
  by rewrite fold_row_del_step, IH.
Qed.

Lemma fold_row_del_opt acc o :
  fold_row_del acc o = foldl (fun a x => fold_row_del a (Some x)) acc (opt_list o).
Proof. by destruct o. Qed.

Lemma fold_rows_del rows st o :
  (row_del st, row_del_ldt st) = del_state o ->
  (row_del (foldl fold_entry st rows), row_del_ldt (foldl fold_entry st rows))
  = del_state (foldl (max_step del_gt) o (row_dels rows)).
Proof.
  revert st o. induction rows as [|e rows IH]; intros st o H; [done|].
  cbn [foldl row_dels map concat]. rewrite foldl_app. apply IH. cbn [fold_entry row_del row_del_ldt].
  rewrite <- surjective_pairing, H, (fold_row_del_opt _ (row_deletion e)),
    (fold_row_del_opt _ (tombstone_del (row_data e))).
  by rewrite <- foldl_app, fold_row_del_list.
Qed.

Lemma fold_range_list rows acc :
  foldl fold_range_deletion acc (map range_deletion rows)
  = foldl (max_step range_gt) acc (concat (map (fun e => opt_list (range_deletion e)) rows)).
Proof.
  revert acc. induction rows as [|e rows IH]; intros acc; [done|].
  cbn. rewrite foldl_app, IH. f_equal. unfold fold_range_deletion.
  destruct (range_deletion e) as [r|]; [|done]. destruct acc as [a|]; [|done].
  cbn. unfold range_gt. by destruct (_ >? _).
Qed.

Lemma fold_rows_fields rows st :
  let st' := foldl fold_entry st rows in
  st_clustering_key st' = st_clustering_key st
  /\ st_key st' = match st_key st, rows with
                  | None, e :: _ => Some (me_key e) | k, _ => k end
  /\ st_run_index st' = foldl Z.min (st_run_index st) (map run_index rows)
  /\ order st' = order st /\ winners st' = winners st
  /\ st_complex_deletions st'
     = foldl push_new (st_complex_deletions st) (concat (map complex_deletions rows))
  /\ st_range_deletion st' = foldl fold_range_deletion (st_range_deletion st)
                               (map range_deletion rows)
  /\ st_row_liveness st' = foldl liveness_merge (st_row_liveness st) (map row_liveness rows).
Proof.
  revert st. induction rows as [|e rows IH]; intros st; cbn [foldl map concat].
  { split_and!; try done. by destruct (st_key st). }
  destruct (IH (fold_entry st e)) as (H1 & H2 & H3 & H4 & H5 & H6 & H7 & H8).
  rewrite H1, H2, H3, H4, H5, H6, H7, H8, foldl_app. cbn. split_and!; try done.
  by destruct (st_key st).
Qed.

(** The first two steps and the complex-deletion step on a fresh state. *)
Lemma reconciled_winners ck rows :
  rows <> [] ->
  let st := apply_complex_deletions
              (resolve_cell_winners (fold_row_deletions (state_new ck) rows) rows) in
  fst (take_winners (order st) (winners st))
    = List.filter (survives_complex rows) (spec_winners rows)
  /\ st_complex_deletions st = spec_complex rows
  /\ (row_del st, row_del_ldt st) = del_state (spec_row_del rows)
  /\ st_clustering_key st = ck
  /\ st_key st = option_map me_key (head rows)
  /\ st_run_index st = spec_run_index rows
  /\ st_range_deletion st = spec_range rows
  /\ st_row_liveness st = spec_liveness rows.
Proof.
  intros Hne. unfold fold_row_deletions.
  pose proof (fold_rows_fields rows (state_new ck)) as (H1 & H2 & H3 & H4 & H5 & H6 & H7 & H8).
  pose proof (fold_rows_del rows (state_new ck) None eq_refl) as H9.
  set (st1 := foldl fold_entry (state_new ck) rows) in *.
  rewrite fold_range_list in H7. fold (all_complex rows) in H6.
  destruct (resolve_fold rows) as [R1 R2].
  unfold resolve_cell_winners. rewrite H4, H5. cbn [order winners state_new].
  set (ow := foldl resolve_entry ([], ∅) rows) in *.
  assert (Hcore : forall st', st_clustering_key st' = st_clustering_key st1 ->
    st_key st' = st_key st1 -> st_run_index st' = st_run_index st1 ->
    row_del st' = row_del st1 -> row_del_ldt st' = row_del_ldt st1 ->
    st_range_deletion st' = st_range_deletion st1 -> st_row_liveness st' = st_row_liveness st1 ->
    (row_del st', row_del_ldt st') = del_state (spec_row_del rows)
    /\ st_clustering_key st' = ck /\ st_key st' = option_map me_key (head rows)
    /\ st_run_index st' = spec_run_index rows /\ st_range_deletion st' = spec_range rows
    /\ st_row_liveness st' = spec_liveness rows).
  { intros st' -> -> -> -> -> -> ->. split_and!; try done. rewrite H2. by destruct rows. }
  unfold apply_complex_deletions. cbn [st_complex_deletions with_winners].
  rewrite H6. change (foldl push_new (st_complex_deletions (state_new ck))
    (concat (map complex_deletions rows))) with (all_complex rows).
  destruct (is_empty (all_complex rows)) eqn:Ee.
  - assert (Ec : all_complex rows = []) by by destruct (all_complex rows).
    split; [|split; [|by apply Hcore]].
    + cbn [order winners with_winners]. unfold take_winners.
      rewrite R1, take_keys_omap by apply first_seen_nodup.
      rewrite (omap_ext_in _ (winner rows)) by (intros; apply R2). fold (spec_winners rows).
      symmetry. apply forallb_filter_id, forallb_forall. intros c _. unfold survives_complex.
      destruct (cell_path c); [|done]. unfold active_complex. by rewrite Ec.
    + cbn. unfold spec_complex. rewrite H6. 
      change (foldl push_new _ _) with (all_complex rows). by rewrite Ec.
  - pose proof (collapse_group (all_complex rows)) as [C1 C2].
    destruct (collapse_complex (all_complex rows)) as [active ao]. cbn [fst snd] in *.
    cbn [order winners with_winners fst snd].
    split; [|split; [|by apply Hcore]].
    + destruct (shadow_columns_spec active ao (fst ow) (snd ow)) as [S1 S2].
      { rewrite R1. apply first_seen_nodup. }
      unfold take_winners. rewrite take_keys_omap.
      * rewrite (omap_ext_in _ (snd ow !!.)) by (intros k Hk; by apply S2).
        rewrite S1, R1. by apply complex_step_winners.
      * rewrite S1, R1. apply NoDup_ListNoDup, List.NoDup_filter, NoDup_ListNoDup, first_seen_nodup.
    + cbn [st_complex_deletions]. unfold take_active, spec_complex.
      rewrite C1, take_keys_omap by apply first_seen_nodup.
      apply omap_ext_in. intros col _. apply C2.
Qed.

(** ** Refinement *)

Lemma keep_filter_gc gc maxp cells :
  match gc with Some g => List.filter (keep_cell g maxp) cells | None => cells end
  = List.filter (spec_keep gc maxp) cells.
Proof.
  destruct gc; [done|]. symmetry. by apply forallb_filter_id, forallb_forall.
Qed.

Lemma expire_map now cells :
  match now with Some n => map (expire_cell n) cells | None => cells end
  = map (spec_expire now) cells.
Proof. destruct now; [done|]. symmetry. apply map_id. Qed.

Lemma row_del_kept rows gc maxp rd ldt :
  (rd, ldt) = del_state (spec_row_del rows) ->
  match gc with
  | Some g => if purges_row_del g maxp rd ldt then None else rd
  | None => rd
  end = option_map fst (spec_row_del_kept rows gc maxp)
  /\ (forall d, option_map fst (spec_row_del_kept rows gc maxp) = Some d ->
        spec_row_del_kept rows gc maxp = Some (d, ldt)).
Proof.
  unfold spec_row_del_kept.
  destruct (spec_row_del rows) as [[d l]|], gc as [g|]; cbn [del_state]; intros [= -> ->].
  - destruct (purges_row_del _ _ _ _); cbn; split; try done. intros ? [=]. by subst.
  - split; [done|]. intros ? [=]. by subst.
  - by unfold purges_row_del; rewrite andb_false_r.
  - done.
Qed.

Lemma spec_row_build ck rows dropped gc maxp now e rest :
  rows = e :: rest ->
  let cells := spec_surviving rows dropped gc maxp now in
  forall st purges,
  st_clustering_key st = ck -> st_key st = Some (me_key e) ->
  st_run_index st = spec_run_index rows ->
  surviving st = cells ->
  had_data_before st = existsb (is_data_cell ck) (spec_undeleted rows) ->
  row_del st = option_map fst (spec_row_del_kept rows gc maxp) ->
  (forall d, row_del st = Some d -> spec_row_del_kept rows gc maxp = Some (d, row_del_ldt st)) ->
  st_complex_deletions st = spec_complex_kept rows gc maxp ->
  st_range_deletion st = spec_range rows ->
  st_row_liveness st = spec_liveness rows ->
  fst (build st purges) = spec_merge ck rows dropped gc maxp now.
Proof.
  intros Hrows cells st purges Hck Hkey Hrun Hsurv Hhad Hrd Hrd' Hcx Hrg Hlv.
  unfold build, spec_merge. rewrite Hkey, Hck, Hrun, Hsurv, Hhad, Hcx, Hrg, Hlv.
  assert (Hr : forall (A : Type) (x : A) f, match rows with [] => x | e :: _ => f e end = f e)
    by (intros; by rewrite Hrows).
  rewrite Hr. unfold spec_row, spec_purged_to_empty. fold cells.
  destruct (negb (is_empty cells) && negb _).
  - destruct (row_del st) as [d|] eqn:Ed.
    + rewrite (Hrd' d eq_refl).
      by destruct (spec_complex_kept rows gc maxp), (spec_range rows).
    + destruct (spec_row_del_kept rows gc maxp); [done|].
      by destruct (spec_complex_kept rows gc maxp), (spec_range rows).
  - destruct (row_del st) as [d|] eqn:Ed.
    + rewrite (Hrd' d eq_refl).
      by destruct (spec_complex_kept rows gc maxp), (spec_range rows).
    + destruct (spec_row_del_kept rows gc maxp); [done|].
      by destruct (spec_complex_kept rows gc maxp), (spec_range rows).
Qed.

Lemma reconcile_spec ck rows dropped gc maxp now purges :
  fst (reconcile_cluster_with_overlap_counted ck rows dropped gc maxp now purges)
  = spec_merge ck rows dropped gc maxp now.
Proof.
  destruct rows as [|e rest] eqn:Erows; [done|]. rewrite <- Erows.
  destruct (reconciled_winners ck rows ltac:(by subst)) as (W & Hcx & Hrd & Hck & Hkey & Hrun & Hrg & Hlv).
  unfold reconcile_cluster_with_overlap_counted.
  assert (has_key (resolve_cell_winners (fold_row_deletions (state_new ck) rows) rows) = true) as ->.
  { unfold has_key, resolve_cell_winners, fold_row_deletions. cbn [st_key with_winners].
    rewrite (proj1 (proj2 (fold_rows_fields rows (state_new ck)))). by subst. }
  cbn [negb].
  set (st := apply_complex_deletions _) in *.
  unfold shadow_by_row_deletion. destruct (take_winners (order st) (winners st)) as [cells w] eqn:Et.
  cbn [fst] in W. subst cells.
  destruct (row_del_kept rows gc maxp _ _ Hrd) as [K1 K2].
  assert (Hund : List.filter (survives_row_del (row_del st))
            (List.filter (survives_complex rows) (spec_winners rows)) = spec_undeleted rows).
  { unfold spec_undeleted.
    replace (option_map fst (spec_row_del rows)) with (row_del st); [done|].
    apply (f_equal fst) in Hrd. cbn in Hrd. rewrite Hrd. by destruct (spec_row_del rows) as [[]|]. }
  unfold filter_dropped_columns. cbn [after_row_del st_clustering_key st_key st_run_index row_del
    row_del_ldt order winners st_complex_deletions st_range_deletion st_row_liveness].
  rewrite Hund.
  destruct now as [n|], gc as [g|]; unfold expire_ttl_cells, purge_gc_grace; cbn [
    with_surviving after_row_del st_clustering_key st_key st_run_index row_del surviving
    row_del_ldt order winners st_complex_deletions st_range_deletion st_row_liveness had_data_before];
  apply (spec_row_build ck rows dropped _ maxp _ e rest Erows); cbn [
    after_row_del st_clustering_key st_key st_run_index row_del surviving
    row_del_ldt order winners st_complex_deletions st_range_deletion st_row_liveness had_data_before];
  try done; try (by rewrite Hkey, Erows); try (by rewrite Hck);
  try (by unfold spec_complex_kept; rewrite Hcx);
  try (intros d Hd; apply K2; by rewrite <- K1).
  all: unfold spec_surviving; rewrite <- keep_filter_gc, <- expire_map; done.
Qed.

(** ** Members of a merged row *)

Lemma elem_of_filter_b {A} (p : A -> bool) x l : x ∈ List.filter p l <-> x ∈ l /\ p x = true.
Proof. rewrite !list_elem_of_In, filter_In. done. Qed.

Lemma winner_elem rows k w : winner rows k = Some w -> w ∈ all_cells rows /\ cell_key w = k.
Proof.
  intros H. apply (first_max_elem cell_wins cell_rank_cmp cell_wins_rank) in H.
  by apply with_key_elem.
Qed.

Lemma winner_ge rows w c :
  winner rows (cell_key c) = Some w -> c ∈ all_cells rows -> cell_rank_cmp c w <> Gt.
Proof.
  intros H Hc. apply (first_max_ge cell_wins cell_rank_cmp cell_wins_rank _ _ _ H).
  by apply with_key_elem.
Qed.

Lemma rank_le_ts a b : cell_rank_cmp a b <> Gt -> timestamp a <= timestamp b.
Proof.
  unfold cell_rank_cmp. destruct (Z.compare_spec (timestamp a) (timestamp b)); cbn; try lia. done.
Qed.

Lemma winner_exists rows c : c ∈ all_cells rows -> exists w, winner rows (cell_key c) = Some w.
Proof.
  intros Hc. destruct (winner rows (cell_key c)) as [w|] eqn:E; [by exists w|].
  apply first_max_none in E.
  assert (H : c ∈ with_key cell_key (cell_key c) (all_cells rows)) by by apply with_key_elem.
  rewrite E in H. by apply elem_of_nil in H.
Qed.

Lemma spec_winners_elem rows c : c ∈ spec_winners rows <-> winner rows (cell_key c) = Some c.
Proof.
  unfold spec_winners. rewrite list_elem_of_omap. split.
  - intros (k & _ & Hk). by rewrite (winner_key _ _ _ Hk).
  - intros H. exists (cell_key c). split; [|done].
    apply first_seen_elem, list_elem_of_fmap_2. by apply winner_elem in H as [H _].
Qed.

Lemma omap_map_id {A B} (f : A -> option B) (g : B -> A) (l : list A) :
  (forall x, x ∈ l -> exists y, f x = Some y /\ g y = x) -> map g (omap f l) = l.
Proof.
  induction l as [|x l IH]; intros H; [done|]. cbn.
  destruct (H x ltac:(by left)) as (y & -> & Hy). cbn. rewrite Hy. f_equal.
  apply IH. intros z Hz. apply H. by right.
Qed.

Lemma spec_winners_keys rows :
  map cell_key (spec_winners rows) = first_seen (map cell_key (all_cells rows)).
Proof.
  apply omap_map_id. intros k Hk. apply first_seen_elem, list_elem_of_fmap in Hk as (c & -> & Hc).
  destruct (winner_exists rows c Hc) as [w Hw]. exists w. split; [done|]. by eapply winner_key.
Qed.

Lemma spec_winners_nodup rows : NoDup (map cell_key (spec_winners rows)).
Proof. rewrite spec_winners_keys. apply first_seen_nodup. Qed.

Lemma del_gt_cmp x y : del_gt x y = true <-> del_cmp x y = Gt.
Proof. apply gtb_compare. Qed.
Lemma supersedes_cmp x y : supersedes x y = true <-> mfda_cmp x y = Gt.
Proof. apply gtb_compare. Qed.

(** A cell survives the row deletion, and the complex deletions, exactly when it
    is newer than every one of them. *)
Lemma survives_row_del_iff rows c :
  survives_row_del (option_map fst (spec_row_del rows)) c = true
  <-> forall d, d ∈ row_dels rows -> fst d < timestamp c.
Proof.
  unfold spec_row_del. destruct (first_max del_gt (row_dels rows)) as [w|] eqn:E; cbn.
  - rewrite Z.gtb_ltb, Z.ltb_lt. split.
    + intros H d Hd. pose proof (first_max_ge _ _ del_gt_cmp _ _ _ E Hd) as Hle.
      unfold del_cmp in Hle. rewrite Z.compare_gt_iff in Hle. lia.
    + intros H. apply H. by apply (first_max_elem _ _ del_gt_cmp) in E.
  - apply first_max_none in E. rewrite E. split; [|done]. by intros _ d []%elem_of_nil.
Qed.

Lemma survives_complex_iff rows c :
  survives_complex rows c = true
  <-> (cell_path c <> None -> forall cd, cd ∈ all_complex rows -> cd_column cd = column c ->
       marked_for_delete_at cd < timestamp c).
Proof.
  unfold survives_complex. destruct (cell_path c); [|by split].
  destruct (active_complex rows (column c)) as [w|] eqn:E.
  - rewrite Z.gtb_ltb, Z.ltb_lt. split.
    + intros H _ cd Hcd Hcol.
      assert (Hin : cd ∈ with_key cd_column (column c) (all_complex rows))
        by by apply with_key_elem.
      pose proof (first_max_ge _ _ supersedes_cmp _ _ _ E Hin) as Hle.
      unfold mfda_cmp in Hle. rewrite Z.compare_gt_iff in Hle. lia.
    + intros H. apply (first_max_elem _ _ supersedes_cmp) in E.
      apply with_key_elem in E as [E Hcol]. by apply H.
  - apply first_max_none in E. split; [|done]. intros _ _ cd Hcd Hcol. exfalso.
    assert (Hin : cd ∈ with_key cd_column (column c) (all_complex rows))
      by by apply with_key_elem.
    rewrite E in Hin. by apply elem_of_nil in Hin.
Qed.

(** What every deletion of the group leaves alone. *)
Definition newer_than_deletions (rows : list MergeEntry) (c : CellData) : Prop :=
  (forall d, d ∈ row_dels rows -> fst d < timestamp c)
  /\ (cell_path c <> None -> forall cd, cd ∈ all_complex rows -> cd_column cd = column c ->
      marked_for_delete_at cd < timestamp c).

Lemma spec_undeleted_elem rows c :
  c ∈ spec_undeleted rows <-> winner rows (cell_key c) = Some c /\ newer_than_deletions rows c.
Proof.
  unfold spec_undeleted, newer_than_deletions.
  rewrite !elem_of_filter_b, spec_winners_elem, survives_row_del_iff, survives_complex_iff. tauto.
Qed.

Lemma survives_drop_iff dropped c :
  survives_drop dropped c = true
  <-> forall t, dropped !! column c = Some t -> t < timestamp c.
Proof.
  unfold survives_drop. destruct (dropped !! column c) as [t|].
  - rewrite Z.gtb_ltb, Z.ltb_lt. split; [by intros H t' [= <-]|]. intros H. by apply H.
  - by split.
Qed.

Lemma expire_cell_same n c :
  column (expire_cell n c) = column c /\ timestamp (expire_cell n c) = timestamp c
  /\ cell_path (expire_cell n c) = cell_path c
  /\ (expire_cell n c = c \/ is_cell_tombstone (expire_cell n c) = true).
Proof.
  unfold expire_cell. destruct (is_cell_tombstone c); [by auto|].
  destruct (ttl c) as [t|]; [|by auto]. destruct (local_deletion_time c) as [l|]; [|by auto].
  destruct (_ >? _); by auto.
Qed.

Lemma spec_expire_same now c :
  column (spec_expire now c) = column c /\ timestamp (spec_expire now c) = timestamp c
  /\ cell_path (spec_expire now c) = cell_path c
  /\ (spec_expire now c = c \/ is_cell_tombstone (spec_expire now c) = true).
Proof. destruct now as [n|]; [apply expire_cell_same|]. cbn. by auto. Qed.

Lemma spec_surviving_elem rows dropped gc maxp now c :
  c ∈ spec_surviving rows dropped gc maxp now
  <-> spec_keep gc maxp c = true
      /\ exists w, c = spec_expire now w /\ survives_drop dropped w = true
                   /\ w ∈ spec_undeleted rows.
Proof.
  unfold spec_surviving. rewrite elem_of_filter_b.
  change (map (spec_expire now)) with (fmap (M := list) (spec_expire now)).
  rewrite list_elem_of_fmap. split.
  - intros [(w & -> & [Hw Hd]%elem_of_filter_b) Hk]. by eauto.
  - intros [Hk (w & -> & Hd & Hw)]. split; [|done]. exists w. split; [done|].
    by apply elem_of_filter_b.
Qed.

(** The live cells of a merge result. *)
Definition out_cells (o : option MergeEntry) : list CellData :=
  match o with Some e => row_cells (row_data e) | None => [] end.

Lemma out_cells_merge ck rows dropped gc maxp now c :
  c ∈ out_cells (spec_merge ck rows dropped gc maxp now) ->
  c ∈ spec_surviving rows dropped gc maxp now.
Proof.
  unfold spec_merge. destruct rows as [|e rest]; [by intros []%elem_of_nil|].
  unfold spec_row. destruct (negb _ && negb _); [done|].
  destruct (spec_row_del_kept _ _ _) as [[d l]|]; [by intros []%elem_of_nil|].
  destruct (_ || _); by intros []%elem_of_nil.
Qed.

Lemma merge_live ck rows dropped gc maxp now :
  spec_surviving rows dropped gc maxp now <> [] ->
  spec_purged_to_empty ck rows (spec_surviving rows dropped gc maxp now) = false ->
  exists e, spec_merge ck rows dropped gc maxp now = Some e
    /\ row_data e = Live (spec_surviving rows dropped gc maxp now).
Proof.
  intros Hne Hp. unfold spec_merge. destruct rows as [|e rest]; [done|].
  unfold spec_row. rewrite Hp.
  destruct (is_empty _) eqn:E; [by destruct (spec_surviving _ _ _ _ _)|]. cbn. by eexists.
Qed.
