(* ===== verification/ReconcileProps.v ===== *)
(** Properties of row reconciliation: last write wins, no resurrection, no loss,
    what may be purged, TTL expiry, order independence, idempotence. *)

From S2P Require Import Prelude Values Keys MergeModel Reconcile ReconcileSpec.

Open Scope Z_scope.

(** C20: The kernel refines its specification: the entry
    [reconcile_cluster_with_overlap_counted] builds through its hash maps and
    retain loops is, for every group of rows and every purge setting, the one
    [spec_merge] describes: the winners in first-seen order, filtered by the
    strongest complex, row and column deletions, expired, purged, and emitted as a
    live row, a row tombstone or a metadata carrier. *)
Theorem reconcile_refines ck rows dropped gc maxp now purges :
  fst (reconcile_cluster_with_overlap_counted ck rows dropped gc maxp now purges)
  = spec_merge ck rows dropped gc maxp now.
Proof. apply reconcile_spec. Qed.

(** Last write wins. The winner of a [(column, path)] is one of its cells; no
    other cell of that key has a greater timestamp, nor is a tombstone of the same
    timestamp where the winner is live; and every equally ranked cell comes after
    it (the first seen, from the newest file, is kept). *)
Theorem winner_is_last_write rows ck k w
    (Hw : winners (resolve_cell_winners (state_new ck) rows) !! k = Some w) :
  w ∈ all_cells rows /\ cell_key w = k
  /\ (forall c, c ∈ all_cells rows -> cell_key c = k ->
        timestamp c < timestamp w
        \/ (timestamp c = timestamp w /\ (is_cell_tombstone c = true -> is_cell_tombstone w = true)))
  /\ exists l1 l2, with_key cell_key k (all_cells rows) = l1 ++ w :: l2
      /\ forall c, c ∈ l1 -> timestamp c < timestamp w
           \/ (timestamp c = timestamp w
               /\ is_cell_tombstone c = false /\ is_cell_tombstone w = true).
Proof.
  unfold resolve_cell_winners in Hw. cbn [winners with_winners order state_new] in Hw.
  rewrite (proj2 (resolve_fold rows)) in Hw.
  pose proof (winner_elem _ _ _ Hw) as [Hin Hk].
  split; [done|]. split; [done|]. split.
  - intros c Hc Hck. subst k. rewrite <- Hck in Hw. pose proof (winner_ge _ _ _ Hw Hc) as H.
    unfold cell_rank_cmp in H.
    destruct (Z.compare_spec (timestamp c) (timestamp w)); cbn in H; [right|by left|done].
    split; [done|]. by destruct (is_cell_tombstone c), (is_cell_tombstone w).
  - apply (first_max_spec cell_wins cell_rank_cmp cell_wins_rank) in Hw as (l1 & l2 & -> & H1 & _).
    exists l1, l2. split; [done|]. intros c Hc. specialize (H1 c Hc). unfold cell_rank_cmp in H1.
    destruct (Z.compare_spec (timestamp c) (timestamp w)); cbn in H1; [right|by left|done].
    by destruct (is_cell_tombstone c), (is_cell_tombstone w).
Qed.

(** A small group: [v] written at 10, deleted at 20 in a newer file, rewritten at
    20 in an older one; [w] written at 15. *)
Definition demo_key : DecoratedKey := mkDecoratedKey 7 [0; 0; 0; 1].
Definition demo_tomb (ts ldt : Z) : CellData :=
  mkCellData "v" (Tombstone (mkTombstoneInfo ts CellTombstone ldt None None None))
    ts None None None false false false.
Definition demo_rows : list MergeEntry :=
  [ entry_new 0 demo_key None 20 (Live [demo_tomb 20 1000]);
    entry_new 1 demo_key None 20 (Live [cell_new "v" (Integer 2) 20; cell_new "w" (Integer 5) 15]);
    entry_new 2 demo_key None 10 (Live [cell_new "v" (Integer 1) 10]) ].

Lemma winner_is_last_write_witness :
  winners (resolve_cell_winners (state_new None) demo_rows) !! ("v"%string, None)
    = Some (demo_tomb 20 1000)
  /\ demo_tomb 20 1000 ∈ all_cells demo_rows.
Proof.
  assert (E : winners (resolve_cell_winners (state_new None) demo_rows) !! ("v"%string, None)
              = Some (demo_tomb 20 1000)) by (vm_compute; reflexivity).
  split; [exact E|]. exact (proj1 (winner_is_last_write demo_rows None _ _ E)).
Defined.

Lemma reconciled_cell ck rows dropped gc maxp now purges e c :
  fst (reconcile_cluster_with_overlap_counted ck rows dropped gc maxp now purges) = Some e ->
  c ∈ row_cells (row_data e) ->
  (exists w, w ∈ all_cells rows /\ cell_key w = cell_key c /\ timestamp w = timestamp c
     /\ (c = w \/ is_cell_tombstone c = true))
  /\ (forall x, x ∈ all_cells rows -> cell_key x = cell_key c -> timestamp x <= timestamp c)
  /\ (forall d, d ∈ row_dels rows -> fst d < timestamp c)
  /\ (cell_path c <> None -> forall r cd, r ∈ rows -> cd ∈ complex_deletions r ->
        cd_column cd = column c -> marked_for_delete_at cd < timestamp c)
  /\ (forall t, dropped !! column c = Some t -> t < timestamp c).
Proof.
  intros He Hc.
  rewrite reconcile_spec in He.
  assert (Hs : c ∈ spec_surviving rows dropped gc maxp now)
    by (apply (out_cells_merge ck); by rewrite He).
  apply spec_surviving_elem in Hs as [_ (w & -> & Hd & Hu)].
  apply spec_undeleted_elem in Hu as [Hw [Hrd Hcx]].
  destruct (spec_expire_same now w) as (Ec & Et & Ep & Ev).
  assert (Ek : cell_key (spec_expire now w) = cell_key w) by (unfold cell_key; by rewrite Ec, Ep).
  rewrite Ec, Et, Ep, Ek. split_and!.
  - exists w. apply winner_elem in Hw as [Hin _]. split_and!; [done..|]. tauto.
  - intros x Hx Hxk. apply rank_le_ts. apply (winner_ge rows); [by rewrite Hxk|done].
  - done.
  - intros Hp r cd Hr Hcd. apply Hcx; [done|]. apply first_seen_elem, list_elem_of_In, in_concat.
    exists (complex_deletions r). rewrite <- !list_elem_of_In. split; [|done].
    by apply list_elem_of_fmap_2.
  - by apply survives_drop_iff.
Qed.

(** C21: No resurrection. Every live cell of a merged row carries the column,
    path and timestamp of the winning input cell, with that cell's value unless it
    is a tombstone, and that input is strictly newer than every row deletion of
    the group, every complex deletion of its column (for an element) and the drop
    time of its column; no input cell of its key is newer. *)
Theorem no_resurrection ck rows dropped gc maxp now purges e c
    (He : fst (reconcile_cluster_with_overlap_counted ck rows dropped gc maxp now purges) = Some e)
    (Hc : c ∈ row_cells (row_data e)) :
  (exists w, w ∈ all_cells rows /\ cell_key w = cell_key c /\ timestamp w = timestamp c
     /\ (c = w \/ is_cell_tombstone c = true))
  /\ (forall x, x ∈ all_cells rows -> cell_key x = cell_key c -> timestamp x <= timestamp c)
  /\ (forall d, d ∈ row_dels rows -> fst d < timestamp c)
  /\ (cell_path c <> None -> forall r cd, r ∈ rows -> cd ∈ complex_deletions r ->
        cd_column cd = column c -> marked_for_delete_at cd < timestamp c)
  /\ (forall t, dropped !! column c = Some t -> t < timestamp c).
Proof. by apply reconciled_cell with (2 := Hc) in He. Qed.

(** A row deletion at 16 hides [w] but not the tombstone of [v]. *)
Lemma no_resurrection_witness :
  let rows := entry_new 0 demo_key None 16 (RTombstone 16 500) :: demo_rows in
  out_cells (fst (reconcile_cluster_with_overlap_counted None rows ∅ None i64_MIN None purges_default))
    = [demo_tomb 20 1000]
  /\ fst ((16, 500) : Z * Z) < timestamp (demo_tomb 20 1000).
Proof.
  intros rows. split; [vm_compute; reflexivity|].
  refine (proj1 (proj2 (proj2 (no_resurrection None rows ∅ None i64_MIN None purges_default
            _ (demo_tomb 20 1000) _ _))) (16, 500) _).
  - vm_compute. reflexivity.
  - cbn. left.
  - cbn. left.
Defined.

(** When a cell is out of the purge's reach: it is live, or its local deletion
    time is unknown or within grace, or its timestamp reaches the overlap bound. *)
Definition not_purgeable (gc : option Z) (maxp : Z) (c : CellData) : Prop :=
  is_cell_tombstone c = true ->
  forall g l, gc = Some g -> cell_effective_ldt c = Some l -> as_u32 l < g -> maxp <= timestamp c.

(** A TTL cell that has not expired, or a cell that does not expire at all. *)
Definition not_expired (now : option Z) (c : CellData) : Prop :=
  is_cell_tombstone c = false ->
  forall n t l, now = Some n -> ttl c = Some t -> local_deletion_time c = Some l -> n < as_u32 l.

Lemma not_expired_same now c : not_expired now c -> spec_expire now c = c.
Proof.
  destruct now as [n|]; [|done]. cbn. unfold not_expired, expire_cell.
  destruct (is_cell_tombstone c); [done|].
  destruct (ttl c) as [t|]; [|done]. destruct (local_deletion_time c) as [l|]; [|done].
  intros H. specialize (H eq_refl n t l eq_refl eq_refl eq_refl).
  by rewrite Z.gtb_ltb, (proj2 (Z.ltb_lt _ _)).
Qed.

Lemma not_purgeable_keep gc maxp c : not_purgeable gc maxp c -> spec_keep gc maxp c = true.
Proof.
  destruct gc as [g|]; [|done]. cbn. unfold not_purgeable, keep_cell.
  assert (is_cell_tombstone c || is_deleted c = is_cell_tombstone c) as ->.
  { unfold is_cell_tombstone. by rewrite <- orb_assoc, orb_diag. }
  destruct (is_cell_tombstone c); [|done].
  destruct (cell_effective_ldt c) as [l|]; [|done]. intros H.
  destruct (Z.ltb_spec (as_u32 l) g) as [Hl|]; [|done].
  specialize (H eq_refl g l eq_refl eq_refl Hl).
  by destruct (Z.ltb_spec (timestamp c) maxp); [lia|].
Qed.

Lemma kept_cell ck rows dropped gc maxp now purges c :
  winner rows (cell_key c) = Some c -> newer_than_deletions rows c ->
  (forall t, dropped !! column c = Some t -> t < timestamp c) ->
  not_expired now c -> not_purgeable gc maxp c -> is_data_cell ck c = true ->
  exists e, fst (reconcile_cluster_with_overlap_counted ck rows dropped gc maxp now purges) = Some e
    /\ c ∈ row_cells (row_data e).
Proof.
  intros Hc Hnew Hdrop Hexp Hpurge Hdata. rewrite reconcile_spec.
  assert (Hs : c ∈ spec_surviving rows dropped gc maxp now).
  { apply spec_surviving_elem. split; [by apply not_purgeable_keep|]. exists c.
    rewrite not_expired_same, survives_drop_iff, spec_undeleted_elem by done. done. }
  destruct (merge_live ck rows dropped gc maxp now) as (e & He & Hrd).
  - intros E. rewrite E in Hs. by apply elem_of_nil in Hs.
  - unfold spec_purged_to_empty.
    replace (existsb (is_data_cell ck) (spec_surviving rows dropped gc maxp now)) with true
      by (symmetry; apply existsb_exists; exists c; by rewrite <- list_elem_of_In).
    by rewrite andb_false_r.
  - exists e. split; [done|]. by rewrite Hrd.
Qed.

(** C22: Nothing is lost. A data cell that wins its key, is strictly newer than
    every deletion covering it and has not expired is in the merged row, whatever
    else the group holds; a winning tombstone is too, unless its local deletion
    time is before the gc cutoff and its timestamp below the overlap bound. *)
Theorem no_loss ck rows dropped gc maxp now purges c
    (Hc : winners (resolve_cell_winners (state_new ck) rows) !! cell_key c = Some c)
    (Hnew : newer_than_deletions rows c)
    (Hdrop : forall t, dropped !! column c = Some t -> t < timestamp c)
    (Hexp : not_expired now c) (Hpurge : not_purgeable gc maxp c)
    (Hdata : is_data_cell ck c = true) :
  exists e, fst (reconcile_cluster_with_overlap_counted ck rows dropped gc maxp now purges) = Some e
    /\ c ∈ row_cells (row_data e).
Proof.
  unfold resolve_cell_winners in Hc. cbn [winners with_winners order state_new] in Hc.
  rewrite (proj2 (resolve_fold rows)) in Hc. by apply kept_cell.
Qed.

Lemma no_loss_witness :
  exists e, fst (reconcile_cluster_with_overlap_counted None demo_rows ∅ (Some 2000) i64_MAX
                   (Some 5000) purges_default) = Some e
    /\ cell_new "w" (Integer 5) 15 ∈ row_cells (row_data e).
Proof.
  apply (no_loss None demo_rows ∅ (Some 2000) i64_MAX (Some 5000) purges_default
           (cell_new "w" (Integer 5) 15)).
  - vm_compute. reflexivity.
  - split; [|intros H; by destruct H].
    change (row_dels demo_rows) with (@nil (Z * Z)). by intros d ?%elem_of_nil.
  - intros t. by rewrite lookup_empty.
  - intros _ n t l _ Ht. done.
  - intros H. vm_compute in H. done.
  - reflexivity.
Defined.

(** The row deletion a merge result carries, beside live cells or as a tombstone row. *)
Definition out_row_del (o : option MergeEntry) : option (Z * Z) :=
  match o with
  | Some e => match row_data e with RTombstone d l => Some (d, l) | Live _ => row_deletion e end
  | None => None
  end.

Lemma spec_merge_row_del ck rows dropped gc maxp now :
  out_row_del (spec_merge ck rows dropped gc maxp now) = spec_row_del_kept rows gc maxp.
Proof.
  unfold spec_merge. destruct rows as [|e rest].
  - unfold spec_row_del_kept, spec_row_del. by destruct gc.
  - unfold spec_row. destruct (negb _ && negb _); [done|].
    destruct (spec_row_del_kept _ _ _) as [[d l]|]; [done|]. by destruct (_ || _).
Qed.

Lemma spec_merge_meta ck rows dropped gc maxp now e :
  spec_merge ck rows dropped gc maxp now = Some e ->
  complex_deletions e = spec_complex_kept rows gc maxp /\ range_deletion e = spec_range rows.
Proof.
  unfold spec_merge. destruct rows; [done|].
  destruct (spec_row _ _ _ _ _ _) as [[[ts rd] rdel]|]; [|done]. by intros [= <-].
Qed.

Lemma spec_merge_some ck rows dropped gc maxp now :
  rows <> [] ->
  spec_complex_kept rows gc maxp <> [] \/ spec_range rows <> None
    \/ spec_row_del_kept rows gc maxp <> None ->
  exists e, spec_merge ck rows dropped gc maxp now = Some e.
Proof.
  intros Hne H. unfold spec_merge.
  destruct rows as [|e rest] eqn:Er; [done|]. rewrite <- Er in *. clear Er.
  unfold spec_row. destruct (negb _ && negb _); [by eexists|].
  destruct (spec_row_del_kept _ _ _) as [[d l]|]; [by eexists|].
  destruct (spec_complex_kept _ _ _); [|by eexists].
  destruct (spec_range rows); [by eexists|]. by destruct H as [|[]].
Qed.

(** The purge conditions of a deletion marker. *)
Definition marker_purged (gc : option Z) (maxp ts ldt : Z) : Prop :=
  exists g, gc = Some g /\ as_u32 ldt < g /\ ts < maxp.

Lemma row_del_persists ck rows dropped gc maxp now d :
  d ∈ row_dels rows ->
  exists d', d' ∈ row_dels rows /\ fst d <= fst d'
    /\ (out_row_del (spec_merge ck rows dropped gc maxp now) = Some d'
        \/ (marker_purged gc maxp (fst d') (snd d') /\ snd d' <> 0)).
Proof.
  intros Hd. rewrite spec_merge_row_del. unfold spec_row_del_kept, spec_row_del.
  destruct (first_max del_gt (row_dels rows)) as [[d' l']|] eqn:E.
  2: { apply first_max_none in E. rewrite E in Hd. by apply elem_of_nil in Hd. }
  pose proof (first_max_ge _ _ del_gt_cmp _ _ _ E Hd) as Hge.
  unfold del_cmp in Hge. rewrite Z.compare_gt_iff in Hge.
  exists (d', l'). split; [by apply (first_max_elem _ _ del_gt_cmp) in E|]. split; [lia|].
  destruct gc as [g|]; [|by left]. destruct (purges_row_del _ _ _ _) eqn:P; [right|by left].
  unfold purges_row_del in P. rewrite !andb_true_iff, negb_true_iff, Z.eqb_neq, !Z.ltb_lt in P.
  destruct P as [[P1 P2] P3]. split; [|done]. by exists g.
Qed.

Lemma complex_del_persists ck rows dropped gc maxp now r cd :
  r ∈ rows -> cd ∈ complex_deletions r ->
  exists r' cd', r' ∈ rows /\ cd' ∈ complex_deletions r' /\ cd_column cd' = cd_column cd
    /\ marked_for_delete_at cd <= marked_for_delete_at cd'
    /\ ((exists e, spec_merge ck rows dropped gc maxp now = Some e /\ cd' ∈ complex_deletions e)
        \/ marker_purged gc maxp (marked_for_delete_at cd') (cd_local_deletion_time cd')).
Proof.
  intros Hr Hcd.
  assert (Hall : cd ∈ all_complex rows).
  { apply first_seen_elem, list_elem_of_In, in_concat. exists (complex_deletions r).
    rewrite <- !list_elem_of_In. split; [|done]. by apply list_elem_of_fmap_2. }
  assert (Hin : cd ∈ with_key cd_column (cd_column cd) (all_complex rows))
    by by apply with_key_elem.
  destruct (active_complex rows (cd_column cd)) as [cd'|] eqn:E.
  2: { apply first_max_none in E. rewrite E in Hin. by apply elem_of_nil in Hin. }
  pose proof (first_max_ge _ _ supersedes_cmp _ _ _ E Hin) as Hge.
  unfold mfda_cmp in Hge. rewrite Z.compare_gt_iff in Hge.
  pose proof (first_max_elem _ _ supersedes_cmp _ _ E) as [Hin' Hcol]%with_key_elem.
  apply first_seen_elem, list_elem_of_In, in_concat in Hin' as (l & Hl%list_elem_of_In & Hcd'%list_elem_of_In).
  apply list_elem_of_fmap in Hl as (r' & -> & Hr').
  assert (Hin' : cd' ∈ all_complex rows).
  { apply first_seen_elem, list_elem_of_In, in_concat. exists (complex_deletions r').
    rewrite <- !list_elem_of_In. split; [|done]. by apply list_elem_of_fmap_2. }
  exists r', cd'. split; [done|]. split; [done|]. split; [done|]. split; [lia|].
  assert (Hsp : cd' ∈ spec_complex rows).
  { apply list_elem_of_omap. exists (cd_column cd). split; [|done].
    apply first_seen_elem. by apply list_elem_of_fmap_2. }
  assert (Hkept : cd' ∈ spec_complex_kept rows gc maxp
            \/ marker_purged gc maxp (marked_for_delete_at cd') (cd_local_deletion_time cd')).
  { unfold spec_complex_kept. destruct gc as [g|]; [|by left].
    destruct (keep_complex g maxp cd') eqn:K; [left; by apply elem_of_filter_b|right].
    unfold keep_complex in K. rewrite negb_false_iff, andb_true_iff, !Z.ltb_lt in K.
    destruct K. by exists g. }
  destruct Hkept as [Hkept|?]; [left|by right].
  destruct (spec_merge_some ck rows dropped gc maxp now) as [e He].
  { intros ->. by apply elem_of_nil in Hr. }
  { left. intros E'. rewrite E' in Hkept. by apply elem_of_nil in Hkept. }
  exists e. split; [done|]. by rewrite (proj1 (spec_merge_meta _ _ _ _ _ _ _ He)).
Qed.

Lemma range_del_persists ck rows dropped gc maxp now r rt :
  r ∈ rows -> range_deletion r = Some rt ->
  exists e r' rt', spec_merge ck rows dropped gc maxp now = Some e /\ range_deletion e = Some rt'
    /\ r' ∈ rows /\ range_deletion r' = Some rt' /\ rt_deletion_time rt <= rt_deletion_time rt'.
Proof.
  intros Hr Hrt.
  set (l := concat (map (fun e => opt_list (range_deletion e)) rows)).
  assert (Hin : rt ∈ l).
  { apply list_elem_of_In, in_concat. exists (opt_list (range_deletion r)).
    rewrite <- !list_elem_of_In. split; [|rewrite Hrt; by left].
    by apply (list_elem_of_fmap_2 (fun e => opt_list (range_deletion e))). }
  destruct (spec_range rows) as [rt'|] eqn:E.
  2: { apply first_max_none in E. fold l in E. rewrite E in Hin. by apply elem_of_nil in Hin. }
  destruct (spec_merge_some ck rows dropped gc maxp now) as [e He].
  { intros ->. by apply elem_of_nil in Hr. }
  { right. left. by rewrite E. }
  assert (OrdLaws (fun a b => rt_deletion_time a ?= rt_deletion_time b))
    by by apply (ord_on _ (fun _ => True) rt_deletion_time Z.compare).
  pose proof (first_max_elem range_gt (fun a b => rt_deletion_time a ?= rt_deletion_time b)
    (fun a b => gtb_compare _ _) _ _ E) as Hel.
  apply list_elem_of_In, in_concat in Hel as (l' & Hl'%list_elem_of_In & Hrt'%list_elem_of_In).
  apply list_elem_of_fmap in Hl' as (r' & -> & Hr').
  assert (Er : range_deletion r' = Some rt').
  { destruct (range_deletion r') as [x|]; [by apply list_elem_of_singleton in Hrt' as ->|by apply elem_of_nil in Hrt']. }
  exists e, r', rt'. split; [done|]. rewrite (proj2 (spec_merge_meta _ _ _ _ _ _ _ He)).
  split; [done|]. split; [done|]. split; [done|].
  pose proof (first_max_ge range_gt (fun a b => rt_deletion_time a ?= rt_deletion_time b)
    (fun a b => gtb_compare _ _) _ _ _ E Hin) as Hge.
  cbn in Hge. rewrite Z.compare_gt_iff in Hge. lia.
Qed.

(** C30: Deletions persist. For each row deletion of the group there is one of the group at
    least as strong that the merged entry carries, with its own local deletion time, for
    each complex deletion one of the same column, and for each range deletion one
    too. Such a row or complex deletion is only left out when its own local deletion time is
    before the gc cutoff (and, for a row deletion, known) and its timestamp below the overlap
    bound; a range deletion never is. *)
Theorem deletions_persist ck rows dropped gc maxp now purges :
  let out := fst (reconcile_cluster_with_overlap_counted ck rows dropped gc maxp now purges) in
  (forall d, d ∈ row_dels rows -> exists d', d' ∈ row_dels rows /\ fst d <= fst d'
     /\ (out_row_del out = Some d' \/ (marker_purged gc maxp (fst d') (snd d') /\ snd d' <> 0)))
  /\ (forall r cd, r ∈ rows -> cd ∈ complex_deletions r ->
       exists r' cd', r' ∈ rows /\ cd' ∈ complex_deletions r' /\ cd_column cd' = cd_column cd
         /\ marked_for_delete_at cd <= marked_for_delete_at cd'
         /\ ((exists e, out = Some e /\ cd' ∈ complex_deletions e)
             \/ marker_purged gc maxp (marked_for_delete_at cd') (cd_local_deletion_time cd')))
  /\ (forall r rt, r ∈ rows -> range_deletion r = Some rt ->
       exists e r' rt', out = Some e /\ range_deletion e = Some rt'
         /\ r' ∈ rows /\ range_deletion r' = Some rt' /\ rt_deletion_time rt <= rt_deletion_time rt').
Proof.
  cbn zeta. rewrite reconcile_spec. split; [|split].
  - intros d. apply row_del_persists.
  - intros r cd. apply complex_del_persists.
  - intros r rt. apply range_del_persists.
Qed.

(** TTL expiry. A live cell with a TTL and a local deletion time [l] (GC-clock
    seconds read unsigned) becomes a tombstone exactly when [l <= now]: same
    column, path and timestamp, no TTL, and a local deletion time of [l - ttl],
    the instant it was written; an element is also flagged deleted. Expiring again
    at a later instant changes nothing. *)
Theorem ttl_expiry now now' c t l
    (Hlive : is_cell_tombstone c = false) (Ht : ttl c = Some t)
    (Hl : local_deletion_time c = Some l) (Htl : 0 <= t) (Hnow : now <= now') :
  (as_u32 l <= now ->
     is_cell_tombstone (expire_cell now c) = true
     /\ cell_key (expire_cell now c) = cell_key c
     /\ timestamp (expire_cell now c) = timestamp c
     /\ ttl (expire_cell now c) = None
     /\ option_map as_u32 (cell_effective_ldt (expire_cell now c)) = Some (Z.max 0 (as_u32 l - t))
     /\ is_deleted (expire_cell now c) = is_complex_element c)
  /\ (now < as_u32 l -> expire_cell now c = c)
  /\ expire_cell now' (expire_cell now c) = expire_cell now' c.
Proof.
  assert (Hd : is_deleted c = false) by (unfold is_cell_tombstone in Hlive; by apply orb_false_iff in Hlive as [_ ?]).
  assert (E : forall n, expire_cell n c = if as_u32 l >? n then c else expire_cell (as_u32 l) c).
  { intros n. unfold expire_cell. rewrite Hlive, Ht, Hl.
    replace (as_u32 l >? as_u32 l) with false by (rewrite Z.gtb_ltb; symmetry; apply Z.ltb_irrefl).
    done. }
  assert (E0 : (as_u32 l >? as_u32 l) = false) by (rewrite Z.gtb_ltb; apply Z.ltb_irrefl).
  split; [|split].
  - intros Hle. rewrite (E now), Z.gtb_ltb, (proj2 (Z.ltb_ge _ _) Hle).
    unfold expire_cell. rewrite Hlive, Ht, Hl, E0. cbn. rewrite Hd.
    split_and!; try done.
    + f_equal. unfold sat_sub, as_i32, as_u32. rewrite wrap_swrap by lia. apply wrap_id.
      pose proof (wrap_range 32 l ltac:(lia)). unfold u_range in *. lia.
    + by destruct (is_complex_element c).
  - intros Hlt. rewrite E, Z.gtb_ltb, (proj2 (Z.ltb_lt _ _) Hlt). done.
  - rewrite (E now). destruct (as_u32 l >? now) eqn:G; [done|].
    rewrite Z.gtb_ltb, Z.ltb_ge in G.
    rewrite (E now'), Z.gtb_ltb, (proj2 (Z.ltb_ge _ _)) by lia.
    destruct (expire_cell_same (as_u32 l) c) as (_ & _ & _ & [Hs|Hs]).
    + exfalso. unfold expire_cell in Hs. rewrite Hlive, Ht, Hl, E0 in Hs.
      apply (f_equal ttl) in Hs. cbn in Hs. congruence.
    + unfold expire_cell at 1. by rewrite Hs.
Qed.

(** A cell written at second 1000 with a TTL of 60. *)
Definition demo_ttl : CellData :=
  mkCellData "v" (Integer 1) 5 (Some 60) None (Some 1060) false false false.

Lemma ttl_expiry_witness :
  is_cell_tombstone (expire_cell 1060 demo_ttl) = true
  /\ expire_cell 1059 demo_ttl = demo_ttl
  /\ expire_cell 2000 (expire_cell 1060 demo_ttl) = expire_cell 2000 demo_ttl.
Proof.
  split; [|split].
  - apply (ttl_expiry 1060 2000 demo_ttl 60 1060); vm_compute; try reflexivity; discriminate.
  - apply (ttl_expiry 1059 2000 demo_ttl 60 1060); vm_compute; try reflexivity; discriminate.
  - apply (ttl_expiry 1060 2000 demo_ttl 60 1060); vm_compute; try reflexivity; discriminate.
Defined.

Lemma expire_idempotent now c : spec_expire now (spec_expire now c) = spec_expire now c.
Proof.
  destruct (spec_expire_same now c) as (_ & _ & _ & [Hs|Ht]); [by rewrite !Hs|].
  destruct now as [n|]; [|done]. cbn in *. unfold expire_cell at 1. by rewrite Ht.
Qed.

(** ** Idempotence *)

Lemma liveness_merge_norm l m :
  has_marker (liveness_merge l m) = false ->
  (has_marker l = false -> l = liveness_default) -> liveness_merge l m = liveness_default.
Proof.
  unfold liveness_merge. destruct (has_marker l) eqn:El, (has_marker m) eqn:Em; try congruence.
  destruct (marker_timestamp l), (marker_timestamp m); repeat case_match; congruence.
Qed.

Lemma spec_liveness_norm rows :
  has_marker (spec_liveness rows) = false -> spec_liveness rows = liveness_default.
Proof.
  unfold spec_liveness. induction rows as [|e rows IH] using rev_ind; [done|].
  rewrite map_app, foldl_app. cbn. intros H. by apply liveness_merge_norm.
Qed.

Lemma spec_run_index_le rows : spec_run_index rows <= u64_MAX.
Proof.
  unfold spec_run_index. generalize u64_MAX. induction (map run_index rows) as [|r l IH];
    intros m; cbn; [lia|]. specialize (IH (Z.min m r)). lia.
Qed.

Lemma spec_surviving_keys rows dropped gc maxp now :
  NoDup (map cell_key (spec_surviving rows dropped gc maxp now)).
Proof.
  assert (Hf : forall p l, NoDup (map cell_key l) -> NoDup (map cell_key (List.filter p l))).
  { intros p l. induction l as [|c l IH]; cbn; [done|]. intros [Hc Hl]%NoDup_cons.
    destruct (p c); cbn; [|by apply IH]. apply NoDup_cons. split; [|by apply IH].
    intros (x & E & [Hx _]%elem_of_filter_b)%list_elem_of_fmap. apply Hc. rewrite E.
    by apply (list_elem_of_fmap_2 cell_key). }
  unfold spec_surviving. apply Hf. rewrite map_map.
  rewrite (map_ext _ cell_key).
  - apply Hf, Hf, Hf, spec_winners_nodup.
  - intros c. destruct (spec_expire_same now c) as (Ec & _ & Ep & _).
    unfold cell_key. by rewrite Ec, Ep.
Qed.

Lemma spec_complex_columns rows gc maxp :
  NoDup (map cd_column (spec_complex_kept rows gc maxp))
  /\ forall cd, cd ∈ spec_complex_kept rows gc maxp -> cd ∈ all_complex rows.
Proof.
  assert (Hsp : NoDup (map cd_column (spec_complex rows))
                /\ forall cd, cd ∈ spec_complex rows -> cd ∈ all_complex rows).
  { split.
    - unfold spec_complex. rewrite omap_map_id; [apply first_seen_nodup|].
      intros col Hcol. apply first_seen_elem, list_elem_of_fmap in Hcol as (cd & -> & Hcd).
      destruct (active_complex rows (cd_column cd)) as [w|] eqn:E.
      + exists w. split; [done|]. by apply (first_max_elem _ _ supersedes_cmp), with_key_elem in E as [_ ?].
      + exfalso. apply first_max_none in E.
        assert (Hin : cd ∈ with_key cd_column (cd_column cd) (all_complex rows))
          by by apply with_key_elem.
        rewrite E in Hin. by apply elem_of_nil in Hin.
    - intros cd (col & _ & E)%list_elem_of_omap.
      by apply (first_max_elem _ _ supersedes_cmp), with_key_elem in E as [? _]. }
  destruct Hsp as [H1 H2]. unfold spec_complex_kept. destruct gc as [g|]; [|done]. split.
  - revert H1. generalize (spec_complex rows). intros l. induction l as [|c l IH]; cbn; [done|].
    intros [Hc Hl]%NoDup_cons. destruct (keep_complex g maxp c); cbn; [|by apply IH].
    apply NoDup_cons. split; [|by apply IH].
    intros (x & E & [Hx _]%elem_of_filter_b)%list_elem_of_fmap. apply Hc. rewrite E.
    by apply (list_elem_of_fmap_2 cd_column).
  - intros cd [Hcd _]%elem_of_filter_b. by apply H2.
Qed.

Lemma filter_all {A} (p : A -> bool) l : (forall x, x ∈ l -> p x = true) -> List.filter p l = l.
Proof.
  intros H. apply forallb_filter_id, forallb_forall. intros x Hx. apply H. by apply list_elem_of_In.
Qed.

Lemma newer_surviving rows dropped gc maxp now c :
  c ∈ spec_surviving rows dropped gc maxp now ->
  newer_than_deletions rows c /\ survives_drop dropped c = true
  /\ spec_keep gc maxp c = true /\ spec_expire now c = c.
Proof.
  intros (Hk & w & -> & Hd & Hu)%spec_surviving_elem.
  apply spec_undeleted_elem in Hu as [_ [Hrd Hcx]].
  destruct (spec_expire_same now w) as (Ec & Et & Ep & _).
  split_and!; [split|..]; rewrite ?Ec, ?Et, ?Ep; try done.
  - unfold survives_drop. by rewrite Ec, Et.
  - apply expire_idempotent.
Qed.

(** Rows whose deletions are among those of [rows]. *)
Lemma newer_than_kept rows gc maxp c e :
  row_dels [e] = opt_list (spec_row_del_kept rows gc maxp) ->
  complex_deletions e = spec_complex_kept rows gc maxp ->
  newer_than_deletions rows c -> newer_than_deletions [e] c.
Proof.
  intros Hrd Hcx [H1 H2]. split.
  - rewrite Hrd. unfold spec_row_del_kept, spec_row_del. intros d Hd.
    destruct (first_max del_gt (row_dels rows)) as [w|] eqn:E;
      [|by destruct gc; apply elem_of_nil in Hd].
    apply (first_max_elem _ _ del_gt_cmp) in E.
    assert (d = w) as ->; [|by apply H1].
    destruct w as [d' l'], gc as [g|]; [destruct (purges_row_del _ _ _ _)|];
      first [by apply elem_of_nil in Hd|by apply list_elem_of_singleton in Hd].
  - intros Hp cd Hcd. apply H2; [done|].
    unfold all_complex in Hcd. rewrite first_seen_elem in Hcd. cbn in Hcd.
    rewrite app_nil_r, Hcx in Hcd. by apply (proj2 (spec_complex_columns rows gc maxp)).
Qed.

Lemma spec_row_del_single rows gc maxp e :
  row_dels [e] = opt_list (spec_row_del_kept rows gc maxp) ->
  spec_row_del_kept [e] gc maxp = spec_row_del_kept rows gc maxp.
Proof.
  intros Hrd. unfold spec_row_del_kept at 1, spec_row_del. rewrite Hrd.
  unfold spec_row_del_kept.
  destruct (spec_row_del rows) as [[d l]|], gc as [g|]; try done.
  destruct (purges_row_del g maxp (Some d) l) eqn:P; [done|]. cbn. by rewrite P.
Qed.

Lemma spec_complex_single rows gc maxp e :
  complex_deletions e = spec_complex_kept rows gc maxp ->
  spec_complex_kept [e] gc maxp = spec_complex_kept rows gc maxp.
Proof.
  intros Hcx. destruct (spec_complex_columns rows gc maxp) as [Hnd _].
  assert (spec_complex [e] = spec_complex_kept rows gc maxp) as E.
  { assert (all_complex [e] = spec_complex_kept rows gc maxp) as Ea.
    { change (all_complex [e]) with (first_seen (complex_deletions e ++ [])).
      rewrite app_nil_r, Hcx. apply first_seen_id, NoDup_ListNoDup.
      eapply NoDup_map_inv. by apply NoDup_ListNoDup. }
    unfold spec_complex, active_complex. rewrite Ea. by apply group_nodup_id. }
  unfold spec_complex_kept at 1. rewrite E. destruct gc as [g|]; [|done].
  apply filter_all. intros cd [_ ?]%elem_of_filter_b. done.
Qed.

Lemma spec_range_single rows e :
  range_deletion e = spec_range rows -> spec_range [e] = spec_range rows.
Proof. intros H. unfold spec_range at 1. cbn. rewrite app_nil_r, H. by destruct (spec_range rows). Qed.

Lemma spec_liveness_single rows e :
  row_liveness e = spec_liveness rows -> spec_liveness [e] = spec_liveness rows.
Proof.
  intros H. unfold spec_liveness at 1. cbn. rewrite H. unfold liveness_merge. cbn.
  destruct (has_marker (spec_liveness rows)) eqn:E; [done|]. by rewrite spec_liveness_norm.
Qed.

Lemma spec_surviving_single rows dropped gc maxp now e :
  row_data e = Live (spec_surviving rows dropped gc maxp now) ->
  row_dels [e] = opt_list (spec_row_del_kept rows gc maxp) ->
  complex_deletions e = spec_complex_kept rows gc maxp ->
  spec_undeleted [e] = spec_surviving rows dropped gc maxp now
  /\ spec_surviving [e] dropped gc maxp now = spec_surviving rows dropped gc maxp now.
Proof.
  intros Hd Hrd Hcx. set (cells := spec_surviving rows dropped gc maxp now) in *.
  assert (Hw : spec_winners [e] = cells).
  { assert (all_cells [e] = cells) as Ea.
    { change (all_cells [e]) with (row_cells (row_data e) ++ []). by rewrite Hd, app_nil_r. }
    unfold spec_winners, winner. rewrite Ea. apply group_nodup_id, spec_surviving_keys. }
  assert (Hnew : forall c, c ∈ cells -> newer_than_deletions [e] c)
    by (intros c Hc; eapply newer_than_kept; [exact Hrd|exact Hcx|by eapply newer_surviving]).
  assert (Hu : spec_undeleted [e] = cells).
  { unfold spec_undeleted. rewrite Hw. rewrite (filter_all (survives_complex [e])).
    - apply filter_all. intros c Hc. by apply survives_row_del_iff, Hnew.
    - intros c Hc. by apply survives_complex_iff, Hnew. }
  split; [done|]. unfold spec_surviving. rewrite Hu.
  rewrite (filter_all (survives_drop dropped)) by (intros c Hc; by eapply newer_surviving).
  assert (Hm : map (spec_expire now) cells = cells).
  { rewrite <- (map_id cells) at 2. apply map_ext_in. intros c Hc%list_elem_of_In.
    by eapply newer_surviving. }
  rewrite Hm. apply filter_all. intros c Hc. by eapply newer_surviving.
Qed.

(** Reconciliation is idempotent: merging the merged row again, under the same
    dropped columns, gc cutoff, overlap bound and instant, gives it back. *)
Theorem merge_idempotent ck rows dropped gc maxp now purges purges' e
    (He : fst (reconcile_cluster_with_overlap_counted ck rows dropped gc maxp now purges) = Some e) :
  fst (reconcile_cluster_with_overlap_counted ck [e] dropped gc maxp now purges') = Some e.
Proof.
  rewrite reconcile_spec in *. unfold spec_merge in He.
  destruct rows as [|e0 rest] eqn:Er; [done|]. rewrite <- Er in *.
  destruct (spec_row ck rows dropped gc maxp now) as [[[ts rd] rdel]|] eqn:Es; [|done].
  injection He as <-. unfold spec_merge.
  set (e := mkMergeEntry _ _ _ _ _ _ _ _ _ _).
  assert (Hrun : spec_run_index [e] = spec_run_index rows).
  { unfold spec_run_index at 1. cbn. pose proof (spec_run_index_le rows). lia. }
  assert (Hdels : row_dels [e] = opt_list (spec_row_del_kept rows gc maxp)).
  { unfold row_dels. cbn. rewrite app_nil_r. unfold spec_row in Es.
    destruct (negb _ && negb _); [injection Es as <- <- <-; by rewrite app_nil_r|].
    destruct (spec_row_del_kept rows gc maxp) as [[d l]|]; [by injection Es as <- <- <-|].
    destruct (_ || _); [by injection Es as <- <- <-|done]. }
  rewrite Hrun, (spec_complex_single rows), (spec_range_single rows), (spec_liveness_single rows)
    by done.
  assert (spec_row ck [e] dropped gc maxp now = Some (ts, rd, rdel)) as ->; [|done].
  unfold spec_row in Es |- *.
  rewrite (spec_row_del_single rows), (spec_complex_single rows), (spec_range_single rows) by done.
  destruct (negb (is_empty (spec_surviving rows dropped gc maxp now)) && negb _) eqn:El.
  - injection Es as <- <- <-. apply andb_true_iff in El as [El _].
    destruct (spec_surviving_single rows dropped gc maxp now e eq_refl Hdels eq_refl) as [Hu Hs].
    unfold spec_purged_to_empty. by rewrite Hu, Hs, El, andb_negb_r.
  - assert (Hnil : row_cells rd = [] -> spec_surviving [e] dropped gc maxp now = []).
    { intros Hn. assert (all_cells [e] = []) as Ea.
      { change (all_cells [e]) with (row_cells rd ++ []). by rewrite Hn. }
      unfold spec_surviving, spec_undeleted, spec_winners. by rewrite Ea. }
    destruct (spec_row_del_kept rows gc maxp) as [[d l]|].
    + injection Es as <- <- <-. by rewrite Hnil.
    + destruct (_ || _) eqn:Eo; [|done]. injection Es as <- <- <-. rewrite Hnil by done.
      change (negb (is_empty (@nil CellData))) with false. done.
Qed.

Lemma merge_idempotent_witness :
  let m rows := fst (reconcile_cluster_with_overlap_counted None rows ∅ (Some 500) i64_MAX
                       (Some 5000) purges_default) in
  exists e, m demo_rows = Some e /\ m [e] = Some e.
Proof.
  intros m. destruct (m demo_rows) as [e|] eqn:E; [|vm_compute in E; discriminate].
  exists e. split; [reflexivity|]. exact (merge_idempotent _ _ _ _ _ _ _ _ _ E).
Defined.

(** ** Order of the inputs *)

(** No two different cells of a key tie on timestamp and liveness. *)
Definition tie_free (rows : list MergeEntry) : Prop :=
  forall c c', c ∈ all_cells rows -> c' ∈ all_cells rows -> cell_key c = cell_key c' ->
    timestamp c = timestamp c' -> is_cell_tombstone c = is_cell_tombstone c' -> c = c'.

Lemma spec_surviving_nodup rows dropped gc maxp now :
  NoDup (spec_surviving rows dropped gc maxp now).
Proof.
  apply NoDup_ListNoDup. eapply NoDup_map_inv. apply NoDup_ListNoDup, spec_surviving_keys.
Qed.

Lemma cell_rank_eq a b :
  cell_rank_cmp a b = Eq ->
  timestamp a = timestamp b /\ is_cell_tombstone a = is_cell_tombstone b.
Proof.
  unfold cell_rank_cmp. destruct (Z.compare_spec (timestamp a) (timestamp b)); [|done..].
  intros E. split; [done|]. by destruct (is_cell_tombstone a), (is_cell_tombstone b).
Qed.

Lemma concat_map_perm {A B} (f : A -> list B) l l' :
  l ≡ₚ l' -> concat (map f l) ≡ₚ concat (map f l').
Proof. intros Hp. by rewrite Hp. Qed.

Lemma winner_perm rows rows' k :
  rows ≡ₚ rows' -> tie_free rows -> winner rows k = winner rows' k.
Proof.
  intros Hp Hties. unfold winner.
  assert (Hc : all_cells rows ≡ₚ all_cells rows') by by apply concat_map_perm.
  assert (Hk : with_key cell_key k (all_cells rows) ≡ₚ with_key cell_key k (all_cells rows')).
  { unfold with_key. clear -Hc. induction Hc; cbn; repeat case_match; try done;
      [by constructor|apply perm_swap|by etransitivity]. }
  destruct (first_max cell_wins (with_key cell_key k (all_cells rows))) as [w|] eqn:E.
  - destruct (first_max_perm cell_wins cell_rank_cmp cell_wins_rank _ _ w Hk E) as (w' & E' & Hr).
    rewrite E'. apply cell_rank_eq in Hr as [Ht Hb]. f_equal.
    apply (first_max_elem _ _ cell_wins_rank) in E, E'. rewrite <- Hk in E'.
    apply with_key_elem in E as [Hin Hkw], E' as [Hin' Hkw'].
    apply Hties; [done..| |done|done]. congruence.
  - apply first_max_none in E. rewrite E in Hk. symmetry in Hk.
    apply Permutation_nil_r in Hk. by rewrite Hk.
Qed.

Lemma row_dels_perm rows rows' : rows ≡ₚ rows' -> row_dels rows ≡ₚ row_dels rows'.
Proof. by apply concat_map_perm. Qed.

Lemma all_complex_elem rows cd :
  cd ∈ all_complex rows <-> exists r, r ∈ rows /\ cd ∈ complex_deletions r.
Proof.
  unfold all_complex. rewrite first_seen_elem, list_elem_of_In, in_concat. split.
  - intros (l & Hl & Hcd). apply in_map_iff in Hl as (r & <- & Hr).
    exists r. by rewrite !list_elem_of_In.
  - intros (r & Hr & Hcd). exists (complex_deletions r). rewrite <- !list_elem_of_In.
    split; [|done]. by apply list_elem_of_fmap_2.
Qed.

Lemma newer_perm rows rows' c :
  rows ≡ₚ rows' -> newer_than_deletions rows c <-> newer_than_deletions rows' c.
Proof.
  intros Hp. unfold newer_than_deletions.
  assert (Hd : forall d, d ∈ row_dels rows <-> d ∈ row_dels rows')
    by (intros d; by rewrite (row_dels_perm _ _ Hp)).
  assert (Hc : forall cd, cd ∈ all_complex rows <-> cd ∈ all_complex rows')
    by (intros cd; rewrite !all_complex_elem; by setoid_rewrite Hp).
  setoid_rewrite Hd. by setoid_rewrite Hc.
Qed.

Lemma existsb_perm {A} (p : A -> bool) l l' : l ≡ₚ l' -> existsb p l = existsb p l'.
Proof.
  induction 1; cbn; try congruence. by rewrite !orb_assoc, (orb_comm (p y)).
Qed.

(** What a merged row shows: the cells it emits. *)
Lemma out_cells_spec ck rows dropped gc maxp now :
  out_cells (spec_merge ck rows dropped gc maxp now)
  = if spec_purged_to_empty ck rows (spec_surviving rows dropped gc maxp now) then []
    else spec_surviving rows dropped gc maxp now.
Proof.
  unfold spec_merge. destruct rows as [|e rest] eqn:Er.
  { by destruct (spec_purged_to_empty _ _ _). }
  rewrite <- Er. unfold spec_row.
  destruct (spec_surviving rows dropped gc maxp now) as [|c l] eqn:Es.
  - cbn. destruct (spec_row_del_kept rows gc maxp) as [[d t]|]; cbn;
      [|destruct (_ || _); cbn]; by destruct (spec_purged_to_empty _ _ _).
  - cbn. destruct (spec_purged_to_empty _ _ _); cbn; [|done].
    destruct (spec_row_del_kept rows gc maxp) as [[d t]|]; [done|]. by destruct (_ || _).
Qed.

(** C31: The order of the runs does not matter: when no two different cells of a key
    tie on timestamp and liveness, permuting the entries of a group leaves the cells
    of the merged row the same, up to their order. *)
Theorem merge_order_independent ck rows rows' dropped gc maxp now purges purges'
    (Hp : rows ≡ₚ rows') (Hties : tie_free rows) :
  out_cells (fst (reconcile_cluster_with_overlap_counted ck rows dropped gc maxp now purges))
  ≡ₚ out_cells (fst (reconcile_cluster_with_overlap_counted ck rows' dropped gc maxp now purges')).
Proof.
  assert (Hu : forall c, c ∈ spec_undeleted rows <-> c ∈ spec_undeleted rows').
  { intros c. by rewrite !spec_undeleted_elem, (winner_perm rows rows'), (newer_perm rows rows'). }
  assert (Hs : spec_surviving rows dropped gc maxp now ≡ₚ spec_surviving rows' dropped gc maxp now).
  { apply NoDup_Permutation; [apply spec_surviving_nodup..|]. intros c.
    rewrite !spec_surviving_elem. by setoid_rewrite Hu. }
  assert (Hb : existsb (is_data_cell ck) (spec_undeleted rows)
               = existsb (is_data_cell ck) (spec_undeleted rows')).
  { apply eq_iff_eq_true. rewrite !existsb_exists. setoid_rewrite <- list_elem_of_In.
    by setoid_rewrite Hu. }
  rewrite !reconcile_spec, !out_cells_spec. unfold spec_purged_to_empty.
  rewrite Hb, (existsb_perm _ _ _ Hs). by destruct (_ && _).
Qed.

(** The code's tie-break does depend on the order: two live values written at the
    same timestamp, and the first one wins. *)
Example value_tie_order_dependent :
  let a := entry_new 0 demo_key None 10 (Live [cell_new "v" (Integer 1) 10]) in
  let b := entry_new 1 demo_key None 10 (Live [cell_new "v" (Integer 2) 10]) in
  let m rows := out_cells (fst (reconcile_cluster_with_overlap_counted None rows ∅ None i64_MIN
                                  None purges_default)) in
  m [a; b] = [cell_new "v" (Integer 1) 10] /\ m [b; a] = [cell_new "v" (Integer 2) 10].
Proof. split; vm_compute; reflexivity. Qed.

Lemma demo_rows_tie_free : tie_free demo_rows.
Proof.
  unfold tie_free.
  change (all_cells demo_rows) with
    [demo_tomb 20 1000; cell_new "v" (Integer 2) 20; cell_new "w" (Integer 5) 15;
     cell_new "v" (Integer 1) 10].
  intros c c'. rewrite !elem_of_cons, !elem_of_nil.
  intros [->|[->|[->|[->|[]]]]] [->|[->|[->|[->|[]]]]]; done.
Qed.

Lemma merge_order_independent_witness :
  out_cells (fst (reconcile_cluster_with_overlap_counted None (rev demo_rows) ∅ None i64_MIN
                    None purges_default))
    = [demo_tomb 20 1000; cell_new "w" (Integer 5) 15]
  /\ out_cells (fst (reconcile_cluster_with_overlap_counted None demo_rows ∅ None i64_MIN
                       None purges_default))
     ≡ₚ out_cells (fst (reconcile_cluster_with_overlap_counted None (rev demo_rows) ∅ None
                          i64_MIN None purges_default)).
Proof.
  split; [vm_compute; reflexivity|].
  apply (merge_order_independent None demo_rows (rev demo_rows) ∅ None i64_MIN None
           purges_default purges_default);
    [apply Permutation_rev|apply demo_rows_tie_free].
Defined.

(** ** Compacting in stages *)

Lemma and_iff_under_r (P Q R : Prop) : (R -> (P <-> Q)) -> (P /\ R <-> Q /\ R).
Proof. tauto. Qed.

Lemma out_cells_undeleted ck rows maxp :
  out_cells (spec_merge ck rows ∅ None maxp None) = spec_undeleted rows.
Proof.
  rewrite out_cells_spec.
  assert (Hs : spec_surviving rows ∅ None maxp None = spec_undeleted rows).
  { unfold spec_surviving. cbn. by rewrite map_id, !filter_all. }
  rewrite Hs. unfold spec_purged_to_empty. by rewrite andb_negb_r.
Qed.

Lemma row_dels_app A B : row_dels (A ++ B) = row_dels A ++ row_dels B.
Proof. unfold row_dels. by rewrite map_app, concat_app. Qed.
Lemma all_cells_app A B : all_cells (A ++ B) = all_cells A ++ all_cells B.
Proof. unfold all_cells. by rewrite map_app, concat_app. Qed.

Lemma newer_app A B c :
  newer_than_deletions (A ++ B) c <-> newer_than_deletions A c /\ newer_than_deletions B c.
Proof.
  unfold newer_than_deletions. rewrite row_dels_app.
  setoid_rewrite elem_of_app. setoid_rewrite all_complex_elem. setoid_rewrite elem_of_app.
  split.
  - intros [H1 H2]. split; split; [by auto|intros ? ? (r & Hr & ?); eauto
                                  |by auto|intros ? ? (r & Hr & ?); eauto].
  - intros [[H1 H2] [H3 H4]]. split; [intros d [?|?]; auto|].
    intros ? cd (r & [?|?] & ?); eauto.
Qed.

Definition undeleted_b (rows : list MergeEntry) (c : CellData) : bool :=
  survives_row_del (option_map fst (spec_row_del rows)) c && survives_complex rows c.

Lemma undeleted_b_iff rows c : undeleted_b rows c = true <-> newer_than_deletions rows c.
Proof.
  unfold undeleted_b. by rewrite andb_true_iff, survives_row_del_iff, survives_complex_iff.
Qed.

(** A covered cell is no newer than a cell of its key that is not covered. *)
Lemma undeleted_b_older rows w c :
  undeleted_b rows w = false -> newer_than_deletions rows c -> cell_key w = cell_key c ->
  timestamp w < timestamp c.
Proof.
  intros Hw Hc Hk. apply Z.nle_gt. intros Hle.
  apply not_true_iff_false in Hw. apply Hw, undeleted_b_iff.
  destruct Hc as [H1 H2]. injection Hk as Ecol Epath. split.
  - intros d Hd. specialize (H1 d Hd). lia.
  - rewrite Epath, Ecol. intros Hp cd Hcd Hcol. specialize (H2 Hp cd Hcd Hcol). lia.
Qed.

(** Facts about the merge of one part, with nothing dropped, expired or purged. *)
Section OnePart.
Context (ck : option ClusteringKey) (maxp : Z) (A : list MergeEntry).
Let A' := opt_list (spec_merge ck A ∅ None maxp None).

Lemma part_row_dels : row_dels A' = opt_list (spec_row_del A).
Proof.
  pose proof (spec_merge_row_del ck A ∅ None maxp None) as H. unfold A'.
  assert (spec_row_del_kept A None maxp = spec_row_del A) as E
    by (unfold spec_row_del_kept; by destruct (spec_row_del A) as [[]|]).
  rewrite E in H. rewrite <- H.
  destruct (spec_merge ck A ∅ None maxp None) as [e|] eqn:Ee; [|done].
  cbn. rewrite app_nil_r. destruct (row_data e) as [cells|d l] eqn:Ed; cbn; [by rewrite app_nil_r|].
  unfold spec_merge in Ee. destruct A as [|e0 rest] eqn:EA; [done|]. rewrite <- EA in *.
  destruct (spec_row ck A ∅ None maxp None) as [[[ts rd] rdel]|] eqn:Es; [|done].
  injection Ee as <-. cbn in *. subst rd. unfold spec_row in Es.
  destruct (negb _ && negb _); [done|]. destruct (spec_row_del_kept A None maxp) as [[]|];
    [by injection Es as _ _ _ <-|by destruct (_ || _)].
Qed.

Lemma part_cells : all_cells A' = spec_undeleted A.
Proof.
  rewrite <- (out_cells_undeleted ck A maxp). unfold A'.
  destruct (spec_merge ck A ∅ None maxp None); [|done].
  unfold all_cells. cbn. by rewrite app_nil_r.
Qed.

Lemma part_newer c : newer_than_deletions A' c <-> newer_than_deletions A c.
Proof.
  unfold newer_than_deletions. rewrite part_row_dels. split; intros [H1 H2]; split.
  - intros d Hd. unfold spec_row_del in H1.
    destruct (first_max del_gt (row_dels A)) as [w|] eqn:E.
    + pose proof (first_max_ge _ _ del_gt_cmp _ _ _ E Hd) as Hge.
      unfold del_cmp in Hge. rewrite Z.compare_gt_iff in Hge.
      specialize (H1 w ltac:(by left)). lia.
    + apply first_max_none in E. rewrite E in Hd. by apply elem_of_nil in Hd.
  - intros Hp cd Hcd Hcol.
    assert (Hin : cd ∈ with_key cd_column (cd_column cd) (all_complex A))
      by by apply with_key_elem.
    destruct (active_complex A (cd_column cd)) as [w|] eqn:E.
    2: { apply first_max_none in E. rewrite E in Hin. by apply elem_of_nil in Hin. }
    pose proof (first_max_ge _ _ supersedes_cmp _ _ _ E Hin) as Hge.
    unfold mfda_cmp in Hge. rewrite Z.compare_gt_iff in Hge.
    pose proof (first_max_elem _ _ supersedes_cmp _ _ E) as [_ Hwc]%with_key_elem.
    assert (Hw : w ∈ spec_complex_kept A None maxp).
    { apply list_elem_of_omap. exists (cd_column cd). split; [|done].
      apply first_seen_elem. by apply (list_elem_of_fmap_2 cd_column). }
    destruct (spec_merge_some ck A ∅ None maxp None) as [e He].
    { intros ->. by apply elem_of_nil in Hcd. }
    { left. intros E'. rewrite E' in Hw. by apply elem_of_nil in Hw. }
    assert (marked_for_delete_at w < timestamp c); [|lia].
    apply H2; [done| |congruence]. unfold A'. rewrite He. apply all_complex_elem. exists e.
    split; [by left|]. by rewrite (proj1 (spec_merge_meta _ _ _ _ _ _ _ He)).
  - intros d Hd. apply H1. unfold spec_row_del in Hd.
    destruct (first_max del_gt (row_dels A)) as [w|] eqn:E; [|by apply elem_of_nil in Hd].
    apply list_elem_of_singleton in Hd as ->. by apply (first_max_elem _ _ del_gt_cmp) in E.
  - intros Hp cd Hcd. apply H2; [done|]. apply all_complex_elem in Hcd as (e & He & Hcd).
    unfold A' in He. destruct (spec_merge ck A ∅ None maxp None) as [e'|] eqn:Ee;
      [|by apply elem_of_nil in He].
    apply list_elem_of_singleton in He as ->.
    rewrite (proj1 (spec_merge_meta _ _ _ _ _ _ _ Ee)) in Hcd.
    by apply (proj2 (spec_complex_columns A None maxp)).
Qed.

Lemma part_winner k :
  winner A' k = match winner A k with
                | Some w => if undeleted_b A w then Some w else None
                | None => None
                end.
Proof.
  unfold winner at 1. rewrite part_cells.
  assert (Hnd : NoDup (map cell_key (spec_undeleted A))).
  { pose proof (spec_surviving_keys A ∅ None maxp None) as H.
    rewrite <- (out_cells_undeleted ck A maxp), out_cells_spec.
    by destruct (spec_purged_to_empty _ _ _); [apply NoDup_nil_2|]. }
  destruct (first_max cell_wins (with_key cell_key k (spec_undeleted A))) as [w|] eqn:E.
  - apply (first_max_elem _ _ cell_wins_rank), with_key_elem in E as [Hw <-].
    pose proof Hw as Hw'. apply spec_undeleted_elem in Hw' as [-> Hn].
    by rewrite (proj2 (undeleted_b_iff A w)).
  - destruct (winner A k) as [w|] eqn:Ew; [|done].
    destruct (undeleted_b A w) eqn:Hw; [|done]. apply undeleted_b_iff in Hw.
    apply first_max_none in E. pose proof (winner_key _ _ _ Ew) as <-.
    assert (w ∈ spec_undeleted A) by by apply spec_undeleted_elem.
    rewrite (with_key_nodup cell_key) in E by done. done.
Qed.
End OnePart.

(** Compacting in stages is sound. With no gc cutoff, dropped column or expiry,
    merging part of the runs first and merging the result with the rest later gives
    the same cells as merging everything at once, carries the same row deletion and
    its deletions cover the same cells. *)
Theorem staged_merge_sound ck A B maxp purges :
  let merge rows := fst (reconcile_cluster_with_overlap_counted ck rows ∅ None maxp None purges) in
  let staged := opt_list (merge A) ++ B in
  out_cells (merge staged) ≡ₚ out_cells (merge (A ++ B))
  /\ out_row_del (merge staged) = out_row_del (merge (A ++ B))
  /\ forall c, newer_than_deletions staged c <-> newer_than_deletions (A ++ B) c.
Proof.
  cbn beta zeta. rewrite !reconcile_spec. set (A' := opt_list (spec_merge ck A ∅ None maxp None)).
  assert (Hnew : forall c, newer_than_deletions (A' ++ B) c <-> newer_than_deletions (A ++ B) c)
    by (intros c; unfold A'; by rewrite !newer_app, (part_newer ck maxp A)).
  split; [|split; [|done]].
  - rewrite !out_cells_undeleted.
    assert (Hnd : forall rows, NoDup (spec_undeleted rows)).
    { intros rows. pose proof (spec_surviving_nodup rows ∅ None maxp None) as H.
      rewrite <- (out_cells_undeleted ck rows maxp), out_cells_spec.
      by destruct (spec_purged_to_empty _ _ _); [apply NoDup_nil_2|]. }
    apply NoDup_Permutation; [apply Hnd..|]. intros c. rewrite !spec_undeleted_elem, Hnew.
    apply and_iff_under_r. intros Hc%newer_app. destruct Hc as [HcA _].
    set (k := cell_key c). set (l := with_key cell_key k (all_cells B)).
    assert (EA : winner (A ++ B) k = foldl (max_step cell_wins) (winner A k) l).
    { unfold winner, first_max, l, with_key.
      by rewrite all_cells_app, List.filter_app, foldl_app. }
    assert (EA' : winner (A' ++ B) k = foldl (max_step cell_wins) (winner A' k) l).
    { unfold winner, first_max, l, with_key.
      by rewrite all_cells_app, List.filter_app, foldl_app. }
    rewrite EA, EA'. unfold A'. rewrite part_winner.
    destruct (winner A k) as [w|] eqn:Ew; [|done].
    destruct (undeleted_b A w) eqn:Eu; [done|].
    pose proof (winner_key _ _ _ Ew) as Hk.
    pose proof (undeleted_b_older A w c Eu HcA Hk) as Hlt.
    rewrite (first_max_acc cell_wins cell_rank_cmp cell_wins_rank w).
    fold (first_max cell_wins l). destruct (first_max cell_wins l) as [x|].
    + split; [intros [= ->]|].
      * replace (cell_wins c w) with true; [done|]. symmetry. apply cell_wins_rank.
        unfold cell_rank_cmp. by rewrite (proj2 (Z.compare_gt_iff _ _)) by lia.
      * destruct (cell_wins x w); intros [= ->]; [done|lia].
    + split; [done|]. intros [= ->]. lia.
  - rewrite !spec_merge_row_del.
    assert (E : spec_row_del (A' ++ B) = spec_row_del (A ++ B)).
    { unfold spec_row_del, first_max. rewrite !row_dels_app, !foldl_app.
      unfold A'. rewrite part_row_dels. unfold spec_row_del, first_max.
      by destruct (foldl (max_step del_gt) None (row_dels A)). }
    unfold spec_row_del_kept. by rewrite E.
Qed.

(** ** Where the phantom-row guard loses a row *)

Definition demo_ck : ClusteringKey := [("c1"%string, Integer 1)].
Definition live_marker : RowLiveness := mkRowLiveness true None (Some 30).

(** A row inserted at 30 (a live, unexpired primary-key marker) whose regular
    column was deleted at 20: once the cell tombstone is purged the guard takes the
    row for a phantom and emits nothing, marker and all. *)
Example purge_drops_live_marker :
  let row := with_row_liveness
    (entry_new 0 demo_key (Some demo_ck) 30
       (Live [cell_new "c1" (Integer 1) 30; demo_tomb 20 1000])) live_marker in
  marker_live_at (row_liveness row) 5000 = true
  /\ fst (reconcile_cluster_with_overlap_counted (Some demo_ck) [row] ∅ (Some 2000) i64_MAX
            (Some 5000) purges_default) = None.
Proof. split; vm_compute; reflexivity. Qed.

(** With a dropped column the guard makes the result depend on how the compaction
    is staged: merged with a run that still holds the column's data, a key-only row
    disappears; merged after that run was compacted on its own, it stays. *)
Example dropped_column_stage_dependent :
  let dropped : gmap string Z := {["old"%string := 10]} in
  let m rows := fst (reconcile_cluster_with_overlap_counted (Some demo_ck) rows dropped None
                       i64_MIN None purges_default) in
  let a := entry_new 0 demo_key (Some demo_ck) 5
             (Live [cell_new "c1" (Integer 1) 5; cell_new "old" (Integer 9) 5]) in
  let b := entry_new 1 demo_key (Some demo_ck) 3 (Live [cell_new "c1" (Integer 1) 3]) in
  m [a; b] = None /\ out_cells (m (opt_list (m [a]) ++ [b])) = [cell_new "c1" (Integer 1) 3].
Proof. split; vm_compute; reflexivity. Qed.
