(* ===== verification/RangeTombstones.v ===== *)
(** Range tombstones in the merge: cuts of the clustering axis, coalescing into
    disjoint segments, and the coverage test ([merge/mod.rs]). *)

From S2P Require Import Prelude Values Keys MergeModel.

Open Scope Z_scope.

(** ** Cuts *)

Inductive RangeCut :=
| CutBottom
| CutAt (key : ClusteringKey) (after : bool)
| CutTop.

Definition range_start_cut (bound : ClusteringBound) : RangeCut :=
  match bound with
  | Inclusive ck => CutAt ck false
  | Exclusive ck => CutAt ck true
  | Bottom => CutBottom
  | Top => CutTop
  end.

Definition range_end_cut (bound : ClusteringBound) : RangeCut :=
  match bound with
  | Inclusive ck => CutAt ck true
  | Exclusive ck => CutAt ck false
  | Top => CutTop
  | Bottom => CutBottom
  end.

Definition cut_to_start_bound (cut : RangeCut) : ClusteringBound :=
  match cut with
  | CutBottom => Bottom
  | CutAt key false => Inclusive key
  | CutAt key true => Exclusive key
  | CutTop => Top
  end.

Definition cut_to_end_bound (cut : RangeCut) : ClusteringBound :=
  match cut with
  | CutTop => Top
  | CutAt key true => Inclusive key
  | CutAt key false => Exclusive key
  | CutBottom => Bottom
  end.

Section Ranges.
Context `{DebugFmt} (schema : TableSchema).

Definition cut_cmp (a b : RangeCut) : comparison :=
  match a, b with
  | CutBottom, CutBottom => Eq
  | CutBottom, _ => Lt
  | _, CutBottom => Gt
  | CutTop, CutTop => Eq
  | CutTop, _ => Gt
  | _, CutTop => Lt
  | CutAt ka aa, CutAt kb ab =>
      let l := Nat.min (length ka) (length kb) in
      let ta := take l ka in
      let tb := take l kb in
      match ck_schema_cmp schema ta tb with
      | Eq =>
          match Nat.compare (length ka) (length kb) with
          | Eq => bool_cmp aa ab
          | Lt => if aa then Gt else Lt
          | Gt => if ab then Lt else Gt
          end
      | ord => ord
      end
  end.

(** ** Coalescing one partition *)

(** [(start_cut, end_cut, markedForDeleteAt, localDeletionTime)] *)
Definition Seg : Type := RangeCut * RangeCut * Z * Z.
Definition seg_lo (s : Seg) : RangeCut := s.1.1.1.
Definition seg_hi (s : Seg) : RangeCut := s.1.1.2.
Definition seg_mfda (s : Seg) : Z := s.1.2.
Definition seg_ldt (s : Seg) : Z := s.2.

Definition range_item (rt : RangeTombstone) : Seg :=
  (range_start_cut (rt_start rt), range_end_cut (rt_end rt),
   rt_deletion_time rt, rt_local_deletion_time rt).

(** [Vec::dedup_by]: an element equal to the last one kept goes. *)
Fixpoint dedup_from (prev : RangeCut) (l : list RangeCut) : list RangeCut :=
  match l with
  | [] => []
  | x :: l' =>
      match cut_cmp x prev with
      | Eq => dedup_from prev l'
      | _ => x :: dedup_from x l'
      end
  end.
Definition dedup_cuts (l : list RangeCut) : list RangeCut :=
  match l with [] => [] | x :: l' => x :: dedup_from x l' end.

Definition le_cut (a b : RangeCut) : bool :=
  match cut_cmp a b with Gt => false | _ => true end.

(** The winning deletion of the gap [(lo, hi)]. *)
Definition best_step (lo hi : RangeCut) (best : option (Z * Z)) (item : Seg) : option (Z * Z) :=
  if negb (le_cut (seg_lo item) lo && le_cut hi (seg_hi item)) then best
  else Some (match best with
             | Some (bm, bl) =>
                 if (bm >? seg_mfda item) || ((bm =? seg_mfda item) && (bl >=? seg_ldt item))
                 then (bm, bl) else (seg_mfda item, seg_ldt item)
             | None => (seg_mfda item, seg_ldt item)
             end).
Definition best_of (items : list Seg) (lo hi : RangeCut) : option (Z * Z) :=
  foldl (best_step lo hi) None items.

(** [for window in cuts.windows(2)] *)
Fixpoint gap_segs (items : list Seg) (cuts : list RangeCut) : list Seg :=
  match cuts with
  | lo :: ((hi :: _) as cuts') =>
      match best_of items lo hi with
      | Some (mfda, ldt) => (lo, hi, mfda, ldt) :: gap_segs items cuts'
      | None => gap_segs items cuts'
      end
  | _ => []
  end.

(** Adjacent segments with the same deletion are joined. *)
Fixpoint merge_from (last : Seg) (segs : list Seg) : list Seg :=
  match segs with
  | [] => [last]
  | seg :: segs' =>
      if (seg_mfda last =? seg_mfda seg) && (seg_ldt last =? seg_ldt seg)
         && match cut_cmp (seg_hi last) (seg_lo seg) with Eq => true | _ => false end
      then merge_from (seg_lo last, seg_hi seg, seg_mfda last, seg_ldt last) segs'
      else last :: merge_from seg segs'
  end.
Definition merge_segs (segs : list Seg) : list Seg :=
  match segs with [] => [] | s :: segs' => merge_from s segs' end.

Definition seg_range (s : Seg) : RangeTombstone :=
  mkRangeTombstone (cut_to_start_bound (seg_lo s)) (cut_to_end_bound (seg_hi s))
    (seg_mfda s) (seg_ldt s).

Definition coalesce_cuts (items : list Seg) : list RangeCut :=
  dedup_cuts (sort_by cut_cmp (concat (map (fun i => [seg_lo i; seg_hi i]) items))).

Definition coalesce_partition_range_tombstones (ranges : list RangeTombstone)
    : list RangeTombstone :=
  if (length ranges <=? 1)%nat then ranges
  else
    let items := map range_item ranges in
    let segs := gap_segs items (coalesce_cuts items) in
    map seg_range (merge_segs segs).

(** Grouping by partition-key bytes, in first-seen order. *)
Fixpoint group_push (groups : list (DecoratedKey * list RangeTombstone))
    (k : DecoratedKey) (rt : RangeTombstone) : list (DecoratedKey * list RangeTombstone) :=
  match groups with
  | [] => [(k, [rt])]
  | (gk, ranges) :: groups' =>
      if bool_decide (key gk = key k) then (gk, ranges ++ [rt]) :: groups'
      else (gk, ranges) :: group_push groups' k rt
  end.

Definition coalesce_range_tombstones (rts : list (DecoratedKey * RangeTombstone))
    : list (DecoratedKey * RangeTombstone) :=
  let groups := foldl (fun g p => group_push g p.1 p.2) [] rts in
  concat (map (fun g => map (fun rt => (g.1, rt))
                          (coalesce_partition_range_tombstones g.2)) groups).

(** ** Coverage *)

(** The clustering key against a bound, over the bound's component count. *)
Definition bound_cmp (ck bound : ClusteringKey) : comparison :=
  ck_schema_cmp schema (take (length bound) ck) bound.

Definition after_start (ck : ClusteringKey) (start : ClusteringBound) : bool :=
  match start with
  | Inclusive b => match bound_cmp ck b with Lt => false | _ => true end
  | Exclusive b => match bound_cmp ck b with Gt => true | _ => false end
  | Bottom => true
  | Top => false
  end.

Definition before_end (ck : ClusteringKey) (end_ : ClusteringBound) : bool :=
  match end_ with
  | Inclusive b => match bound_cmp ck b with Gt => false | _ => true end
  | Exclusive b => match bound_cmp ck b with Lt => true | _ => false end
  | Top => true
  | Bottom => false
  end.

Definition range_tombstone_covers_ck (ck : ClusteringKey) (rt : RangeTombstone) : bool :=
  after_start ck (rt_start rt) && before_end ck (rt_end rt).

Definition range_end_before_ck (ck : ClusteringKey) (rt : RangeTombstone) : bool :=
  match rt_end rt with
  | Inclusive b => match bound_cmp ck b with Gt => true | _ => false end
  | Exclusive b => match bound_cmp ck b with Lt => false | _ => true end
  | Top => false
  | Bottom => true
  end.

(** [iter().filter(covers).map(deletion_time).max()] *)
Definition opt_max (acc : option Z) (x : Z) : option Z :=
  match acc with None => Some x | Some m => Some (Z.max m x) end.
Definition covering_time (ck : ClusteringKey) (rts : list RangeTombstone) : option Z :=
  foldl opt_max None
    (map rt_deletion_time (List.filter (range_tombstone_covers_ck ck) rts)).
End Ranges.

(** ** The order of cuts

    A cut is the sequence of its prefix's values, ended by a marker below or above
    every value; cuts compare lexicographically. *)

Definition ext : Type := oval + bool.
Definition ext_cmp (p q : ext) : comparison :=
  match p, q with
  | inl a, inl b => oval_cmp a b
  | inl _, inr after => if after : bool then Lt else Gt
  | inr after, inl _ => if after : bool then Gt else Lt
  | inr a, inr b => bool_cmp a b
  end.

Definition ext_typed (t : option (ClusteringOrder * CTy)) (p : ext) : Prop :=
  match t, p with
  | Some ot, inl v => oval_typed ot v
  | None, inl _ => False
  | _, inr _ => True
  end.

#[export] Instance ext_cmp_ord t : OrdOn (ext_typed t) ext_cmp.
Proof.
  assert (H : forall ot, OrdOn (oval_typed ot) oval_cmp) by apply oval_cmp_ord.
  destruct t as [ot|].
  - destruct (H ot) as [H1 H2 H3 H4]. split.
    + intros [a|[]]; cbn; auto.
    + intros [a|[]] [b|[]]; cbn; auto.
    + intros [a|[]] [b|[]] [c|[]]; cbn; try done. apply H3.
    + intros [a|[]] [b|[]] [c|[]]; cbn; try done. apply H4.
  - split.
    + by intros [a|[]].
    + by intros [a|[]] [b|[]].
    + by intros [a|[]] [b|[]] [c|[]].
    + by intros [a|[]] [b|[]] [c|[]].
Qed.

(** The values of a prefix, tagged with their directions. *)
Definition ck_vals (cols : list ClusteringColumn) (k : ClusteringKey) : list oval :=
  zip (map cc_order cols) (map snd k).

Definition cut_seq (cols : list ClusteringColumn) (k : ClusteringKey) (after : bool) : list ext :=
  map inl (ck_vals cols k) ++ [inr after].

Lemma list_cmp_app {A} (cmp : A -> A -> comparison) a b c d :
  length a = length b ->
  list_cmp cmp (a ++ c) (b ++ d) = then_with (list_cmp cmp a b) (list_cmp cmp c d).
Proof.
  revert b. induction a as [|x a IH]; intros [|y b] Hl; try done. cbn in *.
  destruct (cmp x y); [|done..]. cbn. apply IH. lia.
Qed.

Lemma list_cmp_refl {A} (cmp : A -> A -> comparison) l :
  Forall (fun x => cmp x x = Eq) l -> list_cmp cmp l l = Eq.
Proof. induction 1 as [|x l Hx _ IH]; cbn; [done|]. by rewrite Hx, IH. Qed.

(** A short key padded with NULLs. *)
Lemma ck_padded_prefix cols i k :
  (i <= length k)%nat -> (length k <= i + length cols)%nat ->
  ck_padded cols i k
  = zip (map cc_order cols) (map snd (drop i k))
    ++ map (fun c => (cc_order c, Null)) (drop (length k - i) cols).
Proof.
  revert i. induction cols as [|col cols IH]; intros i Hi Hl; [by rewrite drop_nil|].
  cbn in Hl. destruct (decide (i = length k)) as [->|Hne].
  - rewrite drop_all, Nat.sub_diag, drop_0. cbn. clear.
    assert (Hall : forall j, (length k <= j)%nat ->
      ck_padded cols j k = map (fun c => (cc_order c, Null)) cols).
    { induction cols as [|c cs IHc]; intros j Hj; [done|]. cbn.
      unfold ck_value, ClusteringKey in *. rewrite (proj2 (lookup_ge_None k j)) by done.
      f_equal. apply IHc. lia. }
    unfold ck_value, ClusteringKey in *. rewrite (proj2 (lookup_ge_None k _)) by done. f_equal. apply Hall. lia.
  - destruct (lookup_lt_is_Some_2 k i ltac:(lia)) as [[n v] Hk].
    rewrite (drop_S _ _ _ Hk). cbn [ck_padded map zip_with snd app].
    unfold ck_value, ClusteringKey in *. rewrite Hk.
    replace (length k - i)%nat with (S (length k - S i)) by lia. cbn [drop].
    cbn [app]. f_equal. apply IH; lia.
Qed.

Section CutOrder.
Context `{DebugFmt} (schema : TableSchema) (ts : list CTy).
Let cols := clustering_keys schema.

Lemma ck_schema_cmp_vals a b :
  ck_typed schema ts a -> ck_typed schema ts b -> length a = length b ->
  ck_schema_cmp schema a b = list_cmp oval_cmp (ck_vals cols a) (ck_vals cols b).
Proof.
  intros Ha Hb Hl. unfold ck_schema_cmp. rewrite (ck_compare_padded schema ts) by done.
  pose proof (ck_typed_length _ _ _ Ha). pose proof (ck_typed_length _ _ _ Hb).
  rewrite !ck_padded_prefix by (cbn; lia). rewrite !drop_0, Hl.
  rewrite list_cmp_app.
  - fold cols. fold (ck_vals cols a) (ck_vals cols b).
    rewrite (list_cmp_refl _ (map _ _)); [by destruct (list_cmp _ _ _)|].
    apply Forall_map, Forall_true. intros c. unfold oval_cmp, ok_cmp. cbn.
    by destruct (cc_order c).
  - rewrite !length_zip_with, !length_map. lia.
Qed.

Lemma ck_typed_take n k : ck_typed schema ts k -> ck_typed schema ts (take n k).
Proof.
  intros [Hl Hp]. split; [done|]. clear Hl. revert n k Hp.
  induction ts as [|t ts' IH]; intros [|n] [|[c v] k] Hp; try done.
  destruct Hp as [Hv Hp]. cbn. split; [done|]. by apply IH.
Qed.

Lemma ck_vals_length k : ck_typed schema ts k -> length (ck_vals cols k) = length k.
Proof.
  intros Hk%ck_typed_length. unfold ck_vals. rewrite length_zip_with, !length_map.
  unfold cols. lia.
Qed.

Lemma ck_vals_take n k : ck_vals cols (take n k) = take n (ck_vals cols k).
Proof.
  unfold ck_vals. generalize (map cc_order cols) as os. revert k.
  induction n as [|n IH]; intros [|p k] [|o os]; cbn; try done. by rewrite IH.
Qed.

(** The rule for prefixes of different lengths. *)
Definition len_rule (la lb : nat) (aa ab : bool) : comparison :=
  match Nat.compare la lb with
  | Eq => bool_cmp aa ab
  | Lt => if aa then Gt else Lt
  | Gt => if ab then Lt else Gt
  end.

Lemma ext_list_cmp za zb aa ab :
  list_cmp ext_cmp (map inl za ++ [inr aa]) (map inl zb ++ [inr ab])
  = then_with
      (let l := Nat.min (length za) (length zb) in list_cmp oval_cmp (take l za) (take l zb))
      (len_rule (length za) (length zb) aa ab).
Proof.
  revert zb. induction za as [|x za IH]; intros [|y zb]; cbn.
  - by destruct aa, ab.
  - by destruct aa.
  - by destruct ab.
  - destruct (oval_cmp x y); [|done..]. cbn. rewrite IH. done.
Qed.

Lemma cut_cmp_seq ka aa kb ab :
  ck_typed schema ts ka -> ck_typed schema ts kb ->
  cut_cmp schema (CutAt ka aa) (CutAt kb ab)
  = list_cmp ext_cmp (cut_seq cols ka aa) (cut_seq cols kb ab).
Proof.
  intros Ha Hb. unfold cut_seq. rewrite ext_list_cmp, !ck_vals_length by done. cbn.
  rewrite ck_schema_cmp_vals by
    (try apply ck_typed_take; try done; rewrite !length_take; lia).
  rewrite !ck_vals_take. by destruct (list_cmp _ _ _).
Qed.

Definition cut_typed (c : RangeCut) : Prop :=
  match c with CutAt k _ => ck_typed schema ts k | _ => True end.

Lemma cut_seq_typed k after :
  ck_typed schema ts k ->
  typed_prefix ext_typed (map Some (ck_types cols ts) ++ [None]) (cut_seq cols k after).
Proof.
  intros [Hl Hp]. unfold cut_seq, ck_types, ck_vals.
  assert (Hlen : length ts = length (map cc_order cols)) by (rewrite length_map; done).
  clear Hl. revert Hlen. generalize (map cc_order cols) as os. generalize dependent (map snd k).
  induction ts as [|t ts' IH]; intros [|v l] Hp [|o os] Hlen; cbn in *; try done.
  - split; [done|]. by destruct (map Some (zip os ts') ++ [None]).
  - destruct Hp as [Hv Hp]. split; [done|]. apply IH; [done|lia].
Qed.

#[export] Instance cut_cmp_ord : OrdOn cut_typed (cut_cmp schema).
Proof.
  set (Ps := map Some (ck_types cols ts) ++ [None]).
  pose proof (list_cmp_positions ext_typed ext_cmp Ps
    ltac:(apply Forall_true; intros; apply ext_cmp_ord)) as [H1 H2 H3 H4].
  split.
  - intros [|k a|] Hx; try done. rewrite cut_cmp_seq by done. by apply H1, cut_seq_typed.
  - intros [|ka a|] [|kb b|] Hx Hy; try done. rewrite !cut_cmp_seq by done.
    by apply H2; apply cut_seq_typed.
  - intros [|ka a|] [|kb b|] [|kc c|] Hx Hy Hz; try done. rewrite !cut_cmp_seq by done.
    by apply H3; apply cut_seq_typed.
  - intros [|ka a|] [|kb b|] [|kc c|] Hx Hy Hz; try done. rewrite !cut_cmp_seq by done.
    by apply H4; apply cut_seq_typed.
Qed.
End CutOrder.

(** ** Segments *)

Section OptMax.

Lemma opt_max_app l x : foldl opt_max None (l ++ [x]) = opt_max (foldl opt_max None l) x.
Proof. by rewrite foldl_app. Qed.

Lemma opt_max_none l : foldl opt_max None l = None <-> l = [].
Proof.
  destruct l as [|x l _] using rev_ind; [done|]. rewrite opt_max_app.
  split; [by destruct (foldl _ _ _)|]. intros H. by destruct l.
Qed.

Lemma opt_max_some l m :
  foldl opt_max None l = Some m <-> m ∈ l /\ forall x, x ∈ l -> x <= m.
Proof.
  revert m. induction l as [|y l IH] using rev_ind; intros m.
  { split; [done|]. by intros [?%elem_of_nil _]. }
  rewrite opt_max_app. setoid_rewrite elem_of_app. setoid_rewrite list_elem_of_singleton.
  destruct (foldl opt_max None l) as [n|] eqn:E; cbn.
  - destruct (proj1 (IH n) eq_refl) as [Hn Hle]. split.
    + intros [= <-]. split; [destruct (Z.max_spec n y) as [[_ ->]|[_ ->]]; by auto|].
      intros x [Hx| ->]; [specialize (Hle x Hx)|]; lia.
    + intros [Hm Hmax]. f_equal. pose proof (Hmax n ltac:(by left)).
      pose proof (Hmax y ltac:(by right)).
      destruct Hm as [Hm| ->]; [specialize (Hle m Hm)|]; lia.
  - apply opt_max_none in E as ->. split.
    + intros [= <-]. split; [by right|]. intros x [Hx%elem_of_nil| ->]; [done|lia].
    + by intros [[Hm%elem_of_nil| ->] _].
Qed.

Lemma opt_max_cons x l :
  foldl opt_max None (x :: l)
  = Some (match foldl opt_max None l with None => x | Some m => Z.max x m end).
Proof.
  induction l as [|y l IH] using rev_ind; [done|].
  change (x :: l ++ [y]) with ((x :: l) ++ [y]). rewrite !opt_max_app, IH.
  destruct (foldl _ None l) as [m|]; cbn; f_equal; lia.
Qed.

(** Two lists that dominate each other have the same maximum. *)
Lemma opt_max_eq l l' :
  (forall x, x ∈ l -> exists y, y ∈ l' /\ x <= y) ->
  (forall y, y ∈ l' -> exists x, x ∈ l /\ y <= x) ->
  foldl opt_max None l = foldl opt_max None l'.
Proof.
  intros H1 H2. destruct (foldl opt_max None l) as [m|] eqn:E.
  - apply opt_max_some in E as [Hm Hmax]. destruct (H1 m Hm) as (y & Hy & Hmy).
    symmetry. apply opt_max_some.
    assert (Hall : forall z, z ∈ l' -> z <= m).
    { intros z Hz. destruct (H2 z Hz) as (x & Hx & Hzx). specialize (Hmax x Hx). lia. }
    specialize (Hall y Hy) as Hy'. assert (y = m) as -> by lia. done.
  - apply opt_max_none in E as ->. symmetry. apply opt_max_none.
    destruct l' as [|y l']; [done|]. destruct (H2 y ltac:(by left)) as (x & Hx%elem_of_nil & _). done.
Qed.
End OptMax.

Section Segments.
Context `{DebugFmt} (schema : TableSchema) (ts : list CTy).

Definition cut_le (a b : RangeCut) : Prop := cut_cmp schema a b <> Gt.
Definition cut_lt (a b : RangeCut) : Prop := cut_cmp schema a b = Lt.

Lemma le_cut_iff a b : le_cut schema a b = true <-> cut_le a b.
Proof. unfold le_cut, cut_le. by destruct (cut_cmp schema a b). Qed.

Lemma cut_le_trans a b c :
  cut_typed schema ts a -> cut_typed schema ts b -> cut_typed schema ts c ->
  cut_le a b -> cut_le b c -> cut_le a c.
Proof. intros. by apply (on_le_trans (P := cut_typed schema ts) (cut_cmp schema) a b c). Qed.

Lemma cut_lt_le a b : cut_lt a b -> cut_le a b.
Proof. unfold cut_lt, cut_le. by intros ->. Qed.

Lemma cut_lt_not_le a b :
  cut_typed schema ts a -> cut_typed schema ts b -> cut_lt a b -> ~ cut_le b a.
Proof.
  intros Ha Hb Hlt Hle. apply Hle. apply (on_gt_lt (P := cut_typed schema ts) (cut_cmp schema)); done.
Qed.

Lemma cut_le_total a b :
  cut_typed schema ts a -> cut_typed schema ts b -> cut_le a b \/ cut_lt b a.
Proof.
  intros Ha Hb. unfold cut_le, cut_lt.
  rewrite (on_sym (cmp := cut_cmp schema) a b) by done. destruct (cut_cmp schema a b); auto.
Qed.

(** Strictly sorted cuts. *)
Lemma dedup_from_spec prev l :
  cut_typed schema ts prev -> Forall (cut_typed schema ts) l ->
  StronglySorted cut_le (prev :: l) ->
  StronglySorted cut_lt (prev :: dedup_from schema prev l)
  /\ (forall x, x ∈ dedup_from schema prev l -> x ∈ l)
  /\ (forall x, x ∈ l -> exists y, y ∈ prev :: dedup_from schema prev l
                                   /\ cut_le x y /\ cut_le y x).
Proof.
  revert prev. induction l as [|x l IH]; intros prev Hp Hl Hs.
  { split_and!; [by repeat constructor|by intros ? ?%elem_of_nil|by intros ? ?%elem_of_nil]. }
  apply Forall_cons in Hl as [Hx Hl].
  apply StronglySorted_inv in Hs as [Hs Hfp]. apply Forall_cons in Hfp as [Hpx Hfp].
  pose proof (StronglySorted_inv Hs) as [Hsl Hfx].
  cbn [dedup_from]. destruct (cut_cmp schema x prev) eqn:E.
  - destruct (IH prev Hp Hl) as (I1 & I2 & I3); [by constructor|].
    split_and!; [done|intros y Hy; right; by apply I2|].
    intros y [->|Hy]%elem_of_cons; [|by apply I3].
    exists prev. split; [by left|]. unfold cut_le. by rewrite E.
  - exfalso. apply Hpx. by apply (on_gt_lt (P := cut_typed schema ts) (cut_cmp schema)).
  - apply (on_gt_lt (P := cut_typed schema ts) (cut_cmp schema)) in E; [|done..].
    destruct (IH x Hx Hl Hs) as (I1 & I2 & I3). split_and!.
    + constructor; [done|]. constructor; [done|]. apply Forall_forall. intros y Hy.
      apply StronglySorted_inv in I1 as [_ Hf]. rewrite Forall_forall in Hf.
      assert (cut_typed schema ts y) by (rewrite Forall_forall in Hl; by apply Hl, I2).
      apply (on_trans (P := cut_typed schema ts) (cmp := cut_cmp schema) prev x y); try done.
      by apply Hf.
    + intros y [->|Hy]%elem_of_cons; [by left|right; by apply I2].
    + intros y [->|Hy]%elem_of_cons.
      * exists x. split; [right; by left|]. unfold cut_le.
        by rewrite (on_refl (P := cut_typed schema ts) (cmp := cut_cmp schema) x).
      * destruct (I3 y Hy) as (z & Hz & ?). exists z. split; [by right|done].
Qed.

Lemma coalesce_cuts_spec items :
  (forall i, i ∈ items -> cut_typed schema ts (seg_lo i) /\ cut_typed schema ts (seg_hi i)) ->
  let cuts := coalesce_cuts schema items in
  StronglySorted cut_lt cuts /\ Forall (cut_typed schema ts) cuts
  /\ (forall c, c ∈ cuts -> exists i, i ∈ items /\ (c = seg_lo i \/ c = seg_hi i))
  /\ (forall i, i ∈ items ->
        (exists c, c ∈ cuts /\ cut_le (seg_lo i) c /\ cut_le c (seg_lo i))
        /\ (exists c, c ∈ cuts /\ cut_le (seg_hi i) c /\ cut_le c (seg_hi i))).
Proof.
  intros Hi. unfold coalesce_cuts. set (raw := concat _).
  assert (Hraw : forall c, c ∈ raw <-> exists i, i ∈ items /\ (c = seg_lo i \/ c = seg_hi i)).
  { intros c. unfold raw. rewrite list_elem_of_In, in_concat. split.
    - intros (l & Hl & Hc). apply in_map_iff in Hl as (i & <- & Hin). exists i.
      rewrite list_elem_of_In. split; [done|].
      destruct Hc as [<-|[<-|[]]]; auto.
    - intros (i & Hin & Hc). exists [seg_lo i; seg_hi i]. split.
      + apply in_map_iff. exists i. by rewrite <- list_elem_of_In.
      + destruct Hc as [-> | ->]; [by left|right; by left]. }
  assert (Ht : Forall (cut_typed schema ts) raw).
  { apply Forall_forall. intros c (i & Hin & [-> | ->])%Hraw; by apply Hi. }
  pose proof (sort_by_sorted (cut_cmp schema) (cut_typed schema ts) raw Ht) as Hs.
  pose proof (sort_by_perm (cut_cmp schema) raw) as Hp.
  assert (Hts : Forall (cut_typed schema ts) (sort_by (cut_cmp schema) raw)) by by rewrite Hp.
  assert (Hel : forall c, c ∈ sort_by (cut_cmp schema) raw <-> c ∈ raw) by (intros c; by rewrite Hp).
  destruct (sort_by (cut_cmp schema) raw) as [|x l].
  - split_and!; [constructor|constructor|by intros ? ?%elem_of_nil|].
    intros i Hin. exfalso.
    assert (Hx : seg_lo i ∈ raw) by (apply Hraw; eauto). apply Hel in Hx. by apply elem_of_nil in Hx.
  - apply Forall_cons in Hts as [Hx Hl].
    destruct (dedup_from_spec x l Hx Hl Hs) as (D1 & D2 & D3).
    assert (Hsub : forall c, c ∈ x :: dedup_from schema x l -> c ∈ x :: l).
    { intros c [->|Hc]%elem_of_cons; [by left|right; by apply D2]. }
    assert (Hev : forall c, c ∈ raw -> exists y, y ∈ x :: dedup_from schema x l
                    /\ cut_le c y /\ cut_le y c).
    { intros c [->|Hc]%Hel%elem_of_cons; [|by apply D3]. exists x. split; [by left|].
      unfold cut_le. by rewrite (on_refl (P := cut_typed schema ts) (cmp := cut_cmp schema) x). }
    cbn [dedup_cuts]. split_and!; [done| | |].
    + apply Forall_forall. intros c Hc%Hsub.
      assert (Hall : Forall (cut_typed schema ts) (x :: l)) by by constructor.
      rewrite Forall_forall in Hall. by apply Hall.
    + intros c Hc%Hsub. by apply Hraw, Hel.
    + intros i Hin. split; apply Hev, Hraw; eauto.
Qed.

(** A point of the axis: an open interval no cut of [cuts] falls into. *)
Definition is_point (cuts : list RangeCut) (xl xr : RangeCut) : Prop :=
  cut_typed schema ts xl /\ cut_typed schema ts xr /\ cut_lt xl xr
  /\ forall c, c ∈ cuts -> cut_le c xl \/ cut_le xr c.

Definition covers_pt (xl xr : RangeCut) (s : Seg) : bool :=
  le_cut schema (seg_lo s) xl && le_cut schema xr (seg_hi s).

Lemma covers_pt_iff xl xr s :
  covers_pt xl xr s = true <-> cut_le (seg_lo s) xl /\ cut_le xr (seg_hi s).
Proof. unfold covers_pt. by rewrite andb_true_iff, !le_cut_iff. Qed.

(** The winner of a gap: the greatest deletion time among the items covering it. *)
Lemma best_of_spec items lo hi :
  match best_of schema items lo hi with
  | Some (m, _) =>
      (exists i, i ∈ items /\ covers_pt lo hi i = true /\ seg_mfda i = m)
      /\ (forall i, i ∈ items -> covers_pt lo hi i = true -> seg_mfda i <= m)
  | None => forall i, i ∈ items -> covers_pt lo hi i = false
  end.
Proof.
  unfold best_of. induction items as [|i items IH] using rev_ind; [by intros ? ?%elem_of_nil|].
  rewrite foldl_app. cbn [foldl]. unfold best_step at 1. fold (covers_pt lo hi i).
  destruct (covers_pt lo hi i) eqn:Ec; cbn [negb].
  - destruct (foldl _ None items) as [[bm bl]|].
    + destruct IH as [(j & Hj & Hjc & <-) Hmax].
      destruct (_ || _) eqn:Eb.
      * split; [exists j; rewrite elem_of_app; by auto|].
        intros k [Hk|Hk]%elem_of_app Hkc; [by apply Hmax|].
        apply list_elem_of_singleton in Hk as ->.
        apply orb_true_iff in Eb as [Eb|Eb]; [rewrite Z.gtb_ltb in Eb; lia|].
        apply andb_true_iff in Eb as [Eb _]. lia.
      * split; [exists i; rewrite elem_of_app, list_elem_of_singleton; by auto|].
        intros k [Hk|Hk]%elem_of_app Hkc.
        -- specialize (Hmax k Hk Hkc). apply orb_false_iff in Eb as [Eb _].
           rewrite Z.gtb_ltb in Eb. lia.
        -- apply list_elem_of_singleton in Hk as ->. lia.
    + split; [exists i; rewrite elem_of_app, list_elem_of_singleton; by auto|].
      intros k [Hk|Hk]%elem_of_app Hkc; [by rewrite IH in Hkc|].
      apply list_elem_of_singleton in Hk as ->. lia.
  - destruct (foldl _ None items) as [[bm bl]|].
    + destruct IH as [(j & Hj & Hjc & Hm) Hmax]. split; [exists j; rewrite elem_of_app; by auto|].
      intros k [Hk|Hk]%elem_of_app Hkc; [by apply Hmax|].
      apply list_elem_of_singleton in Hk as ->. congruence.
    + intros k [Hk|Hk]%elem_of_app; [by apply IH|]. by apply list_elem_of_singleton in Hk as ->.
Qed.

(** Consecutive cuts. *)
Fixpoint windows (cuts : list RangeCut) : list (RangeCut * RangeCut) :=
  match cuts with
  | lo :: ((hi :: _) as cuts') => (lo, hi) :: windows cuts'
  | _ => []
  end.

Lemma gap_segs_windows items cuts :
  gap_segs schema items cuts
  = omap (fun w => match best_of schema items w.1 w.2 with
                   | Some (m, l) => Some (w.1, w.2, m, l) | None => None end) (windows cuts).
Proof.
  induction cuts as [|lo [|hi cuts] IH]; [done..|]. cbn [gap_segs windows] in *.
  cbn [omap list_omap fst snd]. rewrite IH.
  by destruct (best_of schema items lo hi) as [[m l]|].
Qed.

Lemma windows_elem cuts lo hi :
  (lo, hi) ∈ windows cuts -> lo ∈ cuts /\ hi ∈ cuts.
Proof.
  induction cuts as [|x [|y cuts] IH]; [by intros ?%elem_of_nil..|].
  change (windows (x :: y :: cuts)) with ((x, y) :: windows (y :: cuts)).
  intros [[= -> ->]|Hw]%elem_of_cons; [split; [by left|right; by left]|].
  destruct (IH Hw). split; by right.
Qed.

(** Nothing lies inside a window of sorted cuts. *)
Lemma windows_gap cuts lo hi c :
  Forall (cut_typed schema ts) cuts -> StronglySorted cut_lt cuts ->
  (lo, hi) ∈ windows cuts -> c ∈ cuts -> cut_lt lo hi /\ (cut_le c lo \/ cut_le hi c).
Proof.
  intros Ht Hs. revert c Ht. induction Hs as [|x cuts Hs IH Hx]; intros c Ht Hw Hc;
    [by apply elem_of_nil in Hc|].
  destruct cuts as [|y cuts]; [by apply elem_of_nil in Hw|].
  apply Forall_cons in Ht as [Htx Ht].
  assert (Hrefl : forall z, cut_typed schema ts z -> cut_le z z).
  { intros z Hz. unfold cut_le. by rewrite (on_refl (cmp := cut_cmp schema) z Hz). }
  change (windows (x :: y :: cuts)) with ((x, y) :: windows (y :: cuts)) in Hw.
  apply elem_of_cons in Hw as [[= -> ->]|Hw].
  - rewrite Forall_forall in Hx. split; [apply Hx; by left|].
    apply elem_of_cons in Hc as [->|Hc]; [left; by apply Hrefl|right].
    apply elem_of_cons in Hc as [->|Hc]; [apply Hrefl; by apply Forall_cons in Ht as [? _]|].
    apply cut_lt_le. apply StronglySorted_inv in Hs as [_ Hy]. rewrite Forall_forall in Hy.
    by apply Hy.
  - apply elem_of_cons in Hc as [->|Hc]; [|by apply IH].
    pose proof (windows_elem _ _ _ Hw) as [Hlo _].
    destruct (IH _ Ht Hw Hlo) as [Hlt _]. split; [done|left]. apply cut_lt_le.
    rewrite Forall_forall in Hx. by apply Hx.
Qed.

(** A point between two cuts lies in a window. *)
Lemma windows_find cuts xl xr s e :
  Forall (cut_typed schema ts) cuts -> StronglySorted cut_lt cuts -> is_point cuts xl xr ->
  s ∈ cuts -> e ∈ cuts -> cut_le s xl -> cut_le xr e ->
  exists lo hi, (lo, hi) ∈ windows cuts /\ cut_le lo xl /\ cut_le xr hi.
Proof.
  intros Ht Hs (Hxl & Hxr & Hlt & Hpt). revert Ht s Hpt.
  induction Hs as [|x cuts Hs IH Hx]; intros Ht s Hpt Hse Hee Hsx Hxe;
    [by apply elem_of_nil in Hse|].
  apply Forall_cons in Ht as [Htx Ht].
  assert (Hno : forall z, cut_typed schema ts z -> cut_le z xl -> cut_le xr z -> False).
  { intros z Hz H1 H2. apply (cut_lt_not_le xl xr Hxl Hxr Hlt).
    by apply (cut_le_trans xr z xl). }
  destruct cuts as [|y cuts].
  { apply list_elem_of_singleton in Hse as ->. apply list_elem_of_singleton in Hee as ->.
    exfalso. by apply (Hno x). }
  assert (Hty : cut_typed schema ts y) by by apply Forall_cons in Ht as [? _].
  assert (Hxy : cut_lt x y) by (rewrite Forall_forall in Hx; apply Hx; by left).
  assert (Hx_le : cut_le x xl).
  { apply elem_of_cons in Hse as [->|Hse]; [done|].
    rewrite Forall_forall in Hx. rewrite Forall_forall in Ht.
    apply (cut_le_trans x s xl); auto. by apply cut_lt_le, Hx. }
  destruct (Hpt y ltac:(right; by left)) as [Hy|Hy].
  - assert (Hee' : e ∈ y :: cuts).
    { apply elem_of_cons in Hee as [->|?]; [|done]. exfalso. by apply (Hno x). }
    destruct (IH Ht y) as (lo & hi & Hw & ?); try done.
    + intros c Hc. apply Hpt. by right.
    + by left.
    + exists lo, hi. split; [by right|done].
  - exists x, y. split; [by left|done].
Qed.

(** The deletion time at a point. *)
Definition pt_time (xl xr : RangeCut) (segs : list Seg) : option Z :=
  foldl opt_max None (map seg_mfda (List.filter (covers_pt xl xr) segs)).

Lemma gap_segs_time items xl xr :
  (forall i, i ∈ items -> cut_typed schema ts (seg_lo i) /\ cut_typed schema ts (seg_hi i)) ->
  is_point (coalesce_cuts schema items) xl xr ->
  pt_time xl xr (gap_segs schema items (coalesce_cuts schema items)) = pt_time xl xr items.
Proof.
  intros Hi Hpt. pose proof (coalesce_cuts_spec items Hi) as (Hs & Ht & Hfrom & Hto).
  set (cuts := coalesce_cuts schema items) in *.
  assert (Htc : forall c, c ∈ cuts -> cut_typed schema ts c) by by apply Forall_forall.
  pose proof Hpt as (Hxl & Hxr & Hlt & Hp).
  unfold pt_time. apply opt_max_eq.
  - intros m (s & -> & [Hs' Hc]%list_elem_of_In%filter_In)%list_elem_of_fmap.
    apply list_elem_of_In in Hs'. rewrite gap_segs_windows in Hs'.
    apply list_elem_of_omap in Hs' as ([lo hi] & Hw & Es). cbn [fst snd] in Es.
    pose proof (best_of_spec items lo hi) as Hb.
    destruct (best_of schema items lo hi) as [[bm bl]|]; [|done]. injection Es as <-.
    destruct Hb as [(i & Hin & Hic & <-) _]. exists (seg_mfda i). split; [|unfold seg_mfda; cbn; lia].
    apply list_elem_of_fmap_2, list_elem_of_In, filter_In. rewrite <- list_elem_of_In.
    split; [done|]. apply covers_pt_iff. apply covers_pt_iff in Hic as [H1 H2].
    apply covers_pt_iff in Hc as [H3 H4]. unfold seg_lo, seg_hi in H3, H4. cbn in H3, H4.
    destruct (windows_elem _ _ _ Hw) as [Hlo Hhi]. destruct (Hi i Hin) as [Ti1 Ti2]. split.
    + apply (cut_le_trans _ lo xl); auto.
    + apply (cut_le_trans xr hi _); auto.
  - intros m (i & -> & [Hin Hc]%list_elem_of_In%filter_In)%list_elem_of_fmap.
    apply list_elem_of_In in Hin. apply covers_pt_iff in Hc as [Hc1 Hc2].
    destruct (Hi i Hin) as [Ti1 Ti2].
    destruct (Hto i Hin) as [(s & Hsin & Hs1 & Hs2) (e & Hein & He1 & He2)].
    destruct (windows_find cuts xl xr s e Ht Hs Hpt Hsin Hein) as (lo & hi & Hw & Hlo & Hhi).
    { apply (cut_le_trans s (seg_lo i) xl); auto. }
    { apply (cut_le_trans xr (seg_hi i) e); auto. }
    destruct (windows_elem _ _ _ Hw) as [Hloin Hhiin].
    assert (Hcov : covers_pt lo hi i = true).
    { apply covers_pt_iff. split.
      - apply (cut_le_trans _ s lo); auto.
        destruct (windows_gap cuts lo hi s Ht Hs Hw Hsin) as [_ [?|Hbad]]; [done|]. exfalso.
        apply (cut_lt_not_le xl xr Hxl Hxr Hlt). apply (cut_le_trans xr hi xl); auto.
        apply (cut_le_trans hi s xl); auto. apply (cut_le_trans s (seg_lo i) xl); auto.
      - apply (cut_le_trans hi e _); auto.
        destruct (windows_gap cuts lo hi e Ht Hs Hw Hein) as [_ [Hbad|?]]; [|done]. exfalso.
        apply (cut_lt_not_le xl xr Hxl Hxr Hlt). apply (cut_le_trans xr e xl); auto.
        + apply (cut_le_trans xr (seg_hi i) e); auto.
        + apply (cut_le_trans e lo xl); auto. }
    pose proof (best_of_spec items lo hi) as Hb.
    destruct (best_of schema items lo hi) as [[bm bl]|] eqn:Eb.
    2: { rewrite (Hb i Hin) in Hcov. done. }
    destruct Hb as [_ Hmax]. exists bm. split; [|by apply Hmax].
    apply list_elem_of_fmap. exists (lo, hi, bm, bl). split; [done|].
    apply list_elem_of_In, filter_In. rewrite <- list_elem_of_In. split.
    + rewrite gap_segs_windows. apply list_elem_of_omap. exists (lo, hi). cbn. by rewrite Eb.
    + by apply covers_pt_iff.
Qed.

(** ** Joining adjacent segments *)

Definition seg_ok (s : Seg) : Prop :=
  cut_typed schema ts (seg_lo s) /\ cut_typed schema ts (seg_hi s) /\ cut_lt (seg_lo s) (seg_hi s).

Definition seg_before (s t : Seg) : Prop := cut_le (seg_hi s) (seg_lo t).

(** Segments that touch and carry the same deletion. *)
Definition mergeable (s t : Seg) : bool :=
  (seg_mfda s =? seg_mfda t) && (seg_ldt s =? seg_ldt t)
  && match cut_cmp schema (seg_hi s) (seg_lo t) with Eq => true | _ => false end.

Lemma pt_time_cons xl xr s l :
  pt_time xl xr (s :: l)
  = if covers_pt xl xr s then foldl opt_max None (seg_mfda s :: map seg_mfda (List.filter (covers_pt xl xr) l))
    else pt_time xl xr l.
Proof. unfold pt_time. cbn [List.filter]. by destruct (covers_pt xl xr s). Qed.

(** At a point that does not straddle their boundary, the join covers what its two
    parts cover. *)
Lemma covers_join xl xr s t :
  cut_typed schema ts xl -> cut_typed schema ts xr ->
  seg_ok s -> seg_ok t -> cut_cmp schema (seg_hi s) (seg_lo t) = Eq ->
  cut_le (seg_hi s) xl \/ cut_le xr (seg_hi s) ->
  covers_pt xl xr (seg_lo s, seg_hi t, seg_mfda s, seg_ldt s)
  = covers_pt xl xr s || covers_pt xl xr t.
Proof.
  intros Hxl Hxr (Hs1 & Hs2 & Hs) (Ht1 & Ht2 & Ht) Heq Hpt.
  assert (Hst : cut_le (seg_hi s) (seg_lo t)) by (unfold cut_le; by rewrite Heq).
  assert (Hts : cut_le (seg_lo t) (seg_hi s)).
  { unfold cut_le. rewrite (on_sym (P := cut_typed schema ts) (cmp := cut_cmp schema) (seg_hi s)) by done.
    by rewrite Heq. }
  apply cut_lt_le in Hs. apply cut_lt_le in Ht.
  apply eq_true_iff_eq. rewrite orb_true_iff, !covers_pt_iff.
  change (seg_lo (seg_lo s, seg_hi t, seg_mfda s, seg_ldt s)) with (seg_lo s).
  change (seg_hi (seg_lo s, seg_hi t, seg_mfda s, seg_ldt s)) with (seg_hi t).
  split.
  - intros [H1 H2]. destruct Hpt as [Hp|Hp]; [right|left]; split; try done.
    by apply (cut_le_trans _ (seg_hi s) xl).
  - intros [[H1 H2]|[H1 H2]]; split; try done.
    + apply (cut_le_trans _ (seg_hi s)); try done. by apply (cut_le_trans _ (seg_lo t)).
    + apply (cut_le_trans _ (seg_hi s)); try done. by apply (cut_le_trans _ (seg_lo t)).
Qed.

Lemma merge_from_time xl xr last segs :
  cut_typed schema ts xl -> cut_typed schema ts xr ->
  Forall seg_ok (last :: segs) -> 
  Forall (fun s => cut_le (seg_hi s) xl \/ cut_le xr (seg_hi s)) (last :: segs) ->
  pt_time xl xr (merge_from schema last segs) = pt_time xl xr (last :: segs).
Proof.
  intros Hxl Hxr. revert last. induction segs as [|s segs IH]; intros last Hok Hpt; [done|].
  apply Forall_cons in Hok as [Hl [Hs Hok]%Forall_cons].
  apply Forall_cons in Hpt as [Pl [Ps Hpt]%Forall_cons].
  cbn [merge_from]. fold (mergeable last s). destruct (mergeable last s) eqn:E.
  - unfold mergeable in E. apply andb_true_iff in E as [[Em%Z.eqb_eq El%Z.eqb_eq]%andb_true_iff Ec].
    destruct (cut_cmp schema (seg_hi last) (seg_lo s)) eqn:Ec'; try done.
    rewrite IH; [|constructor; [|done]..]; [|split_and!|done].
    + rewrite !pt_time_cons, (covers_join xl xr last s) by done.
      change (seg_mfda (seg_lo last, seg_hi s, seg_mfda last, seg_ldt last)) with (seg_mfda last).
      cbn [List.filter].
      destruct (covers_pt xl xr last), (covers_pt xl xr s); cbn; rewrite ?Em; try done.
      by rewrite Z.max_id.
    + apply Hl.
    + apply Hs.
    + apply (on_trans (P := cut_typed schema ts) (cmp := cut_cmp schema) _ (seg_hi last)).
      1-4: apply Hl || apply Hs.
      rewrite (on_eq_l (P := cut_typed schema ts) (cmp := cut_cmp schema) _ (seg_lo s)); try done.
      all: apply Hl || apply Hs.
  - rewrite !(pt_time_cons _ _ last). unfold pt_time in *.
    rewrite !(opt_max_cons (seg_mfda last)). rewrite IH; [done|by constructor..].
Qed.

Lemma gap_segs_elem items cuts s :
  s ∈ gap_segs schema items cuts -> (seg_lo s, seg_hi s) ∈ windows cuts.
Proof.
  rewrite gap_segs_windows. intros ([lo hi] & Hw & Es)%list_elem_of_omap. cbn [fst snd] in Es.
  destruct (best_of schema items lo hi) as [[m l]|]; by simplify_eq.
Qed.

(** The segments of sorted cuts follow one another. *)
Lemma gap_segs_sorted items cuts :
  Forall (cut_typed schema ts) cuts -> StronglySorted cut_lt cuts ->
  Forall seg_ok (gap_segs schema items cuts) /\ StronglySorted seg_before (gap_segs schema items cuts).
Proof.
  intros Ht Hs. split.
  { apply Forall_forall. intros s Hs'%gap_segs_elem. unfold seg_ok.
    pose proof (windows_elem _ _ _ Hs') as [Hlo Hhi].
    destruct (windows_gap cuts _ _ _ Ht Hs Hs' Hlo) as [Hlt _].
    rewrite Forall_forall in Ht. split_and!; auto. }
  induction Hs as [|x cuts Hs IH Hx]; [constructor|].
  destruct cuts as [|y cuts]; [constructor|].
  apply Forall_cons in Ht as [Htx Ht]. specialize (IH Ht).
  change (gap_segs schema items (x :: y :: cuts)) with
    (match best_of schema items x y with
     | Some (m, l) => (x, y, m, l) :: gap_segs schema items (y :: cuts)
     | None => gap_segs schema items (y :: cuts) end).
  destruct (best_of schema items x y) as [[m l]|]; [|done].
  constructor; [done|]. apply Forall_forall. intros s Hs'%gap_segs_elem.
  apply windows_elem in Hs' as [Hlo _]. unfold seg_before.
  change (seg_hi (x, y, m, l)) with y.
  apply elem_of_cons in Hlo as [->|Hlo].
  - unfold cut_le. rewrite (on_refl (P := cut_typed schema ts) (cmp := cut_cmp schema)); [done|].
    by apply Forall_cons in Ht as [? _].
  - apply cut_lt_le. apply StronglySorted_inv in Hs as [_ Hy]. rewrite Forall_forall in Hy. by apply Hy.
Qed.

(** No two neighbours could be joined any further. *)
Fixpoint unmergeable (segs : list Seg) : Prop :=
  match segs with
  | s :: ((t :: _) as segs') => mergeable s t = false /\ unmergeable segs'
  | _ => True
  end.

Lemma seg_join_ok s t :
  seg_ok s -> seg_ok t -> mergeable s t = true ->
  seg_ok (seg_lo s, seg_hi t, seg_mfda s, seg_ldt s).
Proof.
  intros (H1 & H2 & H3) (H4 & H5 & H6) [_ Hm]%andb_true_iff.
  destruct (cut_cmp schema (seg_hi s) (seg_lo t)) eqn:Ec; [|done..].
  split_and!; [done..|].
  apply (on_trans (P := cut_typed schema ts) (cmp := cut_cmp schema) _ (seg_hi s)); [done..|].
  by rewrite (on_eq_l (P := cut_typed schema ts) (cmp := cut_cmp schema) _ (seg_lo t)).
Qed.

Lemma merge_from_head last segs :
  exists s, head (merge_from schema last segs) = Some s /\ seg_lo s = seg_lo last
            /\ seg_mfda s = seg_mfda last /\ seg_ldt s = seg_ldt last.
Proof.
  revert last. induction segs as [|s segs IH]; intros last; cbn [merge_from].
  - by eexists.
  - fold (mergeable last s). destruct (mergeable last s); [|by eexists].
    destruct (IH (seg_lo last, seg_hi s, seg_mfda last, seg_ldt last)) as (t & ? & ? & ? & ?).
    by exists t.
Qed.

Lemma merge_from_canonical last segs :
  Forall seg_ok (last :: segs) -> StronglySorted seg_before (last :: segs) ->
  Forall seg_ok (merge_from schema last segs)
  /\ StronglySorted seg_before (merge_from schema last segs)
  /\ unmergeable (merge_from schema last segs)
  /\ (forall c, cut_typed schema ts c -> cut_le c (seg_lo last) ->
        Forall (fun s => cut_le c (seg_lo s)) (merge_from schema last segs)).
Proof.
  revert last. induction segs as [|s segs IH]; intros last Hok Hs.
  { split_and!; [done..|]. intros c Hc Hle. by repeat constructor. }
  pose proof (proj1 (Forall_cons _ _ _) Hok) as [Hl [Hs0 Hok']%Forall_cons].
  pose proof (StronglySorted_inv Hs) as [Hs1 [Hls Hlf]%Forall_cons].
  pose proof (StronglySorted_inv Hs1) as [Hs2 Hsf].
  cbn [merge_from]. fold (mergeable last s). destruct (mergeable last s) eqn:E.
  - apply (IH (seg_lo last, seg_hi s, seg_mfda last, seg_ldt last));
      [constructor; [by apply seg_join_ok|done]|].
    constructor; [done|]. eapply Forall_impl; [exact Hsf|]. by intros t.
  - destruct (IH s) as (I1 & I2 & I3 & I4); [by constructor|done|].
    assert (Hall : Forall (fun t => cut_le (seg_hi last) (seg_lo t)) (merge_from schema s segs)).
    { apply I4; [apply Hl|done]. }
    split_and!.
    + by constructor.
    + constructor; [done|]. done.
    + destruct (merge_from_head s segs) as (t & Ht & Hlo & Hm & Hd).
      destruct (merge_from schema s segs) as [|t' l]; [done|]. injection Ht as ->.
      split; [|done]. unfold mergeable in *. by rewrite Hlo, Hm, Hd.
    + intros c Hc Hle. constructor; [done|]. apply I4; [done|].
      destruct Hl as (L1 & L2 & L3). destruct Hs0 as (S1 & _).
      apply (cut_le_trans _ (seg_lo last)); try done.
      apply (cut_le_trans _ (seg_hi last)); try done. by apply cut_lt_le.
Qed.

(** The segments of a partition's items, joined. *)
Definition coalesced (items : list Seg) : list Seg :=
  merge_segs schema (gap_segs schema items (coalesce_cuts schema items)).

Definition items_typed (items : list Seg) : Prop :=
  forall i, i ∈ items -> cut_typed schema ts (seg_lo i) /\ cut_typed schema ts (seg_hi i).

Lemma coalesced_canonical items :
  items_typed items ->
  Forall seg_ok (coalesced items) /\ StronglySorted seg_before (coalesced items)
  /\ unmergeable (coalesced items).
Proof.
  intros Hi. unfold coalesced.
  pose proof (coalesce_cuts_spec items Hi) as (Hs & Ht & _).
  destruct (gap_segs_sorted items _ Ht Hs) as [G1 G2].
  destruct (gap_segs schema items _) as [|s segs]; [split_and!; constructor|].
  cbn [merge_segs]. by destruct (merge_from_canonical s segs) as (? & ? & ? & _).
Qed.

Lemma coalesced_time items xl xr :
  items_typed items -> is_point (coalesce_cuts schema items) xl xr ->
  pt_time xl xr (coalesced items) = pt_time xl xr items.
Proof.
  intros Hi Hpt. rewrite <- (gap_segs_time items) by done. unfold coalesced.
  pose proof (coalesce_cuts_spec items Hi) as (Hs & Ht & _).
  destruct (gap_segs_sorted items _ Ht Hs) as [G1 _].
  destruct (gap_segs schema items _) as [|s segs] eqn:Eg; [done|]. cbn [merge_segs].
  destruct Hpt as (Hxl & Hxr & _ & Hpt). apply merge_from_time; try done.
  rewrite <- Eg. apply Forall_forall. intros t Hin%gap_segs_elem.
  apply windows_elem in Hin as [_ Hhi]. by apply Hpt.
Qed.

(** Where a deletion comes from: the segments that cover a point carry the time and the
    local deletion time of one of the items that cover it. *)
Definition origin (items : list Seg) (xl xr : RangeCut) (s : Seg) : Prop :=
  exists i, i ∈ items /\ covers_pt xl xr i = true /\ seg_mfda i = seg_mfda s /\ seg_ldt i = seg_ldt s.

Lemma best_of_origin items lo hi m l :
  best_of schema items lo hi = Some (m, l) -> origin items lo hi (lo, hi, m, l).
Proof.
  unfold best_of. revert m l. induction items as [|i items IH] using rev_ind; intros m l; [done|].
  rewrite foldl_app. cbn [foldl]. unfold best_step at 1. fold (covers_pt lo hi i).
  assert (Hold : forall m' l', foldl (best_step schema lo hi) None items = Some (m', l') ->
            origin (items ++ [i]) lo hi (lo, hi, m', l')).
  { intros m' l' E. destruct (IH m' l' E) as (j & Hj & ?). exists j. split; [|done]. apply elem_of_app. by left. }
  assert (Hnew : covers_pt lo hi i = true -> origin (items ++ [i]) lo hi (lo, hi, seg_mfda i, seg_ldt i)).
  { intros Hc. exists i. split; [|done]. apply elem_of_app. right. by left. }
  destruct (covers_pt lo hi i); cbn [negb]; [|apply Hold].
  destruct (foldl _ None items) as [[bm bl]|]; [destruct (_ || _)|]; intros [= <- <-]; auto.
Qed.

Lemma gap_segs_origin items xl xr s :
  (forall i, i ∈ items -> cut_typed schema ts (seg_lo i) /\ cut_typed schema ts (seg_hi i)) ->
  is_point (coalesce_cuts schema items) xl xr ->
  s ∈ gap_segs schema items (coalesce_cuts schema items) -> covers_pt xl xr s = true -> origin items xl xr s.
Proof.
  intros Hi (Hxl & Hxr & _) Hs Hc. destruct (coalesce_cuts_spec items Hi) as (_ & Ht & _).
  rewrite Forall_forall in Ht. rewrite gap_segs_windows in Hs.
  apply list_elem_of_omap in Hs as ([lo hi] & Hw & Es). cbn [fst snd] in Es.
  destruct (best_of schema items lo hi) as [[m l]|] eqn:Eb; [|done]. injection Es as <-.
  destruct (best_of_origin _ _ _ _ _ Eb) as (i & Hin & [H1 H2]%covers_pt_iff & E1 & E2). exists i. split; [done|]. split; [|done].
  apply covers_pt_iff in Hc as [H3 H4]. unfold seg_lo, seg_hi in H3, H4. cbn in H3, H4.
  destruct (windows_elem _ _ _ Hw) as [Hlo Hhi]. destruct (Hi i Hin) as [Ti1 Ti2]. apply covers_pt_iff. split.
  - apply (cut_le_trans _ lo xl); auto.
  - apply (cut_le_trans xr hi _); auto.
Qed.

Lemma merge_from_origin xl xr last segs s :
  cut_typed schema ts xl -> cut_typed schema ts xr ->
  Forall seg_ok (last :: segs) ->
  Forall (fun s => cut_le (seg_hi s) xl \/ cut_le xr (seg_hi s)) (last :: segs) ->
  s ∈ merge_from schema last segs -> covers_pt xl xr s = true -> origin (last :: segs) xl xr s.
Proof.
  intros Hxl Hxr. revert last. induction segs as [|t segs IH]; intros last Hok Hpt.
  { cbn. intros ->%list_elem_of_singleton Hc. exists last. split; [by left|done]. }
  apply Forall_cons in Hok as [Hl [Ht Hok]%Forall_cons].
  apply Forall_cons in Hpt as [Pl [Pt Hpt]%Forall_cons].
  cbn [merge_from]. fold (mergeable last t). destruct (mergeable last t) eqn:E.
  - pose proof (seg_join_ok last t Hl Ht E) as Hj.
    unfold mergeable in E. apply andb_true_iff in E as [[Em%Z.eqb_eq El%Z.eqb_eq]%andb_true_iff Ec].
    destruct (cut_cmp schema (seg_hi last) (seg_lo t)) eqn:Ec'; try done.
    intros Hs Hc. destruct (IH (seg_lo last, seg_hi t, seg_mfda last, seg_ldt last)) as (i & Hin & Hic & E1 & E2);
      [by constructor|by constructor|done|done|].
    apply elem_of_cons in Hin as [->|Hin].
    + rewrite (covers_join xl xr last t) in Hic by done. apply orb_true_iff in Hic as [Hic|Hic].
      * exists last. split; [by left|done].
      * exists t. split; [right; by left|]. rewrite <- Em, <- El. done.
    + exists i. split; [right; by right|done].
  - intros [->|Hs]%elem_of_cons Hc; [exists last; split; [by left|done]|].
    destruct (IH t) as (i & Hin & ?); [by constructor|by constructor|done|done|]. exists i. split; [by right|done].
Qed.

Lemma coalesced_origin items xl xr s :
  items_typed items -> is_point (coalesce_cuts schema items) xl xr ->
  s ∈ coalesced items -> covers_pt xl xr s = true -> origin items xl xr s.
Proof.
  intros Hi Hpt. unfold coalesced. pose proof (coalesce_cuts_spec items Hi) as (Hs & Ht & _).
  destruct (gap_segs_sorted items _ Ht Hs) as [G1 _].
  pose proof (fun t => gap_segs_origin items xl xr t Hi Hpt) as Hg.
  assert (Hall : Forall (fun s => cut_le (seg_hi s) xl \/ cut_le xr (seg_hi s)) (gap_segs schema items (coalesce_cuts schema items))).
  { apply Forall_forall. intros t Hin%gap_segs_elem. apply windows_elem in Hin as [_ Hhi]. by apply (proj2 (proj2 (proj2 Hpt))). }
  destruct (gap_segs schema items _) as [|t segs]; [by intros ?%elem_of_nil|]. cbn [merge_segs]. intros Hin Hc.
  destruct Hpt as (Hxl & Hxr & _). destruct (merge_from_origin xl xr t segs s) as (u & Hu & Huc & E1 & E2); [done..|].
  destruct (Hg u Hu Huc) as (i & Hin' & Hic & F1 & F2). exists i. split; [done|]. split; [done|]. by rewrite F1, F2.
Qed.
End Segments.

(** The floor of a clustering row among a partition's ranges: a binary search when
    the slice is one partition's, a scan otherwise. *)
Section Floor.
Context `{DebugFmt} (schema : TableSchema).

Definition single_partition (k : DecoratedKey) (rts : list (DecoratedKey * RangeTombstone)) : bool :=
  match head rts, last rts with
  | Some (first, _), Some (last, _) =>
      bool_decide (key first = key k) && bool_decide (key last = key k)
  | _, _ => false
  end.

Definition range_floor (k : DecoratedKey) (ck : ClusteringKey)
    (rts : list (DecoratedKey * RangeTombstone)) : option Z :=
  if single_partition k rts then
    match rts !! partition_point (fun p => range_end_before_ck schema ck p.2) rts with
    | Some (key', rt) =>
        if bool_decide (key key' = key k) && range_tombstone_covers_ck schema ck rt
        then Some (rt_deletion_time rt) else None
    | None => None
    end
  else
    foldl opt_max None
      (map (fun p => rt_deletion_time p.2)
         (List.filter (fun p => bool_decide (key p.1 = key k)
                                && range_tombstone_covers_ck schema ck p.2) rts)).
End Floor.

Section Coverage.
Context `{DebugFmt} (schema : TableSchema) (ts : list CTy).

(** A clustering key with every column present, the position of a row. *)
Definition full_ck (ck : ClusteringKey) : Prop :=
  ck_typed schema ts ck /\ length ck = length (clustering_keys schema).

Definition bound_typed (b : ClusteringBound) : Prop :=
  match b with Inclusive k | Exclusive k => ck_typed schema ts k | _ => True end.
Definition rt_typed (rt : RangeTombstone) : Prop :=
  bound_typed (rt_start rt) /\ bound_typed (rt_end rt).

Lemma range_item_typed rt :
  rt_typed rt ->
  cut_typed schema ts (seg_lo (range_item rt)) /\ cut_typed schema ts (seg_hi (range_item rt)).
Proof. destruct rt as [[] [] ? ?]; cbn; intros [? ?]; done. Qed.

Lemma cut_vs_before k after ck :
  (length k <= length ck)%nat ->
  cut_cmp schema (CutAt k after) (CutAt ck false)
  = match ck_schema_cmp schema k (take (length k) ck) with
    | Eq => if after then Gt else if (length k =? length ck)%nat then Eq else Lt
    | o => o end.
Proof.
  intros Hl. unfold cut_cmp. rewrite Nat.min_l, firstn_all by lia.
  destruct (ck_schema_cmp schema k _); try done.
  destruct (Nat.compare_spec (length k) (length ck)) as [->|?|?]; [|..|lia].
  - rewrite Nat.eqb_refl. by destruct after.
  - destruct (Nat.eqb_spec (length k) (length ck)); [lia|]. by destruct after.
Qed.

Lemma before_vs_cut k after ck :
  (length k <= length ck)%nat ->
  cut_cmp schema (CutAt ck true) (CutAt k after)
  = match ck_schema_cmp schema (take (length k) ck) k with
    | Eq => if after then if (length k =? length ck)%nat then Eq else Lt else Gt
    | o => o end.
Proof.
  intros Hl. unfold cut_cmp. rewrite Nat.min_r, firstn_all by lia.
  destruct (ck_schema_cmp schema _ k); try done.
  destruct (Nat.compare_spec (length ck) (length k)) as [->|?|?]; [|lia|].
  - rewrite Nat.eqb_refl. by destruct after.
  - destruct (Nat.eqb_spec (length k) (length ck)); [lia|]. by destruct after.
Qed.

Lemma full_ck_longer ck k : full_ck ck -> ck_typed schema ts k -> (length k <= length ck)%nat.
Proof. intros [_ ->] Hk. by apply (ck_typed_length _ ts). Qed.

(** A row's position is a point: no cut falls inside it. *)
Lemma row_is_point cuts ck :
  full_ck ck -> (forall c, c ∈ cuts -> cut_typed schema ts c) ->
  is_point schema ts cuts (CutAt ck false) (CutAt ck true).
Proof.
  intros Hck Hc. pose proof Hck as [Ht Hl]. split_and!; [done..| |].
  - unfold cut_lt, cut_cmp. rewrite Nat.min_id, firstn_all, Nat.compare_refl.
    by rewrite (on_refl (P := ck_typed schema ts) (cmp := ck_schema_cmp schema)).
  - intros [|k after|] Hin; [by left| |by right].
    pose proof (full_ck_longer ck k Hck (Hc _ Hin)) as Hlen. unfold cut_le.
    rewrite cut_vs_before, before_vs_cut by done.
    rewrite (on_sym (P := ck_typed schema ts) (cmp := ck_schema_cmp schema) k)
      by (try apply ck_typed_take; try done; by apply (Hc _ Hin)).
    destruct (ck_schema_cmp schema k _); cbn; [|by left|by right].
    destruct after; [right|left]; by destruct (_ =? _)%nat.
Qed.

Lemma after_start_cut ck b :
  full_ck ck -> bound_typed b ->
  after_start schema ck b = le_cut schema (range_start_cut b) (CutAt ck false).
Proof.
  intros Hck Hb. destruct b as [k|k| |]; cbn [range_start_cut after_start]; try done.
  all: pose proof (full_ck_longer ck k Hck Hb) as Hlen.
  all: unfold bound_cmp, le_cut; rewrite cut_vs_before by done.
  all: rewrite (on_sym (P := ck_typed schema ts) (cmp := ck_schema_cmp schema) k)
         by (try apply ck_typed_take; try done; apply Hck).
  all: destruct (ck_schema_cmp schema k _); cbn; try done. by destruct (_ =? _)%nat.
Qed.

Lemma before_end_cut ck b :
  full_ck ck -> bound_typed b ->
  before_end schema ck b = le_cut schema (CutAt ck true) (range_end_cut b).
Proof.
  intros Hck Hb. destruct b as [k|k| |]; cbn [range_end_cut before_end]; try done.
  all: pose proof (full_ck_longer ck k Hck Hb) as Hlen.
  all: unfold bound_cmp, le_cut; rewrite before_vs_cut by done.
  all: destruct (ck_schema_cmp schema _ k); cbn; try done. by destruct (_ =? _)%nat.
Qed.

Lemma covers_ck_pt ck rt :
  full_ck ck -> rt_typed rt ->
  range_tombstone_covers_ck schema ck rt
  = covers_pt schema (CutAt ck false) (CutAt ck true) (range_item rt).
Proof.
  intros Hck [Hs He]. unfold range_tombstone_covers_ck, covers_pt.
  by rewrite after_start_cut, before_end_cut.
Qed.

Lemma range_end_before_iff ck rt :
  range_end_before_ck schema ck rt = negb (before_end schema ck (rt_end rt)).
Proof.
  unfold range_end_before_ck, before_end.
  destruct (rt_end rt); try done; by destruct (bound_cmp schema ck _).
Qed.

Lemma range_item_seg_range s : range_item (seg_range s) = s.
Proof. by destruct s as [[[[|? []|] [|? []|]] m] l]. Qed.

Lemma covering_time_pt ck rts :
  full_ck ck -> Forall rt_typed rts ->
  covering_time schema ck rts
  = pt_time schema (CutAt ck false) (CutAt ck true) (map range_item rts).
Proof.
  intros Hck Hrts. unfold covering_time, pt_time. f_equal.
  induction Hrts as [|rt rts Hrt Hrts IH]; [done|]. cbn [List.filter map].
  rewrite covers_ck_pt by done. destruct (covers_pt _ _ _ _); [|done].
  cbn [map]. f_equal. apply IH.
Qed.

Lemma map_range_item_segs segs : map range_item (map seg_range segs) = segs.
Proof. rewrite map_map. rewrite <- (map_id segs) at 2. apply map_ext, range_item_seg_range. Qed.

Lemma seg_range_typed s : seg_ok schema ts s -> rt_typed (seg_range s).
Proof. destruct s as [[[[|? []|] [|? []|]] m] l]; intros (? & ? & ?); done. Qed.

Lemma items_typed_ranges rts : Forall rt_typed rts -> items_typed schema ts (map range_item rts).
Proof.
  intros Hrts i (rt & -> & Hin)%list_elem_of_fmap. rewrite Forall_forall in Hrts.
  by apply range_item_typed, Hrts.
Qed.

Lemma coalesce_partition_typed rts :
  Forall rt_typed rts -> Forall rt_typed (coalesce_partition_range_tombstones schema rts).
Proof.
  intros Hrts. unfold coalesce_partition_range_tombstones. destruct (_ <=? _)%nat; [done|].
  destruct (coalesced_canonical schema ts (map range_item rts)) as (Hok & _ & _);
    [by apply items_typed_ranges|].
  apply Forall_map. eapply Forall_impl; [exact Hok|]. intros s. apply seg_range_typed.
Qed.

Lemma coalesce_partition_coverage ck rts :
  full_ck ck -> Forall rt_typed rts ->
  covering_time schema ck (coalesce_partition_range_tombstones schema rts)
  = covering_time schema ck rts.
Proof.
  intros Hck Hrts. rewrite !covering_time_pt by (try apply coalesce_partition_typed; done).
  unfold coalesce_partition_range_tombstones. destruct (_ <=? _)%nat; [done|].
  rewrite map_range_item_segs. pose proof (items_typed_ranges rts Hrts) as Hi.
  apply (coalesced_time schema ts); [done|]. apply row_is_point; [done|].
  pose proof (coalesce_cuts_spec schema ts _ Hi) as (_ & Ht & _). by rewrite Forall_forall in Ht.
Qed.

(** A coalesced range that covers a row is as old, in both its times, as a range of the
    partition that covers it. *)
Lemma coalesce_partition_origin ck rts rt :
  full_ck ck -> Forall rt_typed rts ->
  rt ∈ coalesce_partition_range_tombstones schema rts -> range_tombstone_covers_ck schema ck rt = true ->
  exists rt', rt' ∈ rts /\ range_tombstone_covers_ck schema ck rt' = true
    /\ rt_deletion_time rt' = rt_deletion_time rt /\ rt_local_deletion_time rt' = rt_local_deletion_time rt.
Proof.
  intros Hck Hrts Hin Hc. pose proof (coalesce_partition_typed rts Hrts) as Htyped. rewrite Forall_forall in Htyped.
  rewrite (covers_ck_pt ck rt Hck (Htyped rt Hin)) in Hc. clear Htyped.
  unfold coalesce_partition_range_tombstones in Hin. destruct (_ <=? _)%nat.
  { exists rt. split; [done|]. rewrite Forall_forall in Hrts. rewrite covers_ck_pt by auto. done. }
  pose proof (items_typed_ranges rts Hrts) as Hi. apply list_elem_of_fmap in Hin as (s & -> & Hs).
  rewrite range_item_seg_range in Hc.
  destruct (coalesced_origin schema ts (map range_item rts) (CutAt ck false) (CutAt ck true) s) as (i & Hin & Hic & E1 & E2); [done| |done|done|].
  { apply row_is_point; [done|]. pose proof (coalesce_cuts_spec schema ts _ Hi) as (_ & Ht & _). by rewrite Forall_forall in Ht. }
  apply list_elem_of_fmap in Hin as (rt' & -> & Hrt'). exists rt'. split; [done|]. rewrite Forall_forall in Hrts.
  rewrite covers_ck_pt by auto. done.
Qed.
End Coverage.

(** ** Grouping by partition *)

Section Grouping.
Context `{DebugFmt} (schema : TableSchema).

Definition at_key {A} (k : list Z) (l : list (DecoratedKey * A)) : list A :=
  map snd (List.filter (fun p => bool_decide (key p.1 = k)) l).

Definition groups_keys {A} (g : list (DecoratedKey * A)) : list (list Z) :=
  map (fun p => key p.1) g.

Lemma groups_nodup {A} gk (x : A) g :
  NoDup (groups_keys ((gk, x) :: g)) <-> (key gk ∉ groups_keys g) /\ NoDup (groups_keys g).
Proof. apply NoDup_cons. Qed.

Lemma at_key_app {A} k (a b : list (DecoratedKey * A)) : at_key k (a ++ b) = at_key k a ++ at_key k b.
Proof. unfold at_key. by rewrite List.filter_app, map_app. Qed.

Lemma at_key_absent {A} k (g : list (DecoratedKey * A)) : k ∉ groups_keys g -> at_key k g = [].
Proof.
  induction g as [|[gk x] g IH]; [done|]. cbn. rewrite not_elem_of_cons. intros [Hne Hk].
  unfold at_key. cbn. rewrite bool_decide_eq_false_2 by done. by apply IH.
Qed.

Lemma group_push_keys g k rt :
  groups_keys (group_push g k rt)
  = if bool_decide (key k ∈ groups_keys g) then groups_keys g else groups_keys g ++ [key k].
Proof.
  induction g as [|[gk l] g IH]; [done|]. cbn [group_push groups_keys map fst].
  destruct (decide (key gk = key k)) as [E|E].
  - rewrite bool_decide_eq_true_2 by done.
    by rewrite bool_decide_eq_true_2 by (rewrite E; by left).
  - rewrite bool_decide_eq_false_2 by done. cbn [groups_keys map fst].
    fold (groups_keys g) in *. fold (groups_keys (group_push g k rt)). rewrite IH.
    rewrite (bool_decide_ext (key k ∈ key gk :: groups_keys g) (key k ∈ groups_keys g)).
    + by destruct (bool_decide _).
    + rewrite elem_of_cons. split; [by intros [?|?]|by right].
Qed.

Lemma group_push_nodup g k rt : NoDup (groups_keys g) -> NoDup (groups_keys (group_push g k rt)).
Proof.
  intros Hn. rewrite group_push_keys. case_bool_decide as E; [done|].
  apply NoDup_app. split_and!; [done| |apply NoDup_singleton].
  intros x Hx Hx'%list_elem_of_singleton. by subst.
Qed.

Lemma group_push_at g k rt k' :
  NoDup (groups_keys g) ->
  concat (at_key k' (group_push g k rt))
  = concat (at_key k' g) ++ (if bool_decide (key k = k') then [rt] else []).
Proof.
  induction g as [|[gk l] g IH]; intros Hn.
  { cbn. unfold at_key. cbn. by case_bool_decide. }
  apply groups_nodup in Hn as [Hni Hn]. cbn [group_push].
  destruct (decide (key gk = key k)) as [E|E].
  - rewrite bool_decide_eq_true_2 by done. unfold at_key. cbn. rewrite E in *.
    case_bool_decide as Ek; cbn; [|by rewrite app_nil_r].
    subst k'. fold (at_key (key k) g). rewrite (at_key_absent _ g) by done. cbn.
    by rewrite !app_nil_r.
  - rewrite bool_decide_eq_false_2 by done. unfold at_key in *. cbn.
    destruct (bool_decide (key gk = k')); cbn; rewrite IH by done; [by rewrite app_assoc|done].
Qed.

Definition groups_of (rts : list (DecoratedKey * RangeTombstone)) :=
  foldl (fun g p => group_push g p.1 p.2) [] rts.

Lemma groups_of_spec rts :
  NoDup (groups_keys (groups_of rts)) /\
  forall k, concat (at_key k (groups_of rts)) = at_key k rts.
Proof.
  unfold groups_of. induction rts as [|[k rt] rts [IH1 IH2]] using rev_ind.
  { split; [constructor|done]. }
  rewrite foldl_app. cbn [foldl fst snd]. split; [by apply group_push_nodup|].
  intros k'. rewrite group_push_at, IH2, at_key_app by done. f_equal.
  unfold at_key. cbn. by case_bool_decide.
Qed.

Lemma at_key_block k gk l :
  at_key k (map (fun rt : RangeTombstone => (gk, rt)) l) = if bool_decide (key gk = k) then l else [].
Proof.
  unfold at_key. induction l as [|x l IH]; cbn; [by case_bool_decide|].
  case_bool_decide as E; cbn; by rewrite IH.
Qed.

(** What a partition's ranges become. *)
Lemma coalesce_at_key rts k :
  at_key k (coalesce_range_tombstones schema rts)
  = coalesce_partition_range_tombstones schema (at_key k rts).
Proof.
  unfold coalesce_range_tombstones. fold (groups_of rts).
  destruct (groups_of_spec rts) as [Hn Hat]. rewrite <- Hat. clear Hat.
  induction (groups_of rts) as [|[gk l] g IH]; [done|].
  apply groups_nodup in Hn as [Hni Hn]. cbn [map concat fst snd].
  rewrite at_key_app, at_key_block, IH by done.
  change (at_key k ((gk, l) :: g)) with
    (map snd (if bool_decide (key gk = k) then (gk, l) :: List.filter (fun p => bool_decide (key p.1 = k)) g
              else List.filter (fun p => bool_decide (key p.1 = k)) g)).
  case_bool_decide as E; [|done]. cbn [map snd concat]. fold (at_key k g).
  rewrite (at_key_absent k g) by (by rewrite <- E). cbn. by rewrite !app_nil_r.
Qed.

(** A slice whose first and last entries are of one partition is that partition's. *)
Lemma single_partition_all k rts :
  single_partition k (coalesce_range_tombstones schema rts) = true ->
  Forall (fun p => key p.1 = key k) (coalesce_range_tombstones schema rts).
Proof.
  unfold coalesce_range_tombstones. fold (groups_of rts).
  destruct (groups_of_spec rts) as [Hn _].
  induction (groups_of rts) as [|[gk l] g IH]; [done|].
  apply groups_nodup in Hn as [Hni Hn]. cbn [map concat fst snd].
  destruct (coalesce_partition_range_tombstones schema l) as [|x b]; [by apply IH|].
  set (rest := concat _). intros Hsp. unfold single_partition in Hsp.
  cbn [map app head] in Hsp.
  assert (Hrest : forall p, p ∈ rest -> key p.1 ∈ groups_keys g).
  { intros p Hp. apply list_elem_of_In, in_concat in Hp as (bl & Hbl & Hp).
    apply in_map_iff in Hbl as ([gk' l'] & <- & Hg).
    apply in_map_iff in Hp as (rt & <- & _). cbn.
    apply list_elem_of_fmap. exists (gk', l'). by rewrite list_elem_of_In. }
  assert (Hkey : key gk = key k).
  { destruct (last _) as [[lk ?]|]; [|done]. by apply andb_true_iff in Hsp as [?%bool_decide_eq_true _]. }
  assert (Hnil : rest = []).
  { destruct rest as [|q r _] using rev_ind; [done|]. exfalso.
    change ((gk, x) :: (map (fun rt => (gk, rt)) b ++ r ++ [q])) with
      (((gk, x) :: map (fun rt => (gk, rt)) b) ++ (r ++ [q])) in Hsp.
    rewrite app_assoc, last_snoc in Hsp. destruct q as [qk qr].
    apply andb_true_iff in Hsp as [_ E%bool_decide_eq_true].
    apply Hni. rewrite Hkey, <- E. apply (Hrest (qk, qr)). apply elem_of_app. right. by left. }
  rewrite Hnil, app_nil_r. apply Forall_map. by apply Forall_true.
Qed.

Lemma at_key_all {A} k (l : list (DecoratedKey * A)) :
  Forall (fun p => key p.1 = k) l -> at_key k l = map snd l.
Proof.
  induction 1 as [|p l Hp _ IH]; [done|]. unfold at_key in *. cbn.
  by rewrite bool_decide_eq_true_2, <- IH.
Qed.

Lemma coalesce_key_in rts p :
  p ∈ coalesce_range_tombstones schema rts -> exists q, q ∈ rts /\ key q.1 = key p.1.
Proof.
  intros Hp.
  assert (Hne : at_key (key p.1) (coalesce_range_tombstones schema rts) <> []).
  { intros E. assert (Hin : p.2 ∈ at_key (key p.1) (coalesce_range_tombstones schema rts)).
    { unfold at_key. apply list_elem_of_fmap_2, list_elem_of_In, filter_In.
      rewrite <- list_elem_of_In. split; [done|]. by apply bool_decide_eq_true. }
    rewrite E in Hin. by apply elem_of_nil in Hin. }
  rewrite coalesce_at_key in Hne.
  destruct (at_key (key p.1) rts) as [|rt l] eqn:E; [done|].
  assert (Hrt : rt ∈ at_key (key p.1) rts) by (rewrite E; by left).
  unfold at_key in Hrt. apply list_elem_of_fmap in Hrt as (q & _ & Hq).
  apply list_elem_of_In, filter_In in Hq as [Hq%list_elem_of_In Hk%bool_decide_eq_true]. eauto.
Qed.
End Grouping.

(** ** Properties *)

Lemma ssorted_lookup {A} (R : A -> A -> Prop) l i j a b :
  StronglySorted R l -> (i < j)%nat -> l !! i = Some a -> l !! j = Some b -> R a b.
Proof.
  intros Hs. revert i j. induction Hs as [|x l Hs IH Hx]; intros i j Hij Ha Hb; [done|].
  destruct j as [|j]; [lia|]. destruct i as [|i]; cbn in Ha, Hb.
  - injection Ha as ->. rewrite Forall_forall in Hx. apply Hx. by eapply list_elem_of_lookup_2.
  - by apply (IH i j); [lia|..].
Qed.

Section RangeProps.
Context `{DebugFmt} (schema : TableSchema) (ts : list CTy).

Definition range_before (a b : RangeTombstone) : Prop := seg_before schema (range_item a) (range_item b).

(** The search's candidate is the only range that can cover the row. *)
Lemma search_scan ck rts :
  full_ck schema ts ck -> Forall (rt_typed schema ts) rts -> StronglySorted range_before rts ->
  match rts !! partition_point (range_end_before_ck schema ck) rts with
  | Some rt => if range_tombstone_covers_ck schema ck rt then Some (rt_deletion_time rt) else None
  | None => None
  end = covering_time schema ck rts.
Proof.
  intros Hck Hrts Hs. induction Hs as [|x rts Hs IH Hx]; [done|].
  apply Forall_cons in Hrts as [Hxt Hrts]. cbn [partition_point].
  rewrite range_end_before_iff.
  assert (Hcov : range_tombstone_covers_ck schema ck x = true ->
                 before_end schema ck (rt_end x) = true)
    by (unfold range_tombstone_covers_ck; by intros [_ ?]%andb_true_iff).
  unfold covering_time in *. cbn [List.filter].
  destruct (before_end schema ck (rt_end x)) eqn:Eb; cbn [negb lookup list_lookup].
  - assert (Hrest : List.filter (range_tombstone_covers_ck schema ck) rts = []).
    { destruct (List.filter _ rts) as [|y l] eqn:Ef; [done|exfalso].
      assert (Hy : y ∈ List.filter (range_tombstone_covers_ck schema ck) rts) by (rewrite Ef; by left).
      apply list_elem_of_In, filter_In in Hy as [Hy%list_elem_of_In Hyc].
      rewrite Forall_forall in Hx, Hrts. specialize (Hx y Hy). specialize (Hrts y Hy).
      rewrite (covers_ck_pt schema ts) in Hyc by done. apply covers_pt_iff in Hyc as [Hlo _].
      rewrite (before_end_cut schema ts) in Eb by (done || apply Hxt). apply le_cut_iff in Eb.
      pose proof (range_item_typed schema ts _ Hxt) as [_ Hxh].
      pose proof (range_item_typed schema ts _ Hrts) as [Hyl _].
      destruct (row_is_point schema ts [] ck Hck) as (T1 & T2 & Hlt & _); [by intros ? ?%elem_of_nil|].
      apply (cut_lt_not_le schema ts _ _ T1 T2 Hlt).
      apply (cut_le_trans schema ts _ (seg_hi (range_item x))); try done.
      by apply (cut_le_trans schema ts _ (seg_lo (range_item y))). }
    rewrite Hrest. by destruct (range_tombstone_covers_ck schema ck x).
  - rewrite (not_true_is_false (range_tombstone_covers_ck schema ck x)) by (intros E; by apply Hcov in E).
    by apply IH.
Qed.

Lemma coalesce_partition_sorted rts :
  Forall (rt_typed schema ts) rts ->
  StronglySorted range_before (coalesce_partition_range_tombstones schema rts).
Proof.
  intros Hrts. unfold coalesce_partition_range_tombstones.
  destruct (Nat.leb_spec (length rts) 1).
  { destruct rts as [|x [|y rts]]; [constructor|by repeat constructor|cbn in *; lia]. }
  destruct (coalesced_canonical schema ts (map range_item rts)) as (_ & Hs & _);
    [by apply items_typed_ranges|].
  fold (coalesced schema (map range_item rts)). clear -Hs.
  induction Hs as [|s l Hs IH Hf]; [constructor|]. cbn. constructor; [done|].
  apply Forall_map. eapply Forall_impl; [exact Hf|]. intros t.
  unfold range_before. by rewrite !range_item_seg_range.
Qed.

Lemma at_key_forall {A} (P : A -> Prop) k (l : list (DecoratedKey * A)) :
  Forall (fun p => P p.2) l -> Forall P (at_key k l).
Proof.
  unfold at_key. induction 1 as [|p l Hp _ IH]; [constructor|]. cbn.
  case_bool_decide; [by constructor|done].
Qed.

(** Coalescing a list of range tombstones loses and adds no deletion: in every
    partition, every row is covered with exactly the same (greatest) deletion time by
    the coalesced ranges as by the ranges the inputs carried, overlapping, nested and
    inverted ranges and mixed bound kinds included. *)
Theorem coalesce_coverage rts k ck
    (Hck : full_ck schema ts ck) (Hrts : Forall (fun p => rt_typed schema ts p.2) rts) :
  covering_time schema ck (at_key k (coalesce_range_tombstones schema rts))
  = covering_time schema ck (at_key k rts).
Proof.
  rewrite coalesce_at_key. apply (coalesce_partition_coverage schema ts); [done|].
  by apply at_key_forall.
Qed.

(** The coalesced ranges of a partition are sorted and disjoint, each is not
    empty and no two neighbours could be joined further, and the test the binary search
    uses is monotone along them. *)
Theorem coalesce_canonical rts k
    (Hrts : Forall (fun p => rt_typed schema ts p.2) rts)
    (Hlen : (1 < length (at_key k rts))%nat) :
  let out := map range_item (at_key k (coalesce_range_tombstones schema rts)) in
  StronglySorted (seg_before schema) out
  /\ Forall (fun s => cut_lt schema (seg_lo s) (seg_hi s)) out
  /\ unmergeable schema out
  /\ forall ck i j a b, full_ck schema ts ck -> (i <= j)%nat ->
       at_key k (coalesce_range_tombstones schema rts) !! i = Some a ->
       at_key k (coalesce_range_tombstones schema rts) !! j = Some b ->
       range_end_before_ck schema ck b = true -> range_end_before_ck schema ck a = true.
Proof.
  rewrite coalesce_at_key. set (r := at_key k rts) in *.
  assert (Hr : Forall (rt_typed schema ts) r) by by apply at_key_forall.
  pose proof (coalesce_partition_typed schema ts r Hr) as Hct.
  pose proof (coalesce_partition_sorted r Hr) as Hcs.
  unfold coalesce_partition_range_tombstones in *.
  destruct (Nat.leb_spec (length r) 1); [lia|].
  fold (coalesced schema (map range_item r)) in *.
  destruct (coalesced_canonical schema ts (map range_item r)) as (Hok & Hs & Hu);
    [by apply items_typed_ranges|].
  cbv zeta. rewrite map_range_item_segs. split_and!; [done| |done|].
  { eapply Forall_impl; [exact Hok|]. by intros s (_ & _ & ?). }
  intros ck i j a b Hck Hij Ha Hb He. destruct (decide (i = j)) as [->|Hne]; [congruence|].
  rewrite !range_end_before_iff, negb_true_iff in *.
  destruct (before_end schema ck (rt_end a)) eqn:Ea; [|done]. rewrite <- He.
  rewrite Forall_forall in Hct.
  assert (Hta := Hct a ltac:(eapply list_elem_of_lookup_2; done)).
  assert (Htb := Hct b ltac:(eapply list_elem_of_lookup_2; done)).
  rewrite (before_end_cut schema ts) in * by (done || apply Hta || apply Htb).
  symmetry. apply le_cut_iff. apply le_cut_iff in Ea.
  pose proof (range_item_typed schema ts _ Hta) as [_ Hxh].
  pose proof (range_item_typed schema ts _ Htb) as [Hyl Hyh].
  change (range_end_cut (rt_end b)) with (seg_hi (range_item b)).
  apply (cut_le_trans schema ts _ (seg_hi (range_item a))); [apply Hck|done|done|exact Ea|].
  apply (cut_le_trans schema ts _ (seg_lo (range_item b))); try done.
  - apply (ssorted_lookup range_before _ i j a b Hcs); [lia|done..].
  - assert (Hbo : seg_ok schema ts (range_item b)).
    { rewrite list_lookup_fmap in Hb. destruct (coalesced _ _ !! j) as [s|] eqn:Es; [|done].
      injection Hb as <-. rewrite range_item_seg_range. rewrite Forall_forall in Hok.
      apply Hok. by eapply list_elem_of_lookup_2. }
    apply cut_lt_le. apply Hbo.
Qed.

Lemma range_floor_time rts k ck :
  full_ck schema ts ck -> Forall (fun p => rt_typed schema ts p.2) rts ->
  range_floor schema k ck (coalesce_range_tombstones schema rts)
  = covering_time schema ck (at_key (key k) rts).
Proof.
  intros Hck Hrts.
  rewrite <- (coalesce_partition_coverage schema ts), <- coalesce_at_key
    by (try apply at_key_forall; done).
  unfold range_floor. set (l := coalesce_range_tombstones schema rts).
  destruct (single_partition k l) eqn:Esp.
  - pose proof (single_partition_all schema k rts Esp) as Hall. fold l in Hall.
    rewrite (at_key_all (key k) l Hall).
    assert (Hr : Forall (rt_typed schema ts) (map snd l)).
    { rewrite <- (at_key_all (key k) l Hall). unfold l. rewrite coalesce_at_key.
      by apply coalesce_partition_typed, at_key_forall. }
    rewrite <- search_scan; [|done..|].
    2: { rewrite <- (at_key_all (key k) l Hall). unfold l. rewrite coalesce_at_key.
         by apply coalesce_partition_sorted, at_key_forall. }
    assert (Hpp : partition_point (range_end_before_ck schema ck) (map snd l)
                  = partition_point (fun p => range_end_before_ck schema ck p.2) l).
    { clear. induction l as [|p l IH]; [done|]. cbn. by rewrite IH. }
    rewrite Hpp, list_lookup_fmap.
    destruct (l !! _) as [[k' rt]|] eqn:El; [|done]. cbn.
    rewrite Forall_forall in Hall. rewrite bool_decide_eq_true_2; [done|].
    apply (Hall (k', rt)). by eapply list_elem_of_lookup_2.
  - unfold covering_time, at_key. f_equal. clear.
    induction l as [|p l IH]; [done|]. cbn [List.filter].
    case_bool_decide; cbn [andb List.filter map]; [|done].
    destruct (range_tombstone_covers_ck schema ck p.2); [|done]. cbn [map]. by f_equal.
Qed.

(** The floor that [apply_range_shadowing] finds for a row by binary search in
    the coalesced list is the greatest deletion time of the partition's original range
    tombstones that cover the row, whatever partitions the list holds. *)
Theorem range_floor_exact rts k ck
    (Hck : full_ck schema ts ck) (Hrts : Forall (fun p => rt_typed schema ts p.2) rts) :
  range_floor schema k ck (coalesce_range_tombstones schema rts)
  = covering_time schema ck (at_key (key k) rts).
Proof. by apply range_floor_time. Qed.
End RangeProps.

(** Two overlapping ranges and a nested one, of one partition of [asc_schema]. *)
Definition sample_debug : DebugFmt := fun _ => [].
Definition sample_key : DecoratedKey := mkDecoratedKey 0 [1].
Definition sample_ck (n : Z) : ClusteringKey := [("c1"%string, Integer n)].
Definition sample_ranges : list (DecoratedKey * RangeTombstone) :=
  [(sample_key, mkRangeTombstone (Inclusive (sample_ck 1)) (Inclusive (sample_ck 5)) 10 1);
   (sample_key, mkRangeTombstone (Inclusive (sample_ck 3)) (Exclusive (sample_ck 9)) 20 2);
   (sample_key, mkRangeTombstone (Exclusive (sample_ck 6)) (Inclusive (sample_ck 7)) 5 1)].

Lemma sample_full n : @full_ck asc_schema [TInt] (sample_ck n).
Proof. split; [split; [reflexivity|cbn; auto]|reflexivity]. Qed.

Lemma sample_ranges_typed : Forall (fun p => @rt_typed asc_schema [TInt] p.2) sample_ranges.
Proof. repeat constructor. Qed.

Lemma coalesce_coverage_witness :
  @covering_time sample_debug asc_schema (sample_ck 4) (at_key [1] sample_ranges) = Some 20
  /\ @covering_time sample_debug asc_schema (sample_ck 4)
       (at_key [1] (@coalesce_range_tombstones sample_debug asc_schema sample_ranges)) = Some 20.
Proof.
  split; [vm_compute; reflexivity|].
  rewrite (@coalesce_coverage sample_debug asc_schema [TInt] sample_ranges [1] (sample_ck 4)
             (sample_full 4) sample_ranges_typed).
  vm_compute. reflexivity.
Defined.

Lemma coalesce_canonical_witness :
  length (at_key [1] (@coalesce_range_tombstones sample_debug asc_schema sample_ranges)) = 2%nat
  /\ StronglySorted (@seg_before sample_debug asc_schema)
       (map range_item (at_key [1] (@coalesce_range_tombstones sample_debug asc_schema sample_ranges))).
Proof.
  split; [vm_compute; reflexivity|].
  assert (Hlen : Nat.lt 1 (length (at_key [1] sample_ranges))) by (vm_compute; lia).
  pose proof (@coalesce_canonical sample_debug asc_schema [TInt] sample_ranges [1]
                sample_ranges_typed Hlen) as H.
  cbv zeta in H. exact (proj1 H).
Defined.

Lemma range_floor_exact_witness :
  @range_floor sample_debug asc_schema sample_key (sample_ck 8)
    (@coalesce_range_tombstones sample_debug asc_schema sample_ranges) = Some 20.
Proof.
  rewrite (@range_floor_exact sample_debug asc_schema [TInt] sample_ranges sample_key (sample_ck 8)
             (sample_full 8) sample_ranges_typed).
  vm_compute. reflexivity.
Defined.
