(* ===== verification/Coalesce.v ===== *)
(** Coalescing range tombstones ([coalesce_range_tombstones] of [merge/mod.rs]) is
    idempotent: the streaming merge may coalesce the ranges of a partition more than
    once, the buffered merge coalesces them once. *)

From S2P Require Import Prelude Values Keys MergeModel RangeTombstones.

Open Scope Z_scope.

Section Idem.
Context `{DebugFmt} (schema : TableSchema) (ts : list CTy).
#[local] Abbreviation cut_ok := (cut_typed schema ts).
#[local] Abbreviation cle := (cut_le schema).
#[local] Abbreviation clt := (cut_lt schema).

Lemma cle_refl c : cut_ok c -> cle c c.
Proof. intros Hc. unfold cut_le. by rewrite (on_refl (P := cut_ok) (cmp := cut_cmp schema)). Qed.

Lemma clt_irrefl a b : cut_ok a -> cut_ok b -> clt a b -> cle b a -> False.
Proof. intros Ha Hb Hlt. by apply (cut_lt_not_le schema ts). Qed.

(** Neighbours share their cut or leave a gap. *)
Fixpoint tight (segs : list Seg) : Prop :=
  match segs with
  | s :: ((t :: _) as segs') => (seg_hi s = seg_lo t \/ clt (seg_hi s) (seg_lo t)) /\ tight segs'
  | _ => True
  end.

Lemma tight_tail s segs : tight (s :: segs) -> tight segs.
Proof. destruct segs; [done|]. by intros [_ ?]. Qed.

(** ** Coalesced segments are tight *)

Lemma gap_segs_head items cuts s segs :
  gap_segs schema items cuts = s :: segs -> seg_lo s ∈ cuts.
Proof.
  intros E. assert (Hs : s ∈ gap_segs schema items cuts) by (rewrite E; by left).
  apply gap_segs_elem, windows_elem in Hs. by destruct Hs.
Qed.

Lemma gap_segs_tight items cuts :
  Forall cut_ok cuts -> StronglySorted clt cuts -> tight (gap_segs schema items cuts).
Proof.
  intros Ht Hs. induction Hs as [|x cuts Hs IH Hx]; [done|].
  destruct cuts as [|y cuts]; [done|]. apply Forall_cons in Ht as [_ Ht]. specialize (IH Ht).
  change (gap_segs schema items (x :: y :: cuts)) with
    (match best_of schema items x y with
     | Some (m, l) => (x, y, m, l) :: gap_segs schema items (y :: cuts)
     | None => gap_segs schema items (y :: cuts) end).
  destruct (best_of schema items x y) as [[m l]|]; [|done].
  destruct (gap_segs schema items (y :: cuts)) as [|t segs] eqn:E; [done|].
  split; [|done]. change (seg_hi (x, y, m, l)) with y.
  apply gap_segs_head in E as [->|Hin]%elem_of_cons; [by left|right].
  apply StronglySorted_inv in Hs as [_ Hy]. rewrite Forall_forall in Hy. by apply Hy.
Qed.

Lemma merge_from_tight last segs : tight (last :: segs) -> tight (merge_from schema last segs).
Proof.
  revert last. induction segs as [|s segs IH]; intros last Ht; [done|]. cbn [merge_from].
  fold (mergeable schema last s). destruct (mergeable schema last s).
  - apply IH. destruct segs as [|t segs]; [done|]. destruct Ht as [_ [? ?]]. by split.
  - destruct Ht as [Hlink Ht].
    destruct (merge_from_head schema s segs) as (t & Eh & Hlo & _).
    specialize (IH s Ht). destruct (merge_from schema s segs) as [|t' l]; [done|].
    injection Eh as ->. split; [by rewrite Hlo|done].
Qed.

Lemma coalesced_tight items : items_typed schema ts items -> tight (coalesced schema items).
Proof.
  intros Hi. unfold coalesced. destruct (coalesce_cuts_spec schema ts items Hi) as (Hs & Ht & _).
  pose proof (gap_segs_tight items _ Ht Hs) as Hg.
  destruct (gap_segs schema items _) as [|s segs]; [done|]. by apply merge_from_tight.
Qed.

(** ** The cuts of tight segments *)

Definition seg_cuts (segs : list Seg) : list RangeCut :=
  concat (map (fun i => [seg_lo i; seg_hi i]) segs).

Fixpoint tail_cuts (s : Seg) (rest : list Seg) : list RangeCut :=
  match rest with
  | [] => [seg_hi s]
  | t :: rest =>
      match cut_cmp schema (seg_lo t) (seg_hi s) with
      | Eq => seg_hi s :: tail_cuts t rest
      | _ => seg_hi s :: seg_lo t :: tail_cuts t rest
      end
  end.

Lemma dedup_tail s rest :
  Forall (seg_ok schema ts) (s :: rest) -> tight (s :: rest) ->
  dedup_from schema (seg_lo s) (seg_hi s :: seg_cuts rest) = tail_cuts s rest.
Proof.
  revert s. induction rest as [|t rest IH]; intros s Hok Ht;
    apply Forall_cons in Hok as [(H1 & H2 & H3) Hok]; cbn [dedup_from seg_cuts map concat app].
  all: apply (on_gt_lt (P := cut_ok) (cut_cmp schema)) in H3; [rewrite H3|done..].
  { done. }
  destruct Ht as [Hlink Ht]. fold (seg_cuts rest). cbn [tail_cuts].
  specialize (IH t Hok Ht). cbn [dedup_from] in IH.
  destruct (cut_cmp schema (seg_lo t) (seg_hi s)) eqn:E.
  - destruct Hlink as [->|Hlt]; [by rewrite IH|exfalso].
    apply Forall_cons in Hok as [(? & ? & ?) _].
    apply (on_gt_lt (P := cut_ok) (cut_cmp schema)) in Hlt; [congruence|done..].
  - by rewrite IH.
  - by rewrite IH.
Qed.

Lemma seg_cuts_sorted segs :
  Forall (seg_ok schema ts) segs -> StronglySorted (seg_before schema) segs ->
  StronglySorted cle (seg_cuts segs)
  /\ forall c, cut_ok c -> Forall (fun s => cle c (seg_lo s)) segs -> Forall (cle c) (seg_cuts segs).
Proof.
  induction 1 as [|s segs (H1 & H2 & H3) Hok IH]; intros Hs; [split; [constructor|by constructor]|].
  apply StronglySorted_inv in Hs as [Hs Hf]. destruct (IH Hs) as [I1 I2]. clear IH.
  cbn [seg_cuts map concat app]. fold (seg_cuts segs).
  apply cut_lt_le in H3. pose proof (I2 _ H2 Hf) as Hh. split.
  - constructor; [by constructor|]. constructor; [done|].
    apply I2; [done|]. eapply Forall_impl; [exact (Forall_both _ _ _ Hf Hok)|].
    intros t [Hst (? & _)]. by apply (cut_le_trans schema ts _ (seg_hi s)).
  - intros c Hc Hcs. apply Forall_cons in Hcs as [Hcs Hcf]. constructor; [done|]. constructor.
    + by apply (cut_le_trans schema ts _ (seg_lo s)).
    + by apply I2.
Qed.

Lemma coalesce_cuts_tight s rest :
  Forall (seg_ok schema ts) (s :: rest) -> StronglySorted (seg_before schema) (s :: rest) ->
  tight (s :: rest) -> coalesce_cuts schema (s :: rest) = seg_lo s :: tail_cuts s rest.
Proof.
  intros Hok Hs Ht. unfold coalesce_cuts. fold (seg_cuts (s :: rest)).
  rewrite sort_by_sorted_id by by apply seg_cuts_sorted.
  cbn [seg_cuts map concat app dedup_cuts]. fold (seg_cuts rest). by rewrite dedup_tail.
Qed.

(** ** Their gaps *)

Lemma best_fold_none lo hi l b :
  Forall (fun u => covers_pt schema lo hi u = false) l -> foldl (best_step schema lo hi) b l = b.
Proof.
  intros Hl. revert b. induction Hl as [|u l Hu _ IH]; intros b; [done|]. cbn [foldl].
  unfold best_step at 2. fold (covers_pt schema lo hi u). rewrite Hu. apply IH.
Qed.

Lemma not_covers lo hi u :
  seg_ok schema ts u -> cut_ok lo -> cut_ok hi -> clt lo hi ->
  cle (seg_hi u) lo \/ cle hi (seg_lo u) -> covers_pt schema lo hi u = false.
Proof.
  intros (U1 & U2 & _) Hl Hh Hlt Hu. apply not_true_iff_false. rewrite covers_pt_iff. intros [H1 H2].
  apply (clt_irrefl lo hi Hl Hh Hlt).
  destruct Hu as [Hu|Hu]; [by apply (cut_le_trans schema ts _ (seg_hi u))|].
  by apply (cut_le_trans schema ts _ (seg_lo u)).
Qed.

Lemma gap_segs_id pre s rest :
  Forall (seg_ok schema ts) (pre ++ s :: rest) -> StronglySorted (seg_before schema) (s :: rest) ->
  Forall (fun u => cle (seg_hi u) (seg_lo s)) pre -> tight (s :: rest) ->
  gap_segs schema (pre ++ s :: rest) (seg_lo s :: tail_cuts s rest) = s :: rest.
Proof.
  revert pre s. induction rest as [|t rest IH]; intros pre s Hok Hs Hpre Ht.
  all: pose proof Hok as [Hokp [Hs0 Hokr]%Forall_cons]%Forall_app.
  all: pose proof Hs0 as (S1 & S2 & S3).
  all: assert (Hself : forall post, Forall (fun u => cle (seg_hi s) (seg_lo u)) post ->
         Forall (seg_ok schema ts) post ->
         best_of schema (pre ++ s :: post) (seg_lo s) (seg_hi s) = Some (seg_mfda s, seg_ldt s)).
  1,3: intros post Hpost Hokq; unfold best_of; rewrite foldl_app; cbn [foldl];
       rewrite (best_fold_none _ _ pre), (best_fold_none _ _ post);
       [unfold best_step; fold (covers_pt schema (seg_lo s) (seg_hi s) s);
        rewrite (proj2 (covers_pt_iff schema _ _ s)) by (split; by apply cle_refl); done
       |eapply Forall_impl; [exact (Forall_both _ _ _ Hpost Hokq)|];
        intros u [? ?]; apply not_covers; auto
       |eapply Forall_impl; [exact (Forall_both _ _ _ Hpre Hokp)|];
        intros u [? ?]; apply not_covers; auto].
  { cbn [tail_cuts gap_segs]. rewrite Hself by constructor. by destruct s as [[[? ?] ?] ?]. }
  pose proof (StronglySorted_inv Hs) as [Hs' Hf]. pose proof Hf as [Hst Hf']%Forall_cons.
  destruct Ht as [Hlink Ht].
  assert (Hpre' : Forall (fun u => cle (seg_hi u) (seg_lo t)) (pre ++ [s])).
  { apply Forall_app. split; [|by constructor].
    eapply Forall_impl; [exact (Forall_both _ _ _ Hpre Hokp)|]. intros u [Hu (? & ? & _)].
    apply Forall_cons in Hokr as [(? & _) _].
    apply (cut_le_trans schema ts _ (seg_lo s)); try done.
    apply (cut_le_trans schema ts _ (seg_hi s)); try done. by apply cut_lt_le. }
  specialize (IH (pre ++ [s]) t). rewrite <- app_assoc in IH.
  specialize (IH Hok Hs' Hpre' Ht). cbn [app] in IH.
  assert (Hhead : forall rest', gap_segs schema (pre ++ s :: t :: rest) (seg_lo s :: seg_hi s :: rest')
            = s :: gap_segs schema (pre ++ s :: t :: rest) (seg_hi s :: rest')).
  { intros rest'. cbn [gap_segs]. rewrite Hself by done. by destruct s as [[[? ?] ?] ?]. }
  apply Forall_cons in Hokr as [(T1 & T2 & T3) Hokr].
  cbn [tail_cuts]. destruct Hlink as [El|Hlt].
  - rewrite El, (on_refl (P := cut_ok) (cmp := cut_cmp schema)) by done.
    rewrite <- El, Hhead, El. by rewrite IH.
  - pose proof Hlt as Hgt. apply (on_gt_lt (P := cut_ok) (cut_cmp schema)) in Hgt; [|done..].
    rewrite Hgt, Hhead. f_equal. cbn [gap_segs] in IH |- *.
    assert (Hnone : best_of schema (pre ++ s :: t :: rest) (seg_hi s) (seg_lo t) = None).
    { unfold best_of. apply best_fold_none. apply Forall_app. split; [|constructor; [|constructor]].
      - eapply Forall_impl; [exact (Forall_both _ _ _ Hpre Hokp)|].
        intros u [Hu Huk]. apply not_covers; try done. left. pose proof Huk as (? & ? & _).
        apply (cut_le_trans schema ts _ (seg_lo s)); try done. by apply cut_lt_le.
      - apply not_covers; try done. left. by apply cle_refl.
      - apply not_covers; try done. right. by apply cle_refl.
      - apply StronglySorted_inv in Hs' as [_ Hft].
        eapply Forall_impl; [exact (Forall_both _ _ _ Hft Hokr)|].
        intros u [Hu Huk]. apply not_covers; try done. right. pose proof Huk as (? & ? & _).
        apply (cut_le_trans schema ts _ (seg_hi t)); try done. by apply cut_lt_le. }
    rewrite Hnone. exact IH.
Qed.

Lemma merge_from_id last segs :
  unmergeable schema (last :: segs) -> merge_from schema last segs = last :: segs.
Proof.
  revert last. induction segs as [|s segs IH]; intros last Hu; [done|]. destruct Hu as [Hm Hu].
  cbn [merge_from]. fold (mergeable schema last s). by rewrite Hm, IH.
Qed.

Lemma coalesced_idem items :
  items_typed schema ts items ->
  coalesced schema (coalesced schema items) = coalesced schema items.
Proof.
  intros Hi. destruct (coalesced_canonical schema ts items Hi) as (Hok & Hs & Hu).
  pose proof (coalesced_tight items Hi) as Ht.
  destruct (coalesced schema items) as [|s rest]; [done|]. unfold coalesced.
  rewrite coalesce_cuts_tight by done.
  pose proof (gap_segs_id [] s rest Hok Hs ltac:(constructor) Ht) as E. cbn [app] in E. rewrite E.
  by apply merge_from_id.
Qed.

(** ** The ranges of a partition *)

Lemma coalesce_partition_idem rts :
  Forall (rt_typed schema ts) rts ->
  coalesce_partition_range_tombstones schema (coalesce_partition_range_tombstones schema rts)
  = coalesce_partition_range_tombstones schema rts.
Proof.
  intros Hrts. unfold coalesce_partition_range_tombstones at 2 3.
  destruct (Nat.leb_spec (length rts) 1) as [Hl|Hl].
  { unfold coalesce_partition_range_tombstones. by apply Nat.leb_le in Hl as ->. }
  fold (coalesced schema (map range_item rts)).
  unfold coalesce_partition_range_tombstones. destruct (_ <=? _)%nat; [done|].
  rewrite map_range_item_segs. fold (coalesced schema (coalesced schema (map range_item rts))).
  by rewrite coalesced_idem by by apply items_typed_ranges.
Qed.

Lemma group_push_same k rts l :
  foldl (fun g p => group_push g p.1 p.2) [(k, l)] (map (pair k) rts) = [(k, l ++ rts)].
Proof.
  revert l. induction rts as [|rt rts IH]; intros l; cbn; [by rewrite app_nil_r|].
  rewrite bool_decide_eq_true_2 by done. by rewrite IH, <- app_assoc.
Qed.

Lemma coalesce_one_key k rts :
  coalesce_range_tombstones schema (map (pair k) rts)
  = map (pair k) (coalesce_partition_range_tombstones schema rts).
Proof.
  unfold coalesce_range_tombstones. destruct rts as [|rt rts]; [done|].
  cbn [map foldl group_push fst snd]. rewrite group_push_same. cbn. by rewrite app_nil_r.
Qed.

Lemma one_key {A} k (l : list (DecoratedKey * A)) :
  Forall (fun p => p.1 = k) l -> l = map (pair k) (map snd l).
Proof. induction 1 as [|[k' x] l Hk _ IH]; [done|]. cbn in *. by rewrite Hk, <- IH. Qed.

(** Coalescing the ranges of a partition twice is coalescing them once. *)
Theorem coalesce_idempotent k rts
    (Hkey : Forall (fun p => p.1 = k) rts) (Hrts : Forall (fun p => rt_typed schema ts p.2) rts) :
  coalesce_range_tombstones schema (coalesce_range_tombstones schema rts)
  = coalesce_range_tombstones schema rts.
Proof.
  rewrite (one_key k rts Hkey), !coalesce_one_key. f_equal. apply coalesce_partition_idem.
  by apply Forall_map.
Qed.
End Idem.
