(* ===== verification/PartitionMerge.v ===== *)
(** The merge of one partition ([merge/mod.rs] [merge_partition_rows],
    [merge/carriers.rs]): partition-scoped carriers are split out, the remaining rows
    are grouped by clustering key and reconciled, range and partition deletions shadow
    them, and the surviving markers are emitted again. *)

From S2P Require Import Prelude Values Keys MergeModel Reconcile RangeTombstones.

Open Scope Z_scope.

(** ** Carriers *)

Record PartitionCarriers := mkCarriers {
  carrier_ranges : list (DecoratedKey * RangeTombstone);
  max_partition_deletion : option (Z * Z);
  partition_delete_key : option DecoratedKey;
}.

Definition is_range_marker_carrier (entry : MergeEntry) : bool :=
  is_some (range_deletion entry) && is_empty (complex_deletions entry)
  && negb (is_some (row_deletion entry)) && live_empty (row_data entry).

Definition scan_carrier (carriers : PartitionCarriers) (row : MergeEntry) : PartitionCarriers :=
  match partition_deletion row with
  | Some (mfda, ldt) =>
      mkCarriers (carrier_ranges carriers)
        (match max_partition_deletion carriers with
         | Some (cur_mfda, cur_ldt) =>
             if cur_mfda >=? mfda then Some (cur_mfda, cur_ldt) else Some (mfda, ldt)
         | None => Some (mfda, ldt)
         end)
        (match partition_delete_key carriers with
         | Some k => Some k
         | None => Some (me_key row)
         end)
  | None =>
      if is_range_marker_carrier row then
        match range_deletion row with
        | Some rt =>
            mkCarriers (carrier_ranges carriers ++ [(me_key row, rt)])
              (max_partition_deletion carriers) (partition_delete_key carriers)
        | None => carriers
        end
      else carriers
  end.

Definition scan_partition_carriers (rows : list MergeEntry) : PartitionCarriers :=
  foldl scan_carrier (mkCarriers [] None None) rows.

(** ** Shadowing *)

(** What is left of an entry above a deletion floor. [marker_live] tells whether the
    row's primary-key marker outlives the floor. The two shadowing functions below are
    this body, written out twice in the source. *)
Definition shadow_by_floor (floor : Z) (marker_live : bool) (entry : MergeEntry)
    : option MergeEntry :=
  let surviving_complex :=
    List.filter (fun cd => marked_for_delete_at cd >? floor) (complex_deletions entry) in
  let attach_complex e :=
    if negb (is_empty surviving_complex) then with_complex_deletions e surviving_complex else e in
  let rebuild ts rd := entry_new (run_index entry) (me_key entry) (clustering_key entry) ts rd in
  match row_data entry with
  | RTombstone deletion_time ldt =>
      if deletion_time >? floor then
        Some (attach_complex (rebuild deletion_time (RTombstone deletion_time ldt)))
      else if negb (is_empty surviving_complex) then
        Some (with_complex_deletions (rebuild (me_timestamp entry) (Live [])) surviving_complex)
      else None
  | Live cells =>
      let is_data := is_data_cell (clustering_key entry) in
      let kept := List.filter (fun c => negb (is_data c) || (timestamp c >? floor)) cells in
      let has_data := existsb is_data kept in
      let surviving_row_del :=
        match row_deletion entry with
        | Some (dt, ldt) => if dt >? floor then Some (dt, ldt) else None
        | None => None
        end in
      if negb has_data && negb marker_live then
        match surviving_row_del with
        | Some (dt, ldt) => Some (rebuild dt (RTombstone dt ldt))
        | None =>
            if negb (is_empty surviving_complex) then
              Some (with_complex_deletions (rebuild (me_timestamp entry) (Live [])) surviving_complex)
            else None
        end
      else
        let row_ts :=
          if has_data then max_timestamp (List.filter is_data kept) (me_timestamp entry)
          else me_timestamp entry in
        let rebuilt :=
          with_row_liveness (rebuild row_ts (Live kept))
            (if marker_live then row_liveness entry else liveness_default) in
        let rebuilt := attach_complex rebuilt in
        Some (match surviving_row_del with
              | Some (dt, ldt) => with_row_deletion rebuilt dt ldt
              | None => rebuilt
              end)
  end.

Definition apply_partition_shadowing (entry : MergeEntry) (pd : option (Z * Z))
    : option MergeEntry :=
  match pd with
  | None => Some entry
  | Some (pmfda, _) =>
      shadow_by_floor pmfda
        (marker_survives_floor (row_liveness entry) (me_timestamp entry) pmfda) entry
  end.

Section Merge.
Context `{DebugFmt}.

Definition apply_range_shadowing (schema : TableSchema) (entry : MergeEntry)
    (range_tombstones : list (DecoratedKey * RangeTombstone)) : option MergeEntry :=
  if is_empty range_tombstones then Some entry
  else match clustering_key entry with
  | None => Some entry
  | Some ck =>
      match range_floor schema (me_key entry) ck range_tombstones with
      | None => Some entry
      | Some floor => shadow_by_floor floor (me_timestamp entry >? floor) entry
      end
  end.

(** ** The merger's settings and the partition merge *)

Record MergerConfig := mkConfig {
  mc_schema : TableSchema;
  gc_before_secs : option Z;
  now_secs : option Z;
  purge_safe : bool;
  max_purgeable_timestamp : option Z;
}.

Definition effective_gc_settings (cfg : MergerConfig) : option Z * Z :=
  if purge_safe cfg then (gc_before_secs cfg, i64_MAX)
  else match max_purgeable_timestamp cfg with
       | Some bound => (gc_before_secs cfg, bound)
       | None => (None, i64_MIN)
       end.

(** [BTreeMap<Option<ClusteringKey>, Vec<MergeEntry>>]: the groups in the order of
    their keys; a row joins the group whose key compares equal. *)
Definition Clusters : Type := list (option ClusteringKey * list MergeEntry).

Fixpoint cluster_push (m : Clusters) (row : MergeEntry) : Clusters :=
  match m with
  | [] => [(clustering_key row, [row])]
  | (k, rows) :: m' =>
      match opt_ck_cmp ck_cmp (clustering_key row) k with
      | Lt => (clustering_key row, [row]) :: (k, rows) :: m'
      | Eq => (k, rows ++ [row]) :: m'
      | Gt => (k, rows) :: cluster_push m' row
      end
  end.

(** A row that is neither of the carriers. *)
Definition is_clustered (row : MergeEntry) : bool :=
  negb (is_partition_delete_carrier row && is_some (partition_deletion row))
  && negb (is_range_marker_carrier row).

Definition cluster_rows_of (rows : list MergeEntry) : Clusters :=
  foldl cluster_push [] (List.filter is_clustered rows).

(** One cluster: reconciled, then shadowed by the ranges, then by the partition. *)
Definition merge_cluster (cfg : MergerConfig) (ranges : list (DecoratedKey * RangeTombstone))
    (pd : option (Z * Z)) (acc : list MergeEntry * PurgeCounts)
    (cluster : option ClusteringKey * list MergeEntry) : list MergeEntry * PurgeCounts :=
  let '(merged, purges) := acc in
  let '(gc, maxp) := effective_gc_settings cfg in
  let '(entry, purges) :=
    reconcile_cluster_with_overlap_counted cluster.1 cluster.2
      (dropped_columns (mc_schema cfg)) gc maxp (now_secs cfg) purges in
  (match entry with
   | Some entry =>
       match apply_range_shadowing (mc_schema cfg) entry ranges with
       | Some shadowed =>
           match apply_partition_shadowing shadowed pd with
           | Some survivor => merged ++ [survivor]
           | None => merged
           end
       | None => merged
       end
   | None => merged
   end, purges).

Definition usize_MAX : Z := u64_MAX.

(** The purge gate of a range or partition marker. *)
Definition purges_marker (gc : option Z) (maxp ts ldt : Z) : bool :=
  match gc with
  | Some gc_before => (as_u32 ldt <? gc_before) && (ts <? maxp)
  | None => false
  end.

(** A surviving range goes back into the output as a carrier. *)
Definition emit_range (gc : option Z) (maxp : Z) (acc : list MergeEntry * PurgeCounts)
    (p : DecoratedKey * RangeTombstone) : list MergeEntry * PurgeCounts :=
  let '(merged, purges) := acc in
  let '(k, rt) := p in
  if purges_marker gc maxp (rt_deletion_time rt) (rt_local_deletion_time rt)
  then (merged, add_range_tombstones 1 purges)
  else (merged ++ [with_range_deletion
                     (entry_new usize_MAX k None (rt_deletion_time rt) (Live [])) rt],
        add_emitted 1 purges).

Definition emit_partition (gc : option Z) (maxp : Z) (pd : option (Z * Z))
    (pk : option DecoratedKey) (acc : list MergeEntry * PurgeCounts)
    : list MergeEntry * PurgeCounts :=
  let '(merged, purges) := acc in
  match pd, pk with
  | Some (pmfda, pldt), Some k =>
      if purges_marker gc maxp pmfda pldt
      then (merged, add_partition_tombstones 1 purges)
      else (merged ++ [with_partition_deletion
                         (entry_new usize_MAX k None pmfda (RTombstone pmfda pldt))
                         (pmfda, pldt)],
            add_emitted 1 purges)
  | _, _ => (merged, purges)
  end.

Definition retain_ranges (pd : option (Z * Z)) (ranges : list (DecoratedKey * RangeTombstone)) :=
  match pd with
  | Some (pmfda, _) => List.filter (fun p => rt_deletion_time p.2 >? pmfda) ranges
  | None => ranges
  end.

(** The output order. *)
Definition row_order (schema : TableSchema) (a b : MergeEntry) : comparison :=
  opt_ck_cmp (ck_schema_cmp schema) (clustering_key a) (clustering_key b).

(** The merged rows and the purge counters the metrics report. *)
Definition merge_partition_rows (cfg : MergerConfig) (rows : list MergeEntry)
    : list MergeEntry * PurgeCounts :=
  let '(gc, maxp) := effective_gc_settings cfg in
  let carriers := scan_partition_carriers rows in
  let pd := max_partition_deletion carriers in
  let ranges := coalesce_range_tombstones (mc_schema cfg) (carrier_ranges carriers) in
  let acc := foldl (merge_cluster cfg ranges pd) ([], purges_default) (cluster_rows_of rows) in
  let acc := foldl (emit_range gc maxp) acc (retain_ranges pd ranges) in
  let '(merged, purges) := emit_partition gc maxp pd (partition_delete_key carriers) acc in
  (sort_by (row_order (mc_schema cfg)) merged, purges).
End Merge.
