(* ===== verification/PartitionProps.v ===== *)
(** Properties of the partition merge: what range and partition deletions shadow,
    what survives, which markers go back into the output, and in what order. *)

From S2P Require Import Prelude Values Keys MergeModel Reconcile.
From S2P Require Import ReconcileSpec ReconcileProps RangeTombstones PartitionMerge.

Open Scope Z_scope.

(** ** The map's key order on typed keys *)

Section KeyOrder.
Context `{DebugFmt} (schema : TableSchema) (ts : list CTy).

Lemma ck_cmp_values ts' (a b : ClusteringKey) :
  typed_prefix has_type ts' (map snd a) -> typed_prefix has_type ts' (map snd b) ->
  ck_cmp a b = list_cmp (ok_cmp compare_values) (map snd a) (map snd b).
Proof.
  unfold ck_cmp. revert a b. induction ts' as [|t ts' IH]; intros [|[n v] a] [|[m w] b]; try done.
  intros [Hv Ha] [Hw Hb]. cbn [ck_cmp_loop map snd list_cmp length Nat.compare].
  unfold fallback_value_cmp at 1.
  rewrite (total_ok (P := has_type t) (f := compare_values) v w) by done.
  destruct (ok_cmp compare_values v w); [by apply IH|done..].
Qed.

#[export] Instance ck_cmp_ord : OrdOn (ck_typed schema ts) ck_cmp.
Proof.
  eapply (ord_ext _ (fun a b => list_cmp (ok_cmp compare_values) (map snd a) (map snd b))).
  { intros a b [_ Ha] [_ Hb]. by apply (ck_cmp_values ts). }
  pose proof (list_cmp_positions has_type (ok_cmp compare_values) ts
    ltac:(apply Forall_true; intros; apply compare_values_ord)).
  apply (ord_on _ (typed_prefix has_type ts) (fun k : ClusteringKey => map snd k)
           (list_cmp (ok_cmp compare_values))).
  by intros k [_ Hk].
Qed.

(** The two orders put the same keys into one place. *)
Lemma ck_cmp_schema_eq a b :
  full_ck schema ts a -> full_ck schema ts b ->
  ck_cmp a b = Eq <-> ck_schema_cmp schema a b = Eq.
Proof.
  intros [Ha La] [Hb Lb]. rewrite (ck_schema_cmp_vals schema ts) by (done || congruence).
  destruct Ha as [Hl Ha], Hb as [_ Hb]. rewrite (ck_cmp_values ts) by done. unfold ck_vals.
  assert (La' : length a = length (map cc_order (clustering_keys schema))) by by rewrite length_map.
  assert (Lb' : length b = length (map cc_order (clustering_keys schema))) by by rewrite length_map.
  clear La Lb Hl. revert a b ts Ha Hb La' Lb'.
  induction (map cc_order (clustering_keys schema)) as [|o os IH];
    intros [|[n v] a] [|[m w] b] [|t ts'] Ha Hb La Lb; try done.
  destruct Ha as [Hv Ha], Hb as [Hw Hb]. cbn [map snd zip_with list_cmp].
  specialize (IH a b ts' Ha Hb ltac:(cbn in La; lia) ltac:(cbn in Lb; lia)).
  assert (E : ok_cmp compare_values v w = Eq <-> oval_cmp (o, v) (o, w) = Eq).
  { unfold oval_cmp. cbn [fst snd]. unfold ok_cmp.
    assert (col_compare o v w = match v, w with
      | Null, _ | _, Null => compare_values v w
      | _, _ => (ordering ← compare_values v w;
          Ok (if decide (o = Desc) then CompOpp ordering else ordering)) end) as ->
      by (destruct v, w; done).
    assert (Hrev : match (ordering ← compare_values v w;
          Ok (E := Error) (if decide (o = Desc) then CompOpp ordering else ordering)) with
        | Ok o0 => o0 | Err _ => Eq end = Eq <-> match compare_values v w with Ok o0 => o0 | Err _ => Eq end = Eq).
    { destruct (compare_values v w) as [[]|]; cbn; by destruct (decide (o = Desc)). }
    destruct v, w; (done || by rewrite Hrev). }
  destruct (ok_cmp compare_values v w), (oval_cmp (o, v) (o, w)); try done; intuition congruence.
Qed.
End KeyOrder.

(** ** Clusters *)

Section ClusterProps.
Context `{DebugFmt} (schema : TableSchema) (ts : list CTy).

Definition ck_P : option ClusteringKey -> Prop := opt_P (ck_typed schema ts).
#[local] Abbreviation kcmp := (opt_ck_cmp ck_cmp).

#[local] Instance kcmp_ord : OrdOn ck_P kcmp := opt_ck_cmp_ord (ck_typed schema ts) ck_cmp.

(** The rows of one key. *)
Definition rows_at (k : option ClusteringKey) (rows : list MergeEntry) : list MergeEntry :=
  List.filter (fun r => match kcmp (clustering_key r) k with Eq => true | _ => false end) rows.

Definition group_before (g h : option ClusteringKey * list MergeEntry) : Prop :=
  kcmp g.1 h.1 = Lt.

Definition clusters_of (k : option ClusteringKey) (m : Clusters) : list MergeEntry :=
  concat (map snd (List.filter (fun g => match kcmp g.1 k with Eq => true | _ => false end) m)).

Definition clusters_ok (m : Clusters) : Prop :=
  StronglySorted group_before m
  /\ Forall (fun g => ck_P g.1 /\ exists r, r ∈ g.2 /\ clustering_key r = g.1) m.

Lemma clusters_of_cons k g m :
  clusters_of k (g :: m)
  = (match kcmp g.1 k with Eq => g.2 | _ => [] end) ++ clusters_of k m.
Proof. unfold clusters_of. cbn. by destruct (kcmp g.1 k). Qed.

Lemma clusters_of_after k m :
  ck_P k -> clusters_ok m -> Forall (fun g => kcmp k g.1 = Lt) m -> clusters_of k m = [].
Proof.
  intros Hk [_ Hp]. induction m as [|g m IH]; intros Hf; [done|].
  apply Forall_cons in Hp as [[Hg _] Hp]. apply Forall_cons in Hf as [Hkg Hf].
  rewrite clusters_of_cons, IH by done.
  rewrite (on_sym (P := ck_P) (cmp := kcmp) k) by done. by rewrite Hkg.
Qed.

Lemma cluster_push_ok m row :
  ck_P (clustering_key row) -> clusters_ok m ->
  clusters_ok (cluster_push m row)
  /\ (forall k0, Forall (fun g => kcmp k0 g.1 = Lt) m -> kcmp k0 (clustering_key row) = Lt ->
        Forall (fun g => kcmp k0 g.1 = Lt) (cluster_push m row)).
Proof.
  intros Hr. induction m as [|[k rows] m IH]; intros [Hs Hp].
  { split.
    - split; [by repeat constructor|]. repeat constructor; [done|].
      exists row. split; [by left|done].
    - intros k0 _ Hk0. by repeat constructor. }
  pose proof (StronglySorted_inv Hs) as [Hs' Hk]. pose proof Hp as Hp0.
  apply Forall_cons in Hp as [(Hkt & r0 & Hr0 & Ek) Hp]. cbn in Hkt, Hr0, Ek.
  cbn [cluster_push]. destruct (kcmp (clustering_key row) k) eqn:E.
  - split.
    + split; [by constructor|]. constructor; [|done]. split; [done|]. exists r0. cbn.
      split; [apply elem_of_app; by left|done].
    + intros k0 Hf _. apply Forall_cons in Hf as [? ?]. by constructor.
  - split.
    + split.
      * constructor; [done|]. constructor; [done|]. eapply Forall_impl; [exact (Forall_both _ _ _ Hk Hp)|].
        intros g [Hg [Hgt _]]. unfold group_before in *. cbn in *.
        by apply (on_trans (P := ck_P) (cmp := kcmp) _ k).
      * constructor; [|done]. split; [done|]. exists row. split; [by left|done].
    + intros k0 Hf Hk0. constructor; [exact Hk0|exact Hf].
  - destruct (IH (conj Hs' Hp)) as [[I1 I2] I3]. split.
    + split; [constructor; [done|]|].
      * apply I3; [done|]. by apply (on_gt_lt (P := ck_P) kcmp).
      * constructor; [|done]. by apply Forall_cons in Hp0 as [? _].
    + intros k0 Hf Hk0. apply Forall_cons in Hf as [? ?]. constructor; [done|]. by apply I3.
Qed.

Lemma cluster_push_of m row k :
  ck_P k -> ck_P (clustering_key row) -> clusters_ok m ->
  clusters_of k (cluster_push m row)
  = clusters_of k m ++ (match kcmp (clustering_key row) k with Eq => [row] | _ => [] end).
Proof.
  intros Hk Hr. induction m as [|[k' rows] m IH]; intros [Hs Hp].
  { cbn [cluster_push]. rewrite clusters_of_cons. cbn. by destruct (kcmp _ k). }
  pose proof (StronglySorted_inv Hs) as [Hs' Hb]. pose proof Hp as Hp0.
  apply Forall_cons in Hp as [[Hkt _] Hp]. cbn in Hkt. cbn [cluster_push].
  assert (Hafter : kcmp k' k = Eq -> clusters_of k m = []).
  { intros Ee. apply clusters_of_after; [done|done|].
    eapply Forall_impl; [exact (Forall_both _ _ _ Hb Hp)|]. intros g [Hg [Hgt _]].
    unfold group_before in Hg. cbn in Hg.
    rewrite <- (on_eq_l (P := ck_P) (cmp := kcmp) k' k g.1) by done. done. }
  destruct (kcmp (clustering_key row) k') eqn:E.
  - rewrite !clusters_of_cons. cbn [fst snd].
    rewrite (on_eq_l (P := ck_P) (cmp := kcmp) (clustering_key row) k' k) by done.
    destruct (kcmp k' k) eqn:Ek; [|by rewrite app_nil_r..].
    rewrite Hafter by done. by rewrite !app_nil_r.
  - rewrite (clusters_of_cons k (clustering_key row, [row])). cbn [fst snd].
    destruct (kcmp (clustering_key row) k) eqn:Ek; [|by rewrite app_nil_r..].
    rewrite (clusters_of_after k ((k', rows) :: m)); [done|done|done|].
    assert (Hkk' : kcmp k k' = Lt)
      by (by rewrite <- (on_eq_l (P := ck_P) (cmp := kcmp) (clustering_key row) k k')).
    constructor; [done|].
    eapply Forall_impl; [exact (Forall_both _ _ _ Hb Hp)|]. intros g [Hg [Hgt _]].
    by apply (on_trans (P := ck_P) (cmp := kcmp) k k').
  - rewrite !clusters_of_cons, IH by done. by rewrite app_assoc.
Qed.

Definition rows_typed (rows : list MergeEntry) : Prop :=
  Forall (fun r => ck_P (clustering_key r)) rows.

Lemma clusters_spec rows :
  rows_typed rows ->
  let m := foldl cluster_push [] rows in
  clusters_ok m /\ forall k, ck_P k -> clusters_of k m = rows_at k rows.
Proof.
  intros Ht. cbv zeta. induction rows as [|r rows IH] using rev_ind.
  { split; [by repeat constructor|done]. }
  apply Forall_app in Ht as [Ht [Hr _]%Forall_cons]. destruct (IH Ht) as [Hok Hof].
  rewrite foldl_app. cbn [foldl]. split; [by apply cluster_push_ok|].
  intros k Hk. rewrite cluster_push_of, Hof by done. unfold rows_at.
  rewrite List.filter_app. cbn. f_equal. by destruct (kcmp _ k).
Qed.

(** Every group holds exactly the rows of its key. *)
Lemma cluster_group_rows rows g :
  rows_typed rows -> g ∈ foldl cluster_push [] rows ->
  g.2 = rows_at g.1 rows /\ ck_P g.1 /\ exists r, r ∈ rows /\ clustering_key r = g.1.
Proof.
  intros Ht Hg. destruct (clusters_spec rows Ht) as [[Hs Hp] Hof].
  rewrite Forall_forall in Hp. destruct (Hp g Hg) as [Hgt (r & Hr & Hrk)].
  assert (E : g.2 = rows_at g.1 rows).
  { rewrite <- Hof by done. clear Hof r Hr Hrk. induction Hs as [|h m Hs IH Hb]; [by apply elem_of_nil in Hg|].
    rewrite clusters_of_cons. apply elem_of_cons in Hg as [->|Hg].
    - rewrite (on_refl (P := ck_P) (cmp := kcmp)) by done.
      rewrite clusters_of_after; [by rewrite app_nil_r|done| |done].
      split; [done|]. apply Forall_forall. intros x Hx. apply Hp. by right.
    - rewrite <- IH; [|done|by intros x Hx; apply Hp; right].
      rewrite Forall_forall in Hb. specialize (Hb g Hg). unfold group_before in Hb. by rewrite Hb. }
  split; [done|]. split; [done|]. exists r. split; [|done]. rewrite E in Hr.
  unfold rows_at in Hr. by apply elem_of_filter_b in Hr as [? _].
Qed.

Lemma cluster_row_group rows r :
  rows_typed rows -> r ∈ rows ->
  exists g, g ∈ foldl cluster_push [] rows /\ kcmp g.1 (clustering_key r) = Eq.
Proof.
  intros Ht Hr. destruct (clusters_spec rows Ht) as [_ Hof].
  assert (Hk : ck_P (clustering_key r)) by (unfold rows_typed in Ht; rewrite Forall_forall in Ht; by apply Ht).
  assert (Hin : r ∈ clusters_of (clustering_key r) (foldl cluster_push [] rows)).
  { rewrite Hof by done. apply elem_of_filter_b. split; [done|].
    by rewrite (on_refl (P := ck_P) (cmp := kcmp)). }
  unfold clusters_of in Hin. apply list_elem_of_In, in_concat in Hin as (l & Hl & _).
  apply in_map_iff in Hl as (g & _ & [Hg Hc]%filter_In). exists g. rewrite list_elem_of_In.
  split; [done|]. by destruct (kcmp g.1 _).
Qed.
End ClusterProps.

(** ** What a deletion floor leaves *)

Definition out_complex (o : option MergeEntry) : list ComplexDeletion :=
  match o with Some e => complex_deletions e | None => [] end.

(** Each piece of the entry is judged by its own timestamp. *)
Definition shadow_sound (floor : Z) (marker_live : bool) (e : MergeEntry) (o : option MergeEntry) : Prop :=
  (forall c, is_data_cell (clustering_key e) c = true ->
     c ∈ out_cells o <-> c ∈ row_cells (row_data e) /\ floor < timestamp c)
  /\ (forall d l, out_row_del o = Some (d, l) <-> out_row_del (Some e) = Some (d, l) /\ floor < d)
  /\ (forall cd, cd ∈ out_complex o -> cd ∈ complex_deletions e /\ floor < marked_for_delete_at cd)
  /\ (forall cd, cd ∈ complex_deletions e -> floor < marked_for_delete_at cd ->
        cd ∈ out_complex o
        \/ exists d l, out_row_del o = Some (d, l) /\ floor < d /\ out_cells o = [])
  /\ (forall e', o = Some e' ->
        clustering_key e' = clustering_key e /\ me_key e' = me_key e /\ run_index e' = run_index e
        /\ partition_deletion e' = None /\ range_deletion e' = None
        /\ (forall cells, row_data e' = Live cells -> cells <> [] -> marker_live = true ->
              row_liveness e' = row_liveness e)
        /\ (marker_live = false -> row_liveness e' = liveness_default)).

Lemma gtb_lt a b : (a >? b) = true <-> b < a.
Proof. rewrite Z.gtb_ltb. apply Z.ltb_lt. Qed.

Lemma is_empty_false {A} (l : list A) x : x ∈ l -> is_empty l = false.
Proof. destruct l; [by intros ?%elem_of_nil|done]. Qed.

Lemma existsb_false {A} (p : A -> bool) l x : existsb p l = false -> x ∈ l -> p x = false.
Proof.
  intros E Hx. destruct (p x) eqn:P; [|done].
  rewrite <- E. symmetry. apply existsb_exists. exists x. by rewrite <- list_elem_of_In.
Qed.

(** A row tombstone under a floor. *)
Lemma shadow_tombstone floor ml e d l :
  row_data e = RTombstone d l -> shadow_sound floor ml e (shadow_by_floor floor ml e).
Proof.
  intros Er. unfold shadow_by_floor, shadow_sound. rewrite Er. cbn [out_row_del row_cells].
  rewrite Er.
  set (sc := List.filter _ _).
  assert (Hsc : forall cd, cd ∈ sc <-> cd ∈ complex_deletions e /\ floor < marked_for_delete_at cd)
    by (intros cd; unfold sc; by rewrite elem_of_filter_b, gtb_lt).
  destruct (d >? floor) eqn:Ed.
  - apply gtb_lt in Ed.
    assert (Hc : complex_deletions (if negb (is_empty sc)
        then with_complex_deletions (entry_new (run_index e) (me_key e) (clustering_key e) d (RTombstone d l)) sc
        else entry_new (run_index e) (me_key e) (clustering_key e) d (RTombstone d l)) = sc)
      by (by destruct sc).
    split_and!.
    + intros c _. destruct (negb (is_empty sc)); cbn; split; try (by intros [?%elem_of_nil ?]);
        by intros ?%elem_of_nil.
    + intros d' l'. destruct (negb (is_empty sc)); cbn; split; try (by intros [[= <- <-] ?]);
        by intros [= <- <-].
    + intros cd Hcd. apply Hsc. unfold out_complex in Hcd. by rewrite Hc in Hcd.
    + intros cd Hcd Hf. left. unfold out_complex. rewrite Hc. by apply Hsc.
    + intros e' [= <-]. destruct (negb (is_empty sc)); cbn; split_and!; done.
  - assert (Hd : ~ floor < d) by (rewrite <- gtb_lt; by rewrite Ed).
    destruct sc as [|cd0 sc'] eqn:Es; cbn [is_empty negb].
    + split_and!; try done.
      * intros c _. cbn. split; [by intros ?%elem_of_nil|by intros [?%elem_of_nil ?]].
      * intros d' l'. split; [done|]. by intros [[= <- <-] ?].
      * by intros cd ?%elem_of_nil.
      * intros cd Hcd Hf. exfalso. apply (elem_of_nil cd). apply Hsc. done.
    + split_and!.
      * intros c _. cbn. split; [by intros ?%elem_of_nil|by intros [?%elem_of_nil ?]].
      * intros d' l'. cbn. split; [done|]. by intros [[= <- <-] ?].
      * intros cd Hcd. by apply Hsc.
      * intros cd Hcd Hf. left. by apply Hsc.
      * intros e' [= <-]. cbn. split_and!; try done. by intros cells [= <-].
Qed.

(** A live row whose data cells are all under the floor, and whose marker is too. *)
Lemma shadow_live_covered floor e cells :
  row_data e = Live cells ->
  existsb (is_data_cell (clustering_key e))
    (List.filter (fun c => negb (is_data_cell (clustering_key e) c) || (timestamp c >? floor)) cells) = false ->
  shadow_sound floor false e (shadow_by_floor floor false e).
Proof.
  intros Er Hd. unfold shadow_by_floor, shadow_sound. rewrite Er, Hd.
  cbn [negb andb out_row_del row_cells]. rewrite Er.
  set (sc := List.filter (fun cd => marked_for_delete_at cd >? floor) _).
  assert (Hsc : forall cd, cd ∈ sc <-> cd ∈ complex_deletions e /\ floor < marked_for_delete_at cd)
    by (intros cd; unfold sc; by rewrite elem_of_filter_b, gtb_lt).
  assert (Hno : forall c, is_data_cell (clustering_key e) c = true -> c ∈ cells -> ~ floor < timestamp c).
  { intros c Hc Hin Hf. apply (existsb_false _ _ c) in Hd; [congruence|].
    apply elem_of_filter_b. split; [done|]. by rewrite orb_true_iff, gtb_lt, negb_true_iff; right. }
  assert (Hcells : forall c, is_data_cell (clustering_key e) c = true ->
            c ∈ ([] : list CellData) <-> c ∈ cells /\ floor < timestamp c).
  { intros c Hc. split; [by intros ?%elem_of_nil|]. intros [Hin Hf]. by destruct (Hno c Hc Hin). }
  destruct (row_deletion e) as [[dt ldt]|].
  1: destruct (dt >? floor) eqn:Ed.
  1: { apply gtb_lt in Ed. split_and!; cbn.
    - exact Hcells.
    - intros d' l'. split; [by intros [= <- <-]|by intros [[= <- <-] ?]].
    - by intros cd ?%elem_of_nil.
    - intros cd Hcd Hf. right. by exists dt, ldt.
    - intros e' [= <-]. by split_and!. }
  1: assert (Hrd : forall d l, Some (dt, ldt) = Some (d, l) /\ floor < d -> False)
       by (intros d l [[= <- <-] Hf]; apply gtb_lt in Hf; congruence).
  all: destruct sc as [|cd0 sc'] eqn:Es; cbn [is_empty negb];
    (split_and!; [exact Hcells | | | |]).
  all: try (intros d' l'; split; [done|]; intros Hx; (by destruct (Hrd d' l' Hx)) || by destruct Hx).
  all: try (intros cd Hcd; by apply Hsc).
  all: try (intros cd Hcd Hf; left; by apply Hsc).
  all: try done.
  all: intros e' [= <-]; split_and!; try done; by intros cells' [= <-].
Qed.

(** A live row that keeps a data cell or its marker. *)
Lemma shadow_live_kept floor ml e cells :
  row_data e = Live cells ->
  existsb (is_data_cell (clustering_key e))
    (List.filter (fun c => negb (is_data_cell (clustering_key e) c) || (timestamp c >? floor)) cells)
  || ml = true ->
  shadow_sound floor ml e (shadow_by_floor floor ml e).
Proof.
  intros Er Hd. unfold shadow_by_floor, shadow_sound. rewrite Er.
  rewrite <- negb_orb, Hd. cbn [negb out_row_del row_cells]. rewrite Er. clear Hd.
  set (sc := List.filter (fun cd => marked_for_delete_at cd >? floor) _).
  assert (Hsc : forall cd, cd ∈ sc <-> cd ∈ complex_deletions e /\ floor < marked_for_delete_at cd)
    by (intros cd; unfold sc; by rewrite elem_of_filter_b, gtb_lt).
  set (kept := List.filter _ cells).
  assert (Hkept : forall c, is_data_cell (clustering_key e) c = true ->
                    c ∈ kept <-> c ∈ cells /\ floor < timestamp c).
  { intros c Hc. unfold kept. rewrite elem_of_filter_b, Hc. cbn. by rewrite gtb_lt. }
  generalize (if existsb (is_data_cell (clustering_key e)) kept
              then max_timestamp (List.filter (is_data_cell (clustering_key e)) kept) (me_timestamp e)
              else me_timestamp e). intros ts.
  set (rebuilt := with_row_liveness _ _).
  set (r := if negb (is_empty sc) then with_complex_deletions rebuilt sc else rebuilt).
  assert (Hr : row_data r = Live kept /\ complex_deletions r = sc /\ row_deletion r = None
               /\ clustering_key r = clustering_key e /\ me_key r = me_key e
               /\ run_index r = run_index e /\ partition_deletion r = None /\ range_deletion r = None
               /\ row_liveness r = if ml then row_liveness e else liveness_default)
    by (unfold r; destruct sc; by split_and!).
  clearbody r. clear rebuilt. destruct Hr as (R1 & R2 & R3 & R4 & R5 & R6 & R7 & R8 & R9).
  destruct (row_deletion e) as [[dt ldt]|]; [destruct (dt >? floor) eqn:Ed|].
  all: split_and!; cbn [out_cells out_complex out_row_del with_row_deletion row_data complex_deletions
         row_deletion]; rewrite ?R1, ?R2, ?R3.
  all: try exact Hkept.
  all: try (intros cd Hcd; by apply Hsc).
  all: try (intros cd Hcd Hf; left; by apply Hsc).
  all: try (intros e' [= <-]; cbn; rewrite ?R4, ?R5, ?R6, ?R7, ?R8, ?R9; split_and!; try done;
            by destruct ml).
  - apply gtb_lt in Ed. intros d l. split; [by intros [= <- <-]|by intros [? ?]].
  - intros d l. split; [done|]. intros [[= <- <-] Hf]. apply gtb_lt in Hf. congruence.
  - intros d l. split; [done|]. by intros [? ?].
Qed.

Lemma shadow_by_floor_sound floor ml e : shadow_sound floor ml e (shadow_by_floor floor ml e).
Proof.
  destruct (row_data e) as [cells|d l] eqn:Er; [|by apply (shadow_tombstone _ _ _ d l)].
  destruct (existsb (is_data_cell (clustering_key e))
    (List.filter (fun c => negb (is_data_cell (clustering_key e) c) || (timestamp c >? floor)) cells)
    || ml) eqn:Ed.
  - by apply (shadow_live_kept _ _ _ cells).
  - apply orb_false_iff in Ed as [Ed ->]. by apply (shadow_live_covered _ _ cells).
Qed.

(** The partition deletion is an exact floor: of a reconciled entry,
    [apply_partition_shadowing] keeps the data cells, the row deletion and the complex
    deletions strictly newer than the deletion and nothing else; a newer complex
    deletion is only left out beside a newer row tombstone of a row without cells; the
    primary-key marker is kept exactly when its own timestamp is newer. *)
Theorem partition_shadow_exact e m l :
  shadow_sound m (marker_survives_floor (row_liveness e) (me_timestamp e) m) e
    (apply_partition_shadowing e (Some (m, l))).
Proof. apply shadow_by_floor_sound. Qed.

(** Range shadowing applies the deletions the inputs carried: with the
    coalesced ranges of a partition, a row covered by none is untouched, and a covered
    row keeps exactly what is strictly newer than the greatest deletion time of the
    original ranges that cover its clustering key. *)
Theorem range_shadow_exact `{DebugFmt} schema ts e ck rts
    (Hk : clustering_key e = Some ck) (Hck : full_ck schema ts ck)
    (Hrts : Forall (fun p => rt_typed schema ts p.2) rts) :
  match covering_time schema ck (at_key (key (me_key e)) rts) with
  | Some floor =>
      shadow_sound floor (me_timestamp e >? floor) e
        (apply_range_shadowing schema e (coalesce_range_tombstones schema rts))
  | None => apply_range_shadowing schema e (coalesce_range_tombstones schema rts) = Some e
  end.
Proof.
  rewrite <- (range_floor_time schema ts rts (me_key e) ck) by done.
  unfold apply_range_shadowing. rewrite Hk.
  destruct (coalesce_range_tombstones schema rts) as [|p l]; [done|]. cbn [is_empty].
  destruct (range_floor schema (me_key e) ck (p :: l)) as [floor|]; [|done].
  apply shadow_by_floor_sound.
Qed.

(** A row of [asc_schema] at [c1 = 4], one cell on each side of the covering range. *)
Definition sample_row : MergeEntry :=
  with_row_liveness
    (entry_new 0 sample_key (Some (sample_ck 4)) 25
       (Live [cell_new "v" (Integer 1) 25; cell_new "w" (Integer 2) 15]))
    (mkRowLiveness true None (Some 15)).

Lemma range_shadow_exact_witness :
  out_cells (@apply_range_shadowing sample_debug asc_schema sample_row
               (@coalesce_range_tombstones sample_debug asc_schema sample_ranges))
    = [cell_new "v" (Integer 1) 25]
  /\ shadow_sound 20 (me_timestamp sample_row >? 20) sample_row
       (@apply_range_shadowing sample_debug asc_schema sample_row
          (@coalesce_range_tombstones sample_debug asc_schema sample_ranges)).
Proof.
  split; [vm_compute; reflexivity|].
  exact (@range_shadow_exact sample_debug asc_schema [TInt] sample_row (sample_ck 4) sample_ranges
           eq_refl (sample_full 4) sample_ranges_typed).
Defined.

(** The two shadowing functions judge a marker differently: the marker of
    [sample_row], written at 15, is dropped by a partition deletion at 20 and kept by a
    range deletion at 20. *)
Example range_keeps_older_marker :
  option_map row_liveness
    (@apply_range_shadowing sample_debug asc_schema sample_row
       (@coalesce_range_tombstones sample_debug asc_schema sample_ranges))
    = Some (mkRowLiveness true None (Some 15))
  /\ option_map row_liveness (apply_partition_shadowing sample_row (Some (20, 0)))
    = Some liveness_default.
Proof. split; vm_compute; reflexivity. Qed.

(** Under a floor that covers the marker, a row deletion hides a newer deletion of a
    collection: the entry holds the row deletion at 20 and the complex deletion at 30,
    both above the floor, and only the row tombstone is left. *)
Example shadowing_drops_complex :
  let e := with_row_deletion
             (with_complex_deletions (entry_new 0 sample_key (Some (sample_ck 4)) 25
                (Live [cell_new "c1" (Integer 4) 25]))
                [mkComplexDeletion "m" 30 0]) 20 0 in
  apply_partition_shadowing (with_row_liveness e (mkRowLiveness true None (Some 5))) (Some (10, 0))
  = Some (entry_new 0 sample_key (Some (sample_ck 4)) 20 (RTombstone 20 0)).
Proof. vm_compute. reflexivity. Qed.

(** ** The shape of the output *)

Section Output.
Context `{DebugFmt}.

Definition eff_gc (cfg : MergerConfig) : option Z := (effective_gc_settings cfg).1.
Definition eff_maxp (cfg : MergerConfig) : Z := (effective_gc_settings cfg).2.

(** What one cluster contributes. *)
Definition survivor (cfg : MergerConfig) (ranges : list (DecoratedKey * RangeTombstone))
    (pd : option (Z * Z)) (g : option ClusteringKey * list MergeEntry) : option MergeEntry :=
  match spec_merge g.1 g.2 (dropped_columns (mc_schema cfg)) (eff_gc cfg) (eff_maxp cfg) (now_secs cfg) with
  | Some e =>
      match apply_range_shadowing (mc_schema cfg) e ranges with
      | Some s => apply_partition_shadowing s pd
      | None => None
      end
  | None => None
  end.

Lemma merge_clusters_fst cfg ranges pd m acc :
  (foldl (merge_cluster cfg ranges pd) acc m).1 = acc.1 ++ omap (survivor cfg ranges pd) m.
Proof.
  revert acc. induction m as [|g m IH]; intros [merged purges]; [by rewrite app_nil_r|].
  cbn [foldl]. rewrite IH. cbn [omap list_omap]. unfold merge_cluster, survivor at 2.
  unfold eff_gc, eff_maxp. destruct (effective_gc_settings cfg) as [gc maxp].
  rewrite <- (reconcile_spec _ _ _ _ _ _ purges).
  destruct (reconcile_cluster_with_overlap_counted _ _ _ _ _ _ _) as [[e|] p']; cbn [fst snd]; [|done].
  destruct (apply_range_shadowing _ e ranges) as [s|]; [|done].
  destruct (apply_partition_shadowing s pd) as [x|]; [|done]. by rewrite <- app_assoc.
Qed.

Definition range_carrier (p : DecoratedKey * RangeTombstone) : MergeEntry :=
  with_range_deletion (entry_new usize_MAX p.1 None (rt_deletion_time p.2) (Live [])) p.2.

Definition range_kept (cfg : MergerConfig) (p : DecoratedKey * RangeTombstone) : bool :=
  negb (purges_marker (eff_gc cfg) (eff_maxp cfg) (rt_deletion_time p.2) (rt_local_deletion_time p.2)).

Lemma emit_ranges_fst cfg l acc :
  (foldl (emit_range (eff_gc cfg) (eff_maxp cfg)) acc l).1
  = acc.1 ++ map range_carrier (List.filter (range_kept cfg) l).
Proof.
  revert acc. induction l as [|[k rt] l IH]; intros [merged purges]; [by rewrite app_nil_r|].
  cbn [foldl]. rewrite IH. cbn [List.filter]. unfold emit_range, range_kept at 2. cbn [fst snd].
  destruct (purges_marker _ _ _ _); [done|]. cbn [map negb fst]. by rewrite <- app_assoc.
Qed.

Definition partition_carrier (k : DecoratedKey) (pd : Z * Z) : MergeEntry :=
  with_partition_deletion (entry_new usize_MAX k None pd.1 (RTombstone pd.1 pd.2)) pd.

Definition partition_out (cfg : MergerConfig) (pd : option (Z * Z)) (pk : option DecoratedKey)
    : list MergeEntry :=
  match pd, pk with
  | Some d, Some k =>
      if purges_marker (eff_gc cfg) (eff_maxp cfg) d.1 d.2 then [] else [partition_carrier k d]
  | _, _ => []
  end.

(** The ranges of the inputs, coalesced. *)
Definition input_ranges (cfg : MergerConfig) (rows : list MergeEntry) :=
  coalesce_range_tombstones (mc_schema cfg) (carrier_ranges (scan_partition_carriers rows)).
Definition input_pd (rows : list MergeEntry) : option (Z * Z) :=
  max_partition_deletion (scan_partition_carriers rows).

Lemma merge_partition_shape cfg rows :
  (merge_partition_rows cfg rows).1
  = sort_by (row_order (mc_schema cfg))
      (omap (survivor cfg (input_ranges cfg rows) (input_pd rows)) (cluster_rows_of rows)
       ++ map range_carrier
            (List.filter (range_kept cfg) (retain_ranges (input_pd rows) (input_ranges cfg rows)))
       ++ partition_out cfg (input_pd rows) (partition_delete_key (scan_partition_carriers rows))).
Proof.
  unfold merge_partition_rows.
  destruct (effective_gc_settings cfg) as [gc maxp] eqn:Eg.
  assert (Egc : gc = eff_gc cfg) by (unfold eff_gc; by rewrite Eg).
  assert (Emx : maxp = eff_maxp cfg) by (unfold eff_maxp; by rewrite Eg).
  fold (input_pd rows) (input_ranges cfg rows). rewrite Egc, Emx.
  set (acc := foldl (emit_range _ _) _ _).
  assert (Ea : acc.1 = omap (survivor cfg (input_ranges cfg rows) (input_pd rows)) (cluster_rows_of rows)
       ++ map range_carrier (List.filter (range_kept cfg) (retain_ranges (input_pd rows) (input_ranges cfg rows)))).
  { unfold acc. rewrite emit_ranges_fst, merge_clusters_fst. done. }
  destruct acc as [merged purges]. cbn [fst] in Ea. unfold emit_partition, partition_out.
  destruct (input_pd rows) as [[m l]|]; [|by cbn; rewrite app_nil_r, Ea].
  destruct (partition_delete_key _) as [k|]; [|by cbn; rewrite app_nil_r, Ea].
  cbn [fst snd]. destruct (purges_marker _ _ _ _); cbn [fst].
  - by rewrite app_nil_r, Ea.
  - by rewrite Ea, app_assoc.
Qed.

Lemma merge_partition_elem cfg rows e :
  e ∈ (merge_partition_rows cfg rows).1 <->
  (exists g, g ∈ cluster_rows_of rows /\ survivor cfg (input_ranges cfg rows) (input_pd rows) g = Some e)
  \/ (exists p, p ∈ retain_ranges (input_pd rows) (input_ranges cfg rows)
        /\ range_kept cfg p = true /\ e = range_carrier p)
  \/ e ∈ partition_out cfg (input_pd rows) (partition_delete_key (scan_partition_carriers rows)).
Proof.
  rewrite merge_partition_shape, (sort_by_perm (row_order (mc_schema cfg))), !elem_of_app.
  rewrite list_elem_of_omap, list_elem_of_fmap.
  split; (intros [Hc|[Hr|Hp]]; [by left|right; left|right; right; done]).
  - destruct Hr as (p & -> & [Hp Hk]%elem_of_filter_b). eauto.
  - destruct Hr as (p & Hp & Hk & ->). exists p. by rewrite elem_of_filter_b.
Qed.
End Output.

(** ** The carriers of the inputs *)

Definition pd_times (rows : list MergeEntry) : list Z :=
  omap (fun r => option_map fst (partition_deletion r)) rows.

(** The range a row carries, when it is a range carrier. *)
Definition marker_range (r : MergeEntry) : option (DecoratedKey * RangeTombstone) :=
  match partition_deletion r with
  | Some _ => None
  | None => if is_range_marker_carrier r
            then option_map (fun rt => (me_key r, rt)) (range_deletion r) else None
  end.
Definition marker_ranges (rows : list MergeEntry) : list (DecoratedKey * RangeTombstone) :=
  omap marker_range rows.

Lemma omap_snoc {A B} (f : A -> option B) l x :
  omap f (l ++ [x]) = omap f l ++ opt_list (f x).
Proof. rewrite omap_app. cbn. by destruct (f x). Qed.

Lemma scan_spec rows :
  carrier_ranges (scan_partition_carriers rows) = marker_ranges rows
  /\ option_map fst (max_partition_deletion (scan_partition_carriers rows))
     = foldl opt_max None (pd_times rows)
  /\ (is_some (max_partition_deletion (scan_partition_carriers rows))
      = is_some (partition_delete_key (scan_partition_carriers rows))).
Proof.
  unfold scan_partition_carriers, marker_ranges, pd_times.
  induction rows as [|r rows (IH1 & IH2 & IH3)] using rev_ind; [done|].
  rewrite foldl_app, !omap_snoc. cbn [foldl]. set (c := foldl _ _ _) in *. clearbody c.
  unfold scan_carrier, marker_range.
  destruct (partition_deletion r) as [[m l]|]; cbn [option_map opt_list fst].
  - cbn [carrier_ranges max_partition_deletion partition_delete_key].
    rewrite app_nil_r, foldl_app, <- IH2. cbn [foldl]. split; [done|]. split.
    + destruct (max_partition_deletion c) as [[cm cl]|]; [|done]. cbn.
      destruct (Z.geb_spec cm m); cbn; f_equal; lia.
    + destruct (max_partition_deletion c) as [[cm cl]|], (partition_delete_key c); try done;
        by destruct (cm >=? m).
  - rewrite app_nil_r. destruct (is_range_marker_carrier r); [|by rewrite app_nil_r].
    destruct (range_deletion r); cbn; [by rewrite IH1|by rewrite app_nil_r].
Qed.

(** The partition deletion that is kept is one of the inputs', with both its times. *)
Lemma scanned_deletion rows d :
  max_partition_deletion (scan_partition_carriers rows) = Some d ->
  exists r, r ∈ rows /\ partition_deletion r = Some d.
Proof.
  unfold scan_partition_carriers. revert d. induction rows as [|r rows IH] using rev_ind; intros d; [done|].
  rewrite foldl_app. cbn [foldl]. set (c := foldl _ _ _) in *. clearbody c.
  assert (Hold : forall d', max_partition_deletion c = Some d' -> exists r', r' ∈ rows ++ [r] /\ partition_deletion r' = Some d').
  { intros d' (r' & Hr & E)%IH. exists r'. split; [apply elem_of_app; by left|done]. }
  unfold scan_carrier. destruct (partition_deletion r) as [[m l]|] eqn:Er.
  - cbn [max_partition_deletion].
    assert (Hnew : exists r', r' ∈ rows ++ [r] /\ partition_deletion r' = Some (m, l)).
    { exists r. split; [apply elem_of_app; right; by left|done]. }
    destruct (max_partition_deletion c) as [[cm cl]|]; [destruct (cm >=? m)|]; intros [= <-]; auto.
  - destruct (is_range_marker_carrier r); [destruct (range_deletion r)|]; apply Hold.
Qed.

Section Survivors.
Context `{DebugFmt} (schema : TableSchema) (ts : list CTy).

(** The inputs of one partition: rows with all their clustering columns, of their
    types, and typed range tombstones. *)
Record partition_input (k : DecoratedKey) (rows : list MergeEntry) : Prop := {
  in_key : forall r, r ∈ rows -> me_key r = k;
  in_ck : forall r ck, r ∈ rows -> clustering_key r = Some ck -> full_ck schema ts ck;
  in_ranges : forall r rt, r ∈ rows -> range_deletion r = Some rt -> rt_typed schema ts rt;
}.

Lemma in_rows_typed k rows : partition_input k rows -> rows_typed schema ts rows.
Proof.
  intros Hin. apply Forall_forall. intros r Hr. unfold ck_P, opt_P.
  destruct (clustering_key r) as [ck|] eqn:E; [|done]. by apply (in_ck k rows Hin r ck).
Qed.

Lemma in_marker_ranges k rows :
  partition_input k rows ->
  Forall (fun p => rt_typed schema ts p.2) (marker_ranges rows)
  /\ Forall (fun p => key p.1 = key k) (marker_ranges rows).
Proof.
  intros Hin.
  assert (Hm : forall p, p ∈ marker_ranges rows ->
            exists r, r ∈ rows /\ range_deletion r = Some p.2 /\ me_key r = p.1).
  { intros p (r & Hr & Ep)%list_elem_of_omap. exists r. split; [done|]. unfold marker_range in Ep.
    destruct (partition_deletion r); [done|]. destruct (is_range_marker_carrier r); [|done].
    destruct (range_deletion r); [|done]. by injection Ep as <-. }
  split; apply Forall_forall; intros p Hp; destruct (Hm p Hp) as (r & Hr & E & Ek).
  - by apply (in_ranges k rows Hin r).
  - rewrite <- Ek. by rewrite (in_key k rows Hin r).
Qed.

Lemma spec_merge_fields ck rows dropped gc maxp now e :
  spec_merge ck rows dropped gc maxp now = Some e ->
  clustering_key e = ck /\ partition_deletion e = None
  /\ exists r, r ∈ rows /\ me_key e = me_key r.
Proof.
  unfold spec_merge. destruct rows as [|r rows]; [done|].
  destruct (spec_row _ _ _ _ _ _) as [[[t rd] rdel]|]; [|done]. intros [= <-].
  split; [done|]. split; [done|]. exists r. split; [by left|done].
Qed.

(** The entry after one or both floors: the same key and clustering key, and of the
    data cells those above the floors. *)
Definition above (o : option Z) (c : CellData) : Prop := forall f, o = Some f -> f < timestamp c.

Lemma partition_shadow_cells e pd c :
  is_data_cell (clustering_key e) c = true ->
  c ∈ out_cells (apply_partition_shadowing e pd)
  <-> c ∈ row_cells (row_data e) /\ above (option_map fst pd) c.
Proof.
  intros Hc. unfold above. destruct pd as [[m l]|]; cbn.
  - destruct (shadow_by_floor_sound m
      (marker_survives_floor (row_liveness e) (me_timestamp e) m) e) as [Hcells _].
    rewrite Hcells by done. split; [intros [? ?]; split; [done|]; by intros f [= <-]|].
    intros [? Hf]. split; [done|]. by apply Hf.
  - split; [|tauto]. intros. by split.
Qed.

Lemma partition_shadow_keys e pd e' :
  apply_partition_shadowing e pd = Some e' ->
  clustering_key e' = clustering_key e /\ me_key e' = me_key e
  /\ (partition_deletion e = None -> partition_deletion e' = None)
  /\ (range_deletion e = None -> range_deletion e' = None).
Proof.
  destruct pd as [[m l]|]; cbn; [|by intros [= <-]]. intros E.
  destruct (shadow_by_floor_sound m
      (marker_survives_floor (row_liveness e) (me_timestamp e) m) e) as (_ & _ & _ & _ & Hk).
  destruct (Hk _ E) as (? & ? & _ & ? & ? & _). done.
Qed.

Lemma range_shadow_keys e ranges e' :
  apply_range_shadowing schema e ranges = Some e' ->
  clustering_key e' = clustering_key e /\ me_key e' = me_key e
  /\ (partition_deletion e = None -> partition_deletion e' = None)
  /\ (range_deletion e = None -> range_deletion e' = None).
Proof.
  unfold apply_range_shadowing. destruct (is_empty ranges); [by intros [= <-]|].
  destruct (clustering_key e) as [ck|] eqn:Ek; [|intros [= <-]; by rewrite Ek].
  destruct (range_floor _ _ _ _) as [f|]; [|intros [= <-]; by rewrite Ek]. intros E.
  destruct (shadow_by_floor_sound f (me_timestamp e >? f) e) as (_ & _ & _ & _ & Hk).
  destruct (Hk _ E) as (Hck & ? & _ & ? & ? & _). by rewrite Hck, Ek.
Qed.

Lemma range_shadow_cells e rts c :
  (forall ck, clustering_key e = Some ck -> full_ck schema ts ck) ->
  Forall (fun p => rt_typed schema ts p.2) rts ->
  is_data_cell (clustering_key e) c = true ->
  c ∈ out_cells (apply_range_shadowing schema e (coalesce_range_tombstones schema rts))
  <-> c ∈ row_cells (row_data e)
      /\ forall ck, clustering_key e = Some ck ->
           above (covering_time schema ck (at_key (key (me_key e)) rts)) c.
Proof.
  intros Hck Hrts Hc. unfold apply_range_shadowing.
  destruct (clustering_key e) as [ck|] eqn:Ek.
  2: { assert ((if is_empty (coalesce_range_tombstones schema rts) then Some e else Some e) = Some e)
         as -> by (by destruct (is_empty _)). cbn. split; [done|tauto]. }
  specialize (Hck ck eq_refl).
  rewrite <- Ek in Hc.
  destruct (coalesce_range_tombstones schema rts) as [|p l] eqn:El; cbn [is_empty].
  { cbn. split; [|tauto]. intros. split; [done|]. intros ck' [= <-].
    rewrite <- (range_floor_time schema ts rts), El by done. by intros f. }
  rewrite <- El. rewrite (range_floor_time schema ts rts) by done. unfold above.
  destruct (covering_time schema ck _) as [f|] eqn:Ef.
  - destruct (shadow_by_floor_sound f (me_timestamp e >? f) e) as [Hcells _].
    rewrite Hcells by done. split.
    + intros [? ?]. split; [done|]. intros ck' [= <-] f'. rewrite Ef. by intros [= <-].
    + intros [? Hf]. split; [done|]. by apply (Hf ck).
  - cbn. split; [|tauto]. intros. split; [done|]. intros ck' [= <-] f'. by rewrite Ef.
Qed.

(** What survives in one cluster. *)
Lemma survivor_cells cfg k rows pd ck grp c :
  mc_schema cfg = schema -> partition_input k rows ->
  (forall r, r ∈ grp -> me_key r = k) ->
  (forall ck', ck = Some ck' -> full_ck schema ts ck') ->
  is_data_cell ck c = true ->
  c ∈ out_cells (survivor cfg (coalesce_range_tombstones schema (marker_ranges rows)) pd (ck, grp))
  <-> c ∈ out_cells (spec_merge ck grp (dropped_columns schema) (eff_gc cfg) (eff_maxp cfg) (now_secs cfg))
      /\ (forall ck', ck = Some ck' -> above (covering_time schema ck' (map snd (marker_ranges rows))) c)
      /\ above (option_map fst pd) c.
Proof.
  intros Hs Hin Hgk Hck Hc. unfold survivor. cbn [fst snd]. rewrite Hs.
  destruct (in_marker_ranges k rows Hin) as [Htyped Hkeys].
  destruct (spec_merge ck grp _ _ _ _) as [e|] eqn:Em.
  2: { cbn. split; [by intros ?%elem_of_nil|by intros [?%elem_of_nil _]]. }
  destruct (spec_merge_fields _ _ _ _ _ _ _ Em) as (Ek & _ & r & Hr & Ekey).
  rewrite (Hgk r Hr) in Ekey. cbn [out_cells].
  pose proof (range_shadow_cells e (marker_ranges rows) c
    ltac:(intros ck' E'; apply Hck; by rewrite <- Ek) Htyped ltac:(by rewrite Ek)) as Hrange.
  rewrite Ekey, (at_key_all (key k)) in Hrange by done. rewrite Ek in Hrange.
  destruct (apply_range_shadowing schema e _) as [s|] eqn:Es.
  - destruct (range_shadow_keys _ _ _ Es) as (Ks & _).
    rewrite partition_shadow_cells by (by rewrite Ks, Ek).
    cbn [out_cells] in Hrange. rewrite Hrange. tauto.
  - cbn [out_cells] in *. split; [by intros ?%elem_of_nil|].
    intros (H1 & H2 & _). by apply Hrange.
Qed.
End Survivors.

(** ** End to end *)

Section EndToEnd.
Context `{DebugFmt} (cfg : MergerConfig) (ts : list CTy) (k : DecoratedKey) (rows : list MergeEntry).
#[local] Abbreviation schema := (mc_schema cfg).
#[local] Abbreviation kcmp := (opt_ck_cmp ck_cmp).

(** The input rows a clustering key's row is merged from. *)
Definition at_ck (ck : option ClusteringKey) (r : MergeEntry) : Prop :=
  r ∈ rows /\ is_clustered r = true /\ kcmp (clustering_key r) ck = Eq.

Lemma at_ck_rows ck r : r ∈ rows_at ck (List.filter is_clustered rows) <-> at_ck ck r.
Proof.
  unfold rows_at, at_ck. rewrite !elem_of_filter_b. destruct (kcmp _ ck); intuition congruence.
Qed.

Lemma clustered_typed :
  partition_input schema ts k rows -> rows_typed schema ts (List.filter is_clustered rows).
Proof.
  intros Hin. apply in_rows_typed in Hin. unfold rows_typed in *. rewrite Forall_forall in *.
  intros r [Hr _]%elem_of_filter_b. by apply Hin.
Qed.

Lemma cluster_facts g :
  partition_input schema ts k rows -> g ∈ cluster_rows_of rows ->
  g.2 = rows_at g.1 (List.filter is_clustered rows)
  /\ (forall r, r ∈ g.2 -> me_key r = k)
  /\ (forall ck, g.1 = Some ck -> full_ck schema ts ck)
  /\ exists r, at_ck g.1 r /\ clustering_key r = g.1.
Proof.
  intros Hin Hg.
  destruct (cluster_group_rows schema ts _ g (clustered_typed Hin) Hg) as (E & Hk & r & Hr & Er).
  split; [done|]. split.
  { intros r'. rewrite E, at_ck_rows. intros (Hr' & _). by apply (in_key _ _ k rows Hin). }
  apply elem_of_filter_b in Hr as [Hr Hcl]. split.
  - intros ck Eck. rewrite Eck in Er. by apply (in_ck _ _ k rows Hin r).
  - exists r. split; [|done]. split; [done|]. split; [done|]. rewrite Er.
    by apply (on_refl (P := ck_P schema ts) (cmp := kcmp)).
Qed.

(** The survivors of the clusters, with the inputs' own ranges. *)
Lemma survivor_cells_in g c :
  partition_input schema ts k rows -> g ∈ cluster_rows_of rows -> is_data_cell g.1 c = true ->
  c ∈ out_cells (survivor cfg (input_ranges cfg rows) (input_pd rows) g)
  <-> c ∈ out_cells (spec_merge g.1 g.2 (dropped_columns schema) (eff_gc cfg) (eff_maxp cfg) (now_secs cfg))
      /\ (forall ck, g.1 = Some ck -> above (covering_time schema ck (map snd (marker_ranges rows))) c)
      /\ above (foldl opt_max None (pd_times rows)) c.
Proof.
  intros Hin Hg Hc. destruct (cluster_facts g Hin Hg) as (_ & Hk & Hck & _).
  destruct (scan_spec rows) as (E1 & E2 & _). unfold input_ranges, input_pd. rewrite E1, <- E2.
  destruct g as [ck grp]. by apply (survivor_cells schema ts cfg k rows).
Qed.

Lemma survivor_key pd ranges g e :
  survivor cfg ranges pd g = Some e ->
  clustering_key e = g.1 /\ partition_deletion e = None
  /\ exists r, r ∈ g.2 /\ me_key e = me_key r.
Proof.
  unfold survivor. destruct (spec_merge _ _ _ _ _ _) as [x|] eqn:Em; [|done].
  destruct (spec_merge_fields _ _ _ _ _ _ _ Em) as (Ek & Epd & r & Hr & Ekey).
  destruct (apply_range_shadowing _ x ranges) as [s|] eqn:Es; [|done]. intros Ep.
  destruct (range_shadow_keys _ _ _ _ Es) as (K1 & K2 & K3 & _).
  destruct (partition_shadow_keys _ _ _ Ep) as (L1 & L2 & L3 & _).
  rewrite L1, K1, L2, K2. split; [done|]. split; [auto|]. by exists r.
Qed.

Lemma above_opt_max l c : above (foldl opt_max None l) c <-> forall x, x ∈ l -> x < timestamp c.
Proof.
  unfold above. destruct (foldl opt_max None l) as [m|] eqn:E.
  - apply opt_max_some in E as [Hm Hmax]. split.
    + intros Hf x Hx. specialize (Hf m eq_refl). specialize (Hmax x Hx). lia.
    + intros Hf f [= <-]. by apply Hf.
  - apply opt_max_none in E as ->. split; [by intros _ x ?%elem_of_nil|done].
Qed.

Lemma pd_times_elem t : t ∈ pd_times rows <-> exists r l, r ∈ rows /\ partition_deletion r = Some (t, l).
Proof.
  unfold pd_times. rewrite list_elem_of_omap. split.
  - intros (r & Hr & E). destruct (partition_deletion r) as [[m l]|] eqn:Ep; [|done].
    injection E as <-. by exists r, l.
  - intros (r & l & Hr & E). exists r. by rewrite E.
Qed.

Lemma covering_elem ck t :
  t ∈ map rt_deletion_time (List.filter (range_tombstone_covers_ck schema ck) (map snd (marker_ranges rows)))
  <-> exists r p, r ∈ rows /\ marker_range r = Some p
        /\ range_tombstone_covers_ck schema ck p.2 = true /\ rt_deletion_time p.2 = t.
Proof.
  rewrite list_elem_of_fmap. split.
  - intros (rt & -> & [Hrt Hc]%elem_of_filter_b). apply list_elem_of_fmap in Hrt as (p & -> & Hp).
    apply list_elem_of_omap in Hp as (r & Hr & Ep). by exists r, p.
  - intros (r & p & Hr & Ep & Hc & <-). exists p.2. split; [done|]. apply elem_of_filter_b.
    split; [|done]. apply list_elem_of_fmap_2. apply list_elem_of_omap. by exists r.
Qed.

Lemma carrier_no_cells e c :
  (exists p, e = range_carrier p) \/ e ∈ partition_out cfg (input_pd rows)
     (partition_delete_key (scan_partition_carriers rows)) ->
  ~ c ∈ row_cells (row_data e).
Proof.
  intros [[p ->]|He] Hc; [by apply elem_of_nil in Hc|].
  unfold partition_out in He.
  destruct (input_pd rows); [|by apply elem_of_nil in He].
  destruct (partition_delete_key _); [|by apply elem_of_nil in He].
  destruct (purges_marker _ _ _ _); [by apply elem_of_nil in He|].
  apply list_elem_of_singleton in He as ->. by apply elem_of_nil in Hc.
Qed.
End EndToEnd.

(** C2: No resurrection in a partition. The inputs are the rows of one partition; their
    clustering keys have a value (or null) for each clustering column, of its type, one of
    those [compare_values] orders, and the bounds of their ranges have values of those
    types. Then every data cell of the merged partition
    comes from an input row of the same clustering key and is the newest of its column
    and path there, and it is strictly newer than every row deletion of that key, than every complex
    deletion of its own column at that key if it is an element of a collection (has a path),
    than every range marker of the inputs that covers the key, and than every partition
    deletion of the inputs. *)
Theorem partition_no_resurrection `{DebugFmt} cfg ts k rows e c
    (Hin : partition_input (mc_schema cfg) ts k rows)
    (He : e ∈ (merge_partition_rows cfg rows).1)
    (Hc : c ∈ row_cells (row_data e)) (Hdata : is_data_cell (clustering_key e) c = true) :
  (exists r w, at_ck rows (clustering_key e) r /\ w ∈ row_cells (row_data r)
     /\ cell_key w = cell_key c /\ timestamp w = timestamp c
     /\ (c = w \/ is_cell_tombstone c = true))
  /\ (forall r x, at_ck rows (clustering_key e) r -> x ∈ row_cells (row_data r) ->
        cell_key x = cell_key c -> timestamp x <= timestamp c)
  /\ (forall r d, at_ck rows (clustering_key e) r -> d ∈ row_dels [r] -> fst d < timestamp c)
  /\ (cell_path c <> None -> forall r cd, at_ck rows (clustering_key e) r -> cd ∈ complex_deletions r ->
        cd_column cd = column c -> marked_for_delete_at cd < timestamp c)
  /\ (forall r m l, r ∈ rows -> partition_deletion r = Some (m, l) -> m < timestamp c)
  /\ (forall r p ck, r ∈ rows -> marker_range r = Some p -> clustering_key e = Some ck ->
        range_tombstone_covers_ck (mc_schema cfg) ck p.2 = true -> rt_deletion_time p.2 < timestamp c).
Proof.
  apply merge_partition_elem in He as [(g & Hg & Hsv)|[(p & _ & _ & ->)|He]].
  2: by destruct (carrier_no_cells cfg rows (range_carrier p) c); [left; by exists p|].
  2: by destruct (carrier_no_cells cfg rows e c); [by right|].
  destruct (survivor_key _ _ _ _ _ Hsv) as (Ek & _). rewrite Ek in *.
  destruct (cluster_facts cfg ts k rows g Hin Hg) as (E2 & _).
  assert (Hall : c ∈ out_cells (survivor cfg (input_ranges cfg rows) (input_pd rows) g)) by by rewrite Hsv.
  apply (survivor_cells_in cfg ts k) in Hall as (Hm & Hr & Hp); [|done..].
  destruct (spec_merge g.1 g.2 _ _ _ _) as [x|] eqn:Em; [|by apply elem_of_nil in Hm].
  rewrite <- (reconcile_spec _ _ _ _ _ _ purges_default) in Em.
  destruct (reconciled_cell _ _ _ _ _ _ _ _ _ Em Hm) as ((w & Hw & W1 & W2 & W3) & N & D & C & _).
  rewrite E2 in *.
  assert (Hcells : forall y, y ∈ all_cells (rows_at g.1 (List.filter is_clustered rows))
            <-> exists r, at_ck rows g.1 r /\ y ∈ row_cells (row_data r)).
  { intros y. unfold all_cells. rewrite list_elem_of_In, in_concat. split.
    - intros (l & Hl & Hy). apply in_map_iff in Hl as (r & <- & Hrr). exists r.
      rewrite list_elem_of_In. split; [|done]. apply at_ck_rows. by apply list_elem_of_In.
    - intros (r & Hrr & Hy). exists (row_cells (row_data r)). rewrite <- list_elem_of_In.
      split; [|by apply list_elem_of_In]. apply (list_elem_of_fmap_2 (fun r => row_cells (row_data r))).
      by apply at_ck_rows. }
  split_and!.
  - apply Hcells in Hw as (r & Hrr & Hw). by exists r, w.
  - intros r y Hrr Hy Hky. apply N; [|done]. apply Hcells. by exists r.
  - intros r d Hrr Hd. apply D. apply at_ck_rows in Hrr. unfold row_dels in *.
    cbn in Hd. rewrite app_nil_r in Hd. apply list_elem_of_In, in_concat.
    eexists. split; [|by apply list_elem_of_In; exact Hd].
    apply (in_map (fun e => opt_list (row_deletion e) ++ opt_list (tombstone_del (row_data e)))).
    by apply list_elem_of_In.
  - intros Hpath r cd Hrr. apply (C Hpath). by apply at_ck_rows.
  - intros r m l Hrr Epd. apply (proj1 (above_opt_max _ c) Hp), pd_times_elem. by exists r, l.
  - intros r p ck Hrr Emr Eck Hcov. specialize (Hr ck Eck). unfold covering_time in Hr.
    apply (above_opt_max _ c) with (x := rt_deletion_time p.2) in Hr; [done|].
    apply covering_elem. by exists r, p.
Qed.

(** ** Nothing is lost *)

(** Nothing is lost in a partition. A data cell of a clustered row that wins
    its column and path among the rows of its clustering key, is strictly newer than the
    row and complex deletions of that key, than the covering range tombstones and the
    partition deletions of the inputs and the drop time of its column, has not expired
    and is not a purgeable tombstone, is in the merged row of its clustering key. *)
Theorem partition_no_loss `{DebugFmt} cfg ts k rows r c
    (Hin : partition_input (mc_schema cfg) ts k rows)
    (Hr : r ∈ rows) (Hcl : is_clustered r = true)
    (Hsame : forall r', r' ∈ rows ->
       opt_ck_cmp ck_cmp (clustering_key r') (clustering_key r) = Eq ->
       clustering_key r' = clustering_key r)
    (Hdata : is_data_cell (clustering_key r) c = true)
    (Hwin : winner (rows_at (clustering_key r) (List.filter is_clustered rows)) (cell_key c) = Some c)
    (Hnew : newer_than_deletions (rows_at (clustering_key r) (List.filter is_clustered rows)) c)
    (Hpd : forall r' m l, r' ∈ rows -> partition_deletion r' = Some (m, l) -> m < timestamp c)
    (Hrange : forall r' p ck, r' ∈ rows -> marker_range r' = Some p -> clustering_key r = Some ck ->
       range_tombstone_covers_ck (mc_schema cfg) ck p.2 = true -> rt_deletion_time p.2 < timestamp c)
    (Hdrop : forall t, dropped_columns (mc_schema cfg) !! column c = Some t -> t < timestamp c)
    (Hexp : not_expired (now_secs cfg) c) (Hpurge : not_purgeable (eff_gc cfg) (eff_maxp cfg) c) :
  exists e, e ∈ (merge_partition_rows cfg rows).1
    /\ clustering_key e = clustering_key r /\ c ∈ row_cells (row_data e).
Proof.
  set (schema := mc_schema cfg) in *.
  destruct (cluster_row_group schema ts (List.filter is_clustered rows) r) as (g & Hg & Eg);
    [by apply (clustered_typed cfg ts k rows)|by apply elem_of_filter_b|].
  change (g ∈ cluster_rows_of rows) in Hg.
  destruct (cluster_facts cfg ts k rows g Hin Hg) as (E2 & _ & _ & r0 & (Hr0 & _ & _) & Er0).
  assert (Ek : g.1 = clustering_key r) by (rewrite <- Er0 in *; by apply Hsame).
  rewrite Ek in *. rewrite <- E2 in *.
  destruct (kept_cell g.1 g.2 (dropped_columns schema) (eff_gc cfg) (eff_maxp cfg) (now_secs cfg)
              purges_default c) as (x & Hx & Hcx); try done; [by rewrite Ek|].
  rewrite reconcile_spec in Hx.
  assert (Hs : c ∈ out_cells (survivor cfg (input_ranges cfg rows) (input_pd rows) g)).
  { apply (survivor_cells_in cfg ts k); [done|done|by rewrite Ek|]. fold schema. rewrite Hx.
    split; [done|]. split.
    - intros ck Eck. rewrite Ek in Eck. unfold covering_time. apply above_opt_max.
      intros t (r' & p & Hr' & Ep & Hc & <-)%covering_elem. by apply (Hrange r' p ck).
    - apply above_opt_max. intros t (r' & l & Hr' & Ep)%pd_times_elem. by apply (Hpd r' t l). }
  destruct (survivor cfg _ _ g) as [e|] eqn:Es; [|by apply elem_of_nil in Hs].
  exists e. split; [apply merge_partition_elem; left; by exists g|].
  destruct (survivor_key _ _ _ _ _ Es) as (Kc & _). by rewrite Kc.
Qed.

(** ** Deletions persist *)

(** The deletions of the markers among some rows, at a clustering key. *)
Definition marker_floor `{DebugFmt} (schema : TableSchema) (ck : ClusteringKey)
    (rows : list MergeEntry) : option Z :=
  foldl opt_max None
    (pd_times rows
     ++ map rt_deletion_time
          (List.filter (range_tombstone_covers_ck schema ck) (map snd (marker_ranges rows)))).

Section Markers.
Context `{DebugFmt} (cfg : MergerConfig) (ts : list CTy) (k : DecoratedKey) (rows : list MergeEntry).
#[local] Abbreviation schema := (mc_schema cfg).

Lemma marker_floor_elem rs ck t :
  t ∈ pd_times rs ++ map rt_deletion_time
        (List.filter (range_tombstone_covers_ck schema ck) (map snd (marker_ranges rs)))
  <-> exists r, r ∈ rs /\ ((exists l, partition_deletion r = Some (t, l))
        \/ exists p, marker_range r = Some p
             /\ range_tombstone_covers_ck schema ck p.2 = true /\ rt_deletion_time p.2 = t).
Proof.
  rewrite elem_of_app, pd_times_elem, (covering_elem cfg). split.
  - intros [(r & l & Hr & E)|(r & p & Hr & E)]; exists r; eauto.
  - intros (r & Hr & [(l & E)|(p & E)]); [left|right]; eauto.
Qed.

(** A row deletion kept out of the clusters leaves no carrier behind. *)
Lemma survivor_no_marker g e :
  (forall r, r ∈ rows -> is_clustered r = true -> range_deletion r = None) ->
  partition_input schema ts k rows -> g ∈ cluster_rows_of rows ->
  survivor cfg (input_ranges cfg rows) (input_pd rows) g = Some e ->
  partition_deletion e = None /\ marker_range e = None.
Proof.
  intros Hno Hin Hg Hs. destruct (survivor_key _ _ _ _ _ Hs) as (_ & Hpd & _).
  split; [done|]. unfold marker_range. rewrite Hpd.
  assert (Hrd : range_deletion e = None).
  { unfold survivor in Hs. destruct (spec_merge g.1 g.2 _ _ _ _) as [x|] eqn:Em; [|done].
    assert (Hx : range_deletion x = None).
    { rewrite (proj2 (spec_merge_meta _ _ _ _ _ _ _ Em)). unfold spec_range.
      apply first_max_none.
      destruct (cluster_facts cfg ts k rows g Hin Hg) as (E2 & _). rewrite E2.
      assert (Hall : forall r, r ∈ rows_at g.1 (List.filter is_clustered rows) -> range_deletion r = None).
      { intros r (Hr & Hc & _)%at_ck_rows. by apply Hno. }
      clear E2 Em; induction (rows_at g.1 _) as [|r l IH]; [done|]. cbn.
      rewrite Hall by (by left). apply IH. intros r' Hr'. apply Hall. by right. }
    destruct (apply_range_shadowing _ x _) as [s|] eqn:Es; [|done].
    destruct (range_shadow_keys _ _ _ _ Es) as (_ & _ & _ & K).
    destruct (partition_shadow_keys _ _ _ Hs) as (_ & _ & _ & L). auto. }
  rewrite Hrd. by destruct (is_range_marker_carrier e).
Qed.

Lemma out_markers r t ck :
  (forall r, r ∈ rows -> is_clustered r = true -> range_deletion r = None) ->
  partition_input schema ts k rows ->
  r ∈ (merge_partition_rows cfg rows).1 ->
  ((exists l, partition_deletion r = Some (t, l))
   \/ exists p, marker_range r = Some p
        /\ range_tombstone_covers_ck schema ck p.2 = true /\ rt_deletion_time p.2 = t) ->
  option_map fst (input_pd rows) = Some t
  \/ exists p, p ∈ input_ranges cfg rows
       /\ range_tombstone_covers_ck schema ck p.2 = true /\ rt_deletion_time p.2 = t.
Proof.
  intros Hno Hin [(g & Hg & Hs)|[(p & Hp & _ & ->)|Hr]]%merge_partition_elem Hm.
  - destruct (survivor_no_marker g r Hno Hin Hg Hs) as [E1 E2]. rewrite E1, E2 in Hm.
    by destruct Hm as [[? ?]|(? & ? & _)].
  - right. destruct Hm as [[? ?]|(q & Eq & Hc & Ht)]; [done|].
    cbn in Eq. injection Eq as <-. exists p. split; [|done].
    unfold retain_ranges in Hp. destruct (input_pd rows) as [[m l]|]; [|done].
    by apply elem_of_filter_b in Hp as [? _].
  - left. unfold partition_out in Hr. destruct (input_pd rows) as [[m l]|]; [|by apply elem_of_nil in Hr].
    destruct (partition_delete_key _); [|by apply elem_of_nil in Hr].
    destruct (purges_marker _ _ _ _); [by apply elem_of_nil in Hr|].
    apply list_elem_of_singleton in Hr as ->. destruct Hm as [[l' [= <- _]]|(q & Eq & _)]; done.
Qed.

Lemma purges_marker_iff gc maxp t l :
  purges_marker gc maxp t l = true <-> marker_purged gc maxp t l.
Proof.
  unfold purges_marker, marker_purged. destruct gc as [g|].
  - rewrite andb_true_iff, !Z.ltb_lt. split; [eauto|]. by intros (? & [= <-] & ?).
  - split; [done|]. by intros (? & ? & _).
Qed.
Lemma opt_max_bound l x : x ∈ l -> exists m, foldl opt_max None l = Some m /\ m ∈ l /\ x <= m.
Proof.
  intros Hx. destruct (foldl opt_max None l) as [m|] eqn:E.
  - apply opt_max_some in E as [Hm Hmax]. exists m. split; [done|]. split; [done|by apply Hmax].
  - apply opt_max_none in E as ->. by apply elem_of_nil in Hx.
Qed.

(** The coalesced ranges cover as the inputs' own do. *)
Lemma input_ranges_cov ck :
  partition_input schema ts k rows -> full_ck schema ts ck ->
  covering_time schema ck (map snd (input_ranges cfg rows))
  = covering_time schema ck (map snd (marker_ranges rows)).
Proof.
  intros Hin Hck. destruct (in_marker_ranges schema ts k rows Hin) as [Htyped Hkeys].
  unfold input_ranges. rewrite (proj1 (scan_spec rows)).
  pose proof (coalesce_at_key schema (marker_ranges rows) (key k)) as E.
  rewrite (at_key_all (key k) (marker_ranges rows)) in E by done.
  rewrite <- (coalesce_partition_coverage schema ts ck (map snd (marker_ranges rows))), <- E;
    [|done|by apply Forall_map].
  rewrite at_key_all; [done|]. apply Forall_forall. intros p Hp.
  destruct (coalesce_key_in _ _ _ Hp) as (q & Hq & <-).
  rewrite Forall_forall in Hkeys. by apply Hkeys.
Qed.

Lemma markers_not_stronger ck t' :
  (forall r, r ∈ rows -> is_clustered r = true -> range_deletion r = None) ->
  partition_input schema ts k rows -> full_ck schema ts ck ->
  marker_floor schema ck (merge_partition_rows cfg rows).1 = Some t' ->
  exists t, marker_floor schema ck rows = Some t /\ t' <= t.
Proof.
  intros Hno Hin Hck [Ht' _]%opt_max_some. apply marker_floor_elem in Ht' as (r & Hr & Hm).
  assert (Hx : exists x, x ∈ pd_times rows ++ map rt_deletion_time
      (List.filter (range_tombstone_covers_ck schema ck) (map snd (marker_ranges rows)))
      /\ t' <= x).
  { destruct (out_markers r t' ck Hno Hin Hr Hm) as [Hp|(p & Hp & Hc & <-)].
    - unfold input_pd in Hp. rewrite (proj1 (proj2 (scan_spec rows))) in Hp.
      apply opt_max_some in Hp as [Hp _]. exists t'. split; [apply elem_of_app; by left|lia].
    - destruct (opt_max_bound (map rt_deletion_time (List.filter (range_tombstone_covers_ck schema ck)
                  (map snd (input_ranges cfg rows)))) (rt_deletion_time p.2)) as (m & Em & _ & Hle).
      { apply list_elem_of_fmap_2, elem_of_filter_b. split; [|done]. by apply list_elem_of_fmap_2. }
      pose proof (input_ranges_cov ck Hin Hck) as Ecov. unfold covering_time in Ecov.
      rewrite Em in Ecov. symmetry in Ecov. apply opt_max_some in Ecov as [Hm' _].
      exists m. split; [apply elem_of_app; by right|done]. }
  destruct Hx as (x & Hx & Hlx). destruct (opt_max_bound _ x Hx) as (m & Em & _ & Hle).
  exists m. split; [exact Em|lia].
Qed.

(** A coalesced range that covers a key has both its times from one input marker. *)
Lemma input_range_origin ck p :
  partition_input schema ts k rows -> full_ck schema ts ck ->
  p ∈ input_ranges cfg rows -> range_tombstone_covers_ck schema ck p.2 = true ->
  exists r q, r ∈ rows /\ marker_range r = Some q /\ range_tombstone_covers_ck schema ck q.2 = true
    /\ rt_deletion_time q.2 = rt_deletion_time p.2 /\ rt_local_deletion_time q.2 = rt_local_deletion_time p.2.
Proof.
  intros Hin Hck Hp Hc. destruct (in_marker_ranges schema ts k rows Hin) as [Htyped Hkeys].
  unfold input_ranges in Hp. rewrite (proj1 (scan_spec rows)) in Hp.
  assert (Hat : p.2 ∈ at_key (key k) (coalesce_range_tombstones schema (marker_ranges rows))).
  { unfold at_key. apply list_elem_of_fmap_2, elem_of_filter_b. split; [done|]. apply bool_decide_eq_true.
    destruct (coalesce_key_in _ _ _ Hp) as (q & Hq & <-). rewrite Forall_forall in Hkeys. by apply Hkeys. }
  rewrite coalesce_at_key, (at_key_all (key k) (marker_ranges rows)) in Hat by done.
  destruct (coalesce_partition_origin schema ts ck (map snd (marker_ranges rows)) p.2) as (rt & Hrt & Hrc & E1 & E2);
    [done|by apply Forall_map|done|done|].
  apply list_elem_of_fmap in Hrt as (q & -> & Hq). apply list_elem_of_omap in Hq as (r & Hr & Eq). by exists r, q.
Qed.

(** One of the inputs' markers that deletes the key [ck] at time [t] is purged for its own
    local deletion time. *)
Definition marker_purged_at (ck : ClusteringKey) (t : Z) : Prop :=
  exists r l, r ∈ rows /\ marker_purged (eff_gc cfg) (eff_maxp cfg) t l
    /\ (partition_deletion r = Some (t, l)
        \/ exists p, marker_range r = Some p /\ range_tombstone_covers_ck schema ck p.2 = true
             /\ rt_deletion_time p.2 = t /\ rt_local_deletion_time p.2 = l).

Lemma markers_kept ck t :
  (forall r, r ∈ rows -> is_clustered r = true -> range_deletion r = None) ->
  partition_input schema ts k rows -> full_ck schema ts ck ->
  marker_floor schema ck rows = Some t ->
  marker_floor schema ck (merge_partition_rows cfg rows).1 = Some t
  \/ marker_purged_at ck t.
Proof.
  intros Hno Hin Hck Ht.
  assert (Hout : (exists r, r ∈ (merge_partition_rows cfg rows).1
                    /\ ((exists l, partition_deletion r = Some (t, l))
                        \/ exists p, marker_range r = Some p
                          /\ range_tombstone_covers_ck schema ck p.2 = true /\ rt_deletion_time p.2 = t))
                 \/ marker_purged_at ck t).
  { destruct (scan_spec rows) as (_ & E2 & E3).
    fold (input_pd rows) in E2, E3.
    pose proof Ht as [Hel Hmax]%opt_max_some. apply elem_of_app in Hel as Hel'.
    destruct (decide (foldl opt_max None (pd_times rows) = Some t)) as [Epd|Npd].
    - rewrite Epd in E2. destruct (input_pd rows) as [[m l]|] eqn:Ei; [|done]. injection E2 as ->.
      destruct (partition_delete_key (scan_partition_carriers rows)) as [pk|] eqn:Epk; [|done].
      destruct (purges_marker (eff_gc cfg) (eff_maxp cfg) t l) eqn:Ep.
      + right. destruct (scanned_deletion rows (t, l) Ei) as (r & Hr & Er).
        exists r, l. split; [done|]. split; [by apply purges_marker_iff|by left].
      + left. exists (partition_carrier pk (t, l)). split; [|by left; exists l].
        apply merge_partition_elem. right. right. unfold partition_out. rewrite Ei, Epk. cbn [fst snd].
        rewrite Ep. by left.
    - assert (Hlt : forall m l, input_pd rows = Some (m, l) -> m < t).
      { intros m l Ei. rewrite Ei in E2. cbn in E2. symmetry in E2.
        pose proof E2 as [Hm _]%opt_max_some.
        assert (m <= t) by (apply Hmax, elem_of_app; by left).
        assert (m <> t) by (intros ->; done). lia. }
      assert (Hcov : covering_time schema ck (map snd (input_ranges cfg rows)) = Some t).
      { rewrite input_ranges_cov by done. apply opt_max_some. split.
        - destruct Hel' as [Hp|Hp]; [|done]. exfalso.
          destruct (opt_max_bound _ t Hp) as (m & Em & Hm & Hle).
          assert (m <= t) by (apply Hmax, elem_of_app; by left).
          assert (m = t) as -> by lia. done.
        - intros x Hx. apply Hmax, elem_of_app. by right. }
      apply opt_max_some in Hcov as [Hc _].
      apply list_elem_of_fmap in Hc as (rt & -> & [Hrt Hc]%elem_of_filter_b).
      apply list_elem_of_fmap in Hrt as (p & -> & Hp).
      destruct (range_kept cfg p) eqn:Ek.
      + left. exists (range_carrier p). split.
        * apply merge_partition_elem. right. left. exists p. split_and!; [|done..].
          unfold retain_ranges. destruct (input_pd rows) as [[m l]|] eqn:Ei; [|done].
          apply elem_of_filter_b. split; [done|]. apply gtb_lt. by apply (Hlt m l).
        * right. exists p. by destruct p.
      + right. destruct (input_range_origin ck p Hin Hck Hp Hc) as (r & q & Hr & Eq & Hqc & E1' & E2').
        exists r, (rt_local_deletion_time p.2). split; [done|]. split; [|right; by exists q].
        apply purges_marker_iff. unfold range_kept in Ek. by apply negb_false_iff in Ek. }
  destruct Hout as [Hout|?]; [left|by right].
  apply (marker_floor_elem _ ck t) in Hout.
  destruct (opt_max_bound _ t Hout) as (m & Em & _ & Hle).
  assert (Hm : marker_floor schema ck (merge_partition_rows cfg rows).1 = Some m) by exact Em.
  destruct (markers_not_stronger ck m Hno Hin Hck Hm) as (t0 & Ht0 & Hle0).
  rewrite Ht in Ht0. injection Ht0 as <-. rewrite Hm. f_equal. lia.
Qed.
End Markers.

(** C17: Merging a partition neither loses nor strengthens its range and partition
    deletions. The inputs are the rows of one partition; their clustering keys have a value
    (or null) for each clustering column, of its type, one of those [compare_values] orders,
    the bounds of their ranges have values of those types, and only markers carry a range. Then at every such clustering key, the strongest
    deletion among the output's markers is the strongest among the inputs', unless an input
    marker that deletes the key at this very time is purged, which takes that marker's own
    local deletion time before the gc cutoff and its timestamp below the overlap
    bound; no output marker is stronger. Without purging the two are equal. *)
Theorem markers_preserved `{DebugFmt} cfg ts k rows ck
    (Hin : partition_input (mc_schema cfg) ts k rows) (Hck : full_ck (mc_schema cfg) ts ck)
    (Hno : forall r, r ∈ rows -> is_clustered r = true -> range_deletion r = None) :
  let out := (merge_partition_rows cfg rows).1 in
  (forall t, marker_floor (mc_schema cfg) ck rows = Some t ->
     marker_floor (mc_schema cfg) ck out = Some t
     \/ exists r l, r ∈ rows /\ marker_purged (eff_gc cfg) (eff_maxp cfg) t l
          /\ (partition_deletion r = Some (t, l)
              \/ exists p, marker_range r = Some p /\ range_tombstone_covers_ck (mc_schema cfg) ck p.2 = true
                   /\ rt_deletion_time p.2 = t /\ rt_local_deletion_time p.2 = l))
  /\ (forall t', marker_floor (mc_schema cfg) ck out = Some t' ->
        exists t, marker_floor (mc_schema cfg) ck rows = Some t /\ t' <= t)
  /\ (eff_gc cfg = None -> marker_floor (mc_schema cfg) ck out = marker_floor (mc_schema cfg) ck rows).
Proof.
  cbv zeta. split; [|split].
  - intros t. by apply markers_kept with (ts := ts) (k := k).
  - intros t'. by apply markers_not_stronger with (ts := ts) (k := k).
  - intros Hgc. destruct (marker_floor (mc_schema cfg) ck rows) as [t|] eqn:Et.
    + destruct (markers_kept cfg ts k rows ck t Hno Hin Hck Et) as [?|(r & l & _ & (g & Eg & _) & _)]; [done|].
      by rewrite Hgc in Eg.
    + destruct (marker_floor (mc_schema cfg) ck (merge_partition_rows cfg rows).1) as [t'|] eqn:Et'; [|done].
      destruct (markers_not_stronger cfg ts k rows ck t' Hno Hin Hck Et') as (t & Ht & _).
      by rewrite Et in Ht.
Qed.

(** ** The order of the output *)

Lemma ssorted_perm {A} (R : A -> A -> Prop) l l' :
  (forall x y, R x y -> R y x) -> l ≡ₚ l' -> StronglySorted R l -> StronglySorted R l'.
Proof.
  intros Hsym Hp. induction Hp as [|x l l' Hp IH|x y l|l1 l2 l3 _ IH1 _ IH2]; intros Hs; [done| | |auto].
  - apply StronglySorted_inv in Hs as [Hs Hx]. constructor; [auto|]. by rewrite <- Hp.
  - apply StronglySorted_inv in Hs as [[Hs Hx]%StronglySorted_inv [Hyx Hy]%Forall_cons].
    constructor; [by constructor|]. constructor; [by apply Hsym|done].
Qed.

Lemma ssorted_weaken {A} (R S : A -> A -> Prop) l :
  (forall x y, R x y -> S x y) -> StronglySorted R l -> StronglySorted S l.
Proof.
  intros HRS. induction 1 as [|x l _ IH Hx]; constructor; [done|].
  eapply Forall_impl; [exact Hx|]. intros y. apply HRS.
Qed.

Lemma ssorted_both {A} (R S : A -> A -> Prop) l :
  StronglySorted R l -> StronglySorted S l -> StronglySorted (fun x y => R x y /\ S x y) l.
Proof.
  induction 1 as [|x l Hl IH Hx]; intros Hs; [constructor|].
  apply StronglySorted_inv in Hs as [Hs Hx']. constructor; [auto|]. by apply Forall_and.
Qed.

Lemma ssorted_app {A} (R : A -> A -> Prop) l l' :
  StronglySorted R l -> StronglySorted R l' -> (forall x y, x ∈ l -> y ∈ l' -> R x y) ->
  StronglySorted R (l ++ l').
Proof.
  induction 1 as [|x l Hl IH Hx]; intros Hl' Hc; [done|]. cbn. constructor.
  - apply IH; [done|]. intros y z Hy. apply Hc. by right.
  - apply Forall_app. split; [done|]. apply Forall_forall. intros y. apply Hc. by left.
Qed.

Section Order.
Context `{DebugFmt} (cfg : MergerConfig) (ts : list CTy) (k : DecoratedKey) (rows : list MergeEntry).
#[local] Abbreviation schema := (mc_schema cfg).

(** Two rows with a clustering key do not share it. *)
Definition distinct_rows (a b : MergeEntry) : Prop :=
  clustering_key a = None \/ row_order schema a b <> Eq.

Lemma distinct_rows_sym a b :
  ck_P schema ts (clustering_key a) -> ck_P schema ts (clustering_key b) ->
  distinct_rows a b -> distinct_rows b a.
Proof.
  unfold distinct_rows, row_order. intros Ha Hb [E|E].
  - rewrite E. destruct (clustering_key b) as [kb|]; [right|by left]. done.
  - destruct (clustering_key b) as [kb|]; [right|by left].
    destruct (clustering_key a) as [ka|]; [|done]. cbn in *.
    rewrite (on_sym (P := ck_typed schema ts) (cmp := ck_schema_cmp schema) ka kb) by done.
    by destruct (ck_schema_cmp schema ka kb).
Qed.

Lemma survivors_distinct pd ranges :
  partition_input schema ts k rows ->
  StronglySorted distinct_rows (omap (survivor cfg ranges pd) (cluster_rows_of rows)).
Proof.
  intros Hin.
  destruct (clusters_spec schema ts _ (clustered_typed cfg ts k rows Hin)) as [[Hs _] _].
  fold (cluster_rows_of rows) in Hs.
  assert (Hfull : forall g, g ∈ cluster_rows_of rows -> forall ck, g.1 = Some ck -> full_ck schema ts ck).
  { intros g Hg. by destruct (cluster_facts cfg ts k rows g Hin Hg) as (_ & _ & ? & _). }
  induction Hs as [|g m Hs IH Hg]; [constructor|]. cbn [omap list_omap].
  assert (IH' : StronglySorted distinct_rows (omap (survivor cfg ranges pd) m)).
  { apply IH. intros h Hh. apply Hfull. by right. }
  destruct (survivor cfg ranges pd g) as [e|] eqn:Ee; [|done]. constructor; [done|].
  apply Forall_forall. intros e' (h & Hh & Eh)%list_elem_of_omap.
  destruct (survivor_key _ _ _ _ _ Ee) as (K1 & _). destruct (survivor_key _ _ _ _ _ Eh) as (K2 & _).
  rewrite Forall_forall in Hg. specialize (Hg h Hh). unfold group_before in Hg.
  unfold distinct_rows, row_order. rewrite K1, K2.
  destruct g.1 as [a|] eqn:Ega; [right|by left].
  destruct h.1 as [b|] eqn:Ehb; [|done]. cbn in *. intros E.
  rewrite <- (ck_cmp_schema_eq schema ts a b) in E; [by rewrite E in Hg| |].
  - apply (Hfull g); [by left|done].
  - apply (Hfull h); [by right|done].
Qed.
End Order.

Section SortDistinct.
Context `{DebugFmt}.

(** Sorting rows that are pairwise distinct or have no key gives a strict order. *)
Lemma sort_distinct cfg ts l :
  (forall e, e ∈ l -> ck_P (mc_schema cfg) ts (clustering_key e)) ->
  StronglySorted (fun a b => ck_P (mc_schema cfg) ts (clustering_key a) ->
                    ck_P (mc_schema cfg) ts (clustering_key b) -> distinct_rows cfg a b) l ->
  StronglySorted
    (fun a b => row_order (mc_schema cfg) a b <> Gt
                /\ (clustering_key a <> None -> row_order (mc_schema cfg) a b = Lt))
    (sort_by (row_order (mc_schema cfg)) l).
Proof.
  set (schema := mc_schema cfg). intros Hty Hd.
  apply (ssorted_perm _ _ (sort_by (row_order schema) l)) in Hd;
    [|intros a b Hab Ha Hb; by apply (distinct_rows_sym cfg ts), Hab|by rewrite sort_by_perm].
  assert (Hord : OrdOn (fun e => ck_P schema ts (clustering_key e)) (row_order schema)).
  { by apply (ord_on _ (ck_P schema ts) clustering_key (opt_ck_cmp (ck_schema_cmp schema))). }
  pose proof (sort_by_sorted (row_order schema) (fun e => ck_P schema ts (clustering_key e))
    l ltac:(by apply Forall_forall)) as Hs.
  assert (Hall : Forall (fun e => ck_P schema ts (clustering_key e)) (sort_by (row_order schema) l))
    by (rewrite sort_by_perm; by apply Forall_forall).
  pose proof (ssorted_both _ _ _ Hs Hd) as Hb.
  clear Hty. induction Hb as [|x l0 Hl IH Hx]; [constructor|].
  apply Forall_cons in Hall as [Hxt Hall]. apply StronglySorted_inv in Hd as [Hd _].
  apply StronglySorted_inv in Hs as [Hs _]. constructor; [auto|].
  eapply Forall_impl; [exact (Forall_both _ _ _ Hx Hall)|]. intros y [[Hle HR] Hyt].
  split; [done|]. intros Hne. destruct (HR Hxt Hyt) as [?|Hneq]; [done|].
  change (row_order schema x y <> Eq) in Hneq. unfold le_by in Hle.
  by destruct (row_order schema x y).
Qed.
End SortDistinct.

Lemma merge_output_order `{DebugFmt} cfg ts k rows
    :
  partition_input (mc_schema cfg) ts k rows ->
  StronglySorted
    (fun a b => row_order (mc_schema cfg) a b <> Gt
                /\ (clustering_key a <> None -> row_order (mc_schema cfg) a b = Lt))
    (merge_partition_rows cfg rows).1.
Proof.
  intros Hin.
  set (schema := mc_schema cfg) in *. rewrite merge_partition_shape. fold schema.
  set (l1 := omap _ (cluster_rows_of rows)). set (l2 := map range_carrier _).
  set (l3 := partition_out _ _ _).
  assert (Hnone : forall e, e ∈ l2 ++ l3 -> clustering_key e = None).
  { intros e [He|He]%elem_of_app.
    - by apply list_elem_of_fmap in He as (p & -> & _).
    - unfold l3, partition_out in He. destruct (input_pd rows); [|by apply elem_of_nil in He].
      destruct (partition_delete_key _); [|by apply elem_of_nil in He].
      destruct (purges_marker _ _ _ _); [by apply elem_of_nil in He|].
      by apply list_elem_of_singleton in He as ->. }
  assert (Hty : forall e, e ∈ l1 ++ l2 ++ l3 -> ck_P schema ts (clustering_key e)).
  { intros e [He|He]%elem_of_app; [|by rewrite (Hnone e He)].
    apply list_elem_of_omap in He as (g & Hg & Es). destruct (survivor_key _ _ _ _ _ Es) as (-> & _).
    destruct (cluster_facts cfg ts k rows g Hin Hg) as (_ & _ & Hf & _).
    destruct g.1 as [ck|]; [by apply Hf|done]. }
  apply (sort_distinct cfg ts); [done|]. apply ssorted_app.
  - eapply ssorted_weaken; [|by apply (survivors_distinct cfg ts k rows)].
    by intros a b Hab _ _.
  - clear -Hnone. induction (l2 ++ l3) as [|x l IH]; constructor.
    + apply IH. intros e He. apply Hnone. by right.
    + apply Forall_true. intros y _ _. left. apply Hnone. by left.
  - intros a b Ha Hb _ _. unfold distinct_rows, row_order. rewrite (Hnone b Hb).
    destruct (clustering_key a); [by right|by left].
Qed.

(** The merged partition is sorted in the schema's clustering order, entries
    without a clustering key (the static row and the markers) first, and no two of its
    rows share a clustering key. *)
Theorem merge_output_sorted `{DebugFmt} cfg ts k rows
    (Hin : partition_input (mc_schema cfg) ts k rows) :
  StronglySorted
    (fun a b => row_order (mc_schema cfg) a b <> Gt
                /\ (clustering_key a <> None -> row_order (mc_schema cfg) a b = Lt))
    (merge_partition_rows cfg rows).1.
Proof. by apply (merge_output_order cfg ts k). Qed.

(** ** A concrete partition

    Two versions of row 4, a newer row 8, a range over [1, 5] at 10 and a partition
    deletion at 12. *)

Definition sample_cfg : MergerConfig := mkConfig asc_schema None None false None.
Definition sample_v (ts : Z) : CellData := cell_new "v" (Integer ts) ts.
Definition sample_live (run ck ts : Z) (cells : list CellData) : MergeEntry :=
  entry_new run sample_key (Some (sample_ck ck)) ts (Live cells).
Definition sample_rows : list MergeEntry :=
  [ entry_new 1 sample_key None 12 (Live []);
    sample_live 0 8 20 [sample_v 20];
    sample_live 0 4 25 [sample_v 25];
    sample_live 1 4 15 [sample_v 11; cell_new "w" (Integer 2) 11] ].
Definition sample_markers : list MergeEntry :=
  [ with_partition_deletion (entry_new 0 sample_key None 12 (Live [])) (12, 5);
    with_range_deletion (entry_new 0 sample_key None 30 (Live []))
      (mkRangeTombstone (Inclusive (sample_ck 1)) (Inclusive (sample_ck 5)) 20 5) ].
Definition sample_input : list MergeEntry := sample_markers ++ sample_rows.

Lemma sample_partition : @partition_input asc_schema [TInt] sample_key sample_input.
Proof.
  split.
  - intros r Hr. repeat (apply elem_of_cons in Hr as [->|Hr]; [done|]). by apply elem_of_nil in Hr.
  - intros r ck Hr. repeat (apply elem_of_cons in Hr as [->|Hr];
      [intros E; cbn in E; try done; injection E as <-; apply sample_full|]).
    by apply elem_of_nil in Hr.
  - intros r rt Hr. repeat (apply elem_of_cons in Hr as [->|Hr];
      [intros E; cbn in E; try done; injection E as <-; repeat constructor|]).
    by apply elem_of_nil in Hr.
Qed.

(** Only the cells above both floors are left, after the markers. *)
Example sample_merged :
  map (fun e => (clustering_key e, row_data e)) (@merge_partition_rows sample_debug sample_cfg sample_input).1
  = [ (None, Live []); (None, RTombstone 12 5);
      (Some (sample_ck 4), Live [sample_v 25]); (Some (sample_ck 8), Live [sample_v 20]) ].
Proof. vm_compute. reflexivity. Qed.

Definition sample_out4 : MergeEntry :=
  with_row_liveness (sample_live 0 4 25 [sample_v 25]) liveness_default.

Lemma partition_no_resurrection_witness :
  let e := sample_out4 in
  e ∈ (@merge_partition_rows sample_debug sample_cfg sample_input).1
  /\ (forall r m l, r ∈ sample_input -> partition_deletion r = Some (m, l) -> m < timestamp (sample_v 25)).
Proof.
  assert (He : sample_out4 ∈ (@merge_partition_rows sample_debug sample_cfg sample_input).1).
  { assert (E : (@merge_partition_rows sample_debug sample_cfg sample_input).1 !! 2%nat = Some sample_out4)
      by (vm_compute; reflexivity).
    by eapply list_elem_of_lookup_2. }
  split; [exact He|].
  refine (proj1 (proj2 (proj2 (proj2 (proj2
    (@partition_no_resurrection sample_debug sample_cfg [TInt] sample_key sample_input sample_out4 (sample_v 25)
      sample_partition He _ _)))))).
  - left.
  - vm_compute. reflexivity.
Defined.

Lemma partition_no_loss_witness :
  exists e, e ∈ (@merge_partition_rows sample_debug sample_cfg sample_input).1
    /\ clustering_key e = Some (sample_ck 8) /\ sample_v 20 ∈ row_cells (row_data e).
Proof.
  apply (@partition_no_loss sample_debug sample_cfg [TInt] sample_key sample_input
           (sample_live 0 8 20 [sample_v 20]) (sample_v 20) sample_partition).
  - do 3 right. left.
  - vm_compute. reflexivity.
  - intros r Hr. repeat (apply elem_of_cons in Hr as [->|Hr]; [vm_compute; intros; done|]).
    by apply elem_of_nil in Hr.
  - vm_compute. reflexivity.
  - vm_compute. reflexivity.
  - split.
    + intros d Hd. vm_compute in Hd. by apply elem_of_nil in Hd.
    + intros _ cd Hcd. vm_compute in Hcd. by apply elem_of_nil in Hcd.
  - intros r m l Hr. repeat (apply elem_of_cons in Hr as [->|Hr];
      [intros E; cbn in E; try done; injection E as <- <-; vm_compute; reflexivity|]).
    by apply elem_of_nil in Hr.
  - intros r p ck Hr Hp Hk. injection Hk as <-.
    repeat (apply elem_of_cons in Hr as [->|Hr];
      [vm_compute in Hp; try done; injection Hp as <-; vm_compute; discriminate|]).
    by apply elem_of_nil in Hr.
  - done.
  - done.
  - done.
Defined.

Lemma markers_preserved_witness :
  @marker_floor sample_debug asc_schema (sample_ck 4) sample_input = Some 20
  /\ @marker_floor sample_debug asc_schema (sample_ck 4)
       (@merge_partition_rows sample_debug sample_cfg sample_input).1
     = @marker_floor sample_debug asc_schema (sample_ck 4) sample_input.
Proof.
  split; [vm_compute; reflexivity|].
  refine (proj2 (proj2 (@markers_preserved sample_debug sample_cfg [TInt] sample_key sample_input (sample_ck 4)
             sample_partition (sample_full 4) _)) _).
  - intros r Hr. repeat (apply elem_of_cons in Hr as [->|Hr]; [vm_compute; done|]).
    by apply elem_of_nil in Hr.
  - reflexivity.
Defined.

Lemma merge_output_sorted_witness :
  length (@merge_partition_rows sample_debug sample_cfg sample_input).1 = 4%nat
  /\ StronglySorted
       (fun a b => @row_order sample_debug asc_schema a b <> Gt
          /\ (clustering_key a <> None -> @row_order sample_debug asc_schema a b = Lt))
       (@merge_partition_rows sample_debug sample_cfg sample_input).1.
Proof.
  split; [vm_compute; reflexivity|].
  exact (@merge_output_sorted sample_debug sample_cfg [TInt] sample_key sample_input sample_partition).
Defined.
