(* ===== verification/KWay.v ===== *)
(** The k-way merger ([merge/mod.rs]): buffered run readers, the heap of the runs'
    next entries, and the step that collects one partition and merges it. *)

From S2P Require Import Prelude Values Keys MergeModel Reconcile PartitionMerge.

Open Scope Z_scope.

(** ** Size estimates *)

(** [std::mem::size_of] of the types the estimates mention, in bytes. *)
Class Layout := {
  size_of_merge_entry : Z;
  size_of_cell_data : Z;
  size_of_complex_deletion : Z;
  size_of_string : Z;
  size_of_vec : Z;
}.

Definition str_len (s : string) : Z := Z.of_nat (String.length s).
Definition sum_by {A} (f : A -> Z) (l : list A) : Z := foldl (fun acc x => acc + f x) 0 l.

Section Reader.
Context `{Layout}.

Definition estimate_value_size (v : Value) : Z :=
  match v with
  | Null => 0
  | Boolean _ => 1
  | TinyInt _ => 1
  | SmallInt _ => 2
  | Integer _ => 4
  | BigInt _ | Counter _ | Timestamp _ | Time _ => 8
  | Float32 _ => 4
  | Float _ => 8
  | Text s => zlen s + size_of_string
  | Blob b => zlen b + size_of_vec
  | Uuid _ => 16
  | Inet b => zlen b + size_of_vec
  | Varint b => zlen b + size_of_vec
  | Decimal _ unscaled => zlen unscaled + 4 + size_of_vec
  | Date _ => 4
  | Duration _ _ _ => 20
  | _ => 32
  end.

Definition estimate_entry_size (entry : MergeEntry) : Z :=
  let base_size := size_of_merge_entry in
  let key_size := zlen (key (me_key entry)) in
  let clustering_size :=
    match clustering_key entry with
    | Some ck => sum_by (fun p => str_len p.1 + estimate_value_size p.2) ck
    | None => 0
    end in
  let data_size :=
    match row_data entry with
    | Live cells =>
        sum_by (fun cell => size_of_cell_data + str_len (column cell)
                  + estimate_value_size (value cell)
                  + match cell_path cell with Some p => zlen p | None => 0 end) cells
    | RTombstone _ _ => 16
    end in
  let complex_deletion_size :=
    sum_by (fun cd => size_of_complex_deletion + str_len (cd_column cd)) (complex_deletions entry) in
  base_size + key_size + clustering_size + data_size + complex_deletion_size.

(** ** Run readers *)

(** The row iterator of a run is the sequence of results it will yield; the empty
    sequence answers [None]. *)
Record RunReader := mkRun {
  reader : list (result Error MergeEntry);
  buffer : list MergeEntry;
  buffer_size : Z;
  exhausted : bool;
}.

Definition DEFAULT_BUFFER_SIZE : Z := 8 * 1024.

Definition run_new (rows : list (result Error MergeEntry)) : RunReader :=
  mkRun rows [] DEFAULT_BUFFER_SIZE false.

Definition is_exhausted (r : RunReader) : bool := exhausted r && is_empty (buffer r).

(** [while bytes_buffered < self.buffer_size]; an error returns with the entries
    already buffered kept. *)
Fixpoint refill_loop (size bytes_buffered : Z) (buf : list MergeEntry) (ex : bool)
    (rows : list (result Error MergeEntry)) : RunReader * result Error unit :=
  if bytes_buffered <? size then
    match rows with
    | Ok entry :: rows' =>
        refill_loop size (bytes_buffered + estimate_entry_size entry) (buf ++ [entry]) ex rows'
    | Err e :: rows' => (mkRun rows' buf size ex, Err e)
    | [] => (mkRun [] buf size true, Ok tt)
    end
  else (mkRun rows buf size ex, Ok tt).

Definition refill_buffer (r : RunReader) : RunReader * result Error unit :=
  refill_loop (buffer_size r) 0 (buffer r) (exhausted r) (reader r).

(** [VecDeque::pop_front] *)
Definition pop_front (r : RunReader) : RunReader * option MergeEntry :=
  match buffer r with
  | e :: b => (mkRun (reader r) b (buffer_size r) (exhausted r), Some e)
  | [] => (r, None)
  end.

Definition advance (r : RunReader) : RunReader * result Error (option MergeEntry) :=
  match pop_front r with
  | (r', Some entry) => (r', Ok (Some entry))
  | (_, None) =>
      if negb (exhausted r) then
        match refill_buffer r with
        | (r', Ok _) => let '(r'', o) := pop_front r' in (r'', Ok o)
        | (r', Err e) => (r', Err e)
        end
      else (r, Ok None)
  end.
End Reader.

(** ** The merger *)

Record Merger := mkMerger {
  cfg : MergerConfig;
  runs : list RunReader;
  heap : list MergeEntry;
  current_partition : option DecoratedKey;
}.

Inductive MergeStep :=
| SPartition (k : DecoratedKey) (rows : list MergeEntry)
| SComplete.

Section Steps.
Context `{Layout} `{DebugFmt}.

(** [BinaryHeap<Reverse<SchemaOrderedEntry>>]: the entries in increasing order, so
    that [peek] and [pop] take the first. *)
Definition heap_push (schema : TableSchema) (e : MergeEntry) (h : list MergeEntry) :=
  insert_by (schema_entry_cmp schema) e h.

Definition with_runs_heap (st : Merger) (rs : list RunReader) (h : list MergeEntry) : Merger :=
  mkMerger (cfg st) rs h (current_partition st).

Definition refill_heap (st : Merger) (run_index : Z) : Merger * result Error unit :=
  if run_index >=? zlen (runs st) then (st, Ok tt)
  else match runs st !! Z.to_nat run_index with
  | None => (st, Ok tt)
  | Some run =>
      if negb (is_exhausted run) then
        let '(run', res) := advance run in
        let rs := <[Z.to_nat run_index := run']> (runs st) in
        match res with
        | Ok (Some entry) =>
            (with_runs_heap st rs (heap_push (mc_schema (cfg st)) entry (heap st)), Ok tt)
        | Ok None => (with_runs_heap st rs (heap st), Ok tt)
        | Err e => (with_runs_heap st rs (heap st), Err e)
        end
      else (st, Ok tt)
  end.

Fixpoint initialize_from (st : Merger) (indices : list nat) : Merger * result Error unit :=
  match indices with
  | [] => (st, Ok tt)
  | i :: indices' =>
      match refill_heap st (Z.of_nat i) with
      | (st', Ok _) => initialize_from st' indices'
      | (st', Err e) => (st', Err e)
      end
  end.

Definition initialize_heap (st : Merger) : Merger * result Error unit :=
  initialize_from st (seq 0 (length (runs st))).

(** The rows of the next partition; every round pops one entry, so the entries left
    bound the rounds. [None] is out of fuel. *)
Fixpoint collect (fuel : nat) (st : Merger) (partition_key : option DecoratedKey)
    (partition_rows : list MergeEntry)
    : option (Merger * result Error (option DecoratedKey * list MergeEntry)) :=
  match fuel with
  | O => None
  | S fuel' =>
      match heap st with
      | [] => Some (st, Ok (partition_key, partition_rows))
      | entry :: rest =>
          let boundary :=
            match partition_key with
            | Some current_key => negb (bool_decide (me_key entry = current_key))
            | None => false
            end in
          if boundary then Some (st, Ok (partition_key, partition_rows))
          else
            let partition_key :=
              match partition_key with Some k => Some k | None => Some (me_key entry) end in
            match refill_heap (with_runs_heap st (runs st) rest) (run_index entry) with
            | (st', Ok _) => collect fuel' st' partition_key (partition_rows ++ [entry])
            | (st', Err e) => Some (st', Err e)
            end
      end
  end.

(** The entries still to come. *)
Definition run_left (r : RunReader) : nat := length (buffer r) + length (reader r).
Definition entries_left (st : Merger) : nat :=
  length (heap st) + list_sum (map run_left (runs st)).

Definition step (st : Merger) : option (Merger * result Error MergeStep) :=
  let '(st, init) :=
    if is_empty (heap st) && negb (is_some (current_partition st))
    then initialize_heap st else (st, Ok tt) in
  match init with
  | Err e => Some (st, Err e)
  | Ok _ =>
      if is_empty (heap st) then Some (st, Ok SComplete)
      else match collect (S (entries_left st)) st None [] with
      | None => None
      | Some (st, Err e) => Some (st, Err e)
      | Some (st, Ok (Some k, partition_rows)) =>
          Some (st, Ok (SPartition k (merge_partition_rows (cfg st) partition_rows).1))
      | Some (st, Ok (None, _)) => Some (st, Ok SComplete)
      end
  end.
End Steps.
