(* ===== verification/KWayProps.v ===== *)
(** Properties of the k-way merger: buffering is transparent, every step ends, and the
    steps hand over each partition once, complete and in token order. *)

From S2P Require Import Prelude Values Keys MergeModel Reconcile.
From S2P Require Import ReconcileSpec RangeTombstones PartitionMerge PartitionProps KWay.

Open Scope Z_scope.

(** ** Run readers *)

Section Runs.
Context `{Layout}.

(** What a run still has to say, buffered or not. *)
Definition remaining (r : RunReader) : list (result Error MergeEntry) :=
  map (@Ok Error MergeEntry) (buffer r) ++ reader r.

(** A run is only marked exhausted when its iterator is. *)
Definition run_ok (r : RunReader) : Prop :=
  0 < buffer_size r /\ (exhausted r = true -> reader r = []).

Lemma refill_loop_spec size b buf ex rows :
  let '(r, res) := refill_loop size b buf ex rows in
  buffer_size r = size
  /\ exists l, buffer r = buf ++ l
     /\ match res with
        | Ok _ => rows = map Ok l ++ reader r
                  /\ (exhausted r = ex \/ (exhausted r = true /\ reader r = []))
                  /\ (b < size -> l <> [] \/ (rows = [] /\ exhausted r = true))
        | Err e => rows = map Ok l ++ Err e :: reader r /\ exhausted r = ex
        end.
Proof.
  revert b buf. induction rows as [|[entry|e] rows IH]; intros b buf; cbn [refill_loop];
    destruct (Z.ltb_spec b size) as [Hb|Hb].
  - cbn. split; [done|]. exists []. rewrite app_nil_r. split_and!; auto.
  - cbn. split; [done|]. exists []. rewrite app_nil_r. split_and!; auto. lia.
  - specialize (IH (b + estimate_entry_size entry) (buf ++ [entry])).
    destruct (refill_loop size _ (buf ++ [entry]) ex rows) as [r [u|e]];
      destruct IH as (Hs & l & Hl & IH); (split; [done|]); exists (entry :: l);
      rewrite Hl, <- app_assoc; (split; [done|]).
    + destruct IH as (-> & Hex & _). split_and!; [done|done|]. by left.
    + by destruct IH as (-> & ->).
  - cbn. split; [done|]. exists []. rewrite app_nil_r. split_and!; auto. lia.
  - cbn. split; [done|]. exists []. by rewrite app_nil_r.
  - cbn. split; [done|]. exists []. rewrite app_nil_r. split_and!; auto. lia.
Qed.

Lemma advance_spec r :
  run_ok r ->
  let '(r', res) := advance r in
  run_ok r' /\ buffer_size r' = buffer_size r /\
  match res with
  | Ok None => remaining r = [] /\ remaining r' = []
  | Ok (Some e) => remaining r = Ok e :: remaining r'
  | Err x => buffer r = [] /\ reader r = map Ok (buffer r') ++ Err x :: reader r'
  end.
Proof.
  intros [Hsize Hex]. unfold advance, pop_front, run_ok, remaining.
  destruct (buffer r) as [|e b] eqn:Eb; [|by cbn].
  destruct (exhausted r) eqn:Ee; cbn [negb].
  { rewrite Eb, (Hex eq_refl). by split_and!. }
  pose proof (refill_loop_spec (buffer_size r) 0 [] (exhausted r) (reader r)) as Hr.
  unfold refill_buffer. rewrite Eb.
  destruct (refill_loop _ _ _ _ _) as [r' [u|x]]; destruct Hr as (Hs & l & Hl & Hr); cbn in Hl.
  - destruct Hr as (Hrows & Hex' & Hl'). specialize (Hl' Hsize).
    assert (Hok : exhausted r' = true -> reader r' = []).
    { intros Ht. destruct Hex' as [Hx|[_ ?]]; [|done]. congruence. }
    destruct (buffer r') as [|e b] eqn:Eb'; rewrite <- Hl in *.
    + cbn beta iota. destruct Hl' as [?|[Hnil Hr']]; [done|].
      rewrite Hnil in Hrows. cbn in Hrows. rewrite Hs, Eb', Hnil, <- Hrows. by split_and!.
    + cbn. rewrite Hrows, Hs. cbn. split_and!; done.
  - destruct Hr as (Hrows & Hx). rewrite Hl, Hs. split_and!; try done.
    rewrite Hx, Ee. done.
Qed.

(** Buffering is transparent: [RunReader::advance] hands over the run's rows one
    by one in order, whatever their sizes; it answers end of run only when neither a row
    nor an error is left, and an error of the iterator is reported before any row behind
    it, the rows read ahead of it staying in the buffer. *)
Theorem run_reader_transparent r (Hr : run_ok r) :
  let '(r', res) := advance r in
  run_ok r' /\ buffer_size r' = buffer_size r /\
  match res with
  | Ok None => remaining r = [] /\ remaining r' = []
  | Ok (Some e) => remaining r = Ok e :: remaining r'
  | Err x => buffer r = [] /\ reader r = map Ok (buffer r') ++ Err x :: reader r'
  end.
Proof. by apply advance_spec. Qed.

Lemma is_exhausted_remaining r : run_ok r -> is_exhausted r = true -> remaining r = [].
Proof.
  intros [_ Hex] [E1 E2]%andb_true_iff. unfold remaining. rewrite Hex by done. by destruct (buffer r).
Qed.

Lemma run_left_remaining r : run_left r = length (remaining r).
Proof. unfold run_left, remaining. by rewrite length_app, length_map. Qed.
End Runs.

(** Sizes of a 64-bit target, and a run of two rows read in one go. *)
Definition sample_layout : Layout := {|
  size_of_merge_entry := 300; size_of_cell_data := 150; size_of_complex_deletion := 40;
  size_of_string := 24; size_of_vec := 24 |}.
Definition sample_run : RunReader :=
  run_new [Ok (sample_live 0 4 25 [sample_v 25]); Err InvalidInput; Ok (sample_live 0 8 20 [sample_v 20])].

Lemma run_reader_transparent_witness :
  (@advance sample_layout sample_run).2 = Err InvalidInput
  /\ buffer (@advance sample_layout sample_run).1 = [sample_live 0 4 25 [sample_v 25]]
  /\ run_ok (@advance sample_layout sample_run).1.
Proof.
  assert (Hr : run_ok sample_run) by (split; [vm_compute; reflexivity|discriminate]).
  pose proof (@run_reader_transparent sample_layout sample_run Hr) as Ha.
  split; [vm_compute; reflexivity|]. split; [vm_compute; reflexivity|].
  destruct (@advance sample_layout sample_run) as [r' res]. exact (proj1 Ha).
Defined.

(** ** Every step ends *)

Section Termination.
Context `{Layout} `{DebugFmt}.

Lemma advance_left r :
  (run_left (advance r).1 + match (advance r).2 with Ok (Some _) => 1 | _ => 0 end <= run_left r)%nat.
Proof.
  unfold advance, pop_front, run_left. destruct (buffer r) as [|e b] eqn:Eb; [|cbn; lia].
  destruct (exhausted r); cbn [negb fst snd]; [rewrite Eb; cbn; lia|].
  pose proof (refill_loop_spec (buffer_size r) 0 (buffer r) (exhausted r) (reader r)) as Hr.
  unfold refill_buffer. rewrite Eb in *.
  destruct (refill_loop _ _ _ _ _) as [r' [u|x]]; destruct Hr as (_ & l & Hl & Hr); cbn in Hl.
  - destruct Hr as (Hrows & _). rewrite Hrows, length_app, length_map, <- Hl.
    destruct (buffer r') as [|e b] eqn:Eb'; cbn; rewrite ?Eb'; cbn; lia.
  - destruct Hr as (Hrows & _). cbn [fst snd]. rewrite Hrows, length_app, length_map, <- Hl. cbn. lia.
Qed.

Lemma list_sum_insert (l : list RunReader) i x y :
  l !! i = Some x ->
  (list_sum (map run_left (<[i:=y]> l)) + run_left x = list_sum (map run_left l) + run_left y)%nat.
Proof.
  unfold list_sum. revert i. induction l as [|z l IH]; intros [|i] Hi; try done.
  - injection Hi as ->. change (<[0%nat:=y]> (x :: l)) with (y :: l). cbn [map foldr]. lia.
  - specialize (IH i Hi). change (<[S i:=y]> (z :: l)) with (z :: <[i:=y]> l).
    cbn [map foldr]. lia.
Qed.

Lemma insert_by_length {A} (c : A -> A -> comparison) x l : length (insert_by c x l) = S (length l).
Proof. by rewrite insert_by_perm. Qed.

Lemma refill_heap_left st i : (entries_left (refill_heap st i).1 <= entries_left st)%nat.
Proof.
  unfold refill_heap. destruct (i >=? zlen (runs st)); [done|].
  destruct (runs st !! Z.to_nat i) as [run|] eqn:Er; [|done].
  destruct (negb (is_exhausted run)); [|done].
  pose proof (advance_left run) as Ha. destruct (advance run) as [run' [[e|]|x]]; cbn [fst snd] in *;
    unfold entries_left; cbn [heap runs with_runs_heap];
    pose proof (list_sum_insert (runs st) _ run run' Er); unfold heap_push;
    rewrite ?insert_by_length; lia.
Qed.

Lemma initialize_left l st : (entries_left (initialize_from st l).1 <= entries_left st)%nat.
Proof.
  revert st. induction l as [|i l IH]; intros st; [done|]. cbn [initialize_from].
  pose proof (refill_heap_left st (Z.of_nat i)) as Hl.
  destruct (refill_heap st (Z.of_nat i)) as [st' [u|e]]; cbn [fst] in *; [|done].
  specialize (IH st'). lia.
Qed.

Lemma collect_total fuel st k rows :
  (entries_left st < fuel)%nat ->
  exists st' res, collect fuel st k rows = Some (st', res) /\ (entries_left st' <= entries_left st)%nat.
Proof.
  revert st k rows. induction fuel as [|fuel IH]; intros st k rows Hf; [lia|]. cbn [collect].
  destruct (heap st) as [|entry rest] eqn:Eh; [by eauto|].
  destruct (match k with Some _ => _ | None => _ end); [by eauto|].
  pose proof (refill_heap_left (with_runs_heap st (runs st) rest) (run_index entry)) as Hl.
  assert (El : entries_left st = S (entries_left (with_runs_heap st (runs st) rest)))
    by (unfold entries_left; rewrite Eh; done).
  destruct (refill_heap _ (run_index entry)) as [st' [u|e]]; cbn [fst] in Hl.
  - destruct (IH st' (match k with Some k => Some k | None => Some (me_key entry) end) (rows ++ [entry]))
      as (st'' & res & E & Hle); [lia|]. exists st'', res. split; [exact E|lia].
  - exists st', (Err e). split; [done|]. lia.
Qed.

(** A merge step always ends, whatever the runs hold, errors included: the
    fuel of its loop, one round per entry still to come, is never exhausted, and the
    step leaves no more entries to come than it found. *)
Theorem step_total st :
  exists st' res, step st = Some (st', res) /\ (entries_left st' <= entries_left st)%nat.
Proof.
  unfold step.
  set (p := if is_empty (heap st) && negb (is_some (current_partition st))
            then initialize_heap st else (st, Ok tt)).
  assert (Hp : (entries_left p.1 <= entries_left st)%nat).
  { unfold p. destruct (_ && _); [apply initialize_left|done]. }
  destruct p as [st1 [u|e]]; cbn [fst] in Hp; [|by eauto].
  destruct (is_empty (heap st1)); [by eauto|].
  destruct (collect_total (S (entries_left st1)) st1 None [] ltac:(lia)) as (st2 & res & -> & Hle).
  destruct res as [[[k|] rows]|e]; eexists _, _; (split; [done|]); lia.
Qed.
End Termination.

(** ** What a step hands over *)

Section StepSpec.
Context `{Layout} `{DebugFmt} (schema : TableSchema) (ts : list CTy).

Definition entry_typed (e : MergeEntry) : Prop := opt_P (ck_typed schema ts) (clustering_key e).
#[local] Abbreviation ecmp := (schema_entry_cmp schema).
Definition entry_le (a b : MergeEntry) : Prop := ecmp a b <> Gt.

#[local] Instance ecmp_ord : OrdOn entry_typed ecmp :=
  entry_cmp_with_ord (ck_typed schema ts) (ck_schema_cmp schema).

Lemma entry_le_key a b : entry_le a b -> dk_cmp (me_key a) (me_key b) <> Gt.
Proof.
  unfold entry_le, schema_entry_cmp, entry_cmp_with, dk_cmp.
  destruct (token (me_key a) ?= token (me_key b)); try done.
  by destruct (bytes_cmp _ _).
Qed.

(** The rows each run still has, in order. *)
Definition streams (st : Merger) (ss : list (list MergeEntry)) : Prop :=
  Forall2 (fun r s => run_ok r /\ remaining r = map Ok s) (runs st) ss.

(** Every run is sorted and its rows carry its index. *)
Definition streams_ok (ss : list (list MergeEntry)) : Prop :=
  forall i s, ss !! i = Some s ->
    Forall (fun e => run_index e = Z.of_nat i /\ entry_typed e) s /\ StronglySorted entry_le s.

(** The heap is sorted, and an entry comes before what its run still has. *)
Definition heap_ok (h : list MergeEntry) (ss : list (list MergeEntry)) : Prop :=
  Forall entry_typed h /\ StronglySorted entry_le h
  /\ forall e, e ∈ h -> exists i s, run_index e = Z.of_nat i /\ ss !! i = Some s /\ Forall (entry_le e) s.

(** Every run that is not finished has an entry on the heap. *)
Definition covered (h : list MergeEntry) (ss : list (list MergeEntry)) : Prop :=
  forall i s, ss !! i = Some s -> s = [] \/ exists e, e ∈ h /\ run_index e = Z.of_nat i.

Definition pending (h : list MergeEntry) (ss : list (list MergeEntry)) : list MergeEntry :=
  h ++ concat ss.

Lemma streams_lookup st ss i s :
  streams st ss -> ss !! i = Some s ->
  exists r, runs st !! i = Some r /\ run_ok r /\ remaining r = map Ok s.
Proof.
  intros Hs Hi. destruct (Forall2_lookup_r _ _ _ _ _ Hs Hi) as (r & Hr & ? & ?). by exists r.
Qed.

Lemma refill_heap_spec st ss i s :
  streams st ss -> ss !! i = Some s -> mc_schema (cfg st) = schema ->
  let '(st', res) := refill_heap st (Z.of_nat i) in
  res = Ok tt /\ cfg st' = cfg st /\ current_partition st' = current_partition st /\
  match s with
  | [] => heap st' = heap st /\ streams st' ss
  | e :: s' => heap st' = heap_push schema e (heap st) /\ streams st' (<[i:=s']> ss)
  end.
Proof.
  intros Hs Hi Hsch. destruct (streams_lookup st ss i s Hs Hi) as (r & Hr & Hok & Hrem).
  unfold refill_heap, zlen. rewrite Nat2Z.id, Hr.
  pose proof (lookup_lt_Some _ _ _ Hr) as Hlt.
  destruct (Z.geb_spec (Z.of_nat i) (Z.of_nat (length (runs st)))); [lia|].
  destruct (is_exhausted r) eqn:Ex; cbn [negb].
  { apply is_exhausted_remaining in Ex; [|done]. rewrite Hrem in Ex.
    apply map_eq_nil in Ex as ->. done. }
  pose proof (advance_spec r Hok) as Ha. destruct (advance r) as [r' res].
  destruct Ha as (Hok' & _ & Hres).
  assert (Hins : forall s', remaining r' = map Ok s' ->
            streams (with_runs_heap st (<[i:=r']> (runs st)) []) (<[i:=s']> ss)).
  { intros s' Hs'. unfold streams. cbn [runs with_runs_heap]. by apply Forall2_insert. }
  destruct res as [[e|]|x].
  - rewrite Hrem in Hres. destruct s as [|e' s']; [done|]. injection Hres as -> Hs'.
    split_and!; try done; [by rewrite Hsch|]. by apply Hins.
  - destruct Hres as [Hnil Hnil']. rewrite Hrem in Hnil. apply map_eq_nil in Hnil as ->.
    split_and!; try done. rewrite <- (list_insert_id ss i []) by done. by apply Hins.
  - exfalso. destruct Hres as [Hb Hrd]. unfold remaining in Hrem. rewrite Hb, Hrd in Hrem.
    cbn in Hrem. assert (Hin : Err x ∈ map (@Ok Error MergeEntry) s).
    { rewrite <- Hrem. apply elem_of_app. right. by left. }
    by apply list_elem_of_fmap in Hin as (? & ? & _).
Qed.

Lemma concat_insert (ss : list (list MergeEntry)) i e s :
  ss !! i = Some (e :: s) -> concat ss ≡ₚ e :: concat (<[i:=s]> ss).
Proof.
  revert i. induction ss as [|t ss IH]; intros [|i] Hi; try done.
  - injection Hi as ->. done.
  - cbn in Hi. change (<[S i:=s]> (t :: ss)) with (t :: <[i:=s]> ss). cbn [concat].
    rewrite (IH i Hi). by rewrite Permutation_middle.
Qed.

Lemma heap_push_elem e h x : x ∈ heap_push schema e h <-> x = e \/ x ∈ h.
Proof. unfold heap_push. by rewrite insert_by_perm, elem_of_cons. Qed.

Lemma streams_ok_insert ss i e s :
  streams_ok ss -> ss !! i = Some (e :: s) -> streams_ok (<[i:=s]> ss).
Proof.
  intros Hok Hi j t Hj. destruct (decide (i = j)) as [->|Hne].
  - rewrite list_lookup_insert_eq in Hj by (by eapply lookup_lt_Some). injection Hj as <-.
    destruct (Hok j _ Hi) as [Hf Hs]. apply Forall_cons in Hf as [_ Hf].
    by apply StronglySorted_inv in Hs as [Hs _].
  - rewrite list_lookup_insert_ne in Hj by done. by apply Hok.
Qed.

(** Pushing a run's next entry. *)
Lemma heap_push_ok h ss i e s :
  streams_ok ss -> heap_ok h ss -> ss !! i = Some (e :: s) ->
  heap_ok (heap_push schema e h) (<[i:=s]> ss).
Proof.
  intros Hok (Hh1 & Hh2 & Hh3) Hi. destruct (Hok i _ Hi) as [Hf Hs].
  pose proof (lookup_lt_Some _ _ _ Hi) as Hlt.
  apply Forall_cons in Hf as [[Hidx Het] Hf]. apply StronglySorted_inv in Hs as [Hs Hes].
  split_and!.
  - unfold heap_push. rewrite insert_by_perm. by constructor.
  - by apply (insert_by_sorted ecmp entry_typed).
  - intros x [->|Hx]%heap_push_elem.
    + exists i, s. split; [done|]. split; [by apply list_lookup_insert_eq|done].
    + destruct (Hh3 x Hx) as (j & t & Hj & Ht & Hxt). destruct (decide (i = j)) as [->|Hne].
      * rewrite Ht in Hi. injection Hi as ->. exists j, s. split; [done|].
        split; [by apply list_lookup_insert_eq|]. by apply Forall_cons in Hxt as [_ ?].
      * exists j, t. split; [done|]. split; [by rewrite list_lookup_insert_ne|done].
Qed.

(** The head of the heap comes before everything still to come. *)
Lemma head_min e h ss :
  streams_ok ss -> heap_ok (e :: h) ss -> covered (e :: h) ss ->
  forall x, x ∈ pending (e :: h) ss -> entry_le e x.
Proof.
  intros Hok (Ht & Hs & Hr) Hc x Hx.
  apply Forall_cons in Ht as [Het Ht]. apply StronglySorted_inv in Hs as [Hs Heh].
  rewrite Forall_forall in Ht, Heh.
  assert (Hself : entry_le e e).
  { unfold entry_le. by rewrite (on_refl (P := entry_typed) (cmp := ecmp)). }
  assert (Hhead : forall y, y ∈ e :: h -> entry_le e y).
  { intros y [->|Hy]%elem_of_cons; [done|by apply Heh]. }
  apply elem_of_app in Hx as [Hx|Hx]; [by apply Hhead|].
  apply list_elem_of_In, in_concat in Hx as (s & Hsin & Hx).
  apply list_elem_of_In in Hsin. apply list_elem_of_In in Hx.
  apply list_elem_of_lookup in Hsin as [i Hi].
  destruct (Hc i s Hi) as [->|(r & Hrin & Hri)]; [by apply elem_of_nil in Hx|].
  destruct (Hr r Hrin) as (j & t & Hj & Htj & Hle).
  assert (j = i) as -> by lia. rewrite Hi in Htj. injection Htj as <-.
  rewrite Forall_forall in Hle. destruct (Hok i s Hi) as [Hf _]. rewrite Forall_forall in Hf.
  apply (on_le_trans (P := entry_typed) ecmp e r x); [done| |by apply Hf|by apply Hhead|by apply Hle].
  apply elem_of_cons in Hrin as [->|?]; [done|by apply Ht].
Qed.

(** Popping the head and refilling from its run. *)
Lemma pop_refill st ss e h :
  streams st ss -> streams_ok ss -> mc_schema (cfg st) = schema ->
  heap_ok (e :: h) ss -> covered (e :: h) ss ->
  let '(st', res) := refill_heap (with_runs_heap st (runs st) h) (run_index e) in
  res = Ok tt /\ cfg st' = cfg st /\ current_partition st' = current_partition st /\
  exists ss', streams st' ss' /\ streams_ok ss' /\ heap_ok (heap st') ss' /\ covered (heap st') ss'
    /\ pending (e :: h) ss ≡ₚ e :: pending (heap st') ss'.
Proof.
  intros Hst Hok Hsch Hh Hc. pose proof Hh as (Ht & Hs & Hr).
  destruct (Hr e ltac:(by left)) as (i & s & Hie & Hi & Hle).
  assert (Hh' : heap_ok h ss).
  { split_and!.
    - by apply Forall_cons in Ht as [_ ?].
    - by apply StronglySorted_inv in Hs as [? _].
    - intros x Hx. apply Hr. by right. }
  assert (Hc' : forall j t, ss !! j = Some t -> j <> i -> t = [] \/ exists x, x ∈ h /\ run_index x = Z.of_nat j).
  { intros j t Hj Hne. destruct (Hc j t Hj) as [?|(x & Hx & Hxi)]; [by left|right].
    apply elem_of_cons in Hx as [->|Hx]; [lia|]. by exists x. }
  rewrite Hie.
  pose proof (refill_heap_spec (with_runs_heap st (runs st) h) ss i s Hst Hi Hsch) as Href.
  destruct (refill_heap _ (Z.of_nat i)) as [st' res]. destruct Href as (Hres & Hcfg & Hcp & Hheap).
  split_and!; try done. destruct s as [|e' s'].
  - destruct Hheap as [Hhp Hss]. cbn in Hhp. exists ss. rewrite Hhp. split_and!; try done.
    intros j t Hj. destruct (decide (j = i)) as [->|Hne]; [|by apply Hc'].
    left. rewrite Hi in Hj. by injection Hj.
  - destruct Hheap as [Hhp Hss]. cbn in Hhp. exists (<[i:=s']> ss). rewrite Hhp. split_and!; try done.
    + by apply (streams_ok_insert ss i e').
    + by apply heap_push_ok.
    + intros j t Hj. destruct (decide (j = i)) as [->|Hne].
      * right. exists e'. split; [apply heap_push_elem; by left|].
        destruct (Hok i _ Hi) as [Hf _]. by apply Forall_cons in Hf as [[? _] _].
      * rewrite list_lookup_insert_ne in Hj by done.
        destruct (Hc' j t Hj Hne) as [?|(x & Hx & ?)]; [by left|right]. exists x.
        split; [apply heap_push_elem; by right|done].
    + unfold pending, heap_push. rewrite insert_by_perm. cbn. constructor.
      rewrite (concat_insert ss i e' s' Hi). by rewrite Permutation_middle.
Qed.

(** The state between two steps. *)
Definition step_inv (st : Merger) (ss : list (list MergeEntry)) : Prop :=
  streams st ss /\ streams_ok ss /\ mc_schema (cfg st) = schema /\ current_partition st = None
  /\ heap_ok (heap st) ss /\ (heap st = [] \/ covered (heap st) ss).

Definition of_key (k : DecoratedKey) (l : list MergeEntry) : list MergeEntry :=
  List.filter (fun e => bool_decide (me_key e = k)) l.
Definition not_of_key (k : DecoratedKey) (l : list MergeEntry) : list MergeEntry :=
  List.filter (fun e => negb (bool_decide (me_key e = k))) l.

Lemma of_key_perm k l l' : l ≡ₚ l' -> of_key k l ≡ₚ of_key k l'.
Proof. apply filter_b_perm. Qed.
Lemma not_of_key_perm k l l' : l ≡ₚ l' -> not_of_key k l ≡ₚ not_of_key k l'.
Proof. apply filter_b_perm. Qed.

Lemma of_key_none k l : (forall x, x ∈ l -> me_key x <> k) -> of_key k l = [] /\ not_of_key k l = l.
Proof.
  unfold of_key, not_of_key. induction l as [|x l IH]; intros Hl; [done|]. cbn.
  rewrite bool_decide_eq_false_2 by (apply Hl; by left). cbn.
  destruct IH as [-> ->]; [intros y Hy; apply Hl; by right|done].
Qed.

(** The loop takes exactly the entries of the current key, in order. *)
Lemma collect_spec fuel st ss k acc :
  (entries_left st < fuel)%nat ->
  streams st ss -> streams_ok ss -> mc_schema (cfg st) = schema ->
  heap_ok (heap st) ss -> covered (heap st) ss ->
  (forall x, x ∈ pending (heap st) ss -> dk_cmp k (me_key x) <> Gt) ->
  exists st' ss' rows, collect fuel st (Some k) acc = Some (st', Ok (Some k, acc ++ rows))
    /\ cfg st' = cfg st /\ current_partition st' = current_partition st
    /\ streams st' ss' /\ streams_ok ss' /\ heap_ok (heap st') ss' /\ covered (heap st') ss'
    /\ rows ≡ₚ of_key k (pending (heap st) ss)
    /\ pending (heap st') ss' ≡ₚ not_of_key k (pending (heap st) ss)
    /\ StronglySorted entry_le rows
    /\ (forall x, x ∈ pending (heap st') ss' -> dk_cmp k (me_key x) = Lt).
Proof.
  revert st ss acc. induction fuel as [|fuel IH]; intros st ss acc Hf Hst Hok Hsch Hh Hc Hge; [lia|].
  cbn [collect]. destruct (heap st) as [|e h] eqn:Eh.
  - assert (Hp : pending [] ss = []).
    { unfold pending. cbn. destruct (concat ss) as [|x l] eqn:Ec; [done|exfalso].
      assert (Hx : x ∈ concat ss) by (rewrite Ec; by left).
      apply list_elem_of_In, in_concat in Hx as (s & Hs%list_elem_of_In & Hx%list_elem_of_In).
      apply list_elem_of_lookup in Hs as [i Hi].
      destruct (Hc i s Hi) as [->|(? & ?%elem_of_nil & _)]; [by apply elem_of_nil in Hx|done]. }
    exists st, ss, []. rewrite app_nil_r, Eh, Hp. split_and!; try done; [constructor|].
    by intros x ?%elem_of_nil.
  - pose proof (head_min e h ss Hok Hh Hc) as Hmin.
    destruct (decide (me_key e = k)) as [Ek|Ek].
    + rewrite (bool_decide_eq_true_2 (me_key e = k)) by done. cbn [negb].
      pose proof (pop_refill st ss e h Hst Hok Hsch Hh Hc) as Hpr.
      pose proof (refill_heap_left (with_runs_heap st (runs st) h) (run_index e)) as Hl.
      assert (El : entries_left st = S (entries_left (with_runs_heap st (runs st) h)))
        by (unfold entries_left; rewrite Eh; done).
      destruct (refill_heap _ (run_index e)) as [st1 res]. cbn [fst] in Hl.
      destruct Hpr as (-> & Hcfg & Hcp & ss1 & P1 & P2 & P3 & P4 & P5).
      destruct (IH st1 ss1 (acc ++ [e])) as (st' & ss' & rows & E & I1 & I2 & I3 & I4 & I5 & I6 & I7 & I8 & I9 & I10);
        try done; [lia|by rewrite Hcfg| |].
      { intros x Hx. apply Hge. rewrite P5. by right. }
      exists st', ss', (e :: rows). rewrite E, <- app_assoc.
      assert (Hrow : forall x, x ∈ rows -> x ∈ pending (heap st1) ss1).
      { intros x. rewrite I7. unfold of_key. by intros [? _]%elem_of_filter_b. }
      split_and!; try done; try congruence.
      * rewrite (of_key_perm _ _ _ P5), I7. unfold of_key. cbn. by rewrite bool_decide_eq_true_2.
      * rewrite (not_of_key_perm _ _ _ P5), I8. unfold not_of_key. cbn. by rewrite bool_decide_eq_true_2.
      * constructor; [done|]. apply Forall_forall. intros x Hx%Hrow. apply Hmin. rewrite P5. by right.
    + rewrite (bool_decide_eq_false_2 (me_key e = k)) by done. cbn [negb].
      assert (Hlt : forall x, x ∈ pending (e :: h) ss -> dk_cmp k (me_key x) = Lt).
      { intros x Hx. assert (Hke : dk_cmp k (me_key e) = Lt).
        { specialize (Hge e ltac:(by left)). destruct (dk_cmp k (me_key e)) eqn:E; [|done..].
          by apply dk_cmp_eq in E. }
        specialize (Hmin x Hx). apply entry_le_key in Hmin.
        destruct (dk_cmp (me_key e) (me_key x)) eqn:E; [|by apply (ord_trans dk_cmp _ (me_key e))|done].
        apply dk_cmp_eq in E. by rewrite <- E. }
      destruct (of_key_none k (pending (e :: h) ss)) as [N1 N2].
      { intros x Hx E. specialize (Hlt x Hx). rewrite E in Hlt.
        by rewrite (proj2 (dk_cmp_eq k k) eq_refl) in Hlt. }
      exists st, ss, []. rewrite app_nil_r, Eh, N1, N2. split_and!; try done. constructor.
Qed.

(** Filling the heap the first time. *)
Definition covered_upto (n : nat) (h : list MergeEntry) (ss : list (list MergeEntry)) : Prop :=
  forall i s, (i < n)%nat -> ss !! i = Some s -> s = [] \/ exists e, e ∈ h /\ run_index e = Z.of_nat i.

Lemma initialize_spec m i st ss :
  streams st ss -> streams_ok ss -> mc_schema (cfg st) = schema -> heap_ok (heap st) ss ->
  (i + m = length ss)%nat -> covered_upto i (heap st) ss ->
  let '(st', res) := initialize_from st (seq i m) in
  res = Ok tt /\ cfg st' = cfg st /\ current_partition st' = current_partition st /\
  exists ss', streams st' ss' /\ streams_ok ss' /\ heap_ok (heap st') ss' /\ covered (heap st') ss'
    /\ pending (heap st') ss' ≡ₚ pending (heap st) ss.
Proof.
  revert i st ss. induction m as [|m IH]; intros i st ss Hst Hok Hsch Hh Hlen Hc; cbn [seq initialize_from].
  - split_and!; try done. exists ss. split_and!; try done. intros j s Hj.
    apply Hc; [|done]. apply lookup_lt_Some in Hj. lia.
  - destruct (lookup_lt_is_Some_2 ss i ltac:(lia)) as [s Hi].
    pose proof (refill_heap_spec st ss i s Hst Hi Hsch) as Href.
    destruct (refill_heap st (Z.of_nat i)) as [st1 res]. destruct Href as (-> & Hcfg & Hcp & Hheap).
    assert (Hnext : exists ss1, streams st1 ss1 /\ streams_ok ss1 /\ heap_ok (heap st1) ss1
              /\ covered_upto (S i) (heap st1) ss1 /\ length ss1 = length ss
              /\ pending (heap st1) ss1 ≡ₚ pending (heap st) ss).
    { destruct s as [|e s].
      - destruct Hheap as [-> Hs1]. exists ss. split_and!; try done.
        intros j t Hj Ht. destruct (decide (j = i)) as [->|Hne]; [|apply Hc; [lia|done]].
        left. rewrite Hi in Ht. by injection Ht.
      - destruct Hheap as [-> Hs1]. exists (<[i:=s]> ss). split_and!; try done.
        + by apply (streams_ok_insert ss i e).
        + by apply heap_push_ok.
        + intros j t Hj Ht. destruct (decide (j = i)) as [->|Hne].
          * right. exists e. split; [apply heap_push_elem; by left|].
            destruct (Hok i _ Hi) as [Hf _]. by apply Forall_cons in Hf as [[? _] _].
          * rewrite list_lookup_insert_ne in Ht by done.
            destruct (Hc j t ltac:(lia) Ht) as [?|(x & Hx & ?)]; [by left|right].
            exists x. split; [apply heap_push_elem; by right|done].
        + by rewrite length_insert.
        + unfold pending, heap_push. rewrite insert_by_perm, (concat_insert ss i e s Hi). cbn.
          by rewrite Permutation_middle. }
    destruct Hnext as (ss1 & S1 & S2 & S3 & S4 & S5 & S6).
    specialize (IH (S i) st1 ss1 S1 S2 ltac:(by rewrite Hcfg) S3 ltac:(lia) S4).
    destruct (initialize_from st1 (seq (S i) m)) as [st' res].
    destruct IH as (-> & I1 & I2 & ss' & I3 & I4 & I5 & I6 & I7).
    split_and!; [done|congruence|congruence|]. exists ss'. split_and!; try done. by rewrite I7.
Qed.

Lemma initialize_inv st ss :
  step_inv st ss ->
  let '(st', res) := if is_empty (heap st) && negb (is_some (current_partition st))
                     then initialize_heap st else (st, Ok tt) in
  res = Ok tt /\ cfg st' = cfg st /\ current_partition st' = None /\
  exists ss', streams st' ss' /\ streams_ok ss' /\ heap_ok (heap st') ss' /\ covered (heap st') ss'
    /\ pending (heap st') ss' ≡ₚ pending (heap st) ss.
Proof.
  intros (Hst & Hok & Hsch & Hcp & Hh & Hc). rewrite Hcp. cbn.
  destruct (heap st) as [|e h] eqn:Eh; cbn.
  - unfold initialize_heap. rewrite (Forall2_length _ _ _ Hst).
    pose proof (initialize_spec (length ss) 0 st ss Hst Hok Hsch ltac:(by rewrite Eh) ltac:(lia)
      ltac:(intros j s Hj; lia)) as Hi.
    destruct (initialize_from st (seq 0 (length ss))) as [st' res]. rewrite Hcp, Eh in Hi. exact Hi.
  - destruct Hc as [?|Hc]; [done|]. split_and!; try done. exists ss. by rewrite Eh.
Qed.

Lemma pending_nil ss : covered [] ss -> pending [] ss = [].
Proof.
  intros Hc. unfold pending. cbn. destruct (concat ss) as [|x l] eqn:Ec; [done|exfalso].
  assert (Hx : x ∈ concat ss) by (rewrite Ec; by left).
  apply list_elem_of_In, in_concat in Hx as (s & Hs%list_elem_of_In & Hx%list_elem_of_In).
  apply list_elem_of_lookup in Hs as [i Hi].
  destruct (Hc i s Hi) as [->|(? & ?%elem_of_nil & _)]; [by apply elem_of_nil in Hx|done].
Qed.

(** How a step begins, and the rows it collects. *)
Definition start (st : Merger) : Merger * result Error unit :=
  if is_empty (heap st) && negb (is_some (current_partition st))
  then initialize_heap st else (st, Ok tt).

Definition collected (st : Merger) (k : DecoratedKey) (rows : list MergeEntry) (st' : Merger) : Prop :=
  exists st1 e h, start st = (st1, Ok tt) /\ heap st1 = e :: h /\ me_key e = k
    /\ collect (S (entries_left st1)) st1 (Some k) [] = Some (st', Ok (Some k, rows)).

(** One step, on what is pending. *)
Lemma step_spec st ss :
  step_inv st ss ->
  exists st' ss', step_inv st' ss' /\ cfg st' = cfg st /\
  ((pending (heap st) ss = [] /\ step st = Some (st', Ok SComplete) /\ pending (heap st') ss' = []
    /\ start st = (st', Ok tt) /\ heap st' = [])
   \/ exists k rows, step st = Some (st', Ok (SPartition k (merge_partition_rows (cfg st) rows).1))
        /\ collected st k rows st'
        /\ rows <> [] /\ StronglySorted entry_le rows
        /\ rows ≡ₚ of_key k (pending (heap st) ss)
        /\ pending (heap st') ss' ≡ₚ not_of_key k (pending (heap st) ss)
        /\ forall x, x ∈ pending (heap st') ss' -> dk_cmp k (me_key x) = Lt).
Proof.
  intros Hinv. pose proof (initialize_inv st ss Hinv) as Hinit. unfold collected. unfold step.
  fold (start st) in *.
  destruct (start st) as [st1 res] eqn:Est.
  destruct Hinit as (-> & Hcfg & Hcp & ss1 & S1 & S2 & S3 & S4 & S5).
  assert (Hsch1 : mc_schema (cfg st1) = schema).
  { rewrite Hcfg. by destruct Hinv as (_ & _ & ? & _). }
  destruct (heap st1) as [|e h] eqn:Eh; cbn [is_empty].
  - exists st1, ss1. rewrite (pending_nil ss1 S4) in S5. split_and!; try done.
    + unfold step_inv. rewrite Eh. split_and!; try done. by left.
    + left. split; [by apply Permutation_nil|]. split; [done|]. by rewrite Eh, (pending_nil ss1 S4).
  - assert (Hmin : forall x, x ∈ pending (heap st1) ss1 -> dk_cmp (me_key e) (me_key x) <> Gt).
    { intros x Hx. apply entry_le_key. rewrite Eh in *. by apply (head_min e h ss1). }
    rewrite <- Eh in S3, S4, S5.
    destruct (collect_spec (S (entries_left st1)) st1 ss1 (me_key e) [] ltac:(lia)) as
      (st' & ss' & rows & E & I1 & I2 & I3 & I4 & I5 & I6 & I7 & I8 & I9 & I10); try done.
    assert (E' : collect (S (entries_left st1)) st1 None [] = Some (st', Ok (Some (me_key e), rows))).
    { cbn [app] in E. rewrite <- E. cbn [collect]. rewrite Eh.
      by rewrite (bool_decide_eq_true_2 (me_key e = me_key e)). }
    exists st', ss'. split; [|split; [congruence|]].
    + unfold step_inv. rewrite I1, I2, Hcp. split_and!; try done. by right.
    + right. exists (me_key e), rows. rewrite E', I1, Hcfg. split_and!; try done.
      * by exists st1, e, h.
      * intros ->. apply Permutation_nil in I7.
        assert (Hin : e ∈ of_key (me_key e) (pending (heap st1) ss1)).
        { apply elem_of_filter_b. split; [rewrite Eh; by left|by apply bool_decide_eq_true]. }
        rewrite I7 in Hin. by apply elem_of_nil in Hin.
      * rewrite I7. by apply of_key_perm.
      * rewrite I8. by apply not_of_key_perm.
Qed.

(** The steps up to the end. *)
Inductive run_steps : Merger -> list (DecoratedKey * list MergeEntry) -> Merger -> Prop :=
| steps_done st st' : step st = Some (st', Ok SComplete) -> run_steps st [] st'
| steps_more st st' st'' k rows l :
    step st = Some (st', Ok (SPartition k rows)) -> run_steps st' l st'' ->
    run_steps st ((k, rows) :: l) st''.

Definition key_lt (p q : DecoratedKey * list MergeEntry) : Prop := dk_cmp p.1 q.1 = Lt.

Lemma of_key_not k k' l : k' <> k -> of_key k' (not_of_key k l) = of_key k' l.
Proof.
  intros Hne. unfold of_key, not_of_key. induction l as [|x l IH]; [done|]. cbn.
  destruct (decide (me_key x = k)) as [E|E].
  - rewrite (bool_decide_eq_true_2 _ E). cbn. rewrite IH.
    rewrite bool_decide_eq_false_2; [done|]. congruence.
  - rewrite (bool_decide_eq_false_2 _ E). cbn. by rewrite IH.
Qed.

Lemma run_steps_spec n st ss :
  step_inv st ss -> (length (pending (heap st) ss) <= n)%nat ->
  exists l st', run_steps st l st' /\ StronglySorted key_lt l
    /\ (forall p, p ∈ l -> exists rows, p.2 = (merge_partition_rows (cfg st) rows).1
          /\ rows <> [] /\ StronglySorted entry_le rows /\ rows ≡ₚ of_key p.1 (pending (heap st) ss))
    /\ (forall x, x ∈ pending (heap st) ss -> me_key x ∈ map fst l).
Proof.
  revert st ss. induction n as [|n IH]; intros st ss Hinv Hn;
    destruct (step_spec st ss Hinv) as (st1 & ss1 & Hinv1 & Hcfg & [(Hp & Hs & Hp1 & _)|Hmore]).
  1,3: exists [], st1; rewrite Hp; split_and!;
       [by constructor|constructor|by intros ? ?%elem_of_nil|by intros ? ?%elem_of_nil].
  all: destruct Hmore as (k & rows & Hs & _ & Hne & Hsort & Hrows & Hpend & Hlt).
  { destruct (pending (heap st) ss); [|cbn in Hn; lia]. symmetry in Hrows. by apply Permutation_nil in Hrows as ->. }
  assert (Hlen : (length (pending (heap st1) ss1) < length (pending (heap st) ss))%nat).
  { assert (Hall : length (pending (heap st) ss)
                   = (length rows + length (pending (heap st1) ss1))%nat).
    { rewrite Hrows, Hpend. unfold of_key, not_of_key. clear.
      induction (pending (heap st) ss) as [|x l IH]; [done|]. cbn. case_bool_decide; cbn; lia. }
    destruct rows; [done|cbn in Hall; lia]. }
  destruct (IH st1 ss1 Hinv1 ltac:(lia)) as (l & st' & L1 & L2 & L3 & L4).
  exists ((k, (merge_partition_rows (cfg st) rows).1) :: l), st'. split_and!.
  - by apply steps_more with (st' := st1).
  - constructor; [done|]. apply Forall_forall. intros p Hp. unfold key_lt. cbn.
    destruct (L3 p Hp) as (rs & _ & Hrne & _ & Hrs). destruct rs as [|x rs]; [done|].
    assert (Hx : x ∈ of_key p.1 (pending (heap st1) ss1)) by (rewrite <- Hrs; by left).
    apply elem_of_filter_b in Hx as [Hx Hk%bool_decide_eq_true]. rewrite <- Hk. by apply Hlt.
  - intros p [->|Hp]%elem_of_cons.
    + exists rows. by split_and!.
    + destruct (L3 p Hp) as (rs & R1 & R2 & R3 & R4). exists rs. rewrite <- Hcfg. split_and!; try done.
      rewrite R4, (of_key_perm _ _ _ Hpend).
      assert (Hk : p.1 <> k).
      { destruct rs as [|x rs]; [done|].
        assert (Hx : x ∈ of_key p.1 (pending (heap st1) ss1)) by (rewrite <- R4; by left).
        apply elem_of_filter_b in Hx as [Hx Hk%bool_decide_eq_true]. intros E.
        specialize (Hlt x Hx). rewrite Hk, E in Hlt. by rewrite (proj2 (dk_cmp_eq k k) eq_refl) in Hlt. }
      by rewrite of_key_not.
  - intros x Hx. cbn. destruct (decide (me_key x = k)) as [->|Hk]; [by left|right].
    apply L4. rewrite Hpend. apply elem_of_filter_b. split; [done|].
    by rewrite bool_decide_eq_false_2.
Qed.
End StepSpec.

(** ** The whole merge *)

(** A merger over runs that will yield the given rows. *)
Definition fresh_merger (c : MergerConfig) (inputs : list (list MergeEntry)) : Merger :=
  mkMerger c (map (fun s => run_new (map Ok s)) inputs) [] None.

Lemma fresh_inv `{Layout} `{DebugFmt} ts c inputs :
  streams_ok (mc_schema c) ts inputs -> step_inv (mc_schema c) ts (fresh_merger c inputs) inputs.
Proof.
  intros Hok. unfold step_inv, streams. cbn. split_and!; try done.
  - apply Forall2_fmap_l, Forall_Forall2_diag, Forall_true. intros s. by split.
  - split_and!; [constructor|constructor|by intros e ?%elem_of_nil].
  - by left.
Qed.

(** C18: The merge of sorted runs ends, and hands over every partition exactly once,
    in strictly increasing token order: each step's rows are [merge_partition_rows] of
    all the rows the runs hold for that key, in the schema's order with the newest run
    first among equals, and no row of any run is left out. The runs yield no error; each is
    sorted by the comparison of the heap and numbers its entries with its own index, and
    the values of the clustering keys are of their columns' types, each one of the types
    that [compare_values] orders. *)
Theorem kway_merge_exact `{Layout} `{DebugFmt} ts c inputs
    (Hok : streams_ok (mc_schema c) ts inputs) :
  exists l st', run_steps (fresh_merger c inputs) l st'
    /\ StronglySorted key_lt l
    /\ (forall p, p ∈ l -> exists rows, p.2 = (merge_partition_rows c rows).1
          /\ StronglySorted (entry_le (mc_schema c)) rows
          /\ rows ≡ₚ of_key p.1 (concat inputs))
    /\ (forall x, x ∈ concat inputs -> me_key x ∈ map fst l).
Proof.
  destruct (run_steps_spec (mc_schema c) ts (length (concat inputs)) (fresh_merger c inputs) inputs)
    as (l & st' & H1 & H2 & H3 & H4); [by apply fresh_inv|done|].
  exists l, st'. split_and!; try done. intros p Hp.
  destruct (H3 p Hp) as (rows & R1 & _ & R2 & R3). by exists rows.
Qed.

(** Two runs over two partitions. *)
Definition other_key : DecoratedKey := mkDecoratedKey 9 [2].
Definition sample_inputs : list (list MergeEntry) :=
  [ [sample_live 0 4 25 [sample_v 25]; entry_new 0 other_key (Some (sample_ck 1)) 5 (Live [sample_v 5])];
    [sample_live 1 4 15 [sample_v 11]; sample_live 1 8 20 [sample_v 20]] ].

Lemma kway_merge_exact_witness :
  exists l st', @run_steps sample_layout sample_debug (fresh_merger sample_cfg sample_inputs) l st'
    /\ StronglySorted key_lt l
    /\ (forall x, x ∈ concat sample_inputs -> me_key x ∈ map fst l).
Proof.
  assert (Hok : @streams_ok sample_debug asc_schema [TInt] sample_inputs).
  { intros [|[|i]] s Hs; [injection Hs as <-|injection Hs as <-|done].
    all: split; [repeat constructor|].
    all: repeat constructor; vm_compute; discriminate. }
  destruct (@kway_merge_exact sample_layout sample_debug [TInt] sample_cfg sample_inputs Hok)
    as (l & st' & H1 & H2 & _ & H4).
  exists l, st'. split; [exact H1|]. split; [exact H2|exact H4].
Defined.

(** The first step of that merge. *)
Example sample_first_step :
  option_map (fun p => match p.2 with
                       | Ok (SPartition k rows) => Some (k, map clustering_key rows)
                       | _ => None end)
    (@step sample_layout sample_debug (fresh_merger sample_cfg sample_inputs))
  = Some (Some (sample_key, [Some (sample_ck 4); Some (sample_ck 8)])).
Proof. vm_compute. reflexivity. Qed.
