(* ===== verification/Streaming.v ===== *)
(** The streaming partition merge of the compaction ([merge/streaming.rs]): entries
    are taken off the heap one at a time; markers are put aside, rows are reconciled
    one clustering key at a time, and what is ready is handed out row by row. *)

From S2P Require Import Prelude Values Keys MergeModel Reconcile RangeTombstones.
From S2P Require Import PartitionMerge KWay.

Open Scope Z_scope.

(** ** The state of a partition *)

Record PartitionReconcileCheckpoint := mkCheckpoint {
  pending_rows : list MergeEntry;
  range_tombstones_seen : list (DecoratedKey * RangeTombstone);
  partition_deletion_max : option (Z * Z);
  partition_deletion_key : option DecoratedKey;
  partition_deletion_resolved : bool;
  current_cluster : option (option ClusteringKey * list MergeEntry);
  stream_purges : PurgeCounts;
  awaiting_flush : list MergeEntry;
  range_tombstones_emitted : bool;
}.

Definition fresh : PartitionReconcileCheckpoint :=
  mkCheckpoint [] [] None None false None purges_default [] false.

(** Field updates. *)
Definition with_pending (l : list MergeEntry) (s : PartitionReconcileCheckpoint) :=
  mkCheckpoint l (range_tombstones_seen s) (partition_deletion_max s) (partition_deletion_key s)
    (partition_deletion_resolved s) (current_cluster s) (stream_purges s) (awaiting_flush s)
    (range_tombstones_emitted s).
Definition push_pending (e : MergeEntry) (s : PartitionReconcileCheckpoint) :=
  with_pending (pending_rows s ++ [e]) s.
Definition with_ranges (l : list (DecoratedKey * RangeTombstone)) (s : PartitionReconcileCheckpoint) :=
  mkCheckpoint (pending_rows s) l (partition_deletion_max s) (partition_deletion_key s)
    (partition_deletion_resolved s) (current_cluster s) (stream_purges s) (awaiting_flush s)
    (range_tombstones_emitted s).
Definition with_deletion (pd : option (Z * Z)) (pk : option DecoratedKey)
    (s : PartitionReconcileCheckpoint) :=
  mkCheckpoint (pending_rows s) (range_tombstones_seen s) pd pk
    (partition_deletion_resolved s) (current_cluster s) (stream_purges s) (awaiting_flush s)
    (range_tombstones_emitted s).
Definition with_resolved (s : PartitionReconcileCheckpoint) :=
  mkCheckpoint (pending_rows s) (range_tombstones_seen s) (partition_deletion_max s)
    (partition_deletion_key s) true (current_cluster s) (stream_purges s) (awaiting_flush s)
    (range_tombstones_emitted s).
Definition with_cluster (c : option (option ClusteringKey * list MergeEntry))
    (s : PartitionReconcileCheckpoint) :=
  mkCheckpoint (pending_rows s) (range_tombstones_seen s) (partition_deletion_max s)
    (partition_deletion_key s) (partition_deletion_resolved s) c (stream_purges s)
    (awaiting_flush s) (range_tombstones_emitted s).
Definition with_purges (p : PurgeCounts) (s : PartitionReconcileCheckpoint) :=
  mkCheckpoint (pending_rows s) (range_tombstones_seen s) (partition_deletion_max s)
    (partition_deletion_key s) (partition_deletion_resolved s) (current_cluster s) p
    (awaiting_flush s) (range_tombstones_emitted s).
Definition with_awaiting (l : list MergeEntry) (s : PartitionReconcileCheckpoint) :=
  mkCheckpoint (pending_rows s) (range_tombstones_seen s) (partition_deletion_max s)
    (partition_deletion_key s) (partition_deletion_resolved s) (current_cluster s)
    (stream_purges s) l (range_tombstones_emitted s).
Definition with_emitted (s : PartitionReconcileCheckpoint) :=
  mkCheckpoint (pending_rows s) (range_tombstones_seen s) (partition_deletion_max s)
    (partition_deletion_key s) (partition_deletion_resolved s) (current_cluster s)
    (stream_purges s) (awaiting_flush s) true.

Section Stream.
Context `{DebugFmt} (cfg : MergerConfig).
#[local] Abbreviation schema := (mc_schema cfg).

(** ** The operations on it *)

Definition resolve_partition_prefix (s : PartitionReconcileCheckpoint) :
    PartitionReconcileCheckpoint :=
  if partition_deletion_resolved s then s
  else
    let s := with_resolved s in
    let '(gc, maxp) := effective_gc_settings cfg in
    let key := partition_deletion_key s in
    let s := with_deletion (partition_deletion_max s) None s in
    match partition_deletion_max s, key with
    | Some (pmfda, pldt), Some key =>
        if purges_marker gc maxp pmfda pldt
        then with_purges (add_partition_tombstones 1 (stream_purges s)) s
        else push_pending
               (with_partition_deletion (entry_new usize_MAX key None pmfda (RTombstone pmfda pldt))
                  (pmfda, pldt))
               (with_purges (add_emitted 1 (stream_purges s)) s)
    | _, _ => s
    end.

Definition flush_one (gc : option Z) (maxp : Z) (s : PartitionReconcileCheckpoint)
    (p : DecoratedKey * RangeTombstone) : PartitionReconcileCheckpoint :=
  if purges_marker gc maxp (rt_deletion_time p.2) (rt_local_deletion_time p.2)
  then with_purges (add_range_tombstones 1 (stream_purges s)) s
  else push_pending
         (with_range_deletion (entry_new usize_MAX p.1 None (rt_deletion_time p.2) (Live [])) p.2)
         (with_purges (add_emitted 1 (stream_purges s)) s).

Definition flush_range_tombstones (gc : option Z) (maxp : Z) (s : PartitionReconcileCheckpoint) :
    PartitionReconcileCheckpoint :=
  let s := with_emitted s in
  let s := with_ranges (coalesce_range_tombstones schema (range_tombstones_seen s)) s in
  let s := with_ranges (retain_ranges (partition_deletion_max s) (range_tombstones_seen s)) s in
  foldl (flush_one gc maxp) s (range_tombstones_seen s).

Definition reshadow_one (s : PartitionReconcileCheckpoint) (entry : MergeEntry) :
    PartitionReconcileCheckpoint :=
  match apply_range_shadowing schema entry (range_tombstones_seen s) with
  | Some shadowed =>
      match apply_partition_shadowing shadowed (partition_deletion_max s) with
      | Some survivor => push_pending survivor s
      | None => s
      end
  | None => s
  end.

Definition reshadow_and_flush_awaiting (s : PartitionReconcileCheckpoint) :
    PartitionReconcileCheckpoint :=
  if is_empty (awaiting_flush s) then s
  else
    let s := with_ranges (coalesce_range_tombstones schema (range_tombstones_seen s)) s in
    foldl reshadow_one (with_awaiting [] s) (awaiting_flush s).

Definition finalize_current_cluster (s : PartitionReconcileCheckpoint) :
    PartitionReconcileCheckpoint :=
  match current_cluster s with
  | None => resolve_partition_prefix s
  | Some (ck, rows) =>
      let s := resolve_partition_prefix (with_cluster None s) in
      let '(gc, maxp) := effective_gc_settings cfg in
      let '(entry, purges) :=
        reconcile_cluster_with_overlap_counted ck rows (dropped_columns schema) gc maxp
          (now_secs cfg) (stream_purges s) in
      let s := with_purges purges s in
      match entry with
      | None => s
      | Some entry =>
          if is_empty (range_tombstones_seen s) then
            match apply_partition_shadowing entry (partition_deletion_max s) with
            | Some survivor => push_pending survivor s
            | None => s
            end
          else with_awaiting (awaiting_flush s ++ [entry]) s
      end
  end.

(** The arms of [step_streaming] for an entry of the partition: the partition's
    deletion, a range marker, a row. *)
Definition take_entry (s : PartitionReconcileCheckpoint) (entry : MergeEntry) :
    PartitionReconcileCheckpoint :=
  match partition_deletion entry with
  | Some (mfda, ldt) =>
      let pk := match partition_deletion_key s with
                | Some k => Some k
                | None => Some (me_key entry)
                end in
      let pd := match partition_deletion_max s with
                | Some (cur_mfda, cur_ldt) =>
                    if cur_mfda >=? mfda then Some (cur_mfda, cur_ldt) else Some (mfda, ldt)
                | None => Some (mfda, ldt)
                end in
      with_deletion pd pk s
  | None =>
      if is_range_marker_carrier entry then
        match range_deletion entry with
        | Some rt =>
            let s := with_ranges (range_tombstones_seen s ++ [(me_key entry, rt)]) s in
            if partition_deletion_resolved s then reshadow_and_flush_awaiting s else s
        | None => s
        end
      else
        let starts_new_cluster :=
          match current_cluster s with
          | Some (ck, _) =>
              match opt_ck_cmp ck_cmp ck (clustering_key entry) with Eq => false | _ => true end
          | None => false
          end in
        let s := if starts_new_cluster then finalize_current_cluster s else s in
        with_cluster
          (Some match current_cluster s with
                | Some (ck, rows) => (ck, rows ++ [entry])
                | None => (clustering_key entry, [entry])
                end) s
  end.

(** The arm for the end of the partition, up to the test for new rows. *)
Definition close_partition (s : PartitionReconcileCheckpoint) : PartitionReconcileCheckpoint :=
  let s := reshadow_and_flush_awaiting (finalize_current_cluster s) in
  if negb (is_empty (range_tombstones_seen s)) && negb (range_tombstones_emitted s)
  then let '(gc, maxp) := effective_gc_settings cfg in flush_range_tombstones gc maxp s
  else s.
End Stream.

(** ** The streaming merger *)

Inductive StreamingStep :=
| ClusterGroup (k : DecoratedKey) (row : MergeEntry)
| PartitionEnd (k : DecoratedKey)
| StreamComplete.

(** [merger] is borrowed from the caller. *)
Record StreamingMerger := mkStreaming {
  merger : Merger;
  partition_key : option DecoratedKey;
  state : PartitionReconcileCheckpoint;
}.

Definition streaming_new (m : Merger) : StreamingMerger := mkStreaming m None fresh.

Definition resume (m : Merger) (saved : option (DecoratedKey * PartitionReconcileCheckpoint)) :
    StreamingMerger :=
  match saved with
  | Some (key, checkpoint) => mkStreaming m (Some key) checkpoint
  | None => mkStreaming m None fresh
  end.

Definition into_paused_state (sm : StreamingMerger) :
    option (DecoratedKey * PartitionReconcileCheckpoint) :=
  option_map (fun key => (key, state sm)) (partition_key sm).

Section Steps.
Context `{Layout} `{DebugFmt}.

Definition pull_one (m : Merger) (current_key : DecoratedKey) :
    Merger * result Error (option MergeEntry) :=
  match heap m with
  | entry :: rest =>
      if bool_decide (me_key entry = current_key) then
        match refill_heap (with_runs_heap m (runs m) rest) (run_index entry) with
        | (m, Ok _) => (m, Ok (Some entry))
        | (m, Err e) => (m, Err e)
        end
      else (m, Ok None)
  | [] => (m, Ok None)
  end.

(** [step_streaming]'s loop. A round that neither returns nor pulls an entry is
    followed by one that returns. [None] is out of fuel. *)
Fixpoint streaming_loop (fuel : nat) (sm : StreamingMerger) :
    option (StreamingMerger * result Error StreamingStep) :=
  match fuel with
  | O => None
  | S fuel =>
      match pending_rows (state sm), partition_key sm with
      | row :: rest, Some key =>
          Some (mkStreaming (merger sm) (Some key) (with_pending rest (state sm)),
                Ok (ClusterGroup key row))
      | row :: rest, None =>
          Some (mkStreaming (merger sm) None (with_pending rest (state sm)), Err InvalidInput)
      | [], _ =>
          let '(sm, started) :=
            match partition_key sm with
            | Some key => (sm, Ok (Some key))
            | None =>
                let '(m, init) :=
                  if is_empty (heap (merger sm)) && negb (is_some (current_partition (merger sm)))
                  then initialize_heap (merger sm) else (merger sm, Ok tt) in
                match init, heap m with
                | Err e, _ => (mkStreaming m None (state sm), Err e)
                | Ok _, [] => (mkStreaming m None (state sm), Ok None)
                | Ok _, top :: _ => (mkStreaming m (Some (me_key top)) fresh, Ok (Some (me_key top)))
                end
            end in
          match started with
          | Err e => Some (sm, Err e)
          | Ok None => Some (sm, Ok StreamComplete)
          | Ok (Some key) =>
              match pull_one (merger sm) key with
              | (m, Err e) => Some (mkStreaming m (Some key) (state sm), Err e)
              | (m, Ok (Some entry)) =>
                  streaming_loop fuel (mkStreaming m (Some key) (take_entry (cfg m) (state sm) entry))
              | (m, Ok None) =>
                  let s := close_partition (cfg m) (state sm) in
                  if negb (is_empty (pending_rows s))
                  then streaming_loop fuel (mkStreaming m (Some key) s)
                  else Some (mkStreaming m None s, Ok (PartitionEnd key))
              end
          end
      end
  end.

Definition step_streaming (sm : StreamingMerger) :
    option (StreamingMerger * result Error StreamingStep) :=
  streaming_loop (S (S (S (entries_left (merger sm))))) sm.
End Steps.
