(* ===== verification/StreamingProps.v ===== *)
(** The streaming merge hands out what the buffered merge computes: the same rows in
    the same order and the same markers, for runs in the heap's order. *)

From S2P Require Import Prelude Values Keys MergeModel Reconcile ReconcileSpec.
From S2P Require Import RangeTombstones Coalesce PartitionMerge PartitionProps KWay KWayProps Streaming.

Open Scope Z_scope.

(** ** The groups of a sorted partition *)

Section Partition.
Context `{DebugFmt} (cfg : MergerConfig) (ts : list CTy) (k : DecoratedKey).
#[local] Abbreviation schema := (mc_schema cfg).
#[local] Abbreviation kcmp := (opt_ck_cmp ck_cmp).

(** The groups so far: the finished ones and the current one. *)
Definition Groups : Type := Clusters * option (option ClusteringKey * list MergeEntry).

Definition same_key (a b : option ClusteringKey) : bool :=
  match kcmp a b with Eq => true | _ => false end.

Definition add_row (g : Groups) (e : MergeEntry) : Groups :=
  match g.2 with
  | Some (ck, rows) =>
      if same_key ck (clustering_key e) then (g.1, Some (ck, rows ++ [e]))
      else (g.1 ++ [(ck, rows)], Some (clustering_key e, [e]))
  | None => (g.1, Some (clustering_key e, [e]))
  end.

Definition groups_in (rows : list MergeEntry) : Groups :=
  foldl add_row ([], None) (List.filter is_clustered rows).

Definition all_groups (g : Groups) : Clusters := g.1 ++ opt_list g.2.

Lemma groups_in_app rows e :
  groups_in (rows ++ [e])
  = if is_clustered e then add_row (groups_in rows) e else groups_in rows.
Proof.
  unfold groups_in. rewrite List.filter_app, foldl_app. cbn. by destruct (is_clustered e).
Qed.

(** Rows without a clustering key form one group. *)
Lemma groups_none rows :
  (forall e, e ∈ rows -> clustering_key e = None) ->
  (groups_in rows).1 = [] /\ forall g, (groups_in rows).2 = Some g -> g.1 = None.
Proof.
  induction rows as [|e rows IH] using rev_ind; intros Hn; [done|].
  destruct IH as [I1 I2]; [intros x Hx; apply Hn, elem_of_app; by left|].
  rewrite groups_in_app. destruct (is_clustered e); [|done].
  unfold add_row. rewrite I1. assert (He : clustering_key e = None) by (apply Hn, elem_of_app; right; by left).
  destruct (groups_in rows).2 as [[ck l]|]; cbn.
  - specialize (I2 _ eq_refl). cbn in I2. subst ck. rewrite He. cbn.
    split; [done|]. by intros g [= <-].
  - split; [done|]. by intros g [= <-].
Qed.

(** *** What one group becomes *)

Definition merged_of (g : option ClusteringKey * list MergeEntry) : option MergeEntry :=
  spec_merge g.1 g.2 (dropped_columns schema) (eff_gc cfg) (eff_maxp cfg) (now_secs cfg).

Lemma survivor_no_ranges pd g :
  survivor cfg [] pd g
  = match merged_of g with Some e => apply_partition_shadowing e pd | None => None end.
Proof. unfold survivor, merged_of. by destruct (spec_merge _ _ _ _ _ _). Qed.

Definition carriers_of (rows : list MergeEntry) : PartitionCarriers := scan_partition_carriers rows.

(** What is ready and what waits once the first group is finished. *)
Definition ready (c : PartitionCarriers) (closed : Clusters) : list MergeEntry :=
  if is_empty (carrier_ranges c)
  then omap (survivor cfg [] (max_partition_deletion c)) closed else [].
Definition held (c : PartitionCarriers) (closed : Clusters) : list MergeEntry :=
  if is_empty (carrier_ranges c) then [] else omap merged_of closed.

Definition prefix_out (c : PartitionCarriers) : list MergeEntry :=
  partition_out cfg (max_partition_deletion c) (partition_delete_key c).

(** ** The state after a part of the partition *)

(** [s] is the state before the first group is finished, and after. *)
Definition before_first (c : PartitionCarriers) (cur : option (option ClusteringKey * list MergeEntry))
    (s : PartitionReconcileCheckpoint) : Prop :=
  pending_rows s = [] /\ range_tombstones_seen s = carrier_ranges c
  /\ partition_deletion_max s = max_partition_deletion c
  /\ partition_deletion_key s = partition_delete_key c
  /\ partition_deletion_resolved s = false /\ current_cluster s = cur
  /\ awaiting_flush s = [] /\ range_tombstones_emitted s = false.

Definition after_first (c : PartitionCarriers) (closed : Clusters)
    (cur : option (option ClusteringKey * list MergeEntry)) (s : PartitionReconcileCheckpoint) : Prop :=
  pending_rows s = prefix_out c ++ ready c closed
  /\ range_tombstones_seen s = carrier_ranges c
  /\ partition_deletion_max s = max_partition_deletion c
  /\ partition_deletion_resolved s = true /\ current_cluster s = cur
  /\ awaiting_flush s = held c closed /\ range_tombstones_emitted s = false.

Definition stream_inv (c : PartitionCarriers) (g : Groups) (s : PartitionReconcileCheckpoint) : Prop :=
  match g.1 with
  | [] => before_first c g.2 s
  | closed => after_first c closed g.2 s
  end.

Lemma resolve_after c cur s :
  before_first c cur s -> after_first c [] cur (resolve_partition_prefix cfg s).
Proof.
  intros (H1 & H2 & H3 & H4 & H5 & H6 & H7 & H8). unfold resolve_partition_prefix. rewrite H5.
  unfold after_first, prefix_out, partition_out, ready, held, eff_gc, eff_maxp.
  destruct (effective_gc_settings cfg) as [gc maxp].
  cbn [with_resolved with_deletion partition_deletion_max partition_deletion_key fst snd].
  rewrite H3, H4.
  destruct (max_partition_deletion c) as [[m l]|];
    [destruct (partition_delete_key c) as [dk|]; [destruct (purges_marker gc maxp m l) eqn:E|]|];
    cbn; rewrite ?H1, ?H2, ?H3, ?H6, ?H7, ?H8, ?E; by destruct (is_empty (carrier_ranges c)).
Qed.

Lemma resolve_id s : partition_deletion_resolved s = true -> resolve_partition_prefix cfg s = s.
Proof. unfold resolve_partition_prefix. by intros ->. Qed.

Lemma omap_one {A B} (f : A -> option B) x : omap f [x] = opt_list (f x).
Proof. cbn. by destruct (f x). Qed.

(** Finishing the current group. *)
Lemma finalize_resolved c closed g s :
  after_first c closed (Some g) s ->
  after_first c (closed ++ [g]) None (finalize_current_cluster cfg s).
Proof.
  intros (H1 & H2 & H3 & H5 & H6 & H7 & H8). unfold finalize_current_cluster. rewrite H6.
  destruct g as [ck rows]. rewrite resolve_id by done.
  assert (Em : forall gc maxp, effective_gc_settings cfg = (gc, maxp) ->
            merged_of (ck, rows) = spec_merge ck rows (dropped_columns schema) gc maxp (now_secs cfg)).
  { intros gc maxp Eg. unfold merged_of, eff_gc, eff_maxp. by rewrite Eg. }
  destruct (effective_gc_settings cfg) as [gc maxp]. specialize (Em _ _ eq_refl).
  set (s1 := with_cluster None s). pose proof (reconcile_spec ck rows (dropped_columns schema) gc maxp
    (now_secs cfg) (stream_purges s1)) as Hr. rewrite <- Em in Hr. clear Em. subst s1.
  destruct (reconcile_cluster_with_overlap_counted _ _ _ _ _ _ _) as [entry purges].
  cbn [fst] in Hr. subst entry. unfold after_first, ready, held. rewrite omap_app, (omap_app merged_of).
  rewrite !omap_one, survivor_no_ranges.
  destruct (merged_of (ck, rows)) as [e|]; cbn [with_purges with_cluster range_tombstones_seen
    partition_deletion_max opt_list] in *; rewrite ?H2, ?H3.
  - unfold ready, held in *. destruct (is_empty (carrier_ranges c)).
    + destruct (apply_partition_shadowing e (max_partition_deletion c)) as [x|]; cbn;
        rewrite ?H1, ?H2, ?H3, ?H5, ?H7, ?H8, ?app_nil_r, <- ?app_assoc; by split_and!.
    + cbn. rewrite ?H1, ?H2, ?H3, ?H5, ?H7, ?H8, ?app_nil_r. by split_and!.
  - unfold ready, held in *. rewrite ?app_nil_r. cbn. rewrite ?H1, ?H2, ?H3, ?H5, ?H7, ?H8. by split_and!.
Qed.

Lemma finalize_resolve s :
  finalize_current_cluster cfg (resolve_partition_prefix cfg s) = finalize_current_cluster cfg s.
Proof.
  assert (Hc : current_cluster (resolve_partition_prefix cfg s) = current_cluster s
               /\ resolve_partition_prefix cfg (with_cluster None (resolve_partition_prefix cfg s))
                  = resolve_partition_prefix cfg (with_cluster None s)
               /\ resolve_partition_prefix cfg (resolve_partition_prefix cfg s)
                  = resolve_partition_prefix cfg s).
  { unfold resolve_partition_prefix. destruct s as [ps rs pd pk [] cu pu aw em]; [done|]. cbn.
    destruct (effective_gc_settings cfg) as [gc maxp].
    destruct pd as [[m l]|], pk as [dk|]; cbn; try done. by destruct (purges_marker gc maxp m l). }
  destruct Hc as (H1 & H2 & H3). unfold finalize_current_cluster.
  rewrite H1. destruct (current_cluster s) as [[ck rows]|]; [by rewrite H2|done].
Qed.

Lemma finalize_first c g s :
  before_first c (Some g) s -> after_first c [g] None (finalize_current_cluster cfg s).
Proof.
  intros Hs%resolve_after. rewrite <- finalize_resolve. by apply (finalize_resolved c [] g).
Qed.

Lemma finalize_groups c g s :
  stream_inv c g s -> after_first c (all_groups g) None (finalize_current_cluster cfg s).
Proof.
  destruct g as [closed cur]. unfold stream_inv, all_groups. cbn [fst snd].
  destruct closed as [|g0 closed].
  - destruct cur as [g|]; [by apply finalize_first|]. intros Hs.
    pose proof Hs as (_ & _ & _ & _ & _ & Hc & _). unfold finalize_current_cluster. rewrite Hc.
    by apply resolve_after.
  - destruct cur as [g|]; intros Hs; [by apply finalize_resolved|].
    pose proof Hs as (_ & _ & _ & H5 & H6 & _). unfold finalize_current_cluster.
    rewrite H6, resolve_id, app_nil_r by done. exact Hs.
Qed.

(** One entry more. A marker must come before the first group is finished. *)
Lemma take_entry_inv rows e s :
  stream_inv (carriers_of rows) (groups_in rows) s ->
  (is_clustered e = false -> (groups_in rows).1 = []) ->
  stream_inv (carriers_of (rows ++ [e])) (groups_in (rows ++ [e])) (take_entry cfg s e).
Proof.
  intros Hs Hfirst. rewrite groups_in_app. unfold carriers_of at 1, scan_partition_carriers at 1.
  rewrite foldl_app. cbn [foldl]. fold (scan_partition_carriers rows). fold (carriers_of rows).
  set (c := carriers_of rows) in *. unfold scan_carrier, take_entry.
  unfold is_clustered, is_partition_delete_carrier in *.
  destruct (partition_deletion e) as [[m l]|]; cbn [is_some andb negb] in *.
  { specialize (Hfirst eq_refl). unfold stream_inv in *. rewrite Hfirst in *.
    destruct Hs as (H1 & H2 & H3 & H4 & H5 & H6 & H7 & H8). by rewrite H3, H4. }
  destruct (is_range_marker_carrier e) eqn:Er; cbn [negb] in *.
  { specialize (Hfirst eq_refl). unfold stream_inv in *. rewrite Hfirst in *.
    destruct Hs as (H1 & H2 & H3 & H4 & H5 & H6 & H7 & H8).
    unfold is_range_marker_carrier in Er. destruct (range_deletion e) as [rt|]; [|done].
    cbn [with_ranges partition_deletion_resolved]. rewrite H5, H2. by split_and!. }
  clear Hfirst. destruct (groups_in rows) as [closed cur] eqn:Eg. unfold add_row. cbn [fst snd].
  assert (Hcur : current_cluster s = cur).
  { unfold stream_inv in Hs. cbn [fst snd] in Hs. destruct closed.
    - by destruct Hs as (_ & _ & _ & _ & _ & ? & _).
    - by destruct Hs as (_ & _ & _ & _ & ? & _). }
  rewrite Hcur. destruct cur as [[ck grp]|].
  - unfold same_key. destruct (kcmp ck (clustering_key e)) eqn:Ek.
    { rewrite Hcur. unfold stream_inv in *. cbn [fst snd] in *. destruct closed;
        [destruct Hs as (?&?&?&?&?&?&?&?)|destruct Hs as (?&?&?&?&?&?&?)]; by split_and!. }
    all: apply finalize_groups in Hs; pose proof Hs as (H1 & H2 & H3 & H5 & H6 & H7 & H8);
         rewrite H6; unfold all_groups in *; cbn [fst snd opt_list] in *;
         unfold stream_inv; cbn [fst snd];
         destruct (closed ++ [(ck, grp)]) eqn:Ec; [by destruct closed|rewrite <- Ec in *]; by split_and!.
  - rewrite Hcur. unfold stream_inv in *. cbn [fst snd] in *. destruct closed;
      [destruct Hs as (?&?&?&?&?&?&?&?)|destruct Hs as (?&?&?&?&?&?&?)]; by split_and!.
Qed.

(** ** The end of the partition *)

Definition shadowed (ranges : list (DecoratedKey * RangeTombstone)) (pd : option (Z * Z))
    (e : MergeEntry) : option MergeEntry :=
  match apply_range_shadowing schema e ranges with
  | Some x => apply_partition_shadowing x pd
  | None => None
  end.

Lemma with_pending_twice a b s : with_pending a (with_pending b s) = with_pending a s.
Proof. done. Qed.

Lemma reshadow_one_eq s e :
  reshadow_one cfg s e
  = match shadowed (range_tombstones_seen s) (partition_deletion_max s) e with
    | Some x => push_pending x s
    | None => s
    end.
Proof. unfold reshadow_one, shadowed. by destruct (apply_range_shadowing _ e _). Qed.

Lemma reshadow_fold l s :
  foldl (reshadow_one cfg) s l
  = with_pending (pending_rows s ++ omap (shadowed (range_tombstones_seen s) (partition_deletion_max s)) l) s.
Proof.
  revert s. induction l as [|e l IH]; intros s; [by destruct s; rewrite app_nil_r|].
  cbn [foldl omap list_omap]. rewrite reshadow_one_eq, IH.
  destruct (shadowed _ _ e) as [y|]; [|done]. cbn. by rewrite <- app_assoc.
Qed.

Lemma flush_fold l s :
  exists purges, foldl (flush_one (eff_gc cfg) (eff_maxp cfg)) s l
    = with_pending (pending_rows s ++ map range_carrier (List.filter (range_kept cfg) l))
        (with_purges purges s).
Proof.
  revert s. induction l as [|p l IH]; intros s; [exists (stream_purges s); destruct s; cbn; by rewrite app_nil_r|].
  cbn [foldl List.filter]. destruct (IH (flush_one (eff_gc cfg) (eff_maxp cfg) s p)) as [q ->].
  exists q. unfold flush_one, range_kept at 2. destruct (purges_marker _ _ _ _); cbn; [done|].
  by rewrite <- app_assoc.
Qed.

(** Nothing is left to do for the partition. *)
Definition drained (s : PartitionReconcileCheckpoint) : Prop :=
  current_cluster s = None /\ partition_deletion_resolved s = true /\ awaiting_flush s = []
  /\ (range_tombstones_seen s = [] \/ range_tombstones_emitted s = true).

Lemma close_drained s : drained s -> close_partition cfg s = s.
Proof.
  intros (H1 & H2 & H3 & H4). unfold close_partition, finalize_current_cluster.
  rewrite H1, resolve_id by done. unfold reshadow_and_flush_awaiting. rewrite H3. cbn [is_empty].
  destruct H4 as [-> | ->]; [done|by rewrite andb_false_r].
Qed.

Lemma survivor_shadowed ranges pd g :
  survivor cfg ranges pd g = merged_of g ≫= shadowed ranges pd.
Proof. unfold survivor, merged_of, shadowed. by destruct (spec_merge _ _ _ _ _ _). Qed.

Lemma omap_survivor ranges pd (G : Clusters) :
  omap (survivor cfg ranges pd) G = omap (shadowed ranges pd) (omap merged_of G).
Proof.
  induction G as [|g G IH]; [done|]. cbn [omap list_omap]. rewrite survivor_shadowed.
  destruct (merged_of g) as [e|]; cbn; [|done]. destruct (shadowed ranges pd e); [|done]. by rewrite IH.
Qed.

(** The markers that go back into the output. *)
Definition markers_out (pd : option (Z * Z)) (ranges : list (DecoratedKey * RangeTombstone)) :
    list MergeEntry :=
  map range_carrier (List.filter (range_kept cfg) (retain_ranges pd ranges)).

Lemma flush_drained pd s :
  current_cluster s = None -> partition_deletion_resolved s = true -> awaiting_flush s = [] ->
  partition_deletion_max s = pd ->
  let s' := flush_range_tombstones cfg (eff_gc cfg) (eff_maxp cfg) s in
  drained s'
  /\ pending_rows s' = pending_rows s
       ++ markers_out pd (coalesce_range_tombstones schema (range_tombstones_seen s)).
Proof.
  intros H1 H2 H3 H4. unfold flush_range_tombstones. cbv zeta.
  destruct (flush_fold (retain_ranges pd (coalesce_range_tombstones schema (range_tombstones_seen s)))
    (with_ranges (retain_ranges pd (coalesce_range_tombstones schema (range_tombstones_seen s)))
      (with_ranges (coalesce_range_tombstones schema (range_tombstones_seen s)) (with_emitted s)))) as [q Hq].
  cbn [with_ranges with_emitted partition_deletion_max range_tombstones_seen] in *. rewrite H4.
  setoid_rewrite Hq. split; [|done]. split_and!; try done. by right.
Qed.

Lemma close_spec c g s :
  stream_inv c g s ->
  coalesce_range_tombstones schema (coalesce_range_tombstones schema (carrier_ranges c))
  = coalesce_range_tombstones schema (carrier_ranges c) ->
  let ranges := coalesce_range_tombstones schema (carrier_ranges c) in
  drained (close_partition cfg s)
  /\ pending_rows (close_partition cfg s)
     = prefix_out c ++ omap (survivor cfg ranges (max_partition_deletion c)) (all_groups g)
       ++ markers_out (max_partition_deletion c) ranges.
Proof.
  intros Hs%finalize_groups Hidem. unfold close_partition.
  destruct Hs as (H1 & H2 & H3 & H5 & H6 & H7 & H8). set (s1 := finalize_current_cluster cfg s) in *.
  clearbody s1. unfold reshadow_and_flush_awaiting. rewrite H7. unfold ready, held in *.
  assert (Eg : effective_gc_settings cfg = (eff_gc cfg, eff_maxp cfg)).
  { unfold eff_gc, eff_maxp. by destruct (effective_gc_settings cfg). }
  destruct (carrier_ranges c) as [|r rs] eqn:Er; cbn [is_empty] in *.
  { rewrite H2. cbn [is_empty negb andb]. split; [split_and!; try done; by left|].
    rewrite H1. change (coalesce_range_tombstones schema []) with (@nil (DecoratedKey * RangeTombstone)).
    unfold markers_out. destruct (max_partition_deletion c) as [[? ?]|]; cbn; by rewrite app_nil_r. }
  assert (Hne : is_empty (carrier_ranges c) = false) by by rewrite Er.
  rewrite <- Er in *. cbv zeta. rewrite Eg.
  rewrite omap_survivor.
  destruct (is_empty (omap merged_of (all_groups g))) eqn:Eh.
  - rewrite H2, H8, Hne. cbn [negb andb].
    destruct (omap merged_of (all_groups g)); [|done].
    destruct (flush_drained (max_partition_deletion c) s1) as [F1 F2]; try done.
    split; [done|]. rewrite F2, H1, H2. cbn. by rewrite app_nil_r.
  - rewrite reshadow_fold.
    cbn [with_awaiting with_ranges with_pending range_tombstones_seen range_tombstones_emitted
      partition_deletion_max pending_rows].
    rewrite H2, H3, H8. set (R := coalesce_range_tombstones schema (carrier_ranges c)) in *.
    destruct (is_empty R) eqn:ER; cbn [negb andb].
    + destruct R; [|done]. split; [split_and!; try done; by left|]. 
      cbn [pending_rows with_pending with_ranges awaiting_flush]. rewrite H1, H7. unfold markers_out.
      destruct (max_partition_deletion c) as [[? ?]|]; cbn; by rewrite !app_nil_r.
    + set (s2 := with_pending _ _).
      destruct (flush_drained (max_partition_deletion c) s2) as [F1 F2]; try done.
      split; [done|]. rewrite F2. unfold s2.
      cbn [with_pending with_awaiting with_ranges pending_rows range_tombstones_seen awaiting_flush].
      by rewrite H1, H7, Hidem, app_nil_r, app_assoc.
Qed.

(** ** Grouping in order is grouping by key *)

#[local] Abbreviation scmp := (opt_ck_cmp (ck_schema_cmp schema)).

Definition full_key (o : option ClusteringKey) : Prop :=
  match o with Some ck => full_ck schema ts ck | None => True end.

Lemma full_key_typed o : full_key o -> ck_P schema ts o.
Proof. destruct o as [ck|]; [by intros [? _]|done]. Qed.

Lemma key_eq_iff a b : full_key a -> full_key b -> kcmp a b = Eq <-> scmp a b = Eq.
Proof.
  destruct a as [a|], b as [b|]; cbn; intros Ha Hb; try done. by apply (ck_cmp_schema_eq schema ts).
Qed.

#[local] Instance kcmp_key_ord : OrdOn (ck_P schema ts) kcmp :=
  opt_ck_cmp_ord (ck_typed schema ts) ck_cmp.
#[local] Instance scmp_key_ord : OrdOn (ck_P schema ts) scmp :=
  opt_ck_cmp_ord (ck_typed schema ts) (ck_schema_cmp schema).

Lemma cluster_push_cases m e :
  clusters_ok schema ts m -> ck_P schema ts (clustering_key e) ->
  (exists m1 g m2, m = m1 ++ g :: m2 /\ kcmp (clustering_key e) g.1 = Eq
     /\ cluster_push m e = m1 ++ (g.1, g.2 ++ [e]) :: m2)
  \/ ((forall g, g ∈ m -> kcmp (clustering_key e) g.1 <> Eq)
      /\ cluster_push m e ≡ₚ (clustering_key e, [e]) :: m).
Proof.
  induction m as [|[k0 rows] m IH]; intros [Hs Hp] He.
  { right. split; [by intros g ?%elem_of_nil|done]. }
  apply StronglySorted_inv in Hs as [Hs Hf]. apply Forall_cons in Hp as [[Hk _] Hp]. cbn in Hk.
  cbn [cluster_push]. destruct (kcmp (clustering_key e) k0) eqn:E.
  - left. by exists [], (k0, rows), m.
  - right. split; [|done]. intros g [->|Hg]%elem_of_cons; [cbn; by rewrite E|].
    rewrite Forall_forall in Hf, Hp. specialize (Hf g Hg). destruct (Hp g Hg) as [Hgk _].
    unfold group_before in Hf. cbn in Hf.
    rewrite (on_trans (P := ck_P schema ts) (cmp := kcmp) (clustering_key e) k0 g.1) by done. done.
  - destruct (IH (conj Hs Hp) He) as [(m1 & g & m2 & -> & Eg & Ep)|[Hno Hperm]].
    + left. exists ((k0, rows) :: m1), g, m2. rewrite Ep. by split_and!.
    + right. split.
      * intros g [->|Hg]%elem_of_cons; [cbn; by rewrite E|by apply Hno].
      * rewrite Hperm. constructor.
Qed.

(** Two groups of a map with equal keys are one. *)
Lemma clusters_unique m g h :
  clusters_ok schema ts m -> g ∈ m -> h ∈ m -> kcmp g.1 h.1 = Eq -> g = h.
Proof.
  intros [Hs Hp]. induction Hs as [|x m Hs IH Hf]; intros Hg Hh E; [by apply elem_of_nil in Hg|].
  apply Forall_cons in Hp as [[Hx _] Hp]. rewrite Forall_forall in Hf.
  apply elem_of_cons in Hg as [->|Hg], Hh as [->|Hh]; [done| | |by apply IH].
  - specialize (Hf h Hh). unfold group_before in Hf. by rewrite E in Hf.
  - pose proof (Hf g Hg) as Hlt. unfold group_before in Hlt.
    rewrite Forall_forall in Hp. destruct (Hp g Hg) as [Hgk _].
    rewrite (on_sym (P := ck_P schema ts) (cmp := kcmp) g.1 x.1) in Hlt by done. by rewrite E in Hlt.
Qed.

Definition ck_sorted (a b : MergeEntry) : Prop := scmp (clustering_key a) (clustering_key b) <> Gt.
Definition group_lt (g h : option ClusteringKey * list MergeEntry) : Prop := scmp g.1 h.1 = Lt.

Lemma ssorted_snoc {A} (R : A -> A -> Prop) l x :
  StronglySorted R (l ++ [x]) <-> StronglySorted R l /\ Forall (fun y => R y x) l.
Proof.
  induction l as [|y l IH]; cbn; split.
  - intros _. split; constructor.
  - intros _. by repeat constructor.
  - intros [Hs Hf]%StronglySorted_inv. apply IH in Hs as [Hs Hl]. apply Forall_app in Hf as [Hf Hx].
    apply Forall_cons in Hx as [Hx _]. split; constructor; done.
  - intros [[Hs Hf]%StronglySorted_inv [Hx Hl]%Forall_cons]. constructor; [by apply IH|].
    apply Forall_app. split; [done|by constructor].
Qed.

Lemma ssorted_filter {A} (R : A -> A -> Prop) p l :
  StronglySorted R l -> StronglySorted R (List.filter p l).
Proof.
  induction 1 as [|x l Hl IH Hx]; [constructor|]. cbn. destruct (p x); [|done].
  constructor; [done|]. apply Forall_forall. intros y [Hy _]%elem_of_filter_b.
  rewrite Forall_forall in Hx. by apply Hx.
Qed.

(** The groups of a sorted list are the map's, in the schema's order. *)
Definition groups_ok (L : list MergeEntry) (g : Groups) : Prop :=
  all_groups g ≡ₚ foldl cluster_push [] L
  /\ StronglySorted group_lt (all_groups g)
  /\ Forall (fun h => full_key h.1) (all_groups g)
  /\ match g.2 with
     | Some h => exists x, last L = Some x /\ kcmp h.1 (clustering_key x) = Eq
     | None => L = [] /\ g.1 = []
     end.

Lemma groups_same L e closed ck rows :
  groups_ok L (closed, Some (ck, rows)) -> rows_typed schema ts L -> full_key (clustering_key e) ->
  kcmp ck (clustering_key e) = Eq ->
  groups_ok (L ++ [e]) (closed, Some (ck, rows ++ [e])).
Proof.
  intros (I1 & I2 & I3 & _) Ht He E. unfold groups_ok, all_groups in *. cbn [fst snd opt_list] in *.
  rewrite foldl_app. cbn [foldl]. destruct (clusters_spec schema ts L Ht) as [Hok _].
  set (m := foldl cluster_push [] L) in *. clearbody m.
  assert (Hcur : (ck, rows) ∈ m) by (rewrite <- I1; apply elem_of_app; right; by left).
  pose proof I3 as [Hfc [Hck _]%Forall_cons]%Forall_app. cbn in Hck.
  apply full_key_typed in He, Hck. split_and!.
  - destruct (cluster_push_cases m e Hok He) as [(m1 & g & m2 & Em & Eg & ->)|[Hno _]].
    2: { exfalso. apply (Hno _ Hcur). cbn. by rewrite (on_sym (P := ck_P schema ts) (cmp := kcmp) ck), E. }
    assert (g = (ck, rows)) as ->.
    { apply (clusters_unique m); [done|rewrite Em; apply elem_of_app; right; by left|done|].
      assert (Hg : ck_P schema ts g.1).
      { destruct Hok as [_ Hp]. rewrite Em in Hp. apply Forall_app in Hp as [_ [[? _] _]%Forall_cons]. done. }
      cbn. rewrite <- (on_eq_l (P := ck_P schema ts) (cmp := kcmp) (clustering_key e) g.1) by done.
      by rewrite (on_sym (P := ck_P schema ts) (cmp := kcmp) ck), E. }
    rewrite Em, <- !Permutation_middle, app_nil_r in I1. apply Permutation_cons_inv in I1.
    cbn [fst snd]. rewrite <- Permutation_middle, app_nil_r, I1. apply Permutation_middle.
  - apply ssorted_snoc in I2 as [? ?]. by apply ssorted_snoc.
  - apply Forall_app. split; [done|]. constructor; [|constructor]. by apply Forall_app in I3 as [_ [? _]%Forall_cons].
  - exists e. by rewrite last_snoc.
Qed.

Lemma groups_new L e closed ck rows :
  groups_ok L (closed, Some (ck, rows)) -> rows_typed schema ts L -> full_key (clustering_key e) ->
  Forall (fun x => full_key (clustering_key x)) L ->
  Forall (fun x => ck_sorted x e) L -> kcmp ck (clustering_key e) <> Eq ->
  groups_ok (L ++ [e]) (closed ++ [(ck, rows)], Some (clustering_key e, [e])).
Proof.
  intros (I1 & I2 & I3 & x & Ex & Exk) Ht He Hk Hle E. unfold groups_ok, all_groups in *.
  cbn [fst snd opt_list] in *. rewrite foldl_app. cbn [foldl].
  destruct (clusters_spec schema ts L Ht) as [Hok _].
  set (m := foldl cluster_push [] L) in *. clearbody m.
  pose proof I3 as [Hfc [Hck _]%Forall_cons]%Forall_app. cbn in Hck, Exk.
  assert (Hx : x ∈ L) by by apply last_Some_elem_of.
  rewrite Forall_forall in Hk, Hle. specialize (Hk x Hx). specialize (Hle x Hx).
  assert (Hlt : scmp ck (clustering_key e) = Lt).
  { apply key_eq_iff in Exk; [|done..].
    unfold ck_sorted in Hle. rewrite <- (on_eq_l (P := ck_P schema ts) (cmp := scmp) ck) in Hle
      by (done || by apply full_key_typed).
    rewrite key_eq_iff in E by done. by destruct (scmp ck (clustering_key e)). }
  assert (Hall : Forall (fun g => scmp g.1 (clustering_key e) = Lt) (closed ++ [(ck, rows)])).
  { apply ssorted_snoc in I2 as [_ Hf]. apply Forall_app. split; [|by constructor].
    eapply Forall_impl; [exact (Forall_both _ _ _ Hf Hfc)|]. intros g [Hg Hgk]. unfold group_lt in Hg.
    cbn in Hg. by apply (on_trans (P := ck_P schema ts) (cmp := scmp) g.1 ck); [apply full_key_typed..| |]. }
  split_and!.
  - destruct (cluster_push_cases m e Hok ltac:(by apply full_key_typed)) as [(m1 & g & m2 & Em & Eg & _)|[_ ->]].
    + exfalso. assert (Hg : g ∈ closed ++ [(ck, rows)]).
      { rewrite I1, Em. apply elem_of_app. right. by left. }
      rewrite Forall_forall in Hall, I3. specialize (Hall g Hg). specialize (I3 g Hg).
      apply key_eq_iff in Eg; [|done..].
      rewrite (on_sym (P := ck_P schema ts) (cmp := scmp) g.1) in Eg by by apply full_key_typed.
      by rewrite Hall in Eg.
    + rewrite Permutation_app_comm. cbn. by rewrite I1.
  - by apply ssorted_snoc.
  - apply Forall_app. split; [done|by constructor].
  - exists e. rewrite last_snoc. split; [done|].
    by apply (on_refl (P := ck_P schema ts)), full_key_typed.
Qed.

Lemma groups_spec L :
  Forall (fun e => full_key (clustering_key e)) L -> StronglySorted ck_sorted L ->
  groups_ok L (foldl add_row ([], None) L).
Proof.
  induction L as [|e L IH] using rev_ind; intros Hk Hs; [split_and!; try done; constructor|].
  apply Forall_app in Hk as [Hk [He _]%Forall_cons]. apply ssorted_snoc in Hs as [Hs Hle].
  specialize (IH Hk Hs). rewrite foldl_app. cbn [foldl].
  assert (Ht : rows_typed schema ts L).
  { eapply Forall_impl; [exact Hk|]. intros x. apply full_key_typed. }
  destruct (foldl add_row ([], None) L) as [closed [[ck rows]|]]; unfold add_row; cbn [fst snd].
  - unfold same_key. destruct (kcmp ck (clustering_key e)) eqn:E; [by apply groups_same|..];
      apply groups_new; try done; by rewrite E.
  - destruct IH as (_ & _ & _ & -> & E). cbn in E. subst closed. unfold groups_ok, all_groups. cbn.
    split_and!; [done|by repeat constructor|by repeat constructor|].
    exists e. split; [done|]. by apply (on_refl (P := ck_P schema ts)), full_key_typed.
Qed.

(** ** The partition *)

Context (rows : list MergeEntry) (Hin : partition_input schema ts k rows).
Context (Hsort : StronglySorted (entry_le schema) rows).
Context (Hmark : forall r, r ∈ rows -> is_clustered r = false -> clustering_key r = None).

Lemma entry_le_ck a b : me_key a = me_key b -> entry_le schema a b -> ck_sorted a b.
Proof.
  unfold entry_le, schema_entry_cmp, entry_cmp_with, ck_sorted. intros ->.
  rewrite Z.compare_refl, (proj2 (bytes_cmp_eq (key (me_key b)) _) eq_refl).
  destruct (clustering_key a), (clustering_key b); cbn; try done.
  by destruct (ck_schema_cmp _ _ _).
Qed.

Lemma rows_ck_sorted : StronglySorted ck_sorted rows.
Proof.
  pose proof (in_key _ _ _ _ Hin) as Hk. clear Hin Hmark. induction Hsort as [|x l Hl IH Hx]; constructor.
  - apply IH; [done|]. intros r Hr. apply Hk. by right.
  - apply Forall_forall. intros y Hy. rewrite Forall_forall in Hx. apply entry_le_ck; [|by apply Hx].
    rewrite (Hk x), (Hk y); [done|by right|by left].
Qed.

(** Nothing with a clustering key comes before a marker. *)
Lemma markers_first pre e post :
  rows = pre ++ e :: post -> is_clustered e = false -> (groups_in pre).1 = [].
Proof.
  intros Er He. apply groups_none. intros x Hx.
  assert (Hek : clustering_key e = None).
  { apply Hmark; [|done]. rewrite Er. apply elem_of_app. right. by left. }
  pose proof rows_ck_sorted as Hs. rewrite Er in Hs.
  assert (Hxe : ck_sorted x e).
  { clear -Hs Hx. induction pre as [|y pre IH]; [by apply elem_of_nil in Hx|].
    apply StronglySorted_inv in Hs as [Hs Hf]. apply elem_of_cons in Hx as [->|Hx]; [|by apply IH].
    rewrite Forall_forall in Hf. apply Hf, elem_of_app. right. by left. }
  unfold ck_sorted in Hxe. rewrite Hek in Hxe. by destruct (clustering_key x).
Qed.

Definition stream_state (l : list MergeEntry) : PartitionReconcileCheckpoint :=
  foldl (take_entry cfg) fresh l.

Lemma stream_state_inv pre post :
  rows = pre ++ post -> stream_inv (carriers_of pre) (groups_in pre) (stream_state pre).
Proof.
  revert post. induction pre as [|e pre IH] using rev_ind; intros post Er; [by split_and!|].
  rewrite <- app_assoc in Er. unfold stream_state. rewrite foldl_app. cbn [foldl].
  apply take_entry_inv; [by apply (IH (e :: post))|]. by apply (markers_first pre e post).
Qed.

Lemma ranges_idempotent :
  coalesce_range_tombstones schema (coalesce_range_tombstones schema (carrier_ranges (carriers_of rows)))
  = coalesce_range_tombstones schema (carrier_ranges (carriers_of rows)).
Proof.
  destruct (scan_spec rows) as (E & _). unfold carriers_of. rewrite E.
  apply (coalesce_idempotent schema ts k).
  - apply Forall_forall. intros p (r & Hr & Ep)%list_elem_of_omap. unfold marker_range in Ep.
    destruct (partition_deletion r); [done|]. destruct (is_range_marker_carrier r); [|done].
    destruct (range_deletion r); [|done]. injection Ep as <-. by apply (in_key _ _ _ _ Hin).
  - by apply (in_marker_ranges schema ts k rows Hin).
Qed.

(** What the partition's rows come to. *)
Definition stream_out : list MergeEntry := pending_rows (close_partition cfg (stream_state rows)).

Lemma stream_out_eq :
  drained (close_partition cfg (stream_state rows))
  /\ stream_out
     = prefix_out (carriers_of rows)
       ++ omap (survivor cfg (input_ranges cfg rows) (input_pd rows)) (all_groups (groups_in rows))
       ++ markers_out (input_pd rows) (input_ranges cfg rows).
Proof.
  apply (close_spec (carriers_of rows)); [|apply ranges_idempotent].
  by apply (stream_state_inv rows []); rewrite app_nil_r.
Qed.

Lemma clustered_full : Forall (fun e => full_key (clustering_key e)) (List.filter is_clustered rows).
Proof.
  apply Forall_forall. intros e [He _]%elem_of_filter_b. unfold full_key.
  destruct (clustering_key e) as [ck|] eqn:E; [|done]. by apply (in_ck _ _ _ _ Hin e).
Qed.

Lemma clustered_sorted : StronglySorted ck_sorted (List.filter is_clustered rows).
Proof. apply ssorted_filter, rows_ck_sorted. Qed.

Lemma stream_out_perm : stream_out ≡ₚ (merge_partition_rows cfg rows).1.
Proof.
  rewrite merge_partition_shape, (sort_by_perm (row_order schema)).
  destruct stream_out_eq as [_ ->].
  destruct (groups_spec _ clustered_full clustered_sorted) as (Hp & _).
  fold (groups_in rows) in Hp. fold (cluster_rows_of rows) in Hp. rewrite Hp.
  fold (markers_out (input_pd rows) (input_ranges cfg rows)).
  unfold prefix_out, carriers_of. fold (input_pd rows).
  rewrite Permutation_app_comm, <- app_assoc. done.
Qed.

Definition has_ck (e : MergeEntry) : bool := is_some (clustering_key e).

Lemma survivors_sorted ranges pd (G : Clusters) :
  StronglySorted group_lt G ->
  StronglySorted (fun a b => row_order schema a b = Lt) (omap (survivor cfg ranges pd) G).
Proof.
  induction 1 as [|g G HG IH Hg]; [constructor|]. cbn [omap list_omap].
  destruct (survivor cfg ranges pd g) as [x|] eqn:Ex; [|done]. constructor; [done|].
  apply Forall_forall. intros y (h & Hh & Ey)%list_elem_of_omap.
  rewrite Forall_forall in Hg. specialize (Hg h Hh). unfold row_order.
  by rewrite (proj1 (survivor_key _ _ _ _ _ Ex)), (proj1 (survivor_key _ _ _ _ _ Ey)).
Qed.

Lemma filter_none_ck l : Forall (fun e => clustering_key e = None) l -> List.filter has_ck l = [].
Proof. unfold has_ck. induction 1 as [|e l He _ IH]; [done|]. cbn. by rewrite He. Qed.

Lemma stream_out_typed e : e ∈ stream_out -> ck_P schema ts (clustering_key e).
Proof.
  destruct stream_out_eq as [_ ->]. rewrite !elem_of_app. intros [He|[He|He]].
  - unfold prefix_out, partition_out in He. destruct (max_partition_deletion _); [|by apply elem_of_nil in He].
    destruct (partition_delete_key _); [|by apply elem_of_nil in He].
    destruct (purges_marker _ _ _ _); [by apply elem_of_nil in He|].
    by apply list_elem_of_singleton in He as ->.
  - apply list_elem_of_omap in He as (g & Hg & Eg). rewrite (proj1 (survivor_key _ _ _ _ _ Eg)).
    destruct (groups_spec _ clustered_full clustered_sorted) as (_ & _ & Hf & _).
    rewrite Forall_forall in Hf. by apply full_key_typed, Hf.
  - apply list_elem_of_fmap in He as (p & -> & _). done.
Qed.

Lemma prefix_out_none c : List.filter has_ck (prefix_out c) = [].
Proof.
  apply filter_none_ck. unfold prefix_out, partition_out.
  destruct (max_partition_deletion c); [|constructor]. destruct (partition_delete_key c); [|constructor].
  destruct (purges_marker _ _ _ _); by repeat constructor.
Qed.

Lemma stream_out_rows :
  List.filter has_ck stream_out = List.filter has_ck (merge_partition_rows cfg rows).1.
Proof.
  apply (StronglySorted_unique_strong (fun a b => row_order schema a b = Lt)).
  - intros a b [Ha _]%elem_of_filter_b [Hb _]%elem_of_filter_b Hab Hba. exfalso.
    rewrite <- stream_out_perm in Hb. unfold row_order in *.
    rewrite (on_sym (P := ck_P schema ts) (cmp := scmp) (clustering_key a)) in Hba
      by by apply stream_out_typed. by rewrite Hab in Hba.
  - destruct stream_out_eq as [_ ->]. rewrite !List.filter_app, prefix_out_none.
    rewrite (filter_none_ck (markers_out _ _)) by (apply Forall_map; by apply Forall_true).
    rewrite app_nil_r. apply ssorted_filter, survivors_sorted.
    by destruct (groups_spec _ clustered_full clustered_sorted) as (_ & ? & _).
  - pose proof (merge_output_order cfg ts k rows Hin) as Hm.
    induction Hm as [|x l Hl IH Hx]; [constructor|]. cbn. unfold has_ck at 1.
    destruct (clustering_key x) eqn:Ex; [|exact IH]. constructor; [exact IH|].
    apply Forall_forall. intros y [Hy _]%elem_of_filter_b. rewrite Forall_forall in Hx.
    apply (Hx y Hy). congruence.
  - apply filter_b_perm, stream_out_perm.
Qed.
End Partition.
