(* ===== verification/StreamingRun.v ===== *)
(** The streaming merger as a whole: the steps of [step_streaming], drained to the end,
    hand out partition by partition what the steps of the buffered merger return. *)

From S2P Require Import Prelude Values Keys MergeModel Reconcile ReconcileSpec.
From S2P Require Import RangeTombstones PartitionMerge PartitionProps KWay KWayProps.
From S2P Require Import Streaming StreamingProps.

Open Scope Z_scope.

(** ** What is ready is a queue

    The operations on the state only append to [pending_rows] and do not look at it. *)

Section Queue.
Context `{DebugFmt} (cfg : MergerConfig).

Definition appends (f : PartitionReconcileCheckpoint -> PartitionReconcileCheckpoint) : Prop :=
  forall l s, f (with_pending l s)
              = with_pending (l ++ pending_rows (f (with_pending [] s))) (f (with_pending [] s)).

Definition blind {A} (c : PartitionReconcileCheckpoint -> A) : Prop :=
  forall l s, c (with_pending l s) = c s.

Lemma with_pending_id s : with_pending (pending_rows s) s = s.
Proof. by destruct s. Qed.

Lemma appends_id : appends (fun s => s).
Proof. intros l s. cbn. by rewrite app_nil_r. Qed.

Lemma appends_comp f g : appends f -> appends g -> appends (fun s => g (f s)).
Proof.
  intros Hf Hg l s. rewrite (Hf l s). set (F := f (with_pending [] s)).
  rewrite (Hg (l ++ pending_rows F) F).
  pose proof (Hg (pending_rows F) F) as E. rewrite with_pending_id in E. rewrite E. cbn.
  by rewrite app_assoc.
Qed.

Lemma appends_if (c : PartitionReconcileCheckpoint -> bool) f g :
  blind c -> appends f -> appends g -> appends (fun s => if c s then f s else g s).
Proof. intros Hc Hf Hg l s. rewrite !Hc. destruct (c s); [apply Hf|apply Hg]. Qed.

Lemma appends_push e : appends (push_pending e).
Proof. intros l s. done. Qed.

Lemma appends_push_of (f : PartitionReconcileCheckpoint -> option MergeEntry) :
  blind f -> appends (fun s => match f s with Some e => push_pending e s | None => s end).
Proof.
  intros Hf l s. rewrite !Hf. destruct (f s); [apply appends_push|apply appends_id].
Qed.

Lemma appends_foldl {B} (f : PartitionReconcileCheckpoint -> B -> PartitionReconcileCheckpoint) xs :
  (forall x, appends (fun s => f s x)) -> appends (fun s => foldl f s xs).
Proof.
  intros Hf. induction xs as [|x xs IH]; [apply appends_id|]. cbn.
  exact (appends_comp (fun s => f s x) (fun s => foldl f s xs) (Hf x) IH).
Qed.

(** A function of the other fields that stores a value computed from them. *)
Lemma appends_of (g : PartitionReconcileCheckpoint -> PartitionReconcileCheckpoint) :
  (forall l s, g (with_pending l s) = with_pending l (g s)) -> appends g.
Proof. intros Hg l s. rewrite !Hg. cbn. by rewrite app_nil_r. Qed.

Lemma appends_resolve : appends (resolve_partition_prefix cfg).
Proof.
  intros l [ps rs pd pk [] cu pu aw em]; cbn; [by rewrite app_nil_r|].
  unfold resolve_partition_prefix. cbn. destruct (effective_gc_settings cfg) as [gc maxp].
  destruct pd as [[m t]|], pk as [dk|]; cbn; rewrite ?app_nil_r; try done.
  destruct (purges_marker gc maxp m t); cbn; by rewrite ?app_nil_r.
Qed.

Lemma appends_flush gc maxp : appends (flush_range_tombstones cfg gc maxp).
Proof.
  intros l s. unfold flush_range_tombstones.
  cbn [with_pending with_ranges with_emitted range_tombstones_seen partition_deletion_max].
  set (xs := retain_ranges _ _).
  refine (appends_foldl (flush_one gc maxp) xs _ l
    (with_ranges xs (with_ranges (coalesce_range_tombstones (mc_schema cfg) (range_tombstones_seen s))
       (with_emitted s)))).
  intros x l' s'. unfold flush_one. cbn. destruct (purges_marker _ _ _ _); cbn; by rewrite ?app_nil_r.
Qed.

Lemma appends_reshadow : appends (reshadow_and_flush_awaiting cfg).
Proof.
  apply (appends_if (fun s => is_empty (awaiting_flush s))); [done|apply appends_id|].
  intros l s. cbn [with_pending range_tombstones_seen awaiting_flush with_ranges].
  set (R := coalesce_range_tombstones (mc_schema cfg) _).
  refine (appends_foldl (reshadow_one cfg) (awaiting_flush s) _ l (with_awaiting [] (with_ranges R s))).
  intros e l' s'. rewrite !reshadow_one_eq. cbn.
  destruct (shadowed cfg _ _ e); cbn; by rewrite ?app_nil_r.
Qed.

(** The reconciliation of the current group, once the prefix is resolved. *)
Definition reconcile_into (ck : option ClusteringKey) (grp : list MergeEntry)
    (s : PartitionReconcileCheckpoint) : PartitionReconcileCheckpoint :=
  let '(gc, maxp) := effective_gc_settings cfg in
  let '(entry, purges) :=
    reconcile_cluster_with_overlap_counted ck grp (dropped_columns (mc_schema cfg)) gc maxp
      (now_secs cfg) (stream_purges s) in
  let s := with_purges purges s in
  match entry with
  | None => s
  | Some entry =>
      if is_empty (range_tombstones_seen s) then
        match apply_partition_shadowing entry (partition_deletion_max s) with
        | Some survivor => push_pending survivor s
        | None => s
        end
      else with_awaiting (awaiting_flush s ++ [entry]) s
  end.

Lemma appends_reconcile ck grp : appends (reconcile_into ck grp).
Proof.
  intros l s. unfold reconcile_into. cbn. destruct (effective_gc_settings cfg) as [gc maxp].
  destruct (reconcile_cluster_with_overlap_counted _ _ _ _ _ _ _) as [[e|] purges]; cbn;
    [|by rewrite app_nil_r].
  destruct (is_empty _); [|by cbn; rewrite app_nil_r].
  destruct (apply_partition_shadowing e _); cbn; by rewrite ?app_nil_r.
Qed.

Lemma appends_finalize : appends (finalize_current_cluster cfg).
Proof.
  intros l s. unfold finalize_current_cluster. cbn [with_pending current_cluster].
  destruct (current_cluster s) as [[ck grp]|]; [|apply appends_resolve].
  exact (appends_comp (resolve_partition_prefix cfg) (reconcile_into ck grp) appends_resolve
    (appends_reconcile ck grp) l (with_cluster None s)).
Qed.

Lemma appends_close : appends (close_partition cfg).
Proof.
  unfold close_partition.
  apply (appends_comp (fun s => reshadow_and_flush_awaiting cfg (finalize_current_cluster cfg s))
    (fun s => if negb (is_empty (range_tombstones_seen s)) && negb (range_tombstones_emitted s)
              then let '(gc, maxp) := effective_gc_settings cfg in flush_range_tombstones cfg gc maxp s
              else s)).
  - apply (appends_comp (finalize_current_cluster cfg)); [apply appends_finalize|apply appends_reshadow].
  - apply (appends_if (fun s => negb (is_empty (range_tombstones_seen s))
                                && negb (range_tombstones_emitted s))); [done| |apply appends_id].
    destruct (effective_gc_settings cfg) as [gc maxp]. apply appends_flush.
Qed.

Lemma appends_take e : appends (fun s => take_entry cfg s e).
Proof.
  intros l s. unfold take_entry. cbn [with_pending partition_deletion_key partition_deletion_max].
  destruct (partition_deletion e) as [[m t]|]; [cbn; by rewrite app_nil_r|].
  destruct (is_range_marker_carrier e).
  { destruct (range_deletion e) as [rt|]; [|cbn; by rewrite app_nil_r].
    cbn [with_ranges with_pending partition_deletion_resolved range_tombstones_seen].
    set (R := _ ++ _). destruct (partition_deletion_resolved s).
    - exact (appends_reshadow l (with_ranges R s)).
    - cbn. by rewrite app_nil_r. }
  cbn [current_cluster with_pending].
  set (new := match current_cluster s with Some _ => _ | None => false end).
  apply (appends_comp (fun s => if new then finalize_current_cluster cfg s else s)
    (fun s => with_cluster (Some match current_cluster s with
              | Some (ck, rows) => (ck, rows ++ [e])
              | None => (clustering_key e, [e]) end) s)).
  - apply (appends_if (fun _ => new)); [done|apply appends_finalize|apply appends_id].
  - by apply appends_of.
Qed.

Definition rest_of (rows : list MergeEntry) (s : PartitionReconcileCheckpoint) :=
  close_partition cfg (foldl (take_entry cfg) s rows).

Lemma appends_rest rows : appends (rest_of rows).
Proof.
  apply (appends_comp (fun s => foldl (take_entry cfg) s rows)); [|apply appends_close].
  apply appends_foldl, appends_take.
Qed.
End Queue.

(** ** One step *)

Section Run.
Context `{Layout} `{DebugFmt}.

Lemma refill_heap_cfg m i : cfg (refill_heap m i).1 = cfg m.
Proof.
  unfold refill_heap. destruct (_ >=? _); [done|]. destruct (runs m !! _) as [run|]; [|done].
  destruct (negb _); [|done]. by destruct (advance run) as [run' [[e|]|e]].
Qed.

Lemma pull_one_cfg m k m' r : pull_one m k = (m', r) -> cfg m' = cfg m.
Proof.
  unfold pull_one. destruct (heap m) as [|e h]; [by intros [= <- _]|].
  case_bool_decide; [|by intros [= <- _]].
  pose proof (refill_heap_cfg (with_runs_heap m (runs m) h) (run_index e)) as E.
  destruct (refill_heap _ _) as [m1 [u|e']]; by intros [= <- _].
Qed.

(** A step with any fuel. *)
Definition yields (sm : StreamingMerger) (r : StreamingMerger * result Error StreamingStep) : Prop :=
  exists fuel, streaming_loop fuel sm = Some r.

Lemma loop_more fuel fuel' sm r :
  (fuel <= fuel')%nat -> streaming_loop fuel sm = Some r -> streaming_loop fuel' sm = Some r.
Proof.
  revert fuel' sm. induction fuel as [|fuel IH]; intros [|fuel'] sm Hle E; [done..|lia|].
  cbn [streaming_loop] in *.
  destruct (pending_rows (state sm)) as [|row rest]; [|by destruct (partition_key sm)].
  destruct (match partition_key sm with Some key => _ | None => _ end) as [sm1 [[key|]|e]]; try done.
  destruct (pull_one (merger sm1) key) as [m [[entry|]|e]]; try done.
  - apply IH; [lia|done].
  - destruct (negb _); [|done]. apply IH; [lia|done].
Qed.

(** Ready rows come first. *)
Lemma yields_row m k row rest s :
  pending_rows s = row :: rest ->
  yields (mkStreaming m (Some k) s) (mkStreaming m (Some k) (with_pending rest s), Ok (ClusterGroup k row)).
Proof. intros E. exists 1%nat. cbn. by rewrite E. Qed.

Lemma yields_pull m k s m1 e r :
  pending_rows s = [] -> pull_one m k = (m1, Ok (Some e)) ->
  yields (mkStreaming m1 (Some k) (take_entry (cfg m) s e)) r -> yields (mkStreaming m (Some k) s) r.
Proof.
  intros Ep Epull [fuel E]. exists (S fuel). cbn [streaming_loop state partition_key merger].
  rewrite Ep, Epull. by rewrite (pull_one_cfg _ _ _ _ Epull).
Qed.

Lemma yields_close m k s r :
  pending_rows s = [] -> pull_one m k = (m, Ok None) -> pending_rows (close_partition (cfg m) s) <> [] ->
  yields (mkStreaming m (Some k) (close_partition (cfg m) s)) r -> yields (mkStreaming m (Some k) s) r.
Proof.
  intros Ep Epull Hne [fuel E]. exists (S fuel). cbn [streaming_loop state partition_key merger].
  rewrite Ep, Epull. by destruct (pending_rows (close_partition (cfg m) s)).
Qed.

Lemma yields_end m k s :
  pending_rows s = [] -> pull_one m k = (m, Ok None) -> pending_rows (close_partition (cfg m) s) = [] ->
  yields (mkStreaming m (Some k) s) (mkStreaming m None (close_partition (cfg m) s), Ok (PartitionEnd k)).
Proof.
  intros Ep Epull Hne. exists 1%nat. cbn [streaming_loop state partition_key merger].
  by rewrite Ep, Epull, Hne.
Qed.

Lemma yields_start m s m1 e h r :
  pending_rows s = [] -> start m = (m1, Ok tt) -> heap m1 = e :: h ->
  yields (mkStreaming m1 (Some (me_key e)) fresh) r -> yields (mkStreaming m None s) r.
Proof.
  intros Ep Est Eh [[|fuel] E]; [done|]. exists (S fuel).
  cbn [streaming_loop state partition_key merger] in *. rewrite Ep. fold (start m).
  rewrite Est, Eh. exact E.
Qed.

Lemma yields_complete m s m1 :
  pending_rows s = [] -> start m = (m1, Ok tt) -> heap m1 = [] ->
  yields (mkStreaming m None s) (mkStreaming m1 None s, Ok StreamComplete).
Proof.
  intros Ep Est Eh. exists 1%nat. cbn [streaming_loop state partition_key merger]. rewrite Ep.
  fold (start m). by rewrite Est, Eh.
Qed.

(** ** A step returns *)

Lemma pull_one_left m k m1 e :
  pull_one m k = (m1, Ok (Some e)) -> (entries_left m1 < entries_left m)%nat.
Proof.
  unfold pull_one. destruct (heap m) as [|x h] eqn:Eh; [done|]. case_bool_decide; [|done].
  pose proof (refill_heap_left (with_runs_heap m (runs m) h) (run_index x)) as Hl.
  destruct (refill_heap _ _) as [m2 [u|e']]; [|done]. intros [= <- <-]. cbn [fst] in Hl.
  assert (E : entries_left m = S (entries_left (with_runs_heap m (runs m) h)))
    by (unfold entries_left; by rewrite Eh).
  lia.
Qed.

Lemma start_left m : (entries_left (start m).1 <= entries_left m)%nat.
Proof. unfold start. destruct (_ && _); [apply initialize_left|done]. Qed.

Lemma loop_total fuel sm :
  (S (entries_left (merger sm)) < fuel)%nat -> is_Some (streaming_loop fuel sm).
Proof.
  revert sm. induction fuel as [|fuel IH]; intros sm Hf; [lia|]. cbn [streaming_loop].
  destruct (pending_rows (state sm)) as [|row rest]; [|by destruct (partition_key sm)].
  fold (start (merger sm)). pose proof (start_left (merger sm)) as Hl.
  assert (Hnext : forall m k s, (entries_left m <= entries_left (merger sm))%nat ->
    is_Some (match pull_one m k with
             | (m0, Ok (Some entry)) =>
                 streaming_loop fuel (mkStreaming m0 (Some k) (take_entry (cfg m0) s entry))
             | (m0, Ok None) =>
                 if negb (is_empty (pending_rows (close_partition (cfg m0) s)))
                 then streaming_loop fuel (mkStreaming m0 (Some k) (close_partition (cfg m0) s))
                 else Some (mkStreaming m0 None (close_partition (cfg m0) s), Ok (PartitionEnd k))
             | (m0, Err e) => Some (mkStreaming m0 (Some k) s, Err e)
             end)).
  { intros m k s Hm. destruct (pull_one m k) as [m1 [[entry|]|e]] eqn:Ep; [| |done].
    - apply IH. cbn. apply pull_one_left in Ep. lia.
    - destruct (pending_rows (close_partition (cfg m1) s)) eqn:Ec; [done|].
      destruct fuel as [|fuel]; [lia|]. cbn [is_empty negb streaming_loop state partition_key].
      by rewrite Ec. }
  destruct (partition_key sm) as [key|]; [by apply Hnext|].
  destruct (start (merger sm)) as [m1 [u|e]]; [|done]. cbn [fst] in Hl.
  destruct (heap m1) as [|top h]; [done|]. by apply Hnext.
Qed.

Lemma step_yields sm r : yields sm r -> step_streaming sm = Some r.
Proof.
  intros [fuel E]. unfold step_streaming.
  destruct (loop_total (S (S (S (entries_left (merger sm))))) sm) as [r' E']; [lia|]. rewrite E'.
  apply (loop_more _ (fuel + S (S (S (entries_left (merger sm))))) _ _) in E; [|lia].
  apply (loop_more _ (fuel + S (S (S (entries_left (merger sm))))) _ _) in E'; [|lia]. congruence.
Qed.

(** ** A partition, drained *)

Inductive stream_partition : StreamingMerger -> DecoratedKey -> list MergeEntry -> StreamingMerger -> Prop :=
| partition_ends sm k sm' :
    step_streaming sm = Some (sm', Ok (PartitionEnd k)) -> stream_partition sm k [] sm'
| partition_row sm k row sm1 l sm' :
    step_streaming sm = Some (sm1, Ok (ClusterGroup k row)) -> stream_partition sm1 k l sm' ->
    stream_partition sm k (row :: l) sm'.

(** The entries [pull_one] takes up to the partition's end. *)
Inductive pulls : Merger -> DecoratedKey -> list MergeEntry -> Merger -> Prop :=
| pulls_end m k : pull_one m k = (m, Ok None) -> pulls m k [] m
| pulls_more m k m1 e l m' :
    pull_one m k = (m1, Ok (Some e)) -> pulls m1 k l m' -> pulls m k (e :: l) m'.

Lemma collect_pulls fuel m k acc m' rows :
  collect fuel m (Some k) acc = Some (m', Ok (Some k, rows)) ->
  exists l, rows = acc ++ l /\ pulls m k l m'.
Proof.
  revert m acc. induction fuel as [|fuel IH]; intros m acc E; [done|]. cbn [collect] in E.
  destruct (heap m) as [|e h] eqn:Eh.
  { injection E as <- <-. exists []. rewrite app_nil_r. split; [done|]. constructor.
    unfold pull_one. by rewrite Eh. }
  destruct (bool_decide (me_key e = k)) eqn:Ek; cbn [negb] in E.
  - destruct (refill_heap (with_runs_heap m (runs m) h) (run_index e)) as [m1 [u|er]] eqn:Er; [|done].
    destruct (IH _ _ E) as (l & -> & Hl). exists (e :: l). rewrite <- app_assoc. split; [done|].
    apply pulls_more with (m1 := m1); [|done]. unfold pull_one. by rewrite Eh, Ek, Er.
  - injection E as <- <-. exists []. rewrite app_nil_r. split; [done|]. constructor.
    unfold pull_one. by rewrite Eh, Ek.
Qed.

Lemma yields_some sm : exists r, yields sm r.
Proof.
  destruct (loop_total (S (S (entries_left (merger sm)))) sm) as [r E]; [lia|]. exists r. by eexists.
Qed.

Lemma partition_from sm1 sm k l sm' :
  (forall r, yields sm1 r -> yields sm r) -> stream_partition sm1 k l sm' -> stream_partition sm k l sm'.
Proof.
  intros Hy Hs. destruct (yields_some sm1) as [r Hr].
  pose proof (step_yields _ _ Hr) as E1. pose proof (step_yields _ _ (Hy r Hr)) as E.
  inversion Hs as [? ? ? E2|? ? ? sm2 ? ? E2 H2]; subst.
  - constructor. congruence.
  - apply partition_row with (sm1 := sm2); [congruence|done].
Qed.

(** The whole output of a partition is the queue its end leaves. *)
Lemma drain_queue m k s :
  drained s -> pull_one m k = (m, Ok None) ->
  stream_partition (mkStreaming m (Some k) s) k (pending_rows s) (mkStreaming m None (with_pending [] s)).
Proof.
  intros Hd Hp. remember (pending_rows s) as l eqn:El. revert s Hd El.
  induction l as [|row l IH]; intros s Hd El.
  - constructor. apply step_yields.
    assert (Hs : with_pending [] s = s) by (rewrite El; apply with_pending_id). rewrite Hs.
    rewrite <- (close_drained (cfg m) s Hd) at 2. apply yields_end; [done|done|].
    by rewrite (close_drained (cfg m) s Hd).
  - apply partition_row with (sm1 := mkStreaming m (Some k) (with_pending l s)).
    + by apply step_yields, yields_row.
    + by apply (IH (with_pending l s)).
Qed.

Lemma rest_pop c rows s row l :
  pending_rows s = row :: l ->
  pending_rows (rest_of c rows s) = row :: pending_rows (rest_of c rows (with_pending l s))
  /\ with_pending [] (rest_of c rows s) = with_pending [] (rest_of c rows (with_pending l s))
  /\ (drained (rest_of c rows s) -> drained (rest_of c rows (with_pending l s))).
Proof.
  intros El. pose proof (appends_rest c rows (row :: l) s) as E1.
  pose proof (appends_rest c rows l s) as E2.
  rewrite <- El, with_pending_id, El in E1. rewrite E1, E2. done.
Qed.

(** Draining a partition gives what its entries come to. *)
Lemma drain_partition m k rows m' s :
  pulls m k rows m' -> drained (rest_of (cfg m) rows s) ->
  stream_partition (mkStreaming m (Some k) s) k (pending_rows (rest_of (cfg m) rows s))
    (mkStreaming m' None (with_pending [] (rest_of (cfg m) rows s))).
Proof.
  intros Hp. revert s. induction Hp as [m k Hp|m k m1 e rows m' Hp Hps IH]; intros s Hd;
    remember (pending_rows s) as l eqn:El; revert s Hd El; induction l as [|row l IHl]; intros s Hd El.
  - destruct (pending_rows (rest_of (cfg m) [] s)) as [|q qs] eqn:Eq.
    + constructor. apply step_yields.
      replace (with_pending [] (rest_of (cfg m) [] s)) with (rest_of (cfg m) [] s)
        by (rewrite <- (with_pending_id (rest_of (cfg m) [] s)) at 1; by rewrite Eq).
      by apply yields_end.
    + apply (partition_from (mkStreaming m (Some k) (rest_of (cfg m) [] s))).
      * intros r. apply yields_close; [done|done|]. unfold rest_of in Eq. cbn in Eq. by rewrite Eq.
      * rewrite <- Eq. by apply drain_queue.
  - destruct (rest_pop (cfg m) [] s row l ltac:(done)) as (-> & -> & Hd').
    eapply partition_row; [by apply step_yields, yields_row|]. apply IHl; [by apply Hd'|done].
  - apply (partition_from (mkStreaming m1 (Some k) (take_entry (cfg m) s e))).
    + intros r. by apply yields_pull.
    + rewrite (pull_one_cfg _ _ _ _ Hp) in IH. by apply IH.
  - destruct (rest_pop (cfg m) (e :: rows) s row l ltac:(done)) as (-> & -> & Hd').
    eapply partition_row; [by apply step_yields, yields_row|]. apply IHl; [by apply Hd'|done].
Qed.

(** ** The whole merge *)

Inductive stream_run : StreamingMerger -> list (DecoratedKey * list MergeEntry) -> Prop :=
| stream_completes sm sm' : step_streaming sm = Some (sm', Ok StreamComplete) -> stream_run sm []
| stream_goes_on sm k rows sm' l :
    stream_partition sm k rows sm' -> stream_run sm' l -> stream_run sm ((k, rows) :: l).

Context (c : MergerConfig) (ts : list CTy).

(** The entries of the runs: rows with all their clustering columns, typed range
    tombstones, and markers without a clustering key. *)
Record entries_ok (l : list MergeEntry) : Prop := {
  ok_ck : forall e ck, e ∈ l -> clustering_key e = Some ck -> full_ck (mc_schema c) ts ck;
  ok_range : forall e rt, e ∈ l -> range_deletion e = Some rt -> rt_typed (mc_schema c) ts rt;
  ok_marker : forall e, e ∈ l -> is_clustered e = false -> clustering_key e = None;
}.

Lemma entries_ok_sub l l' : (forall e, e ∈ l' -> e ∈ l) -> entries_ok l -> entries_ok l'.
Proof. intros Hs [H1 H2 H3]. split; intros e; [intros ck|intros rt|]; intros He; auto; eauto. Qed.

(** The same partition, by the two merges. *)
Definition same_partition (p q : DecoratedKey * list MergeEntry) : Prop :=
  q.1 = p.1 /\ q.2 ≡ₚ p.2 /\ List.filter has_ck q.2 = List.filter has_ck p.2.

Lemma stream_step st ss s :
  step_inv (mc_schema c) ts st ss -> cfg st = c -> pending_rows s = [] ->
  entries_ok (pending (heap st) ss) ->
  exists st' ss', step_inv (mc_schema c) ts st' ss' /\ cfg st' = c /\
  ((exists s', step st = Some (st', Ok SComplete)
      /\ step_streaming (mkStreaming st None s) = Some (mkStreaming st' None s', Ok StreamComplete))
   \/ exists k rows out s', step st = Some (st', Ok (SPartition k rows))
        /\ stream_partition (mkStreaming st None s) k out (mkStreaming st' None s')
        /\ pending_rows s' = [] /\ same_partition (k, rows) (k, out)
        /\ (length (pending (heap st') ss') < length (pending (heap st) ss))%nat
        /\ entries_ok (pending (heap st') ss')).
Proof.
  intros Hinv Hcfg Hps Hok.
  destruct (step_spec (mc_schema c) ts st ss Hinv) as (st' & ss' & Hinv' & Hcfg' & Hcase).
  exists st', ss'. split; [done|]. split; [congruence|].
  destruct Hcase as [(_ & Hs & _ & Hst & Hh)|(k & rows & Hs & Hcol & Hne & Hsort & Hrows & Hpend & _)].
  { left. exists s. split; [done|]. by apply step_yields, yields_complete. }
  right. destruct Hcol as (st1 & e & h & Hst & Hh & Hk & Hcol). subst k.
  destruct (collect_pulls _ _ _ _ _ _ Hcol) as (l & El & Hpulls). cbn in El. subst l.
  assert (Hsub : forall x, x ∈ rows -> x ∈ pending (heap st) ss /\ me_key x = me_key e).
  { intros x. rewrite Hrows. unfold of_key. by intros [? ?%bool_decide_eq_true]%elem_of_filter_b. }
  assert (Hin : partition_input (mc_schema c) ts (me_key e) rows).
  { split; [intros r Hr; by apply Hsub|intros r ck Hr|intros r rt Hr].
    - by apply (ok_ck _ Hok), Hsub.
    - by apply (ok_range _ Hok), Hsub. }
  assert (Hmark : forall r, r ∈ rows -> is_clustered r = false -> clustering_key r = None).
  { intros r Hr. by apply (ok_marker _ Hok), Hsub. }
  assert (Hc1 : cfg st1 = c).
  { pose proof (initialize_inv (mc_schema c) ts st ss Hinv) as Hi. fold (start st) in Hi.
    rewrite Hst in Hi. destruct Hi as (_ & E & _). congruence. }
  destruct (stream_out_eq c ts (me_key e) rows Hin Hsort Hmark) as [Hd _].
  exists (me_key e), (merge_partition_rows c rows).1, (stream_out c rows), (with_pending [] (rest_of c rows fresh)).
  split_and!.
  - by rewrite Hs, Hcfg.
  - apply (partition_from (mkStreaming st1 (Some (me_key e)) fresh)).
    { intros r. by apply (yields_start st s st1 e h). }
    rewrite <- Hc1. apply drain_partition; [done|]. by rewrite Hc1.
  - done.
  - split; [done|]. split; [by apply (stream_out_perm c ts (me_key e))|].
    by apply (stream_out_rows c ts (me_key e)).
  - assert (Hlen : length (pending (heap st) ss) = (length rows + length (pending (heap st') ss'))%nat).
    { rewrite Hrows, Hpend. unfold of_key, not_of_key. clear.
      induction (pending (heap st) ss) as [|x l IH]; [done|]. cbn. case_bool_decide; cbn; lia. }
    destruct rows; [done|cbn in Hlen; lia].
  - apply (entries_ok_sub (pending (heap st) ss)); [|done]. intros x. rewrite Hpend. unfold not_of_key.
    by intros [? _]%elem_of_filter_b.
Qed.

Lemma stream_run_spec n st ss s :
  step_inv (mc_schema c) ts st ss -> cfg st = c -> pending_rows s = [] ->
  entries_ok (pending (heap st) ss) -> (length (pending (heap st) ss) <= n)%nat ->
  exists l st' ls, run_steps st l st' /\ stream_run (mkStreaming st None s) ls
    /\ Forall2 same_partition l ls.
Proof.
  revert st ss s. induction n as [|n IH]; intros st ss s Hinv Hc Hps Hok Hn;
    destruct (stream_step st ss s Hinv Hc Hps Hok) as (st1 & ss1 & Hinv1 & Hc1 & [(s' & H1 & H2)|Hmore]).
  1,3: exists [], st1, []; split_and!; [by constructor|by apply stream_completes with (sm' := mkStreaming st1 None s')|done].
  all: destruct Hmore as (k & rows & out & s' & H1 & H2 & H3 & H4 & H5 & H6).
  { lia. }
  destruct (IH st1 ss1 s' Hinv1 Hc1 H3 H6 ltac:(lia)) as (l & st' & ls & R1 & R2 & R3).
  exists ((k, rows) :: l), st', ((k, out) :: ls). split_and!.
  - by apply steps_more with (st' := st1).
  - by apply stream_goes_on with (sm' := mkStreaming st1 None s').
  - by constructor.
Qed.
End Run.

(** C19: The streaming merge is the buffered merge. The runs are sorted by the comparison of the
    heap, yield no error and number their entries with their own index; every clustering key
    has a value (or null) for every clustering column, of the column's type, one of those
    [compare_values] orders; the bounds of the range deletions hold values of those types
    for all or the first clustering columns; and an entry that only carries a marker or
    static cells has no clustering key. Over such runs, draining [step_streaming] to the end
    hands out, for every step of the buffered merger, the same partition: the same rows
    with a clustering key in the same order, and the same static row and markers. No step
    runs out of rounds. With partial clustering keys the two differ:
    [partial_keys_split]. *)
Theorem streaming_merge_exact `{Layout} `{DebugFmt} c ts inputs
    (Hruns : streams_ok (mc_schema c) ts inputs) (Hok : entries_ok c ts (concat inputs)) :
  exists l st' ls, run_steps (fresh_merger c inputs) l st'
    /\ stream_run (streaming_new (fresh_merger c inputs)) ls
    /\ Forall2 same_partition l ls.
Proof.
  apply (stream_run_spec c ts (length (concat inputs)) (fresh_merger c inputs) inputs fresh);
    [by apply fresh_inv|done|done|done|done].
Qed.

(** Two runs over two partitions; the second begins with a range over [1, 5] at 20. *)
Definition range_entry (run lo hi ts ldt : Z) : MergeEntry :=
  with_range_deletion (entry_new run sample_key None ts (Live []))
    (mkRangeTombstone (Inclusive (sample_ck lo)) (Inclusive (sample_ck hi)) ts ldt).
Definition stream_inputs : list (list MergeEntry) :=
  [ [sample_live 0 4 25 [sample_v 25]; entry_new 0 other_key (Some (sample_ck 1)) 5 (Live [sample_v 5])];
    [range_entry 1 1 5 20 100; sample_live 1 3 15 [sample_v 11]; sample_live 1 8 20 [sample_v 20]] ].

Lemma streaming_merge_exact_witness :
  exists l st' ls, @run_steps sample_layout sample_debug (fresh_merger sample_cfg stream_inputs) l st'
    /\ @stream_run sample_layout sample_debug (streaming_new (fresh_merger sample_cfg stream_inputs)) ls
    /\ Forall2 same_partition l ls.
Proof.
  assert (Hfull : forall n, @full_ck asc_schema [TInt] (sample_ck n)) by apply sample_full.
  apply (@streaming_merge_exact sample_layout sample_debug sample_cfg [TInt] stream_inputs).
  - intros [|[|i]] s Hs; [injection Hs as <-|injection Hs as <-|done].
    all: split; [repeat constructor|].
    all: repeat constructor; vm_compute; discriminate.
  - split.
    + intros e ck He. cbn in He.
      repeat (apply elem_of_cons in He as [->|He]; [intros [= <-]; apply Hfull|]).
      by apply elem_of_nil in He.
    + intros e rt He. cbn in He.
      repeat (apply elem_of_cons in He as [->|He]; [intros [= <-]; split; apply Hfull|]).
      by apply elem_of_nil in He.
    + intros e He. cbn in He.
      repeat (apply elem_of_cons in He as [->|He]; [done|]). by apply elem_of_nil in He.
Defined.

(** ** A range marker behind its rows

    The reader emits a range tombstone when it reads its closing bound, after the rows
    between the bounds, so a run need not be in the heap's order. *)
Fixpoint stream_steps `{Layout} `{DebugFmt} (n : nat) (sm : StreamingMerger) : list StreamingStep :=
  match n with
  | O => []
  | S n =>
      match step_streaming sm with
      | Some (sm, Ok StreamComplete) => [StreamComplete]
      | Some (sm, Ok step) => step :: stream_steps n sm
      | _ => []
      end
  end.

(** An older SSTable holds the rows 1 and 2, written at 5. A newer one holds a range
    over 1 to 3, written at 10 and old enough to be purged, and the row 3 written at 20;
    its reader yields the row before the range. *)
Definition late_runs : list (list MergeEntry) :=
  [ [sample_live 0 1 5 [sample_v 5]; sample_live 0 2 5 [sample_v 5]];
    [sample_live 1 3 20 [sample_v 20]; range_entry 1 1 3 10 100] ].
Definition purging_cfg : MergerConfig := mkConfig asc_schema (Some 1000) None true None.

(** The buffered merge drops the rows 1 and 2 with the range that deletes them. The
    streaming merge has handed out the rows before it sees the range, then purges the
    range: the deleted rows are back. *)
Example streaming_resurrects_row :
  (exists st', @step sample_layout sample_debug (fresh_merger purging_cfg late_runs)
               = Some (st', Ok (SPartition sample_key [sample_live 1 3 20 [sample_v 20]])))
  /\ @stream_steps sample_layout sample_debug 10 (streaming_new (fresh_merger purging_cfg late_runs))
     = [ClusterGroup sample_key (sample_live 0 1 5 [sample_v 5]);
        ClusterGroup sample_key (sample_live 0 2 5 [sample_v 5]);
        ClusterGroup sample_key (sample_live 1 3 20 [sample_v 20]);
        PartitionEnd sample_key; StreamComplete].
Proof. split; [eexists; vm_compute; reflexivity|vm_compute; reflexivity]. Qed.

(** ** Partial clustering keys

    In the schema's order an absent trailing component ties with null; the equality of keys
    tells them apart. Over columns c1 and c2, the first and the last run hold the key [1], the
    run between them [1, null]. *)
Definition two_column_schema : TableSchema :=
  mkTableSchema "ks" "t" [mkKeyColumn "p" "int" 0]
    [mkClusteringColumn "c1" "int" 0 Asc; mkClusteringColumn "c2" "int" 1 Asc] [] ∅ ∅.
Definition two_column_cfg : MergerConfig := mkConfig two_column_schema None None false None.
Definition short_ck : ClusteringKey := [("c1"%string, Integer 1)].
Definition null_ck : ClusteringKey := [("c1"%string, Integer 1); ("c2"%string, Null)].
Definition keyed_live (run : Z) (ck : ClusteringKey) (ts : Z) : MergeEntry :=
  entry_new run sample_key (Some ck) ts (Live [sample_v ts]).
Definition partial_runs : list (list MergeEntry) :=
  [ [keyed_live 0 short_ck 5]; [keyed_live 1 null_ck 7]; [keyed_live 2 short_ck 9] ].

(** The buffered merge gives one row for [1]. The streaming merge closes the cluster of [1]
    when it meets [1, null] and opens it again behind, so it hands [1] out twice. *)
Example partial_keys_split :
  (exists st', @step sample_layout sample_debug (fresh_merger two_column_cfg partial_runs)
               = Some (st', Ok (SPartition sample_key [keyed_live 0 short_ck 9; keyed_live 1 null_ck 7])))
  /\ @stream_steps sample_layout sample_debug 10 (streaming_new (fresh_merger two_column_cfg partial_runs))
     = [ClusterGroup sample_key (keyed_live 0 short_ck 5);
        ClusterGroup sample_key (keyed_live 1 null_ck 7);
        ClusterGroup sample_key (keyed_live 2 short_ck 9);
        PartitionEnd sample_key; StreamComplete].
Proof. split; [eexists; vm_compute; reflexivity|vm_compute; reflexivity]. Qed.
