(* ===== verification/Expired.v ===== *)
(** Fully-expired SSTables ([merge/fully_expired.rs]) and the overlap bound
    ([merge/mod.rs] [compute_max_purgeable_timestamp]): which inputs of a compaction
    are dropped whole, which are merged, and which are deleted afterwards. *)

From S2P Require Import Prelude.

Open Scope Z_scope.

Record TimestampStatistics := mkStats {
  min_timestamp : Z;
  ts_max_timestamp : option Z;
  min_deletion_time : Z;
  max_deletion_time : Z;
  min_ttl : option Z;
  max_ttl : option Z;
  rows_with_ttl : option Z;
}.

Definition i64_MIN : Z := - 2 ^ 63.
Definition NO_MAX_TIMESTAMP_SENTINEL : Z := i64_MIN.

Definition is_fully_expired (stats : TimestampStatistics) (gc_before_secs : Z) : bool :=
  max_deletion_time stats <? gc_before_secs.

Definition authoritative_max_timestamp (stats : TimestampStatistics) : option Z :=
  match ts_max_timestamp stats with
  | Some ts => if negb (ts =? NO_MAX_TIMESTAMP_SENTINEL) then Some ts else None
  | None => None
  end.

Definition PathBuf := string.

(** The loop that folds the non-expired inputs into the bound; [None] is the early
    return on an input without statistics. *)
Definition fold_bound (gc_before : Z) (acc : option Z) (p : PathBuf * option TimestampStatistics)
    : option Z :=
  match acc with
  | None => None
  | Some overlap_bound =>
      match p.2 with
      | Some s => if is_fully_expired s gc_before then Some overlap_bound
                  else Some (Z.min overlap_bound (min_timestamp s))
      | None => None
      end
  end.

Definition drop_candidate (gc_before overlap_bound : Z) (p : PathBuf * option TimestampStatistics)
    : option PathBuf :=
  match p.2 with
  | None => None
  | Some stats =>
      match authoritative_max_timestamp stats with
      | None => None
      | Some candidate_max_ts =>
          if is_fully_expired stats gc_before && (candidate_max_ts <? overlap_bound)
          then Some p.1 else None
      end
  end.

Definition classify_drop_set (input_stats : list (PathBuf * option TimestampStatistics))
    (outside_bound : option Z) (gc_before : Z) : list PathBuf :=
  match outside_bound with
  | None => []
  | Some overlap_bound =>
      match foldl (fold_bound gc_before) (Some overlap_bound) input_stats with
      | None => []
      | Some overlap_bound => omap (drop_candidate gc_before overlap_bound) input_stats
      end
  end.

(** Reading and parsing a [Statistics.db] file is a parameter: it answers the
    timestamp statistics, or nothing when the file is absent or unreadable. *)
Section Files.
Context (read_timestamp_stats : PathBuf -> option TimestampStatistics).

Definition fold_min (acc : option Z) (path : PathBuf) : option Z :=
  match acc with
  | None => None
  | Some min_ts =>
      match read_timestamp_stats path with
      | Some stats => Some (Z.min min_ts (min_timestamp stats))
      | None => None
      end
  end.

Definition compute_max_purgeable_timestamp (outside_paths : list PathBuf) : option Z :=
  match outside_paths with
  | [] => None
  | _ => foldl fold_min (Some i64_MAX) outside_paths
  end.

Definition fully_expired_sstables (input_paths outside_paths : list PathBuf)
    (gc_before_secs : option Z) : list PathBuf :=
  match gc_before_secs with
  | None => []
  | Some gc_before =>
      let input_stats := map (fun p => (p, read_timestamp_stats p)) input_paths in
      match outside_paths with
      | [] => classify_drop_set input_stats (Some i64_MAX) gc_before
      | _ =>
          match compute_max_purgeable_timestamp outside_paths with
          | Some bound => classify_drop_set input_stats (Some bound) gc_before
          | None => []
          end
      end
  end.
End Files.

Definition split_merge_and_dropped (input_paths drop_set : list PathBuf)
    : list PathBuf * list PathBuf :=
  let merge_inputs := List.filter (fun p => negb (bool_decide (p ∈ drop_set))) input_paths in
  match merge_inputs with
  | _ :: _ => (merge_inputs, drop_set)
  | [] => (match drop_set with retained :: _ => [retained] | [] => [] end, drop_set)
  end.

(** The paths [reclaim_dropped_whole] passes to its [delete] callback, in order. *)
Definition reclaim_dropped_whole (dropped_whole already_deleted : list PathBuf) : list PathBuf :=
  List.filter (fun p => negb (bool_decide (p ∈ already_deleted))) dropped_whole.

(** ** The bounds *)

Lemma fold_bound_spec gc l b r :
  foldl (fold_bound gc) (Some b) l = Some r <->
  (forall p, p ∈ l -> is_Some p.2)
  /\ r = foldl Z.min b (omap (fun p => match p.2 with
           | Some s => if is_fully_expired s gc then None else Some (min_timestamp s)
           | None => None end) l).
Proof.
  revert b. induction l as [|[p o] l IH]; intros b; cbn [foldl omap list_omap fold_bound snd].
  { split; [intros [= ->]; split; [by intros ? ?%elem_of_nil|done]|by intros [_ ->]]. }
  destruct o as [s|].
  - destruct (is_fully_expired s gc); cbn [foldl]; rewrite IH; (split; intros [Hl Hr]; split; try done).
    1,3: intros q [->|Hq]%elem_of_cons; [done|by apply Hl].
    all: intros q Hq; apply Hl; by right.
  - split; [|intros [Hl _]; by destruct (Hl (p, None) ltac:(by left))].
    intros Hf. exfalso. clear IH b. induction l as [|q l IH]; [done|by apply IH].
Qed.

Lemma foldl_min_lt l b m : m < foldl Z.min b l <-> m < b /\ forall x, x ∈ l -> m < x.
Proof.
  revert b. induction l as [|y l IH]; intros b; cbn.
  - split; [intros; split; [done|by intros ? ?%elem_of_nil]|tauto].
  - rewrite IH, Z.min_glb_lt_iff. setoid_rewrite elem_of_cons. split.
    + intros [[? ?] ?]. split; [done|]. intros x [->|?]; auto.
    + intros [? Hl]. split; [split; [done|by apply Hl; left]|]. intros x ?. apply Hl. by right.
Qed.

Lemma fold_min_spec read l b r :
  foldl (fold_min read) (Some b) l = Some r <->
  (forall p, p ∈ l -> is_Some (read p))
  /\ r = foldl Z.min b (omap (fun p => option_map min_timestamp (read p)) l).
Proof.
  revert b. induction l as [|p l IH]; intros b; cbn [foldl omap list_omap fold_min].
  { split; [intros [= ->]; split; [by intros ? ?%elem_of_nil|done]|by intros [_ ->]]. }
  destruct (read p) as [s|] eqn:E.
  - cbn. rewrite IH. split; intros [Hl Hr]; (split; [|done]).
    + intros q [->|Hq]%elem_of_cons; [by rewrite E|by apply Hl].
    + intros q Hq. apply Hl. by right.
  - split.
    + intros Hf. exfalso. clear IH b. induction l as [|q l IH]; [done|by apply IH].
    + intros [Hl _]. destruct (Hl p ltac:(by left)) as [s Hs]. congruence.
Qed.

Lemma nodup_filter {A} (p : A -> bool) l : NoDup l -> NoDup (List.filter p l).
Proof.
  induction 1 as [|x l Hx Hl IH]; cbn; [constructor|]. destruct (p x); [|done].
  constructor; [|done]. intros Hin. apply Hx. apply list_elem_of_In in Hin.
  apply filter_In in Hin as [Hin _]. by apply list_elem_of_In.
Qed.

(** ** Properties *)

(** An SSTable whose newest write is known and predates [bound]. *)
Definition predates (stats : TimestampStatistics) (bound : Z) : Prop :=
  exists m, ts_max_timestamp stats = Some m /\ m <> NO_MAX_TIMESTAMP_SENTINEL /\ m < bound.

Lemma drop_candidate_spec gc bound p path :
  drop_candidate gc bound p = Some path <->
  path = p.1 /\ exists s, p.2 = Some s /\ is_fully_expired s gc = true /\ predates s bound.
Proof.
  destruct p as [q [s|]]; cbn; [|split; [done|by intros (_ & ? & ? & _)]].
  unfold authoritative_max_timestamp, predates.
  destruct (ts_max_timestamp s) as [m|] eqn:Em.
  2: { split; [done|]. intros (_ & s' & [= <-] & _ & m & E & _). congruence. }
  destruct (Z.eqb_spec m NO_MAX_TIMESTAMP_SENTINEL) as [->|Hne]; cbn [negb].
  { split; [done|]. intros (_ & s' & [= <-] & _ & m & E & Hne & _). congruence. }
  destruct (is_fully_expired s gc) eqn:Ex, (Z.ltb_spec m bound); cbn; split.
  all: try done.
  - intros [= ->]. split; [done|]. exists s. split_and!; try done. by exists m.
  - by intros [-> _].
  - intros (_ & s' & [= <-] & _ & m' & E & _ & Hlt). rewrite E in Em. injection Em as ->. lia.
  - intros (_ & s' & [= <-] & E & _). congruence.
  - intros (_ & s' & [= <-] & E & _). congruence.
Qed.

Lemma predates_min s l :
  predates s (foldl Z.min i64_MAX l) <-> predates s i64_MAX /\ forall x, x ∈ l -> predates s x.
Proof.
  unfold predates. split.
  - intros (m & E & Hne & [H1 H2]%foldl_min_lt). split; [by exists m|]. intros x Hx. exists m. auto.
  - intros [(m & E & Hne & H1) H2]. exists m. split_and!; try done. apply foldl_min_lt.
    split; [done|]. intros x Hx. destruct (H2 x Hx) as (m' & E' & _ & ?). congruence.
Qed.

Section DropSet.
Context (read : PathBuf -> option TimestampStatistics) (inputs outside : list PathBuf) (g : Z).

Definition outside_bound : option Z :=
  match outside with [] => Some i64_MAX | _ => compute_max_purgeable_timestamp read outside end.

Definition outside_mins : list Z := omap (fun p => option_map min_timestamp (read p)) outside.
Definition fresh_mins : list Z :=
  omap (fun p => match p.2 with
                 | Some s => if is_fully_expired s g then None else Some (min_timestamp s)
                 | None => None end) (map (fun p => (p, read p)) inputs).

Lemma fully_expired_classify :
  fully_expired_sstables read inputs outside (Some g)
  = classify_drop_set (map (fun p => (p, read p)) inputs) outside_bound g.
Proof.
  unfold fully_expired_sstables, outside_bound. destruct outside; [done|].
  by destruct (compute_max_purgeable_timestamp _ _).
Qed.

Lemma outside_bound_spec b :
  outside_bound = Some b <->
  (forall q, q ∈ outside -> is_Some (read q)) /\ b = foldl Z.min i64_MAX outside_mins.
Proof.
  unfold outside_bound, outside_mins, compute_max_purgeable_timestamp. destruct outside as [|q l].
  - cbn. split; [intros [= <-]; split; [by intros ? ?%elem_of_nil|done]|by intros [_ ->]].
  - apply fold_min_spec.
Qed.

Lemma outside_mins_elem x :
  x ∈ outside_mins <-> exists q sq, q ∈ outside /\ read q = Some sq /\ x = min_timestamp sq.
Proof.
  unfold outside_mins. rewrite list_elem_of_omap. split.
  - intros (q & Hq & E). destruct (read q) as [sq|] eqn:Eq; [|done]. injection E as <-. by exists q, sq.
  - intros (q & sq & Hq & Eq & ->). exists q. by rewrite Eq.
Qed.

Lemma fresh_mins_elem x :
  x ∈ fresh_mins <-> exists q sq, q ∈ inputs /\ read q = Some sq
    /\ is_fully_expired sq g = false /\ x = min_timestamp sq.
Proof.
  unfold fresh_mins. rewrite list_elem_of_omap. split.
  - intros (p & (q & -> & Hq)%list_elem_of_fmap & E). cbn in E.
    destruct (read q) as [sq|] eqn:Eq; [|done]. destruct (is_fully_expired sq g) eqn:Ex; [done|].
    injection E as <-. by exists q, sq.
  - intros (q & sq & Hq & Eq & Ex & ->). exists (q, read q).
    split; [apply list_elem_of_fmap; by exists q|]. cbn. by rewrite Eq, Ex.
Qed.

Lemma fold_inputs b :
  foldl (fold_bound g) (Some b) (map (fun p => (p, read p)) inputs) = Some (foldl Z.min b fresh_mins)
  <-> forall q, q ∈ inputs -> is_Some (read q).
Proof.
  rewrite fold_bound_spec. split.
  - intros [Hl _] q Hq. apply (Hl (q, read q)). apply list_elem_of_fmap. by exists q.
  - intros Hl. split; [|done]. intros p (q & -> & Hq)%list_elem_of_fmap. by apply Hl.
Qed.

Lemma classify_elem path :
  path ∈ classify_drop_set (map (fun p => (p, read p)) inputs) outside_bound g <->
  (forall q, q ∈ outside -> is_Some (read q)) /\ (forall q, q ∈ inputs -> is_Some (read q))
  /\ path ∈ inputs /\ exists s, read path = Some s /\ is_fully_expired s g = true
       /\ predates s (foldl Z.min i64_MAX (outside_mins ++ fresh_mins)).
Proof.
  rewrite foldl_app. unfold classify_drop_set. destruct outside_bound as [b|] eqn:Eo.
  2: { split; [by intros ?%elem_of_nil|]. intros (Ho & _). exfalso.
       pose proof (proj2 (outside_bound_spec _) (conj Ho eq_refl)). congruence. }
  apply outside_bound_spec in Eo as [Ho Eb]. rewrite <- Eb.
  destruct (foldl (fold_bound g) (Some b) _) as [b'|] eqn:Ef.
  - pose proof Ef as [_ Eb']%fold_bound_spec. fold fresh_mins in Eb'. rewrite Eb' in Ef.
    pose proof (proj1 (fold_inputs b) Ef) as Hi. rewrite <- Eb', list_elem_of_omap. split.
    + intros (p & (q & -> & Hq)%list_elem_of_fmap & (-> & s & Es & ? & ?)%drop_candidate_spec).
      cbn in *. split_and!; try done. by exists s.
    + intros (_ & _ & Hp & s & Es & ? & ?). exists (path, read path).
      split; [apply list_elem_of_fmap; by exists path|]. apply drop_candidate_spec.
      split; [done|]. by exists s.
  - split; [by intros ?%elem_of_nil|]. intros (_ & Hi & _). apply (fold_inputs b) in Hi. congruence.
Qed.
End DropSet.

(** Which inputs a compaction drops unread: exactly those whose every deletion
    is before the gc cutoff and whose newest write is known and strictly older than every
    write of every overlapping SSTable outside the compaction and of every input that is
    not itself fully expired; and none at all without a cutoff or when the statistics of
    any of these files cannot be read. *)
Theorem expired_drop_exact read inputs outside gc path :
  path ∈ fully_expired_sstables read inputs outside gc <->
  exists g s, gc = Some g /\ path ∈ inputs /\ read path = Some s
    /\ is_fully_expired s g = true /\ predates s i64_MAX
    /\ (forall q, q ∈ outside -> exists sq, read q = Some sq /\ predates s (min_timestamp sq))
    /\ (forall q, q ∈ inputs -> exists sq, read q = Some sq
          /\ (is_fully_expired sq g = false -> predates s (min_timestamp sq))).
Proof.
  destruct gc as [g|].
  2: { split; [by intros ?%elem_of_nil|by intros (? & ? & ? & _)]. }
  rewrite fully_expired_classify, classify_elem. split.
  - intros (Ho & Hi & Hp & s & Es & Ex & [Hmax Hx]%predates_min). exists g, s. split_and!; try done.
    + intros q Hq. destruct (Ho q Hq) as [sq Eq]. exists sq. split; [done|].
      apply Hx, elem_of_app. left. apply outside_mins_elem. by exists q, sq.
    + intros q Hq. destruct (Hi q Hq) as [sq Eq]. exists sq. split; [done|]. intros Hne.
      apply Hx, elem_of_app. right. apply fresh_mins_elem. by exists q, sq.
  - intros (g' & s & [= <-] & Hp & Es & Ex & Hmax & Ho & Hi). split_and!; try done.
    + intros q Hq. destruct (Ho q Hq) as (sq & -> & _). done.
    + intros q Hq. destruct (Hi q Hq) as (sq & -> & _). done.
    + exists s. split_and!; try done. apply predates_min. split; [done|].
      intros x [(q & sq & Hq & Eq & ->)%outside_mins_elem
               |(q & sq & Hq & Eq & Hne & ->)%fresh_mins_elem]%elem_of_app.
      * destruct (Ho q Hq) as (sq' & E & ?). congruence.
      * destruct (Hi q Hq) as (sq' & E & Hpr). rewrite Eq in E. injection E as <-. by apply Hpr.
Qed.

(** ** Merged or dropped, and deleted once *)

(** After a compaction every input SSTable is deleted exactly once: the files
    the merger reads and the dropped files reclaimed besides them are together the
    inputs, each once, and the merger has a source whenever there is an input. *)
Theorem inputs_deleted_once inputs drop_set
    (Hnd : NoDup inputs) (Hdn : NoDup drop_set) (Hsub : forall p, p ∈ drop_set -> p ∈ inputs) :
  let '(merge_inputs, dropped) := split_merge_and_dropped inputs drop_set in
  merge_inputs ++ reclaim_dropped_whole dropped merge_inputs ≡ₚ inputs
  /\ (inputs <> [] -> merge_inputs <> [])
  /\ dropped = drop_set.
Proof.
  unfold split_merge_and_dropped.
  assert (Hf : forall p, p ∈ List.filter (fun p => negb (bool_decide (p ∈ drop_set))) inputs
                 <-> p ∈ inputs /\ p ∉ drop_set).
  { intros p. by rewrite list_elem_of_In, filter_In, <- list_elem_of_In, negb_true_iff, bool_decide_eq_false. }
  assert (Hr : forall m p, p ∈ reclaim_dropped_whole drop_set m <-> p ∈ drop_set /\ p ∉ m).
  { intros m p. unfold reclaim_dropped_whole.
    by rewrite list_elem_of_In, filter_In, <- list_elem_of_In, negb_true_iff, bool_decide_eq_false. }
  assert (Hall : forall m, NoDup m -> (forall p, p ∈ m -> p ∈ inputs) ->
            (forall p, p ∈ inputs -> p ∈ m \/ p ∈ drop_set) ->
            m ++ reclaim_dropped_whole drop_set m ≡ₚ inputs).
  { intros m Hm Hmi Hcov. apply NoDup_Permutation; [|done|].
    - apply NoDup_app. split; [done|]. split; [intros p Hp Hq; by apply Hr in Hq as [_ ?]|].
      apply nodup_filter. done.
    - intros p. rewrite elem_of_app, Hr. split.
      + intros [?|[? _]]; auto.
      + intros Hp. destruct (decide (p ∈ m)); [by left|right].
        split; [|done]. by destruct (Hcov p Hp). }
  destruct (List.filter _ inputs) as [|q m] eqn:Ef.
  - assert (Hin : forall p, p ∈ inputs -> p ∈ drop_set).
    { intros p Hp. destruct (decide (p ∈ drop_set)); [done|exfalso].
      apply (elem_of_nil p), Hf. done. }
    split_and!; [|intros Hne Hnil|done].
    + destruct drop_set as [|d ds]; apply Hall.
      1: constructor.
      1: by intros p ?%elem_of_nil.
      1: intros p Hp; right; by apply Hin.
      * apply NoDup_singleton.
      * intros p ->%list_elem_of_singleton. apply Hsub. by left.
      * intros p Hp. right. by apply Hin.
    + destruct drop_set; [|done]. destruct inputs as [|p ps]; [done|].
      by specialize (Hin p ltac:(by left)) as ?%elem_of_nil.
  - rewrite <- Ef in *. split_and!; [|intros _ E; by rewrite Ef in E|done]. apply Hall.
    + by apply nodup_filter.
    + intros p Hp. by apply Hf in Hp as [? _].
    + intros p Hp. rewrite Hf. destruct (decide (p ∈ drop_set)); auto.
Qed.

(** Three files: an expired one, a live one, and an expired one too new to drop. *)
Definition sample_stats (p : PathBuf) : option TimestampStatistics :=
  if decide (p = "a"%string) then Some (mkStats 1 (Some 5) 0 50 None None None)
  else if decide (p = "b"%string) then Some (mkStats 10 (Some 90) 0 i64_MAX None None None)
  else if decide (p = "c"%string) then Some (mkStats 20 (Some 30) 0 60 None None None)
  else None.

Example sample_drop : fully_expired_sstables sample_stats ["a"; "b"; "c"]%string [] (Some 100) = ["a"%string].
Proof. vm_compute. reflexivity. Qed.

Lemma inputs_deleted_once_witness :
  (["b"; "c"] ++ reclaim_dropped_whole ["a"] ["b"; "c"] ≡ₚ ["a"; "b"; "c"])%string.
Proof.
  assert (H1 : NoDup ["a"; "b"; "c"]%string) by (apply (bool_decide_unpack _); vm_compute; exact I).
  assert (H2 : NoDup ["a"]%string) by (apply (bool_decide_unpack _); vm_compute; exact I).
  pose proof (inputs_deleted_once ["a"; "b"; "c"]%string ["a"]%string H1 H2) as H.
  refine (proj1 (H _)). intros p Hp. apply list_elem_of_singleton in Hp as ->. left.
Defined.
