(* ===== verification/Bloom.v ===== *)
(** The Bloom filter of an SSTable ([storage/sstable/bloom.rs]): double hashing with
    Cassandra's Murmur3, the bit array, and its [Filter.db] encoding. *)

From S2P Require Import Prelude FloatCmp Murmur3.

Open Scope Z_scope.

Definition MAX_HASH_COUNT : Z := 1024.

(** The error kinds of [bloom.rs]. *)
Inductive BloomError := Configuration | Serialization | Corruption.

#[export] Instance BloomError_eq_dec : EqDecision BloomError.
Proof. solve_decision. Defined.

Definition abs_i64 (v : Z) : Z :=
  let negbit := Z.shiftr v 63 in
  as_i64 (Z.lxor v negbit - negbit).

(** [bits] are [u64] words, [false_positive_rate] the bit pattern of an [f64]. *)
Record BloomFilter := mkBloomFilter {
  bits : list Z;
  hash_count : Z;
  bit_count : Z;
  expected_elements : Z;
  false_positive_rate : Z;
}.

Definition with_bits (f : BloomFilter) (b : list Z) : BloomFilter :=
  mkBloomFilter b (hash_count f) (bit_count f) (expected_elements f) (false_positive_rate f).

(** ** Construction *)

(** The [f64] operations the sizing formula uses, on bit patterns. [f64_to_u64] and
    [f64_to_u32] are Rust's saturating [as] casts. *)
Class FloatOps := {
  f64_of_u64 : Z -> Z;
  f64_neg : Z -> Z;
  f64_mul : Z -> Z -> Z;
  f64_div : Z -> Z -> Z;
  f64_ln : Z -> Z;
  f64_powi : Z -> Z -> Z;
  f64_ceil : Z -> Z;
  f64_to_u64 : Z -> Z;
  f64_to_u32 : Z -> Z;
}.

Definition f64_0_0 : Z := 0.
Definition f64_1_0 : Z := 0x3FF0000000000000.
Definition f64_2_0 : Z := 0x4000000000000000.
Definition f64_0_01 : Z := 0x3F847AE147AE147B.

Definition f64_le (a b : Z) : bool :=
  match f64_partial_cmp a b with Some Lt | Some Eq => true | _ => false end.

(** [u64::div_ceil] *)
Definition div_ceil (a b : Z) : Z := a / b + (if a mod b =? 0 then 0 else 1).

Definition new `{FloatOps} (expected : Z) (fpr : Z) : result BloomError BloomFilter :=
  if f64_le fpr f64_0_0 || f64_le f64_1_0 fpr then Err Configuration
  else if expected =? 0 then Err Configuration
  else
    let bit_count :=
      f64_to_u64 (f64_ceil (f64_div (f64_neg (f64_mul (f64_of_u64 expected) (f64_ln fpr)))
                                    (f64_powi (f64_ln f64_2_0) 2))) in
    let hash_count :=
      f64_to_u32 (f64_ceil (f64_mul (f64_div (f64_of_u64 bit_count) (f64_of_u64 expected))
                                    (f64_ln f64_2_0))) in
    let hash_count := Z.max hash_count 1 in
    let word_count := div_ceil bit_count 64 in
    let bit_count := as_u64 (word_count * 64) in
    Ok (mkBloomFilter (replicate (Z.to_nat word_count) 0) hash_count bit_count expected fpr).

(** ** Lookup and insertion *)

Definition calculate_hashes (key : list Z) : Z * Z :=
  let '(h1, h2) := cassandra_murmur3_x64_128 key in (as_u64 h1, as_u64 h2).

(** [abs_i64(base % max) as usize]. Rust's [%] is [Z.rem]; on [max = 0] it panics. *)
Definition bit_index_of (base max : Z) : Z := as_u64 (abs_i64 (Z.rem base max)).

Fixpoint insert_loop (n : nat) (base inc max : Z) (ws : list Z) : list Z :=
  match n with
  | O => ws
  | S n' =>
      let bit_index := bit_index_of base max in
      let word_index := bit_index / 64 in
      let bit_offset := bit_index mod 64 in
      let ws' :=
        match ws !! Z.to_nat word_index with
        | Some w => <[Z.to_nat word_index := Z.lor w (Z.shiftl 1 bit_offset)]> ws
        | None => ws
        end in
      insert_loop n' (as_i64 (base + inc)) inc max ws'
  end.

Definition insert (f : BloomFilter) (key : list Z) : BloomFilter :=
  let '(h1, h2) := calculate_hashes key in
  with_bits f (insert_loop (Z.to_nat (hash_count f)) (as_i64 h2) (as_i64 h1)
                 (as_i64 (bit_count f)) (bits f)).

Fixpoint contains_loop (n : nat) (base inc max : Z) (ws : list Z) : bool :=
  match n with
  | O => true
  | S n' =>
      let bit_index := bit_index_of base max in
      let word_index := bit_index / 64 in
      let bit_offset := bit_index mod 64 in
      match ws !! Z.to_nat word_index with
      | None => false
      | Some w =>
          if Z.land w (Z.shiftl 1 bit_offset) =? 0 then false
          else contains_loop n' (as_i64 (base + inc)) inc max ws
      end
  end.

Definition contains (f : BloomFilter) (key : list Z) : bool :=
  let '(h1, h2) := calculate_hashes key in
  contains_loop (Z.to_nat (hash_count f)) (as_i64 h2) (as_i64 h1)
    (as_i64 (bit_count f)) (bits f).

Definition might_contain (f : BloomFilter) (key : list Z) : bool := contains f key.

Definition clear (f : BloomFilter) : BloomFilter := with_bits f (map (fun _ => 0) (bits f)).

(** ** [Filter.db] *)

Definition serialize (f : BloomFilter) : list Z :=
  be_bytes 4 (hash_count f) ++ be_bytes 4 (as_u32 (zlen (bits f)))
  ++ concat (map (le_bytes 8) (bits f)).

Definition deserialize (data : list Z) : result BloomError BloomFilter :=
  if zlen data <? 8 then Err Serialization
  else
    let hash_count_i32 := as_i32 (from_be (take 4 data)) in
    let num_longs_i32 := as_i32 (from_be (take 4 (drop 4 data))) in
    if hash_count_i32 <=? 0 then Err Corruption
    else if hash_count_i32 >? MAX_HASH_COUNT then Err Corruption
    else if num_longs_i32 <=? 0 then Err Corruption
    else
      let hash_count := as_u32 hash_count_i32 in
      let num_longs := as_u64 num_longs_i32 in
      let expected_size := 8 + num_longs * 8 in
      if negb (zlen data =? expected_size) then Err Serialization
      else
        let words :=
          map (fun i => from_le (take 8 (drop (8 + i * 8) data)))
              (seq 0 (Z.to_nat num_longs)) in
        Ok (mkBloomFilter words hash_count (num_longs * 64) 1000 f64_0_01).

(** [load] after the reader is drained. *)
Definition load `{FloatOps} (data : list Z) : result BloomError BloomFilter :=
  match data with
  | [] => new 1000 f64_0_01
  | _ => deserialize data
  end.

(** ** Bits and probes *)

Definition bit_at (ws : list Z) (n : Z) : bool :=
  match ws !! Z.to_nat (n / 64) with
  | Some w => Z.testbit w (n mod 64)
  | None => false
  end.

(** The [i]-th probe of a key, in closed form. *)
Definition probe (f : BloomFilter) (key : list Z) (i : Z) : Z :=
  let '(h1, h2) := cassandra_murmur3_x64_128 key in
  Z.abs (Z.rem (as_i64 (h2 + i * h1)) (bit_count f)).

Definition filter_ok (f : BloomFilter) : Prop :=
  bit_count f = 64 * zlen (bits f) /\ 0 < bit_count f < 2 ^ 63 /\ Forall is_u64 (bits f).

(** The values [base] takes. *)
Fixpoint bases (n : nat) (base inc : Z) : list Z :=
  match n with O => [] | S n' => base :: bases n' (as_i64 (base + inc)) inc end.

Lemma swrap_add_l w x y : swrap w (swrap w x + y) = swrap w (x + y).
Proof.
  unfold swrap. f_equal.
  replace ((x + 2 ^ (w - 1)) mod 2 ^ w - 2 ^ (w - 1) + y + 2 ^ (w - 1))
    with ((x + 2 ^ (w - 1)) mod 2 ^ w + y) by lia.
  rewrite Zplus_mod_idemp_l. f_equal. lia.
Qed.

Lemma bases_elem n h2 h1 b :
  b ∈ bases n (as_i64 h2) h1 <-> exists i, 0 <= i < Z.of_nat n /\ b = as_i64 (h2 + i * h1).
Proof.
  revert h2. induction n as [|n IH]; intros h2; cbn [bases].
  - split; [by intros ?%elem_of_nil|]. intros (i & Hi & _). lia.
  - unfold as_i64 at 2. rewrite elem_of_cons, swrap_add_l. fold (as_i64 (h2 + h1)). rewrite IH. split.
    + intros [->|(i & Hi & ->)]; [exists 0|exists (i + 1)]; (split; [lia|]); f_equal; lia.
    + intros (i & Hi & ->). destruct (decide (i = 0)) as [->|]; [left; f_equal; lia|right].
      exists (i - 1). split; [lia|]. f_equal. lia.
Qed.

Lemma abs_i64_spec v : - 2 ^ 63 < v < 2 ^ 63 -> abs_i64 v = Z.abs v.
Proof.
  intros Hv. unfold abs_i64, as_i64. destruct (decide (0 <= v)).
  - rewrite Z.shiftr_div_pow2, Z.div_small, Z.lxor_0_r, Z.sub_0_r by lia.
    rewrite swrap_id; [lia..|]. unfold i_range. lia.
  - replace (Z.shiftr v 63) with (-1).
    2: { rewrite Z.shiftr_div_pow2 by lia. apply (Z.div_unique v (2 ^ 63) (-1) (v + 2 ^ 63)); lia. }
    rewrite Z.lxor_m1_r. unfold Z.lnot. rewrite swrap_id; [lia..|]. unfold i_range. lia.
Qed.

Lemma bit_index_spec base max :
  0 < max < 2 ^ 63 -> bit_index_of base max = Z.abs (Z.rem base max) /\ 0 <= bit_index_of base max < max.
Proof.
  intros Hm. unfold bit_index_of.
  assert (Hr : Z.abs (Z.rem base max) < max) by (pose proof (Z.rem_bound_abs base max); lia).
  rewrite abs_i64_spec by lia. unfold as_u64. rewrite wrap_id by (unfold u_range; lia). lia.
Qed.

Lemma testbit_mask w k : 0 <= k -> (Z.land w (Z.shiftl 1 k) =? 0) = negb (Z.testbit w k).
Proof.
  intros Hk. rewrite Z.shiftl_1_l. destruct (Z.testbit w k) eqn:E; cbn.
  - apply Z.eqb_neq. intros H0%(f_equal (fun x => Z.testbit x k)).
    by rewrite Z.land_spec, Z.pow2_bits_true, E, Z.bits_0 in H0.
  - apply Z.eqb_eq, Z.bits_inj'. intros i Hi. rewrite Z.land_spec, Z.bits_0, Z.pow2_bits_eqb by done.
    destruct (Z.eqb_spec k i) as [<-|]; [by rewrite E|apply andb_false_r].
Qed.

Lemma contains_loop_spec n base inc max ws :
  contains_loop n base inc max ws
  = forallb (fun b => bit_at ws (bit_index_of b max)) (bases n base inc).
Proof.
  revert base. induction n as [|n IH]; intros base; [done|]. cbn [contains_loop bases forallb].
  unfold bit_at at 1. destruct (ws !! _) as [w|]; [|done].
  rewrite testbit_mask by (apply Z.mod_pos_bound; lia). destruct (Z.testbit _ _); cbn; [apply IH|done].
Qed.

Lemma bit_at_set ws n m :
  0 <= n < 64 * zlen ws -> 0 <= m ->
  bit_at (match ws !! Z.to_nat (n / 64) with
          | Some w => <[Z.to_nat (n / 64) := Z.lor w (Z.shiftl 1 (n mod 64))]> ws
          | None => ws
          end) m = bit_at ws m || (n =? m).
Proof.
  intros Hn Hm. unfold zlen in Hn.
  assert (Hi : (Z.to_nat (n / 64) < length ws)%nat).
  { assert (n / 64 < Z.of_nat (length ws)) by (apply Z.div_lt_upper_bound; lia).
    pose proof (Z.div_pos n 64). lia. }
  destruct (lookup_lt_is_Some_2 ws _ Hi) as [w Ew]. rewrite Ew. unfold bit_at.
  pose proof (Z.mod_pos_bound n 64 ltac:(lia)). pose proof (Z.mod_pos_bound m 64 ltac:(lia)).
  destruct (decide (m / 64 = n / 64)) as [E|Hne].
  - rewrite E, list_lookup_insert_eq, Ew, Z.lor_spec, Z.shiftl_1_l, Z.pow2_bits_eqb by (done || lia).
    f_equal. pose proof (Z.div_mod n 64 ltac:(lia)). pose proof (Z.div_mod m 64 ltac:(lia)).
    destruct (Z.eqb_spec (n mod 64) (m mod 64)), (Z.eqb_spec n m); (done || lia).
  - rewrite list_lookup_insert_ne.
    2: { pose proof (Z.div_pos n 64). pose proof (Z.div_pos m 64). lia. }
    destruct (Z.eqb_spec n m) as [->|]; [done|]. by rewrite orb_false_r.
Qed.

Lemma insert_loop_length n base inc max ws : length (insert_loop n base inc max ws) = length ws.
Proof.
  revert base ws. induction n as [|n IH]; intros base ws; [done|]. cbn [insert_loop].
  rewrite IH. destruct (ws !! _); [apply length_insert|done].
Qed.

Lemma insert_loop_spec n base inc max ws m :
  0 < max < 2 ^ 63 -> max = 64 * zlen ws -> 0 <= m ->
  bit_at (insert_loop n base inc max ws) m
  = bit_at ws m || existsb (fun b => bit_index_of b max =? m) (bases n base inc).
Proof.
  intros Hmax Hlen Hm. revert base ws Hlen.
  induction n as [|n IH]; intros base ws Hlen; cbn [insert_loop bases existsb]; [by rewrite orb_false_r|].
  pose proof (proj2 (bit_index_spec base max Hmax)) as Hb.
  rewrite IH.
  - rewrite bit_at_set by lia. by rewrite orb_assoc.
  - rewrite Hlen. unfold zlen. destruct (ws !! _); [by rewrite length_insert|done].
Qed.

Lemma insert_loop_u64 n base inc max ws :
  0 < max < 2 ^ 63 -> Forall is_u64 ws -> Forall is_u64 (insert_loop n base inc max ws).
Proof.
  intros Hmax. revert base ws. induction n as [|n IH]; intros base ws Hws; [done|]. cbn [insert_loop].
  apply IH. destruct (ws !! _) as [w|] eqn:Ew; [|done]. apply Forall_insert; [done|].
  apply u_range_lor; [lia|by eapply Forall_lookup_1|].
  pose proof (Z.mod_pos_bound (bit_index_of base max) 64 ltac:(lia)).
  rewrite Z.shiftl_1_l. split; [apply Z.pow_nonneg; lia|apply Z.pow_lt_mono_r; lia].
Qed.

(** ** What a filter answers *)

Lemma insert_ok f key : filter_ok f -> filter_ok (insert f key).
Proof.
  intros (Hc & Hb & Hw). unfold insert. destruct (calculate_hashes key) as [h1 h2].
  unfold filter_ok, with_bits, zlen. cbn. rewrite insert_loop_length. split_and!; [done|lia..|].
  apply insert_loop_u64; [|done]. unfold as_i64. rewrite swrap_id; unfold i_range; lia.
Qed.

Lemma insert_meta f key :
  hash_count (insert f key) = hash_count f /\ bit_count (insert f key) = bit_count f.
Proof. unfold insert. by destruct (calculate_hashes key). Qed.

Lemma inserts_ok f keys :
  filter_ok f -> filter_ok (foldl insert f keys)
  /\ hash_count (foldl insert f keys) = hash_count f
  /\ bit_count (foldl insert f keys) = bit_count f.
Proof.
  revert f. induction keys as [|k keys IH]; intros f Hf; cbn; [done|].
  destruct (IH _ (insert_ok f k Hf)) as (H1 & -> & ->).
  by destruct (insert_meta f k) as [-> ->].
Qed.

Lemma probes_spec f key m :
  0 < bit_count f < 2 ^ 63 ->
  let '(h1, h2) := calculate_hashes key in
  (exists b, b ∈ bases (Z.to_nat (hash_count f)) (as_i64 h2) (as_i64 h1)
     /\ bit_index_of b (as_i64 (bit_count f)) = m)
  <-> exists i, 0 <= i < hash_count f /\ probe f key i = m.
Proof.
  intros Hb. unfold calculate_hashes, probe.
  pose proof (hash_with_range signed key) as [H1 H2]. fold (cassandra_murmur3_x64_128 key) in H1, H2.
  destruct (cassandra_murmur3_x64_128 key) as [h1 h2]. cbn [fst snd] in *.
  assert (Ew : forall h, as_i64 (as_u64 h) = as_i64 h) by (intros; apply swrap_wrap; lia).
  assert (Eh : as_i64 h1 = h1) by (apply swrap_id; [lia|done]).
  assert (Ec : as_i64 (bit_count f) = bit_count f) by (apply swrap_id; [lia|unfold i_range; lia]).
  rewrite !Ew, Eh, Ec.
  setoid_rewrite bases_elem. split.
  - intros (b & (i & Hi & ->) & <-). exists i. split; [lia|].
    symmetry. apply bit_index_spec. lia.
  - intros (i & Hi & <-). exists (as_i64 (h2 + i * h1)). split; [exists i; split; [lia|done]|].
    apply bit_index_spec. lia.
Qed.

Lemma probe_range f key i : 0 < bit_count f -> 0 <= probe f key i.
Proof. intros. unfold probe. destruct (cassandra_murmur3_x64_128 key). lia. Qed.

Lemma insert_bit f key m :
  filter_ok f -> 0 <= m ->
  bit_at (bits (insert f key)) m = true
  <-> bit_at (bits f) m = true \/ exists i, 0 <= i < hash_count f /\ probe f key i = m.
Proof.
  intros (Hc & Hb & Hw) Hm. pose proof (probes_spec f key m Hb) as Hp. unfold insert.
  destruct (calculate_hashes key) as [h1 h2]. cbn [bits with_bits].
  assert (Hmax : as_i64 (bit_count f) = bit_count f) by (apply swrap_id; [lia|unfold i_range; lia]).
  rewrite insert_loop_spec by (rewrite ?Hmax; lia). rewrite orb_true_iff, <- Hp, existsb_exists.
  setoid_rewrite <- list_elem_of_In. by setoid_rewrite Z.eqb_eq.
Qed.

Lemma inserts_bit f keys m :
  filter_ok f -> 0 <= m ->
  bit_at (bits (foldl insert f keys)) m = true
  <-> bit_at (bits f) m = true
      \/ exists k j, k ∈ keys /\ 0 <= j < hash_count f /\ probe f k j = m.
Proof.
  intros Hf Hm. revert f Hf. induction keys as [|k keys IH]; intros f Hf; cbn [foldl].
  - split; [by left|intros [?|(k & ? & Hk & _)]; [done|by apply elem_of_nil in Hk]].
  - rewrite IH, insert_bit by (done || by apply insert_ok).
    destruct (insert_meta f k) as [Eh Eb]. rewrite Eh.
    assert (Ep : forall k' j, probe (insert f k) k' j = probe f k' j)
      by (intros; unfold probe; by rewrite Eb).
    setoid_rewrite Ep. split.
    + intros [[?|(j & Hj & Hp)]|(k' & j & Hk' & Hj & Hp)]; [by left| |]; right;
        [exists k, j|exists k', j]; (split; [by constructor|done]).
    + intros [?|(k' & j & [->|Hk']%elem_of_cons & Hj & Hp)]; [by left; left| |];
        [left; right; by exists j|right; by exists k', j].
Qed.

Lemma contains_spec f key :
  filter_ok f ->
  contains f key = true <-> forall i, 0 <= i < hash_count f -> bit_at (bits f) (probe f key i) = true.
Proof.
  intros (Hc & Hb & Hw). unfold contains.
  pose proof (fun m => probes_spec f key m Hb) as Hp.
  destruct (calculate_hashes key) as [h1 h2].
  rewrite contains_loop_spec, forallb_forall. setoid_rewrite <- list_elem_of_In. split.
  - intros Hall i Hi. destruct (proj2 (Hp _) (ex_intro _ i (conj Hi eq_refl))) as (b & Hin & <-). by apply Hall.
  - intros Hall b Hin. destruct (proj1 (Hp _) (ex_intro _ b (conj Hin eq_refl))) as (i & Hi & <-). by apply Hall.
Qed.

(** C38: A Bloom filter answers exactly what its probes say, and never denies a key it
    was given. After any insertions, [contains] holds of a key exactly when each of
    its [hash_count] probes was set before or is a probe of an inserted key; so it holds
    of every inserted key and of every key it held of before. *)
Theorem bloom_exact f keys k (Hf : filter_ok f) :
  (contains (foldl insert f keys) k = true
   <-> forall i, 0 <= i < hash_count f ->
         bit_at (bits f) (probe f k i) = true
         \/ exists k' j, k' ∈ keys /\ 0 <= j < hash_count f /\ probe f k' j = probe f k i)
  /\ (k ∈ keys \/ contains f k = true -> contains (foldl insert f keys) k = true).
Proof.
  destruct (inserts_ok f keys Hf) as (Hok & Eh & Eb).
  assert (Hsame : forall i, probe (foldl insert f keys) k i = probe f k i)
    by (intros; unfold probe; by rewrite Eb).
  pose proof (contains_spec (foldl insert f keys) k Hok) as Hex.
  rewrite Eh in Hex. setoid_rewrite Hsame in Hex.
  assert (Hpos : forall i, 0 <= probe f k i) by (intros; apply probe_range; destruct Hf; lia).
  split.
  - rewrite Hex. split; intros Hall i Hi; apply (inserts_bit f keys); auto.
  - intros H. apply Hex. intros i Hi. apply inserts_bit; [done..|].
    destruct H as [Hk|Hk]; [right; by exists k, i|left]. by apply contains_spec.
Qed.

(** ** [Filter.db] *)

Lemma as_i32_count x : 0 < as_i32 (from_be x) -> Forall is_byte x -> length x = 4%nat ->
  as_i32 (from_be x) = from_be x /\ from_be x < 2 ^ 31.
Proof.
  intros Hp Hx Hl. pose proof (from_be_bound x Hx) as Hb. rewrite Hl in Hb.
  change (256 ^ Z.of_nat 4) with (2 ^ 32) in Hb.
  destruct (decide (from_be x < 2 ^ 31)).
  - split; [|done]. apply swrap_id; [lia|]. unfold i_range. lia.
  - exfalso. unfold as_i32, swrap in Hp. change (32 - 1) with 31 in Hp.
    rewrite <- (Z.mod_unique (from_be x + 2 ^ 31) (2 ^ 32) 1 (from_be x - 2 ^ 31)) in Hp by lia. lia.
Qed.

(** A filter as [deserialize] makes it. *)
Definition file_filter (f : BloomFilter) : Prop :=
  filter_ok f /\ 1 <= hash_count f <= MAX_HASH_COUNT /\ zlen (bits f) < 2 ^ 31
  /\ expected_elements f = 1000 /\ false_positive_rate f = f64_0_01.

Lemma serialize_length f : length (serialize f) = (8 + 8 * length (bits f))%nat.
Proof.
  unfold serialize. rewrite !length_app, !be_bytes_length, (concat_blocks_length 8), length_map; [lia|].
  apply Forall_map, Forall_true. intros w. apply le_bytes_length.
Qed.

Lemma deserialize_serialize f : file_filter f -> deserialize (serialize f) = Ok f.
Proof.
  intros ((Hc & Hb & Hw) & Hh & Hl & He & Hp). pose proof (serialize_length f) as Hlen.
  unfold MAX_HASH_COUNT in Hh. unfold zlen in Hl.
  assert (Hpos : (0 < length (bits f))%nat) by (unfold zlen in Hc; lia).
  assert (Ez : zlen (serialize f) = Z.of_nat (8 + 8 * length (bits f))) by (unfold zlen; by rewrite Hlen).
  unfold deserialize. rewrite Ez.
  destruct (Z.ltb_spec (Z.of_nat (8 + 8 * length (bits f))) 8); [lia|].
  assert (E1 : from_be (take 4 (serialize f)) = hash_count f).
  { unfold serialize. rewrite take_app_length' by (by rewrite be_bytes_length).
    apply from_be_bytes_id. unfold u_range. lia. }
  assert (E2 : from_be (take 4 (drop 4 (serialize f))) = Z.of_nat (length (bits f))).
  { unfold serialize. rewrite drop_app_length', take_app_length' by (by rewrite be_bytes_length).
    unfold as_u32, zlen. rewrite wrap_id by (unfold u_range; lia).
    apply from_be_bytes_id. unfold u_range. lia. }
  rewrite E1, E2. unfold as_i32. rewrite !swrap_id by (unfold i_range; lia).
  unfold MAX_HASH_COUNT.
  destruct (Z.leb_spec (hash_count f) 0); [lia|]. rewrite Z.gtb_ltb.
  destruct (Z.ltb_spec 1024 (hash_count f)); [lia|].
  destruct (Z.leb_spec (Z.of_nat (length (bits f))) 0); [lia|].
  unfold as_u64, as_u32. rewrite !wrap_id by (unfold u_range; lia).
  destruct (Z.eqb_spec (Z.of_nat (8 + 8 * length (bits f))) (8 + Z.of_nat (length (bits f)) * 8)); [cbn [negb]|lia].
  f_equal. rewrite Nat2Z.id.
  rewrite (map_ext_in _ (fun i => default 0 (bits f !! i))).
  - destruct f as [ws h bc ee fp]; cbn in *. subst ee fp.
    assert (Ews : map (fun i => default 0 (ws !! i)) (seq 0 (length ws)) = ws).
    { clear. induction ws as [|w ws IH]; [done|]. cbn. f_equal. rewrite <- seq_shift, map_map. exact IH. }
    rewrite Ews. f_equal. unfold zlen in Hc. lia.
  - intros i [_ Hi]%in_seq. destruct (lookup_lt_is_Some_2 (bits f) i ltac:(lia)) as [w Ew].
    rewrite Ew. cbn [default]. replace (8 + i * 8)%nat with (4 + (4 + i * 8))%nat by lia.
    rewrite <- !drop_drop. unfold serialize.
    rewrite !drop_app_length' by (by rewrite be_bytes_length).
    rewrite (block_at 8 _ i (le_bytes 8 w)).
    + apply from_le_bytes_id. rewrite Forall_lookup in Hw. by apply (Hw i).
    + apply Forall_map, Forall_true. intros. apply le_bytes_length.
    + by rewrite list_lookup_fmap, Ew.
Qed.

Lemma deserialize_file data f :
  Forall is_byte data -> deserialize data = Ok f -> file_filter f /\ serialize f = data.
Proof.
  intros Hb. unfold deserialize, MAX_HASH_COUNT. unfold zlen.
  destruct (Z.ltb_spec (Z.of_nat (length data)) 8) as [|H8]; [done|].
  rewrite Z.gtb_ltb.
  set (x := take 4 data). set (y := take 4 (drop 4 data)).
  destruct (Z.leb_spec (as_i32 (from_be x)) 0) as [|Hx]; [done|].
  destruct (Z.ltb_spec 1024 (as_i32 (from_be x))) as [|Hx']; [done|].
  destruct (Z.leb_spec (as_i32 (from_be y)) 0) as [|Hy]; [done|].
  assert (Hxl : length x = 4%nat) by (unfold x; rewrite length_take; lia).
  assert (Hyl : length y = 4%nat) by (unfold y; rewrite length_take, length_drop; lia).
  assert (Hxb : Forall is_byte x) by by apply Forall_take.
  assert (Hyb : Forall is_byte y) by by apply Forall_take, Forall_drop.
  destruct (as_i32_count x) as [Ex Lx]; [done..|]. destruct (as_i32_count y) as [Ey Ly]; [done..|].
  rewrite Ex, Ey in *. unfold as_u64, as_u32. rewrite !wrap_id by (unfold u_range; lia).
  destruct (Z.eqb_spec (Z.of_nat (length data)) (8 + from_be y * 8)) as [Hlen|]; [|done].
  cbn [negb]. set (ws := map _ (seq 0 _)). intros [= <-].
  set (body := drop 8 data) in *. set (n := Z.to_nat (from_be y)) in *.
  assert (Hbody : length body = (n * 8)%nat) by (unfold body, n; rewrite length_drop; lia).
  assert (Hn : length ws = n) by (unfold ws; by rewrite length_map, length_seq).
  assert (Ews : map (le_bytes 8) ws = map (fun i => take 8 (drop (i * 8) body)) (seq 0 n)).
  { unfold ws. rewrite map_map. apply map_ext_in. intros i [_ Hi]%in_seq.
    unfold body. rewrite drop_drop. apply le_bytes_from_le; [by apply Forall_take, Forall_drop|].
    rewrite length_take, length_drop. unfold body in Hbody. rewrite length_drop in Hbody. lia. }
  split.
  - unfold file_filter, filter_ok, MAX_HASH_COUNT, zlen. cbn. rewrite Hn.
    split_and!; try done; try (unfold n; lia).
    apply Forall_map, Forall_forall. intros i _.
    set (b := take 8 _). pose proof (from_le_bound b ltac:(by apply Forall_take, Forall_drop)) as Hd.
    assert (length b <= 8)%nat by (unfold b; rewrite length_take; lia).
    split; [lia|]. eapply Z.lt_le_trans; [apply Hd|]. rewrite pow256. apply Z.pow_le_mono_r; lia.
  - unfold serialize, zlen. cbn [hash_count bits]. rewrite Hn, Ews, blocks_of by done.
    unfold as_u32. rewrite wrap_id by (unfold u_range, n; lia).
    replace (Z.of_nat n) with (from_be y) by (unfold n; lia).
    pose proof (be_bytes_from_be x Hxb) as E1. pose proof (be_bytes_from_be y Hyb) as E2.
    rewrite Hxl in E1. rewrite Hyl in E2. rewrite E1, E2.
    transitivity (x ++ drop 4 data); [|apply take_drop]. f_equal.
    transitivity (y ++ drop 4 (drop 4 data)); [|apply take_drop]. f_equal. by rewrite drop_drop.
Qed.

(** [Filter.db] is read exactly when it is well formed, and reading undoes
    writing. [deserialize] accepts a byte string and returns [f] if and only if [f] is a
    filter with between 1 and 1024 hash functions, at least one word and fewer than
    [2^31], and [serialize f] is that byte string. *)
Theorem bloom_file_exact data f (Hb : Forall is_byte data) :
  deserialize data = Ok f <-> file_filter f /\ serialize f = data.
Proof.
  split; [by apply deserialize_file|]. intros [Hf <-]. by apply deserialize_serialize.
Qed.

(** An empty [Filter.db] is not rejected: [load] builds an empty filter, which denies
    every key, although an empty file says nothing about the SSTable's keys. *)
Lemma empty_file_denies `{FloatOps} f k :
  load [] = Ok f -> filter_ok f -> contains f k = false.
Proof.
  intros Hl Hf. apply not_true_is_false. rewrite contains_spec by done. intros Hall.
  cbn [load] in Hl. unfold new in Hl. destruct (_ || _); [done|]. cbn [Z.eqb] in Hl.
  injection Hl as <-. cbn [hash_count] in Hall.
  specialize (Hall 0 ltac:(lia)). cbn [bits] in Hall. unfold bit_at in Hall.
  set (w := replicate _ 0) in *. destruct (w !! _) as [x|] eqn:Ew in Hall; [|done].
  apply lookup_replicate in Ew as [-> _]. by rewrite Z.testbit_0_l in Hall.
Qed.

(** ** A concrete filter *)

Definition sample_filter : BloomFilter := mkBloomFilter [0; 0] 3 128 1000 f64_0_01.

Lemma sample_filter_ok : filter_ok sample_filter.
Proof. split; [done|]. split; [cbn; lia|]. repeat constructor; cbn; lia. Qed.

Example sample_filter_answers :
  contains (insert sample_filter [1; 2; 3]) [1; 2; 3] = true
  /\ contains (insert sample_filter [1; 2; 3]) [4; 5] = false.
Proof. by vm_compute. Qed.

Lemma bloom_exact_witness :
  contains (foldl insert sample_filter [[1; 2; 3]; [7]]) [7] = true.
Proof.
  apply (proj2 (bloom_exact sample_filter [[1; 2; 3]; [7]] [7] sample_filter_ok)).
  left. right. left.
Defined.

Lemma bloom_file_exact_witness :
  deserialize (serialize sample_filter) = Ok sample_filter.
Proof.
  apply (bloom_file_exact (serialize sample_filter) sample_filter).
  - vm_compute. repeat constructor; discriminate.
  - split; [|reflexivity]. split; [apply sample_filter_ok|]. cbn. unfold MAX_HASH_COUNT. repeat split; lia.
Defined.
