(* ===== verification/Mutation.v ===== *)
(** Mutations ([storage/write_engine/mutation.rs]) and the record layouts of the
    write-ahead log that older binaries wrote ([storage/write_engine/wal.rs]). *)

From S2P Require Import Prelude Values Keys.

Open Scope Z_scope.

Record TableId := mkTableId { tid_keyspace : string; tid_table : string }.

(** [PartitionTombstone] of [mutation.rs]. *)
Record PartTombstone := mkPartTombstone {
  pt_deletion_time : Z;
  pt_local_deletion_time : Z;
}.

Inductive CellOperation :=
| Write (column : string) (value : Value)
| WriteWithTtl (column : string) (value : Value) (ttl_seconds : Z)
    (local_deletion_time : option Z)
| Delete (column : string) (local_deletion_time : option Z)
| DeleteRow
| WriteComplexElement (column : string) (cell_path : list Z) (value : option Value)
    (timestamp_micros : Z) (ttl_seconds : option Z) (local_deletion_time : option Z)
    (is_deleted : bool)
| OpComplexDeletion (column : string) (marked_for_delete_at : Z) (local_deletion_time : Z).

Record Mutation := mkMutation {
  m_table : TableId;
  m_partition_key : PartitionKey;
  m_clustering_key : option ClusteringKey;
  m_operations : list CellOperation;
  m_timestamp_micros : Z;
  m_ttl_seconds : option Z;
  m_partition_tombstone : option PartTombstone;
  m_range_tombstones : list RangeTombstone;
  m_local_deletion_time : option Z;
  m_row_tombstone : option (Z * Z);
  m_cell_write_timestamps : option (gmap string Z);
}.

Definition mutation_new (table : TableId) (pk : PartitionKey) (ck : option ClusteringKey)
    (ops : list CellOperation) (ts : Z) (ttl : option Z) : Mutation :=
  mkMutation table pk ck ops ts ttl None [] None None None.

Definition cell_write_timestamp (m : Mutation) (column : string) : Z :=
  default (m_timestamp_micros m)
    (match m_cell_write_timestamps m with Some ts => ts !! column | None => None end).

Definition with_row_tombstone (m : Mutation) (deletion_time ldt : Z) : Mutation :=
  mkMutation (m_table m) (m_partition_key m) (m_clustering_key m) (m_operations m)
    (m_timestamp_micros m) (m_ttl_seconds m) (m_partition_tombstone m) (m_range_tombstones m)
    (m_local_deletion_time m) (Some (deletion_time, ldt)) (m_cell_write_timestamps m).

Definition with_local_deletion_time (m : Mutation) (ldt : Z) : Mutation :=
  mkMutation (m_table m) (m_partition_key m) (m_clustering_key m) (m_operations m)
    (m_timestamp_micros m) (m_ttl_seconds m) (m_partition_tombstone m) (m_range_tombstones m)
    (Some ldt) (m_row_tombstone m) (m_cell_write_timestamps m).

(** [self.timestamp_micros / 1_000_000] truncates toward zero, [as i32] wraps. *)
Definition effective_local_deletion_time (m : Mutation) : Z :=
  default (as_i32 (Z.quot (m_timestamp_micros m) 1000000)) (m_local_deletion_time m).

Definition decorated_key (from_data_type : string -> result Error ComparatorType)
    (m : Mutation) (schema : TableSchema) : result Error DecoratedKey :=
  to_decorated_key from_data_type (m_partition_key m) schema.

(** ** Older record layouts *)

(** Cell operations before a cell tombstone and an expiring cell carried their own
    local deletion time. *)
Module Legacy.
Inductive LegacyCellOperation :=
| Write (column : string) (value : Value)
| WriteWithTtl (column : string) (value : Value) (ttl_seconds : Z)
| Delete (column : string)
| DeleteRow
| WriteComplexElement (column : string) (cell_path : list Z) (value : option Value)
    (timestamp_micros : Z) (ttl_seconds : option Z) (local_deletion_time : option Z)
    (is_deleted : bool)
| OpComplexDeletion (column : string) (marked_for_delete_at : Z) (local_deletion_time : Z).

Definition upgrade_legacy_op (op : LegacyCellOperation) : Mutation.CellOperation :=
  match op with
  | Write column value => Mutation.Write column value
  | WriteWithTtl column value ttl => Mutation.WriteWithTtl column value ttl None
  | Delete column => Mutation.Delete column None
  | DeleteRow => Mutation.DeleteRow
  | WriteComplexElement column path value ts ttl ldt del =>
      Mutation.WriteComplexElement column path value ts ttl ldt del
  | OpComplexDeletion column mfda ldt => Mutation.OpComplexDeletion column mfda ldt
  end.
End Legacy.

(** Cell operations after the former, before the latter. *)
Module PreCellLdt.
Inductive PreCellLdtWriteTtlCellOperation :=
| Write (column : string) (value : Value)
| WriteWithTtl (column : string) (value : Value) (ttl_seconds : Z)
| Delete (column : string) (local_deletion_time : option Z)
| DeleteRow
| WriteComplexElement (column : string) (cell_path : list Z) (value : option Value)
    (timestamp_micros : Z) (ttl_seconds : option Z) (local_deletion_time : option Z)
    (is_deleted : bool)
| OpComplexDeletion (column : string) (marked_for_delete_at : Z) (local_deletion_time : Z).

Definition upgrade_pre_cell_ldt_op (op : PreCellLdtWriteTtlCellOperation) : Mutation.CellOperation :=
  match op with
  | Write column value => Mutation.Write column value
  | WriteWithTtl column value ttl => Mutation.WriteWithTtl column value ttl None
  | Delete column ldt => Mutation.Delete column ldt
  | DeleteRow => Mutation.DeleteRow
  | WriteComplexElement column path value ts ttl ldt del =>
      Mutation.WriteComplexElement column path value ts ttl ldt del
  | OpComplexDeletion column mfda ldt => Mutation.OpComplexDeletion column mfda ldt
  end.
End PreCellLdt.

(** Layout A: no mutation-level local deletion time. *)
Record LegacyMutation := mkLegacyMutation {
  a_table : TableId;
  a_partition_key : PartitionKey;
  a_clustering_key : option ClusteringKey;
  a_operations : list Legacy.LegacyCellOperation;
  a_timestamp_micros : Z;
  a_ttl_seconds : option Z;
  a_partition_tombstone : option PartTombstone;
  a_range_tombstones : list RangeTombstone;
}.

Definition upgrade_a (m : LegacyMutation) : Mutation :=
  mkMutation (a_table m) (a_partition_key m) (a_clustering_key m)
    (map Legacy.upgrade_legacy_op (a_operations m)) (a_timestamp_micros m) (a_ttl_seconds m)
    (a_partition_tombstone m) (a_range_tombstones m) None None None.

(** Layout B: with it, still the oldest cell operations. *)
Record LegacyMutationWithLdt := mkLegacyMutationWithLdt {
  b_table : TableId;
  b_partition_key : PartitionKey;
  b_clustering_key : option ClusteringKey;
  b_operations : list Legacy.LegacyCellOperation;
  b_timestamp_micros : Z;
  b_ttl_seconds : option Z;
  b_partition_tombstone : option PartTombstone;
  b_range_tombstones : list RangeTombstone;
  b_local_deletion_time : option Z;
}.

Definition upgrade_b (m : LegacyMutationWithLdt) : Mutation :=
  mkMutation (b_table m) (b_partition_key m) (b_clustering_key m)
    (map Legacy.upgrade_legacy_op (b_operations m)) (b_timestamp_micros m) (b_ttl_seconds m)
    (b_partition_tombstone m) (b_range_tombstones m) (b_local_deletion_time m) None None.

(** Layout C: the newer cell operations, no row tombstone. *)
Record PreRowTombstoneMutation := mkPreRowTombstoneMutation {
  c_table : TableId;
  c_partition_key : PartitionKey;
  c_clustering_key : option ClusteringKey;
  c_operations : list PreCellLdt.PreCellLdtWriteTtlCellOperation;
  c_timestamp_micros : Z;
  c_ttl_seconds : option Z;
  c_partition_tombstone : option PartTombstone;
  c_range_tombstones : list RangeTombstone;
  c_local_deletion_time : option Z;
}.

Definition upgrade_c (m : PreRowTombstoneMutation) : Mutation :=
  mkMutation (c_table m) (c_partition_key m) (c_clustering_key m)
    (map PreCellLdt.upgrade_pre_cell_ldt_op (c_operations m)) (c_timestamp_micros m) (c_ttl_seconds m)
    (c_partition_tombstone m) (c_range_tombstones m) (c_local_deletion_time m) None None.

(** Layout D: with the row tombstone, no per-cell write timestamps. *)
Record PreCellWriteTimestampsMutation := mkPreCellWriteTimestampsMutation {
  d_table : TableId;
  d_partition_key : PartitionKey;
  d_clustering_key : option ClusteringKey;
  d_operations : list PreCellLdt.PreCellLdtWriteTtlCellOperation;
  d_timestamp_micros : Z;
  d_ttl_seconds : option Z;
  d_partition_tombstone : option PartTombstone;
  d_range_tombstones : list RangeTombstone;
  d_local_deletion_time : option Z;
  d_row_tombstone : option (Z * Z);
}.

Definition upgrade_d (m : PreCellWriteTimestampsMutation) : Mutation :=
  mkMutation (d_table m) (d_partition_key m) (d_clustering_key m)
    (map PreCellLdt.upgrade_pre_cell_ldt_op (d_operations m)) (d_timestamp_micros m) (d_ttl_seconds m)
    (d_partition_tombstone m) (d_range_tombstones m) (d_local_deletion_time m)
    (d_row_tombstone m) None.

(** Layout E: all the fields, the newer but not the newest cell operations. *)
Record PreCellLdtWriteTtlMutation := mkPreCellLdtWriteTtlMutation {
  e_table : TableId;
  e_partition_key : PartitionKey;
  e_clustering_key : option ClusteringKey;
  e_operations : list PreCellLdt.PreCellLdtWriteTtlCellOperation;
  e_timestamp_micros : Z;
  e_ttl_seconds : option Z;
  e_partition_tombstone : option PartTombstone;
  e_range_tombstones : list RangeTombstone;
  e_local_deletion_time : option Z;
  e_row_tombstone : option (Z * Z);
  e_cell_write_timestamps : option (gmap string Z);
}.

Definition upgrade_e (m : PreCellLdtWriteTtlMutation) : Mutation :=
  mkMutation (e_table m) (e_partition_key m) (e_clustering_key m)
    (map PreCellLdt.upgrade_pre_cell_ldt_op (e_operations m)) (e_timestamp_micros m) (e_ttl_seconds m)
    (e_partition_tombstone m) (e_range_tombstones m) (e_local_deletion_time m)
    (e_row_tombstone m) (e_cell_write_timestamps m).

(** [bincode] with the derived serializers: what a record of each layout decodes to. *)
Class Bincode := {
  serialize : Mutation -> option (list Z);
  deserialize_mutation : list Z -> option Mutation;
  deserialize_e : list Z -> option PreCellLdtWriteTtlMutation;
  deserialize_d : list Z -> option PreCellWriteTimestampsMutation;
  deserialize_c : list Z -> option PreRowTombstoneMutation;
  deserialize_b : list Z -> option LegacyMutationWithLdt;
  deserialize_a : list Z -> option LegacyMutation;
}.

(** The layouts in turn, the newest first. *)
Definition decode_mutation `{Bincode} (bytes : list Z) : option Mutation :=
  match deserialize_mutation bytes with
  | Some m => Some m
  | None =>
      match deserialize_e bytes with
      | Some m => Some (upgrade_e m)
      | None =>
          match deserialize_d bytes with
          | Some m => Some (upgrade_d m)
          | None =>
              match deserialize_c bytes with
              | Some m => Some (upgrade_c m)
              | None =>
                  match deserialize_b bytes with
                  | Some m => Some (upgrade_b m)
                  | None => option_map upgrade_a (deserialize_a bytes)
                  end
              end
          end
      end
  end.

(** No JSON value in the keys, the cells and the bounds of the ranges. *)
Definition json_free_columns (k : list (string * Value)) : bool := forallb (fun c => json_free c.2) k.

Definition json_free_op (op : CellOperation) : bool :=
  match op with
  | Write _ v | WriteWithTtl _ v _ _ | WriteComplexElement _ _ (Some v) _ _ _ _ => json_free v
  | _ => true
  end.

Definition json_free_bound (b : ClusteringBound) : bool :=
  match b with Inclusive k | Exclusive k => json_free_columns k | Bottom | Top => true end.

Definition json_free_mutation (m : Mutation) : bool :=
  json_free_columns (m_partition_key m)
  && match m_clustering_key m with Some k => json_free_columns k | None => true end
  && forallb json_free_op (m_operations m)
  && forallb (fun rt => json_free_bound (rt_start rt) && json_free_bound (rt_end rt)) (m_range_tombstones m).

(** What the log relies on: a record of the current layout reads back, if it holds no JSON
    value. bincode writes a JSON value, and refuses to read one. *)
Class BincodeLaws `{Bincode} : Prop :=
  deserialize_serialize m bytes :
    json_free_mutation m = true -> serialize m = Some bytes -> deserialize_mutation bytes = Some m.

Lemma decode_serialize `{BincodeLaws} m bytes :
  json_free_mutation m = true -> serialize m = Some bytes -> decode_mutation bytes = Some m.
Proof. intros Hj E%deserialize_serialize; [|done]. unfold decode_mutation. by rewrite E. Qed.
