(* ===== verification/Wal.v ===== *)
(** The write-ahead log ([storage/write_engine/wal.rs]): record framing, the buffered
    file, recovery, truncation and the states that refuse further writes. *)

From S2P Require Import Prelude Values Keys Mutation.

Open Scope Z_scope.

Definition MAX_ENTRY_LENGTH : Z := 16 * 1024 * 1024.
Definition DEFAULT_BUFFER_SIZE : Z := 4096.

(** ** Recovery reports *)

Record RecoveryReport := mkReport {
  rr_mutations : list Mutation;
  rr_corrupt_entries : Z;
  rr_stopped_early : bool;
  rr_bytes_skipped : Z;
}.

Definition report_default : RecoveryReport := mkReport [] 0 false 0.

Definition is_clean (r : RecoveryReport) : bool :=
  (rr_corrupt_entries r =? 0) && negb (rr_stopped_early r).

Definition count_corrupt (r : RecoveryReport) : RecoveryReport :=
  mkReport (rr_mutations r) (rr_corrupt_entries r + 1) (rr_stopped_early r) (rr_bytes_skipped r).
Definition stop_early (r : RecoveryReport) : RecoveryReport :=
  mkReport (rr_mutations r) (rr_corrupt_entries r + 1) true (rr_bytes_skipped r).
Definition with_bytes_skipped (r : RecoveryReport) (n : Z) : RecoveryReport :=
  mkReport (rr_mutations r) (rr_corrupt_entries r) (rr_stopped_early r) n.

Inductive WalStop := CleanEof | TornTail | Corruption.
#[export] Instance wal_stop_eq_dec : EqDecision WalStop.
Proof. solve_decision. Defined.

Inductive TruncateError := BeforeMutation (e : Error) | AfterMutation (e : Error).

Definition into_inner (e : TruncateError) : Error :=
  match e with BeforeMutation e | AfterMutation e => e end.

(** [crc32fast], a [u32] of the bytes. *)
Class Crc32 := {
  crc32 : list Z -> Z;
  crc32_range bytes : u_range 32 (crc32 bytes);
}.

(** ** Reading a log *)

Section Read.
Context `{Crc32} `{Bincode}.

(** Both loops read from the front of what is left of the file; [None] is out of fuel. *)
Fixpoint scan_loop (fuel : nat) (rest : list Z) (offset len : Z) : option (Z * WalStop) :=
  match fuel with
  | O => None
  | S fuel' =>
      if zlen rest <? 8 then
        Some (offset, if len =? offset then CleanEof else TornTail)
      else
        let entry_length := from_le (take 4 rest) in
        let expected_crc := from_le (take 4 (drop 4 rest)) in
        if entry_length >? MAX_ENTRY_LENGTH then Some (offset, Corruption)
        else
          let body := drop 8 rest in
          if zlen body <? entry_length then Some (offset, Corruption)
          else
            let payload := take (Z.to_nat entry_length) body in
            if negb (crc32 payload =? expected_crc) then Some (offset, Corruption)
            else scan_loop fuel' (drop (Z.to_nat entry_length) body) (offset + (8 + entry_length)) len
  end.

(** The bytes of the file; every round consumes at least the eight of a header. *)
Definition scan_valid_prefix (content : list Z) : option (Z * WalStop) :=
  scan_loop (S (length content)) content 0 (zlen content).

Section ReplayEach.
Context {S : Type} (f : S -> Mutation -> result Error S).

Fixpoint replay_loop (fuel : nat) (rest : list Z) (offset : Z) (report : RecoveryReport) (s : S)
    : option (result Error (S * RecoveryReport * Z)) :=
  match fuel with
  | O => None
  | Datatypes.S fuel' =>
      if zlen rest <? 8 then Some (Ok (s, report, offset))
      else
        let entry_length := from_le (take 4 rest) in
        let expected_crc := from_le (take 4 (drop 4 rest)) in
        if entry_length >? MAX_ENTRY_LENGTH then Some (Ok (s, stop_early report, offset))
        else
          let body := drop 8 rest in
          if zlen body <? entry_length then Some (Ok (s, stop_early report, offset))
          else
            let mutation_bytes := take (Z.to_nat entry_length) body in
            if negb (crc32 mutation_bytes =? expected_crc)
            then Some (Ok (s, stop_early report, offset))
            else
              let continue report s :=
                replay_loop fuel' (drop (Z.to_nat entry_length) body)
                  (offset + (8 + entry_length)) report s in
              match decode_mutation mutation_bytes with
              | Some mutation =>
                  match f s mutation with
                  | Ok s' => continue report s'
                  | Err e => Some (Err e)
                  end
              | None => continue (count_corrupt report) s
              end
  end.

Definition replay_each (content : list Z) (s : S) : option (result Error (S * RecoveryReport)) :=
  match replay_loop (Datatypes.S (length content)) content 0 report_default s with
  | Some (Ok (s', report, offset)) =>
      Some (Ok (s', with_bytes_skipped report (Z.max 0 (zlen content - offset))))
  | Some (Err e) => Some (Err e)
  | None => None
  end.
End ReplayEach.

Definition replay (content : list Z) : option (result Error RecoveryReport) :=
  match replay_each (fun out m => Ok (out ++ [m])) content [] with
  | Some (Ok (out, report)) =>
      Some (Ok (mkReport out (rr_corrupt_entries report) (rr_stopped_early report)
                  (rr_bytes_skipped report)))
  | Some (Err e) => Some (Err e)
  | None => None
  end.
End Read.

(** ** The buffered file

    [content] is the file as the operating system shows it, [durable] its content at the
    last [sync_all]; [cursor] is where the handle writes unless it was opened for
    appending. [buf] are the bytes [BufWriter] still holds. *)

Record BufFile := mkBufFile {
  content : list Z;
  durable : list Z;
  cursor : nat;
  append_mode : bool;
  buf : list Z;
  capacity : Z;
}.

Definition with_buf (f : BufFile) (b : list Z) : BufFile :=
  mkBufFile (content f) (durable f) (cursor f) (append_mode f) b (capacity f).

(** [File::write_all]: at the end when appending, else over the bytes at the cursor,
    with zeros before it when the file is shorter. *)
Definition file_write (f : BufFile) (data : list Z) : BufFile :=
  let pos := if append_mode f then length (content f) else cursor f in
  let before := take pos (content f) ++ replicate (pos - length (content f)) 0 in
  mkBufFile (before ++ data ++ drop (pos + length data) (content f)) (durable f)
    (pos + length data) (append_mode f) (buf f) (capacity f).

Definition file_set_len (f : BufFile) (n : nat) : BufFile :=
  mkBufFile (take n (content f) ++ replicate (n - length (content f)) 0) (durable f) (cursor f)
    (append_mode f) (buf f) (capacity f).

Definition file_sync_all (f : BufFile) : BufFile :=
  mkBufFile (content f) (content f) (cursor f) (append_mode f) (buf f) (capacity f).

Definition file_seek (f : BufFile) (n : nat) : BufFile :=
  mkBufFile (content f) (durable f) n (append_mode f) (buf f) (capacity f).

(** The outcome of a write to the file: [None] is success, [Some k] an error after [k]
    of the bytes went through. *)
Definition WriteFault : Type := option nat.

(** [BufWriter::flush]: what could not be written stays in the buffer. *)
Definition buf_flush (fault : WriteFault) (f : BufFile) : BufFile * bool :=
  match fault with
  | None => (with_buf (file_write f (buf f)) [], true)
  | Some k => (with_buf (file_write f (take k (buf f))) (drop k (buf f)), false)
  end.

(** [BufWriter::write_all]: bytes that fit are kept; otherwise the buffer is flushed,
    and data of the buffer's size or more goes straight to the file. *)
Definition buf_write_all (flush_fault write_fault : WriteFault) (data : list Z) (f : BufFile)
    : BufFile * bool :=
  let spare := capacity f - zlen (buf f) in
  if zlen data <? spare then (with_buf f (buf f ++ data), true)
  else
    let '(f, ok) := if zlen data >? spare then buf_flush flush_fault f else (f, true) in
    if negb ok then (f, false)
    else if capacity f <=? zlen data then
      match write_fault with
      | None => (file_write f data, true)
      | Some k => (file_write f (take k data), false)
      end
    else (with_buf f (buf f ++ data), true).

(** ** The log *)

Record WriteAheadLog := mkWal {
  file : BufFile;
  current_size : Z;
  pending_valid_prefix : option Z;
  poisoned : bool;
}.

Definition with_file (w : WriteAheadLog) (f : BufFile) : WriteAheadLog :=
  mkWal f (current_size w) (pending_valid_prefix w) (poisoned w).

(** A new file, or an old one emptied ([truncate(true)]). *)
Definition create_with_buffer_size (buffer_size : Z) : WriteAheadLog :=
  mkWal (mkBufFile [] [] 0 false [] buffer_size) 0 None false.

Definition create : WriteAheadLog := create_with_buffer_size DEFAULT_BUFFER_SIZE.

Section Operations.
Context `{Crc32} `{Bincode}.

(** [old] is the file found. A torn header is cut off and the cut synced; a corrupt
    tail is left in place and remembered. *)
Definition open_existing (old : list Z) : option WriteAheadLog :=
  match scan_valid_prefix old with
  | None => None
  | Some (valid_end, stop) =>
      let file_len := zlen old in
      let f := mkBufFile old old 0 true [] DEFAULT_BUFFER_SIZE in
      if bool_decide (stop = TornTail) && (valid_end <? file_len) then
        Some (mkWal (file_sync_all (file_set_len f (Z.to_nat valid_end))) valid_end None false)
      else
        Some (mkWal f file_len
                (if bool_decide (stop = Corruption) && (valid_end <? file_len)
                 then Some valid_end else None) false)
  end.

Definition has_pending_corrupt_tail (w : WriteAheadLog) : bool :=
  is_some (pending_valid_prefix w).

(** [flush_fault], [trim_ok], [sync_ok] and [dir_ok] are the outcomes of the flush, of
    [set_len], and of the syncs of the file and of its directory. *)
Definition reset_to_valid_prefix (flush_fault : WriteFault) (trim_ok sync_ok dir_ok : bool)
    (w : WriteAheadLog) : WriteAheadLog * result Error (option Z) :=
  match pending_valid_prefix w with
  | None => (w, Ok None)
  | Some valid_end =>
      let '(f, ok) := buf_flush flush_fault (file w) in
      let w := with_file w f in
      if negb ok then (w, Err Storage)
      else
        let file_len := zlen (content f) in
        if file_len <=? valid_end then (mkWal f file_len None (poisoned w), Ok None)
        else if negb trim_ok then (w, Err Storage)
        else
          let f := file_set_len f (Z.to_nat valid_end) in
          let w := with_file w f in
          if negb sync_ok then (w, Err Storage)
          else if negb dir_ok then (with_file w (file_sync_all f), Err Storage)
          else (mkWal (file_sync_all f) valid_end None (poisoned w), Ok (Some valid_end))
  end.

(** The outcomes of the writes inside the three [write_all] of an append. *)
Definition AppendIo : Type :=
  (WriteFault * WriteFault) * (WriteFault * WriteFault) * (WriteFault * WriteFault).
Definition io_ok : AppendIo := ((None, None), (None, None), (None, None)).

Definition append (io : AppendIo) (m : Mutation) (w : WriteAheadLog)
    : WriteAheadLog * result Error unit :=
  if poisoned w then (w, Err Storage)
  else if is_some (pending_valid_prefix w) then (w, Err Storage)
  else match serialize m with
  | None => (w, Err Storage)
  | Some append_scratch =>
      if zlen append_scratch >? MAX_ENTRY_LENGTH then (w, Err Storage)
      else
        let entry_length := as_u32 (zlen append_scratch) in
        let crc := crc32 append_scratch in
        let '((l1, l2), (c1, c2), (p1, p2)) := io in
        let '(f, ok) := buf_write_all l1 l2 (le_bytes 4 entry_length) (file w) in
        if negb ok then (with_file w f, Err Storage)
        else
          let '(f, ok) := buf_write_all c1 c2 (le_bytes 4 crc) f in
          if negb ok then (with_file w f, Err Storage)
          else
            let '(f, ok) := buf_write_all p1 p2 append_scratch f in
            if negb ok then (with_file w f, Err Storage)
            else (mkWal f (current_size w + (8 + entry_length)) (pending_valid_prefix w)
                    (poisoned w), Ok tt)
  end.

Definition sync (flush_fault : WriteFault) (sync_ok : bool) (w : WriteAheadLog)
    : WriteAheadLog * result Error unit :=
  if poisoned w then (w, Err Storage)
  else
    let '(f, ok) := buf_flush flush_fault (file w) in
    if negb ok then (with_file w f, Err Storage)
    else if sync_ok then (with_file w (file_sync_all f), Ok tt)
    else (with_file w f, Err Storage).

Definition truncate_checked (flush_fault : WriteFault) (set_len_ok sync_ok seek_ok : bool)
    (w : WriteAheadLog) : WriteAheadLog * option TruncateError :=
  if poisoned w then (w, Some (AfterMutation Storage))
  else
    let '(f, ok) := buf_flush flush_fault (file w) in
    let w := with_file w f in
    if negb ok then (w, Some (BeforeMutation Storage))
    else if negb set_len_ok then (w, Some (BeforeMutation Storage))
    else
      let f := file_set_len f 0 in
      let f := if sync_ok then file_sync_all f else f in
      let f := if seek_ok then file_seek f 0 else f in
      let w := mkWal f 0 (pending_valid_prefix w) (poisoned w) in
      if negb seek_ok then
        (mkWal f 0 (pending_valid_prefix w) true, Some (AfterMutation Storage))
      else if negb sync_ok then (w, Some (AfterMutation Storage))
      else (mkWal f 0 None (poisoned w), None).

Definition truncate (flush_fault : WriteFault) (set_len_ok sync_ok seek_ok : bool)
    (w : WriteAheadLog) : WriteAheadLog * result Error unit :=
  let '(w, e) := truncate_checked flush_fault set_len_ok sync_ok seek_ok w in
  (w, match e with None => Ok tt | Some e => Err (into_inner e) end).

Definition size (w : WriteAheadLog) : Z := current_size w.
End Operations.
