(* ===== verification/WalProps.v ===== *)
(** Properties of the write-ahead log: the two readers agree on every file, every crash
    recovers the records written before it, and appends stay readable. *)

From S2P Require Import Prelude Values Keys Mutation Wal.

Open Scope Z_scope.

(** ** Records *)

Section Framing.
Context `{Crc32}.

Definition header (p : list Z) : list Z := le_bytes 4 (zlen p) ++ le_bytes 4 (crc32 p).
Definition frame (p : list Z) : list Z := header p ++ p.
Definition log (ps : list (list Z)) : list Z := concat (map frame ps).
Definition fits (p : list Z) : Prop := zlen p <= MAX_ENTRY_LENGTH.

(** What stops a reader at the front of some bytes; [None] is a readable record. *)
Definition stop_at (t : list Z) : option WalStop :=
  if is_empty t then Some CleanEof
  else if zlen t <? 8 then Some TornTail
  else
    let n := from_le (take 4 t) in
    if (n >? MAX_ENTRY_LENGTH) || (zlen (drop 8 t) <? n)
       || negb (crc32 (take (Z.to_nat n) (drop 8 t)) =? from_le (take 4 (drop 4 t)))
    then Some Corruption else None.

Lemma header_length p : length (header p) = 8%nat.
Proof. unfold header. by rewrite length_app, !le_bytes_length. Qed.

Lemma frame_length p : length (frame p) = (8 + length p)%nat.
Proof. unfold frame. by rewrite length_app, header_length. Qed.

Lemma zlen_frame p : zlen (frame p) = 8 + zlen p.
Proof. unfold zlen. rewrite frame_length. lia. Qed.

Lemma log_app ps qs : log (ps ++ qs) = log ps ++ log qs.
Proof. unfold log. by rewrite map_app, concat_app. Qed.

Lemma log_snoc ps p : log (ps ++ [p]) = log ps ++ frame p.
Proof. rewrite log_app. unfold log at 2. cbn [map concat]. by rewrite app_nil_r. Qed.

Lemma zlen_log_cons p ps : zlen (log (p :: ps)) = 8 + zlen p + zlen (log ps).
Proof. unfold log. cbn [map concat]. by rewrite zlen_app, zlen_frame. Qed.

Lemma max_entry_u32 n : n <= MAX_ENTRY_LENGTH -> n < 2 ^ 32.
Proof. unfold MAX_ENTRY_LENGTH. lia. Qed.

(** Reading the parts of a record back. *)
Lemma read_frame p t :
  fits p ->
  from_le (take 4 (frame p ++ t)) = zlen p
  /\ from_le (take 4 (drop 4 (frame p ++ t))) = crc32 p
  /\ drop 8 (frame p ++ t) = p ++ t
  /\ 8 <= zlen (frame p ++ t).
Proof.
  intros Hp. unfold frame, header. rewrite <- !app_assoc.
  rewrite (take_app_length' (le_bytes 4 (zlen p))) by (by rewrite le_bytes_length).
  rewrite (drop_app_length' (le_bytes 4 (zlen p))) by (by rewrite le_bytes_length).
  rewrite (take_app_length' (le_bytes 4 (crc32 p))) by (by rewrite le_bytes_length).
  split_and!.
  - apply from_le_bytes_id. split; [apply zlen_nonneg|]. by apply max_entry_u32.
  - apply from_le_bytes_id. apply crc32_range.
  - rewrite app_assoc, drop_app_length'; [done|]. by rewrite length_app, !le_bytes_length.
  - unfold zlen. rewrite !length_app, !le_bytes_length. lia.
Qed.

(** A readable record is a frame. *)
Lemma readable_frame t :
  Forall is_byte t -> stop_at t = None -> exists p rest, t = frame p ++ rest /\ fits p.
Proof.
  intros Hb. unfold stop_at. destruct t as [|z t'] eqn:Et; [done|]. rewrite <- Et in *. cbn [is_empty].
  replace (is_empty t) with false by (by rewrite Et).
  destruct (Z.ltb_spec (zlen t) 8) as [|H8]; [done|]. cbn zeta.
  set (n := from_le (take 4 t)). set (p := take (Z.to_nat n) (drop 8 t)).
  destruct (_ || _) eqn:E; [done|]. intros _.
  rewrite !orb_false_iff, negb_false_iff, Z.eqb_eq, Z.ltb_ge, Z.gtb_ltb, Z.ltb_ge in E.
  destruct E as [[Hmax Hlen] Hcrc]. unfold zlen in *.
  assert (Hn : 0 <= n) by (by apply from_le_bound, Forall_take).
  assert (Hp : length p = Z.to_nat n) by (unfold p; rewrite length_take; lia).
  exists p, (drop (Z.to_nat n) (drop 8 t)). split; [|unfold fits, zlen; lia].
  unfold frame, header. fold p in Hcrc. rewrite Hcrc. unfold zlen. rewrite Hp, Z2Nat.id by done.
  unfold n. rewrite !le_bytes_from_le.
  - fold n. rewrite <- !app_assoc. fold p. unfold p. rewrite take_drop.
    transitivity (take 4 t ++ drop 4 t); [by rewrite take_drop|]. f_equal.
    transitivity (take 4 (drop 4 t) ++ drop 4 (drop 4 t)); [by rewrite take_drop|].
    by rewrite drop_drop.
  - by apply Forall_take, Forall_drop.
  - rewrite length_take, length_drop. lia.
  - by apply Forall_take.
  - rewrite length_take. lia.
Qed.

(** Every file is a sequence of records and something that stops a reader. *)
Lemma split_log t :
  Forall is_byte t ->
  exists ps rest stop, t = log ps ++ rest /\ Forall fits ps /\ stop_at rest = Some stop.
Proof.
  remember (length t) as n eqn:En. revert t En.
  induction n as [n IH] using lt_wf_ind. intros t -> Hb.
  destruct (stop_at t) as [s|] eqn:Es; [by exists [], t, s|].
  destruct (readable_frame t Hb Es) as (p & rest & -> & Hp).
  apply Forall_app in Hb as [_ Hb].
  destruct (IH (length rest)) with (t := rest) as (ps & rest' & s & -> & Hps & Hs); [|done..|].
  - rewrite length_app, frame_length. lia.
  - exists (p :: ps), rest', s. split_and!; [|by constructor|done].
    unfold log. cbn [map concat]. by rewrite <- app_assoc.
Qed.
End Framing.

(** ** The two readers *)

Section Readers.
Context `{Crc32} `{Bincode}.

Lemma scan_frame fuel p t off len :
  fits p -> scan_loop (S fuel) (frame p ++ t) off len = scan_loop fuel t (off + (8 + zlen p)) len.
Proof.
  intros Hp. destruct (read_frame p t Hp) as (E1 & E2 & E3 & E4).
  cbn [scan_loop]. rewrite E1, E2, E3. destruct (Z.ltb_spec (zlen (frame p ++ t)) 8); [lia|].
  rewrite Z.gtb_ltb. unfold fits in Hp. destruct (Z.ltb_spec MAX_ENTRY_LENGTH (zlen p)); [lia|].
  rewrite zlen_app. pose proof (zlen_nonneg t).
  destruct (Z.ltb_spec (zlen p + zlen t) (zlen p)); [lia|].
  replace (Z.to_nat (zlen p)) with (length p) by (unfold zlen; lia).
  by rewrite take_app_length, drop_app_length, Z.eqb_refl.
Qed.

Lemma scan_stop fuel t off stop :
  stop_at t = Some stop -> scan_loop (S fuel) t off (off + zlen t) = Some (off, stop).
Proof.
  unfold stop_at. cbn [scan_loop]. destruct t as [|z t'] eqn:Et.
  - intros [= <-]. cbn. by rewrite Z.add_0_r, Z.eqb_refl.
  - rewrite <- Et in *. replace (is_empty t) with false by (by rewrite Et).
    assert (0 < zlen t) by (rewrite Et; unfold zlen; cbn; lia). clear Et.
    destruct (Z.ltb_spec (zlen t) 8).
    + intros [= <-]. by destruct (Z.eqb_spec (off + zlen t) off); [lia|].
    + cbn zeta. destruct (_ >? _); cbn; [by intros [= <-]|].
      destruct (_ <? _); cbn; [by intros [= <-]|].
      destruct (negb _); [by intros [= <-]|done].
Qed.

Lemma scan_log ps t off stop fuel :
  Forall fits ps -> stop_at t = Some stop -> (length ps < fuel)%nat ->
  scan_loop fuel (log ps ++ t) off (off + zlen (log ps ++ t)) = Some (off + zlen (log ps), stop).
Proof.
  intros Hps Hs. revert off fuel. induction Hps as [|p ps Hp Hps IH]; intros off fuel Hf.
  - destruct fuel as [|fuel]; [lia|]. cbn. rewrite Z.add_0_r. by apply scan_stop.
  - destruct fuel as [|fuel]; [lia|]. unfold log. cbn [map concat]. rewrite <- app_assoc.
    fold (log ps). rewrite scan_frame by done. rewrite zlen_app, zlen_frame.
    replace (off + (8 + zlen p + zlen (log ps ++ t)))
      with (off + (8 + zlen p) + zlen (log ps ++ t)) by lia.
    rewrite IH by (cbn in Hf; lia). f_equal. f_equal. rewrite zlen_app, zlen_frame. lia.
Qed.

Lemma log_fuel ps t : (length ps < S (length (log ps ++ t)))%nat.
Proof.
  rewrite length_app. enough (length ps <= length (log ps))%nat by lia.
  induction ps as [|p ps IH]; [done|]. unfold log. cbn [map concat length].
  rewrite length_app, frame_length. fold (log ps). lia.
Qed.

Lemma scan_valid_prefix_log ps t stop :
  Forall fits ps -> stop_at t = Some stop ->
  scan_valid_prefix (log ps ++ t) = Some (zlen (log ps), stop).
Proof.
  intros Hps Hs. unfold scan_valid_prefix.
  apply (scan_log ps t 0 stop); [done..|apply log_fuel].
Qed.

(** What replaying records does to the caller's state. *)
Section Replayed.
Context {S : Type} (f : S -> Mutation -> result Error S).

Fixpoint apply_records (ps : list (list Z)) (report : RecoveryReport) (s : S)
    : result Error (S * RecoveryReport) :=
  match ps with
  | [] => Ok (s, report)
  | p :: ps' =>
      match decode_mutation p with
      | Some m =>
          match f s m with
          | Ok s' => apply_records ps' report s'
          | Err e => Err e
          end
      | None => apply_records ps' (count_corrupt report) s
      end
  end.

Lemma replay_frame fuel p t off report s :
  fits p ->
  replay_loop f (Datatypes.S fuel) (frame p ++ t) off report s
  = match apply_records [p] report s with
    | Ok (s', report') => replay_loop f fuel t (off + (8 + zlen p)) report' s'
    | Err e => Some (Err e)
    end.
Proof.
  intros Hp. destruct (read_frame p t Hp) as (E1 & E2 & E3 & E4).
  cbn [replay_loop]. rewrite E1, E2, E3. destruct (Z.ltb_spec (zlen (frame p ++ t)) 8); [lia|].
  rewrite Z.gtb_ltb. unfold fits in Hp. destruct (Z.ltb_spec MAX_ENTRY_LENGTH (zlen p)); [lia|].
  rewrite zlen_app. pose proof (zlen_nonneg t).
  destruct (Z.ltb_spec (zlen p + zlen t) (zlen p)); [lia|].
  replace (Z.to_nat (zlen p)) with (length p) by (unfold zlen; lia).
  rewrite take_app_length, drop_app_length, Z.eqb_refl. cbn.
  destruct (decode_mutation p) as [m|]; [|done]. by destruct (f s m).
Qed.

Definition stopped (stop : WalStop) (report : RecoveryReport) : RecoveryReport :=
  if bool_decide (stop = Corruption) then stop_early report else report.

Lemma replay_stop fuel t off stop report s :
  stop_at t = Some stop ->
  replay_loop f (Datatypes.S fuel) t off report s = Some (Ok (s, stopped stop report, off)).
Proof.
  unfold stop_at. cbn [replay_loop]. destruct t as [|z t'] eqn:Et; [by intros [= <-]|].
  rewrite <- Et in *. replace (is_empty t) with false by (by rewrite Et). clear Et.
  destruct (_ <? 8); [by intros [= <-]|]. cbn zeta.
  destruct (_ >? _); cbn; [by intros [= <-]|].
  destruct (_ <? _); cbn; [by intros [= <-]|].
  destruct (negb _); [by intros [= <-]|done].
Qed.

Lemma replay_loop_log ps t off stop report s fuel :
  Forall fits ps -> stop_at t = Some stop -> (length ps < fuel)%nat ->
  replay_loop f fuel (log ps ++ t) off report s
  = Some (match apply_records ps report s with
          | Ok (s', report') => Ok (s', stopped stop report', off + zlen (log ps))
          | Err e => Err e
          end).
Proof.
  intros Hps Hs. revert off report s fuel.
  induction Hps as [|p ps Hp Hps IH]; intros off report s fuel Hf; (destruct fuel as [|fuel]; [lia|]).
  - cbn [log map concat app apply_records]. rewrite Z.add_0_r. by apply replay_stop.
  - unfold log. cbn [map concat]. rewrite <- app_assoc. fold (log ps).
    rewrite replay_frame, zlen_app, zlen_frame by done. cbn [apply_records].
    cbn in Hf. replace (off + (8 + zlen p + zlen (log ps))) with (off + (8 + zlen p) + zlen (log ps)) by lia.
    destruct (decode_mutation p) as [m|]; [|by rewrite IH by lia].
    destruct (f s m) as [s'|e]; [by rewrite IH by lia|done].
Qed.

Lemma replay_each_log ps t stop s :
  Forall fits ps -> stop_at t = Some stop ->
  replay_each f (log ps ++ t) s
  = Some (match apply_records ps report_default s with
          | Ok (s', report') => Ok (s', with_bytes_skipped (stopped stop report') (zlen t))
          | Err e => Err e
          end).
Proof.
  intros Hps Hs. unfold replay_each.
  rewrite (replay_loop_log ps t 0 stop) by (done || apply log_fuel).
  destruct (apply_records ps report_default s) as [[s' r]|e]; [|done]. do 4 f_equal.
  rewrite zlen_app. pose proof (zlen_nonneg t). lia.
Qed.
End Replayed.

(** Collecting what is decoded. *)
Lemma apply_push ps report out :
  apply_records (fun out m => Ok (out ++ [m])) ps report out
  = Ok (out ++ omap decode_mutation ps,
        mkReport (rr_mutations report)
          (rr_corrupt_entries report + zlen (List.filter (fun p => negb (is_some (decode_mutation p))) ps))
          (rr_stopped_early report) (rr_bytes_skipped report)).
Proof.
  revert report out. induction ps as [|p ps IH]; intros [ms c s b] out; cbn.
  - unfold zlen. cbn. by rewrite app_nil_r, Z.add_0_r.
  - destruct (decode_mutation p) as [m|]; cbn; rewrite IH; cbn.
    + by rewrite <- app_assoc.
    + unfold zlen. cbn [length]. rewrite Nat2Z.inj_succ. do 2 f_equal. f_equal. lia.
Qed.
End Readers.

(** ** Crashes *)

Section Crash.
Context `{Crc32}.

(** What is left of a log cut anywhere: whole records, then a proper part of one. *)
Definition torn (ps : list (list Z)) (n : nat) (t : list Z) : Prop :=
  t = [] \/ exists p, ps !! n = Some p /\ t `prefix_of` frame p /\ zlen t < zlen (frame p).

Definition torn_stop (t : list Z) : WalStop :=
  if is_empty t then CleanEof else if zlen t <? 8 then TornTail else Corruption.

Lemma torn_stop_at ps n t : Forall fits ps -> torn ps n t -> stop_at t = Some (torn_stop t).
Proof.
  intros Hps [->|(p & Hp & [r Er] & Hlt)]; [done|].
  assert (Hf : fits p) by (rewrite Forall_lookup in Hps; by apply (Hps n)).
  unfold stop_at, torn_stop. destruct (is_empty t); [done|].
  destruct (Z.ltb_spec (zlen t) 8) as [|H8]; [done|]. cbn zeta.
  destruct (read_frame p [] Hf) as (E1 & _ & E3 & _). rewrite app_nil_r in E1, E3.
  assert (E : take 4 (frame p) = take 4 t).
  { rewrite Er, take_app_le; [done|]. unfold zlen in H8. lia. }
  assert (Hd : zlen (drop 8 t) < zlen p).
  { rewrite zlen_frame in Hlt. unfold zlen in *. rewrite length_drop. lia. }
  rewrite <- E, E1. destruct (Z.ltb_spec (zlen (drop 8 t)) (zlen p)); [|lia].
  by rewrite orb_true_r.
Qed.

Lemma cut_log ps img :
  img `prefix_of` log ps ->
  exists n t, (n <= length ps)%nat /\ img = log (take n ps) ++ t /\ torn ps n t.
Proof.
  revert img. induction ps as [|p ps IH]; intros img Hi.
  - apply prefix_nil_inv in Hi as ->. exists 0%nat, []. split_and!; [done..|by left].
  - unfold log in Hi. cbn [map concat] in Hi. fold (log ps) in Hi.
    destruct (decide (length (frame p) <= length img)%nat) as [Hle|Hgt].
    + assert (frame p `prefix_of` img) as [img' ->].
      { destruct (prefix_weak_total img (frame p) (frame p ++ log ps)) as [[r Er]|?];
          [done|by apply prefix_app_r| |done].
        rewrite Er, length_app in Hle. destruct r; [|cbn in Hle; lia].
        rewrite app_nil_r in Er. by rewrite Er. }
      apply prefix_app_inv in Hi. destruct (IH img' Hi) as (n & t & Hn & -> & Ht).
      exists (S n), t. split_and!; [cbn; lia| |].
      * unfold log. cbn [take map concat]. by rewrite <- app_assoc.
      * destruct Ht as [->|(q & Hq)]; [by left|right; by exists q].
    + exists 0%nat, img. split_and!; [lia|done|]. right. exists p. split; [done|]. split.
      * destruct (prefix_weak_total img (frame p) (frame p ++ log ps)) as [?|[r ->]];
          [done|by apply prefix_app_r|done|]. rewrite length_app in Hgt. lia.
      * unfold zlen. lia.
Qed.

Lemma torn_nil ps n t : torn ps n t -> (length ps <= n)%nat -> t = [].
Proof.
  intros [->|(p & Hp & _)] Hn; [done|]. apply lookup_lt_Some in Hp. lia.
Qed.
End Crash.

(** ** Logs that take appends *)

Section Ready.
Context `{Crc32} `{BincodeLaws}.

(** The handle writes at the end of the file. *)
Definition at_end (f : BufFile) : Prop := append_mode f = true \/ cursor f = length (content f).

Definition all_bytes (f : BufFile) : list Z := content f ++ buf f.

(** A log that accepts appends and holds the records [ps], synced or not. *)
Definition ready (w : WriteAheadLog) (ps : list (list Z)) : Prop :=
  poisoned w = false /\ pending_valid_prefix w = None /\ at_end (file w)
  /\ all_bytes (file w) = log ps /\ current_size w = zlen (log ps).

Lemma file_write_end f data :
  at_end f ->
  at_end (file_write f data) /\ content (file_write f data) = content f ++ data
  /\ durable (file_write f data) = durable f /\ buf (file_write f data) = buf f.
Proof.
  intros He. unfold file_write.
  replace (if append_mode f then length (content f) else cursor f) with (length (content f))
    by (destruct He as [->| ->]; [done|by destruct (append_mode f)]).
  rewrite Nat.sub_diag, firstn_all, (drop_ge (content f)) by lia. cbn. rewrite !app_nil_r.
  split_and!; [|done..]. right. cbn. by rewrite length_app.
Qed.

Lemma buf_flush_spec fault f f' ok :
  at_end f -> buf_flush fault f = (f', ok) ->
  at_end f' /\ all_bytes f' = all_bytes f /\ durable f' = durable f
  /\ content f `prefix_of` content f'
  /\ ok = negb (is_some fault) /\ (ok = true -> buf f' = []).
Proof.
  intros He. unfold buf_flush, all_bytes.
  destruct fault as [k|]; intros [= <- <-]; cbn [is_some negb];
    [set (d := take k (buf f))|set (d := buf f)];
    destruct (file_write_end f d He) as (Hw & Ec & Ed & _);
    (split_and!; [exact Hw|change (content (with_buf ?g _)) with (content g)|exact Ed| |done|done]).
  - rewrite Ec, <- app_assoc. f_equal. apply take_drop.
  - change (content f `prefix_of` content (file_write f d)). rewrite Ec. by apply prefix_app_r.
  - rewrite Ec. apply app_nil_r.
  - change (content f `prefix_of` content (file_write f d)). rewrite Ec. by apply prefix_app_r.
Qed.

Lemma buf_flush_mode fault f : append_mode (fst (buf_flush fault f)) = append_mode f.
Proof. by destruct fault. Qed.

Lemma buf_write_all_ok data f :
  at_end f ->
  exists f', buf_write_all None None data f = (f', true) /\ at_end f'
    /\ all_bytes f' = all_bytes f ++ data /\ durable f' = durable f.
Proof.
  intros He. unfold buf_write_all, all_bytes.
  destruct (Z.ltb_spec (zlen data) (capacity f - zlen (buf f))).
  { eexists. split; [done|]. cbn. by rewrite app_assoc. }
  rewrite Z.gtb_ltb. destruct (Z.ltb_spec (capacity f - zlen (buf f)) (zlen data)).
  - destruct (buf_flush None f) as [f1 ok] eqn:E.
    apply buf_flush_spec in E as (He1 & Ha & Hd & _ & -> & Hb); [|done]. cbn [negb is_some].
    specialize (Hb eq_refl). unfold all_bytes in Ha. rewrite Hb, app_nil_r in Ha.
    destruct (capacity f1 <=? zlen data); eexists; (split; [done|]).
    + destruct (file_write_end f1 data He1) as (Hw & -> & -> & ->). by rewrite Hb, Ha, app_nil_r.
    + cbn. by rewrite Hb, Ha.
  - destruct (Z.leb_spec (capacity f) (zlen data)); eexists; (split; [done|]).
    + assert (Hb : buf f = []) by (apply nil_length_inv; unfold zlen in *; lia).
      destruct (file_write_end f data He) as (Hw & -> & -> & ->). by rewrite Hb, !app_nil_r.
    + cbn. by rewrite app_assoc.
Qed.

Lemma append_ready w ps m p :
  ready w ps -> serialize m = Some p -> fits p ->
  exists w', append io_ok m w = (w', Ok tt) /\ ready w' (ps ++ [p])
    /\ durable (file w') = durable (file w).
Proof.
  intros (Hpo & Hpe & He & Ha & Hs) Ep Hf. unfold append. rewrite Hpo, Hpe, Ep. cbn [is_some].
  unfold fits in Hf. rewrite Z.gtb_ltb. destruct (Z.ltb_spec MAX_ENTRY_LENGTH (zlen p)); [lia|].
  pose proof (zlen_nonneg p). pose proof (max_entry_u32 _ Hf).
  unfold as_u32. rewrite wrap_id by done. cbn [io_ok].
  destruct (buf_write_all_ok (le_bytes 4 (zlen p)) (file w) He) as (f1 & -> & W1 & A1 & D1).
  destruct (buf_write_all_ok (le_bytes 4 (crc32 p)) f1 W1) as (f2 & -> & W2 & A2 & D2).
  destruct (buf_write_all_ok p f2 W2) as (f3 & -> & W3 & A3 & D3). cbn [negb].
  eexists. split; [done|]. split; [|cbn; congruence]. split_and!; cbn; try done.
  - rewrite A3, A2, A1, Ha, log_snoc. unfold frame, header. by rewrite <- !app_assoc.
  - rewrite Hs, log_snoc, zlen_app, zlen_frame. done.
Qed.

Lemma sync_ready fault ok w ps w' r :
  ready w ps -> sync fault ok w = (w', r) ->
  ready w' ps
  /\ (r = Ok tt -> content (file w') = log ps /\ durable (file w') = log ps /\ buf (file w') = [])
  /\ (r <> Ok tt -> durable (file w') = durable (file w))
  /\ (r = Ok tt <-> fault = None /\ ok = true).
Proof.
  intros (Hpo & Hpe & He & Ha & Hs). unfold sync. rewrite Hpo.
  destruct (buf_flush fault (file w)) as [f b] eqn:E.
  apply buf_flush_spec in E as (He1 & Ha1 & Hd & _ & -> & Hb); [|done]. rewrite Ha in Ha1.
  destruct fault as [k|]; cbn [is_some negb]; [|specialize (Hb eq_refl)].
  - intros [= <- <-]. split_and!; [done..|]. by split; [|intros []].
  - unfold all_bytes in Ha1. rewrite Hb, app_nil_r in Ha1.
    destruct ok; intros [= <- <-]; unfold ready, all_bytes; cbn; rewrite Hb, Ha1, ?app_nil_r.
    + by split_and!.
    + split_and!; try done. by split; [|intros []].
Qed.

Lemma sync_content_prefix fault ok w w' r ps :
  ready w ps -> sync fault ok w = (w', r) -> content (file w) `prefix_of` content (file w').
Proof.
  intros (Hpo & _ & He & _). unfold sync. rewrite Hpo.
  destruct (buf_flush fault (file w)) as [f b] eqn:E. apply buf_flush_spec in E as (_ & _ & _ & Hc & -> & _); [|done].
  destruct fault, ok; intros [= <- <-]; exact Hc.
Qed.

(** Appends with I/O errors: what reached the log is a beginning of the data. *)
Lemma buf_write_all_spec x y data f f' ok :
  at_end f -> buf_write_all x y data f = (f', ok) ->
  exists d, d `prefix_of` data /\ all_bytes f' = all_bytes f ++ d /\ (ok = true -> d = data)
    /\ at_end f' /\ durable f' = durable f /\ content f `prefix_of` content f'.
Proof.
  intros He. unfold buf_write_all, all_bytes.
  destruct (zlen data <? capacity f - zlen (buf f)).
  { intros [= <- <-]. exists data. cbn. by rewrite app_assoc. }
  assert (Hdirect : forall g, at_end g -> buf g = [] -> forall r ok,
    match y with None => (file_write g data, true) | Some k => (file_write g (take k data), false) end
      = (r, ok) ->
    exists d, d `prefix_of` data /\ content r ++ buf r = (content g ++ buf g) ++ d
      /\ (ok = true -> d = data) /\ at_end r /\ durable r = durable g
      /\ content g `prefix_of` content r).
  { intros g Hg Hb r ok'. destruct y as [k|]; intros [= <- <-];
      [exists (take k data)|exists data];
      match goal with |- context [file_write g ?d] =>
        destruct (file_write_end g d Hg) as (Hw & -> & -> & ->) end; rewrite Hb, !app_nil_r;
      split_and!; try done; try (by apply prefix_app_r).
    exists (drop k data). by rewrite take_drop. }
  destruct (zlen data >? capacity f - zlen (buf f)) eqn:Eg.
  - destruct (buf_flush x f) as [f1 ok1] eqn:E.
    apply buf_flush_spec in E as (He1 & Ha & Hd & Hc & -> & Hb); [|done].
    destruct x as [k|]; cbn [is_some negb] in *.
    { intros [= <- <-]. exists []. unfold all_bytes in Ha. rewrite Ha, app_nil_r.
      split_and!; try done. apply prefix_nil. }
    specialize (Hb eq_refl). unfold all_bytes in Ha. rewrite <- Ha, <- Hd.
    destruct (capacity f1 <=? zlen data); intros E.
    + destruct (Hdirect f1 He1 Hb _ _ E) as (d & Q1 & Q2 & Q3 & Q4 & Q5 & Q6). exists d.
      split_and!; try done. by etrans.
    + injection E as <- <-. exists data. cbn. rewrite app_assoc. by split_and!.
  - cbn [negb]. destruct (Z.leb_spec (capacity f) (zlen data)) as [Hle|]; intros E.
    + assert (Hb : buf f = []) by (apply nil_length_inv; unfold zlen in *; lia).
      exact (Hdirect f He Hb _ _ E).
    + injection E as <- <-. exists data. cbn. rewrite app_assoc. by split_and!.
Qed.

(** A record that was refused midway lies torn at the end of the log. *)
Definition append_torn (io : AppendIo) (m : Mutation) (w : WriteAheadLog) : bool :=
  let '(w', r) := append io m w in
  match r with Ok _ => false | Err _ => zlen (all_bytes (file w)) <? zlen (all_bytes (file w')) end.

Lemma append_spec io w ps m w' r :
  ready w ps -> append io m w = (w', r) -> append_torn io m w = false ->
  durable (file w') = durable (file w) /\ content (file w) `prefix_of` content (file w')
  /\ match r with
     | Ok _ => exists p, serialize m = Some p /\ fits p /\ ready w' (ps ++ [p])
     | Err e => e = Storage /\ ready w' ps
     end.
Proof.
  intros Hr E Ht. unfold append_torn in Ht. rewrite E in Ht.
  destruct Hr as (Hpo & Hpe & He & Ha & Hs). unfold append in E. rewrite Hpo, Hpe in E. cbn [is_some] in E.
  destruct (serialize m) as [p|] eqn:Ep; [|by simplify_eq; split_and!].
  rewrite Z.gtb_ltb in E. destruct (Z.ltb_spec MAX_ENTRY_LENGTH (zlen p)) as [|Hf]; [by simplify_eq; split_and!|].
  pose proof (zlen_nonneg p). pose proof (max_entry_u32 _ Hf).
  unfold as_u32 in E. rewrite wrap_id in E by done.
  assert (Herr : forall f d, at_end f -> all_bytes f = all_bytes (file w) ++ d ->
    (zlen (all_bytes (file w)) <? zlen (all_bytes f)) = false -> ready (with_file w f) ps).
  { intros f d Hf1 Hf2 Hlt. rewrite Hf2, zlen_app in Hlt.
    destruct d as [|z d]; [|apply Z.ltb_ge in Hlt; unfold zlen in Hlt; cbn [length] in Hlt; lia].
    rewrite app_nil_r in Hf2. unfold ready. cbn. by rewrite Hf2. }
  destruct io as [[[l1 l2] [c1 c2]] [p1 p2]].
  destruct (buf_write_all l1 l2 _ (file w)) as [f1 ok1] eqn:E1.
  apply buf_write_all_spec in E1 as (d1 & _ & A1 & O1 & W1 & D1 & C1); [|done].
  destruct ok1; cbn [negb] in E; [|simplify_eq; split_and!; try done; by eapply Herr].
  specialize (O1 eq_refl) as ->.
  destruct (buf_write_all c1 c2 _ f1) as [f2 ok2] eqn:E2.
  apply buf_write_all_spec in E2 as (d2 & _ & A2 & O2 & W2 & D2 & C2); [|done].
  destruct ok2; cbn [negb] in E.
  2:{ simplify_eq. cbn. split_and!; [congruence|by etrans|done|].
      eapply Herr; [done|by rewrite A2, A1, <- app_assoc|done]. }
  specialize (O2 eq_refl) as ->.
  destruct (buf_write_all p1 p2 p f2) as [f3 ok3] eqn:E3.
  apply buf_write_all_spec in E3 as (d3 & _ & A3 & O3 & W3 & D3 & C3); [|done].
  destruct ok3; cbn [negb] in E.
  2:{ simplify_eq. cbn. split_and!; [congruence|by do 2 (etrans; [done|])|done|].
      eapply Herr; [done|by rewrite A3, A2, A1, <- !app_assoc|done]. }
  specialize (O3 eq_refl) as ->. injection E as <- <-. cbn.
  split_and!; [congruence|by do 2 (etrans; [done|])|]. exists p. split_and!; try done.
  unfold ready. cbn. rewrite A3, A2, A1, Ha, Hs, log_snoc, zlen_app, zlen_frame.
  unfold frame, header. split_and!; try done. by rewrite <- !app_assoc.
Qed.

(** Truncation, by what it reports. *)
Lemma truncate_spec fault set_len_ok sync_ok seek_ok w ps w' e :
  ready w ps -> truncate_checked fault set_len_ok sync_ok seek_ok w = (w', e) ->
  match e with
  | None => ready w' [] /\ durable (file w') = []
  | Some (BeforeMutation _) =>
      ready w' ps /\ durable (file w') = durable (file w)
      /\ content (file w) `prefix_of` content (file w')
  | Some (AfterMutation _) =>
      all_bytes (file w') = [] /\ current_size w' = 0 /\ pending_valid_prefix w' = None
      /\ (poisoned w' = true \/ ready w' [])
      /\ (durable (file w') = [] \/ durable (file w') = durable (file w))
  end.
Proof.
  intros (Hpo & Hpe & He & Ha & Hs). unfold truncate_checked. rewrite Hpo.
  destruct (buf_flush fault (file w)) as [f b] eqn:E. pose proof (buf_flush_mode fault (file w)) as Hm.
  rewrite E in Hm. cbn [fst] in Hm.
  apply buf_flush_spec in E as (He1 & Ha1 & Hd & Hc & -> & Hb); [|done].
  assert (Hw : ready (with_file w f) ps) by (unfold ready; cbn; by rewrite Ha1).
  destruct fault as [k|]; cbn [is_some negb]; [intros [= <- <-]; by split_and!|].
  specialize (Hb eq_refl).
  destruct set_len_ok; cbn [negb]; [|intros [= <- <-]; by split_and!].
  unfold ready, at_end, all_bytes, file_set_len, file_seek, file_sync_all.
  destruct seek_ok, sync_ok; cbn [negb]; intros [= <- <-]; cbn; rewrite ?Hb, ?Hpo, ?Hpe, ?Hd.
  - split_and!; try done. by right.
  - split_and!; try done; [right; split_and!; try done; by right|by right].
  - split_and!; try done; by left.
  - split_and!; try done; [by left|by right].
Qed.

Lemma take_log ps t n : n = length (log ps) -> take n (log ps ++ t) ++ replicate (n - length (log ps ++ t)) 0 = log ps.
Proof.
  intros ->. rewrite take_app_length, length_app.
  replace (_ - _)%nat with 0%nat by lia. apply app_nil_r.
Qed.

Lemma stop_nil t : stop_at t = Some CleanEof <-> t = [].
Proof.
  split; [|by intros ->]. unfold stop_at. destruct t as [|z t]; [done|]. cbn [is_empty].
  destruct (_ <? _); [done|]. cbn zeta. by destruct (_ || _).
Qed.

(** Opening any file: a clean end or a torn header leaves a log that takes appends; a
    corrupt tail stays, and its beginning is remembered. *)
Lemma open_log ps t stop :
  Forall fits ps -> stop_at t = Some stop ->
  exists w, open_existing (log ps ++ t) = Some w
    /\ ((stop <> Corruption /\ ready w ps /\ durable (file w) = log ps /\ content (file w) = log ps)
        \/ (stop = Corruption
            /\ w = mkWal (mkBufFile (log ps ++ t) (log ps ++ t) 0 true [] DEFAULT_BUFFER_SIZE)
                     (zlen (log ps ++ t)) (Some (zlen (log ps))) false)).
Proof.
  intros Hps Hs. unfold open_existing. rewrite (scan_valid_prefix_log ps t stop) by done.
  pose proof (zlen_nonneg t). rewrite zlen_app.
  assert (Hn : Z.to_nat (zlen (log ps)) = length (log ps)) by (unfold zlen; lia).
  destruct (decide (stop = CleanEof)) as [->|Hc].
  { apply stop_nil in Hs as ->. rewrite !bool_decide_eq_false_2 by done. cbn [andb].
    eexists. split; [done|]. left. rewrite !app_nil_r.
    unfold ready, at_end, all_bytes. cbn. rewrite !app_nil_r. unfold zlen at 2. cbn.
    rewrite Z.add_0_r. split_and!; try done. by left. }
  assert (Ht : 0 < zlen t).
  { destruct t as [|z t]; [|unfold zlen; cbn; lia]. injection Hs as <-. done. }
  destruct (Z.ltb_spec (zlen (log ps)) (zlen (log ps) + zlen t)) as [Hlt|]; [|lia].
  destruct (decide (stop = TornTail)) as [->|Hnt].
  - rewrite bool_decide_eq_true_2 by done. cbn [andb]. eexists. split; [done|]. left.
    unfold ready, at_end, all_bytes. cbn.
    rewrite take_log by done. rewrite app_nil_r. split_and!; try done. by left.
  - assert (stop = Corruption) as -> by by destruct stop.
    rewrite bool_decide_eq_false_2, bool_decide_eq_true_2 by done. cbn [andb].
    eexists. split; [done|]. by right.
Qed.

(** The reset drops a corrupt tail, whatever the outcomes it succeeds with. *)
Lemma reset_ok fault trim_ok sync_ok dir_ok w w' n :
  reset_to_valid_prefix fault trim_ok sync_ok dir_ok w = (w', Ok n) ->
  buf (file w) = [] -> reset_to_valid_prefix None true true true w = (w', Ok n).
Proof.
  unfold reset_to_valid_prefix. intros E Hb. destruct (pending_valid_prefix w); [|done].
  destruct fault as [k|]; [by cbn in E|]. destruct (buf_flush None (file w)) as [f [|]]; [|done].
  cbn [negb] in *. destruct (_ <=? _); [done|]. by destruct trim_ok, sync_ok, dir_ok.
Qed.

Lemma reset_corrupt ps t :
  let w := mkWal (mkBufFile (log ps ++ t) (log ps ++ t) 0 true [] DEFAULT_BUFFER_SIZE)
             (zlen (log ps ++ t)) (Some (zlen (log ps))) false in
  0 < zlen t ->
  exists w', reset_to_valid_prefix None true true true w = (w', Ok (Some (zlen (log ps))))
    /\ ready w' ps /\ durable (file w') = log ps /\ content (file w') = log ps.
Proof.
  cbv zeta. intros Ht. unfold reset_to_valid_prefix. cbn [pending_valid_prefix file].
  assert (Hn : Z.to_nat (zlen (log ps)) = length (log ps)) by (unfold zlen; lia).
  set (f := mkBufFile _ _ _ _ _ _). pose proof (buf_flush_mode None f) as Hm.
  destruct (buf_flush None f) as [g ok] eqn:E.
  apply buf_flush_spec in E as (_ & Ha & _ & _ & -> & Hb); [|by left].
  cbn [fst append_mode is_some negb] in Hm, Hb |- *. specialize (Hb eq_refl).
  unfold all_bytes in Ha. rewrite Hb in Ha. cbn [content buf f] in Ha. rewrite !app_nil_r in Ha.
  rewrite Ha, zlen_app. destruct (Z.leb_spec (zlen (log ps) + zlen t) (zlen (log ps))); [lia|].
  eexists. split; [done|].
  unfold ready, at_end, all_bytes, file_sync_all, file_set_len. cbn.
  rewrite Ha, Hb, take_log, app_nil_r by done. split_and!; try done. by left.
Qed.

(** Opening any file, and resetting it if its tail is corrupt, gives a log that
    takes appends and holds the readable records. *)
Lemma open_reset ps t stop :
  Forall fits ps -> stop_at t = Some stop ->
  exists w, open_existing (log ps ++ t) = Some w
    /\ ready (fst (reset_to_valid_prefix None true true true w)) ps
    /\ durable (file (fst (reset_to_valid_prefix None true true true w))) = log ps.
Proof.
  intros Hps Hs. destruct (open_log ps t stop Hps Hs) as (w & Hw & [(_ & Hr & Hd & _)|[-> ->]]);
    eexists; (split; [exact Hw|]).
  - unfold reset_to_valid_prefix. rewrite (proj1 (proj2 Hr)). done.
  - destruct (reset_corrupt ps t) as (w' & -> & Hr & Hd & _); [|done].
    destruct t as [|z t]; [done|]. unfold zlen. cbn. lia.
Qed.
End Ready.

(** ** Recovery *)

Section Recovery.
Context `{Crc32} `{Bincode}.

Fixpoint try_fold {S} (f : S -> Mutation -> result Error S) (s : S) (ms : list Mutation)
    : result Error S :=
  match ms with
  | [] => Ok s
  | m :: ms' => match f s m with Ok s' => try_fold f s' ms' | Err e => Err e end
  end.

Definition undecodable (ps : list (list Z)) : list (list Z) :=
  List.filter (fun p => negb (is_some (decode_mutation p))) ps.

Lemma apply_try_fold {S} (f : S -> Mutation -> result Error S) ps report s :
  apply_records f ps report s
  = match try_fold f s (omap decode_mutation ps) with
    | Ok s' => Ok (s', mkReport (rr_mutations report) (rr_corrupt_entries report + zlen (undecodable ps))
                         (rr_stopped_early report) (rr_bytes_skipped report))
    | Err e => Err e
    end.
Proof.
  revert report s. induction ps as [|p ps IH]; intros [ms c b k] s; cbn [apply_records].
  - cbn. unfold zlen. cbn. by rewrite Z.add_0_r.
  - unfold undecodable. cbn [List.filter]. fold (undecodable ps).
    change (omap decode_mutation (p :: ps))
      with (match decode_mutation p with Some m => m :: omap decode_mutation ps | None => omap decode_mutation ps end).
    destruct (decode_mutation p) as [m|]; cbn [is_some negb try_fold].
    + destruct (f s m) as [s'|e]; [apply IH|done].
    + rewrite IH. destruct (try_fold _ _ _); [|done]. unfold zlen. cbn. do 3 f_equal. lia.
Qed.

(** C36: Recovery of any file. Whatever the bytes, both readers stop and agree: the
    file is a sequence of readable records followed by bytes that stop a reader; the scan
    returns the end of the records; replay returns the decoded mutations in order, counts
    the undecodable records and the corruption, flags an early stop exactly on corruption
    and reports the bytes left over; and streaming the mutations into a callback is
    applying it to the replayed list, an error of the callback included. *)
Theorem recovery_exact content (Hb : Forall is_byte content) :
  exists ps t stop,
    content = log ps ++ t /\ Forall fits ps /\ stop_at t = Some stop
    /\ scan_valid_prefix content = Some (zlen (log ps), stop)
    /\ replay content = Some (Ok (mkReport (omap decode_mutation ps)
         (zlen (undecodable ps) + (if bool_decide (stop = Corruption) then 1 else 0))
         (bool_decide (stop = Corruption)) (zlen t)))
    /\ forall S (f : S -> Mutation -> result Error S) s,
         exists report, replay content = Some (Ok report)
         /\ replay_each f content s
            = Some (match try_fold f s (rr_mutations report) with
                    | Ok s' => Ok (s', mkReport [] (rr_corrupt_entries report)
                                         (rr_stopped_early report) (rr_bytes_skipped report))
                    | Err e => Err e
                    end).
Proof.
  destruct (split_log content Hb) as (ps & t & stop & -> & Hps & Hs).
  assert (Hr : replay (log ps ++ t) = Some (Ok (mkReport (omap decode_mutation ps)
         (zlen (undecodable ps) + (if bool_decide (stop = Corruption) then 1 else 0))
         (bool_decide (stop = Corruption)) (zlen t)))).
  { unfold replay. rewrite (replay_each_log _ ps t stop), apply_push by done. cbn.
    unfold stopped, undecodable. case_bool_decide; cbn; [done|by rewrite Z.add_0_r]. }
  exists ps, t, stop. split_and!; try done; [by apply scan_valid_prefix_log|].
  intros S f s. eexists. split; [done|].
  rewrite (replay_each_log _ ps t stop), apply_try_fold by done. cbn.
  destruct (try_fold _ _ _) as [s'|e]; [|done]. unfold stopped.
  case_bool_decide; cbn; [done|by rewrite Z.add_0_r].
Qed.
End Recovery.

Section CrashRecovery.
Context `{Crc32} `{BincodeLaws}.

Definition logged (ms : list Mutation) (ps : list (list Z)) : Prop :=
  Forall2 (fun m p => json_free_mutation m = true /\ serialize m = Some p /\ fits p) ms ps.

Lemma logged_fits ms ps : logged ms ps -> Forall fits ps.
Proof. induction 1 as [|m p ms ps (_ & _ & Hf)]; by constructor. Qed.

Lemma logged_decode ms ps : logged ms ps -> omap decode_mutation ps = ms /\ undecodable ps = [].
Proof.
  induction 1 as [|m p ms ps (Hj & Hs & _) _ [IH1 IH2]]; [done|].
  unfold undecodable. cbn. rewrite (decode_serialize m p Hj Hs). cbn. by rewrite IH1.
Qed.

Lemma replay_logged ms ps t stop :
  logged ms ps -> stop_at t = Some stop ->
  replay (log ps ++ t) = Some (Ok (mkReport ms (if bool_decide (stop = Corruption) then 1 else 0)
                                     (bool_decide (stop = Corruption)) (zlen t))).
Proof.
  intros Hl Hs. pose proof (logged_fits _ _ Hl) as Hf. destruct (logged_decode _ _ Hl) as [Hd Hu].
  unfold replay. rewrite (replay_each_log _ ps t stop), apply_push by done.
  fold (undecodable ps). rewrite Hd, Hu. cbn. unfold stopped. by case_bool_decide.
Qed.

Definition append_all (w : WriteAheadLog) (ms : list Mutation) : WriteAheadLog :=
  foldl (fun w m => fst (append io_ok m w)) w ms.

Lemma append_all_ready w ps ms qs :
  ready w ps -> logged ms qs -> ready (append_all w ms) (ps ++ qs).
Proof.
  intros Hw Hl. revert w ps Hw. induction Hl as [|m q ms qs (_ & Hs & Hf) _ IH]; intros w ps Hw; cbn.
  - by rewrite app_nil_r.
  - destruct (append_ready w ps m q Hw Hs Hf) as (w' & -> & Hw' & _). cbn.
    rewrite cons_middle, app_assoc. by apply IH.
Qed.

Lemma sync_content w ps :
  ready w ps -> content (file (fst (sync None true w))) = log ps.
Proof.
  intros Hw. destruct (sync None true w) as [w' r] eqn:E.
  destruct (sync_ready _ _ _ _ _ _ Hw E) as (_ & Hok & _ & Hiff). by apply Hok, Hiff.
Qed.

(** C35: Crash safety of the log. Cut the log of any accepted mutations that hold no JSON
    value (bincode writes one and cannot read it back: [json_write_skipped]) at any byte:
    replay returns exactly the mutations whose records are complete, in order, and calls
    the recovery clean unless the cut lies behind a complete header. The file then opens,
    and after the reset that a corrupt tail requires, any further mutations appended and
    synced are replayed after the recovered ones, cleanly. *)
Theorem crash_recovery ms ps img (Hms : logged ms ps) (Hcut : img `prefix_of` log ps) :
  exists n report w,
    replay img = Some (Ok report) /\ rr_mutations report = take n ms
    /\ zlen (log (take n ps)) <= zlen img
    /\ (forall q, ps !! n = Some q -> zlen img < zlen (log (take n ps)) + zlen (frame q))
    /\ (is_clean report = true <-> zlen img - zlen (log (take n ps)) < 8)
    /\ open_existing img = Some w
    /\ forall ms2 ps2, logged ms2 ps2 ->
         let w1 := append_all (fst (reset_to_valid_prefix None true true true w)) ms2 in
         replay (content (file (fst (sync None true w1))))
         = Some (Ok (mkReport (take n ms ++ ms2) 0 false 0)).
Proof.
  pose proof (logged_fits _ _ Hms) as Hf.
  destruct (cut_log ps img Hcut) as (n & t & Hn & -> & Ht).
  pose proof (torn_stop_at ps n t Hf Ht) as Hs.
  assert (Hl : logged (take n ms) (take n ps)) by by apply Forall2_take.
  pose proof (logged_fits _ _ Hl) as Hfn.
  destruct (open_reset (take n ps) t (torn_stop t) Hfn Hs) as (w & Hw & Hr & _).
  eexists n, _, w. split_and!.
  - by apply replay_logged.
  - done.
  - rewrite zlen_app. pose proof (zlen_nonneg t). lia.
  - intros q Hq. rewrite zlen_app. destruct Ht as [->|(p & Hp & _ & Hlt)]; [|simplify_eq; lia].
    rewrite zlen_frame. pose proof (zlen_nonneg q). unfold zlen at 2. cbn. lia.
  - rewrite zlen_app. replace (_ + _ - _) with (zlen t) by lia. unfold is_clean, torn_stop. cbn.
    destruct t as [|z t]; [by split|]. cbn [is_empty].
    destruct (Z.ltb_spec (zlen (z :: t)) 8); cbn; split; (done || lia).
  - done.
  - intros ms2 ps2 Hl2 w1. rewrite (sync_content _ (take n ps ++ ps2)) by by apply append_all_ready.
    rewrite <- (app_nil_r (log _)). rewrite (replay_logged (take n ms ++ ms2) _ [] CleanEof); [done| |done].
    by apply Forall2_app.
Qed.
End CrashRecovery.

(** ** Concrete logs

    A codec for mutations of one shape (an integer key and a timestamp) and a checksum
    stand in for the libraries. *)

#[export] Instance toy_crc32 : Crc32.
Proof.
  refine {| crc32 l := as_u32 (foldl (fun a b => 31 * a + b + 7) 1 l) |}.
  intros l. apply wrap_range. lia.
Defined.

Definition toy_mutation (n ts : Z) : Mutation :=
  mutation_new (mkTableId EmptyString EmptyString) [(EmptyString, Integer n)] None [] ts None.

Definition toy_in_range (n ts : Z) : bool :=
  (0 <=? n) && (n <? 2 ^ 31) && (0 <=? ts) && (ts <? 2 ^ 63).

#[export] Instance toy_bincode : Bincode := {|
  serialize m :=
    match m with
    | mkMutation (mkTableId EmptyString EmptyString) [(EmptyString, Integer n)] None [] ts
        None None [] None None None =>
        if toy_in_range n ts then Some (be_bytes 4 n ++ be_bytes 8 ts) else None
    | _ => None
    end;
  deserialize_mutation l :=
    if zlen l =? 12 then Some (toy_mutation (from_be (take 4 l)) (from_be (drop 4 l))) else None;
  deserialize_e _ := None;
  deserialize_d _ := None;
  deserialize_c _ := None;
  deserialize_b _ := None;
  deserialize_a _ := None;
|}.

#[export] Instance toy_laws : BincodeLaws.
Proof.
  intros [[ks tb] pk ck ops ts ttl pt rts ldt rt cwt] bytes _. cbn [serialize toy_bincode].
  destruct ks; [|discriminate]. destruct tb; [|discriminate].
  destruct pk as [|[c v] [|]]; [discriminate| |destruct c; [destruct v|]; discriminate].
  destruct c; [|discriminate]. destruct v; try discriminate.
  destruct ck; [discriminate|]. destruct ops; [|discriminate].
  destruct ttl; [discriminate|]. destruct pt; [discriminate|]. destruct rts; [|discriminate].
  destruct ldt; [discriminate|]. destruct rt; [discriminate|]. destruct cwt; [discriminate|].
  destruct (toy_in_range n ts) eqn:R; [|discriminate]. intros E%(inj Some). rewrite <- E. clear E bytes.
  unfold toy_in_range in R. rewrite !andb_true_iff, !Z.leb_le, !Z.ltb_lt in R.
  cbn [deserialize_mutation toy_bincode]. unfold zlen. rewrite length_app, !be_bytes_length.
  cbn [Z.of_nat Pos.of_succ_nat Nat.add Z.eqb Pos.eqb Pos.succ].
  rewrite take_app_length', drop_app_length' by (by rewrite be_bytes_length).
  rewrite !from_be_bytes_id by (unfold u_range; lia). done.
Defined.

Definition sample_ms : list Mutation := [toy_mutation 5 100; toy_mutation 6 200].
Definition sample_ps : list (list Z) :=
  [be_bytes 4 5 ++ be_bytes 8 100; be_bytes 4 6 ++ be_bytes 8 200].

Lemma sample_logged : logged sample_ms sample_ps.
Proof. repeat constructor; vm_compute; discriminate. Qed.

Example sample_open :
  replay (take 33 (log sample_ps)) = Some (Ok (mkReport [toy_mutation 5 100] 1 true 13))
  /\ replay (take 25 (log sample_ps)) = Some (Ok (mkReport [toy_mutation 5 100] 0 false 5)).
Proof. by vm_compute. Qed.

Lemma crash_recovery_witness :
  exists n report, replay (take 33 (log sample_ps)) = Some (Ok report)
    /\ rr_mutations report = take n sample_ms.
Proof.
  destruct (crash_recovery sample_ms sample_ps (take 33 (log sample_ps)) sample_logged)
    as (n & report & w & H1 & H2 & _).
  - exists (drop 33 (log sample_ps)). by rewrite take_drop.
  - exists n, report. exact (conj H1 H2).
Defined.

Lemma recovery_exact_witness :
  exists ps t stop, take 33 (log sample_ps) = log ps ++ t /\ stop_at t = Some stop.
Proof.
  destruct (recovery_exact (take 33 (log sample_ps))) as (ps & t & stop & H1 & _ & H2 & _).
  - vm_compute. repeat constructor; discriminate.
  - exists ps, t, stop. exact (conj H1 H2).
Defined.

(** A failed append is not undone: the part of the record that reached the file stays
    in front of the next one, whose append and sync succeed and which no replay returns. *)
Example failed_append_loses_next :
  let w := create_with_buffer_size 12 in
  let '(w, r1) := append ((None, None), (None, None), (None, Some 5%nat)) (toy_mutation 5 100) w in
  let '(w, r2) := append io_ok (toy_mutation 6 200) w in
  let '(w, r3) := sync None true w in
  r1 = Err Storage /\ r2 = Ok tt /\ r3 = Ok tt
  /\ replay (content (file w)) = Some (Ok (mkReport [] 1 true 33)).
Proof. vm_compute. by split_and!. Qed.

(** The codec of above, which moreover writes a mutation of one JSON cell and, like
    bincode, cannot read it back. *)
Definition json_mutation (doc : list Z) (ts : Z) : Mutation :=
  mutation_new (mkTableId EmptyString EmptyString) [(EmptyString, Integer 5)] None [Write EmptyString (Json doc)] ts None.

Definition json_bincode : Bincode := {|
  serialize m :=
    match m_operations m with
    | [Write _ (Json doc)] => Some doc
    | _ => @serialize toy_bincode m
    end;
  deserialize_mutation := @deserialize_mutation toy_bincode;
  deserialize_e _ := None;
  deserialize_d _ := None;
  deserialize_c _ := None;
  deserialize_b _ := None;
  deserialize_a _ := None;
|}.

Lemma json_laws : @BincodeLaws json_bincode.
Proof.
  intros m bytes Hj. cbn [serialize json_bincode]. destruct m as [t pk ck ops ts ttl pt rts ldt rt cwt].
  cbn [m_operations]. destruct ops as [|[c v| | | | |] [|]]; try apply (@deserialize_serialize toy_bincode toy_laws), Hj;
    destruct v; try apply (@deserialize_serialize toy_bincode toy_laws), Hj.
  unfold json_free_mutation in Hj. cbn in Hj. by rewrite !andb_false_r in Hj.
Qed.

(** A JSON value is written, synced and acknowledged, and the next start does not have it:
    its record is intact and is skipped as one that does not decode. *)
Example json_write_skipped :
  let '(w, r1) := @append _ json_bincode io_ok (json_mutation [1; 2; 3] 100) create in
  let '(w, r2) := @append _ json_bincode io_ok (toy_mutation 6 200) w in
  let '(w, r3) := sync None true w in
  r1 = Ok tt /\ r2 = Ok tt /\ r3 = Ok tt
  /\ @replay _ json_bincode (content (file w)) = Some (Ok (mkReport [toy_mutation 6 200] 1 false 0)).
Proof. vm_compute. by split_and!. Qed.
