(* ===== verification/Memtable.v ===== *)
(** The memtable ([storage/write_engine/memtable.rs]): mutations by partition in token
    order, and the size ledger the admission of writes relies on. *)

From S2P Require Import Prelude Values Keys Mutation.

Open Scope Z_scope.

(** ** Size estimates *)

Definition usize_MAX : Z := u64_MAX.
Definition MAX_ESTIMATE_NODES : Z := 1000000.

Definition would_exceed_cap (visited pending incoming : Z) : bool :=
  sat_add64 (sat_add64 visited pending) incoming >? MAX_ESTIMATE_NODES.

Definition name_len (s : string) : Z := Z.of_nat (String.length s).

(** One visit: the bytes a value adds and the children it schedules, the last pushed
    first; [None] is the cap. *)
Definition visit (visited pending total : Z) (v : Value) : option (Z * list Value) :=
  match v with
  | Null => Some (total, [])
  | Boolean _ | TinyInt _ => Some (sat_add64 total 1, [])
  | SmallInt _ => Some (sat_add64 total 2, [])
  | Integer _ | Float32 _ | Date _ => Some (sat_add64 total 4, [])
  | BigInt _ | Counter _ | Timestamp _ | Time _ | Float _ => Some (sat_add64 total 8, [])
  | Uuid _ | Duration _ _ _ => Some (sat_add64 total 16, [])
  | Text s => Some (sat_add64 total (zlen s), [])
  | Blob bytes | Varint bytes | Inet bytes => Some (sat_add64 total (zlen bytes), [])
  | Decimal _ unscaled => Some (sat_add64 (sat_add64 total 4) (zlen unscaled), [])
  | Json json => Some (sat_add64 total (zlen json), [])
  | Tombstone _ => Some (sat_add64 total 24, [])
  | List items | VSet items | Tuple items =>
      if would_exceed_cap visited pending (zlen items) then None
      else Some (sat_add64 total 16, rev items)
  | Map entries =>
      if would_exceed_cap visited pending (sat_mul64 (zlen entries) 2) then None
      else Some (sat_add64 total 16, rev (concat (map (fun e => [e.1; e.2]) entries)))
  | Udt _ _ fields =>
      if would_exceed_cap visited pending (zlen fields) then None
      else Some (foldl (fun t f => sat_add64 t (name_len f.1)) (sat_add64 total 16) fields,
                 rev (omap snd fields))
  | Frozen inner =>
      if would_exceed_cap visited pending 1 then None
      else Some (sat_add64 total 8, [inner])
  end.

(** The worklist, its top first. [None] is out of fuel. *)
Fixpoint estimate_loop (fuel : nat) (total visited : Z) (worklist : list Value) : option Z :=
  match fuel with
  | O => None
  | S fuel' =>
      match worklist with
      | [] => Some total
      | v :: worklist =>
          let visited := visited + 1 in
          if visited >? MAX_ESTIMATE_NODES then Some usize_MAX
          else match visit visited (zlen worklist) total v with
               | None => Some usize_MAX
               | Some (total, children) => estimate_loop fuel' total visited (children ++ worklist)
               end
      end
  end.

(** Every round counts a node, and the cap ends the loop. *)
Definition estimate_fuel : nat := S (S (Z.to_nat MAX_ESTIMATE_NODES)).

Definition estimate_value_size (value : Value) : Z :=
  default usize_MAX (estimate_loop estimate_fuel 0 0 [value]).

Definition estimate_operation_size (op : CellOperation) : Z :=
  match op with
  | Write column value =>
      sat_add64 (sat_add64 (name_len column) (estimate_value_size value)) 8
  | WriteWithTtl column value _ _ =>
      sat_add64 (sat_add64 (name_len column) (estimate_value_size value)) 16
  | Delete column _ => sat_add64 (name_len column) 8
  | DeleteRow => 8
  | WriteComplexElement column cell_path value _ _ _ _ =>
      sat_add64 (sat_add64 (sat_add64 (name_len column) (zlen cell_path))
                   (match value with Some v => estimate_value_size v | None => 0 end)) 16
  | OpComplexDeletion column _ _ => sat_add64 (name_len column) 16
  end.

Definition add_columns (size : Z) (columns : list (string * Value)) : Z :=
  foldl (fun size c => sat_add64 (sat_add64 size (name_len c.1)) (estimate_value_size c.2)) size columns.

Definition mutation_size (mutation : Mutation) : Z :=
  let size := 48 in
  let size := add_columns size (m_partition_key mutation) in
  let size :=
    match m_clustering_key mutation with
    | Some clustering_key => add_columns size clustering_key
    | None => size
    end in
  foldl (fun size op => sat_add64 size (estimate_operation_size op)) size (m_operations mutation).

(** ** The table *)

(** [BTreeMap<DecoratedKey, Vec<Mutation>>]: the partitions in the order of their keys. *)
Definition Partitions : Type := list (DecoratedKey * list Mutation).

Record Memtable := mkMemtable {
  data : Partitions;
  size_bytes : Z;
  row_count : Z;
  created_at : Z;
}.

Definition memtable_new (now_micros : Z) : Memtable := mkMemtable [] 0 0 now_micros.

(** [data.entry(key).or_default().push(mutation)] *)
Fixpoint entry_push (data : Partitions) (k : DecoratedKey) (mutation : Mutation) : Partitions :=
  match data with
  | [] => [(k, [mutation])]
  | (k', ms) :: data' =>
      match dk_cmp k k' with
      | Lt => (k, [mutation]) :: (k', ms) :: data'
      | Eq => (k', ms ++ [mutation]) :: data'
      | Gt => (k', ms) :: entry_push data' k mutation
      end
  end.

Definition insert_with_key (t : Memtable) (k : DecoratedKey) (mutation : Mutation) : Memtable :=
  mkMemtable (entry_push (data t) k mutation)
    (sat_add64 (size_bytes t) (mutation_size mutation))
    (sat_add64 (row_count t) 1) (created_at t).

Fixpoint entry_get (data : Partitions) (k : DecoratedKey) : option (list Mutation) :=
  match data with
  | [] => None
  | (k', ms) :: data' =>
      match dk_cmp k k' with
      | Lt => None
      | Eq => Some ms
      | Gt => entry_get data' k
      end
  end.

Definition get (t : Memtable) (k : DecoratedKey) : option (list Mutation) := entry_get (data t) k.

Definition memtable_is_empty (t : Memtable) : bool := is_empty (data t).

Definition should_flush (t : Memtable) (threshold_bytes : Z) : bool :=
  threshold_bytes <=? size_bytes t.

Definition iter (t : Memtable) : Partitions := data t.

Definition clear (t : Memtable) : Memtable := mkMemtable [] 0 0 (created_at t).

Definition estimate_mutation_size (t : Memtable) (m : Mutation) : Z := mutation_size m.

(** ** What the estimator measures *)

Section Estimator.
(** The bytes of a value alone, and with everything inside it. *)
Definition own_bytes (v : Value) : Z :=
  match v with
  | Null => 0
  | Boolean _ | TinyInt _ => 1
  | SmallInt _ => 2
  | Integer _ | Float32 _ | Date _ => 4
  | BigInt _ | Counter _ | Timestamp _ | Time _ | Float _ => 8
  | Uuid _ | Duration _ _ _ => 16
  | Text s | Blob s | Varint s | Inet s | Json s => zlen s
  | Decimal _ unscaled => 4 + zlen unscaled
  | Tombstone _ => 24
  | List _ | VSet _ | Tuple _ | Map _ => 16
  | Udt _ _ fields => 16 + zsum (map (fun f => name_len f.1) fields)
  | Frozen _ => 8
  end.

(** The children a value asks room for: every field of a UDT counts, a null one too. *)
Definition slots (v : Value) : Z :=
  match v with
  | Udt _ _ fields => zlen fields
  | _ => zlen (children v)
  end.

Fixpoint value_bytes (v : Value) : Z :=
  own_bytes v +
  match v with
  | List l | VSet l | Tuple l => zsum (map value_bytes l)
  | Map l => zsum (map (fun e => value_bytes e.1 + value_bytes e.2) l)
  | Udt _ _ fields =>
      zsum (map (fun f => match f.2 with Some v => value_bytes v | None => 0 end) fields)
  | Frozen v => value_bytes v
  | _ => 0
  end.

Fixpoint value_nodes (null_field : Z) (v : Value) : Z :=
  1 +
  match v with
  | List l | VSet l | Tuple l => zsum (map (value_nodes null_field) l)
  | Map l => zsum (map (fun e => value_nodes null_field e.1 + value_nodes null_field e.2) l)
  | Udt _ _ fields =>
      zsum (map (fun f => match f.2 with
                          | Some v => value_nodes null_field v
                          | None => null_field
                          end) fields)
  | Frozen v => value_nodes null_field v
  | _ => 0
  end.

Lemma zsum_pairs (f : Value -> Z) (l : list (Value * Value)) :
  zsum (map (fun e => f e.1 + f e.2) l) = zsum (map f (concat (map (fun e => [e.1; e.2]) l))).
Proof. unfold zsum. induction l as [|e l IH]; [done|]. cbn -[Z.add]. lia. Qed.

Lemma zsum_fields (f : Value -> Z) n (l : list (string * option Value)) :
  zsum (map (fun e => match e.2 with Some v => f v | None => n end) l)
    = zsum (map f (omap snd l)) + n * (zlen l - zlen (omap snd l)).
Proof.
  induction l as [|[s [v|]] l IH]; unfold zlen, zsum in *; cbn -[Z.mul Z.of_nat] in *; lia.
Qed.

Lemma value_bytes_eq v : value_bytes v = own_bytes v + zsum (map value_bytes (children v)).
Proof.
  destruct v; try done; cbn -[Z.add]; try lia.
  - by rewrite zsum_pairs.
  - rewrite (zsum_fields value_bytes 0). lia.
  - rewrite zsum_cons. unfold zsum. cbn. lia.
Qed.

Lemma value_nodes_eq n v :
  value_nodes n v = 1 + zsum (map (value_nodes n) (children v)) + n * (slots v - zlen (children v)).
Proof.
  destruct v; unfold slots; cbn -[Z.add Z.mul]; try (unfold zsum, zlen; cbn -[Z.add Z.mul]; lia).
  - rewrite zsum_pairs. lia.
  - rewrite (zsum_fields (value_nodes n) n). lia.
Qed.

Lemma zlen_concat_pairs (l : list (Value * Value)) :
  zlen (concat (map (fun e => [e.1; e.2]) l)) = 2 * zlen l.
Proof. unfold zlen. induction l; cbn -[Z.mul Z.of_nat]; lia. Qed.

Lemma names_nonneg (l : list (string * option Value)) :
  0 <= zsum (map (fun f => name_len f.1) l).
Proof. apply zsum_nonneg, Forall_map, Forall_forall. intros x _. unfold name_len. lia. Qed.

Lemma sat_fields (l : list (string * option Value)) t :
  t <= usize_MAX ->
  foldl (fun t f => sat_add64 t (name_len f.1)) t l
    = Z.min (t + zsum (map (fun f => name_len f.1) l)) usize_MAX.
Proof.
  revert t. induction l as [|f l IH]; intros t Ht; cbn -[Z.min].
  - unfold zsum. cbn. lia.
  - rewrite IH by (unfold sat_add64, usize_MAX; lia). rewrite zsum_cons.
    pose proof (names_nonneg l). unfold sat_add64, usize_MAX, name_len in *. lia.
Qed.

Lemma own_bytes_nonneg v : 0 <= own_bytes v.
Proof.
  destruct v; cbn -[Z.add]; try lia; try apply zlen_nonneg.
  - pose proof (zlen_nonneg unscaled). lia.
  - pose proof (names_nonneg fields). lia.
Qed.

Lemma slots_ge v : zlen (children v) <= slots v.
Proof.
  destruct v; unfold slots; try done. cbn. unfold zlen.
  induction fields as [|[x [y|]] l IH]; cbn -[Z.of_nat] in *; lia.
Qed.

Lemma value_bytes_nonneg v : 0 <= value_bytes v.
Proof.
  induction v as [v IH] using value_nested_ind. rewrite value_bytes_eq.
  pose proof (own_bytes_nonneg v).
  pose proof (zsum_nonneg (map value_bytes (children v))) as Hs. rewrite Forall_map in Hs.
  specialize (Hs IH). lia.
Qed.

Lemma value_nodes_pos n v : 0 <= n -> 1 <= value_nodes n v.
Proof.
  intros Hn. induction v as [v IH] using value_nested_ind. rewrite value_nodes_eq.
  pose proof (slots_ge v).
  pose proof (zsum_nonneg (map (value_nodes n) (children v))) as Hs. rewrite Forall_map in Hs.
  assert (0 <= zsum (map (value_nodes n) (children v))); [|nia].
  apply Hs. eapply Forall_impl; [exact IH|]. cbn. lia.
Qed.

(** One visit, in terms of the two measures. *)
Lemma visit_spec visited pending total v :
  0 <= total <= usize_MAX -> 0 <= visited -> 0 <= pending ->
  (exists ch, visit visited pending total v = Some (Z.min (total + own_bytes v) usize_MAX, ch)
     /\ ch ≡ₚ children v)
  \/ (visit visited pending total v = None
      /\ MAX_ESTIMATE_NODES < visited + pending + slots v).
Proof.
  intros Ht Hv Hp. pose proof (own_bytes_nonneg v) as Ho.
  assert (Hbase : forall n ch, n = own_bytes v -> ch ≡ₚ children v ->
    exists ch', Some (sat_add64 total n, ch) = Some (Z.min (total + own_bytes v) usize_MAX, ch')
      /\ ch' ≡ₚ children v).
  { intros n ch -> Hch. by exists ch. }
  assert (Hcap : forall n, n <= slots v -> would_exceed_cap visited pending n = true ->
    MAX_ESTIMATE_NODES < visited + pending + slots v).
  { intros n Hn H. unfold would_exceed_cap, sat_add64 in H. lia. }
  assert (Hif : forall n ch m, n <= slots v -> m = own_bytes v -> ch ≡ₚ children v ->
    let r := if would_exceed_cap visited pending n then None else Some (sat_add64 total m, ch) in
    (exists ch', r = Some (Z.min (total + own_bytes v) usize_MAX, ch') /\ ch' ≡ₚ children v)
    \/ (r = None /\ MAX_ESTIMATE_NODES < visited + pending + slots v)).
  { intros n ch m Hn Hm Hch. destruct would_exceed_cap eqn:E; [right|left]; eauto. }
  destruct v; cbn [visit]; try (left; apply Hbase; reflexivity);
    try (apply Hif; [done|done|]; cbn [children]; by rewrite <- Permutation_rev).
  - left. exists []. split; [|done]. cbn [own_bytes]. do 2 f_equal. lia.
  - left. exists []. split; [|done]. cbn [own_bytes]. do 2 f_equal.
    pose proof (zlen_nonneg unscaled). unfold sat_add64, usize_MAX in *. lia.
  - apply Hif; [|done|cbn [children]; by rewrite <- Permutation_rev].
    unfold sat_mul64. cbn [slots children]. rewrite zlen_concat_pairs. lia.
  - rewrite sat_fields by (unfold sat_add64, usize_MAX in *; lia).
    replace (Z.min (sat_add64 total 16 + _) usize_MAX)
      with (sat_add64 total (own_bytes (Udt type_name keyspace fields)))
      by (pose proof (names_nonneg fields); unfold sat_add64, usize_MAX; cbn [own_bytes]; lia).
    apply Hif; [done|done|]; cbn [children]; by rewrite <- Permutation_rev.
  - by apply Hif.
Qed.

Abbreviation bytes_of l := (zsum (map value_bytes l)).
Abbreviation nodes_of n l := (zsum (map (value_nodes n) l)).

Lemma bytes_of_nonneg l : 0 <= bytes_of l.
Proof. apply zsum_nonneg, Forall_map, Forall_forall. intros v _. apply value_bytes_nonneg. Qed.

Lemma nodes_of_ge n l : 0 <= n -> zlen l <= nodes_of n l.
Proof.
  intros Hn. induction l as [|v l IH]; [done|]. cbn [map]. rewrite zsum_cons.
  pose proof (value_nodes_pos n v Hn). unfold zlen in *. cbn [length]. lia.
Qed.

#[local] Instance zsum_perm : Proper ((≡ₚ) ==> (=)) zsum.
Proof. intros l l'. unfold zsum. induction 1; cbn; lia. Qed.

(** The worklist: the cap answers [usize::MAX]; otherwise the total of what is left. *)
Lemma estimate_loop_spec fuel total visited wl :
  (Z.to_nat (MAX_ESTIMATE_NODES + 1 - visited) < fuel)%nat ->
  0 <= total <= usize_MAX -> 0 <= visited <= MAX_ESTIMATE_NODES ->
  exists x, estimate_loop fuel total visited wl = Some x
    /\ (x = usize_MAX \/ x = Z.min (total + bytes_of wl) usize_MAX)
    /\ (visited + nodes_of 1 wl <= MAX_ESTIMATE_NODES ->
          x = Z.min (total + bytes_of wl) usize_MAX)
    /\ (MAX_ESTIMATE_NODES < visited + nodes_of 0 wl -> x = usize_MAX).
Proof.
  revert total visited wl. induction fuel as [|fuel IH]; intros total visited wl Hf Ht Hv; [lia|].
  destruct wl as [|v wl]; cbn [estimate_loop map].
  { exists total. unfold zsum. cbn. split; [done|]. split; [right; lia|]. split; lia. }
  rewrite !zsum_cons. pose proof (value_nodes_pos 1 v ltac:(lia)).
  pose proof (nodes_of_ge 1 wl ltac:(lia)). pose proof (zlen_nonneg wl).
  pose proof (bytes_of_nonneg wl). pose proof (value_bytes_nonneg v).
  destruct (Z.gtb_spec (visited + 1) MAX_ESTIMATE_NODES).
  { exists usize_MAX. split; [done|]. split; [by left|]. split; [lia|done]. }
  rewrite (value_bytes_eq v), !(value_nodes_eq _ v).
  pose proof (own_bytes_nonneg v). pose proof (slots_ge v).
  pose proof (nodes_of_ge 1 (children v) ltac:(lia)). pose proof (zlen_nonneg (children v)).
  destruct (visit_spec (visited + 1) (zlen wl) total v) as [[ch [-> Hch]]|[-> Hcap]]; try lia.
  - destruct (IH (Z.min (total + own_bytes v) usize_MAX) (visited + 1) (ch ++ wl))
      as (x & -> & Hx1 & Hx2 & Hx3); try lia.
    rewrite !map_app, !zsum_app, !Hch in *.
    pose proof (bytes_of_nonneg (children v)).
    exists x. split; [done|]. split; [|split]; lia.
  - exists usize_MAX. split; [done|]. split; [by left|]. split; [lia|done].
Qed.
End Estimator.

(** C37: The size a write is admitted by. [Memtable::estimate_value_size] walks a value
    with a worklist and always ends: its answer is the bytes of the value and everything
    inside it, clipped to [usize::MAX], or [usize::MAX] itself when the cap on nodes is
    hit. It never answers less than the value's size; below a million nodes it is
    exact, above it fails closed. *)
Theorem estimate_sound v :
  exists x, estimate_loop estimate_fuel 0 0 [v] = Some x /\ estimate_value_size v = x
    /\ (x = usize_MAX \/ x = Z.min (value_bytes v) usize_MAX)
    /\ Z.min (value_bytes v) usize_MAX <= x
    /\ (value_nodes 1 v <= MAX_ESTIMATE_NODES -> x = Z.min (value_bytes v) usize_MAX)
    /\ (MAX_ESTIMATE_NODES < value_nodes 0 v -> x = usize_MAX).
Proof.
  destruct (estimate_loop_spec estimate_fuel 0 0 [v]) as (x & Hx & H1 & H2 & H3).
  { unfold estimate_fuel, MAX_ESTIMATE_NODES. lia. }
  { unfold usize_MAX, u64_MAX. lia. }
  { unfold MAX_ESTIMATE_NODES. lia. }
  cbn [map] in *. rewrite !zsum_cons in *. change (zsum []) with 0 in *.
  exists x. unfold estimate_value_size. rewrite Hx. rewrite !Z.add_0_r, !Z.add_0_l in *.
  split_and!; [done|done|done| |done|done]. lia.
Qed.

(** ** The table as a map *)

Section Table.
#[local] Abbreviation klt := (fun a b => dk_cmp a b = Lt).
#[local] Abbreviation keys_of d := (map fst d).

(** Keys in strict order, and no partition without a mutation. *)
Definition partitions_ok (d : Partitions) : Prop :=
  StronglySorted klt (keys_of d) /\ Forall (fun p => p.2 <> []) d.

(** The mutations of a partition, and all of them with their keys. *)
Definition mutations_at (d : Partitions) (k : DecoratedKey) : list Mutation :=
  default [] (entry_get d k).
Definition flatten (d : Partitions) : list (DecoratedKey * Mutation) :=
  concat (map (fun p => map (pair p.1) p.2) d).

Lemma entry_push_bound d k m k0 :
  Forall (klt k0) (keys_of d) -> dk_cmp k0 k = Lt -> Forall (klt k0) (keys_of (entry_push d k m)).
Proof.
  intros Hd Hk. induction d as [|[k' ms] d IH]; cbn; [by repeat constructor|].
  apply Forall_cons in Hd as [Hd1 Hd]. specialize (IH Hd).
  destruct (dk_cmp k k'); cbn; by repeat constructor.
Qed.

Lemma entry_push_ok d k m : partitions_ok d -> partitions_ok (entry_push d k m).
Proof.
  intros [Hs Hn]. induction d as [|[k' ms] d IH]; cbn.
  { split; repeat constructor; done. }
  cbn in Hs. apply StronglySorted_inv in Hs as [Hs Hk]. apply Forall_cons in Hn as [Hne Hn].
  destruct (dk_cmp k k') eqn:E; cbn.
  - split; [by constructor|]. constructor; [|done]. cbn. by destruct ms.
  - split; [|constructor; [done|constructor; assumption]].
    cbn. constructor; [by constructor|]. constructor; [done|].
    eapply Forall_impl; [exact Hk|]. intros x Hx. by apply (ord_trans dk_cmp k k' x).
  - destruct (IH Hs Hn) as [IHs IHn].
    split; [|constructor; assumption]. cbn. constructor; [done|].
    apply entry_push_bound; [done|]. by apply (on_gt_lt (P := fun _ => True) dk_cmp).
Qed.

Lemma entry_get_below d k : Forall (klt k) (keys_of d) -> entry_get d k = None.
Proof. destruct d as [|[k' ms] d]; cbn; [done|]. by intros [-> _]%Forall_cons. Qed.

Lemma entry_push_get d k m k0 :
  partitions_ok d ->
  entry_get (entry_push d k m) k0
    = if decide (k0 = k) then Some (mutations_at d k ++ [m]) else entry_get d k0.
Proof.
  unfold mutations_at. intros [Hs _]. induction d as [|[k' ms] d IH]; cbn.
  - case_decide as H; [subst; by rewrite dk_cmp_refl|].
    destruct (dk_cmp k0 k) eqn:E; try done. by apply dk_cmp_eq in E.
  - cbn in Hs. apply StronglySorted_inv in Hs as [Hs Hk].
    destruct (dk_cmp k k') eqn:E; cbn [entry_get].
    + apply dk_cmp_eq in E as ->. case_decide as H; [subst; by rewrite dk_cmp_refl|].
      destruct (dk_cmp k0 k') eqn:E0; try done. by apply dk_cmp_eq in E0.
    + case_decide as H; [subst; by rewrite dk_cmp_refl|].
      destruct (dk_cmp k0 k) eqn:E0; try done; [by apply dk_cmp_eq in E0|].
      by rewrite (ord_trans dk_cmp k0 k k').
    + rewrite IH by done. case_decide as H; [subst; by rewrite E|done].
Qed.

Lemma entry_push_flatten d k m : flatten (entry_push d k m) ≡ₚ (k, m) :: flatten d.
Proof.
  unfold flatten. induction d as [|[k' ms] d IH]; cbn; [done|].
  destruct (dk_cmp k k') eqn:E; cbn; [|done|].
  - apply dk_cmp_eq in E as ->. rewrite map_app, <- app_assoc. cbn.
    by rewrite <- Permutation_middle.
  - rewrite IH. by rewrite <- Permutation_middle.
Qed.
End Table.

(** Inserting in sequence. *)
Definition insert_all (t : Memtable) (es : list (DecoratedKey * Mutation)) : Memtable :=
  foldl (fun t e => insert_with_key t e.1 e.2) t es.

(** Sizes are byte counts. *)
Lemma estimate_range v : 0 <= estimate_value_size v <= usize_MAX.
Proof.
  unfold estimate_value_size.
  destruct (estimate_loop_spec estimate_fuel 0 0 [v]) as (x & -> & H1 & _ & _).
  { unfold estimate_fuel, MAX_ESTIMATE_NODES. lia. }
  { unfold usize_MAX, u64_MAX. lia. }
  { unfold MAX_ESTIMATE_NODES. lia. }
  pose proof (bytes_of_nonneg [v]). assert (0 <= usize_MAX) by (unfold usize_MAX, u64_MAX; lia).
  change (0 <= x <= usize_MAX). lia.
Qed.

Lemma sat_fold_ge {A} (f : Z -> A -> Z) l n :
  (forall n x, 0 <= n <= usize_MAX -> 0 <= f n x <= usize_MAX) ->
  0 <= n <= usize_MAX -> 0 <= foldl f n l <= usize_MAX.
Proof. intros Hf. revert n. induction l as [|x l IH]; intros n Hn; cbn; auto. Qed.

Lemma sat_range a b : 0 <= a -> 0 <= b -> 0 <= sat_add64 a b <= usize_MAX.
Proof. unfold sat_add64, usize_MAX, u64_MAX. lia. Qed.

Lemma name_len_nonneg c : 0 <= name_len c.
Proof. unfold name_len. lia. Qed.

Lemma operation_size_nonneg op : 0 <= estimate_operation_size op.
Proof.
  pose proof estimate_range as He. assert (0 <= u64_MAX) by (unfold u64_MAX; lia).
  destruct op as [c v|c v ? ?|c ?| |c path [v|] ? ? ? ?|c ? ?]; unfold estimate_operation_size, sat_add64;
    try specialize (He v); try (pose proof (name_len_nonneg c)); try pose proof (zlen_nonneg path); lia.
Qed.

Lemma mutation_size_range m : 0 <= mutation_size m <= usize_MAX.
Proof.
  unfold mutation_size, add_columns.
  assert (Hc : forall cs n, 0 <= n <= usize_MAX -> 0 <= foldl (fun size c =>
    sat_add64 (sat_add64 size (name_len c.1)) (estimate_value_size c.2)) n cs <= usize_MAX).
  { intros cs n. apply sat_fold_ge. intros n' c Hn. pose proof (estimate_range c.2).
    apply sat_range; [|lia]. apply sat_range; [lia|apply name_len_nonneg]. }
  apply sat_fold_ge.
  - intros n op Hn. apply sat_range; [lia|apply operation_size_nonneg].
  - assert (0 <= 48 <= usize_MAX) by (unfold usize_MAX, u64_MAX; lia).
    destruct (m_clustering_key m); auto.
Qed.

(** What the table holds after a sequence of insertions. *)
Lemma insert_all_snoc t es e : insert_all t (es ++ [e]) = insert_with_key (insert_all t es) e.1 e.2.
Proof. unfold insert_all. by rewrite foldl_app. Qed.

Lemma insert_all_flatten t es : flatten (iter (insert_all t es)) ≡ₚ flatten (iter t) ++ es.
Proof.
  revert t. induction es as [|[k m] es IH]; intros t; [by rewrite app_nil_r|].
  cbn [insert_all foldl] in *. rewrite IH. unfold iter at 1, insert_with_key. cbn [data fst snd].
  by rewrite entry_push_flatten, <- Permutation_middle.
Qed.

Definition muts_of (k : DecoratedKey) (es : list (DecoratedKey * Mutation)) : list Mutation :=
  map snd (filter (fun e => e.1 = k) es).

(** The memtable as a map. After any sequence of insertions the partitions are in
    strict key order, each with the mutations inserted under its key, in the order of
    their insertion; nothing is lost or duplicated; and the ledgers are the saturated
    sum of the mutations' sizes and their number. *)
Theorem memtable_exact now es :
  let t := insert_all (memtable_new now) es in
  partitions_ok (iter t)
  /\ (forall k, get t k = match muts_of k es with [] => None | ms => Some ms end)
  /\ flatten (iter t) ≡ₚ es
  /\ (memtable_is_empty t = true <-> es = [])
  /\ size_bytes t = Z.min (zsum (map (fun e => mutation_size e.2) es)) usize_MAX
  /\ row_count t = Z.min (zlen es) usize_MAX.
Proof.
  cbv zeta. unfold memtable_is_empty, iter, get.
  induction es as [|e es IH] using rev_ind.
  { cbn. split_and!; try done. split; constructor. }
  destruct IH as (H1 & H2 & H3 & H4 & H5 & H6).
  rewrite insert_all_snoc. cbn [data insert_with_key size_bytes row_count].
  split_and!.
  - by apply entry_push_ok.
  - intros k. rewrite entry_push_get by done. unfold mutations_at, muts_of.
    rewrite filter_app, map_app, filter_cons, filter_nil. rewrite (H2 e.1), (H2 k). unfold muts_of.
    destruct (decide (k = e.1)) as [->|Hk].
    + rewrite decide_True by done. by destruct (map snd (filter _ es)).
    + rewrite decide_False by congruence. by rewrite app_nil_r.
  - pose proof (insert_all_flatten (memtable_new now) (es ++ [e])) as Hf.
    by rewrite insert_all_snoc in Hf.
  - split; [|by destruct es]. intros Hn. exfalso.
    destruct (data (insert_all (memtable_new now) es)) as [|[k ms] d]; cbn in Hn; [done|].
    by destruct dk_cmp.
  - rewrite H5, map_app, zsum_app. cbn [map]. rewrite zsum_cons. change (zsum []) with 0.
    pose proof (mutation_size_range e.2).
    assert (0 <= zsum (map (fun e => mutation_size e.2) es)).
    { apply zsum_nonneg, Forall_map, Forall_forall. intros x _. apply mutation_size_range. }
    unfold sat_add64, usize_MAX in *. lia.
  - rewrite H6, zlen_app. unfold sat_add64, usize_MAX, zlen in *. cbn [length]. lia.
Qed.
