(* ===== verification/Durability.v ===== *)
(** The end of a flush ([storage/write_engine/durability.rs], and
    [create_dir_all_durable] of [storage/write_engine/mod.rs]): which directories are
    synced, and when the log may be truncated. *)

From S2P Require Import Prelude Values Mutation Wal WalProps.

Open Scope Z_scope.

(** ** Paths *)

(** A normalised path: [/] in front of an absolute one, then names. *)
Inductive PathComponent := RootDir | Normal (name : string).
#[export] Instance path_component_eq_dec : EqDecision PathComponent.
Proof. solve_decision. Defined.
Definition Path : Type := list PathComponent.

(** [Path::parent], [Path::starts_with]. *)
Definition parent (p : Path) : option Path :=
  match last p with
  | Some (Normal _) => Some (removelast p)
  | _ => None
  end.
Definition starts_with (p base : Path) : bool := bool_decide (base `prefix_of` p).

(** The [loop] of [dirs_to_sync]: each round goes up by one component. *)
Fixpoint dirs_loop (fuel : nat) (cur data_root : Path) : option (list Path) :=
  match fuel with
  | O => None
  | S fuel =>
      if bool_decide (cur = data_root) then Some [cur]
      else match parent cur with
           | Some up =>
               if negb (is_empty up) && starts_with up data_root then
                 match dirs_loop fuel up data_root with
                 | Some dirs => Some (cur :: dirs)
                 | None => None
                 end
               else Some [cur]
           | None => Some [cur]
           end
  end.

Definition dirs_to_sync (leaf data_root : Path) : list Path :=
  default [] (dirs_loop (S (length leaf)) leaf data_root).

(** The directories [create_dir_all_durable] syncs, in order; [.] stands for the empty
    parent of a relative path. *)
Fixpoint ancestors_loop (fuel : nat) (dir : Path) : list Path :=
  match fuel with
  | O => []
  | S fuel =>
      match parent dir with
      | None => []
      | Some cur => if is_empty cur then [[Normal "."%string]] else cur :: ancestors_loop fuel cur
      end
  end.

(** [created] is the outcome of [std::fs::create_dir_all], [sync_ok] those of the syncs. *)
Definition create_dir_all_durable (created : bool) (sync_ok : Path -> bool) (dir : Path)
    : result Error unit :=
  if negb created then Err Storage
  else if forallb sync_ok (ancestors_loop (length dir) dir) then Ok tt else Err Storage.

(** ** The handoff *)

Inductive FlushDurabilityOutcome :=
| Durable
| WalTruncateFailedAfterCommit (e : Error).

(** The seam between the flush and the file system. *)
Class DurabilityBarrier := {
  sync_dir : Path -> result Error unit;
  truncate_wal : WriteAheadLog -> WriteAheadLog * option TruncateError;
}.

(** The outcomes of the calls a flush makes after the SSTable is written. *)
Record BarrierIo := mkBarrierIo {
  io_sync_dir : Path -> bool;
  io_flush : WriteFault;
  io_set_len : bool;
  io_sync : bool;
  io_seek : bool;
}.
Definition barrier_ok : BarrierIo := mkBarrierIo (fun _ => true) None true true true.

Definition RealDurabilityBarrier (io : BarrierIo) : DurabilityBarrier := {|
  sync_dir dir := if io_sync_dir io dir then Ok tt else Err Storage;
  truncate_wal := truncate_checked (io_flush io) (io_set_len io) (io_sync io) (io_seek io);
|}.

Section Handoff.
Context `{DurabilityBarrier}.

Fixpoint sync_dirs (dirs : list Path) : result Error unit :=
  match dirs with
  | [] => Ok tt
  | dir :: dirs => _ ← sync_dir dir; sync_dirs dirs
  end.

Definition finalize_flush_durability (data_path data_dir : Path) (wal : WriteAheadLog)
    : WriteAheadLog * result Error FlushDurabilityOutcome :=
  let sstable_dir := default data_dir (parent data_path) in
  match sync_dirs (dirs_to_sync sstable_dir data_dir) with
  | Err e => (wal, Err e)
  | Ok _ =>
      if size wal =? 0 then (wal, Ok Durable)
      else match truncate_wal wal with
           | (wal, None) => (wal, Ok Durable)
           | (wal, Some (BeforeMutation e)) => (wal, Ok Durable)
           | (wal, Some (AfterMutation e)) => (wal, Ok (WalTruncateFailedAfterCommit Storage))
           end
  end.
End Handoff.

(** ** The chain *)

(** [RootDir] comes first or not at all. *)
Definition well_formed (p : Path) : Prop := RootDir ∉ tail p.

Lemma removelast_take {A} (l : list A) : removelast l = take (length l - 1) l.
Proof.
  induction l as [|x [|y l] IH]; [done..|]. cbn [length] in *.
  change (removelast (x :: y :: l)) with (x :: removelast (y :: l)). rewrite IH.
  cbn. by rewrite Nat.sub_0_r.
Qed.

Lemma parent_take p : well_formed p -> (1 < length p)%nat -> parent p = Some (take (length p - 1) p).
Proof.
  intros Hw Hl. unfold parent. rewrite removelast_take. destruct (last p) as [[|s]|] eqn:E; [|done|].
  - exfalso. apply Hw. destruct p as [|x [|y p]]; cbn in Hl; [lia..|]. cbn [tail].
    change (last (x :: y :: p)) with (last (y :: p)) in E.
    apply list_elem_of_lookup. exists (length p).
    rewrite last_lookup in E. by cbn [length pred] in E.
  - apply last_None in E as ->. cbn in Hl. lia.
Qed.

Lemma well_formed_take n p : well_formed p -> well_formed (take n p).
Proof.
  unfold well_formed. destruct n, p as [|x p]; cbn; try done; [set_solver|].
  intros H Hin. apply H. rewrite <- (take_drop n p). apply elem_of_app. by left.
Qed.

Lemma prefix_snoc_cases {A} (base p : list A) :
  base `prefix_of` p -> base = p \/ base `prefix_of` take (length p - 1) p.
Proof.
  intros [k ->]. destruct k as [|x k _] using rev_ind; [left; by rewrite app_nil_r|right].
  exists k. rewrite app_assoc, length_app. cbn [length].
  rewrite Nat.add_sub. by rewrite take_app_length.
Qed.

Lemma take_snoc_prefix {A} (d p : list A) :
  d `prefix_of` p <-> d = p \/ d `prefix_of` take (length p - 1) p.
Proof.
  split; [apply prefix_snoc_cases|]. intros [->|Hd]; [done|].
  etrans; [exact Hd|]. exists (drop (length p - 1) p). by rewrite take_drop.
Qed.

(** The directories synced are exactly those from the leaf up to the data root. *)
Lemma dirs_loop_chain fuel cur data_root :
  well_formed cur -> data_root <> [] -> data_root `prefix_of` cur ->
  (length cur - length data_root < fuel)%nat ->
  exists dirs, dirs_loop fuel cur data_root = Some dirs
    /\ (forall d, d ∈ dirs <-> data_root `prefix_of` d /\ d `prefix_of` cur)
    /\ StronglySorted (fun a b => length b < length a)%nat dirs.
Proof.
  revert cur. induction fuel as [|fuel IH]; intros cur Hw Hne Hp Hf; [lia|]. cbn [dirs_loop].
  case_bool_decide as Hc.
  { subst. exists [data_root]. split; [done|]. split; [|repeat constructor].
    intros d. rewrite list_elem_of_singleton. split; [by intros ->|].
    intros [H1 H2]. by apply (anti_symm prefix). }
  pose proof (prefix_length _ _ Hp) as Hl. destruct data_root as [|r0 rs]; [done|].
  destruct (prefix_snoc_cases _ _ Hp) as [|Hup]; [congruence|].
  assert (Hlc : (1 < length cur)%nat).
  { apply prefix_length in Hup. rewrite length_take in Hup. cbn in Hup. lia. }
  rewrite parent_take by done. set (up := take (length cur - 1) cur) in *.
  assert (Hne' : is_empty up = false).
  { destruct up; [|done]. apply prefix_length in Hup. cbn in Hup. lia. }
  unfold starts_with. rewrite Hne', bool_decide_eq_true_2 by done. cbn [negb andb].
  assert (Hlu : length up = (length cur - 1)%nat) by (unfold up; rewrite length_take; lia).
  destruct (IH up) as (dirs & -> & Hin & Hs).
  { by apply well_formed_take. } { done. } { done. }
  { apply prefix_length in Hup. lia. }
  exists (cur :: dirs). split; [done|]. split.
  - intros d. rewrite elem_of_cons, Hin, (take_snoc_prefix d cur). fold up. split.
    + intros [->|[H1 H2]]; [|by split; [|right]]. split; [done|by left].
    + intros [H1 [->|H2]]; [by left|by right].
  - constructor; [done|]. apply Forall_forall. intros d Hd. apply Hin in Hd as [_ Hd].
    apply prefix_length in Hd. lia.
Qed.

(** The loop ends; at the least the leaf itself is synced. *)
Lemma dirs_loop_total leaf data_root :
  exists dirs, dirs_loop (S (length leaf)) leaf data_root = Some (leaf :: dirs).
Proof.
  assert (Hg : forall fuel cur, (length cur < fuel)%nat ->
    exists dirs, dirs_loop fuel cur data_root = Some (cur :: dirs)); [|apply Hg; lia].
  induction fuel as [|fuel IH]; intros cur Hf; [lia|]. cbn [dirs_loop].
  case_bool_decide; [by eexists|]. unfold parent. destruct (last cur) as [[|s]|] eqn:E; [by eexists| |by eexists].
  destruct (negb _ && _); [|by eexists].
  destruct (IH (removelast cur)) as [dirs ->]; [|by eexists].
  rewrite removelast_take, length_take. destruct cur; [done|]. cbn in *. lia.
Qed.

Lemma sync_dirs_ok `{DurabilityBarrier} dirs :
  sync_dirs dirs = Ok tt <-> Forall (fun d => sync_dir d = Ok tt) dirs.
Proof.
  induction dirs as [|d dirs IH]; cbn; [by split|]. rewrite Forall_cons, <- IH.
  destruct (sync_dir d) as [[]|e]; cbn; split; try done; [by intros [_ ?]|by intros [? _]].
Qed.

(** At startup every ancestor of an absolute path is synced, the root included. *)
Lemma ancestors_chain fuel p :
  well_formed p -> head p = Some RootDir -> (length p <= fuel)%nat ->
  forall d, d <> [] -> d `prefix_of` p -> d <> p -> d ∈ ancestors_loop fuel p.
Proof.
  revert p. induction fuel as [|fuel IH]; intros p Hw Hr Hf d Hd Hp Hne.
  { destruct p; [done|cbn in Hf; lia]. }
  destruct (proj1 (take_snoc_prefix d p) Hp) as [|Hup]; [done|].
  pose proof (prefix_length _ _ Hup) as Hl. rewrite length_take in Hl.
  assert (1 < length p)%nat by (destruct d; [done|]; cbn in Hl; lia).
  cbn [ancestors_loop]. rewrite parent_take by done. set (up := take (length p - 1) p) in *.
  assert (Hlu : length up = (length p - 1)%nat) by (unfold up; rewrite length_take; lia).
  destruct up as [|u0 us] eqn:Eu; [cbn in Hlu; lia|]. cbn [is_empty]. rewrite <- Eu in *.
  destruct (decide (d = up)) as [->|Hdu]; [by left|right]. apply IH; try done.
  - subst up. by apply well_formed_take.
  - destruct p as [|x p]; [done|]. cbn in Hr. injection Hr as ->. unfold up. cbn [length].
    destruct p; cbn in *; [lia|done].
  - lia.
Qed.

Section Handoff.
Context `{DurabilityBarrier}.

(** C33: The log is given up only for an SSTable that is on disk. A flush that ends
    without an error has synced every directory from the SSTable's own up to the data
    root; for an absolute path, the start of the engine has synced those above it up to the
    root of the file system (for a relative one it stops at the working directory:
    [relative_root_stops]).
    If one sync fails the error is reported and the log is left as it was. The log is
    truncated only after the syncs, never when it is empty, and a truncation that fails
    halfway is told apart from a clean end. *)
Theorem handoff_durable data_path leaf data_dir startup_ok wal wal' out
    (Hp : parent data_path = Some leaf) (Hw : well_formed leaf) (Hne : data_dir <> [])
    (Hroot : data_dir `prefix_of` leaf)
    (Hstart : create_dir_all_durable true startup_ok data_dir = Ok tt)
    (Hrun : finalize_flush_durability data_path data_dir wal = (wal', out)) :
  (exists d, out = Err d /\ wal' = wal
     /\ exists dir, data_dir `prefix_of` dir /\ dir `prefix_of` leaf /\ sync_dir dir <> Ok tt)
  \/ (exists o, out = Ok o
      /\ (forall dir, data_dir `prefix_of` dir -> dir `prefix_of` leaf -> sync_dir dir = Ok tt)
      /\ (head leaf = Some RootDir -> forall dir, dir <> [] -> dir `prefix_of` leaf ->
            sync_dir dir = Ok tt \/ startup_ok dir = true)
      /\ (wal' = wal \/ size wal <> 0 /\ wal' = fst (truncate_wal wal))
      /\ (o <> Durable <-> size wal <> 0 /\ exists e, snd (truncate_wal wal) = Some (AfterMutation e))).
Proof.
  unfold finalize_flush_durability in Hrun. rewrite Hp in Hrun. cbn [default from_option id] in Hrun.
  destruct (dirs_loop_chain (S (length leaf)) leaf data_dir) as (dirs & Hd & Hin & _); try done; [lia|].
  unfold dirs_to_sync in Hrun. rewrite Hd in Hrun. cbn [default from_option] in Hrun.
  change (id dirs) with dirs in Hrun.
  destruct (sync_dirs dirs) as [[]|e] eqn:Es.
  - right. apply sync_dirs_ok in Es. rewrite Forall_forall in Es.
    assert (Hall : forall dir, data_dir `prefix_of` dir -> dir `prefix_of` leaf -> sync_dir dir = Ok tt).
    { intros dir H1 H2. apply Es, Hin. by split. }
    assert (Hup : head leaf = Some RootDir -> forall dir, dir <> [] -> dir `prefix_of` leaf ->
      sync_dir dir = Ok tt \/ startup_ok dir = true).
    { intros Hr dir Hdn Hdl. destruct (prefix_weak_total dir data_dir leaf Hdl Hroot) as [Hle|Hle];
        [|left; by apply Hall]. destruct (decide (dir = data_dir)) as [->|]; [left; by apply Hall|].
      right. unfold create_dir_all_durable in Hstart. cbn [negb] in Hstart.
      destruct (forallb startup_ok _) eqn:Ef; [|done]. rewrite forallb_forall in Ef.
      apply Ef, list_elem_of_In. destruct Hroot as [k ->].
      apply ancestors_chain; try done.
      - unfold well_formed in *. destruct data_dir; [done|]. cbn in *.
        intros Hi. apply Hw, elem_of_app. by left.
      - by destruct data_dir. }
    destruct (Z.eqb_spec (size wal) 0) as [Hz|Hz].
    { simplify_eq. exists Durable. split_and!; try done; [by left|]. split; [done|]. by intros []. }
    destruct (truncate_wal wal) as [w [[e|e]|]] eqn:Et; simplify_eq; eexists;
      (split_and!; [done|done|done|by right|]); cbn; split; try done; intros [_ [? ?]] || split; try done;
      by eexists.
  - left. simplify_eq. exists e. split; [done|]. split; [done|].
    assert (Hn : ~ Forall (fun d => sync_dir d = Ok tt) dirs) by (rewrite <- sync_dirs_ok; congruence).
    apply not_Forall_Exists in Hn; [|intros d; destruct (sync_dir d) as [[]|]; [by left|by right]].
    apply Exists_exists in Hn as (d & Hdin & Hbad). exists d. apply Hin in Hdin as [H1 H2]. by split_and!.
Qed.
End Handoff.

(** A concrete handoff: the table directory's sync fails. *)
Definition sample_data_dir : Path := [RootDir; Normal "data"%string].
Definition sample_leaf : Path := sample_data_dir ++ [Normal "ks"%string; Normal "t"%string].
Definition sample_io (bad : Path) : BarrierIo :=
  mkBarrierIo (fun d => negb (bool_decide (d = bad))) None true true true.

Lemma handoff_durable_witness :
  exists d, finalize_flush_durability (H := RealDurabilityBarrier (sample_io sample_leaf))
              (sample_leaf ++ [Normal "nb-1-big-Data.db"%string]) sample_data_dir create
            = (create, Err d).
Proof.
  destruct (finalize_flush_durability (H := RealDurabilityBarrier (sample_io sample_leaf))
    (sample_leaf ++ [Normal "nb-1-big-Data.db"%string]) sample_data_dir create) as [w out] eqn:E.
  destruct (handoff_durable (H := RealDurabilityBarrier (sample_io sample_leaf))
    (sample_leaf ++ [Normal "nb-1-big-Data.db"%string]) sample_leaf sample_data_dir (fun _ => true)
    create w out) as [(d & -> & -> & _)|(o & _ & Hall & _)].
  - reflexivity.
  - unfold well_formed. cbn. rewrite !elem_of_cons. intros [|[|[|Hn]]]; [discriminate..|].
    by apply elem_of_nil in Hn.
  - discriminate.
  - by apply prefix_app_r.
  - reflexivity.
  - exact E.
  - exists d. reflexivity.
  - specialize (Hall sample_leaf (prefix_app_r _ _ _ (reflexivity _)) (reflexivity _)).
    vm_compute in Hall. discriminate Hall.
Defined.

(** The start of the engine on [/data/db] syncs up to [/]; on [data/db] only up to [.]. *)
Example relative_root_stops :
  ancestors_loop 3 [RootDir; Normal "data"; Normal "db"]%string = [[RootDir; Normal "data"]%string; [RootDir]]
  /\ ancestors_loop 2 [Normal "data"; Normal "db"]%string = [[Normal "data"]; [Normal "."]]%string.
Proof. done. Qed.
