(* ===== verification/Generations.v ===== *)
(** SSTable files by name: the generation a new SSTable gets ([determine_next_generation]
    of [storage/write_engine/mod.rs]), deletion ([delete_sstable_files_static] of
    [maintenance.rs]) and the sweep of unpublished components at startup ([sweep.rs]). *)

From S2P Require Import Prelude Values.
From Stdlib Require Import Ascii.
From stdpp Require Import pretty.

#[local] Open Scope string_scope.
Open Scope Z_scope.

(** ** Names *)

(** [str::strip_prefix], [strip_suffix] and [contains]. *)
Fixpoint strip_prefix (p s : string) : option string :=
  match p, s with
  | EmptyString, _ => Some s
  | String a p, String b s => if Ascii.eqb a b then strip_prefix p s else None
  | String _ _, EmptyString => None
  end.

Fixpoint contains (s sub : string) : bool :=
  is_some (strip_prefix sub s)
  || match s with EmptyString => false | String _ s => contains s sub end.

Fixpoint strip_suffix (s suf : string) : option string :=
  if String.eqb s suf then Some EmptyString
  else match s with
       | EmptyString => None
       | String a s => match strip_suffix s suf with Some t => Some (String a t) | None => None end
       end.

(** [s.split('-').next()]: up to the first dash. *)
Fixpoint until_dash (s : string) : string :=
  match s with
  | EmptyString => EmptyString
  | String a s => if Ascii.eqb a "-"%char then EmptyString else String a (until_dash s)
  end.

Definition digit_value (a : ascii) : option Z :=
  let n := Z.of_nat (nat_of_ascii a) - 48 in
  if (0 <=? n) && (n <=? 9) then Some n else None.

Fixpoint parse_digits (acc : Z) (s : string) : option Z :=
  match s with
  | EmptyString => Some acc
  | String a s =>
      match digit_value a with
      | Some n => let acc := acc * 10 + n in if acc <=? u64_MAX then parse_digits acc s else None
      | None => None
      end
  end.

(** [s.parse::<u64>()]: digits, after an optional plus sign. *)
Definition parse_u64 (s : string) : option Z :=
  match s with
  | EmptyString => None
  | String "+"%char EmptyString => None
  | String "+"%char s => parse_digits 0 s
  | s => parse_digits 0 s
  end.

(** [format!("nb-{generation}-big-{component}")]. *)
Definition base_name (generation : Z) : string := "nb-" +:+ pretty (Z.to_N generation) +:+ "-big".
Definition component_name (generation : Z) (component : string) : string :=
  base_name generation +:+ "-" +:+ component.

(** ** The next generation *)

(** What [read_dir] shows: files, and directories with their entries. *)
Inductive Entry :=
| File (name : string)
| Dir (name : string) (entries : list Entry).

Definition file_generation (filename : string) : option Z :=
  match strip_prefix "nb-" filename with
  | Some s => parse_u64 (until_dash s)
  | None => None
  end.

Definition entry_name (e : Entry) : string :=
  match e with File name | Dir name _ => name end.

(** One directory, [depth] levels deep; the subdirectories are read by [scan]. *)
Definition scan_entries (scan : list Entry -> Z -> Z) (descend : bool) (entries : list Entry)
    (max_generation : Z) : Z :=
  foldl (fun max_generation e =>
    if is_some (strip_prefix "nb-" (entry_name e)) && contains (entry_name e) "-big-" then
      match file_generation (entry_name e) with
      | Some gen => Z.max max_generation gen
      | None => max_generation
      end
    else if descend then
      match e with
      | Dir _ sub => scan sub max_generation
      | File _ => max_generation
      end
    else max_generation) max_generation entries.

Fixpoint scan_generations (depth : nat) (entries : list Entry) (max_generation : Z) : Z :=
  match depth with
  | O => scan_entries (fun _ m => m) false entries max_generation
  | S depth => scan_entries (scan_generations depth) true entries max_generation
  end.

Definition MAX_SSTABLE_SCAN_DEPTH : nat := 3.

(** [None] is a data directory that does not exist; reading it is assumed not to fail. *)
Definition determine_next_generation (data_dir : option (list Entry)) : Z :=
  match data_dir with
  | None => 1
  | Some entries => scan_generations MAX_SSTABLE_SCAN_DEPTH entries 0 + 1
  end.

(** ** Deletion and the sweep, on the names in one SSTable directory *)

Definition Names : Type := gset string.

Definition delete_components : list string :=
  ["TOC.txt"; "Data.db"; "Index.db"; "Summary.db"; "Statistics.db"; "CompressionInfo.db";
   "CRC.db"; "Filter.db"; "Digest.crc32"].

(** [removable] is the outcome of each [remove_file]; the second component says whether
    all of them went. *)
Definition delete_sstable_files (removable : string -> bool) (filename : string) (names : Names)
    : Names * result Error unit :=
  match strip_suffix filename "-Data.db" with
  | None => (names, Err Storage)
  | Some base =>
      let targets := map (fun c => base +:+ "-" +:+ c) delete_components in
      let present := filter (fun n => n ∈ names) targets in
      (names ∖ list_to_set (filter (fun n => removable n = true) present),
       if forallb removable present then Ok tt else Err Storage)
  end.

(** The orphans the sweep finds: a [Data.db] without its [TOC.txt]. *)
Definition is_orphan (names : Names) (filename : string) : bool :=
  is_some (strip_prefix "nb-" filename) && is_some (strip_suffix filename "-big-Data.db")
  && match strip_suffix filename "-Data.db" with
     | Some base => negb (bool_decide (base +:+ "-TOC.txt" ∈ names))
     | None => false
     end.

(** [entries] is the listing in the order [read_dir] yields it. *)
Fixpoint sweep_loop (removable : string -> bool) (entries : list string) (names : Names)
    (removed : list string) (failures : list string) : Names * list string * list string :=
  match entries with
  | [] => (names, removed, failures)
  | filename :: entries =>
      if bool_decide (filename ∈ names) && is_orphan names filename then
        let '(names, r) := delete_sstable_files removable filename names in
        match r with
        | Ok _ => sweep_loop removable entries names (removed ++ [filename]) failures
        | Err _ => sweep_loop removable entries names removed (failures ++ [filename])
        end
      else sweep_loop removable entries names removed failures
  end.

Definition sweep_orphaned_partial_sstables (removable : string -> bool) (entries : list string)
    : Names * list string * list string :=
  sweep_loop removable entries (list_to_set entries) [] [].

(** ** Strings *)

Lemma app_String a s t : String a s +:+ t = String a (s +:+ t).
Proof. done. Qed.
Lemma app_Empty s : EmptyString +:+ s = s.
Proof. done. Qed.

Lemma str_app_assoc s t u : s +:+ (t +:+ u) = (s +:+ t) +:+ u.
Proof. induction s as [|a s IH]; [done|]. rewrite !app_String. by rewrite IH. Qed.

Lemma str_length_app s t : String.length (s +:+ t) = (String.length s + String.length t)%nat.
Proof. induction s as [|a s IH]; [done|]. rewrite app_String. cbn. by rewrite IH. Qed.

Lemma strip_prefix_app p s : strip_prefix p (p +:+ s) = Some s.
Proof. induction p as [|a p IH]; [by destruct s|]. rewrite app_String. cbn [strip_prefix]. by rewrite Ascii.eqb_refl. Qed.

Lemma strip_prefix_spec p s t : strip_prefix p s = Some t -> s = p +:+ t.
Proof.
  revert s. induction p as [|a p IH]; intros s; cbn [strip_prefix]; [by intros [= ->]|].
  destruct s as [|b s]; [done|]. destruct (Ascii.eqb_spec a b) as [->|]; [|done].
  intros H. by rewrite app_String, <- (IH s H).
Qed.

Lemma strip_suffix_spec s suf t : strip_suffix s suf = Some t <-> s = t +:+ suf.
Proof.
  revert t. induction s as [|a s IH]; intros t; cbn [strip_suffix].
  - destruct (String.eqb_spec EmptyString suf) as [<-|Hn].
    + split; [by intros [= <-]|]. by destruct t.
    + split; [done|]. destruct t; [|done]. by rewrite app_Empty; intros.
  - destruct (String.eqb_spec (String a s) suf) as [E|Hn].
    + split; [by intros [= <-]|]. intros H. f_equal. destruct t; [done|]. exfalso.
      apply (f_equal String.length) in H. rewrite <- E, str_length_app in H. cbn in H. lia.
    + destruct t as [|b t]; rewrite ?app_Empty, ?app_String.
      { split; [|by intros E]. by destruct (strip_suffix s suf). }
      destruct (strip_suffix s suf) as [u|].
      * split; [intros [= -> ->]; f_equal; by apply IH|]. intros [= -> H]. apply IH in H. congruence.
      * split; [done|]. intros [= -> H]. apply IH in H. discriminate.
Qed.

Lemma contains_app p sub s : contains (p +:+ sub +:+ s) sub = true.
Proof.
  induction p as [|a p IH].
  - rewrite app_Empty. pose proof (strip_prefix_app sub s) as E.
    destruct (sub +:+ s); cbn [contains]; by rewrite E.
  - rewrite app_String. cbn [contains]. rewrite IH. apply orb_true_r.
Qed.

(** No dash in a component's name. *)
Fixpoint dash_free (s : string) : bool :=
  match s with EmptyString => true | String a s => negb (Ascii.eqb a "-"%char) && dash_free s end.

Lemma dash_free_app s t : dash_free (s +:+ t) = dash_free s && dash_free t.
Proof.
  induction s as [|a s IH]; [done|]. rewrite app_String. cbn [dash_free]. by rewrite IH, andb_assoc.
Qed.

Lemma dash_not_free b c : dash_free (b +:+ "-" +:+ c) = false.
Proof. rewrite !dash_free_app. apply andb_false_r. Qed.

Lemma last_dash b b' c c' :
  dash_free c = true -> dash_free c' = true ->
  b +:+ "-" +:+ c = b' +:+ "-" +:+ c' -> b = b' /\ c = c'.
Proof.
  intros Hc Hc'. change ("-" +:+ c) with (String "-" c). change ("-" +:+ c') with (String "-" c').
  revert b'. induction b as [|a b IH]; intros [|a' b'];
    rewrite ?app_Empty, ?(app_String a b), ?(app_String a' b'); intros E; injection E.
  - by intros ->.
  - intros -> _. change (String "-" c') with ("-" +:+ c') in Hc. by rewrite dash_not_free in Hc.
  - intros <- _. change (String "-" c) with ("-" +:+ c) in Hc'. by rewrite dash_not_free in Hc'.
  - intros E' ->. by destruct (IH b' E') as [-> ->].
Qed.

Lemma until_dash_app s t : dash_free s = true -> until_dash (s +:+ "-" +:+ t) = s.
Proof.
  induction s as [|a s IH]; [done|]. rewrite app_String. cbn [dash_free until_dash].
  rewrite andb_true_iff, negb_true_iff. intros [-> H]. f_equal. by apply IH.
Qed.

(** ** Numbers *)

Lemma pretty_char_digit d : (d < 10)%N -> digit_value (pretty_N_char d) = Some (Z.of_N d).
Proof.
  intros Hd. assert (H : In d (map N.of_nat (seq 0 10))).
  { apply in_map_iff. exists (N.to_nat d). split; [lia|]. apply in_seq. lia. }
  cbn in H. intuition (subst; reflexivity).
Qed.

Lemma digit_no_dash a n : digit_value a = Some n -> Ascii.eqb a "-"%char = false.
Proof. intros H. destruct (Ascii.eqb_spec a "-"%char) as [->|]; [by vm_compute in H|done]. Qed.

Lemma pretty_go_parse x s :
  Z.of_N x <= u64_MAX -> parse_digits 0 (pretty_N_go x s) = parse_digits (Z.of_N x) s.
Proof.
  revert s. induction x as [x IH] using (well_founded_induction N.lt_wf_0). intros s Hx.
  destruct (decide (x = 0%N)) as [->|Hn]; [done|]. rewrite pretty_N_go_step by lia.
  assert (Hlt : (x `div` 10 < x)%N) by (apply N.div_lt; lia).
  rewrite IH by lia. cbn [parse_digits].
  rewrite pretty_char_digit by (apply N.mod_lt; lia).
  replace (_ + _)%Z with (Z.of_N x) by (pose proof (N.div_mod x 10); lia).
  by rewrite (proj2 (Z.leb_le _ _) Hx).
Qed.

Lemma pretty_go_digits x s : dash_free s = true -> dash_free (pretty_N_go x s) = true.
Proof.
  revert s. induction x as [x IH] using (well_founded_induction N.lt_wf_0). intros s Hs.
  destruct (decide (x = 0%N)) as [->|Hn]; [done|]. rewrite pretty_N_go_step by lia.
  apply IH; [apply N.div_lt; lia|]. cbn.
  rewrite (digit_no_dash _ _ (pretty_char_digit _ (N.mod_lt x 10 ltac:(lia)))). done.
Qed.

Lemma pretty_N_digits (x : N) : dash_free (pretty x) = true.
Proof.
  unfold pretty, pretty_N. destruct (decide (x = 0%N)); [done|]. by apply pretty_go_digits.
Qed.

Lemma pretty_N_char_ok (x : N) : exists a s, pretty x = String a s /\ Ascii.eqb a "+"%char = false.
Proof.
  assert (Hg : forall x s, (exists a t, s = String a t /\ is_some (digit_value a) = true) ->
    exists a t, pretty_N_go x s = String a t /\ is_some (digit_value a) = true).
  { clear x. intros x. induction x as [x IH] using (well_founded_induction N.lt_wf_0). intros s Hs.
    destruct (decide (x = 0%N)) as [->|Hn]; [done|]. rewrite pretty_N_go_step by lia.
    apply IH; [apply N.div_lt; lia|]. eexists _, _. split; [done|].
    by rewrite (pretty_char_digit _ (N.mod_lt x 10 ltac:(lia))). }
  assert (H : exists a t, pretty x = String a t /\ is_some (digit_value a) = true).
  { unfold pretty, pretty_N. destruct (decide (x = 0%N)); [by eexists _, _|].
    rewrite pretty_N_go_step by lia. apply Hg. eexists _, _. split; [done|].
    by rewrite (pretty_char_digit _ (N.mod_lt x 10 ltac:(lia))). }
  destruct H as (a & t & -> & Ha). exists a, t. split; [done|].
  destruct (Ascii.eqb_spec a "+"%char) as [->|]; [by vm_compute in Ha|done].
Qed.

Lemma parse_pretty g : 0 <= g <= u64_MAX -> parse_u64 (pretty (Z.to_N g)) = Some g.
Proof.
  intros Hg. destruct (pretty_N_char_ok (Z.to_N g)) as (a & t & E & Ha).
  assert (Hp : parse_digits 0 (pretty (Z.to_N g)) = Some g).
  { unfold pretty, pretty_N. destruct (decide (Z.to_N g = 0%N)) as [Hz|Hz].
    - assert (g = 0) as -> by lia. done.
    - rewrite pretty_go_parse by lia. cbn [parse_digits]. f_equal. lia. }
  rewrite E in *. unfold parse_u64. destruct a as [[] [] [] [] [] [] [] []]; try done; try exact Hp.
Qed.

(** What the scan reads in a name the writer gave. *)
Lemma component_name_generation g c :
  0 <= g <= u64_MAX ->
  is_some (strip_prefix "nb-" (component_name g c)) && contains (component_name g c) "-big-" = true
  /\ file_generation (component_name g c) = Some g.
Proof.
  intros Hg. unfold file_generation.
  assert (E : component_name g c = "nb-" +:+ (pretty (Z.to_N g) +:+ "-" +:+ ("big-" +:+ c))).
  { unfold component_name, base_name. rewrite <- !str_app_assoc. done. }
  rewrite E, !strip_prefix_app. split.
  - cbn [is_some andb]. change ("-" +:+ ("big-" +:+ c)) with ("-big-" +:+ c).
    rewrite (str_app_assoc "nb-"). apply contains_app.
  - rewrite until_dash_app by apply pretty_N_digits. by apply parse_pretty.
Qed.

(** A name [depth] directories deep; a directory whose name looks like a component is
    not entered. *)
Inductive within : nat -> list Entry -> string -> Prop :=
| within_here depth entries e : e ∈ entries -> within depth entries (entry_name e)
| within_below depth entries dir sub name :
    Dir dir sub ∈ entries ->
    is_some (strip_prefix "nb-" dir) && contains dir "-big-" = false ->
    within depth sub name -> within (S depth) entries name.

Definition generation_of (name : string) : option Z :=
  if is_some (strip_prefix "nb-" name) && contains name "-big-" then file_generation name else None.

(** One entry of the scan. *)
Definition entry_step (scan : list Entry -> Z -> Z) (descend : bool) (m : Z) (e : Entry) : Z :=
  if is_some (strip_prefix "nb-" (entry_name e)) && contains (entry_name e) "-big-" then
    match file_generation (entry_name e) with
    | Some gen => Z.max m gen
    | None => m
    end
  else if descend then match e with Dir _ sub => scan sub m | File _ => m end else m.

Lemma scan_entries_fold scan descend entries m :
  scan_entries scan descend entries m = foldl (entry_step scan descend) m entries.
Proof. done. Qed.

(** The scan is the maximum: nothing it can reach is above it, and it is reached. *)
Definition scan_max (depth : nat) (entries : list Entry) (m r : Z) : Prop :=
  m <= r
  /\ (forall name g, within depth entries name -> generation_of name = Some g -> g <= r)
  /\ (r = m \/ exists name, within depth entries name /\ generation_of name = Some r).

Lemma fold_scan_max scan descend depth entries :
  (forall e m, e ∈ entries ->
     let r := entry_step scan descend m e in
     m <= r
     /\ (forall name g, within depth [e] name -> generation_of name = Some g -> g <= r)
     /\ (r = m \/ exists name, within depth [e] name /\ generation_of name = Some r)) ->
  forall m, scan_max depth entries m (foldl (entry_step scan descend) m entries).
Proof.
  assert (Hin : forall e es name, within depth (e :: es) name ->
    within depth [e] name \/ within depth es name).
  { intros e es name Hw. inversion Hw as [d es' e' He|d es' dir sub name' He Hd Hs]; subst;
      apply elem_of_cons in He as [Heq|He]; [subst e| |subst e|].
    - left. constructor. by left.
    - right. by constructor.
    - left. eapply within_below; [by left|done..].
    - right. by eapply within_below. }
  assert (Hmono : forall es es' name, es ⊆ es' -> within depth es name -> within depth es' name).
  { intros es es' name Hs Hw. inversion Hw; subst; [constructor; auto|eapply within_below; eauto]. }
  induction entries as [|e es IH]; intros Hstep m; cbn [foldl].
  { split; [lia|]. split; [|by left]. intros name g Hw.
    inversion Hw as [? ? ? He|? ? ? ? ? He]; subst; by apply not_elem_of_nil in He. }
  destruct (Hstep e m (list_elem_of_here _ _)) as (S1 & S2 & S3).
  destruct (IH ltac:(intros; apply Hstep; by right) (entry_step scan descend m e)) as (I1 & I2 & I3).
  split; [lia|]. split.
  - intros name g Hw Hg. apply Hin in Hw as [Hw|Hw]; [specialize (S2 name g Hw Hg); lia|by eapply I2].
  - destruct I3 as [->|(name & Hw & Hn)].
    + destruct S3 as [->|(name & Hw & Hn)]; [by left|right]. exists name. split; [|done].
      eapply Hmono; [|exact Hw]. intros x Hx. apply list_elem_of_singleton in Hx as ->. by left.
    + right. exists name. split; [|done]. eapply Hmono; [|exact Hw]. intros x Hx. by right.
Qed.

Lemma scan_generations_max depth entries m : scan_max depth entries m (scan_generations depth entries m).
Proof.
  revert entries m. induction depth as [|depth IH]; intros entries m;
    cbn [scan_generations]; rewrite scan_entries_fold; apply fold_scan_max; clear m;
    intros e m _; cbv zeta; unfold entry_step.
  - destruct (_ && _) eqn:En.
    + split_and!; [destruct file_generation; lia| |].
      * intros name g Hw. inversion Hw as [? ? ? He|]; subst. apply list_elem_of_singleton in He as ->.
        unfold generation_of. rewrite En. intros ->. lia.
      * destruct (file_generation (entry_name e)) as [g|] eqn:Eg; [|by left].
        destruct (Z.max_spec m g) as [[_ ->]|[_ ->]]; [right|by left].
        exists (entry_name e). split; [constructor; by left|]. unfold generation_of. by rewrite En.
    + split_and!; [lia| |by left]. intros name g Hw. inversion Hw as [? ? ? He|]; subst.
      apply list_elem_of_singleton in He as ->. unfold generation_of. by rewrite En.
  - destruct (_ && _) eqn:En.
    + split_and!; [destruct file_generation; lia| |].
      * intros name g Hw. inversion Hw as [? ? ? He|? ? dir sub ? He Hd Hs]; subst;
          apply list_elem_of_singleton in He; [subst|subst; cbn [entry_name] in En; by rewrite Hd in En].
        unfold generation_of. rewrite En. intros ->. lia.
      * destruct (file_generation (entry_name e)) as [g|] eqn:Eg; [|by left].
        destruct (Z.max_spec m g) as [[_ ->]|[_ ->]]; [right|by left].
        exists (entry_name e). split; [constructor; by left|]. unfold generation_of. by rewrite En.
    + destruct e as [n|n sub]; cbn [entry_name] in *.
      * split_and!; [lia| |by left]. intros name g Hw.
        inversion Hw as [? ? ? He|? ? dir sub ? He]; subst; apply list_elem_of_singleton in He; subst; [|done].
        unfold generation_of. cbn [entry_name]. by rewrite En.
      * destruct (IH sub m) as (I1 & I2 & I3). split_and!; [done| |].
        -- intros name g Hw Hg. inversion Hw as [? ? ? He|? ? dir sub' ? He Hd Hs]; subst;
             apply list_elem_of_singleton in He; simplify_eq; [|by eapply I2].
           unfold generation_of in Hg. cbn [entry_name] in Hg. by rewrite En in Hg.
        -- destruct I3 as [->|(name & Hw & Hn)]; [by left|right]. exists name.
           split; [|done]. eapply within_below; [by left|done|done].
Qed.

Lemma next_generation_above entries g c :
  0 <= g <= u64_MAX -> within MAX_SSTABLE_SCAN_DEPTH entries (component_name g c) ->
  g < determine_next_generation (Some entries).
Proof.
  intros Hg Hw. destruct (scan_generations_max MAX_SSTABLE_SCAN_DEPTH entries 0) as (_ & H2 & _).
  destruct (component_name_generation g c Hg) as [Hn Hf]. unfold determine_next_generation.
  enough (g <= scan_generations MAX_SSTABLE_SCAN_DEPTH entries 0) by lia.
  apply (H2 _ g Hw). unfold generation_of. by rewrite Hn.
Qed.

Lemma next_generation_pos entries : 1 <= determine_next_generation (Some entries).
Proof.
  destruct (scan_generations_max MAX_SSTABLE_SCAN_DEPTH entries 0) as (Hm & _).
  unfold determine_next_generation. lia.
Qed.

(** A new SSTable never takes the name of one that exists. The generation chosen at
    startup is above that of every component file within the scan's depth, whatever its
    component, and one above the largest, so no generation is skipped. *)
Theorem next_generation_exact entries :
  let next := determine_next_generation (Some entries) in
  (forall g c, 0 <= g <= u64_MAX -> within MAX_SSTABLE_SCAN_DEPTH entries (component_name g c) ->
     g < next)
  /\ (next = 1 \/ exists name, within MAX_SSTABLE_SCAN_DEPTH entries name
        /\ generation_of name = Some (next - 1)).
Proof.
  cbv zeta. split; [apply next_generation_above|]. unfold determine_next_generation.
  destruct (scan_generations_max MAX_SSTABLE_SCAN_DEPTH entries 0) as (_ & _ & [->|H3]); [by left|right].
  by rewrite Z.add_simpl_r.
Qed.

(** ** The sweep *)

Section Sweep.
Context (removable : string -> bool).

Definition component_of (base component : string) : string := base +:+ "-" +:+ component.

Lemma delete_components_dash_free c : c ∈ delete_components -> dash_free c = true.
Proof. rewrite list_elem_of_In. cbn. intuition (subst; reflexivity). Qed.

Lemma component_of_inj b b' c c' :
  dash_free c = true -> dash_free c' = true ->
  component_of b c = component_of b' c' -> b = b' /\ c = c'.
Proof. apply last_dash. Qed.

Lemma data_base filename b : strip_suffix filename "-Data.db" = Some b <-> filename = component_of b "Data.db".
Proof. apply strip_suffix_spec. Qed.

(** The names one deletion removes. *)
Definition gone (base n : string) : Prop :=
  removable n = true /\ exists c, c ∈ delete_components /\ n = component_of base c.

Lemma delete_spec b names n :
  n ∈ (delete_sstable_files removable (component_of b "Data.db") names).1 <-> n ∈ names /\ ~ gone b n.
Proof.
  unfold delete_sstable_files. rewrite (proj2 (data_base _ b) eq_refl). cbn [fst].
  rewrite elem_of_difference, elem_of_list_to_set, !list_elem_of_filter. unfold gone.
  split; intros [Hn Hg]; (split; [done|]).
  - intros [Hr (c & Hc & ->)]. apply Hg. split; [done|]. split; [done|].
    apply list_elem_of_fmap. by exists c.
  - intros (Hr & _ & Hm). apply Hg. split; [done|].
    apply list_elem_of_fmap in Hm as (c & -> & Hc). by exists c.
Qed.

Lemma orphan_base names f :
  is_orphan names f = true -> exists b, f = component_of b "Data.db" /\ component_of b "TOC.txt" ∉ names.
Proof.
  unfold is_orphan. rewrite !andb_true_iff. intros [_ H].
  destruct (strip_suffix f "-Data.db") as [b|] eqn:E; [|done]. apply data_base in E as ->.
  exists b. split; [done|]. by apply negb_true_iff, bool_decide_eq_false in H.
Qed.

Lemma orphan_ext names names' f :
  (forall b, component_of b "TOC.txt" ∈ names <-> component_of b "TOC.txt" ∈ names') ->
  is_orphan names f = is_orphan names' f.
Proof.
  intros H. unfold is_orphan. destruct (strip_suffix f "-Data.db") as [b|]; [|done].
  do 2 f_equal. apply bool_decide_ext, (H b).
Qed.

(** What the whole sweep removes, by the listing it started from. *)
Definition swept (all : Names) (entries : list string) (n : string) : Prop :=
  exists b, component_of b "Data.db" ∈ entries /\ is_orphan all (component_of b "Data.db") = true
    /\ gone b n.

Lemma sweep_loop_spec all entries names removed failures names' removed' failures' :
  NoDup entries ->
  (forall b, component_of b "Data.db" ∈ entries -> component_of b "Data.db" ∈ names) ->
  (forall b, component_of b "TOC.txt" ∈ names <-> component_of b "TOC.txt" ∈ all) ->
  sweep_loop removable entries names removed failures = (names', removed', failures') ->
  (forall n, n ∈ names' <-> n ∈ names /\ ~ swept all entries n)
  /\ removed' ++ failures' ≡ₚ removed ++ failures ++ filter (fun f => is_orphan all f = true) entries.
Proof.
  intros Hnd. revert names removed failures.
  induction Hnd as [|f entries Hf Hnd IH]; intros names removed failures Hin Htoc; cbn [sweep_loop].
  { intros [= <- <- <-]. rewrite app_nil_r. split; [|done]. intros n. split; [|by intros []].
    intros Hn. split; [done|]. intros (b & Hb & _). by apply elem_of_nil in Hb. }
  rewrite (orphan_ext names all f Htoc), filter_cons.
  destruct (is_orphan all f) eqn:Eo.
  - destruct (orphan_base _ _ Eo) as (b & -> & Hb).
    rewrite bool_decide_eq_true_2 by (apply Hin; by left). cbn [andb].
    destruct (delete_sstable_files removable _ names) as [names1 r] eqn:Ed.
    assert (Hd : forall n, n ∈ names1 <-> n ∈ names /\ ~ gone b n)
      by (intros n; rewrite <- (delete_spec b names n), Ed; done).
    assert (Hkeep : forall b' c, dash_free c = true -> b' <> b ->
      component_of b' c ∈ names1 <-> component_of b' c ∈ names).
    { intros b' c Hc Hne. rewrite Hd. split; [by intros []|]. intros Hn. split; [done|].
      intros (_ & c' & Hc' & E). apply component_of_inj in E as [-> _]; [done..|].
      by apply delete_components_dash_free. }
    assert (Hin1 : forall b', component_of b' "Data.db" ∈ entries -> component_of b' "Data.db" ∈ names1).
    { intros b' Hb'. apply Hkeep; [done|congruence|]. apply Hin. by right. }
    assert (Htoc1 : forall b', component_of b' "TOC.txt" ∈ names1 <-> component_of b' "TOC.txt" ∈ all).
    { intros b'. destruct (decide (b' = b)) as [->|Hne]; [|by rewrite Hkeep].
      rewrite Hd, Htoc. split; [by intros []|done]. }
    assert (Hset : forall n, n ∈ names1 /\ ~ swept all entries n
      <-> n ∈ names /\ ~ swept all (component_of b "Data.db" :: entries) n).
    { intros n. rewrite Hd. split.
      - intros [[Hn Hg] Hs]. split; [done|]. intros (b' & Hb' & Ho & Hg').
        apply elem_of_cons in Hb' as [E|Hb']; [|by apply Hs; exists b'].
        apply component_of_inj in E as [-> _]; done.
      - intros [Hn Hs]. split; [split; [done|]|].
        + intros Hg. apply Hs. exists b. split; [by left|done].
        + intros (b' & Hb' & Hrest). apply Hs. exists b'. split; [by right|done]. }
    rewrite decide_True by done. destruct r as [u|e]; intros E.
    + destruct (IH _ _ _ Hin1 Htoc1 E) as [IH1 IH2]. split; [intros n; by rewrite IH1, Hset|].
      rewrite IH2, <- app_assoc. cbn. by rewrite Permutation_middle.
    + destruct (IH _ _ _ Hin1 Htoc1 E) as [IH1 IH2]. split; [intros n; by rewrite IH1, Hset|].
      rewrite IH2, <- !app_assoc. done.
  - rewrite andb_false_r, decide_False by done. intros E.
    destruct (IH names removed failures) as [IH1 IH2]; [|done|done|].
    { intros b Hb. apply Hin. by right. }
    split; [|done]. intros n. rewrite IH1. split; intros [Hn Hs]; (split; [done|]).
    + intros (b & Hb & Ho & Hg). apply elem_of_cons in Hb as [<-|Hb]; [congruence|].
      apply Hs. by exists b.
    + intros (b & Hb & Hrest). apply Hs. exists b. split; [by right|done].
Qed.

(** C34: The startup sweep deletes what was never published and nothing else. From the
    listing of an SSTable directory it removes exactly the removable components of the
    tables whose [Data.db] has no [TOC.txt]; every file of a published table stays; and
    each orphan is reported once, removed or failed. *)
Theorem sweep_exact entries names removed failures (Hnd : NoDup entries)
    (Hrun : sweep_orphaned_partial_sstables removable entries = (names, removed, failures)) :
  (forall n, n ∈ names <-> n ∈ entries /\ ~ swept (list_to_set entries) entries n)
  /\ (forall b c, component_of b "TOC.txt" ∈ entries -> component_of b c ∈ entries ->
        dash_free c = true -> component_of b c ∈ names)
  /\ removed ++ failures ≡ₚ filter (fun f => is_orphan (list_to_set entries) f = true) entries.
Proof.
  unfold sweep_orphaned_partial_sstables in Hrun.
  destruct (sweep_loop_spec (list_to_set entries) entries (list_to_set entries) [] [] names removed failures)
    as [H1 H2]; [done| |done|done|].
  { intros b Hb. by apply elem_of_list_to_set. }
  assert (H1' : forall n, n ∈ names <-> n ∈ entries /\ ~ swept (list_to_set entries) entries n)
    by (intros n; by rewrite H1, elem_of_list_to_set).
  split; [done|]. split; [|done].
  intros b c Ht Hn Hc. apply H1'. split; [done|]. intros (b' & _ & Ho & _ & c' & Hc' & E).
  apply component_of_inj in E as [-> _]; [|done|by apply delete_components_dash_free].
  destruct (orphan_base _ _ Ho) as (b0 & E0 & Hb0). apply component_of_inj in E0 as [-> _]; [|done..].
  by apply Hb0, elem_of_list_to_set.
Qed.
End Sweep.

(** A published table, and the leftovers of an unfinished one. *)
Definition sample_entries : list string :=
  [component_name 1 "Data.db"; component_name 1 "Index.db"; component_name 1 "TOC.txt";
   component_name 2 "Index.db"; component_name 2 "Data.db"].

Lemma sweep_exact_witness :
  component_name 1 "Data.db" ∈ (sweep_orphaned_partial_sstables (fun _ => true) sample_entries).1.1.
Proof.
  destruct (sweep_orphaned_partial_sstables (fun _ => true) sample_entries) as [[names removed] failures] eqn:E.
  apply (sweep_exact (fun _ => true) sample_entries names removed failures) in E as (_ & H & _).
  - apply (H (base_name 1) "Data.db").
    + apply (bool_decide_unpack _). vm_compute. exact I.
    + apply (bool_decide_unpack _). vm_compute. exact I.
    + reflexivity.
  - apply (bool_decide_unpack _). vm_compute. exact I.
Defined.

(** What a crash between the deletions of [Data.db] and of the rest leaves is never
    swept: an orphan is found by its [Data.db]. *)
Example leftover_without_data :
  (sweep_orphaned_partial_sstables (fun _ => true) [component_name 2 "Index.db"]).1.2 = [].
Proof. by vm_compute. Qed.
