(* ===== verification/Engine.v ===== *)
(** The write engine ([storage/write_engine/mod.rs]): admission, the write path through
    the log and the memtable, the flush, the close, and the recovery at startup. The file
    system answers through the outcomes each operation is given. *)

From S2P Require Import Prelude Values Keys Mutation Wal Memtable Durability Generations.

Open Scope Z_scope.

(** ** Configuration *)

Inductive DurabilityMode := SyncEachWrite | Disabled.
#[export] Instance durability_mode_eq_dec : EqDecision DurabilityMode.
Proof. solve_decision. Defined.

(** The UDT registry is read by the SSTable writer only and left out. *)
Record WriteEngineConfig := mkConfig {
  data_dir : Path;
  wal_dir : Path;
  memtable_flush_threshold : Z;
  memtable_hard_limit : Z;
  schema : TableSchema;
  durability : DurabilityMode;
  auto_compaction : bool;
  compaction_min_threshold : Z;
  compaction_max_threshold : Z;
}.

Definition config_new (data_dir wal_dir : Path) (schema : TableSchema) : WriteEngineConfig :=
  mkConfig data_dir wal_dir (64 * 1024 * 1024) (256 * 1024 * 1024) schema SyncEachWrite true 4 32.

(** [STCSPolicy::new] with the ratios of the default policy, which are in order. *)
Definition stcs_policy_new (min_threshold max_threshold : Z) : result Error unit :=
  if min_threshold =? 0 then Err InvalidInput
  else if max_threshold <? min_threshold then Err InvalidInput
  else Ok tt.

(** ** State *)

(** The SSTables on disk by generation: those whose directory entries are synced, and the
    one that is complete but may not survive a crash. *)
Record Disk := mkDisk {
  published : gmap Z Partitions;
  unsynced : option (Z * Partitions);
}.

(** What a finished SSTable reports, as far as the flush reads it. *)
Record SSTableInfo := mkInfo { info_data_path : Path; info_data_size : Z }.

Record WriteEngine := mkEngine {
  config : WriteEngineConfig;
  wal : WriteAheadLog;
  memtable : Memtable;
  wal_recovery : RecoveryReport;
  generation : Z;
  closed : bool;
  merge_policy : bool;
  rows_written : Z;
  l0_count : Z;
  total_flushed_bytes : Z;
  warned_over_threshold : bool;
}.

Definition with_wal (e : WriteEngine) (w : WriteAheadLog) : WriteEngine :=
  mkEngine (config e) w (memtable e) (wal_recovery e) (generation e) (closed e) (merge_policy e)
    (rows_written e) (l0_count e) (total_flushed_bytes e) (warned_over_threshold e).
Definition with_memtable (e : WriteEngine) (t : Memtable) : WriteEngine :=
  mkEngine (config e) (wal e) t (wal_recovery e) (generation e) (closed e) (merge_policy e)
    (rows_written e) (l0_count e) (total_flushed_bytes e) (warned_over_threshold e).
Definition with_closed (e : WriteEngine) (b : bool) : WriteEngine :=
  mkEngine (config e) (wal e) (memtable e) (wal_recovery e) (generation e) b (merge_policy e)
    (rows_written e) (l0_count e) (total_flushed_bytes e) (warned_over_threshold e).
Definition count_row (e : WriteEngine) : WriteEngine :=
  mkEngine (config e) (wal e) (memtable e) (wal_recovery e) (generation e) (closed e) (merge_policy e)
    (rows_written e + 1) (l0_count e) (total_flushed_bytes e) (warned_over_threshold e).
Definition warn (e : WriteEngine) : WriteEngine :=
  mkEngine (config e) (wal e) (memtable e) (wal_recovery e) (generation e) (closed e) (merge_policy e)
    (rows_written e) (l0_count e) (total_flushed_bytes e) true.

(** The outcomes of the I/O of one write and of one flush. [fi_info] is [None] when the
    SSTable writer fails. *)
Record WriteIo := mkWriteIo { wi_append : AppendIo; wi_flush : WriteFault; wi_sync : bool }.
Definition write_ok : WriteIo := mkWriteIo io_ok None true.
Record FlushIo := mkFlushIo { fi_info : option SSTableInfo; fi_barrier : BarrierIo }.

(** ** Admission *)

Definition is_counter_write (op : CellOperation) : bool :=
  match op with
  | Write _ (Counter _) | WriteWithTtl _ (Counter _) _ _ => true
  | _ => false
  end.

Definition reject_counter_cells (mutation : Mutation) : result Error unit :=
  if existsb is_counter_write (m_operations mutation) then Err InvalidOperation else Ok tt.

Definition check_admission (e : WriteEngine) (mutation : Mutation) : result Error unit :=
  let hard_limit := memtable_hard_limit (config e) in
  let incoming := estimate_mutation_size (memtable e) mutation in
  if incoming =? usize_MAX then Err Storage
  else if incoming >? hard_limit then Err Storage
  else
    let projected := sat_add64 (size_bytes (memtable e)) incoming in
    if projected >? hard_limit then Err Storage else Ok tt.

(** ** Operations *)

Section Engine.
Context `{Crc32} `{Bincode} (from_data_type : string -> result Error ComparatorType).

(** [self.wal.append(&mutation)?; self.wal.sync()?] *)
Definition log_write (io : WriteIo) (mutation : Mutation) (w : WriteAheadLog)
    : WriteAheadLog * result Error unit :=
  match append (wi_append io) mutation w with
  | (w, Err err) => (w, Err err)
  | (w, Ok _) => sync (wi_flush io) (wi_sync io) w
  end.

Definition write_into_memtable (io : WriteIo) (mutation : Mutation) (e : WriteEngine)
    : WriteEngine * result Error unit :=
  if closed e then (e, Err InvalidInput)
  else match reject_counter_cells mutation with
  | Err err => (e, Err err)
  | Ok _ =>
  match check_admission e mutation with
  | Err err => (e, Err err)
  | Ok _ =>
  let '(w, r) :=
    match durability (config e) with
    | SyncEachWrite => log_write io mutation (wal e)
    | Disabled => (wal e, Ok tt)
    end in
  let e := with_wal e w in
  match r with
  | Err err => (e, Err err)
  | Ok _ =>
  match decorated_key from_data_type mutation (schema (config e)) with
  | Err err => (e, Err err)
  | Ok k => (count_row (with_memtable e (insert_with_key (memtable e) k mutation)), Ok tt)
  end end end end.

(** *** The flush *)

Definition sstable_finished (d : Disk) (generation : Z) (rows : Partitions) : Disk :=
  mkDisk (published d) (Some (generation, rows)).
Definition sstable_failed (d : Disk) : Disk := mkDisk (published d) None.
Definition sstable_synced (d : Disk) (generation : Z) (rows : Partitions) : Disk :=
  mkDisk (<[generation := rows]> (published d)) None.

(** The state the flush commits once the SSTable is durable. *)
Definition flushed (e : WriteEngine) (w : WriteAheadLog) (info : SSTableInfo) : WriteEngine :=
  mkEngine (config e) w (clear (memtable e)) (wal_recovery e) (generation e + 1) (closed e)
    (merge_policy e) (rows_written e) (l0_count e + 1)
    (sat_add64 (total_flushed_bytes e) (info_data_size info)) false.

Definition flush_internal_async (io : FlushIo) (e : WriteEngine) (d : Disk)
    : WriteEngine * Disk * result Error (option SSTableInfo) :=
  if memtable_is_empty (memtable e) then (e, d, Ok None)
  else match fi_info io with
  | None => (e, sstable_failed d, Err Storage)
  | Some info =>
      let rows := iter (memtable e) in
      match finalize_flush_durability (H := RealDurabilityBarrier (fi_barrier io))
              (info_data_path info) (data_dir (config e)) (wal e) with
      | (w, Err err) => (with_wal e w, sstable_finished d (generation e) rows, Err err)
      | (w, Ok outcome) =>
          (flushed e w info, sstable_synced d (generation e) rows,
           match outcome with
           | Durable => Ok (Some info)
           | WalTruncateFailedAfterCommit err => Err err
           end)
      end
  end.

Definition flush (io : FlushIo) (e : WriteEngine) (d : Disk)
    : WriteEngine * Disk * result Error (option SSTableInfo) :=
  if closed e then (e, d, Err InvalidInput) else flush_internal_async io e d.

(** *** Writes that may flush *)

Definition over_threshold (e : WriteEngine) : bool :=
  should_flush (memtable e) (memtable_flush_threshold (config e)).

Definition then_flush (io : FlushIo) (e : WriteEngine) (d : Disk) : WriteEngine * Disk * result Error unit :=
  match flush_internal_async io e d with
  | (e, d, Ok _) => (e, d, Ok tt)
  | (e, d, Err err) => (e, d, Err err)
  end.

(** [in_runtime]: a synchronous caller inside an asynchronous runtime does not flush. *)
Definition write (io : WriteIo) (fio : FlushIo) (in_runtime : bool) (mutation : Mutation)
    (e : WriteEngine) (d : Disk) : WriteEngine * Disk * result Error unit :=
  match write_into_memtable io mutation e with
  | (e, Err err) => (e, d, Err err)
  | (e, Ok _) =>
      if over_threshold e then
        let e := warn e in
        if in_runtime then (e, d, Ok tt) else then_flush fio e d
      else (e, d, Ok tt)
  end.

Definition write_async (io : WriteIo) (fio : FlushIo) (mutation : Mutation)
    (e : WriteEngine) (d : Disk) : WriteEngine * Disk * result Error unit :=
  match write_into_memtable io mutation e with
  | (e, Err err) => (e, d, Err err)
  | (e, Ok _) => if over_threshold e then then_flush fio e d else (e, d, Ok tt)
  end.

(** The loops of [execute] and [execute_flushing], over the mutations of the parsed
    statement; each mutation comes with the outcomes of its I/O. *)
Fixpoint execute_loop (in_runtime : bool) (mutations : list (Mutation * WriteIo * FlushIo))
    (e : WriteEngine) (d : Disk) : WriteEngine * Disk * result Error unit :=
  match mutations with
  | [] => (e, d, Ok tt)
  | (mutation, io, fio) :: mutations =>
      match write io fio in_runtime mutation e d with
      | (e, d, Ok _) => execute_loop in_runtime mutations e d
      | (e, d, Err err) => (e, d, Err err)
      end
  end.

Definition execute_inner_counted (in_runtime : bool)
    (parsed : result Error (list (Mutation * WriteIo * FlushIo))) (e : WriteEngine) (d : Disk)
    : WriteEngine * Disk * result Error Z :=
  if closed e then (e, d, Err InvalidInput)
  else match parsed with
  | Err err => (e, d, Err err)
  | Ok mutations =>
      match execute_loop in_runtime mutations e d with
      | (e, d, Ok _) => (e, d, Ok (zlen mutations))
      | (e, d, Err err) => (e, d, Err err)
      end
  end.

Fixpoint execute_flushing_loop (mutations : list (Mutation * WriteIo * FlushIo))
    (e : WriteEngine) (d : Disk) : WriteEngine * Disk * result Error unit :=
  match mutations with
  | [] => (e, d, Ok tt)
  | (mutation, io, fio) :: mutations =>
      match write_async io fio mutation e d with
      | (e, d, Ok _) => execute_flushing_loop mutations e d
      | (e, d, Err err) => (e, d, Err err)
      end
  end.

Definition execute_flushing (parsed : result Error (list (Mutation * WriteIo * FlushIo)))
    (e : WriteEngine) (d : Disk) : WriteEngine * Disk * result Error Z :=
  if closed e then (e, d, Err InvalidInput)
  else match parsed with
  | Err err => (e, d, Err err)
  | Ok mutations =>
      match execute_flushing_loop mutations e d with
      | (e, d, Ok _) => (e, d, Ok (zlen mutations))
      | (e, d, Err err) => (e, d, Err err)
      end
  end.

(** *** The close *)

(** The sync at the end may fail without failing the close. *)
Definition close (fio : FlushIo) (flush_fault : WriteFault) (sync_ok : bool)
    (e : WriteEngine) (d : Disk) : WriteEngine * Disk * result Error unit :=
  if closed e then (e, d, Ok tt)
  else
    let e := with_closed e true in
    let '(e, d, r) :=
      if negb (memtable_is_empty (memtable e)) then
        match flush_internal_async fio e d with
        | (e, d, Ok _) => (e, d, Ok tt)
        | (e, d, Err err) => (with_closed e false, d, Err err)
        end
      else (e, d, Ok tt) in
    match r with
    | Err err => (e, d, Err err)
    | Ok _ => (with_wal e (fst (sync flush_fault sync_ok (wal e))), d, Ok tt)
    end.

(** *** Startup *)

(** [oi_flush] to [oi_dir] are the outcomes inside [reset_to_valid_prefix]. *)
Record OpenIo := mkOpenIo {
  oi_data_created : bool;
  oi_wal_created : bool;
  oi_dir_sync : Path -> bool;
  oi_lock_file : bool;
  oi_lock : bool;
  oi_preserve : bool;
  oi_flush : WriteFault;
  oi_trim : bool;
  oi_sync : bool;
  oi_dir : bool;
}.
Definition open_ok : OpenIo :=
  mkOpenIo true true (fun _ => true) true true true None true true true.

(** The closure of the replay: the memtable, and the first error of an application. *)
Definition apply_recovered (schema : TableSchema) (s : Memtable * option Error) (mutation : Mutation)
    : result Error (Memtable * option Error) :=
  match s with
  | (memtable, Some err) => Ok (memtable, Some err)
  | (memtable, None) =>
      match decorated_key from_data_type mutation schema with
      | Ok k => Ok (insert_with_key memtable k mutation, None)
      | Err err => Ok (memtable, Some err)
      end
  end.

(** [wal_file] is the log found on disk, [entries] the data directory after the sweep.
    [None] is a reader that does not end, which [recovery_exact] excludes. *)
Definition new (io : OpenIo) (now : Z) (config : WriteEngineConfig) (wal_file : option (list Z))
    (entries : list Entry) : option (result Error WriteEngine) :=
  match create_dir_all_durable (oi_data_created io) (oi_dir_sync io) (data_dir config) with
  | Err err => Some (Err err)
  | Ok _ =>
  match create_dir_all_durable (oi_wal_created io) (oi_dir_sync io) (wal_dir config) with
  | Err err => Some (Err err)
  | Ok _ =>
  if negb (oi_lock_file io) then Some (Err Storage)
  else if negb (oi_lock io) then Some (Err WriteDirLocked)
  else
  let opened :=
    match wal_file with
    | Some old => open_existing old
    | None => Some create
    end in
  match opened with
  | None => None
  | Some w =>
  match replay_each (apply_recovered (schema config)) (content (file w)) (memtable_new now, None) with
  | None => None
  | Some (Err err) => Some (Err err)
  | Some (Ok (memtable, apply_error, report)) =>
  let '(w, r) :=
    if is_clean report then (w, Ok None)
    else if negb (oi_preserve io) then (w, Err Storage)
    else reset_to_valid_prefix (oi_flush io) (oi_trim io) (oi_sync io) (oi_dir io) w in
  match r with
  | Err err => Some (Err err)
  | Ok _ =>
  match apply_error with
  | Some err => Some (Err err)
  | None =>
  let generation := determine_next_generation (Some entries) in
  match
    if auto_compaction config
    then stcs_policy_new (compaction_min_threshold config) (compaction_max_threshold config)
    else Ok tt
  with
  | Err err => Some (Err err)
  | Ok _ =>
      Some (Ok (mkEngine config w memtable report generation false (auto_compaction config) 0 0 0 false))
  end end end end end end end.
End Engine.
