(* ===== verification/EngineProps.v ===== *)
(** What the write engine guarantees: acknowledged writes survive crashes, the memtable
    stays within its limit. *)

From S2P Require Import Prelude Values Keys Mutation Wal WalProps Memtable Durability Generations.
From S2P Require Import Engine.

Open Scope Z_scope.

Lemma subseteq_weaken {A} (l k : list A) x : l ⊆ k -> l ⊆ k ++ [x].
Proof. intros H y Hy. apply elem_of_app. left. auto. Qed.

Lemma subseteq_snoc {A} (l k : list A) x : l ⊆ k -> l ++ [x] ⊆ k ++ [x].
Proof. intros H y [Hy|Hy]%elem_of_app; apply elem_of_app; auto. Qed.

#[local] Hint Resolve subseteq_weaken subseteq_snoc : core.

(** ** The log through the engine's operations *)

Section Log.
Context {HC : Crc32} {HB : Bincode} {HL : BincodeLaws}.

(** The log holds only attempted mutations. What is durable either is the beginning of
    what is written, and covers every acknowledged mutation that is not stored elsewhere,
    or it is left over from before a truncation, when all of them are stored. *)
Definition covered (w : WriteAheadLog) (ps psd : list (list Z)) (msd acked : list Mutation)
    (stored : Mutation -> Prop) : Prop :=
  (psd `prefix_of` ps /\ durable (file w) `prefix_of` content (file w)
   /\ forall m, m ∈ acked -> stored m \/ m ∈ msd)
  \/ (forall m, m ∈ acked -> stored m).

Definition log_inv (w : WriteAheadLog) (attempted acked : list Mutation) (stored : Mutation -> Prop)
    : Prop :=
  exists ms ps msd psd,
    logged ms ps /\ ms ⊆ attempted /\ all_bytes (file w) = log ps
    /\ (poisoned w = true /\ current_size w = 0 \/ ready w ps)
    /\ logged msd psd /\ msd ⊆ attempted /\ durable (file w) = log psd
    /\ covered w ps psd msd acked stored.

Lemma log_inv_weaken w att att' acked acked' (stored stored' : Mutation -> Prop) :
  att ⊆ att' -> acked' ⊆ acked -> (forall m, m ∈ acked' -> stored m -> stored' m) ->
  log_inv w att acked stored -> log_inv w att' acked' stored'.
Proof.
  intros Ha Hk Hs (ms & ps & msd & psd & L1 & L2 & L3 & L4 & L5 & L6 & L7 & L8).
  exists ms, ps, msd, psd. split_and!; try done; [by etrans..|].
  destruct L8 as [(P1 & P2 & P3)|P]; [left; split_and!; try done|right; auto].
  intros m Hm. destruct (P3 m (Hk m Hm)); auto.
Qed.

Lemma logged_snoc ms ps m p : logged ms ps -> json_free_mutation m = true -> serialize m = Some p -> fits p -> logged (ms ++ [m]) (ps ++ [p]).
Proof. intros Hl Hj Hs Hf. apply Forall2_app; [done|]. by repeat constructor. Qed.

Lemma logged_inj ms ms' ps : logged ms ps -> logged ms' ps -> ms = ms'.
Proof. intros [E1 _]%logged_decode [E2 _]%logged_decode. congruence. Qed.

Lemma logged_prefix ms ps ms' ps' : logged ms ps -> logged ms' ps' -> ps `prefix_of` ps' -> ms ⊆ ms'.
Proof.
  intros Hl Hl' [k ->]. apply Forall2_app_inv_r in Hl' as (l1 & l2 & Hl1 & _ & ->).
  rewrite (logged_inj ms l1 ps Hl Hl1). intros m Hm. apply elem_of_app. by left.
Qed.

Lemma append_poisoned io m w : poisoned w = true -> append io m w = (w, Err Storage).
Proof. intros Hp. unfold append. by rewrite Hp. Qed.

Lemma sync_poisoned f ok w : poisoned w = true -> sync f ok w = (w, Err Storage).
Proof. intros Hp. unfold sync. by rewrite Hp. Qed.

(** A sync keeps the invariant; one that succeeds makes everything written durable. *)
Lemma sync_inv fault ok w att acked stored w' r :
  log_inv w att acked stored -> sync fault ok w = (w', r) -> log_inv w' att acked stored.
Proof.
  intros (ms & ps & msd & psd & L1 & L2 & L3 & [[L4 L4']|L4] & L5 & L6 & L7 & L8) E.
  { rewrite sync_poisoned in E by done. injection E as <- <-. exists ms, ps, msd, psd. split_and!; try done. by left. }
  pose proof (sync_content_prefix fault ok w w' r ps L4 E) as Hc.
  destruct (sync_ready _ _ _ _ _ _ L4 E) as (Hr & Hok & Herr & _).
  assert (Hall : all_bytes (file w') = log ps) by (by destruct Hr as (_ & _ & _ & ? & _)).
  destruct (decide (r = Ok tt)) as [->|Hne].
  - destruct (Hok eq_refl) as (Ec & Ed & _). exists ms, ps, ms, ps. split_and!; try done; [by right|].
    destruct L8 as [(P1 & _ & P3)|P]; [left|by right]. split_and!; [done|by rewrite Ec, Ed|].
    intros m Hm. destruct (P3 m Hm); [by left|right]. by eapply logged_prefix.
  - specialize (Herr Hne). exists ms, ps, msd, psd. split_and!; try done; [by right|by rewrite Herr|].
    destruct L8 as [(P1 & P2 & P3)|P]; [left|by right]. rewrite Herr. split_and!; [done|by etrans|done].
Qed.

(** A write that goes through the log. *)
Lemma log_write_inv io m w att acked stored w' r :
  log_inv w att acked stored -> json_free_mutation m = true -> append_torn (wi_append io) m w = false ->
  log_write io m w = (w', r) ->
  log_inv w' (att ++ [m]) (match r with Ok _ => acked ++ [m] | Err _ => acked end) stored.
Proof.
  intros (ms & ps & msd & psd & L1 & L2 & L3 & [[L4 L4']|L4] & L5 & L6 & L7 & L8) Hj Ht E; unfold log_write in E.
  { rewrite append_poisoned in E by done. injection E as <- <-.
    exists ms, ps, msd, psd. split_and!; auto. }
  destruct (append (wi_append io) m w) as [w1 r1] eqn:Ea.
  destruct (append_spec _ _ _ _ _ _ L4 Ea Ht) as (Hd & Hc & Hr).
  assert (Hcov : forall ps', ps `prefix_of` ps' -> covered w1 ps' psd msd acked stored).
  { intros ps' Hp. destruct L8 as [(P1 & P2 & P3)|P]; [left|by right]. rewrite Hd. split_and!; [by etrans..|done]. }
  destruct r1 as [u|err].
  2:{ injection E as <- <-. destruct Hr as [_ Hr]. exists ms, ps, msd, psd.
      pose proof Hr as (_ & _ & _ & ? & _). split_and!; auto; try congruence. }
  destruct Hr as (p & Hs & Hf & Hr). pose proof Hr as (_ & _ & _ & Hall & _).
  assert (Hl : logged (ms ++ [m]) (ps ++ [p])) by by apply logged_snoc.
  pose proof (sync_content_prefix _ _ _ _ _ _ Hr E) as Hc2.
  destruct (sync_ready _ _ _ _ _ _ Hr E) as (Hr2 & Hok & Herr & _).
  pose proof Hr2 as (_ & _ & _ & Hall2 & _).
  destruct r as [[]|err].
  - destruct (Hok eq_refl) as (Ec & Ed & _). exists (ms ++ [m]), (ps ++ [p]), (ms ++ [m]), (ps ++ [p]).
    split_and!; auto.
    left. split_and!; [done|by rewrite Ec, Ed|].
    intros m' [Hm|Hm]%elem_of_app; [|right; apply elem_of_app; by right].
    destruct L8 as [(P1 & _ & P3)|P]; [|left; auto].
    destruct (P3 m' Hm) as [|Hin]; [by left|right]. apply elem_of_app. left.
    by eapply (logged_prefix msd psd ms ps).
  - specialize (Herr ltac:(done)). exists (ms ++ [m]), (ps ++ [p]), msd, psd.
    split_and!; auto; try congruence.
    destruct (Hcov (ps ++ [p])) as [(P1 & P2 & P3)|P]; [by apply prefix_app_r|left|by right].
    rewrite Herr, Hd in *. split_and!; [done|by etrans|done].
Qed.

(** The end of a flush: by then every acknowledged mutation is stored. *)
Lemma finalize_inv io dp dd w att acked stored w' r :
  log_inv w att acked stored -> (forall m, m ∈ acked -> stored m) ->
  finalize_flush_durability (H := RealDurabilityBarrier io) dp dd w = (w', r) ->
  log_inv w' att acked stored.
Proof.
  intros (ms & ps & msd & psd & L1 & L2 & L3 & L4 & L5 & L6 & L7 & L8) Hst E.
  assert (Hsame : log_inv w att acked stored) by by exists ms, ps, msd, psd.
  unfold finalize_flush_durability in E. destruct (sync_dirs _) as [[]|err]; [|by simplify_eq].
  destruct (Z.eqb_spec (size w) 0) as [Hz|Hz]; [by simplify_eq|].
  destruct L4 as [[_ L4]|L4]; [done|]. cbn [truncate_wal RealDurabilityBarrier] in E.
  destruct (truncate_checked _ _ _ _ w) as [w1 e] eqn:Et.
  pose proof (truncate_spec _ _ _ _ _ _ _ _ L4 Et) as Ht.
  assert (Hw : w' = w1) by (by destruct e as [[]|]; simplify_eq). subst w'. clear E.
  destruct e as [[e|e]|].
  - destruct Ht as (Hr & Hd & _). pose proof Hr as (_ & _ & _ & ? & _).
    exists ms, ps, msd, psd. split_and!; try done; [by right|congruence|by right].
  - destruct Ht as (Hall & Hsz & _ & Hr & Hd).
    assert (Hnil : logged [] []) by constructor.
    assert (Hsub : [] ⊆ att) by apply list_subseteq_nil.
    assert (Hlive : poisoned w1 = true /\ current_size w1 = 0 \/ ready w1 []) by (destruct Hr; auto).
    destruct Hd as [Hd|Hd]; [exists [], [], [], []|exists [], [], msd, psd];
      split_and!; auto; by right || congruence.
  - destruct Ht as [Hr Hd]. pose proof Hr as (_ & _ & _ & ? & _). exists [], [], [], [].
    assert (Hnil : logged [] []) by constructor. assert (Hsub : [] ⊆ att) by apply list_subseteq_nil.
    split_and!; auto; by right.
Qed.
End Log.

(** ** Crashes and the reopening *)

(** What a crash leaves of a file: what was synced, and any beginning of what was written
    after it; when the file was cut since, the old bytes or any beginning of the new. *)
Inductive crash_image (f : BufFile) : list Z -> Prop :=
| crash_synced : crash_image f (durable f)
| crash_partial img :
    img `prefix_of` content f -> (durable f `prefix_of` content f -> durable f `prefix_of` img) ->
    crash_image f img.

Inductive crash_disk (d : Disk) : Disk -> Prop :=
| crash_loses : crash_disk d (mkDisk (published d) None)
| crash_keeps g rows :
    unsynced d = Some (g, rows) -> crash_disk d (mkDisk (<[g := rows]> (published d)) None).

Section Reopen.
Context {HC : Crc32} {HB : Bincode} {HL : BincodeLaws}.

Lemma log_length_prefix ps qs : ps `prefix_of` qs -> (length (log ps) <= length (log qs))%nat.
Proof. intros [k ->]. rewrite log_app, length_app. lia. Qed.

(** A cut behind the durable records keeps them. *)
Lemma cut_keeps ps psd n t :
  psd `prefix_of` ps -> torn ps n t -> (n <= length ps)%nat ->
  log psd `prefix_of` log (take n ps) ++ t -> psd `prefix_of` take n ps.
Proof.
  intros Hp Ht Hn Hl. destruct (decide (length psd <= n)%nat) as [Hle|Hgt].
  - destruct Hp as [k ->]. rewrite take_app_ge by done. by apply prefix_app_r.
  - exfalso. apply prefix_length in Hl. rewrite length_app in Hl.
    pose proof (prefix_length _ _ Hp) as Hlp.
    destruct (lookup_lt_is_Some_2 ps n) as [q Hq]; [lia|].
    assert (Hsub : take n ps ++ [q] `prefix_of` psd).
    { rewrite <- (take_S_r _ _ _ Hq). destruct Hp as [k ->].
      exists (drop (S n) psd). rewrite take_app_le by lia. by rewrite take_drop. }
    apply log_length_prefix in Hsub. rewrite log_snoc, length_app in Hsub.
    assert (Hlt : (length t < length (frame q))%nat).
    { destruct Ht as [->|(p & Hp' & _ & Hlt)]; [rewrite frame_length; cbn; lia|].
      simplify_eq. unfold zlen in Hlt. lia. }
    lia.
Qed.

(** The log after a crash: readable records of attempted mutations, among them every
    acknowledged one that is not stored elsewhere. *)
Lemma crash_log w att acked stored img :
  log_inv w att acked stored -> crash_image (file w) img ->
  exists ms ps t stop,
    img = log ps ++ t /\ logged ms ps /\ ms ⊆ att /\ stop_at t = Some stop
    /\ forall m, m ∈ acked -> stored m \/ m ∈ ms.
Proof.
  intros (ms & ps & msd & psd & L1 & L2 & L3 & _ & L5 & L6 & L7 & L8) Hi.
  assert (Hcont : content (file w) `prefix_of` log ps) by (rewrite <- L3; by apply prefix_app_r).
  destruct Hi as [|img Hp Hd].
  - exists msd, psd, [], CleanEof. rewrite app_nil_r. split_and!; try done.
    intros m Hm. destruct L8 as [(_ & _ & P)|P]; auto.
  - destruct (cut_log ps img) as (n & t & Hn & -> & Ht); [by etrans|].
    assert (Hln : logged (take n ms) (take n ps)) by by apply Forall2_take.
    exists (take n ms), (take n ps), t, (torn_stop t). split_and!; try done.
    + intros m Hm. apply L2. rewrite <- (take_drop n ms). apply elem_of_app. by left.
    + apply (torn_stop_at ps n); [by eapply logged_fits|done].
    + intros m Hm. destruct L8 as [(P1 & P2 & P3)|P]; [|auto]. destruct (P3 m Hm) as [|Hmd]; [auto|right].
      specialize (Hd P2). rewrite L7 in Hd.
      by apply (logged_prefix msd psd (take n ms) (take n ps) L5 Hln (cut_keeps _ _ _ _ P1 Ht Hn Hd)).
Qed.

Context (from_data_type : string -> result Error ComparatorType).

Definition keyed (schema : TableSchema) (m : Mutation) (k : DecoratedKey) : Prop :=
  decorated_key from_data_type m schema = Ok k.

(** Replaying mutations whose keys are valid inserts them all. *)
Lemma try_fold_recovered schema t ms :
  (forall m, m ∈ ms -> exists k, keyed schema m k) ->
  exists es, map snd es = ms /\ Forall (fun e => keyed schema e.2 e.1) es
    /\ try_fold (apply_recovered from_data_type schema) (t, None) ms = Ok (insert_all t es, None).
Proof.
  revert t. induction ms as [|m ms IH]; intros t Hk.
  { exists []. split_and!; done. }
  destruct (Hk m) as [k Hm]; [by left|].
  destruct (IH (insert_with_key t k m)) as (es & H1 & H2 & H3); [intros; apply Hk; by right|].
  exists ((k, m) :: es). split_and!; [by cbn; f_equal|by constructor|].
  cbn [try_fold apply_recovered]. by rewrite Hm, H3.
Qed.

(** The configured compaction thresholds are in order. *)
Definition policy_ok (config : WriteEngineConfig) : bool :=
  negb (auto_compaction config)
  || is_ok (stcs_policy_new (compaction_min_threshold config) (compaction_max_threshold config)).

(** An engine that starts on the log of [ms] holds them all, on a log that takes writes. *)
Definition recovered (config : WriteEngineConfig) (now : Z) (entries : list Entry)
    (ms : list Mutation) (ps : list (list Z)) (e : WriteEngine) : Prop :=
  Engine.config e = config /\ ready (wal e) ps /\ durable (file (wal e)) = log ps
  /\ content (file (wal e)) = log ps /\ closed e = false
  /\ generation e = determine_next_generation (Some entries)
  /\ exists es, map snd es = ms /\ Forall (fun x => keyed (schema config) x.2 x.1) es
     /\ memtable e = insert_all (memtable_new now) es.

Lemma new_recovers io now config entries ms ps t stop :
  logged ms ps -> stop_at t = Some stop ->
  (forall m, m ∈ ms -> exists k, keyed (schema config) m k) ->
  exists r, new from_data_type io now config (Some (log ps ++ t)) entries = Some r
    /\ match r with
       | Ok e => recovered config now entries ms ps e
       | Err _ => ~ (io = open_ok /\ policy_ok config = true)
       end.
Proof.
  intros Hl Hs Hk. pose proof (logged_fits _ _ Hl) as Hf. destruct (logged_decode _ _ Hl) as [Hdec Hund].
  destruct (try_fold_recovered (schema config) (memtable_new now) ms Hk) as (es & Hes & Hkey & Hfold).
  unfold new.
  destruct (create_dir_all_durable (oi_data_created io) _ _) as [[]|] eqn:E1; cbn beta iota.
  2:{ eexists. split; [done|]. intros [-> _]. unfold create_dir_all_durable in E1. cbn [oi_data_created open_ok negb oi_dir_sync] in E1.
      destruct (forallb _ _) eqn:Ef; [done|]. by rewrite (proj2 (forallb_forall _ _)) in Ef. }
  destruct (create_dir_all_durable (oi_wal_created io) _ _) as [[]|] eqn:E2; cbn beta iota.
  2:{ eexists. split; [done|]. intros [-> _]. unfold create_dir_all_durable in E2. cbn [oi_wal_created open_ok negb oi_dir_sync] in E2.
      destruct (forallb _ _) eqn:Ef; [done|]. by rewrite (proj2 (forallb_forall _ _)) in Ef. }
  destruct (oi_lock_file io) eqn:E3; cbn [negb]; [|eexists; split; [done|]; by intros [-> _]].
  destruct (oi_lock io) eqn:E4; cbn [negb]; [|eexists; split; [done|]; by intros [-> _]].
  assert (Hrep : forall t' stop', stop_at t' = Some stop' ->
    replay_each (apply_recovered from_data_type (schema config)) (log ps ++ t') (memtable_new now, None)
    = Some (Ok (insert_all (memtable_new now) es, None,
        with_bytes_skipped (stopped stop' (mkReport [] 0 false 0)) (zlen t')))).
  { intros t' stop' Hst. rewrite (replay_each_log _ ps t' stop') by done.
    by rewrite apply_try_fold, Hdec, Hfold, Hund. }
  destruct (open_log ps t stop Hf Hs) as (w & Hw & Hcase). rewrite Hw.
  assert (Hfin : forall w', ready w' ps -> durable (file w') = log ps -> content (file w') = log ps ->
    forall report, exists r,
    match (if auto_compaction config
           then stcs_policy_new (compaction_min_threshold config) (compaction_max_threshold config)
           else Ok tt) with
    | Err err => Some (Err err)
    | Ok _ => Some (Ok (mkEngine config w' (insert_all (memtable_new now) es) report
        (determine_next_generation (Some entries)) false (auto_compaction config) 0 0 0 false))
    end = Some r
    /\ match r with
       | Ok e => recovered config now entries ms ps e
       | Err _ => ~ (io = open_ok /\ policy_ok config = true)
       end).
  { intros w' Hr Hd Hc report. destruct (if auto_compaction config then _ else _) as [u|err] eqn:Ep; eexists; (split; [done|]).
    - unfold recovered. cbn. split_and!; try done. by exists es.
    - intros [_ Hp]. unfold policy_ok in Hp. destruct (auto_compaction config); [|done].
      rewrite Ep in Hp. done. }
  destruct Hcase as [(Hnc & Hr & Hd & Hc)|[-> ->]].
  - rewrite Hc, <- (app_nil_r (log ps)), (Hrep [] CleanEof) by done.
    replace (is_clean _) with true by done. cbn beta iota. by apply Hfin.
  - cbn [file content]. rewrite (Hrep t Corruption) by done.
    replace (is_clean _) with false by done.
    destruct (oi_preserve io) eqn:E5; cbn [negb]; [|eexists; split; [done|]; by intros [-> _]].
    destruct (reset_corrupt ps t) as (w' & Hreset & Hr & Hd & Hc).
    { destruct t as [|z t]; [by rewrite (proj2 (stop_nil [])) in Hs|]. unfold zlen. cbn. lia. }
    match goal with |- context [reset_to_valid_prefix ?a ?b ?c ?d ?w] =>
      destruct (reset_to_valid_prefix a b c d w) as [w2 [n|err]] eqn:E6 end; cbn beta iota.
    + pose proof (reset_ok _ _ _ _ _ _ _ E6 eq_refl) as E7.
      assert (w2 = w') as -> by congruence.
      by apply Hfin.
    + eexists. split; [done|]. intros [-> _]. cbn [oi_flush oi_trim oi_sync oi_dir open_ok] in E6. congruence.
Qed.
End Reopen.

(** ** The engine *)

Section Invariant.
Context {HC : Crc32} {HB : Bincode} {HL : BincodeLaws}.
Context (from_data_type : string -> result Error ComparatorType) (cfg : WriteEngineConfig).
Context (Hmode : durability cfg = SyncEachWrite).

Local Abbreviation key_ok m k := (keyed from_data_type (schema cfg) m k).

(** A row in a published SSTable, in one that may not survive, in the memtable. *)
Definition on_disk_at (d : Disk) (k : DecoratedKey) (m : Mutation) : Prop :=
  exists g rows, published d !! g = Some rows /\ (k, m) ∈ flatten rows.
Definition on_disk (d : Disk) (m : Mutation) : Prop := exists k, on_disk_at d k m.
Definition unsynced_at (d : Disk) (k : DecoratedKey) (m : Mutation) : Prop :=
  exists g rows, unsynced d = Some (g, rows) /\ (k, m) ∈ flatten rows.
Definition in_memtable_at (e : WriteEngine) (k : DecoratedKey) (m : Mutation) : Prop :=
  (k, m) ∈ flatten (iter (memtable e)).
Definition in_memtable (e : WriteEngine) (m : Mutation) : Prop := exists k, in_memtable_at e k m.

Record engine_inv (e : WriteEngine) (d : Disk) (attempted acked : list Mutation) : Prop := {
  ei_config : config e = cfg;
  ei_log : log_inv (wal e) attempted acked (on_disk d);
  ei_acked : forall m, m ∈ acked -> on_disk d m \/ in_memtable e m;
  ei_origin : forall k m, on_disk_at d k m \/ unsynced_at d k m \/ in_memtable_at e k m ->
    m ∈ attempted /\ key_ok m k;
  ei_generation : 1 <= generation e;
  ei_published : forall g rows, published d !! g = Some rows -> 0 <= g < generation e;
  ei_unsynced : forall g rows, unsynced d = Some (g, rows) -> g = generation e;
}.

Lemma engine_inv_weaken e d att att' acked acked' :
  att ⊆ att' -> acked' ⊆ acked -> engine_inv e d att acked -> engine_inv e d att' acked'.
Proof.
  intros Ha Hk [I1 I2 I3 I4 I5 I6 I7]. split; try done.
  - eapply log_inv_weaken; [exact Ha|exact Hk|by intros|exact I2].
  - intros m Hm. apply I3. auto.
  - intros k m Hm. destruct (I4 k m Hm). auto.
Qed.

(** The fields the invariant reads are all that matters. *)
Lemma engine_inv_fields e e' d att acked :
  config e' = config e -> wal e' = wal e -> memtable e' = memtable e -> generation e' = generation e ->
  engine_inv e d att acked -> engine_inv e' d att acked.
Proof.
  intros E1 E2 E3 E4 [I1 I2 I3 I4 I5 I6 I7].
  split; unfold in_memtable, in_memtable_at in *; rewrite ?E1, ?E2, ?E3, ?E4; done.
Qed.

Lemma insert_flatten t k m k' m' :
  (k', m') ∈ flatten (iter (insert_with_key t k m)) <-> (k', m') = (k, m) \/ (k', m') ∈ flatten (iter t).
Proof.
  unfold iter, insert_with_key. cbn [data]. by rewrite entry_push_flatten, elem_of_cons.
Qed.

Lemma write_into_memtable_inv io m e d att acked e' r :
  engine_inv e d att acked -> json_free_mutation m = true -> append_torn (wi_append io) m (wal e) = false ->
  write_into_memtable from_data_type io m e = (e', r) ->
  engine_inv e' d (att ++ [m]) (match r with Ok _ => acked ++ [m] | Err _ => acked end).
Proof.
  intros Hi Hj Ht E. pose proof Hi as [I1 I2 I3 I4 I5 I6 I7]. unfold write_into_memtable in E.
  assert (Hsub : att ⊆ att ++ [m]) by (apply subseteq_weaken; done).
  assert (Hsame : engine_inv e d (att ++ [m]) acked) by by eapply engine_inv_weaken.
  destruct (closed e); [by simplify_eq|].
  destruct (reject_counter_cells m); [|by simplify_eq].
  destruct (check_admission e m); [|by simplify_eq].
  rewrite I1, Hmode in E. destruct (log_write io m (wal e)) as [w rw] eqn:Ew.
  pose proof (log_write_inv _ _ _ _ _ _ _ _ I2 Hj Ht Ew) as Hlog.
  assert (Hw : forall acked', acked' ⊆ acked -> log_inv w (att ++ [m]) acked' (on_disk d) ->
    engine_inv (with_wal e w) d (att ++ [m]) acked').
  { intros acked' Hk Hlog'. split; try done.
    - intros m' Hm'. apply I3. auto.
    - intros k m' Hm'. destruct (I4 k m' Hm'). auto. }
  destruct rw as [u|err]; [|simplify_eq; by apply Hw].
  assert (Hlog' : log_inv w (att ++ [m]) acked (on_disk d)).
  { apply (log_inv_weaken w _ _ (acked ++ [m]) acked (on_disk d) _ ltac:(reflexivity)); auto. }
  cbn [config with_wal] in E. rewrite I1 in E. destruct (decorated_key _ m _) as [k|err] eqn:Ek; [|simplify_eq; by apply Hw].
  injection E as <- <-. destruct (Hw acked ltac:(done) Hlog') as [J1 J2 J3 J4 J5 J6 J7].
  split; try done.
  - intros m' [Hm'|Hm']%elem_of_app.
    + destruct (J3 m' Hm') as [|[k' Hin]]; [by left|right]. exists k'. apply insert_flatten. by right.
    + apply list_elem_of_singleton in Hm' as ->. right. exists k. apply insert_flatten. by left.
  - intros k' m' [Hm'|[Hm'|Hm']]; [apply J4; auto..|].
    apply insert_flatten in Hm' as [Hm'|Hm']; [|apply J4; auto]. simplify_eq. split; [|done].
    apply elem_of_app. right. by left.
Qed.

Lemma flush_inv io e d att acked e' d' r :
  engine_inv e d att acked -> flush_internal_async io e d = (e', d', r) ->
  engine_inv e' d' att acked.
Proof.
  intros Hi E. pose proof Hi as [I1 I2 I3 I4 I5 I6 I7]. unfold flush_internal_async in E.
  destruct (memtable_is_empty (memtable e)); [by simplify_eq|].
  destruct (fi_info io) as [info|].
  2:{ injection E as <- <- _. split; try done. intros k m [Hm|[(g & rows & Hu & _)|Hm]]; auto; done. }
  destruct (finalize_flush_durability _ _ (wal e)) as [w [outcome|err]] eqn:Ef.
  - injection E as <- <- _.
    assert (Hgrow : forall k m, on_disk_at d k m -> on_disk_at (sstable_synced d (generation e) (iter (memtable e))) k m).
    { intros k m (g & rows & Hg & Hin). exists g, rows. split; [|done]. cbn.
      rewrite lookup_insert_ne; [done|]. specialize (I6 _ _ Hg). lia. }
    assert (Hnew : forall k m, on_disk_at (sstable_synced d (generation e) (iter (memtable e))) k m ->
      on_disk_at d k m \/ in_memtable_at e k m).
    { intros k m (g & rows & Hg & Hin). cbn in Hg. destruct (decide (g = generation e)) as [->|Hne].
      - rewrite lookup_insert in Hg. rewrite decide_True in Hg by done. simplify_eq. by right.
      - rewrite lookup_insert_ne in Hg by done. left. by exists g, rows. }
    assert (Hall : forall m, m ∈ acked -> on_disk (sstable_synced d (generation e) (iter (memtable e))) m).
    { intros m Hm. destruct (I3 m Hm) as [[k Hk]|[k Hk]]; exists k; [by apply Hgrow|].
      exists (generation e), (iter (memtable e)). split; [|done]. cbn. rewrite lookup_insert. by rewrite decide_True. }
    split; cbn [config flushed generation unsynced sstable_synced published wal].
    + done.
    + eapply finalize_inv; [|exact Hall|exact Ef].
      apply (log_inv_weaken _ att att acked acked (on_disk d)); auto.
    + intros m Hm. left. by apply Hall.
    + intros k m [Hm|[(g & rows & Hu & _)|Hm]]; [|done|].
      * destruct (Hnew k m Hm); apply I4; auto.
      * unfold in_memtable_at in Hm. cbn in Hm. by apply elem_of_nil in Hm.
    + lia.
    + intros g rows Hg. destruct (decide (g = generation e)) as [->|Hne]; [lia|].
      rewrite lookup_insert_ne in Hg by done. specialize (I6 _ _ Hg). lia.
    + done.
  - injection E as <- <- _.
    assert (w = wal e) as ->.
    { unfold finalize_flush_durability in Ef. destruct (sync_dirs _) as [[]|]; [|by simplify_eq].
      destruct (_ =? _); [done|]. by destruct (truncate_wal _) as [? [[]|]]. }
    split; try done; cbn [unsynced sstable_finished].
    + intros k m [Hm|[(g & rows & Hu & Hin)|Hm]]; [apply I4; auto| |apply I4; auto].
      cbn in Hu. simplify_eq. apply I4. by right; right.
    + intros g rows [= <- _]. done.
Qed.

Lemma then_flush_inv io e d att acked e' d' r :
  engine_inv e d att acked -> then_flush io e d = (e', d', r) -> engine_inv e' d' att acked.
Proof.
  intros Hi. unfold then_flush. destruct (flush_internal_async io e d) as [[e1 d1] r1] eqn:E.
  pose proof (flush_inv _ _ _ _ _ _ _ _ Hi E). by destruct r1; intros [= <- <- _].
Qed.

(** Either kind of write: what is acknowledged has been inserted. *)
Lemma finish_write_inv (flush : bool) fio e d att acked m e' d' r (t : WriteEngine -> WriteEngine) :
  (forall e, engine_inv e d (att ++ [m]) (acked ++ [m]) -> engine_inv (t e) d (att ++ [m]) (acked ++ [m])) ->
  engine_inv e d (att ++ [m]) (acked ++ [m]) ->
  (if flush then then_flush fio (t e) d else (t e, d, Ok tt)) = (e', d', r) ->
  engine_inv e' d' (att ++ [m]) (match r with Ok _ => acked ++ [m] | Err _ => acked end).
Proof.
  intros Ht Hi%Ht E. assert (Hi' : engine_inv e' d' (att ++ [m]) (acked ++ [m])).
  { destruct flush; [by eapply then_flush_inv|by simplify_eq]. }
  destruct r; [done|]. eapply engine_inv_weaken; [done| |exact Hi']. auto.
Qed.

Lemma write_inv io fio in_runtime m e d att acked e' d' r :
  engine_inv e d att acked -> json_free_mutation m = true -> append_torn (wi_append io) m (wal e) = false ->
  write from_data_type io fio in_runtime m e d = (e', d', r) ->
  engine_inv e' d' (att ++ [m]) (match r with Ok _ => acked ++ [m] | Err _ => acked end).
Proof.
  intros Hi Hj Ht E. unfold write in E.
  destruct (write_into_memtable _ io m e) as [e1 [u|err]] eqn:Ew;
    pose proof (write_into_memtable_inv _ _ _ _ _ _ _ _ Hi Hj Ht Ew) as Hi1; [|by simplify_eq].
  assert (Hwarn : forall e, engine_inv e d (att ++ [m]) (acked ++ [m]) ->
    engine_inv (warn e) d (att ++ [m]) (acked ++ [m]))
    by (intros e0 ?; by apply (engine_inv_fields e0)).
  destruct (over_threshold e1).
  - apply (finish_write_inv (negb in_runtime) fio e1 d att acked m e' d' r warn); [done..|].
    by destruct in_runtime.
  - by apply (finish_write_inv false fio e1 d att acked m e' d' r id).
Qed.

Lemma write_async_inv io fio m e d att acked e' d' r :
  engine_inv e d att acked -> json_free_mutation m = true -> append_torn (wi_append io) m (wal e) = false ->
  write_async from_data_type io fio m e d = (e', d', r) ->
  engine_inv e' d' (att ++ [m]) (match r with Ok _ => acked ++ [m] | Err _ => acked end).
Proof.
  intros Hi Hj Ht E. unfold write_async in E.
  destruct (write_into_memtable _ io m e) as [e1 [u|err]] eqn:Ew;
    pose proof (write_into_memtable_inv _ _ _ _ _ _ _ _ Hi Hj Ht Ew) as Hi1; [|by simplify_eq].
  by apply (finish_write_inv (over_threshold e1) fio e1 d att acked m e' d' r id).
Qed.

Lemma close_inv fio fault ok e d att acked e' d' r :
  engine_inv e d att acked -> close fio fault ok e d = (e', d', r) -> engine_inv e' d' att acked.
Proof.
  intros Hi E. unfold close in E. destruct (closed e); [by simplify_eq|].
  assert (Hc : engine_inv (with_closed e true) d att acked) by by apply (engine_inv_fields e).
  assert (Hsync : forall e d, engine_inv e d att acked ->
    engine_inv (with_wal e (fst (sync fault ok (wal e)))) d att acked).
  { intros e0 d0 [I1 I2 I3 I4 I5 I6 I7]. split; try done. cbn [wal with_wal].
    destruct (sync fault ok (wal e0)) as [w rs] eqn:Es. by eapply sync_inv. }
  destruct (negb _); [|injection E as <- <- _; by apply (Hsync (with_closed e true))].
  destruct (flush_internal_async fio _ d) as [[e1 d1] [i|err]] eqn:Ef;
    pose proof (flush_inv _ _ _ _ _ _ _ _ Hc Ef) as Hf; injection E as <- <- _; [by apply (Hsync e1)|].
  by apply (engine_inv_fields e1).
Qed.

(** The listing shows every published SSTable, its generation a [u64]. *)
Definition lists_disk (entries : list Entry) (d : Disk) : Prop :=
  forall g rows, published d !! g = Some rows ->
    g <= u64_MAX /\ within MAX_SSTABLE_SCAN_DEPTH entries (component_name g "Data.db").

Lemma restart_inv io now entries img e d d' att acked :
  engine_inv e d att acked -> (forall m, m ∈ att -> exists k, key_ok m k) ->
  crash_image (file (wal e)) img -> crash_disk d d' -> lists_disk entries d' ->
  exists r, new from_data_type io now cfg (Some img) entries = Some r
    /\ match r with
       | Ok e' => engine_inv e' d' att acked
       | Err _ => ~ (io = open_ok /\ policy_ok cfg = true)
       end.
Proof.
  intros [I1 I2 I3 I4 I5 I6 I7] Hkey Hi Hd Hls.
  destruct (crash_log _ _ _ _ _ I2 Hi) as (ms & ps & t & stop & -> & Hl & Hms & Hs & Hcov).
  destruct (new_recovers from_data_type io now cfg entries ms ps t stop Hl Hs) as (r & Hr & Hcase).
  { intros m Hm. apply Hkey. auto. }
  exists r. split; [done|]. destruct r as [e'|err]; [|done].
  destruct Hcase as (E1 & Hrd & Ed & Ec & Ecl & Eg & es & Hes & Hk & Em).
  assert (Hgrow : forall k m, on_disk_at d k m -> on_disk_at d' k m).
  { intros k m (g & rows & Hg & Hin). exists g, rows. split; [|done].
    destruct Hd as [|g' rows' Hu]; [done|]. cbn. rewrite lookup_insert_ne; [done|].
    apply I7 in Hu as ->. apply I6 in Hg. lia. }
  assert (Hold : forall k m, on_disk_at d' k m -> on_disk_at d k m \/ unsynced_at d k m).
  { intros k m (g & rows & Hg & Hin). destruct Hd as [|g' rows' Hu]; cbn in Hg; [left; by exists g, rows|].
    destruct (decide (g = g')) as [->|Hne].
    - rewrite lookup_insert in Hg. rewrite decide_True in Hg by done. simplify_eq. right. by exists g', rows.
    - rewrite lookup_insert_ne in Hg by done. left. by exists g, rows. }
  assert (Hmem : forall k m, in_memtable_at e' k m <-> (k, m) ∈ es).
  { intros k m. unfold in_memtable_at. by rewrite Em, insert_all_flatten. }
  assert (Hstored : forall m, on_disk d m -> on_disk d' m) by (intros m [k Hm]; exists k; auto).
  assert (Hack : forall m, m ∈ acked -> on_disk d' m \/ m ∈ ms).
  { intros m Hm. destruct (Hcov m Hm); auto. }
  pose proof Hrd as (_ & _ & _ & Hall & _). split; [done| | | | | |].
  - exists ms, ps, ms, ps. split_and!; auto. left. split_and!; [done|by rewrite Ed, Ec|done].
  - intros m Hm. destruct (Hack m Hm) as [|Hin]; [by left|right]. rewrite <- Hes in Hin.
    apply list_elem_of_fmap in Hin as ([k m'] & -> & Hin). exists k. by apply Hmem.
  - intros k m [Hm|[(g & rows & Hu & _)|Hm]].
    + destruct (Hold k m Hm); apply I4; auto.
    + by destruct Hd.
    + apply Hmem in Hm. rewrite Forall_forall in Hk. split; [|by apply (Hk (k, m))].
      apply Hms. rewrite <- Hes. apply list_elem_of_fmap. by exists (k, m).
  - rewrite Eg. apply next_generation_pos.
  - intros g rows Hg. destruct (Hls g rows Hg) as [Hmax Hw].
    assert (0 <= g).
    { destruct Hd as [|g' rows' Hu]; [by apply I6 in Hg as []|]. cbn in Hg.
      destruct (decide (g = g')) as [->|Hne]; [apply I7 in Hu; lia|].
      rewrite lookup_insert_ne in Hg by done. by apply I6 in Hg as []. }
    split; [done|]. rewrite Eg. eapply next_generation_above; [|exact Hw]. done.
  - by destruct Hd.
Qed.

Lemma initial_inv io now entries e :
  new from_data_type io now cfg None entries = Some (Ok e) -> engine_inv e (mkDisk ∅ None) [] [].
Proof.
  unfold new. destruct (create_dir_all_durable _ _ _); [|done]. destruct (create_dir_all_durable _ _ _); [|done].
  destruct (negb _); [done|]. destruct (negb _); [done|].
  change (replay_each _ (content (file create)) ?s) with (Some (Ok (E := Error) (s, report_default))).
  cbn [is_clean report_default rr_corrupt_entries rr_stopped_early Z.eqb negb andb].
  destruct (if auto_compaction cfg then _ else _); [|done]. intros [= <-].
  split; cbn; try done.
  - assert (Hnil : logged [] []) by constructor.
    assert (Hsub : ([] : list Mutation) ⊆ []) by done.
    assert (Hr : ready create []) by (split_and!; try done; by right).
    exists [], [], [], []. split_and!; auto. right. by intros m Hm%elem_of_nil.
  - by intros m Hm%elem_of_nil.
  - intros k m [(g & rows & Hg & _)|[(g & rows & Hg & _)|Hm]]; [cbn in Hg; by rewrite lookup_empty in Hg|done|].
    by apply elem_of_nil in Hm.
  - apply next_generation_pos.
Qed.
End Invariant.

(** ** Any run with crashes *)

Section Runs.
Context {HC : Crc32} {HB : Bincode}.
Context (from_data_type : string -> result Error ComparatorType) (cfg : WriteEngineConfig).

(** The engine and the disk, with the mutations given to it and those it acknowledged. *)
Record Sys := mkSys {
  engine : WriteEngine;
  disk : Disk;
  attempted : list Mutation;
  acked : list Mutation;
}.

Definition attempt (m : Mutation) (r : result Error unit) (s : Sys) (e : WriteEngine) (d : Disk) : Sys :=
  mkSys e d (attempted s ++ [m]) (match r with Ok _ => acked s ++ [m] | Err _ => acked s end).

(** Writes of no JSON value, whose record is not torn and whose key is valid, with any other
    I/O faults; flushes, closes; and a crash at any time, followed by a start that succeeds. *)
Inductive step (s : Sys) : Sys -> Prop :=
| step_write io fio in_runtime m e d r :
    json_free_mutation m = true -> append_torn (wi_append io) m (wal (engine s)) = false ->
    (exists k, decorated_key from_data_type m (schema cfg) = Ok k) ->
    write from_data_type io fio in_runtime m (engine s) (disk s) = (e, d, r) ->
    step s (attempt m r s e d)
| step_write_async io fio m e d r :
    json_free_mutation m = true -> append_torn (wi_append io) m (wal (engine s)) = false ->
    (exists k, decorated_key from_data_type m (schema cfg) = Ok k) ->
    write_async from_data_type io fio m (engine s) (disk s) = (e, d, r) ->
    step s (attempt m r s e d)
| step_flush fio e d r :
    flush fio (engine s) (disk s) = (e, d, r) -> step s (mkSys e d (attempted s) (acked s))
| step_close fio fault sync_ok e d r :
    close fio fault sync_ok (engine s) (disk s) = (e, d, r) -> step s (mkSys e d (attempted s) (acked s))
| step_restart img d io now entries e :
    crash_image (file (wal (engine s))) img -> crash_disk (disk s) d -> lists_disk entries d ->
    new from_data_type io now cfg (Some img) entries = Some (Ok e) ->
    step s (mkSys e d (attempted s) (acked s)).

Inductive reachable : Sys -> Prop :=
| reachable_new io now entries e :
    new from_data_type io now cfg None entries = Some (Ok e) ->
    reachable (mkSys e (mkDisk ∅ None) [] [])
| reachable_step s s' : reachable s -> step s s' -> reachable s'.

Lemma reachable_inv {HL : BincodeLaws} s :
  durability cfg = SyncEachWrite -> reachable s ->
  engine_inv from_data_type cfg (engine s) (disk s) (attempted s) (acked s)
  /\ forall m, m ∈ attempted s -> exists k, keyed from_data_type (schema cfg) m k.
Proof.
  intros Hmode. induction 1 as [io now entries e Hn|s s' _ [Hi Hk] Hs].
  { split; [by eapply initial_inv|]. by intros m Hm%elem_of_nil. }
  assert (Hk' : forall m, (exists k, decorated_key from_data_type m (schema cfg) = Ok k) ->
    forall m', m' ∈ attempted s ++ [m] -> exists k, keyed from_data_type (schema cfg) m' k).
  { intros m Hm m' [Hin|Hin]%elem_of_app; [by apply Hk|]. by apply list_elem_of_singleton in Hin as ->. }
  destruct Hs as [| | | |img d io now entries e Himg Hd Hls Hnew]; cbn [engine disk attempted acked attempt].
  - split; [|by apply Hk']. eapply write_inv; [exact Hmode|exact Hi|eassumption..].
  - split; [|by apply Hk']. eapply write_async_inv; [exact Hmode|exact Hi|eassumption..].
  - split; [|done]. unfold flush in *. destruct (closed (engine s)); [by simplify_eq|].
    eapply flush_inv; [exact Hi|eassumption].
  - split; [|done]. eapply close_inv; [exact Hi|eassumption].
  - split; [|done].
    destruct (restart_inv _ _ Hmode io now entries img _ _ d _ _ Hi Hk Himg Hd Hls) as (r & Hr & Hcase).
    assert (r = Ok e) as -> by congruence. done.
Qed.

(** C1: No acknowledged write is lost. The engine syncs the log at each write
    ([SyncEachWrite]) and its compaction thresholds are in order, if it compacts. In any run of writes, flushes and closes with any
    I/O faults, crashes and restarts, as long as no record is torn by a failed append and
    every mutation has a valid key and holds no JSON value (which bincode writes into the log
    and cannot read back, so that such a write is acknowledged and lost): each acknowledged
    mutation is at all times in a published SSTable or in the memtable; after a crash at any
    moment, whatever part of the unsynced bytes and of an unsynced SSTable it leaves, the
    engine starts again, when its own I/O succeeds and the listing shows the published
    SSTables, with generations of 64 bits, and
    every acknowledged mutation is in an SSTable or recovered into the memtable; nothing
    is there that was not written, and everything is under its own key. *)
Theorem acknowledged_writes_survive {HL : BincodeLaws} s img d now entries
    (Hmode : durability cfg = SyncEachWrite) (Hpolicy : policy_ok cfg = true) (Hs : reachable s)
    (Himg : crash_image (file (wal (engine s))) img) (Hd : crash_disk (disk s) d)
    (Hls : lists_disk entries d) :
  (forall m, m ∈ acked s -> on_disk (disk s) m \/ in_memtable (engine s) m)
  /\ exists e, new from_data_type open_ok now cfg (Some img) entries = Some (Ok e)
     /\ (forall m, m ∈ acked s -> on_disk d m \/ in_memtable e m)
     /\ (forall k m, on_disk_at d k m \/ in_memtable_at e k m ->
           m ∈ attempted s /\ decorated_key from_data_type m (schema cfg) = Ok k)
     /\ (forall g rows, published d !! g = Some rows -> g < generation e).
Proof.
  destruct (reachable_inv s Hmode Hs) as [Hi Hk]. split; [by destruct Hi|].
  destruct (restart_inv from_data_type cfg Hmode open_ok now entries img _ _ d _ _ Hi Hk Himg Hd Hls)
    as (r & Hr & Hcase). destruct r as [e|err]; [|by destruct Hcase].
  exists e. split; [done|]. destruct Hcase as [I1 I2 I3 I4 I5 I6 I7]. split; [done|]. split.
  - intros k m [Hm|Hm]; apply I4; auto.
  - intros g rows Hg. by apply I6 in Hg as [].
Qed.
End Runs.

(** ** Admission *)

Section Admission.
Context {HC : Crc32} {HB : Bincode} (from_data_type : string -> result Error ComparatorType).

Lemma check_admission_ok e m :
  0 <= size_bytes (memtable e) ->
  check_admission e m
    = if bool_decide (mutation_size m <> usize_MAX
        /\ sat_add64 (size_bytes (memtable e)) (mutation_size m) <= memtable_hard_limit (config e))
      then Ok tt else Err Storage.
Proof.
  intros Hs. unfold check_admission, estimate_mutation_size. pose proof (mutation_size_range m) as Hm.
  destruct (Z.eqb_spec (mutation_size m) usize_MAX) as [E|E].
  { rewrite bool_decide_eq_false_2; [done|]. by intros []. }
  rewrite !Z.gtb_ltb. destruct (Z.ltb_spec (memtable_hard_limit (config e)) (mutation_size m)).
  { rewrite bool_decide_eq_false_2; [done|]. intros [_ ?]. unfold sat_add64, usize_MAX in *. lia. }
  destruct (Z.ltb_spec (memtable_hard_limit (config e))
    (sat_add64 (size_bytes (memtable e)) (mutation_size m))).
  - rewrite bool_decide_eq_false_2; [done|]. intros [_ ?]. lia.
  - by rewrite bool_decide_eq_true_2.
Qed.

(** C32: What a write does, on every branch. A closed engine, a counter cell, a mutation
    whose size cannot be bounded and one that would push the memtable over its hard limit
    are refused with their own errors before anything is touched; a log failure or an
    invalid key leaves the memtable as it was; an accepted mutation is in the memtable
    under its key, is counted, and the memtable is within the limit. *)
Theorem write_into_memtable_exact io m e e' r (Hs : 0 <= size_bytes (memtable e))
    (Hrun : write_into_memtable from_data_type io m e = (e', r)) :
  let admitted := mutation_size m <> usize_MAX
    /\ sat_add64 (size_bytes (memtable e)) (mutation_size m) <= memtable_hard_limit (config e) in
  (closed e = true -> e' = e /\ r = Err InvalidInput)
  /\ (closed e = false -> existsb is_counter_write (m_operations m) = true ->
        e' = e /\ r = Err InvalidOperation)
  /\ (closed e = false -> existsb is_counter_write (m_operations m) = false -> ~ admitted ->
        e' = e /\ r = Err Storage)
  /\ (r <> Ok tt -> e' = with_wal e (wal e'))
  /\ (r = Ok tt -> exists k, decorated_key from_data_type m (schema (config e)) = Ok k /\ admitted
        /\ memtable e' = insert_with_key (memtable e) k m
        /\ rows_written e' = rows_written e + 1
        /\ 0 <= size_bytes (memtable e') <= memtable_hard_limit (config e)
        /\ (durability (config e) = Disabled -> wal e' = wal e)).
Proof.
  cbv zeta. unfold write_into_memtable, reject_counter_cells in Hrun. rewrite check_admission_ok in Hrun by done.
  assert (Hself : with_wal e (wal e) = e) by by destruct e.
  destruct (closed e); [by simplify_eq; split_and!|].
  destruct (existsb _ _); [by simplify_eq; split_and!|].
  case_bool_decide as Ha; [|by simplify_eq; split_and!].
  set (lw := match durability (config e) with SyncEachWrite => _ | Disabled => _ end) in Hrun.
  assert (Hwal : durability (config e) = Disabled -> lw.1 = wal e) by (unfold lw; by intros ->).
  destruct lw as [w [u|err]]; cbn [fst] in Hwal; [|by simplify_eq; split_and!].
  cbn [config with_wal] in Hrun. destruct (decorated_key _ m _) as [k|err] eqn:Ek; [|by simplify_eq; split_and!].
  simplify_eq. split_and!; try done. intros _. exists k. pose proof (mutation_size_range m).
  cbn [memtable count_row with_memtable rows_written with_wal wal insert_with_key size_bytes].
  destruct Ha as [Hn Hle]. split_and!; try done; unfold sat_add64, usize_MAX in *; lia.
Qed.
End Admission.

(** ** Concrete runs *)

Definition int_type (s : string) : result Error ComparatorType := Ok CInt.
Definition sample_schema : TableSchema :=
  mkTableSchema "ks" "t" [mkKeyColumn EmptyString "int" 0] [] [] ∅ ∅.
Definition sample_config : WriteEngineConfig :=
  config_new sample_data_dir [RootDir; Normal "wal"%string] sample_schema.
Definition sample_flush_io : FlushIo :=
  mkFlushIo (Some (mkInfo (sample_leaf ++ [Normal "nb-1-big-Data.db"%string]) 100)) barrier_ok.

(** An engine on an empty directory, and a first write. *)
Definition idle_engine : WriteEngine :=
  mkEngine sample_config create (memtable_new 0) report_default 1 false true 0 0 0 false.
Definition empty_disk : Disk := mkDisk ∅ None.
Definition sample_write : WriteEngine * Disk * result Error unit :=
  write int_type write_ok sample_flush_io true (toy_mutation 5 100) idle_engine empty_disk.
Definition sample_sys : Sys :=
  attempt (toy_mutation 5 100) sample_write.2 (mkSys idle_engine empty_disk [] [])
    sample_write.1.1 sample_write.1.2.

Lemma sample_reachable : reachable int_type sample_config sample_sys.
Proof.
  apply (reachable_step _ _ (mkSys idle_engine empty_disk [] [])).
  - apply (reachable_new _ _ open_ok 0 []). vm_compute. reflexivity.
  - apply (step_write _ _ _ write_ok sample_flush_io true).
    + reflexivity.
    + vm_compute. reflexivity.
    + eexists. vm_compute. reflexivity.
    + cbn [engine disk]. unfold sample_write. by destruct (write _ _ _ _ _ _) as [[]].
Qed.

Lemma sample_acked : acked sample_sys = [toy_mutation 5 100].
Proof. vm_compute. reflexivity. Qed.

Lemma acknowledged_writes_survive_witness :
  exists e, new int_type open_ok 1 sample_config (Some (durable (file (wal (engine sample_sys))))) []
              = Some (Ok e)
    /\ (on_disk empty_disk (toy_mutation 5 100) \/ in_memtable e (toy_mutation 5 100)).
Proof.
  destruct (acknowledged_writes_survive int_type sample_config sample_sys
    (durable (file (wal (engine sample_sys)))) empty_disk 1 []) as (_ & e & He & Hm & _).
  - reflexivity.
  - reflexivity.
  - apply sample_reachable.
  - apply crash_synced.
  - apply crash_loses.
  - intros g rows Hg. cbn in Hg. rewrite lookup_empty in Hg. discriminate.
  - exists e. split; [exact He|]. apply Hm. rewrite sample_acked. apply list_elem_of_here.
Defined.

Lemma write_into_memtable_exact_witness :
  exists e' r, write_into_memtable int_type write_ok (toy_mutation 5 100) idle_engine = (e', r)
    /\ (r <> Ok tt -> e' = with_wal idle_engine (wal e')).
Proof.
  destruct (write_into_memtable int_type write_ok (toy_mutation 5 100) idle_engine) as [e' r] eqn:E.
  exists e', r. split; [reflexivity|].
  assert (Hs : 0 <= size_bytes (memtable idle_engine)) by (cbn; lia).
  destruct (write_into_memtable_exact int_type write_ok (toy_mutation 5 100) idle_engine e' r Hs E)
    as (_ & _ & _ & H & _). exact H.
Defined.

(** A write whose key the schema refuses is rejected only after the log has synced its
    record; the next start replays the record, fails on it, and fails every time. *)
Definition text_type (s : string) : result Error ComparatorType := Ok CText.
Example rejected_write_blocks_startup :
  let '(e, r) := write_into_memtable text_type write_ok (toy_mutation 5 100) idle_engine in
  r = Err InvalidInput
  /\ new text_type open_ok 1 sample_config (Some (durable (file (wal e)))) [] = Some (Err InvalidInput).
Proof. vm_compute. split; reflexivity. Qed.
