(* ===== verification/Stats.v ===== *)
(** Statistics of an SSTable being written: the metadata and its update points
    ([sstable/writer/stats_writer/metadata.rs]), the partition-size and cell-count
    histograms ([estimated_histogram.rs]), the fold of a mutation ([stats_fold.rs]), the
    baselines of a flush ([writer/mod.rs], [write_engine/mod.rs]) and the encoding
    statistics of the header, written ([serialization_header.rs]) and read
    ([parser/enhanced_statistics_parser/encoding_stats.rs]).

    A clock reading is an argument: [now 0] is the reading made for the TTL of the
    mutation, [now (S i)] the one for its [i]-th operation. Counters of observations
    are [Z]: they cannot wrap for fewer than [2^31] of them. *)

From S2P Require Import Prelude Values Keys VInt Mutation.
From Stdlib Require Import SpecFloat.

Open Scope Z_scope.

Definition i32_MIN : Z := - 2 ^ 31.
Definition i32_MAX : Z := 2 ^ 31 - 1.
Definition is_i32 (x : Z) : Prop := i_range 32 x.

(** [i32::saturating_add]. *)
Definition sat_add_i32 (a b : Z) : Z := Z.max i32_MIN (Z.min i32_MAX (a + b)).

(** ** The tombstone drop-time histogram *)

Module TombstoneHistogram.
Definition MAX_BIN_SIZE : Z := 100.

(** The [BTreeMap] of bins: (point, count) by increasing point. *)
Definition bins : Type := list (Z * Z).

(** [*self.bins.entry(key).or_insert(0) += n]. *)
Fixpoint entry_add (key n : Z) (b : bins) : bins :=
  match b with
  | [] => [(key, n)]
  | (k, v) :: b' =>
      if key <? k then (key, n) :: b
      else if key =? k then (k, v + n) :: b'
      else (k, v) :: entry_add key n b'
  end.

(** The scan for the first pair of adjacent keys with the smallest gap. *)
Fixpoint closest_loop (i : nat) (b : bins) (min_gap : Z) (merge_idx : nat) : nat :=
  match b with
  | (k1, _) :: (((k2, _) :: _) as b') =>
      if k2 - k1 <? min_gap then closest_loop (S i) b' (k2 - k1) i
      else closest_loop (S i) b' min_gap merge_idx
  | _ => merge_idx
  end.

Definition merged_key (k1 v1 k2 v2 : Z) : Z :=
  if v1 + v2 =? 0 then Z.quot (k1 + k2) 2 else Z.quot (k1 * v1 + k2 * v2) (v1 + v2).

Definition merge_closest_bins (b : bins) : bins :=
  if (length b <? 2)%nat then b
  else
    let merge_idx := closest_loop 0 b i64_MAX 0 in
    match drop merge_idx b with
    | (k1, v1) :: (k2, v2) :: rest =>
        entry_add (merged_key k1 v1 k2 v2) (v1 + v2) (take merge_idx b ++ rest)
    | _ => b
    end.

(** [while self.bins.len() > MAX_BIN_SIZE]; a merge leaves one bin less, so the number of
    bins is fuel enough. *)
Fixpoint shrink (fuel : nat) (b : bins) : bins :=
  match fuel with
  | O => b
  | S fuel => if MAX_BIN_SIZE <? zlen b then shrink fuel (merge_closest_bins b) else b
  end.

Definition update (ldt : Z) (b : bins) : bins :=
  let b := entry_add ldt 1 b in shrink (length b) b.
End TombstoneHistogram.

(** ** [EstimatedHistogram] *)

Module EstimatedHistogram.
Record EstimatedHistogram := mkEstimatedHistogram { offsets : list Z; counts : list Z }.

(** [(last as f64) * 1.2] and [round() as i64], on binary64. *)
Definition f64_of (z : Z) : spec_float := binary_normalize 53 1024 z 0 false.
Definition f64_1_2 : spec_float := S754_finite false 5404319552844595 (-52).

Definition round_as_i64 (x : spec_float) : Z :=
  match x with
  | S754_finite s m e =>
      let r := if 0 <=? e then Zpos m * 2 ^ e
               else (Zpos m + 2 ^ (- e - 1)) / 2 ^ (- e) in
      Z.max i64_MIN (Z.min i64_MAX (if s then - r else r))
  | S754_infinity s => if s then i64_MIN else i64_MAX
  | S754_zero _ | S754_nan => 0
  end.

Definition next_offset (last : Z) : Z :=
  let next := round_as_i64 (SFmul 53 1024 (f64_of last) f64_1_2) in
  if next =? last then next + 1 else next.

Fixpoint offsets_from (n : nat) (last : Z) : list Z :=
  match n with
  | O => []
  | S n => let next := next_offset last in next :: offsets_from n next
  end.

Definition new_offsets (size : nat) : list Z :=
  match size with O => [] | S n => 1 :: offsets_from n 1 end.

Definition with_offset_count (offset_count : nat) : EstimatedHistogram :=
  let offsets := new_offsets offset_count in
  mkEstimatedHistogram offsets (replicate (S (length offsets)) 0).

Definition partition_size : EstimatedHistogram := with_offset_count 155.
Definition cell_per_partition_count : EstimatedHistogram := with_offset_count 118.

(** [slice::binary_search] on a strictly increasing slice: the index of the element or,
    on a miss, the insertion point; both are the number of elements below [v]. *)
Definition search (v : Z) (l : list Z) : nat := length (filter (fun o => o < v) l).

Definition add (value : Z) (h : EstimatedHistogram) : EstimatedHistogram :=
  let v := Z.min value i64_MAX in
  let idx := search v (offsets h) in
  mkEstimatedHistogram (offsets h) (alter (fun c => sat_add64 c 1) idx (counts h)).

(** The loop of [write_to], [off_idx = i.saturating_sub(1)]; counts are written as [i64]. *)
Definition write_to (h : EstimatedHistogram) : list Z :=
  be_bytes 4 (zlen (counts h)) ++
  concat (imap (fun i count => be_bytes 8 (default i64_MAX (offsets h !! pred i)) ++ be_bytes 8 count)
    (counts h)).

Definition total (h : EstimatedHistogram) : Z := foldl sat_add64 0 (counts h).
End EstimatedHistogram.

(** ** [StatisticsMetadata] *)

Record StatisticsMetadata := mkStatisticsMetadata {
  min_timestamp : Z;
  max_timestamp : Z;
  min_local_deletion_time : Z;
  max_local_deletion_time : Z;
  min_ttl : Z;
  max_ttl : Z;
  partition_count : Z;
  row_count : Z;
  column_count : Z;
  total_rows_size : Z;
  tombstone_histogram : TombstoneHistogram.bins;
  first_key : option (list Z);
  last_key : option (list Z);
  has_partition_level_deletions : bool;
  repaired_at : Z;
  pending_repair : option (list Z);
  is_transient : bool;
  estimated_partition_size : EstimatedHistogram.EstimatedHistogram;
  estimated_cell_count : EstimatedHistogram.EstimatedHistogram;
}.

Definition stats_new : StatisticsMetadata :=
  mkStatisticsMetadata i64_MAX i64_MIN i32_MAX i32_MIN i32_MAX 0 0 0 0 0 [] None None false
    0 None false EstimatedHistogram.partition_size EstimatedHistogram.cell_per_partition_count.

Definition set_ranges (mints maxts minldt maxldt minttl maxttl : Z) (s : StatisticsMetadata) :=
  mkStatisticsMetadata mints maxts minldt maxldt minttl maxttl (partition_count s) (row_count s)
    (column_count s) (total_rows_size s) (tombstone_histogram s) (first_key s) (last_key s)
    (has_partition_level_deletions s) (repaired_at s) (pending_repair s) (is_transient s)
    (estimated_partition_size s) (estimated_cell_count s).

Definition set_timestamps (mn mx : Z) (s : StatisticsMetadata) :=
  set_ranges mn mx (min_local_deletion_time s) (max_local_deletion_time s) (min_ttl s) (max_ttl s) s.

Definition set_ldts (mn mx : Z) (s : StatisticsMetadata) :=
  set_ranges (min_timestamp s) (max_timestamp s) mn mx (min_ttl s) (max_ttl s) s.

Definition set_ttls (mn mx : Z) (s : StatisticsMetadata) :=
  set_ranges (min_timestamp s) (max_timestamp s) (min_local_deletion_time s)
    (max_local_deletion_time s) mn mx s.

Definition set_tombstones (h : TombstoneHistogram.bins) (pld : bool) (s : StatisticsMetadata) :=
  mkStatisticsMetadata (min_timestamp s) (max_timestamp s) (min_local_deletion_time s)
    (max_local_deletion_time s) (min_ttl s) (max_ttl s) (partition_count s) (row_count s)
    (column_count s) (total_rows_size s) h (first_key s) (last_key s) pld (repaired_at s)
    (pending_repair s) (is_transient s) (estimated_partition_size s) (estimated_cell_count s).

Definition set_counts (partitions rows columns : Z) (first last : option (list Z))
    (psize pcells : EstimatedHistogram.EstimatedHistogram) (s : StatisticsMetadata) :=
  mkStatisticsMetadata (min_timestamp s) (max_timestamp s) (min_local_deletion_time s)
    (max_local_deletion_time s) (min_ttl s) (max_ttl s) partitions rows columns
    (total_rows_size s) (tombstone_histogram s) first last (has_partition_level_deletions s)
    (repaired_at s) (pending_repair s) (is_transient s) psize pcells.

Definition is_live_timestamp (t : Z) : bool := (t =? i64_MIN) || (t =? i64_MAX).
Definition is_live_local_deletion_time (d : Z) : bool := d =? i32_MAX.

Definition update_timestamp (t : Z) (s : StatisticsMetadata) : StatisticsMetadata :=
  if is_live_timestamp t then s
  else set_timestamps (Z.min (min_timestamp s) t) (Z.max (max_timestamp s) t) s.

Definition update_local_deletion_time (d : Z) (s : StatisticsMetadata) : StatisticsMetadata :=
  if is_live_local_deletion_time d then s
  else
    let s := set_ldts (Z.min (min_local_deletion_time s) d) (Z.max (max_local_deletion_time s) d) s in
    set_tombstones (TombstoneHistogram.update d (tombstone_histogram s))
      (has_partition_level_deletions s) s.

Definition note_live_local_deletion_time (s : StatisticsMetadata) : StatisticsMetadata :=
  set_ldts (min_local_deletion_time s) i32_MAX s.

Definition update_ttl (ttl : Z) (s : StatisticsMetadata) : StatisticsMetadata :=
  if ttl >? 0 then set_ttls (Z.min (min_ttl s) ttl) (Z.max (max_ttl s) ttl) s else s.

Definition mark_partition_level_deletion (s : StatisticsMetadata) : StatisticsMetadata :=
  set_tombstones (tombstone_histogram s) true s.

Definition update_key_range (key : list Z) (s : StatisticsMetadata) : StatisticsMetadata :=
  set_counts (partition_count s) (row_count s) (column_count s)
    (match first_key s with None => Some key | k => k end) (Some key)
    (estimated_partition_size s) (estimated_cell_count s) s.

Definition record_partition (serialized_size cell_count : Z) (s : StatisticsMetadata) :=
  set_counts (partition_count s) (row_count s) (column_count s) (first_key s) (last_key s)
    (EstimatedHistogram.add serialized_size (estimated_partition_size s))
    (EstimatedHistogram.add cell_count (estimated_cell_count s)) s.

Definition finalize (s : StatisticsMetadata) : StatisticsMetadata :=
  set_ranges
    (if min_timestamp s =? i64_MAX then 0 else min_timestamp s)
    (if max_timestamp s =? i64_MIN then 0 else max_timestamp s)
    (if min_local_deletion_time s =? i32_MAX then 0 else min_local_deletion_time s)
    (if max_local_deletion_time s =? i32_MIN then 0 else max_local_deletion_time s)
    (if min_ttl s =? i32_MAX then 0 else min_ttl s)
    (max_ttl s) s.

(** ** The fold of a mutation *)

(** [matches!(value, Value::Null)]. *)
Definition is_null (v : Value) : bool := match v with Null => true | _ => false end.

(** The local deletion time a tombstone operation is emitted with. *)
Definition op_cell_local_deletion_time (op : CellOperation) (m : Mutation) : Z :=
  match op with
  | Delete _ (Some ldt) => ldt
  | _ => effective_local_deletion_time m
  end.

Definition expiring_ldt (now ttl : Z) : Z := sat_add_i32 now (as_i32 ttl).

Definition fold_op (m : Mutation) (now : Z) (op : CellOperation) (s : StatisticsMetadata) :
    StatisticsMetadata :=
  match op with
  | WriteWithTtl _ _ ttl ldt =>
      let s := update_ttl (as_i32 ttl) s in
      update_local_deletion_time (match ldt with Some l => l | None => expiring_ldt now ttl end) s
  | Delete _ _ | DeleteRow =>
      update_local_deletion_time (op_cell_local_deletion_time op m) s
  | OpComplexDeletion _ mfda ldt =>
      update_local_deletion_time ldt (update_timestamp mfda s)
  | WriteComplexElement _ _ _ ts ttl ldt deleted =>
      let s := update_timestamp ts s in
      let s := match ttl with Some ttl => update_ttl (as_i32 ttl) s | None => s end in
      let s := match ldt with Some l => update_local_deletion_time l s | None => s end in
      if negb deleted && negb (is_some ttl) && negb (is_some ldt)
      then note_live_local_deletion_time s else s
  | Write _ value =>
      if negb (is_some (m_ttl_seconds m)) && negb (is_null value)
      then note_live_local_deletion_time s else s
  end.

Definition cell_timestamps (m : Mutation) : list Z :=
  match m_cell_write_timestamps m with Some ts => (map_to_list ts).*2 | None => [] end.

Fixpoint fold_ops (m : Mutation) (now : nat -> Z) (i : nat) (ops : list CellOperation)
    (s : StatisticsMetadata) : StatisticsMetadata :=
  match ops with
  | [] => s
  | op :: ops => fold_ops m now (S i) ops (fold_op m (now i) op s)
  end.

Definition fold_mutation_stats (now : nat -> Z) (s : StatisticsMetadata) (m : Mutation) :
    StatisticsMetadata :=
  let s := update_timestamp (m_timestamp_micros m) s in
  let s := foldl (fun s ts => update_timestamp ts s) s (cell_timestamps m) in
  let s := match m_ttl_seconds m with
           | Some ttl => update_local_deletion_time (expiring_ldt (now O) ttl)
                           (update_ttl (as_i32 ttl) s)
           | None => s
           end in
  let s := fold_ops m now 1 (m_operations m) s in
  let s := match m_partition_tombstone m with
           | Some pt => mark_partition_level_deletion
                          (update_local_deletion_time (pt_local_deletion_time pt)
                             (update_timestamp (pt_deletion_time pt) s))
           | None => s
           end in
  let s := foldl (fun s rt => update_local_deletion_time (rt_local_deletion_time rt)
                                (update_timestamp (rt_deletion_time rt) s))
             s (m_range_tombstones m) in
  match m_row_tombstone m with
  | Some (deletion_time, ldt) => update_local_deletion_time ldt (update_timestamp deletion_time s)
  | None => s
  end.

Definition merge_stats_fold (into from : StatisticsMetadata) : StatisticsMetadata :=
  let into := update_timestamp (min_timestamp from) into in
  let into := update_timestamp (max_timestamp from) into in
  let into := update_local_deletion_time (min_local_deletion_time from) into in
  let into := if max_local_deletion_time from >? i32_MIN
              then update_local_deletion_time (max_local_deletion_time from) into else into in
  let into := if max_local_deletion_time from =? i32_MAX
              then note_live_local_deletion_time into else into in
  let into := if negb (min_ttl from =? i32_MAX) then update_ttl (min_ttl from) into else into in
  let into := update_ttl (max_ttl from) into in
  if has_partition_level_deletions from then mark_partition_level_deletion into else into.

(** ** The baselines of a flush *)

(** The pre-pass: the minimum timestamp, local deletion time and TTL. *)
Definition Baseline : Type := Z * Z * Z.

Definition baseline_new : Baseline := (i64_MAX, i32_MAX, i32_MAX).

Definition min_ts (t : Z) (b : Baseline) : Baseline :=
  let '(ts, ldt, ttl) := b in (Z.min ts t, ldt, ttl).
Definition min_ldt (d : Z) (b : Baseline) : Baseline :=
  let '(ts, ldt, ttl) := b in (ts, Z.min ldt d, ttl).
Definition min_ttl_of (t : Z) (b : Baseline) : Baseline :=
  let '(ts, ldt, ttl) := b in (ts, ldt, Z.min ttl t).

Definition baseline_op (m : Mutation) (now : Z) (op : CellOperation) (b : Baseline) : Baseline :=
  match op with
  | WriteWithTtl _ _ ttl_seconds ldt =>
      let ttl := as_i32 ttl_seconds in
      if ttl >? 0
      then min_ldt (match ldt with Some l => l | None => sat_add_i32 now ttl end) (min_ttl_of ttl b)
      else b
  | Delete _ _ | DeleteRow => min_ldt (op_cell_local_deletion_time op m) b
  | OpComplexDeletion _ mfda ldt =>
      let b := if negb (mfda =? i64_MIN) && negb (mfda =? i64_MAX) then min_ts mfda b else b in
      if negb (ldt =? i32_MAX) then min_ldt ldt b else b
  | WriteComplexElement _ _ _ ts ttl ldt _ =>
      let b := if negb (ts =? i64_MIN) && negb (ts =? i64_MAX) then min_ts ts b else b in
      let b := match ttl with
               | Some ttl => if as_i32 ttl >? 0 then min_ttl_of (as_i32 ttl) b else b
               | None => b
               end in
      match ldt with
      | Some l => if negb (l =? i32_MAX) then min_ldt l b else b
      | None => b
      end
  | Write _ _ => b
  end.

Fixpoint baseline_ops (m : Mutation) (now : nat -> Z) (i : nat) (ops : list CellOperation)
    (b : Baseline) : Baseline :=
  match ops with
  | [] => b
  | op :: ops => baseline_ops m now (S i) ops (baseline_op m (now i) op b)
  end.

(** One turn of the loop over the mutations. *)
Definition baseline_mutation (now : nat -> Z) (b : Baseline) (m : Mutation) : Baseline :=
  let b := min_ts (m_timestamp_micros m) b in
  let b := foldl (fun b ts => min_ts ts b) b (cell_timestamps m) in
  let b := baseline_ops m now 1 (m_operations m) b in
  let b := match m_ttl_seconds m with
           | Some ttl => if as_i32 ttl >? 0
                         then min_ldt (sat_add_i32 (now O) (as_i32 ttl)) (min_ttl_of (as_i32 ttl) b)
                         else b
           | None => b
           end in
  let b := match m_partition_tombstone m with
           | Some pt => min_ldt (pt_local_deletion_time pt) (min_ts (pt_deletion_time pt) b)
           | None => b
           end in
  let b := foldl (fun b rt => min_ldt (rt_local_deletion_time rt) (min_ts (rt_deletion_time rt) b))
             b (m_range_tombstones m) in
  match m_row_tombstone m with
  | Some (deletion_time, ldt) => min_ldt ldt (min_ts deletion_time b)
  | None => b
  end.

(** Each mutation comes with the readings of the clock made for it. *)
Definition Clock : Type := nat -> Z.

Definition compute_mutations_baseline_stats (l : list (Clock * Mutation)) : Baseline :=
  foldl (fun b e => baseline_mutation e.1 b e.2) baseline_new l.

Definition baseline_min (a b : Baseline) : Baseline :=
  let '(ts, ldt, ttl) := a in let '(ts', ldt', ttl') := b in
  (Z.min ts ts', Z.min ldt ldt', Z.min ttl ttl').

(** The pre-pass of [flush_internal_async] over the partitions of the memtable. *)
Definition flush_baselines (parts : list (list (Clock * Mutation))) : Baseline :=
  foldl (fun b p => baseline_min b (compute_mutations_baseline_stats p)) baseline_new parts.

(** ** The writer's statistics *)

(** What the row and cell encoders of [DataWriter] keep of the statistics. *)
Record EncodingStatsBaselines := mkEncodingStatsBaselines {
  enc_min_timestamp : Z;
  enc_min_ttl : Z;
  enc_min_local_deletion_time : Z;
}.

Definition baselines_of (s : StatisticsMetadata) : EncodingStatsBaselines :=
  mkEncodingStatsBaselines (min_timestamp s) (min_ttl s) (min_local_deletion_time s).

(** The fields of [SSTableWriter] the statistics go through. *)
Record StatsWriter := mkStatsWriter {
  sw_stats : StatisticsMetadata;
  sw_encoding : EncodingStatsBaselines;
  sw_baselines_locked : bool;
}.

Definition pre_seed_encoding_baselines (b : Baseline) (w : StatsWriter) : StatsWriter :=
  let '(ts, ldt, ttl) := b in
  let s := set_ranges ts (max_timestamp (sw_stats w)) ldt (max_local_deletion_time (sw_stats w)) ttl
             (max_ttl (sw_stats w)) (sw_stats w) in
  mkStatsWriter s (baselines_of s) true.

(** The statistics of a partition before its bytes, as [write_partition] takes them. *)
Definition fold_partition (w : StatsWriter) (p : list (Clock * Mutation)) : StatsWriter :=
  let s := foldl (fun s e => fold_mutation_stats e.1 s e.2) (sw_stats w) p in
  mkStatsWriter s (if sw_baselines_locked w then sw_encoding w else baselines_of s)
    (sw_baselines_locked w).

(** The incremental path: the partition is folded on its own, then merged. *)
Definition merge_partition_stats (w : StatsWriter) (p : list (Clock * Mutation)) : StatsWriter :=
  mkStatsWriter
    (merge_stats_fold (sw_stats w) (foldl (fun s e => fold_mutation_stats e.1 s e.2) stats_new p))
    (sw_encoding w) (sw_baselines_locked w).

(** ** The encoding statistics in the header *)

Definition TIMESTAMP_EPOCH : Z := 1442880000000000.
Definition DELETION_TIME_EPOCH : Z := 1442880000.
Definition TTL_EPOCH : Z := 0.

(** The three baselines that open the serialization header. *)
Definition write_encoding_stats (s : StatisticsMetadata) : list Z :=
  let min_ts := if min_timestamp s =? i64_MAX then as_u64 TIMESTAMP_EPOCH
                else as_u64 (min_timestamp s) in
  let min_ts_delta := as_u64 (min_ts - as_u64 TIMESTAMP_EPOCH) in
  let min_ldt := if min_local_deletion_time s =? i32_MAX then i32_MAX
                 else min_local_deletion_time s in
  let min_del_delta := as_u64 (as_i32 (min_ldt - DELETION_TIME_EPOCH)) in
  let min_ttl := if min_ttl s =? i32_MAX then 0 else as_u64 (min_ttl s) in
  let min_ttl_delta := as_u64 (min_ttl - as_u64 TTL_EPOCH) in
  encode_vuint min_ts_delta ++ encode_vuint min_del_delta ++ encode_vuint min_ttl_delta.

(** [i64] additions of a release build. *)
Definition parse_encoding_stats_vuints (input : list Z) :
    result nom_error (list Z * (Z * Z * option Z)) :=
  '(rest, min_ts_delta) ← parse_vuint input;
  '(rest, min_ldt_delta) ← parse_vuint rest;
  '(rest, min_ttl_delta) ← parse_vuint rest;
  Ok (rest, (as_i64 (as_i64 min_ts_delta + TIMESTAMP_EPOCH),
             as_i64 (as_i64 min_ldt_delta + DELETION_TIME_EPOCH),
             Some (as_i64 (as_i64 min_ttl_delta + TTL_EPOCH)))).
