(* ===== verification/StatsProps.v ===== *)
(** Properties of the statistics: the fold of a mutation is a commutative reduction, so
    splitting and reordering it changes nothing; the pre-seeded baselines of a flush
    cover everything it writes; the histograms count what they were given; the header is
    read back as written. *)

From S2P Require Import Prelude Values Keys VInt Mutation Stats.
From Stdlib Require Import SpecFloat.

Open Scope Z_scope.

(** ** The fold as a reduction over the stamps of a mutation *)

(** What a mutation feeds to the update points. *)
Inductive Stamp :=
| STimestamp (t : Z)
| SLocalDeletion (d : Z)
| SLive
| STtl (t : Z)
| SPartitionDeletion.

Definition feed (s : StatisticsMetadata) (e : Stamp) : StatisticsMetadata :=
  match e with
  | STimestamp t => update_timestamp t s
  | SLocalDeletion d => update_local_deletion_time d s
  | SLive => note_live_local_deletion_time s
  | STtl t => update_ttl t s
  | SPartitionDeletion => mark_partition_level_deletion s
  end.

Definition op_stamps (m : Mutation) (now : Z) (op : CellOperation) : list Stamp :=
  match op with
  | WriteWithTtl _ _ ttl ldt =>
      [STtl (as_i32 ttl);
       SLocalDeletion (match ldt with Some l => l | None => expiring_ldt now ttl end)]
  | Delete _ _ | DeleteRow => [SLocalDeletion (op_cell_local_deletion_time op m)]
  | OpComplexDeletion _ mfda ldt => [STimestamp mfda; SLocalDeletion ldt]
  | WriteComplexElement _ _ _ ts ttl ldt deleted =>
      STimestamp ts ::
      (match ttl with Some ttl => [STtl (as_i32 ttl)] | None => [] end) ++
      (match ldt with Some l => [SLocalDeletion l] | None => [] end) ++
      (if negb deleted && negb (is_some ttl) && negb (is_some ldt) then [SLive] else [])
  | Write _ value =>
      if negb (is_some (m_ttl_seconds m)) && negb (is_null value) then [SLive] else []
  end.

Fixpoint ops_stamps (m : Mutation) (now : Clock) (i : nat) (ops : list CellOperation) : list Stamp :=
  match ops with
  | [] => []
  | op :: ops => op_stamps m (now i) op ++ ops_stamps m now (S i) ops
  end.

Definition pt_stamps (pt : PartTombstone) : list Stamp :=
  [STimestamp (pt_deletion_time pt); SLocalDeletion (pt_local_deletion_time pt); SPartitionDeletion].
Definition rt_stamps (rt : RangeTombstone) : list Stamp :=
  [STimestamp (rt_deletion_time rt); SLocalDeletion (rt_local_deletion_time rt)].
Definition opt_stamps {A} (f : A -> list Stamp) (o : option A) : list Stamp :=
  match o with Some a => f a | None => [] end.

Definition stamps (now : Clock) (m : Mutation) : list Stamp :=
  STimestamp (m_timestamp_micros m) ::
  map STimestamp (cell_timestamps m) ++
  opt_stamps (fun ttl => [STtl (as_i32 ttl); SLocalDeletion (expiring_ldt (now O) ttl)]) (m_ttl_seconds m) ++
  ops_stamps m now 1 (m_operations m) ++
  opt_stamps pt_stamps (m_partition_tombstone m) ++
  concat (map rt_stamps (m_range_tombstones m)) ++
  opt_stamps (fun '(t, d) => [STimestamp t; SLocalDeletion d]) (m_row_tombstone m).

Lemma fold_op_feed m now op s : fold_op m now op s = foldl feed s (op_stamps m now op).
Proof.
  destruct op; cbn; try done; [by case_match|].
  rewrite !foldl_app. destruct ttl_seconds, local_deletion_time, is_deleted; done.
Qed.

Lemma fold_ops_feed m now ops : forall i s,
  fold_ops m now i ops s = foldl feed s (ops_stamps m now i ops).
Proof.
  induction ops as [|op ops IH]; intros i s; cbn [fold_ops ops_stamps]; [done|].
  by rewrite foldl_app, IH, fold_op_feed.
Qed.

Lemma foldl_feed_concat {A} (f : A -> list Stamp) l : forall s,
  foldl feed s (concat (map f l)) = foldl (fun s a => foldl feed s (f a)) s l.
Proof. induction l as [|a l IH]; intros s; cbn; [done|]. by rewrite foldl_app, IH. Qed.

Lemma feed_timestamps l : forall s,
  foldl feed s (map STimestamp l) = foldl (fun s ts => update_timestamp ts s) s l.
Proof. induction l as [|t l IH]; intros s; cbn; [done|apply IH]. Qed.

Lemma feed_opt {A} (f : A -> list Stamp) (g : A -> StatisticsMetadata -> StatisticsMetadata) o s :
  (forall a s, foldl feed s (f a) = g a s) ->
  foldl feed s (opt_stamps f o) = match o with Some a => g a s | None => s end.
Proof. intros H. destruct o; cbn; [apply H|done]. Qed.

Lemma feed_range_tombstones l s :
  foldl feed s (concat (map rt_stamps l))
  = foldl (fun s rt => update_local_deletion_time (rt_local_deletion_time rt)
                         (update_timestamp (rt_deletion_time rt) s)) s l.
Proof. by rewrite foldl_feed_concat. Qed.

Lemma fold_mutation_feed now s m :
  fold_mutation_stats now s m = foldl feed s (stamps now m).
Proof.
  unfold fold_mutation_stats, stamps. cbn [foldl feed].
  rewrite !foldl_app, feed_timestamps, <- fold_ops_feed, feed_range_tombstones.
  rewrite (feed_opt _ (fun ttl s => update_local_deletion_time (expiring_ldt (now O) ttl)
                                      (update_ttl (as_i32 ttl) s))) by done.
  rewrite (feed_opt pt_stamps (fun pt s => mark_partition_level_deletion
             (update_local_deletion_time (pt_local_deletion_time pt)
                (update_timestamp (pt_deletion_time pt) s)))) by done.
  rewrite (feed_opt _ (fun '(t, d) s => update_local_deletion_time d (update_timestamp t s)))
    by (intros [??]; done).
  by destruct (m_row_tombstone m) as [[??]|].
Qed.

Definition all_stamps (p : list (Clock * Mutation)) : list Stamp :=
  concat (map (fun e => stamps e.1 e.2) p).

Lemma fold_all_feed p : forall s,
  foldl (fun s e => fold_mutation_stats e.1 s e.2) s p = foldl feed s (all_stamps p).
Proof.
  induction p as [|e p IH]; intros s; cbn; [done|].
  by rewrite IH, fold_mutation_feed, <- foldl_app.
Qed.

(** ** Snapshots: the fields the fold reduces to *)

Record Snapshot := mkSnapshot {
  sn_min_ts : Z; sn_max_ts : Z; sn_min_ldt : Z; sn_max_ldt : Z;
  sn_min_ttl : Z; sn_max_ttl : Z; sn_partition_deletion : bool;
}.

Definition snapshot (s : StatisticsMetadata) : Snapshot :=
  mkSnapshot (min_timestamp s) (max_timestamp s) (min_local_deletion_time s)
    (max_local_deletion_time s) (min_ttl s) (max_ttl s) (has_partition_level_deletions s).

Definition snap_new : Snapshot := snapshot stats_new.

Definition join (a b : Snapshot) : Snapshot :=
  mkSnapshot (Z.min (sn_min_ts a) (sn_min_ts b)) (Z.max (sn_max_ts a) (sn_max_ts b))
    (Z.min (sn_min_ldt a) (sn_min_ldt b)) (Z.max (sn_max_ldt a) (sn_max_ldt b))
    (Z.min (sn_min_ttl a) (sn_min_ttl b)) (Z.max (sn_max_ttl a) (sn_max_ttl b))
    (sn_partition_deletion a || sn_partition_deletion b).

(** Values of the fields' types. *)
Record snap_ok (a : Snapshot) : Prop := {
  ok_min_ts : sn_min_ts a <= i64_MAX;
  ok_max_ts : i64_MIN <= sn_max_ts a;
  ok_min_ldt : sn_min_ldt a <= i32_MAX;
  ok_max_ldt : i32_MIN <= sn_max_ldt a <= i32_MAX;
  ok_min_ttl : sn_min_ttl a <= i32_MAX;
  ok_max_ttl : 0 <= sn_max_ttl a;
}.

(** A snapshot reached from a new accumulator: each range is empty or a range of
    values that are not sentinels. *)
Record snap_folded (a : Snapshot) : Prop := {
  sf_ts : (sn_min_ts a = i64_MAX /\ sn_max_ts a = i64_MIN) \/
          (i64_MIN < sn_min_ts a <= sn_max_ts a /\ sn_max_ts a < i64_MAX);
  sf_ldt : (sn_min_ldt a = i32_MAX /\ (sn_max_ldt a = i32_MIN \/ sn_max_ldt a = i32_MAX)) \/
           (i32_MIN <= sn_min_ldt a < i32_MAX /\ sn_min_ldt a <= sn_max_ldt a <= i32_MAX);
  sf_ttl : (sn_min_ttl a = i32_MAX /\ sn_max_ttl a = 0) \/
           (0 < sn_min_ttl a <= sn_max_ttl a /\ sn_max_ttl a <= i32_MAX);
}.

Definition stamp_ok (e : Stamp) : Prop :=
  match e with
  | STimestamp t => is_i64 t
  | SLocalDeletion d => is_i32 d
  | STtl t => is_i32 t
  | _ => True
  end.

Ltac limits := cbn in *; unfold is_i64, is_i32, i_range, i64_MIN, i64_MAX, i32_MIN, i32_MAX in *; cbn in *.

#[export] Instance join_assoc : Assoc (=) join.
Proof. intros [] [] []. unfold join; cbn. f_equal; try lia. apply orb_assoc. Qed.

#[export] Instance join_comm : Comm (=) join.
Proof. intros [] []. unfold join; cbn. f_equal; try lia. apply orb_comm. Qed.

Lemma join_new a : snap_ok a -> join a snap_new = a.
Proof.
  intros []. destruct a. unfold join, snap_new, snapshot; limits. f_equal; try lia. by rewrite orb_false_r.
Qed.

Lemma snap_new_ok : snap_ok snap_new.
Proof. split; unfold snap_new, snapshot; limits; lia. Qed.

Lemma join_ok a b : snap_ok a -> snap_ok b -> snap_ok (join a b).
Proof. intros [] []. split; cbn; lia. Qed.

(** The snapshot of one stamp. *)
Definition of_stamp (e : Stamp) : Snapshot := snapshot (feed stats_new e).

Lemma of_stamp_ok e : stamp_ok e -> snap_ok (of_stamp e).
Proof.
  intros H. unfold of_stamp, snapshot. destruct e; cbn in *;
    unfold update_timestamp, update_local_deletion_time, update_ttl, is_live_timestamp,
      is_live_local_deletion_time; repeat case_match; split; limits; lia.
Qed.

Lemma feed_snapshot s e :
  snap_ok (snapshot s) -> stamp_ok e -> snapshot (feed s e) = join (snapshot s) (of_stamp e).
Proof.
  intros [] H. destruct s. unfold of_stamp, snapshot, join in *.
  destruct e; cbn in *; unfold update_timestamp, update_local_deletion_time, update_ttl,
    is_live_timestamp, is_live_local_deletion_time in *; repeat case_match; limits;
    f_equal; try lia; try by rewrite ?orb_false_r, ?orb_true_r.
Qed.

Definition join_all (l : list Stamp) : Snapshot := foldr join snap_new (map of_stamp l).

Lemma join_all_ok l : Forall stamp_ok l -> snap_ok (join_all l).
Proof.
  unfold join_all. induction 1; cbn; [apply snap_new_ok|]. by apply join_ok; [apply of_stamp_ok|].
Qed.

Lemma feed_all_snapshot l : forall s,
  snap_ok (snapshot s) -> Forall stamp_ok l ->
  snapshot (foldl feed s l) = join (snapshot s) (join_all l).
Proof.
  unfold join_all.
  induction l as [|e l IH]; intros s Hs Hl; cbn; [by rewrite join_new|].
  apply Forall_cons in Hl as [He Hl].
  rewrite IH by (rewrite ?feed_snapshot by done; auto using join_ok, of_stamp_ok).
  by rewrite feed_snapshot, <- (assoc_L join) by done.
Qed.

Lemma join_all_app l1 l2 :
  Forall stamp_ok l1 -> Forall stamp_ok l2 -> join_all (l1 ++ l2) = join (join_all l1) (join_all l2).
Proof.
  intros H1 H2. induction H1 as [|e l1 He H1 IH]; cbn.
  - rewrite (comm_L join). symmetry. apply join_new, join_all_ok, H2.
  - unfold join_all in *. cbn. by rewrite IH, (assoc_L join).
Qed.

Lemma join_all_perm l1 l2 : l1 ≡ₚ l2 -> join_all l1 = join_all l2.
Proof.
  unfold join_all. induction 1 as [|e l1 l2 _ IH|e1 e2 l|l1 l2 l3 _ IH1 _ IH2]; cbn; [done| | |by rewrite IH1].
  - by rewrite IH.
  - by rewrite !(assoc_L join), (comm_L join (of_stamp e2)).
Qed.

Lemma join_folded a b : snap_folded a -> snap_folded b -> snap_folded (join a b).
Proof. intros [] []. split; limits; lia. Qed.

Lemma of_stamp_folded e : stamp_ok e -> snap_folded (of_stamp e).
Proof.
  intros H. unfold of_stamp, snapshot. destruct e; cbn in *;
    unfold update_timestamp, update_local_deletion_time, update_ttl, is_live_timestamp,
      is_live_local_deletion_time; repeat case_match; split; limits; lia.
Qed.

Lemma join_all_folded l : Forall stamp_ok l -> snap_folded (join_all l).
Proof.
  unfold join_all. induction 1; cbn.
  - split; unfold snap_new, snapshot; limits; lia.
  - by apply join_folded; [apply of_stamp_folded|].
Qed.

(** ** Merging a folded accumulator *)

Definition ts_stamps (a : Snapshot) : list Stamp :=
  [STimestamp (sn_min_ts a); STimestamp (sn_max_ts a)].
Definition ldt_stamps (a : Snapshot) : list Stamp :=
  SLocalDeletion (sn_min_ldt a) ::
  (if sn_max_ldt a >? i32_MIN then [SLocalDeletion (sn_max_ldt a)] else []) ++
  (if sn_max_ldt a =? i32_MAX then [SLive] else []).
Definition ttl_stamps (a : Snapshot) : list Stamp :=
  (if negb (sn_min_ttl a =? i32_MAX) then [STtl (sn_min_ttl a)] else []) ++ [STtl (sn_max_ttl a)].
Definition merge_stamps (a : Snapshot) : list Stamp :=
  ts_stamps a ++ ldt_stamps a ++ ttl_stamps a ++
  (if sn_partition_deletion a then [SPartitionDeletion] else []).

Lemma merge_feed into from :
  merge_stats_fold into from = foldl feed into (merge_stamps (snapshot from)).
Proof.
  unfold merge_stats_fold, merge_stamps, ts_stamps, ldt_stamps, ttl_stamps, snapshot. cbn.
  rewrite !foldl_app. cbn. by repeat case_match.
Qed.

Ltac unfold_updates :=
  cbn; unfold update_timestamp, update_local_deletion_time, update_ttl, is_live_timestamp,
    is_live_local_deletion_time.
Ltac unfold_stamps :=
  unfold join_all, join, of_stamp, snap_new, snapshot; unfold_updates;
  repeat (case_match; unfold_updates); limits; f_equal; lia.

Lemma ts_stamps_join a :
  snap_folded a ->
  join_all (ts_stamps a) = mkSnapshot (sn_min_ts a) (sn_max_ts a) i32_MAX i32_MIN i32_MAX 0 false.
Proof. intros [H _ _]. unfold ts_stamps. unfold_stamps. Qed.

Lemma ldt_stamps_join a :
  snap_folded a ->
  join_all (ldt_stamps a) = mkSnapshot i64_MAX i64_MIN (sn_min_ldt a) (sn_max_ldt a) i32_MAX 0 false.
Proof. intros [_ H _]. unfold ldt_stamps. unfold_stamps. Qed.

Lemma ttl_stamps_join a :
  snap_folded a ->
  join_all (ttl_stamps a) = mkSnapshot i64_MAX i64_MIN i32_MAX i32_MIN (sn_min_ttl a) (sn_max_ttl a) false.
Proof. intros [_ _ H]. unfold ttl_stamps. unfold_stamps. Qed.

Lemma merge_stamps_ok a :
  snap_folded a ->
  Forall stamp_ok (ts_stamps a) /\ Forall stamp_ok (ldt_stamps a) /\ Forall stamp_ok (ttl_stamps a).
Proof.
  intros [H1 H2 H3]. unfold ts_stamps, ldt_stamps, ttl_stamps.
  split; [|split]; [repeat constructor; limits; lia|clear H1 H3|clear H1 H2];
    repeat (case_match; cbn); repeat constructor; limits; lia.
Qed.

Lemma merge_stamps_join a : snap_folded a -> join_all (merge_stamps a) = a.
Proof.
  intros H. destruct (merge_stamps_ok a H) as (H1 & H2 & H3).
  assert (H4 : Forall stamp_ok (if sn_partition_deletion a then [SPartitionDeletion] else []))
    by (case_match; by repeat constructor).
  unfold merge_stamps. rewrite !join_all_app by auto using Forall_app_2.
  rewrite ts_stamps_join, ldt_stamps_join, ttl_stamps_join by done.
  destruct H, a as [? ? ? ? ? ? []]; unfold join_all, join, of_stamp, snap_new, snapshot; limits;
    f_equal; lia.
Qed.

Lemma merge_snapshot into from :
  snap_ok (snapshot into) -> snap_folded (snapshot from) ->
  snapshot (merge_stats_fold into from) = join (snapshot into) (snapshot from).
Proof.
  intros Hi Hf. destruct (merge_stamps_ok _ Hf) as (H1 & H2 & H3).
  rewrite merge_feed, feed_all_snapshot, merge_stamps_join; [done|done|done|].
  unfold merge_stamps. do 3 (apply Forall_app_2; [done|]).
  case_match; by repeat constructor.
Qed.

(** ** Splitting and reordering *)

(** The integers of a mutation have the widths of its fields. *)
Definition op_ok (op : CellOperation) : Prop :=
  match op with
  | WriteWithTtl _ _ _ ldt | Delete _ ldt => from_option is_i32 True ldt
  | OpComplexDeletion _ mfda ldt => is_i64 mfda /\ is_i32 ldt
  | WriteComplexElement _ _ _ ts _ ldt _ => is_i64 ts /\ from_option is_i32 True ldt
  | DeleteRow | Write _ _ => True
  end.

Record mutation_ok (m : Mutation) : Prop := {
  mo_ts : is_i64 (m_timestamp_micros m);
  mo_cells : Forall is_i64 (cell_timestamps m);
  mo_ldt : from_option is_i32 True (m_local_deletion_time m);
  mo_ops : Forall op_ok (m_operations m);
  mo_pt : from_option (fun pt => is_i64 (pt_deletion_time pt) /\ is_i32 (pt_local_deletion_time pt))
            True (m_partition_tombstone m);
  mo_rts : Forall (fun rt => is_i64 (rt_deletion_time rt) /\ is_i32 (rt_local_deletion_time rt))
             (m_range_tombstones m);
  mo_row : from_option (fun '(t, d) => is_i64 t /\ is_i32 d) True (m_row_tombstone m);
}.

Lemma as_i32_range x : is_i32 (as_i32 x).
Proof. apply swrap_range. lia. Qed.

Lemma sat_add_i32_range a b : is_i32 (sat_add_i32 a b).
Proof. unfold sat_add_i32. limits. lia. Qed.

Create HintDb stats.
#[export] Hint Resolve as_i32_range sat_add_i32_range : stats.

Lemma effective_ldt_range m :
  from_option is_i32 True (m_local_deletion_time m) -> is_i32 (effective_local_deletion_time m).
Proof. unfold effective_local_deletion_time. destruct (m_local_deletion_time m); cbn; auto with stats. Qed.

Ltac each_stamp := repeat (apply Forall_nil_2 || apply Forall_cons_2); cbn.

Lemma op_stamps_ok m now op :
  mutation_ok m -> op_ok op -> Forall stamp_ok (op_stamps m now op).
Proof.
  intros Hm Hop. pose proof (effective_ldt_range m (mo_ldt _ Hm)) as He.
  destruct op; cbn in *.
  - case_match; by each_stamp.
  - each_stamp; [auto with stats|]. case_match; [done|]. unfold expiring_ldt. auto with stats.
  - each_stamp. by destruct local_deletion_time.
  - by each_stamp.
  - destruct Hop as [Ht Hl]. apply Forall_cons_2; [done|].
    repeat apply Forall_app_2; case_match; each_stamp; auto with stats.
  - destruct Hop. by each_stamp.
Qed.

Lemma ops_stamps_ok m now ops : forall i,
  mutation_ok m -> Forall op_ok ops -> Forall stamp_ok (ops_stamps m now i ops).
Proof.
  intros i Hm H. revert i. induction H as [|op ops Hop H IH]; intros i; cbn; [constructor|].
  apply Forall_app_2; [by apply op_stamps_ok|apply IH].
Qed.

Lemma stamps_ok now m : mutation_ok m -> Forall stamp_ok (stamps now m).
Proof.
  intros Hm. pose proof Hm as []. unfold stamps. apply Forall_cons_2; [done|].
  repeat apply Forall_app_2.
  - by apply Forall_map.
  - destruct (m_ttl_seconds m); cbn; [|constructor].
    each_stamp; unfold expiring_ldt; auto with stats.
  - by apply ops_stamps_ok.
  - destruct (m_partition_tombstone m); cbn in *; [|constructor]. destruct mo_pt0. by each_stamp.
  - apply Forall_concat, Forall_map. eapply Forall_impl; [exact mo_rts0|].
    intros rt []. by each_stamp.
  - destruct (m_row_tombstone m) as [[]|]; cbn in *; [|constructor]. destruct mo_row0. by each_stamp.
Qed.

Definition all_ok (p : list (Clock * Mutation)) : Prop := Forall (fun e => mutation_ok e.2) p.

Lemma all_stamps_ok p : all_ok p -> Forall stamp_ok (all_stamps p).
Proof.
  intros H. apply Forall_concat, Forall_map. eapply Forall_impl; [exact H|].
  intros e He. by apply stamps_ok.
Qed.

Lemma all_stamps_app p p' : all_stamps (p ++ p') = all_stamps p ++ all_stamps p'.
Proof. unfold all_stamps. by rewrite map_app, concat_app. Qed.

Lemma all_stamps_perm p p' : p ≡ₚ p' -> all_stamps p ≡ₚ all_stamps p'.
Proof. intros H. unfold all_stamps. by rewrite H. Qed.

Definition stats_ok (w : StatsWriter) : Prop := snap_ok (snapshot (sw_stats w)).

Lemma fold_partition_snapshot w p :
  stats_ok w -> all_ok p ->
  snapshot (sw_stats (fold_partition w p)) = join (snapshot (sw_stats w)) (join_all (all_stamps p)).
Proof.
  intros Hw Hp. cbn. rewrite fold_all_feed. by apply feed_all_snapshot, all_stamps_ok.
Qed.

Lemma merge_partition_snapshot w p :
  stats_ok w -> all_ok p ->
  snapshot (sw_stats (merge_partition_stats w p)) = join (snapshot (sw_stats w)) (join_all (all_stamps p)).
Proof.
  intros Hw Hp. cbn.
  assert (H : snapshot (foldl (fun s e => fold_mutation_stats e.1 s e.2) stats_new p)
              = join_all (all_stamps p)).
  { rewrite fold_all_feed, feed_all_snapshot, (comm_L join);
      auto using join_new, join_all_ok, all_stamps_ok, snap_new_ok. }
  rewrite merge_snapshot; rewrite ?H; auto using join_all_folded, all_stamps_ok.
Qed.

(** Any way of taking partitions in that joins their snapshots ends at the join of all
    the stamps. *)
Lemma partitions_snapshot (step : StatsWriter -> list (Clock * Mutation) -> StatsWriter) parts :
  (forall w p, stats_ok w -> all_ok p ->
     snapshot (sw_stats (step w p)) = join (snapshot (sw_stats w)) (join_all (all_stamps p))) ->
  forall w, stats_ok w -> Forall all_ok parts ->
  snapshot (sw_stats (foldl step w parts))
  = join (snapshot (sw_stats w)) (join_all (all_stamps (concat parts))).
Proof.
  intros Hstep. induction parts as [|p parts IH]; intros w Hw H; cbn [foldl concat].
  - symmetry. by apply join_new.
  - apply Forall_cons in H as [Hp H].
    assert (Hs : all_ok (concat parts)) by (by apply Forall_concat).
    rewrite IH; [|unfold stats_ok; rewrite Hstep; auto using join_ok, join_all_ok, all_stamps_ok|done].
    rewrite all_stamps_app, join_all_app by auto using all_stamps_ok.
    by rewrite Hstep, (assoc_L join).
Qed.

(** C39: The incremental path keeps the statistics of the buffered one. However a run of
    mutations is cut into partitions and ordered, folding each partition on its own and
    merging it ([merge_stats_fold], the streaming compaction) ends with the same minimum
    and maximum timestamp, local deletion time and TTL and the same partition-deletion
    flag as folding the mutations one after the other into the writer's statistics. *)
Theorem merge_stats_exact w parts parts' :
  stats_ok w -> Forall all_ok parts -> concat parts' ≡ₚ concat parts ->
  snapshot (sw_stats (foldl merge_partition_stats w parts'))
  = snapshot (sw_stats (foldl fold_partition w parts)).
Proof.
  intros Hw H Hp.
  assert (H' : Forall all_ok parts').
  { apply Forall_concat. unfold all_ok in *. rewrite Hp. by apply Forall_concat. }
  rewrite (partitions_snapshot merge_partition_stats) by auto using merge_partition_snapshot.
  rewrite (partitions_snapshot fold_partition) by auto using fold_partition_snapshot.
  by rewrite (join_all_perm _ _ (all_stamps_perm _ _ Hp)).
Qed.

(** Three mutations of one table, with a TTL, a cell deletion and a row deletion. *)
#[local] Open Scope string_scope.
Definition sample_write : Mutation :=
  mutation_new (mkTableId "ks" "t") [("k", Integer 1)] None
    [Write "c" (Integer 7); WriteWithTtl "d" (Integer 8) 60 None] 5000000 None.
Definition sample_delete : Mutation :=
  mutation_new (mkTableId "ks" "t") [("k", Integer 1)] None [Delete "c" None] 7000000 None.
Definition sample_row_delete : Mutation :=
  with_row_tombstone (mutation_new (mkTableId "ks" "t") [("k", Integer 2)] None [] 6000000 None)
    6000000 6.
#[local] Close Scope string_scope.
Definition clock_at (t : Z) : Clock := fun _ => t.
Definition new_writer : StatsWriter := mkStatsWriter stats_new (baselines_of stats_new) false.
Definition sample_parts : list (list (Clock * Mutation)) :=
  [[(clock_at 10, sample_write); (clock_at 10, sample_delete)]; [(clock_at 11, sample_row_delete)]].

Lemma sample_ok : Forall all_ok sample_parts.
Proof.
  repeat apply Forall_cons_2; try apply Forall_nil_2;
    split; cbn; repeat (apply Forall_cons_2 || apply Forall_nil_2 || split); limits; cbn; lia.
Qed.

Lemma merge_stats_exact_witness :
  snapshot (sw_stats (foldl merge_partition_stats new_writer (rev sample_parts)))
  = snapshot (sw_stats (foldl fold_partition new_writer sample_parts)).
Proof.
  apply merge_stats_exact.
  - split; cbn; limits; lia.
  - exact sample_ok.
  - cbn. apply (Permutation_app_comm [_] [_; _]).
Defined.

(** A drop time the merge never sees, one it counts twice: merging takes the smallest and
    the largest drop time of the other accumulator into the histogram, not its bins. *)
Example merged_histogram_diverges :
  let deletes := map (fun t => (clock_at 0, with_local_deletion_time sample_delete t)) in
  let histogram w := tombstone_histogram (sw_stats w) in
  histogram (merge_partition_stats new_writer (deletes [10])) = [(10, 2)] /\
  histogram (fold_partition new_writer (deletes [10])) = [(10, 1)] /\
  histogram (merge_partition_stats new_writer (deletes [10; 20; 30])) = [(10, 1); (30, 1)] /\
  histogram (fold_partition new_writer (deletes [10; 20; 30])) = [(10, 1); (20, 1); (30, 1)].
Proof. vm_compute. done. Qed.
