(* ===== verification/Baselines.v ===== *)
(** The encoding baselines: those a flush pre-seeds cover everything the partitions carry
    and stay the minima of the statistics, and the header gives them back. *)

From S2P Require Import Prelude Values Keys VInt Mutation Stats StatsProps.

Open Scope Z_scope.

(** ** What a baseline covers *)

Definition below (b : Baseline) (e : Stamp) : Prop :=
  match e with
  | STimestamp t => is_live_timestamp t = false -> b.1.1 <= t
  | SLocalDeletion d => is_live_local_deletion_time d = false -> b.1.2 <= d
  | STtl t => 0 < t -> b.2 <= t
  | SLive | SPartitionDeletion => True
  end.

Definition baseline_le (a b : Baseline) : Prop :=
  a.1.1 <= b.1.1 /\ a.1.2 <= b.1.2 /\ a.2 <= b.2.

#[export] Instance baseline_le_preorder : PreOrder baseline_le.
Proof. split; [intros a|intros a b c]; unfold baseline_le; lia. Qed.

Lemma below_mono a b e : baseline_le a b -> below b e -> below a e.
Proof. unfold baseline_le. intros H. destruct e; cbn; try done; intros Hb Hc; specialize (Hb Hc); lia. Qed.

Lemma below_all_mono a b l : baseline_le a b -> Forall (below b) l -> Forall (below a) l.
Proof. intros H Hb. eapply Forall_impl; [exact Hb|]. intros e. by apply below_mono. Qed.

(** A TTL that expires after it is written; the CQL [USING TTL 0] is not one. *)
Definition op_ttl_pos (op : CellOperation) : Prop :=
  match op with WriteWithTtl _ _ ttl _ => 0 < as_i32 ttl | _ => True end.

Record ttl_pos (m : Mutation) : Prop := {
  tp_row : from_option (fun ttl => 0 < as_i32 ttl) True (m_ttl_seconds m);
  tp_ops : Forall op_ttl_pos (m_operations m);
}.

Definition clock_le (a b : Clock) : Prop := forall i, a i <= b i.

Ltac baselines :=
  repeat match goal with b : Baseline |- _ => destruct b as [[? ?] ?] end;
  unfold baseline_le, min_ts, min_ldt, min_ttl_of, expiring_ldt, sat_add_i32, is_live_timestamp,
    is_live_local_deletion_time in *; cbn in *.

Ltac split_ifs :=
  repeat (match goal with
          | |- context [if ?c then _ else _] => destruct c eqn:?
          | |- context [match ?o with Some _ => _ | None => _ end] => destruct o eqn:?
          end; cbn).

Lemma baseline_op_le m now op b : baseline_le (baseline_op m now op b) b.
Proof. baselines. destruct op; cbn; split_ifs; lia. Qed.

Lemma baseline_ops_le m now ops : forall i b, baseline_le (baseline_ops m now i ops b) b.
Proof.
  induction ops as [|op ops IH]; intros i b; cbn; [done|].
  etrans; [apply IH|apply baseline_op_le].
Qed.

Ltac each_below := each_stamp; baselines; intros; split_ifs; lia.

Lemma baseline_op_covers m now now' op b :
  now <= now' -> op_ttl_pos op ->
  Forall (below (baseline_op m now op b)) (op_stamps m now' op).
Proof.
  intros Hn Hp. baselines. destruct op; cbn in *.
  - by repeat case_match; each_stamp.
  - rewrite (proj2 (Z.gtb_lt _ _)) by done. each_below.
  - each_below.
  - each_below.
  - destruct ttl_seconds, local_deletion_time, is_deleted; cbn; each_below.
  - each_below.
Qed.

Lemma baseline_ops_covers m (now now' : Clock) ops : forall i b,
  clock_le now now' -> Forall op_ttl_pos ops ->
  Forall (below (baseline_ops m now i ops b)) (ops_stamps m now' i ops).
Proof.
  intros i b Hn H. revert i b. induction H as [|op ops Hop H IH]; intros i b; cbn; [constructor|].
  apply Forall_app_2; [|apply IH].
  eapply below_all_mono; [apply baseline_ops_le|]. by apply baseline_op_covers.
Qed.

(** A loop that only lowers the baseline covers what each turn covers. *)
Lemma foldl_lowers {A} (f : Baseline -> A -> Baseline) (l : list A) :
  (forall b a, baseline_le (f b a) b) -> forall b, baseline_le (foldl f b l) b.
Proof. intros H. induction l as [|a l IH]; intros b; cbn; [done|]. etrans; [apply IH|apply H]. Qed.

Lemma foldl_covers {A B} (R : A -> B -> Prop) (f : Baseline -> A -> Baseline) (g : B -> list Stamp) l l' :
  (forall b a, baseline_le (f b a) b) ->
  (forall b a a', R a a' -> Forall (below (f b a)) (g a')) ->
  Forall2 R l l' -> forall b, Forall (below (foldl f b l)) (concat (map g l')).
Proof.
  intros Hf Hg. induction 1 as [|a a' l l' Ha H IH]; intros b; cbn; [constructor|].
  apply Forall_app_2; [|apply IH].
  eapply below_all_mono; [by apply foldl_lowers|]. by apply Hg.
Qed.

Lemma forall2_refl {A} (R : A -> A -> Prop) l : (forall a, R a a) -> Forall2 R l l.
Proof. intros H. induction l; by constructor. Qed.

(** One turn of the pre-pass, as its steps. *)
Definition step_ts (m : Mutation) (b : Baseline) : Baseline :=
  foldl (fun b ts => min_ts ts b) (min_ts (m_timestamp_micros m) b) (cell_timestamps m).
Definition step_ttl (now : Clock) (m : Mutation) (b : Baseline) : Baseline :=
  match m_ttl_seconds m with
  | Some ttl => if as_i32 ttl >? 0
                then min_ldt (sat_add_i32 (now O) (as_i32 ttl)) (min_ttl_of (as_i32 ttl) b) else b
  | None => b
  end.
Definition step_pt (m : Mutation) (b : Baseline) : Baseline :=
  match m_partition_tombstone m with
  | Some pt => min_ldt (pt_local_deletion_time pt) (min_ts (pt_deletion_time pt) b)
  | None => b
  end.
Definition step_rts (m : Mutation) (b : Baseline) : Baseline :=
  foldl (fun b rt => min_ldt (rt_local_deletion_time rt) (min_ts (rt_deletion_time rt) b))
    b (m_range_tombstones m).
Definition step_row (m : Mutation) (b : Baseline) : Baseline :=
  match m_row_tombstone m with
  | Some (deletion_time, ldt) => min_ldt ldt (min_ts deletion_time b)
  | None => b
  end.

Lemma baseline_mutation_steps now b m :
  baseline_mutation now b m
  = step_row m (step_rts m (step_pt m (step_ttl now m (baseline_ops m now 1 (m_operations m) (step_ts m b))))).
Proof. reflexivity. Qed.

Lemma min_ts_le t b : baseline_le (min_ts t b) b.
Proof. baselines. lia. Qed.

Lemma step_ts_le m b : baseline_le (step_ts m b) b.
Proof.
  unfold step_ts. etrans; [|apply (min_ts_le (m_timestamp_micros m))].
  apply foldl_lowers. intros. apply min_ts_le.
Qed.

Lemma step_ttl_le now m b : baseline_le (step_ttl now m b) b.
Proof. unfold step_ttl. baselines. repeat (case_match; cbn); lia. Qed.

Lemma step_pt_le m b : baseline_le (step_pt m b) b.
Proof. unfold step_pt. baselines. case_match; cbn; lia. Qed.

Lemma step_rts_le m b : baseline_le (step_rts m b) b.
Proof. apply foldl_lowers. intros b' rt. baselines. lia. Qed.

Lemma step_row_le m b : baseline_le (step_row m b) b.
Proof. unfold step_row. baselines. destruct (m_row_tombstone m) as [[??]|]; cbn; lia. Qed.

#[export] Hint Resolve step_ts_le step_ttl_le step_pt_le step_rts_le step_row_le baseline_ops_le : stats.

Lemma baseline_mutation_le now b m : baseline_le (baseline_mutation now b m) b.
Proof.
  rewrite baseline_mutation_steps.
  do 5 (etrans; [auto with stats; fail|]). auto with stats.
Qed.

Lemma step_ts_covers m b :
  Forall (below (step_ts m b)) (STimestamp (m_timestamp_micros m) :: map STimestamp (cell_timestamps m)).
Proof.
  apply Forall_cons_2.
  - apply below_mono with (min_ts (m_timestamp_micros m) b).
    + apply foldl_lowers. intros. apply min_ts_le.
    + baselines. lia.
  - assert (H : map STimestamp (cell_timestamps m)
                = concat (map (fun t => [STimestamp t]) (cell_timestamps m))).
    { induction (cell_timestamps m); cbn; congruence. }
    rewrite H. apply (foldl_covers eq); [intros; apply min_ts_le| |by apply forall2_refl].
    intros b' t ? <-. each_below.
Qed.

Lemma step_ttl_covers now now' m b :
  clock_le now now' -> ttl_pos m ->
  Forall (below (step_ttl now m b))
    (opt_stamps (fun ttl => [STtl (as_i32 ttl); SLocalDeletion (expiring_ldt (now' O) ttl)]) (m_ttl_seconds m)).
Proof.
  intros Hn [Ht _]. specialize (Hn O). unfold step_ttl.
  destruct (m_ttl_seconds m) as [ttl|]; cbn in *; [|constructor].
  rewrite (proj2 (Z.gtb_lt _ _)) by done. each_below.
Qed.

Lemma step_pt_covers m b :
  Forall (below (step_pt m b)) (opt_stamps pt_stamps (m_partition_tombstone m)).
Proof.
  unfold step_pt. destruct (m_partition_tombstone m); cbn; [|constructor].
  each_below.
Qed.

Lemma step_rts_covers m b :
  Forall (below (step_rts m b)) (concat (map rt_stamps (m_range_tombstones m))).
Proof.
  apply (foldl_covers eq); [intros b' rt; baselines; lia| |by apply forall2_refl].
  intros b' rt ? <-. unfold rt_stamps. each_below.
Qed.

Lemma step_row_covers m b :
  Forall (below (step_row m b))
    (opt_stamps (fun '(t, d) => [STimestamp t; SLocalDeletion d]) (m_row_tombstone m)).
Proof.
  unfold step_row. destruct (m_row_tombstone m) as [[t d]|]; cbn; [|constructor].
  each_below.
Qed.

(** One mutation: everything it carries is at or above the baseline of the pre-pass. *)
Lemma baseline_mutation_covers now now' b m :
  clock_le now now' -> ttl_pos m ->
  Forall (below (baseline_mutation now b m)) (stamps now' m).
Proof.
  intros Hn Hp. rewrite baseline_mutation_steps. unfold stamps.
  rewrite app_comm_cons. repeat apply Forall_app_2.
  - eapply below_all_mono; [|apply step_ts_covers].
    do 4 (etrans; [auto with stats; fail|]). auto with stats.
  - eapply below_all_mono; [|by apply step_ttl_covers]. do 2 (etrans; [auto with stats; fail|]). auto with stats.
  - eapply below_all_mono; [|by apply baseline_ops_covers; [|apply tp_ops]].
    do 3 (etrans; [auto with stats; fail|]). auto with stats.
  - eapply below_all_mono; [|apply step_pt_covers]. etrans; auto with stats.
  - eapply below_all_mono; [|apply step_rts_covers]. auto with stats.
  - apply step_row_covers.
Qed.

(** ** The pre-pass of a flush *)

(** The second pass reads the same mutations, its clock no earlier. *)
Definition later (e e' : Clock * Mutation) : Prop :=
  e'.2 = e.2 /\ clock_le e.1 e'.1.

(** Every TTL of the memtable is positive. *)
Definition positive_ttls (parts : list (list (Clock * Mutation))) : Prop :=
  Forall (Forall (fun e => ttl_pos e.2)) parts.

Lemma mutations_baseline_covers p p' :
  Forall (fun e => ttl_pos e.2) p -> Forall2 later p p' -> Forall (below (compute_mutations_baseline_stats p)) (all_stamps p').
Proof.
  intros Hp H. unfold compute_mutations_baseline_stats, all_stamps.
  apply (foldl_covers (fun e e' => ttl_pos e.2 /\ later e e')); [intros; apply baseline_mutation_le| |].
  - intros b [now m] [now' m'] (Htt & Hm & Hn). cbn in *. subst m'. by apply baseline_mutation_covers.
  - induction H as [|e e' p p' He _ IH]; [constructor|]. apply Forall_cons in Hp as [? Hp]. constructor; auto.
Qed.

Lemma baseline_min_le_l a b : baseline_le (baseline_min a b) a.
Proof. baselines. lia. Qed.

Lemma baseline_min_le_r a b : baseline_le (baseline_min a b) b.
Proof. baselines. lia. Qed.

Lemma flush_baselines_cover_stamps parts parts' :
  positive_ttls parts -> Forall2 (Forall2 later) parts parts' ->
  Forall (below (flush_baselines parts)) (all_stamps (concat parts')).
Proof.
  intros Hpos H.
  assert (Hc : all_stamps (concat parts') = concat (map all_stamps parts')).
  { clear H. induction parts' as [|p l IH]; cbn [concat map]; [done|]. by rewrite all_stamps_app, IH. }
  rewrite Hc. apply (foldl_covers (fun p p' => Forall (fun e => ttl_pos e.2) p /\ Forall2 later p p'));
    [intros; apply baseline_min_le_l| |].
  - intros b p p' [Hp Hl]. eapply below_all_mono; [apply baseline_min_le_r|]. by apply mutations_baseline_covers.
  - clear Hc. induction H as [|p p' parts parts' Hl _ IH]; [constructor|]. apply Forall_cons in Hpos as [? Hpos]. constructor; auto.
Qed.

(** The statistics keep the seeds as their minima. *)
Definition seeded (b : Baseline) (s : StatisticsMetadata) : Prop :=
  min_timestamp s = b.1.1 /\ min_local_deletion_time s = b.1.2 /\ min_ttl s = b.2.

Lemma feed_seeded b s e : below b e -> seeded b s -> seeded b (feed s e).
Proof.
  intros Hb (H1 & H2 & H3). unfold seeded.
  destruct e; cbn in *; unfold update_timestamp, update_local_deletion_time, update_ttl in *;
    repeat case_match; cbn; rewrite ?H1, ?H2, ?H3; repeat split; try done;
    try specialize (Hb eq_refl); lia.
Qed.

Lemma feed_all_seeded b l : forall s, Forall (below b) l -> seeded b s -> seeded b (foldl feed s l).
Proof.
  induction l as [|e l IH]; intros s H Hs; cbn; [done|].
  apply Forall_cons in H as [He H]. by apply IH; [|apply feed_seeded].
Qed.

Lemma fold_partitions_seeded b parts : forall w,
  Forall (below b) (all_stamps (concat parts)) ->
  seeded b (sw_stats w) -> sw_baselines_locked w = true ->
  let w' := foldl fold_partition w parts in
  seeded b (sw_stats w') /\ sw_encoding w' = sw_encoding w.
Proof.
  induction parts as [|p parts IH]; intros w H Hs Hl; cbn [foldl concat]; [done|].
  cbn [concat] in H. rewrite all_stamps_app in H. apply Forall_app in H as [Hp H].
  destruct (IH (fold_partition w p)) as [H1 H2]; [done| |done|].
  - cbn. rewrite fold_all_feed. by apply feed_all_seeded.
  - split; [done|]. rewrite H2. cbn. by rewrite Hl.
Qed.

Definition encoding_of (b : Baseline) : EncodingStatsBaselines :=
  mkEncodingStatsBaselines b.1.1 b.2 b.1.2.

(** C27: The two passes of a flush agree, for a memtable whose every TTL, read as an [i32], is
    positive (the write path accepts a TTL of 0, which breaks the agreement and makes the
    flush fail: [ttl_zero_lowers_minimum], [ttl_zero_refused]). With the baselines of the
    pre-pass seeded, after any number of partitions the rows and cells are still encoded
    against them and the minima that go to the header are the same values, and every timestamp, local
    deletion time and TTL of every mutation, the expiries computed from a later clock
    included, is at or above its baseline: no delta is ever negative. *)
Theorem flush_baselines_cover w parts parts' n :
  positive_ttls parts -> Forall2 (Forall2 later) parts parts' ->
  let b := flush_baselines parts in
  let w' := foldl fold_partition (pre_seed_encoding_baselines b w) (take n parts') in
  sw_encoding w' = encoding_of b /\ baselines_of (sw_stats w') = encoding_of b /\
  Forall (below b) (all_stamps (concat parts')).
Proof.
  intros Hpos H b w'. pose proof (flush_baselines_cover_stamps _ _ Hpos H) as Hb. fold b in Hb.
  assert (Ht : Forall (below b) (all_stamps (concat (take n parts')))).
  { rewrite <- (take_drop n parts') in Hb. rewrite concat_app, all_stamps_app in Hb.
    by apply Forall_app in Hb as [Hb _]. }
  destruct (fold_partitions_seeded b (take n parts') (pre_seed_encoding_baselines b w)) as [H1 H2].
  - done.
  - unfold pre_seed_encoding_baselines, seeded. by destruct b as [[??]?].
  - unfold pre_seed_encoding_baselines. by destruct b as [[??]?].
  - subst w'. rewrite H2. split; [|split; [|done]].
    + unfold pre_seed_encoding_baselines, encoding_of. by destruct b as [[??]?].
    + destruct H1 as (E1 & E2 & E3). unfold baselines_of, encoding_of. by rewrite E1, E2, E3.
Qed.

(** ** The header *)

Record stats_in_range (s : StatisticsMetadata) : Prop := {
  sr_ts : is_i64 (min_timestamp s);
  sr_ldt : is_i32 (min_local_deletion_time s);
  sr_ttl : 0 <= min_ttl s <= i32_MAX;
}.

(** The statistics as the header stands for them: an empty range of timestamps is the epoch,
    an empty range of TTLs is 0. *)
Definition header_ts (s : StatisticsMetadata) : Z :=
  if min_timestamp s =? i64_MAX then TIMESTAMP_EPOCH else min_timestamp s.
Definition header_ttl (s : StatisticsMetadata) : Z :=
  if min_ttl s =? i32_MAX then 0 else min_ttl s.
(** Local deletion times below the 32-bit range of the delta come back [2 ^ 32] higher. *)
Definition header_ldt (s : StatisticsMetadata) : Z :=
  as_i32 (min_local_deletion_time s - DELETION_TIME_EPOCH) + DELETION_TIME_EPOCH.

Lemma as_u64_range x : is_u64 (as_u64 x).
Proof. apply wrap_range. lia. Qed.

Lemma as_i64_id x : is_i64 x -> as_i64 x = x.
Proof. intros H. apply swrap_id; [lia|exact H]. Qed.

Lemma as_i64_u64 x : as_i64 (as_u64 x) = as_i64 x.
Proof. apply swrap_wrap. lia. Qed.

Lemma as_i64_delta x y : as_i64 (as_i64 (as_u64 (x - y)) + y) = as_i64 x.
Proof.
  rewrite as_i64_u64. unfold as_i64. rewrite swrap_add_swrap by lia. f_equal. lia.
Qed.

Lemma write_encoding_stats_eq s :
  stats_in_range s ->
  write_encoding_stats s
  = encode_vuint (as_u64 (header_ts s - TIMESTAMP_EPOCH)) ++
    encode_vuint (as_u64 (as_i32 (min_local_deletion_time s - DELETION_TIME_EPOCH))) ++
    encode_vuint (header_ttl s).
Proof.
  intros [Ht Hl Hn]. unfold write_encoding_stats, header_ts, header_ttl. f_equal; [|f_equal].
  - f_equal. unfold as_u64, wrap. case_match; rewrite <- Zminus_mod; done.
  - do 3 f_equal. case_match; [|done]. apply Z.eqb_eq in H. by rewrite H.
  - f_equal. change (as_u64 TTL_EPOCH) with 0. rewrite Z.sub_0_r.
    case_match; [done|]. unfold as_u64. rewrite wrap_id by (rewrite ?wrap_id; unfold u_range; limits; lia).
    apply wrap_id. unfold u_range. limits. lia.
Qed.

(** The three values come back, and what follows them. *)
Lemma parse_write_encoding_stats s rest :
  stats_in_range s ->
  parse_encoding_stats_vuints (write_encoding_stats s ++ rest)
    = Ok (rest, (header_ts s, header_ldt s, Some (header_ttl s))).
Proof.
  intros Hs. pose proof Hs as [Ht Hl Hn].
  assert (Hts : is_i64 (header_ts s)).
  { unfold header_ts, TIMESTAMP_EPOCH. case_match; [limits; lia|done]. }
  assert (Httl : 0 <= header_ttl s <= i32_MAX) by (unfold header_ttl; case_match; limits; lia).
  assert (Hd : is_i32 (as_i32 (min_local_deletion_time s - DELETION_TIME_EPOCH))) by apply as_i32_range.
  rewrite write_encoding_stats_eq by done. unfold parse_encoding_stats_vuints. rewrite <- !app_assoc.
  rewrite parse_vuint_encode by apply as_u64_range. cbn [mbind result_bind].
  rewrite parse_vuint_encode by apply as_u64_range. cbn [mbind result_bind].
  rewrite parse_vuint_encode by (unfold is_u64, u_range; limits; lia). cbn [mbind result_bind].
  rewrite as_i64_delta, as_i64_id by done. unfold header_ldt.
  rewrite as_i64_u64, (as_i64_id (as_i32 _)), (as_i64_id (as_i32 _ + _)), (as_i64_id (header_ttl s)), as_i64_id;
    [by rewrite Z.add_0_r| | | |]; unfold TTL_EPOCH, DELETION_TIME_EPOCH in *; limits; lia.
Qed.

Lemma header_ldt_exact s :
  is_i32 (min_local_deletion_time s) -> i32_MIN + DELETION_TIME_EPOCH <= min_local_deletion_time s ->
  header_ldt s = min_local_deletion_time s.
Proof.
  intros Hl H. unfold header_ldt, as_i32. rewrite swrap_id; [lia|lia|].
  unfold i_range, DELETION_TIME_EPOCH in *. limits. lia.
Qed.

(** The header gives the baselines back. For every statistics [parse_encoding_stats_vuints]
    reads the three values [build_serialization_header_component] wrote and stops at the bytes
    that follow: the timestamp and TTL are the ones recorded; so is the local deletion time
    down to [i32::MIN + 1442880000], and below that it comes back modulo [2 ^ 32]. *)
Theorem encoding_stats_roundtrip s rest :
  stats_in_range s ->
  parse_encoding_stats_vuints (write_encoding_stats s ++ rest)
    = Ok (rest, (header_ts s, header_ldt s, Some (header_ttl s))) /\
  as_i32 (header_ldt s) = min_local_deletion_time s /\
  (i32_MIN + DELETION_TIME_EPOCH <= min_local_deletion_time s ->
   header_ldt s = min_local_deletion_time s).
Proof.
  intros Hs. split; [by apply parse_write_encoding_stats|]. destruct Hs as [Ht Hl Hn].
  split; [|by apply header_ldt_exact].
  unfold header_ldt, as_i32. rewrite swrap_add_swrap by lia.
  rewrite Z.sub_add. apply swrap_id; [lia|exact Hl].
Qed.

(** The two passes over the sample, the second one five seconds later. *)
Definition sample_parts_later : list (list (Clock * Mutation)) :=
  [[(clock_at 15, sample_write); (clock_at 15, sample_delete)]; [(clock_at 16, sample_row_delete)]].

Lemma sample_later : Forall2 (Forall2 later) sample_parts sample_parts_later.
Proof.
  repeat apply Forall2_cons_2; try apply Forall2_nil_2;
    (split; [done|]; intros i; unfold clock_at; cbn; lia).
Qed.

Lemma sample_positive : positive_ttls sample_parts.
Proof.
  repeat apply Forall_cons_2; try apply Forall_nil_2;
    split; cbn; repeat (apply Forall_cons_2 || apply Forall_nil_2 || split); vm_compute; done.
Qed.

Lemma flush_baselines_cover_witness :
  flush_baselines sample_parts = (5000000, 6, 60) /\
  encoding_of (flush_baselines sample_parts)
  = baselines_of (sw_stats (foldl fold_partition
      (pre_seed_encoding_baselines (flush_baselines sample_parts) new_writer) (take 2 sample_parts_later))).
Proof.
  split; [by vm_compute|]. symmetry. apply (flush_baselines_cover new_writer sample_parts).
  - exact sample_positive.
  - exact sample_later.
Defined.

Definition sample_stats : StatisticsMetadata :=
  sw_stats (foldl fold_partition new_writer sample_parts).

Lemma encoding_stats_roundtrip_witness :
  parse_encoding_stats_vuints (write_encoding_stats sample_stats ++ [1; 2])
  = Ok ([1; 2], (5000000, 6, Some 60)).
Proof.
  destruct (encoding_stats_roundtrip sample_stats [1; 2]) as [H _].
  - split; vm_compute; split; done.
  - exact H.
Defined.

(** The order of a flush: the rows are encoded against the baselines as they stand, then
    [finish] finalizes the statistics, and the header is built from the finalized ones. A
    memtable without deletions or TTLs has encoded every live complex-deletion marker
    against [i32::MAX], a delta of 0; the header announces 0, so the reader gets a marker with
    local deletion time 0, not a live one, and the [i32::MAX] arm of the header is never taken. *)
Example finalize_moves_baseline :
  let w := fold_partition new_writer
             [(clock_at 0, mutation_new (mkTableId "ks" "t")%string [] None [] 5000000 None)] in
  enc_min_local_deletion_time (sw_encoding w) = i32_MAX /\
  header_ldt (finalize (sw_stats w)) = 0 /\
  (forall s, min_local_deletion_time (finalize s) <> i32_MAX).
Proof.
  split; [done|split; [done|]]. intros s. cbn. case_match; [limits; lia|].
  by apply Z.eqb_neq.
Qed.

(** A TTL of 0: the pre-pass skips it and the expiry it stands for, the statistics count the
    expiry, and the header's minimum falls below the baseline the rows are encoded against. *)
Example ttl_zero_lowers_minimum :
  let parts := [[(clock_at 100, mutation_new (mkTableId "ks" "t")%string [] None
                                  [WriteWithTtl "v" (Integer 1) 0 None]%string 5000000 None)]] in
  let w := foldl fold_partition (pre_seed_encoding_baselines (flush_baselines parts) new_writer) parts in
  enc_min_local_deletion_time (sw_encoding w) = i32_MAX
  /\ min_local_deletion_time (sw_stats w) = 100.
Proof. by vm_compute. Qed.
