(* ===== verification/Histograms.v ===== *)
(** The two histograms of the statistics: what a tombstone histogram keeps when it merges
    bins, and which bucket of an [EstimatedHistogram] counts which observations. *)

From S2P Require Import Prelude Values Keys VInt Mutation Stats.
From Stdlib Require Import SpecFloat.

Open Scope Z_scope.

(** ** Tombstone drop times *)

Module TombstoneProps.
Import TombstoneHistogram.

(** Bins of [n] observations between [lo] and [hi]. *)
Record bins_ok (lo hi n : Z) (b : bins) : Prop := {
  bo_sorted : StronglySorted Z.lt b.*1;
  bo_bounds : Forall (fun k => lo <= k <= hi) b.*1;
  bo_pos : Forall (fun v => 0 < v) b.*2;
  bo_total : zsum b.*2 = n;
}.

Lemma entry_add_keys k n b x : x ∈ (entry_add k n b).*1 <-> x = k \/ x ∈ b.*1.
Proof.
  induction b as [|[k' v] b IH]; cbn; [rewrite list_elem_of_singleton, elem_of_nil; tauto|].
  destruct (Z.ltb_spec k k'); cbn; [by rewrite !elem_of_cons|].
  destruct (Z.eqb_spec k k') as [->|]; cbn; rewrite !elem_of_cons; [tauto|]. rewrite IH. tauto.
Qed.

Lemma entry_add_sorted k n b : StronglySorted Z.lt b.*1 -> StronglySorted Z.lt (entry_add k n b).*1.
Proof.
  induction b as [|[k' v] b IH]; cbn; intros H; [by repeat constructor|].
  apply StronglySorted_inv in H as [Hs Hf]. rewrite Forall_forall in Hf.
  destruct (Z.ltb_spec k k'); cbn; [|destruct (Z.eqb_spec k k') as [->|]; cbn].
  - constructor; [by constructor; [|apply Forall_forall]|].
    apply Forall_forall. intros x [->|Hx]%elem_of_cons; [lia|]. specialize (Hf x Hx). lia.
  - constructor; [done|by apply Forall_forall].
  - constructor; [by apply IH|]. apply Forall_forall. intros x Hx.
    apply entry_add_keys in Hx as [->|Hx]; [lia|by apply Hf].
Qed.

Lemma entry_add_total k n b : zsum (entry_add k n b).*2 = zsum b.*2 + n.
Proof.
  induction b as [|[k' v] b IH]; cbn; [rewrite !zsum_cons; cbn; lia|].
  repeat case_match; cbn; rewrite !zsum_cons; lia.
Qed.

Lemma entry_add_pos k n b :
  0 < n -> Forall (fun v => 0 < v) b.*2 -> Forall (fun v => 0 < v) (entry_add k n b).*2.
Proof.
  intros Hn. induction b as [|[k' v] b IH]; cbn; intros H; [by repeat constructor|].
  apply Forall_cons in H as [Hv H].
  repeat case_match; cbn; repeat (apply Forall_cons_2; try done); [lia|by apply IH].
Qed.

Lemma entry_add_new k n b : k ∉ b.*1 -> length (entry_add k n b) = S (length b).
Proof.
  induction b as [|[k' v] b IH]; cbn; intros H; [done|].
  rewrite elem_of_cons in H. case_match; [done|].
  destruct (Z.eqb_spec k k'); [subst; tauto|]. cbn. rewrite IH; tauto.
Qed.

Lemma entry_add_ok lo hi n k c b :
  lo <= k <= hi -> 0 < c -> bins_ok lo hi n b -> bins_ok lo hi (n + c) (entry_add k c b).
Proof.
  intros Hk Hc [H1 H2 H3 H4]. split.
  - by apply entry_add_sorted.
  - rewrite Forall_forall in *. intros x [->|Hx]%entry_add_keys; [done|by apply H2].
  - by apply entry_add_pos.
  - by rewrite entry_add_total, H4.
Qed.

Lemma closest_loop_bound b : forall i g idx n,
  (i + length b <= n)%nat -> (S idx < n)%nat -> (S (closest_loop i b g idx) < n)%nat.
Proof.
  induction b as [|[k1 v1] b IH]; intros i g idx n Hi Hx; cbn; [done|].
  destruct b as [|[k2 v2] b]; [done|]. cbn in Hi.
  case_match; apply IH; cbn; lia.
Qed.

Lemma merged_key_between k1 v1 k2 v2 :
  k1 < k2 -> 0 < v1 -> 0 < v2 -> k1 <= merged_key k1 v1 k2 v2 <= k2.
Proof.
  intros Hk H1 H2. unfold merged_key. rewrite (proj2 (Z.eqb_neq _ _)) by lia.
  assert (Hs : k1 * (v1 + v2) <= k1 * v1 + k2 * v2 <= k2 * (v1 + v2)) by nia.
  assert (Hv : 0 < v1 + v2) by lia.
  generalize dependent (k1 * v1 + k2 * v2). generalize dependent (v1 + v2). intros v Hv S Hs.
  pose proof (Z.quot_rem' S v) as E.
  destruct (Z.le_gt_cases 0 S) as [H|H].
  - pose proof (Z.rem_bound_pos S v H Hv). nia.
  - pose proof (Z.rem_bound_abs S v ltac:(lia)). pose proof (Z.rem_nonpos S v ltac:(lia) ltac:(lia)). nia.
Qed.

(** Replacing two neighbours by a bin between them. *)
Lemma merge_neighbours lo hi n l r k1 v1 k2 v2 k :
  bins_ok lo hi n (l ++ (k1, v1) :: (k2, v2) :: r) -> k1 <= k <= k2 ->
  bins_ok lo hi n (entry_add k (v1 + v2) (l ++ r)) /\
  length (entry_add k (v1 + v2) (l ++ r)) = S (length (l ++ r)).
Proof.
  intros [H1 H2 H3 H4] Hk.
  rewrite fmap_app in H1, H2, H3, H4. cbn in H1, H2, H3, H4.
  apply Forall_app in H2 as [Hl2 H2]. apply Forall_cons in H2 as [Ha H2].
  apply Forall_cons in H2 as [Hb Hr2].
  apply Forall_app in H3 as [Hl3 H3]. apply Forall_cons in H3 as [Hv1 H3].
  apply Forall_cons in H3 as [Hv2 Hr3].
  apply StronglySorted_app in H1 as (Hlt & Hl1 & Hr1).
  apply StronglySorted_inv in Hr1 as [Hr1 Hf1]. apply StronglySorted_inv in Hr1 as [Hr1 Hf2].
  rewrite Forall_forall in Hf1, Hf2.
  assert (Hok : bins_ok lo hi (n - (v1 + v2)) (l ++ r)).
  { split; rewrite fmap_app.
    - apply StronglySorted_app. split; [|done]. intros x y Hx Hy. apply Hlt; [done|].
      by do 2 apply list_elem_of_further.
    - by apply Forall_app_2.
    - by apply Forall_app_2.
    - rewrite zsum_app in *. rewrite !zsum_cons in H4. lia. }
  split.
  - replace n with (n - (v1 + v2) + (v1 + v2)) by lia.
    apply entry_add_ok; [lia|lia|done].
  - apply entry_add_new. rewrite fmap_app, elem_of_app. intros [Hx|Hx].
    + specialize (Hlt k k1 Hx (list_elem_of_here _ _)). lia.
    + specialize (Hf2 k Hx). lia.
Qed.

Lemma merge_closest_ok lo hi n b :
  (2 <= length b)%nat -> bins_ok lo hi n b ->
  bins_ok lo hi n (merge_closest_bins b) /\ S (length (merge_closest_bins b)) = length b.
Proof.
  intros Hlen Hok. unfold merge_closest_bins.
  destruct (Nat.ltb_spec (length b) 2); [lia|].
  pose proof (closest_loop_bound b 0 i64_MAX 0 (length b) ltac:(lia) ltac:(lia)) as Hi.
  set (i := closest_loop 0 b i64_MAX 0) in *.
  destruct (drop i b) as [|[k1 v1] [|[k2 v2] r]] eqn:E;
    try (apply (f_equal length) in E; rewrite length_drop in E; cbn in E; lia).
  rewrite <- (take_drop i b), E in Hok.
  assert (Hs : k1 < k2 /\ 0 < v1 /\ 0 < v2).
  { destruct Hok as [H1 _ H3 _]. rewrite fmap_app in H1, H3. cbn in H1, H3.
    apply StronglySorted_app in H1 as (_ & _ & H1). apply StronglySorted_inv in H1 as [_ H1].
    apply Forall_cons in H1 as [? _]. apply Forall_app in H3 as [_ H3].
    apply Forall_cons in H3 as [? H3]. apply Forall_cons in H3 as [? _]. done. }
  destruct Hs as (Hk & Hv1 & Hv2).
  destruct (merge_neighbours _ _ _ _ _ _ _ _ _ _ Hok (merged_key_between k1 v1 k2 v2 Hk Hv1 Hv2))
    as [H1 H2].
  split; [done|]. rewrite H2.
  apply (f_equal length) in E. rewrite length_drop in E. cbn in E.
  rewrite length_app, length_take. lia.
Qed.

Lemma shrink_ok lo hi n fuel : forall b,
  (length b <= fuel)%nat -> bins_ok lo hi n b ->
  bins_ok lo hi n (shrink fuel b) /\ zlen (shrink fuel b) <= MAX_BIN_SIZE.
Proof.
  induction fuel as [|fuel IH]; intros b Hf Hok; cbn.
  - split; [done|]. unfold zlen, MAX_BIN_SIZE. lia.
  - destruct (Z.ltb_spec MAX_BIN_SIZE (zlen b)) as [Hl|Hl]; [|done].
    assert (2 <= length b)%nat by (unfold zlen, MAX_BIN_SIZE in Hl; lia).
    destruct (merge_closest_ok lo hi n b) as [H1 H2]; [done|done|]. apply IH; [lia|done].
Qed.

Lemma shrink_id fuel b : zlen b <= MAX_BIN_SIZE -> shrink fuel b = b.
Proof. intros H. destruct fuel; cbn; [done|]. by rewrite (proj2 (Z.ltb_ge _ _)). Qed.

Definition updates (l : list Z) (b : bins) : bins := foldl (fun b d => update d b) b l.

Lemma updates_ok lo hi l : forall n b,
  Forall (fun d => lo <= d <= hi) l -> bins_ok lo hi n b -> zlen b <= MAX_BIN_SIZE ->
  bins_ok lo hi (n + zlen l) (updates l b) /\ zlen (updates l b) <= MAX_BIN_SIZE.
Proof.
  induction l as [|d l IH]; intros n b Hl Hok Hb; cbn.
  - by rewrite Z.add_0_r.
  - apply Forall_cons in Hl as [Hd Hl]. unfold update at 2 4.
    destruct (shrink_ok lo hi (n + 1) (length (entry_add d 1 b)) (entry_add d 1 b)) as [H1 H2];
      [done|apply entry_add_ok; [done|lia|done]|].
    replace (n + zlen (d :: l)) with (n + 1 + zlen l) by (unfold zlen; cbn; lia). by apply IH.
Qed.

(** The count of a point. *)
Definition count_at (d : Z) (b : list (Z * Z)) : Z := zsum (filter (fun e => e.1 = d) b).*2.

Lemma count_at_cons d k v b : count_at d ((k, v) :: b) = (if decide (k = d) then v else 0) + count_at d b.
Proof. unfold count_at. rewrite filter_cons. cbn. case_decide; cbn; rewrite ?zsum_cons; lia. Qed.

Lemma count_at_add d k n b : count_at d (entry_add k n b) = count_at d b + (if decide (k = d) then n else 0).
Proof.
  induction b as [|[k' v] b IH]; cbn [entry_add].
  - rewrite count_at_cons. unfold count_at. cbn. lia.
  - destruct (Z.ltb_spec k k'); [rewrite !count_at_cons; repeat case_decide; lia|].
    destruct (Z.eqb_spec k k') as [->|]; rewrite !count_at_cons; [|rewrite IH];
      repeat case_decide; lia.
Qed.

Definition occurrences (d : Z) (l : list Z) : Z := zlen (filter (fun x => x = d) l).

Lemma keys_bound (b : list (Z * Z)) (s : list Z) : NoDup b.*1 -> (forall k, k ∈ b.*1 -> k ∈ s) -> zlen b <= zlen s.
Proof.
  intros Hn Hs. unfold zlen. rewrite <- (length_fmap (fst (B := Z)) b).
  apply inj_le, submseteq_length, NoDup_submseteq; done.
Qed.

Lemma sorted_nodup (l : list Z) : StronglySorted Z.lt l -> NoDup l.
Proof.
  induction 1 as [|x l H IH Hf]; constructor; [|done].
  intros Hx. rewrite Forall_forall in Hf. specialize (Hf x Hx). lia.
Qed.

(** While the points are few no bin is merged. *)
Lemma updates_exact s l : forall b,
  StronglySorted Z.lt b.*1 -> zlen s <= MAX_BIN_SIZE ->
  (forall k, k ∈ b.*1 -> k ∈ s) -> (forall d, d ∈ l -> d ∈ s) ->
  forall d, count_at d (updates l b) = count_at d b + occurrences d l.
Proof.
  induction l as [|x l IH]; intros b Hb Hs Hk Hl d.
  - unfold occurrences, zlen. cbn. lia.
  - change (updates (x :: l) b) with (updates l (update x b)).
    assert (Hk' : forall k, k ∈ (entry_add x 1 b).*1 -> k ∈ s).
    { intros k [->|H]%entry_add_keys; [apply Hl, list_elem_of_here|by apply Hk]. }
    assert (Hsort : StronglySorted Z.lt (entry_add x 1 b).*1) by (by apply entry_add_sorted).
    assert (Hu : update x b = entry_add x 1 b).
    { unfold update. apply shrink_id. etrans; [|exact Hs].
      apply keys_bound; [by apply sorted_nodup|done]. }
    rewrite Hu, IH; [|done|done|done|intros; by apply Hl, list_elem_of_further].
    rewrite count_at_add. unfold occurrences. rewrite filter_cons.
    repeat case_decide; try done; unfold zlen; cbn; lia.
Qed.

(** The tombstone drop-time histogram. However many drop times it is given, in any order,
    it ends with at most 100 bins, at strictly increasing points between the smallest and the
    largest drop time, with positive counts that add up to the number of drop times: merging
    bins neither loses nor invents one. Up to 100 different drop times nothing is merged and
    each point's count is its number of occurrences. *)
Theorem tombstone_histogram_bounds l lo hi :
  Forall (fun d => lo <= d <= hi) l ->
  let b := foldl (fun b d => update d b) [] l in
  bins_ok lo hi (zlen l) b /\ zlen b <= MAX_BIN_SIZE /\
  (zlen (remove_dups l) <= MAX_BIN_SIZE -> forall d, count_at d b = occurrences d l).
Proof.
  intros H b. subst b.
  assert (H0 : bins_ok lo hi 0 []) by (by split; constructor).
  destruct (updates_ok lo hi l 0 [] H H0) as [H1 H2]; [done|].
  split; [exact H1|split; [exact H2|]]. intros Hd d.
  fold (updates l []). rewrite (updates_exact (remove_dups l)); [done|constructor|done|intros k Hk; by apply elem_of_nil in Hk|].
  intros x Hx. by apply elem_of_remove_dups.
Qed.

Lemma tombstone_histogram_bounds_witness :
  bins_ok 3 9 4 (foldl (fun b d => update d b) [] [5; 3; 9; 5]) /\
  count_at 5 (foldl (fun b d => update d b) [] [5; 3; 9; 5]) = 2.
Proof.
  destruct (tombstone_histogram_bounds [5; 3; 9; 5] 3 9) as (H1 & _ & H3).
  - repeat apply Forall_cons_2; try apply Forall_nil_2; lia.
  - split; [exact H1|]. apply H3. vm_compute. done.
Defined.
End TombstoneProps.

(** ** Estimated histograms *)

Module EstimatedProps.
Import EstimatedHistogram.

Definition increasing (l : list Z) : bool :=
  forallb (fun p => p.1 <? p.2) (zip l (tail l)).

Lemma increasing_lt l : increasing l = true ->
  forall i j x y, l !! i = Some x -> l !! j = Some y -> (i < j)%nat -> x < y.
Proof.
  induction l as [|a l IH]; intros H i j x y Hi Hj Hij; [done|].
  destruct l as [|b l].
  { destruct i, j; cbn in *; try lia; by rewrite ?lookup_nil in *. }
  unfold increasing in H. cbn in H. apply andb_true_iff in H as [Hab H].
  apply Z.ltb_lt in Hab. destruct j as [|j]; [lia|]. cbn in Hj. destruct i as [|i]; cbn in Hi.
  - simplify_eq. destruct j as [|j]; cbn in Hj; [by simplify_eq|].
    assert (b < y) by (apply (IH H 0%nat (S j)); cbn; [done|done|lia]). lia.
  - apply (IH H i j); [done|done|lia].
Qed.

Lemma search_le v l : (search v l <= length l)%nat.
Proof. apply length_filter. Qed.

(** The index of the search: everything before is below [v], what is there is not. *)
Lemma search_spec v l i :
  increasing l = true -> (i <= length l)%nat ->
  search v l = i <->
  (forall o, l !! pred i = Some o -> (0 < i)%nat -> o < v) /\ (forall o, l !! i = Some o -> v <= o).
Proof.
  revert i. induction l as [|a l IH]; intros i Hl Hi.
  - cbn in Hi. assert (i = 0%nat) as -> by lia. split; [|done]. intros _. split; intros; [lia|done].
  - assert (Hl' : increasing l = true).
    { unfold increasing in *. destruct l; [done|]. cbn in Hl. by apply andb_true_iff in Hl as [_ Hl]. }
    unfold search. rewrite filter_cons. case_decide as Ha.
    + cbn [length]. fold (search v l). destruct i as [|i].
      * split; [lia|]. intros [_ H]. specialize (H a eq_refl). lia.
      * cbn in Hi. split; [intros [= E]|intros H; f_equal]; cbn [pred lookup list_lookup] in *.
        -- apply (IH i Hl') in E as [E1 E2]; [|lia]. split; [|done].
           intros o Ho _. destruct i as [|i]; cbn in Ho; [by simplify_eq|]. apply E1; [done|lia].
        -- apply (IH i Hl'); [lia|]. destruct H as [H1 H2]. split; [|done].
           intros o Ho Hp. apply H1; [|lia]. by destruct i; [lia|].
    + assert (Hz : filter (fun o => o < v) l = []).
      { destruct (filter (fun o => o < v) l) as [|o r] eqn:Ef; [done|]. exfalso.
        assert (Ho : o ∈ filter (fun o => o < v) l) by (rewrite Ef; apply list_elem_of_here).
        apply list_elem_of_filter in Ho as [Hov Ho]. apply list_elem_of_lookup in Ho as [j Hj].
        pose proof (increasing_lt _ Hl 0 (S j) a o eq_refl Hj ltac:(lia)). lia. }
      rewrite Hz. cbn [length]. destruct i as [|i].
      * split; [|done]. intros _. split; [lia|]. intros o [= <-]. lia.
      * split; [done|]. intros [H _]. exfalso. cbn [pred] in H. cbn in Hi.
        destruct ((a :: l) !! i) as [o|] eqn:Eo; [|apply lookup_ge_None in Eo; cbn in Eo; lia].
        specialize (H o eq_refl ltac:(lia)). destruct i as [|i]; cbn in Eo; [simplify_eq; lia|].
        pose proof (increasing_lt _ Hl 0 (S i) a o eq_refl Eo ltac:(lia)). lia.
Qed.

Definition adds (l : list Z) (h : EstimatedHistogram) : EstimatedHistogram :=
  foldl (fun h v => add v h) h l.

Definition in_bucket (offs : list Z) (i : nat) (v : Z) : bool := (search (Z.min v i64_MAX) offs =? i)%nat.

Lemma adds_counts l : forall h,
  offsets (adds l h) = offsets h /\ length (counts (adds l h)) = length (counts h) /\
  forall i c, counts h !! i = Some c -> 0 <= c -> c + zlen l <= u64_MAX ->
    counts (adds l h) !! i = Some (c + zlen (List.filter (in_bucket (offsets h) i) l)).
Proof.
  induction l as [|v l IH]; intros h.
  - split; [done|split; [done|]]. intros i c H _ _. cbn. by rewrite H, Z.add_0_r.
  - change (adds (v :: l) h) with (adds l (add v h)).
    destruct (IH (add v h)) as (H1 & H2 & H3). cbn [offsets add] in H1.
    split; [done|split]; [by rewrite H2; cbn; rewrite length_alter|].
    intros i c Hc H0 Hb. cbn [List.filter]. unfold in_bucket at 1.
    assert (zlen (v :: l) = 1 + zlen l) by (unfold zlen; cbn; lia).
    pose proof (zlen_nonneg l).
    destruct (Nat.eqb_spec (search (Z.min v i64_MAX) (offsets h)) i) as [E|E].
    + rewrite (H3 i (c + 1)).
      * cbn [offsets add]. f_equal. unfold zlen. cbn. lia.
      * cbn [add counts]. rewrite E, list_lookup_alter, Hc. cbn [fmap option_fmap option_map].
        rewrite decide_True by done. unfold sat_add64. by rewrite Z.min_l by lia.
      * lia.
      * lia.
    + rewrite (H3 i c); [done| |done|lia]. cbn. by rewrite list_lookup_alter_ne.
Qed.

(** One value falls in one bucket. *)
Lemma in_bucket_total offs l : forall n,
  Forall (fun v => (search (Z.min v i64_MAX) offs < n)%nat) l ->
  zsum (map (fun i => zlen (List.filter (in_bucket offs i) l)) (seq 0 n)) = zlen l.
Proof.
  induction l as [|v l IH]; intros n H.
  - clear H. generalize 0%nat. induction n as [|n IH]; intros k; cbn; [done|].
    by rewrite zsum_cons, IH.
  - apply Forall_cons in H as [Hv H]. specialize (IH n H).
    assert (E : zlen (v :: l) = 1 + zlen l) by (unfold zlen; cbn; lia). rewrite E, <- IH. clear E IH H.
    set (s := search (Z.min v i64_MAX) offs) in *.
    assert (Hin : forall k m, (k <= s < k + m)%nat ->
      zsum (map (fun i => zlen (List.filter (in_bucket offs i) (v :: l))) (seq k m))
      = 1 + zsum (map (fun i => zlen (List.filter (in_bucket offs i) l)) (seq k m))).
    { assert (Hout : forall k m, (s < k \/ k + m <= s)%nat ->
        zsum (map (fun i => zlen (List.filter (in_bucket offs i) (v :: l))) (seq k m))
        = zsum (map (fun i => zlen (List.filter (in_bucket offs i) l)) (seq k m))).
      { intros k m. revert k. induction m as [|m IH]; intros k Hk; cbn [seq map]; [done|].
        rewrite !zsum_cons, IH by lia. f_equal. cbn [List.filter]. unfold in_bucket at 1. fold s.
        by rewrite (proj2 (Nat.eqb_neq _ _)) by lia. }
      intros k m. revert k. induction m as [|m IH]; intros k Hk; cbn [seq map]; [lia|].
      rewrite !zsum_cons. destruct (Nat.eq_dec s k) as [Hsk|Hne].
      - rewrite Hout by lia. cbn [List.filter]. unfold in_bucket at 1. fold s.
        rewrite (proj2 (Nat.eqb_eq _ _)) by done. unfold zlen. cbn [length]. lia.
      - rewrite IH by lia. cbn [List.filter]. unfold in_bucket at 1. fold s.
        rewrite (proj2 (Nat.eqb_neq _ _)) by lia. lia. }
    apply Hin. lia.
Qed.

(** The bucket of index [i] counts the values above the offset before it, up to its own. *)
Definition bucket_of (offs : list Z) (i : nat) (v : Z) : bool :=
  let v := Z.min v i64_MAX in
  ((i =? 0)%nat || (default i64_MIN (offs !! pred i) <? v)) && (v <=? default i64_MAX (offs !! i)).

Lemma in_bucket_of offs i v :
  increasing offs = true -> (i <= length offs)%nat -> in_bucket offs i v = bucket_of offs i v.
Proof.
  intros Hl Hi. unfold in_bucket, bucket_of. apply eq_true_iff_eq.
  rewrite Nat.eqb_eq, (search_spec _ _ _ Hl Hi), andb_true_iff, orb_true_iff.
  rewrite Nat.eqb_eq, Z.ltb_lt, Z.leb_le. split.
  - intros [H1 H2]. split.
    + destruct i as [|i]; [by left|right]. cbn in *.
      destruct (offs !! i) as [o|] eqn:E; [cbn; apply (H1 o); [done|lia]|]. apply lookup_ge_None in E. lia.
    + destruct (offs !! i) as [o|]; cbn; [by apply H2|lia].
  - intros [H1 H2]. split.
    + intros o Ho Hp. destruct H1 as [->|H1]; [lia|]. by rewrite Ho in H1.
    + intros o Ho. by rewrite Ho in H2.
Qed.

Lemma sat_sum l : forall a,
  0 <= a -> Forall (fun x => 0 <= x) l -> a + zsum l <= u64_MAX -> foldl sat_add64 a l = a + zsum l.
Proof.
  induction l as [|x l IH]; intros a Ha Hl Hb; cbn [foldl]; [unfold zsum; cbn; lia|].
  apply Forall_cons in Hl as [Hx Hl]. rewrite zsum_cons in *. pose proof (zsum_nonneg l Hl).
  unfold sat_add64 at 2. rewrite Z.min_l by lia. rewrite IH by (try done; lia). lia.
Qed.

(** The two shapes the writer seeds. *)
Lemma shapes_increasing n : n = 155%nat \/ n = 118%nat ->
  increasing (new_offsets n) = true /\ length (new_offsets n) = n.
Proof. intros [->| ->]; split; vm_compute; reflexivity. Qed.

(** The estimated histograms of an SSTable. The offsets the float series of [new_offsets]
    computes are strictly increasing, 155 up to 3520571548412 and 118 up to 4139110981; after any
    observations each bucket counts exactly those above the previous offset and up to its own,
    the last one those above every offset; and the counts add up to the number of
    observations, which is what the reader takes for the number of partitions. *)
Theorem estimated_histogram_exact n l :
  n = 155%nat \/ n = 118%nat -> zlen l <= u64_MAX ->
  let h := foldl (fun h v => add v h) (with_offset_count n) l in
  offsets h = new_offsets n /\ increasing (new_offsets n) = true /\
  last (new_offsets n) = Some (if (n =? 155)%nat then 3520571548412 else 4139110981) /\
  length (counts h) = S n /\
  (forall i, (i <= n)%nat ->
     counts h !! i = Some (zlen (List.filter (bucket_of (new_offsets n) i) l))) /\
  total h = zlen l.
Proof.
  intros Hn Hl h. destruct (shapes_increasing n Hn) as [Hi Hlen].
  destruct (adds_counts l (with_offset_count n)) as (H1 & H2 & H3).
  fold (adds l (with_offset_count n)) in h. fold h in H1, H2, H3. cbn [offsets counts with_offset_count] in *.
  rewrite length_replicate, Hlen in H2.
  assert (Hc : forall i, (i <= n)%nat ->
    counts h !! i = Some (zlen (List.filter (in_bucket (new_offsets n) i) l))).
  { intros i Hin. rewrite (H3 i 0); [by rewrite Z.add_0_l| |lia|lia].
    apply lookup_replicate. split; [done|lia]. }
  repeat split; try done.
  - destruct Hn as [->| ->]; vm_compute; reflexivity.
  - intros i Hin. rewrite Hc by done. do 2 f_equal. apply filter_ext. intros v.
    apply in_bucket_of; [done|lia].
  - assert (E : counts h = map (fun i => zlen (List.filter (in_bucket (new_offsets n) i) l)) (seq 0 (S n))).
    { apply list_eq. intros i. destruct (Nat.le_gt_cases i n).
      - rewrite Hc by done. rewrite list_lookup_fmap, lookup_seq_lt by lia. done.
      - rewrite !lookup_ge_None_2; [done|rewrite length_map, length_seq; lia|lia]. }
    assert (Hs : zsum (counts h) = zlen l).
    { rewrite E. apply in_bucket_total. apply Forall_forall. intros v _.
      pose proof (search_le (Z.min v i64_MAX) (new_offsets n)). lia. }
    unfold total. rewrite sat_sum; [lia|lia| |lia].
    rewrite E. apply Forall_forall. intros x Hx. apply list_elem_of_In, in_map_iff in Hx as (i & <- & _).
    apply zlen_nonneg.
Qed.

Lemma estimated_histogram_exact_witness :
  let h := foldl (fun h v => add v h) (with_offset_count 118) [1; 2; 2; 5000000000] in
  total h = 4 /\ counts h !! 1%nat = Some 2 /\ counts h !! 118%nat = Some 1.
Proof.
  destruct (estimated_histogram_exact 118 [1; 2; 2; 5000000000]) as (_ & _ & _ & _ & H5 & H6).
  - by right.
  - vm_compute. done.
  - split; [exact H6|split].
    + rewrite H5 by lia. vm_compute. done.
    + rewrite H5 by lia. vm_compute. done.
Defined.
End EstimatedProps.
