(* ===== verification/Cells.v ===== *)
(** Cells of Data.db: the writers of [sstable/writer/data_writer/cells.rs] with the value
    encoding of [encoding.rs], and the reader of [sstable/reader/parsing/row_decoder]
    ([cell_value.rs], [cell_value_scalar.rs], [cell_kind.rs], the counter context of
    [udt.rs]). The reader runs on the bytes from the current offset on and returns what is
    left of them. Subtractions of [i64] timestamps wrap, as in a release build.

    Collections, tuples and UDTs go through two interfaces: [ValueSerializer] on the write
    side, bound to agree with the scalar arms, and [ComplexDecoder] on the read side. *)

From S2P Require Import Prelude Values VInt Stats.

Open Scope Z_scope.

(** ** Flags *)

Definition CELL_IS_DELETED : Z := 0x01.
Definition CELL_IS_EXPIRING : Z := 0x02.
Definition CELL_HAS_EMPTY_VALUE : Z := 0x04.
Definition CELL_USE_ROW_TIMESTAMP : Z := 0x08.
Definition CELL_USE_ROW_TTL : Z := 0x10.

Definition has_flag (flags flag : Z) : bool := negb (Z.land flags flag =? 0).

(** ** Values, written *)

(** The arms of [serialize_value_into] for scalar values: the bytes appended; [None]
    stands for the other arms. *)
Definition serialize_scalar (v : Value) : option (list Z) :=
  match v with
  | Null => Some []
  | Boolean b => Some [if b then 1 else 0]
  | TinyInt n => Some [as_u8 n]
  | SmallInt n => Some (be_bytes 2 n)
  | Integer n => Some (be_bytes 4 n)
  | BigInt n | Counter n | Timestamp n | Time n => Some (be_bytes 8 n)
  | Float32 bits => Some (be_bytes 4 bits)
  | Float bits => Some (be_bytes 8 bits)
  | Text s | Blob s | Uuid s | Inet s | Varint s => Some s
  | Date days => Some (be_bytes 4 (as_u32 (as_i32 (days - i32_MIN))))
  | Decimal scale unscaled => Some (be_bytes 4 scale ++ unscaled)
  | Duration months days nanos =>
      Some (encode_signed nanos (encode_signed days (encode_signed months [])))
  | _ => None
  end.

(** [serialize_value_into] over all values. *)
Class ValueSerializer := {
  serialize_value : Value -> result Error (list Z);
  serialize_value_scalar : forall v bytes, serialize_scalar v = Some bytes -> serialize_value v = Ok bytes;
}.

(** The scalar arms alone; every other value is refused. *)
Definition scalar_serializer : ValueSerializer.
Proof.
  refine {| serialize_value v := ok_or InvalidInput (serialize_scalar v) |}.
  intros v bytes H. by rewrite H.
Defined.

Definition cell_value_uses_length_prefix (v : Value) : bool :=
  match v with
  | Boolean _ | Integer _ | BigInt _ | Float32 _ | Float _ | Timestamp _ | Uuid _ => false
  | _ => true
  end.

(** ** Values, read *)

Definition MAX_CELL_VALUE_LENGTH : Z := 64 * 1024 * 1024.
Definition MAX_COUNTER_SHARDS : Z := 1024.

(** [CellKind]: the decode of a column, resolved from its type. *)
Inductive CellKind :=
| KBoolean | KInt | KText | KUuid | KDecimal | KBigInt | KCounter | KDouble | KTimestamp
| KDate | KDuration | KFloat | KSmallInt | KTinyInt | KTime | KInet | KBlob
| KComplex (lowered : string).

(** The match of [CellKind::from_type] on the lowercased type. *)
#[local] Open Scope string_scope.
Definition from_lowered_type (lowered : string) : CellKind :=
  if bool_decide (lowered = "boolean") then KBoolean
  else if bool_decide (lowered = "int") then KInt
  else if bool_decide (lowered ∈ ["text"; "varchar"; "ascii"]) then KText
  else if bool_decide (lowered ∈ ["uuid"; "timeuuid"]) then KUuid
  else if bool_decide (lowered = "decimal") then KDecimal
  else if bool_decide (lowered = "bigint") then KBigInt
  else if bool_decide (lowered = "counter") then KCounter
  else if bool_decide (lowered = "double") then KDouble
  else if bool_decide (lowered = "timestamp") then KTimestamp
  else if bool_decide (lowered = "date") then KDate
  else if bool_decide (lowered = "duration") then KDuration
  else if bool_decide (lowered = "float") then KFloat
  else if bool_decide (lowered ∈ ["smallint"; "short"]) then KSmallInt
  else if bool_decide (lowered ∈ ["tinyint"; "byte"]) then KTinyInt
  else if bool_decide (lowered = "time") then KTime
  else if bool_decide (lowered = "inet") then KInet
  else if bool_decide (lowered = "blob") then KBlob
  else KComplex lowered.
#[local] Close Scope string_scope.

(** [decode_complex_cell_value]: frozen values, tuples, collections, varints. *)
Class ComplexDecoder := {
  decode_complex_cell_value : string -> list Z -> result Error (Value * list Z);
}.

(** [std::str::from_utf8]: well-formed UTF-8. *)
Definition between (lo b hi : Z) : bool := (lo <=? b) && (b <=? hi).

Fixpoint utf8_valid (s : list Z) : bool :=
  match s with
  | [] => true
  | b0 :: s1 =>
      if between 0 b0 0x7F then utf8_valid s1
      else match s1 with
      | [] => false
      | b1 :: s2 =>
          if between 0xC2 b0 0xDF && between 0x80 b1 0xBF then utf8_valid s2
          else match s2 with
          | [] => false
          | b2 :: s3 =>
              if between 0xE0 b0 0xEF && between (if b0 =? 0xE0 then 0xA0 else 0x80) b1
                   (if b0 =? 0xED then 0x9F else 0xBF) && between 0x80 b2 0xBF
              then utf8_valid s3
              else match s3 with
              | [] => false
              | b3 :: s4 =>
                  between 0xF0 b0 0xF4 && between (if b0 =? 0xF0 then 0x90 else 0x80) b1
                    (if b0 =? 0xF4 then 0x8F else 0xBF) && between 0x80 b2 0xBF
                    && between 0x80 b3 0xBF && utf8_valid s4
              end
          end
      end
  end.

(** [n] bytes, or corruption. *)
Definition take_bytes (n : Z) (input : list Z) : result Error (list Z * list Z) :=
  if zlen input <? n then Err Corruption
  else Ok (take (Z.to_nat n) input, drop (Z.to_nat n) input).

Definition read_vuint (input : list Z) : result Error (Z * list Z) :=
  match parse_vuint input with Ok (rest, v) => Ok (v, rest) | Err _ => Err Corruption end.

Definition read_vint (input : list Z) : result Error (Z * list Z) :=
  match parse_vint input with Ok (rest, v) => Ok (v, rest) | Err _ => Err Corruption end.

Definition read_vint_length_prefixed_bytes (input : list Z) : result Error (list Z * list Z) :=
  if is_empty input then Err Corruption
  else
    '(len, rest) ← read_vuint input;
    if len >? MAX_CELL_VALUE_LENGTH then Err Corruption else take_bytes len rest.

(** A fixed length behind a length prefix that must announce it. *)
Definition read_expected (n : Z) (input : list Z) : result Error (list Z * list Z) :=
  if is_empty input then Err Corruption
  else
    '(len, rest) ← read_vuint input;
    if negb (len =? n) then Err Corruption else take_bytes n rest.

(** The sum of the shard counts, [checked_add]. *)
Fixpoint sum_shards (shard_count : nat) (body : list Z) (total : Z) : result Error Z :=
  match shard_count with
  | O => Ok total
  | S n =>
      let count := as_i64 (from_be (take 8 (drop 24 body))) in
      if bool_decide (is_i64 (total + count)) then sum_shards n (drop 32 body) (total + count)
      else Err Corruption
  end.

Definition parse_counter_context (data : list Z) : result Error (Z * Z) :=
  '(h, rest) ← take_bytes 2 data;
  let shard_count := Z.abs (swrap 16 (from_be h)) in
  if shard_count >? MAX_COUNTER_SHARDS then Err Corruption
  else if shard_count =? 0 then Ok (0, 2)
  else
    '(_, rest) ← take_bytes (2 * shard_count) rest;
    '(body, _) ← take_bytes (32 * shard_count) rest;
    total ← sum_shards (Z.to_nat shard_count) body 0;
    Ok (total, 2 + 2 * shard_count + 32 * shard_count).

Definition decode_counter (input : list Z) : result Error (Value * list Z) :=
  if is_empty input then Err Corruption
  else
    '(context_len, rest) ← read_vuint input;
    if context_len >? MAX_CELL_VALUE_LENGTH then Err Corruption
    else if context_len >? zlen rest then Err Corruption
    else
      match parse_counter_context rest with
      | Ok (total, consumed) =>
          if consumed =? context_len then Ok (Counter total, drop (Z.to_nat consumed) rest)
          else if context_len =? 8
               then Ok (Counter (as_i64 (from_be (take 8 rest))), drop 8 rest)
               else Err Corruption
      | Err e =>
          if context_len =? 8 then Ok (Counter (as_i64 (from_be (take 8 rest))), drop 8 rest)
          else Err e
      end.

Definition decode_duration (bytes : list Z) : result Error Value :=
  '(months, rest) ← read_vint bytes;
  '(days, rest) ← read_vint rest;
  '(nanos, _) ← read_vint rest;
  if bool_decide (is_i32 months) && bool_decide (is_i32 days)
  then Ok (Duration months days nanos) else Err Corruption.

Definition decode_scalar_cell_value (kind : CellKind) (input : list Z) : result Error (Value * list Z) :=
  match kind with
  | KBlob => '(b, r) ← read_vint_length_prefixed_bytes input; Ok (Blob b, r)
  | KBoolean => '(b, r) ← take_bytes 1 input; Ok (Boolean (negb (from_be b =? 0)), r)
  | KInt => '(b, r) ← take_bytes 4 input; Ok (Integer (as_i32 (from_be b)), r)
  | KText =>
      '(b, r) ← read_vint_length_prefixed_bytes input;
      if utf8_valid b then Ok (Text b, r) else Err Corruption
  | KUuid => '(b, r) ← take_bytes 16 input; Ok (Uuid b, r)
  | KDecimal =>
      '(b, r) ← read_vint_length_prefixed_bytes input;
      if zlen b <? 4 then Err Corruption
      else Ok (Decimal (as_i32 (from_be (take 4 b))) (drop 4 b), r)
  | KBigInt => '(b, r) ← take_bytes 8 input; Ok (BigInt (as_i64 (from_be b)), r)
  | KCounter => decode_counter input
  | KDouble => '(b, r) ← take_bytes 8 input; Ok (Float (from_be b), r)
  | KTimestamp => '(b, r) ← take_bytes 8 input; Ok (Timestamp (as_i64 (from_be b)), r)
  | KDate =>
      '(b, r) ← read_expected 4 input;
      Ok (Date (as_i32 (as_u32 (from_be b + as_u32 i32_MIN))), r)
  | KDuration =>
      '(b, r) ← read_vint_length_prefixed_bytes input;
      v ← decode_duration b; Ok (v, r)
  | KFloat => '(b, r) ← take_bytes 4 input; Ok (Float32 (from_be b), r)
  | KSmallInt => '(b, r) ← read_expected 2 input; Ok (SmallInt (swrap 16 (from_be b)), r)
  | KTinyInt => '(b, r) ← read_expected 1 input; Ok (TinyInt (as_i8 (from_be b)), r)
  | KTime => '(b, r) ← read_expected 8 input; Ok (Time (as_i64 (from_be b)), r)
  | KInet =>
      if is_empty input then Err Corruption
      else
        '(len, rest) ← read_vuint input;
        if negb (len =? 4) && negb (len =? 16) then Err Corruption
        else '(b, r) ← take_bytes len rest; Ok (Inet b, r)
  | KComplex _ => Err Corruption
  end.

(** ** Cells, written *)

Section Writer.
Context `{ValueSerializer}.

Definition write_cell_value_into (buf : list Z) (value : Value) : result Error (list Z) :=
  bytes ← serialize_value value;
  if zlen bytes >? i64_MAX then Err InvalidInput
  else if cell_value_uses_length_prefix value
       then Ok (encode_unsigned (zlen bytes) buf ++ bytes)
       else Ok (buf ++ bytes).

(** [matches!(value, Value::Text(s) if s.is_empty())]. *)
Definition is_empty_string (v : Value) : bool :=
  match v with Text s => is_empty s | _ => false end.

Definition empty_flag (v : Value) : Z := if is_empty_string v then CELL_HAS_EMPTY_VALUE else 0.

(** The value, unless the flags say there is none. *)
Definition write_value (flags : Z) (buf : list Z) (value : Value) : result Error (list Z) :=
  if has_flag flags CELL_HAS_EMPTY_VALUE then Ok buf else write_cell_value_into buf value.

Definition timestamp_delta (b : EncodingStatsBaselines) (timestamp : Z) : Z :=
  as_u64 (timestamp - enc_min_timestamp b).

(** A delta against a 32-bit baseline, refused below it. *)
Definition write_delta (value baseline : Z) (buf : list Z) : result Error (list Z) :=
  if value - baseline <? 0 then Err InvalidInput else Ok (encode_unsigned (value - baseline) buf).

Definition write_cell (b : EncodingStatsBaselines) (buf : list Z) (value : Value) (timestamp : Z) :
    result Error (list Z) :=
  if is_null value then Err InvalidInput
  else
    let flags := Z.lor CELL_USE_ROW_TIMESTAMP (empty_flag value) in
    let buf := buf ++ [flags] in
    let buf := if negb (has_flag flags CELL_USE_ROW_TIMESTAMP)
               then encode_unsigned (timestamp_delta b timestamp) buf else buf in
    write_value flags buf value.

Definition write_cell_explicit_ts (b : EncodingStatsBaselines) (buf : list Z) (value : Value)
    (timestamp : Z) : result Error (list Z) :=
  if is_null value then Err InvalidInput
  else
    let flags := empty_flag value in
    write_value flags (encode_unsigned (timestamp_delta b timestamp) (buf ++ [flags])) value.

Definition write_cell_with_ttl (b : EncodingStatsBaselines) (buf : list Z) (value : Value)
    (timestamp ttl_seconds : Z) (explicit_ldt : option Z) (now_seconds : Z) : result Error (list Z) :=
  if is_null value then Err InvalidInput
  else
    let local_deletion_time :=
      match explicit_ldt with Some ldt => ldt | None => expiring_ldt now_seconds ttl_seconds end in
    let flags := Z.lor CELL_IS_EXPIRING (empty_flag value) in
    let buf := encode_unsigned (timestamp_delta b timestamp) (buf ++ [flags]) in
    buf ← write_delta local_deletion_time (enc_min_local_deletion_time b) buf;
    buf ← write_delta ttl_seconds (enc_min_ttl b) buf;
    write_value flags buf value.

Definition write_cell_with_row_ttl (buf : list Z) (value : Value) : result Error (list Z) :=
  if is_null value then Err InvalidInput
  else
    let flags := Z.lor (Z.lor (Z.lor CELL_IS_EXPIRING CELL_USE_ROW_TIMESTAMP) CELL_USE_ROW_TTL)
                   (empty_flag value) in
    write_value flags (buf ++ [flags]) value.

Definition write_tombstone_cell (b : EncodingStatsBaselines) (buf : list Z)
    (timestamp local_deletion_time : Z) : result Error (list Z) :=
  let flags := Z.lor CELL_IS_DELETED CELL_HAS_EMPTY_VALUE in
  let buf := encode_unsigned (timestamp_delta b timestamp) (buf ++ [flags]) in
  write_delta local_deletion_time (enc_min_local_deletion_time b) buf.
End Writer.

(** ** Cells, read *)

(** The parser's baselines and the version gate of its deletion times. *)
Record Parser := mkParser {
  p_min_timestamp : Z;
  p_min_local_deletion_time : Z;
  p_min_ttl : option Z;
  p_has_uint_deletion_time : bool;
}.

Record CellExpiration := mkCellExpiration { ce_ttl_seconds : Z; ce_expires_at_seconds : Z }.

(** An optional field: read when [present]. *)
Definition read_field (present : bool) (decode : Z -> Z) (input : list Z) :
    result Error (option Z * list Z) :=
  if present then '(delta, rest) ← read_vuint input; Ok (Some (decode delta), rest)
  else Ok (None, input).

Definition empty_value (kind : CellKind) : Value :=
  match kind with
  | KText => Text []
  | KBlob => Blob []
  | KComplex lowered => if bool_decide (lowered = "varint"%string) then Varint [] else Null
  | _ => Null
  end.

Definition parse_cell_value_schema_order `{ComplexDecoder} (p : Parser) (kind : CellKind)
    (data : list Z) : result Error (Value * option Z * option CellExpiration * list Z) :=
  match data with
  | [] => Err Corruption
  | flags :: data =>
      if flags >? 0x1F then Err Corruption
      else
        let is_deleted := has_flag flags CELL_IS_DELETED in
        let is_expiring := has_flag flags CELL_IS_EXPIRING in
        let has_empty_value := has_flag flags CELL_HAS_EMPTY_VALUE in
        let use_row_timestamp := has_flag flags CELL_USE_ROW_TIMESTAMP in
        let use_row_ttl := has_flag flags CELL_USE_ROW_TTL in
        '(cell_timestamp, data) ←
          read_field (negb use_row_timestamp)
            (fun d => as_i64 (p_min_timestamp p + as_i64 d)) data;
        '(cell_ldt, data) ←
          read_field (negb use_row_ttl && (is_deleted || is_expiring))
            (fun d => as_i64 (p_min_local_deletion_time p + as_i64 d)) data;
        '(cell_ttl, data) ←
          read_field (negb use_row_ttl && is_expiring)
            (fun d => as_i32 (Z.min (as_i64 (default 0 (p_min_ttl p) + as_i64 d)) i32_MAX)) data;
        let cell_expiration :=
          match is_expiring, cell_ldt, cell_ttl with
          | true, Some expires_at, Some ttl => Some (mkCellExpiration ttl expires_at)
          | _, _, _ => None
          end in
        if is_deleted then
          Ok (Tombstone (mkTombstoneInfo (default 0 cell_timestamp) CellTombstone
                           (default 0 cell_ldt) None None None),
              cell_timestamp, cell_expiration, data)
        else if has_empty_value then Ok (empty_value kind, cell_timestamp, cell_expiration, data)
        else
          '(value, data) ←
            match kind with
            | KComplex lowered => decode_complex_cell_value lowered data
            | _ => decode_scalar_cell_value kind data
            end;
          Ok (value, cell_timestamp, cell_expiration, data)
  end.
