(* ===== verification/CellProps.v ===== *)
(** Properties of cells: what the writers emit, the reader reads back. *)

From S2P Require Import Prelude Values VInt Stats StatsProps Baselines Cells.

Open Scope Z_scope.

(** ** Reading what was appended *)

Create HintDb wire.

Lemma take_bytes_app n b rest : zlen b = n -> take_bytes n (b ++ rest) = Ok (b, rest).
Proof.
  intros <-. unfold take_bytes. rewrite zlen_app. pose proof (zlen_nonneg rest).
  rewrite (proj2 (Z.ltb_ge _ _)) by lia. unfold zlen. rewrite Nat2Z.id.
  by rewrite take_app_length, drop_app_length.
Qed.

Lemma read_vuint_encode v rest : is_u64 v -> read_vuint (encode_vuint v ++ rest) = Ok (v, rest).
Proof. intros H. unfold read_vuint. by rewrite parse_vuint_encode. Qed.

Lemma read_vint_encode v rest : is_i64 v -> read_vint (encode_vint v ++ rest) = Ok (v, rest).
Proof. intros H. unfold read_vint. by rewrite parse_vint_encode. Qed.

Lemma encode_vuint_not_empty v rest : is_u64 v -> is_empty (encode_vuint v ++ rest) = false.
Proof. intros H. rewrite encode_vuint_canonical by done. done. Qed.

Lemma zlen_u64 {A} (l : list A) : zlen l <= MAX_CELL_VALUE_LENGTH -> is_u64 (zlen l).
Proof. pose proof (zlen_nonneg l). unfold MAX_CELL_VALUE_LENGTH, is_u64, u_range. lia. Qed.

Lemma read_length_prefixed b rest :
  zlen b <= MAX_CELL_VALUE_LENGTH ->
  read_vint_length_prefixed_bytes (encode_vuint (zlen b) ++ b ++ rest) = Ok (b, rest).
Proof.
  intros H. pose proof (zlen_u64 b H). unfold read_vint_length_prefixed_bytes.
  rewrite encode_vuint_not_empty, read_vuint_encode by done. cbn [mbind result_bind].
  destruct (Z.gtb_spec (zlen b) MAX_CELL_VALUE_LENGTH); [lia|]. by apply take_bytes_app.
Qed.

Lemma read_expected_app n b rest :
  zlen b = n -> is_u64 n -> read_expected n (encode_vuint n ++ b ++ rest) = Ok (b, rest).
Proof.
  intros Hb H. unfold read_expected. rewrite encode_vuint_not_empty, read_vuint_encode by done.
  cbn [mbind result_bind]. rewrite Z.eqb_refl. by apply take_bytes_app.
Qed.

Lemma zlen_be_bytes k v : zlen (be_bytes k v) = Z.of_nat k.
Proof. unfold zlen. by rewrite be_bytes_length. Qed.

Lemma signed_be k w n :
  w = 8 * Z.of_nat k -> 0 < w -> i_range w n -> swrap w (from_be (be_bytes k n)) = n.
Proof.
  intros -> Hw H. rewrite from_be_bytes, pow256.
  change (n mod 2 ^ (8 * Z.of_nat k)) with (wrap (8 * Z.of_nat k) n).
  rewrite swrap_wrap by done. by apply swrap_id.
Qed.

Lemma unsigned_be k w n : w = 8 * Z.of_nat k -> u_range w n -> from_be (be_bytes k n) = n.
Proof. intros ->. apply from_be_bytes_id. Qed.

(** ** Scalar values *)

Definition kind_of (v : Value) : option CellKind :=
  match v with
  | Boolean _ => Some KBoolean
  | TinyInt _ => Some KTinyInt
  | SmallInt _ => Some KSmallInt
  | Integer _ => Some KInt
  | BigInt _ => Some KBigInt
  | Counter _ => Some KCounter
  | Float32 _ => Some KFloat
  | Float _ => Some KDouble
  | Text _ => Some KText
  | Blob _ => Some KBlob
  | Timestamp _ => Some KTimestamp
  | Date _ => Some KDate
  | Time _ => Some KTime
  | Uuid _ => Some KUuid
  | Inet _ => Some KInet
  | Decimal _ _ => Some KDecimal
  | Duration _ _ _ => Some KDuration
  | _ => None
  end.

(** Values of their types; a variable-width one within the reader's bound. *)
Definition value_ok (v : Value) : Prop :=
  match v with
  | TinyInt n => i_range 8 n
  | SmallInt n => i_range 16 n
  | Integer n | Date n => is_i32 n
  | BigInt n | Counter n | Timestamp n | Time n => is_i64 n
  | Float32 bits => u_range 32 bits
  | Float bits => u_range 64 bits
  | Text s => utf8_valid s = true /\ zlen s <= MAX_CELL_VALUE_LENGTH
  | Blob s => zlen s <= MAX_CELL_VALUE_LENGTH
  | Uuid s => zlen s = 16
  | Inet s => zlen s = 4 \/ zlen s = 16
  | Decimal scale unscaled => is_i32 scale /\ 4 + zlen unscaled <= MAX_CELL_VALUE_LENGTH
  | Duration months days nanos => is_i32 months /\ is_i32 days /\ is_i64 nanos
  | _ => True
  end.

(** The bytes of a scalar cell value after the header. *)
Definition wire (v : Value) : list Z :=
  let bytes := default [] (serialize_scalar v) in
  if cell_value_uses_length_prefix v then encode_vuint (zlen bytes) ++ bytes else bytes.

Lemma decode_counter_raw n rest :
  is_i64 n -> decode_counter (encode_vuint 8 ++ be_bytes 8 n ++ rest) = Ok (Counter n, rest).
Proof.
  intros H. unfold decode_counter.
  assert (H8 : is_u64 8) by (unfold is_u64, u_range; lia).
  rewrite encode_vuint_not_empty, read_vuint_encode by done. cbn [mbind result_bind].
  assert (Hz : (8 >? zlen (be_bytes 8 n ++ rest)) = false).
  { rewrite zlen_app, zlen_be_bytes. pose proof (zlen_nonneg rest).
    destruct (Z.gtb_spec 8 (Z.of_nat 8 + zlen rest)); [lia|done]. }
  change (8 >? MAX_CELL_VALUE_LENGTH) with false. rewrite Hz.
  assert (Hraw : (Counter (as_i64 (from_be (take 8 (be_bytes 8 n ++ rest)))),
                  drop 8 (be_bytes 8 n ++ rest)) = (Counter n, rest)).
  { rewrite <- (be_bytes_length 8 n) at 1 3.
    rewrite take_app_length, drop_app_length. unfold as_i64. by rewrite (signed_be 8 64). }
  assert (Hne : forall t c, parse_counter_context (be_bytes 8 n ++ rest) = Ok (t, c) -> c <> 8).
  { intros t c E. unfold parse_counter_context in E.
    destruct (take_bytes 2 _) as [[h r]|]; [|done]. cbn [mbind result_bind] in E.
    repeat case_match; simplify_eq; try lia.
    destruct (take_bytes _ r) as [[i r']|]; [|done]. cbn [mbind result_bind] in E.
    destruct (take_bytes _ r') as [[b r'']|]; [|done]. cbn [mbind result_bind] in E.
    destruct (sum_shards _ _ _); [|done]. cbn [mbind result_bind] in E. simplify_eq. lia. }
  destruct (parse_counter_context _) as [[t c]|e]; [|by rewrite Hraw].
  specialize (Hne t c eq_refl). rewrite (proj2 (Z.eqb_neq _ _)) by done. by rewrite Hraw.
Qed.

Lemma duration_bytes m d n :
  is_i64 m -> is_i64 d -> is_i64 n ->
  encode_signed n (encode_signed d (encode_signed m [])) = encode_vint m ++ encode_vint d ++ encode_vint n.
Proof. intros. rewrite !encode_signed_app by done. by rewrite <- !app_assoc. Qed.

Lemma i32_i64 x : is_i32 x -> is_i64 x.
Proof. limits. lia. Qed.

Lemma decode_duration_bytes m d n :
  is_i32 m -> is_i32 d -> is_i64 n ->
  decode_duration (encode_vint m ++ encode_vint d ++ encode_vint n) = Ok (Duration m d n).
Proof.
  intros Hm Hd Hn. unfold decode_duration.
  rewrite read_vint_encode by (by apply i32_i64). cbn [mbind result_bind].
  rewrite read_vint_encode by (by apply i32_i64). cbn [mbind result_bind].
  rewrite <- (app_nil_r (encode_vint n)), read_vint_encode by done. cbn [mbind result_bind].
  by rewrite !bool_decide_eq_true_2.
Qed.

Lemma encode_vint_length v : is_i64 v -> zlen (encode_vint v) <= 9.
Proof.
  intros H. unfold encode_vint. rewrite encode_vint_zigzag_eq.
  rewrite <- unsigned_len_vuint by (by apply zigzag_encode_u64).
  rewrite unsigned_len_extra by (by apply zigzag_encode_u64).
  pose proof (extra_of_le (zigzag_encode v)). lia.
Qed.

Lemma date_back days :
  is_i32 days -> as_i32 (as_u32 (as_u32 (as_i32 (days - i32_MIN)) + as_u32 i32_MIN)) = days.
Proof.
  intros H. unfold as_i32, as_u32. rewrite swrap_wrap, swrap_add_wrap, swrap_add_swrap by lia.
  rewrite Z.add_comm, swrap_add_wrap by lia.
  replace (i32_MIN + (days - i32_MIN)) with days by lia. apply swrap_id; [lia|exact H].
Qed.

Lemma decode_wire v k rest :
  kind_of v = Some k -> value_ok v ->
  decode_scalar_cell_value k (wire v ++ rest) = Ok (v, rest).
Proof.
  intros Hk Hok. unfold wire.
  destruct v; cbn in Hk; simplify_eq; cbn [cell_value_uses_length_prefix serialize_scalar from_option id];
    cbn [value_ok] in Hok; cbn [decode_scalar_cell_value]; rewrite <- ?app_assoc, ?zlen_be_bytes.
  - pose proof (take_bytes_app 1 [if b then 1 else 0] rest eq_refl) as E.
    rewrite E. cbn [mbind result_bind]. by destruct b.
  - rewrite take_bytes_app by apply zlen_be_bytes. cbn [mbind result_bind].
    unfold as_i32. by rewrite (signed_be 4 32).
  - rewrite take_bytes_app by apply zlen_be_bytes. cbn [mbind result_bind].
    unfold as_i64. by rewrite (signed_be 8 64).
  - by apply decode_counter_raw.
  - rewrite take_bytes_app by apply zlen_be_bytes. cbn [mbind result_bind]. by rewrite (unsigned_be 8 64).
  - destruct Hok as [Hu Hl]. rewrite read_length_prefixed by done. cbn [mbind result_bind]. by rewrite Hu.
  - rewrite read_length_prefixed by done. done.
  - rewrite take_bytes_app by apply zlen_be_bytes. cbn [mbind result_bind].
    unfold as_i64. by rewrite (signed_be 8 64).
  - rewrite read_expected_app; [|apply zlen_be_bytes|by unfold is_u64, u_range; lia].
    cbn [mbind result_bind]. rewrite (unsigned_be 4 32) by (done || apply wrap_range; lia).
    by rewrite date_back.
  - rewrite read_expected_app; [|apply zlen_be_bytes|by unfold is_u64, u_range; lia].
    cbn [mbind result_bind]. unfold as_i64. by rewrite (signed_be 8 64).
  - by rewrite take_bytes_app.
  - destruct Hok as [Hs Hl].
    assert (Hz : zlen (be_bytes 4 scale ++ unscaled) = 4 + zlen unscaled).
    { by rewrite zlen_app, zlen_be_bytes. }
    rewrite (app_assoc (be_bytes 4 scale)), read_length_prefixed by lia. cbn [mbind result_bind].
    rewrite Hz. pose proof (zlen_nonneg unscaled). rewrite (proj2 (Z.ltb_ge _ _)) by lia.
    rewrite <- (be_bytes_length 4 scale) at 1 3. rewrite take_app_length, drop_app_length.
    unfold as_i32. by rewrite (signed_be 4 32).
  - destruct Hok as (Hm & Hd & Hn). rewrite duration_bytes by auto using i32_i64.
    rewrite read_length_prefixed.
    + cbn [mbind result_bind]. by rewrite decode_duration_bytes.
    + rewrite !zlen_app. pose proof (encode_vint_length months (i32_i64 _ Hm)).
      pose proof (encode_vint_length days (i32_i64 _ Hd)). pose proof (encode_vint_length nanos Hn).
      unfold MAX_CELL_VALUE_LENGTH. lia.
  - pose proof (read_expected_app 1 [as_u8 n] rest eq_refl ltac:(unfold is_u64, u_range; lia)) as E.
    change (zlen [as_u8 n]) with 1. rewrite E. cbn [mbind result_bind].
    unfold as_i8. change (from_be [as_u8 n]) with (0 + as_u8 n). rewrite Z.add_0_l.
    unfold as_u8. rewrite swrap_wrap by lia. by rewrite swrap_id.
  - rewrite read_expected_app; [|apply zlen_be_bytes|by unfold is_u64, u_range; lia].
    cbn [mbind result_bind]. by rewrite (signed_be 2 16).
  - rewrite take_bytes_app by apply zlen_be_bytes. cbn [mbind result_bind]. by rewrite (unsigned_be 4 32).
  - assert (H64 : is_u64 (zlen s)) by (unfold is_u64, u_range; lia).
    rewrite encode_vuint_not_empty, read_vuint_encode by done. cbn [mbind result_bind].
    rewrite take_bytes_app by done. destruct Hok as [-> | ->]; done.
Qed.

(** ** Cells *)

(** A parser whose baselines are the writer's. *)
Record decodes (p : Parser) (b : EncodingStatsBaselines) : Prop := {
  dc_ts : p_min_timestamp p = enc_min_timestamp b;
  dc_ldt : p_min_local_deletion_time p = enc_min_local_deletion_time b;
  dc_ttl : p_min_ttl p = Some (enc_min_ttl b);
  dc_ldt_range : is_i32 (enc_min_local_deletion_time b);
  dc_ttl_range : 0 <= enc_min_ttl b <= i32_MAX;
}.

Definition payload (v : Value) : list Z := if is_empty_string v then [] else wire v.

Section Cells.
Context {VS : ValueSerializer} {CD : ComplexDecoder}.

Lemma serialize_scalar_kind v k : kind_of v = Some k -> is_Some (serialize_scalar v).
Proof. destruct v; cbn; intros; simplify_eq; by eexists. Qed.

Lemma scalar_bytes_bound v k bytes :
  kind_of v = Some k -> value_ok v -> serialize_scalar v = Some bytes -> zlen bytes <= i64_MAX.
Proof.
  intros Hk Hok Hs. transitivity MAX_CELL_VALUE_LENGTH; [|unfold i64_MAX, MAX_CELL_VALUE_LENGTH; lia].
  destruct v; cbn in Hk; cbn [value_ok] in Hok; cbn [serialize_scalar] in Hs; simplify_eq;
    rewrite ?zlen_app, ?zlen_be_bytes; unfold MAX_CELL_VALUE_LENGTH in *;
    try lia; try (unfold zlen; cbn [length]; lia).
  - rewrite duration_bytes by (destruct Hok as (?&?&?); auto using i32_i64).
    destruct Hok as (Hm & Hd & Hn). rewrite !zlen_app.
    pose proof (encode_vint_length months (i32_i64 _ Hm)).
    pose proof (encode_vint_length days (i32_i64 _ Hd)). pose proof (encode_vint_length nanos Hn). lia.
Qed.

Lemma write_value_into_eq buf v k :
  kind_of v = Some k -> value_ok v -> write_cell_value_into buf v = Ok (buf ++ wire v).
Proof.
  intros Hk Hok. destruct (serialize_scalar_kind v k Hk) as [bytes Hs].
  pose proof (scalar_bytes_bound v k bytes Hk Hok Hs) as Hb.
  unfold write_cell_value_into, wire. rewrite (serialize_value_scalar _ _ Hs), Hs. cbn [mbind result_bind].
  destruct (Z.gtb_spec (zlen bytes) i64_MAX); [lia|]. cbn [from_option id].
  case_match; [|done]. rewrite encode_unsigned_app; [by rewrite <- app_assoc|].
  pose proof (zlen_nonneg bytes). unfold is_u64, u_range, i64_MAX in *. lia.
Qed.

Lemma scalar_not_null v k : kind_of v = Some k -> is_null v = false.
Proof. by destruct v. Qed.

(** The flags carry the empty flag next to flags without it. *)
Lemma write_value_eq f buf v k :
  kind_of v = Some k -> value_ok v -> f ∈ [0; 2; 8; 26] ->
  write_value (Z.lor f (empty_flag v)) buf v = Ok (buf ++ payload v).
Proof.
  intros Hk Hok Hf. unfold write_value, payload, empty_flag.
  assert (Hw := write_value_into_eq buf v k Hk Hok).
  rewrite !elem_of_cons, elem_of_nil in Hf.
  destruct Hf as [->|[->|[->|[->|[]]]]]; destruct (is_empty_string v); cbn; by rewrite ?app_nil_r.
Qed.

Lemma timestamp_back p b ts :
  decodes p b -> is_i64 ts ->
  as_i64 (p_min_timestamp p + as_i64 (timestamp_delta b ts)) = ts.
Proof.
  intros [E _ _ _ _] H. unfold timestamp_delta. rewrite E, Z.add_comm, as_i64_delta. by apply as_i64_id.
Qed.

Lemma delta_back m x : is_i64 x -> is_i64 (x - m) -> as_i64 (m + as_i64 (x - m)) = x.
Proof. intros Hx Hd. rewrite (as_i64_id (x - m)) by done. rewrite Z.add_comm, Z.sub_add. by apply as_i64_id. Qed.

Lemma write_delta_eq x m buf :
  is_u64 (x - m) -> write_delta x m buf = Ok (buf ++ encode_vuint (x - m)).
Proof.
  intros H. unfold write_delta. unfold is_u64, u_range in H.
  rewrite (proj2 (Z.ltb_ge _ _)) by lia. by rewrite encode_unsigned_app.
Qed.

Lemma write_delta_refused x m buf : x < m -> write_delta x m buf = Err InvalidInput.
Proof. intros H. unfold write_delta. by rewrite (proj2 (Z.ltb_lt _ _)) by lia. Qed.

(** Reading an optional field that is there, or not. *)
Lemma read_field_some d f rest :
  is_u64 d -> read_field true f (encode_vuint d ++ rest) = Ok (Some (f d), rest).
Proof. intros H. unfold read_field. by rewrite read_vuint_encode. Qed.

(** The value behind the conditional fields. *)
Lemma decode_payload v k rest (ts : option Z) (e : option CellExpiration) :
  kind_of v = Some k -> value_ok v ->
  (if is_empty_string v then Ok (empty_value k, ts, e, payload v ++ rest)
   else
     '(value, data) ←
       match k with
       | KComplex lowered => decode_complex_cell_value lowered (payload v ++ rest)
       | _ => decode_scalar_cell_value k (payload v ++ rest)
       end;
     Ok (value, ts, e, data)) = Ok (v, ts, e, rest).
Proof.
  intros Hk Hok. unfold payload. destruct (is_empty_string v) eqn:E.
  - destruct v; cbn in E, Hk; simplify_eq. by destruct s.
  - pose proof (decode_wire v k rest Hk Hok) as Hd.
    assert (Hm : match k with
                 | KComplex lowered => decode_complex_cell_value lowered (wire v ++ rest)
                 | _ => decode_scalar_cell_value k (wire v ++ rest)
                 end = Ok (v, rest)) by (destruct v; cbn in Hk; simplify_eq; exact Hd).
    by rewrite Hm.
Qed.

Lemma empty_flag_cases v : empty_flag v = if is_empty_string v then 4 else 0.
Proof. done. Qed.

Lemma is_u64_timestamp_delta b ts : is_u64 (timestamp_delta b ts).
Proof. apply as_u64_range. Qed.

Lemma parse_row_timestamp p v k rest :
  kind_of v = Some k -> value_ok v ->
  parse_cell_value_schema_order p k (Z.lor 8 (empty_flag v) :: payload v ++ rest) = Ok (v, None, None, rest).
Proof.
  intros Hk Hok. pose proof (decode_payload v k rest None None Hk Hok) as Hp.
  unfold empty_flag in *. destruct (is_empty_string v); exact Hp.
Qed.

Lemma parse_row_ttl p v k rest :
  kind_of v = Some k -> value_ok v ->
  parse_cell_value_schema_order p k (Z.lor 26 (empty_flag v) :: payload v ++ rest) = Ok (v, None, None, rest).
Proof.
  intros Hk Hok. pose proof (decode_payload v k rest None None Hk Hok) as Hp.
  unfold empty_flag in *. destruct (is_empty_string v); exact Hp.
Qed.

Lemma parse_explicit p b v k ts rest :
  decodes p b -> is_i64 ts -> kind_of v = Some k -> value_ok v ->
  parse_cell_value_schema_order p k
    (Z.lor 0 (empty_flag v) :: encode_vuint (timestamp_delta b ts) ++ payload v ++ rest)
  = Ok (v, Some ts, None, rest).
Proof.
  intros Hp Hts Hk Hok. pose proof (decode_payload v k rest (Some ts) None Hk Hok) as Hd.
  unfold parse_cell_value_schema_order, empty_flag.
  destruct (is_empty_string v); cbn -[read_field encode_vuint payload decode_scalar_cell_value];
    rewrite read_field_some by apply is_u64_timestamp_delta; cbn [mbind result_bind];
    rewrite (timestamp_back p b) by done; exact Hd.
Qed.

Lemma parse_expiring p b v k ts ldt ttl rest :
  decodes p b -> is_i64 ts -> is_i32 ldt -> u_range 32 ttl ->
  enc_min_local_deletion_time b <= ldt -> enc_min_ttl b <= ttl ->
  kind_of v = Some k -> value_ok v ->
  parse_cell_value_schema_order p k
    (Z.lor 2 (empty_flag v) :: encode_vuint (timestamp_delta b ts) ++
     encode_vuint (ldt - enc_min_local_deletion_time b) ++ encode_vuint (ttl - enc_min_ttl b) ++
     payload v ++ rest)
  = Ok (v, Some ts, Some (mkCellExpiration (Z.min ttl i32_MAX) ldt), rest).
Proof.
  intros Hp Hts Hldt Httl Hl Ht Hk Hok. pose proof Hp as [_ E2 E3 E4 E5].
  pose proof (decode_payload v k rest (Some ts) (Some (mkCellExpiration (Z.min ttl i32_MAX) ldt)) Hk Hok) as Hd.
  unfold parse_cell_value_schema_order, empty_flag. unfold u_range in Httl.
  assert (H1 : is_u64 (ldt - enc_min_local_deletion_time b)) by (unfold is_u64, u_range; limits; lia).
  assert (H2 : is_u64 (ttl - enc_min_ttl b)) by (unfold is_u64, u_range; limits; lia).
  assert (H3 : as_i64 (p_min_local_deletion_time p + as_i64 (ldt - enc_min_local_deletion_time b)) = ldt).
  { rewrite E2. apply delta_back; limits; lia. }
  assert (H4 : as_i32 (Z.min (as_i64 (default 0 (p_min_ttl p) + as_i64 (ttl - enc_min_ttl b))) i32_MAX)
               = Z.min ttl i32_MAX).
  { rewrite E3. cbn [default from_option id]. rewrite delta_back by (limits; lia).
    apply swrap_id; [lia|limits; lia]. }
  destruct (is_empty_string v); cbn -[read_field encode_vuint payload decode_scalar_cell_value default];
    rewrite read_field_some by apply is_u64_timestamp_delta; cbn [mbind result_bind];
    rewrite read_field_some by done; cbn [mbind result_bind];
    rewrite read_field_some by done; cbn [mbind result_bind];
    rewrite H3, H4, (timestamp_back p b) by done; exact Hd.
Qed.

Lemma parse_tombstone p b k ts ldt rest :
  decodes p b -> is_i64 ts -> is_i32 ldt -> enc_min_local_deletion_time b <= ldt ->
  parse_cell_value_schema_order p k
    (5 :: encode_vuint (timestamp_delta b ts) ++ encode_vuint (ldt - enc_min_local_deletion_time b) ++ rest)
  = Ok (Tombstone (mkTombstoneInfo ts CellTombstone ldt None None None), Some ts, None, rest).
Proof.
  intros Hp Hts Hldt Hl. pose proof Hp as [_ E2 _ E4 _].
  unfold parse_cell_value_schema_order. cbn -[read_field encode_vuint].
  rewrite read_field_some by apply is_u64_timestamp_delta. cbn [mbind result_bind].
  rewrite read_field_some by (unfold is_u64, u_range; limits; lia). cbn [mbind result_bind].
  rewrite (timestamp_back p b) by done. rewrite E2, delta_back by (limits; lia). done.
Qed.

(** *** The bytes of each writer *)

Definition row_ts_bytes (v : Value) : list Z := Z.lor 8 (empty_flag v) :: payload v.
Definition explicit_bytes (b : EncodingStatsBaselines) (v : Value) (ts : Z) : list Z :=
  Z.lor 0 (empty_flag v) :: encode_vuint (timestamp_delta b ts) ++ payload v.
Definition row_ttl_bytes (v : Value) : list Z := Z.lor 26 (empty_flag v) :: payload v.
Definition expiring_bytes (b : EncodingStatsBaselines) (v : Value) (ts ldt ttl : Z) : list Z :=
  Z.lor 2 (empty_flag v) :: encode_vuint (timestamp_delta b ts) ++
    encode_vuint (ldt - enc_min_local_deletion_time b) ++ encode_vuint (ttl - enc_min_ttl b) ++ payload v.
Definition tombstone_bytes (b : EncodingStatsBaselines) (ts ldt : Z) : list Z :=
  5 :: encode_vuint (timestamp_delta b ts) ++ encode_vuint (ldt - enc_min_local_deletion_time b).

Lemma write_cell_eq b buf v k ts :
  kind_of v = Some k -> value_ok v -> write_cell b buf v ts = Ok (buf ++ row_ts_bytes v).
Proof.
  intros Hk Hok. unfold write_cell. rewrite (scalar_not_null v k Hk).
  assert (Hf : negb (has_flag (Z.lor CELL_USE_ROW_TIMESTAMP (empty_flag v)) CELL_USE_ROW_TIMESTAMP) = false)
    by (unfold empty_flag; by destruct (is_empty_string v)).
  rewrite Hf. rewrite (write_value_eq 8 _ v k) by (done || by repeat constructor). by rewrite <- app_assoc.
Qed.

Lemma write_cell_explicit_eq b buf v k ts :
  kind_of v = Some k -> value_ok v -> write_cell_explicit_ts b buf v ts = Ok (buf ++ explicit_bytes b v ts).
Proof.
  intros Hk Hok. unfold write_cell_explicit_ts, explicit_bytes. rewrite (scalar_not_null v k Hk).
  rewrite encode_unsigned_app by apply is_u64_timestamp_delta.
  pose proof (write_value_eq 0 ((buf ++ [empty_flag v]) ++ encode_vuint (timestamp_delta b ts)) v k) as Hw.
  rewrite Z.lor_0_l in *. rewrite Hw by (done || by repeat constructor). by rewrite <- !app_assoc.
Qed.

Lemma write_cell_row_ttl_eq buf v k :
  kind_of v = Some k -> value_ok v -> write_cell_with_row_ttl buf v = Ok (buf ++ row_ttl_bytes v).
Proof.
  intros Hk Hok. unfold write_cell_with_row_ttl. rewrite (scalar_not_null v k Hk).
  change (Z.lor (Z.lor CELL_IS_EXPIRING CELL_USE_ROW_TIMESTAMP) CELL_USE_ROW_TTL) with 26.
  rewrite (write_value_eq 26 _ v k) by (done || by repeat constructor). by rewrite <- app_assoc.
Qed.

(** The expiry of a cell, from the operation or from the clock. *)
Definition expiry_of (ldt : option Z) (now ttl : Z) : Z :=
  match ldt with Some l => l | None => expiring_ldt now ttl end.

Lemma write_cell_ttl_eq p b buf v k ts ttl ldt now :
  decodes p b -> kind_of v = Some k -> value_ok v -> u_range 32 ttl -> is_i32 (expiry_of ldt now ttl) ->
  enc_min_local_deletion_time b <= expiry_of ldt now ttl -> enc_min_ttl b <= ttl ->
  write_cell_with_ttl b buf v ts ttl ldt now
  = Ok (buf ++ expiring_bytes b v ts (expiry_of ldt now ttl) ttl).
Proof.
  intros [_ _ _ Hr1 Hr2] Hk Hok Httl He Hl Ht. unfold u_range in Httl. unfold write_cell_with_ttl.
  rewrite (scalar_not_null v k Hk). fold (expiry_of ldt now ttl).
  rewrite encode_unsigned_app by apply is_u64_timestamp_delta.
  rewrite write_delta_eq by (unfold is_u64, u_range; limits; lia). cbn [mbind result_bind].
  rewrite write_delta_eq by (unfold is_u64, u_range; limits; lia). cbn [mbind result_bind].
  rewrite (write_value_eq 2 _ v k) by (done || by repeat constructor). by rewrite <- !app_assoc.
Qed.

Lemma write_tombstone_eq p b buf ts ldt :
  decodes p b -> is_i32 ldt -> enc_min_local_deletion_time b <= ldt ->
  write_tombstone_cell b buf ts ldt = Ok (buf ++ tombstone_bytes b ts ldt).
Proof.
  intros [_ _ _ Hr1 Hr2] He Hl. unfold write_tombstone_cell.
  rewrite encode_unsigned_app by apply is_u64_timestamp_delta.
  rewrite write_delta_eq by (unfold is_u64, u_range; limits; lia). by rewrite <- !app_assoc.
Qed.

(** C26: Reading a cell undoes writing it. With the baselines the header gave back, each writer of
    a scalar cell appends bytes that [parse_cell_value_schema_order] reads as the same value
    (an empty string included), stopping at what follows, with the cell's own timestamp when
    it was given one, the TTL (clamped to [i32]) and the expiry of an expiring cell, and the
    deletion time of a tombstone. A local deletion time or TTL under its baseline is refused,
    never written as a wrapped delta. *)
Theorem cell_roundtrip p b v k ts ttl ldt now buf rest :
  decodes p b -> kind_of v = Some k -> value_ok v ->
  is_i64 ts -> u_range 32 ttl -> from_option is_i32 True ldt ->
  let expiry := match ldt with Some l => l | None => expiring_ldt now ttl end in
  let reads bytes r := parse_cell_value_schema_order p k (bytes ++ rest) = Ok (r, rest) in
  (exists bytes, write_cell b buf v ts = Ok (buf ++ bytes) /\ reads bytes (v, None, None)) /\
  (exists bytes, write_cell_explicit_ts b buf v ts = Ok (buf ++ bytes) /\ reads bytes (v, Some ts, None)) /\
  (exists bytes, write_cell_with_row_ttl buf v = Ok (buf ++ bytes) /\ reads bytes (v, None, None)) /\
  (if bool_decide (enc_min_local_deletion_time b <= expiry /\ enc_min_ttl b <= ttl)
   then exists bytes, write_cell_with_ttl b buf v ts ttl ldt now = Ok (buf ++ bytes) /\
          reads bytes (v, Some ts, Some (mkCellExpiration (Z.min ttl i32_MAX) expiry))
   else write_cell_with_ttl b buf v ts ttl ldt now = Err InvalidInput) /\
  (if bool_decide (enc_min_local_deletion_time b <= expiry)
   then exists bytes, write_tombstone_cell b buf ts expiry = Ok (buf ++ bytes) /\
          reads bytes (Tombstone (mkTombstoneInfo ts CellTombstone expiry None None None), Some ts, None)
   else write_tombstone_cell b buf ts expiry = Err InvalidInput).
Proof.
  intros Hp Hk Hok Hts Httl Hldt expiry reads.
  assert (He : is_i32 expiry).
  { unfold expiry. destruct ldt; [done|]. unfold expiring_ldt. apply sat_add_i32_range. }
  pose proof Hp as [_ _ _ Hr1 Hr2]. pose proof Httl as Httl'. unfold u_range in Httl'.
  change expiry with (expiry_of ldt now ttl) in *.
  split; [|split; [|split; [|split]]].
  - exists (row_ts_bytes v). split; [by apply (write_cell_eq b buf v k)|by apply parse_row_timestamp].
  - exists (explicit_bytes b v ts). split; [by apply (write_cell_explicit_eq b buf v k)|].
    unfold reads, explicit_bytes. cbn -[Z.lor]. rewrite <- app_assoc. by apply (parse_explicit p b).
  - exists (row_ttl_bytes v). split; [by apply (write_cell_row_ttl_eq buf v k)|by apply parse_row_ttl].
  - case_bool_decide as Hb.
    + destruct Hb as [Hl Ht]. exists (expiring_bytes b v ts (expiry_of ldt now ttl) ttl).
      split; [by apply (write_cell_ttl_eq p b buf v k)|].
      unfold reads, expiring_bytes. cbn -[Z.lor encode_vuint]. rewrite <- !app_assoc.
      by apply (parse_expiring p b).
    + unfold write_cell_with_ttl. rewrite (scalar_not_null v k Hk). fold (expiry_of ldt now ttl).
      rewrite encode_unsigned_app by apply is_u64_timestamp_delta.
      destruct (Z.lt_ge_cases (expiry_of ldt now ttl) (enc_min_local_deletion_time b)).
      * by rewrite write_delta_refused.
      * rewrite write_delta_eq by (unfold is_u64, u_range; limits; lia). cbn [mbind result_bind].
        by rewrite write_delta_refused by lia.
  - case_bool_decide as Hb.
    + exists (tombstone_bytes b ts (expiry_of ldt now ttl)). split; [by apply (write_tombstone_eq p b)|].
      unfold reads, tombstone_bytes. cbn -[encode_vuint]. rewrite <- app_assoc. by apply (parse_tombstone p b).
    + unfold write_tombstone_cell. rewrite encode_unsigned_app by apply is_u64_timestamp_delta.
      by rewrite write_delta_refused by lia.
Qed.
End Cells.

(** No complex values. *)
Definition no_complex : ComplexDecoder :=
  {| decode_complex_cell_value _ _ := Err InvalidInput |}.

Definition sample_baselines : EncodingStatsBaselines := mkEncodingStatsBaselines 5000000 60 6.
Definition sample_parser : Parser := mkParser 5000000 6 (Some 60) false.

Lemma cell_roundtrip_witness :
  let VS := scalar_serializer in let CD := no_complex in
  exists bytes, write_cell_with_ttl sample_baselines [] (Text [104; 105]) 5000001 90 None 10 = Ok bytes /\
    parse_cell_value_schema_order sample_parser KText (bytes ++ [7])
    = Ok (Text [104; 105], Some 5000001, Some (mkCellExpiration 90 100), [7]).
Proof.
  intros VS CD.
  destruct (cell_roundtrip (VS := VS) (CD := CD) sample_parser sample_baselines (Text [104; 105]) KText
              5000001 90 None 10 [] [7]) as (_ & _ & _ & H & _).
  - split; done.
  - done.
  - split; vm_compute; done.
  - split; vm_compute; done.
  - split; vm_compute; done.
  - done.
  - rewrite bool_decide_true in H by (vm_compute; done). destruct H as (bytes & H1 & H2).
    exists bytes. split; [exact H1|exact H2].
Defined.
