(* ===== verification/Columns.v ===== *)
(** Columns of a table as Data.db orders them: the complexity test and the column cache of
    the writer ([data_writer/schema_helpers.rs], [column_cache.rs]), the column lists of the
    serialization header ([stats_writer/serialization_header.rs]) and the reader's
    resolution of a header against the schema ([row_decoder/mod.rs]). The theorem: reader
    and writer walk the same columns in the same order. *)

From S2P Require Import Prelude Values Keys Stats Cells.

#[local] Open Scope string_scope.
#[local] Open Scope list_scope.
Open Scope Z_scope.

#[export] Instance column_eq_dec : EqDecision Column.
Proof. solve_decision. Defined.

(** ** Type names *)

(** [str::to_lowercase] and [eq_ignore_ascii_case] on ASCII, which every CQL and marshal
    type keyword is; a byte of a longer character stays as it is. *)
Definition lower_ascii (c : Ascii.ascii) : Ascii.ascii :=
  let n := Ascii.nat_of_ascii c in
  if (65 <=? n)%nat && (n <=? 90)%nat then Ascii.ascii_of_nat (n + 32) else c.

Fixpoint to_lowercase (s : string) : string :=
  match s with
  | EmptyString => EmptyString
  | String c s => String (lower_ascii c) (to_lowercase s)
  end.

Definition is_udt_marshal (dt_lower : string) : bool :=
  String.prefix "org.apache.cassandra.db.marshal.usertype(" dt_lower.

Definition is_complex_column (data_type : string) : bool :=
  let dt := to_lowercase data_type in
  if String.prefix "frozen<" dt
     || String.prefix "org.apache.cassandra.db.marshal.frozentype(" dt then false
  else if String.prefix "list<" dt || String.prefix "set<" dt || String.prefix "map<" dt then true
  else if String.prefix "org.apache.cassandra.db.marshal.listtype(" dt
          || String.prefix "org.apache.cassandra.db.marshal.settype(" dt
          || String.prefix "org.apache.cassandra.db.marshal.maptype(" dt then true
  else if is_udt_marshal dt then true
  else false.

Definition from_type (data_type : string) : CellKind := from_lowered_type (to_lowercase data_type).

(** ** The order of columns *)

(** [sort_by] with a comparison given by the order it stands for. *)
Definition cmp_of_le {A} (le : A -> A -> bool) (a b : A) : comparison := if le a b then Lt else Gt.

Definition sort_le {A} (le : A -> A -> bool) (l : list A) : list A := sort_by (cmp_of_le le) l.

(** Simple columns before complex ones, then by name. *)
Definition column_order_key (column : Column) : bool * string :=
  (is_complex_column (col_data_type column), col_name column).

Definition key_le (a b : bool * string) : bool :=
  match a.1, b.1 with
  | false, true => true
  | true, false => false
  | _, _ => match String.compare a.2 b.2 with Gt => false | _ => true end
  end.

Definition is_partition_key (schema : TableSchema) (name : string) : bool :=
  existsb (fun k => bool_decide (kc_name k = name)) (partition_keys schema).

Definition is_clustering_key (schema : TableSchema) (name : string) : bool :=
  existsb (fun k => bool_decide (cc_name k = name)) (clustering_keys schema).

(** ** The writer's cache *)

(** Indices into the columns of the schema. *)
Record OrderedCols := mkOrderedCols {
  oc_regular : list nat;
  oc_static : list nat;
  oc_is_complex : list bool;
}.

Definition is_regular (schema : TableSchema) (c : Column) : bool :=
  negb (col_is_static c) && negb (is_partition_key schema (col_name c))
  && negb (is_clustering_key schema (col_name c)).

(** The positions of the columns that satisfy [f]. *)
Fixpoint positions (f : Column -> bool) (i : nat) (l : list Column) : list nat :=
  match l with
  | [] => []
  | c :: l => if f c then i :: positions f (S i) l else positions f (S i) l
  end.

Definition build_ordered_cols (schema : TableSchema) : OrderedCols :=
  let is_complex := map (fun c => is_complex_column (col_data_type c)) (columns schema) in
  let order_key idx := (nth idx is_complex false,
                        from_option col_name "" (columns schema !! idx)) in
  let le a b := key_le (order_key a) (order_key b) in
  mkOrderedCols
    (sort_le le (positions (is_regular schema) 0 (columns schema)))
    (sort_le le (positions col_is_static 0 (columns schema)))
    is_complex.

Definition regular_columns_with_complex (schema : TableSchema) : list (Column * bool) :=
  let cache := build_ordered_cols schema in
  omap (fun idx => c ← columns schema !! idx; Some (c, nth idx (oc_is_complex cache) false))
    (oc_regular cache).

(** The position of a name. *)
Fixpoint position (name : string) (l : list Column) : option nat :=
  match l with
  | [] => None
  | c :: l => if bool_decide (col_name c = name) then Some O else S <$> position name l
  end.

Definition column_is_complex (schema : TableSchema) (name : string) : bool :=
  match position name (columns schema) with
  | Some idx => nth idx (oc_is_complex (build_ordered_cols schema)) false
  | None => false
  end.

(** ** The header *)

Record ColumnInfo := mkColumnInfo {
  ci_name : string;
  ci_column_type : string;
  ci_is_primary_key : bool;
  ci_key_position : option Z;
  ci_is_static : bool;
  ci_is_clustering : bool;
  ci_clustering_reversed : bool;
}.

(** The regular columns the header lists, each with its marshal type; [marshal] is
    [cql_type_to_marshal_type]. *)
Definition header_regular_columns (marshal : string -> string) (schema : TableSchema) :
    list (string * string) :=
  map (fun c => (col_name c, marshal (col_data_type c)))
    (sort_le (fun a b => key_le (column_order_key a) (column_order_key b))
       (List.filter (is_regular schema) (columns schema))).

(** ** The reader's resolution *)

Record ColumnToParse := mkColumnToParse {
  ctp_schema : option Column;
  ctp_header_type : option string;
  ctp_name : string;
  ctp_kind : CellKind;
  ctp_is_complex : bool;
}.

Record RowColumnResolution := mkRowColumnResolution {
  rcr_regular : list ColumnToParse;
  rcr_static : list ColumnToParse;
  rcr_clustering : list string;
}.

(** The reader's test is the same text as the writer's. *)
Definition reader_is_complex_column (data_type : string) : bool := is_complex_column data_type.

Definition resolve_column (schema : TableSchema) (col_info : ColumnInfo) : ColumnToParse :=
  let found := List.find (fun c => bool_decide (col_name c = ci_name col_info)) (columns schema) in
  mkColumnToParse found (Some (ci_column_type col_info))
    (from_option col_name (ci_name col_info) found)
    (from_type (from_option col_data_type (ci_column_type col_info) found))
    (reader_is_complex_column (ci_column_type col_info)).

Definition fallback_column (c : Column) : ColumnToParse :=
  mkColumnToParse (Some c) None (col_name c) (from_type (col_data_type c))
    (reader_is_complex_column (col_data_type c)).

Definition build_resolution (schema : TableSchema) (header : list ColumnInfo) : RowColumnResolution :=
  let clustering := map cc_name (clustering_keys schema) in
  if negb (is_empty header) then
    let build_for want_static :=
      map (resolve_column schema)
        (List.filter (fun i => negb (ci_is_primary_key i) && negb (ci_is_clustering i)
                               && Bool.eqb (ci_is_static i) want_static) header) in
    mkRowColumnResolution (build_for false) (build_for true) clustering
  else
    let build_for want_static :=
      map fallback_column
        (List.filter (fun c => negb (is_partition_key schema (col_name c))
                               && negb (is_clustering_key schema (col_name c))
                               && Bool.eqb (col_is_static c) want_static) (columns schema)) in
    mkRowColumnResolution (build_for false) (build_for true) clustering.

Definition columns_for (r : RowColumnResolution) (is_static : bool) : list ColumnToParse :=
  if is_static then rcr_static r else rcr_regular r.

(** ** Reader and writer agree *)

Lemma insert_by_map {A B} (f : A -> B) cmp x l :
  map f (insert_by (fun a b => cmp (f a) (f b)) x l) = insert_by cmp (f x) (map f l).
Proof.
  induction l as [|y l IH]; cbn; [done|]. destruct (cmp (f x) (f y)); cbn; [done..|]. by rewrite IH.
Qed.

Lemma sort_le_cons {A} (le : A -> A -> bool) x l :
  sort_le le (x :: l) = insert_by (cmp_of_le le) x (sort_le le l).
Proof. done. Qed.

Lemma sort_le_map {A B} (f : A -> B) le l :
  map f (sort_le (fun a b => le (f a) (f b)) l) = sort_le le (map f l).
Proof.
  induction l as [|x l IH]; [done|]. cbn [map]. rewrite !sort_le_cons, <- IH.
  apply (insert_by_map f (cmp_of_le le)).
Qed.

Lemma sort_le_perm {A} (le : A -> A -> bool) l : sort_le le l ≡ₚ l.
Proof. apply sort_by_perm. Qed.

Lemma sort_le_ext {A} (le le' : A -> A -> bool) l :
  (forall a b, a ∈ l -> b ∈ l -> le a b = le' a b) -> sort_le le l = sort_le le' l.
Proof.
  induction l as [|x l IH]; intros H; [done|]. rewrite !sort_le_cons.
  rewrite IH by (intros; apply H; by apply list_elem_of_further).
  assert (Hx : forall y, y ∈ sort_le le' l -> le x y = le' x y).
  { intros y Hy. apply H; [apply list_elem_of_here|]. apply list_elem_of_further.
    by rewrite (sort_le_perm le' l) in Hy. }
  revert Hx. generalize (sort_le le' l). clear.
  intros l. induction l as [|y l IH]; intros H; cbn; [done|]. unfold cmp_of_le at 1 3.
  rewrite H by apply list_elem_of_here. destruct (le' x y); [done|]. f_equal. apply IH.
  intros z Hz. apply H. by apply list_elem_of_further.
Qed.

Lemma positions_spec f l : forall i idx,
  idx ∈ positions f i l <-> exists k c, idx = (i + k)%nat /\ l !! k = Some c /\ f c = true.
Proof.
  induction l as [|c l IH]; intros i idx; cbn.
  - rewrite elem_of_nil. split; [done|]. by intros (k & c & _ & H & _).
  - transitivity (idx = i /\ f c = true \/ idx ∈ positions f (S i) l).
    { destruct (f c); rewrite ?elem_of_cons; [tauto|]. split; [by right|]. by intros [[_ ?]|]. }
    rewrite IH. split.
    + intros [[-> Hf]|(k & d & -> & Hk & Hf)]; [exists O, c; by rewrite Nat.add_0_r|].
      exists (S k), d. by rewrite Nat.add_succ_r.
    + intros (k & d & -> & Hk & Hf). destruct k as [|k]; cbn in Hk.
      * left. simplify_eq. by rewrite Nat.add_0_r.
      * right. exists k, d. by rewrite Nat.add_succ_r.
Qed.

Lemma positions_columns f l : forall i pre,
  length pre = i ->
  omap (fun idx => (pre ++ l) !! idx) (positions f i l) = List.filter f l.
Proof.
  induction l as [|c l IH]; intros i pre Hi; cbn; [done|].
  assert (H : omap (fun idx => (pre ++ c :: l) !! idx) (positions f (S i) l) = List.filter f l).
  { replace (pre ++ c :: l) with ((pre ++ [c]) ++ l) by (by rewrite <- app_assoc).
    apply IH. rewrite length_app. cbn. lia. }
  destruct (f c); [|exact H]. cbn. by rewrite list_lookup_middle, H by done.
Qed.

(** A column with its complexity. *)
Definition with_complex (c : Column) : Column * bool := (c, is_complex_column (col_data_type c)).

Lemma omap_sort_le {A B} (g : A -> option B) (f : A -> B) le le' (l : list A) :
  (forall a, a ∈ l -> g a = Some (f a)) ->
  (forall a b, a ∈ l -> b ∈ l -> le' a b = le (f a) (f b)) ->
  omap g (sort_le le' l) = sort_le le (omap g l).
Proof.
  intros Hg Hle.
  assert (Hm : forall k, (forall a, a ∈ k -> g a = Some (f a)) -> omap g k = map f k).
  { induction k as [|a k IH]; intros H; cbn; [done|]. rewrite H by apply list_elem_of_here.
    by rewrite IH by (intros; apply H; by apply list_elem_of_further). }
  rewrite (sort_le_ext _ (fun a b => le (f a) (f b))) by done.
  rewrite !Hm, sort_le_map; [done|done|].
  intros a Ha. apply Hg. by rewrite (sort_le_perm _ l) in Ha.
Qed.

Lemma regular_columns_eq schema :
  regular_columns_with_complex schema
  = map with_complex (sort_le (fun a b => key_le (column_order_key a) (column_order_key b))
      (List.filter (is_regular schema) (columns schema))).
Proof.
  unfold regular_columns_with_complex, build_ordered_cols. cbn [oc_regular oc_is_complex].
  rewrite <- (positions_columns (is_regular schema) (columns schema) 0 []) by done.
  change ([] ++ columns schema) with (columns schema).
  set (cx := map _ _). set (ps := positions _ _ _).
  assert (Hps : forall idx, idx ∈ ps -> exists c, columns schema !! idx = Some c
                  /\ nth idx cx false = is_complex_column (col_data_type c)).
  { intros idx (k & c & -> & Hk & _)%positions_spec. exists c. split; [done|].
    subst cx. apply nth_lookup_Some. rewrite list_lookup_fmap. cbn. by rewrite Hk. }
  assert (Ho : forall k, (forall idx, idx ∈ k -> idx ∈ ps) ->
    omap (fun idx => c ← columns schema !! idx; Some (c, nth idx cx false)) k
    = map with_complex (omap (fun idx => columns schema !! idx) k)).
  { induction k as [|idx k IH]; intros Hk; cbn; [done|].
    destruct (Hps idx) as (c & Hc & Hn); [apply Hk, list_elem_of_here|].
    rewrite Hc. cbn. rewrite Hn, IH by (intros; apply Hk; by apply list_elem_of_further). done. }
  rewrite Ho by (intros idx H; by rewrite sort_le_perm in H).
  f_equal. apply (omap_sort_le _ (fun idx => default (mkColumn "" "" false None false) (columns schema !! idx))).
  - intros idx H. by destruct (Hps idx H) as (c & -> & _).
  - intros a b Ha Hb. destruct (Hps a Ha) as (c & Hc & Hn), (Hps b Hb) as (d & Hd & Hm).
    rewrite Hc, Hd, Hn, Hm. done.
Qed.

Lemma find_by_name c l :
  NoDup (map col_name l) -> c ∈ l ->
  List.find (fun d => bool_decide (col_name d = col_name c)) l = Some c.
Proof.
  induction l as [|d l IH]; intros Hn Hc; [by apply elem_of_nil in Hc|].
  cbn in *. apply NoDup_cons in Hn as [Hd Hn]. apply elem_of_cons in Hc as [->|Hc].
  - by rewrite bool_decide_true.
  - rewrite bool_decide_false; [by apply IH|]. intros E. apply Hd. rewrite E.
    by apply (list_elem_of_fmap_2 col_name).
Qed.

(** What the resolution of a file of this schema gives for a regular column. *)
Definition resolved (marshal : string -> string) (c : Column) : ColumnToParse :=
  mkColumnToParse (Some c) (Some (marshal (col_data_type c))) (col_name c)
    (from_type (col_data_type c)) (is_complex_column (marshal (col_data_type c))).

(** The regular columns of a header. *)
Definition header_regular (header : list ColumnInfo) : list (string * string) :=
  map (fun i => (ci_name i, ci_column_type i))
    (List.filter (fun i => negb (ci_is_primary_key i) && negb (ci_is_clustering i)
                           && negb (ci_is_static i)) header).

Lemma resolution_regular marshal schema header :
  NoDup (map col_name (columns schema)) -> header <> [] ->
  header_regular header = header_regular_columns marshal schema ->
  columns_for (build_resolution schema header) false
    = map (fun cx => resolved marshal cx.1) (regular_columns_with_complex schema).
Proof.
  intros Hn Hh He. rewrite regular_columns_eq.
  unfold build_resolution. destruct header as [|i0 header]; [done|]. cbn [is_empty negb columns_for rcr_regular].
  rewrite map_map. cbn [with_complex fst].
  rewrite (filter_ext _ (fun i => negb (ci_is_primary_key i) && negb (ci_is_clustering i)
                                  && negb (ci_is_static i)))
    by (intros i; by destruct (ci_is_static i)).
  unfold header_regular, header_regular_columns in He. revert He.
  set (infos := List.filter _ (i0 :: header)). set (cols := sort_le _ _).
  assert (Hc : forall c, c ∈ cols -> c ∈ columns schema).
  { intros c H. subst cols. rewrite sort_le_perm in H. apply list_elem_of_In, filter_In in H as [H _].
    by apply list_elem_of_In. }
  clearbody infos cols. revert infos. induction cols as [|c cols IH]; intros [|i infos] E; try done.
  cbn in E. injection E as E1 E2 E3. cbn [map]. f_equal.
  - unfold resolve_column, resolved. rewrite E1, E2, find_by_name; [done|done|].
    apply Hc, list_elem_of_here.
  - apply IH; [|done]. intros d Hd. apply Hc. by apply list_elem_of_further.
Qed.

Lemma regular_columns_perm schema :
  map fst (regular_columns_with_complex schema) ≡ₚ List.filter (is_regular schema) (columns schema).
Proof. rewrite regular_columns_eq, map_map. cbn [with_complex fst]. rewrite map_id. apply sort_le_perm. Qed.

(** Reader and writer walk the same columns. When the header's regular columns are the ones
    the statistics writer lists, and column names are unique, the columns
    [RowColumnResolution::build] resolves for a row are, position by position, those of the
    row writer's cache, each found in the schema by name and decoded by its declared type;
    and the cache holds every regular column exactly once, simple before complex. *)
Theorem resolution_agrees marshal schema header :
  NoDup (map col_name (columns schema)) -> header <> [] ->
  header_regular header = header_regular_columns marshal schema ->
  columns_for (build_resolution schema header) false
    = map (fun cx => resolved marshal cx.1) (regular_columns_with_complex schema) /\
  map fst (regular_columns_with_complex schema) ≡ₚ List.filter (is_regular schema) (columns schema) /\
  Forall (fun cx => cx.2 = is_complex_column (col_data_type cx.1)) (regular_columns_with_complex schema).
Proof.
  intros Hn Hh He. split; [by apply resolution_regular|split; [apply regular_columns_perm|]].
  rewrite regular_columns_eq. apply Forall_map, Forall_forall. done.
Qed.

Definition sample_schema : TableSchema :=
  mkTableSchema "ks" "t" [mkKeyColumn "k" "int" 0] [mkClusteringColumn "c" "text" 0 Asc]
    [mkColumn "k" "int" false None false; mkColumn "c" "text" false None false;
     mkColumn "m" "map<int, text>" true None false; mkColumn "z" "int" true None false;
     mkColumn "a" "Text" true None false] ∅ ∅.

Lemma resolution_agrees_witness :
  let info n t := mkColumnInfo n t false None false false false in
  map ctp_name (columns_for (build_resolution sample_schema
    [mkColumnInfo "k" "Int32Type" true None false false false;
     info "a" "Text"; info "z" "int"; info "m" "map<int, text>"]) false) = ["a"; "z"; "m"].
Proof.
  intros info.
  destruct (resolution_agrees (fun t => t) sample_schema
    [mkColumnInfo "k" "Int32Type" true None false false false;
     info "a" "Text"; info "z" "int"; info "m" "map<int, text>"]) as [H _].
  - apply (bool_decide_unpack _). vm_compute. done.
  - done.
  - vm_compute. done.
  - rewrite H. vm_compute. done.
Defined.
