(* ===== verification/Rows.v ===== *)
(** Rows of Data.db: [write_merged_row_with_prev_size] with its flags, clustering prefix,
    liveness, deletion, column subset and cells ([data_writer/rows.rs], [complex.rs],
    [udt_canon.rs], [encoding.rs]), and the reader's [parse_row_data_with_offset]
    ([row_decoder/row_data.rs], [row_framing.rs], with the per-cell visibility rule of
    [partition_shadow.rs]). As for cells, the reader runs on what is left of the data.

    Non-frozen collections and UDTs go through [ComplexWriter] and [ComplexColumnReader].
    Arithmetic is that of a
    release build: shifts take their count modulo 64. *)

From S2P Require Import Prelude Values VInt Keys Mutation Stats Cells Columns.

Open Scope Z_scope.

(** ** Flags *)

Definition END_OF_PARTITION : Z := 0x01.
Definition IS_MARKER : Z := 0x02.
Definition ROW_HAS_TIMESTAMP : Z := 0x04.
Definition ROW_HAS_TTL : Z := 0x08.
Definition ROW_HAS_DELETION : Z := 0x10.
Definition ROW_HAS_ALL_COLUMNS : Z := 0x20.
Definition ROW_HAS_COMPLEX_DELETION : Z := 0x40.
Definition ROW_HAS_EXTENDED_FLAGS : Z := 0x80.
Definition EXTENDED_IS_STATIC : Z := 0x01.

Definition set_flag (cond : bool) (flag flags : Z) : Z := if cond then Z.lor flags flag else flags.

(** ** Rows, written *)

Record MergedOp := mkMergedOp {
  mop_op : CellOperation;
  mop_timestamp_micros : Z;
  mop_row_ttl_seconds : option Z;
  mop_cell_local_deletion_time : Z;
}.

Record RowWrite := mkRowWrite {
  rw_clustering_key : option ClusteringKey;
  rw_liveness_ts : option Z;
  rw_ttl_seconds : option Z;
  rw_row_deletion : option (Z * Z);
  rw_ops : list MergedOp;
  rw_complex_element_ops : list MergedOp;
}.

Record ComplexElementWrite := mkComplexElementWrite {
  cew_cell_path : list Z;
  cew_value : option Value;
  cew_timestamp_micros : Z;
  cew_ttl_seconds : option Z;
  cew_local_deletion_time : option Z;
  cew_is_deleted : bool;
}.

(** A column's deletion marker and its surviving elements. *)
Definition ComplexColumnGroup : Type := option (Z * Z) * list ComplexElementWrite.

(** The column of a whole-column operation. *)
Definition whole_column (op : CellOperation) : option string :=
  match op with
  | Write column _ | WriteWithTtl column _ _ _ | Delete column _ => Some column
  | _ => None
  end.

Definition element_column (op : CellOperation) : option string :=
  match op with
  | WriteComplexElement column _ _ _ _ _ _ | OpComplexDeletion column _ _ => Some column
  | _ => None
  end.

Definition is_write (op : CellOperation) : bool :=
  match op with Write _ _ | WriteWithTtl _ _ _ _ => true | _ => false end.

Definition is_null_write (op : CellOperation) : bool :=
  match op with Write _ value | WriteWithTtl _ value _ _ => is_null value | _ => false end.

(** The flags byte of [write_merged_row_with_prev_size]. *)
Definition row_flags (schema : TableSchema) (row : RowWrite) : Z :=
  let ops := map mop_op (rw_ops row) in
  let flags := set_flag (is_some (rw_row_deletion row)) ROW_HAS_DELETION 0 in
  let flags := if is_some (rw_liveness_ts row)
               then set_flag (is_some (rw_ttl_seconds row)) ROW_HAS_TTL (Z.lor flags ROW_HAS_TIMESTAMP)
               else flags in
  let flags := if negb (is_some (rw_row_deletion row))
               then set_flag (forallb is_write ops && negb (existsb is_null_write ops)
                              && (length ops =? length (regular_columns_with_complex schema))%nat)
                      ROW_HAS_ALL_COLUMNS flags
               else flags in
  let targets_complex column := from_option (column_is_complex schema) false column in
  set_flag (existsb (fun op => targets_complex (whole_column op)) ops
            || existsb (fun op => targets_complex (element_column op))
                 (map mop_op (rw_complex_element_ops row)))
    ROW_HAS_COMPLEX_DELETION flags.

(** [group_complex_element_ops]: by column, the strongest deletion and the elements. *)
Definition group_element (per_column : gmap string ComplexColumnGroup) (mop : MergedOp) :
    gmap string ComplexColumnGroup :=
  match mop_op mop with
  | WriteComplexElement column cell_path value ts ttl ldt is_deleted =>
      let entry := default (None, []) (per_column !! column) in
      <[column := (entry.1, entry.2 ++ [mkComplexElementWrite cell_path value ts ttl ldt is_deleted])]>
        per_column
  | OpComplexDeletion column mfda ldt =>
      let entry := default (None, []) (per_column !! column) in
      let kept := match entry.1 with
                  | Some existing => if existing.1 >=? mfda then existing else (mfda, ldt)
                  | None => (mfda, ldt)
                  end in
      <[column := (Some kept, entry.2)]> per_column
  | _ => per_column
  end.

Definition group_complex_element_ops (row : RowWrite) : gmap string ComplexColumnGroup :=
  foldl group_element ∅ (rw_complex_element_ops row).

(** The writers of complex columns, and the canonical form of a UDT value. *)
Class ComplexWriter := {
  write_complex_column :
    EncodingStatsBaselines -> list Z -> Column -> Value -> Z -> option Z -> Z -> result Error (list Z);
  write_complex_column_deletion :
    EncodingStatsBaselines -> list Z -> Z -> Z -> result Error (list Z);
  write_complex_column_per_element :
    EncodingStatsBaselines -> list Z -> Column -> option (Z * Z) -> list ComplexElementWrite -> Z ->
    result Error (list Z);
  canonicalize_value_for_marshal : string -> Value -> result Error Value;
}.

(** A window of the type name equals the text. *)
Fixpoint contains (text s : string) : bool :=
  String.prefix text s || match s with EmptyString => false | String _ s => contains text s end.

Definition references_user_type (marshal : string) : bool :=
  contains "usertype(" (to_lowercase marshal).

Section Writer.
Context `{ValueSerializer} `{ComplexWriter}.
Context (from_data_type : string -> result Error ComparatorType).

Definition canonicalize_udt_value (data_type : string) (value : Value) : result Error Value :=
  if negb (references_user_type data_type) then Ok value
  else canonicalize_value_for_marshal data_type value.

(** Clustering values: fixed width raw, the rest behind a length. *)
Definition with_length (bytes : list Z) : list Z := encode_unsigned (zlen bytes) [] ++ bytes.

Definition serialize_value_for_clustering (value : Value) (comparator : ComparatorType) :
    result Error (list Z) :=
  match value, comparator with
  | Boolean b, CBoolean => Ok [if b then 1 else 0]
  | TinyInt n, CTinyInt => Ok [as_u8 n]
  | SmallInt n, CSmallInt => Ok (be_bytes 2 n)
  | Integer n, CInt => Ok (be_bytes 4 n)
  | BigInt n, CBigInt => Ok (be_bytes 8 n)
  | Float32 bits, CFloat32 => Ok (be_bytes 4 bits)
  | Float bits, CFloat => Ok (be_bytes 8 bits)
  | Timestamp millis, CTimestamp => Ok (be_bytes 8 millis)
  | Date days, CDate => Ok (encode_unsigned 4 [] ++ be_bytes 4 (as_u32 (as_i32 (days - i32_MIN))))
  | Uuid bytes, CUuid => Ok bytes
  | Text s, CText => Ok (with_length s)
  | Blob bytes, CBlob => Ok (with_length bytes)
  | Frozen inner, _ => bytes ← serialize_value inner; Ok (with_length bytes)
  | _, _ => Err InvalidInput
  end.

(** Two bits a column: 0 present, 2 null. *)
Fixpoint prefix_header (i : Z) (header : Z) (values : list Value) : Z :=
  match values with
  | [] => header
  | v :: values =>
      let state := if is_null v then 2 else 0 in
      prefix_header (i + 1) (Z.lor header (as_u64 (Z.shiftl state ((i * 2) mod 64)))) values
  end.

Fixpoint write_clustering_values (keys : list ClusteringColumn) (values : list Value) (buf : list Z) :
    result Error (list Z) :=
  match values with
  | [] => Ok buf
  | v :: values =>
      if is_null v then write_clustering_values (tail keys) values buf
      else
        match keys with
        | [] => Err SchemaError
        | cluster_col :: keys =>
            comparator ← from_data_type (cc_data_type cluster_col);
            value_bytes ← serialize_value_for_clustering v comparator;
            write_clustering_values keys values (buf ++ value_bytes)
        end
  end.

Definition write_clustering_prefix (clustering_key : ClusteringKey) (schema : TableSchema)
    (buf : list Z) : result Error (list Z) :=
  let values := map snd clustering_key in
  write_clustering_values (clustering_keys schema) values
    (encode_unsigned (prefix_header 0 0 values) buf).

(** The positions of the missing (or present) columns. *)
Fixpoint indices (f : string -> bool) (pos : Z) (names : list string) : list Z :=
  match names with
  | [] => []
  | name :: names => if f name then pos :: indices f (pos + 1) names else indices f (pos + 1) names
  end.

Definition write_column_subset (buf : list Z) (names : list string) (present_columns : string -> bool) :
    list Z :=
  let columns_len := zlen names in
  let present_indices := indices present_columns 0 names in
  let missing_indices := indices (fun n => negb (present_columns n)) 0 names in
  if is_empty missing_indices then encode_unsigned 0 buf
  else if columns_len <? 64
  then encode_unsigned (foldl (fun bitmap idx => Z.lor bitmap (Z.shiftl 1 idx)) 0 missing_indices) buf
  else
    let buf := encode_unsigned (columns_len - zlen present_indices) buf in
    foldl (fun buf idx => encode_unsigned idx buf) buf
      (if zlen present_indices <? columns_len / 2 then present_indices else missing_indices).

(** The column a row's bitmap marks present for an operation. *)
Definition present_column (op : CellOperation) : option string :=
  if is_null_write op then None else whole_column op.

Definition is_present_in (row : RowWrite) (name : string) : bool :=
  existsb (fun mop => bool_decide (present_column (mop_op mop) = Some name)) (rw_ops row)
  || existsb (fun mop => bool_decide (element_column (mop_op mop) = Some name))
       (rw_complex_element_ops row).

Definition write_merged_column_bitmap (buf : list Z) (row : RowWrite) (schema : TableSchema) : list Z :=
  write_column_subset buf (map (fun cx => col_name cx.1) (regular_columns_with_complex schema))
    (is_present_in row).

Definition option_eqb (a b : option Z) : bool := bool_decide (a = b).

(** One whole-column operation; the number of cells is 0 for a null write. *)
Definition emit_whole_column_op (b : EncodingStatsBaselines) (buf : list Z) (row : RowWrite)
    (col : Column) (mop : MergedOp) (is_complex : bool) (now_seconds : Z) : result Error (list Z * Z) :=
  match mop_op mop with
  | Write column value =>
      if is_null value then Ok (buf, 0)
      else if is_complex then
        buf ← write_complex_column b buf col value (mop_timestamp_micros mop)
                (mop_row_ttl_seconds mop) now_seconds;
        Ok (buf, 1)
      else
        value ← canonicalize_udt_value (col_data_type col) value;
        buf ← match mop_row_ttl_seconds mop with
              | Some ttl_seconds =>
                  if option_eqb (rw_ttl_seconds row) (Some ttl_seconds)
                     && option_eqb (rw_liveness_ts row) (Some (mop_timestamp_micros mop))
                  then write_cell_with_row_ttl buf value
                  else write_cell_with_ttl b buf value (mop_timestamp_micros mop) ttl_seconds None
                         now_seconds
              | None =>
                  if option_eqb (rw_liveness_ts row) (Some (mop_timestamp_micros mop))
                  then write_cell b buf value (mop_timestamp_micros mop)
                  else write_cell_explicit_ts b buf value (mop_timestamp_micros mop)
              end;
        Ok (buf, 1)
  | WriteWithTtl column value ttl_seconds local_deletion_time =>
      if is_null value then Ok (buf, 0)
      else if is_complex then
        buf ← write_complex_column b buf col value (mop_timestamp_micros mop) (Some ttl_seconds)
                now_seconds;
        Ok (buf, 1)
      else
        value ← canonicalize_udt_value (col_data_type col) value;
        buf ← write_cell_with_ttl b buf value (mop_timestamp_micros mop) ttl_seconds
                local_deletion_time now_seconds;
        Ok (buf, 1)
  | Delete column _ =>
      buf ← (if is_complex
             then write_complex_column_deletion b buf (mop_timestamp_micros mop)
                    (mop_cell_local_deletion_time mop)
             else write_tombstone_cell b buf (mop_timestamp_micros mop)
                    (mop_cell_local_deletion_time mop));
      Ok (buf, 1)
  | _ => Ok (buf, 0)
  end.

(** The last operation indexed under a column. *)
Definition whole_by_col (row : RowWrite) (name : string) : option MergedOp :=
  List.find (fun mop => bool_decide (whole_column (mop_op mop) = Some name)) (rev (rw_ops row)).

Fixpoint write_columns (b : EncodingStatsBaselines) (row : RowWrite) (now_seconds : Z)
    (per_element : gmap string ComplexColumnGroup) (cols : list (Column * bool))
    (buf : list Z) (cells_written : Z) : result Error (list Z * Z) :=
  match cols with
  | [] => Ok (buf, cells_written)
  | (col, is_complex) :: cols =>
      '(buf, n) ← match whole_by_col row (col_name col) with
                  | Some mop => emit_whole_column_op b buf row col mop is_complex now_seconds
                  | None => Ok (buf, 0)
                  end;
      match per_element !! col_name col with
      | Some (complex_deletion, elements) =>
          buf ← write_complex_column_per_element b buf col complex_deletion elements
                  (default 0 (rw_liveness_ts row));
          write_columns b row now_seconds (delete (col_name col) per_element) cols buf
            (cells_written + n + 1)
      | None => write_columns b row now_seconds per_element cols buf (cells_written + n)
      end
  end.

Definition write_merged_cells (b : EncodingStatsBaselines) (buf : list Z) (row : RowWrite)
    (schema : TableSchema) (now_seconds : Z) : result Error (list Z * Z) :=
  write_columns b row now_seconds (group_complex_element_ops row)
    (regular_columns_with_complex schema) buf 0.

(** The row deletion: refused below the baseline unless either is negative. *)
Definition write_row_deletion (b : EncodingStatsBaselines) (deletion : Z * Z) (body : list Z) :
    result Error (list Z) :=
  let '(deletion_ts, local_deletion_time) := deletion in
  let body := encode_unsigned (timestamp_delta b deletion_ts) body in
  let min_ldt := enc_min_local_deletion_time b in
  if (local_deletion_time >=? 0) && (min_ldt >=? 0) && (local_deletion_time <? min_ldt)
  then Err InvalidInput
  else Ok (encode_unsigned (as_u32 (as_i32 (local_deletion_time - min_ldt))) body).

(** [build_merged_row_body]: the body behind the previous size. *)
Definition build_merged_row_body (b : EncodingStatsBaselines) (row : RowWrite) (schema : TableSchema)
    (flags : Z) (now_seconds : Z) : result Error (list Z * Z) :=
  let body := [] in
  body ← (if has_flag flags ROW_HAS_TIMESTAMP
          then liveness_ts ← ok_or InvalidInput (rw_liveness_ts row);
               Ok (encode_unsigned (timestamp_delta b liveness_ts) body)
          else Ok body);
  body ← match has_flag flags ROW_HAS_TTL, rw_ttl_seconds row with
         | true, Some ttl =>
             body ← write_delta ttl (enc_min_ttl b) body;
             write_delta (expiring_ldt now_seconds ttl) (enc_min_local_deletion_time b) body
         | _, _ => Ok body
         end;
  body ← (if has_flag flags ROW_HAS_DELETION
          then deletion ← ok_or InvalidInput (rw_row_deletion row); write_row_deletion b deletion body
          else Ok body);
  let body := if negb (has_flag flags ROW_HAS_ALL_COLUMNS)
              then write_merged_column_bitmap body row schema else body in
  write_merged_cells b body row schema now_seconds.

Definition write_merged_row_with_prev_size (b : EncodingStatsBaselines) (buffer : list Z)
    (row : RowWrite) (schema : TableSchema) (prev_size now_seconds : Z) :
    result Error (list Z * Z) :=
  let flags := row_flags schema row in
  let buffer := buffer ++ [flags] in
  buffer ← match rw_clustering_key row with
           | Some clustering_key => write_clustering_prefix clustering_key schema buffer
           | None => Ok buffer
           end;
  '(row_scratch, cells_written) ← build_merged_row_body b row schema flags now_seconds;
  let row_body_size := unsigned_len prev_size + zlen row_scratch in
  let buffer := encode_unsigned prev_size (encode_unsigned row_body_size buffer) in
  Ok (buffer ++ row_scratch, cells_written).
End Writer.

(** ** Rows, read *)

Record RowHeader := mkRowHeader {
  rh_timestamp : option Z;
  rh_ttl : option Z;
  rh_liveness_expires_at_seconds : option Z;
  rh_local_deletion_time : option Z;
  rh_marked_for_delete_at : option Z;
  rh_header_size : Z;
  rh_row_size_vint_len : Z;
  rh_missing_columns_bitmap : option Z;
  rh_max_data_cell_timestamp : option Z;
  rh_max_data_cell_expires_at : option Z;
  rh_has_live_forever_data_cell : bool;
  rh_has_deleted_data_cell : bool;
}.

(** The flags and the extended flags. *)
Definition parse_row_flags (data : list Z) : result Error (Z * option Z * list Z) :=
  match data with
  | [] => Err Corruption
  | row_flags :: data =>
      if has_flag row_flags ROW_HAS_EXTENDED_FLAGS
      then match data with [] => Err Corruption | ext :: data => Ok (row_flags, Some ext, data) end
      else Ok (row_flags, None, data)
  end.

Definition is_end_of_partition (flags : Z) : bool := flags =? END_OF_PARTITION.

Definition is_range_tombstone_marker (flags : Z) : bool :=
  has_flag flags IS_MARKER && negb (has_flag flags END_OF_PARTITION).

(** Bytes behind their length. *)
Definition read_length_bytes (data : list Z) : result Error (list Z * list Z) :=
  '(len, rest) ← read_vuint data; take_bytes len rest.

#[local] Open Scope string_scope.
Definition parse_clustering_value (data : list Z) (col : ClusteringColumn) :
    result Error (Value * list Z) :=
  let normalized := to_lowercase (cc_data_type col) in
  if bool_decide (normalized ∈ ["timestamp"; "reversedtype(timestamptype)"])
  then '(b, rest) ← take_bytes 8 data; Ok (Timestamp (as_i64 (from_be b)), rest)
  else if bool_decide (normalized ∈ ["text"; "utf8type"; "varchar"])
  then '(b, rest) ← read_length_bytes data;
       if utf8_valid b then Ok (Text b, rest) else Err Corruption
  else if bool_decide (normalized = "int")
  then '(b, rest) ← take_bytes 4 data; Ok (Integer (as_i32 (from_be b)), rest)
  else if bool_decide (normalized ∈ ["uuid"; "timeuuid"])
  then '(b, rest) ← take_bytes 16 data; Ok (Uuid b, rest)
  else if bool_decide (normalized ∈ ["bigint"; "counter"])
  then '(b, rest) ← take_bytes 8 data; Ok (BigInt (as_i64 (from_be b)), rest)
  else '(b, rest) ← read_length_bytes data; Ok (Blob b, rest).

Definition empty_clustering_value (col : ClusteringColumn) : Value :=
  let col_type := to_lowercase (cc_data_type col) in
  if bool_decide (col_type ∈ ["text"; "varchar"; "ascii"]) then Text []
  else if bool_decide (col_type = "blob") then Blob [] else Null.
#[local] Close Scope string_scope.

Fixpoint parse_clustering_values (header_vint i : Z) (keys : list ClusteringColumn) (data : list Z) :
    result Error (list Value * list Z) :=
  match keys with
  | [] => Ok ([], data)
  | col :: keys =>
      let state := Z.land (Z.shiftr header_vint ((i * 2) mod 64)) 0x03 in
      '(value, data) ← (if state =? 0 then parse_clustering_value data col
                        else if state =? 1 then Ok (empty_clustering_value col, data)
                        else Ok (Null, data));
      '(values, data) ← parse_clustering_values header_vint (i + 1) keys data;
      Ok (value :: values, data)
  end.

Definition parse_clustering_prefix (data : list Z) (schema : TableSchema) :
    result Error (list Value * list Z) :=
  if is_empty (clustering_keys schema) then Ok ([], data)
  else
    '(header_vint, data) ← read_vuint data;
    parse_clustering_values header_vint 0 (clustering_keys schema) data.

(** The sizes and the conditional fields behind the clustering prefix. *)
Definition parse_row_metadata (p : Parser) (data : list Z) (row_flags : Z) :
    result Error (RowHeader * Z * list Z) :=
  '(row_size, rest) ← read_vuint data;
  let row_size_vint_len := zlen data - zlen rest in
  '(_, rest) ← read_vuint rest;
  '(timestamp, rest) ←
    read_field (has_flag row_flags ROW_HAS_TIMESTAMP) (fun d => as_i64 (p_min_timestamp p + as_i64 d)) rest;
  '(ttl, rest) ←
    read_field (has_flag row_flags ROW_HAS_TTL)
      (fun d => match p_min_ttl p with
                | Some min_ttl => as_i32 (as_i64 (min_ttl + as_i64 d))
                | None => as_i32 d
                end) rest;
  '(liveness_ldt, rest) ←
    read_field (has_flag row_flags ROW_HAS_TTL)
      (fun d => let raw := as_i64 (p_min_local_deletion_time p + as_i64 d) in
                if p_has_uint_deletion_time p then as_u32 raw else as_i32 raw) rest;
  '(marked_for_delete_at, rest) ←
    read_field (has_flag row_flags ROW_HAS_DELETION) (fun d => as_i64 (p_min_timestamp p + as_i64 d)) rest;
  '(local_deletion_time, rest) ←
    read_field (has_flag row_flags ROW_HAS_DELETION)
      (fun d => let raw := as_i64 (p_min_local_deletion_time p + as_i64 d) in
                if p_has_uint_deletion_time p then as_i32 (as_u32 raw) else as_i32 raw) rest;
  '(bitmap, rest) ← read_field (negb (has_flag row_flags ROW_HAS_ALL_COLUMNS)) (fun d => d) rest;
  Ok (mkRowHeader timestamp ttl liveness_ldt local_deletion_time marked_for_delete_at
        (zlen data - zlen rest) row_size_vint_len bitmap None None false false,
      row_size, rest).

(** *** Visibility of a cell *)

Definition cell_shadowed_or_expired (cover : option Z) (now : Z) (eff_ts eff_exp : option Z) : bool :=
  match cover, eff_ts with Some d, Some t => t <=? d | _, _ => false end
  || match eff_exp with Some e => e <=? now | None => false end.

Definition is_tombstone_value (v : Value) : bool :=
  match v with Tombstone _ => true | _ => false end.

Definition is_cell_tombstone (v : Value) : bool :=
  match v with Tombstone t => bool_decide (tombstone_type t = CellTombstone) | _ => false end.

Definition cell_tombstone_dropped (user_facing is_cell_tombstone : bool) : bool :=
  user_facing && is_cell_tombstone.

Definition fold_max (acc value : option Z) : option Z :=
  match acc, value with
  | Some a, Some v => Some (Z.max a v)
  | Some a, None => Some a
  | None, v => v
  end.

(** *** The cells of a row *)

Record CellWriteMetadata := mkCellWriteMetadata {
  cwm_write_timestamp_micros : Z;
  cwm_expiration : option CellExpiration;
}.

Record ComplexColumnMeta := mkComplexColumnMeta {
  ccm_has_collection_tombstone : bool;
  ccm_max_element_writetime : Z;
  ccm_element_tombstone_count : Z;
  ccm_complex_deletion : option (Z * Z);
  ccm_has_live_forever_element : bool;
  ccm_max_element_expires_at : option Z;
  ccm_shadow_filtered_element_count : Z;
  ccm_visible_uniform_expiration : option CellExpiration;
}.

Record ElementShadow := mkElementShadow {
  es_cover : option Z;
  es_now : Z;
  es_row_ts : option Z;
  es_row_expires_at : option Z;
  es_row_ttl_seconds : option Z;
}.

(** An element of a complex column, as compaction collects it ([compaction_row.rs]). *)
Record ComplexElement := mkComplexElement {
  ce_cell_path : list Z;
  ce_value : option Value;
  ce_decoded_key : option Value;
  ce_timestamp : Z;
  ce_ttl : option Z;
  ce_local_deletion_time : option Z;
  ce_is_deleted : bool;
  ce_has_empty_value : bool;
}.

(** Column deletion, elements in on-disk order, the whole value; by column name. *)
Definition CompactionComplexColumns : Type :=
  gmap string (option (Z * Z) * list ComplexElement * Value).

(** The parser of a complex column: the value and the elements, if they are collected. *)
Class ComplexColumnReader := {
  parse_complex_column_inner :
    Parser -> list Z -> option Column -> string -> bool -> Z -> bool -> option ElementShadow ->
    result Error (Value * list Z * ComplexColumnMeta * list ComplexElement);
}.

Definition complex_value_is_empty (value : Value) : bool :=
  match value with
  | List v | VSet v => is_empty v
  | Map v => is_empty v
  | Udt _ _ fields => forallb (fun f => negb (is_some f.2)) fields
  | _ => false
  end.

(** A column at this index of the on-disk order is present. *)
Definition is_present (missing_columns_bitmap : option Z) (idx : Z) : bool :=
  match missing_columns_bitmap with
  | Some bitmap => (idx >=? 64) || (Z.land bitmap (Z.shiftl 1 idx) =? 0)
  | None => true
  end.

(** What the loop over the columns carries. *)
Record RowState := mkRowState {
  rs_data : list Z;
  rs_cells : list (string * Value);
  rs_cell_meta : option (gmap string CellWriteMetadata);
  rs_complex_meta : option (gmap string ComplexColumnMeta);
  rs_max_cell_ts : option Z;
  rs_max_expires_at : option Z;
  rs_has_live_forever : bool;
  rs_has_deleted_cell : bool;
  rs_complex_out : option CompactionComplexColumns;
}.

Definition set_data (data : list Z) (st : RowState) : RowState :=
  mkRowState data (rs_cells st) (rs_cell_meta st) (rs_complex_meta st) (rs_max_cell_ts st)
    (rs_max_expires_at st) (rs_has_live_forever st) (rs_has_deleted_cell st) (rs_complex_out st).

Definition set_aggregates (max_ts max_exp : option Z) (forever deleted : bool) (st : RowState) :=
  mkRowState (rs_data st) (rs_cells st) (rs_cell_meta st) (rs_complex_meta st) max_ts max_exp
    forever deleted (rs_complex_out st).

Definition set_complex_out (out : option CompactionComplexColumns) (st : RowState) : RowState :=
  mkRowState (rs_data st) (rs_cells st) (rs_cell_meta st) (rs_complex_meta st) (rs_max_cell_ts st)
    (rs_max_expires_at st) (rs_has_live_forever st) (rs_has_deleted_cell st) out.

Definition push_cell (name : string) (value : Value) (meta : CellWriteMetadata)
    (complex : option ComplexColumnMeta) (st : RowState) : RowState :=
  mkRowState (rs_data st) (rs_cells st ++ [(name, value)])
    (<[name := meta]> <$> rs_cell_meta st)
    (match complex with Some m => <[name := m]> <$> rs_complex_meta st | None => rs_complex_meta st end)
    (rs_max_cell_ts st) (rs_max_expires_at st) (rs_has_live_forever st) (rs_has_deleted_cell st)
    (rs_complex_out st).

(** The expiry a cell inherits from its row. *)
Definition row_expiry (p : Parser) (h : RowHeader) : option Z :=
  match rh_liveness_expires_at_seconds h with
  | Some e => Some e
  | None =>
      (fun s => if p_has_uint_deletion_time p then as_u32 s else s) <$> rh_local_deletion_time h
  end.

(** One simple cell that decoded: the aggregates, the filter, the metadata. *)
Definition take_simple_cell (p : Parser) (h : RowHeader) (cell_ctx : option (option Z * Z))
    (ctp : ColumnToParse) (cell_flags : Z) (value : Value) (cell_own_ts : option Z)
    (cell_exp : option CellExpiration) (st : RowState) : RowState :=
  if negb (is_some (ctp_schema ctp)) then st
  else
    let use_row_ttl := has_flag cell_flags CELL_USE_ROW_TTL in
    let eff_ts := match cell_own_ts with Some t => Some t | None => rh_timestamp h end in
    let eff_exp := match cell_exp with
                   | Some e => Some (ce_expires_at_seconds e)
                   | None => if use_row_ttl then row_expiry p h else None
                   end in
    let '(st, dropped) :=
      if is_tombstone_value value then
        (set_aggregates (rs_max_cell_ts st) (rs_max_expires_at st) (rs_has_live_forever st) true st,
         cell_tombstone_dropped (is_some cell_ctx) (is_cell_tombstone value))
      else
        let dropped := match cell_ctx with
                       | Some (cover, now) => cell_shadowed_or_expired cover now eff_ts eff_exp
                       | None => false
                       end in
        (set_aggregates (fold_max (rs_max_cell_ts st) eff_ts) (fold_max (rs_max_expires_at st) eff_exp)
           (rs_has_live_forever st || (negb (is_some eff_exp) && negb dropped))
           (rs_has_deleted_cell st) st, dropped) in
    if dropped then st
    else
      let row_level_exp :=
        if use_row_ttl then
          match rh_ttl h, row_expiry p h with
          | Some ttl_s, Some exp_s => Some (mkCellExpiration ttl_s exp_s)
          | _, _ => None
          end
        else None in
      push_cell (ctp_name ctp) value
        (mkCellWriteMetadata (default (default 0 (rh_timestamp h)) cell_own_ts)
           (match cell_exp with Some e => Some e | None => row_level_exp end)) None st.

(** One complex column that decoded. *)
Definition take_complex_column (h : RowHeader) (ctp : ColumnToParse) (value : Value)
    (m : ComplexColumnMeta) (st : RowState) : RowState :=
  if negb (is_some (ctp_schema ctp)) then st
  else
    let coll_eff_ts := Z.max (ccm_max_element_writetime m) (default i64_MIN (rh_timestamp h)) in
    let st := set_aggregates
                (if negb (coll_eff_ts =? i64_MIN) then fold_max (rs_max_cell_ts st) (Some coll_eff_ts)
                 else rs_max_cell_ts st)
                (fold_max (rs_max_expires_at st) (ccm_max_element_expires_at m))
                (rs_has_live_forever st || ccm_has_live_forever_element m)
                (rs_has_deleted_cell st) st in
    if (ccm_shadow_filtered_element_count m >? 0) && complex_value_is_empty value then st
    else push_cell (ctp_name ctp) value
           (mkCellWriteMetadata (default 0 (rh_timestamp h)) (ccm_visible_uniform_expiration m))
           (Some m) st.

Section Reader.
Context `{ComplexDecoder} `{ComplexColumnReader}.

(** The cell of a column; [None] when it does not decode, which ends the loop. *)
Definition read_column (p : Parser) (h : RowHeader) (has_complex_deletion : bool)
    (cell_ctx : option (option Z * Z)) (ctp : ColumnToParse) (st : RowState) : option RowState :=
  if ctp_is_complex ctp then
    let complex_type :=
      match ctp_header_type ctp with
      | Some t => t
      | None => from_option col_data_type "blob"%string (ctp_schema ctp)
      end in
    let collect := is_some (rs_complex_out st) in
    let element_filter :=
      if collect then None
      else (fun '(cover, now) =>
              mkElementShadow cover now (rh_timestamp h) (row_expiry p h) (rh_ttl h)) <$> cell_ctx in
    match parse_complex_column_inner p (rs_data st) (ctp_schema ctp) complex_type has_complex_deletion
            (if collect then default 0 (rh_timestamp h) else 0) collect element_filter with
    | Ok (value, data, m, elements) =>
        let st := if is_some (ctp_schema ctp)
                  then set_complex_out
                         (<[ctp_name ctp := (ccm_complex_deletion m, elements, value)]> <$> rs_complex_out st) st
                  else st in
        Some (set_data data (take_complex_column h ctp value m st))
    | Err _ => None
    end
  else
    let cell_flags := default 0 (head (rs_data st)) in
    match parse_cell_value_schema_order p (ctp_kind ctp) (rs_data st) with
    | Ok (value, cell_own_ts, cell_exp, data) =>
        Some (set_data data (take_simple_cell p h cell_ctx ctp cell_flags value cell_own_ts cell_exp st))
    | Err _ => None
    end.

Fixpoint read_columns (p : Parser) (h : RowHeader) (has_complex_deletion : bool)
    (cell_ctx : option (option Z * Z)) (idx : Z) (cols : list ColumnToParse) (st : RowState) : RowState :=
  match cols with
  | [] => st
  | ctp :: cols =>
      if negb (is_present (rh_missing_columns_bitmap h) idx)
      then read_columns p h has_complex_deletion cell_ctx (idx + 1) cols st
      else if is_empty (rs_data st) then st
      else match read_column p h has_complex_deletion cell_ctx ctp st with
           | Some st => read_columns p h has_complex_deletion cell_ctx (idx + 1) cols st
           | None => st
           end
  end.

Record ParsedRow := mkParsedRow {
  pr_cells : list (string * Value);
  pr_cell_meta : option (gmap string CellWriteMetadata);
  pr_row_header : RowHeader;
  pr_rest : list Z;
  pr_is_static : bool;
  pr_complex_col_meta : option (gmap string ComplexColumnMeta);
  pr_complex_out : option CompactionComplexColumns;
}.

Definition with_aggregates (h : RowHeader) (st : RowState) : RowHeader :=
  mkRowHeader (rh_timestamp h) (rh_ttl h) (rh_liveness_expires_at_seconds h)
    (rh_local_deletion_time h) (rh_marked_for_delete_at h) (rh_header_size h)
    (rh_row_size_vint_len h) (rh_missing_columns_bitmap h) (rs_max_cell_ts st)
    (rs_max_expires_at st) (rs_has_live_forever st) (rs_has_deleted_cell st).

(** [parse_row_data_with_offset_impl]; [collect] is the compaction's collector of complex
    elements, [shadow] is [PartitionShadow::cell_context] of a read
    that filters. *)
Definition parse_row_data (p : Parser) (schema : option TableSchema) (resolution : RowColumnResolution)
    (want_cell_metadata collect : bool) (shadow : option (list Value -> option Z * Z)) (data : list Z) :
    result Error ParsedRow :=
  schema ← ok_or SchemaError schema;
  '(row_flags, extended_flags, data) ← parse_row_flags data;
  let is_static := match extended_flags with Some ef => has_flag ef EXTENDED_IS_STATIC | None => false end in
  '(clustering_values, data) ←
    (if negb is_static then parse_clustering_prefix data schema else Ok ([], data));
  let cells := zip_with pair (take (length (clustering_keys schema)) (rcr_clustering resolution))
                 clustering_values in
  let cell_ctx := (fun cell_context => cell_context clustering_values) <$> shadow in
  '(h, row_size, cell_data) ← parse_row_metadata p data row_flags;
  let body := drop (Z.to_nat (rh_row_size_vint_len h)) data in
  if row_size >? zlen body then Err Corruption
  else
    let after_row := drop (Z.to_nat row_size) body in
    let has_cell_bytes := zlen data - zlen cell_data <? rh_row_size_vint_len h + row_size in
    let cell_meta := if want_cell_metadata then Some ∅ else None in
    let complex_out := if collect then Some ∅ else None in
    if is_some (rh_local_deletion_time h) && negb has_cell_bytes
    then Ok (mkParsedRow cells cell_meta h after_row is_static None complex_out)
    else
      let st := read_columns p h (has_flag row_flags ROW_HAS_COMPLEX_DELETION) cell_ctx 0
                  (columns_for resolution is_static)
                  (mkRowState cell_data cells cell_meta (if want_cell_metadata then Some ∅ else None)
                     None None false false complex_out) in
      Ok (mkParsedRow (rs_cells st) (rs_cell_meta st) (with_aggregates h st) after_row is_static
            (rs_complex_meta st) (rs_complex_out st)).
End Reader.
