(* ===== verification/RowProps.v ===== *)
(** Properties of rows: the clustering prefix, the column subset, the header and the cells the
    row writer emits are what the row parser reads, and the parser stops where the next row
    begins. *)

From S2P Require Import Prelude Values VInt Keys Mutation Stats StatsProps Baselines Cells CellProps Columns Rows.

Open Scope Z_scope.

(** ** The clustering prefix *)

(** The two bits of a value. *)
Definition state_of (v : Value) : Z := if is_null v then 2 else 0.

Fixpoint pack (values : list Value) : Z :=
  match values with [] => 0 | v :: values => state_of v + 4 * pack values end.

Lemma pack_bound values : 0 <= pack values < 4 ^ zlen values.
Proof.
  induction values as [|v values IH]; cbn [pack]; [done|].
  rewrite zlen_cons, Z.pow_add_r by (pose proof (zlen_nonneg values); lia).
  change (4 ^ 1) with 4. unfold state_of. destruct (is_null v); lia.
Qed.

Lemma pack_no_null values : Forall (fun v => is_null v = false) values -> pack values = 0.
Proof. induction 1 as [|v values Hv _ IH]; cbn [pack]; [done|]. unfold state_of. by rewrite Hv, IH. Qed.

Lemma four_pow n : 0 <= n -> 4 ^ n = 2 ^ (n * 2).
Proof. intros H. change 4 with (2 ^ 2). rewrite <- Z.pow_mul_r by lia. f_equal. lia. Qed.

Lemma prefix_header_pack values : forall i header,
  0 <= i -> i + zlen values <= 32 -> 0 <= header < 4 ^ i ->
  prefix_header i header values = header + 4 ^ i * pack values.
Proof.
  induction values as [|v values IH]; intros i header Hi Hn Hh; cbn [prefix_header pack]; [lia|].
  rewrite zlen_cons in Hn. pose proof (zlen_nonneg values) as Hz.
  assert (Hp : 0 < 4 ^ i) by (apply Z.pow_pos_nonneg; lia).
  assert (H64 : 4 * 4 ^ i <= 2 ^ 64).
  { change 4 with (4 ^ 1) at 1. rewrite <- Z.pow_add_r, four_pow by lia. apply Z.pow_le_mono_r; lia. }
  assert (Hs : state_of v = 2 \/ state_of v = 0) by (unfold state_of; destruct (is_null v); auto).
  change (if is_null v then 2 else 0) with (state_of v).
  rewrite Z.mod_small by lia. rewrite Z.shiftl_mul_pow2, <- four_pow by lia.
  assert (Hw : as_u64 (state_of v * 4 ^ i) = Z.shiftl (state_of v) (i * 2)).
  { rewrite Z.shiftl_mul_pow2, <- four_pow by lia. apply wrap_id. unfold u_range. nia. }
  rewrite Hw, Z.lor_comm, lor_add by (rewrite ?four_pow in *; lia).
  rewrite <- four_pow, IH; rewrite ?Z.pow_add_r by lia; change (4 ^ 1) with 4; nia.
Qed.

Lemma packed_state low i v values :
  0 <= i -> 0 <= low < 4 ^ i -> i < 32 ->
  Z.land (Z.shiftr (low + 4 ^ i * pack (v :: values)) ((i * 2) mod 64)) 3 = state_of v.
Proof.
  intros Hi Hl Hn. rewrite Z.mod_small by lia. rewrite Z.shiftr_div_pow2, <- four_pow by lia.
  rewrite Z.mul_comm, Z.div_add, Z.div_small, Z.add_0_l by lia.
  change 3 with (Z.ones 2). rewrite Z.land_ones by lia. change (2 ^ 2) with 4. cbn [pack].
  rewrite Z.mul_comm, Z.mod_add by lia. apply Z.mod_small. unfold state_of. destruct (is_null v); lia.
Qed.

(** ** The column subset *)

Lemma indices_spec f names : forall pos i,
  i ∈ indices f pos names <->
  exists k name, i = pos + Z.of_nat k /\ names !! k = Some name /\ f name = true.
Proof.
  induction names as [|n names IH]; intros pos i; cbn [indices].
  - rewrite elem_of_nil. split; [done|]. by intros (k & name & _ & H & _).
  - transitivity (i = pos /\ f n = true \/ i ∈ indices f (pos + 1) names).
    { destruct (f n); rewrite ?elem_of_cons; [tauto|]. split; [by right|]. by intros [[_ ?]|]. }
    rewrite IH. split.
    + intros [[-> Hf]|(k & name & -> & Hk & Hf)]; [exists O, n; split; [lia|done]|].
      exists (S k), name. split; [lia|done].
    + intros (k & name & -> & Hk & Hf). destruct k as [|k]; cbn in Hk.
      * left. simplify_eq. split; [lia|done].
      * right. exists k, name. split; [lia|done].
Qed.

Lemma land_bit bm i : 0 <= i -> (Z.land bm (Z.shiftl 1 i) =? 0) = negb (Z.testbit bm i).
Proof.
  intros Hi. rewrite Z.shiftl_1_l. destruct (Z.eqb_spec (Z.land bm (2 ^ i)) 0) as [E|E].
  - apply (f_equal (fun z => Z.testbit z i)) in E. rewrite Z.land_spec, Z.pow2_bits_true, Z.bits_0 in E by done.
    by destruct (Z.testbit bm i).
  - destruct (Z.testbit bm i) eqn:Hb; [done|]. destruct E. apply Z.bits_inj_0. intros j.
    rewrite Z.land_spec, Z.pow2_bits_eqb by done. destruct (Z.eqb_spec i j) as [->|]; [by rewrite Hb|].
    by rewrite andb_false_r.
Qed.

(** The fold of the writer over the missing positions. *)
Definition bitmap_of (l : list Z) (bm : Z) : Z := foldl (fun bitmap idx => Z.lor bitmap (Z.shiftl 1 idx)) bm l.

Lemma bitmap_bits l i : forall bm,
  0 <= i -> Forall (fun j => 0 <= j) l ->
  Z.testbit (bitmap_of l bm) i = Z.testbit bm i || bool_decide (i ∈ l).
Proof.
  induction l as [|j l IH]; intros bm Hi Hl.
  - cbn. by rewrite orb_false_r.
  - change (bitmap_of (j :: l) bm) with (bitmap_of l (Z.lor bm (Z.shiftl 1 j))). apply Forall_cons in Hl as [Hj Hl]. rewrite IH by done.
    rewrite Z.lor_spec, Z.shiftl_1_l, Z.pow2_bits_eqb by done. rewrite <- orb_assoc. f_equal.
    destruct (Z.eqb_spec j i) as [->|]; cbn.
    + symmetry. apply bool_decide_true, list_elem_of_here.
    + apply bool_decide_ext. rewrite elem_of_cons. split; [by right|]. intros [|]; [congruence|done].
Qed.

Lemma bitmap_range l : forall bm,
  is_u64 bm -> Forall (fun j => 0 <= j < 64) l -> is_u64 (bitmap_of l bm).
Proof.
  induction l as [|j l IH]; intros bm Hb Hl; [done|].
  change (bitmap_of (j :: l) bm) with (bitmap_of l (Z.lor bm (Z.shiftl 1 j))).
  apply Forall_cons in Hl as [Hj Hl]. apply IH; [|done]. apply u_range_lor; [lia|done|].
  rewrite Z.shiftl_1_l. unfold u_range. split; [apply Z.pow_nonneg; lia|]. apply Z.pow_lt_mono_r; lia.
Qed.

Lemma subset_reads names present :
  zlen names < 64 ->
  exists bm, is_u64 bm /\
    (forall buf, write_column_subset buf names present = buf ++ encode_vuint bm) /\
    forall k name, names !! k = Some name -> is_present (Some bm) (Z.of_nat k) = present name.
Proof.
  intros Hn. unfold write_column_subset. rewrite (proj2 (Z.ltb_lt _ _)) by done.
  set (missing := indices (fun n => negb (present n)) 0 names).
  assert (Hm : Forall (fun j => 0 <= j < 64) missing).
  { apply Forall_forall. intros j (k & name & -> & Hk & _)%indices_spec.
    apply lookup_lt_Some in Hk. unfold zlen in Hn. lia. }
  assert (Hz : bitmap_of [] 0 = 0) by done.
  exists (bitmap_of missing 0). split; [|split].
  - by apply bitmap_range.
  - intros buf. assert (Hu : is_u64 (bitmap_of missing 0)) by (by apply bitmap_range).
    fold (bitmap_of missing 0). destruct (is_empty missing) eqn:E; [|by apply encode_unsigned_app].
    destruct missing; [|done]. by apply encode_unsigned_app.
  - intros k name Hk. unfold is_present.
    assert (Hlt : Z.of_nat k < 64) by (apply lookup_lt_Some in Hk; unfold zlen in Hn; lia).
    rewrite Z.geb_leb, (proj2 (Z.leb_gt _ _)) by done. cbn [orb].
    rewrite land_bit, bitmap_bits, Z.bits_0 by
      (lia || (eapply Forall_impl; [exact Hm|cbn; lia])). cbn [orb].
    destruct (present name) eqn:E.
    + rewrite bool_decide_false; [done|]. intros (k' & name' & Hkk & Hk' & Hp)%indices_spec.
      assert (k' = k) by lia. subst k'. rewrite Hk in Hk'. simplify_eq. by rewrite E in Hp.
    + rewrite bool_decide_true; [done|]. apply indices_spec. exists k, name. split; [lia|].
      split; [done|]. by rewrite E.
Qed.

Section Rows.
Context {VS : ValueSerializer} {CD : ComplexDecoder} {CW : ComplexWriter} {CR : ComplexColumnReader}.
Context (from_data_type : string -> result Error ComparatorType).

(** Clustering values the reader decodes as written: the column has the comparator of the
    value and one of the type names [parse_clustering_value] knows. *)
Definition clustering_ok (col : ClusteringColumn) (v : Value) : Prop :=
  let typed c names := from_data_type (cc_data_type col) = Ok c /\
                    to_lowercase (cc_data_type col) ∈ names in
  match v with
  | Null => True
  | Integer n => typed CInt ["int"]%string /\ is_i32 n
  | BigInt n => typed CBigInt ["bigint"]%string /\ is_i64 n
  | Timestamp n => typed CTimestamp ["timestamp"]%string /\ is_i64 n
  | Text s => typed CText ["text"; "varchar"]%string /\ utf8_valid s = true /\ is_u64 (zlen s)
  | Uuid s => typed CUuid ["uuid"; "timeuuid"]%string /\ zlen s = 16
  | Blob s => typed CBlob ["blob"]%string /\ is_u64 (zlen s)
  | _ => False
  end.

Lemma with_length_eq s : is_u64 (zlen s) -> with_length s = encode_vuint (zlen s) ++ s.
Proof. intros H. unfold with_length. by rewrite encode_unsigned_app. Qed.

Lemma read_length_bytes_app s rest :
  is_u64 (zlen s) -> read_length_bytes (encode_vuint (zlen s) ++ s ++ rest) = Ok (s, rest).
Proof.
  intros H. unfold read_length_bytes. rewrite read_vuint_encode by done. cbn [mbind result_bind].
  by apply take_bytes_app.
Qed.

(** Membership in a list of literals, then the cascade of the parser by computation. *)
Ltac known_type H :=
  rewrite ?elem_of_cons, ?elem_of_nil in H; destruct_or? H; try done; rewrite H;
  repeat match goal with |- context [bool_decide ?P] =>
    let b := eval vm_compute in (bool_decide P) in change (bool_decide P) with b; cbv iota
  end.

Lemma clustering_value_reads col v :
  clustering_ok col v -> is_null v = false ->
  exists c bytes, from_data_type (cc_data_type col) = Ok c /\
    serialize_value_for_clustering v c = Ok bytes /\
    forall rest, parse_clustering_value (bytes ++ rest) col = Ok (v, rest).
Proof.
  intros H Hn. unfold parse_clustering_value.
  destruct v; cbn in H; try done.
  - destruct H as [[Hc Ht] Hv]. eexists CInt, _. split; [done|]. split; [reflexivity|]. intros rest.
    known_type Ht. cbn -[take_bytes be_bytes]. rewrite take_bytes_app by apply zlen_be_bytes. cbn -[be_bytes from_be].
    unfold as_i32. by rewrite (signed_be 4 32).
  - destruct H as [[Hc Ht] Hv]. eexists CBigInt, _. split; [done|]. split; [reflexivity|]. intros rest.
    known_type Ht. cbn -[take_bytes be_bytes]. rewrite take_bytes_app by apply zlen_be_bytes. cbn -[be_bytes from_be].
    unfold as_i64. by rewrite (signed_be 8 64).
  - destruct H as [[Hc Ht] [Hv Hl]]. eexists CText, _. split; [done|]. split; [reflexivity|]. intros rest.
    rewrite with_length_eq, <- app_assoc by done.
    known_type Ht; cbn -[read_length_bytes encode_vuint]; rewrite read_length_bytes_app by done;
      cbn -[utf8_valid]; by rewrite Hv.
  - destruct H as [[Hc Ht] Hl]. eexists CBlob, _. split; [done|]. split; [reflexivity|]. intros rest.
    rewrite with_length_eq, <- app_assoc by done.
    known_type Ht. cbn -[read_length_bytes encode_vuint]. by rewrite read_length_bytes_app.
  - destruct H as [[Hc Ht] Hv]. eexists CTimestamp, _. split; [done|]. split; [reflexivity|]. intros rest.
    known_type Ht. cbn -[take_bytes be_bytes]. rewrite take_bytes_app by apply zlen_be_bytes. cbn -[be_bytes from_be].
    unfold as_i64. by rewrite (signed_be 8 64).
  - destruct H as [[Hc Ht] Hv]. eexists CUuid, _. split; [done|]. split; [reflexivity|]. intros rest.
    known_type Ht; cbn -[take_bytes]; by rewrite take_bytes_app.
Qed.

Lemma clustering_values_read keys values :
  Forall2 clustering_ok keys values -> 
  exists bytes,
    (forall buf, write_clustering_values from_data_type keys values buf = Ok (buf ++ bytes)) /\
    forall i low rest, 0 <= i -> i + zlen keys <= 32 -> 0 <= low < 4 ^ i ->
      parse_clustering_values (low + 4 ^ i * pack values) i keys (bytes ++ rest) = Ok (values, rest).
Proof.
  induction 1 as [|col v keys values Hv H (bytes & IHw & IHr)].
  { exists []. split; [intros buf; by rewrite app_nil_r|done]. }
  assert (Hstep : forall i low, 0 <= i -> 0 <= low < 4 ^ i ->
            low + 4 ^ i * pack (v :: values) = (low + 4 ^ i * state_of v) + 4 ^ (i + 1) * pack values
            /\ 0 <= low + 4 ^ i * state_of v < 4 ^ (i + 1)).
  { intros i low Hi Hl. rewrite Z.pow_add_r by lia. change (4 ^ 1) with 4. cbn [pack].
    unfold state_of. destruct (is_null v); split; nia. }
  pose proof (zlen_nonneg keys) as Hz.
  destruct (is_null v) eqn:Hn.
  - exists bytes. split.
    + intros buf. cbn [write_clustering_values tail]. rewrite Hn. apply IHw.
    + intros i low rest Hi Hk Hl. rewrite zlen_cons in Hk. cbn [parse_clustering_values].
      rewrite packed_state by lia. unfold state_of at 1 2. rewrite Hn. cbn [Z.eqb Pos.eqb mbind result_bind].
      destruct (Hstep i low Hi Hl) as [-> Hb]. rewrite IHr by (done || lia). cbn [mbind result_bind].
      by destruct v.
  - destruct (clustering_value_reads col v Hv Hn) as (c & vb & Hc & Hs & Hr).
    exists (vb ++ bytes). split.
    + intros buf. cbn [write_clustering_values]. rewrite Hn, Hc. cbn [mbind result_bind].
      rewrite Hs. cbn [mbind result_bind]. by rewrite IHw, <- app_assoc.
    + intros i low rest Hi Hk Hl. rewrite zlen_cons in Hk. cbn [parse_clustering_values].
      rewrite packed_state by lia. unfold state_of at 1. rewrite Hn. cbn [Z.eqb].
      rewrite <- app_assoc, Hr. cbn [mbind result_bind].
      destruct (Hstep i low Hi Hl) as [-> Hb]. by rewrite IHr by (done || lia).
Qed.

(** A row's clustering key against the schema: none for a table without clustering columns. *)
Definition clustering_key_ok (schema : TableSchema) (ck : option ClusteringKey) : Prop :=
  match ck with
  | None => clustering_keys schema = []
  | Some ck => clustering_keys schema <> [] /\ zlen (clustering_keys schema) <= 32 /\
               Forall2 clustering_ok (clustering_keys schema) (map snd ck)
  end.

Definition clustering_values_of (ck : option ClusteringKey) : list Value :=
  from_option (map snd) [] ck.

Definition write_prefix (schema : TableSchema) (ck : option ClusteringKey) (buf : list Z) :=
  match ck with
  | Some ck => write_clustering_prefix from_data_type ck schema buf
  | None => Ok buf
  end.

Lemma clustering_prefix_reads schema ck :
  clustering_key_ok schema ck ->
  exists bytes, (forall buf, write_prefix schema ck buf = Ok (buf ++ bytes)) /\
    (forall rest, parse_clustering_prefix (bytes ++ rest) schema = Ok (clustering_values_of ck, rest)) /\
    (Forall (fun v => is_null v = false) (clustering_values_of ck) -> ck <> None -> bytes !! 0%nat = Some 0).
Proof.
  unfold write_prefix, parse_clustering_prefix. destruct ck as [ck|]; cbn [clustering_key_ok].
  - intros (Hne & Hlen & Hok). destruct (clustering_values_read _ _ Hok) as (bytes & Hw & Hr).
    set (values := map snd ck) in *.
    assert (Hl : zlen values = zlen (clustering_keys schema)).
    { unfold zlen. by rewrite (Forall2_length _ _ _ Hok). }
    assert (Hp : prefix_header 0 0 values = pack values).
    { rewrite prefix_header_pack by (rewrite ?Hl; cbn; lia). cbn [Z.pow]. lia. }
    assert (Hu : is_u64 (pack values)).
    { pose proof (pack_bound values). unfold is_u64, u_range. split; [lia|].
      eapply Z.lt_le_trans; [apply H|]. rewrite four_pow by (pose proof (zlen_nonneg values); lia).
      apply Z.pow_le_mono_r; lia. }
    exists (encode_vuint (pack values) ++ bytes). split; [|split].
    + intros buf. unfold write_clustering_prefix. fold values. rewrite Hp, encode_unsigned_app by done.
      by rewrite Hw, <- app_assoc.
    + intros rest. destruct (clustering_keys schema) eqn:E; [done|]. cbn [is_empty]. rewrite <- E in *.
      rewrite <- app_assoc, read_vuint_encode by done. cbn [mbind result_bind].
      pose proof (Hr 0 0 rest) as H0. cbn [Z.pow] in H0. rewrite Z.mul_1_l, Z.add_0_l in H0.
      cbn [clustering_values_of from_option]. apply H0; lia.
    + intros Hnn _. cbn [clustering_values_of from_option] in Hnn. fold values in Hnn.
      by rewrite (pack_no_null values Hnn).
  - intros Hk. exists []. rewrite Hk. split; [intros; by rewrite app_nil_r|done].
Qed.

(** ** Cells of a row *)

(** What a whole-column operation leaves in its column: its value, a tombstone, nothing. *)
Definition op_value (mop : MergedOp) : option Value :=
  match mop_op mop with
  | Write _ v | WriteWithTtl _ v _ _ => if is_null v then None else Some v
  | Delete _ _ =>
      Some (Tombstone (mkTombstoneInfo (mop_timestamp_micros mop) CellTombstone
                         (mop_cell_local_deletion_time mop) None None None))
  | _ => None
  end.

Definition op_expiration (now : Z) (mop : MergedOp) : option CellExpiration :=
  match mop_op mop with
  | Write _ _ => (fun ttl => mkCellExpiration ttl (expiring_ldt now ttl)) <$> mop_row_ttl_seconds mop
  | WriteWithTtl _ _ ttl ldt => Some (mkCellExpiration ttl (expiry_of ldt now ttl))
  | _ => None
  end.

Definition op_meta (now : Z) (mop : MergedOp) : CellWriteMetadata :=
  mkCellWriteMetadata (mop_timestamp_micros mop) (op_expiration now mop).

(** A TTL and its expiry, at or above the baselines. *)
Definition ttl_ok (b : EncodingStatsBaselines) (now : Z) (ldt : option Z) (ttl : Z) : Prop :=
  enc_min_ttl b <= ttl <= i32_MAX /\ enc_min_local_deletion_time b <= expiry_of ldt now ttl /\
  is_i32 (expiry_of ldt now ttl).

Definition scalar_ok (data_type : string) (v : Value) : Prop :=
  v = Null \/ (kind_of v = Some (from_type data_type) /\ value_ok v).

Definition merged_op_ok (b : EncodingStatsBaselines) (now : Z) (data_type : string) (mop : MergedOp) : Prop :=
  is_i64 (mop_timestamp_micros mop) /\
  match mop_op mop with
  | Write _ v => from_option (ttl_ok b now None) True (mop_row_ttl_seconds mop) /\ scalar_ok data_type v
  | WriteWithTtl _ v ttl ldt => ttl_ok b now ldt ttl /\ scalar_ok data_type v
  | Delete _ _ => is_i32 (mop_cell_local_deletion_time mop) /\
                  enc_min_local_deletion_time b <= mop_cell_local_deletion_time mop
  | _ => False
  end.

(** A parsed header that carries the row's liveness. *)
Record liveness_of (row : RowWrite) (now : Z) (h : RowHeader) : Prop := {
  lo_ts : rh_timestamp h = rw_liveness_ts row;
  lo_ttl : rh_ttl h = rw_ttl_seconds row;
  lo_exp : rh_liveness_expires_at_seconds h = expiring_ldt now <$> rw_ttl_seconds row;
}.

Lemma scalar_not_complex v k lowered : kind_of v = Some k -> k <> KComplex lowered.
Proof. by destruct v; cbn; intros; simplify_eq. Qed.

Lemma scalar_no_user_type v data_type :
  kind_of v = Some (from_type data_type) -> references_user_type data_type = false.
Proof.
  intros Hk. pose proof (scalar_not_complex v _ (to_lowercase data_type) Hk) as Hc. clear Hk.
  unfold references_user_type, from_type, from_lowered_type in *.
  repeat (case_bool_decide as Ht; [clear Hc; rewrite ?elem_of_cons, ?elem_of_nil in Ht;
    destruct_or? Ht; try done; by rewrite Ht|clear Ht]). done.
Qed.

Lemma take_cell_effect p h ctp flags value ts exp st :
  is_Some (ctp_schema ctp) ->
  let st' := take_simple_cell p h None ctp flags value ts exp st in
  rs_cells st' = rs_cells st ++ [(ctp_name ctp, value)] /\
  rs_cell_meta st' =
    <[ctp_name ctp := mkCellWriteMetadata (default (default 0 (rh_timestamp h)) ts)
        (match exp with
         | Some e => Some e
         | None => if has_flag flags CELL_USE_ROW_TTL then
                     match rh_ttl h, row_expiry p h with
                     | Some ttl_s, Some exp_s => Some (mkCellExpiration ttl_s exp_s)
                     | _, _ => None
                     end else None
         end)]> <$> rs_cell_meta st /\
  rs_complex_out st' = rs_complex_out st.
Proof.
  intros [c Hc]. unfold take_simple_cell. rewrite Hc. cbn [is_some negb].
  by destruct (is_tombstone_value value).
Qed.

(** A simple column of the resolution and the column it came from. *)
Record simple_column (col : Column) (ctp : ColumnToParse) : Prop := {
  sc_schema : ctp_schema ctp = Some col;
  sc_name : ctp_name ctp = col_name col;
  sc_kind : ctp_kind ctp = from_type (col_data_type col);
  sc_simple : ctp_is_complex ctp = false;
}.

Definition cell_read (p : Parser) (h : RowHeader) (ctp : ColumnToParse) (bytes : list Z) (v : Value)
    (m : CellWriteMetadata) : Prop :=
  bytes <> [] /\ forall hcd st rest, rs_data st = bytes ++ rest ->
    exists st', read_column p h hcd None ctp st = Some st' /\ rs_data st' = rest /\
      rs_cells st' = rs_cells st ++ [(ctp_name ctp, v)] /\
      rs_cell_meta st' = <[ctp_name ctp := m]> <$> rs_cell_meta st /\
      rs_complex_out st' = rs_complex_out st.

(** From the decode of the bytes to the effect of the column. *)
Lemma cell_read_intro p h col ctp f tl v ts exp m :
  simple_column col ctp ->
  (forall rest, parse_cell_value_schema_order p (from_type (col_data_type col)) (f :: tl ++ rest)
                = Ok (v, ts, exp, rest)) ->
  mkCellWriteMetadata (default (default 0 (rh_timestamp h)) ts)
    (match exp with
     | Some e => Some e
     | None => if has_flag f CELL_USE_ROW_TTL then
                 match rh_ttl h, row_expiry p h with
                 | Some ttl_s, Some exp_s => Some (mkCellExpiration ttl_s exp_s)
                 | _, _ => None
                 end else None
     end) = m ->
  cell_read p h ctp (f :: tl) v m.
Proof.
  intros [Hs Hn Hk Hc] Hp Hm. split; [done|]. intros hcd st rest Hd.
  unfold read_column. rewrite Hc, Hk, Hd. cbn [app]. rewrite Hp. cbn [head default from_option id].
  eexists. split; [reflexivity|]. split; [done|].
  destruct (take_cell_effect p h ctp f v ts exp st) as (H1 & H2 & H3); [by rewrite Hs|].
  rewrite Hm in H2. by repeat split.
Qed.

Lemma empty_flag_row_ttl f v : f ∈ [0; 2; 8] -> has_flag (Z.lor f (empty_flag v)) CELL_USE_ROW_TTL = false.
Proof.
  rewrite !elem_of_cons, elem_of_nil. unfold empty_flag.
  intros [->|[->|[->|[]]]]; by destruct (is_empty_string v).
Qed.

Lemma ttl_clamped p b now ldt ttl : decodes p b -> ttl_ok b now ldt ttl -> u_range 32 ttl /\ Z.min ttl i32_MAX = ttl.
Proof. intros [_ _ _ _ Hr] (Ht & _). unfold u_range. limits. lia. Qed.

(** The expiring form, for an operation with its own TTL or the row's. *)
Lemma expiring_read p b now col ctp v ts ldt ttl :
  decodes p b -> simple_column col ctp -> is_i64 ts -> ttl_ok b now ldt ttl ->
  kind_of v = Some (from_type (col_data_type col)) -> value_ok v ->
  (forall buf, write_cell_with_ttl b buf v ts ttl ldt now
               = Ok (buf ++ expiring_bytes b v ts (expiry_of ldt now ttl) ttl)) /\
  forall h, cell_read p h ctp (expiring_bytes b v ts (expiry_of ldt now ttl) ttl) v
    (mkCellWriteMetadata ts (Some (mkCellExpiration ttl (expiry_of ldt now ttl)))).
Proof.
  intros Hp Hc Hts Httl Hk Hok. destruct (ttl_clamped _ _ _ _ _ Hp Httl) as [Hu Hmin].
  destruct Httl as ([Ht1 Ht2] & Hl & Hi). split.
  - intros buf. by apply (write_cell_ttl_eq p b buf v (from_type (col_data_type col))).
  - intros h. unfold expiring_bytes. eapply cell_read_intro; [done| |].
    + intros rest. rewrite <- !app_assoc. rewrite (parse_expiring p b), Hmin by done. reflexivity.
    + done.
Qed.

Lemma emit_reads p b row now col ctp mop :
  decodes p b -> simple_column col ctp ->
  merged_op_ok b now (col_data_type col) mop ->
  exists bytes,
    (forall buf, emit_whole_column_op b buf row col mop false now
                 = Ok (buf ++ bytes, if is_some (op_value mop) then 1 else 0)) /\
    match op_value mop with
    | None => bytes = []
    | Some v => forall h, liveness_of row now h -> cell_read p h ctp bytes v (op_meta now mop)
    end.
Proof.
  intros Hp Hc [Hts Hop]. unfold emit_whole_column_op, op_value, op_meta, op_expiration.
  destruct (mop_op mop) as [cn v|cn v ttl ldt|cn ldt| | |]; try done.
  - destruct Hop as [Httl [->|[Hk Hok]]].
    { exists []. split; [intros buf; cbn; by rewrite app_nil_r|done]. }
    rewrite (scalar_not_null v _ Hk). cbn [is_some].
    unfold canonicalize_udt_value. rewrite (scalar_no_user_type v _ Hk). cbn [negb mbind result_bind].
    destruct (mop_row_ttl_seconds mop) as [ttl|]; cbn [fmap option_fmap option_map from_option] in *.
    + unfold option_eqb. destruct (bool_decide (rw_ttl_seconds row = Some ttl)) eqn:E1; cbn [andb].
      2:{ destruct (expiring_read p b now col ctp v _ None ttl Hp Hc Hts Httl Hk Hok) as [Hw Hr].
          eexists. split; [intros buf; rewrite Hw; reflexivity|intros h _; exact (Hr h)]. }
      destruct (bool_decide (rw_liveness_ts row = Some (mop_timestamp_micros mop))) eqn:E2; cbn [andb].
      2:{ destruct (expiring_read p b now col ctp v _ None ttl Hp Hc Hts Httl Hk Hok) as [Hw Hr].
          eexists. split; [intros buf; rewrite Hw; reflexivity|intros h _; exact (Hr h)]. }
      apply bool_decide_eq_true in E1, E2.
      exists (row_ttl_bytes v). split; [intros buf; by rewrite (write_cell_row_ttl_eq buf v _ Hk Hok)|].
      intros h [H1 H2 H3]. eapply cell_read_intro; [done|intros rest; by apply parse_row_ttl|].
      assert (Hf : has_flag (Z.lor 26 (empty_flag v)) CELL_USE_ROW_TTL = true)
        by (unfold empty_flag; by destruct (is_empty_string v)).
      cbv beta iota. rewrite Hf. unfold row_expiry. by rewrite H1, H2, H3, E1, E2.
    + unfold option_eqb. destruct (bool_decide (rw_liveness_ts row = Some (mop_timestamp_micros mop))) eqn:E2.
      * apply bool_decide_eq_true in E2.
        exists (row_ts_bytes v). split; [intros buf; by rewrite (write_cell_eq b buf v _ _ Hk Hok)|].
        intros h [H1 _ _]. eapply cell_read_intro; [done|intros rest; by apply parse_row_timestamp|].
        cbv beta iota. rewrite empty_flag_row_ttl by (by repeat constructor). by rewrite H1, E2.
      * exists (explicit_bytes b v (mop_timestamp_micros mop)).
        split; [intros buf; by rewrite (write_cell_explicit_eq b buf v _ _ Hk Hok)|].
        intros h _. eapply cell_read_intro; [done| |].
        { intros rest. rewrite <- app_assoc. by apply (parse_explicit p b). }
        cbv beta iota. by rewrite empty_flag_row_ttl by (by repeat constructor).
  - destruct Hop as [Httl [->|[Hk Hok]]].
    { exists []. split; [intros buf; cbn; by rewrite app_nil_r|done]. }
    rewrite (scalar_not_null v _ Hk). cbn [is_some].
    unfold canonicalize_udt_value. rewrite (scalar_no_user_type v _ Hk). cbn [negb mbind result_bind].
    destruct (expiring_read p b now col ctp v _ ldt ttl Hp Hc Hts Httl Hk Hok) as [Hw Hr].
    eexists. split; [intros buf; rewrite Hw; reflexivity|intros h _; exact (Hr h)].
  - destruct Hop as [Hi Hl]. cbn [is_some].
    exists (tombstone_bytes b (mop_timestamp_micros mop) (mop_cell_local_deletion_time mop)).
    split; [intros buf; by rewrite (write_tombstone_eq p b)|].
    intros h _. eapply cell_read_intro; [done| |].
    { intros rest. rewrite <- app_assoc. by apply (parse_tombstone p b). }
    done.
Qed.

(** ** The columns of a row *)

Definition column_value (row : RowWrite) (c : Column) : option Value :=
  mop ← whole_by_col row (col_name c); op_value mop.

Definition row_cells (row : RowWrite) (cols : list Column) : list (string * Value) :=
  omap (fun c => pair (col_name c) <$> column_value row c) cols.

Definition column_meta (row : RowWrite) (now : Z) (m : gmap string CellWriteMetadata) (c : Column) :=
  match whole_by_col row (col_name c) with
  | Some mop => if is_some (op_value mop) then <[col_name c := op_meta now mop]> m else m
  | None => m
  end.

Definition row_meta (row : RowWrite) (now : Z) (cols : list Column) : gmap string CellWriteMetadata :=
  foldl (column_meta row now) ∅ cols.

Definition column_ok (b : EncodingStatsBaselines) (row : RowWrite) (now : Z) (c : Column) : Prop :=
  forall mop, whole_by_col row (col_name c) = Some mop -> merged_op_ok b now (col_data_type c) mop.

(** One column, written and read. *)
Lemma column_reads p b row now col ctp :
  decodes p b -> simple_column col ctp -> column_ok b row now col ->
  exists bytes,
    (forall buf, match whole_by_col row (col_name col) with
                 | Some mop => emit_whole_column_op b buf row col mop false now
                 | None => Ok (buf, 0)
                 end = Ok (buf ++ bytes, zlen (row_cells row [col]))) /\
    (if is_some (column_value row col) then
       bytes <> [] /\ forall h hcd st rest, liveness_of row now h -> rs_data st = bytes ++ rest ->
         exists st', read_column p h hcd None ctp st = Some st' /\ rs_data st' = rest /\
           rs_cells st' = rs_cells st ++ row_cells row [col] /\
           rs_cell_meta st' = (fun m => column_meta row now m col) <$> rs_cell_meta st /\
           rs_complex_out st' = rs_complex_out st
     else bytes = [] /\ row_cells row [col] = [] /\ forall m, column_meta row now m col = m).
Proof.
  intros Hp Hc Hok. unfold row_cells, column_meta, column_value, column_ok in *. cbn [omap list_omap].
  destruct (whole_by_col row (col_name col)) as [mop|]; cbn [mbind option_bind fmap option_fmap option_map is_some].
  - destruct (emit_reads p b row now col ctp mop Hp Hc (Hok mop eq_refl)) as (bytes & Hw & Hr).
    exists bytes. destruct (op_value mop) as [v|]; cbn [fmap option_fmap option_map is_some] in *.
    + split; [exact Hw|]. split.
      { destruct (Hr (mkRowHeader (rw_liveness_ts row) (rw_ttl_seconds row)
                  (expiring_ldt now <$> rw_ttl_seconds row) None None 0 0 None None None false false));
          [by split|done]. }
      intros h hcd st rest Hh Hd. destruct (Hr h Hh) as [_ Hr'].
      destruct (Hr' hcd st rest Hd) as (st' & H1 & H2 & H3 & H4 & H5).
      rewrite (sc_name _ _ Hc) in H3, H4. by exists st'.
    + split; [exact Hw|]. by rewrite Hr.
  - exists []. split; [intros buf; by rewrite app_nil_r|done].
Qed.

Lemma row_cells_cons row c cols : row_cells row (c :: cols) = row_cells row [c] ++ row_cells row cols.
Proof. unfold row_cells. cbn. by destruct (pair (col_name c) <$> column_value row c). Qed.

Lemma columns_read p b row now cols ctps :
  decodes p b -> Forall2 simple_column cols ctps ->
  Forall (column_ok b row now) cols ->
  exists bytes,
    (forall buf k, write_columns b row now ∅ (map (fun c => (c, false)) cols) buf k
                   = Ok (buf ++ bytes, k + zlen (row_cells row cols))) /\
    forall h hcd idx st rest, liveness_of row now h -> rs_data st = bytes ++ rest ->
      (forall i c, cols !! i = Some c ->
         is_present (rh_missing_columns_bitmap h) (idx + Z.of_nat i) = is_some (column_value row c)) ->
      let st' := read_columns p h hcd None idx ctps st in
      rs_data st' = rest /\ rs_cells st' = rs_cells st ++ row_cells row cols /\
      rs_cell_meta st' = (fun m => foldl (column_meta row now) m cols) <$> rs_cell_meta st /\
      rs_complex_out st' = rs_complex_out st.
Proof.
  intros Hp. induction 1 as [|c ctp cols ctps Hc Hcs IH]; intros Hok.
  { exists []. split; [intros buf k; cbn; by rewrite app_nil_r, Z.add_0_r|].
    intros h hcd idx st rest _ Hd _. cbn. rewrite app_nil_r. split; [exact Hd|split; [done|]].
    by destruct (rs_cell_meta st). }
  apply Forall_cons in Hok as [Hc1 Hok]. destruct (IH Hok) as (bytes & Hw & Hr).
  destruct (column_reads p b row now c ctp Hp Hc Hc1) as (cb & Hcw & Hcr).
  exists (cb ++ bytes). split.
  - intros buf k. cbn [map write_columns]. rewrite Hcw. cbn [mbind result_bind].
    rewrite lookup_empty, Hw, (row_cells_cons row c cols), zlen_app, <- app_assoc. by rewrite Z.add_assoc.
  - intros h hcd idx st rest Hh Hd Hb. cbn [read_columns].
    assert (Hb0 := Hb O c eq_refl). rewrite Z.add_0_r in Hb0. rewrite Hb0.
    assert (Hb' : forall i c', cols !! i = Some c' ->
              is_present (rh_missing_columns_bitmap h) (idx + 1 + Z.of_nat i) = is_some (column_value row c')).
    { intros i c' Hi. rewrite <- (Hb (S i) c' Hi). f_equal. lia. }
    rewrite (row_cells_cons row c cols). destruct (is_some (column_value row c)); cbn [negb].
    + destruct Hcr as [Hne Hcr]. rewrite <- app_assoc in Hd.
      destruct (Hcr h hcd st (bytes ++ rest) Hh Hd) as (st1 & H1 & H2 & H3 & H4 & H5).
      rewrite H1. assert (He : is_empty (rs_data st) = false) by (rewrite Hd; by destruct cb).
      rewrite He. destruct (Hr h hcd (idx + 1) st1 rest Hh H2 Hb') as (R1 & R2 & R3 & R4).
      split; [done|]. rewrite R2, R3, R4, H3, H4, H5, <- app_assoc. split; [done|].
      split; [by destruct (rs_cell_meta st)|done].
    + destruct Hcr as (-> & Hn & Hm). destruct (Hr h hcd (idx + 1) st rest Hh Hd Hb') as (R1 & R2 & R3 & R4).
      split; [done|]. rewrite R2, R3, Hn. split; [done|]. split; [|done].
      destruct (rs_cell_meta st); cbn; [|done]. by rewrite Hm.
Qed.

(** ** The operations of a row *)

Definition op_columns (row : RowWrite) : list (option string) :=
  map (fun mop => whole_column (mop_op mop)) (rw_ops row).

Lemma whole_by_col_spec row name mop :
  NoDup (op_columns row) ->
  whole_by_col row name = Some mop <-> mop ∈ rw_ops row /\ whole_column (mop_op mop) = Some name.
Proof.
  unfold whole_by_col, op_columns. intros Hn. split.
  - intros H. apply find_some in H as [Hi Hb]. apply bool_decide_eq_true in Hb. split; [|done].
    by apply list_elem_of_In, in_rev.
  - intros [Hi Hw].
    destruct (List.find _ (rev (rw_ops row))) as [mop'|] eqn:E.
    + apply find_some in E as [Hi' Hb]. apply bool_decide_eq_true in Hb.
      apply in_rev, list_elem_of_In in Hi'. f_equal.
      apply list_elem_of_lookup in Hi as [i Hi], Hi' as [j Hj].
      assert (i = j); [|by simplify_eq]. eapply NoDup_lookup; [exact Hn| |].
      * rewrite list_lookup_fmap, Hi. cbn. by rewrite Hw.
      * rewrite list_lookup_fmap, Hj. cbn. by rewrite Hb.
    + eapply find_none in E; [|apply (proj1 (in_rev _ _)), list_elem_of_In, Hi].
      by apply bool_decide_eq_false in E.
Qed.

Lemma op_value_some mop : is_some (op_value mop) = is_some (present_column (mop_op mop)).
Proof.
  unfold op_value, present_column. destruct (mop_op mop) as [cn v|cn v ? ?|cn ?| | |]; cbn; try done;
    by destruct (is_null v).
Qed.

Lemma present_column_some op name :
  present_column op = Some name <-> whole_column op = Some name /\ is_null_write op = false.
Proof.
  unfold present_column. destruct (is_null_write op); [|tauto]. split; [done|]. by intros [_ H].
Qed.

Lemma present_exact row c :
  NoDup (op_columns row) -> rw_complex_element_ops row = [] ->
  is_present_in row (col_name c) = is_some (column_value row c).
Proof.
  intros Hn He. unfold is_present_in, column_value. rewrite He. cbn [existsb]. rewrite orb_false_r.
  apply eq_true_iff_eq. rewrite existsb_exists. split.
  - intros (mop & Hi & Hb). apply bool_decide_eq_true in Hb.
    assert (Hp := Hb). apply present_column_some in Hb as [Hw _].
    rewrite (proj2 (whole_by_col_spec row (col_name c) mop Hn)) by (split; [by apply list_elem_of_In|done]).
    cbn. by rewrite op_value_some, Hp.
  - destruct (whole_by_col row (col_name c)) as [mop|] eqn:E; [|done]. cbn. intros Hv.
    apply whole_by_col_spec in E as [Hi Hw]; [|done]. exists mop. split; [by apply list_elem_of_In|].
    apply bool_decide_eq_true. rewrite op_value_some in Hv. unfold present_column in *.
    by destruct (is_null_write (mop_op mop)).
Qed.

(** ** Flags *)

(** What sets [ROW_HAS_ALL_COLUMNS]. *)
Definition all_columns (schema : TableSchema) (row : RowWrite) : bool :=
  let ops := map mop_op (rw_ops row) in
  negb (is_some (rw_row_deletion row))
  && (forallb is_write ops && negb (existsb is_null_write ops)
      && (length ops =? length (regular_columns_with_complex schema))%nat).

Lemma row_flags_tests schema row :
  let f := row_flags schema row in
  has_flag f ROW_HAS_EXTENDED_FLAGS = false /\
  has_flag f ROW_HAS_TIMESTAMP = is_some (rw_liveness_ts row) /\
  has_flag f ROW_HAS_TTL = is_some (rw_liveness_ts row) && is_some (rw_ttl_seconds row) /\
  has_flag f ROW_HAS_DELETION = is_some (rw_row_deletion row) /\
  has_flag f ROW_HAS_ALL_COLUMNS = all_columns schema row.
Proof.
  unfold row_flags, all_columns. cbv zeta.
  generalize (forallb is_write (map mop_op (rw_ops row)) && negb (existsb is_null_write (map mop_op (rw_ops row)))
    && (length (map mop_op (rw_ops row)) =? length (regular_columns_with_complex schema))%nat). intros all.
  match goal with |- context [set_flag ?c ROW_HAS_COMPLEX_DELETION _] => generalize c end. intros complex.
  destruct (is_some (rw_row_deletion row)), (is_some (rw_liveness_ts row)), (is_some (rw_ttl_seconds row)),
    all, complex; vm_compute; done.
Qed.

(** ** The header of a row *)

Lemma read_field_cond (cond : bool) d f rest :
  is_u64 d ->
  read_field cond f ((if cond then encode_vuint d else []) ++ rest)
  = Ok (if cond then Some (f d) else None, rest).
Proof. intros H. destruct cond; [by apply read_field_some|done]. Qed.

(** The local deletion time of a row comes back through the 32-bit delta, in both readings. *)
Lemma row_ldt_back m d :
  is_i32 m -> is_i32 d ->
  let raw := as_i64 (m + as_i64 (as_u32 (as_i32 (d - m)))) in
  as_i32 raw = d /\ as_i32 (as_u32 raw) = d.
Proof.
  intros Hm Hd raw.
  assert (Hr : as_i32 raw = d).
  { subst raw. pose proof (wrap_range 32 (as_i32 (d - m)) ltac:(lia)) as Hu. unfold u_range in Hu.
    rewrite (as_i64_id (as_u32 _)) by (limits; unfold as_u32; lia).
    rewrite as_i64_id by (limits; unfold as_u32; lia).
    unfold as_i32, as_u32. rewrite Z.add_comm, swrap_add_wrap, swrap_add_swrap by lia.
    rewrite Z.sub_add. by apply swrap_id. }
  split; [done|]. unfold as_i32, as_u32 in *. by rewrite swrap_wrap.
Qed.

(** The deltas of a row, each under its flag. *)
Definition deletion_delta (b : EncodingStatsBaselines) (d : Z * Z) : Z :=
  as_u32 (as_i32 (d.2 - enc_min_local_deletion_time b)).

Definition row_ttl_ok (b : EncodingStatsBaselines) (now : Z) (row : RowWrite) : Prop :=
  match rw_ttl_seconds row with
  | Some ttl => is_Some (rw_liveness_ts row) /\ ttl_ok b now None ttl /\ 0 <= expiring_ldt now ttl
  | None => True
  end.

Definition row_deletion_ok (b : EncodingStatsBaselines) (row : RowWrite) : Prop :=
  match rw_row_deletion row with
  | Some (ts, ldt) => is_i64 ts /\ is_i32 ldt /\
      (0 <= ldt -> 0 <= enc_min_local_deletion_time b -> enc_min_local_deletion_time b <= ldt)
  | None => True
  end.

(** The body up to the cells. *)
Definition header_bytes (b : EncodingStatsBaselines) (row : RowWrite) (now : Z) (bitmap : option Z) : list Z :=
  (if is_some (rw_liveness_ts row) then encode_vuint (timestamp_delta b (default 0 (rw_liveness_ts row))) else []) ++
  (if is_some (rw_ttl_seconds row) then encode_vuint (default 0 (rw_ttl_seconds row) - enc_min_ttl b) else []) ++
  (if is_some (rw_ttl_seconds row)
   then encode_vuint (expiring_ldt now (default 0 (rw_ttl_seconds row)) - enc_min_local_deletion_time b) else []) ++
  (if is_some (rw_row_deletion row)
   then encode_vuint (timestamp_delta b (default (0, 0) (rw_row_deletion row)).1) else []) ++
  (if is_some (rw_row_deletion row)
   then encode_vuint (deletion_delta b (default (0, 0) (rw_row_deletion row))) else []) ++
  (if is_some bitmap then encode_vuint (default 0 bitmap) else []).

Lemma ttl_deltas p b now row :
  decodes p b -> row_ttl_ok b now row ->
  let ttl := default 0 (rw_ttl_seconds row) in
  is_some (rw_ttl_seconds row) = true ->
  is_u64 (ttl - enc_min_ttl b) /\ is_u64 (expiring_ldt now ttl - enc_min_local_deletion_time b).
Proof.
  intros [_ _ _ Hl Ht] H. unfold row_ttl_ok in H. destruct (rw_ttl_seconds row) as [ttl|]; [|done].
  destruct H as (_ & ([? ?] & He & Hi) & _). cbn in *. intros _. unfold is_u64, u_range. limits. lia.
Qed.

Lemma ttl_field_ok p b now row (cond : bool) :
  decodes p b -> row_ttl_ok b now row -> cond = is_some (rw_ttl_seconds row) ->
  forall d, (d = default 0 (rw_ttl_seconds row) - enc_min_ttl b \/
             d = expiring_ldt now (default 0 (rw_ttl_seconds row)) - enc_min_local_deletion_time b) ->
  forall f rest,
  read_field cond f ((if cond then encode_vuint d else []) ++ rest)
  = Ok (if cond then Some (f d) else None, rest).
Proof.
  intros Hp Ht -> d Hd f rest. destruct (is_some (rw_ttl_seconds row)) eqn:E; [|done].
  destruct (ttl_deltas p b now row Hp Ht E) as [H1 H2].
  apply read_field_some. by destruct Hd as [->| ->].
Qed.

Lemma is_u64_deletion_delta b d : is_u64 (deletion_delta b d).
Proof.
  unfold deletion_delta, as_u32, is_u64. pose proof (wrap_range 32 (as_i32 (d.2 - enc_min_local_deletion_time b)) ltac:(lia)) as H.
  unfold u_range in *. lia.
Qed.

(** What the parsed header says of a row. *)
Record header_of (row : RowWrite) (now : Z) (bitmap : option Z) (h : RowHeader) : Prop := {
  ho_live : liveness_of row now h;
  ho_mfda : rh_marked_for_delete_at h = fst <$> rw_row_deletion row;
  ho_ldt : rh_local_deletion_time h = snd <$> rw_row_deletion row;
  ho_bitmap : rh_missing_columns_bitmap h = bitmap;
}.

Lemma metadata_reads p b schema row now bitmap size prev rest :
  decodes p b -> row_ttl_ok b now row -> row_deletion_ok b row ->
  from_option is_i64 True (rw_liveness_ts row) ->
  is_some bitmap = negb (all_columns schema row) -> from_option is_u64 True bitmap ->
  is_u64 size -> is_u64 prev ->
  exists h,
    parse_row_metadata p (encode_vuint size ++ encode_vuint prev ++ header_bytes b row now bitmap ++ rest)
      (row_flags schema row) = Ok (h, size, rest) /\
    header_of row now bitmap h /\
    rh_header_size h = zlen (encode_vuint size) + zlen (encode_vuint prev) + zlen (header_bytes b row now bitmap) /\
    rh_row_size_vint_len h = zlen (encode_vuint size).
Proof.
  intros Hp Ht Hdel Hts Hb Hbu Hs Hpv. pose proof Hp as [E1 E2 E3 E4 E5].
  destruct (row_flags_tests schema row) as (_ & F1 & F2 & F3 & F4).
  assert (F2' : has_flag (row_flags schema row) ROW_HAS_TTL = is_some (rw_ttl_seconds row)).
  { rewrite F2. unfold row_ttl_ok in Ht. destruct (rw_ttl_seconds row); cbn.
    - destruct Ht as ([ts ->] & _). done.
    - by rewrite andb_false_r. }
  unfold parse_row_metadata.
  rewrite read_vuint_encode by done. cbn [mbind result_bind].
  rewrite read_vuint_encode by done. cbn [mbind result_bind]. unfold header_bytes.
  rewrite F1, F2', F3, F4, <- Hb, <- !app_assoc.
  rewrite read_field_cond by apply is_u64_timestamp_delta. cbn [mbind result_bind].
  rewrite (ttl_field_ok p b now row) by auto. cbn [mbind result_bind].
  rewrite (ttl_field_ok p b now row) by auto. cbn [mbind result_bind].
  rewrite read_field_cond by apply is_u64_timestamp_delta. cbn [mbind result_bind].
  rewrite read_field_cond by apply is_u64_deletion_delta. cbn [mbind result_bind].
  rewrite read_field_cond by (destruct bitmap; [exact Hbu|done]). cbn [mbind result_bind].
  eexists. split; [reflexivity|]. split; [|rewrite !zlen_app; cbn; split; lia]. split; [split|..]; cbn.
  - destruct (rw_liveness_ts row) as [ts|]; cbn in *; [|done]. by rewrite (timestamp_back p b).
  - unfold row_ttl_ok in Ht. destruct (rw_ttl_seconds row) as [ttl|]; cbn in *; [|done].
    destruct Ht as (_ & ([? ?] & _) & _). rewrite E3. rewrite delta_back by (limits; lia).
    f_equal. apply swrap_id; [lia|]. limits. lia.
  - unfold row_ttl_ok in Ht. destruct (rw_ttl_seconds row) as [ttl|]; cbn in *; [|done].
    destruct Ht as (_ & (_ & ? & Hi) & ?). cbn in *. rewrite E2, delta_back by (limits; lia).
    f_equal. destruct (p_has_uint_deletion_time p); [apply wrap_id|apply swrap_id; [lia|]]; unfold u_range; limits; lia.
  - unfold row_deletion_ok in Hdel. destruct (rw_row_deletion row) as [[ts ldt]|]; cbn in *; [|done].
    destruct Hdel as [? _]. by rewrite (timestamp_back p b).
  - unfold row_deletion_ok in Hdel. destruct (rw_row_deletion row) as [[ts ldt]|]; cbn in *; [|done].
    destruct Hdel as (_ & ? & _). rewrite E2. unfold deletion_delta. cbn [snd].
    destruct (row_ldt_back _ ldt E4 H) as [H1 H2]. by destruct (p_has_uint_deletion_time p); f_equal.
  - by destruct bitmap.
Qed.

(** ** A row, written and read back *)

(** The regular columns, in order. *)
Definition regular (schema : TableSchema) : list Column := map fst (regular_columns_with_complex schema).

Section Row.
Context (marshal : string -> string) (schema : TableSchema) (header : list ColumnInfo).
Context (b : EncodingStatsBaselines) (now : Z).

Local Abbreviation cols := (regular schema).

(** A table whose regular columns are single cells, fewer than 64, and a header that lists
    them as the statistics writer does. *)
Record table_ok : Prop := {
  to_names : NoDup (map col_name (columns schema));
  to_simple : Forall (fun c => is_complex_column (col_data_type c) = false /\
                               is_complex_column (marshal (col_data_type c)) = false) cols;
  to_few : zlen cols < 64;
  to_header : header <> [];
  to_listed : header_regular header = header_regular_columns marshal schema;
}.

(** A merged row of that table: at most one operation a column, on regular columns, with
    values of the column's type, and times at or above the baselines. *)
Record row_ok (row : RowWrite) : Prop := {
  ro_elements : rw_complex_element_ops row = [];
  ro_nodup : NoDup (op_columns row);
  ro_ops : Forall (fun mop => exists c, c ∈ cols /\ whole_column (mop_op mop) = Some (col_name c) /\
                                merged_op_ok b now (col_data_type c) mop) (rw_ops row);
  ro_ts : from_option is_i64 True (rw_liveness_ts row);
  ro_ttl : row_ttl_ok b now row;
  ro_deletion : row_deletion_ok b row;
  ro_clustering : clustering_key_ok schema (rw_clustering_key row);
}.

Lemma regular_names : table_ok -> NoDup (map col_name cols).
Proof.
  intros [Hn _ _ _ _]. unfold regular. rewrite regular_columns_perm.
  revert Hn. generalize (columns schema). intros l. induction l as [|c l IH]; cbn; [done|].
  intros [Hc Hl]%NoDup_cons. destruct (is_regular schema c); cbn; [|by apply IH].
  apply NoDup_cons. split; [|by apply IH]. intros Hi. apply Hc.
  apply list_elem_of_fmap in Hi as (d & -> & Hd). apply list_elem_of_fmap_2.
  apply list_elem_of_In, filter_In in Hd as [Hd _]. by apply list_elem_of_In.
Qed.

Lemma regular_simple : table_ok ->
  regular_columns_with_complex schema = map (fun c => (c, false)) cols /\
  Forall2 simple_column cols (columns_for (build_resolution schema header) false).
Proof.
  intros Ht. pose proof Ht as [Hn Hs _ Hh Hl]. split.
  - unfold regular in *. rewrite map_map. rewrite regular_columns_eq in *. rewrite map_map in *.
    cbn [with_complex fst] in *. rewrite map_id in Hs. apply map_ext_Forall.
    eapply Forall_impl; [exact Hs|]. intros c [Hc _]. unfold with_complex. by rewrite Hc.
  - rewrite (resolution_regular marshal) by done.
    rewrite <- (map_map fst (resolved marshal)). fold (regular schema).
    revert Hs. generalize (regular schema). clear. induction 1 as [|c l [_ Hc] _ IH]; cbn; constructor; [|done]. by split.
Qed.

Lemma same_column c d : table_ok -> c ∈ cols -> d ∈ cols -> col_name c = col_name d -> c = d.
Proof.
  intros Ht Hc Hd E. apply regular_names in Ht.
  apply list_elem_of_lookup in Hc as [i Hi], Hd as [j Hj].
  assert (i = j); [|by simplify_eq]. eapply NoDup_lookup; [exact Ht| |].
  - by rewrite list_lookup_fmap, Hi.
  - rewrite list_lookup_fmap, Hj. cbn. by rewrite E.
Qed.

Lemma columns_ok row : table_ok -> row_ok row -> Forall (column_ok b row now) cols.
Proof.
  intros Ht Hr. apply Forall_forall. intros c Hc mop Hm.
  apply whole_by_col_spec in Hm as [Hi Hw]; [|by apply ro_nodup].
  pose proof (ro_ops _ Hr) as Ho. rewrite Forall_forall in Ho.
  destruct (Ho mop Hi) as (d & Hd & Hdw & Hok). rewrite Hw in Hdw. injection Hdw as E.
  by rewrite (same_column c d).
Qed.

(** With the all-columns flag every column has a value. *)
Lemma all_columns_present row c :
  table_ok -> row_ok row -> all_columns schema row = true -> c ∈ cols ->
  is_some (column_value row c) = true.
Proof.
  intros Ht Hr Ha Hc. pose proof (ro_nodup _ Hr) as Hn.
  unfold all_columns in Ha. rewrite !andb_true_iff in Ha. destruct Ha as (_ & (Hw & Hz) & Hl).
  apply Nat.eqb_eq in Hl. rewrite length_map in Hl.
  assert (Hsub : op_columns row ⊆+ map (fun c => Some (col_name c)) cols).
  { apply NoDup_submseteq; [done|]. intros o Ho. apply list_elem_of_fmap in Ho as (mop & -> & Hi).
    pose proof (ro_ops _ Hr) as Hop. rewrite Forall_forall in Hop.
    destruct (Hop mop Hi) as (d & Hd & -> & _). by apply (list_elem_of_fmap_2 (fun c => Some (col_name c))). }
  apply submseteq_length_Permutation in Hsub.
  2:{ unfold op_columns. unfold regular. rewrite !length_map. lia. }
  assert (Hi : Some (col_name c) ∈ op_columns row).
  { rewrite Hsub. by apply (list_elem_of_fmap_2 (fun c => Some (col_name c))). }
  apply list_elem_of_fmap in Hi as (mop & E & Hi).
  unfold column_value. rewrite (proj2 (whole_by_col_spec row (col_name c) mop Hn)) by done. cbn.
  rewrite op_value_some. unfold present_column.
  assert (Hnn : is_null_write (mop_op mop) = false).
  { apply negb_true_iff in Hz. destruct (is_null_write (mop_op mop)) eqn:En; [|done].
    rewrite <- Hz. symmetry. apply existsb_exists. exists (mop_op mop). split; [|done].
    apply in_map. by apply list_elem_of_In. }
  by rewrite Hnn, <- E.
Qed.

(** The bitmap the writer emits, if any, and what it marks. *)
Lemma bitmap_reads row :
  table_ok -> row_ok row ->
  exists bitmap, is_some bitmap = negb (all_columns schema row) /\ from_option is_u64 True bitmap /\
    (forall body, (if negb (all_columns schema row) then write_merged_column_bitmap body row schema else body)
                  = body ++ (if is_some bitmap then encode_vuint (default 0 bitmap) else [])) /\
    forall i c, cols !! i = Some c -> is_present bitmap (Z.of_nat i) = is_some (column_value row c).
Proof.
  intros Ht Hr. destruct (all_columns schema row) eqn:Ha; cbn [negb].
  - exists None. split; [done|split; [done|split]]; [intros; by rewrite app_nil_r|].
    intros i c Hi. cbn. symmetry. apply all_columns_present; [done|done|done|].
    by eapply list_elem_of_lookup_2.
  - unfold write_merged_column_bitmap. destruct (subset_reads (map col_name cols) (is_present_in row))
      as (bm & Hu & Hw & Hp).
    { unfold zlen. rewrite length_map. apply (to_few Ht). }
    exists (Some bm). split; [done|split; [done|split]].
    + intros body. rewrite <- Hw. unfold regular. by rewrite map_map.
    + intros i c Hi. rewrite (Hp i (col_name c)) by (by rewrite list_lookup_fmap, Hi).
      apply present_exact; [by apply ro_nodup|by apply ro_elements].
Qed.

Lemma body_written p row bitmap cells n :
  decodes p b -> row_ok row ->
  (forall body, (if negb (all_columns schema row) then write_merged_column_bitmap body row schema else body)
                = body ++ (if is_some bitmap then encode_vuint (default 0 bitmap) else [])) ->
  (forall buf, write_merged_cells b buf row schema now = Ok (buf ++ cells, n)) ->
  build_merged_row_body b row schema (row_flags schema row) now
  = Ok (header_bytes b row now bitmap ++ cells, n).
Proof.
  intros Hp Hr Hb Hc. unfold build_merged_row_body, header_bytes.
  destruct (row_flags_tests schema row) as (_ & F1 & F2 & F3 & F4). rewrite F1, F2, F3, F4. clear F1 F2 F3 F4.
  pose proof (ro_ttl _ Hr) as Httl. pose proof (ro_deletion _ Hr) as Hdel.
  pose proof (ttl_deltas p b now row Hp Httl) as Hd. unfold row_ttl_ok, row_deletion_ok in *.
  assert (Hts : (if is_some (rw_liveness_ts row)
                 then liveness_ts ← ok_or InvalidInput (rw_liveness_ts row);
                      Ok (encode_unsigned (timestamp_delta b liveness_ts) [])
                 else Ok [])
                = Ok (E := Error) (if is_some (rw_liveness_ts row)
                      then encode_vuint (timestamp_delta b (default 0 (rw_liveness_ts row))) else [])).
  { destruct (rw_liveness_ts row); cbn; [|done]. by rewrite encode_unsigned_app by apply is_u64_timestamp_delta. }
  rewrite Hts. cbn [mbind result_bind]. clear Hts.
  set (h1 := if is_some (rw_liveness_ts row) then _ else _).
  assert (Hdl : forall body, (if is_some (rw_row_deletion row)
                 then deletion ← ok_or InvalidInput (rw_row_deletion row); write_row_deletion b deletion body
                 else Ok body)
                = Ok (body ++ (if is_some (rw_row_deletion row)
                       then encode_vuint (timestamp_delta b (default (0, 0) (rw_row_deletion row)).1) else []) ++
                      (if is_some (rw_row_deletion row)
                       then encode_vuint (deletion_delta b (default (0, 0) (rw_row_deletion row))) else []))).
  { intros body. destruct (rw_row_deletion row) as [[ts ldt]|]; cbn [is_some]; [|by rewrite app_nil_r].
    cbn [ok_or mbind result_bind write_row_deletion default from_option id fst].
    destruct Hdel as (_ & Hi & Hg).
    destruct ((ldt >=? 0) && (enc_min_local_deletion_time b >=? 0) && (ldt <? enc_min_local_deletion_time b)) eqn:E.
    { rewrite !andb_true_iff, !Z.geb_le, Z.ltb_lt in E. lia. }
    rewrite !encode_unsigned_app by (apply is_u64_timestamp_delta || apply (is_u64_deletion_delta b (ts, ldt))).
    by rewrite <- app_assoc. }
  destruct (rw_ttl_seconds row) as [ttl|]; cbn [is_some] in *; cbn [default from_option id] in Hd.
  - destruct Httl as ([ts Hl] & _). rewrite Hl. cbn [is_some andb].
    destruct (Hd eq_refl) as [H1 H2].
    rewrite write_delta_eq by done. cbn [mbind result_bind].
    rewrite write_delta_eq by done. cbn [mbind result_bind].
    rewrite Hdl. cbn [mbind result_bind]. rewrite Hb, Hc. cbn [default from_option id].
    by rewrite <- !app_assoc.
  - rewrite andb_false_r. cbn [mbind result_bind]. rewrite Hdl. cbn [mbind result_bind].
    rewrite Hb, Hc. cbn [app]. by rewrite <- !app_assoc.
Qed.

(** *** The row as a whole *)

Lemma row_size_u64 p row bitmap cells prev :
  zlen (encode_unsigned (unsigned_len prev + zlen (header_bytes b row now bitmap ++ cells)) [] ++
        encode_vuint prev ++ header_bytes b row now bitmap ++ cells) <= i64_MAX ->
  decodes p b -> is_u64 prev ->
  is_u64 (unsigned_len prev + zlen (header_bytes b row now bitmap ++ cells)).
Proof.
  intros H _ Hp. rewrite unsigned_len_vuint by done. rewrite !zlen_app in *.
  pose proof (zlen_nonneg (encode_vuint prev)). pose proof (zlen_nonneg (header_bytes b row now bitmap)).
  pose proof (zlen_nonneg cells). unfold is_u64, u_range, i64_MAX in *.
  match type of H with zlen ?l + _ <= _ => pose proof (zlen_nonneg l) end. lia.
Qed.

Lemma read_columns_empty p h hcd ctx ctps : forall idx st,
  rs_data st = [] -> read_columns p h hcd ctx idx ctps st = st.
Proof.
  induction ctps as [|ctp ctps IH]; intros idx st Hd; cbn [read_columns]; [done|].
  destruct (negb (is_present _ _)); [by apply IH|]. by rewrite Hd.
Qed.

(** The parser from the sizes on. *)
Lemma parse_body p row bitmap cells prev rest :
  decodes p b -> row_ok row -> is_u64 prev ->
  is_some bitmap = negb (all_columns schema row) -> from_option is_u64 True bitmap ->
  let size := unsigned_len prev + zlen (header_bytes b row now bitmap ++ cells) in
  is_u64 size ->
  let data := encode_vuint size ++ encode_vuint prev ++ header_bytes b row now bitmap ++ cells ++ rest in
  exists h,
    header_of row now bitmap h /\
    parse_row_metadata p data (row_flags schema row) = Ok (h, size, cells ++ rest) /\
    (size >? zlen (drop (Z.to_nat (rh_row_size_vint_len h)) data)) = false /\
    drop (Z.to_nat size) (drop (Z.to_nat (rh_row_size_vint_len h)) data) = rest /\
    (zlen data - zlen (cells ++ rest) <? rh_row_size_vint_len h + size) = negb (is_empty cells).
Proof.
  intros Hp Hr Hpv Hb Hbu size Hs data.
  destruct (metadata_reads p b schema row now bitmap size prev (cells ++ rest) Hp (ro_ttl _ Hr)
              (ro_deletion _ Hr) (ro_ts _ Hr) Hb Hbu Hs Hpv) as (h & H1 & H2 & H3 & H4).
  exists h. split; [done|split; [exact H1|]]. rewrite H4.
  assert (Hd : drop (Z.to_nat (zlen (encode_vuint size))) data
               = (encode_vuint prev ++ header_bytes b row now bitmap ++ cells) ++ rest).
  { unfold zlen, data. rewrite Nat2Z.id, drop_app_length. by rewrite <- !app_assoc. }
  assert (Hz : size = zlen (encode_vuint prev ++ header_bytes b row now bitmap ++ cells)).
  { unfold size. by rewrite unsigned_len_vuint, (zlen_app (encode_vuint prev)) by done. }
  rewrite Hd. split; [|split].
  - rewrite Hz, (zlen_app _ rest). pose proof (zlen_nonneg rest). rewrite Z.gtb_ltb. apply Z.ltb_ge. lia.
  - rewrite Hz. unfold zlen. by rewrite Nat2Z.id, drop_app_length.
  - unfold data. rewrite Hz, !zlen_app. destruct cells as [|c cells]; cbn [is_empty negb].
    + apply Z.ltb_ge. assert (Hn : zlen (@nil Z) = 0) by done. lia.
    + apply Z.ltb_lt. pose proof (zlen_nonneg cells). rewrite !zlen_cons. lia.
Qed.

(** The clustering columns of a row as the parser lists them. *)
Definition clustering_cells (row : RowWrite) : list (string * Value) :=
  zip_with pair (map cc_name (clustering_keys schema)) (clustering_values_of (rw_clustering_key row)).

(** The bytes of a row: its flags, and what the flags do not tell apart. *)
Record row_bytes (row : RowWrite) (bytes : list Z) : Prop := {
  rb_flags : exists tl, bytes = row_flags schema row :: tl;
  rb_prefix : Forall (fun v => is_null v = false) (clustering_values_of (rw_clustering_key row)) ->
              rw_clustering_key row <> None -> bytes !! 1%nat = Some 0;
}.

Lemma row_reads p row prev :
  decodes p b -> table_ok -> row_ok row -> is_u64 prev ->
  exists bytes, row_bytes row bytes /\
    (forall buf, write_merged_row_with_prev_size from_data_type b buf row schema prev now
                 = Ok (buf ++ bytes, zlen (row_cells row cols))) /\
    (zlen bytes <= i64_MAX -> forall rest want collect,
     exists r, parse_row_data p (Some schema) (build_resolution schema header) want collect None (bytes ++ rest) = Ok r /\
       pr_cells r = clustering_cells row ++ row_cells row cols /\
       pr_cell_meta r = (if want then Some (row_meta row now cols) else None) /\
       pr_rest r = rest /\ pr_is_static r = false /\
       liveness_of row now (pr_row_header r) /\
       rh_marked_for_delete_at (pr_row_header r) = fst <$> rw_row_deletion row /\
       rh_local_deletion_time (pr_row_header r) = snd <$> rw_row_deletion row /\
       pr_complex_out r = (if collect then Some ∅ else None)).
Proof.
  intros Hp Ht Hr Hpv.
  destruct (clustering_prefix_reads schema _ (ro_clustering _ Hr)) as (pb & Hpw & Hpr & Hpz).
  destruct (bitmap_reads row Ht Hr) as (bitmap & Hb & Hbu & Hbw & Hbp).
  destruct (regular_simple Ht) as [Hreg Hsc].
  destruct (columns_read p b row now _ _ Hp Hsc (columns_ok row Ht Hr)) as (cells & Hcw & Hcr).
  assert (Hg : group_complex_element_ops row = ∅)
    by (unfold group_complex_element_ops; by rewrite (ro_elements _ Hr)).
  assert (Hmc : forall buf, write_merged_cells b buf row schema now
                            = Ok (buf ++ cells, zlen (row_cells row cols))).
  { intros buf. unfold write_merged_cells. by rewrite Hg, Hreg, Hcw. }
  pose proof (body_written p row bitmap cells _ Hp Hr Hbw Hmc) as Hbody.
  set (size := unsigned_len prev + zlen (header_bytes b row now bitmap ++ cells)).
  exists (row_flags schema row :: pb ++ encode_unsigned size [] ++ encode_vuint prev ++
          header_bytes b row now bitmap ++ cells). split; [|split].
  - split; [by eexists|]. intros Hnn Hck. cbn [lookup list_lookup]. by rewrite (lookup_app_l_Some _ _ _ _ (Hpz Hnn Hck)).
  - intros buf. unfold write_merged_row_with_prev_size.
    change (match rw_clustering_key row with
            | Some ck => write_clustering_prefix from_data_type ck schema (buf ++ [row_flags schema row])
            | None => Ok (buf ++ [row_flags schema row])
            end) with (write_prefix schema (rw_clustering_key row) (buf ++ [row_flags schema row])).
    rewrite Hpw. cbn [mbind result_bind]. rewrite Hbody. cbn [mbind result_bind]. fold size.
    rewrite encode_unsigned_app, encode_unsigned_append by done. by rewrite <- !app_assoc.
  - intros Hlen rest want collect.
    assert (Hs : is_u64 size).
    { apply (row_size_u64 p row bitmap cells prev); [|done|done]. fold size.
      rewrite zlen_cons, zlen_app in Hlen. pose proof (zlen_nonneg pb). lia. }
    rewrite encode_unsigned_app in * by done. cbn [app] in *.
    destruct (parse_body p row bitmap cells prev rest Hp Hr Hpv Hb Hbu Hs) as (h & Hh & H1 & H2 & H3 & H4).
    fold size in H1, H2, H3, H4.
    destruct (row_flags_tests schema row) as (F0 & _).
    unfold parse_row_data. cbn [ok_or mbind result_bind parse_row_flags]. rewrite F0.
    cbn [mbind result_bind negb]. rewrite <- !app_assoc, Hpr. cbn [mbind result_bind].
    rewrite H1. cbn [mbind result_bind]. rewrite H2, H3, H4.
    assert (Hcl : zip_with pair (take (length (clustering_keys schema))
                    (rcr_clustering (build_resolution schema header)))
                    (clustering_values_of (rw_clustering_key row)) = clustering_cells row).
    { unfold clustering_cells. f_equal.
      assert (E : rcr_clustering (build_resolution schema header) = map cc_name (clustering_keys schema)).
      { unfold build_resolution. by destruct (is_empty header). }
      rewrite E. apply firstn_all2. by rewrite length_map. }
    rewrite Hcl. destruct Hh as [Hlive Hm Hl Hbm].
    set (st0 := mkRowState (cells ++ rest) (clustering_cells row) (if want then Some ∅ else None)
                  (if want then Some ∅ else None) None None false false (if collect then Some ∅ else None)).
    destruct (Hcr h (has_flag (row_flags schema row) ROW_HAS_COMPLEX_DELETION) 0 st0 rest Hlive eq_refl)
      as (R1 & R2 & R3 & R4).
    { intros i c Hi. rewrite Hbm. by apply Hbp. }
    destruct (is_some (rh_local_deletion_time h) && negb (negb (is_empty cells))) eqn:Hpure.
    + apply andb_true_iff in Hpure as [_ Hempty]. rewrite negb_involutive in Hempty.
      destruct cells; [|done].
      destruct (Hcr h false 0 (mkRowState [] [] (Some ∅) None None None false false None) [] Hlive eq_refl)
        as (_ & E2 & E3 & _).
      { intros i c Hi. rewrite Hbm. by apply Hbp. }
      rewrite read_columns_empty in E2, E3 by done.
      cbn [rs_cells rs_cell_meta fmap option_fmap option_map app] in E2, E3. injection E3 as E3.
      eexists. split; [reflexivity|]. cbn [pr_cells pr_cell_meta pr_rest pr_is_static pr_row_header].
      rewrite <- E2, app_nil_r. unfold row_meta. rewrite <- E3.
      split; [done|]. split; [by destruct want|]. by split_and!.
    + eexists. split; [reflexivity|]. cbn [pr_cells pr_cell_meta pr_rest pr_is_static pr_row_header].
      cbn [columns_for]. fold st0. split; [exact R2|]. split; [etrans; [exact R3|by destruct want]|].
      split; [done|split; [done|]]. split; [by destruct Hlive|]. by split_and!.
Qed.

(** C23: Reading a row undoes writing it. The table has fewer than 64 regular columns, all of one
    cell and listed in the header, and distinct column names; its baselines are those the
    header gave back. The row has a value or null for each of at most 32 clustering columns
    (or no key, in a table without clustering columns), and those are of type int, bigint,
    timestamp, text, varchar, uuid, timeuuid or blob: the reader takes values of other
    types, and rows with fewer values, for something else
    ([boolean_clustering_misread], [PartitionRoundtrip.partial_key_row_misread]). It has at most one operation on
    a column: a write of null or of a scalar of the column's type (any but varint), with or
    without a TTL, or a deletion. Timestamps are 64-bit; TTLs, expiries and local
    deletion times are 32-bit and at or above the baselines; a row's TTL comes with a
    timestamp and its expiry is not negative. Then [write_merged_row_with_prev_size] accepts the row
    and counts its cells, and [parse_row_data_with_offset] on its at most [i64::MAX] bytes,
    whatever follows them, ends exactly where the next row begins, with the clustering
    columns, one cell for each column that was written or deleted (nulls are absent), each
    with the write time and expiry of its operation even when the bytes leave them to the
    row, and the row's own timestamp, TTL, expiry and deletion. *)
Theorem row_roundtrip p row prev rest want collect :
  decodes p b -> table_ok -> row_ok row -> is_u64 prev ->
  exists bytes,
    (forall buf, write_merged_row_with_prev_size from_data_type b buf row schema prev now
                 = Ok (buf ++ bytes, zlen (row_cells row cols))) /\
    (zlen bytes <= i64_MAX ->
     exists r, parse_row_data p (Some schema) (build_resolution schema header) want collect None (bytes ++ rest) = Ok r /\
       pr_cells r = clustering_cells row ++ row_cells row cols /\
       pr_cell_meta r = (if want then Some (row_meta row now cols) else None) /\
       pr_rest r = rest /\ pr_is_static r = false /\
       liveness_of row now (pr_row_header r) /\
       rh_marked_for_delete_at (pr_row_header r) = fst <$> rw_row_deletion row /\
       rh_local_deletion_time (pr_row_header r) = snd <$> rw_row_deletion row /\
       pr_complex_out r = (if collect then Some ∅ else None)).
Proof.
  intros Hp Ht Hr Hpv. destruct (row_reads p row prev Hp Ht Hr Hpv) as (bytes & _ & Hw & Hrd).
  exists bytes. split; [exact Hw|]. intros Hlen. exact (Hrd Hlen rest want collect).
Qed.
End Row.
End Rows.

(** ** A concrete row *)

#[local] Open Scope string_scope.
#[local] Open Scope list_scope.

(** No complex columns on either side. *)
Definition no_complex_writer : ComplexWriter :=
  {| write_complex_column _ _ _ _ _ _ _ := Err InvalidInput;
     write_complex_column_deletion _ _ _ _ := Err InvalidInput;
     write_complex_column_per_element _ _ _ _ _ _ := Err InvalidInput;
     canonicalize_value_for_marshal _ _ := Err InvalidInput |}.
Definition no_complex_reader : ComplexColumnReader :=
  {| parse_complex_column_inner _ _ _ _ _ _ _ _ := Err InvalidInput |}.

(** A few comparators by name. *)
Definition sample_comparator (data_type : string) : result Error ComparatorType :=
  if String.eqb data_type "text" then Ok CText
  else if String.eqb data_type "int" then Ok CInt
  else if String.eqb data_type "boolean" then Ok CBoolean
  else if String.eqb data_type "smallint" then Ok CSmallInt
  else Err SchemaError.

Definition rows_schema : TableSchema :=
  mkTableSchema "ks" "t" [mkKeyColumn "k" "int" 0] [mkClusteringColumn "c" "text" 0 Asc]
    [mkColumn "k" "int" false None false; mkColumn "c" "text" false None false;
     mkColumn "v" "int" true None false; mkColumn "a" "text" true None false;
     mkColumn "d" "bigint" true None false] ∅ ∅.

Definition data_column (name data_type : string) : ColumnInfo :=
  mkColumnInfo name data_type false None false false false.

Definition rows_header : list ColumnInfo :=
  [mkColumnInfo "k" "int" true None false false false; data_column "a" "text";
   data_column "d" "bigint"; data_column "v" "int"].

(** A row inserted with a TTL; one of its columns deleted later, another never written. *)
Definition sample_row : RowWrite :=
  mkRowWrite (Some [("c", Text [120])]) (Some 5000001) (Some 60) None
    [mkMergedOp (Write "v" (Integer (-7))) 5000001 (Some 60) 5;
     mkMergedOp (Delete "a" None) 6000000 None 6] [].

Lemma rows_table_ok : table_ok (fun t => t) rows_schema rows_header.
Proof. split; [..|by vm_compute|done|by vm_compute]; apply (bool_decide_unpack _); by vm_compute. Qed.

Lemma row_roundtrip_witness :
  let VS := scalar_serializer in let CD := no_complex in
  let CW := no_complex_writer in let CR := no_complex_reader in
  exists bytes r,
    write_merged_row_with_prev_size sample_comparator sample_baselines [] sample_row rows_schema 9 100
      = Ok (bytes, 2) /\
    parse_row_data sample_parser (Some rows_schema) (build_resolution rows_schema rows_header) true false None
      (bytes ++ [1]) = Ok r /\
    pr_rest r = [1] /\
    pr_cells r = [("c", Text [120]);
                  ("a", Tombstone (mkTombstoneInfo 6000000 CellTombstone 6 None None None));
                  ("v", Integer (-7))] /\
    pr_cell_meta r = Some (row_meta sample_row 100 (regular rows_schema)).
Proof.
  intros VS CD CW CR.
  destruct (row_roundtrip (VS := VS) (CD := CD) (CW := CW) (CR := CR) sample_comparator (fun t => t)
              rows_schema rows_header sample_baselines 100 sample_parser sample_row 9 [1] true false)
    as (bytes & Hw & Hr).
  - split; done.
  - apply rows_table_ok.
  - split; [done|apply (bool_decide_unpack _); by vm_compute| | | | |].
    + apply Forall_cons_2; [exists (mkColumn "v" "int" true None false)|
        apply Forall_cons_2; [exists (mkColumn "a" "text" true None false)|apply Forall_nil_2]].
      * split; [apply (bool_decide_unpack _); by vm_compute|]. split; [done|].
        split; [split; by vm_compute|]. split; [repeat split; by vm_compute|].
        right. split; [by vm_compute|split; by vm_compute].
      * split; [apply (bool_decide_unpack _); by vm_compute|]. split; [done|].
        split; [split; by vm_compute|]. repeat split; by vm_compute.
    + split; by vm_compute.
    + split; [by eexists|repeat split; by vm_compute].
    + done.
    + split; [done|]. split; [by vm_compute|]. apply Forall2_cons_2; [|by apply Forall2_nil_2].
      repeat split; try (by vm_compute). by repeat constructor.
  - split; by vm_compute.
  - pose proof (Hw []) as Hw0. cbn [app] in Hw0.
    assert (Hb : bytes = match write_merged_row_with_prev_size sample_comparator sample_baselines []
                                 sample_row rows_schema 9 100 with Ok (x, _) => x | Err _ => [] end)
      by (by rewrite Hw0).
    destruct Hr as (r & Hp & H1 & H2 & H3 & _).
    { rewrite Hb. by vm_compute. }
    exists bytes, r. split; [rewrite Hw0; by vm_compute|]. split; [exact Hp|]. split; [exact H3|].
    split; [rewrite H1; by vm_compute|exact H2].
Defined.

(** ** Where reader and writer part *)

(** 64 columns named by consecutive characters. *)
Fixpoint names_from (n i : nat) : list string :=
  match n with O => [] | S n => String (Ascii.ascii_of_nat i) EmptyString :: names_from n (S i) end.
Definition wide_names : list string := names_from 64 48.
Definition wide_schema : TableSchema :=
  mkTableSchema "ks" "w" [] [] (map (fun n => mkColumn n "int" true None false) wide_names) ∅ ∅.
Definition wide_header : list ColumnInfo := map (fun n => data_column n "int") wide_names.

(** All columns are written but the sixth. *)
Definition wide_row : RowWrite :=
  mkRowWrite None (Some 5000001) None None
    (map (fun n => mkMergedOp (Write n (Integer 7)) 5000001 None 5) (take 5 wide_names ++ drop 6 wide_names)) [].

(** From 64 columns on the writer emits the number of missing columns and their positions; the
    reader takes the number for a bitmap, drops the first column, and takes the position for
    the flags of the next cell: a column written as 7 reads as deleted, the next ones as
    other numbers, and nothing is reported. *)
Example wide_row_misread :
  let VS := scalar_serializer in let CD := no_complex in
  let CW := no_complex_writer in let CR := no_complex_reader in
  match write_merged_row_with_prev_size sample_comparator sample_baselines [] wide_row wide_schema 9 100 with
  | Ok (bytes, n) =>
      match parse_row_data sample_parser (Some wide_schema) (build_resolution wide_schema wide_header)
              false false None bytes with
      | Ok r => n = 63 /\ pr_rest r = [] /\
          take 3 (pr_cells r) =
            [("1", Tombstone (mkTombstoneInfo 5000008 CellTombstone 6 None None None));
             ("2", Integer 117964800); ("3", Integer 134217728)]
      | Err _ => False
      end
  | Err _ => False
  end.
Proof. vm_compute. done. Qed.

(** A clustering column the reader has no arm for, but whose value is written without a
    length: the value's first byte is taken for one. The byte after the prefix is lost, and
    the sizes that follow are read one byte late. *)
Example boolean_clustering_misread :
  let VS := scalar_serializer in
  let schema := mkTableSchema "ks" "t" [] [mkClusteringColumn "c" "boolean" 0 Asc] [] ∅ ∅ in
  write_clustering_prefix sample_comparator [("c", Boolean true)] schema [] = Ok [0; 1] /\
  parse_clustering_prefix ([0; 1] ++ [7; 9]) schema = Ok ([Blob [7]], [9]).
Proof. vm_compute. done. Qed.

(** A mutation with TTL 0 is accepted, and the pre-pass leaves it out of the minimum; the row
    writer refuses it against that minimum, so the flush that holds it fails, every time. *)
Example ttl_zero_refused :
  let VS := scalar_serializer in let CW := no_complex_writer in
  let m := mutation_new (mkTableId "ks" "t") [] None [Write "v" (Integer 1)] 5000000 (Some 0) in
  let b := encoding_of (flush_baselines [[(clock_at 100, m)]]) in
  enc_min_ttl b = i32_MAX /\
  build_merged_row_body b
    (mkRowWrite None (Some 5000000) (Some 0) None [mkMergedOp (Write "v" (Integer 1)) 5000000 (Some 0) 5] [])
    rows_schema (Z.lor ROW_HAS_TIMESTAMP ROW_HAS_TTL) 100 = Err InvalidInput.
Proof. vm_compute. done. Qed.
