(* ===== verification/Markers.v ===== *)
(** Range tombstone markers of Data.db: [write_range_bound] and [write_range_boundary]
    ([data_writer/cells.rs]), and the reader's [parse_range_tombstone_marker_with_ldt] and
    [skip_range_tombstone_marker] ([row_decoder/row_framing.rs]).

    The reader works at an offset of its data: the end of a marker is computed from a
    length of 64 bits, and the addition wraps as in a release build. *)

From S2P Require Import Prelude Values VInt Keys Stats Cells Columns Rows.

Open Scope Z_scope.

(** ** Kinds of bounds *)

Definition EXCL_END_BOUND : Z := 0.
Definition INCL_START_BOUND : Z := 1.
Definition EXCL_END_INCL_START_BOUNDARY : Z := 2.
Definition CLUSTERING : Z := 4.
Definition INCL_END_EXCL_START_BOUNDARY : Z := 5.
Definition INCL_END_BOUND : Z := 6.
Definition EXCL_START_BOUND : Z := 7.

(** ** The writer *)

Definition u16_MAX : Z := 65535.

Section Writer.
Context {VS : ValueSerializer}.
Context (from_data_type : string -> result Error ComparatorType).

(** The kind and the clustering values of a bound. *)
Definition bound_kind (is_open : bool) (bound : ClusteringBound) : Z * option ClusteringKey :=
  match is_open, bound with
  | true, Inclusive ck => (INCL_START_BOUND, Some ck)
  | true, Exclusive ck => (EXCL_START_BOUND, Some ck)
  | false, Inclusive ck => (INCL_END_BOUND, Some ck)
  | false, Exclusive ck => (EXCL_END_BOUND, Some ck)
  | true, (Bottom | Top) => (INCL_START_BOUND, None)
  | false, (Bottom | Top) => (INCL_END_BOUND, None)
  end.

Definition write_deletion (b : EncodingStatsBaselines) (deletion_time local_deletion_time : Z)
    (buf : list Z) : list Z :=
  encode_unsigned (as_u32 (as_i32 (local_deletion_time - enc_min_local_deletion_time b)))
    (encode_unsigned (timestamp_delta b deletion_time) buf).

(** A deletion time below the baseline, neither of them far in the future. *)
Definition ldt_below (b : EncodingStatsBaselines) (ldt : Z) : bool :=
  (ldt >=? 0) && (enc_min_local_deletion_time b >=? 0) && (ldt <? enc_min_local_deletion_time b).

Definition write_marker_body (deletion : list Z) (prev_size : Z) (buffer : list Z) : list Z :=
  let body_size := unsigned_len prev_size + zlen deletion in
  encode_unsigned prev_size (encode_unsigned body_size buffer) ++ deletion.

Definition write_range_bound (b : EncodingStatsBaselines) (buffer : list Z) (bound : ClusteringBound)
    (is_open : bool) (deletion_time local_deletion_time : Z) (schema : TableSchema) (prev_size : Z) :
    result Error (list Z) :=
  let '(kind, clustering) := bound_kind is_open bound in
  let buffer := buffer ++ [IS_MARKER] ++ [kind] in
  let cluster_count := from_option zlen 0 clustering in
  if cluster_count >? u16_MAX then Err InvalidInput
  else
    let buffer := buffer ++ be_bytes 2 cluster_count in
    buffer ← match clustering with
             | Some ck => write_clustering_prefix from_data_type ck schema buffer
             | None => Ok buffer
             end;
    if ldt_below b local_deletion_time then Err InvalidInput
    else Ok (write_marker_body (write_deletion b deletion_time local_deletion_time []) prev_size buffer).

Definition write_range_boundary (b : EncodingStatsBaselines) (buffer : list Z) (boundary_kind : Z)
    (clustering : ClusteringKey) (end_deletion_time end_local_deletion_time start_deletion_time
    start_local_deletion_time : Z) (schema : TableSchema) (prev_size : Z) : result Error (list Z) :=
  let buffer := buffer ++ [IS_MARKER] ++ [boundary_kind] in
  let cluster_count := zlen clustering in
  if cluster_count >? u16_MAX then Err InvalidInput
  else
    buffer ← write_clustering_prefix from_data_type clustering schema (buffer ++ be_bytes 2 cluster_count);
    if ldt_below b end_local_deletion_time || ldt_below b start_local_deletion_time
    then Err InvalidInput
    else
      let deletion := write_deletion b end_deletion_time end_local_deletion_time [] in
      let deletion := write_deletion b start_deletion_time start_local_deletion_time deletion in
      Ok (write_marker_body deletion prev_size buffer).
End Writer.

(** ** The reader *)

(** [&data[pos..]]; positions are at most the length where the code takes it. *)
Definition from_pos (pos : Z) (data : list Z) : list Z := drop (Z.to_nat pos) data.

(** A schema with the first [n] clustering columns. *)
Definition clustering_prefix_schema (schema : TableSchema) (n : Z) : TableSchema :=
  if n >=? zlen (clustering_keys schema) then schema
  else mkTableSchema (keyspace schema) (table schema) (partition_keys schema)
         (take (Z.to_nat n) (clustering_keys schema)) (columns schema) (comments schema)
         (dropped_columns schema).

Definition read_byte (data : list Z) : result Error (Z * list Z) :=
  match data with x :: data => Ok (x, data) | [] => Err Corruption end.

(** The flags with their extension, the kind and the clustering values. *)
Definition parse_marker_head (schema : TableSchema) (data : list Z) :
    result Error (Z * list Value * list Z) :=
  '(marker_flags, data) ← read_byte data;
  data ← (if has_flag marker_flags ROW_HAS_EXTENDED_FLAGS
          then '(_, data) ← read_byte data; Ok data else Ok data);
  '(kind, data) ← read_byte data;
  '(count, data) ← take_bytes 2 data;
  let cluster_count := from_be count in
  '(values, data) ← (if cluster_count >? 0
                     then parse_clustering_prefix data (clustering_prefix_schema schema cluster_count)
                     else Ok ([], data));
  Ok (kind, values, data).

(** [markedForDeleteAt] and [localDeletionTime]. *)
Definition parse_deletion_time_pair_with_ldt (p : Parser) (data : list Z) :
    result Error (Z * Z * list Z) :=
  '(mfda_delta, data) ← read_vuint data;
  '(ldt_delta, data) ← read_vuint data;
  let raw_ldt := as_i64 (p_min_local_deletion_time p + as_i64 ldt_delta) in
  Ok (as_i64 (p_min_timestamp p + as_i64 mfda_delta),
      if p_has_uint_deletion_time p then as_i32 (as_u32 raw_ldt) else as_i32 raw_ldt, data).

(** The end of the body: the sum wraps. *)
Definition marker_body_end (data rest : list Z) (marker_body_size : Z) : result Error Z :=
  let body_end := as_u64 (zlen data - zlen rest + marker_body_size) in
  if body_end >? zlen data then Err Corruption else Ok body_end.

Record Marker := mkMarker {
  mk_values : list Value;
  mk_kind : Z;
  mk_primary : Z * Z;
  mk_secondary : option (Z * Z);
}.

(** The marker at an offset, and the offset behind it. *)
Definition parse_range_tombstone_marker_with_ldt (p : Parser) (schema : TableSchema) (data : list Z)
    (offset : Z) : result Error (Marker * Z) :=
  '(kind, values, rest) ← parse_marker_head schema (from_pos offset data);
  '(marker_body_size, rest) ← read_vuint rest;
  body_end ← marker_body_end data rest marker_body_size;
  '(_, rest) ← read_vuint rest;
  '(mfda, ldt, rest) ← parse_deletion_time_pair_with_ldt p rest;
  secondary ← (if (kind =? 2) || (kind =? 5)
               then '(mfda, ldt, _) ← parse_deletion_time_pair_with_ldt p rest; Ok (Some (mfda, ldt))
               else Ok None);
  Ok (mkMarker values kind (mfda, ldt) secondary, body_end).

Definition skip_range_tombstone_marker (schema : TableSchema) (data : list Z) (offset : Z) :
    result Error Z :=
  '(_, _, rest) ← parse_marker_head schema (from_pos offset data);
  '(marker_body_size, rest) ← read_vuint rest;
  marker_body_end data rest marker_body_size.
