(* ===== verification/MarkerProps.v ===== *)
(** Markers of Data.db read back as they were written, bounds and boundaries alike, with
    all or a prefix of the clustering columns; skipping a marker lands where parsing it
    does. *)

From S2P Require Import Prelude Values VInt Keys Stats StatsProps Baselines Cells CellProps Columns Rows RowProps Markers.

Open Scope Z_scope.

(** ** Positions *)

Lemma from_pos_app pre data : from_pos (zlen pre) (pre ++ data) = data.
Proof. unfold from_pos, zlen. by rewrite Nat2Z.id, drop_app_length. Qed.

Lemma marker_body_end_app pre head body rest :
  zlen (pre ++ head ++ body ++ rest) <= i64_MAX ->
  marker_body_end (pre ++ head ++ body ++ rest) (body ++ rest) (zlen body)
  = Ok (zlen pre + zlen head + zlen body).
Proof.
  intros H. unfold marker_body_end. rewrite !zlen_app in *.
  pose proof (zlen_nonneg pre). pose proof (zlen_nonneg head). pose proof (zlen_nonneg body).
  pose proof (zlen_nonneg rest).
  replace (zlen pre + (zlen head + (zlen body + zlen rest)) - (zlen body + zlen rest) + zlen body)
    with (zlen pre + zlen head + zlen body) by lia.
  unfold as_u64. rewrite wrap_id by (unfold u_range; limits; lia).
  rewrite Z.gtb_ltb. by rewrite (proj2 (Z.ltb_ge _ _)) by lia.
Qed.

Section Markers.
Context {VS : ValueSerializer}.
Context (from_data_type : string -> result Error ComparatorType).

(** ** The clustering values of a bound *)

Lemma write_clustering_values_take values : forall keys buf,
  write_clustering_values from_data_type (take (length values) keys) values buf
  = write_clustering_values from_data_type keys values buf.
Proof.
  induction values as [|v values IH]; intros keys buf; cbn [write_clustering_values length]; [done|].
  destruct (is_null v).
  - rewrite <- (IH (tail keys)). by destruct keys; cbn [tail take]; rewrite ?take_nil.
  - destruct keys as [|col keys]; cbn [take]; [done|].
    destruct (from_data_type (cc_data_type col)); cbn [mbind result_bind]; [|done].
    by destruct (serialize_value_for_clustering v a); cbn [mbind result_bind].
Qed.

(** A bound over a prefix of the clustering columns. *)
Definition bound_key_ok (schema : TableSchema) (ck : ClusteringKey) : Prop :=
  ck <> [] /\ (length ck <= length (clustering_keys schema))%nat /\ zlen (clustering_keys schema) <= 32 /\
  Forall2 (clustering_ok from_data_type) (take (length ck) (clustering_keys schema)) (map snd ck).

Definition bound_ok (schema : TableSchema) (bound : ClusteringBound) : Prop :=
  match bound with Inclusive ck | Exclusive ck => bound_key_ok schema ck | _ => True end.

Definition bound_values (bound : ClusteringBound) : list Value :=
  match bound with Inclusive ck | Exclusive ck => map snd ck | _ => [] end.

Lemma prefix_schema_keys schema n :
  clustering_keys (clustering_prefix_schema schema (Z.of_nat n)) = take n (clustering_keys schema).
Proof.
  unfold clustering_prefix_schema, zlen.
  destruct (Z.of_nat n >=? Z.of_nat (length (clustering_keys schema))) eqn:E; cbn [clustering_keys].
  - rewrite Z.geb_le in E. by rewrite firstn_all2 by lia.
  - by rewrite Nat2Z.id.
Qed.

Lemma bound_prefix_reads schema ck :
  bound_key_ok schema ck ->
  exists bytes,
    (forall buf, write_clustering_prefix from_data_type ck schema buf = Ok (buf ++ bytes)) /\
    forall rest, parse_clustering_prefix (bytes ++ rest) (clustering_prefix_schema schema (zlen ck))
                 = Ok (map snd ck, rest).
Proof.
  intros (Hne & Hl & H32 & Hok). set (prefix := clustering_prefix_schema schema (zlen ck)).
  assert (Hk : clustering_keys prefix = take (length ck) (clustering_keys schema)) by apply prefix_schema_keys.
  destruct (clustering_prefix_reads from_data_type prefix (Some ck)) as (bytes & Hw & Hr & _).
  { unfold clustering_key_ok. rewrite Hk. split; [|split; [|done]].
    - destruct ck, (clustering_keys schema); cbn in *; [done|done|lia|done].
    - unfold zlen in *. rewrite length_take. lia. }
  exists bytes. split; [|exact Hr]. intros buf. rewrite <- Hw. cbn [write_prefix].
  unfold write_clustering_prefix. rewrite Hk. replace (length ck) with (length (map snd ck)) by apply length_map.
  by rewrite write_clustering_values_take.
Qed.

(** ** Deletion times *)

Definition deletion_ok (b : EncodingStatsBaselines) (deletion_time local_deletion_time : Z) : Prop :=
  is_i64 deletion_time /\ is_i32 local_deletion_time /\ ldt_below b local_deletion_time = false.

Definition deletion_bytes (b : EncodingStatsBaselines) (dt ldt : Z) : list Z :=
  encode_vuint (timestamp_delta b dt) ++ encode_vuint (deletion_delta b (dt, ldt)).

Lemma write_deletion_app b dt ldt buf : write_deletion b dt ldt buf = buf ++ deletion_bytes b dt ldt.
Proof.
  unfold write_deletion, deletion_bytes.
  change (as_u32 (as_i32 (ldt - enc_min_local_deletion_time b))) with (deletion_delta b (dt, ldt)).
  rewrite !encode_unsigned_app by (apply is_u64_timestamp_delta || apply is_u64_deletion_delta).
  by rewrite <- app_assoc.
Qed.

Lemma deletion_reads p b dt ldt rest :
  decodes p b -> deletion_ok b dt ldt ->
  parse_deletion_time_pair_with_ldt p (deletion_bytes b dt ldt ++ rest) = Ok (dt, ldt, rest).
Proof.
  intros Hp (Hdt & Hldt & _). unfold parse_deletion_time_pair_with_ldt, deletion_bytes.
  rewrite <- app_assoc, read_vuint_encode by apply is_u64_timestamp_delta. cbn [mbind result_bind].
  rewrite read_vuint_encode by apply is_u64_deletion_delta. cbn [mbind result_bind].
  rewrite (timestamp_back p b) by done. pose proof Hp as [_ El _ Hm _]. rewrite El.
  destruct (row_ldt_back _ _ Hm Hldt) as [H1 H2]. unfold deletion_delta. cbn [snd].
  by destruct (p_has_uint_deletion_time p); rewrite ?H1, ?H2.
Qed.

(** ** A marker *)

Definition marker_bytes (kind : Z) (values : list Value) (clustering deletion : list Z) (prev : Z) : list Z :=
  (IS_MARKER :: kind :: be_bytes 2 (zlen values) ++ clustering ++
   encode_vuint (unsigned_len prev + zlen deletion)) ++ (encode_vuint prev ++ deletion).

(** Clustering bytes that read back as the values. *)
Definition clustering_read (schema : TableSchema) (values : list Value) (clustering : list Z) : Prop :=
  zlen values <= u16_MAX /\
  match values with
  | [] => clustering = []
  | _ => forall rest, parse_clustering_prefix (clustering ++ rest)
                        (clustering_prefix_schema schema (zlen values)) = Ok (values, rest)
  end.

Lemma head_reads schema kind values clustering rest :
  clustering_read schema values clustering ->
  parse_marker_head schema (IS_MARKER :: kind :: be_bytes 2 (zlen values) ++ clustering ++ rest)
  = Ok (kind, values, rest).
Proof.
  intros [Hl Hr]. unfold parse_marker_head. cbn [read_byte mbind result_bind].
  change (has_flag IS_MARKER ROW_HAS_EXTENDED_FLAGS) with false. cbv iota. cbn [read_byte mbind result_bind].
  rewrite take_bytes_app by apply zlen_be_bytes. cbn [mbind result_bind].
  rewrite from_be_bytes_id by (pose proof (zlen_nonneg values); unfold u16_MAX, u_range in *; cbn; lia).
  destruct values as [|v values]; [by subst|]. rewrite Z.gtb_ltb, (proj2 (Z.ltb_lt _ _)).
  - rewrite Hr. by cbn [mbind result_bind].
  - rewrite zlen_cons. pose proof (zlen_nonneg values). lia.
Qed.

(** An unsigned vint takes one to nine bytes. *)
Lemma encode_vuint_short v : is_u64 v -> 1 <= zlen (encode_vuint v) <= 9.
Proof.
  intros H. rewrite encode_vuint_canonical by done. unfold zlen. rewrite canonical_length.
  pose proof (extra_of_le v). lia.
Qed.

(** One or two deletion times, according to the kind. *)
Definition marker_deletion (b : EncodingStatsBaselines) (d : Z * Z) (second : option (Z * Z)) : list Z :=
  deletion_bytes b d.1 d.2 ++ from_option (fun s => deletion_bytes b s.1 s.2) [] second.

(** The deletion of a marker takes at most four integers. *)
Lemma marker_deletion_short b d second : zlen (marker_deletion b d second) <= 36.
Proof.
  assert (H : forall v, zlen (encode_vuint (as_u64 v)) <= 9).
  { intros v. apply encode_vuint_short, as_u64_range. }
  assert (H4 : forall dt ldt, zlen (deletion_bytes b dt ldt) <= 18).
  { intros dt ldt. unfold deletion_bytes. rewrite zlen_app.
    pose proof (H (dt - enc_min_timestamp b)). unfold timestamp_delta.
    pose proof (encode_vuint_short (deletion_delta b (dt, ldt)) (is_u64_deletion_delta b _)). lia. }
  unfold marker_deletion. rewrite zlen_app. pose proof (H4 d.1 d.2).
  destruct second as [[dt ldt]|]; cbn [from_option fst snd]; [pose proof (H4 dt ldt); lia|].
  change (zlen (@nil Z)) with 0. lia.
Qed.

Lemma body_size_u64 b d second prev :
  is_u64 prev -> is_u64 (unsigned_len prev + zlen (marker_deletion b d second)).
Proof.
  intros Hp. rewrite unsigned_len_vuint by done. pose proof (encode_vuint_short prev Hp).
  pose proof (marker_deletion_short b d second).
  pose proof (zlen_nonneg (encode_vuint prev)). pose proof (zlen_nonneg (marker_deletion b d second)).
  unfold is_u64, u_range. lia.
Qed.

Lemma marker_reads p b schema kind values clustering d second prev pre rest :
  decodes p b -> clustering_read schema values clustering ->
  deletion_ok b d.1 d.2 -> from_option (fun s => deletion_ok b s.1 s.2) True second ->
  is_some second = (kind =? 2) || (kind =? 5) -> is_u64 prev ->
  let bytes := marker_bytes kind values clustering (marker_deletion b d second) prev in
  zlen (pre ++ bytes ++ rest) <= i64_MAX ->
  let data := pre ++ bytes ++ rest in
  parse_range_tombstone_marker_with_ldt p schema data (zlen pre)
    = Ok (mkMarker values kind d second, zlen pre + zlen bytes) /\
  skip_range_tombstone_marker schema data (zlen pre) = Ok (zlen pre + zlen bytes).
Proof.
  intros Hp Hc Hd Hs Hk Hpv bytes Hlen data.
  unfold parse_range_tombstone_marker_with_ldt, skip_range_tombstone_marker, data.
  set (deletion := marker_deletion b d second) in *.
  assert (Hu : is_u64 (unsigned_len prev + zlen deletion)) by (by apply body_size_u64).
  assert (Hb : unsigned_len prev + zlen deletion = zlen (encode_vuint prev ++ deletion))
    by (by rewrite unsigned_len_vuint, zlen_app).
  rewrite from_pos_app.
  set (head := IS_MARKER :: kind :: be_bytes 2 (zlen values) ++ clustering ++ encode_vuint (unsigned_len prev + zlen deletion)).
  assert (Hhead : parse_marker_head schema (bytes ++ rest)
            = Ok (kind, values, encode_vuint (unsigned_len prev + zlen deletion) ++ (encode_vuint prev ++ deletion) ++ rest)).
  { rewrite <- (head_reads schema kind values clustering) by done. f_equal.
    unfold bytes, marker_bytes. cbn [app]. by rewrite <- !app_assoc. }
  assert (Hend : marker_body_end (pre ++ bytes ++ rest) ((encode_vuint prev ++ deletion) ++ rest)
                   (unsigned_len prev + zlen deletion) = Ok (zlen pre + zlen bytes)).
  { assert (E : bytes = head ++ encode_vuint prev ++ deletion) by done.
    rewrite Hb, E, <- app_assoc, marker_body_end_app.
    - by rewrite (zlen_app head), Z.add_assoc.
    - by rewrite E, <- app_assoc in Hlen. }
  rewrite Hhead. cbn [mbind result_bind].
  rewrite read_vuint_encode by done. cbn [mbind result_bind]. rewrite Hend. cbn [mbind result_bind].
  split; [|done]. rewrite <- app_assoc, read_vuint_encode by done. cbn [mbind result_bind].
  unfold deletion, marker_deletion. rewrite <- app_assoc, (deletion_reads p b) by done. cbn [mbind result_bind].
  rewrite <- Hk. destruct second as [[dt ldt]|]; cbn [is_some from_option fst snd mbind result_bind] in *.
  - rewrite (deletion_reads p b) by done. cbn [mbind result_bind]. by destruct d.
  - by destruct d.
Qed.

(** ** What the writers emit *)

Lemma write_marker_body_app deletion prev buf :
  is_u64 prev -> is_u64 (unsigned_len prev + zlen deletion) ->
  write_marker_body deletion prev buf
  = buf ++ encode_vuint (unsigned_len prev + zlen deletion) ++ encode_vuint prev ++ deletion.
Proof. intros H1 H2. unfold write_marker_body. rewrite !encode_unsigned_app by done. by rewrite <- !app_assoc. Qed.

Lemma bound_count schema ck : bound_key_ok schema ck -> zlen ck <= u16_MAX.
Proof. intros (_ & H & H32 & _). unfold u16_MAX, zlen in *. lia. Qed.

Lemma bound_clustering schema ck :
  bound_key_ok schema ck ->
  exists cb, clustering_read schema (map snd ck) cb /\
    forall buf, write_clustering_prefix from_data_type ck schema buf = Ok (buf ++ cb).
Proof.
  intros H. destruct (bound_prefix_reads schema ck H) as (cb & Hw & Hr). exists cb. split; [|done].
  assert (E : zlen (map snd ck) = zlen ck) by (unfold zlen; by rewrite length_map).
  split; rewrite E; [by eapply bound_count|]. destruct ck; [by destruct H|exact Hr].
Qed.

Lemma bound_written b schema bound is_open dt ldt prev :
  bound_ok schema bound -> deletion_ok b dt ldt -> is_u64 prev ->
  exists cb, clustering_read schema (bound_values bound) cb /\
    forall buf, write_range_bound from_data_type b buf bound is_open dt ldt schema prev
      = Ok (buf ++ marker_bytes (bound_kind is_open bound).1 (bound_values bound) cb
                     (marker_deletion b (dt, ldt) None) prev).
Proof.
  intros Hb (_ & _ & Hl) Hp. pose proof (body_size_u64 b (dt, ldt) None prev Hp) as Hu.
  assert (Hw : write_deletion b dt ldt [] = marker_deletion b (dt, ldt) None).
  { rewrite write_deletion_app. unfold marker_deletion. cbn [from_option fst snd]. by rewrite app_nil_r. }
  assert (Hck : forall ck, bound_key_ok schema ck -> exists cb, clustering_read schema (map snd ck) cb /\
            forall kind buf, (if from_option zlen 0 (Some ck) >? u16_MAX then Err InvalidInput
              else buffer ← write_clustering_prefix from_data_type ck schema
                              ((buf ++ [IS_MARKER] ++ [kind]) ++ be_bytes 2 (from_option zlen 0 (Some ck)));
                   if ldt_below b ldt then Err InvalidInput
                   else Ok (write_marker_body (write_deletion b dt ldt []) prev buffer))
            = Ok (buf ++ marker_bytes kind (map snd ck) cb (marker_deletion b (dt, ldt) None) prev)).
  { intros ck H. destruct (bound_clustering schema ck H) as (cb & Hr & Hc). exists cb. split; [done|].
    intros kind buf. cbn [from_option]. rewrite Z.gtb_ltb, (proj2 (Z.ltb_ge _ _)) by by eapply bound_count.
    rewrite Hc. cbn [mbind result_bind]. rewrite Hl, Hw, write_marker_body_app by done. unfold marker_bytes.
    assert (E : zlen (map snd ck) = zlen ck) by (unfold zlen; by rewrite length_map). rewrite E.
    f_equal. rewrite <- !app_assoc. cbn [app]. by rewrite <- !app_assoc. }
  assert (Hnil : clustering_read schema [] [] /\ forall kind buf,
            (if from_option zlen 0 (@None ClusteringKey) >? u16_MAX then Err InvalidInput
             else buffer ← Ok ((buf ++ [IS_MARKER] ++ [kind]) ++ be_bytes 2 (from_option zlen 0 (@None ClusteringKey)));
                  if ldt_below b ldt then Err InvalidInput
                  else Ok (write_marker_body (write_deletion b dt ldt []) prev buffer))
            = Ok (E := Error) (buf ++ marker_bytes kind [] [] (marker_deletion b (dt, ldt) None) prev)).
  { split; [by split|]. intros kind buf. cbn [from_option mbind result_bind]. change (0 >? u16_MAX) with false. cbv iota.
    rewrite Hl, Hw, write_marker_body_app by done. unfold marker_bytes.
    f_equal. rewrite <- !app_assoc. cbn [app]. by rewrite <- !app_assoc. }
  unfold write_range_bound. destruct bound as [ck|ck| |]; cbn [bound_ok bound_values] in *.
  1,2: destruct (Hck ck Hb) as (cb & Hr & He); exists cb; (split; [done|]);
       intros buf; destruct is_open; cbn [bound_kind fst]; apply He.
  all: exists []; (split; [apply Hnil|]); intros buf; destruct is_open; cbn [bound_kind fst]; apply Hnil.
Qed.

Lemma boundary_written b schema kind ck e s prev :
  bound_key_ok schema ck -> deletion_ok b e.1 e.2 -> deletion_ok b s.1 s.2 -> is_u64 prev ->
  exists cb, clustering_read schema (map snd ck) cb /\
    forall buf, write_range_boundary from_data_type b buf kind ck e.1 e.2 s.1 s.2 schema prev
      = Ok (buf ++ marker_bytes kind (map snd ck) cb (marker_deletion b e (Some s)) prev).
Proof.
  intros Hb (_ & _ & He) (_ & _ & Hs) Hp. pose proof (body_size_u64 b e (Some s) prev Hp) as Hu.
  destruct (bound_clustering schema ck Hb) as (cb & Hr & Hc). exists cb. split; [done|].
  intros buf. unfold write_range_boundary. rewrite Z.gtb_ltb, (proj2 (Z.ltb_ge _ _)) by by eapply bound_count.
  rewrite Hc. cbn [mbind result_bind]. rewrite He, Hs. cbn [orb]. rewrite !write_deletion_app.
  unfold marker_bytes, marker_deletion in *. cbn [from_option app] in *.
  rewrite write_marker_body_app by done.
  assert (E : zlen (map snd ck) = zlen ck) by (unfold zlen; by rewrite length_map). rewrite E.
  f_equal. by rewrite <- !app_assoc.
Qed.

(** A bound, written and read back. *)
Lemma bound_kind_simple is_open bound :
  ((bound_kind is_open bound).1 =? 2) || ((bound_kind is_open bound).1 =? 5) = false.
Proof. by destruct is_open, bound. Qed.

(** C28: Reading a range tombstone marker undoes writing it. The parser works with the baselines
    the header gave back. A bound is an end of the partition, or holds values (or nulls) for
    the first clustering columns, one or more, possibly all, of a table with at most 32 of
    them; the columns are of type int, bigint, timestamp, text, varchar, uuid, timeuuid or
    blob, since the values of other types are not read back
    ([RowProps.boolean_clustering_misread]). For every such bound, and every boundary
    between two ranges at one, [write_range_bound] and [write_range_boundary] accept 64-bit
    deletion times and 32-bit local deletion times that are not below the baseline (the code lets
    negative ones through), and
    [parse_range_tombstone_marker_with_ldt] at the marker's offset, whatever precedes and
    follows it in a buffer of at most [i64::MAX] bytes, gives back the kind, the values, the
    deletion time and local deletion time of the range that ends or starts, of both for a
    boundary, and the offset of the next unfiltered; [skip_range_tombstone_marker] ends at
    the same offset. *)
Theorem marker_roundtrip p b schema prev :
  decodes p b -> is_u64 prev ->
  let reads bytes m := forall pre rest, zlen (pre ++ bytes ++ rest) <= i64_MAX ->
        parse_range_tombstone_marker_with_ldt p schema (pre ++ bytes ++ rest) (zlen pre)
          = Ok (m, zlen pre + zlen bytes) /\
        skip_range_tombstone_marker schema (pre ++ bytes ++ rest) (zlen pre) = Ok (zlen pre + zlen bytes) in
  (forall bound is_open dt ldt, bound_ok schema bound -> deletion_ok b dt ldt ->
     exists bytes, (forall buf, write_range_bound from_data_type b buf bound is_open dt ldt schema prev
                                = Ok (buf ++ bytes)) /\
       reads bytes (mkMarker (bound_values bound) (bound_kind is_open bound).1 (dt, ldt) None)) /\
  (forall kind ck e s, kind = EXCL_END_INCL_START_BOUNDARY \/ kind = INCL_END_EXCL_START_BOUNDARY ->
     bound_key_ok schema ck -> deletion_ok b e.1 e.2 -> deletion_ok b s.1 s.2 ->
     exists bytes, (forall buf, write_range_boundary from_data_type b buf kind ck e.1 e.2 s.1 s.2 schema prev
                                = Ok (buf ++ bytes)) /\
       reads bytes (mkMarker (map snd ck) kind e (Some s))).
Proof.
  intros Hp Hpv reads. split.
  - intros bound is_open dt ldt Hb Hd.
    destruct (bound_written b schema bound is_open dt ldt prev Hb Hd Hpv) as (cb & Hr & Hw).
    eexists. split; [exact Hw|]. intros pre rest Hl.
    apply (marker_reads p b schema _ _ cb (dt, ldt) None); [done|done|exact Hd|done| |done|done].
    by rewrite bound_kind_simple.
  - intros kind ck e s Hk Hb He Hs.
    destruct (boundary_written b schema kind ck e s prev Hb He Hs Hpv) as (cb & Hr & Hw).
    eexists. split; [exact Hw|]. intros pre rest Hl.
    apply (marker_reads p b schema _ _ cb e (Some s)); try done. by destruct Hk as [-> | ->].
Qed.

(** Skipping any marker that parses lands behind it. *)
Lemma skip_agrees p schema data offset m next :
  parse_range_tombstone_marker_with_ldt p schema data offset = Ok (m, next) ->
  skip_range_tombstone_marker schema data offset = Ok next.
Proof.
  unfold parse_range_tombstone_marker_with_ldt, skip_range_tombstone_marker.
  destruct (parse_marker_head schema (from_pos offset data)) as [[[kind values] rest]|]; cbn [mbind result_bind]; [|done].
  destruct (read_vuint rest) as [[size rest']|]; cbn [mbind result_bind]; [|done].
  destruct (marker_body_end data rest' size) as [body_end|]; cbn [mbind result_bind]; [|done].
  destruct (read_vuint rest') as [[? r1]|]; cbn [mbind result_bind]; [|done].
  destruct (parse_deletion_time_pair_with_ldt p r1) as [[[??] r2]|]; cbn [mbind result_bind]; [|done].
  destruct ((kind =? 2) || (kind =? 5)); [|cbn [mbind result_bind]; congruence].
  destruct (parse_deletion_time_pair_with_ldt p r2) as [[[??]?]|]; cbn [mbind result_bind]; congruence.
Qed.
End Markers.

(** ** A concrete marker *)

Definition marker_schema : TableSchema :=
  mkTableSchema "ks" "t" [mkKeyColumn "k" "int" 0]
    [mkClusteringColumn "c" "text" 0 Asc; mkClusteringColumn "d" "int" 1 Desc] [] ∅ ∅.

Lemma marker_roundtrip_witness :
  let VS := scalar_serializer in
  exists bytes,
    (forall buf, write_range_bound sample_comparator sample_baselines buf (Exclusive [("c", Text [120])])
                   true 5000009 6 marker_schema 40 = Ok (buf ++ bytes)) /\
    parse_range_tombstone_marker_with_ldt sample_parser marker_schema ([9; 9] ++ bytes ++ [1]) 2
      = Ok (mkMarker [Text [120]] EXCL_START_BOUND (5000009, 6) None, 2 + zlen bytes).
Proof.
  intros VS.
  destruct (marker_roundtrip (VS := VS) sample_comparator sample_parser sample_baselines marker_schema 40)
    as [H _].
  - split; done.
  - split; by vm_compute.
  - destruct (H (Exclusive [("c"%string, Text [120])]) true 5000009 6) as (bytes & Hw & Hr).
    + split; [done|]. split; [cbn; lia|]. split; [by vm_compute|].
      apply Forall2_cons_2; [|by apply Forall2_nil_2]. split; [|by vm_compute].
      split; [by vm_compute|]. by repeat constructor.
    + split; [split; by vm_compute|]. split; [split; by vm_compute|by vm_compute].
    + exists bytes. split; [exact Hw|].
      assert (E : bytes = match write_range_bound (VS := VS) sample_comparator sample_baselines []
                     (Exclusive [("c"%string, Text [120])]) true 5000009 6 marker_schema 40
                   with Ok x => x | Err _ => [] end) by (by rewrite Hw).
      destruct (Hr [9; 9] [1]) as [Hp _]; [rewrite E; by vm_compute|exact Hp].
Defined.

(** ** Corrupt lengths

    A marker whose announced size is close to 2^64 ends before it starts: the sum wraps and
    passes the bounds check. Here the size is 2^64 - 13 and the next offset is the marker's
    own, so a driver that continues there parses the same marker for ever. *)
Definition endless_marker : list Z :=
  [IS_MARKER; INCL_START_BOUND; 0; 0] ++ encode_vuint (2 ^ 64 - 13) ++ [0; 0; 0].

Example marker_size_wraps :
  exists m, parse_range_tombstone_marker_with_ldt sample_parser marker_schema endless_marker 0 = Ok (m, 0).
Proof. eexists. vm_compute. reflexivity. Qed.

(** A bound with a key of no columns is written with the header of its values, which the
    reader does not expect behind a count of 0: the sizes are read one byte early. *)
Example empty_bound_misread :
  let VS := scalar_serializer in
  match write_range_bound sample_comparator sample_baselines [] (Inclusive []) true 5000009 6 marker_schema 40 with
  | Ok bytes =>
      match parse_range_tombstone_marker_with_ldt sample_parser marker_schema (bytes ++ [1]) 0 with
      | Ok (m, next) => next = 5 /\ zlen bytes = 9 /\ mk_primary m <> (5000009, 6)
      | Err _ => False
      end
  | Err _ => False
  end.
Proof. vm_compute. repeat split. discriminate. Qed.
