(* ===== verification/Items.v ===== *)
(** The unfiltereds of a partition in the order the writer emits them: rows, range
    tombstone bounds and boundaries ([data_writer/partition.rs], [marker_merge.rs]), and
    the writer's test of what a range tombstone covers ([data_writer/encoding.rs]). *)

From S2P Require Import Prelude Values Keys Mutation Columns Rows Markers.

Open Scope Z_scope.

Inductive PartitionItem :=
| IRow (row : RowWrite)
| IMarker (bound : ClusteringBound) (is_open : bool) (deletion_time local_deletion_time : Z)
| IBoundary (kind : Z) (clustering : ClusteringKey) (end_deletion_time end_local_deletion_time
    start_deletion_time start_local_deletion_time : Z).

(** The kind used to break ties: the one that is written. *)
Definition bound_kind_ordinal (bound : ClusteringBound) (is_open : bool) : Z :=
  match is_open, bound with
  | true, Inclusive _ => INCL_START_BOUND
  | false, Exclusive _ => EXCL_END_BOUND
  | false, Inclusive _ => INCL_END_BOUND
  | true, Exclusive _ => EXCL_START_BOUND
  | true, (Bottom | Top) => INCL_START_BOUND
  | false, (Bottom | Top) => INCL_END_BOUND
  end.

Record SortClass := mkSortClass {
  sc_class : Z;
  sc_key : option ClusteringKey;
  sc_weight : Z;
  sc_kind : Z;
}.

(** Position class, clustering values, weight at the same values, kind. *)
Definition sort_class (item : PartitionItem) : SortClass :=
  match item with
  | IRow row => mkSortClass 0 (rw_clustering_key row) 0 CLUSTERING
  | IMarker bound is_open _ _ =>
      let kind := bound_kind_ordinal bound is_open in
      match bound with
      | Inclusive ck => mkSortClass 0 (Some ck) (if is_open then -1 else 1) kind
      | Exclusive ck => mkSortClass 0 (Some ck) (if is_open then 1 else -1) kind
      | Bottom => mkSortClass (-1) None 0 kind
      | Top => mkSortClass 1 None 0 kind
      end
  | IBoundary kind clustering _ _ _ _ => mkSortClass 0 (Some clustering) 0 kind
  end.

(** The bounds of the range tombstones, in their order. *)
Definition markers_of (range_tombstones : list RangeTombstone) : list PartitionItem :=
  flat_map (fun rt => [IMarker (rt_start rt) true (rt_deletion_time rt) (rt_local_deletion_time rt);
                       IMarker (rt_end rt) false (rt_deletion_time rt) (rt_local_deletion_time rt)])
    range_tombstones.

(** One pass over two sorted sequences; the first wins a tie. *)
Section Merge.
Context {A : Type} (cmp : A -> A -> comparison).

Fixpoint merge_by (rows : list A) : list A -> list A :=
  match rows with
  | [] => fun markers => markers
  | r :: rows' =>
      fix go (markers : list A) : list A :=
        match markers with
        | [] => rows
        | m :: markers' =>
            match cmp r m with
            | Gt => m :: go markers'
            | _ => r :: merge_by rows' markers
            end
        end
  end.
End Merge.

Section Items.
Context `{DebugFmt} (schema : TableSchema).

Definition sort_class_cmp (a b : SortClass) : comparison :=
  then_with (sc_class a ?= sc_class b)
    (then_with (match sc_key a, sc_key b with
                | Some x, Some y => ck_schema_cmp schema x y
                | _, _ => Eq
                end)
       (then_with (sc_weight a ?= sc_weight b) (sc_kind a ?= sc_kind b))).

Definition partition_item_cmp (a b : PartitionItem) : comparison :=
  sort_class_cmp (sort_class a) (sort_class b).

Definition sort_partition_items (items : list PartitionItem) : list PartitionItem :=
  sort_by partition_item_cmp items.

(** An end and a start that meet at one point, exactly one of them inclusive. *)
Definition boundary_kind_for (close open : ClusteringBound) : option (Z * ClusteringKey) :=
  let same a b := match ck_compare a b schema with Ok o => bool_decide (o = Eq) | Err _ => false end in
  match close, open with
  | Exclusive c1, Inclusive c2 => if same c1 c2 then Some (EXCL_END_INCL_START_BOUNDARY, c2) else None
  | Inclusive c1, Exclusive c2 => if same c1 c2 then Some (INCL_END_EXCL_START_BOUNDARY, c1) else None
  | _, _ => None
  end.

(** What an item and its successor coalesce into. *)
Definition boundary_of (item next : PartitionItem) : option PartitionItem :=
  match item, next with
  | IMarker close false end_dt end_ldt, IMarker open true start_dt start_ldt =>
      (fun '(kind, clustering) => IBoundary kind clustering end_dt end_ldt start_dt start_ldt)
        <$> boundary_kind_for close open
  | _, _ => None
  end.

(** Adjacent pairs become boundaries, from the front. *)
Fixpoint coalesce_boundaries (items : list PartitionItem) : list PartitionItem :=
  match items with
  | [] => []
  | item :: items' =>
      match items' with
      | next :: rest =>
          match boundary_of item next with
          | Some boundary => boundary :: coalesce_boundaries rest
          | None => item :: coalesce_boundaries items'
          end
      | [] => [item]
      end
  end.

Definition merge_rows_and_markers (rows : list PartitionItem) (range_tombstones : list RangeTombstone) :
    list PartitionItem :=
  merge_by partition_item_cmp rows (sort_partition_items (markers_of range_tombstones)).

(** ** Coverage *)

Definition range_tombstone_covers (rt : RangeTombstone) (clustering_key : option ClusteringKey) : bool :=
  match clustering_key with
  | None => false
  | Some ck =>
      let cmp bound := ck_schema_cmp schema ck bound in
      let after_start := match rt_start rt with
                         | Inclusive b => negb (bool_decide (cmp b = Lt))
                         | Exclusive b => bool_decide (cmp b = Gt)
                         | Bottom => true
                         | Top => false
                         end in
      let before_end := match rt_end rt with
                        | Inclusive b => negb (bool_decide (cmp b = Gt))
                        | Exclusive b => bool_decide (cmp b = Lt)
                        | Top => true
                        | Bottom => false
                        end in
      after_start && before_end
  end.
End Items.
