(* ===== verification/RowGroup.v ===== *)
(** The reconciliation inside one flush: the mutations of a partition that share a
    clustering key become one row ([merge_clustering_rows] and [merge_row_group] of
    [data_writer/rows.rs], the classifiers of [encoding.rs]).

    The maps of the code are hash maps: the order in which they are drained is the
    argument [hash_values], of which only the content is known. *)

From S2P Require Import Prelude Values Keys MergeModel Mutation Stats Columns Rows Items.

Open Scope Z_scope.

(** [HashMap::into_values] and [HashMap::values] *)
Class HashOrder := {
  hash_values : forall {A}, gmap string A -> list A;
  hash_values_perm : forall {A} (m : gmap string A), hash_values m ≡ₚ (map_to_list m).*2;
}.

(** ** Classifiers *)

Definition merged_op_column (op : CellOperation) : option string :=
  match op with
  | Write column _ | WriteWithTtl column _ _ _ | Delete column _
  | WriteComplexElement column _ _ _ _ _ _ | OpComplexDeletion column _ _ => Some column
  | DeleteRow => None
  end.

Definition schema_static (schema : TableSchema) (column : string) : bool :=
  from_option col_is_static false
    (List.find (fun c => bool_decide (col_name c = column)) (columns schema)).

Definition is_static_operation (op : CellOperation) (schema : TableSchema) : bool :=
  from_option (schema_static schema) false (merged_op_column op).

Definition has_static (schema : TableSchema) : bool := existsb col_is_static (columns schema).

(** Without a clustering key, and all its operations on static columns. *)
Definition is_static_row_mutation (m : Mutation) (schema : TableSchema) : bool :=
  if is_some (m_clustering_key m) || negb (has_static schema) then false
  else forallb (fun op => from_option (schema_static schema) true (merged_op_column op)) (m_operations m).

Definition is_primary_key_column (column : string) (schema : TableSchema) : bool :=
  is_partition_key schema column || is_clustering_key schema column.

Definition op_cell_write_timestamp (op : CellOperation) (m : Mutation) : Z :=
  match whole_column op with
  | Some column => cell_write_timestamp m column
  | None => m_timestamp_micros m
  end.

#[export] Instance merged_op_reconcile : ReconcileCell MergedOp := {
  rc_timestamp := mop_timestamp_micros;
  rc_is_tombstone mop := match mop_op mop with Delete _ _ => true | _ => false end;
}.

(** ** The group of one row *)

(** At or below the floor. *)
Definition shadowed (floor : option Z) (ts : Z) : bool :=
  match floor with Some f => ts <=? f | None => false end.

Definition is_delete_row (op : CellOperation) : bool :=
  match op with DeleteRow => true | _ => false end.

(** The later deletion at the same time wins. *)
Definition newest_deletion (floor : option Z) (acc : option (Z * Z)) (d : Z * Z) : option (Z * Z) :=
  if negb (shadowed floor d.1) && match acc with Some (ts, _) => d.1 >=? ts | None => true end
  then Some d else acc.

Definition deletions_of (m : Mutation) : list (Z * Z) :=
  (if existsb is_delete_row (m_operations m)
   then [(m_timestamp_micros m, effective_local_deletion_time m)] else [])
  ++ match m_row_tombstone m with Some d => [d] | None => [] end.

Definition group_row_deletion (floor : option Z) (group : list Mutation) : option (Z * Z) :=
  foldl (newest_deletion floor) None (flat_map deletions_of group).

Definition max_floor (a b : option Z) : option Z :=
  match a, b with
  | Some a, Some b => Some (Z.max a b)
  | Some a, None => Some a
  | None, b => b
  end.

(** A time and a TTL; the later at the same time wins. *)
Definition newest_liveness (acc : option (Z * option Z)) (l : Z * option Z) : option (Z * option Z) :=
  if match acc with Some (ts, _) => l.1 >=? ts | None => true end then Some l else acc.

Record RowGroup := mkRowGroup {
  rg_cells : gmap string MergedOp;
  rg_elements : list MergedOp;
  rg_liveness : option (Z * option Z);
  rg_whole_col : gmap string (Z * option Z);
}.

Definition rg_empty : RowGroup := mkRowGroup ∅ [] None ∅.

(** An element or a column deletion, at its own time. *)
Definition element_op (m : Mutation) (op : CellOperation) : option MergedOp :=
  match op with
  | OpComplexDeletion _ mfda _ =>
      Some (mkMergedOp op mfda (m_ttl_seconds m) (effective_local_deletion_time m))
  | WriteComplexElement _ _ _ ts _ _ _ =>
      Some (mkMergedOp op ts (m_ttl_seconds m) (effective_local_deletion_time m))
  | _ => None
  end.

Definition push_element (mop : MergedOp) (g : RowGroup) : RowGroup :=
  mkRowGroup (rg_cells g) (rg_elements g ++ [mop]) (rg_liveness g) (rg_whole_col g).

(** The writer's rule for two operations on a column: the later one at equal rank. *)
Definition candidate_wins (candidate existing : MergedOp) : bool :=
  cell_wins candidate existing
  || (mop_timestamp_micros candidate =? mop_timestamp_micros existing)
     && Bool.eqb (rc_is_tombstone candidate) (rc_is_tombstone existing).

Definition put_cell (column : string) (candidate : MergedOp) (g : RowGroup) : RowGroup :=
  mkRowGroup
    (match rg_cells g !! column with
     | Some existing => if candidate_wins candidate existing
                        then <[column := candidate]> (rg_cells g) else rg_cells g
     | None => <[column := candidate]> (rg_cells g)
     end) (rg_elements g) (rg_liveness g) (rg_whole_col g).

Definition note_write (column : string) (l : Z * option Z) (g : RowGroup) : RowGroup :=
  mkRowGroup (rg_cells g) (rg_elements g) (rg_liveness g)
    (match newest_liveness (rg_whole_col g !! column) l with
     | Some l => <[column := l]> (rg_whole_col g)
     | None => rg_whole_col g
     end).

Definition merged_op (m : Mutation) (column : string) (op : CellOperation) : MergedOp :=
  mkMergedOp op (cell_write_timestamp m column) (m_ttl_seconds m) (op_cell_local_deletion_time op m).

(** A mutation the deletion covers: only its elements and column deletions are looked at. *)
Definition feed_shadowed (schema : TableSchema) (skip_static_ops : bool) (m : Mutation) (g : RowGroup) :
    RowGroup :=
  foldl (fun g op =>
           match element_op m op with
           | Some mop => if skip_static_ops && is_static_operation op schema then g else push_element mop g
           | None => g
           end) g (m_operations m).

(** One operation; [pk] is the newest write of a primary-key column so far. *)
Definition feed_op (schema : TableSchema) (skip_static_ops : bool) (deletion_ts : option Z) (m : Mutation)
    (acc : RowGroup * option Z) (op : CellOperation) : RowGroup * option Z :=
  let '(g, pk) := acc in
  match element_op m op with
  | Some mop => if skip_static_ops && is_static_operation op schema then acc else (push_element mop g, pk)
  | None =>
      match whole_column op with
      | None => acc
      | Some column =>
          if skip_static_ops && is_static_operation op schema then acc
          else
            let cell_ts := cell_write_timestamp m column in
            if is_primary_key_column column schema then
              if is_write op && negb (shadowed deletion_ts cell_ts)
                 && match pk with Some cur => cell_ts >=? cur | None => true end
              then (g, Some cell_ts) else acc
            else if shadowed deletion_ts cell_ts then acc
            else
              let g := if is_write op then note_write column (cell_ts, m_ttl_seconds m) g else g in
              (put_cell column (merged_op m column op) g, pk)
      end
  end.

Definition pure_pk_insert (m : Mutation) : bool :=
  is_empty (m_operations m) && negb (is_some (m_partition_tombstone m)) && is_empty (m_range_tombstones m).

Definition fold_liveness (l : option (Z * option Z)) (g : RowGroup) : RowGroup :=
  mkRowGroup (rg_cells g) (rg_elements g)
    (match l with Some l => newest_liveness (rg_liveness g) l | None => rg_liveness g end)
    (rg_whole_col g).

Definition feed_mutation (schema : TableSchema) (skip_static_ops : bool) (deletion_ts : option Z)
    (g : RowGroup) (m : Mutation) : RowGroup :=
  if shadowed deletion_ts (m_timestamp_micros m) then feed_shadowed schema skip_static_ops m g
  else
    let '(g, pk) := foldl (feed_op schema skip_static_ops deletion_ts m) (g, None) (m_operations m) in
    let pk_liveness := match pk with
                       | Some ts => Some ts
                       | None => if pure_pk_insert m then Some (m_timestamp_micros m) else None
                       end in
    fold_liveness ((fun ts => (ts, m_ttl_seconds m)) <$> pk_liveness) g.

(** ** Whole columns against elements *)

(** The newest element or deletion of each column. *)
Definition raise_elem_ts (acc : gmap string Z) (mop : MergedOp) : gmap string Z :=
  match merged_op_column (mop_op mop) with
  | Some col => <[col := Z.max (mop_timestamp_micros mop) (default i64_MIN (acc !! col))]> acc
  | None => acc
  end.

Definition elem_max_ts (elements : list MergedOp) : gmap string Z := foldl raise_elem_ts ∅ elements.

(** A whole-column operation at or above its column's elements. *)
Definition whole_survives (emax : gmap string Z) (mop : MergedOp) : bool :=
  match merged_op_column (mop_op mop) ≫= (fun col => emax !! col) with
  | Some t => mop_timestamp_micros mop >=? t
  | None => true
  end.

Definition whole_wins (emax : gmap string Z) (ops : list MergedOp) (col : string) : bool :=
  existsb (fun mop => bool_decide (merged_op_column (mop_op mop) = Some col)
                      && is_some (emax !! col) && whole_survives emax mop) ops.

Definition active_mfda (elements : list MergedOp) : gmap string Z :=
  foldl (fun acc mop =>
           match mop_op mop with
           | OpComplexDeletion col mfda _ =>
               match acc !! col with
               | Some existing => if negb (complex_deletion_supersedes mfda existing) then acc
                                  else <[col := mfda]> acc
               | None => <[col := mfda]> acc
               end
           | _ => acc
           end) ∅ elements.

Definition element_live (mfdas : gmap string Z) (mop : MergedOp) : bool :=
  match mop_op mop with
  | WriteComplexElement col _ _ ts _ _ _ =>
      match mfdas !! col with Some mfda => element_survives_complex_deletion ts mfda | None => true end
  | _ => true
  end.

(** A live element's time and TTL. *)
Definition element_liveness (mop : MergedOp) : option (Z * option Z) :=
  match mop_op mop with
  | WriteComplexElement _ _ value ts ttl _ is_deleted =>
      if is_deleted || negb (is_some value) then None else Some (ts, ttl)
  | _ => None
  end.

Section Group.
Context `{HashOrder}.

(** A column goes to its whole-column operation or to its elements, the whole at a tie. *)
Definition reconcile_streams (ops elements : list MergedOp) (whole_col : gmap string (Z * option Z)) :
    list MergedOp * list MergedOp * gmap string (Z * option Z) :=
  if is_empty elements then (ops, elements, whole_col)
  else
    let emax := elem_max_ts elements in
    let wins := whole_wins emax ops in
    (List.filter (whole_survives emax) ops,
     List.filter (fun mop => negb (from_option wins false (merged_op_column (mop_op mop)))) elements,
     filter (fun '(col, _) => emax !! col = None \/ wins col = true) whole_col).

Definition merge_row_group (group : list Mutation) (schema : TableSchema) (skip_static_ops : bool)
    (shadow_floor : option Z) : option RowWrite :=
  let row_deletion := group_row_deletion shadow_floor group in
  let deletion_ts := max_floor (fst <$> row_deletion) shadow_floor in
  let g := foldl (feed_mutation schema skip_static_ops deletion_ts) rg_empty group in
  let elements := List.filter (fun mop => negb (shadowed deletion_ts (mop_timestamp_micros mop)))
                    (rg_elements g) in
  let '(ops, elements, whole_col) :=
    reconcile_streams (hash_values (rg_cells g)) elements (rg_whole_col g) in
  let elements := List.filter (element_live (active_mfda elements)) elements in
  let liveness := foldl newest_liveness (rg_liveness g) (hash_values whole_col) in
  let liveness := foldl newest_liveness liveness (omap element_liveness elements) in
  if is_empty ops && is_empty elements && negb (is_some row_deletion) && negb (is_some liveness)
  then None
  else Some (mkRowWrite (head group ≫= m_clustering_key) (fst <$> liveness) (liveness ≫= snd)
               row_deletion ops elements).

(** ** The rows of a partition *)

(** [Option<ClusteringKey>] is compared by the order of keys. *)
Definition same_clustering_key `{DebugFmt} (a b : option ClusteringKey) : bool :=
  match a, b with
  | None, None => true
  | Some a, Some b => bool_decide (ck_cmp a b = Eq)
  | _, _ => false
  end.

(** Maximal runs of the clustering key of their first mutation. *)
Fixpoint runs_from `{DebugFmt} (start : Mutation) (run : list Mutation) (ms : list Mutation) :
    list (list Mutation) :=
  match ms with
  | [] => [run]
  | m :: ms =>
      if same_clustering_key (m_clustering_key m) (m_clustering_key start)
      then runs_from start (run ++ [m]) ms else run :: runs_from m [m] ms
  end.

Definition group_runs `{DebugFmt} (ms : list Mutation) : list (list Mutation) :=
  match ms with [] => [] | m :: ms => runs_from m [m] ms end.

Definition row_shadow_floor `{DebugFmt} (schema : TableSchema) (clustering_key : option ClusteringKey)
    (partition_floor : option Z) (range_tombstones : list RangeTombstone) : option Z :=
  foldl (fun floor rt => if range_tombstone_covers schema rt clustering_key
                         then Some (match floor with
                                    | Some f => Z.max f (rt_deletion_time rt)
                                    | None => rt_deletion_time rt
                                    end)
                         else floor) partition_floor range_tombstones.

Definition merge_clustering_rows `{DebugFmt} (mutations : list Mutation) (schema : TableSchema)
    (skip_static_ops : bool) (partition_floor : option Z) (range_tombstones : list RangeTombstone) :
    list RowWrite :=
  let row_mutations := List.filter (fun m => negb (is_static_row_mutation m schema)) mutations in
  omap (fun group =>
          let clustering_key := head group ≫= m_clustering_key in
          merge_row_group group schema skip_static_ops
            (row_shadow_floor schema clustering_key partition_floor range_tombstones))
    (group_runs row_mutations).
End Group.

(** The order of the map's own listing. *)
Definition listed_order : HashOrder :=
  {| hash_values A m := (map_to_list m).*2; hash_values_perm A m := Permutation_refl _ |}.
