(* ===== verification/RowGroupProps.v ===== *)
(** Properties of the reconciliation inside a flush: nothing a deletion covers survives it,
    each column keeps the newest of its operations, and a column is written either as a
    whole or by elements. *)

From S2P Require Import Prelude Values Keys MergeModel Mutation Columns Rows RowProps Items RowGroup.

Open Scope Z_scope.

Lemma foldl_inv {A B} (P : A -> Prop) (f : A -> B -> A) l : forall a,
  P a -> (forall a x, x ∈ l -> P a -> P (f a x)) -> P (foldl f a l).
Proof.
  induction l as [|x l IH]; intros a Ha Hf; cbn; [done|]. apply IH.
  - apply Hf; [apply list_elem_of_here|done].
  - intros a' x' Hx. apply Hf. by apply list_elem_of_further.
Qed.

Lemma sublist_filter_bool {A} (f : A -> bool) (l : list A) : List.filter f l `sublist_of` l.
Proof. induction l as [|x l IH]; cbn; [done|]. destruct (f x); by constructor. Qed.

Lemma sublist_map {A B} (f : A -> B) l1 l2 : l1 `sublist_of` l2 -> map f l1 `sublist_of` map f l2.
Proof. induction 1; cbn; by constructor. Qed.

(** ** The rank of an operation *)

Definition op_rank (mop : MergedOp) : Z :=
  2 * mop_timestamp_micros mop + (if rc_is_tombstone mop then 1 else 0).

Lemma candidate_wins_rank c e : candidate_wins c e = (op_rank e <=? op_rank c).
Proof.
  unfold candidate_wins, cell_wins, op_rank. cbn [rc_timestamp rc_is_tombstone merged_op_reconcile].
  destruct (Z.eqb_spec (mop_timestamp_micros c) (mop_timestamp_micros e)) as [E|E]; cbn [negb].
  - rewrite E. destruct (mop_op c), (mop_op e); cbn; lia.
  - destruct (Z.gtb_spec (mop_timestamp_micros c) (mop_timestamp_micros e)); cbn [orb andb];
      destruct (mop_op c), (mop_op e); cbn; lia.
Qed.

(** ** What a group collects *)

Section Group.
Context (schema : TableSchema) (skip_static_ops : bool) (dts : option Z).

(** An operation on a column that becomes a cell of the row. *)
Definition cell_op (column : string) (m : Mutation) (op : CellOperation) : bool :=
  bool_decide (whole_column op = Some column)
  && negb (skip_static_ops && is_static_operation op schema)
  && negb (is_primary_key_column column schema)
  && negb (shadowed dts (cell_write_timestamp m column)).

(** The operations on a column of one mutation, of a group, that nothing covers. *)
Definition mutation_candidates (column : string) (m : Mutation) : list MergedOp :=
  if shadowed dts (m_timestamp_micros m) then []
  else map (merged_op m column) (List.filter (cell_op column m) (m_operations m)).

Definition candidates (column : string) (group : list Mutation) : list MergedOp :=
  flat_map (mutation_candidates column) group.

(** The last of the operations of greatest rank. *)
Definition newest (acc : option MergedOp) (c : MergedOp) : option MergedOp :=
  match acc with
  | Some e => if candidate_wins c e then Some c else acc
  | None => Some c
  end.

Lemma element_op_whole m op : is_some (element_op m op) = true -> whole_column op = None.
Proof. by destruct op. Qed.

Lemma feed_op_cells m acc op column :
  rg_cells (feed_op schema skip_static_ops dts m acc op).1 !! column
  = if cell_op column m op then newest (rg_cells acc.1 !! column) (merged_op m column op)
    else rg_cells acc.1 !! column.
Proof.
  unfold cell_op. destruct acc as [g pk]. cbn [fst]. unfold feed_op.
  destruct (element_op m op) as [mop|] eqn:He.
  { assert (Hw : whole_column op = None) by (apply (element_op_whole m); by rewrite He).
    rewrite Hw, bool_decide_false by done. cbn [andb].
    by destruct (skip_static_ops && is_static_operation op schema). }
  destruct (whole_column op) as [col|] eqn:Hw.
  2:{ rewrite bool_decide_false by done. done. }
  destruct (skip_static_ops && is_static_operation op schema) eqn:Hs; cbn [negb].
  { by rewrite andb_false_r. }
  rewrite andb_true_r. destruct (is_primary_key_column col schema) eqn:Hpk.
  { assert (E : bool_decide (Some col = Some column) && negb (is_primary_key_column column schema) = false).
    { destruct (decide (col = column)) as [->|]; [by rewrite Hpk, andb_false_r|].
      by rewrite bool_decide_false by congruence. }
    rewrite E. cbn [andb].
    by destruct (is_write op && negb (shadowed dts (cell_write_timestamp m col)) && _). }
  destruct (shadowed dts (cell_write_timestamp m col)) eqn:Hsh; cbn [fst].
  { destruct (decide (col = column)) as [->|]; [by rewrite Hsh, !andb_false_r|].
    by rewrite bool_decide_false by congruence. }
  assert (Hg : forall g', rg_cells g' = rg_cells g ->
    rg_cells (put_cell col (merged_op m col op) g') !! column
    = if bool_decide (Some col = Some column) then newest (rg_cells g !! column) (merged_op m column op)
      else rg_cells g !! column).
  { intros g' E. unfold put_cell. cbn [rg_cells]. rewrite E.
    destruct (decide (col = column)) as [->|Hn].
    - rewrite bool_decide_true by done. unfold newest. destruct (rg_cells g !! column) as [e|] eqn:Hl.
      + destruct (candidate_wins (merged_op m column op) e); by rewrite ?lookup_insert_eq.
      + by rewrite lookup_insert_eq.
    - rewrite bool_decide_false by congruence.
      destruct (rg_cells g !! col); [destruct (candidate_wins _ _)|]; by rewrite ?lookup_insert_ne. }
  rewrite Hg by by destruct (is_write op). destruct (decide (col = column)) as [->|Hn].
  - by rewrite Hpk, Hsh, bool_decide_true.
  - by rewrite bool_decide_false by congruence.
Qed.

Lemma feed_ops_cells m column ops : forall acc,
  rg_cells (foldl (feed_op schema skip_static_ops dts m) acc ops).1 !! column
  = foldl newest (rg_cells acc.1 !! column) (map (merged_op m column) (List.filter (cell_op column m) ops)).
Proof.
  induction ops as [|op ops IH]; intros acc; [done|]. cbn [foldl List.filter].
  rewrite IH, feed_op_cells. by destruct (cell_op column m op).
Qed.

Lemma feed_shadowed_cells m g : rg_cells (feed_shadowed schema skip_static_ops m g) = rg_cells g.
Proof.
  unfold feed_shadowed. apply (foldl_inv (fun g' => rg_cells g' = rg_cells g)); [done|].
  intros g' op _ E. destruct (element_op m op); [|done]. by destruct (skip_static_ops && _).
Qed.

Lemma feed_mutation_cells m g column :
  rg_cells (feed_mutation schema skip_static_ops dts g m) !! column
  = foldl newest (rg_cells g !! column) (mutation_candidates column m).
Proof.
  unfold feed_mutation, mutation_candidates. destruct (shadowed dts (m_timestamp_micros m)).
  - by rewrite feed_shadowed_cells.
  - pose proof (feed_ops_cells m column (m_operations m) (g, None)) as E. cbn [fst] in E. rewrite <- E.
    by destruct (foldl _ (g, None) (m_operations m)) as [g' pk].
Qed.

Lemma group_cells group column : forall g,
  rg_cells (foldl (feed_mutation schema skip_static_ops dts) g group) !! column
  = foldl newest (rg_cells g !! column) (candidates column group).
Proof.
  induction group as [|m group IH]; intros g; [done|]. cbn [foldl candidates flat_map].
  rewrite IH, feed_mutation_cells. unfold candidates. by rewrite foldl_app.
Qed.

(** *** The newest of a list *)

Lemma newest_spec l : forall acc w,
  foldl newest acc l = Some w ->
  (acc = Some w /\ Forall (fun c => op_rank c < op_rank w) l) \/
  (exists l1 l2, l = l1 ++ w :: l2 /\ Forall (fun c => op_rank c <= op_rank w) l1 /\
     Forall (fun c => op_rank c < op_rank w) l2 /\ from_option (fun e => op_rank e <= op_rank w) True acc).
Proof.
  induction l as [|c l IH]; intros acc w H; cbn in H; [by left|].
  apply IH in H. destruct H as [[Ha Hl]|(l1 & l2 & -> & H1 & H2 & H3)].
  - destruct acc as [e|]; cbn in Ha.
    + rewrite candidate_wins_rank in Ha. destruct (Z.leb_spec (op_rank e) (op_rank c)); simplify_eq.
      * right. by exists [], l.
      * left. split; [done|]. by constructor.
    + simplify_eq. right. by exists [], l.
  - destruct acc as [e|]; cbn in H3 |- *.
    + rewrite candidate_wins_rank in H3. destruct (Z.leb_spec (op_rank e) (op_rank c)) as [Hle|Hgt]; cbn in H3.
      * right. exists (c :: l1), l2. repeat split; [by constructor|done|lia].
      * right. exists (c :: l1), l2. repeat split; [constructor; [lia|done]|done|lia].
    + right. exists (c :: l1), l2. by repeat split; [constructor|].
Qed.

Lemma newest_none l acc : foldl newest acc l = None <-> acc = None /\ l = [].
Proof.
  revert acc. induction l as [|c l IH]; intros acc; cbn; [split; [intros ->; done|by intros [? _]]|]. rewrite IH.
  destruct acc as [e|]; cbn; [destruct (candidate_wins c e)|]; split; by intros [? ?].
Qed.
End Group.

(** ** Elements and column deletions *)

Lemma elem_max_ts_spec elements col e :
  e ∈ elements -> merged_op_column (mop_op e) = Some col ->
  exists t, elem_max_ts elements !! col = Some t /\ mop_timestamp_micros e <= t.
Proof.
  unfold elem_max_ts. induction elements as [|x l IH] using rev_ind; [by rewrite elem_of_nil|].
  rewrite elem_of_app, list_elem_of_singleton, foldl_app. cbn [foldl].
  unfold raise_elem_ts at 1. intros [Hi| ->] Hc.
  - destruct (IH Hi Hc) as (t & Ht & Hle). destruct (merged_op_column (mop_op x)) as [col'|]; [|by exists t].
    destruct (decide (col' = col)) as [->|Hn].
    + rewrite lookup_insert_eq, Ht. eexists. split; [done|]. cbn. lia.
    + rewrite lookup_insert_ne by done. by exists t.
  - rewrite Hc, lookup_insert_eq. eexists. split; [done|]. lia.
Qed.

(** The greatest time belongs to an element, a deletion if one has it. *)
Lemma elem_max_ts_reached elements col t :
  i64_MIN < t -> elem_max_ts elements !! col = Some t ->
  exists e, e ∈ elements /\ merged_op_column (mop_op e) = Some col /\ mop_timestamp_micros e = t.
Proof.
  unfold elem_max_ts. revert t. induction elements as [|x l IH] using rev_ind; intros t Hr; [done|].
  rewrite foldl_app. cbn [foldl].
  fold (elem_max_ts l). unfold raise_elem_ts.
  assert (Hold : elem_max_ts l !! col = Some t ->
           exists e, e ∈ l ++ [x] /\ merged_op_column (mop_op e) = Some col /\ mop_timestamp_micros e = t).
  { intros H. destruct (IH t Hr H) as (e & He & Hc). exists e. split; [|done]. rewrite elem_of_app. by left. }
  destruct (merged_op_column (mop_op x)) as [col'|] eqn:Hc; [|done].
  destruct (decide (col' = col)) as [->|Hn]; [|by rewrite lookup_insert_ne by done].
  rewrite lookup_insert_eq. intros H. injection H as H.
  assert (Hself : mop_timestamp_micros x = t -> exists e, e ∈ l ++ [x] /\ merged_op_column (mop_op e) = Some col /\ mop_timestamp_micros e = t).
  { intros E. exists x. split; [|done]. rewrite elem_of_app. right. apply list_elem_of_here. }
  destruct (_ !! col) as [t'|] eqn:Hl; cbn [default from_option id] in H.
  - destruct (Z.max_spec (mop_timestamp_micros x) t') as [[_ E]|[_ E]]; [apply Hold; f_equal; lia|apply Hself; lia].
  - apply Hself. lia.
Qed.

Lemma active_mfda_spec elements d col mfda ldt :
  d ∈ elements -> mop_op d = OpComplexDeletion col mfda ldt ->
  exists t, active_mfda elements !! col = Some t /\ mfda <= t.
Proof.
  unfold active_mfda. induction elements as [|x l IH] using rev_ind; [by rewrite elem_of_nil|].
  rewrite elem_of_app, list_elem_of_singleton, foldl_app. cbn [foldl].
  intros [Hi| ->] Hd.
  - destruct (IH Hi Hd) as (t & Ht & Hle). destruct (mop_op x) as [| | | | |col' m' l']; try by exists t.
    destruct (decide (col' = col)) as [->|Hn].
    + rewrite Ht. unfold complex_deletion_supersedes. destruct (Z.gtb_spec m' t); cbn [negb].
      * rewrite lookup_insert_eq. eexists. split; [done|]. lia.
      * by exists t.
    + destruct (_ !! col'); [destruct (negb _)|]; rewrite ?lookup_insert_ne by done; by exists t.
  - rewrite Hd. destruct (_ !! col) as [t|] eqn:Hl.
    + unfold complex_deletion_supersedes. destruct (Z.gtb_spec mfda t); cbn [negb].
      * rewrite lookup_insert_eq. eexists. split; [done|]. lia.
      * exists t. split; [done|]. lia.
    + rewrite lookup_insert_eq. eexists. split; [done|]. lia.
Qed.

Lemma active_mfda_reached elements col t :
  active_mfda elements !! col = Some t ->
  exists d ldt, d ∈ elements /\ mop_op d = OpComplexDeletion col t ldt.
Proof.
  unfold active_mfda. revert t. induction elements as [|x l IH] using rev_ind; intros t; [done|].
  rewrite foldl_app. cbn [foldl]. fold (active_mfda l).
  assert (Hold : active_mfda l !! col = Some t -> exists d ldt, d ∈ l ++ [x] /\ mop_op d = OpComplexDeletion col t ldt).
  { intros H. destruct (IH t H) as (d & ldt & Hd & E). exists d, ldt. split; [|done]. rewrite elem_of_app. by left. }
  destruct (mop_op x) as [| | | | |col' mfda ldt] eqn:Ex; try done.
  assert (Hnew : <[col' := mfda]> (active_mfda l) !! col = Some t ->
            exists d ldt, d ∈ l ++ [x] /\ mop_op d = OpComplexDeletion col t ldt).
  { destruct (decide (col' = col)) as [->|Hn]; [|by rewrite lookup_insert_ne by done].
    rewrite lookup_insert_eq. intros [= <-]. exists x, ldt. split; [|done].
    rewrite elem_of_app. right. apply list_elem_of_here. }
  destruct (active_mfda l !! col'); [destruct (negb _)|]; done.
Qed.

(** ** The rest of what a group collects *)

Section Invariant.
Context (schema : TableSchema) (skip_static_ops : bool) (dts : option Z) (group : list Mutation).

Definition above (l : Z * option Z) : Prop := shadowed dts l.1 = false.

(** An element of one of the mutations, at its own time. *)
Definition own_element (mop : MergedOp) : Prop :=
  exists m op, m ∈ group /\ op ∈ m_operations m /\ element_op m op = Some mop.

Record group_inv (g : RowGroup) : Prop := {
  gi_elements : Forall own_element (rg_elements g);
  gi_liveness : from_option above True (rg_liveness g);
  gi_whole : forall col l, rg_whole_col g !! col = Some l -> above l;
}.

Lemma newest_liveness_above acc l :
  from_option above True acc -> above l -> from_option above True (newest_liveness acc l).
Proof. intros Ha Hl. unfold newest_liveness. by destruct (match acc with Some _ => _ | None => _ end). Qed.

Lemma push_element_inv m op mop g :
  m ∈ group -> op ∈ m_operations m -> element_op m op = Some mop -> group_inv g ->
  group_inv (push_element mop g).
Proof.
  intros Hm Ho He [H1 H2 H3]. split; cbn; [|done..]. apply Forall_app. split; [done|].
  apply Forall_singleton. by exists m, op.
Qed.

Lemma note_write_inv column l g : above l -> group_inv g -> group_inv (note_write column l g).
Proof.
  intros Hl [H1 H2 H3]. split; cbn; [done..|]. intros col l'.
  destruct (newest_liveness (rg_whole_col g !! column) l) as [n|] eqn:E; [|apply H3].
  destruct (decide (column = col)) as [->|Hn].
  - rewrite lookup_insert_eq. intros [= <-].
    pose proof (newest_liveness_above (rg_whole_col g !! col) l) as H. rewrite E in H. apply H; [|done].
    destruct (rg_whole_col g !! col) eqn:Hc; [by apply (H3 col)|done].
  - rewrite lookup_insert_ne by done. apply H3.
Qed.

Lemma feed_op_inv m acc op :
  m ∈ group -> op ∈ m_operations m ->
  group_inv acc.1 /\ from_option (fun ts => shadowed dts ts = false) True acc.2 ->
  let acc' := feed_op schema skip_static_ops dts m acc op in
  group_inv acc'.1 /\ from_option (fun ts => shadowed dts ts = false) True acc'.2.
Proof.
  intros Hm Ho [Hg Hpk]. destruct acc as [g pk]. cbn [fst snd] in *. unfold feed_op.
  destruct (element_op m op) as [mop|] eqn:He.
  { destruct (skip_static_ops && _); [done|]. split; [|done]. by apply (push_element_inv m op). }
  destruct (whole_column op) as [col|]; [|done]. destruct (skip_static_ops && _); [done|].
  destruct (is_primary_key_column col schema).
  { destruct (is_write op); [|done]. destruct (shadowed dts (cell_write_timestamp m col)) eqn:E; [done|].
    by destruct (match pk with Some _ => _ | None => _ end). }
  destruct (shadowed dts (cell_write_timestamp m col)) eqn:E; [done|]. cbn [fst snd]. split; [|done].
  assert (H : group_inv (if is_write op then note_write col (cell_write_timestamp m col, m_ttl_seconds m) g else g)).
  { destruct (is_write op); [by apply note_write_inv|done]. }
  by destruct H.
Qed.

Lemma feed_mutation_inv m g :
  m ∈ group -> group_inv g -> group_inv (feed_mutation schema skip_static_ops dts g m).
Proof.
  intros Hm Hg. unfold feed_mutation. destruct (shadowed dts (m_timestamp_micros m)) eqn:Hts.
  - unfold feed_shadowed. apply foldl_inv; [done|]. intros g' op Ho Hg'.
    destruct (element_op m op) eqn:He; [|done]. destruct (skip_static_ops && _); [done|].
    by apply (push_element_inv m op).
  - pose proof (foldl_inv (fun acc => group_inv acc.1 /\ from_option (fun ts => shadowed dts ts = false) True acc.2)
      (feed_op schema skip_static_ops dts m) (m_operations m) (g, None)) as H.
    destruct (foldl _ (g, None) (m_operations m)) as [g' pk]. cbn [fst snd] in H.
    destruct H as [[H1 H2 H3] Hpk]; [done|intros; by apply feed_op_inv|].
    split; cbn; [done| |done].
    destruct pk as [ts|]; cbn in *; [by apply newest_liveness_above|].
    destruct (pure_pk_insert m); [by apply newest_liveness_above|done].
Qed.

Lemma group_invariant : group_inv (foldl (feed_mutation schema skip_static_ops dts) rg_empty group).
Proof.
  apply foldl_inv.
  - split; cbn; [constructor|done|]. intros col l. by rewrite lookup_empty.
  - intros g m Hm Hg. by apply feed_mutation_inv.
Qed.

(** A cell of the group: one of its operations, on that column and covered by nothing. *)
Lemma candidates_elem column mop :
  mop ∈ candidates schema skip_static_ops dts column group ->
  exists m op, m ∈ group /\ op ∈ m_operations m /\ mop = merged_op m column op /\
    cell_op schema skip_static_ops dts column m op = true.
Proof.
  unfold candidates. intros H. apply list_elem_of_In, in_flat_map in H as (m & Hm & Hi).
  unfold mutation_candidates in Hi. destruct (shadowed dts (m_timestamp_micros m)); [done|].
  apply in_map_iff in Hi as (op & <- & Hf). apply filter_In in Hf as [Ho Hc].
  exists m, op. by rewrite !list_elem_of_In.
Qed.

Lemma group_cell column mop :
  rg_cells (foldl (feed_mutation schema skip_static_ops dts) rg_empty group) !! column = Some mop ->
  exists m op, m ∈ group /\ op ∈ m_operations m /\ mop = merged_op m column op /\
    cell_op schema skip_static_ops dts column m op = true.
Proof.
  rewrite group_cells. cbn [rg_cells rg_empty]. rewrite lookup_empty. intros H.
  apply newest_spec in H as [[? _]|(l1 & l2 & E & _)]; [done|]. apply candidates_elem. rewrite E, elem_of_app.
  right. apply list_elem_of_here.
Qed.

Lemma cell_op_facts column m op :
  cell_op schema skip_static_ops dts column m op = true ->
  whole_column op = Some column /\ is_primary_key_column column schema = false /\
  (skip_static_ops && is_static_operation op schema = false) /\
  shadowed dts (cell_write_timestamp m column) = false.
Proof.
  unfold cell_op. rewrite !andb_true_iff, !negb_true_iff, bool_decide_eq_true. tauto.
Qed.
End Invariant.

(** ** The row *)

Section Row.
Context `{!HashOrder}.

Lemma hash_values_elem {A} (m : gmap string A) x : x ∈ hash_values m <-> exists k, m !! k = Some x.
Proof.
  rewrite hash_values_perm, list_elem_of_fmap. split.
  - intros ([k y] & -> & Hl). apply elem_of_map_to_list in Hl. by exists k.
  - intros [k Hl]. exists (k, x). split; [done|]. by apply elem_of_map_to_list.
Qed.

(** The floor under a group: the deletion it keeps and what covers it from outside. *)
Definition group_floor (group : list Mutation) (shadow_floor : option Z) : option Z :=
  max_floor (fst <$> group_row_deletion shadow_floor group) shadow_floor.

Lemma row_deletion_above floor group :
  from_option (fun d => shadowed floor d.1 = false) True (group_row_deletion floor group).
Proof.
  unfold group_row_deletion. apply (foldl_inv (fun acc => from_option (fun d => shadowed floor d.1 = false) True acc)).
  - done.
  - intros acc d _ Ha. unfold newest_deletion. destruct (shadowed floor d.1) eqn:E; cbn [negb andb]; [done|].
    by destruct (match acc with Some _ => _ | None => _ end).
Qed.

Lemma whole_wins_intro emax ops mop col t :
  mop ∈ ops -> merged_op_column (mop_op mop) = Some col -> emax !! col = Some t ->
  whole_survives emax mop = true -> whole_wins emax ops col = true.
Proof.
  intros Hi Hc Ht Hs. unfold whole_wins. apply existsb_exists. exists mop. split; [by apply list_elem_of_In|].
  by rewrite bool_decide_true, Ht, Hs.
Qed.

Lemma reconcile_streams_sub ops elements whole ops' elements' whole' :
  reconcile_streams ops elements whole = (ops', elements', whole') ->
  ops' `sublist_of` ops /\ elements' `sublist_of` elements /\
  (forall col l, whole' !! col = Some l -> whole !! col = Some l).
Proof.
  unfold reconcile_streams. destruct (is_empty elements); intros [= <- <- <-]; [done|].
  split; [apply sublist_filter_bool|split; [apply sublist_filter_bool|]].
  intros col l Hl. by apply map_lookup_filter_Some in Hl as [Hl _].
Qed.

(** No column has both an operation and elements. *)
Lemma reconcile_streams_disjoint ops elements whole ops' elements' whole' mop e col :
  reconcile_streams ops elements whole = (ops', elements', whole') ->
  mop ∈ ops' -> e ∈ elements' -> merged_op_column (mop_op mop) = Some col ->
  merged_op_column (mop_op e) <> Some col.
Proof.
  unfold reconcile_streams. destruct (is_empty elements) eqn:Hn.
  { destruct elements; [|done]. intros [= <- <- <-] _ He. by apply elem_of_nil in He. }
  intros [= <- <- <-]. rewrite !list_elem_of_In, !filter_In. intros [Hm Hs] [He Hw] Hc Hce.
  rewrite Hce in Hw. cbn [from_option] in Hw. apply list_elem_of_In in He, Hm.
  destruct (elem_max_ts_spec _ col e He Hce) as (t & Ht & _).
  by rewrite (whole_wins_intro _ _ _ _ _ Hm Hc Ht Hs) in Hw.
Qed.

Lemma whole_merged op col : whole_column op = Some col -> merged_op_column op = Some col.
Proof. by destruct op. Qed.

Lemma cell_columns (m : gmap string MergedOp) :
  (forall col mop, m !! col = Some mop -> whole_column (mop_op mop) = Some col) ->
  NoDup (map (fun mop => whole_column (mop_op mop)) (hash_values m)).
Proof.
  intros Hm. rewrite hash_values_perm.
  assert (E : map (fun mop => whole_column (mop_op mop)) (map_to_list m).*2 = map Some (map_to_list m).*1).
  { rewrite !map_map. apply map_ext_in. intros [k mop] Hi. cbn. apply Hm. apply elem_of_map_to_list.
    by apply list_elem_of_In. }
  rewrite E. apply NoDup_fmap; [by intros ?? [= ->]|]. apply NoDup_fst_map_to_list.
Qed.

(** C8: What a flush writes for a row is reconciled: with the row deletion it keeps and the
    partition and range deletions over it as the floor, [merge_row_group] keeps no
    deletion, no liveness, no cell and no element at or below the floor, no element its
    column's deletion covers, at most one operation for a column, none for a primary-key
    column, and no column both whole and by elements. *)
Theorem flushed_row_reconciled group schema skip_static_ops shadow_floor row :
  merge_row_group group schema skip_static_ops shadow_floor = Some row ->
  let floor := max_floor (fst <$> rw_row_deletion row) shadow_floor in
  from_option (fun d => shadowed shadow_floor d.1 = false) True (rw_row_deletion row) /\
  from_option (fun ts => shadowed floor ts = false) True (rw_liveness_ts row) /\
  Forall (fun mop => shadowed floor (mop_timestamp_micros mop) = false)
    (rw_ops row ++ rw_complex_element_ops row) /\
  NoDup (op_columns row) /\
  Forall (fun mop => exists col, whole_column (mop_op mop) = Some col /\
                       is_primary_key_column col schema = false) (rw_ops row) /\
  (forall mop e col, mop ∈ rw_ops row -> e ∈ rw_complex_element_ops row ->
     whole_column (mop_op mop) = Some col -> element_column (mop_op e) <> Some col) /\
  (forall d e col mfda ldt cell_path v ts ttl eldt del,
     d ∈ rw_complex_element_ops row -> e ∈ rw_complex_element_ops row ->
     mop_op d = OpComplexDeletion col mfda ldt ->
     mop_op e = WriteComplexElement col cell_path v ts ttl eldt del -> mfda < ts).
Proof.
  unfold merge_row_group. set (deletion := group_row_deletion shadow_floor group).
  set (floor := max_floor (fst <$> deletion) shadow_floor).
  set (g := foldl _ rg_empty group).
  pose proof (group_invariant schema skip_static_ops floor group) as Hg. fold g in Hg.
  assert (Hcell : forall col mop, rg_cells g !! col = Some mop ->
            whole_column (mop_op mop) = Some col /\ is_primary_key_column col schema = false /\
            shadowed floor (mop_timestamp_micros mop) = false).
  { intros col mop Hl. apply group_cell in Hl as (m & op & _ & _ & -> & Hc).
    by apply cell_op_facts in Hc as (? & ? & _ & ?). }
  set (elements0 := List.filter _ (rg_elements g)).
  destruct (reconcile_streams _ elements0 _) as [[ops elements] whole] eqn:Er.
  destruct (reconcile_streams_sub _ _ _ _ _ _ Er) as (Hops & Hels & Hwhole).
  set (liveness := foldl newest_liveness _ (omap _ _)).
  destruct (_ && _); [done|]. intros [= <-]. cbn [rw_row_deletion rw_liveness_ts rw_ops rw_complex_element_ops].
  fold floor.
  assert (Hop : forall mop, mop ∈ ops -> exists col, rg_cells g !! col = Some mop).
  { intros mop Hm. apply hash_values_elem. by eapply elem_of_sublist. }
  assert (Hel : forall e, e ∈ List.filter (element_live (active_mfda elements)) elements ->
            e ∈ elements /\ shadowed floor (mop_timestamp_micros e) = false /\ own_element group e).
  { intros e He. apply list_elem_of_In, filter_In in He as [He _]. apply list_elem_of_In in He. split; [done|].
    assert (H0 : e ∈ elements0) by by eapply elem_of_sublist.
    apply list_elem_of_In, filter_In in H0 as [H0 Hs]. apply negb_true_iff in Hs. split; [done|].
    pose proof (gi_elements _ _ _ Hg) as Hi. rewrite Forall_forall in Hi. apply Hi. by apply list_elem_of_In. }
  split_and!.
  - apply row_deletion_above.
  - assert (Ha : from_option (above floor) True liveness); [|by destruct liveness].
    apply foldl_inv; [apply foldl_inv; [apply Hg|]|].
    + intros acc l Hl Ha. apply newest_liveness_above; [done|]. apply hash_values_elem in Hl as [col Hl].
      by eapply (gi_whole _ _ _ Hg), Hwhole.
    + intros acc l Hl Ha. apply newest_liveness_above; [done|].
      apply list_elem_of_omap in Hl as (e & He & El). destruct (Hel e He) as (_ & Hs & (m & op & _ & _ & Heo)).
      unfold element_liveness in El. destruct (mop_op e) eqn:Eo; try done.
      destruct (_ || _); [done|]. injection El as <-. unfold above. cbn [fst].
      destruct op; cbn in Heo; try done; injection Heo as <-; cbn in *; by inv Eo.
  - apply Forall_app. split; apply Forall_forall.
    + intros mop Hm. apply Hop in Hm as [col Hm]. by destruct (Hcell _ _ Hm) as (_ & _ & ?).
    + intros e He. by destruct (Hel e He) as (_ & ? & _).
  - unfold op_columns. cbn [rw_ops]. eapply sublist_NoDup; [|by apply sublist_map, Hops].
    apply cell_columns. intros col mop Hm. by destruct (Hcell _ _ Hm) as (? & _).
  - apply Forall_forall. intros mop Hm. apply Hop in Hm as [col Hm]. apply Hcell in Hm as (? & ? & _). by exists col.
  - intros mop e col Hm He Hc Hce. destruct (Hel e He) as (He' & _).
    apply (reconcile_streams_disjoint _ _ _ _ _ _ mop e col Er Hm He'); [by apply whole_merged|].
    revert Hce. by destruct (mop_op e).
  - intros d e col mfda ldt cell_path v ts ttl eldt del Hd He Ed Ee.
    apply list_elem_of_In, filter_In in He as [_ He]. destruct (Hel d Hd) as (Hd' & _).
    destruct (active_mfda_spec elements d col mfda ldt Hd' Ed) as (t & Ht & Hle).
    unfold element_live, element_survives_complex_deletion in He. rewrite Ee, Ht in He.
    apply Z.gtb_lt in He. lia.
Qed.

Lemma cells_newest (m : gmap string MergedOp) col w :
  (forall col mop, m !! col = Some mop -> whole_column (mop_op mop) = Some col) ->
  m !! col = Some w ->
  forall mop, mop ∈ hash_values m /\ whole_column (mop_op mop) = Some col <-> mop = w.
Proof.
  intros Hm Hw mop. rewrite hash_values_elem. split.
  - intros [[k Hk] Hc]. rewrite (Hm k mop Hk) in Hc. injection Hc as ->. by simplify_eq.
  - intros ->. split; [by exists col|by apply Hm].
Qed.

(** The newest element of a column its whole operation does not reach survives, or the
    column's deletion at the same time does. *)
Lemma elements_win ops elements whole ops' elements' whole' w col :
  reconcile_streams ops elements whole = (ops', elements', whole') ->
  (forall mop, mop ∈ ops /\ merged_op_column (mop_op mop) = Some col <-> mop = w) ->
  is_i64 (mop_timestamp_micros w) ->
  Forall (fun e => match mop_op e with
                   | WriteComplexElement _ _ _ ts _ _ _ | OpComplexDeletion _ ts _ => mop_timestamp_micros e = ts
                   | _ => False end) elements ->
  w ∈ ops' \/
  (~ w ∈ ops' /\ exists e, e ∈ List.filter (element_live (active_mfda elements')) elements' /\
     merged_op_column (mop_op e) = Some col /\ mop_timestamp_micros w < mop_timestamp_micros e).
Proof.
  intros Er Hw Hi Hown. unfold reconcile_streams in Er. destruct (proj2 (Hw w) eq_refl) as [Hwo Hwc].
  destruct (is_empty elements) eqn:Hn.
  { injection Er as <- <- <-. by left. }
  injection Er as <- <- <-. set (emax := elem_max_ts elements).
  destruct (whole_survives emax w) eqn:Hs.
  { left. apply list_elem_of_In, filter_In. split; [by apply list_elem_of_In|done]. }
  right. split.
  { intros Hf. apply list_elem_of_In, filter_In in Hf as [_ Hf]. by rewrite Hs in Hf. }
  unfold whole_survives in Hs. rewrite Hwc in Hs. cbn [mbind option_bind] in Hs.
  destruct (emax !! col) as [t|] eqn:Ht; [|done]. rewrite Z.geb_leb in Hs. apply Z.leb_gt in Hs.
  assert (Hlose : whole_wins emax ops col = false).
  { unfold whole_wins. apply not_true_iff_false. rewrite existsb_exists. intros (mop & Hm & Hb).
    rewrite !andb_true_iff, bool_decide_eq_true in Hb. destruct Hb as [[Hc _] Hsv].
    assert (mop = w) by (apply Hw; split; [by apply list_elem_of_In|done]). subst mop.
    unfold whole_survives in Hsv. rewrite Hwc in Hsv. cbn [mbind option_bind] in Hsv. rewrite Ht in Hsv.
    rewrite Z.geb_leb, Z.leb_le in Hsv. lia. }
  set (elements' := List.filter _ elements).
  assert (Hkeep : forall e, e ∈ elements -> merged_op_column (mop_op e) = Some col -> e ∈ elements').
  { intros e He Hc. apply list_elem_of_In, filter_In. split; [by apply list_elem_of_In|].
    rewrite Hc. cbn [from_option]. by rewrite Hlose. }
  destruct (elem_max_ts_reached elements col t) as (e & He & Hec & Het).
  { unfold is_i64, i_range, i64_MIN in *. lia. }
  { done. }
  rewrite Forall_forall in Hown.
  destruct (element_live (active_mfda elements') e) eqn:Hl.
  { exists e. split; [|split; [done|lia]]. apply list_elem_of_In, filter_In.
    split; [by apply list_elem_of_In, Hkeep|done]. }
  pose proof (Hown e He) as Ho. unfold element_live in Hl. destruct (mop_op e) eqn:Eo; try done.
  cbn [merged_op_column] in Hec. injection Hec as ->.
  destruct (active_mfda elements' !! col) as [m|] eqn:Hm; [|done].
  apply active_mfda_reached in Hm as (d & ldt & Hd & Ed).
  assert (Hde : d ∈ elements) by (eapply elem_of_sublist; [exact Hd|apply sublist_filter_bool]).
  exists d. split; [|split; [by rewrite Ed|]].
  { apply list_elem_of_In, filter_In. split; [by apply list_elem_of_In|]. unfold element_live. by rewrite Ed. }
  pose proof (Hown d Hde) as Hod. rewrite Ed in Hod.
  unfold element_survives_complex_deletion in Hl. rewrite Z.gtb_ltb in Hl. apply Z.ltb_ge in Hl. lia.
Qed.

(** C9: A flush keeps, for every column, the newest of the operations nothing covers: the
    last one of greatest time, deletions before writes at the same time, in the order of
    the mutations. It is the column's operation in the row, unless the row writes the
    column by elements and one of them is newer. *)
Theorem flushed_column_newest group schema skip_static_ops shadow_floor column w :
  let floor := group_floor group shadow_floor in
  let candidates := candidates schema skip_static_ops floor column group in
  foldl newest None candidates = Some w -> is_i64 (mop_timestamp_micros w) ->
  (exists l1 l2, candidates = l1 ++ w :: l2 /\ Forall (fun c => op_rank c <= op_rank w) l1 /\
     Forall (fun c => op_rank c < op_rank w) l2) /\
  exists row, merge_row_group group schema skip_static_ops shadow_floor = Some row /\
    ((w ∈ rw_ops row /\ whole_by_col row column = Some w) \/
     (whole_by_col row column = None /\
      exists e, e ∈ rw_complex_element_ops row /\ element_column (mop_op e) = Some column /\
                mop_timestamp_micros w < mop_timestamp_micros e)).
Proof.
  intros floor cands Hw Hi. split.
  { apply newest_spec in Hw as [[? _]|(l1 & l2 & E & H1 & H2 & _)]; [done|]. by exists l1, l2. }
  unfold merge_row_group. fold floor. change (max_floor _ shadow_floor) with floor.
  set (g := foldl _ rg_empty group).
  assert (Hg : rg_cells g !! column = Some w) by (unfold g; by rewrite group_cells).
  assert (Hcell : forall col mop, rg_cells g !! col = Some mop -> whole_column (mop_op mop) = Some col).
  { intros col mop Hl. apply group_cell in Hl as (m & op & _ & _ & -> & Hc). by apply cell_op_facts in Hc as (? & _). }
  set (elements0 := List.filter _ (rg_elements g)).
  destruct (reconcile_streams _ elements0 _) as [[ops elements] whole] eqn:Er.
  destruct (reconcile_streams_sub _ _ _ _ _ _ Er) as (Hops & _).
  destruct (elements_win _ _ _ _ _ _ w column Er) as [Hin|[Hout (e & He & Hec & Het)]]; [|done| | |].
  - intros mop. rewrite <- (cells_newest (rg_cells g) column w Hcell Hg mop).
    split; intros [Hm Hc]; (split; [done|]); [|by apply whole_merged].
    apply hash_values_elem in Hm as [k Hk]. pose proof (whole_merged _ _ (Hcell k mop Hk)) as E.
    rewrite (Hcell k mop Hk). congruence.
  - apply Forall_forall. intros e He. apply list_elem_of_In, filter_In in He as [He _]. apply list_elem_of_In in He.
    pose proof (gi_elements _ _ _ (group_invariant schema skip_static_ops floor group)) as Hel.
    rewrite Forall_forall in Hel. destruct (Hel e He) as (m & op & _ & _ & Heo).
    destruct op; cbn in Heo; try done; by injection Heo as <-.
  - assert (Hne : is_empty ops = false) by (destruct ops; [by apply elem_of_nil in Hin|done]).
    rewrite Hne. cbn [andb]. eexists. split; [reflexivity|]. left. split; [done|].
    apply whole_by_col_spec; [|split; [done|by apply Hcell]].
    unfold op_columns. cbn [rw_ops]. eapply sublist_NoDup; [|by apply sublist_map, Hops].
    by apply cell_columns.
  - assert (Hne : is_empty (List.filter (element_live (active_mfda elements)) elements) = false)
      by (destruct (List.filter _ elements); [by apply elem_of_nil in He|done]).
    rewrite Hne, andb_false_r. cbn [andb]. eexists. split; [reflexivity|]. right. split.
    + destruct (whole_by_col _ column) as [mop|] eqn:Hb; [|done]. exfalso. apply Hout.
      unfold whole_by_col in Hb. cbn [rw_ops] in Hb. apply find_some in Hb as [Hm Hc].
      apply in_rev, list_elem_of_In in Hm. apply bool_decide_eq_true in Hc.
      assert (mop = w) as <-; [|done]. apply (cells_newest (rg_cells g) column w Hcell Hg).
      split; [|done]. by eapply elem_of_sublist.
    + exists e. split; [done|]. split; [|done].
      assert (He0 : e ∈ elements0).
      { apply list_elem_of_In, filter_In in He as [He _]. eapply elem_of_sublist; [by apply list_elem_of_In|].
        by apply (reconcile_streams_sub _ _ _ _ _ _ Er). }
      apply list_elem_of_In, filter_In in He0 as [He0 _]. apply list_elem_of_In in He0.
      pose proof (gi_elements _ _ _ (group_invariant schema skip_static_ops floor group)) as Hel.
      rewrite Forall_forall in Hel. destruct (Hel e He0) as (m & op & _ & _ & Heo).
      destruct op; cbn in Heo; try done; by injection Heo as <-.
Qed.
End Row.

(** ** A concrete group *)

#[local] Open Scope string_scope.
#[local] Open Scope list_scope.

Definition group_mutation (ops : list CellOperation) (ts : Z) (ttl : option Z) : Mutation :=
  mkMutation (mkTableId "ks" "t") [] (Some [("c", Text [120])]) ops ts ttl None [] None None None.

(** A deletion of the row, a write it covers, a newer write, and a deletion of the column
    at the same time as the write. *)
Definition sample_group : list Mutation :=
  [group_mutation [Write "v" (Integer 1)] 2000000 None; group_mutation [DeleteRow] 3000000 None;
   group_mutation [Write "v" (Integer 2); Write "a" (Text [97])] 4000000 None;
   group_mutation [Delete "v" None] 4000000 None; group_mutation [Write "v" (Integer 3)] 4000000 None].

Lemma flushed_row_reconciled_witness :
  let HO := listed_order in
  exists row, merge_row_group sample_group rows_schema false (Some 1000000) = Some row /\
    rw_row_deletion row = Some (3000000, 3) /\
    Forall (fun mop => shadowed (Some 3000000) (mop_timestamp_micros mop) = false)
      (rw_ops row ++ rw_complex_element_ops row).
Proof.
  intros HO. destruct (merge_row_group sample_group rows_schema false (Some 1000000)) as [row|] eqn:E; [|by vm_compute in E].
  exists row. split; [done|]. destruct (flushed_row_reconciled _ _ _ _ _ E) as (_ & _ & H & _).
  assert (Hd : rw_row_deletion row = Some (3000000, 3)) by (vm_compute in E; injection E as <-; done).
  split; [done|]. rewrite Hd in H. exact H.
Defined.

Lemma flushed_column_newest_witness :
  let HO := listed_order in
  exists row, merge_row_group sample_group rows_schema false None = Some row /\
    (fun mop => mop_op mop) <$> whole_by_col row "v" = Some (Delete "v" None).
Proof.
  intros HO.
  destruct (flushed_column_newest sample_group rows_schema false None "v" (mkMergedOp (Delete "v" None) 4000000 None 4))
    as [_ (row & Hr & [[_ H]|[H _]])].
  - vm_compute. reflexivity.
  - split; by vm_compute.
  - exists row. split; [done|]. by rewrite H.
  - vm_compute in Hr. injection Hr as <-. vm_compute in H. done.
Defined.

(** The TTL of a row depends on the order in which a hash map lists its columns: two
    columns written at the same time, one with a TTL and one without, make a row that
    expires or one that does not. *)
Definition reversed_order : HashOrder :=
  {| hash_values A m := rev (map_to_list m).*2;
     hash_values_perm A m := Permutation_sym (Permutation_rev (map_to_list m).*2) |}.

Example row_ttl_by_hash_order :
  let group := [group_mutation [Write "v" (Integer 1)] 4000000 (Some 60); group_mutation [Write "a" (Text [97])] 4000000 None] in
  let ttl HO := rw_ttl_seconds <$> @merge_row_group HO group rows_schema false None in
  (ttl listed_order = Some None /\ ttl reversed_order = Some (Some 60)) \/
  (ttl listed_order = Some (Some 60) /\ ttl reversed_order = Some None).
Proof. first [left; split; vm_compute; reflexivity|right; split; vm_compute; reflexivity]. Qed.
