(* ===== verification/StaticRows.v ===== *)
(** The static row of a partition: the running winners of the static columns
    ([data_writer/static_ops.rs], [collect_static_operations] of [encoding.rs]) and the row
    that holds them ([static_rows.rs], [write_empty_static_row] of [partition.rs]). *)

From S2P Require Import Prelude Values VInt Keys Mutation Stats Cells Columns Rows Items RowGroup.

Open Scope Z_scope.

Record StaticMergedOp := mkStaticMergedOp {
  smo_op : CellOperation;
  smo_timestamp_micros : Z;
  smo_cell_local_deletion_time : Z;
  smo_row_ttl_seconds : option Z;
}.

(** [StaticOpsTracker]: by column. *)
Definition StaticOpsTracker : Type := gmap string StaticMergedOp.

Definition static_merged_op (m : Mutation) (op : CellOperation) : StaticMergedOp :=
  mkStaticMergedOp op (op_cell_write_timestamp op m) (op_cell_local_deletion_time op m) (m_ttl_seconds m).

(** The later one wins at the same time. *)
Definition offer_static (column : string) (candidate : StaticMergedOp) (best : StaticOpsTracker) :
    StaticOpsTracker :=
  match best !! column with
  | Some existing =>
      if smo_timestamp_micros candidate >=? smo_timestamp_micros existing
      then <[column := candidate]> best else best
  | None => <[column := candidate]> best
  end.

Definition tracker_op (schema : TableSchema) (shadow_floor : option Z) (m : Mutation)
    (best : StaticOpsTracker) (op : CellOperation) : StaticOpsTracker :=
  if negb (is_static_operation op schema) then best
  else
    match whole_column op with
    | None => best
    | Some column =>
        if shadowed shadow_floor (op_cell_write_timestamp op m) then best
        else offer_static column (static_merged_op m op) best
    end.

Definition tracker_feed (schema : TableSchema) (shadow_floor : option Z) (best : StaticOpsTracker)
    (m : Mutation) : StaticOpsTracker :=
  if shadowed shadow_floor (m_timestamp_micros m) then best
  else foldl (tracker_op schema shadow_floor m) best (m_operations m).

(** [max_by_key] keeps the last of the greatest. *)
Definition static_liveness_from_ops (ops : list StaticMergedOp) : option (Z * option Z) :=
  foldl (fun acc op => newest_liveness acc (smo_timestamp_micros op, smo_row_ttl_seconds op)) None ops.

Section Collect.
Context `{HashOrder}.

Definition collect_static_operations (mutations : list Mutation) (schema : TableSchema)
    (shadow_floor : option Z) : list StaticMergedOp :=
  hash_values (foldl (tracker_feed schema shadow_floor) (∅ : StaticOpsTracker) mutations).
End Collect.

(** ** The row *)

(** The static columns, in order. *)
Definition static_columns (schema : TableSchema) : list Column :=
  omap (fun idx => columns schema !! idx) (oc_static (build_ordered_cols schema)).

Definition is_static_column_name (schema : TableSchema) (name : string) : bool :=
  existsb (fun c => col_is_static c && bool_decide (col_name c = name)) (columns schema).

Definition usize_MAX : Z := 2 ^ 64 - 1.

Definition static_order (schema : TableSchema) (op : CellOperation) : Z :=
  match merged_op_column op with
  | Some column => from_option Z.of_nat (usize_MAX - 1) (position column (static_columns schema))
  | None => usize_MAX
  end.

Definition sorted_static_ops (ops : list StaticMergedOp) (schema : TableSchema) : list StaticMergedOp :=
  sort_by (fun a b => static_order schema (smo_op a) ?= static_order schema (smo_op b)) ops.

Definition static_row_flags (static_ops : list StaticMergedOp) (schema : TableSchema) : Z :=
  let ops := map smo_op static_ops in
  let is_row_tombstone := existsb is_delete_row ops in
  let flags := set_flag is_row_tombstone ROW_HAS_DELETION ROW_HAS_EXTENDED_FLAGS in
  if negb is_row_tombstone
  then set_flag (forallb is_write ops && negb (existsb is_null_write ops)
                 && (length ops =? length (List.filter col_is_static (columns schema)))%nat)
         ROW_HAS_ALL_COLUMNS flags
  else flags.

Section Writer.
Context `{ValueSerializer} `{ComplexWriter}.

Definition write_static_column_bitmap (buf : list Z) (static_ops : list StaticMergedOp)
    (schema : TableSchema) : list Z :=
  write_column_subset buf (map col_name (static_columns schema))
    (fun name => existsb (fun op => bool_decide (present_column (smo_op op) = Some name)) static_ops).

Definition canonicalize_static_value (schema : TableSchema) (column : string) (value : Value) :
    result Error Value :=
  match List.find (fun c => bool_decide (col_name c = column)) (columns schema) with
  | Some col => canonicalize_udt_value (col_data_type col) value
  | None => Ok value
  end.

(** One static cell, if the operation writes one. *)
Definition write_static_cell (b : EncodingStatsBaselines) (schema : TableSchema) (now_seconds : Z)
    (buf : list Z) (mop : StaticMergedOp) : result Error (list Z * Z) :=
  match smo_op mop with
  | Write column value =>
      if is_static_column_name schema column && negb (is_null value) then
        value ← canonicalize_static_value schema column value;
        buf ← match smo_row_ttl_seconds mop with
              | Some ttl => write_cell_with_ttl b buf value (smo_timestamp_micros mop) ttl None now_seconds
              | None => write_cell_explicit_ts b buf value (smo_timestamp_micros mop)
              end;
        Ok (buf, 1)
      else Ok (buf, 0)
  | WriteWithTtl column value ttl_seconds local_deletion_time =>
      if is_static_column_name schema column && negb (is_null value) then
        value ← canonicalize_static_value schema column value;
        buf ← write_cell_with_ttl b buf value (smo_timestamp_micros mop) ttl_seconds
                local_deletion_time now_seconds;
        Ok (buf, 1)
      else Ok (buf, 0)
  | Delete column _ =>
      if is_static_column_name schema column then
        buf ← write_tombstone_cell b buf (smo_timestamp_micros mop) (smo_cell_local_deletion_time mop);
        Ok (buf, 1)
      else Ok (buf, 0)
  | DeleteRow | WriteComplexElement _ _ _ _ _ _ _ | OpComplexDeletion _ _ _ => Ok (buf, 0)
  end.

Fixpoint write_static_ops (b : EncodingStatsBaselines) (schema : TableSchema) (now_seconds : Z)
    (ops : list StaticMergedOp) (buf : list Z) (cells_written : Z) : result Error (list Z * Z) :=
  match ops with
  | [] => Ok (buf, cells_written)
  | mop :: ops =>
      '(buf, n) ← write_static_cell b schema now_seconds buf mop;
      write_static_ops b schema now_seconds ops buf (cells_written + n)
  end.

Definition write_static_cells (b : EncodingStatsBaselines) (buf : list Z)
    (static_ops : list StaticMergedOp) (schema : TableSchema) (now_seconds : Z) :
    result Error (list Z * Z) :=
  write_static_ops b schema now_seconds (sorted_static_ops static_ops schema) buf 0.

(** The flags carry neither a timestamp nor a TTL. *)
Definition build_static_row_body (b : EncodingStatsBaselines) (static_ops : list StaticMergedOp)
    (liveness_ts : Z) (ttl_seconds : option Z) (schema : TableSchema) (flags now_seconds : Z) :
    result Error (list Z * Z) :=
  let body := if has_flag flags ROW_HAS_TIMESTAMP
              then encode_unsigned (timestamp_delta b liveness_ts) [] else [] in
  body ← match has_flag flags ROW_HAS_TTL, ttl_seconds with
         | true, Some ttl =>
             body ← write_delta ttl (enc_min_ttl b) body;
             write_delta (expiring_ldt now_seconds ttl) (enc_min_local_deletion_time b) body
         | _, _ => Ok body
         end;
  if has_flag flags ROW_HAS_DELETION then
    let deletion := match List.find (fun mop => is_delete_row (smo_op mop)) static_ops with
                    | Some mop => (smo_timestamp_micros mop, smo_cell_local_deletion_time mop)
                    | None => (liveness_ts, as_i32 (Z.quot liveness_ts 1000000))
                    end in
    body ← write_row_deletion b deletion body;
    Ok (if negb (has_flag flags ROW_HAS_ALL_COLUMNS)
        then write_column_subset body (map col_name (static_columns schema)) (fun _ => false)
        else body, 0)
  else
    let body := if negb (has_flag flags ROW_HAS_ALL_COLUMNS)
                then write_static_column_bitmap body static_ops schema else body in
    write_static_cells b body static_ops schema now_seconds.

(** The buffer with the row behind it, and the number of its cells. *)
Definition write_static_row_with_prev_size (b : EncodingStatsBaselines) (buffer : list Z)
    (static_ops : list StaticMergedOp) (liveness_ts : Z) (ttl_seconds : option Z) (schema : TableSchema)
    (prev_size now_seconds : Z) : result Error (list Z * Z) :=
  let flags := static_row_flags static_ops schema in
  '(row_scratch, cells_written) ←
    build_static_row_body b static_ops liveness_ts ttl_seconds schema flags now_seconds;
  let row_body_size := unsigned_len prev_size + zlen row_scratch in
  Ok (encode_unsigned prev_size
        (encode_unsigned row_body_size (buffer ++ [flags; EXTENDED_IS_STATIC])) ++ row_scratch,
      cells_written).

(** The row of one mutation ([write_static_row]). *)
Definition write_static_row (b : EncodingStatsBaselines) (buffer : list Z) (m : Mutation)
    (schema : TableSchema) (now_seconds : Z) : result Error (list Z) :=
  '(buffer, _) ← write_static_row_with_prev_size b buffer (map (static_merged_op m) (m_operations m))
                   (m_timestamp_micros m) (m_ttl_seconds m) schema 0 now_seconds;
  Ok buffer.

Definition write_empty_static_row (buffer : list Z) (prev_size : Z) (schema : TableSchema) : list Z :=
  let body := write_column_subset [] (map col_name (static_columns schema)) (fun _ => false) in
  let row_body_size := unsigned_len prev_size + zlen body in
  encode_unsigned prev_size
    (encode_unsigned row_body_size (buffer ++ [ROW_HAS_EXTENDED_FLAGS; EXTENDED_IS_STATIC])) ++ body.
End Writer.
