(* ===== verification/CompactionRows.v ===== *)
(** The rows compaction reads and what the merge makes of them: [CompactionRow] of
    [sstable/reader/compaction_row.rs], [build_compaction_row_data] and the row timestamp
    of [row_decoder/compaction.rs] and [partition_driver.rs], and the conversion to merge
    entries of [merge/producer_iter_convert.rs]. *)

From S2P Require Import Prelude Values Keys MergeModel Mutation Cells Columns Rows.

Open Scope Z_scope.

(** ** The carrier *)

Inductive CompactionBound :=
| CInclusive (columns : list (string * Value))
| CExclusive (columns : list (string * Value))
| CBottom
| CTop.

Record SimpleCell := mkSimpleCell {
  sc_column : string;
  sc_value : Value;
  sc_timestamp : Z;
  sc_ttl : option Z;
  sc_local_deletion_time : option Z;
}.

Record ComplexColumn := mkComplexColumn {
  cc_column : string;
  cc_complex_deletion : option (Z * Z);
  cc_elements : list ComplexElement;
  cc_collapsed_value : Value;
}.

Inductive CompactionRowData :=
| CRangeMarker (start stop : CompactionBound) (deletion_time local_deletion_time : Z)
| CPartitionDelete (deletion_time local_deletion_time : Z)
| CTombstone (deletion_time local_deletion_time : Z) (clustering : list (string * Value))
| CLive (simple : list SimpleCell) (complex : list ComplexColumn) (row_deletion : option (Z * Z))
    (row_liveness : RowLiveness).

Record CompactionRow := mkCompactionRow {
  cr_key : list Z;
  cr_row_timestamp : Z;
  cr_row_data : CompactionRowData;
}.

(** ** From a parsed row *)

Definition is_row_tombstone (h : RowHeader) : bool := is_some (rh_local_deletion_time h).

Definition saturating_mul_i64 (a b : Z) : Z := Z.max i64_MIN (Z.min i64_MAX (a * b)).

Definition row_tombstone_deletion_time (h : RowHeader) : Z :=
  match rh_marked_for_delete_at h with
  | Some ts => ts
  | None => from_option (fun s => saturating_mul_i64 s 1000000) 0 (rh_local_deletion_time h)
  end.

Definition header_liveness (h : RowHeader) : RowLiveness :=
  mkRowLiveness (is_some (rh_timestamp h)) (rh_liveness_expires_at_seconds h) (rh_timestamp h).

(** The liveness timestamp, else the time of the deletion. *)
Definition row_write_timestamp (h : RowHeader) : Z :=
  match rh_timestamp h with
  | Some t => t
  | None => if is_row_tombstone h then row_tombstone_deletion_time h else 0
  end.

(** [a.column.cmp(&b.column)] *)
Definition by_name {A} (name : A -> string) (a b : A) : comparison := String.compare (name a) (name b).

Definition simple_cell (cell_meta : option (gmap string CellWriteMetadata)) (row_ts : Z)
    (cell : string * Value) : SimpleCell :=
  match cell_meta ≫= (fun m => m !! cell.1) with
  | Some meta =>
      mkSimpleCell cell.1 cell.2 (cwm_write_timestamp_micros meta)
        ((fun e => as_u32 (ce_ttl_seconds e)) <$> cwm_expiration meta)
        ((fun e => as_i32 (as_u32 (ce_expires_at_seconds e))) <$> cwm_expiration meta)
  | None => mkSimpleCell cell.1 cell.2 row_ts None None
  end.

Definition in_primary_key (schema : TableSchema) (name : string) : bool :=
  is_partition_key schema name || is_clustering_key schema name.

(** A column's value among the cells, one for each clustering column or none at all. *)
Fixpoint clustering_pairs (keys : list ClusteringColumn) (find : string -> option Value) :
    option (list (string * Value)) :=
  match keys with
  | [] => Some []
  | ck :: keys =>
      v ← find (cc_name ck);
      rest ← clustering_pairs keys find;
      Some ((cc_name ck, v) :: rest)
  end.

Definition find_simple (simple : list SimpleCell) (name : string) : option Value :=
  sc_value <$> List.find (fun c => bool_decide (sc_column c = name)) simple.

Definition build_compaction_row_data (cells : list (string * Value))
    (cell_meta : option (gmap string CellWriteMetadata)) (complex : CompactionComplexColumns)
    (h : RowHeader) (row_ts : Z) (schema : TableSchema) : CompactionRowData :=
  let row_deletion := if is_row_tombstone h
                      then Some (row_tombstone_deletion_time h, default 0 (rh_local_deletion_time h))
                      else None in
  let complex_cols :=
    sort_by (by_name cc_column)
      (map (fun '(column, (complex_deletion, elements, value)) =>
              mkComplexColumn column complex_deletion elements value) (map_to_list complex)) in
  let simple_cells :=
    sort_by (by_name sc_column)
      (map (simple_cell cell_meta row_ts)
         (List.filter (fun c => negb (existsb (fun cx => bool_decide (cc_column cx = c.1)) complex_cols)) cells)) in
  let live := CLive simple_cells complex_cols row_deletion (header_liveness h) in
  match row_deletion with
  | Some (deletion_time, ldt) =>
      let has_simple_data := existsb (fun c => negb (in_primary_key schema (sc_column c))) simple_cells in
      let has_complex_data :=
        existsb (fun c => negb (is_empty (cc_elements c)) || is_some (cc_complex_deletion c)) complex_cols in
      if negb has_simple_data && negb has_complex_data
      then CTombstone deletion_time ldt
             (default [] (clustering_pairs (clustering_keys schema) (find_simple simple_cells)))
      else live
  | None => live
  end.

(** ** To merge entries *)

Definition compaction_bound_to_mutation (bound : CompactionBound) : ClusteringBound :=
  match bound with
  | CInclusive columns => Inclusive columns
  | CExclusive columns => Exclusive columns
  | CBottom => Bottom
  | CTop => Top
  end.

Definition find_pair (columns : list (string * Value)) (name : string) : option Value :=
  snd <$> List.find (fun c => bool_decide (c.1 = name)) columns.

Definition extract_clustering_key_from_compaction (row_data : CompactionRowData) (schema : TableSchema) :
    option ClusteringKey :=
  if is_empty (clustering_keys schema) then None
  else
    match row_data with
    | CLive simple _ _ _ => clustering_pairs (clustering_keys schema) (find_simple simple)
    | CTombstone _ _ clustering =>
        if is_empty clustering then None
        else clustering_pairs (clustering_keys schema) (find_pair clustering)
    | CRangeMarker _ _ _ _ | CPartitionDelete _ _ => None
    end.

Definition simple_to_cell (c : SimpleCell) : CellData :=
  mkCellData (sc_column c) (sc_value c) (sc_timestamp c) (sc_ttl c) None (sc_local_deletion_time c)
    false false false.

Definition element_to_cell (column : string) (e : ComplexElement) : CellData :=
  mkCellData column
    (if ce_is_deleted e
     then Tombstone (mkTombstoneInfo (ce_timestamp e) CellTombstone
                       (default 0 (ce_local_deletion_time e)) None None None)
     else default Null (ce_value e))
    (ce_timestamp e) (ce_ttl e) (Some (ce_cell_path e)) (ce_local_deletion_time e) true
    (ce_is_deleted e) (ce_has_empty_value e).

Definition compaction_row_data_to_row_data (row_data : CompactionRowData) :
    RowData * list ComplexDeletion * option (Z * Z) * RowLiveness :=
  match row_data with
  | CTombstone deletion_time ldt _ => (RTombstone deletion_time ldt, [], None, liveness_default)
  | CLive simple complex row_deletion row_liveness =>
      (Live (map simple_to_cell simple
             ++ flat_map (fun col => map (element_to_cell (cc_column col)) (cc_elements col)) complex),
       omap (fun col => (fun '(mfda, ldt) => mkComplexDeletion (cc_column col) mfda ldt)
                          <$> cc_complex_deletion col) complex,
       row_deletion, row_liveness)
  | CRangeMarker _ _ _ _ | CPartitionDelete _ _ => (Live [], [], None, liveness_default)
  end.

Definition build_merge_entry (run_index : Z) (row : CompactionRow) (schema : TableSchema) : MergeEntry :=
  let decorated_key := from_key_bytes (cr_key row) in
  match cr_row_data row with
  | CPartitionDelete deletion_time ldt =>
      with_partition_deletion
        (entry_new run_index decorated_key None deletion_time (RTombstone deletion_time ldt))
        (deletion_time, ldt)
  | CRangeMarker start stop deletion_time ldt =>
      with_range_deletion (entry_new run_index decorated_key None deletion_time (Live []))
        (mkRangeTombstone (compaction_bound_to_mutation start) (compaction_bound_to_mutation stop)
           deletion_time ldt)
  | row_data =>
      let clustering_key := extract_clustering_key_from_compaction row_data schema in
      let '(rd, complex_deletions, row_deletion, row_liveness) :=
        compaction_row_data_to_row_data row_data in
      let entry := with_row_liveness
                     (entry_new run_index decorated_key clustering_key (cr_row_timestamp row) rd)
                     row_liveness in
      let entry := if is_empty complex_deletions then entry
                   else with_complex_deletions entry complex_deletions in
      match row_deletion with
      | Some (deletion_time, ldt) => with_row_deletion entry deletion_time ldt
      | None => entry
      end
  end.
