(* ===== verification/RowImage.v ===== *)
(** What compaction makes of a row that was written: the row [build_compaction_row_data]
    builds from the parse of its bytes, stated on the row itself. *)

From S2P Require Import Prelude Values VInt Keys MergeModel Mutation Stats Cells CellProps Columns Rows RowProps CompactionRows.

Open Scope Z_scope.

(** ** Sorting by name *)

Lemma insert_by_name_perm {A} (name : A -> string) l : sort_by (by_name name) l ≡ₚ l.
Proof. apply sort_by_perm. Qed.

(** Finding by name does not depend on the order of distinct names. *)
Lemma found_by_name {A} (name : A -> string) l x :
  NoDup (map name l) -> x ∈ l -> List.find (fun c => bool_decide (name c = name x)) l = Some x.
Proof.
  intros Hn Hx. destruct (List.find _ l) as [y|] eqn:E.
  - apply find_some in E as [Hy Hb]. apply bool_decide_eq_true in Hb. apply list_elem_of_In in Hy. f_equal.
    apply list_elem_of_lookup in Hx as [i Hi], Hy as [j Hj].
    assert (i = j); [|by simplify_eq]. eapply NoDup_lookup; [exact Hn| |].
    + by rewrite list_lookup_fmap, Hi.
    + rewrite list_lookup_fmap, Hj. cbn. by rewrite Hb.
  - apply list_elem_of_In in Hx. apply (find_none _ _ E) in Hx. by rewrite bool_decide_true in Hx.
Qed.

Lemma find_sorted {A} (name : A -> string) l x :
  NoDup (map name l) -> x ∈ l ->
  List.find (fun c => bool_decide (name c = name x)) (sort_by (by_name name) l) = Some x.
Proof.
  intros Hn Hx. apply found_by_name.
  - by rewrite insert_by_name_perm.
  - by rewrite insert_by_name_perm.
Qed.

Lemma existsb_permuted {A} (f : A -> bool) l1 l2 : l1 ≡ₚ l2 -> existsb f l1 = existsb f l2.
Proof.
  intros H. apply eq_true_iff_eq. rewrite !existsb_exists.
  split; intros (x & Hx & Hf); exists x; (split; [|done]); apply list_elem_of_In; apply list_elem_of_In in Hx;
    [by rewrite <- H|by rewrite H].
Qed.

(** ** The image of a row *)

Section Image.
Context (schema : TableSchema) (now : Z).

Local Abbreviation cols := (regular schema).

Definition exp_ttl (e : CellExpiration) : Z := as_u32 (ce_ttl_seconds e).
Definition exp_ldt (e : CellExpiration) : Z := as_i32 (as_u32 (ce_expires_at_seconds e)).

(** The cell of a column: its operation's time, TTL and expiry. *)
Definition image_cell (row : RowWrite) (c : Column) : option SimpleCell :=
  mop ← whole_by_col row (col_name c);
  v ← op_value mop;
  Some (mkSimpleCell (col_name c) v (mop_timestamp_micros mop) (exp_ttl <$> op_expiration now mop)
          (exp_ldt <$> op_expiration now mop)).

Definition data_cells (row : RowWrite) : list SimpleCell := omap (image_cell row) cols.

Definition image_timestamp (row : RowWrite) : Z :=
  match rw_liveness_ts row with
  | Some t => t
  | None => from_option fst 0 (rw_row_deletion row)
  end.

(** The clustering columns surface as cells at the row's time. *)
Definition key_cells (row : RowWrite) : list SimpleCell :=
  map (fun c => mkSimpleCell c.1 c.2 (image_timestamp row) None None) (clustering_cells schema row).

Definition image_cells (row : RowWrite) : list SimpleCell :=
  sort_by (by_name sc_column) (key_cells row ++ data_cells row).

Definition image_liveness (row : RowWrite) : RowLiveness :=
  mkRowLiveness (is_some (rw_liveness_ts row)) (expiring_ldt now <$> rw_ttl_seconds row) (rw_liveness_ts row).

(** A deleted row without cells is a tombstone, whatever its liveness. *)
Definition image_data (row : RowWrite) : CompactionRowData :=
  match rw_row_deletion row with
  | Some (deletion_time, ldt) =>
      if is_empty (data_cells row) then CTombstone deletion_time ldt (clustering_cells schema row)
      else CLive (image_cells row) [] (Some (deletion_time, ldt)) (image_liveness row)
  | None => CLive (image_cells row) [] None (image_liveness row)
  end.

Definition row_image (key : list Z) (row : RowWrite) : CompactionRow :=
  mkCompactionRow key (image_timestamp row) (image_data row).

(** ** It is what compaction builds *)

Lemma regular_in_schema c : c ∈ cols -> is_regular schema c = true.
Proof.
  unfold regular. rewrite regular_columns_perm. rewrite list_elem_of_In, filter_In. by intros [_ ?].
Qed.

Lemma regular_not_key c : c ∈ cols -> in_primary_key schema (col_name c) = false.
Proof.
  intros H. apply regular_in_schema in H. unfold is_regular in H. unfold in_primary_key.
  rewrite !andb_true_iff, !negb_true_iff in H. destruct H as ((_ & ->) & ->). done.
Qed.

Lemma clustering_name c : c ∈ map cc_name (clustering_keys schema) -> in_primary_key schema c = true.
Proof.
  intros H. unfold in_primary_key. apply orb_true_iff. right. unfold is_clustering_key. apply existsb_exists.
  apply list_elem_of_fmap in H as (k & -> & Hk). exists k. split; [by apply list_elem_of_In|by apply bool_decide_true].
Qed.

(** The metadata of a column is the one of its operation; other names have none. *)
Lemma row_meta_lookup row l : forall m name,
  NoDup (map col_name l) ->
  foldl (column_meta row now) m l !! name
  = match List.find (fun c => bool_decide (col_name c = name)) l with
    | Some c => match whole_by_col row (col_name c) with
                | Some mop => if is_some (op_value mop) then Some (op_meta now mop) else m !! name
                | None => m !! name
                end
    | None => m !! name
    end.
Proof.
  induction l as [|c l IH]; intros m name Hn; [done|]. apply NoDup_cons in Hn as [Hc Hn]. cbn [foldl List.find].
  rewrite IH by done. destruct (bool_decide_reflect (col_name c = name)) as [<-|Hne].
  - destruct (List.find _ l) as [d|] eqn:E.
    { apply find_some in E as [Hd Hb]. apply bool_decide_eq_true in Hb. destruct Hc. rewrite <- Hb.
      apply list_elem_of_fmap_2. by apply list_elem_of_In. }
    unfold column_meta. destruct (whole_by_col row (col_name c)) as [mop|]; [|done].
    destruct (is_some (op_value mop)); [by rewrite lookup_insert_eq|done].
  - assert (E : column_meta row now m c !! name = m !! name).
    { unfold column_meta. destruct (whole_by_col row (col_name c)) as [mop|]; [|done].
      destruct (is_some (op_value mop)); [by rewrite lookup_insert_ne|done]. }
    by rewrite E.
Qed.

Lemma row_meta_other row name :
  NoDup (map col_name cols) -> in_primary_key schema name = true -> row_meta row now cols !! name = None.
Proof.
  intros Hn Hk. unfold row_meta. rewrite row_meta_lookup by done.
  destruct (List.find _ cols) as [c|] eqn:E; [|done].
  apply find_some in E as [Hc Hb]. apply bool_decide_eq_true in Hb. subst name.
  apply list_elem_of_In, regular_not_key in Hc. congruence.
Qed.

Lemma row_meta_column row c :
  NoDup (map col_name cols) -> c ∈ cols ->
  row_meta row now cols !! col_name c
  = mop ← whole_by_col row (col_name c); if is_some (op_value mop) then Some (op_meta now mop) else None.
Proof.
  intros Hn Hc. unfold row_meta. rewrite row_meta_lookup by done. rewrite (found_by_name col_name) by done.
  by destruct (whole_by_col row (col_name c)) as [mop|].
Qed.

Lemma simple_data row row_ts :
  NoDup (map col_name cols) ->
  map (simple_cell (Some (row_meta row now cols)) row_ts) (row_cells row cols) = data_cells row.
Proof.
  intros Hn. unfold row_cells, data_cells.
  assert (H : forall l, (forall c, c ∈ l -> c ∈ cols) ->
    map (simple_cell (Some (row_meta row now cols)) row_ts)
      (omap (fun c => pair (col_name c) <$> column_value row c) l) = omap (image_cell row) l).
  { induction l as [|c l IH]; intros Hl; [done|]. cbn [omap list_omap].
    assert (Hc : c ∈ cols) by (apply Hl, list_elem_of_here).
    assert (IHl := IH (fun d Hd => Hl d (list_elem_of_further _ _ _ Hd))).
    unfold column_value at 1. unfold image_cell at 1. pose proof (row_meta_column row c Hn Hc) as Hm.
    destruct (whole_by_col row (col_name c)) as [mop|]; cbn [mbind option_bind fmap option_fmap option_map] in *; [|done].
    destruct (op_value mop) as [v|]; cbn [mbind option_bind fmap option_fmap option_map is_some] in *; [|done].
    cbn [map]. rewrite IHl. f_equal. unfold simple_cell. cbn [fst snd mbind option_bind]. rewrite Hm.
    done. }
  by apply H.
Qed.

Lemma clustering_cells_names row :
  length (clustering_values_of (rw_clustering_key row)) = length (clustering_keys schema) ->
  map fst (clustering_cells schema row) = map cc_name (clustering_keys schema).
Proof.
  intros H. unfold clustering_cells. rewrite <- (length_map cc_name) in H. revert H.
  generalize (map cc_name (clustering_keys schema)). intros names.
  generalize (clustering_values_of (rw_clustering_key row)). induction names as [|n names IH]; intros [|v vs] H; try done.
  cbn. f_equal. apply IH. by injection H.
Qed.

Lemma simple_keys row :
  NoDup (map col_name cols) ->
  length (clustering_values_of (rw_clustering_key row)) = length (clustering_keys schema) ->
  map (simple_cell (Some (row_meta row now cols)) (image_timestamp row)) (clustering_cells schema row) = key_cells row.
Proof.
  intros Hn Hl. apply map_ext_in. intros [name v] Hi. unfold simple_cell. cbn [fst snd mbind option_bind].
  rewrite row_meta_other; [done|done|]. apply clustering_name. rewrite <- (clustering_cells_names row Hl).
  change name with (fst (name, v)). by apply list_elem_of_fmap_2, list_elem_of_In.
Qed.

Lemma key_names row :
  length (clustering_values_of (rw_clustering_key row)) = length (clustering_keys schema) ->
  map sc_column (key_cells row) = map cc_name (clustering_keys schema).
Proof. intros H. unfold key_cells. rewrite map_map. cbn [sc_column]. by apply clustering_cells_names. Qed.

Lemma data_names row c : c ∈ data_cells row -> in_primary_key schema (sc_column c) = false.
Proof.
  intros H. apply list_elem_of_omap in H as (col & Hc & Hi). unfold image_cell in Hi.
  destruct (whole_by_col row (col_name col)) as [mop|]; [|done].
  cbn in Hi. destruct (op_value mop); [|done]. cbn in Hi. injection Hi as <-. by apply regular_not_key.
Qed.

(** Only data cells lie outside the primary key. *)
Lemma image_has_data row :
  length (clustering_values_of (rw_clustering_key row)) = length (clustering_keys schema) ->
  existsb (fun c => negb (in_primary_key schema (sc_column c))) (image_cells row) = negb (is_empty (data_cells row)).
Proof.
  intros Hl. unfold image_cells. rewrite (existsb_permuted _ _ _ (insert_by_name_perm _ _)), existsb_app.
  assert (Hk : existsb (fun c => negb (in_primary_key schema (sc_column c))) (key_cells row) = false).
  { apply not_true_iff_false. rewrite existsb_exists. intros (c & Hc & Hb). apply negb_true_iff in Hb.
    rewrite clustering_name in Hb; [done|]. rewrite <- (key_names row Hl).
    by apply list_elem_of_fmap_2, list_elem_of_In. }
  rewrite Hk. cbn [orb]. pose proof (data_names row) as Hd.
  destruct (data_cells row) as [|c cells]; [done|]. cbn [existsb is_empty].
  by rewrite (Hd c (list_elem_of_here _ _)).
Qed.

Lemma data_cells_nodup row : NoDup (map col_name cols) -> NoDup (map sc_column (data_cells row)).
Proof.
  unfold data_cells. generalize cols. intros l. induction l as [|c l IH]; intros Hn; [constructor|].
  apply NoDup_cons in Hn as [Hc Hn]. cbn [omap list_omap].
  destruct (image_cell row c) as [sc|] eqn:E; [|by apply IH]. cbn [map]. apply NoDup_cons. split; [|by apply IH].
  intros Hi. apply Hc. apply list_elem_of_fmap in Hi as (sc' & Hs & Hi). apply list_elem_of_omap in Hi as (d & Hd & Ed).
  assert (N : forall c sc, image_cell row c = Some sc -> sc_column sc = col_name c).
  { intros c' sc'' H. unfold image_cell in H. destruct (whole_by_col row (col_name c')); [|done].
    cbn in H. destruct (op_value m); [|done]. cbn in H. by injection H as <-. }
  rewrite (N _ _ E), (N _ _ Ed) in Hs. rewrite Hs. by apply list_elem_of_fmap_2.
Qed.

Lemma image_cells_nodup row :
  NoDup (map col_name cols) -> NoDup (map cc_name (clustering_keys schema)) ->
  length (clustering_values_of (rw_clustering_key row)) = length (clustering_keys schema) ->
  NoDup (map sc_column (key_cells row ++ data_cells row)).
Proof.
  intros Hn Hk Hl. rewrite map_app. apply NoDup_app. rewrite key_names by done.
  split; [done|split; [|by apply data_cells_nodup]]. intros name Hi Hd. apply clustering_name in Hi.
  apply list_elem_of_fmap in Hd as (c & -> & Hc). apply data_names in Hc. congruence.
Qed.

(** The clustering columns are found back among the sorted cells. *)
Lemma image_pairs row :
  NoDup (map col_name cols) -> NoDup (map cc_name (clustering_keys schema)) ->
  length (clustering_values_of (rw_clustering_key row)) = length (clustering_keys schema) ->
  clustering_pairs (clustering_keys schema) (find_simple (image_cells row)) = Some (clustering_cells schema row).
Proof.
  intros Hn Hk Hl. pose proof (image_cells_nodup row Hn Hk Hl) as Hnd.
  assert (Hf : forall name v, (name, v) ∈ clustering_cells schema row -> find_simple (image_cells row) name = Some v).
  { intros name v Hi. unfold find_simple, image_cells.
    set (c := mkSimpleCell name v (image_timestamp row) None None).
    change name with (sc_column c). rewrite find_sorted; [done|done|]. rewrite elem_of_app. left.
    unfold key_cells. by apply (list_elem_of_fmap_2 (fun c => mkSimpleCell c.1 c.2 (image_timestamp row) None None) _ (name, v)). }
  revert Hf. unfold clustering_cells. clear Hnd Hk. revert Hl. generalize (find_simple (image_cells row)). intros find.
  generalize (clustering_values_of (rw_clustering_key row)).
  induction (clustering_keys schema) as [|k keys IH]; intros [|v values] Hl Hf; try done.
  cbn [clustering_pairs map zip_with]. rewrite (Hf (cc_name k) v) by apply list_elem_of_here.
  cbn [mbind option_bind]. rewrite (IH values).
  - done.
  - by injection Hl.
  - intros name v' Hi. apply Hf. by apply list_elem_of_further.
Qed.

Record row_parsed (row : RowWrite) (h : RowHeader) : Prop := {
  rp_live : liveness_of row now h;
  rp_mfda : rh_marked_for_delete_at h = fst <$> rw_row_deletion row;
  rp_ldt : rh_local_deletion_time h = snd <$> rw_row_deletion row;
}.

Lemma image_built row h :
  NoDup (map col_name cols) -> NoDup (map cc_name (clustering_keys schema)) ->
  length (clustering_values_of (rw_clustering_key row)) = length (clustering_keys schema) ->
  row_parsed row h ->
  row_write_timestamp h = image_timestamp row /\
  build_compaction_row_data (clustering_cells schema row ++ row_cells row cols)
    (Some (row_meta row now cols)) ∅ h (row_write_timestamp h) schema = image_data row.
Proof.
  intros Hn Hk Hl [[Hts Httl Hexp] Hm Hd].
  assert (Hrt : row_write_timestamp h = image_timestamp row).
  { unfold row_write_timestamp, image_timestamp, is_row_tombstone, row_tombstone_deletion_time. rewrite Hts, Hm, Hd.
    by destruct (rw_liveness_ts row), (rw_row_deletion row) as [[? ?]|]. }
  split; [done|]. rewrite Hrt. unfold build_compaction_row_data. change (map_to_list (∅ : CompactionComplexColumns)) with (@nil (string * (option (Z * Z) * list ComplexElement * Value))). cbn [map sort_by foldr existsb].
  assert (Hall : forall l : list (string * Value), List.filter (fun _ => negb false) l = l).
  { intros l. induction l as [|x l IH]; [done|]. cbn [List.filter negb]. by f_equal. }
  rewrite Hall, map_app, simple_keys, simple_data by done. fold (image_cells row).
  assert (Hlive : header_liveness h = image_liveness row).
  { unfold header_liveness, image_liveness. by rewrite Hts, Hexp. }
  rewrite Hlive, image_has_data, image_pairs by done.
  unfold image_data, is_row_tombstone, row_tombstone_deletion_time. rewrite Hm, Hd.
  destruct (rw_row_deletion row) as [[dt ldt]|]; cbn [fmap option_fmap option_map fst snd is_some default from_option id negb andb].
  - by destruct (data_cells row).
  - done.
Qed.
End Image.
