(* ===== verification/PartitionReader.v ===== *)
(** The reader of partitions: the partition header and the peek for the next one
    ([row_decoder/row_framing.rs]), the driver of one partition ([partition_driver.rs]),
    and the compaction's policy and loop over a block ([row_decoder/compaction.rs]).

    The driver's loop takes fuel. It ends as long as every step advances; a corrupt marker
    can send it back ([PartitionRoundtrip.endless_driver]). *)

From S2P Require Import Prelude Values VInt Keys MergeModel Stats Cells Columns Rows Markers CompactionRows.

Open Scope Z_scope.

(** ** The partition header *)

Definition OA_IS_LIVE_DELETION : Z := 0x80.
Definition FORMAT_MAX_KEY_SIZE : Z := 255.
Definition NB_LIVE_LOCAL_DELETION_TIME : Z := i32_MAX.

Inductive PartitionHeaderReadiness := HeaderReady | HeaderIncomplete | HeaderMalformed.
Inductive BoundaryPeek := PeekHeader | PeekNotHeader | PeekNeedMoreBytes.

Definition partition_header_readiness (p : Parser) (data : list Z) : PartitionHeaderReadiness :=
  match data with
  | _ :: key_len :: _ =>
      if (key_len =? 0) || (key_len >? FORMAT_MAX_KEY_SIZE) then HeaderMalformed
      else
        let deletion_offset := 2 + key_len in
        let deletion_time_min :=
          if p_has_uint_deletion_time p
          then (fun b => if has_flag b OA_IS_LIVE_DELETION then 1 else 12)
                 <$> data !! Z.to_nat deletion_offset
          else Some 12 in
        match deletion_time_min with
        | None => HeaderIncomplete
        | Some n => if deletion_offset + n >? zlen data then HeaderIncomplete else HeaderReady
        end
  | _ => HeaderIncomplete
  end.

(** The [DeletionTime] of a partition. *)
Definition parse_partition_deletion (p : Parser) (data : list Z) :
    result Error (option (Z * Z) * list Z) :=
  if p_has_uint_deletion_time p then
    match data with
    | [] => Err Corruption
    | del_flags :: rest =>
        if has_flag del_flags OA_IS_LIVE_DELETION then
          if negb (del_flags =? OA_IS_LIVE_DELETION) then Err Corruption else Ok (None, rest)
        else
          '(mfda, data) ← take_bytes 8 data;
          '(ldt, data) ← take_bytes 4 data;
          Ok (Some (as_i64 (from_be mfda), as_i32 (from_be ldt)), data)
    end
  else
    '(ldt, data) ← take_bytes 4 data;
    '(mfda, data) ← take_bytes 8 data;
    let local_deletion_time := as_i32 (from_be ldt) in
    Ok (if local_deletion_time =? NB_LIVE_LOCAL_DELETION_TIME then None
        else Some (as_i64 (from_be mfda), local_deletion_time), data).

(** The key, the deletion, and what follows the header. *)
Definition scan_partition_header (p : Parser) (data : list Z) :
    result Error (list Z * option (Z * Z) * list Z) :=
  '(_, data) ← read_byte data;
  '(key_len, data) ← read_byte data;
  if key_len =? 0 then Err Corruption
  else
    '(key, data) ← take_bytes key_len data;
    '(partition_deletion, data) ← parse_partition_deletion p data;
    Ok (key, partition_deletion, data).

Definition parse_partition_header_full (p : Parser) (data : list Z) (offset : Z) :
    result Error (list Z * Z * option (Z * Z)) :=
  '(key, partition_deletion, rest) ← scan_partition_header p (from_pos offset data);
  Ok (key, zlen data - zlen rest, partition_deletion).

Definition peek_partition_boundary (p : Parser) (data : list Z) (offset : Z) : BoundaryPeek :=
  match from_pos offset data with
  | [] => PeekNeedMoreBytes
  | (flags :: _) as rest =>
      if is_end_of_partition flags || is_range_tombstone_marker flags then PeekNotHeader
      else
        match partition_header_readiness p rest with
        | HeaderIncomplete => PeekNeedMoreBytes
        | HeaderMalformed => PeekNotHeader
        | HeaderReady => match scan_partition_header p rest with
                         | Ok _ => PeekHeader
                         | Err _ => PeekNotHeader
                         end
        end
  end.

Definition peek_is_partition_header (p : Parser) (data : list Z) (offset : Z) : bool :=
  match peek_partition_boundary p data offset with PeekHeader => true | _ => false end.

(** ** The driver *)

Inductive ParseStep := Emitted (consumed : Z) | NeedMore | Done.
Inductive MarkerOutcome := Advanced (next_offset : Z) | Stop.
Inductive ControlFlow := Continue | Break.

(** What a consumer does with the parts of a partition: the state of the policy is
    threaded, [pending] grows. *)
Class SlidingPartitionPolicy (St Row : Type) := {
  on_partition_open : list Z -> option (Z * Z) -> TableSchema -> St -> list Row -> St * list Row;
  on_range_marker : list Z -> Z -> TableSchema -> St -> list Row -> MarkerOutcome * St * list Row;
  on_data_row : list Z -> Z -> TableSchema -> RowColumnResolution -> St -> list Row ->
                option Z * St * list Row;
  on_partition_close : TableSchema -> bool -> St -> list Row -> St * list Row;
}.

Section Driver.
Context {St Row A : Type} `{!SlidingPartitionPolicy St Row}.
Context (p : Parser) (emit : Row -> A -> result Error (ControlFlow * A)).
Context (data : list Z) (schema : TableSchema) (resolution : RowColumnResolution) (at_final_chunk : bool).

Fixpoint emit_rows (rows : list Row) (acc : A) : result Error A :=
  match rows with
  | [] => Ok acc
  | row :: rows =>
      '(flow, acc) ← emit row acc;
      match flow with Continue => emit_rows rows acc | Break => Ok acc end
  end.

Definition flush_and_emitted (consumed : Z) (complete : bool) (st : St) (pending : list Row) (acc : A) :
    result Error (ParseStep * A) :=
  let '(_, pending) := on_partition_close schema complete st pending in
  acc ← emit_rows pending acc;
  Ok (Emitted consumed, acc).

(** The partition ends here without a structural end, or more bytes are due. *)
Definition partition_cut (offset : Z) (st : St) (pending : list Row) (acc : A) :
    result Error (ParseStep * A) :=
  if at_final_chunk then flush_and_emitted offset false st pending acc else Ok (NeedMore, acc).

Fixpoint drive_rows (fuel : nat) (offset : Z) (st : St) (pending : list Row) (acc : A) :
    option (result Error (ParseStep * A)) :=
  match fuel with
  | O => None
  | S fuel =>
      match from_pos offset data with
      | [] => Some (partition_cut offset st pending acc)
      | flags :: _ =>
          if is_end_of_partition flags
          then Some (flush_and_emitted (offset + 1) true st pending acc)
          else if is_range_tombstone_marker flags then
            match on_range_marker data offset schema st pending with
            | (Advanced next_offset, st, pending) => drive_rows fuel next_offset st pending acc
            | (Stop, st, pending) => Some (partition_cut offset st pending acc)
            end
          else
            match on_data_row data offset schema resolution st pending with
            | (Some next_offset, st, pending) =>
                if next_offset >=? zlen data then Some (partition_cut next_offset st pending acc)
                else if peek_is_partition_header p data next_offset
                then Some (flush_and_emitted next_offset true st pending acc)
                else drive_rows fuel next_offset st pending acc
            | (None, st, pending) => Some (partition_cut offset st pending acc)
            end
      end
  end.

Definition drive_partition_sliding (fuel : nat) (st : St) (acc : A) :
    option (result Error (ParseStep * A)) :=
  if is_empty data then Some (Ok (Done, acc))
  else
    match partition_header_readiness p data with
    | HeaderMalformed => Some (Ok (Emitted 1, acc))
    | HeaderIncomplete => Some (Ok (if at_final_chunk then Done else NeedMore, acc))
    | HeaderReady =>
        match parse_partition_header_full p data 0 with
        | Err _ =>
            Some (Ok (if negb at_final_chunk
                         && match partition_header_readiness p data with
                            | HeaderIncomplete => true | _ => false end
                      then NeedMore else Emitted 1, acc))
        | Ok (partition_key, offset, partition_deletion) =>
            let '(st, pending) := on_partition_open partition_key partition_deletion schema st [] in
            drive_rows fuel offset st pending acc
        end
    end.
End Driver.

(** ** The compaction's policy *)

Record CompactionPolicy := mkCompactionPolicy {
  structure_only : bool;
  cp_partition_key : list Z;
  pending_range_start : option (CompactionBound * Z * Z);
}.

Definition policy_new : CompactionPolicy := mkCompactionPolicy false [] None.
Definition policy_structure_only : CompactionPolicy := mkCompactionPolicy true [] None.

Definition with_start (start : option (CompactionBound * Z * Z)) (st : CompactionPolicy) : CompactionPolicy :=
  mkCompactionPolicy (structure_only st) (cp_partition_key st) start.

Section Compaction.
Context {CD : ComplexDecoder} {CR : ComplexColumnReader}.
(** [format!("ck{i}")] *)
Context (ck_name : Z -> string).

Definition make_bound (schema : TableSchema) (values : list Value) (inclusive is_start : bool) :
    CompactionBound :=
  match values with
  | [] => if is_start then CBottom else CTop
  | _ =>
      let pairs := imap (fun i v => (from_option cc_name (ck_name (Z.of_nat i)) (clustering_keys schema !! i), v))
                     values in
      if inclusive then CInclusive pairs else CExclusive pairs
  end.

Definition range_row (st : CompactionPolicy) (start stop : CompactionBound) (deletion : Z * Z) : CompactionRow :=
  mkCompactionRow (cp_partition_key st) deletion.1 (CRangeMarker start stop deletion.1 deletion.2).

(** One marker: a start is kept, an end closes it, a boundary does both. *)
Definition pair_marker (schema : TableSchema) (m : Marker) (st : CompactionPolicy)
    (pending : list CompactionRow) : CompactionPolicy * list CompactionRow :=
  let kind := mk_kind m in
  let start := (fun '(s, _, _) => s) <$> pending_range_start st in
  if (kind =? 1) || (kind =? 7) then
    (with_start (Some (make_bound schema (mk_values m) (kind =? 1) true, (mk_primary m).1, (mk_primary m).2)) st,
     pending)
  else if (kind =? 0) || (kind =? 6) then
    (with_start None st,
     pending ++ [range_row st (default CBottom start) (make_bound schema (mk_values m) (kind =? 6) false)
                   (mk_primary m)])
  else if (kind =? 2) || (kind =? 5) then
    let new := default (mk_primary m) (mk_secondary m) in
    (with_start (Some (make_bound schema (mk_values m) (kind =? 2) true, new.1, new.2)) st,
     match start with
     | Some start =>
         pending ++ [range_row st start (make_bound schema (mk_values m) (kind =? 5) false) (mk_primary m)]
     | None => pending
     end)
  else (st, pending).

#[export] Instance compaction_policy (p : Parser) : SlidingPartitionPolicy CompactionPolicy CompactionRow := {
  on_partition_open partition_key partition_deletion _ st pending :=
    (mkCompactionPolicy (structure_only st) partition_key (pending_range_start st),
     match partition_deletion with
     | Some (mfda, ldt) => pending ++ [mkCompactionRow partition_key mfda (CPartitionDelete mfda ldt)]
     | None => pending
     end);
  on_range_marker data offset schema st pending :=
    match parse_range_tombstone_marker_with_ldt p schema data offset with
    | Err _ => (Stop, st, pending)
    | Ok (m, next_offset) =>
        let '(st, pending) := pair_marker schema m st pending in (Advanced next_offset, st, pending)
    end;
  on_data_row data offset schema resolution st pending :=
    let next r := zlen data - zlen (pr_rest r) in
    if structure_only st then
      match parse_row_data p (Some schema) resolution false false None (from_pos offset data) with
      | Ok r => (Some (next r), st, pending)
      | Err _ => (None, st, pending)
      end
    else
      match parse_row_data p (Some schema) resolution true true None (from_pos offset data) with
      | Ok r =>
          let row_ts := row_write_timestamp (pr_row_header r) in
          let row_data := build_compaction_row_data (pr_cells r) (pr_cell_meta r)
                            (default ∅ (pr_complex_out r)) (pr_row_header r) row_ts schema in
          (Some (next r), st, pending ++ [mkCompactionRow (cp_partition_key st) row_ts row_data])
      | Err _ => (None, st, pending)
      end;
  on_partition_close _ _ st pending := (st, pending);
}.

Section Block.
Context {A : Type} (emit : CompactionRow -> A -> result Error (ControlFlow * A)).
Context (p : Parser) (schema : TableSchema) (header : list ColumnInfo).

Definition parse_one_partition_for_compaction (fuel : nat) (data : list Z) (at_final_chunk : bool) (acc : A) :
    option (result Error (ParseStep * A)) :=
  if is_empty data then Some (Ok (Done, acc))
  else drive_partition_sliding (SlidingPartitionPolicy0 := compaction_policy p) p emit data schema
         (build_resolution schema header) at_final_chunk fuel policy_new acc.

Definition parse_one_partition_structure_only (fuel : nat) (data : list Z) (at_final_chunk : bool) :
    option (result Error ParseStep) :=
  if is_empty data then Some (Ok Done)
  else fmap (M := result Error) fst <$>
         drive_partition_sliding (A := unit) (SlidingPartitionPolicy0 := compaction_policy p) p
           (fun _ acc => Ok (Continue, acc)) data schema
           (build_resolution schema header) at_final_chunk fuel policy_structure_only tt.
End Block.

(** The loop over a block notes whether the consumer broke off. *)
Definition tracking_emit {A} (emit : CompactionRow -> A -> result Error (ControlFlow * A))
    (row : CompactionRow) (acc : A * bool) : result Error (ControlFlow * (A * bool)) :=
  '(flow, a) ← emit row acc.1;
  Ok (flow, (a, acc.2 || match flow with Break => true | Continue => false end)).

Section BlockLoop.
Context {A : Type} (emit : CompactionRow -> A -> result Error (ControlFlow * A)).
Context (p : Parser) (schema : TableSchema) (header : list ColumnInfo) (data : list Z).

Fixpoint block_loop (fuel : nat) (offset : Z) (acc : A * bool) : option (result Error A) :=
  match fuel with
  | O => None
  | S fuel' =>
      if negb (offset <? zlen data) then Some (Ok acc.1)
      else
        match parse_one_partition_for_compaction (tracking_emit emit) p schema header fuel
                (from_pos offset data) true acc with
        | None => None
        | Some (Err e) => Some (Err e)
        | Some (Ok (Emitted consumed, acc)) =>
            let offset := if consumed =? 0 then offset + 1 else offset + consumed in
            if acc.2 then Some (Ok acc.1) else block_loop fuel' offset acc
        | Some (Ok ((NeedMore | Done), acc)) => Some (Ok acc.1)
        end
  end.
End BlockLoop.

Definition parse_block_for_compaction_emit {A}
    (emit : CompactionRow -> A -> result Error (ControlFlow * A)) (p : Parser)
    (schema : option TableSchema) (header : list ColumnInfo) (fuel : nat) (data : list Z) (acc : A) :
    option (result Error A) :=
  if is_empty data then Some (Ok acc)
  else
    match schema with
    | None => Some (Err SchemaError)
    | Some schema => block_loop emit p schema header data fuel 0 (acc, false)
    end.

Definition parse_block_for_compaction (p : Parser) (schema : option TableSchema)
    (header : list ColumnInfo) (fuel : nat) (data : list Z) : option (result Error (list CompactionRow)) :=
  parse_block_for_compaction_emit (fun row results => Ok (Continue, results ++ [row])) p schema header
    fuel data [].
End Compaction.
