(* ===== verification/PartitionWriter.v ===== *)
(** The writer of partitions ([data_writer/partition.rs], [mod.rs], [index_prefix.rs]): the
    partition header, the unfiltereds, the promoted-index blocks, and the scratch buffer
    that a streaming writer flushes to its sink.

    The clock is read once a row: [clock k] is the reading at the [k]th unfiltered, 0 for the
    static row. The outcome of the sink is an argument. Checksums are left
    out. *)

From S2P Require Import Prelude Values VInt Keys Oss50 Mutation Stats Cells Columns Rows Markers Items RowGroup StaticRows.

Open Scope Z_scope.

(** [sink]: what the streaming file holds; [None] for a writer in memory. *)
Record DataWriter := mkDataWriter {
  dw_buffer : list Z;
  dw_sink : option (list Z);
  dw_position : Z;
  dw_stats : EncodingStatsBaselines;
  dw_oa_partition_deletion : bool;
}.

Definition data_writer_new (stats : EncodingStatsBaselines) : DataWriter := mkDataWriter [] None 0 stats false.
Definition data_writer_with_sink (stats : EncodingStatsBaselines) : DataWriter :=
  mkDataWriter [] (Some []) 0 stats false.

Definition with_oa_partition_deletion (on : bool) (dw : DataWriter) : DataWriter :=
  mkDataWriter (dw_buffer dw) (dw_sink dw) (dw_position dw) (dw_stats dw) on.

Definition with_buffer (buffer : list Z) (dw : DataWriter) : DataWriter :=
  mkDataWriter buffer (dw_sink dw) (dw_position dw) (dw_stats dw) (dw_oa_partition_deletion dw).

(** Bytes produced so far. *)
Definition position (dw : DataWriter) : Z := dw_position dw + zlen (dw_buffer dw).

(** [io]: the outcome of opening and writing the sink. *)
Definition flush_partition (io : result Error ()) (dw : DataWriter) : result Error DataWriter :=
  match dw_sink dw with
  | None => Ok dw
  | Some written =>
      _ ← io;
      Ok (mkDataWriter [] (Some (written ++ dw_buffer dw)) (dw_position dw + zlen (dw_buffer dw))
            (dw_stats dw) (dw_oa_partition_deletion dw))
  end.

(** [DataWriter::finish] *)
Definition data_finish (dw : DataWriter) : result Error (list Z) :=
  match dw_sink dw with Some _ => Err InvalidInput | None => Ok (dw_buffer dw) end.

(** ** The header *)

Definition partition_deletion_bytes (oa : bool) (tombstone : option PartTombstone) : list Z :=
  match oa, tombstone with
  | true, Some ts => be_bytes 8 (pt_deletion_time ts) ++ be_bytes 4 (as_u32 (pt_local_deletion_time ts))
  | true, None => [0x80]
  | false, Some ts => be_bytes 4 (pt_local_deletion_time ts) ++ be_bytes 8 (pt_deletion_time ts)
  | false, None => be_bytes 4 i32_MAX ++ be_bytes 8 i64_MIN
  end.

Definition write_partition_header (dw : DataWriter) (key : DecoratedKey) (tombstone : option PartTombstone) :
    result Error DataWriter :=
  if zlen (Keys.key key) >? u16_MAX then Err InvalidInput
  else Ok (with_buffer (dw_buffer dw ++ be_bytes 2 (zlen (Keys.key key)) ++ Keys.key key
                        ++ partition_deletion_bytes (dw_oa_partition_deletion dw) tombstone) dw).

(** ** The unfiltereds *)

(** [PromotedIndexBlock] *)
Record PromotedIndexBlock := mkPromotedIndexBlock {
  pib_first_name : list Z;
  pib_last_name : list Z;
  pib_offset : Z;
  pib_width : Z;
  pib_oss50_separator : option (list Z);
}.

Record PartitionEmitCounts := mkPartitionEmitCounts { pec_rows : Z; pec_columns : Z }.

Definition COLUMN_INDEX_SIZE_BYTES : Z := 65536.
Definition CLUSTERING_PREFIX_KIND_CLUSTERING : Z := 4.

Section Writer.
Context {VS : ValueSerializer} {CW : ComplexWriter}.
Context (from_data_type : string -> result Error ComparatorType).
Context (schema : TableSchema).

Definition index_prefix (kind : Z) (ck : ClusteringKey) : result Error (list Z) :=
  if zlen ck >? u16_MAX then Err InvalidInput
  else write_clustering_prefix from_data_type ck schema ([kind] ++ be_bytes 2 (zlen ck)).

(** The name of an unfiltered in the promoted index, with its fallbacks. *)
Definition index_name (item : PartitionItem) : list Z :=
  let or_else r fallback := match r with Ok b => b | Err _ => fallback end in
  match item with
  | IRow row =>
      let empty := [CLUSTERING_PREFIX_KIND_CLUSTERING; 0] in
      match rw_clustering_key row with
      | Some ck => or_else (write_clustering_prefix from_data_type ck schema [CLUSTERING_PREFIX_KIND_CLUSTERING]) empty
      | None => empty
      end
  | IMarker bound is_open _ _ =>
      let '(kind, clustering) := bound_kind is_open bound in
      match clustering with
      | Some ck => or_else (index_prefix kind ck) ([kind] ++ be_bytes 2 0)
      | None => [kind] ++ be_bytes 2 0
      end
  | IBoundary kind ck _ _ _ _ => or_else (index_prefix kind ck) ([kind] ++ be_bytes 2 0)
  end.

(** The separator of a block whose first unfiltered this is. *)
Definition oss50_of (item : PartitionItem) : option (list Z) :=
  match item with
  | IRow row =>
      match rw_clustering_key row with
      | Some ((_ :: _) as ck) =>
          match encode_clustering_bound_oss50_with_order (map snd ck) (schema_reversed schema) with
          | Ok bytes => Some bytes
          | Err _ => None
          end
      | _ => None
      end
  | _ => None
  end.

(** One unfiltered behind the buffer; rows count themselves and their cells. *)
Definition write_item (b : EncodingStatsBaselines) (buffer : list Z) (item : PartitionItem)
    (prev_unfiltered_size now_seconds : Z) : result Error (list Z * PartitionEmitCounts) :=
  match item with
  | IRow row =>
      '(buffer, cells) ← write_merged_row_with_prev_size from_data_type b buffer row schema
                           prev_unfiltered_size now_seconds;
      Ok (buffer, mkPartitionEmitCounts 1 cells)
  | IMarker bound is_open deletion_time local_deletion_time =>
      buffer ← write_range_bound from_data_type b buffer bound is_open deletion_time
                 local_deletion_time schema prev_unfiltered_size;
      Ok (buffer, mkPartitionEmitCounts 0 0)
  | IBoundary kind clustering end_dt end_ldt start_dt start_ldt =>
      buffer ← write_range_boundary from_data_type b buffer kind clustering end_dt end_ldt start_dt
                 start_ldt schema prev_unfiltered_size;
      Ok (buffer, mkPartitionEmitCounts 0 0)
  end.

Definition add_counts (a c : PartitionEmitCounts) : PartitionEmitCounts :=
  mkPartitionEmitCounts (pec_rows a + pec_rows c) (pec_columns a + pec_columns c).

(** [write_partition]: each item takes the size of the one before it. *)
Fixpoint write_items (b : EncodingStatsBaselines) (clock : nat -> Z) (k : nat)
    (items : list PartitionItem) (buffer : list Z) (prev_unfiltered_size : Z) : result Error (list Z) :=
  match items with
  | [] => Ok buffer
  | item :: items =>
      '(buffer', _) ← write_item b buffer item prev_unfiltered_size (clock k);
      write_items b clock (S k) items buffer' (zlen buffer' - zlen buffer)
  end.

(** *** With index blocks *)

Record BlockState := mkBlockState {
  bs_blocks : list PromotedIndexBlock;
  bs_start : Z;
  bs_first : option (list Z);
  bs_last : option (list Z);
  bs_oss50 : option (option (list Z));
}.

(** Before an item is written: it opens the block if none is open. *)
Definition note_item (item : PartitionItem) (s : BlockState) : BlockState :=
  let name := index_name item in
  match bs_first s with
  | Some _ => mkBlockState (bs_blocks s) (bs_start s) (bs_first s) (Some name) (bs_oss50 s)
  | None => mkBlockState (bs_blocks s) (bs_start s) (Some name) (Some name) (Some (oss50_of item))
  end.

Definition empty_name : list Z := [CLUSTERING_PREFIX_KIND_CLUSTERING; 0].

(** After an item: a block of 64 KiB is closed at this offset. *)
Definition close_full_block (offset : Z) (s : BlockState) : BlockState :=
  let block_bytes := offset - bs_start s in
  if block_bytes >=? COLUMN_INDEX_SIZE_BYTES
  then mkBlockState
         (bs_blocks s ++ [mkPromotedIndexBlock (default empty_name (bs_first s))
                            (default empty_name (bs_last s)) (bs_start s) block_bytes
                            (mjoin (bs_oss50 s))])
         offset None None None
  else s.

(** Behind the end of the partition. *)
Definition close_last_block (offset : Z) (s : BlockState) : list PromotedIndexBlock :=
  match bs_first s, bs_last s with
  | Some first, Some last =>
      let block_bytes := offset - bs_start s in
      if block_bytes >? 0
      then bs_blocks s ++ [mkPromotedIndexBlock first last (bs_start s) block_bytes (mjoin (bs_oss50 s))]
      else bs_blocks s
  | _, _ => bs_blocks s
  end.

Fixpoint write_items_with_blocks (b : EncodingStatsBaselines) (clock : nat -> Z) (k : nat)
    (partition_buf_start : Z) (items : list PartitionItem) (buffer : list Z) (prev_unfiltered_size : Z) (emit : PartitionEmitCounts)
    (s : BlockState) : result Error (list Z * PartitionEmitCounts * BlockState) :=
  match items with
  | [] => Ok (buffer, emit, s)
  | item :: items =>
      let s := note_item item s in
      '(buffer', counts) ← write_item b buffer item prev_unfiltered_size (clock k);
      write_items_with_blocks b clock (S k) partition_buf_start items buffer'
        (zlen buffer' - zlen buffer) (add_counts emit counts)
        (close_full_block (zlen buffer' - partition_buf_start) s)
  end.

(** ** A partition *)

Section Partition.
Context `{HashOrder} `{DebugFmt}.

(** The static row, if the table has static columns: the buffer, the bytes of the row, the
    cells it counts. *)
Definition write_static_prelude (b : EncodingStatsBaselines) (buffer : list Z) (mutations : list Mutation)
    (partition_floor : option Z) (now_seconds : Z) : result Error (list Z * PartitionEmitCounts) :=
  if negb (has_static schema) then Ok (buffer, mkPartitionEmitCounts 0 0)
  else
    let merged := collect_static_operations mutations schema partition_floor in
    if is_empty merged then Ok (write_empty_static_row buffer 0 schema, mkPartitionEmitCounts 0 0)
    else
      let '(latest_ts, ttl) :=
        default (from_option m_timestamp_micros 0 (head mutations), None) (static_liveness_from_ops merged) in
      '(buffer, cells) ← write_static_row_with_prev_size b buffer merged latest_ts ttl schema 0 now_seconds;
      Ok (buffer, mkPartitionEmitCounts 1 cells).

(** The unfiltereds of a partition, in order. *)
Definition partition_items (mutations : list Mutation) (partition_floor : option Z)
    (range_tombstones : list RangeTombstone) : list PartitionItem :=
  let rows := merge_clustering_rows mutations schema (has_static schema) partition_floor range_tombstones in
  coalesce_boundaries schema
    (sort_partition_items schema (map IRow rows ++ markers_of range_tombstones)).

Definition write_partition (dw : DataWriter) (key : DecoratedKey) (mutations : list Mutation)
    (partition_tombstone : option PartTombstone) (range_tombstones : list RangeTombstone)
    (clock : nat -> Z) (io : result Error ()) : result Error (DataWriter * Z) :=
  let partition_offset := position dw in
  let header_start := zlen (dw_buffer dw) in
  dw ← write_partition_header dw key partition_tombstone;
  let partition_floor := pt_deletion_time <$> partition_tombstone in
  '(buffer, _) ← write_static_prelude (dw_stats dw) (dw_buffer dw) mutations partition_floor (clock O);
  buffer ← write_items (dw_stats dw) clock 1 (partition_items mutations partition_floor range_tombstones)
             buffer (zlen buffer - header_start);
  dw ← flush_partition io (with_buffer (buffer ++ [END_OF_PARTITION]) dw);
  Ok (dw, partition_offset).

Definition write_partition_with_index_blocks (dw : DataWriter) (key : DecoratedKey)
    (mutations : list Mutation) (partition_tombstone : option PartTombstone)
    (range_tombstones : list RangeTombstone) (clock : nat -> Z) (io : result Error ()) :
    result Error (DataWriter * (Z * list PromotedIndexBlock * PartitionEmitCounts)) :=
  let partition_offset := position dw in
  let partition_buf_start := zlen (dw_buffer dw) in
  dw ← write_partition_header dw key partition_tombstone;
  let partition_floor := pt_deletion_time <$> partition_tombstone in
  '(buffer, emit) ← write_static_prelude (dw_stats dw) (dw_buffer dw) mutations partition_floor (clock O);
  '(buffer, emit, s) ←
    write_items_with_blocks (dw_stats dw) clock 1 partition_buf_start
      (partition_items mutations partition_floor range_tombstones) buffer
      (zlen buffer - partition_buf_start) emit
      (mkBlockState [] (zlen buffer - partition_buf_start) None None None);
  let buffer := buffer ++ [END_OF_PARTITION] in
  let blocks := close_last_block (zlen buffer - partition_buf_start) s in
  dw ← flush_partition io (with_buffer buffer dw);
  Ok (dw, (partition_offset, blocks, emit)).
End Partition.
End Writer.
