(* ===== verification/Session.v ===== *)
(** The partition written one row at a time: the resumable session of compaction
    ([data_writer/streaming_partition.rs]).

    A session holds no borrow of its writer, so the writer is an argument of every call and
    part of what the call returns. [ps_pending] is what the marker cursor has not passed.
    A write reads the clock once: [now_seconds] of the row it feeds. [io k] is the outcome
    of the flush with [k] blocks closed. *)

From S2P Require Import Prelude Values VInt Keys Mutation Stats Cells Columns Rows Markers Items RowGroup StaticRows PartitionWriter.

Open Scope Z_scope.

(** [StreamingPartitionSession] *)
Record PartitionSession := mkPartitionSession {
  ps_partition_offset : Z;
  ps_prev_unfiltered_size : Z;
  ps_partition_floor : option Z;
  ps_range_tombstones : list RangeTombstone;
  ps_pending : list PartitionItem;
  ps_emit : PartitionEmitCounts;
  ps_block_start : option Z;
  ps_blocks : list PromotedIndexBlock;
  ps_first : option (list Z);
  ps_last : option (list Z);
  ps_oss50 : option (option (list Z));
}.

Definition with_pending (pending : list PartitionItem) (s : PartitionSession) : PartitionSession :=
  mkPartitionSession (ps_partition_offset s) (ps_prev_unfiltered_size s) (ps_partition_floor s)
    (ps_range_tombstones s) pending (ps_emit s) (ps_block_start s) (ps_blocks s) (ps_first s) (ps_last s)
    (ps_oss50 s).

(** What one unfiltered or the static row adds. *)
Definition note_written (prev_unfiltered_size : Z) (counts : PartitionEmitCounts) (s : PartitionSession) :
    PartitionSession :=
  mkPartitionSession (ps_partition_offset s) prev_unfiltered_size (ps_partition_floor s)
    (ps_range_tombstones s) (ps_pending s) (add_counts (ps_emit s) counts) (ps_block_start s) (ps_blocks s)
    (ps_first s) (ps_last s) (ps_oss50 s).

Definition with_block (start : option Z) (blocks : list PromotedIndexBlock) (first last : option (list Z))
    (oss50 : option (option (list Z))) (s : PartitionSession) : PartitionSession :=
  mkPartitionSession (ps_partition_offset s) (ps_prev_unfiltered_size s) (ps_partition_floor s)
    (ps_range_tombstones s) (ps_pending s) (ps_emit s) start blocks first last oss50.

Section Session.
Context {VS : ValueSerializer} {CW : ComplexWriter} `{DebugFmt}.
Context (from_data_type : string -> result Error ComparatorType).
Context (schema : TableSchema).

(** Bytes of the partition so far. *)
Definition current_rel_offset (s : PartitionSession) (dw : DataWriter) : Z :=
  position dw - ps_partition_offset s.

Definition begin_streaming_partition (dw : DataWriter) (key : DecoratedKey)
    (partition_tombstone : option PartTombstone) (range_tombstones : list RangeTombstone) :
    result Error (DataWriter * PartitionSession) :=
  let header_start := zlen (dw_buffer dw) in
  let partition_offset := position dw in
  dw ← write_partition_header dw key partition_tombstone;
  Ok (dw, mkPartitionSession partition_offset (zlen (dw_buffer dw) - header_start)
            (pt_deletion_time <$> partition_tombstone) range_tombstones
            (sort_partition_items schema (markers_of range_tombstones))
            (mkPartitionEmitCounts 0 0) None [] None None None).

Definition feed_static_row (dw : DataWriter) (s : PartitionSession) (merged : list StaticMergedOp)
    (first_mutation_ts now_seconds : Z) : result Error (DataWriter * PartitionSession) :=
  if is_empty merged then
    let buffer := write_empty_static_row (dw_buffer dw) 0 schema in
    Ok (with_buffer buffer dw,
        note_written (ps_prev_unfiltered_size s + (zlen buffer - zlen (dw_buffer dw)))
          (mkPartitionEmitCounts 0 0) s)
  else
    let '(latest_ts, ttl) := default (first_mutation_ts, None) (static_liveness_from_ops merged) in
    '(buffer, cells) ← write_static_row_with_prev_size (dw_stats dw) (dw_buffer dw) merged latest_ts ttl
                         schema 0 now_seconds;
    Ok (with_buffer buffer dw,
        note_written (ps_prev_unfiltered_size s + (zlen buffer - zlen (dw_buffer dw)))
          (mkPartitionEmitCounts 1 cells) s).

(** ** One unfiltered *)

(** The name opens a block if none is open, and is the last of the open one. *)
Definition open_block (item : PartitionItem) (offset : Z) (s : PartitionSession) : PartitionSession :=
  let name := index_name from_data_type schema item in
  match ps_first s with
  | Some first => with_block (ps_block_start s) (ps_blocks s) (Some first) (Some name) (ps_oss50 s) s
  | None =>
      with_block (Some (default offset (ps_block_start s))) (ps_blocks s) (Some name) (Some name)
        (Some (oss50_of schema item)) s
  end.

(** A block of 64 KiB is closed, and the scratch flushed. *)
Definition close_block (io : nat -> result Error ()) (dw : DataWriter) (s : PartitionSession) :
    result Error (DataWriter * PartitionSession) :=
  let offset := current_rel_offset s dw in
  let block_start := default offset (ps_block_start s) in
  let block_bytes := offset - block_start in
  if block_bytes >=? COLUMN_INDEX_SIZE_BYTES then
    let blocks := ps_blocks s ++ [mkPromotedIndexBlock (default empty_name (ps_first s))
                                    (default empty_name (ps_last s)) block_start block_bytes
                                    (mjoin (ps_oss50 s))] in
    dw ← flush_partition (io (length blocks)) dw;
    Ok (dw, with_block (Some offset) blocks None None None s)
  else Ok (dw, s).

Definition emit_item (io : nat -> result Error ()) (dw : DataWriter) (s : PartitionSession)
    (item : PartitionItem) (now_seconds : Z) : result Error (DataWriter * PartitionSession) :=
  let s := open_block item (current_rel_offset s dw) s in
  '(buffer, counts) ← write_item from_data_type schema (dw_stats dw) (dw_buffer dw) item
                        (ps_prev_unfiltered_size s) now_seconds;
  close_block io (with_buffer buffer dw)
    (note_written (zlen buffer - zlen (dw_buffer dw)) counts s).

(** ** The markers *)

(** The pending markers, up to the first that comes after the item; an end and the start
    that meets it leave together. *)
Fixpoint emit_markers (io : nat -> result Error ()) (now_seconds : Z) (before : option PartitionItem)
    (pending : list PartitionItem) (dw : DataWriter) (s : PartitionSession) :
    result Error (DataWriter * PartitionSession) :=
  match pending with
  | [] => Ok (dw, with_pending [] s)
  | marker :: pending' =>
      if from_option (fun item => bool_decide (partition_item_cmp schema marker item = Gt)) false before
      then Ok (dw, with_pending pending s)
      else
        let single := '(dw, s) ← emit_item io dw s marker now_seconds;
                      emit_markers io now_seconds before pending' dw s in
        match pending' with
        | [] => single
        | next :: rest =>
            match boundary_of schema marker next with
            | Some boundary =>
                '(dw, s) ← emit_item io dw s boundary now_seconds;
                emit_markers io now_seconds before rest dw s
            | None => single
            end
        end
  end.

(** ** The session's calls *)

(** A row that holds nothing but its position. *)
Definition position_item (clustering_key : option ClusteringKey) : PartitionItem :=
  IRow (mkRowWrite clustering_key None None None [] []).

Definition feed_row `{HashOrder} (io : nat -> result Error ()) (dw : DataWriter) (s : PartitionSession)
    (m : Mutation) (now_seconds : Z) : result Error (DataWriter * PartitionSession) :=
  let shadow_floor :=
    row_shadow_floor schema (m_clustering_key m) (ps_partition_floor s) (ps_range_tombstones s) in
  '(dw, s) ← emit_markers io now_seconds (Some (position_item (m_clustering_key m))) (ps_pending s) dw s;
  match merge_row_group [m] schema false shadow_floor with
  | Some row => emit_item io dw s (IRow row) now_seconds
  | None => Ok (dw, s)
  end.

Definition finish (io : nat -> result Error ()) (dw : DataWriter) (s : PartitionSession) (now_seconds : Z) :
    result Error (DataWriter * (Z * list PromotedIndexBlock * PartitionEmitCounts)) :=
  '(dw, s) ← emit_markers io now_seconds None (ps_pending s) dw s;
  let dw := with_buffer (dw_buffer dw ++ [END_OF_PARTITION]) dw in
  let offset := current_rel_offset s dw in
  let blocks :=
    match ps_first s, ps_last s with
    | Some first, Some last =>
        let block_start := default offset (ps_block_start s) in
        let block_bytes := offset - block_start in
        if block_bytes >? 0
        then ps_blocks s ++ [mkPromotedIndexBlock first last block_start block_bytes (mjoin (ps_oss50 s))]
        else ps_blocks s
    | _, _ => ps_blocks s
    end in
  dw ← flush_partition (io (length blocks)) dw;
  Ok (dw, (ps_partition_offset s, blocks, ps_emit s)).

(** A partition from its parts, as compaction feeds them. *)
Fixpoint feed_rows `{HashOrder} (io : nat -> result Error ()) (now_seconds : Z) (rows : list Mutation)
    (dw : DataWriter) (s : PartitionSession) : result Error (DataWriter * PartitionSession) :=
  match rows with
  | [] => Ok (dw, s)
  | m :: rows =>
      '(dw, s) ← feed_row io dw s m now_seconds;
      feed_rows io now_seconds rows dw s
  end.

Definition write_partition_session `{HashOrder} (io : nat -> result Error ()) (now_seconds : Z) (dw : DataWriter)
    (key : DecoratedKey) (partition_tombstone : option PartTombstone) (range_tombstones : list RangeTombstone)
    (merged : list StaticMergedOp) (static_first_ts : Z) (rows : list Mutation) :
    result Error (DataWriter * (Z * list PromotedIndexBlock * PartitionEmitCounts)) :=
  '(dw, s) ← begin_streaming_partition dw key partition_tombstone range_tombstones;
  '(dw, s) ← (if has_static schema then feed_static_row dw s merged static_first_ts now_seconds
              else Ok (dw, s));
  '(dw, s) ← feed_rows io now_seconds rows dw s;
  finish io dw s now_seconds.
End Session.
