(* ===== verification/Compression.v ===== *)
(** Compression: CompressionInfo.db ([compression_info.rs],
    [writer/compression_info_writer.rs]), the writer of compressed chunks
    ([writer/compressed_data_writer.rs]) and the reader of them ([chunk_decompressor.rs],
    [zstd_frame.rs]).

    The codecs are third-party code: [Codecs] holds their calls, and the laws of a round
    trip are hypotheses of the theorems. The data file is a list of bytes with a position.
    A string is the list of its UTF-8 bytes. *)

From S2P Require Import Prelude Values Stats Cells Wal Markers.
From Stdlib Require Ascii String.

Open Scope Z_scope.

(** ** Algorithms and codecs *)

Definition u32_MAX : Z := 2 ^ 32 - 1.

Inductive CompressionAlgorithm := Lz4 | Snappy | Deflate | Zstd | NoCompression.
#[export] Instance compression_algorithm_eq_dec : EqDecision CompressionAlgorithm.
Proof. solve_decision. Defined.

Definition bytes_of (s : string) : list Z := map (fun c => Z.of_nat (Ascii.nat_of_ascii c)) (String.list_ascii_of_string s).

Definition cassandra_name (a : CompressionAlgorithm) : list Z :=
  bytes_of
    match a with
    | Lz4 => "LZ4Compressor"
    | Snappy => "SnappyCompressor"
    | Deflate => "DeflateCompressor"
    | Zstd => "ZstdCompressor"
    | NoCompression => "NoopCompressor"
    end.

(** Blocks of [lz4_flex] without their size, raw [snap], streams of [flate2] and frames of
    [zstd]; the last argument of a stream decoder is how many bytes are taken from it. *)
Class Codecs := {
  lz4_compress : list Z -> list Z;
  lz4_decompress : list Z -> Z -> result Error (list Z);
  snap_compress : list Z -> result Error (list Z);
  snap_decompress_len : list Z -> result Error Z;
  snap_decompress : list Z -> result Error (list Z);
  zlib_compress : list Z -> result Error (list Z);
  zlib_decode : list Z -> Z -> result Error (list Z);
  zstd_encode : list Z -> result Error (list Z);
  zstd_decode : list Z -> Z -> result Error (list Z);
}.

(** [Compressor]: the trait and its implementations. *)
Record Compressor := mkCompressor {
  algorithm : CompressionAlgorithm;
  compress : list Z -> result Error (list Z);
}.

Definition Lz4Compressor `{Codecs} : Compressor :=
  mkCompressor Lz4 (fun data => Ok (le_bytes 4 (as_u32 (zlen data)) ++ lz4_compress data)).
Definition SnappyCompressor `{Codecs} : Compressor := mkCompressor Snappy snap_compress.
Definition DeflateCompressor `{Codecs} : Compressor := mkCompressor Deflate zlib_compress.
Definition ZstdCompressor `{Codecs} : Compressor := mkCompressor Zstd zstd_encode.
Definition NoopCompressor : Compressor := mkCompressor NoCompression (fun data => Ok data).

Definition create_compressor `{Codecs} (a : CompressionAlgorithm) : Compressor :=
  match a with
  | Lz4 => Lz4Compressor
  | Snappy => SnappyCompressor
  | Deflate => DeflateCompressor
  | Zstd => ZstdCompressor
  | NoCompression => NoopCompressor
  end.

(** ** CompressionInfo.db *)

Record CompressionMetadata := mkCompressionMetadata {
  cm_algorithm : CompressionAlgorithm;
  cm_chunk_length : Z;
  cm_max_compressed_length : Z;
  cm_data_length : Z;
  cm_chunk_offsets : list Z;
  cm_option_pairs : list (list Z * list Z);
}.

Definition compression_metadata_new (a : CompressionAlgorithm) (chunk_length : Z) : CompressionMetadata :=
  mkCompressionMetadata a chunk_length i32_MAX 0 [] [].

Definition write_utf (s : list Z) : list Z := be_bytes 2 (as_u16 (zlen s)) ++ s.

Fixpoint write_option_pairs (pairs : list (list Z * list Z)) : result Error (list Z) :=
  match pairs with
  | [] => Ok []
  | (key, value) :: pairs =>
      if (zlen key >? u16_MAX) || (zlen value >? u16_MAX) then Err InvalidInput
      else
        rest ← write_option_pairs pairs;
        Ok (write_utf key ++ write_utf value ++ rest)
  end.

Definition build_content (m : CompressionMetadata) : result Error (list Z) :=
  let name := cassandra_name (cm_algorithm m) in
  if zlen name >? u16_MAX then Err InvalidInput
  else if zlen (cm_option_pairs m) >? u32_MAX then Err InvalidInput
  else
    options ← write_option_pairs (cm_option_pairs m);
    if zlen (cm_chunk_offsets m) >? u32_MAX then Err InvalidInput
    else
      Ok (write_utf name ++ be_bytes 4 (zlen (cm_option_pairs m)) ++ options
          ++ be_bytes 4 (cm_chunk_length m) ++ be_bytes 4 (cm_max_compressed_length m)
          ++ be_bytes 8 (cm_data_length m) ++ be_bytes 4 (zlen (cm_chunk_offsets m))
          ++ flat_map (be_bytes 8) (cm_chunk_offsets m)).

(** [guard_unsupported_production_write] *)
Definition guard_unsupported_production_write (a : CompressionAlgorithm) : result Error () :=
  match a with NoCompression => Ok () | _ => Err UnsupportedFormat end.

Record CompressionInfo := mkCompressionInfo {
  ci_algorithm : list Z;
  ci_option_pairs : list (list Z * list Z);
  ci_chunk_length : Z;
  ci_max_compressed_length : Z;
  ci_data_length : Z;
  ci_chunk_offsets : list Z;
}.

Definition SUPPORTED_COMPRESSOR_NAMES : list (list Z) :=
  map cassandra_name [Lz4; Snappy; Deflate; Zstd; NoCompression].

(** What follows the last dot: [rsplit('.').next()]. *)
Fixpoint simple_name (current rest : list Z) : list Z :=
  match rest with
  | [] => current
  | c :: rest => if c =? 46 then simple_name [] rest else simple_name (current ++ [c]) rest
  end.

Definition is_supported_compressor_name (name : list Z) : bool :=
  bool_decide (simple_name [] name ∈ SUPPORTED_COMPRESSOR_NAMES).

Definition read_fixed (n : Z) (input : list Z) : result Error (Z * list Z) :=
  if zlen input <? n then Err InvalidFormat
  else Ok (from_be (take (Z.to_nat n) input), drop (Z.to_nat n) input).

Definition read_utf (input : list Z) : result Error (list Z * list Z) :=
  '(len, input) ← read_fixed 2 input;
  if zlen input <? len then Err InvalidFormat
  else
    let s := take (Z.to_nat len) input in
    if utf8_valid s then Ok (s, drop (Z.to_nat len) input) else Err InvalidFormat.

Fixpoint read_option_pairs (count : nat) (input : list Z) : result Error (list (list Z * list Z) * list Z) :=
  match count with
  | O => Ok ([], input)
  | S count =>
      '(key, input) ← read_utf input;
      '(value, input) ← read_utf input;
      '(pairs, input) ← read_option_pairs count input;
      Ok ((key, value) :: pairs, input)
  end.

Fixpoint read_chunk_offsets (count : nat) (input : list Z) : result Error (list Z * list Z) :=
  match count with
  | O => Ok ([], input)
  | S count =>
      '(offset, input) ← read_fixed 8 input;
      '(offsets, input) ← read_chunk_offsets count input;
      Ok (offset :: offsets, input)
  end.

Fixpoint offsets_ascend (offsets : list Z) : bool :=
  match offsets with
  | a :: (b :: _) as rest => (a <? b) && offsets_ascend rest
  | _ => true
  end.

Definition validate (info : CompressionInfo) : result Error () :=
  if is_empty (ci_algorithm info) then Err InvalidFormat
  else if ci_chunk_length info =? 0 then Err InvalidFormat
  else if is_empty (ci_chunk_offsets info) then Err InvalidFormat
  else if offsets_ascend (ci_chunk_offsets info) then Ok () else Err InvalidFormat.

Definition parse_compression_info (data : list Z) : result Error CompressionInfo :=
  if is_empty data then Err InvalidFormat
  else
    '(algorithm, input) ← read_utf data;
    if is_empty algorithm then Err InvalidFormat
    else if negb (is_supported_compressor_name algorithm) then Err UnsupportedFormat
    else
      let algorithm := simple_name [] algorithm in
      '(option_count, input) ← read_fixed 4 input;
      if option_count >? 256 then Err InvalidFormat
      else
        '(option_pairs, input) ← read_option_pairs (Z.to_nat option_count) input;
        '(chunk_length, input) ← read_fixed 4 input;
        if chunk_length =? 0 then Err InvalidFormat
        else if chunk_length >? 256 * 1024 * 1024 then Err InvalidFormat
        else
          '(max_compressed_length, input) ← read_fixed 4 input;
          if max_compressed_length =? 0 then Err InvalidFormat
          else
            '(data_length, input) ← read_fixed 8 input;
            '(chunk_count, input) ← read_fixed 4 input;
            if chunk_count =? 0 then Err InvalidFormat
            else if chunk_count >? 1000000 then Err InvalidFormat
            else
              '(chunk_offsets, _) ← read_chunk_offsets (Z.to_nat chunk_count) input;
              let info := mkCompressionInfo algorithm option_pairs chunk_length max_compressed_length
                            data_length chunk_offsets in
              _ ← validate info;
              Ok info.

(** ** Writing chunks *)

Section Writer.
Context `{Crc32} (compressor : Compressor).

Record CompressedDataWriter := mkCompressedDataWriter {
  cw_output : list Z;
  cw_chunk_size : Z;
  cw_buffer : list Z;
  cw_chunk_offsets : list Z;
  cw_uncompressed_length : Z;
  cw_position : Z;
}.

Definition DEFAULT_CHUNK_SIZE : Z := 65536.

Definition with_chunk_size (chunk_size : Z) : CompressedDataWriter :=
  mkCompressedDataWriter [] chunk_size [] [] 0 0.

Definition with_cw_buffer (buffer : list Z) (w : CompressedDataWriter) : CompressedDataWriter :=
  mkCompressedDataWriter (cw_output w) (cw_chunk_size w) buffer (cw_chunk_offsets w)
    (cw_uncompressed_length w) (cw_position w).

(** A chunk is its compressed bytes and their checksum. *)
Definition flush_chunk (w : CompressedDataWriter) : result Error CompressedDataWriter :=
  if is_empty (cw_buffer w) then Ok w
  else
    compressed ← compress compressor (cw_buffer w);
    Ok (mkCompressedDataWriter (cw_output w ++ compressed ++ be_bytes 4 (crc32 compressed)) (cw_chunk_size w) []
          (cw_chunk_offsets w ++ [cw_position w]) (cw_uncompressed_length w + zlen (cw_buffer w))
          (cw_position w + zlen compressed + 4)).

(** [None] is out of fuel: with a chunk size of 0 the loop makes no progress. *)
Fixpoint write_loop (fuel : nat) (remaining : list Z) (w : CompressedDataWriter) :
    option (result Error CompressedDataWriter) :=
  match remaining, fuel with
  | [], _ => Some (Ok w)
  | _, O => None
  | _, S fuel =>
      let space := cw_chunk_size w - zlen (cw_buffer w) in
      let n := Z.to_nat (Z.min (zlen remaining) space) in
      let w := with_cw_buffer (cw_buffer w ++ take n remaining) w in
      let remaining := drop n remaining in
      if zlen (cw_buffer w) >=? cw_chunk_size w then
        match flush_chunk w with
        | Ok w => write_loop fuel remaining w
        | Err e => Some (Err e)
        end
      else write_loop fuel remaining w
  end.

Definition cw_write (data : list Z) (w : CompressedDataWriter) : option (result Error CompressedDataWriter) :=
  write_loop (length data) data w.

Definition cw_finish (w : CompressedDataWriter) : result Error (list Z * CompressionMetadata) :=
  w ← flush_chunk w;
  Ok (cw_output w,
      mkCompressionMetadata (algorithm compressor) (as_u32 (cw_chunk_size w)) i32_MAX
        (cw_uncompressed_length w) (cw_chunk_offsets w) []).
End Writer.

(** ** Reading chunks *)

Definition chunk_for_offset (info : CompressionInfo) (offset : Z) : nat := Z.to_nat (offset / ci_chunk_length info).
Definition offset_within_chunk (info : CompressionInfo) (offset : Z) : Z := offset mod ci_chunk_length info.
Definition compressed_chunk_offset (info : CompressionInfo) (chunk_index : nat) : option Z :=
  ci_chunk_offsets info !! chunk_index.

Definition checked_sub (a b : Z) : option Z := if b <=? a then Some (a - b) else None.

(** The last chunk ends with the file. *)
Definition compressed_chunk_size (info : CompressionInfo) (chunk_index : nat) (total : Z) : option Z :=
  start ← compressed_chunk_offset info chunk_index;
  checked_sub (default total (compressed_chunk_offset info (S chunk_index))) start.

Definition expected_decompressed_len (info : CompressionInfo) (chunk_index : nat) : Z :=
  let start := sat_mul64 (Z.of_nat chunk_index) (ci_chunk_length info) in
  Z.min (Z.max 0 (ci_data_length info - start)) (ci_chunk_length info).

(** *** Dictionaries of zstd *)

Definition to_ascii_lower (c : Z) : Z := if (65 <=? c) && (c <=? 90) then c + 32 else c.

Fixpoint has_prefix (p s : list Z) : bool :=
  match p, s with
  | [], _ => true
  | x :: p, y :: s => (x =? y) && has_prefix p s
  | _ :: _, [] => false
  end.

Fixpoint contains (p s : list Z) : bool :=
  has_prefix p s || match s with [] => false | _ :: s => contains p s end.

Definition zstd_dictionary_option (info : CompressionInfo) : option (list Z) :=
  fst <$> List.find (fun kv => contains (bytes_of "dictionary") (map to_ascii_lower kv.1)) (ci_option_pairs info).

Definition ZSTD_MAGIC_LE : list Z := [0x28; 0xB5; 0x2F; 0xFD].

Definition zstd_frame_dictionary_id (frame : list Z) : option Z :=
  if (zlen frame <? 5) || negb (bool_decide (take 4 frame = ZSTD_MAGIC_LE)) then None
  else
    let descriptor := nth 4 frame 0 in
    let did_size := match Z.land descriptor 0x03 with 0 => 0 | 1 => 1 | 2 => 2 | _ => 4 end in
    if did_size =? 0 then None
    else
      let single_segment := negb (Z.land descriptor 0x20 =? 0) in
      let did_start := 5 + (if single_segment then 0 else 1) in
      if zlen frame <? did_start + did_size then None
      else
        let id := from_le (take (Z.to_nat did_size) (drop (Z.to_nat did_start) frame)) in
        if id =? 0 then None else Some id.

Definition zstd_dictionary_rejection (info : CompressionInfo) (compressed : list Z) : bool :=
  is_some (zstd_dictionary_option info) || is_some (zstd_frame_dictionary_id compressed).

(** *** One chunk *)

Section Reader.
Context `{Crc32} `{Codecs} (info : CompressionInfo) (file : list Z).

Definition chunk_size_guard : Z :=
  if ci_chunk_length info =? 0 then 128 * 1024 * 1024 else ci_chunk_length info.

Definition decompress_lz4_chunk (compressed : list Z) (chunk_index : nat) : result Error (list Z) :=
  if zlen compressed <? 4 then Err InvalidFormat
  else
    let decompressed_length := from_le (take 4 compressed) in
    if negb (decompressed_length =? expected_decompressed_len info chunk_index) then Err InvalidFormat
    else
      match lz4_decompress (drop 4 compressed) decompressed_length with
      | Ok decompressed =>
          if zlen decompressed =? decompressed_length then Ok decompressed else Err InvalidFormat
      | Err _ => Err InvalidFormat
      end.

Definition decompress_snappy_chunk (compressed : list Z) : result Error (list Z) :=
  match snap_decompress_len compressed with
  | Err _ => Err InvalidFormat
  | Ok advertised =>
      if advertised >? chunk_size_guard then Err InvalidFormat
      else match snap_decompress compressed with Ok d => Ok d | Err _ => Err InvalidFormat end
  end.

(** What a stream decoder gives up to one byte past the guard. *)
Definition guarded (decoded : result Error (list Z)) : result Error (list Z) :=
  match decoded with
  | Ok d => if zlen d >? chunk_size_guard then Err InvalidFormat else Ok d
  | Err _ => Err InvalidFormat
  end.

Definition decompress_deflate_chunk (compressed : list Z) : result Error (list Z) :=
  guarded (zlib_decode compressed (chunk_size_guard + 1)).

Definition decompress_zstd_chunk (compressed : list Z) : result Error (list Z) :=
  if zstd_dictionary_rejection info compressed then Err UnsupportedFormat
  else guarded (zstd_decode compressed (chunk_size_guard + 1)).

Definition decompress_with_algorithm (compressed : list Z) (chunk_index : nat) : result Error (list Z) :=
  let a := ci_algorithm info in
  if bool_decide (a = cassandra_name Lz4) then decompress_lz4_chunk compressed chunk_index
  else if bool_decide (a = cassandra_name Snappy) then decompress_snappy_chunk compressed
  else if bool_decide (a = cassandra_name Deflate) then decompress_deflate_chunk compressed
  else if bool_decide (a = cassandra_name Zstd) then decompress_zstd_chunk compressed
  else Err UnsupportedFormat.

(** The compressed bytes are already checked: raw if they reach the threshold. *)
Definition decode_chunk (compressed : list Z) (chunk_index : nat) : result Error (list Z) :=
  decompressed ← (if zlen compressed >=? ci_max_compressed_length info then Ok compressed
                  else decompress_with_algorithm compressed chunk_index);
  if zlen decompressed =? expected_decompressed_len info chunk_index then Ok decompressed
  else Err InvalidFormat.

(** *** The decompressor *)

(** [cd_source_pos] is where the reader stands, [cd_stream_pos] where the decompressor
    believes it to stand; the cache holds the most recent first. *)
Record ChunkDecompressor := mkChunkDecompressor {
  cd_chunk_cache : list (nat * list Z);
  cd_decompress_calls : Z;
  cd_data_file_size : option Z;
  cd_stream_pos : option Z;
  cd_source_pos : Z;
}.

Definition CHUNK_CACHE_CAPACITY : nat := 16.

Definition decompressor_new (source_pos : Z) : result Error ChunkDecompressor :=
  _ ← validate info; Ok (mkChunkDecompressor [] 0 None None source_pos).

Definition with_cache (cache : list (nat * list Z)) (d : ChunkDecompressor) : ChunkDecompressor :=
  mkChunkDecompressor cache (cd_decompress_calls d) (cd_data_file_size d) (cd_stream_pos d) (cd_source_pos d).

Definition at_pos (stream_pos : option Z) (source_pos : Z) (d : ChunkDecompressor) : ChunkDecompressor :=
  mkChunkDecompressor (cd_chunk_cache d) (cd_decompress_calls d) (cd_data_file_size d) stream_pos source_pos.

(** [read_exact]: a short file leaves the reader at its end. *)
Definition read_exact (pos n : Z) : result Error (list Z) * Z :=
  if zlen file <? pos + n then (Err Io, zlen file)
  else (Ok (take (Z.to_nat n) (drop (Z.to_nat pos) file)), pos + n).

(** The size is asked for once; the reader comes back to where it was. *)
Definition note_file_size (d : ChunkDecompressor) : Z * ChunkDecompressor :=
  match cd_data_file_size d with
  | Some size => (size, d)
  | None =>
      (zlen file, mkChunkDecompressor (cd_chunk_cache d) (cd_decompress_calls d) (Some (zlen file))
                    (Some (cd_source_pos d)) (cd_source_pos d))
  end.

Definition bump_calls (d : ChunkDecompressor) : ChunkDecompressor :=
  mkChunkDecompressor (cd_chunk_cache d) (sat_add64 (cd_decompress_calls d) 1) (cd_data_file_size d)
    (cd_stream_pos d) (cd_source_pos d).

(** The record at an offset: the seek is left out when the reader already stands there. *)
Definition read_record (compressed_offset record_size : Z) (d : ChunkDecompressor) :
    ChunkDecompressor * result Error (list Z) :=
  let start := if bool_decide (cd_stream_pos d = Some compressed_offset) then cd_source_pos d
               else compressed_offset in
  match read_exact start (record_size - 4) with
  | (Err e, pos) => (at_pos None pos d, Err e)
  | (Ok compressed, pos) =>
      match read_exact pos 4 with
      | (Err e, pos) => (at_pos None pos d, Err e)
      | (Ok crc_bytes, pos) =>
          let d := at_pos (Some (sat_add64 compressed_offset record_size)) pos d in
          if from_be crc_bytes =? crc32 compressed then (d, Ok compressed) else (d, Err InvalidFormat)
      end
  end.

Definition decompress_chunk (chunk_index : nat) (d : ChunkDecompressor) :
    ChunkDecompressor * result Error (list Z) :=
  let d := bump_calls d in
  match compressed_chunk_offset info chunk_index with
  | None => (d, Err InvalidFormat)
  | Some compressed_offset =>
      let '(file_size, d) := note_file_size d in
      match compressed_chunk_size info chunk_index file_size with
      | None => (d, Err InvalidFormat)
      | Some record_size =>
          if record_size <? 4 then (d, Err InvalidFormat)
          else
            let '(d, compressed) := read_record compressed_offset record_size d in
            (d, compressed ← compressed; decode_chunk compressed chunk_index)
      end
  end.

(** [LruCache::get] promotes, [LruCache::put] evicts. *)
Definition cache_get (chunk_index : nat) (cache : list (nat * list Z)) : option (list Z * list (nat * list Z)) :=
  match List.find (fun e => (e.1 =? chunk_index)%nat) cache with
  | Some (_, data) => Some (data, (chunk_index, data) :: List.filter (fun e => negb (e.1 =? chunk_index)%nat) cache)
  | None => None
  end.

Definition cache_put (chunk_index : nat) (data : list Z) (cache : list (nat * list Z)) : list (nat * list Z) :=
  take CHUNK_CACHE_CAPACITY
    ((chunk_index, data) :: List.filter (fun e => negb (e.1 =? chunk_index)%nat) cache).

Definition get_decompressed_chunk (chunk_index : nat) (d : ChunkDecompressor) :
    ChunkDecompressor * result Error (list Z) :=
  match cache_get chunk_index (cd_chunk_cache d) with
  | Some (data, cache) => (with_cache cache d, Ok data)
  | None =>
      match decompress_chunk chunk_index d with
      | (d, Ok data) => (with_cache (cache_put chunk_index data (cd_chunk_cache d)) d, Ok data)
      | (d, Err e) => (d, Err e)
      end
  end.

(** Each turn takes at least one byte, so the length is fuel. *)
Fixpoint read_data_loop (fuel : nat) (remaining current_offset : Z) (acc : list Z) (d : ChunkDecompressor) :
    ChunkDecompressor * result Error (list Z) :=
  match fuel with
  | O => (d, Ok acc)
  | S fuel =>
      if remaining <=? 0 then (d, Ok acc)
      else
        let chunk_index := chunk_for_offset info current_offset in
        let chunk_start := offset_within_chunk info current_offset in
        match get_decompressed_chunk chunk_index d with
        | (d, Err e) => (d, Err e)
        | (d, Ok chunk_data) =>
            let chunk_end := Z.min (chunk_start + remaining) (zlen chunk_data) in
            if chunk_start >=? zlen chunk_data then (d, Err InvalidFormat)
            else
              let slice := take (Z.to_nat (chunk_end - chunk_start)) (drop (Z.to_nat chunk_start) chunk_data) in
              read_data_loop fuel (remaining - zlen slice) (current_offset + zlen slice) (acc ++ slice) d
        end
  end.

Definition read_data (offset len : Z) (d : ChunkDecompressor) : ChunkDecompressor * result Error (list Z) :=
  read_data_loop (Z.to_nat len) len offset [] (at_pos None (cd_source_pos d) d).

Definition read_all_data (d : ChunkDecompressor) : ChunkDecompressor * result Error (list Z) :=
  read_data 0 (ci_data_length info) d.

Definition decompress_chunk_by_index (chunk_index : nat) (d : ChunkDecompressor) :
    ChunkDecompressor * result Error (list Z) :=
  get_decompressed_chunk chunk_index (at_pos None (cd_source_pos d) d).

Definition clear_cache (d : ChunkDecompressor) : ChunkDecompressor := with_cache [] d.

(** [ChunkReader::read_chunk]: the compressed bytes of a chunk, checked. *)
Definition read_chunk (total_file_size : Z) (chunk_index : nat) : result Error (list Z) :=
  match compressed_chunk_offset info chunk_index, compressed_chunk_size info chunk_index total_file_size with
  | Some offset, Some total_chunk_size =>
      if total_chunk_size <? 4 then Err InvalidFormat
      else
        match read_exact offset (total_chunk_size - 4) with
        | (Err e, _) => Err e
        | (Ok chunk_data, pos) =>
            match read_exact pos 4 with
            | (Err e, _) => Err e
            | (Ok crc_bytes, _) => if crc32 chunk_data =? from_be crc_bytes then Ok chunk_data else Err InvalidFormat
            end
        end
  | _, _ => Err InvalidFormat
  end.

Fixpoint read_chunks (total_file_size : Z) (indices : list nat) : result Error (list (list Z)) :=
  match indices with
  | [] => Ok []
  | i :: indices =>
      chunk ← read_chunk total_file_size i;
      chunks ← read_chunks total_file_size indices;
      Ok (chunk :: chunks)
  end.

(** [ChunkReader::read_all_chunks] *)
Definition read_all_chunks (total_file_size : Z) : result Error (list (list Z)) :=
  read_chunks total_file_size (seq 0 (length (ci_chunk_offsets info))).
End Reader.
