(* ===== verification/CompressionProps.v ===== *)
(** Compression round trips: CompressionInfo.db is read as written, and any slice of the
    data is read back from its compressed chunks, in any order of reads. *)

From S2P Require Import Prelude Values Stats Cells CellProps Wal Markers Compression.

Open Scope Z_scope.

(** ** CompressionInfo.db *)

Lemma read_fixed_app k v rest :
  u_range (8 * Z.of_nat k) v -> read_fixed (Z.of_nat k) (be_bytes k v ++ rest) = Ok (v, rest).
Proof.
  intros Hv. unfold read_fixed. rewrite zlen_app. pose proof (zlen_nonneg rest).
  assert (El : zlen (be_bytes k v) = Z.of_nat k) by (unfold zlen; by rewrite be_bytes_length).
  rewrite El, (proj2 (Z.ltb_ge _ _)) by lia. rewrite Nat2Z.id.
  rewrite take_app_length', drop_app_length' by (by rewrite be_bytes_length). by rewrite from_be_bytes_id.
Qed.

Lemma read_utf_app s rest :
  utf8_valid s = true -> zlen s <= u16_MAX -> read_utf (write_utf s ++ rest) = Ok (s, rest).
Proof.
  intros Hs Hl. pose proof (zlen_nonneg s). unfold u16_MAX in Hl. unfold read_utf, write_utf. rewrite <- app_assoc.
  assert (Ea : as_u16 (zlen s) = zlen s) by (apply wrap_id; unfold u_range; lia). rewrite Ea.
  rewrite (read_fixed_app 2) by (unfold u_range; cbn; lia). cbn [mbind result_bind].
  rewrite zlen_app. pose proof (zlen_nonneg rest). rewrite (proj2 (Z.ltb_ge _ _)) by lia. cbv zeta.
  replace (Z.to_nat (zlen s)) with (length s) by (unfold zlen; lia).
  rewrite take_app_length, drop_app_length. by rewrite Hs.
Qed.

Definition utf_ok (s : list Z) : Prop := utf8_valid s = true /\ zlen s <= u16_MAX.
Definition pairs_ok (pairs : list (list Z * list Z)) : Prop := Forall (fun kv => utf_ok kv.1 /\ utf_ok kv.2) pairs.
Definition pairs_bytes (pairs : list (list Z * list Z)) : list Z :=
  flat_map (fun kv => write_utf kv.1 ++ write_utf kv.2) pairs.

Lemma option_pairs_written pairs : pairs_ok pairs -> write_option_pairs pairs = Ok (pairs_bytes pairs).
Proof.
  induction 1 as [|[k v] pairs [[_ Hk] [_ Hv]] _ IH]; [done|]. cbn [write_option_pairs pairs_bytes flat_map fst snd] in *.
  rewrite !Z.gtb_ltb, !(proj2 (Z.ltb_ge _ _)) by lia. cbn [orb]. rewrite IH. cbn [mbind result_bind]. by rewrite <- app_assoc.
Qed.

Lemma option_pairs_read pairs rest :
  pairs_ok pairs -> read_option_pairs (length pairs) (pairs_bytes pairs ++ rest) = Ok (pairs, rest).
Proof.
  induction 1 as [|[k v] pairs [[Hk1 Hk2] [Hv1 Hv2]] _ IH]; [done|]. cbn [length pairs_bytes flat_map fst snd] in *.
  cbn [read_option_pairs]. rewrite <- !app_assoc, read_utf_app by done. cbn [mbind result_bind].
  rewrite read_utf_app by done. cbn [mbind result_bind]. unfold pairs_bytes in IH. by rewrite IH.
Qed.

Lemma chunk_offsets_read os rest :
  Forall is_u64 os -> read_chunk_offsets (length os) (flat_map (be_bytes 8) os ++ rest) = Ok (os, rest).
Proof.
  induction 1 as [|o os Ho Hos IH]; [done|]. cbn [length flat_map read_chunk_offsets].
  rewrite <- app_assoc, (read_fixed_app 8) by done. cbn [mbind result_bind]. by rewrite IH.
Qed.

Record MetadataOk (m : CompressionMetadata) : Prop := {
  mo_pairs : pairs_ok (cm_option_pairs m) /\ zlen (cm_option_pairs m) <= 256;
  mo_chunk_length : 1 <= cm_chunk_length m <= 2 ^ 28;
  mo_max : 1 <= cm_max_compressed_length m < 2 ^ 32;
  mo_data_length : is_u64 (cm_data_length m);
  mo_chunks : 1 <= zlen (cm_chunk_offsets m) <= 1000000;
  mo_offsets : Forall is_u64 (cm_chunk_offsets m) /\ offsets_ascend (cm_chunk_offsets m) = true;
}.

Definition info_of (m : CompressionMetadata) : CompressionInfo :=
  mkCompressionInfo (cassandra_name (cm_algorithm m)) (cm_option_pairs m) (cm_chunk_length m)
    (cm_max_compressed_length m) (cm_data_length m) (cm_chunk_offsets m).

Lemma name_facts a :
  utf_ok (cassandra_name a) /\ is_empty (cassandra_name a) = false /\
  is_supported_compressor_name (cassandra_name a) = true /\ simple_name [] (cassandra_name a) = cassandra_name a.
Proof. unfold utf_ok. destruct a; vm_compute; done. Qed.

Lemma info_reads m :
  MetadataOk m -> exists bytes, build_content m = Ok bytes /\ parse_compression_info bytes = Ok (info_of m).
Proof.
  intros [[Hp Hpl] Hc Hm Hd Hn [Ho Ha]]. destruct (name_facts (cm_algorithm m)) as ([Hu Hl] & Hne & Hs & Hsn).
  unfold build_content. cbv zeta. rewrite !Z.gtb_ltb, (proj2 (Z.ltb_ge u16_MAX _)) by lia.
  rewrite !(proj2 (Z.ltb_ge u32_MAX _)) by (unfold u32_MAX; lia). rewrite option_pairs_written by done. cbn [mbind result_bind].
  eexists. split; [done|]. unfold parse_compression_info.
  match goal with |- context [is_empty ?l] => replace (is_empty l) with false end.
  2: { unfold write_utf. by destruct (cm_algorithm m). }
  pose proof (zlen_nonneg (cm_option_pairs m)). pose proof (zlen_nonneg (cm_chunk_offsets m)). unfold is_u64, u_range in Hd.
  rewrite read_utf_app by done. cbn [mbind result_bind]. rewrite Hne, Hs, Hsn. cbn [negb].
  rewrite (read_fixed_app 4) by (unfold u_range; cbn; lia). cbn [mbind result_bind].
  rewrite !Z.gtb_ltb, (proj2 (Z.ltb_ge 256 _)) by lia.
  replace (Z.to_nat (zlen (cm_option_pairs m))) with (length (cm_option_pairs m)) by (unfold zlen; lia).
  rewrite option_pairs_read by done. cbn [mbind result_bind].
  rewrite (read_fixed_app 4) by (unfold u_range; cbn; lia). cbn [mbind result_bind].
  rewrite (proj2 (Z.eqb_neq (cm_chunk_length m) 0)), Z.gtb_ltb, (proj2 (Z.ltb_ge _ (cm_chunk_length m))) by lia.
  rewrite (read_fixed_app 4) by (unfold u_range; cbn; lia). cbn [mbind result_bind].
  rewrite (proj2 (Z.eqb_neq (cm_max_compressed_length m) 0)) by lia.
  rewrite (read_fixed_app 8) by (unfold u_range; cbn; lia). cbn [mbind result_bind].
  rewrite (read_fixed_app 4) by (unfold u_range; cbn; lia). cbn [mbind result_bind].
  rewrite (proj2 (Z.eqb_neq (zlen (cm_chunk_offsets m)) 0)), Z.gtb_ltb, (proj2 (Z.ltb_ge _ (zlen (cm_chunk_offsets m)))) by lia.
  replace (Z.to_nat (zlen (cm_chunk_offsets m))) with (length (cm_chunk_offsets m)) by (unfold zlen; lia).
  pose proof (chunk_offsets_read (cm_chunk_offsets m) [] Ho) as Hr. rewrite app_nil_r in Hr. rewrite Hr. cbn [mbind result_bind].
  unfold validate. cbn [ci_algorithm ci_chunk_length ci_chunk_offsets]. rewrite Hne, (proj2 (Z.eqb_neq _ _)) by lia.
  rewrite Ha. unfold info_of. destruct (cm_chunk_offsets m); [change (zlen []) with 0 in *; lia|]. done.
Qed.

(** ** Records

    A chunk [c] and its compressed bytes [x]; the file is the sequence of records. *)

Section Records.
Context `{Crc32}.

Definition record (x : list Z) : list Z := x ++ be_bytes 4 (crc32 x).
Definition records (xs : list (list Z)) : list Z := flat_map record xs.

Fixpoint record_starts (start : Z) (xs : list (list Z)) : list Z :=
  match xs with [] => [] | x :: xs => start :: record_starts (start + zlen (record x)) xs end.

Lemma record_length x : zlen (record x) = zlen x + 4.
Proof. unfold record. by rewrite zlen_app, zlen_be_bytes. Qed.

Lemma records_app a b : records (a ++ b) = records a ++ records b.
Proof. apply flat_map_app. Qed.

Lemma record_starts_app a : forall start b,
  record_starts start (a ++ b) = record_starts start a ++ record_starts (start + zlen (records a)) b.
Proof.
  induction a as [|x a IH]; intros start b; cbn [app record_starts records flat_map].
  - change (zlen []) with 0. by rewrite Z.add_0_r.
  - rewrite IH, zlen_app. fold (records a). by rewrite Z.add_assoc.
Qed.

Lemma record_starts_length xs : forall start, length (record_starts start xs) = length xs.
Proof. induction xs; intros; cbn; auto. Qed.

(** The start of a record, and of the one behind it. *)
Lemma record_start_at xs1 x xs2 start :
  record_starts start (xs1 ++ x :: xs2) !! length xs1 = Some (start + zlen (records xs1)) /\
  default (start + zlen (records (xs1 ++ x :: xs2))) (record_starts start (xs1 ++ x :: xs2) !! S (length xs1))
  = start + zlen (records xs1) + zlen (record x).
Proof.
  rewrite record_starts_app, !lookup_app_r by (rewrite record_starts_length; lia).
  rewrite record_starts_length, Nat.sub_diag, Nat.sub_succ_l, Nat.sub_diag by lia. split; [done|].
  cbn [record_starts lookup list_lookup]. destruct xs2 as [|y xs2]; [|done].
  cbn [record_starts lookup list_lookup default from_option id]. rewrite records_app, zlen_app. cbn [records flat_map].
  rewrite app_nil_r. lia.
Qed.

Lemma starts_ascend xs start : offsets_ascend (record_starts start xs) = true.
Proof.
  revert start. induction xs as [|x xs IH]; intros start; [done|]. specialize (IH (start + zlen (record x))).
  destruct xs as [|y xs]; [done|]. cbn [record_starts] in *. cbn [offsets_ascend] in *. rewrite IH, andb_true_r.
  rewrite record_length. pose proof (zlen_nonneg x). lia.
Qed.

Lemma starts_range xs : forall start,
  0 <= start -> start + zlen (records xs) < 2 ^ 64 -> Forall is_u64 (record_starts start xs).
Proof.
  induction xs as [|x xs IH]; intros start Hs Hb; [constructor|]. cbn [record_starts records flat_map] in *.
  fold (records xs) in *. rewrite zlen_app in Hb. rewrite record_length in Hb. pose proof (zlen_nonneg x). pose proof (zlen_nonneg (records xs)).
  apply Forall_cons_2; [unfold is_u64, u_range; lia|]. rewrite record_length. apply IH; lia.
Qed.
End Records.

(** ** Chunks of the data *)

(** Every chunk but the last holds [n] bytes, and none is empty. *)
Definition chunked (n : Z) (cs : list (list Z)) : Prop :=
  forall i c, cs !! i = Some c -> 0 < zlen c <= n /\ (S i < length cs -> zlen c = n)%nat.

Lemma chunked_cons n c cs : chunked n (c :: cs) -> chunked n cs /\ 0 < zlen c <= n /\ (cs <> [] -> zlen c = n).
Proof.
  intros Hc. split; [|split].
  - intros i d Hi. destruct (Hc (S i) d Hi) as [H1 H2]. split; [done|]. intros. apply H2. cbn. lia.
  - by apply (Hc 0%nat).
  - intros Hne. apply (Hc 0%nat c eq_refl). destruct cs; [done|]. cbn. lia.
Qed.

Lemma chunk_at n cs : forall i c,
  chunked n cs -> cs !! i = Some c -> c = take (Z.to_nat n) (drop (Z.to_nat (n * Z.of_nat i)) (concat cs)) /\
    zlen c = Z.min (zlen (concat cs) - n * Z.of_nat i) n.
Proof.
  induction cs as [|d cs IH]; intros i c Hc Hi; [done|]. apply chunked_cons in Hc as (Hc & Hd & Hfull).
  cbn [concat]. rewrite zlen_app. pose proof (zlen_nonneg (concat cs)). destruct i as [|i].
  - injection Hi as <-. rewrite Z.mul_0_r, Z.sub_0_r. change (Z.to_nat 0) with 0%nat. rewrite drop_0.
    destruct cs as [|e cs]; [cbn [concat]; rewrite app_nil_r, take_ge by (unfold zlen in *; lia); change (zlen []) with 0; split; [done|lia]|].
    rewrite <- (Hfull ltac:(done)). replace (Z.to_nat (zlen d)) with (length d) by (unfold zlen; lia).
    rewrite take_app_length. split; [done|lia].
  - assert (Hn : zlen d = n) by (apply Hfull; by destruct cs). destruct (IH i c Hc Hi) as [-> E].
    rewrite E, Nat2Z.inj_succ. split; [|lia]. f_equal.
    replace (Z.to_nat (n * Z.succ (Z.of_nat i))) with (length d + Z.to_nat (n * Z.of_nat i))%nat by (unfold zlen in *; nia).
    by rewrite drop_app_add.
Qed.

Lemma chunked_length n cs : chunked n cs -> zlen (concat cs) <= n * zlen cs.
Proof.
  induction cs as [|c cs IH]; intros Hc; [unfold zlen; cbn; lia|]. apply chunked_cons in Hc as (Hc & Hl & _). cbn [concat].
  rewrite zlen_app, zlen_cons. specialize (IH Hc). lia.
Qed.

(** ** The writer *)

Section Writer.
Context `{Crc32} (compressor : Compressor) (n : Z) (Hn : 0 < n).

Definition compresses (c x : list Z) : Prop := compress compressor c = Ok x.

(** Between writes: whole chunks are out, and less than a chunk is buffered. *)
Record Written (data : list Z) (cs xs : list (list Z)) (w : CompressedDataWriter) : Prop := {
  wr_data : data = concat cs ++ cw_buffer w;
  wr_full : Forall (fun c => zlen c = n) cs;
  wr_chunks : Forall2 compresses cs xs;
  wr_output : cw_output w = records xs;
  wr_offsets : cw_chunk_offsets w = record_starts 0 xs;
  wr_length : cw_uncompressed_length w = zlen (concat cs);
  wr_position : cw_position w = zlen (records xs);
  wr_size : cw_chunk_size w = n;
}.

Lemma concat_snoc {A} (cs : list (list A)) c : concat (cs ++ [c]) = concat cs ++ c.
Proof. rewrite concat_app. cbn. by rewrite app_nil_r. Qed.

Lemma flush_writes w w' :
  cw_buffer w <> [] -> flush_chunk compressor w = Ok w' ->
  exists x, compresses (cw_buffer w) x /\ cw_buffer w' = [] /\
    cw_output w' = cw_output w ++ record x /\ cw_chunk_offsets w' = cw_chunk_offsets w ++ [cw_position w] /\
    cw_uncompressed_length w' = cw_uncompressed_length w + zlen (cw_buffer w) /\
    cw_position w' = cw_position w + zlen (record x) /\ cw_chunk_size w' = cw_chunk_size w.
Proof.
  intros Hb. unfold flush_chunk. destruct (is_empty (cw_buffer w)) eqn:E; [by destruct (cw_buffer w)|].
  destruct (compress compressor (cw_buffer w)) as [x|e] eqn:Ex; [|done]. cbn [mbind result_bind]. intros [= <-].
  exists x. cbn. rewrite record_length. split; [done|]. repeat split; lia.
Qed.

Lemma written_flush data cs xs w w' :
  Written data cs xs w -> zlen (cw_buffer w) = n -> flush_chunk compressor w = Ok w' ->
  exists xs', Written data (cs ++ [cw_buffer w]) xs' w' /\ cw_buffer w' = [].
Proof.
  intros [Hd Hf Hc Ho Hs Hl Hp Hz] Hb Hw.
  assert (Hne : cw_buffer w <> []) by (intros E; rewrite E in Hb; change (zlen []) with 0 in Hb; lia).
  destruct (flush_writes w w' Hne Hw) as (x & Hx & E1 & E2 & E3 & E4 & E5 & E6).
  exists (xs ++ [x]). split; [|done]. constructor.
  - by rewrite E1, app_nil_r, concat_snoc.
  - apply Forall_app. split; [done|]. by apply Forall_singleton.
  - apply Forall2_app; [done|]. by apply Forall2_cons.
  - rewrite E2, Ho, records_app. cbn [records flat_map]. by rewrite app_nil_r.
  - by rewrite E3, Hs, record_starts_app, Hp.
  - by rewrite E4, Hl, concat_snoc, zlen_app.
  - rewrite E5, Hp, records_app, zlen_app. cbn [records flat_map]. by rewrite app_nil_r.
  - congruence.
Qed.

Lemma written_loop fuel : forall remaining data cs xs w,
  Written data cs xs w -> zlen (cw_buffer w) < n -> (length remaining <= fuel)%nat ->
  exists r, write_loop compressor fuel remaining w = Some r /\
    forall w', r = Ok w' -> exists cs' xs', Written (data ++ remaining) cs' xs' w' /\ zlen (cw_buffer w') < n.
Proof.
  induction fuel as [|fuel IH]; intros remaining data cs xs w Hw Hb Hf.
  { destruct remaining; [|cbn in Hf; lia]. exists (Ok w). split; [done|]. intros w' [= <-]. exists cs, xs. by rewrite app_nil_r. }
  destruct remaining as [|b remaining]; [exists (Ok w); split; [done|]; intros w' [= <-]; exists cs, xs; by rewrite app_nil_r|].
  cbn [write_loop]. set (rem := b :: remaining) in *. set (k := Z.to_nat _).
  pose proof (zlen_nonneg (cw_buffer w)).
  assert (Ek : k = Z.to_nat (Z.min (zlen rem) (n - zlen (cw_buffer w)))) by (subst k; by rewrite (wr_size _ _ _ _ Hw)).
  clearbody k.
  assert (Hrem : 0 < zlen rem) by (subst rem; rewrite zlen_cons; pose proof (zlen_nonneg remaining); lia).
  assert (Hk : (1 <= k <= length rem)%nat) by (subst k; unfold zlen in *; lia).
  assert (Hk2 : zlen (cw_buffer w) + Z.of_nat k <= n) by (subst k; lia).
  set (w1 := with_cw_buffer (cw_buffer w ++ take k rem) w).
  assert (Hl1 : zlen (cw_buffer w1) = zlen (cw_buffer w) + Z.of_nat k).
  { cbn. rewrite zlen_app. unfold zlen at 2. rewrite length_take. lia. }
  assert (Hw1 : Written (data ++ take k rem) cs xs w1).
  { destruct Hw. constructor; try done. cbn. by rewrite wr_data0, <- app_assoc. }
  assert (Ed : data ++ rem = (data ++ take k rem) ++ drop k rem) by by rewrite <- app_assoc, take_drop.
  assert (Hf' : (length (drop k rem) <= fuel)%nat) by (rewrite length_drop; subst rem; cbn [length] in *; lia).
  change (cw_chunk_size w1) with (cw_chunk_size w). rewrite (wr_size _ _ _ _ Hw). rewrite Ed.
  destruct (zlen (cw_buffer w1) >=? n) eqn:Ege.
  - destruct (flush_chunk compressor w1) as [w2|e] eqn:Efl; [|exists (Err e); by split].
    destruct (written_flush _ _ _ _ _ Hw1 ltac:(lia) Efl) as (xs' & Hw2 & Eb).
    apply (IH _ _ _ _ w2 Hw2); [|done]. rewrite Eb. change (zlen []) with 0. lia.
  - apply (IH _ _ _ _ w1 Hw1); [lia|done].
Qed.

(** Writes one after another. *)
Fixpoint write_pieces (pieces : list (list Z)) (w : CompressedDataWriter) : option (result Error CompressedDataWriter) :=
  match pieces with
  | [] => Some (Ok w)
  | p :: pieces =>
      match cw_write compressor p w with
      | Some (Ok w) => write_pieces pieces w
      | r => r
      end
  end.

Lemma written_pieces pieces : forall data cs xs w,
  Written data cs xs w -> zlen (cw_buffer w) < n ->
  exists r, write_pieces pieces w = Some r /\
    forall w', r = Ok w' -> exists cs' xs', Written (data ++ concat pieces) cs' xs' w' /\ zlen (cw_buffer w') < n.
Proof.
  induction pieces as [|p pieces IH]; intros data cs xs w Hw Hb.
  { exists (Ok w). split; [done|]. intros w' [= <-]. exists cs, xs. cbn. by rewrite app_nil_r. }
  cbn [write_pieces]. destruct (written_loop (length p) p _ _ _ _ Hw Hb) as (r & Er & Hr); [lia|].
  unfold cw_write. rewrite Er. destruct r as [w1|e]; [|exists (Err e); by split].
  destruct (Hr w1 eq_refl) as (cs1 & xs1 & Hw1 & Hb1). cbn [concat]. rewrite app_assoc. by eapply IH.
Qed.

(** What the finished writer leaves: the chunks of the data, compressed. *)
Lemma finished pieces w out md :
  write_pieces pieces (with_chunk_size n) = Some (Ok w) -> cw_finish compressor w = Ok (out, md) -> n < 2 ^ 32 ->
  exists cs xs, concat pieces = concat cs /\ chunked n cs /\ Forall2 compresses cs xs /\ out = records xs /\
    md = mkCompressionMetadata (algorithm compressor) n i32_MAX (zlen (concat cs)) (record_starts 0 xs) [].
Proof.
  intros Hp Hf Hn2.
  assert (H0 : Written [] [] [] (with_chunk_size n)) by by constructor.
  destruct (written_pieces pieces _ _ _ _ H0) as (r & Er & Hr); [cbn; change (zlen []) with 0; lia|].
  rewrite Hp in Er. injection Er as <-. destruct (Hr w eq_refl) as (cs & xs & Hw & Hb). clear Hr. cbn [app] in Hw.
  assert (Hu : as_u32 n = n) by (apply wrap_id; unfold u_range; lia).
  assert (Hfull : forall i c, cs !! i = Some c -> zlen c = n).
  { intros i c Hi. pose proof (wr_full _ _ _ _ Hw) as Hall. rewrite Forall_lookup in Hall. by apply (Hall i). }
  unfold cw_finish in Hf. destruct (decide (cw_buffer w = [])) as [Eb|Eb].
  - assert (E : flush_chunk compressor w = Ok w) by (unfold flush_chunk; by rewrite Eb).
    rewrite E in Hf. cbn [mbind result_bind] in Hf. injection Hf as <- <-. destruct Hw. exists cs, xs.
    split; [by rewrite wr_data0, Eb, app_nil_r|]. split; [|split; [done|]; split; [done|]].
    + intros i c Hi. specialize (Hfull i c Hi). lia.
    + by rewrite wr_size0, Hu, wr_length0, wr_offsets0.
  - destruct (flush_chunk compressor w) as [w'|e] eqn:Efl; [|done]. cbn [mbind result_bind] in Hf. injection Hf as <- <-.
    destruct (flush_writes w w' Eb Efl) as (x & Hx & E1 & E2 & E3 & E4 & E5 & E6). destruct Hw.
    exists (cs ++ [cw_buffer w]), (xs ++ [x]). rewrite concat_snoc. split; [done|]. split; [|split; [|split]].
    + intros i c Hi. rewrite length_app. cbn [length]. apply lookup_app_Some in Hi as [Hi|[Hge Hi]].
      * specialize (Hfull i c Hi). lia.
      * destruct (i - length cs)%nat as [|j] eqn:Ei; [|done]. injection Hi as <-. split; [|lia].
        destruct (cw_buffer w); [done|]. rewrite zlen_cons in *. pose proof (zlen_nonneg l). lia.
    + apply Forall2_app; [done|]. by apply Forall2_cons.
    + rewrite E2, wr_output0, records_app. cbn [records flat_map]. by rewrite app_nil_r.
    + rewrite E6, wr_size0, Hu, E4, wr_length0, E3, wr_offsets0, record_starts_app, wr_position0, zlen_app. done.
Qed.
End Writer.

(** ** The reader *)

(** Reads one after another, each with its result. *)
Fixpoint reads `{Crc32} `{Codecs} (info : CompressionInfo) (file : list Z) (requests : list (Z * Z)) (d : ChunkDecompressor) :
    list (result Error (list Z)) :=
  match requests with
  | [] => []
  | (offset, len) :: requests => let '(d, r) := read_data info file offset len d in r :: reads info file requests d
  end.

Section Reader.
Context `{Crc32} `{Codecs} (info : CompressionInfo) (cs xs : list (list Z)).
#[local] Abbreviation n := (ci_chunk_length info).
#[local] Abbreviation file := (records xs).

(** The file of the chunks, each of which decodes. *)
Record FileOk : Prop := {
  fo_size : 0 < n;
  fo_chunks : chunked n cs;
  fo_length : ci_data_length info = zlen (concat cs);
  fo_offsets : ci_chunk_offsets info = record_starts 0 xs;
  fo_range : zlen file <= u64_MAX /\ zlen (concat cs) <= u64_MAX;
  fo_count : length xs = length cs;
  fo_decodes : forall i c x, cs !! i = Some c -> xs !! i = Some x ->
    zlen x < ci_max_compressed_length info /\ decompress_with_algorithm info x i = Ok c;
}.
Hypothesis Hok : FileOk.

(** What a decompressor knows is true. *)
Record DecompressorOk (d : ChunkDecompressor) : Prop := {
  do_cache : Forall (fun e => cs !! e.1 = Some e.2) (cd_chunk_cache d);
  do_size : forall size, cd_data_file_size d = Some size -> size = zlen file;
  do_stream : forall p, cd_stream_pos d = Some p -> cd_source_pos d = p;
}.

Lemma read_exact_mid a b c : read_exact (a ++ b ++ c) (zlen a) (zlen b) = (Ok b, zlen a + zlen b).
Proof.
  unfold read_exact. rewrite !zlen_app. pose proof (zlen_nonneg c). rewrite (proj2 (Z.ltb_ge _ _)) by lia.
  replace (Z.to_nat (zlen a)) with (length a) by (unfold zlen; lia).
  replace (Z.to_nat (zlen b)) with (length b) by (unfold zlen; lia). by rewrite drop_app_length, take_app_length.
Qed.

Lemma chunk_start i c : cs !! i = Some c -> n * Z.of_nat i < zlen (concat cs) /\ zlen c = Z.min (zlen (concat cs) - n * Z.of_nat i) n.
Proof.
  intros Hi. destruct (chunk_at n cs i c (fo_chunks Hok) Hi) as [_ E]. destruct (fo_chunks Hok i c Hi) as [Hc _]. lia.
Qed.

Lemma expected_len i c : cs !! i = Some c -> expected_decompressed_len info i = zlen c.
Proof.
  intros Hi. destruct (chunk_start i c Hi) as [Hs E]. destruct (fo_chunks Hok i c Hi) as [Hc _].
  pose proof (fo_range Hok) as [_ Hr]. unfold expected_decompressed_len, sat_mul64. rewrite (fo_length Hok). lia.
Qed.

Lemma record_read i c d :
  DecompressorOk d -> cs !! i = Some c ->
  exists x off, xs !! i = Some x /\ compressed_chunk_offset info i = Some off /\
    compressed_chunk_size info i (zlen file) = Some (zlen (record x)) /\
    exists d', read_record file off (zlen (record x)) d = (d', Ok x) /\ DecompressorOk d'.
Proof.
  intros [Hca Hsz Hst] Hi. assert (Hl : (i < length xs)%nat) by (rewrite (fo_count Hok); by eapply lookup_lt_Some).
  apply lookup_lt_is_Some in Hl as [x Hx]. destruct (list_elem_of_split_length xs i x Hx) as (xs1 & xs2 & E & El).
  destruct (record_start_at xs1 x xs2 0) as [E1 E2]. rewrite <- E, El, !Z.add_0_l in *. set (off := zlen (records xs1)) in *.
  assert (Efile : file = records xs1 ++ x ++ be_bytes 4 (crc32 x) ++ records xs2).
  { rewrite E, records_app. cbn [records flat_map]. unfold record at 1. by rewrite <- !app_assoc. }
  exists x, off. split; [done|]. unfold compressed_chunk_offset, compressed_chunk_size. unfold compressed_chunk_offset.
  rewrite (fo_offsets Hok). split; [done|]. rewrite E1. cbn [mbind option_bind]. rewrite E2.
  pose proof (record_length x) as Hrl. pose proof (zlen_nonneg x). unfold checked_sub. rewrite (proj2 (Z.leb_le _ _)) by lia.
  split; [f_equal; lia|]. unfold read_record.
  replace (if bool_decide (cd_stream_pos d = Some off) then cd_source_pos d else off) with off by (case_bool_decide as Hb; [by rewrite (Hst _ Hb)|done]).
  rewrite Hrl. replace (zlen x + 4 - 4) with (zlen x) by lia. rewrite Efile. unfold off. rewrite read_exact_mid.
  pose proof (read_exact_mid (records xs1 ++ x) (be_bytes 4 (crc32 x)) (records xs2)) as Hcrc.
  rewrite <- app_assoc, zlen_app in Hcrc. rewrite (zlen_be_bytes 4) in Hcrc. change (Z.of_nat 4) with 4 in Hcrc. rewrite Hcrc.
  rewrite (from_be_bytes_id 4) by apply crc32_range. rewrite Z.eqb_refl. eexists. split; [done|].
  constructor; [done|done|]. cbn. intros p [= <-]. unfold sat_add64. pose proof (fo_range Hok) as [Hr _].
  rewrite Efile, !zlen_app, (zlen_be_bytes 4) in Hr. pose proof (zlen_nonneg (records xs2)). lia.
Qed.

Lemma decompressed i d :
  DecompressorOk d ->
  exists d', decompress_chunk info file i d = (d', match cs !! i with Some c => Ok c | None => Err InvalidFormat end) /\
    DecompressorOk d'.
Proof.
  intros Hd. unfold decompress_chunk. assert (Hb : DecompressorOk (bump_calls d)) by (destruct Hd; by constructor).
  destruct (cs !! i) as [c|] eqn:Hi.
  - destruct (note_file_size file (bump_calls d)) as [size d1] eqn:En.
    assert (Hd1 : DecompressorOk d1 /\ size = zlen file).
    { unfold note_file_size in En. destruct (cd_data_file_size (bump_calls d)) as [s|] eqn:Es; injection En as <- <-.
      - split; [done|]. by apply (do_size _ Hb).
      - split; [|done]. destruct Hb. constructor; cbn; [done|by intros s [= <-]|by intros p [= <-]]. }
    destruct Hd1 as [Hd1 ->]. destruct (record_read i c d1 Hd1 Hi) as (x & off & Hx & -> & -> & d2 & -> & Hd2).
    rewrite record_length. pose proof (zlen_nonneg x). rewrite (proj2 (Z.ltb_ge _ _)) by lia. cbn [mbind result_bind].
    exists d2. split; [|done]. f_equal. destruct (fo_decodes Hok i c x Hi Hx) as [Hmax Hdec].
    unfold decode_chunk. rewrite Z.geb_leb, (proj2 (Z.leb_gt _ _)) by lia. rewrite Hdec. cbn [mbind result_bind].
    by rewrite (expected_len i c Hi), Z.eqb_refl.
  - unfold compressed_chunk_offset. rewrite (fo_offsets Hok), (lookup_ge_None_2 (record_starts 0 xs)).
    + by exists (bump_calls d).
    + rewrite record_starts_length, (fo_count Hok). by apply lookup_ge_None.
Qed.

Lemma got i d :
  DecompressorOk d ->
  exists d', get_decompressed_chunk info file i d = (d', match cs !! i with Some c => Ok c | None => Err InvalidFormat end) /\
    DecompressorOk d'.
Proof.
  intros Hd. assert (Hfilter : forall l, Forall (fun e : nat * list Z => cs !! e.1 = Some e.2) l ->
                       Forall (fun e => cs !! e.1 = Some e.2) (List.filter (fun e => negb (e.1 =? i)%nat) l)).
  { intros l Hl. apply Forall_forall. intros e He. rewrite Forall_forall in Hl. apply Hl.
    apply list_elem_of_In, filter_In in He as [He _]. by apply list_elem_of_In. }
  unfold get_decompressed_chunk, cache_get. destruct (List.find _ (cd_chunk_cache d)) as [[j data]|] eqn:Ef.
  - apply find_some in Ef as [Hin Hj]. cbn in Hj. apply Nat.eqb_eq in Hj as ->.
    pose proof (do_cache _ Hd) as Hca. rewrite Forall_forall in Hca. apply list_elem_of_In in Hin. specialize (Hca _ Hin). cbn in Hca. rewrite Hca.
    eexists. split; [done|]. destruct Hd as [Hc Hs Ht]. constructor; [|done|done]. cbn. apply Forall_cons_2; [done|]. by apply Hfilter.
  - destruct (decompressed i d Hd) as (d' & -> & Hd'). destruct (cs !! i) as [c|] eqn:Hi; [|by exists d'].
    eexists. split; [done|]. destruct Hd' as [Hc Hs Ht]. constructor; [|done|done]. cbn. unfold cache_put.
    apply Forall_cons_2; [done|]. by apply Forall_take, Hfilter.
Qed.

(** A slice of the data; a read that passes its end fails. *)
Definition slice (offset len : Z) : list Z := take (Z.to_nat len) (drop (Z.to_nat offset) (concat cs)).

Definition read_result (offset len : Z) (acc : list Z) : result Error (list Z) :=
  if (len <=? 0) || (offset + len <=? zlen (concat cs)) then Ok (acc ++ slice offset len) else Err InvalidFormat.

Lemma slice_split offset a b :
  0 <= offset -> 0 <= a -> 0 <= b -> slice offset (a + b) = slice offset a ++ slice (offset + a) b.
Proof.
  intros Ho Ha Hb. unfold slice. rewrite !Z2Nat.inj_add by lia. rewrite <- drop_drop. by rewrite take_take_drop.
Qed.

(** The piece of one chunk that a read takes. *)
Lemma chunk_slice i c offset k :
  cs !! i = Some c -> n * Z.of_nat i <= offset -> 0 <= k -> offset - n * Z.of_nat i + k <= zlen c ->
  take (Z.to_nat k) (drop (Z.to_nat (offset - n * Z.of_nat i)) c) = slice offset k.
Proof.
  intros Hi Ho Hk Hb. destruct (chunk_start i c Hi) as [Hs E]. pose proof (fo_size Hok).
  destruct (chunk_at n cs i c (fo_chunks Hok) Hi) as [Ec _]. rewrite Ec. unfold slice.
  rewrite skipn_firstn_comm, take_take, Nat.min_l by lia. rewrite drop_drop. do 2 f_equal. nia.
Qed.

Lemma read_loop fuel : forall remaining offset acc d,
  DecompressorOk d -> 0 <= offset -> (Z.to_nat remaining <= fuel)%nat ->
  exists d', read_data_loop info file fuel remaining offset acc d = (d', read_result offset remaining acc) /\ DecompressorOk d'.
Proof.
  induction fuel as [|fuel IH]; intros remaining offset acc d Hd Ho Hf; cbn [read_data_loop].
  { exists d. unfold read_result. rewrite (proj2 (Z.leb_le remaining 0)) by lia. cbn [orb].
    unfold slice. replace (Z.to_nat remaining) with 0%nat by lia. by rewrite take_0, app_nil_r. }
  unfold read_result. destruct (Z.leb_spec remaining 0) as [Hr|Hr]; cbn [orb].
  { exists d. unfold slice. replace (Z.to_nat remaining) with 0%nat by lia. by rewrite take_0, app_nil_r. }
  pose proof (fo_size Hok) as Hn. set (i := chunk_for_offset info offset).
  assert (Hdiv : n * Z.of_nat i <= offset < n * Z.of_nat i + n).
  { subst i. unfold chunk_for_offset. rewrite Z2Nat.id by (apply Z.div_pos; lia).
    pose proof (Z.mod_pos_bound offset n Hn). pose proof (Z.div_mod offset n). lia. }
  assert (Eoff : offset_within_chunk info offset = offset - n * Z.of_nat i).
  { subst i. unfold offset_within_chunk, chunk_for_offset. rewrite Z2Nat.id by (apply Z.div_pos; lia).
    rewrite Z.mod_eq by lia. lia. }
  destruct (got i d Hd) as (d1 & -> & Hd1). rewrite Eoff. clearbody i.
  destruct (cs !! i) as [c|] eqn:Hi.
  - destruct (chunk_start i c Hi) as [Hs Ec]. destruct (Z.leb_spec (zlen c) (offset - n * Z.of_nat i)) as [Hge|Hlt].
    + rewrite Z.geb_leb, (proj2 (Z.leb_le _ _)) by lia. exists d1. split; [|done].
      by rewrite (proj2 (Z.leb_gt _ _)) by lia.
    + rewrite Z.geb_leb, (proj2 (Z.leb_gt _ _)) by lia. cbv zeta.
      set (k := Z.min (offset - n * Z.of_nat i + remaining) (zlen c) - (offset - n * Z.of_nat i)).
      rewrite (chunk_slice i c offset k Hi) by lia.
      assert (Hk : 0 < k <= remaining) by lia.
      assert (El : zlen (slice offset k) = k).
      { rewrite <- (chunk_slice i c offset k Hi) by lia. unfold zlen in *. rewrite length_take, length_drop. lia. }
      rewrite El. destruct (IH (remaining - k) (offset + k) (acc ++ slice offset k) d1 Hd1) as (d2 & -> & Hd2); [lia..|].
      exists d2. split; [|done]. f_equal. unfold read_result.
      replace (offset + k + (remaining - k)) with (offset + remaining) by lia.
      destruct (Z.leb_spec (offset + remaining) (zlen (concat cs))) as [Hin|Hout].
      * rewrite orb_true_r. f_equal. rewrite <- app_assoc. f_equal. rewrite <- slice_split by lia. f_equal. lia.
      * rewrite (proj2 (Z.leb_gt _ _)); [done|]. subst k. lia.
  - exists d1. split; [|done]. rewrite (proj2 (Z.leb_gt _ _)); [done|].
    destruct (Z.leb_spec (offset + remaining) (zlen (concat cs))) as [Hin|]; [|lia]. exfalso.
    apply lookup_ge_None in Hi. pose proof (chunked_length n cs (fo_chunks Hok)) as Hcl.
    assert (zlen cs <= Z.of_nat i) by (unfold zlen; lia). nia.
Qed.

Lemma data_read offset len d :
  DecompressorOk d -> 0 <= offset ->
  exists d', read_data info file offset len d = (d', read_result offset len []) /\ DecompressorOk d'.
Proof. intros Hd Ho. apply read_loop; [|done|lia]. destruct Hd. by constructor. Qed.

Lemma reads_exact requests : forall d,
  DecompressorOk d -> Forall (fun r => 0 <= r.1) requests ->
  reads info file requests d = map (fun r => read_result r.1 r.2 []) requests.
Proof.
  induction requests as [|[offset len] requests IH]; intros d Hd Hr; [done|]. apply Forall_cons in Hr as [Ho Hr].
  cbn [reads map fst snd]. destruct (data_read offset len d Hd Ho) as (d' & -> & Hd'). by rewrite IH.
Qed.
End Reader.

(** ** The round trip *)

(** What the codecs document: a block decodes to what was encoded, it grows by little, and
    a frame encoded without a dictionary names none. *)
Class CodecLaws `{Codecs} : Prop := {
  lz4_law c : zlen c <= 2 ^ 28 -> lz4_decompress (lz4_compress c) (zlen c) = Ok c /\ zlen (lz4_compress c) < 2 ^ 30;
  snap_law c x : zlen c <= 2 ^ 28 -> snap_compress c = Ok x ->
    snap_decompress_len x = Ok (zlen c) /\ snap_decompress x = Ok c /\ zlen x < 2 ^ 30;
  zlib_law c x limit : zlen c <= 2 ^ 28 -> zlib_compress c = Ok x -> zlen c <= limit ->
    zlib_decode x limit = Ok c /\ zlen x < 2 ^ 30;
  zstd_law c x limit : zlen c <= 2 ^ 28 -> zstd_encode c = Ok x -> zlen c <= limit ->
    zstd_decode x limit = Ok c /\ zstd_frame_dictionary_id x = None /\ zlen x < 2 ^ 30;
}.

Section RoundTrip.
Context `{Crc32} `{CodecLaws}.

Lemma name_decides a b : bool_decide (cassandra_name a = cassandra_name b) = bool_decide (a = b).
Proof. destruct a, b; vm_compute; reflexivity. Qed.

Lemma codec_decodes a info i c x :
  a <> NoCompression -> ci_algorithm info = cassandra_name a -> ci_option_pairs info = [] ->
  0 < zlen c <= ci_chunk_length info -> ci_chunk_length info <= 2 ^ 28 -> expected_decompressed_len info i = zlen c ->
  compresses (create_compressor a) c x ->
  zlen x < i32_MAX /\ decompress_with_algorithm info x i = Ok c.
Proof.
  intros Ha Hn Ho Hc Hs He Hx. unfold decompress_with_algorithm, compresses in *. cbv zeta. rewrite Hn, !name_decides.
  assert (Hg : chunk_size_guard info = ci_chunk_length info) by (unfold chunk_size_guard; by rewrite (proj2 (Z.eqb_neq _ _)) by lia).
  assert (Hguard : guarded info (Ok c) = Ok c).
  { unfold guarded. by rewrite Hg, Z.gtb_ltb, (proj2 (Z.ltb_ge _ _)) by lia. }
  unfold i32_MAX. destruct a; cbn [create_compressor Lz4Compressor SnappyCompressor DeflateCompressor ZstdCompressor compress] in Hx; [| | | |done].
  - assert (Ex : x = le_bytes 4 (as_u32 (zlen c)) ++ lz4_compress c) by congruence. rewrite Ex. destruct (lz4_law c ltac:(lia)) as [Hl Hb]. rewrite zlen_app. unfold zlen at 1. rewrite le_bytes_length.
    split; [lia|]. change (bool_decide (Lz4 = Lz4)) with true. cbv iota. unfold decompress_lz4_chunk.
    rewrite zlen_app. unfold zlen at 1. rewrite le_bytes_length. pose proof (zlen_nonneg (lz4_compress c)).
    rewrite (proj2 (Z.ltb_ge _ _)) by lia. rewrite take_app_length', drop_app_length' by (by rewrite le_bytes_length).
    assert (Eu : as_u32 (zlen c) = zlen c) by (apply wrap_id; unfold u_range; lia). rewrite Eu.
    rewrite (from_le_bytes_id 4) by (unfold u_range; cbn; lia). cbv zeta. rewrite He, Z.eqb_refl. cbn [negb]. rewrite Hl. by rewrite Z.eqb_refl.
  - destruct (snap_law c x ltac:(lia) Hx) as (Hl & Hd & Hb). split; [lia|].
    change (bool_decide (Snappy = Lz4)) with false. change (bool_decide (Snappy = Snappy)) with true. cbv iota.
    unfold decompress_snappy_chunk. by rewrite Hl, Hd, Hg, Z.gtb_ltb, (proj2 (Z.ltb_ge _ _)) by lia.
  - destruct (zlib_law c x (ci_chunk_length info + 1) ltac:(lia) Hx ltac:(lia)) as (Hd & Hb). split; [lia|].
    change (bool_decide (Deflate = Lz4)) with false. change (bool_decide (Deflate = Snappy)) with false.
    change (bool_decide (Deflate = Deflate)) with true. cbv iota. unfold decompress_deflate_chunk. by rewrite Hg, Hd.
  - destruct (zstd_law c x (ci_chunk_length info + 1) ltac:(lia) Hx ltac:(lia)) as (Hd & Hi & Hb). split; [lia|].
    change (bool_decide (Zstd = Lz4)) with false. change (bool_decide (Zstd = Snappy)) with false.
    change (bool_decide (Zstd = Deflate)) with false. change (bool_decide (Zstd = Zstd)) with true. cbv iota.
    unfold decompress_zstd_chunk, zstd_dictionary_rejection, zstd_dictionary_option. rewrite Ho, Hi. cbn [is_some orb List.find fmap option_fmap option_map].
    by rewrite Hg, Hd.
Qed.

Lemma records_bounded xs k : Forall (fun x => zlen x <= k) xs -> zlen (records xs) <= (k + 4) * zlen xs.
Proof.
  induction 1 as [|x xs Hx _ IH]; [unfold zlen; cbn; lia|]. cbn [records flat_map]. fold (records xs).
  rewrite zlen_app, record_length, zlen_cons. lia.
Qed.

Definition written_info (a : CompressionAlgorithm) (n : Z) (cs xs : list (list Z)) : CompressionInfo :=
  mkCompressionInfo (cassandra_name a) [] n i32_MAX (zlen (concat cs)) (record_starts 0 xs).

Lemma written_ok a n cs xs :
  a <> NoCompression -> 1 <= n <= 2 ^ 28 -> chunked n cs -> zlen (concat cs) <= n * 1000000 ->
  Forall2 (compresses (create_compressor a)) cs xs -> cs <> [] ->
  FileOk (written_info a n cs xs) cs xs /\ 1 <= zlen cs <= 1000000.
Proof.
  intros Ha Hn Hc Hd Hx Hne. pose proof (Forall2_length _ _ _ Hx) as Hlen.
  assert (Hcount : 1 <= zlen cs <= 1000000).
  { destruct cs as [|c0 cs0 _] using rev_ind; [done|]. destruct (chunk_at n (cs0 ++ [c0]) (length cs0) c0 Hc) as [_ E].
    { by rewrite lookup_app_r, Nat.sub_diag by lia. }
    destruct (Hc (length cs0) c0) as [Hl _]; [by rewrite lookup_app_r, Nat.sub_diag by lia|].
    rewrite zlen_app. change (zlen [c0]) with 1. unfold zlen at 1 2. nia. }
  assert (Hdec : forall i c x, cs !! i = Some c -> xs !! i = Some x -> zlen x < i32_MAX /\
                   decompress_with_algorithm (written_info a n cs xs) x i = Ok c).
  { intros i c x Hi Hxi. destruct (Hc i c Hi) as [Hl _]. destruct (chunk_at n cs i c Hc Hi) as [_ E].
    apply (codec_decodes a); try done; cbn; [lia| |by eapply Forall2_lookup_lr].
    unfold expected_decompressed_len, sat_mul64, u64_MAX. cbn. lia. }
  split; [|done]. constructor; cbn; [lia|done|done|done| |done|done].
  assert (Hb : Forall (fun x => zlen x <= i32_MAX) xs).
  { apply Forall_lookup. intros i x Hi. assert (Hl : (i < length cs)%nat) by (rewrite Hlen; by eapply lookup_lt_Some).
    apply lookup_lt_is_Some in Hl as [c Hci]. destruct (Hdec i c x Hci Hi) as [Hb _]. lia. }
  pose proof (records_bounded xs _ Hb) as Hr. assert (El : zlen xs = zlen cs) by (unfold zlen; lia).
  unfold u64_MAX, i32_MAX in *. split; nia.
Qed.

(** C10: Compressed data is read back. For LZ4, Snappy, Deflate or zstd (not the codec that
    copies, [NoopCompressor]), a chunk size of 1 byte to 256 MiB, and non-empty data of at
    most 1,000,000 chunks, whatever pieces the data is written in: the writer does not run for
    ever; and if it succeeds, its CompressionInfo.db parses, and over the file of its chunks
    any sequence of reads at offsets from 0 on, in any order, with the chunk cache and the skipped seeks in
    between, yields for each offset and length exactly that slice of the data, or an error if
    the slice ends behind it. The codec is any implementation of its documented laws: a chunk
    of at most 256 MiB decodes to what was encoded and grows to less than 1 GiB, and a zstd frame
    written without a dictionary names none. *)
Theorem compression_roundtrip a n pieces requests :
  a <> NoCompression -> 1 <= n <= 2 ^ 28 -> concat pieces <> [] -> zlen (concat pieces) <= n * 1000000 ->
  Forall (fun r => 0 <= r.1) requests ->
  exists r, write_pieces (create_compressor a) pieces (with_chunk_size n) = Some r /\
  forall w out md, r = Ok w -> cw_finish (create_compressor a) w = Ok (out, md) ->
  exists bytes info d,
    build_content md = Ok bytes /\ parse_compression_info bytes = Ok info /\
    ci_data_length info = zlen (concat pieces) /\ decompressor_new info 0 = Ok d /\
    reads info out requests d
    = map (fun r => if (r.2 <=? 0) || (r.1 + r.2 <=? zlen (concat pieces))
                    then Ok (take (Z.to_nat r.2) (drop (Z.to_nat r.1) (concat pieces)))
                    else Err InvalidFormat) requests.
Proof.
  intros Ha Hn Hne Hd Hreq.
  assert (Hw0 : Written (create_compressor a) n [] [] [] (with_chunk_size n)) by by constructor.
  destruct (written_pieces (create_compressor a) n ltac:(lia) pieces _ _ _ _ Hw0) as (r & Er & _); [change (zlen (cw_buffer _)) with 0; lia|].
  exists r. split; [done|]. intros w out md -> Hf.
  destruct (finished (create_compressor a) n ltac:(lia) pieces w out md Er Hf ltac:(lia)) as (cs & xs & Ep & Hc & Hx & -> & ->).
  rewrite Ep in *. assert (Hcs : cs <> []) by by intros ->.
  destruct (written_ok a n cs xs Ha Hn Hc Hd Hx Hcs) as [Hok Hcount]. pose proof (Forall2_length _ _ _ Hx) as Hlen.
  assert (Halg : algorithm (create_compressor a) = a) by by destruct a.
  set (md := mkCompressionMetadata _ _ _ _ _ _).
  assert (Hmd : MetadataOk md).
  { subst md. rewrite Halg. destruct (fo_range _ _ _ Hok) as [Hr1 Hr2]. pose proof (zlen_nonneg (concat cs)). unfold u64_MAX in *.
    constructor; cbn [cm_option_pairs cm_chunk_length cm_max_compressed_length cm_data_length cm_chunk_offsets].
    - split; [constructor|done].
    - lia.
    - unfold i32_MAX. lia.
    - unfold is_u64, u_range. lia.
    - unfold zlen in *. rewrite record_starts_length. lia.
    - split; [apply starts_range; lia|apply starts_ascend]. }
  destruct (info_reads md Hmd) as (bytes & Eb & Ei). exists bytes, (info_of md), (mkChunkDecompressor [] 0 None None 0).
  assert (Ew : info_of md = written_info a n cs xs) by (unfold info_of, written_info, md; cbn; by rewrite Halg).
  split; [done|]. split; [done|]. rewrite Ew. split; [done|]. split.
  - unfold decompressor_new, validate, written_info. cbn [ci_algorithm ci_chunk_length ci_chunk_offsets].
    destruct (name_facts a) as (_ & -> & _ & _). rewrite (proj2 (Z.eqb_neq _ _)) by lia. rewrite starts_ascend.
    destruct xs; [by destruct cs|]. done.
  - rewrite (reads_exact _ cs xs Hok) by (done || (constructor; [constructor|done|done])). done.
Qed.
End RoundTrip.

(** ** What is not a chunk is refused *)

Section Refusals.
Context `{Crc32} `{Codecs} (info : CompressionInfo) (file : list Z).

Definition bytes_at (off len : Z) : list Z := take (Z.to_nat len) (drop (Z.to_nat off) file).

Lemma read_exact_ok pos n b p : read_exact file pos n = (Ok b, p) -> b = bytes_at pos n /\ p = pos + n /\ pos + n <= zlen file.
Proof. unfold read_exact. destruct (Z.ltb_spec (zlen file) (pos + n)); [done|]. intros [= <- <-]. split; [done|]. split; [done|lia]. Qed.

Lemma record_checked off size d d' x :
  (forall p, cd_stream_pos d = Some p -> cd_source_pos d = p) ->
  read_record file off size d = (d', Ok x) ->
  x = bytes_at off (size - 4) /\ from_be (bytes_at (off + (size - 4)) 4) = crc32 x /\ off + size <= zlen file.
Proof.
  intros Hst. unfold read_record.
  replace (if bool_decide (cd_stream_pos d = Some off) then cd_source_pos d else off) with off
    by (case_bool_decide as Hb; [by rewrite (Hst _ Hb)|done]).
  destruct (read_exact file off (size - 4)) as [[b|e] p] eqn:E1; [|done].
  apply read_exact_ok in E1 as (-> & -> & Hb1). destruct (read_exact file (off + (size - 4)) 4) as [[cb|e] p] eqn:E2; [|done].
  apply read_exact_ok in E2 as (-> & -> & Hb2). destruct (Z.eqb_spec (from_be (bytes_at (off + (size - 4)) 4)) (crc32 (bytes_at off (size - 4)))) as [Ec|]; [|done].
  intros [= <- <-]. split; [done|]. split; [done|lia].
Qed.

(** The chunk [c] of index [i] as the file has it: its record lies at the chunk's offset and
    ends within the file and before the next chunk's offset, its last four bytes are the
    checksum of the bytes before them, these decode to [c], and [c] has the length that the
    data length announces. *)
Definition on_disk (i : nat) (c : list Z) : Prop :=
  exists off size,
    compressed_chunk_offset info i = Some off /\ compressed_chunk_size info i (zlen file) = Some size /\
    4 <= size /\ off + size <= zlen file /\
    from_be (bytes_at (off + (size - 4)) 4) = crc32 (bytes_at off (size - 4)) /\
    decode_chunk info (bytes_at off (size - 4)) i = Ok c /\ zlen c = expected_decompressed_len info i.

Definition positions_agree (d : ChunkDecompressor) : Prop := forall p, cd_stream_pos d = Some p -> cd_source_pos d = p.

Record Checked (d : ChunkDecompressor) : Prop := {
  ck_cache : Forall (fun e => on_disk e.1 e.2) (cd_chunk_cache d);
  ck_size size : cd_data_file_size d = Some size -> size = zlen file;
}.

Lemma record_positions off size d d' r :
  zlen file <= u64_MAX -> positions_agree d -> read_record file off size d = (d', r) -> positions_agree d'.
Proof.
  intros Hf Hst. unfold read_record.
  replace (if bool_decide (cd_stream_pos d = Some off) then cd_source_pos d else off) with off
    by (case_bool_decide as Hb; [by rewrite (Hst _ Hb)|done]).
  destruct (read_exact file off (size - 4)) as [[b|e] p] eqn:E1; [|by intros [= <- <-]].
  apply read_exact_ok in E1 as (_ & -> & _). destruct (read_exact file (off + (size - 4)) 4) as [[cb|e] p] eqn:E2; [|by intros [= <- <-]].
  apply read_exact_ok in E2 as (_ & -> & Hb2). cbv zeta. intros Hd.
  assert (Ed : d' = at_pos (Some (sat_add64 off size)) (off + (size - 4) + 4) d) by (destruct (_ =? _) in Hd; by injection Hd).
  intros p. rewrite Ed. cbn. intros [= <-]. unfold sat_add64. lia.
Qed.

Lemma record_keeps off size d d' r :
  read_record file off size d = (d', r) -> cd_chunk_cache d' = cd_chunk_cache d /\ cd_data_file_size d' = cd_data_file_size d.
Proof.
  unfold read_record. destruct (read_exact file _ (size - 4)) as [[b|e] p]; [|by intros [= <- <-]].
  destruct (read_exact file p 4) as [[cb|e] q]; [|by intros [= <- <-]]. destruct (_ =? _); by intros [= <- <-].
Qed.

Lemma chunk_size_noted d fs d1 :
  Checked d -> positions_agree d -> note_file_size file (bump_calls d) = (fs, d1) ->
  fs = zlen file /\ Checked d1 /\ positions_agree d1.
Proof.
  intros [Hc Hs] Hp. unfold note_file_size. cbn [cd_data_file_size bump_calls].
  destruct (cd_data_file_size d) as [s|] eqn:Es; intros [= <- <-].
  - split; [by apply Hs|]. split; [constructor; [exact Hc|cbn; by rewrite Es]|exact Hp].
  - split; [done|]. split; [constructor; [exact Hc|by intros ? [= <-]]|by intros p [= <-]].
Qed.

Lemma decompress_keeps i d d' r :
  zlen file <= u64_MAX -> Checked d -> positions_agree d -> decompress_chunk info file i d = (d', r) ->
  Checked d' /\ positions_agree d'.
Proof.
  intros Hf Hd Hp. unfold decompress_chunk.
  assert (Hd0 : Checked (bump_calls d)) by (destruct Hd; by constructor).
  destruct (compressed_chunk_offset info i) as [off|]; [|by intros [= <- <-]].
  destruct (note_file_size file (bump_calls d)) as [fs d1] eqn:En. apply chunk_size_noted in En as (-> & Hd1 & Hp1); [|done..].
  destruct (compressed_chunk_size info i (zlen file)) as [size|]; [|by intros [= <- <-]].
  destruct (size <? 4); [by intros [= <- <-]|]. destruct (read_record file off size d1) as [d2 x] eqn:Er. intros [= <- <-].
  split; [|by eapply record_positions]. destruct (record_keeps _ _ _ _ _ Er) as [Ec Es]. destruct Hd1 as [Hc Hs].
  constructor; [by rewrite Ec|by rewrite Es].
Qed.

Lemma decompress_on_disk i d d' c :
  Checked d -> positions_agree d -> decompress_chunk info file i d = (d', Ok c) -> on_disk i c.
Proof.
  intros Hd Hp. unfold decompress_chunk. destruct (compressed_chunk_offset info i) as [off|] eqn:Eo; [|done].
  destruct (note_file_size file (bump_calls d)) as [fs d1] eqn:En. apply chunk_size_noted in En as (-> & _ & Hst1); [|done..].
  destruct (compressed_chunk_size info i (zlen file)) as [size|] eqn:Es; [|done].
  destruct (Z.ltb_spec size 4) as [|H4]; [done|]. destruct (read_record file off size d1) as [d2 [x|e]] eqn:Er; [|done].
  apply record_checked in Er as (-> & Hc & Hb); [|done]. cbn [mbind result_bind].
  destruct (decode_chunk info (bytes_at off (size - 4)) i) as [c'|e] eqn:Ed; [|done]. intros [= <- <-].
  exists off, size. repeat (split; [done|]). unfold decode_chunk in Ed.
  destruct (if zlen _ >=? _ then _ else _) as [y|]; [|done]. cbn [mbind result_bind] in Ed.
  destruct (Z.eqb_spec (zlen y) (expected_decompressed_len info i)) as [El|]; [|done]. by injection Ed as <-.
Qed.

Lemma cache_filtered i (cache : list (nat * list Z)) :
  Forall (fun e => on_disk e.1 e.2) cache -> Forall (fun e => on_disk e.1 e.2) (List.filter (fun e => negb (e.1 =? i)%nat) cache).
Proof. rewrite !Forall_forall. intros Hc e He%list_elem_of_In. apply Hc, list_elem_of_In. by apply List.filter_In in He as [? _]. Qed.

(** One access to a chunk, served from the cache or not. *)
Lemma get_checked i d d' r :
  zlen file <= u64_MAX -> Checked d -> positions_agree d -> get_decompressed_chunk info file i d = (d', r) ->
  Checked d' /\ positions_agree d' /\ (forall c, r = Ok c -> on_disk i c).
Proof.
  intros Hf Hd Hp. unfold get_decompressed_chunk, cache_get.
  destruct (List.find _ (cd_chunk_cache d)) as [[j data]|] eqn:Ef.
  - apply List.find_some in Ef as [Hin Ej]. cbn in Ej. apply Nat.eqb_eq in Ej as ->. intros [= <- <-].
    assert (Hi : on_disk i data).
    { apply (proj1 (Forall_forall _ _) (ck_cache _ Hd) (i, data)). by apply list_elem_of_In. }
    split; [|by split; [exact Hp|intros c [= <-]]].
    destruct Hd as [Hc Hs]. constructor; [|exact Hs]. constructor; [exact Hi|by apply cache_filtered].
  - destruct (decompress_chunk info file i d) as [d1 [data|e]] eqn:Ed; destruct (decompress_keeps _ _ _ _ Hf Hd Hp Ed) as [Hd1 Hp1].
    + pose proof (decompress_on_disk _ _ _ _ Hd Hp Ed) as Hi. intros [= <- <-]. split; [|by split; [exact Hp1|intros c [= <-]]].
      destruct Hd1 as [Hc Hs]. constructor; [|exact Hs]. apply Forall_take. constructor; [exact Hi|by apply cache_filtered].
    + by intros [= <- <-].
Qed.

(** The bytes [acc] from [offset] on are bytes of chunks as the file has them. *)
Definition from_disk (offset : Z) (acc : list Z) : Prop :=
  forall k b, acc !! k = Some b ->
  exists c, on_disk (chunk_for_offset info (offset + Z.of_nat k)) c /\
            c !! Z.to_nat (offset_within_chunk info (offset + Z.of_nat k)) = Some b.

Lemma from_disk_snoc offset acc c slice cur :
  0 < ci_chunk_length info -> 0 <= offset -> from_disk offset acc -> cur = offset + zlen acc ->
  on_disk (chunk_for_offset info cur) c ->
  slice `prefix_of` drop (Z.to_nat (offset_within_chunk info cur)) c -> from_disk offset (acc ++ slice).
Proof.
  intros Hn Ho Ha -> Hc [rest Hs] k b. destruct (decide (k < length acc)%nat) as [Hk|Hk].
  - rewrite lookup_app_l by done. apply Ha.
  - rewrite lookup_app_r by lia. set (j := (k - length acc)%nat). intros Hb.
    set (n := ci_chunk_length info) in *. set (cur := offset + zlen acc) in *.
    assert (Ek : offset + Z.of_nat k = cur + Z.of_nat j) by (unfold cur, j, zlen; lia).
    assert (Hj : c !! (Z.to_nat (cur mod n) + j)%nat = Some b).
    { rewrite <- lookup_drop. unfold offset_within_chunk in Hs. fold n in Hs. rewrite Hs. by apply lookup_app_l_Some. }
    assert (Hcl : zlen c <= n).
    { destruct Hc as (off & size & _ & _ & _ & _ & _ & _ & ->). unfold expected_decompressed_len. fold n. lia. }
    pose proof (lookup_lt_Some _ _ _ Hj) as Hlt. assert (0 <= cur) by (unfold cur; pose proof (zlen_nonneg acc); lia).
    pose proof (Z.mod_pos_bound cur n Hn). unfold zlen in Hcl.
    pose proof (Z.div_mod cur n ltac:(lia)) as Hdm.
    assert (Hq : (cur + Z.of_nat j) / n = cur / n) by (symmetry; apply (Z.div_unique_pos _ _ _ (cur mod n + Z.of_nat j)); lia).
    assert (Hr : (cur + Z.of_nat j) mod n = cur mod n + Z.of_nat j) by (symmetry; apply (Z.mod_unique_pos _ _ (cur / n)); lia).
    exists c. rewrite Ek. unfold chunk_for_offset, offset_within_chunk in *. fold n in Hc |- *. rewrite Hq, Hr. split; [exact Hc|].
    by replace (Z.to_nat (cur mod n + Z.of_nat j)) with (Z.to_nat (cur mod n) + j)%nat by lia.
Qed.

Lemma read_loop_checked offset len fuel : forall remaining cur acc d d' r,
  zlen file <= u64_MAX -> 0 < ci_chunk_length info -> 0 <= offset -> Checked d -> positions_agree d ->
  remaining <= Z.of_nat fuel -> 0 <= remaining -> len = zlen acc + remaining -> cur = offset + zlen acc -> from_disk offset acc ->
  read_data_loop info file fuel remaining cur acc d = (d', r) ->
  Checked d' /\ (forall data, r = Ok data -> zlen data = len /\ from_disk offset data).
Proof.
  induction fuel as [|fuel IH]; intros remaining cur acc d d' r Hf Hn Ho Hd Hp Hfuel Hrem Hlen Hcur Hacc.
  - cbn. intros [= <- <-]. split; [done|]. intros data [= <-]. split; [lia|done].
  - cbn [read_data_loop]. destruct (Z.leb_spec remaining 0) as [Hz|Hz].
    { intros [= <- <-]. split; [done|]. intros data [= <-]. split; [lia|done]. }
    cbv zeta. destruct (get_decompressed_chunk info file (chunk_for_offset info cur) d) as [d1 rc] eqn:Eg.
    destruct (get_checked _ _ _ _ Hf Hd Hp Eg) as (Hd1 & Hp1 & Hc). destruct rc as [c|e]; [|by intros [= <- <-]].
    rewrite Z.geb_leb. destruct (Z.leb_spec (zlen c) (offset_within_chunk info cur)) as [|Hin]; [by intros [= <- <-]|].
    set (st := offset_within_chunk info cur) in *.
    assert (Hst : 0 <= st) by (apply Z.mod_pos_bound; lia).
    set (slice := take _ (drop (Z.to_nat st) c)). 
    assert (Hsl : zlen slice = Z.min remaining (zlen c - st)).
    { unfold slice, zlen in *. rewrite length_take, length_drop. lia. }
    apply IH; try done; try lia.
    + rewrite zlen_app. lia.
    + rewrite zlen_app. lia.
    + apply (from_disk_snoc _ _ c _ cur); try done; [by apply Hc|]. apply prefix_take.
Qed.

(** The states of a decompressor over one file that does not change: opened with the reader
    anywhere, then any calls of its public operations, failed ones too, in any order; between
    two calls somebody else may have moved the reader. *)
Inductive reached : ChunkDecompressor -> Prop :=
| reached_new pos d : decompressor_new info pos = Ok d -> reached d
| reached_read offset len d : reached d -> reached (read_data info file offset len d).1
| reached_all d : reached d -> reached (read_all_data info file d).1
| reached_chunk i d : reached d -> reached (decompress_chunk_by_index info file i d).1
| reached_clear d : reached d -> reached (clear_cache d)
| reached_moved pos d : reached d -> reached (at_pos (cd_stream_pos d) pos d).

Lemma forget_position d : Checked d -> Checked (at_pos None (cd_source_pos d) d) /\ positions_agree (at_pos None (cd_source_pos d) d).
Proof. intros [Hc Hs]. split; [by constructor|done]. Qed.

Lemma read_keeps offset len d : zlen file <= u64_MAX -> Checked d -> Checked (read_data info file offset len d).1.
Proof.
  intros Hf Hd. destruct (forget_position d Hd) as [Hd0 Hp0]. unfold read_data.
  generalize (@nil Z) as acc, (Z.to_nat len) as fuel. intros acc fuel. revert len offset acc.
  generalize dependent (at_pos None (cd_source_pos d) d). intros d0 Hd0 Hp0. revert d0 Hd0 Hp0.
  induction fuel as [|fuel IH]; intros d0 Hd0 Hp0 len offset acc; [done|]. cbn [read_data_loop].
  destruct (len <=? 0); [done|]. cbv zeta.
  destruct (get_decompressed_chunk info file (chunk_for_offset info offset) d0) as [d1 rc] eqn:Eg.
  destruct (get_checked _ _ _ _ Hf Hd0 Hp0 Eg) as (Hd1 & Hp1 & _). destruct rc as [c|e]; [|done].
  destruct (_ >=? _); [done|]. by apply IH.
Qed.

Lemma reached_checked d : zlen file <= u64_MAX -> reached d -> Checked d /\ ci_chunk_length info <> 0.
Proof.
  intros Hf. induction 1 as [pos d Hn|offset len d _ [IH ?]|d _ [IH ?]|i d _ [IH ?]|d _ [[Hc Hs] ?]|pos d _ [[Hc Hs] ?]]; try (split; [|done]).
  - unfold decompressor_new, validate in Hn. destruct (is_empty _); [done|]. destruct (Z.eqb_spec (ci_chunk_length info) 0) as [|Hz]; [done|].
    destruct (is_empty _); [done|]. destruct (offsets_ascend _); [|done]. injection Hn as <-. split; [by constructor|done].
  - by apply read_keeps.
  - by apply read_keeps.
  - destruct (forget_position d IH) as [Hd0 Hp0]. unfold decompress_chunk_by_index.
    destruct (get_decompressed_chunk _ _ _ _) as [d1 r] eqn:Eg. by destruct (get_checked _ _ _ _ Hf Hd0 Hp0 Eg).
  - constructor; [constructor|done].
  - by constructor.
Qed.

(** C15: No byte is served unchecked. Over any CompressionInfo and any file that does not
    change (shorter than 2^64 bytes), whatever was asked of the decompressor before, with
    success or not, and wherever the reader was moved in between: a chunk it hands out, from
    the chunk cache too, is the chunk whose record lies at its own offset: the record ends within the
    file and before the next chunk's offset, its last four bytes are the checksum of the
    bytes before them, and the chunk has the length that the data length announces. A read
    that succeeds has the length asked for, and each of its bytes is the byte at its own
    place of such a chunk. So a flipped byte, a cut file, or an offset out of place is an
    error unless the checksum is the same. *)
Theorem chunk_checked d :
  zlen file <= u64_MAX -> reached d ->
  (forall i d' c, decompress_chunk_by_index info file i d = (d', Ok c) -> on_disk i c) /\
  (forall offset len d' data, 0 <= offset -> read_data info file offset len d = (d', Ok data) ->
     zlen data = Z.max 0 len /\
     forall k b, data !! k = Some b ->
     exists c, on_disk (chunk_for_offset info (offset + Z.of_nat k)) c /\
               c !! Z.to_nat (offset_within_chunk info (offset + Z.of_nat k)) = Some b).
Proof.
  intros Hf Hr. destruct (reached_checked d Hf Hr) as [Hd Hz]. destruct (forget_position d Hd) as [Hd0 Hp0]. split.
  - intros i d' c Hc. by apply (get_checked _ _ _ _ Hf Hd0 Hp0 Hc).
  - intros offset len d' data Ho Hdata. unfold read_data in Hdata. destruct (decide (len <= 0)) as [Hl|Hl].
    { replace (Z.to_nat len) with 0%nat in Hdata by lia. cbn in Hdata. injection Hdata as <- <-. split; [unfold zlen; cbn; lia|done]. }
    assert (Hn : 0 < ci_chunk_length info).
    { replace (Z.to_nat len) with (S (Z.to_nat len - 1)) in Hdata by lia. cbn [read_data_loop] in Hdata.
      rewrite (proj2 (Z.leb_gt _ _)) in Hdata by lia. cbv zeta in Hdata.
      destruct (get_decompressed_chunk _ _ _ _) as [d1 [c|e]] eqn:Eg; [|done].
      destruct (get_checked _ _ _ _ Hf Hd0 Hp0 Eg) as (_ & _ & Hc). destruct (Hc c eq_refl) as (off & size & _ & _ & _ & _ & _ & _ & El).
      unfold expected_decompressed_len in El. pose proof (zlen_nonneg c). lia. }
    destruct (read_loop_checked offset len (Z.to_nat len) len offset [] (at_pos None (cd_source_pos d) d) d' (Ok data)) as [_ Hres]; try done.
    + lia.
    + lia.
    + change (zlen []) with 0. lia.
    + destruct (Hres data eq_refl) as [E H1]. split; [lia|exact H1].
Qed.

(** The parser accepts the name of the codec that copies; the reader does not know it. *)
Lemma noop_refused i x :
  ci_algorithm info = cassandra_name NoCompression -> zlen x < ci_max_compressed_length info ->
  decode_chunk info x i = Err UnsupportedFormat.
Proof.
  intros Ha Hx. unfold decode_chunk. rewrite Z.geb_leb, (proj2 (Z.leb_gt _ _)) by lia.
  unfold decompress_with_algorithm. rewrite Ha. rewrite !name_decides. reflexivity.
Qed.
End Refusals.

(** A chunk size of 0 is accepted, and the first byte written is never placed. *)
Lemma zero_chunk_size_diverges `{Crc32} compressor fuel b rest :
  write_loop compressor fuel (b :: rest) (with_chunk_size 0) = None.
Proof.
  induction fuel as [|fuel IH]; [done|]. cbn [write_loop]. set (k := Z.to_nat _).
  assert (Ek : k = 0%nat) by (subst k; change (cw_chunk_size _ - _) with 0; lia). rewrite Ek. exact IH.
Qed.

(** ** Examples *)

Definition ex_crc : Crc32.
Proof. refine {| crc32 l := from_be l mod 2 ^ 32 |}. intros l. apply Z.mod_pos_bound. lia. Defined.

(** Codecs that copy, zstd behind one byte. *)
Definition ex_codecs : Codecs := {|
  lz4_compress c := c;
  lz4_decompress x _ := Ok x;
  snap_compress c := Ok c;
  snap_decompress_len x := Ok (zlen x);
  snap_decompress x := Ok x;
  zlib_compress c := Ok c;
  zlib_decode x limit := Ok (take (Z.to_nat limit) x);
  zstd_encode c := Ok (0 :: c);
  zstd_decode x limit := Ok (take (Z.to_nat limit) (tail x));
|}.

Lemma ex_codec_laws : @CodecLaws ex_codecs.
Proof.
  constructor; cbn -[Z.pow].
  - intros c Hc. split; [done|lia].
  - intros c x Hc [= <-]. split; [done|]. split; [done|lia].
  - intros c x limit Hc [= <-] Hl. split; [by rewrite take_ge by (unfold zlen in *; lia)|lia].
  - intros c x limit Hc [= <-] Hl. split; [by cbn; rewrite take_ge by (unfold zlen in *; lia)|]. split; [|rewrite zlen_cons; lia].
    unfold zstd_frame_dictionary_id. destruct (bool_decide_reflect (take 4 (0 :: c) = ZSTD_MAGIC_LE)) as [E|]; [by injection E|].
    by rewrite orb_true_r.
Qed.

Definition ex_pieces : list (list Z) := [[1; 2; 3]; [4; 5; 6; 7; 8; 9]; []].

Lemma compression_roundtrip_witness :
  exists out info d, @reads ex_crc ex_codecs info out [(2, 5); (7, 3); (0, 9)] d
                     = [Ok [3; 4; 5; 6; 7]; Err InvalidFormat; Ok [1; 2; 3; 4; 5; 6; 7; 8; 9]].
Proof.
  destruct (@compression_roundtrip ex_crc ex_codecs ex_codec_laws Lz4 4 ex_pieces [(2, 5); (7, 3); (0, 9)]) as (r & Er & Hr).
  - done.
  - lia.
  - done.
  - by vm_compute.
  - repeat (apply Forall_cons_2; [cbn; lia|]). constructor.
  - vm_compute in Er. injection Er as <-. destruct (Hr _ _ _ eq_refl eq_refl) as (bytes & info & d & _ & _ & _ & _ & E).
    eexists _, info, d. rewrite E. vm_compute. reflexivity.
Defined.

(** Two chunks of two bytes; the second is read after the file's end was asked for in vain. *)
Definition ex_info : CompressionInfo := mkCompressionInfo (cassandra_name Snappy) [] 2 100 3 [0; 6].
Definition ex_file : list Z := [7; 8; 0; 0; 7; 8; 9; 0; 0; 0; 9].
Definition ex_reached : ChunkDecompressor :=
  (@read_data ex_crc ex_codecs ex_info ex_file 1 9 (mkChunkDecompressor [] 0 None None 5)).1.

Example read_past_the_end : (@read_data ex_crc ex_codecs ex_info ex_file 1 9 (mkChunkDecompressor [] 0 None None 5)).2 = Err InvalidFormat.
Proof. vm_compute. reflexivity. Qed.

Lemma chunk_checked_witness :
  exists c, @on_disk ex_crc ex_codecs ex_info ex_file 0 c /\ c !! 1%nat = Some 8.
Proof.
  destruct (@chunk_checked ex_crc ex_codecs ex_info ex_file ex_reached) as [_ H].
  - by vm_compute.
  - apply reached_read, (reached_new _ _ 5). vm_compute. reflexivity.
  - destruct (H 1 2 (@read_data ex_crc ex_codecs ex_info ex_file 1 2 ex_reached).1 [8; 9]) as [_ Hk].
    + lia.
    + vm_compute. reflexivity.
    + destruct (Hk 0%nat 8 eq_refl) as (c & Hc & Hb). by exists c.
Defined.
