(* ===== verification/Crc.v ===== *)
(** Checksums of an uncompressed Data.db: the accumulator that is fed as the file is written
    and the bytes of CRC.db ([writer/crc_writer.rs]), the parser of CRC.db
    ([reader/crc.rs]) and the check of what a read returns ([reader/block_io.rs],
    [reader/data_access/mod.rs]).

    [crc32fast] is third-party code: [CrcHasher] holds a hasher's calls and the law that
    updates compose. *)

From S2P Require Import Prelude Values Stats Cells.

Open Scope Z_scope.

Class CrcHasher := {
  hasher : Type;
  hasher_new : hasher;
  hasher_update : hasher -> list Z -> hasher;
  hasher_finalize : hasher -> Z;
}.

Definition crc_hash `{CrcHasher} (bytes : list Z) : Z := hasher_finalize (hasher_update hasher_new bytes).

(** What [crc32fast] documents: the hash of a concatenation is the hash of its parts in
    turn, and it is a [u32]. *)
Class CrcHasherLaws `{CrcHasher} : Prop := {
  hasher_update_nil h : hasher_update h [] = h;
  hasher_update_app h a b : hasher_update h (a ++ b) = hasher_update (hasher_update h a) b;
  crc_hash_range bytes : u_range 32 (crc_hash bytes);
}.

Definition CRC_CHUNK_SIZE : Z := 65536.

Inductive CrcTrailer := NoTrailer | EmptyFinalChunk.

Definition assemble_crc_bytes (chunk_crcs : list Z) (trailer : CrcTrailer) : list Z :=
  be_bytes 4 CRC_CHUNK_SIZE ++ flat_map (be_bytes 4) chunk_crcs
  ++ match trailer with
     | EmptyFinalChunk => if is_empty chunk_crcs then [] else be_bytes 4 0
     | NoTrailer => []
     end.

(** ** The accumulator *)

Section Accumulator.
Context `{CrcHasher}.

Record StreamingCrc := mkStreamingCrc {
  sc_whole : hasher;
  sc_chunk : hasher;
  sc_chunk_filled : Z;
  sc_chunk_crcs : list Z;
}.

Definition streaming_crc_new : StreamingCrc := mkStreamingCrc hasher_new hasher_new 0 [].

(** Every turn takes a byte, so the length is fuel. *)
Fixpoint feed_chunks (fuel : nat) (remaining : list Z) (s : StreamingCrc) : StreamingCrc :=
  match remaining, fuel with
  | [], _ | _, O => s
  | _, S fuel =>
      let n := Z.to_nat (Z.min (CRC_CHUNK_SIZE - sc_chunk_filled s) (zlen remaining)) in
      let chunk := hasher_update (sc_chunk s) (take n remaining) in
      let filled := sc_chunk_filled s + Z.of_nat n in
      feed_chunks fuel (drop n remaining)
        (if filled =? CRC_CHUNK_SIZE
         then mkStreamingCrc (sc_whole s) hasher_new 0 (sc_chunk_crcs s ++ [hasher_finalize chunk])
         else mkStreamingCrc (sc_whole s) chunk filled (sc_chunk_crcs s))
  end.

Definition crc_update (bytes : list Z) (s : StreamingCrc) : StreamingCrc :=
  feed_chunks (length bytes) bytes
    (mkStreamingCrc (hasher_update (sc_whole s) bytes) (sc_chunk s) (sc_chunk_filled s) (sc_chunk_crcs s)).

(** The digest and the checksums of the chunks. *)
Definition crc_finalize (s : StreamingCrc) : Z * list Z :=
  (hasher_finalize (sc_whole s),
   if sc_chunk_filled s >? 0 then sc_chunk_crcs s ++ [hasher_finalize (sc_chunk s)] else sc_chunk_crcs s).
End Accumulator.

(** ** CRC.db *)

Definition MAX_CRC_CHUNK_SIZE : Z := 16 * 1024 * 1024.
Definition MIN_CRC_CHUNK_SIZE : Z := 4096.
Definition ABSOLUTE_CRC_DB_MAX : Z := 64 * 1024 * 1024.

Definition validate_chunk_size (raw : Z) : result Error Z :=
  if raw <=? 0 then Err Corruption
  else if raw <? MIN_CRC_CHUNK_SIZE then Err Corruption
  else if raw >? MAX_CRC_CHUNK_SIZE then Err Corruption
  else Ok raw.

Record CrcDb := mkCrcDb { cdb_chunk_size : Z; cdb_crcs : list Z }.

(** [chunks_exact(4)] *)
Fixpoint chunks_of_4 (body : list Z) : list Z :=
  match body with
  | a :: b :: c :: d :: body => from_be [a; b; c; d] :: chunks_of_4 body
  | _ => []
  end.

Definition parse_crc_db (bytes : list Z) : result Error CrcDb :=
  if zlen bytes <? 4 then Err Corruption
  else
    chunk_size ← validate_chunk_size (as_i32 (from_be (take 4 bytes)));
    let body := drop 4 bytes in
    if negb (zlen body mod 4 =? 0) then Err Corruption
    else Ok (mkCrcDb chunk_size (chunks_of_4 body)).

Definition div_ceil (a b : Z) : Z := a / b + (if a mod b =? 0 then 0 else 1).

(** [CrcDb::open]: the size of the file is bounded before it is read. *)
Definition open_crc_db (file : list Z) (data_len : Z) : result Error CrcDb :=
  if zlen file <? 4 then Err Corruption
  else
    chunk_size ← validate_chunk_size (as_i32 (from_be (take 4 file)));
    let actual_len := zlen file in
    if actual_len >? ABSOLUTE_CRC_DB_MAX then Err Corruption
    else
      let n_chunks := div_ceil data_len chunk_size in
      if actual_len >? sat_add64 4 (sat_mul64 (sat_add64 n_chunks 1) 4) then Err Corruption
      else parse_crc_db file.

Definition crc_for_chunk (crc : CrcDb) (chunk_index : nat) : result Error Z :=
  match cdb_crcs crc !! chunk_index with Some c => Ok c | None => Err Corruption end.

(** ** The check of a read *)

Section Verify.
Context `{CrcHasher} (crc : CrcDb) (file : list Z).

Definition file_range (lo hi : Z) : list Z := take (Z.to_nat (hi - lo)) (drop (Z.to_nat lo) file).

(** One chunk, assembled from the file before the read, the bytes read, and the file behind. *)
Definition whole_chunk (data : list Z) (start_offset stop lo hi : Z) : list Z :=
  let pre_hi := Z.min start_offset hi in
  let mid_lo := Z.max lo start_offset in
  let mid_hi := Z.min hi stop in
  let suf_lo := Z.max stop lo in
  (if lo <? pre_hi then file_range lo pre_hi else [])
  ++ (if mid_lo <? mid_hi
      then take (Z.to_nat (mid_hi - mid_lo)) (drop (Z.to_nat (mid_lo - start_offset)) data) else [])
  ++ (if suf_lo <? hi then file_range suf_lo hi else []).

Fixpoint verify_chunks (chunks : list Z) (data : list Z) (start_offset stop file_size : Z) : result Error () :=
  match chunks with
  | [] => Ok ()
  | chunk :: chunks =>
      let cs := cdb_chunk_size crc in
      let lo := sat_mul64 chunk cs in
      let hi := Z.min (sat_mul64 (chunk + 1) cs) file_size in
      if hi <=? lo then Ok ()
      else
        expected ← crc_for_chunk crc (Z.to_nat chunk);
        if crc_hash (whole_chunk data start_offset stop lo hi) =? expected
        then verify_chunks chunks data start_offset stop file_size
        else Err Corruption
  end.

(** [verify_uncompressed_chunks] *)
Definition verify_uncompressed_chunks (data : list Z) (start_offset file_size : Z) : result Error () :=
  let cs := cdb_chunk_size crc in
  if cs =? 0 then Err Corruption
  else if is_empty data then Ok ()
  else
    let stop := sat_add64 start_offset (zlen data) in
    let first := start_offset / cs in
    let last := (stop - 1) / cs in
    verify_chunks (seqZ first (last - first + 1)) data start_offset stop file_size.

(** [verify_covering_chunks]: a chunk is checked once in the life of a reader. *)
Fixpoint covering_chunks (chunks : list Z) (compute : Z -> Z -> result Error Z) (file_size : Z) (verified : list Z) :
    list Z * result Error () :=
  match chunks with
  | [] => (verified, Ok ())
  | chunk :: chunks =>
      if bool_decide (chunk ∈ verified) then covering_chunks chunks compute file_size verified
      else
        let cs := cdb_chunk_size crc in
        let lo := chunk * cs in
        let hi := Z.min ((chunk + 1) * cs) file_size in
        if hi <=? lo then (verified, Ok ())
        else
          match compute lo hi with
          | Err e => (verified, Err e)
          | Ok computed =>
              match crc_for_chunk crc (Z.to_nat chunk) with
              | Err e => (verified, Err e)
              | Ok expected =>
                  if computed =? expected
                  then covering_chunks chunks compute file_size (chunk :: verified)
                  else (verified, Err Corruption)
              end
          end
  end.

Definition verify_covering_chunks (start stop : Z) (compute : Z -> Z -> result Error Z) (file_size : Z)
    (verified : list Z) : list Z * result Error () :=
  let cs := cdb_chunk_size crc in
  if cs =? 0 then (verified, Err Corruption)
  else
    let first := start / cs in
    let last := (stop - 1) / cs in
    covering_chunks (seqZ first (last - first + 1)) compute file_size verified.

(** How much of the file one read takes: the rest of it, or a piece that ends with a chunk. *)
Definition UNCOMPRESSED_READ_PIECE_BYTES : Z := 65536.

Definition piece_end (current_pos file_size : Z) (piecewise : bool) : Z :=
  if piecewise then
    let cs := cdb_chunk_size crc in
    let want := Z.max UNCOMPRESSED_READ_PIECE_BYTES cs in
    Z.min (sat_mul64 (div_ceil (sat_add64 current_pos want) cs) cs) file_size
  else file_size.

(** [read_uncompressed_data_block] with a CRC.db: the bytes, and the position behind them. *)
Definition read_uncompressed_data_block (current_pos : Z) (piecewise : bool) : result Error (option (list Z) * Z) :=
  let file_size := zlen file in
  if Z.max 0 (file_size - current_pos) =? 0 then Ok (None, current_pos)
  else
    let stop := piece_end current_pos file_size piecewise in
    let data := file_range current_pos stop in
    _ ← verify_uncompressed_chunks data current_pos file_size;
    Ok (Some data, stop).
End Verify.
