(* ===== verification/CrcProps.v ===== *)
(** CRC.db: the checksums accumulated while a file is written in any pieces are those of its
    chunks; CRC.db parses back; a read of the file passes its check, and a read that passes
    covers chunks whose checksums are right. *)

From S2P Require Import Prelude Values Stats Cells CellProps Crc CompressionProps.

Open Scope Z_scope.

(** ** The accumulator *)

Section Accumulate.
Context `{CrcHasherLaws}.

(** What has been fed: whole chunks, and the beginning of one. *)
Record Fed (data : list Z) (cs : list (list Z)) (rest : list Z) (s : StreamingCrc) : Prop := {
  fd_data : data = concat cs ++ rest;
  fd_full : Forall (fun c => zlen c = CRC_CHUNK_SIZE) cs;
  fd_rest : zlen rest < CRC_CHUNK_SIZE;
  fd_filled : sc_chunk_filled s = zlen rest;
  fd_chunk : sc_chunk s = hasher_update hasher_new rest;
  fd_crcs : sc_chunk_crcs s = map crc_hash cs;
}.

Lemma fed_chunks fuel : forall remaining data cs rest s,
  Fed data cs rest s -> (length remaining <= fuel)%nat ->
  exists cs' rest', Fed (data ++ remaining) cs' rest' (feed_chunks fuel remaining s).
Proof.
  induction fuel as [|fuel IH]; intros remaining data cs rest s Hs Hf.
  { destruct remaining; [|cbn in Hf; lia]. exists cs, rest. by rewrite app_nil_r. }
  destruct remaining as [|b remaining]; [exists cs, rest; by rewrite app_nil_r|]. cbn [feed_chunks].
  set (rem := b :: remaining) in *. set (k := Z.to_nat _).
  assert (Hrem : 0 < zlen rem) by (subst rem; rewrite zlen_cons; pose proof (zlen_nonneg remaining); lia).
  destruct Hs as [Hd Hc Hr Hfi Hch Hcr]. pose proof (zlen_nonneg rest).
  assert (Ek : k = Z.to_nat (Z.min (CRC_CHUNK_SIZE - zlen rest) (zlen rem))) by (subst k; by rewrite Hfi). clearbody k.
  assert (Hk : (1 <= k <= length rem)%nat) by (unfold zlen in *; lia).
  assert (Hl : zlen (rest ++ take k rem) = zlen rest + Z.of_nat k).
  { rewrite zlen_app. unfold zlen at 2. rewrite length_take. lia. }
  assert (Hf' : (length (drop k rem) <= fuel)%nat) by (rewrite length_drop; subst rem; cbn [length] in *; lia).
  assert (Ed : data ++ rem = (data ++ take k rem) ++ drop k rem) by by rewrite <- app_assoc, take_drop.
  rewrite Ed, Hfi, Hch, <- hasher_update_app. destruct (Z.eqb_spec (zlen rest + Z.of_nat k) CRC_CHUNK_SIZE) as [E|E].
  - apply (IH _ _ (cs ++ [rest ++ take k rem]) []); [|done]. constructor; cbn.
    + by rewrite Hd, concat_snoc, app_nil_r, <- app_assoc.
    + apply Forall_app. split; [done|]. apply Forall_singleton. lia.
    + by vm_compute.
    + done.
    + by rewrite hasher_update_nil.
    + by rewrite map_app, Hcr.
  - apply (IH _ _ cs (rest ++ take k rem)); [|done]. constructor; cbn; [by rewrite Hd, app_assoc|done|lia|lia|done|done].
Qed.

(** Slices in order. *)
Definition feed (pieces : list (list Z)) (s : StreamingCrc) : StreamingCrc := foldl (fun s p => crc_update p s) s pieces.

Lemma feed_whole fuel : forall remaining s, sc_whole (feed_chunks fuel remaining s) = sc_whole s.
Proof.
  induction fuel as [|fuel IH]; intros [|b remaining] s; [done..|]. cbn [feed_chunks]. rewrite IH.
  by destruct (_ =? _).
Qed.

Lemma fed_pieces pieces : forall data cs rest s,
  Fed data cs rest s -> sc_whole s = hasher_update hasher_new data ->
  exists cs' rest', Fed (data ++ concat pieces) cs' rest' (feed pieces s) /\
    sc_whole (feed pieces s) = hasher_update hasher_new (data ++ concat pieces).
Proof.
  induction pieces as [|p pieces IH]; intros data cs rest s Hs Hw; cbn [feed foldl concat].
  { exists cs, rest. by rewrite !app_nil_r. }
  rewrite app_assoc. fold (feed pieces (crc_update p s)).
  set (s1 := mkStreamingCrc (hasher_update (sc_whole s) p) (sc_chunk s) (sc_chunk_filled s) (sc_chunk_crcs s)).
  assert (Hs1 : Fed data cs rest s1) by (destruct Hs; by constructor).
  destruct (fed_chunks (length p) p data cs rest s1 Hs1) as (cs1 & rest1 & H1); [lia|].
  apply (IH _ cs1 rest1); [done|]. unfold crc_update. rewrite feed_whole. cbn. by rewrite Hw, hasher_update_app.
Qed.

(** The chunks of a file, the last one short. *)
Definition crc_chunks (data : list Z) (cs : list (list Z)) : Prop := data = concat cs /\ chunked CRC_CHUNK_SIZE cs.

Lemma accumulated pieces :
  exists cs, crc_chunks (concat pieces) cs /\
    crc_finalize (feed pieces streaming_crc_new) = (crc_hash (concat pieces), map crc_hash cs).
Proof.
  assert (H1 : Fed [] [] [] streaming_crc_new).
  { constructor; try done. cbn. by rewrite hasher_update_nil. }
  destruct (fed_pieces pieces [] [] [] streaming_crc_new H1) as (cs & rest & [Hd Hc Hr Hfi Hch Hcr] & Hw).
  { cbn. by rewrite hasher_update_nil. }
  cbn [app] in *. unfold crc_finalize. rewrite Hw. fold (crc_hash (concat pieces)).
  rewrite Hfi, Hch, Hcr. fold (crc_hash rest).
  assert (Hfull : forall i c, cs !! i = Some c -> zlen c = CRC_CHUNK_SIZE).
  { intros i c Hi. rewrite Forall_lookup in Hc. by apply (Hc i). }
  assert (Hpos : 0 < CRC_CHUNK_SIZE) by done.
  destruct rest as [|b rest].
  - exists cs. split; [split; [by rewrite Hd, app_nil_r|]|done]. intros i c Hi. specialize (Hfull i c Hi). lia.
  - exists (cs ++ [b :: rest]). rewrite zlen_cons in *. pose proof (zlen_nonneg rest). rewrite (proj2 (Z.gtb_lt _ _)) by lia.
    split; [|by rewrite map_app]. split; [by rewrite concat_snoc|]. intros i c Hi. rewrite length_app. cbn [length].
    apply lookup_app_Some in Hi as [Hi|[Hge Hi]].
    + specialize (Hfull i c Hi). lia.
    + destruct (i - length cs)%nat as [|j] eqn:Ei; [|done]. injection Hi as <-. rewrite zlen_cons. lia.
Qed.

(** ** The file *)

Definition trailing (crcs : list Z) (trailer : CrcTrailer) : list Z :=
  match trailer with EmptyFinalChunk => if is_empty crcs then [] else [0] | NoTrailer => [] end.

Lemma assembled crcs trailer :
  assemble_crc_bytes crcs trailer = be_bytes 4 CRC_CHUNK_SIZE ++ flat_map (be_bytes 4) (crcs ++ trailing crcs trailer).
Proof.
  unfold assemble_crc_bytes, trailing. rewrite flat_map_app. do 2 f_equal. destruct trailer; [done|]. by destruct (is_empty crcs).
Qed.

Lemma chunks_of_bytes crcs : Forall (u_range 32) crcs -> chunks_of_4 (flat_map (be_bytes 4) crcs) = crcs.
Proof.
  induction 1 as [|c crcs Hc _ IH]; [done|]. cbn [flat_map]. pose proof (from_be_bytes_id 4 c Hc) as E.
  destruct (be_bytes 4 c) as [|b0 [|b1 [|b2 [|b3 [|]]]]] eqn:Eb; try (apply (f_equal length) in Eb; rewrite be_bytes_length in Eb; done).
  cbn [app chunks_of_4]. by rewrite E, IH.
Qed.

Lemma crc_bytes_length crcs : zlen (flat_map (be_bytes 4) crcs) = 4 * zlen crcs.
Proof. unfold zlen. rewrite (flat_map_constant_length (c := 4)) by (intros; apply be_bytes_length). lia. Qed.

Lemma crc_db_parses crcs trailer :
  Forall (u_range 32) crcs ->
  parse_crc_db (assemble_crc_bytes crcs trailer) = Ok (mkCrcDb CRC_CHUNK_SIZE (crcs ++ trailing crcs trailer)).
Proof.
  intros Hc. assert (Ht : Forall (u_range 32) (crcs ++ trailing crcs trailer)).
  { apply Forall_app. split; [done|]. unfold trailing. destruct trailer; [constructor|]. destruct (is_empty crcs); [constructor|].
    apply Forall_singleton. by vm_compute. }
  rewrite assembled. set (all := crcs ++ _) in *. unfold parse_crc_db. rewrite zlen_app, zlen_be_bytes, crc_bytes_length.
  pose proof (zlen_nonneg all). rewrite (proj2 (Z.ltb_ge _ _)) by lia.
  rewrite take_app_length', drop_app_length' by (by rewrite be_bytes_length).
  rewrite (from_be_bytes_id 4) by by vm_compute. change (validate_chunk_size (as_i32 CRC_CHUNK_SIZE)) with (@Ok Error Z CRC_CHUNK_SIZE).
  cbn [mbind result_bind]. rewrite crc_bytes_length, Z.mul_comm, Z.mod_mul by lia. cbn [negb Z.eqb]. by rewrite chunks_of_bytes.
Qed.
End Accumulate.

(** ** Reading *)

Section Read.
Context `{CrcHasherLaws} (db : CrcDb) (file : list Z).
Hypothesis Hcs : MIN_CRC_CHUNK_SIZE <= cdb_chunk_size db <= MAX_CRC_CHUNK_SIZE.
Hypothesis Hlen : zlen file <= 2 ^ 62.
#[local] Abbreviation cs := (cdb_chunk_size db).
#[local] Abbreviation range := (file_range file).

Lemma range_length a b : 0 <= a -> a <= b -> b <= zlen file -> zlen (range a b) = b - a.
Proof. intros. unfold file_range, zlen in *. rewrite length_take, length_drop. lia. Qed.

Lemma range_app a b c : 0 <= a -> a <= b -> b <= c -> range a b ++ range b c = range a c.
Proof.
  intros Ha Hb Hc. unfold file_range. replace (Z.to_nat b) with (Z.to_nat a + Z.to_nat (b - a))%nat by lia.
  rewrite <- drop_drop, take_take_drop. f_equal. lia.
Qed.

Lemma range_within a b lo hi :
  0 <= a -> a <= lo -> lo <= hi -> hi <= b ->
  take (Z.to_nat (hi - lo)) (drop (Z.to_nat (lo - a)) (range a b)) = range lo hi.
Proof.
  intros Ha Hl Hh Hb. unfold file_range. rewrite skipn_firstn_comm, take_take, drop_drop, Nat.min_l by lia.
  do 2 f_equal. lia.
Qed.

Lemma range_nil a b : b <= a -> range a b = [].
Proof. intros. unfold file_range. replace (Z.to_nat (b - a)) with 0%nat by lia. apply take_0. Qed.

(** A chunk that overlaps a read is assembled whole. *)
Lemma assembled_chunk start stop lo hi :
  0 <= lo -> 0 <= start -> lo < stop -> start < hi -> start < stop -> lo < hi ->
  whole_chunk file (range start stop) start stop lo hi = range lo hi.
Proof.
  intros H1 H2 H3 H4 H5 H6. unfold whole_chunk. cbv zeta. rewrite (Z.min_l start hi) by lia. rewrite (Z.max_l stop lo) by lia.
  rewrite (proj2 (Z.ltb_lt (Z.max lo start) (Z.min hi stop))) by lia.
  rewrite range_within by lia.
  assert (E1 : (if lo <? start then range lo start else []) = range lo (Z.max lo start)).
  { destruct (Z.ltb_spec lo start); [by rewrite Z.max_r by lia|]. rewrite range_nil by lia. done. }
  assert (E2 : (if stop <? hi then range stop hi else []) = range (Z.min hi stop) hi).
  { destruct (Z.ltb_spec stop hi); [by rewrite Z.min_r by lia|]. rewrite range_nil by lia. done. }
  rewrite E1, E2. rewrite !range_app by lia. done.
Qed.

(** The stored checksum of a chunk is that of its bytes. *)
Definition chunk_right (i : Z) : Prop :=
  crc_for_chunk db (Z.to_nat i) = Ok (crc_hash (range (i * cs) (Z.min ((i + 1) * cs) (zlen file)))).

Lemma chunks_verified start stop chunks :
  0 <= start -> start < stop -> stop <= zlen file ->
  Forall (fun i => start / cs <= i <= (stop - 1) / cs) chunks ->
  (Forall chunk_right chunks -> verify_chunks db file chunks (range start stop) start stop (zlen file) = Ok ()) /\
  (~ Forall chunk_right chunks -> verify_chunks db file chunks (range start stop) start stop (zlen file) = Err Corruption).
Proof.
  intros Hs1 Hs2 Hs3. unfold MIN_CRC_CHUNK_SIZE, MAX_CRC_CHUNK_SIZE in Hcs. induction 1 as [|i chunks Hi _ IH]; [by split; intros Hn; [|destruct Hn; constructor]|].
  cbn [verify_chunks].
  pose proof (Z.div_mod start cs ltac:(lia)). pose proof (Z.mod_pos_bound start cs ltac:(lia)).
  pose proof (Z.div_mod (stop - 1) cs ltac:(lia)). pose proof (Z.mod_pos_bound (stop - 1) cs ltac:(lia)).
  assert (0 <= start / cs) by (apply Z.div_pos; lia).
  assert (Hlo : i * cs <= stop - 1) by nia. assert (Hhi : start < (i + 1) * cs) by nia.
  assert (Eh : Z.min (sat_mul64 (i + 1) cs) (zlen file) = Z.min ((i + 1) * cs) (zlen file)) by (unfold sat_mul64, u64_MAX; lia).
  assert (El : sat_mul64 i cs = i * cs) by (unfold sat_mul64, u64_MAX; lia).
  rewrite Eh, El. rewrite (proj2 (Z.leb_gt _ _)) by nia. rewrite assembled_chunk by nia.
  destruct (crc_for_chunk db (Z.to_nat i)) as [e|e] eqn:Ec; cbn [mbind result_bind].
  - destruct (Z.eqb_spec (crc_hash (range (i * cs) (Z.min ((i + 1) * cs) (zlen file)))) e) as [<-|Hne].
    + destruct IH as [IH1 IH2]. split.
      * intros [_ Hf]%Forall_cons. by apply IH1.
      * intros Hn. apply IH2. intros Hf. apply Hn. by apply Forall_cons_2.
    + split; [|done]. intros [Hc _]%Forall_cons. unfold chunk_right in Hc. congruence.
  - split; [|by unfold crc_for_chunk in Ec; destruct (cdb_crcs db !! _); [done|injection Ec as <-]].
    intros [Hc _]%Forall_cons. unfold chunk_right in Hc. congruence.
Qed.

Lemma piece_ends pos piecewise :
  0 <= pos < zlen file -> pos < piece_end db pos (zlen file) piecewise <= zlen file.
Proof.
  intros Hp. unfold piece_end. destruct piecewise; [|lia]. cbv zeta. unfold MIN_CRC_CHUNK_SIZE, MAX_CRC_CHUNK_SIZE in Hcs.
  set (want := Z.max UNCOMPRESSED_READ_PIECE_BYTES cs). assert (Hw : cs <= want < 2 ^ 25) by (subst want; unfold UNCOMPRESSED_READ_PIECE_BYTES; lia).
  assert (Ea : sat_add64 pos want = pos + want) by (unfold sat_add64, u64_MAX; lia). rewrite Ea.
  assert (Hd : pos + want <= div_ceil (pos + want) cs * cs).
  { unfold div_ceil. pose proof (Z.div_mod (pos + want) cs ltac:(lia)). pose proof (Z.mod_pos_bound (pos + want) cs ltac:(lia)).
    destruct (Z.eqb_spec ((pos + want) mod cs) 0); nia. }
  unfold sat_mul64, u64_MAX. lia.
Qed.

(** The chunks a read touches. *)
Definition touched (pos stop : Z) : list Z := seqZ (pos / cs) ((stop - 1) / cs - pos / cs + 1).

Lemma block_read pos piecewise :
  0 <= pos < zlen file ->
  let stop := piece_end db pos (zlen file) piecewise in
  pos < stop <= zlen file /\
  (Forall chunk_right (touched pos stop) ->
   read_uncompressed_data_block db file pos piecewise = Ok (Some (range pos stop), stop)) /\
  (~ Forall chunk_right (touched pos stop) ->
   read_uncompressed_data_block db file pos piecewise = Err Corruption).
Proof.
  intros Hp. cbv zeta. pose proof (piece_ends pos piecewise Hp) as Hs. split; [done|]. unfold MIN_CRC_CHUNK_SIZE, MAX_CRC_CHUNK_SIZE in Hcs.
  set (stop := piece_end db pos (zlen file) piecewise) in *. unfold read_uncompressed_data_block. cbv zeta.
  rewrite (proj2 (Z.eqb_neq _ _)) by lia. fold stop. unfold verify_uncompressed_chunks. cbv zeta.
  rewrite (proj2 (Z.eqb_neq _ _)) by lia.
  pose proof (range_length pos stop ltac:(lia) ltac:(lia) ltac:(lia)) as Hl.
  replace (is_empty (range pos stop)) with false by (destruct (range pos stop); [change (zlen []) with 0 in Hl; lia|done]).
  rewrite Hl. replace (sat_add64 pos (stop - pos)) with stop by (unfold sat_add64, u64_MAX; lia). fold (touched pos stop).
  assert (Hall : Forall (fun i => pos / cs <= i <= (stop - 1) / cs) (touched pos stop)).
  { apply Forall_forall. intros i Hi. apply elem_of_seqZ in Hi. lia. }
  destruct (chunks_verified pos stop (touched pos stop) ltac:(lia) ltac:(lia) ltac:(lia) Hall) as [H1 H2].
  split; intros Hr; [by rewrite H1|by rewrite H2].
Qed.
End Read.

(** C16: A read of uncompressed data is checked whole. For any CRC.db of a chunk size in
    bounds and any file, a block read at any position, to the end of the file or in a piece
    that ends with a chunk, returns exactly the bytes of its range and goes forward, if
    the stored checksum of every chunk it touches, also of the parts of these chunks that
    lie before or behind the range, is that of the file's bytes; if one is missing or
    different, the read is refused as corruption and no byte is returned. *)
Theorem crc_checks_reads `{CrcHasherLaws} db file pos piecewise :
  MIN_CRC_CHUNK_SIZE <= cdb_chunk_size db <= MAX_CRC_CHUNK_SIZE -> zlen file <= 2 ^ 62 -> 0 <= pos < zlen file ->
  let stop := piece_end db pos (zlen file) piecewise in
  pos < stop <= zlen file /\
  (Forall (chunk_right db file) (touched db pos stop) ->
   read_uncompressed_data_block db file pos piecewise = Ok (Some (file_range file pos stop), stop)) /\
  (~ Forall (chunk_right db file) (touched db pos stop) ->
   read_uncompressed_data_block db file pos piecewise = Err Corruption).
Proof. intros Hc Hl Hp. by apply block_read. Qed.

(** ** The checksums that were written *)

Section Written.
Context `{CrcHasherLaws}.

Lemma div_ceil_mul a b : 0 < b -> div_ceil a b * b < a + b /\ a <= div_ceil a b * b.
Proof.
  intros Hb. unfold div_ceil. pose proof (Z.div_mod a b ltac:(lia)). pose proof (Z.mod_pos_bound a b Hb).
  destruct (Z.eqb_spec (a mod b) 0); nia.
Qed.

(** As many chunks as the length says. *)
Lemma crc_chunk_count data cs : crc_chunks data cs -> zlen cs = div_ceil (zlen data) CRC_CHUNK_SIZE.
Proof.
  intros [-> Hc]. pose proof (div_ceil_mul (zlen (concat cs)) CRC_CHUNK_SIZE ltac:(done)) as Hd.
  pose proof (chunked_length _ _ Hc) as Hl. unfold CRC_CHUNK_SIZE in *.
  destruct cs as [|c0 cs0 _] using rev_ind; [done|]. destruct (chunk_at 65536 (cs0 ++ [c0]) (length cs0) c0 Hc) as [_ E].
  { by rewrite lookup_app_r, Nat.sub_diag by lia. }
  destruct (Hc (length cs0) c0) as [Hp _]; [by rewrite lookup_app_r, Nat.sub_diag by lia|].
  rewrite zlen_app in *. change (zlen [c0]) with 1 in *. unfold zlen at 1. unfold zlen at 2 in Hl. lia.
Qed.

Lemma stored_right data cs trailer i :
  crc_chunks data cs -> 0 <= i -> i * CRC_CHUNK_SIZE < zlen data ->
  chunk_right (mkCrcDb CRC_CHUNK_SIZE (map crc_hash cs ++ trailing (map crc_hash cs) trailer)) data i.
Proof.
  intros Hcc Hi Hlt. pose proof (crc_chunk_count _ _ Hcc) as Hn. destruct Hcc as [-> Hc].
  pose proof (div_ceil_mul (zlen (concat cs)) CRC_CHUNK_SIZE ltac:(done)) as Hd. rewrite <- Hn in Hd. clear Hn.
  assert (Hl : (Z.to_nat i < length cs)%nat) by (unfold CRC_CHUNK_SIZE, zlen in *; nia).
  apply lookup_lt_is_Some in Hl as [c Hci]. destruct (chunk_at _ _ _ _ Hc Hci) as [Ec El]. destruct (Hc _ _ Hci) as [Hp _].
  rewrite Z2Nat.id in * by lia. unfold chunk_right, crc_for_chunk. cbn [cdb_crcs cdb_chunk_size].
  rewrite lookup_app_l by (rewrite length_map; by eapply lookup_lt_Some). rewrite list_lookup_fmap, Hci. cbn [fmap option_fmap option_map].
  do 2 f_equal. unfold file_range. rewrite (Z.mul_comm i). rewrite Ec at 1. clear Ec.
  set (l := drop _ (concat cs)). assert (Hll : zlen l = zlen (concat cs) - CRC_CHUNK_SIZE * i).
  { subst l. unfold zlen, CRC_CHUNK_SIZE in *. rewrite length_drop. lia. }
  destruct (Z.leb_spec CRC_CHUNK_SIZE (zlen l)) as [Hge|Hsm].
  - f_equal. unfold CRC_CHUNK_SIZE in *. lia.
  - unfold zlen in Hll, Hsm. rewrite !take_ge; [done|unfold CRC_CHUNK_SIZE, zlen in *; lia..].
Qed.
End Written.

(** CRC.db survives its round trip. However the bytes of a file of up to 2^39 bytes are
    sliced into the updates of the accumulator, the digest is the checksum of the whole
    file; the CRC.db assembled from the accumulated checksums, with the trailer of a
    compaction or without, is accepted for that file, though its size is bounded by the
    file's; and every block of the file, at any position and in either mode, is read with
    its check passed, up to the end. *)
Theorem crc_roundtrip `{CrcHasherLaws} pieces trailer :
  zlen (concat pieces) <= 2 ^ 39 ->
  let file := concat pieces in
  let '(digest, crcs) := crc_finalize (feed pieces streaming_crc_new) in
  digest = crc_hash file /\
  exists db, open_crc_db (assemble_crc_bytes crcs trailer) (zlen file) = Ok db /\
    forall pos piecewise, 0 <= pos ->
      if zlen file <=? pos then read_uncompressed_data_block db file pos piecewise = Ok (None, pos)
      else exists stop, pos < stop <= zlen file /\
             read_uncompressed_data_block db file pos piecewise = Ok (Some (file_range file pos stop), stop).
Proof.
  intros Hl. cbv zeta. destruct (accumulated pieces) as (cs & Hcc & ->). set (file := concat pieces) in *.
  split; [done|]. set (crcs := map crc_hash cs). exists (mkCrcDb CRC_CHUNK_SIZE (crcs ++ trailing crcs trailer)).
  pose proof (crc_chunk_count _ _ Hcc) as Hn. pose proof (zlen_nonneg file) as Hf0.
  pose proof (div_ceil_mul (zlen file) CRC_CHUNK_SIZE ltac:(done)) as Hd.
  assert (Hcrcs : Forall (u_range 32) crcs).
  { apply Forall_forall. intros x Hx. apply list_elem_of_fmap in Hx as (c & -> & _). apply crc_hash_range. }
  split.
  - pose proof (crc_db_parses crcs trailer Hcrcs) as Hp. unfold open_crc_db.
    assert (Ht : 0 <= zlen (trailing crcs trailer) <= 1) by (unfold trailing; destruct trailer; [done|]; by destruct (is_empty crcs)).
    assert (Hz : zlen (assemble_crc_bytes crcs trailer) = 4 + 4 * (zlen cs + zlen (trailing crcs trailer))).
    { rewrite assembled, zlen_app, zlen_be_bytes, crc_bytes_length, zlen_app. unfold crcs at 1, zlen at 1. rewrite length_map. fold (zlen cs). lia. }
    pose proof (zlen_nonneg cs). rewrite Hz, (proj2 (Z.ltb_ge _ 4)) by lia.
    rewrite assembled at 1. rewrite take_app_length' by (by rewrite be_bytes_length). rewrite (from_be_bytes_id 4) by by vm_compute.
    change (validate_chunk_size (as_i32 CRC_CHUNK_SIZE)) with (@Ok Error Z CRC_CHUNK_SIZE). cbn [mbind result_bind]. cbv zeta.
    rewrite <- Hn. unfold ABSOLUTE_CRC_DB_MAX, CRC_CHUNK_SIZE in *. rewrite !Z.gtb_ltb, !(proj2 (Z.ltb_ge _ _)); [done|unfold sat_add64, sat_mul64, u64_MAX; lia|lia].
  - intros pos piecewise Hpos. destruct (Z.leb_spec (zlen file) pos) as [Hge|Hlt].
    + unfold read_uncompressed_data_block. cbv zeta. by rewrite (proj2 (Z.eqb_eq _ 0)) by lia.
    + set (db := mkCrcDb _ _). destruct (block_read db file ltac:(done) ltac:(lia) pos piecewise ltac:(lia)) as (Hs & Hr & _).
      exists (piece_end db pos (zlen file) piecewise). split; [done|]. apply Hr. apply Forall_forall. intros i Hi.
      apply elem_of_seqZ in Hi. change (cdb_chunk_size db) with CRC_CHUNK_SIZE in Hi. set (stop := piece_end _ _ _ _) in *.
      pose proof (Z.div_mod (stop - 1) CRC_CHUNK_SIZE ltac:(done)). pose proof (Z.mod_pos_bound (stop - 1) CRC_CHUNK_SIZE ltac:(done)).
      assert (0 <= pos / CRC_CHUNK_SIZE) by (apply Z.div_pos; [done|unfold CRC_CHUNK_SIZE; lia]). apply stored_right; [done|lia|unfold CRC_CHUNK_SIZE in *; nia].
Qed.

(** ** Examples *)

Definition ex_hasher : CrcHasher := {|
  hasher := list Z;
  hasher_new := [];
  hasher_update h bytes := h ++ bytes;
  hasher_finalize h := from_be h mod 2 ^ 32;
|}.

Lemma ex_hasher_laws : @CrcHasherLaws ex_hasher.
Proof.
  constructor.
  - intros h. apply app_nil_r.
  - intros h a b. apply app_assoc.
  - intros bytes. apply Z.mod_pos_bound. lia.
Qed.

Lemma crc_checks_reads_witness :
  @read_uncompressed_data_block ex_hasher (mkCrcDb 4096 [66051]) [1; 2; 3] 1 true = Ok (Some [2; 3], 3) /\
  @read_uncompressed_data_block ex_hasher (mkCrcDb 4096 [66052]) [1; 2; 3] 1 true = Err Corruption.
Proof.
  split.
  - destruct (@crc_checks_reads ex_hasher ex_hasher_laws (mkCrcDb 4096 [66051]) [1; 2; 3] 1 true) as (_ & Hr & _); [by vm_compute| |by vm_compute|].
    { unfold zlen. cbn. lia. }
    apply Hr. apply Forall_cons_2; [vm_compute; reflexivity|apply Forall_nil_2].
  - destruct (@crc_checks_reads ex_hasher ex_hasher_laws (mkCrcDb 4096 [66052]) [1; 2; 3] 1 true) as (_ & _ & Hr); [by vm_compute| |by vm_compute|].
    { unfold zlen. cbn. lia. }
    apply Hr. intros Hf. apply Forall_inv in Hf. vm_compute in Hf. discriminate Hf.
Defined.

Lemma crc_roundtrip_witness :
  exists db, open_crc_db (assemble_crc_bytes [66051] EmptyFinalChunk) 3 = Ok db /\
    @read_uncompressed_data_block ex_hasher db [1; 2; 3] 0 false = Ok (Some [1; 2; 3], 3).
Proof.
  pose proof (@crc_roundtrip ex_hasher ex_hasher_laws [[1]; [2; 3]] EmptyFinalChunk) as Hr.
  assert (Hl : zlen (concat [[1]; [2; 3]]) <= 2 ^ 39) by (unfold zlen; cbn; lia).
  destruct (Hr Hl) as (_ & db & Hdb & Hread). exists db. split; [exact Hdb|].
  vm_compute in Hdb. injection Hdb as <-. vm_compute. reflexivity.
Defined.
