(* ===== verification/IndexDb.v ===== *)
(** Index.db: the writer of partition entries and promoted indexes
    ([writer/index_writer.rs]), the parser of entries and of the whole file
    ([index_reader/parse.rs], the header fields of [header_spec.rs]) and the decoder of a
    promoted index ([promoted_index_reader.rs]).

    A clustering prefix is not self-delimiting: its length is the argument [prefix_len] of
    the decoder, as in the code. The poll of the cancel flag is left out. *)

From S2P Require Import Prelude Values VInt Keys Stats Cells PartitionWriter.

Open Scope Z_scope.

(** ** Writing *)

Definition INDEX_INFO_WIDTH_BASE : Z := 65536.
Definition NB_DELETION_TIME_LIVE_SIZE : Z := 12.

Definition serialize_index_info (buf : list Z) (block : PromotedIndexBlock) : list Z :=
  let buf := encode_unsigned (pib_offset block) (buf ++ pib_first_name block ++ pib_last_name block) in
  let width_delta := as_i64 (as_i64 (pib_width block) - INDEX_INFO_WIDTH_BASE) in
  encode_signed width_delta buf ++ [0].

(** The blocks, and where each begins. *)
Fixpoint serialize_blocks (blocks : list PromotedIndexBlock) (info : list Z) (offsets : list Z) :
    list Z * list Z :=
  match blocks with
  | [] => (info, offsets)
  | block :: blocks => serialize_blocks blocks (serialize_index_info info block) (offsets ++ [as_u32 (zlen info)])
  end.

Definition serialize_promoted_index (blocks : list PromotedIndexBlock) (raw_key_len : Z) : list Z :=
  let header_length := 2 + raw_key_len + NB_DELETION_TIME_LIVE_SIZE in
  let deletion_time_bytes := be_bytes 4 i32_MAX ++ be_bytes 8 i64_MIN in
  let '(index_info_bytes, block_start_offsets) := serialize_blocks blocks [] [] in
  encode_unsigned (zlen blocks) (encode_unsigned header_length [] ++ deletion_time_bytes)
  ++ index_info_bytes ++ flat_map (be_bytes 4) block_start_offsets.

(** [iw_sink] holds what the streaming file holds. *)
Record IndexWriter := mkIndexWriter {
  iw_buffer : list Z;
  iw_sink : option (list Z);
  iw_counting : bool;
  iw_position : Z;
  iw_entry_count : Z;
}.

Definition index_writer_new : IndexWriter := mkIndexWriter [] None false 0 0.
Definition index_writer_counting : IndexWriter := mkIndexWriter [] None true 0 0.
Definition index_writer_with_sink : IndexWriter := mkIndexWriter [] (Some []) false 0 0.

Record IndexEntryInfo := mkIndexEntryInfo { iei_index_offset : Z; iei_entry_size : Z }.

(** [flush_entry]; [io] is the outcome of opening and writing the file. *)
Definition flush_entry (io : result Error ()) (w : IndexWriter) : result Error IndexWriter :=
  if iw_counting w
  then Ok (mkIndexWriter [] (iw_sink w) true (iw_position w + zlen (iw_buffer w)) (iw_entry_count w))
  else
    match iw_sink w with
    | None => Ok w
    | Some written =>
        _ ← io;
        Ok (mkIndexWriter [] (Some (written ++ iw_buffer w)) false (iw_position w + zlen (iw_buffer w))
              (iw_entry_count w))
    end.

(** The bytes of [write_entry]. *)
Definition index_entry_bytes (key : DecoratedKey) (data_offset : Z) (blocks : list PromotedIndexBlock) : list Z :=
  let head := encode_unsigned data_offset (be_bytes 2 (as_u16 (zlen (Keys.key key))) ++ Keys.key key) in
  if zlen blocks >=? 2 then
    let promoted_payload := serialize_promoted_index blocks (zlen (Keys.key key)) in
    encode_unsigned (zlen promoted_payload) head ++ promoted_payload
  else encode_unsigned 0 head.

Definition add_partition_with_promoted (io : result Error ()) (w : IndexWriter) (key : DecoratedKey)
    (data_offset : Z) (blocks : list PromotedIndexBlock) : result Error (IndexWriter * IndexEntryInfo) :=
  let index_offset := iw_position w + zlen (iw_buffer w) in
  let entry := index_entry_bytes key data_offset blocks in
  w ← flush_entry io (mkIndexWriter (iw_buffer w ++ entry) (iw_sink w) (iw_counting w) (iw_position w)
                        (iw_entry_count w));
  Ok (mkIndexWriter (iw_buffer w) (iw_sink w) (iw_counting w) (iw_position w) (iw_entry_count w + 1),
      mkIndexEntryInfo index_offset (zlen entry)).

Definition index_finish (w : IndexWriter) : result Error (list Z) :=
  match iw_sink w with Some _ => Err InvalidInput | None => Ok (iw_buffer w) end.

(** [finish_streaming]: the number of bytes, and the file. *)
Definition index_finish_streaming (io : result Error ()) (w : IndexWriter) : result Error (Z * list Z) :=
  match iw_sink w with
  | None => Err InvalidInput
  | Some _ => w ← flush_entry io w; Ok (iw_position w, default [] (iw_sink w))
  end.

(** ** Reading entries *)

Record PartitionIndexEntry := mkPartitionIndexEntry {
  pie_key : list Z;
  pie_data_offset : Z;
  pie_promoted_index : option (list Z);
}.


Definition parse_big_index_entry (input : list Z) : result Error (PartitionIndexEntry * list Z) :=
  '(len, input) ← take_bytes 2 input;
  '(key_bytes, input) ← take_bytes (from_be len) input;
  '(data_offset, input) ← read_vuint input;
  '(promoted_len, input) ← read_vuint input;
  '(promoted_data, input) ← take_bytes promoted_len input;
  Ok (mkPartitionIndexEntry key_bytes data_offset
        (if promoted_len >? 0 then Some promoted_data else None), input).

(** The framing alone: its length and the length the payload announces. *)
Definition parse_big_index_entry_framing (input : list Z) : result Error (Z * Z) :=
  let original_len := zlen input in
  '(len, input) ← take_bytes 2 input;
  '(_, input) ← take_bytes (from_be len) input;
  '(_, input) ← read_vuint input;
  '(promoted_len, remaining) ← read_vuint input;
  Ok (original_len - zlen remaining, promoted_len).

(** [parse_all_partition_keys_cancellable]: the entries up to the first that does not parse,
    and what is left. Every entry takes at least four bytes, so the length is fuel. *)
Fixpoint parse_entries (fuel : nat) (input : list Z) : list PartitionIndexEntry * list Z :=
  match fuel, input with
  | S fuel, _ :: _ =>
      match parse_big_index_entry input with
      | Ok (entry, rest) => let '(entries, remaining) := parse_entries fuel rest in (entry :: entries, remaining)
      | Err _ => ([], input)
      end
  | _, _ => ([], input)
  end.

Definition parse_all_partition_keys (input : list Z) : list PartitionIndexEntry * list Z :=
  parse_entries (length input) input.

(** A field of the header: [n] big-endian bytes within bounds. *)
Definition header_field (n : Z) (lo hi : Z) (input : list Z) : result Error (list Z) :=
  '(bytes, input) ← take_bytes n input;
  let value := from_be bytes in
  if (lo <=? value) && (value <=? hi) then Ok input else Err Corruption.

(** [registry.parse_index_header]: version, entry count, data size, checksum. *)
Definition parse_index_header (input : list Z) : result Error (list Z) :=
  if zlen input <? 16 then Err Corruption
  else
    input ← header_field 4 1 10 input;
    input ← header_field 4 0 100000000 input;
    input ← header_field 8 0 1000000000000 input;
    header_field 4 0 (2 ^ 32 - 1) input.

(** What follows the header, or everything if there is none. *)
Definition parse_index_header_prefix (input : list Z) : list Z :=
  match parse_index_header input with Ok rest => rest | Err _ => input end.

Record IndexData := mkIndexData {
  id_entries : list PartitionIndexEntry;
  id_fully_parsed : bool;
}.

(** [IndexReader::open]: an empty file is refused, a malformed tail is not. *)
Definition open_index (buffer : list Z) : result Error IndexData :=
  if is_empty buffer then Err Corruption
  else
    let '(entries, remaining) := parse_all_partition_keys (parse_index_header_prefix buffer) in
    Ok (mkIndexData entries (is_empty remaining)).

(** [lookup_partition] through the hash map of keys: the last entry of a key. *)
Definition lookup_partition (d : IndexData) (key : list Z) : option PartitionIndexEntry :=
  List.find (fun e => bool_decide (pie_key e = key)) (rev (id_entries d)).

(** [IndexReader::open_lazy]: only the framing of the first entry is checked. *)
Definition VALIDITY_PROBE_PREFIX_CAP : Z := 70000.

Definition open_lazy (file : list Z) : result Error () :=
  if is_empty file then Err Corruption
  else
    match parse_big_index_entry_framing (take (Z.to_nat VALIDITY_PROBE_PREFIX_CAP) file) with
    | Err _ => Err Corruption
    | Ok (framing_len, promoted_len) =>
        if sat_add64 framing_len promoted_len >? zlen file then Err Corruption else Ok ()
    end.

(** ** Reading a promoted index *)

Record DecodedIndexInfo := mkDecodedIndexInfo {
  dii_first_name : list Z;
  dii_last_name : list Z;
  dii_offset : Z;
  dii_width : Z;
  dii_end_open_marker : option (Z * Z);
}.

Record DecodedPromotedIndex := mkDecodedPromotedIndex {
  dpi_header_length : Z;
  dpi_deletion_time : Z * Z;
  dpi_entries : list DecodedIndexInfo;
  dpi_offsets : list Z;
}.

(** The local deletion time and the deletion time. *)
Definition decode_deletion_time (input : list Z) : result Error ((Z * Z) * list Z) :=
  '(ldt, input) ← take_bytes 4 input;
  '(mfda, input) ← take_bytes 8 input;
  Ok ((as_i32 (from_be ldt), as_i64 (from_be mfda)), input).

Section Decode.
Context (prefix_len : list Z -> result Error Z).

Definition decode_index_info (input : list Z) : result Error (DecodedIndexInfo * list Z) :=
  first_len ← prefix_len input;
  '(first_name, input) ← take_bytes first_len input;
  last_len ← prefix_len input;
  '(last_name, input) ← take_bytes last_len input;
  '(offset, input) ← read_vuint input;
  '(width_delta_u, input) ← read_vuint input;
  let width := INDEX_INFO_WIDTH_BASE + zigzag_decode width_delta_u in
  if negb (bool_decide (is_i64 width)) || (width <? 0) then Err Corruption
  else
    match input with
    | [] => Err Corruption
    | marker_byte :: input =>
        if marker_byte =? 0 then Ok (mkDecodedIndexInfo first_name last_name offset width None, input)
        else if marker_byte =? 1 then
          '(dt, input) ← decode_deletion_time input;
          Ok (mkDecodedIndexInfo first_name last_name offset width (Some dt), input)
        else Err Corruption
    end.

Fixpoint decode_infos (count : nat) (input : list Z) : result Error (list DecodedIndexInfo * list Z) :=
  match count with
  | O => Ok ([], input)
  | S count =>
      '(entry, input) ← decode_index_info input;
      '(entries, input) ← decode_infos count input;
      Ok (entry :: entries, input)
  end.

Fixpoint decode_offsets (count : nat) (input : list Z) : result Error (list Z * list Z) :=
  match count with
  | O => Ok ([], input)
  | S count =>
      '(off, input) ← take_bytes 4 input;
      '(offsets, input) ← decode_offsets count input;
      Ok (as_i32 (from_be off) :: offsets, input)
  end.

Definition decode_promoted_index (payload : list Z) : result Error DecodedPromotedIndex :=
  '(header_length, input) ← read_vuint payload;
  '(deletion_time, input) ← decode_deletion_time input;
  '(count, input) ← read_vuint input;
  if (count >? 2 ^ 32 - 1) || (count >? zlen input) then Err Corruption
  else
    '(entries, input) ← decode_infos (Z.to_nat count) input;
    '(offsets, input) ← decode_offsets (Z.to_nat count) input;
    if is_empty input then Ok (mkDecodedPromotedIndex header_length deletion_time entries offsets)
    else Err Corruption.
End Decode.

(** The number of blocks, without decoding them. *)
Definition peek_block_count (payload : list Z) : result Error Z :=
  '(_, input) ← read_vuint payload;
  '(_, input) ← take_bytes 12 input;
  '(count, remaining) ← read_vuint input;
  if (count >? 2 ^ 32 - 1) || (count >? zlen remaining) then Err Corruption else Ok count.
