(* ===== verification/SummaryDb.v ===== *)
(** Summary.db: the writer of samples ([writer/summary_writer.rs]), the parser
    ([summary_reader/mod.rs]) and the lookup it guides: the interval of Index.db between two
    samples, and the scan of that interval ([summary_reader/interval.rs]).

    Header and keys are big-endian, the offsets of entries and the positions they hold
    little-endian. *)

From S2P Require Import Prelude Values Murmur3 Keys Cells IndexDb.

Open Scope Z_scope.

Definition BASE_SAMPLING_LEVEL : Z := 128.

Record SummaryEntry := mkSummaryEntry { se_partition_key : list Z; se_position : Z }.

(** ** Writing *)

Record SummaryWriter := mkSummaryWriter {
  sw_min_index_interval : Z;
  sw_total_partition_count : Z;
  sw_entries : list SummaryEntry;
  sw_first_key : option (list Z);
  sw_last_key : option (list Z);
}.

Definition summary_writer_new (min_index_interval : Z) : SummaryWriter :=
  mkSummaryWriter min_index_interval 0 [] None None.

(** Every partition. *)
Definition note_partition (key : DecoratedKey) (w : SummaryWriter) : SummaryWriter :=
  mkSummaryWriter (sw_min_index_interval w) (Z.min (sw_total_partition_count w + 1) (2 ^ 32 - 1)) (sw_entries w)
    (Some (default (Keys.key key) (sw_first_key w))) (Some (Keys.key key)).

(** A sampled one. *)
Definition add_entry (key : DecoratedKey) (index_offset : Z) (w : SummaryWriter) : SummaryWriter :=
  mkSummaryWriter (sw_min_index_interval w) (sw_total_partition_count w)
    (sw_entries w ++ [mkSummaryEntry (Keys.key key) index_offset]) (sw_first_key w) (sw_last_key w).

Definition write_header (min_index_interval entries_count summary_entries_size : Z) : list Z :=
  be_bytes 4 min_index_interval ++ be_bytes 4 entries_count ++ be_bytes 8 summary_entries_size
  ++ be_bytes 4 BASE_SAMPLING_LEVEL ++ be_bytes 4 entries_count.

Definition summary_entry_bytes (e : SummaryEntry) : list Z := se_partition_key e ++ le_bytes 8 (se_position e).

(** The offsets of the entries, from the start of the offset table. *)
Fixpoint entry_offsets (start : Z) (entries : list SummaryEntry) : list Z :=
  match entries with
  | [] => []
  | e :: entries => as_u32 start :: entry_offsets (start + zlen (summary_entry_bytes e)) entries
  end.

Definition length_prefixed (key : option (list Z)) : list Z :=
  match key with Some key => be_bytes 4 (as_u32 (zlen key)) ++ key | None => [] end.

Definition summary_finish (w : SummaryWriter) : list Z :=
  if is_empty (sw_entries w) then write_header (sw_min_index_interval w) 0 0
  else
    let offset_table_size := zlen (sw_entries w) * 4 in
    let entry_data := flat_map summary_entry_bytes (sw_entries w) in
    write_header (sw_min_index_interval w) (as_u32 (zlen (sw_entries w))) (offset_table_size + zlen entry_data)
    ++ flat_map (le_bytes 4) (entry_offsets offset_table_size (sw_entries w)) ++ entry_data
    ++ length_prefixed (sw_first_key w) ++ length_prefixed (sw_last_key w).

(** ** Parsing *)

Record SummaryHeader := mkSummaryHeader {
  sh_min_index_interval : Z;
  sh_entries_count : Z;
  sh_summary_entries_size : Z;
  sh_sampling_level : Z;
  sh_size_at_full_sampling : Z;
}.

Record SummaryData := mkSummaryData {
  sd_header : SummaryHeader;
  sd_entries : list SummaryEntry;
  sd_first_key : list Z;
  sd_last_key : list Z;
}.

Definition SUMMARY_HEADER_SIZE : Z := 24.
Definition MAX_REASONABLE_ENTRIES : Z := 100000000.

Definition read_be (n : Z) (input : list Z) : result Error (Z * list Z) :=
  '(bytes, input) ← take_bytes n input; Ok (from_be bytes, input).

Definition parse_summary_header (input : list Z) : result Error (SummaryHeader * list Z) :=
  '(min_index_interval, input) ← read_be 4 input;
  '(entries_count, input) ← read_be 4 input;
  '(summary_entries_size, input) ← read_be 8 input;
  '(sampling_level, input) ← read_be 4 input;
  '(size_at_full_sampling, input) ← read_be 4 input;
  Ok (mkSummaryHeader min_index_interval entries_count summary_entries_size sampling_level
        size_at_full_sampling, input).

Fixpoint read_offsets (count : nat) (input : list Z) : result Error (list Z * list Z) :=
  match count with
  | O => Ok ([], input)
  | S count =>
      '(off, input) ← take_bytes 4 input;
      '(offsets, input) ← read_offsets count input;
      Ok (from_le off :: offsets, input)
  end.

(** Offsets that start at 0 are those of the entry data; else they count the table. *)
Definition normalize_entry_offsets (offsets : list Z) (entry_data_size offset_table_size
    summary_entries_size : Z) : result Error (list Z) :=
  match offsets with
  | [] => Ok []
  | first :: _ =>
      if (first =? 0) && forallb (fun offset => offset <? entry_data_size) offsets then Ok offsets
      else if forallb (fun offset => (offset >=? offset_table_size) && (offset <? summary_entries_size)) offsets
      then Ok (map (fun offset => offset - offset_table_size) offsets)
      else Err Corruption
  end.

Definition parse_summary_entry (entry_data : list Z) (start stop : Z) : result Error SummaryEntry :=
  if start >=? stop then Err Corruption
  else if stop >? zlen entry_data then Err Corruption
  else
    let entry_bytes := take (Z.to_nat (stop - start)) (drop (Z.to_nat start) entry_data) in
    if zlen entry_bytes <? 8 then Err Corruption
    else
      let key_len := Z.to_nat (zlen entry_bytes - 8) in
      Ok (mkSummaryEntry (take key_len entry_bytes) (from_le (drop key_len entry_bytes))).

(** Each entry ends where the next one starts. *)
Fixpoint parse_summary_entries (entry_data : list Z) (offsets : list Z) : result Error (list SummaryEntry) :=
  match offsets with
  | [] => Ok []
  | start :: offsets =>
      entry ← parse_summary_entry entry_data start (default (zlen entry_data) (head offsets));
      entries ← parse_summary_entries entry_data offsets;
      Ok (entry :: entries)
  end.

Definition parse_serialized_key (input : list Z) : result Error (list Z * list Z) :=
  '(size, input) ← read_be 4 input; take_bytes size input.

(** The subtraction of the table's size wraps in a release build: the data is then too short. *)
Definition parse_summary_data (input : list Z) : result Error SummaryData :=
  if zlen input <? SUMMARY_HEADER_SIZE then Err Corruption
  else
    '(header, remaining) ← parse_summary_header input;
    if sh_entries_count header >? MAX_REASONABLE_ENTRIES then Err Corruption
    else
      let offset_table_size := sh_entries_count header * 4 in
      if zlen remaining <? offset_table_size then Err Corruption
      else
        '(offsets, after_offsets) ← read_offsets (Z.to_nat (sh_entries_count header)) remaining;
        let entry_data_size := as_u64 (sh_summary_entries_size header - offset_table_size) in
        '(entry_data, after_entries) ← take_bytes entry_data_size after_offsets;
        offsets ← normalize_entry_offsets offsets (zlen entry_data) offset_table_size
                    (sh_summary_entries_size header);
        entries ← parse_summary_entries entry_data offsets;
        '(first_key, after_first) ← parse_serialized_key after_entries;
        '(last_key, _) ← parse_serialized_key after_first;
        Ok (mkSummaryData header entries first_key last_key).

(** ** Lookup *)

Record SummaryInterval := mkSummaryInterval {
  si_start_position : Z;
  si_end_position : option Z;
  si_sample_index : nat;
}.

Definition find_interval_for_key (entries : list SummaryEntry) (key : list Z) : option SummaryInterval :=
  let le_count := partition_point
    (fun e => negb (bool_decide (cmp_partition_keys_by_token (se_partition_key e) key = Gt))) entries in
  let floor := pred le_count in
  e ← entries !! floor;
  Some (mkSummaryInterval (se_position e) (se_position <$> entries !! S floor) floor).

(** Where a scan of the tokens above [start_excl] begins. *)
Definition scan_start_position_for_token (entries : list SummaryEntry) (start_excl : Z) : Z :=
  let le := partition_point (fun e => cassandra_murmur3_token (se_partition_key e) <=? start_excl) entries in
  from_option se_position 0 (entries !! pred le).

(** [u64] arithmetic; the level is at most 128, so the product of two [u32] fits. *)
Definition last_interval_entry_cap (min_index_interval sampling_level : Z) : Z :=
  let effective_sampling_level := Z.max 1 (Z.min sampling_level BASE_SAMPLING_LEVEL) in
  sat_add64 (sat_mul64 min_index_interval BASE_SAMPLING_LEVEL / effective_sampling_level) 1.

(** [scan_interval_bytes]: at most [entry_cap] entries; [fuel] bounds the loop. *)
Fixpoint scan_interval (fuel : nat) (bytes key : list Z) (entry_cap : Z) (entries_touched : Z) :
    option PartitionIndexEntry * Z :=
  match fuel, bytes with
  | S fuel, _ :: _ =>
      if entries_touched <? entry_cap then
        match parse_big_index_entry bytes with
        | Ok (entry, rest) =>
            if bool_decide (pie_key entry = key) then (Some entry, entries_touched + 1)
            else scan_interval fuel rest key entry_cap (entries_touched + 1)
        | Err _ => (None, entries_touched)
        end
      else (None, entries_touched)
  | _, _ => (None, entries_touched)
  end.

Definition scan_interval_bytes (bytes key : list Z) (entry_cap : Z) : option PartitionIndexEntry * Z :=
  scan_interval (length bytes) bytes key entry_cap 0.

(** [lookup_key_in_interval] on the bytes of Index.db. *)
Definition lookup_key_in_interval (index : list Z) (interval : SummaryInterval) (key : list Z)
    (min_index_interval sampling_level : Z) : result Error (option PartitionIndexEntry * Z) :=
  match si_end_position interval with
  | Some stop =>
      if stop <=? si_start_position interval then Err Corruption
      else if stop >? zlen index then Err Corruption
      else
        let len := Z.to_nat (stop - si_start_position interval) in
        Ok (scan_interval_bytes (take len (drop (Z.to_nat (si_start_position interval)) index)) key u64_MAX)
  | None =>
      Ok (scan_interval_bytes (drop (Z.to_nat (si_start_position interval)) index) key
            (last_interval_entry_cap min_index_interval sampling_level))
  end.

(** [lookup_partition_via_summary_interval] *)
Definition lookup_via_summary (summary : SummaryData) (index key : list Z) : result Error (option Z) :=
  match find_interval_for_key (sd_entries summary) key with
  | None => Ok None
  | Some interval =>
      '(entry, _) ← lookup_key_in_interval index interval key
                      (sh_min_index_interval (sd_header summary)) (sh_sampling_level (sd_header summary));
      Ok (option_map pie_data_offset entry)
  end.
