(* ===== verification/BtiState.v ===== *)
(** The index of a trie-indexed table as its writer keeps and writes it
    ([writer/bti_state.rs]): partitions are queued with the row-index blocks of the wide
    ones; at the end Rows.db is written, then Partitions.db, which points into it. *)

From S2P Require Import Prelude Values Keys Mutation Cells PartitionWriter BtiPartitions BtiRows.

Open Scope Z_scope.

Record PendingBtiPartition := mkPendingBtiPartition {
  pbp_raw_key : list Z;
  pbp_data_offset : Z;
  pbp_row_index : option (list RowIndexBlock * option (Z * Z));
}.

(** The blocks up to the first without a separator, and whether there was none such. *)
Fixpoint separated_blocks (blocks : list PromotedIndexBlock) : list RowIndexBlock * bool :=
  match blocks with
  | [] => ([], true)
  | b :: blocks =>
      match pib_oss50_separator b with
      | Some ((_ :: _) as sep) =>
          let '(rest, all_have_sep) := separated_blocks blocks in
          (mkRowIndexBlock sep (pib_offset b) None :: rest, all_have_sep)
      | _ => ([], false)
      end
  end.

(** The order check is [separators_ascend], as in the writer of Rows.db. *)
Definition pending_row_index (promoted_blocks : list PromotedIndexBlock) (partition_tombstone : option PartTombstone) :
    option (list RowIndexBlock * option (Z * Z)) :=
  if zlen promoted_blocks >=? 2 then
    let '(blocks, all_have_sep) := separated_blocks promoted_blocks in
    if all_have_sep && separators_ascend blocks && negb (is_empty blocks)
    then Some (blocks, (fun pt => (pt_local_deletion_time pt, pt_deletion_time pt)) <$> partition_tombstone)
    else None
  else None.

Definition queue_bti_partition (key : DecoratedKey) (data_offset : Z) (promoted_blocks : list PromotedIndexBlock)
    (partition_tombstone : option PartTombstone) (pending : option (list PendingBtiPartition)) :
    option (list PendingBtiPartition) :=
  (fun pending => pending ++ [mkPendingBtiPartition (Keys.key key) data_offset
                                (pending_row_index promoted_blocks partition_tombstone)]) <$> pending.

Definition add_rows (w : RowsTrieWriter) (p : PendingBtiPartition) : RowsTrieWriter :=
  match pbp_row_index p with
  | Some (blocks, partition_deletion) =>
      add_partition_row_index w (pbp_raw_key p) (pbp_data_offset p) blocks partition_deletion
  | None => w
  end.

(** The loop that hands the offsets of Rows.db to the wide partitions, in order. *)
Fixpoint fill_trie (pending : list PendingBtiPartition) (rows_offsets : list Z) (trie : PartitionsTrieWriter) :
    PartitionsTrieWriter :=
  match pending with
  | [] => trie
  | p :: pending =>
      match pbp_row_index p with
      | Some _ =>
          fill_trie pending (tail rows_offsets)
            (add_partition_with_payload trie (pbp_raw_key p) (ToRowsOffset (default 0 (head rows_offsets))))
      | None =>
          fill_trie pending rows_offsets
            (add_partition_with_payload trie (pbp_raw_key p) (ToDataOffset (pbp_data_offset p)))
      end
  end.

(** The bytes of Partitions.db and of Rows.db. *)
Definition write_bti_components (bti_pending : option (list PendingBtiPartition)) :
    result Error (option (list Z * list Z)) :=
  match bti_pending with
  | None => Ok None
  | Some [] => Err InvalidInput
  | Some pending =>
      '(rows_bytes, rows_offsets) ← rows_finish (foldl add_rows [] pending);
      partitions_bytes ← partitions_finish (fill_trie pending rows_offsets partitions_new);
      Ok (Some (partitions_bytes, rows_bytes))
  end.
