(* ===== verification/BtiStateProps.v ===== *)
(** The two index files of a trie-indexed table together: a partition is found in
    Partitions.db, at its offset in Data.db or, when it is wide, at its entry in Rows.db,
    which leads to its blocks. *)

From S2P Require Import Prelude Murmur3 Values VInt Oss50 BtiNodes BtiTrie BtiTree BtiWalks BtiPartitions.
From S2P Require Import BtiPartitionsProps BtiRows BtiRowsProps BtiState.

Open Scope Z_scope.

(** The row index of a wide partition. *)
Definition part_of (p : PendingBtiPartition) : option PartitionRowIndex :=
  (fun ri : list RowIndexBlock * option (Z * Z) => mkRowIndex (pbp_raw_key p) (pbp_data_offset p) ri.1 ri.2) <$> pbp_row_index p.

Definition parts_of (pending : list PendingBtiPartition) : list PartitionRowIndex := omap part_of pending.

Lemma add_rows_all pending w : foldl add_rows w pending = w ++ parts_of pending.
Proof.
  revert w. induction pending as [|p pending IH]; intros w; cbn [foldl parts_of omap list_omap]; [by rewrite app_nil_r|].
  rewrite IH. unfold add_rows, part_of. destruct (pbp_row_index p) as [[blocks del]|]; cbn [fmap option_fmap option_map]; [|done].
  unfold add_partition_row_index. by rewrite <- app_assoc.
Qed.

(** The partitions as they are added to the trie. *)
Fixpoint adds_of (pending : list PendingBtiPartition) (rows_offsets : list Z) : list (list Z * PartitionPayload) :=
  match pending with
  | [] => []
  | p :: pending =>
      match pbp_row_index p with
      | Some _ => (pbp_raw_key p, ToRowsOffset (default 0 (head rows_offsets))) :: adds_of pending (tail rows_offsets)
      | None => (pbp_raw_key p, ToDataOffset (pbp_data_offset p)) :: adds_of pending rows_offsets
      end
  end.

Lemma fill_trie_adds pending : forall offs trie,
  fill_trie pending offs trie = foldl (fun w a => add_partition_with_payload w a.1 a.2) trie (adds_of pending offs).
Proof.
  induction pending as [|p pending IH]; intros offs trie; [done|]. cbn [fill_trie adds_of].
  destruct (pbp_row_index p); cbn [foldl fst snd]; apply IH.
Qed.

Definition pending_tokens (pending : list PendingBtiPartition) : list Z :=
  map (fun p => cassandra_murmur3_token (pbp_raw_key p)) pending.

Lemma adds_tokens pending : forall offs, tokens (adds_of pending offs) = pending_tokens pending.
Proof.
  induction pending as [|p pending IH]; intros offs; [done|]. cbn [adds_of pending_tokens map].
  destruct (pbp_row_index p); cbn [tokens map fst]; f_equal; apply IH.
Qed.

Record pending_ok (p : PendingBtiPartition) : Prop := {
  pk_key : zlen (pbp_raw_key p) <= 65535;
  pk_offset : 0 <= pbp_data_offset p <= i64_MAX;
  pk_rows : forall part, part_of p = Some part -> part_ok part;
}.

Lemma placed_range data ro part : placed data ro part -> 0 <= ro <= i64_MAX.
Proof.
  intros (t & root & offs & sparse & ord & p & _ & _ & _ & Hr & Hro & _ & _ & E & _).
  rewrite E in Hro |- *. match goal with |- context [zlen ?l] => pose proof (zlen_nonneg l) end.
  unfold i64_MAX. change (2 ^ 40) with 1099511627776 in Hro. change (2 ^ 63) with 9223372036854775808. lia.
Qed.

(** What is added for each partition, when Rows.db holds the wide ones. *)
Lemma adds_placed file pending : forall offs,
  Forall pending_ok pending -> Forall2 (placed file) offs (parts_of pending) ->
  Forall add_ok (adds_of pending offs) /\
  forall p, p ∈ pending ->
    match part_of p with
    | Some part => exists ro, (pbp_raw_key p, ToRowsOffset ro) ∈ adds_of pending offs /\ row_index_reads file ro part
    | None => (pbp_raw_key p, ToDataOffset (pbp_data_offset p)) ∈ adds_of pending offs
    end.
Proof.
  induction pending as [|p pending IH]; intros offs Hok Hall; [split; [constructor|intros p Hp; by apply not_elem_of_nil in Hp]|].
  apply Forall_cons in Hok as [Hp Hok]. pose proof Hp as [Hk Ho Hr]. cbn [adds_of]. unfold parts_of in Hall. cbn [omap list_omap] in Hall.
  fold (parts_of pending) in Hall. destruct (part_of p) as [part|] eqn:Ep.
  - unfold part_of in Ep. destruct (pbp_row_index p) as [ri|] eqn:Er; [|done]. inversion Hall as [|ro ? offs' ? Hpl Hall']; subst.
    cbn [head tail default from_option id]. destruct (IH offs' Hok Hall') as [IH1 IH2]. split.
    + constructor; [|done]. split; [by eapply placed_range|done].
    + intros q Hq. apply elem_of_cons in Hq as [->|Hq].
      * unfold part_of. rewrite Er. rewrite Ep. exists ro. split; [by left|]. apply placed_reads; [|done]. by apply Hr.
      * specialize (IH2 q Hq). destruct (part_of q); [destruct IH2 as (ro' & ? & ?); exists ro'; split; [by right|done]|by right].
  - unfold part_of in Ep. destruct (pbp_row_index p) as [ri|] eqn:Er; [done|]. destruct (IH offs Hok Hall) as [IH1 IH2]. split.
    + constructor; [|done]. split; done.
    + intros q Hq. apply elem_of_cons in Hq as [->|Hq].
      * unfold part_of. rewrite Er. by left.
      * specialize (IH2 q Hq). destruct (part_of q); [destruct IH2 as (ro' & ? & ?); exists ro'; split; [by right|done]|by right].
Qed.

Lemma adds_length pending : forall offs, zlen (adds_of pending offs) = zlen pending.
Proof.
  induction pending as [|p pending IH]; intros offs; [done|]. cbn [adds_of]. by destruct (pbp_row_index p); rewrite !zlen_cons, IH.
Qed.

(** The queue of a table that can be written. *)
Record queue_ok (pending : list PendingBtiPartition) : Prop := {
  qo_some : pending <> [];
  qo_tokens : NoDup (pending_tokens pending);
  qo_each : Forall pending_ok pending;
  qo_length : zlen pending <= 2 ^ 33;
  qo_rows : zsum (map part_weight (parts_of pending)) <= 2 ^ 40;
}.

(** Where the reader of the two files finds a partition. *)
Definition found (partitions_db rows_db : list Z) (p : PendingBtiPartition) : Prop :=
  match part_of p with
  | Some part => exists ro,
      lookup_raw_key_in_bti_partitions_db partitions_db (pbp_raw_key p) = Ok (Some (RowsOffset ro)) /\
      row_index_reads rows_db ro part
  | None => lookup_raw_key_in_bti_partitions_db partitions_db (pbp_raw_key p) = Ok (Some (DataOffset (pbp_data_offset p)))
  end.

(** C4: A trie-indexed table finds its partitions and their blocks. The queue is not empty; its
    at most 2^33 partitions have distinct tokens, raw keys of at most 65535 bytes and data
    offsets from 0 to [i64::MAX]. A wide partition in it has from 1 to 2^32 - 1 blocks: their
    separators are non-empty, ascend and none is a prefix of another, their offsets are
    below 2^55; each open marker and the partition's deletion have a 32-bit local deletion
    time and a timestamp of at least [i64::MIN] + 2^56, so that its first byte is not the
    live sentinel's; and the wide partitions weigh, at 20 bytes and the trie nodes for each
    block, at most 2^40. From such a queue, [write_bti_components] writes a Partitions.db and
    a Rows.db such that the lookup of a narrow partition's key gives its offset in Data.db;
    that of a wide one gives an offset in Rows.db at which its own entry is resolved, with
    its data position, block count and deletion and with a valid root, from which the floor
    and the strict ceiling of any key are the blocks around it; and the lookup of a key of
    any other token gives nothing. A separator that is a prefix of the next one and an earlier
    deletion are lost: [BtiRowsProps.prefix_separator_lost], [BtiRowsProps.early_deletion_lost]. *)
Theorem bti_table_found pending :
  queue_ok pending ->
  exists partitions_db rows_db,
    write_bti_components (Some pending) = Ok (Some (partitions_db, rows_db)) /\
    Forall (found partitions_db rows_db) pending /\
    forall k, cassandra_murmur3_token k ∉ pending_tokens pending ->
      lookup_raw_key_in_bti_partitions_db partitions_db k = Ok None.
Proof.
  intros [Hne Hn Hok Hlen Hw].
  assert (Hparts : Forall part_ok (parts_of pending)).
  { apply Forall_forall. intros part Hpart. unfold parts_of in Hpart. apply list_elem_of_omap in Hpart as (p & Hp & E).
    rewrite Forall_forall in Hok. by apply (Hok p Hp). }
  destruct (rows_finish_placed (parts_of pending) [] [] Hparts) as (offs & rows_db & Er & Hpl); [exact Hw|].
  cbn [app] in Hpl, Er. destruct (adds_placed rows_db pending offs Hok Hpl) as [Hadd Hin].
  destruct (partitions_index (adds_of pending offs)) as (partitions_db & Ef & Hl & Hnone & _).
  { intros E. pose proof (adds_length pending offs) as El. rewrite E in El. destruct pending; [done|].
    rewrite zlen_cons in El. pose proof (zlen_nonneg pending). unfold zlen at 1 in El. cbn [length] in El. lia. }
  { by rewrite adds_tokens. } { done. } { by rewrite adds_length. }
  exists partitions_db, rows_db. split; [|split].
  - unfold write_bti_components. destruct pending as [|p pending]; [done|]. rewrite add_rows_all. cbn [app].
    unfold rows_finish. rewrite Er. cbn [mbind result_bind]. rewrite fill_trie_adds. fold (partitions_of (adds_of (p :: pending) offs)).
    rewrite Ef. done.
  - apply Forall_forall. intros p Hp. unfold found. specialize (Hin p Hp). destruct (part_of p) as [part|].
    + destruct Hin as (ro & Ha & Hr). exists ro. split; [|done]. by apply (Hl _ Ha).
    + by apply (Hl _ Hin).
  - intros k Hk. apply Hnone. by rewrite adds_tokens.
Qed.

Definition sample_queue : list PendingBtiPartition :=
  [mkPendingBtiPartition [107; 48] 0 None;
   mkPendingBtiPartition [107; 49] 4096 (Some (ri_blocks sample_part, None))].

Lemma sample_queue_ok : queue_ok sample_queue.
Proof.
  split.
  - discriminate.
  - apply (bool_decide_unpack _). vm_compute. exact I.
  - repeat apply Forall_cons_2; [| |apply Forall_nil_2]; (split; [vm_compute; discriminate|split; vm_compute; discriminate|]).
    + discriminate.
    + intros part [= <-]. exact sample_part_ok.
  - vm_compute. discriminate.
  - vm_compute. discriminate.
Qed.

Lemma bti_table_found_witness :
  queue_ok sample_queue /\ exists partitions_db rows_db,
    write_bti_components (Some sample_queue) = Ok (Some (partitions_db, rows_db)) /\
    Forall (found partitions_db rows_db) sample_queue.
Proof.
  split; [exact sample_queue_ok|].
  destruct (bti_table_found sample_queue sample_queue_ok) as (pdb & rdb & E & F & _). exists pdb, rdb. split; [exact E|exact F].
Defined.
