(* ===== verification/SSTable.v ===== *)
(** The SSTable writer ([writer/mod.rs], [writer/incremental.rs], [writer/finish.rs],
    [writer/filter_writer.rs], [writer/toc_writer.rs]): partitions in
    token order go to Data.db, Index.db, Filter.db and every 128th to Summary.db, or in a
    trie-indexed table to the queue of Partitions.db and Rows.db ([BtiState]).

    The format-dependent names of files, the fsyncs and the metrics are left out; so are the
    bytes of Statistics.db, whose content is [sf_stats]. [Io] holds the outcomes of the two
    streamed files. *)

From S2P Require Import Prelude Values Keys Murmur3 Bloom Mutation Stats Cells Rows RowGroup MergeModel PartitionWriter.
From S2P Require Import StaticRows Session IndexDb SummaryDb Crc BtiState.

Open Scope Z_scope.

(** ** Filter.db *)

Record FilterWriter := mkFilterWriter { fw_bloom : option BloomFilter; fw_keys_added : Z }.

(** A false-positive chance of 1.0 disables the filter. *)
Definition filter_writer_new `{FloatOps} (expected_keys fp_chance : Z) : result BloomError FilterWriter :=
  if expected_keys =? 0 then Err Configuration
  else if fp_chance =? f64_1_0 then Ok (mkFilterWriter None 0)
  else bloom ← Bloom.new expected_keys fp_chance; Ok (mkFilterWriter (Some bloom) 0).

Definition add_key (key : DecoratedKey) (w : FilterWriter) : FilterWriter :=
  mkFilterWriter ((fun bloom => Bloom.insert bloom (Keys.key key)) <$> fw_bloom w) (fw_keys_added w + 1).

(** [None]: no file is written. *)
Definition filter_finish (w : FilterWriter) : option (list Z) := Bloom.serialize <$> fw_bloom w.

(** ** The writer *)

Inductive SSTableFormat := Big | Bti.
#[export] Instance sstable_format_eq_dec : EqDecision SSTableFormat.
Proof. solve_decision. Defined.

Record SSTableWriter := mkSSTableWriter {
  ssw_schema : TableSchema;
  ssw_stats : StatisticsMetadata;
  ssw_data_writer : DataWriter;
  ssw_index_writer : IndexWriter;
  ssw_filter_writer : option FilterWriter;
  ssw_summary_writer : SummaryWriter;
  ssw_last_token : option Z;
  ssw_partition_count : Z;
  ssw_summary_sample_counter : Z;
  ssw_summary_sample_interval : Z;
  ssw_baselines_locked : bool;
  ssw_format : SSTableFormat;
  ssw_bti_pending : option (list PendingBtiPartition);
}.

(** The statistics start from sentinels. *)
Definition initial_stats : StatisticsMetadata :=
  set_ranges i64_MAX (max_timestamp stats_new) i32_MAX (max_local_deletion_time stats_new) i32_MAX
    (max_ttl stats_new) stats_new.

(** [with_format_and_registry] without a registry; [fp_chance] is the schema's. *)
Definition with_format `{FloatOps} (schema : TableSchema) (expected_partitions fp_chance : Z) (format : SSTableFormat) :
    result BloomError SSTableWriter :=
  let stats := initial_stats in
  let data_writer := with_oa_partition_deletion (bool_decide (format = Bti)) (data_writer_with_sink (baselines_of stats)) in
  let index_writer := match format with Big => index_writer_with_sink | Bti => index_writer_counting end in
  filter_writer ← filter_writer_new (Z.max expected_partitions 1) fp_chance;
  Ok (mkSSTableWriter schema stats data_writer index_writer (Some filter_writer) (summary_writer_new 128) None 0 0 128
        false format (match format with Big => None | Bti => Some [] end)).

Definition with_stats (stats : StatisticsMetadata) (w : SSTableWriter) : SSTableWriter :=
  mkSSTableWriter (ssw_schema w) stats (ssw_data_writer w) (ssw_index_writer w) (ssw_filter_writer w)
    (ssw_summary_writer w) (ssw_last_token w) (ssw_partition_count w) (ssw_summary_sample_counter w)
    (ssw_summary_sample_interval w) (ssw_baselines_locked w) (ssw_format w) (ssw_bti_pending w).

Definition with_data_writer (dw : DataWriter) (w : SSTableWriter) : SSTableWriter :=
  mkSSTableWriter (ssw_schema w) (ssw_stats w) dw (ssw_index_writer w) (ssw_filter_writer w)
    (ssw_summary_writer w) (ssw_last_token w) (ssw_partition_count w) (ssw_summary_sample_counter w)
    (ssw_summary_sample_interval w) (ssw_baselines_locked w) (ssw_format w) (ssw_bti_pending w).

Definition update_stats_from_metadata (stats : StatisticsMetadata) (dw : DataWriter) : DataWriter :=
  mkDataWriter (dw_buffer dw) (dw_sink dw) (dw_position dw) (baselines_of stats) (dw_oa_partition_deletion dw).

Definition ssw_pre_seed_encoding_baselines (min_ts min_ldt min_ttl : Z) (w : SSTableWriter) : SSTableWriter :=
  let stats := set_ranges min_ts (max_timestamp (ssw_stats w)) min_ldt (max_local_deletion_time (ssw_stats w)) min_ttl
                 (max_ttl (ssw_stats w)) (ssw_stats w) in
  mkSSTableWriter (ssw_schema w) stats (update_stats_from_metadata stats (ssw_data_writer w)) (ssw_index_writer w)
    (ssw_filter_writer w) (ssw_summary_writer w) (ssw_last_token w) (ssw_partition_count w)
    (ssw_summary_sample_counter w) (ssw_summary_sample_interval w) true (ssw_format w) (ssw_bti_pending w).

(** Tokens ascend strictly; the key range of the statistics grows. *)
Definition enter_partition (key : DecoratedKey) (w : SSTableWriter) : result Error SSTableWriter :=
  if from_option (fun last_token => token key <=? last_token) false (ssw_last_token w) then Err InvalidInput
  else
    Ok (mkSSTableWriter (ssw_schema w) (update_key_range (Keys.key key) (ssw_stats w)) (ssw_data_writer w)
          (ssw_index_writer w) (ssw_filter_writer w) (ssw_summary_writer w) (Some (token key)) (ssw_partition_count w)
          (ssw_summary_sample_counter w) (ssw_summary_sample_interval w) (ssw_baselines_locked w) (ssw_format w)
          (ssw_bti_pending w)).

(** What the emitter counted, and the size of the partition in Data.db. *)
Definition count_partition (data_offset : Z) (emit : PartitionEmitCounts) (dw : DataWriter) (s : StatisticsMetadata) :
    StatisticsMetadata :=
  let s := set_counts (partition_count s) (row_count s + pec_rows emit) (column_count s + pec_columns emit)
             (first_key s) (last_key s) (estimated_partition_size s) (estimated_cell_count s) s in
  record_partition (Z.max 0 (position dw - data_offset)) (pec_columns emit) s.

Definition increment_partition_count (s : StatisticsMetadata) : StatisticsMetadata :=
  set_counts (partition_count s + 1) (row_count s) (column_count s) (first_key s) (last_key s)
    (estimated_partition_size s) (estimated_cell_count s) s.

(** The tail both ways of writing a partition share: index, filter, queue, summary, counts. *)
Definition register_partition (index_io : result Error ()) (key : DecoratedKey)
    (partition_tombstone : option PartTombstone) (data_offset : Z) (promoted_blocks : list PromotedIndexBlock)
    (emit : PartitionEmitCounts) (w : SSTableWriter) : result Error SSTableWriter :=
  let stats := count_partition data_offset emit (ssw_data_writer w) (ssw_stats w) in
  '(index_writer, entry_info) ← add_partition_with_promoted index_io (ssw_index_writer w) key data_offset promoted_blocks;
  let summary := note_partition key (ssw_summary_writer w) in
  let summary := if ssw_summary_sample_counter w mod ssw_summary_sample_interval w =? 0
                 then add_entry key (iei_index_offset entry_info) summary else summary in
  Ok (mkSSTableWriter (ssw_schema w) (increment_partition_count stats) (ssw_data_writer w) index_writer
        (add_key key <$> ssw_filter_writer w) summary (ssw_last_token w) (ssw_partition_count w + 1)
        (ssw_summary_sample_counter w + 1) (ssw_summary_sample_interval w) (ssw_baselines_locked w) (ssw_format w)
        (queue_bti_partition key data_offset promoted_blocks partition_tombstone (ssw_bti_pending w))).

(** The newest partition tombstone, the last of equal ones: [max_by_key]. *)
Definition newest_tombstone (mutations : list Mutation) : option PartTombstone :=
  foldl (fun acc pt =>
           match acc with
           | Some old => if pt_deletion_time old <=? pt_deletion_time pt then Some pt else acc
           | None => Some pt
           end) None (omap m_partition_tombstone mutations).

Section Write.
Context {VS : ValueSerializer} {CW : ComplexWriter} `{HashOrder} `{DebugFmt}.
Context (from_data_type : string -> result Error ComparatorType).

Definition sort_mutations (schema : TableSchema) (mutations : list Mutation) : list Mutation :=
  sort_by (fun a b => opt_ck_cmp (ck_schema_cmp schema) (m_clustering_key a) (m_clustering_key b)) mutations.

(** The outcomes of the two files, the clock of the rows and that of each mutation. *)
Record PartitionEnv := mkPartitionEnv {
  pe_data_io : result Error ();
  pe_index_io : result Error ();
  pe_row_clock : nat -> Z;
  pe_clocks : nat -> Clock;
}.

(** Baselines follow the statistics unless they were seeded. *)
Definition fold_mutations (env : PartitionEnv) (mutations : list Mutation) (w : SSTableWriter) : SSTableWriter :=
  let stats := foldl (fun s e => fold_mutation_stats e.1 s e.2) (ssw_stats w)
                 (imap (fun i m => (pe_clocks env i, m)) mutations) in
  with_data_writer
    (if ssw_baselines_locked w then ssw_data_writer w else update_stats_from_metadata stats (ssw_data_writer w))
    (with_stats stats w).

Definition ssw_write_partition (env : PartitionEnv) (key : DecoratedKey) (mutations : list Mutation)
    (w : SSTableWriter) : result Error SSTableWriter :=
  w ← enter_partition key w;
  let mutations := sort_mutations (ssw_schema w) mutations in
  let w := fold_mutations env mutations w in
  let partition_tombstone := newest_tombstone mutations in
  let range_tombstones := flat_map m_range_tombstones mutations in
  '(dw, (data_offset, promoted_blocks, emit)) ←
    write_partition_with_index_blocks from_data_type (ssw_schema w) (ssw_data_writer w) key mutations
      partition_tombstone range_tombstones (pe_row_clock env) (pe_data_io env);
  register_partition (pe_index_io env) key partition_tombstone data_offset promoted_blocks emit (with_data_writer dw w).

(** *** One partition in steps *)

(** [begin_streaming_partition] and its twin; baselines must be seeded (an assertion). *)
Definition ssw_begin_streaming_partition (key : DecoratedKey) (partition_tombstone : option PartTombstone)
    (range_tombstones : list RangeTombstone) (w : SSTableWriter) : result Error (SSTableWriter * PartitionSession) :=
  w ← enter_partition key w;
  '(dw, session) ← Session.begin_streaming_partition (ssw_schema w) (ssw_data_writer w) key partition_tombstone
                     range_tombstones;
  Ok (with_data_writer dw w, session).

Definition feed_streaming_row (io : nat -> result Error ()) (now_seconds : Z) (m : Mutation)
    (ws : SSTableWriter * PartitionSession) : result Error (SSTableWriter * PartitionSession) :=
  let '(w, session) := ws in
  '(dw, session) ← feed_row from_data_type (ssw_schema w) io (ssw_data_writer w) session m now_seconds;
  Ok (with_data_writer dw w, session).

Definition feed_streaming_static_row (merged : list StaticMergedOp) (first_mutation_ts now_seconds : Z)
    (ws : SSTableWriter * PartitionSession) : result Error (SSTableWriter * PartitionSession) :=
  let '(w, session) := ws in
  '(dw, session) ← feed_static_row (ssw_schema w) (ssw_data_writer w) session merged first_mutation_ts now_seconds;
  Ok (with_data_writer dw w, session).

Definition finish_streaming_partition (io : nat -> result Error ()) (now_seconds : Z)
    (ws : SSTableWriter * PartitionSession) :
    result Error (SSTableWriter * (Z * list PromotedIndexBlock * PartitionEmitCounts)) :=
  let '(w, session) := ws in
  '(dw, done) ← finish from_data_type (ssw_schema w) io (ssw_data_writer w) session now_seconds;
  Ok (with_data_writer dw w, done).

(** The caller's fold of the partition is merged, then the shared tail. *)
Definition complete_partition_incremental (index_io : result Error ()) (key : DecoratedKey)
    (partition_tombstone : option PartTombstone) (data_offset : Z) (promoted_blocks : list PromotedIndexBlock)
    (emit : PartitionEmitCounts) (partition_stats : StatisticsMetadata) (w : SSTableWriter) : result Error SSTableWriter :=
  register_partition index_io key partition_tombstone data_offset promoted_blocks emit
    (with_stats (merge_stats_fold (ssw_stats w) partition_stats) w).
End Write.

(** ** Finish *)

Inductive SSTableComponent :=
  Data | Index | Statistics | Filter | Summary | CompressionInfoDb | Digest | CrcComponent | TOC | Partitions | RowsDb.
#[export] Instance sstable_component_eq_dec : EqDecision SSTableComponent.
Proof. solve_decision. Defined.

(** The order of the lines of TOC.txt. *)
Definition toc_rank (c : SSTableComponent) : Z :=
  match c with
  | Data => 0 | Statistics => 1 | Digest => 2 | TOC => 3 | CompressionInfoDb => 4 | CrcComponent => 5
  | Filter => 6 | Index => 7 | Summary => 8 | Partitions => 9 | RowsDb => 10
  end.

(** [TocWriter::write]: the file lists itself. *)
Definition toc_components (components : list SSTableComponent) : list SSTableComponent :=
  let final := if bool_decide (TOC ∈ components) then components else components ++ [TOC] in
  sort_by (fun a b => toc_rank a ?= toc_rank b) final.

Record SSTableFiles := mkSSTableFiles {
  sf_stats : StatisticsMetadata;
  sf_data : list Z;
  sf_index : option (list Z);
  sf_filter : option (list Z);
  sf_summary : option (list Z);
  sf_bti : option (list Z * list Z);
  sf_digest : Z;
  sf_crc : option (list Z);
  sf_toc : list SSTableComponent;
  sf_partition_count : Z;
}.

(** The components that were emitted, in the order they are pushed. *)
Definition emitted_components (filter crc index summary bti : bool) : list SSTableComponent :=
  [Data] ++ (if filter then [Filter] else []) ++ [Statistics; Digest] ++ (if crc then [CrcComponent] else [])
  ++ (if index then [Index] else []) ++ (if summary then [Summary] else [])
  ++ (if bti then [Partitions; RowsDb] else []).

(** [DataWriter::finish_streaming]: what is left in the scratch goes out; the digest and the
    checksums of the chunks are those the accumulator was fed with every flush. *)
Definition data_finish_streaming `{CrcHasher} (io : result Error ()) (dw : DataWriter) :
    result Error (list Z * (Z * list Z)) :=
  match dw_sink dw with
  | None => Err InvalidInput
  | Some _ =>
      dw ← flush_partition io dw;
      let data := default [] (dw_sink dw) in
      Ok (data, crc_finalize (crc_update data streaming_crc_new))
  end.

Definition ssw_finish `{CrcHasher} (data_io index_io : result Error ()) (is_compaction_output : bool)
    (w : SSTableWriter) : result Error SSTableFiles :=
  let stats := finalize (ssw_stats w) in
  let is_bti := bool_decide (ssw_format w = Bti) in
  '(data, (digest, chunk_crcs)) ← data_finish_streaming data_io (ssw_data_writer w);
  index ← (if is_bti then Ok None
           else '(_, index) ← index_finish_streaming index_io (ssw_index_writer w); Ok (Some index));
  let filter := ssw_filter_writer w ≫= filter_finish in
  let summary := if is_bti then None else Some (summary_finish (ssw_summary_writer w)) in
  bti ← write_bti_components (ssw_bti_pending w);
  let trailer := if is_compaction_output then EmptyFinalChunk else NoTrailer in
  let crc := if is_bti then None else Some (assemble_crc_bytes chunk_crcs trailer) in
  Ok (mkSSTableFiles stats data index filter summary bti
        (if is_empty data then crc_hash [] else digest) crc
        (toc_components (emitted_components (is_some filter) (is_some crc) (is_some index) (is_some summary)
                           (is_some bti)))
        (ssw_partition_count w)).
