(* ===== verification/IndexProps.v ===== *)
(** Index.db round trips: the entries written are the entries read, at the offsets the
    writer reported, and a promoted index decodes to its blocks. *)

From S2P Require Import Prelude Values VInt Keys Stats Cells CellProps PartitionWriter IndexDb.

Open Scope Z_scope.

(** ** Blocks of a promoted index *)

Record BlockOk (block : PromotedIndexBlock) : Prop := {
  bo_offset : is_u64 (pib_offset block);
  bo_width : is_i64 (pib_width block) /\ 0 <= pib_width block;
}.

Lemma width_delta_exact w : is_i64 w -> 0 <= w ->
  as_i64 (as_i64 w - INDEX_INFO_WIDTH_BASE) = w - INDEX_INFO_WIDTH_BASE /\ is_i64 (w - INDEX_INFO_WIDTH_BASE).
Proof.
  intros H1 H2. assert (H3 : is_i64 (w - INDEX_INFO_WIDTH_BASE))
    by (unfold is_i64, i_range, INDEX_INFO_WIDTH_BASE in *; lia).
  unfold as_i64. by rewrite (swrap_id 64 w), swrap_id.
Qed.

(** The bytes of one block behind its two names. *)
Definition info_tail (block : PromotedIndexBlock) : list Z :=
  encode_vuint (pib_offset block) ++ encode_vuint (zigzag_encode (pib_width block - INDEX_INFO_WIDTH_BASE)) ++ [0].

Definition info_bytes (block : PromotedIndexBlock) : list Z :=
  pib_first_name block ++ pib_last_name block ++ info_tail block.

Lemma index_info_app block buf : BlockOk block -> serialize_index_info buf block = buf ++ info_bytes block.
Proof.
  intros [Ho [Hw1 Hw2]]. unfold serialize_index_info. cbv zeta.
  destruct (width_delta_exact (pib_width block) Hw1 Hw2) as [-> Hd]. unfold encode_signed.
  rewrite !encode_unsigned_app by (done || by apply zigzag_encode_u64).
  unfold info_bytes, info_tail. by rewrite <- !app_assoc.
Qed.

(** Where the blocks begin. *)
Fixpoint block_starts (start : Z) (blocks : list PromotedIndexBlock) : list Z :=
  match blocks with
  | [] => []
  | block :: blocks => as_u32 start :: block_starts (start + zlen (info_bytes block)) blocks
  end.

Lemma serialize_blocks_app blocks : forall info offsets,
  Forall BlockOk blocks ->
  serialize_blocks blocks info offsets = (info ++ flat_map info_bytes blocks, offsets ++ block_starts (zlen info) blocks).
Proof.
  induction blocks as [|block blocks IH]; intros info offsets Hok; cbn [serialize_blocks flat_map block_starts].
  - by rewrite !app_nil_r.
  - apply Forall_cons in Hok as [Hb Hok]. rewrite index_info_app, IH, zlen_app by done. by rewrite <- !app_assoc.
Qed.

Definition live_deletion : list Z := be_bytes 4 i32_MAX ++ be_bytes 8 i64_MIN.

Lemma promoted_index_bytes blocks raw_key_len :
  Forall BlockOk blocks -> is_u64 (zlen blocks) -> 0 <= raw_key_len < 2 ^ 32 ->
  serialize_promoted_index blocks raw_key_len
  = encode_vuint (2 + raw_key_len + 12) ++ live_deletion ++ encode_vuint (zlen blocks)
    ++ flat_map info_bytes blocks ++ flat_map (be_bytes 4) (block_starts 0 blocks).
Proof.
  intros Hok Hl Hk. unfold serialize_promoted_index. rewrite serialize_blocks_app by done. cbn [app].
  rewrite !encode_unsigned_app by (done || (unfold is_u64, u_range, NB_DELETION_TIME_LIVE_SIZE in *; lia)).
  unfold live_deletion, NB_DELETION_TIME_LIVE_SIZE. cbn [app]. by rewrite <- !app_assoc.
Qed.

Section Decode.
Context (prefix_len : list Z -> result Error Z).

(** The schema's lengths split the names of the block. *)
Definition names_split (block : PromotedIndexBlock) : Prop :=
  (forall rest, prefix_len (pib_first_name block ++ rest) = Ok (zlen (pib_first_name block))) /\
  (forall rest, prefix_len (pib_last_name block ++ rest) = Ok (zlen (pib_last_name block))).

Definition decoded (block : PromotedIndexBlock) : DecodedIndexInfo :=
  mkDecodedIndexInfo (pib_first_name block) (pib_last_name block) (pib_offset block) (pib_width block) None.

Lemma index_info_decodes block rest :
  BlockOk block -> names_split block ->
  decode_index_info prefix_len (info_bytes block ++ rest) = Ok (decoded block, rest).
Proof.
  intros [Ho [Hw1 Hw2]] [Hf Hl]. unfold info_bytes, info_tail. rewrite <- !app_assoc. unfold decode_index_info.
  rewrite Hf. cbn [mbind result_bind]. rewrite take_bytes_app by done. cbn [mbind result_bind].
  rewrite Hl. cbn [mbind result_bind]. rewrite take_bytes_app by done. cbn [mbind result_bind].
  destruct (width_delta_exact (pib_width block) Hw1 Hw2) as [_ Hd].
  rewrite read_vuint_encode by done. cbn [mbind result_bind].
  rewrite read_vuint_encode by by apply zigzag_encode_u64. cbn [mbind result_bind].
  rewrite zigzag_decode_encode by done.
  replace (INDEX_INFO_WIDTH_BASE + (pib_width block - INDEX_INFO_WIDTH_BASE)) with (pib_width block) by lia.
  rewrite bool_decide_eq_true_2, (proj2 (Z.ltb_ge _ _)) by done. done.
Qed.

Lemma infos_decode blocks rest :
  Forall BlockOk blocks -> Forall names_split blocks ->
  decode_infos prefix_len (length blocks) (flat_map info_bytes blocks ++ rest) = Ok (map decoded blocks, rest).
Proof.
  induction blocks as [|block blocks IH]; intros Hok Hn; [done|].
  apply Forall_cons in Hok as [Hb Hok], Hn as [Hnb Hn]. cbn [length flat_map decode_infos map].
  rewrite <- app_assoc, index_info_decodes by done. cbn [mbind result_bind]. by rewrite IH.
Qed.

Lemma offsets_decode os rest :
  decode_offsets (length os) (flat_map (be_bytes 4) os ++ rest) = Ok (map as_i32 os, rest).
Proof.
  induction os as [|o os IH]; [done|]. cbn [length flat_map decode_offsets map].
  rewrite <- app_assoc, take_bytes_app by apply zlen_be_bytes. cbn [mbind result_bind]. rewrite IH. cbn [mbind result_bind].
  rewrite from_be_bytes. change (o mod 256 ^ Z.of_nat 4) with (wrap 32 o). unfold as_i32. by rewrite swrap_wrap.
Qed.

Lemma block_starts_length start blocks : length (block_starts start blocks) = length blocks.
Proof. revert start. induction blocks; intros; cbn; auto. Qed.

Lemma zlen_flat_info blocks : zlen blocks <= zlen (flat_map info_bytes blocks).
Proof.
  induction blocks as [|b blocks IH]; [done|]. cbn [flat_map]. rewrite zlen_cons, zlen_app.
  enough (1 <= zlen (info_bytes b)) by lia.
  unfold info_bytes, info_tail. rewrite !zlen_app. change (zlen [0]) with 1.
  pose proof (zlen_nonneg (pib_first_name b)). pose proof (zlen_nonneg (pib_last_name b)).
  pose proof (zlen_nonneg (encode_vuint (pib_offset b))).
  pose proof (zlen_nonneg (encode_vuint (zigzag_encode (pib_width b - INDEX_INFO_WIDTH_BASE)))). lia.
Qed.

(** C25: [decode_promoted_index] inverts [serialize_promoted_index]. Of any list of up to
    2^32 - 1 blocks with offsets of 64 bits and widths that are not negative, whose names
    the schema's prefix lengths split, it yields the blocks themselves, each with its
    names, its offset and its width, no open marker, the header length of the key, the
    deletion time of a live partition, and where each block begins in the sequence. *)
Theorem promoted_index_roundtrip blocks raw_key_len :
  Forall BlockOk blocks -> Forall names_split blocks -> zlen blocks < 2 ^ 32 -> 0 <= raw_key_len < 2 ^ 32 ->
  decode_promoted_index prefix_len (serialize_promoted_index blocks raw_key_len)
  = Ok (mkDecodedPromotedIndex (2 + raw_key_len + 12) (i32_MAX, i64_MIN) (map decoded blocks)
          (map as_i32 (block_starts 0 blocks))).
Proof.
  intros Hok Hn Hl Hk. pose proof (zlen_nonneg blocks).
  assert (Hu : is_u64 (zlen blocks)) by (unfold is_u64, u_range; lia).
  rewrite promoted_index_bytes by done. unfold decode_promoted_index, decode_deletion_time, live_deletion. rewrite <- app_assoc.
  rewrite read_vuint_encode by (unfold is_u64, u_range; lia). cbn [mbind result_bind].
  rewrite take_bytes_app by apply zlen_be_bytes. cbn [mbind result_bind].
  rewrite take_bytes_app by apply zlen_be_bytes. cbn [mbind result_bind].
  rewrite read_vuint_encode by done. cbn [mbind result_bind].
  rewrite zlen_app. pose proof (zlen_flat_info blocks). pose proof (zlen_nonneg (flat_map (be_bytes 4) (block_starts 0 blocks))).
  rewrite !Z.gtb_ltb, !(proj2 (Z.ltb_ge _ _)) by lia. cbn [orb].
  replace (Z.to_nat (zlen blocks)) with (length blocks) by (unfold zlen; lia).
  rewrite infos_decode by done. cbn [mbind result_bind].
  pose proof (offsets_decode (block_starts 0 blocks) []) as Ho. rewrite app_nil_r, block_starts_length in Ho.
  rewrite Ho. cbn [mbind result_bind is_empty]. do 3 f_equal.
Qed.
End Decode.

(** ** Entries *)

Record IndexRow := mkIndexRow { ir_key : DecoratedKey; ir_offset : Z; ir_blocks : list PromotedIndexBlock }.

Definition row_bytes (r : IndexRow) : list Z := index_entry_bytes (ir_key r) (ir_offset r) (ir_blocks r).

Definition promoted_payload (r : IndexRow) : option (list Z) :=
  if zlen (ir_blocks r) >=? 2 then Some (serialize_promoted_index (ir_blocks r) (zlen (key (ir_key r)))) else None.

(** The entry the reader makes of it. *)
Definition row_entry (r : IndexRow) : PartitionIndexEntry :=
  mkPartitionIndexEntry (key (ir_key r)) (ir_offset r) (promoted_payload r).

(** A key of 1 to 65535 bytes, an offset and a payload of 64 bits. *)
Record IndexRowOk (r : IndexRow) : Prop := {
  iro_key : zlen (key (ir_key r)) <= 65535;
  iro_key_some : key (ir_key r) <> [];
  iro_key_bytes : Forall is_byte (key (ir_key r));
  iro_offset : is_u64 (ir_offset r);
  iro_payload : zlen (default [] (promoted_payload r)) < 2 ^ 64;
}.

Lemma promoted_not_empty blocks k : 0 < zlen (serialize_promoted_index blocks k).
Proof.
  unfold serialize_promoted_index. destruct (serialize_blocks blocks [] []) as [info offs].
  rewrite (encode_unsigned_append (zlen blocks)), !zlen_app, !zlen_be_bytes.
  pose proof (zlen_nonneg (encode_unsigned (2 + k + NB_DELETION_TIME_LIVE_SIZE) [])).
  pose proof (zlen_nonneg (encode_unsigned (zlen blocks) [])). pose proof (zlen_nonneg info).
  pose proof (zlen_nonneg (flat_map (be_bytes 4) offs)). lia.
Qed.

Lemma row_bytes_parts r :
  IndexRowOk r ->
  row_bytes r = be_bytes 2 (zlen (key (ir_key r))) ++ key (ir_key r) ++ encode_vuint (ir_offset r)
                ++ encode_vuint (zlen (default [] (promoted_payload r))) ++ default [] (promoted_payload r).
Proof.
  intros [Hk _ _ Ho Hp]. unfold row_bytes, index_entry_bytes, promoted_payload in *. cbv zeta in *.
  pose proof (zlen_nonneg (key (ir_key r))).
  assert (Ek : as_u16 (zlen (key (ir_key r))) = zlen (key (ir_key r))) by (apply wrap_id; unfold u_range; lia).
  rewrite Ek. destruct (zlen (ir_blocks r) >=? 2); cbn [default from_option id] in *.
  - pose proof (zlen_nonneg (serialize_promoted_index (ir_blocks r) (zlen (key (ir_key r))))).
    rewrite !encode_unsigned_app by (done || (unfold is_u64, u_range; lia)). by rewrite <- !app_assoc.
  - rewrite !encode_unsigned_app by (done || (unfold is_u64, u_range; lia)).
    change (zlen []) with 0. by rewrite <- !app_assoc.
Qed.

Lemma entry_reads r rest :
  IndexRowOk r -> parse_big_index_entry (row_bytes r ++ rest) = Ok (row_entry r, rest).
Proof.
  intros Hok. rewrite row_bytes_parts by done. destruct Hok as [Hk _ _ Ho Hp]. rewrite <- !app_assoc. unfold parse_big_index_entry.
  pose proof (zlen_nonneg (key (ir_key r))). pose proof (zlen_nonneg (default [] (promoted_payload r))).
  rewrite take_bytes_app by apply zlen_be_bytes. cbn [mbind result_bind].
  rewrite (unsigned_be 2 16) by (done || (unfold u_range; lia)).
  rewrite take_bytes_app by done. cbn [mbind result_bind]. rewrite read_vuint_encode by done. cbn [mbind result_bind].
  rewrite read_vuint_encode by (unfold is_u64, u_range; lia). cbn [mbind result_bind].
  rewrite take_bytes_app by done. cbn [mbind result_bind]. do 2 f_equal. unfold row_entry, promoted_payload.
  destruct (zlen (ir_blocks r) >=? 2); cbn [default from_option id]; [|done].
  pose proof (promoted_not_empty (ir_blocks r) (zlen (key (ir_key r)))).
  rewrite (proj2 (Z.gtb_lt _ _)) by lia. done.
Qed.

Lemma row_bytes_length r : IndexRowOk r -> (2 <= length (row_bytes r))%nat.
Proof. intros H. rewrite row_bytes_parts, length_app, be_bytes_length by done. lia. Qed.

Definition file_bytes (rows : list IndexRow) : list Z := flat_map row_bytes rows.

(** Whole entries are read up to the end. *)
Lemma entries_read rows : forall fuel,
  Forall IndexRowOk rows -> (length (file_bytes rows) <= fuel)%nat ->
  parse_entries fuel (file_bytes rows) = (map row_entry rows, []).
Proof.
  induction rows as [|r rows IH]; intros fuel Hok Hf; [by destruct fuel|].
  apply Forall_cons in Hok as [Hr Hok]. pose proof (row_bytes_length r Hr) as Hl.
  cbn [file_bytes flat_map] in *. fold (file_bytes rows) in *. rewrite length_app in Hf.
  destruct fuel as [|fuel]; [lia|]. cbn [parse_entries].
  pose proof (entry_reads r (file_bytes rows) Hr) as He.
  destruct (row_bytes r ++ file_bytes rows) as [|x xs] eqn:Ex.
  { apply (f_equal length) in Ex. rewrite length_app in Ex. cbn in Ex. lia. }
  rewrite He, IH by (done || lia). done.
Qed.

(** A file of entries has no header: its first two bytes are the length of a key, so what
    would be the version of a header is at least 65536. *)
Lemma canonical_vuint_bytes v : is_u64 v -> Forall is_byte (encode_vuint v).
Proof. intros H. rewrite encode_vuint_canonical by done. apply canonical_bytes, extra_of_fits. by unfold is_u64 in H. Qed.

Lemma first_four n k v rest :
  1 <= n <= 65535 -> k <> [] -> Forall is_byte k -> is_u64 v ->
  65536 <= from_be (take 4 (be_bytes 2 n ++ k ++ encode_vuint v ++ rest)).
Proof.
  intros Hn Hk Hkb Hv. pose proof (canonical_vuint_bytes v Hv) as Hvb.
  assert (E : exists a b t, k ++ encode_vuint v ++ rest = a :: b :: t /\ is_byte a /\ is_byte b).
  { destruct k as [|a [|b k]]; [done| |].
    - assert (encode_vuint v <> []) as Hne by (rewrite encode_vuint_canonical by done; done).
      destruct (encode_vuint v) as [|b t]; [done|]. apply Forall_cons in Hkb as [Ha _], Hvb as [Hb _].
      by exists a, b, (t ++ rest).
    - apply Forall_cons in Hkb as [Ha Hkb]. apply Forall_cons in Hkb as [Hb _].
      by exists a, b, (k ++ encode_vuint v ++ rest). }
  destruct E as (a & b & t & -> & Ha & Hb). rewrite take_app_ge by (rewrite be_bytes_length; lia).
  rewrite be_bytes_length, from_be_app. cbn [take Nat.sub length].
  rewrite from_be_bytes_id by (unfold u_range; cbn; lia).
  assert (Hab : Forall is_byte [a; b]) by (apply Forall_cons_2; [done|]; by apply Forall_cons_2; [|constructor]).
  pose proof (from_be_bound [a; b] Hab). rewrite take_0. cbn [length] in *. change (256 ^ Z.of_nat 2) with 65536 in *. lia.
Qed.

Lemma no_header rows :
  Forall IndexRowOk rows -> parse_index_header_prefix (file_bytes rows) = file_bytes rows.
Proof.
  intros Hok. unfold parse_index_header_prefix, parse_index_header.
  destruct (Z.ltb_spec (zlen (file_bytes rows)) 16) as [|Hlen]; [done|].
  destruct rows as [|r rows]; [done|]. apply Forall_cons in Hok as [Hr _].
  assert (E : header_field 4 1 10 (file_bytes (r :: rows)) = Err Corruption); [|by rewrite E].
  unfold header_field, take_bytes. rewrite (proj2 (Z.ltb_ge _ _)) by lia. cbn [mbind result_bind].
  change (Z.to_nat 4) with 4%nat. cbn [file_bytes flat_map] in *. rewrite row_bytes_parts, <- !app_assoc by done.
  destruct Hr as [Hk Hne Hb Ho Hp].
  assert (1 <= zlen (key (ir_key r))).
  { destruct (key (ir_key r)) as [|x l]; [done|]. rewrite zlen_cons. pose proof (zlen_nonneg l). lia. }
  match goal with |- context [from_be (take 4 ?l)] => assert (H4 : 65536 <= from_be (take 4 l)) by (apply first_four; done || lia) end.
  cbv zeta. rewrite (proj2 (Z.leb_gt _ 10)) by lia. by rewrite andb_false_r.
Qed.

(** ** The writer *)

(** Where each row begins. *)
Fixpoint row_starts (start : Z) (rows : list IndexRow) : list Z :=
  match rows with [] => [] | r :: rows => start :: row_starts (start + zlen (row_bytes r)) rows end.

Definition row_infos (start : Z) (rows : list IndexRow) : list IndexEntryInfo :=
  zip_with (fun r s => mkIndexEntryInfo s (zlen (row_bytes r))) rows (row_starts start rows).

Fixpoint add_rows (w : IndexWriter) (rows : list IndexRow) : result Error (IndexWriter * list IndexEntryInfo) :=
  match rows with
  | [] => Ok (w, [])
  | r :: rows =>
      '(w, info) ← add_partition_with_promoted (Ok tt) w (ir_key r) (ir_offset r) (ir_blocks r);
      '(w, infos) ← add_rows w rows;
      Ok (w, info :: infos)
  end.

(** A writer to a file that holds [file], and one to memory: the same entries. *)
Definition streaming_at (file : list Z) (n : Z) : IndexWriter := mkIndexWriter [] (Some file) false (zlen file) n.
Definition buffering_at (file : list Z) (n : Z) : IndexWriter := mkIndexWriter file None false 0 n.

Lemma add_rows_streaming rows : forall file n,
  add_rows (streaming_at file n) rows
  = Ok (streaming_at (file ++ file_bytes rows) (n + zlen rows), row_infos (zlen file) rows).
Proof.
  induction rows as [|r rows IH]; intros file n.
  - cbn [add_rows file_bytes flat_map]. rewrite app_nil_r. change (zlen []) with 0. by rewrite Z.add_0_r.
  - cbn [add_rows file_bytes flat_map]. fold (file_bytes rows). unfold add_partition_with_promoted, flush_entry.
    cbn -[index_entry_bytes add_rows file_bytes]. fold (row_bytes r).
    specialize (IH (file ++ row_bytes r) (n + 1)). unfold streaming_at in IH. rewrite zlen_app in IH. rewrite IH.
    cbn [mbind result_bind]. unfold streaming_at, row_infos. cbn [row_starts zip_with].
    rewrite <- app_assoc, zlen_cons. change (zlen []) with 0. rewrite Z.add_0_r.
    by rewrite Z.add_assoc.
Qed.

Lemma add_rows_buffering rows : forall file n,
  add_rows (buffering_at file n) rows
  = Ok (buffering_at (file ++ file_bytes rows) (n + zlen rows), row_infos (zlen file) rows).
Proof.
  induction rows as [|r rows IH]; intros file n.
  - cbn [add_rows file_bytes flat_map]. rewrite app_nil_r. change (zlen []) with 0. by rewrite Z.add_0_r.
  - cbn [add_rows file_bytes flat_map]. fold (file_bytes rows). unfold add_partition_with_promoted, flush_entry.
    cbn -[index_entry_bytes add_rows file_bytes]. fold (row_bytes r).
    specialize (IH (file ++ row_bytes r) (n + 1)). unfold buffering_at in IH. rewrite zlen_app in IH. rewrite IH.
    cbn [mbind result_bind]. unfold buffering_at, row_infos. cbn [row_starts zip_with].
    rewrite <- app_assoc, zlen_cons. by rewrite Z.add_assoc.
Qed.

Lemma parse_rows rows :
  Forall IndexRowOk rows -> rows <> [] ->
  open_index (file_bytes rows) = Ok (mkIndexData (map row_entry rows) true).
Proof.
  intros Hok Hne. unfold open_index. rewrite no_header by done.
  destruct rows as [|r rows]; [done|]. pose proof (row_bytes_length r (Forall_inv Hok)).
  destruct (file_bytes (r :: rows)) as [|x xs] eqn:E.
  { cbn [file_bytes flat_map] in E. apply app_eq_nil in E as [E _]. rewrite E in H. cbn in H. lia. }
  cbn [is_empty]. rewrite <- E. unfold parse_all_partition_keys. by rewrite entries_read.
Qed.

Lemma find_row rows r :
  NoDup (map (fun r => key (ir_key r)) rows) -> r ∈ rows ->
  lookup_partition (mkIndexData (map row_entry rows) true) (key (ir_key r)) = Some (row_entry r).
Proof.
  intros Hnd Hr. unfold lookup_partition. cbn [id_entries].
  destruct (List.find _ _) as [e|] eqn:E.
  - apply find_some in E as [He Hk]. apply bool_decide_eq_true in Hk.
    apply in_rev, in_map_iff in He as (r' & <- & Hr'). cbn in Hk. f_equal. f_equal.
    apply list_elem_of_In in Hr'. apply list_elem_of_lookup in Hr as [i Hi], Hr' as [j Hj].
    assert (i = j); [|congruence].
    apply (NoDup_lookup _ i j (key (ir_key r)) Hnd); rewrite list_lookup_fmap;
      [rewrite Hi|rewrite Hj]; cbn; congruence.
  - exfalso. assert (Hin : In (row_entry r) (rev (map row_entry rows))).
    { apply in_rev. rewrite rev_involutive. by apply in_map, list_elem_of_In. }
    pose proof (find_none _ _ E _ Hin) as Hn. cbn in Hn. by rewrite bool_decide_eq_false in Hn.
Qed.

(** C24: An Index.db survives its round trip. Partitions written one after another, each
    with its key, its offset in Data.db and its promoted blocks, give the same file whether
    the writer streams or buffers; the offset and the size reported for each are those of
    its entry in that file; opening the file yields the entries written, in order and up to
    the last byte, without mistaking the first of them for a header; and, the keys being
    distinct, looking a key up finds its own entry. *)
Theorem index_roundtrip rows :
  Forall IndexRowOk rows -> rows <> [] ->
  (exists w, add_rows index_writer_with_sink rows = Ok (w, row_infos 0 rows) /\
             iw_entry_count w = zlen rows /\
             index_finish_streaming (Ok tt) w = Ok (zlen (file_bytes rows), file_bytes rows)) /\
  (exists w, add_rows index_writer_new rows = Ok (w, row_infos 0 rows) /\ index_finish w = Ok (file_bytes rows)) /\
  open_index (file_bytes rows) = Ok (mkIndexData (map row_entry rows) true) /\
  (NoDup (map (fun r => key (ir_key r)) rows) ->
   forall r, r ∈ rows ->
     lookup_partition (mkIndexData (map row_entry rows) true) (key (ir_key r)) = Some (row_entry r)).
Proof.
  intros Hok Hne. split; [|split; [|split]].
  - eexists. split; [apply (add_rows_streaming rows [] 0)|]. split; [done|].
    unfold index_finish_streaming, flush_entry, streaming_at. cbn. by rewrite app_nil_r, Z.add_0_r.
  - eexists. split; [apply (add_rows_buffering rows [] 0)|]. done.
  - by apply parse_rows.
  - intros Hnd r. by apply find_row.
Qed.

Definition ex_block (n o w : Z) : PromotedIndexBlock := mkPromotedIndexBlock [64; n] [64; n + 9] o w None.
Definition ex_blocks : list PromotedIndexBlock := [ex_block 1 40 65600; ex_block 11 65640 70000; ex_block 21 135640 12].
Definition ex_rows : list IndexRow :=
  [mkIndexRow (mkDecoratedKey (-5) [0; 0; 0; 1]) 0 ex_blocks; mkIndexRow (mkDecoratedKey 7 [9]) 135700 []].

Lemma ex_blocks_ok : Forall BlockOk ex_blocks.
Proof. repeat (apply Forall_cons_2; [constructor; cbn; unfold is_u64, u_range, is_i64, i_range; lia|]). constructor. Qed.

Lemma ex_rows_ok : Forall IndexRowOk ex_rows.
Proof.
  assert (Hb : forall b, In b [0; 1; 9] -> is_byte b).
  { intros b [<-|[<-|[<-|[]]]]; unfold is_byte, u_range; lia. }
  repeat (apply Forall_cons_2; [constructor; [vm_compute; done|done|
    repeat (apply Forall_cons_2; [apply Hb; cbn; tauto|]); constructor|
    cbn; unfold is_u64, u_range; lia|vm_compute; done]|]). constructor.
Qed.

Lemma promoted_index_roundtrip_witness :
  exists d, decode_promoted_index (fun _ => Ok 2) (serialize_promoted_index ex_blocks 4) = Ok d /\
            map dii_offset (dpi_entries d) = [40; 65640; 135640] /\ dpi_offsets d = [0; 8; 18].
Proof.
  eexists. split; [apply (promoted_index_roundtrip (fun _ => Ok 2) ex_blocks 4)|].
  - apply ex_blocks_ok.
  - repeat (apply Forall_cons_2; [split; intros; reflexivity|]). constructor.
  - vm_compute. done.
  - lia.
  - split; vm_compute; reflexivity.
Defined.

Lemma index_roundtrip_witness :
  Forall IndexRowOk ex_rows /\ open_index (file_bytes ex_rows) = Ok (mkIndexData (map row_entry ex_rows) true) /\
  row_starts 0 ex_rows = [0; 63] /\ option_map pie_data_offset (lookup_partition (mkIndexData (map row_entry ex_rows) true) [9]) = Some 135700.
Proof.
  split; [apply ex_rows_ok|]. destruct (index_roundtrip ex_rows ex_rows_ok) as (_ & _ & H & Hl); [done|].
  split; [exact H|]. split; [vm_compute; reflexivity|].
  assert (Hnd : NoDup (map (fun r => key (ir_key r)) ex_rows)) by (apply (bool_decide_unpack _); vm_compute; exact I).
  assert (Hin : mkIndexRow (mkDecoratedKey 7 [9]) 135700 [] ∈ ex_rows) by (apply list_elem_of_In; right; left; reflexivity).
  pose proof (f_equal (option_map pie_data_offset) (Hl Hnd _ Hin)) as H2. exact H2.
Defined.
