(* ===== verification/SummaryProps.v ===== *)
(** Summary.db: what the writer writes is what the parser reads, and the interval a sample
    guides to holds the key's entry of Index.db if there is one. *)

From S2P Require Import Prelude Values VInt Murmur3 Keys Cells CellProps IndexDb SummaryDb IndexProps.

Open Scope Z_scope.

(** ** Round trip *)

Lemma read_be_bytes k w v rest :
  w = 8 * Z.of_nat k -> u_range w v -> read_be (Z.of_nat k) (be_bytes k v ++ rest) = Ok (v, rest).
Proof.
  intros Hw Hv. unfold read_be. rewrite take_bytes_app by (unfold zlen; by rewrite be_bytes_length).
  cbn [mbind result_bind]. by rewrite (unsigned_be k w).
Qed.

Definition is_u32 (x : Z) : Prop := u_range 32 x.

(** The fields of a header, each of its width. *)
Lemma header_reads interval count size rest :
  is_u32 interval -> is_u32 count -> is_u64 size ->
  parse_summary_header (write_header interval count size ++ rest)
  = Ok (mkSummaryHeader interval count size BASE_SAMPLING_LEVEL count, rest).
Proof.
  intros Hi Hc Hs. unfold parse_summary_header, write_header. rewrite <- !app_assoc.
  rewrite (read_be_bytes 4 32) by done. cbn [mbind result_bind].
  rewrite (read_be_bytes 4 32) by done. cbn [mbind result_bind].
  rewrite (read_be_bytes 8 64) by done. cbn [mbind result_bind].
  rewrite (read_be_bytes 4 32) by (done || (unfold u_range, BASE_SAMPLING_LEVEL; lia)). cbn [mbind result_bind].
  by rewrite (read_be_bytes 4 32).
Qed.

Lemma summary_header_length interval count size : zlen (write_header interval count size) = SUMMARY_HEADER_SIZE.
Proof. unfold write_header. by rewrite !zlen_app, !zlen_be_bytes. Qed.

Lemma offsets_read os rest :
  Forall is_u32 os -> read_offsets (length os) (flat_map (le_bytes 4) os ++ rest) = Ok (os, rest).
Proof.
  induction 1 as [|o os Ho Hos IH]; [done|]. cbn [length flat_map read_offsets].
  rewrite <- app_assoc, take_bytes_app by (unfold zlen; by rewrite le_bytes_length). cbn [mbind result_bind].
  rewrite IH. cbn [mbind result_bind]. by rewrite from_le_bytes_id.
Qed.

(** Where each entry begins, before the offsets are cut to 32 bits. *)
Fixpoint entry_starts (start : Z) (entries : list SummaryEntry) : list Z :=
  match entries with
  | [] => []
  | e :: entries => start :: entry_starts (start + zlen (summary_entry_bytes e)) entries
  end.

Definition entry_data (entries : list SummaryEntry) : list Z := flat_map summary_entry_bytes entries.

Lemma entry_size e : zlen (summary_entry_bytes e) = zlen (se_partition_key e) + 8.
Proof. unfold summary_entry_bytes. rewrite zlen_app. unfold zlen. by rewrite le_bytes_length. Qed.

Lemma entry_starts_range entries : forall start,
  0 <= start -> Forall (fun o => start <= o < start + zlen (entry_data entries)) (entry_starts start entries).
Proof.
  induction entries as [|e entries IH]; intros start Hs; [constructor|].
  cbn [entry_starts entry_data flat_map]. fold (entry_data entries). rewrite zlen_app.
  pose proof (entry_size e). pose proof (zlen_nonneg (se_partition_key e)). pose proof (zlen_nonneg (entry_data entries)).
  apply Forall_cons_2; [lia|]. eapply Forall_impl; [apply IH; lia|]. cbn. intros o Ho. lia.
Qed.

Lemma entry_offsets_exact entries : forall start,
  0 <= start -> start + zlen (entry_data entries) < 2 ^ 32 -> entry_offsets start entries = entry_starts start entries.
Proof.
  induction entries as [|e entries IH]; intros start Hs Hb; [done|].
  cbn [entry_starts entry_offsets entry_data flat_map] in *. fold (entry_data entries) in *. rewrite zlen_app in Hb.
  pose proof (entry_size e). pose proof (zlen_nonneg (se_partition_key e)). pose proof (zlen_nonneg (entry_data entries)).
  rewrite IH by lia. f_equal. apply wrap_id. unfold u_range. lia.
Qed.

Lemma entry_starts_length start entries : length (entry_starts start entries) = length entries.
Proof. revert start. induction entries; intros; cbn; auto. Qed.

Lemma entry_starts_shift entries : forall start k,
  map (fun o => o - k) (entry_starts start entries) = entry_starts (start - k) entries.
Proof.
  induction entries as [|e entries IH]; intros start k; [done|]. cbn [entry_starts map]. rewrite IH.
  do 2 f_equal. lia.
Qed.

(** Entries that lie behind [front] in the data. *)
Lemma entries_read_back entries : forall front,
  Forall (fun e => is_u64 (se_position e)) entries ->
  parse_summary_entries (front ++ entry_data entries) (entry_starts (zlen front) entries) = Ok entries.
Proof.
  induction entries as [|e entries IH]; intros front Hok; [done|]. apply Forall_cons in Hok as [He Hok].
  cbn [entry_starts entry_data flat_map parse_summary_entries]. fold (entry_data entries).
  pose proof (entry_size e) as Hs. pose proof (zlen_nonneg (se_partition_key e)). pose proof (zlen_nonneg (entry_data entries)).
  assert (Hstop : default (zlen (front ++ summary_entry_bytes e ++ entry_data entries))
                    (head (entry_starts (zlen front + zlen (summary_entry_bytes e)) entries))
                  = zlen front + zlen (summary_entry_bytes e)).
  { destruct entries; cbn [entry_starts head default from_option id]; [|done].
    rewrite !zlen_app. change (zlen (entry_data [])) with 0. lia. }
  rewrite Hstop.
  specialize (IH (front ++ summary_entry_bytes e) Hok). rewrite zlen_app, <- app_assoc in IH.
  assert (E : parse_summary_entry (front ++ summary_entry_bytes e ++ entry_data entries) (zlen front)
                (zlen front + zlen (summary_entry_bytes e)) = Ok e).
  { unfold parse_summary_entry. rewrite !zlen_app, Z.geb_leb, (proj2 (Z.leb_gt _ _)) by lia.
    rewrite Z.gtb_ltb, (proj2 (Z.ltb_ge _ _)) by lia. cbv zeta.
    replace (Z.to_nat (zlen front)) with (length front) by (unfold zlen; lia).
    replace (Z.to_nat (zlen front + zlen (summary_entry_bytes e) - zlen front)) with (length (summary_entry_bytes e)) by (unfold zlen; lia).
    rewrite drop_app_length, take_app_length, (proj2 (Z.ltb_ge _ _)) by lia.
    replace (Z.to_nat (zlen (summary_entry_bytes e) - 8)) with (length (se_partition_key e)) by (unfold zlen in *; lia).
    unfold summary_entry_bytes. rewrite take_app_length, drop_app_length, from_le_bytes_id by done. by destruct e. }
  rewrite E. cbn [mbind result_bind]. by rewrite IH.
Qed.

Lemma prefixed_reads k rest :
  zlen k < 2 ^ 32 -> parse_serialized_key (length_prefixed (Some k) ++ rest) = Ok (k, rest).
Proof.
  intros Hk. pose proof (zlen_nonneg k). unfold parse_serialized_key, length_prefixed. rewrite <- app_assoc.
  assert (E : as_u32 (zlen k) = zlen k) by (apply wrap_id; unfold u_range; lia). rewrite E.
  rewrite (read_be_bytes 4 32) by (done || (unfold u_range; lia)). cbn [mbind result_bind]. by apply take_bytes_app.
Qed.

(** A writer whose sizes fit the fields of the file. *)
Record SummaryOk (w : SummaryWriter) (first last : list Z) : Prop := {
  so_interval : is_u32 (sw_min_index_interval w);
  so_entries : sw_entries w <> [];
  so_count : zlen (sw_entries w) <= MAX_REASONABLE_ENTRIES;
  so_size : zlen (sw_entries w) * 4 + zlen (entry_data (sw_entries w)) < 2 ^ 32;
  so_positions : Forall (fun e => is_u64 (se_position e)) (sw_entries w);
  so_first : sw_first_key w = Some first /\ zlen first < 2 ^ 32;
  so_last : sw_last_key w = Some last /\ zlen last < 2 ^ 32;
}.

Definition summary_of (w : SummaryWriter) (first last : list Z) : SummaryData :=
  mkSummaryData
    (mkSummaryHeader (sw_min_index_interval w) (zlen (sw_entries w))
       (zlen (sw_entries w) * 4 + zlen (entry_data (sw_entries w))) BASE_SAMPLING_LEVEL (zlen (sw_entries w)))
    (sw_entries w) first last.

Lemma summary_reads w first last :
  SummaryOk w first last -> parse_summary_data (summary_finish w) = Ok (summary_of w first last).
Proof.
  intros [Hi He Hc Hs Hp [Hf Hfl] [Hl Hll]]. unfold summary_finish. destruct w as [interval total entries f l].
  cbn [sw_entries sw_first_key sw_last_key sw_min_index_interval] in *. subst f l.
  destruct entries as [|e0 entries0] eqn:Ee; [done|]. rewrite <- Ee in *. replace (is_empty entries) with false by by subst.
  fold (entry_data entries). cbv zeta. unfold MAX_REASONABLE_ENTRIES in Hc.
  pose proof (zlen_nonneg (entry_data entries)). assert (1 <= zlen entries) by (subst; rewrite zlen_cons; pose proof (zlen_nonneg entries0); lia).
  assert (Ec : as_u32 (zlen entries) = zlen entries) by (apply wrap_id; unfold u_range; lia).
  rewrite Ec, entry_offsets_exact by lia. unfold parse_summary_data.
  rewrite zlen_app, summary_header_length. cbn [SUMMARY_HEADER_SIZE].
  match goal with |- context [zlen (?a ++ ?b)] => pose proof (zlen_nonneg (a ++ b)) end.
  rewrite (proj2 (Z.ltb_ge _ _)) by lia.
  rewrite header_reads by (unfold is_u32, is_u64, u_range in *; lia). cbn [mbind result_bind sh_entries_count sh_summary_entries_size].
  unfold MAX_REASONABLE_ENTRIES. rewrite Z.gtb_ltb, (proj2 (Z.ltb_ge _ _)) by lia. cbv zeta.
  pose proof (entry_starts_range entries (zlen entries * 4) ltac:(lia)) as Hr.
  assert (Hlen : zlen (flat_map (le_bytes 4) (entry_starts (zlen entries * 4) entries)) = zlen entries * 4).
  { unfold zlen. rewrite (flat_map_constant_length (c := 4)) by (intros; apply le_bytes_length). rewrite entry_starts_length. lia. }
  match goal with |- context [zlen (flat_map ?f ?l ++ ?b)] => pose proof (zlen_nonneg b) end.
  rewrite zlen_app, Hlen, (proj2 (Z.ltb_ge _ _)) by lia.
  replace (Z.to_nat (zlen entries)) with (length (entry_starts (zlen entries * 4) entries))
    by (rewrite entry_starts_length; unfold zlen; lia).
  rewrite offsets_read by (eapply Forall_impl; [exact Hr|]; unfold is_u32, u_range; cbn; intros; lia).
  cbn [mbind result_bind].
  replace (as_u64 (zlen entries * 4 + zlen (entry_data entries) - zlen entries * 4)) with (zlen (entry_data entries))
    by (symmetry; unfold as_u64; rewrite wrap_id by (unfold u_range; lia); lia).
  rewrite take_bytes_app by done. cbn [mbind result_bind].
  assert (En : normalize_entry_offsets (entry_starts (zlen entries * 4) entries) (zlen (entry_data entries)) (zlen entries * 4)
                 (zlen entries * 4 + zlen (entry_data entries)) = Ok (entry_starts 0 entries)).
  { unfold normalize_entry_offsets. pose proof (entry_starts_shift entries (zlen entries * 4) (zlen entries * 4)) as Hsh.
    rewrite Z.sub_diag in Hsh. rewrite <- Hsh. clear Hsh.
    destruct (entry_starts (zlen entries * 4) entries) as [|o os]; [done|].
    assert (Ho : (o =? 0) = false) by (apply Forall_inv in Hr; lia). rewrite Ho. cbn [andb].
    assert (Hall : forallb (fun offset => (offset >=? zlen entries * 4)
                     && (offset <? zlen entries * 4 + zlen (entry_data entries))) (o :: os) = true).
    { apply forallb_forall. intros x Hx. rewrite Forall_forall in Hr. apply list_elem_of_In in Hx.
      specialize (Hr x Hx). cbn in Hr. lia. }
    by rewrite Hall. }
  rewrite En. cbn [mbind result_bind]. pose proof (entries_read_back entries [] Hp) as Hb. cbn [app] in Hb.
  change (zlen []) with 0 in Hb. rewrite Hb. clear Hb. cbn [mbind result_bind].
  rewrite prefixed_reads by done. cbn [mbind result_bind].
  pose proof (prefixed_reads last [] Hll) as Hlast. rewrite app_nil_r in Hlast. rewrite Hlast. done.
Qed.

(** ** Lookup

    Rows of Index.db in groups, each led by the row that is sampled. *)

Definition Chunk : Type := IndexRow * list IndexRow.
Definition chunk_rows (c : Chunk) : list IndexRow := c.1 :: c.2.
Definition chunks_rows (css : list Chunk) : list IndexRow := flat_map chunk_rows css.

Fixpoint chunk_samples (start : Z) (css : list Chunk) : list SummaryEntry :=
  match css with
  | [] => []
  | c :: css =>
      mkSummaryEntry (key (ir_key c.1)) start :: chunk_samples (start + zlen (file_bytes (chunk_rows c))) css
  end.

Definition row_has_key (k : list Z) (r : IndexRow) : bool := bool_decide (key (ir_key r) = k).
Definition row_lt (a b : IndexRow) : Prop := cmp_partition_keys_by_token (key (ir_key a)) (key (ir_key b)) = Lt.

Lemma file_bytes_app a b : file_bytes (a ++ b) = file_bytes a ++ file_bytes b.
Proof. apply flat_map_app. Qed.

Lemma chunks_rows_app a b : chunks_rows (a ++ b) = chunks_rows a ++ chunks_rows b.
Proof. apply flat_map_app. Qed.

Lemma chunk_samples_app a : forall start b,
  chunk_samples start (a ++ b) = chunk_samples start a ++ chunk_samples (start + zlen (file_bytes (chunks_rows a))) b.
Proof.
  induction a as [|c a IH]; intros start b; cbn [app chunk_samples chunks_rows flat_map].
  - change (zlen (file_bytes [])) with 0. by rewrite Z.add_0_r.
  - rewrite IH, file_bytes_app, zlen_app. fold (chunks_rows a). by rewrite Z.add_assoc.
Qed.

Lemma chunk_samples_length css : forall start, length (chunk_samples start css) = length css.
Proof. induction css; intros; cbn; auto. Qed.

(** A scan of whole rows. *)
Lemma scan_rows k cap rows : forall fuel touched,
  Forall IndexRowOk rows -> (length (file_bytes rows) <= fuel)%nat -> touched + zlen rows <= cap ->
  (scan_interval fuel (file_bytes rows) k cap touched).1 = row_entry <$> List.find (row_has_key k) rows.
Proof.
  induction rows as [|r rows IH]; intros fuel touched Hok Hf Hc; [by destruct fuel|].
  apply Forall_cons in Hok as [Hr Hok]. pose proof (row_bytes_length r Hr) as Hl.
  rewrite zlen_cons in Hc. pose proof (zlen_nonneg rows).
  cbn [file_bytes flat_map] in *. fold (file_bytes rows) in *. rewrite length_app in Hf.
  destruct fuel as [|fuel]; [lia|]. cbn [scan_interval List.find].
  pose proof (entry_reads r (file_bytes rows) Hr) as He.
  destruct (row_bytes r ++ file_bytes rows) as [|x xs] eqn:Ex.
  { apply (f_equal length) in Ex. rewrite length_app in Ex. cbn in Ex. lia. }
  rewrite (proj2 (Z.ltb_lt _ _)), He by lia. cbn [pie_key row_entry]. unfold row_has_key at 1.
  destruct (bool_decide (key (ir_key r) = k)); [done|]. apply IH; [done|lia..].
Qed.

Lemma partition_point_split {A} (p : A -> bool) l :
  exists l1 l2, l = l1 ++ l2 /\ partition_point p l = length l1 /\ Forall (fun x => p x = true) l1 /\
                from_option p false (head l2) = false.
Proof.
  induction l as [|x l (l1 & l2 & -> & Hp & H1 & H2)]; [by exists [], []|]. cbn [partition_point].
  destruct (p x) eqn:E; [exists (x :: l1), l2|exists [], (x :: l1 ++ l2)]; cbn; auto.
Qed.

Lemma samples_partition_point (f : list Z -> bool) css : forall start,
  partition_point (fun e => f (se_partition_key e)) (chunk_samples start css)
  = partition_point (fun c : Chunk => f (key (ir_key c.1))) css.
Proof.
  induction css as [|c css IH]; intros start; [done|]. cbn [chunk_samples partition_point se_partition_key].
  by rewrite IH.
Qed.

Lemma ss_app_inv {A} (R : A -> A -> Prop) l1 l2 x y :
  StronglySorted R (l1 ++ l2) -> x ∈ l1 -> y ∈ l2 -> R x y.
Proof.
  induction l1 as [|z l1 IH]; intros Hs Hx Hy; [by apply elem_of_nil in Hx|].
  apply StronglySorted_inv in Hs as [Hs Hf]. apply elem_of_cons in Hx as [->|Hx]; [|by apply IH].
  rewrite Forall_forall in Hf. apply Hf, elem_of_app. by right.
Qed.

Lemma ss_app_r {A} (R : A -> A -> Prop) l1 l2 : StronglySorted R (l1 ++ l2) -> StronglySorted R l2.
Proof. induction l1; [done|]. intros Hs. apply StronglySorted_inv in Hs as [Hs _]. auto. Qed.

(** Rows before the leader of a group whose key is not above [k], or behind one whose key is. *)
Lemma rows_below k c css1 css2 :
  StronglySorted row_lt (chunks_rows (css1 ++ c :: css2)) ->
  cmp_partition_keys_by_token (key (ir_key c.1)) k <> Gt ->
  Forall (fun r => row_has_key k r = false) (chunks_rows css1).
Proof.
  intros Hs Hle. apply Forall_forall. intros r Hr. apply bool_decide_eq_false. intros <-.
  rewrite chunks_rows_app in Hs. apply Hle. apply (on_gt_lt (P := fun _ => True) cmp_partition_keys_by_token); [done..|].
  apply (ss_app_inv _ _ _ r c.1 Hs Hr). cbn. by left.
Qed.

Lemma rows_above k css :
  StronglySorted row_lt (chunks_rows css) ->
  from_option (fun c : Chunk => negb (bool_decide (cmp_partition_keys_by_token (key (ir_key c.1)) k = Gt))) false (head css) = false ->
  Forall (fun r => row_has_key k r = false) (chunks_rows css).
Proof.
  intros Hs Hgt. destruct css as [|c css]; [constructor|]. cbn in Hgt. apply negb_false_iff, bool_decide_eq_true in Hgt.
  apply Forall_forall. intros r Hr. apply bool_decide_eq_false. intros <-.
  cbn [chunks_rows flat_map chunk_rows app] in Hs, Hr. apply StronglySorted_inv in Hs as [_ Hf]. rewrite Forall_forall in Hf.
  apply elem_of_cons in Hr as [->|Hr].
  - by rewrite (ord_refl cmp_partition_keys_by_token) in Hgt.
  - apply (on_gt_lt (P := fun _ => True) cmp_partition_keys_by_token) in Hgt; [|done..].
    pose proof (ord_trans cmp_partition_keys_by_token _ _ _ (Hf r Hr) Hgt) as H.
    by rewrite (ord_refl cmp_partition_keys_by_token) in H.
Qed.

(** The sample at or below a key splits the groups; no other group holds the key. *)
Lemma interval_splits css k :
  css <> [] -> StronglySorted row_lt (chunks_rows css) ->
  exists css1 c css2, css = css1 ++ c :: css2 /\
    (pred (partition_point (fun e => negb (bool_decide (cmp_partition_keys_by_token (se_partition_key e) k = Gt)))
      (chunk_samples 0 css)) = length css1)%nat /\
    Forall (fun r => row_has_key k r = false) (chunks_rows css1) /\ Forall (fun r => row_has_key k r = false) (chunks_rows css2).
Proof.
  intros Hne Hs.
  pose proof (samples_partition_point (fun x => negb (bool_decide (cmp_partition_keys_by_token x k = Gt))) css 0) as Epp.
  cbv beta in Epp. rewrite Epp. clear Epp.
  edestruct (partition_point_split (fun c : Chunk => negb (bool_decide (cmp_partition_keys_by_token (key (ir_key c.1)) k = Gt))) css)
    as (l1 & l2 & El & -> & H1 & H2). cbn in H2.
  destruct l1 as [|x l1 _] using rev_ind.
  - cbn in El. subst l2. destruct css as [|c css2]; [done|]. exists [], c, css2. split; [done|]. split; [done|].
    split; [constructor|]. pose proof (rows_above k (c :: css2) Hs H2) as Ha.
    cbn [chunks_rows flat_map] in Ha. by apply Forall_app in Ha as [_ Ha].
  - subst css. rewrite <- app_assoc in *. cbn [app] in *. exists l1, x, l2. split; [done|].
    split; [rewrite length_app; cbn; lia|]. apply Forall_app in H1 as [_ H1]. apply Forall_inv, negb_true_iff, bool_decide_eq_false in H1.
    split; [by eapply rows_below|]. apply rows_above; [|done].
    rewrite chunks_rows_app in Hs. apply ss_app_r in Hs. cbn [chunks_rows flat_map] in Hs. by apply ss_app_r in Hs.
Qed.

Lemma find_app_none {A} (p : A -> bool) l1 l2 l3 :
  Forall (fun x => p x = false) l1 -> Forall (fun x => p x = false) l3 ->
  List.find p (l1 ++ l2 ++ l3) = List.find p l2.
Proof.
  intros H1 H3. induction H1 as [|x l1 Hx H1 IH]; cbn [app List.find]; [|by rewrite Hx].
  induction l2 as [|y l2 IH]; cbn [app List.find]; [|by rewrite IH].
  induction H3 as [|z l3 Hz H3 IH]; cbn [List.find]; [done|]. by rewrite Hz.
Qed.

(** The rows of a file in groups of at most [interval], sampled at the head of each. *)
Record Sampled (interval : Z) (css : list Chunk) : Prop := {
  sa_some : css <> [];
  sa_sorted : StronglySorted row_lt (chunks_rows css);
  sa_rows : Forall IndexRowOk (chunks_rows css);
  sa_groups : Forall (fun c => zlen (chunk_rows c) <= interval) css;
  sa_interval : 0 <= interval < 2 ^ 32;
}.

Lemma cap_exact interval : 0 <= interval < 2 ^ 32 -> last_interval_entry_cap interval BASE_SAMPLING_LEVEL = interval + 1.
Proof.
  intros H. unfold last_interval_entry_cap, BASE_SAMPLING_LEVEL, sat_mul64, sat_add64, u64_MAX.
  change (Z.max 1 (Z.min 128 128)) with 128. rewrite (Z.min_l (interval * 128)) by lia. rewrite Z.div_mul by lia. lia.
Qed.

Lemma find_option_map k rows :
  option_map pie_data_offset (row_entry <$> List.find (row_has_key k) rows) = ir_offset <$> List.find (row_has_key k) rows.
Proof. by destruct (List.find _ rows). Qed.

(** One group of rows between its sample and the next, or up to the end of the file. *)
Lemma group_lookup interval css1 c css2 k entry :
  Sampled interval (css1 ++ c :: css2) ->
  chunk_samples 0 (css1 ++ c :: css2) !! length css1 = Some entry ->
  exists touched,
    lookup_key_in_interval (file_bytes (chunks_rows (css1 ++ c :: css2)))
      (mkSummaryInterval (se_position entry) (se_position <$> chunk_samples 0 (css1 ++ c :: css2) !! S (length css1)) (length css1))
      k interval BASE_SAMPLING_LEVEL
    = Ok (row_entry <$> List.find (row_has_key k) (chunk_rows c), touched).
Proof.
  intros [_ _ Hr Hg Hi]. set (front := file_bytes (chunks_rows css1)).
  rewrite chunks_rows_app in Hr. apply Forall_app in Hr as [_ Hr]. cbn [chunks_rows flat_map] in Hr.
  apply Forall_app in Hr as [Hr _]. apply Forall_app in Hg as [_ Hg]. apply Forall_cons in Hg as [Hg _].
  rewrite chunk_samples_app, !lookup_app_r by (rewrite chunk_samples_length; lia). fold front.
  rewrite chunk_samples_length, Nat.sub_diag, Nat.sub_succ_l, Nat.sub_diag by lia. cbn [chunk_samples lookup list_lookup].
  rewrite Z.add_0_l. intros [= <-]. cbn [se_position].
  rewrite chunks_rows_app, file_bytes_app. fold front. cbn [chunks_rows flat_map]. rewrite file_bytes_app. fold (chunks_rows css2).
  pose proof (zlen_nonneg front) as Hf0. pose proof (zlen_nonneg (file_bytes (chunks_rows css2))).
  assert (Hc : 0 < zlen (file_bytes (chunk_rows c))).
  { unfold chunk_rows in *. cbn [file_bytes flat_map]. rewrite zlen_app.
    pose proof (row_bytes_length c.1 (Forall_inv Hr)). pose proof (zlen_nonneg (flat_map row_bytes c.2)). unfold zlen at 1. lia. }
  assert (Hdrop : forall l, drop (Z.to_nat (zlen front)) (front ++ l) = l).
  { intros l. replace (Z.to_nat (zlen front)) with (length front) by (unfold zlen; lia). by rewrite drop_app_length. }
  assert (Hscan : forall cap, interval <= cap -> exists touched,
            scan_interval_bytes (file_bytes (chunk_rows c)) k cap = (row_entry <$> List.find (row_has_key k) (chunk_rows c), touched)).
  { intros cap Hcap. unfold scan_interval_bytes. pose proof (scan_rows k cap (chunk_rows c) (length (file_bytes (chunk_rows c))) 0 Hr) as Hs.
    destruct (scan_interval _ _ _ _ _) as [o n]. exists n. f_equal. apply Hs; lia. }
  unfold lookup_key_in_interval. cbn [si_start_position si_end_position].
  destruct css2 as [|c2 css2]; cbn [chunk_samples lookup list_lookup fmap option_fmap option_map se_position].
  - rewrite Hdrop, cap_exact by done. change (file_bytes (chunks_rows [])) with (@nil Z). rewrite app_nil_r.
    destruct (Hscan (interval + 1)) as [n Hn]; [lia|]. exists n. by rewrite Hn.
  - rewrite (proj2 (Z.leb_gt _ _)) by lia. rewrite !zlen_app, Z.gtb_ltb, (proj2 (Z.ltb_ge _ _)) by lia. cbv zeta.
    rewrite Hdrop. replace (Z.to_nat (zlen front + zlen (file_bytes (chunk_rows c)) - zlen front)) with (length (file_bytes (chunk_rows c)))
      by (unfold zlen; lia).
    rewrite take_app_length. destruct (Hscan u64_MAX) as [n Hn]; [unfold u64_MAX; lia|]. exists n. by rewrite Hn.
Qed.

(** The lookup through a summary of the groups is the search of all rows. *)
Lemma lookup_sampled interval css k sd :
  Sampled interval css -> sd_entries sd = chunk_samples 0 css ->
  sh_min_index_interval (sd_header sd) = interval -> sh_sampling_level (sd_header sd) = BASE_SAMPLING_LEVEL ->
  lookup_via_summary sd (file_bytes (chunks_rows css)) k = Ok (ir_offset <$> List.find (row_has_key k) (chunks_rows css)).
Proof.
  intros Hs He Hi Hl. destruct (interval_splits css k (sa_some _ _ Hs) (sa_sorted _ _ Hs)) as (css1 & c & css2 & -> & Hp & H1 & H2).
  unfold lookup_via_summary, find_interval_for_key. rewrite He, Hi, Hl, Hp.
  destruct (chunk_samples 0 (css1 ++ c :: css2) !! length css1) as [entry|] eqn:E.
  2: { apply lookup_ge_None in E. rewrite chunk_samples_length, length_app in E. cbn in E. lia. }
  cbn [mbind option_bind]. destruct (group_lookup interval css1 c css2 k entry Hs E) as [n ->].
  cbn [mbind result_bind]. rewrite chunks_rows_app. cbn [chunks_rows flat_map]. fold (chunks_rows css1) (chunks_rows css2).
  rewrite find_app_none by done. by rewrite find_option_map.
Qed.

(** A summary without entries is its header, which the parser refuses for want of keys. *)
Example empty_summary_refused : parse_summary_data (summary_finish (summary_writer_new 128)) = Err Corruption.
Proof. reflexivity. Qed.
