(* ===== verification/PartitionReaderProps.v ===== *)
(** Partition headers read back as they were written, for keys of up to 255 bytes. *)

From S2P Require Import Prelude Values VInt Keys MergeModel Mutation Stats StatsProps Cells CellProps Columns Rows RowProps Markers MarkerProps CompactionRows PartitionReader PartitionWriter.

Open Scope Z_scope.

(** ** Headers *)

Definition header_deletion_ok (oa : bool) (tombstone : option PartTombstone) : Prop :=
  match tombstone with
  | Some ts => is_i64 (pt_deletion_time ts) /\ is_i32 (pt_local_deletion_time ts) /\
               (if oa then 0 <= pt_deletion_time ts
                else pt_local_deletion_time ts <> NB_LIVE_LOCAL_DELETION_TIME)
  | None => True
  end.

Definition deletion_pair (tombstone : option PartTombstone) : option (Z * Z) :=
  (fun ts => (pt_deletion_time ts, pt_local_deletion_time ts)) <$> tombstone.

Definition partition_header_bytes (oa : bool) (key : list Z) (tombstone : option PartTombstone) : list Z :=
  be_bytes 2 (zlen key) ++ key ++ partition_deletion_bytes oa tombstone.

Lemma write_header dw key tombstone :
  zlen (Keys.key key) <= u16_MAX ->
  write_partition_header dw key tombstone
  = Ok (with_buffer (dw_buffer dw ++ partition_header_bytes (dw_oa_partition_deletion dw) (Keys.key key) tombstone) dw).
Proof. intros H. unfold write_partition_header. rewrite Z.gtb_ltb. by rewrite (proj2 (Z.ltb_ge _ _)). Qed.

Lemma short_length_bytes n : 0 < n <= FORMAT_MAX_KEY_SIZE -> be_bytes 2 n = [0; n].
Proof.
  unfold FORMAT_MAX_KEY_SIZE. intros H. cbn [be_bytes Z.of_nat]. change (8 * 1) with 8. change (8 * 0) with 0.
  rewrite Z.shiftr_0_r, Z.shiftr_div_pow2, Z.div_small by lia. rewrite !land_255.
  by rewrite (Z.mod_small n) by lia.
Qed.

(** The first byte of a non-negative time is below 128. *)
Lemma top_byte_clear v : 0 <= v < 2 ^ 63 -> exists x tl, be_bytes 8 v = x :: tl /\ has_flag x OA_IS_LIVE_DELETION = false.
Proof.
  intros H. cbn [be_bytes]. eexists _, _. split; [reflexivity|].
  unfold has_flag, OA_IS_LIVE_DELETION. apply negb_false_iff, Z.eqb_eq.
  apply Z.bits_inj_0. intros i. rewrite !Z.land_spec.
  destruct (decide (0 <= i)) as [Hi|Hi]; [|by rewrite Z.testbit_neg_r by lia].
  change 0x80 with (2 ^ 7). rewrite Z.pow2_bits_eqb by lia. destruct (Z.eqb_spec 7 i) as [<-|]; [|by rewrite andb_false_r].
  rewrite Z.shiftr_spec by lia. change (7 + 8 * Z.of_nat 7) with 63.
  rewrite (Z.bits_above_log2 v 63); [done|lia|]. destruct (decide (v = 0)) as [->|]; [cbn; lia|].
  apply Z.log2_lt_pow2; lia.
Qed.

Lemma deletion_bytes_read p oa tombstone rest :
  p_has_uint_deletion_time p = oa -> header_deletion_ok oa tombstone ->
  parse_partition_deletion p (partition_deletion_bytes oa tombstone ++ rest)
  = Ok (deletion_pair tombstone, rest).
Proof.
  intros Hp Hd. unfold parse_partition_deletion. rewrite Hp.
  destruct oa, tombstone as [[dt ldt]|]; cbn [partition_deletion_bytes pt_deletion_time pt_local_deletion_time header_deletion_ok] in *.
  - destruct Hd as (Hdt & Hl & Hs). rewrite <- app_assoc.
    destruct (top_byte_clear dt) as (x & tl & E & Hx); [unfold is_i64, i_range in Hdt; lia|].
    rewrite E. cbn [app]. rewrite Hx. rewrite (app_comm_cons tl), <- E.
    rewrite take_bytes_app by apply zlen_be_bytes. cbn [mbind result_bind].
    rewrite take_bytes_app by apply zlen_be_bytes. cbn [mbind result_bind deletion_pair fmap option_fmap option_map].
    unfold as_i64. rewrite (signed_be 8 64) by (done || lia).
    unfold as_i32, as_u32. rewrite (unsigned_be 4 32) by (done || apply wrap_range; lia).
    rewrite swrap_wrap by lia. by rewrite swrap_id by (done || lia).
  - reflexivity.
  - destruct Hd as (Hdt & Hl & Hs). rewrite <- app_assoc.
    rewrite take_bytes_app by apply zlen_be_bytes. cbn [mbind result_bind].
    rewrite take_bytes_app by apply zlen_be_bytes. cbn [mbind result_bind deletion_pair fmap option_fmap option_map].
    unfold as_i32. rewrite (signed_be 4 32) by (done || lia).
    rewrite (proj2 (Z.eqb_neq _ _)) by done. unfold as_i64. by rewrite (signed_be 8 64) by (done || lia).
  - rewrite <- app_assoc. rewrite take_bytes_app by apply zlen_be_bytes. cbn [mbind result_bind].
    by rewrite take_bytes_app by apply zlen_be_bytes.
Qed.

Section Header.
Context (p : Parser) (oa : bool) (key : list Z) (tombstone : option PartTombstone).
Context (Hp : p_has_uint_deletion_time p = oa) (Hk : 0 < zlen key <= FORMAT_MAX_KEY_SIZE).
Context (Hd : header_deletion_ok oa tombstone).

Lemma header_scan rest :
  scan_partition_header p (partition_header_bytes oa key tombstone ++ rest) = Ok (key, deletion_pair tombstone, rest).
Proof.
  unfold scan_partition_header, partition_header_bytes. rewrite short_length_bytes by done. cbn [app read_byte mbind result_bind].
  rewrite (proj2 (Z.eqb_neq _ _)) by lia. rewrite <- app_assoc, take_bytes_app by done. cbn [mbind result_bind].
  by rewrite (deletion_bytes_read p oa).
Qed.

Lemma header_readiness rest :
  partition_header_readiness p (partition_header_bytes oa key tombstone ++ rest) = HeaderReady.
Proof.
  unfold partition_header_readiness, partition_header_bytes. rewrite short_length_bytes by done. cbn [app].
  rewrite (proj2 (Z.eqb_neq _ _)) by lia. cbn [orb]. rewrite Z.gtb_ltb, (proj2 (Z.ltb_ge _ _)) by lia.
  rewrite Hp, <- app_assoc.
  assert (Hlen : forall n, n <= zlen (partition_deletion_bytes oa tombstone) ->
    (2 + zlen key + n >? zlen (0 :: zlen key :: key ++ partition_deletion_bytes oa tombstone ++ rest)) = false).
  { intros n Hn. rewrite Z.gtb_ltb. apply Z.ltb_ge. rewrite !zlen_cons, !zlen_app.
    pose proof (zlen_nonneg rest). lia. }
  destruct oa.
  - assert (E : (0 :: zlen key :: key ++ partition_deletion_bytes true tombstone ++ rest) !! Z.to_nat (2 + zlen key)
                = (partition_deletion_bytes true tombstone ++ rest) !! O).
    { replace (Z.to_nat (2 + zlen key)) with (S (S (length key))) by (unfold zlen; lia). cbn [lookup list_lookup].
      rewrite (lookup_app_r key) by done. by rewrite Nat.sub_diag. }
    rewrite E.
    assert (El : exists x, (partition_deletion_bytes true tombstone ++ rest) !! O = Some x /\
              (if has_flag x OA_IS_LIVE_DELETION then 1 else 12) <= zlen (partition_deletion_bytes true tombstone)).
    { destruct tombstone as [[dt ldt]|]; [|by exists 128].
      destruct Hd as (Hdt & _ & Hs). cbn [pt_deletion_time partition_deletion_bytes pt_local_deletion_time] in *.
      destruct (top_byte_clear dt) as (x & tl & Ex & Hx); [unfold is_i64, i_range in Hdt; lia|].
      exists x. rewrite Hx, zlen_app, !zlen_be_bytes. split; [by rewrite Ex|lia]. }
    destruct El as (x & -> & Hx). cbn [fmap option_fmap option_map]. by rewrite Hlen.
  - rewrite Hlen; [done|]. destruct tombstone as [[dt ldt]|]; cbn [partition_deletion_bytes]; rewrite zlen_app, !zlen_be_bytes; lia.
Qed.
End Header.
