(* ===== verification/PartitionRoundtrip.v ===== *)
(** A partition written is read back by compaction: the driver walks the bytes of the
    unfiltereds one by one, and what it hands on is the fold of [item_step] over them. Where
    reader and writer part: long keys, partial clustering keys, rows inserted again, and
    a corrupt marker the driver never gets past. *)

From S2P Require Import Prelude Values VInt Keys MergeModel Mutation Stats StatsProps Baselines Cells CellProps Columns Rows RowProps Markers MarkerProps Items RowGroup StaticRows CompactionRows RowImage PartitionReader PartitionWriter PartitionReaderProps.

Open Scope Z_scope.

(** ** Flags of rows *)

Lemma row_flags_kind schema row :
  is_end_of_partition (row_flags schema row) = false /\ is_range_tombstone_marker (row_flags schema row) = false.
Proof.
  unfold row_flags. cbv zeta.
  generalize (forallb is_write (map mop_op (rw_ops row)) && negb (existsb is_null_write (map mop_op (rw_ops row)))
    && (length (map mop_op (rw_ops row)) =? length (regular_columns_with_complex schema))%nat). intros all.
  match goal with |- context [set_flag ?c ROW_HAS_COMPLEX_DELETION _] => generalize c end. intros complex.
  destruct (is_some (rw_row_deletion row)), (is_some (rw_liveness_ts row)), (is_some (rw_ttl_seconds row)),
    all, complex; vm_compute; done.
Qed.

Section Items.
Context {VS : ValueSerializer} {CD : ComplexDecoder} {CW : ComplexWriter} {CR : ComplexColumnReader}.
Context (from_data_type : string -> result Error ComparatorType) (ck_name : Z -> string).
Context (marshal : string -> string) (schema : TableSchema) (header : list ColumnInfo).
Context (b : EncodingStatsBaselines) (p : Parser).

Local Abbreviation resolution := (build_resolution schema header).

(** ** Well-formed items *)

Definition named_key (ck : ClusteringKey) : Prop :=
  map fst ck = take (length ck) (map cc_name (clustering_keys schema)).

Definition named_bound (bound : ClusteringBound) : Prop :=
  match bound with Inclusive ck | Exclusive ck => named_key ck | _ => True end.

(** A start is not the end of the axis, an end not its beginning. *)
Definition oriented (is_open : bool) (bound : ClusteringBound) : Prop :=
  match bound with Bottom => is_open = true | Top => is_open = false | _ => True end.

Definition item_ok (now : Z) (item : PartitionItem) : Prop :=
  match item with
  | IRow row => row_ok from_data_type schema b now row /\
                Forall (fun v => is_null v = false) (clustering_values_of (rw_clustering_key row))
  | IMarker bound is_open dt ldt =>
      bound_ok from_data_type schema bound /\ named_bound bound /\ oriented is_open bound /\ deletion_ok b dt ldt
  | IBoundary kind ck end_dt end_ldt start_dt start_ldt =>
      (kind = EXCL_END_INCL_START_BOUNDARY \/ kind = INCL_END_EXCL_START_BOUNDARY) /\
      bound_key_ok from_data_type schema ck /\ named_key ck /\
      deletion_ok b end_dt end_ldt /\ deletion_ok b start_dt start_ldt
  end.

(** A row that can follow another: it has a clustering key. *)
Definition item_keyed (item : PartitionItem) : Prop :=
  match item with IRow row => rw_clustering_key row <> None | _ => True end.

(** ** What compaction makes of the items *)

Definition read_bound (bound : ClusteringBound) : CompactionBound :=
  match bound with
  | Inclusive ck => CInclusive ck
  | Exclusive ck => CExclusive ck
  | Bottom => CBottom
  | Top => CTop
  end.

(** The open start and the rows so far. *)
Definition RangeState : Type := option (CompactionBound * Z * Z) * list CompactionRow.

Definition close_range (key : list Z) (start : CompactionBound) (stop : ClusteringBound) (dt ldt : Z) : CompactionRow :=
  mkCompactionRow key dt (CRangeMarker start (read_bound stop) dt ldt).

Definition item_step (key : list Z) (now : Z) (item : PartitionItem) (st : RangeState) : RangeState :=
  let start := (fun '(s, _, _) => s) <$> st.1 in
  match item with
  | IRow row => (st.1, st.2 ++ [row_image schema now key row])
  | IMarker bound true dt ldt => (Some (read_bound bound, dt, ldt), st.2)
  | IMarker bound false dt ldt => (None, st.2 ++ [close_range key (default CBottom start) bound dt ldt])
  | IBoundary kind ck end_dt end_ldt start_dt start_ldt =>
      let '(stop, next) := if kind =? EXCL_END_INCL_START_BOUNDARY
                           then (Exclusive ck, Inclusive ck) else (Inclusive ck, Exclusive ck) in
      (Some (read_bound next, start_dt, start_ldt),
       match start with
       | Some start => st.2 ++ [close_range key start stop end_dt end_ldt]
       | None => st.2
       end)
  end.

Fixpoint items_step (key : list Z) (clock : nat -> Z) (k : nat) (items : list PartitionItem) (st : RangeState) :
    RangeState :=
  match items with
  | [] => st
  | item :: items => items_step key clock (S k) items (item_step key (clock k) item st)
  end.

(** ** One item, written *)

Lemma marker_body_append deletion prev buf :
  write_marker_body deletion prev buf = buf ++ write_marker_body deletion prev [].
Proof.
  unfold write_marker_body. rewrite encode_unsigned_append, (encode_unsigned_append (unsigned_len prev + zlen deletion) buf).
  by rewrite (encode_unsigned_append prev (encode_unsigned _ [])), <- !app_assoc.
Qed.

(** Whatever the previous size. *)
Lemma bound_accepted bound is_open dt ldt prev :
  bound_ok from_data_type schema bound -> deletion_ok b dt ldt ->
  exists bytes, forall buf,
    write_range_bound from_data_type b buf bound is_open dt ldt schema prev = Ok (buf ++ bytes).
Proof.
  intros Hb (_ & _ & Hl).
  assert (Hck : forall kind ck, bound_key_ok from_data_type schema ck -> exists bytes, forall buf,
    (if zlen ck >? u16_MAX then Err InvalidInput
     else buffer ← write_clustering_prefix from_data_type ck schema ((buf ++ [IS_MARKER] ++ [kind]) ++ be_bytes 2 (zlen ck));
          if ldt_below b ldt then Err InvalidInput
          else Ok (write_marker_body (write_deletion b dt ldt []) prev buffer)) = Ok (buf ++ bytes)).
  { intros kind ck H. destruct (bound_clustering from_data_type schema ck H) as (cb & _ & Hc).
    eexists. intros buf. rewrite Z.gtb_ltb, (proj2 (Z.ltb_ge _ _)) by by eapply bound_count.
    rewrite Hc. cbn [mbind result_bind]. rewrite Hl, marker_body_append, <- !app_assoc. reflexivity. }
  assert (Hnil : forall kind, exists bytes, forall buf,
    (if 0 >? u16_MAX then Err InvalidInput
     else buffer ← Ok ((buf ++ [IS_MARKER] ++ [kind]) ++ be_bytes 2 0);
          if ldt_below b ldt then Err InvalidInput
          else Ok (write_marker_body (write_deletion b dt ldt []) prev buffer)) = Ok (E := Error) (buf ++ bytes)).
  { intros kind. eexists. intros buf. change (0 >? u16_MAX) with false. cbn [mbind result_bind].
    rewrite Hl, marker_body_append, <- !app_assoc. reflexivity. }
  unfold write_range_bound. destruct bound as [ck|ck| |]; destruct is_open; cbn [bound_kind from_option];
    (apply Hck || apply Hnil); done.
Qed.

Lemma boundary_accepted kind ck edt eldt sdt sldt prev :
  bound_key_ok from_data_type schema ck -> deletion_ok b edt eldt -> deletion_ok b sdt sldt ->
  exists bytes, forall buf,
    write_range_boundary from_data_type b buf kind ck edt eldt sdt sldt schema prev = Ok (buf ++ bytes).
Proof.
  intros H (_ & _ & He) (_ & _ & Hs). destruct (bound_clustering from_data_type schema ck H) as (cb & _ & Hc).
  eexists. intros buf. unfold write_range_boundary. rewrite Z.gtb_ltb, (proj2 (Z.ltb_ge _ _)) by by eapply bound_count.
  rewrite Hc. cbn [mbind result_bind]. rewrite He, Hs. cbn [orb].
  rewrite marker_body_append, <- !app_assoc. reflexivity.
Qed.

(** ** One item, read *)

Context (Hp : decodes p b) (Ht : table_ok marshal schema header).
Context (Hck : NoDup (map cc_name (clustering_keys schema))).

Lemma row_accepted row now prev :
  row_ok from_data_type schema b now row ->
  exists bytes, forall buf, write_merged_row_with_prev_size from_data_type b buf row schema prev now
                            = Ok (buf ++ bytes, zlen (row_cells row (regular schema))).
Proof.
  intros Hr. destruct (clustering_prefix_reads from_data_type schema _ (ro_clustering _ _ _ _ _ Hr)) as (pb & Hpw & _).
  destruct (bitmap_reads from_data_type marshal schema header b now row Ht Hr) as (bitmap & _ & _ & Hbw & _).
  destruct (regular_simple marshal schema header Ht) as [Hreg Hsc].
  destruct (columns_read p b row now _ _ Hp Hsc) as (cells & Hcw & _); [by eapply columns_ok|].
  assert (Hg : group_complex_element_ops row = ∅)
    by (unfold group_complex_element_ops; by rewrite (ro_elements _ _ _ _ _ Hr)).
  eexists. intros buf. unfold write_merged_row_with_prev_size.
  change (match rw_clustering_key row with
          | Some ck => write_clustering_prefix from_data_type ck schema (buf ++ [row_flags schema row])
          | None => Ok (buf ++ [row_flags schema row])
          end) with (write_prefix from_data_type schema (rw_clustering_key row) (buf ++ [row_flags schema row])).
  rewrite Hpw. cbn [mbind result_bind].
  rewrite (body_written from_data_type schema b now p row bitmap cells (zlen (row_cells row (regular schema)))) by (done || (intros buf'; unfold write_merged_cells; by rewrite Hg, Hreg, Hcw)).
  cbn [mbind result_bind]. rewrite encode_unsigned_append, (encode_unsigned_append _ ((buf ++ _) ++ pb)).
  rewrite <- !app_assoc. reflexivity.
Qed.

Lemma item_accepted now item prev :
  item_ok now item ->
  exists bytes counts, forall buf, write_item from_data_type schema b buf item prev now = Ok (buf ++ bytes, counts).
Proof.
  destruct item as [row|bound is_open dt ldt|kind ck edt eldt sdt sldt]; cbn [item_ok write_item].
  - intros [Hr _]. destruct (row_accepted row now prev Hr) as (bytes & Hw). eexists _, _. intros buf. by rewrite Hw.
  - intros (H1 & _ & _ & H2). destruct (bound_accepted bound is_open dt ldt prev H1 H2) as (bytes & Hw).
    eexists _, _. intros buf. by rewrite Hw.
  - intros (_ & H1 & _ & H2 & H3). destruct (boundary_accepted kind ck edt eldt sdt sldt prev H1 H2 H3) as (bytes & Hw).
    eexists _, _. intros buf. by rewrite Hw.
Qed.

(** *** Bounds *)

Lemma make_bound_named ck inclusive is_start :
  ck <> [] -> (length ck <= length (clustering_keys schema))%nat -> named_key ck ->
  make_bound ck_name schema (map snd ck) inclusive is_start = if inclusive then CInclusive ck else CExclusive ck.
Proof.
  intros Hne Hl Hn. unfold make_bound.
  assert (E : imap (fun i v => (from_option cc_name (ck_name (Z.of_nat i)) (clustering_keys schema !! i), v)) (map snd ck) = ck).
  { apply list_eq. intros i. rewrite list_lookup_imap, list_lookup_fmap.
    destruct (ck !! i) as [[name v]|] eqn:Ei; cbn; [|done]. do 2 f_equal.
    assert (Hi : (i < length ck)%nat) by (by eapply lookup_lt_Some).
    assert (En : map fst ck !! i = Some name) by (by rewrite list_lookup_fmap, Ei).
    rewrite Hn, lookup_take, list_lookup_fmap in En. rewrite decide_True in En by done.
    destruct (clustering_keys schema !! i); cbn in *; congruence. }
  rewrite E. destruct ck; [done|]. by destruct inclusive.
Qed.

Definition policy (key : list Z) (start : option (CompactionBound * Z * Z)) : CompactionPolicy :=
  mkCompactionPolicy false key start.

(** The policy after an item. *)
Lemma marker_paired key now bound is_open dt ldt start rows :
  bound_ok from_data_type schema bound -> named_bound bound -> oriented is_open bound ->
  pair_marker ck_name schema (mkMarker (bound_values bound) (bound_kind is_open bound).1 (dt, ldt) None)
    (policy key start) rows
  = (policy key (item_step key now (IMarker bound is_open dt ldt) (start, rows)).1,
     (item_step key now (IMarker bound is_open dt ldt) (start, rows)).2).
Proof.
  intros Hb Hn Ho.
  destruct bound as [ck|ck| |]; destruct is_open; try (by destruct Ho); try done;
    cbn [bound_ok named_bound bound_values bound_kind fst] in *; destruct Hb as (Hne & Hl & _ & _);
    unfold pair_marker; cbn [mk_kind mk_values mk_primary mk_secondary];
    cbn [INCL_START_BOUND EXCL_START_BOUND INCL_END_BOUND EXCL_END_BOUND Z.eqb orb Pos.eqb fst snd];
    rewrite make_bound_named by done; done.
Qed.

Lemma boundary_paired key now kind ck edt eldt sdt sldt start rows :
  kind = EXCL_END_INCL_START_BOUNDARY \/ kind = INCL_END_EXCL_START_BOUNDARY ->
  bound_key_ok from_data_type schema ck -> named_key ck ->
  pair_marker ck_name schema (mkMarker (map snd ck) kind (edt, eldt) (Some (sdt, sldt))) (policy key start) rows
  = (policy key (item_step key now (IBoundary kind ck edt eldt sdt sldt) (start, rows)).1,
     (item_step key now (IBoundary kind ck edt eldt sdt sldt) (start, rows)).2).
Proof.
  intros Hk (Hne & Hl & _ & _) Hn. unfold pair_marker. cbn [mk_kind mk_values mk_primary mk_secondary].
  destruct Hk as [-> | ->]; cbn [EXCL_END_INCL_START_BOUNDARY INCL_END_EXCL_START_BOUNDARY Z.eqb orb Pos.eqb];
    rewrite !make_bound_named by done; done.
Qed.

(** *** Items *)

(** What the driver does with the item at this offset. *)
Definition item_read (key : list Z) (now : Z) (item : PartitionItem) (bytes : list Z) : Prop :=
  forall pre rest start rows, zlen (pre ++ bytes ++ rest) <= i64_MAX ->
  let data := pre ++ bytes ++ rest in
  let st' := item_step key now item (start, rows) in
  let next := zlen pre + zlen bytes in
  match item with
  | IRow row =>
      (exists tl, bytes = row_flags schema row :: tl) /\
      on_data_row (SlidingPartitionPolicy := compaction_policy ck_name p) data (zlen pre) schema resolution
        (policy key start) rows = (Some next, policy key st'.1, st'.2)
  | _ =>
      (exists tl, bytes = IS_MARKER :: tl) /\
      on_range_marker (SlidingPartitionPolicy := compaction_policy ck_name p) data (zlen pre) schema
        (policy key start) rows = (Advanced next, policy key st'.1, st'.2)
  end.

Lemma row_item_read key now row prev :
  item_ok now (IRow row) -> is_u64 prev ->
  exists bytes counts, (forall buf, write_item from_data_type schema b buf (IRow row) prev now = Ok (buf ++ bytes, counts)) /\
    item_read key now (IRow row) bytes /\ (item_keyed (IRow row) -> bytes !! 1%nat = Some 0).
Proof.
  intros [Hr Hnn] Hpv.
  destruct (row_reads from_data_type marshal schema header b now p row prev Hp Ht Hr Hpv) as (bytes & [Hf Hpre] & Hw & Hrd).
  exists bytes. eexists. split; [intros buf; cbn [write_item]; by rewrite Hw|]. split; [|by apply Hpre].
  intros pre rest start rows Hlen data st' next. split; [exact Hf|].
  destruct (Hrd ltac:(rewrite !zlen_app in Hlen; pose proof (zlen_nonneg pre); pose proof (zlen_nonneg rest); lia)
              rest true true) as (r & E & Hc & Hm & Hrest & _ & Hlive & Hmf & Hld & Hco).
  cbn [on_data_row compaction_policy structure_only policy]. unfold data. rewrite from_pos_app, E.
  destruct (image_built schema now row (pr_row_header r)) as [Hts Hdata]; [by eapply regular_names|done| |by split|].
  { destruct Hr as [_ _ _ _ _ _ Hk]. unfold clustering_key_ok, clustering_values_of in *.
    destruct (rw_clustering_key row); [|by rewrite Hk]. destruct Hk as (_ & _ & Hk). by rewrite (Forall2_length _ _ _ Hk). }
  rewrite Hc, Hm, Hco. cbn [default from_option id]. rewrite Hdata, Hts, Hrest. cbn [item_step st' fst snd].
  replace (zlen (pre ++ bytes ++ rest) - zlen rest) with next; [done|]. unfold next. rewrite !zlen_app. lia.
Qed.

Lemma marker_item_read key now item prev :
  match item with IRow _ => False | _ => True end ->
  item_ok now item -> is_u64 prev ->
  exists bytes counts, (forall buf, write_item from_data_type schema b buf item prev now = Ok (buf ++ bytes, counts)) /\
    item_read key now item bytes.
Proof.
  intros Hm Hi Hpv. destruct item as [row|bound is_open dt ldt|kind ck edt eldt sdt sldt]; [done| |]; cbn [item_ok] in Hi.
  - destruct Hi as (Hb & Hn & Ho & Hd).
    destruct (bound_written from_data_type b schema bound is_open dt ldt prev Hb Hd Hpv) as (cb & Hr & Hw).
    eexists _, _. split; [intros buf; cbn [write_item]; rewrite Hw; reflexivity|].
    intros pre rest start rows Hlen. cbv zeta. split; [by eexists|].
    cbn [on_range_marker compaction_policy].
    destruct (marker_reads p b schema (bound_kind is_open bound).1 (bound_values bound) cb (dt, ldt) None prev pre rest
                Hp Hr Hd I ltac:(by rewrite bound_kind_simple) Hpv Hlen) as [E _].
    by rewrite E, (marker_paired key now).
  - destruct Hi as (Hk & Hb & Hn & He & Hs).
    destruct (boundary_written from_data_type b schema kind ck (edt, eldt) (sdt, sldt) prev Hb He Hs Hpv) as (cb & Hr & Hw).
    eexists _, _. split; [intros buf; cbn [write_item]; cbn [fst snd] in Hw; rewrite Hw; reflexivity|].
    intros pre rest start rows Hlen. cbv zeta. split; [by eexists|].
    cbn [on_range_marker compaction_policy].
    destruct (marker_reads p b schema kind (map snd ck) cb (edt, eldt) (Some (sdt, sldt)) prev pre rest
                Hp Hr He Hs ltac:(by destruct Hk as [-> | ->]) Hpv Hlen) as [E _].
    by rewrite E, (boundary_paired key now).
Qed.

(** *** All of them *)

(** Bytes that are not the header of the next partition. *)
Definition no_header (bytes : list Z) : Prop :=
  forall pre, peek_is_partition_header p (pre ++ bytes) (zlen pre) = false.

Lemma marker_no_header f tl : f = END_OF_PARTITION \/ f = IS_MARKER -> no_header (f :: tl).
Proof.
  intros H pre. unfold peek_is_partition_header, peek_partition_boundary. rewrite from_pos_app.
  by destruct H as [-> | ->].
Qed.

Lemma row_no_header f tl : tl !! 0%nat = Some 0 -> no_header (f :: tl).
Proof.
  intros H pre. unfold peek_is_partition_header, peek_partition_boundary. rewrite from_pos_app.
  destruct tl as [|x tl]; [done|]. cbn [lookup list_lookup] in H. injection H as ->.
  destruct (is_end_of_partition f || is_range_tombstone_marker f); [done|].
  assert (E : partition_header_readiness p (f :: 0 :: tl) = HeaderMalformed) by done. cbv iota beta. by rewrite E.
Qed.

Lemma item_no_header key now item bytes rest :
  item_read key now item bytes -> zlen (bytes ++ rest) <= i64_MAX ->
  match item with IRow _ => bytes !! 1%nat = Some 0 | _ => True end -> no_header (bytes ++ rest).
Proof.
  intros Hr Hlen H. specialize (Hr [] rest None [] Hlen). cbv zeta in Hr.
  destruct item; destruct Hr as [[tl ->] _]; [|apply marker_no_header; by right|apply marker_no_header; by right].
  apply row_no_header. cbn [app lookup list_lookup] in *. by apply lookup_app_l_Some.
Qed.

Fixpoint items_ok (clock : nat -> Z) (k : nat) (items : list PartitionItem) : Prop :=
  match items with
  | [] => True
  | item :: items => item_ok (clock k) item /\ items_ok clock (S k) items
  end.

Lemma item_written_read key now item prev :
  item_ok now item -> is_u64 prev ->
  exists bytes counts, (forall buf, write_item from_data_type schema b buf item prev now = Ok (buf ++ bytes, counts)) /\
    item_read key now item bytes /\ (item_keyed item -> match item with IRow _ => bytes !! 1%nat = Some 0 | _ => True end).
Proof.
  intros Hi Hpv. destruct item as [row|bound is_open dt ldt|kind ck edt eldt sdt sldt]; [by apply row_item_read|..].
  all: match goal with |- context [item_read _ _ ?i _] =>
         destruct (marker_item_read key now i prev I Hi Hpv) as (bytes & counts & Hw & Hr) end;
       by exists bytes, counts.
Qed.

Section Walk.
Context {A : Type} (emit : CompactionRow -> A -> result Error (ControlFlow * A)) (final : bool).
Context (key : list Z) (clock : nat -> Z).

Local Abbreviation drive data :=
  (drive_rows (SlidingPartitionPolicy0 := compaction_policy ck_name p) p emit data schema resolution final).

(** What a partition's walk ends in: the rows are handed on and the bytes are consumed. *)
Definition handed_on (consumed : Z) (rows : list CompactionRow) (acc : A) : result Error (ParseStep * A) :=
  acc ← emit_rows emit rows acc; Ok (Emitted consumed, acc).

Lemma end_driven pre tail start rows acc fuel :
  drive (pre ++ END_OF_PARTITION :: tail) (S fuel) (zlen pre) (policy key start) rows acc
  = Some (handed_on (zlen pre + 1) rows acc).
Proof. cbn [drive_rows]. by rewrite from_pos_app. Qed.

Lemma item_driven now item bytes pre rest start rows acc fuel :
  item_read key now item bytes -> zlen (pre ++ bytes ++ rest) <= i64_MAX -> rest <> [] -> no_header rest ->
  drive (pre ++ bytes ++ rest) (S fuel) (zlen pre) (policy key start) rows acc
  = drive ((pre ++ bytes) ++ rest) fuel (zlen (pre ++ bytes))
      (policy key (item_step key now item (start, rows)).1) (item_step key now item (start, rows)).2 acc.
Proof.
  intros Hr Hlen Hne Hnh. specialize (Hr pre rest start rows Hlen). cbv zeta in Hr.
  cbn [drive_rows]. rewrite from_pos_app, <- app_assoc, (zlen_app pre bytes).
  destruct item as [row|bound is_open dt ldt|kind ck edt eldt sdt sldt]; destruct Hr as [[tl ->] Hr].
  2,3: cbn [app] in *; change (is_end_of_partition IS_MARKER) with false;
       change (is_range_tombstone_marker IS_MARKER) with true; cbv iota; by rewrite Hr.
  pose proof (row_flags_kind schema row) as [F1 F2]. set (bytes := row_flags schema row :: tl) in *.
  assert (Hge : (zlen pre + zlen bytes >=? zlen (pre ++ bytes ++ rest)) = false).
  { rewrite Z.geb_leb. apply Z.leb_gt. rewrite !zlen_app. destruct rest; [done|]. rewrite zlen_cons.
    pose proof (zlen_nonneg rest). lia. }
  specialize (Hnh (pre ++ bytes)). rewrite <- app_assoc, (zlen_app pre bytes) in Hnh.
  change (bytes ++ rest) with (row_flags schema row :: tl ++ rest). cbv iota. rewrite F1, F2.
  change (row_flags schema row :: tl ++ rest) with (bytes ++ rest). by rewrite Hr, Hge, Hnh.
Qed.

Lemma items_accepted items : forall k prev, items_ok clock k items ->
  exists bytes, forall buf, write_items from_data_type schema b clock k items buf prev = Ok (buf ++ bytes).
Proof.
  induction items as [|item items IH]; intros k prev Hok; cbn [write_items].
  - exists []. intros buf. by rewrite app_nil_r.
  - destruct Hok as [Hi Hok]. destruct (item_accepted (clock k) item prev Hi) as (bytes & counts & Hw).
    destruct (IH (S k) (zlen bytes) Hok) as (rest & Hrest). exists (bytes ++ rest). intros buf.
    rewrite Hw. cbn [mbind result_bind]. replace (zlen (buf ++ bytes) - zlen buf) with (zlen bytes) by (rewrite zlen_app; lia).
    by rewrite Hrest, <- app_assoc.
Qed.

Lemma items_read items tail : forall k prev,
  items_ok clock k items -> is_u64 prev ->
  Forall item_keyed (List.tail items) ->
  exists bytes,
    (forall buf, write_items from_data_type schema b clock k items buf prev = Ok (buf ++ bytes)) /\
    (zlen (bytes ++ END_OF_PARTITION :: tail) <= i64_MAX ->
     (Forall item_keyed items -> no_header (bytes ++ END_OF_PARTITION :: tail)) /\
     forall pre start rows acc fuel,
       zlen (pre ++ bytes ++ END_OF_PARTITION :: tail) <= i64_MAX -> (length items < fuel)%nat ->
       drive (pre ++ bytes ++ END_OF_PARTITION :: tail) fuel (zlen pre) (policy key start) rows acc
       = Some (handed_on (zlen pre + zlen bytes + 1) (items_step key clock k items (start, rows)).2 acc)).
Proof.
  induction items as [|item items IH]; intros k prev Hok Hpv Hkeyed.
  - exists []. split; [intros buf; cbn; by rewrite app_nil_r|]. intros _. split.
    + intros _. apply marker_no_header. by left.
    + intros pre start rows acc [|fuel] _ Hf; [lia|]. cbn [app items_step snd]. rewrite end_driven.
      change (zlen (@nil Z)) with 0. by rewrite Z.add_0_r.
  - destruct Hok as [Hi Hok]. cbn [List.tail] in Hkeyed.
    destruct (item_written_read key (clock k) item prev Hi Hpv) as (bytes & counts & Hw & Hr & Hz).
    destruct (items_accepted items (S k) (zlen bytes) Hok) as (rest & Hrest).
    exists (bytes ++ rest). split.
    { intros buf. cbn [write_items]. rewrite Hw. cbn [mbind result_bind].
      replace (zlen (buf ++ bytes) - zlen buf) with (zlen bytes) by (rewrite zlen_app; lia).
      by rewrite Hrest, <- app_assoc. }
    intros Hlen. rewrite <- app_assoc in Hlen.
    assert (Hlens : zlen bytes <= i64_MAX /\ zlen (rest ++ END_OF_PARTITION :: tail) <= i64_MAX).
    { rewrite zlen_app in Hlen. pose proof (zlen_nonneg bytes). pose proof (zlen_nonneg (rest ++ END_OF_PARTITION :: tail)). lia. }
    destruct Hlens as [Hlb Hlr].
    destruct (IH (S k) (zlen bytes) Hok) as (rest' & Hrest' & Hread).
    { pose proof (zlen_nonneg bytes). unfold is_u64, u_range, i64_MAX in *. lia. }
    { by destruct items; [|apply Forall_cons in Hkeyed as []]. }
    assert (rest' = rest) as ->. { pose proof (Hrest []) as E. rewrite (Hrest' []) in E. by injection E. }
    destruct (Hread Hlr) as [Hnh Hd]. rewrite <- app_assoc. split.
    + intros Hk. apply Forall_cons in Hk as [Hk _]. eapply item_no_header; [done|done|by apply Hz].
    + intros pre start rows acc fuel Hlp Hf. destruct fuel as [|fuel]; [lia|]. cbn [length] in Hf.
      rewrite (item_driven (clock k) item); [|done|done|by destruct rest|by apply Hnh].
      rewrite Hd.
      * rewrite !zlen_app. cbn [items_step]. rewrite <- surjective_pairing. do 2 f_equal. lia.
      * by rewrite <- app_assoc.
      * lia.
Qed.
End Walk.

(** *** A partition *)

Context `{HashOrder} `{DebugFmt}.

Record PartitionWrite := mkPartitionWrite {
  pw_key : DecoratedKey;
  pw_mutations : list Mutation;
  pw_tombstone : option PartTombstone;
  pw_range_tombstones : list RangeTombstone;
  pw_clock : nat -> Z;
}.

Definition pw_items (w : PartitionWrite) : list PartitionItem :=
  partition_items schema (pw_mutations w) (pt_deletion_time <$> pw_tombstone w) (pw_range_tombstones w).

Record partition_ok (w : PartitionWrite) : Prop := {
  po_key : 0 < zlen (Keys.key (pw_key w)) <= FORMAT_MAX_KEY_SIZE;
  po_deletion : header_deletion_ok (p_has_uint_deletion_time p) (pw_tombstone w);
  po_items : items_ok (pw_clock w) 1 (pw_items w);
  po_keyed : Forall item_keyed (List.tail (pw_items w));
}.

(** The rows a partition comes back as. *)
Definition partition_image (w : PartitionWrite) : list CompactionRow :=
  let key := Keys.key (pw_key w) in
  let opened := match pw_tombstone w with
                | Some ts => [mkCompactionRow key (pt_deletion_time ts)
                                (CPartitionDelete (pt_deletion_time ts) (pt_local_deletion_time ts))]
                | None => []
                end in
  (items_step key (pw_clock w) 1 (pw_items w) (None, opened)).2.

(** All a writer has produced. *)
Definition written (dw : DataWriter) : list Z := default [] (dw_sink dw) ++ dw_buffer dw.

Definition same_writer (dw dw' : DataWriter) : Prop :=
  dw_stats dw' = dw_stats dw /\ dw_oa_partition_deletion dw' = dw_oa_partition_deletion dw /\
  is_some (dw_sink dw') = is_some (dw_sink dw).

Lemma flushed_writer dw buffer :
  exists dw', flush_partition (Ok ()) (with_buffer (dw_buffer dw ++ buffer) dw) = Ok dw' /\ same_writer dw dw' /\
              written dw' = written dw ++ buffer /\ position dw' = position dw + zlen buffer.
Proof.
  unfold flush_partition, with_buffer. cbn [dw_sink dw_buffer dw_position dw_stats dw_oa_partition_deletion].
  destruct (dw_sink dw) as [w|] eqn:Es; cbn [mbind result_bind]; (eexists; split; [reflexivity|]);
    unfold same_writer, written, position; cbn [dw_sink dw_buffer dw_position dw_stats dw_oa_partition_deletion];
    rewrite Es, ?zlen_app; cbn [default from_option id app]; (split; [done|]).
  - split; [by rewrite app_nil_r, app_assoc|]. change (zlen (@nil Z)) with 0. lia.
  - split; [done|lia].
Qed.

Lemma partition_reads w dw :
  has_static schema = false -> dw_stats dw = b -> dw_oa_partition_deletion dw = p_has_uint_deletion_time p ->
  partition_ok w ->
  exists bytes dw',
    write_partition from_data_type schema dw (pw_key w) (pw_mutations w) (pw_tombstone w) (pw_range_tombstones w)
      (pw_clock w) (Ok ()) = Ok (dw', position dw) /\
    same_writer dw dw' /\ written dw' = written dw ++ bytes /\ position dw' = position dw + zlen bytes /\
    bytes <> [] /\
    forall tail, zlen (bytes ++ tail) <= i64_MAX ->
    forall A (emit : CompactionRow -> A -> result Error (ControlFlow * A)) final acc fuel,
      (length (pw_items w) < fuel)%nat ->
      parse_one_partition_for_compaction ck_name emit p schema header fuel (bytes ++ tail) final acc
      = Some (handed_on emit (zlen bytes) (partition_image w) acc).
Proof.
  intros Hst Hb Hoa [Hk Hd Hok Hkeyed].
  set (hd := partition_header_bytes (p_has_uint_deletion_time p) (Keys.key (pw_key w)) (pw_tombstone w)).
  destruct (items_accepted (pw_clock w) (pw_items w) 1 (zlen hd) Hok) as (bytes & Hw).
  destruct (flushed_writer dw (hd ++ bytes ++ [END_OF_PARTITION])) as (dw' & Hf & Hs & Hwr & Hpos).
  exists (hd ++ bytes ++ [END_OF_PARTITION]), dw'.
  assert (Hlen : zlen (Keys.key (pw_key w)) <= u16_MAX) by (unfold FORMAT_MAX_KEY_SIZE, u16_MAX in *; lia).
  split; [|split; [done|split; [done|split; [done|split; [by destruct hd, bytes|]]]]].
  - unfold write_partition. rewrite write_header by done. rewrite Hoa. fold hd. cbn [mbind result_bind].
    unfold write_static_prelude. rewrite Hst. cbn [negb mbind result_bind with_buffer dw_buffer dw_stats]. rewrite Hb.
    fold (pw_items w). replace (zlen (dw_buffer dw ++ hd) - zlen (dw_buffer dw)) with (zlen hd) by (rewrite zlen_app; lia).
    rewrite Hw. cbn [mbind result_bind]. rewrite <- !app_assoc.
    unfold with_buffer in *. cbn [dw_sink dw_position dw_stats dw_oa_partition_deletion]. by rewrite Hf.
  - intros tail Hl A emit final acc fuel Hfuel. rewrite <- !app_assoc in *. cbn [app] in *.
    unfold parse_one_partition_for_compaction, drive_partition_sliding.
    assert (Hne : is_empty (hd ++ bytes ++ END_OF_PARTITION :: tail) = false) by (by destruct hd, bytes).
    pose proof (header_readiness p _ _ _ eq_refl Hk Hd (bytes ++ END_OF_PARTITION :: tail)) as Hready.
    pose proof (header_scan p _ _ _ eq_refl Hk Hd (bytes ++ END_OF_PARTITION :: tail)) as Hscan.
    fold hd in Hready, Hscan. rewrite Hne, Hready. unfold parse_partition_header_full.
    replace (from_pos 0 (hd ++ bytes ++ END_OF_PARTITION :: tail)) with (hd ++ bytes ++ END_OF_PARTITION :: tail) by done.
    rewrite Hscan. cbn [mbind result_bind].
    replace (zlen (hd ++ bytes ++ END_OF_PARTITION :: tail) - zlen (bytes ++ END_OF_PARTITION :: tail)) with (zlen hd)
      by (rewrite zlen_app; lia).
    assert (Hu : is_u64 (zlen hd)).
    { rewrite zlen_app in Hl. pose proof (zlen_nonneg hd). pose proof (zlen_nonneg (bytes ++ END_OF_PARTITION :: tail)).
      unfold is_u64, u_range, i64_MAX in *. lia. }
    destruct (items_read emit final (Keys.key (pw_key w)) (pw_clock w) (pw_items w) tail 1 (zlen hd) Hok Hu Hkeyed)
      as (bytes' & Hw' & Hrd).
    assert (bytes' = bytes) as ->. { pose proof (Hw []) as E. rewrite (Hw' []) in E. by injection E. }
    destruct Hrd as [_ Hrd].
    { rewrite zlen_app in Hl. pose proof (zlen_nonneg hd). lia. }
    cbn [on_partition_open compaction_policy policy_new structure_only pending_range_start].
    unfold partition_image. set (key := Keys.key (pw_key w)) in *.
    rewrite !zlen_app. change (zlen [END_OF_PARTITION]) with 1. rewrite Z.add_assoc.
    destruct (pw_tombstone w) as [ts|]; cbn [deletion_pair fmap option_fmap option_map app];
      fold (policy key None); by apply Hrd.
Qed.

(** *** A block of partitions *)

Fixpoint write_partitions (dw : DataWriter) (ws : list PartitionWrite) : result Error DataWriter :=
  match ws with
  | [] => Ok dw
  | w :: ws =>
      '(dw, _) ← write_partition from_data_type schema dw (pw_key w) (pw_mutations w) (pw_tombstone w)
                   (pw_range_tombstones w) (pw_clock w) (Ok ());
      write_partitions dw ws
  end.

Definition block_fuel (ws : list PartitionWrite) : nat :=
  S (foldr (fun w n => S (length (pw_items w)) + n)%nat O ws).

Lemma collect_rows rows acc :
  emit_rows (tracking_emit (fun row results => Ok (Continue, results ++ [row]))) rows (acc, false)
  = Ok (acc ++ rows, false).
Proof.
  revert acc. induction rows as [|row rows IH]; intros acc; cbn [emit_rows]; [by rewrite app_nil_r|].
  change (tracking_emit _ row (acc, false)) with (Ok (E := Error) (Continue, (acc ++ [row], false))).
  cbn [mbind result_bind]. by rewrite IH, <- app_assoc.
Qed.

Lemma block_loop_reads ws : forall dw,
  has_static schema = false -> dw_stats dw = b -> dw_oa_partition_deletion dw = p_has_uint_deletion_time p ->
  Forall partition_ok ws ->
  exists bytes dw', write_partitions dw ws = Ok dw' /\ same_writer dw dw' /\ written dw' = written dw ++ bytes /\
    forall pre acc fuel, zlen (pre ++ bytes) <= i64_MAX -> (block_fuel ws <= fuel)%nat ->
      block_loop ck_name (fun row results => Ok (Continue, results ++ [row])) p schema header (pre ++ bytes) fuel
        (zlen pre) (acc, false)
      = Some (Ok (acc ++ flat_map partition_image ws)).
Proof.
  induction ws as [|w ws IH]; intros dw Hst Hb Hoa Hok.
  - exists [], dw. split; [done|]. split; [done|]. split; [by rewrite app_nil_r|].
    intros pre acc fuel _ Hf. unfold block_fuel in Hf. destruct fuel as [|fuel]; [cbn in Hf; lia|].
    cbn [block_loop flat_map]. rewrite app_nil_r, Z.ltb_irrefl. cbn [negb fst]. by rewrite app_nil_r.
  - apply Forall_cons in Hok as [Hw Hok].
    destruct (partition_reads w dw Hst Hb Hoa Hw) as (bytes & dw1 & E1 & Hs1 & Hw1 & _ & Hne & Hr).
    pose proof Hs1 as (Hs1a & Hs1b & Hs1c).
    destruct (IH dw1 Hst ltac:(by rewrite Hs1a) ltac:(by rewrite Hs1b) Hok) as (rest & dw2 & E2 & (Hs2a & Hs2b & Hs2c) & Hw2 & Hl).
    exists (bytes ++ rest), dw2. split; [cbn [write_partitions]; rewrite E1; exact E2|].
    split; [split; [congruence|split; congruence]|]. split; [by rewrite Hw2, Hw1, app_assoc|].
    intros pre acc fuel Hlen Hf. unfold block_fuel in Hf. cbn [foldr] in Hf. fold (block_fuel ws) in Hf.
    destruct fuel as [|fuel]; [lia|]. cbn [block_loop flat_map].
    assert (Hpos : 0 < zlen bytes) by (destruct bytes; [done|]; rewrite zlen_cons; pose proof (zlen_nonneg bytes); lia).
    assert (Hlt : (zlen pre <? zlen (pre ++ bytes ++ rest)) = true).
    { apply Z.ltb_lt. rewrite !zlen_app. pose proof (zlen_nonneg rest). lia. }
    rewrite Hlt. cbn [negb]. rewrite from_pos_app.
    rewrite Hr; [|rewrite zlen_app in Hlen; pose proof (zlen_nonneg pre); lia|lia].
    unfold handed_on. rewrite collect_rows. cbn [mbind result_bind fst snd].
    rewrite (proj2 (Z.eqb_neq _ _)) by lia. rewrite <- zlen_app, (app_assoc pre), Hl.
    + by rewrite app_assoc.
    + by rewrite <- app_assoc.
    + unfold block_fuel. lia.
Qed.

(** The walk over a block of partitions written one after another hands on the images of the
    partitions, and consumes all the bytes. *)
Lemma block_reads ws fuel :
  has_static schema = false -> Forall partition_ok ws -> (block_fuel ws <= fuel)%nat ->
  let dw := mkDataWriter [] None 0 b (p_has_uint_deletion_time p) in
  exists dw' bytes, write_partitions dw ws = Ok dw' /\ data_finish dw' = Ok bytes /\
    (zlen bytes <= i64_MAX ->
     parse_block_for_compaction ck_name p (Some schema) header fuel bytes = Some (Ok (flat_map partition_image ws))).
Proof.
  intros Hst Hok Hf dw. destruct (block_loop_reads ws dw Hst eq_refl eq_refl Hok) as (bytes & dw' & E & (_ & _ & Hs) & Hw & Hl).
  unfold written in Hw. cbn [dw dw_sink dw_buffer default app is_some] in Hw, Hs.
  exists dw', bytes. split; [done|]. split.
  { unfold data_finish. destruct (dw_sink dw'); [done|]. cbn [default app] in Hw. by rewrite Hw. }
  intros Hlen. unfold parse_block_for_compaction, parse_block_for_compaction_emit.
  specialize (Hl [] [] fuel Hlen Hf). cbn [app] in Hl. change (zlen (@nil Z)) with 0 in Hl.
  rewrite Hl. destruct bytes as [|x bytes]; [|done]. cbn [is_empty].
  destruct fuel as [|fuel]; [unfold block_fuel in Hf; lia|]. cbn [block_loop] in Hl. injection Hl as <-. done.
Qed.
End Items.

(** ** Two concrete partitions *)

#[local] Open Scope string_scope.
#[local] Open Scope list_scope.

Definition sample_debug_fmt : DebugFmt := fun _ => [].
Definition at_text (c : Z) : ClusteringKey := [("c", Text [c])].

(** A deleted partition with a newer row and a range deleted in front of it. *)
Definition sample_partition : PartitionWrite :=
  mkPartitionWrite (mkDecoratedKey 5 [1])
    [mkMutation (mkTableId "ks" "t") [] (Some (at_text 120)) [Write "v" (Integer (-7))] 6000000 None None [] None None None]
    (Some (mkPartTombstone 5000000 7))
    [mkRangeTombstone (Inclusive (at_text 97)) (Exclusive (at_text 98)) 5500000 8] (fun _ => 100).

(** Two ranges that meet. *)
Definition adjacent_ranges : PartitionWrite :=
  mkPartitionWrite (mkDecoratedKey 6 [2]) [] None
    [mkRangeTombstone (Inclusive (at_text 97)) (Exclusive (at_text 98)) 5500000 8;
     mkRangeTombstone (Inclusive (at_text 98)) Top 5600000 9] (fun _ => 100).

Lemma sample_bound_ok c : c = 97 \/ c = 98 ->
  let VS := scalar_serializer in bound_key_ok sample_comparator rows_schema (at_text c).
Proof.
  intros Hc VS. split; [done|]. split; [cbn; lia|]. split; [by vm_compute|].
  apply Forall2_cons_2; [|by apply Forall2_nil_2].
  destruct Hc as [-> | ->]; (split; [split; [by vm_compute|by repeat constructor]|by vm_compute]).
Qed.

Definition kept_row : RowWrite :=
  mkRowWrite (Some (at_text 120)) (Some 6000000) None None [mkMergedOp (Write "v" (Integer (-7))) 6000000 None 6] [].

Lemma sample_items :
  @pw_items rows_schema listed_order sample_debug_fmt sample_partition
  = [IMarker (Inclusive (at_text 97)) true 5500000 8; IMarker (Exclusive (at_text 98)) false 5500000 8; IRow kept_row].
Proof. vm_compute. reflexivity. Qed.

Lemma adjacent_items :
  @pw_items rows_schema listed_order sample_debug_fmt adjacent_ranges
  = [IMarker (Inclusive (at_text 97)) true 5500000 8;
     IBoundary EXCL_END_INCL_START_BOUNDARY (at_text 98) 5500000 8 5600000 9; IMarker Top false 5600000 9].
Proof. vm_compute. reflexivity. Qed.

Lemma sample_partitions_ok :
  let VS := scalar_serializer in let HO := listed_order in let DF := sample_debug_fmt in
  Forall (partition_ok sample_comparator rows_schema sample_baselines sample_parser) [sample_partition; adjacent_ranges].
Proof.
  intros VS HO DF. subst HO DF.
  assert (Hd : forall dt ldt, 5000000 <= dt < 2 ^ 63 -> 6 <= ldt < 2 ^ 31 -> deletion_ok sample_baselines dt ldt).
  { intros dt ldt H1 H2. split; [unfold is_i64, i_range; lia|]. split; [unfold is_i32, i_range; lia|].
    unfold ldt_below. cbn [sample_baselines enc_min_local_deletion_time]. rewrite (proj2 (Z.ltb_ge ldt 6)) by lia.
    by rewrite !andb_false_r. }
  apply Forall_cons_2; [|apply Forall_cons_2; [|by apply Forall_nil_2]]; split.
  - by vm_compute.
  - repeat split; by vm_compute.
  - rewrite sample_items. cbn [items_ok item_ok].
    split; [split; [apply sample_bound_ok; auto|split; [done|split; [done|apply Hd; lia]]]|].
    split; [split; [apply sample_bound_ok; auto|split; [done|split; [done|apply Hd; lia]]]|].
    split; [|done]. split; [|by repeat constructor].
    split; [done|apply (bool_decide_unpack _); by vm_compute| |split; by vm_compute|done|done|].
    + apply Forall_cons_2; [exists (mkColumn "v" "int" true None false)|by apply Forall_nil_2].
      split; [apply (bool_decide_unpack _); by vm_compute|]. split; [done|].
      split; [split; by vm_compute|]. split; [done|]. right. split; [by vm_compute|split; by vm_compute].
    + split; [done|]. split; [by vm_compute|]. apply Forall2_cons_2; [|by apply Forall2_nil_2].
      repeat split; try (by vm_compute). by repeat constructor.
  - rewrite sample_items. by repeat constructor.
  - by vm_compute.
  - done.
  - rewrite adjacent_items. cbn [items_ok item_ok].
    split; [split; [apply sample_bound_ok; auto|split; [done|split; [done|apply Hd; lia]]]|].
    split; [split; [by left|split; [apply sample_bound_ok; auto|split; [done|split; apply Hd; lia]]]|].
    split; [|done]. split; [done|split; [done|split; [done|apply Hd; lia]]].
  - rewrite adjacent_items. by repeat constructor.
Qed.

Lemma sample_block_reads :
  let VS := scalar_serializer in let CD := no_complex in let CW := no_complex_writer in
  let CR := no_complex_reader in let HO := listed_order in let DF := sample_debug_fmt in
  exists bytes, parse_block_for_compaction (fun _ => "ck") sample_parser (Some rows_schema) rows_header 9 bytes
    = Some (Ok
        [mkCompactionRow [1] 5000000 (CPartitionDelete 5000000 7);
         mkCompactionRow [1] 5500000 (CRangeMarker (CInclusive (at_text 97)) (CExclusive (at_text 98)) 5500000 8);
         mkCompactionRow [1] 6000000 (CLive [mkSimpleCell "c" (Text [120]) 6000000 None None;
                                       mkSimpleCell "v" (Integer (-7)) 6000000 None None] [] None
                                  (mkRowLiveness true None (Some 6000000)));
         mkCompactionRow [2] 5500000 (CRangeMarker (CInclusive (at_text 97)) (CExclusive (at_text 98)) 5500000 8);
         mkCompactionRow [2] 5600000 (CRangeMarker (CInclusive (at_text 98)) CTop 5600000 9)]).
Proof.
  intros VS CD CW CR HO DF.
  destruct (block_reads (VS := VS) (CD := CD) (CW := CW) (CR := CR) sample_comparator (fun _ => "ck") (fun t => t)
              rows_schema rows_header sample_baselines sample_parser) with (H := HO) (H0 := DF) (ws := [sample_partition; adjacent_ranges])
              (fuel := 9%nat) as (dw' & bytes & Hw & Hf & Hr).
  - split; done.
  - apply rows_table_ok.
  - apply (bool_decide_unpack _). by vm_compute.
  - done.
  - apply sample_partitions_ok.
  - apply Nat.leb_le. by vm_compute.
  - exists bytes. rewrite Hr.
    + vm_compute. reflexivity.
    + assert (L : match write_partitions (VS := VS) (CW := CW) sample_comparator rows_schema
                    (mkDataWriter [] None 0 sample_baselines false) [sample_partition; adjacent_ranges] with
                  | Ok dw => match data_finish dw with Ok bytes => (zlen bytes <=? i64_MAX)%Z | Err _ => false end
                  | Err _ => false
                  end = true) by (vm_compute; reflexivity).
      cbn [sample_parser p_has_uint_deletion_time] in Hw. rewrite Hw in L. rewrite Hf in L. by apply Z.leb_le.
Qed.

(** ** Where writer and reader part *)

(** What compaction reads of one partition. *)
Definition written_then_read (w : PartitionWrite) (fuel : nat) : option (result Error (list CompactionRow)) :=
  let VS := scalar_serializer in let CD := no_complex in let CW := no_complex_writer in
  let CR := no_complex_reader in let HO := listed_order in let DF := sample_debug_fmt in
  match write_partitions sample_comparator rows_schema (mkDataWriter [] None 0 sample_baselines false) [w] with
  | Ok dw => parse_block_for_compaction (fun _ => "ck") sample_parser (Some rows_schema) rows_header fuel (dw_buffer dw)
  | Err e => Some (Err e)
  end.

Definition insert_at (ck : ClusteringKey) (v ts : Z) : Mutation :=
  mkMutation (mkTableId "ks" "t") [] (Some ck) [Write "v" (Integer v)] ts None None [] None None None.

(** The writer takes keys of up to 65535 bytes, the reader one byte of their length: of a key
    of 300 bytes it takes the first 44 for the key, and the next twelve for the deletion of
    that partition, at a time that is in no mutation. *)
Example long_key_misread :
  match written_then_read (mkPartitionWrite (mkDecoratedKey 5 (replicate 300 7%Z)) [insert_at (at_text 120) 1 6000000]
                             None [] (fun _ => 100)) 400 with
  | Some (Ok (row :: _)) =>
      cr_key row = replicate 44 7%Z /\ cr_row_data row = CPartitionDelete 506381209866536711 117901063
  | _ => False
  end.
Proof. vm_compute. done. Qed.

(** A deleted row that is inserted again without cells: the merged row of one flush carries
    both, the newer insert and the deletion, and its bytes do, but compaction takes a
    deleted row without cells for a tombstone: the insert is lost. *)
Example reinserted_row_lost :
  let deleted := mkMutation (mkTableId "ks" "t") [] (Some (at_text 120)) [DeleteRow] 6000000 None None [] None None None in
  let inserted := mkMutation (mkTableId "ks" "t") [] (Some (at_text 120)) [] 7000000 None None [] None None None in
  let HO := listed_order in
  (fun row => (rw_liveness_ts row, rw_row_deletion row)) <$> merge_row_group [deleted; inserted] rows_schema false None
    = Some (Some 7000000, Some (6000000, 6)) /\
  written_then_read (mkPartitionWrite (mkDecoratedKey 5 [1]) [deleted; inserted] None [] (fun _ => 100)) 10
    = Some (Ok [mkCompactionRow [1] 7000000 (CTombstone 6000000 6 (at_text 120))]).
Proof. split; vm_compute; reflexivity. Qed.

(** ** A driver that does not end *)

(** A partition whose first unfiltered is the marker that ends where it starts. *)
Definition endless_partition : list Z := [0; 1; 7] ++ be_bytes 4 i32_MAX ++ be_bytes 8 i64_MIN ++ endless_marker.

Lemma endless_drive fuel start :
  let CD := no_complex in let CR := no_complex_reader in
  drive_rows (SlidingPartitionPolicy0 := compaction_policy (fun _ => "ck") sample_parser) (A := list CompactionRow * bool)
    sample_parser (tracking_emit (fun row results => Ok (Continue, (results ++ [row])%list))) endless_partition marker_schema
    (build_resolution marker_schema rows_header) true fuel 15 (policy [7] start) [] ([], false) = None.
Proof.
  intros CD CR. revert start. induction fuel as [|fuel IH]; intros start; [done|]. cbn [drive_rows].
  assert (E : from_pos 15 endless_partition = endless_marker) by (vm_compute; reflexivity).
  rewrite E. unfold endless_marker at 1. cbn [app].
  change (is_end_of_partition IS_MARKER) with false. change (is_range_tombstone_marker IS_MARKER) with true. cbv iota.
  assert (Em : exists dt ldt, parse_range_tombstone_marker_with_ldt sample_parser marker_schema endless_partition 15
            = Ok (mkMarker [] INCL_START_BOUND (dt, ldt) None, 15%Z)) by (eexists _, _; vm_compute; reflexivity).
  destruct Em as (dt & ldt & Em). cbn [on_range_marker compaction_policy]. rewrite Em. apply (IH (Some (CBottom, dt, ldt))).
Qed.

(** Compaction of these 31 bytes never returns: whatever the fuel, the driver runs out of it,
    because the announced size of the marker, 2^64 - 13, wraps past the bounds check. *)
Example endless_driver fuel :
  let CD := no_complex in let CR := no_complex_reader in
  parse_block_for_compaction (fun _ => "ck") sample_parser (Some marker_schema) rows_header fuel endless_partition = None.
Proof.
  intros CD CR. destruct fuel as [|fuel]; [done|].
  unfold parse_block_for_compaction, parse_block_for_compaction_emit.
  change (is_empty endless_partition) with false. cbv iota. cbn [block_loop].
  change (negb (0 <? zlen endless_partition)%Z) with false. cbv iota.
  change (from_pos 0 endless_partition) with endless_partition.
  assert (E : parse_one_partition_for_compaction (fun _ => "ck")
            (tracking_emit (fun row results => Ok (Continue, (results ++ [row])%list))) sample_parser marker_schema rows_header
            (S fuel) endless_partition true ([], false) = None); [|by rewrite E].
  apply (endless_drive (S fuel) None).
Qed.

(** *** Rows with a partial key

    A table of two clustering columns. *)
Definition pair_schema : TableSchema :=
  mkTableSchema "ks" "t" [mkKeyColumn "k" "int" 0]
    [mkClusteringColumn "c" "int" 0 Asc; mkClusteringColumn "d" "int" 1 Asc]
    [mkColumn "k" "int" false None false; mkColumn "c" "int" false None false; mkColumn "d" "int" false None false;
     mkColumn "v" "int" true None false] ∅ ∅.
Definition pair_header : list ColumnInfo :=
  [mkColumnInfo "k" "int" true None false false false; data_column "v" "int"].

Definition pair_read (ms : list Mutation) : option (result Error (list CompactionRow)) :=
  let VS := scalar_serializer in let CD := no_complex in let CW := no_complex_writer in
  let CR := no_complex_reader in let HO := listed_order in let DF := sample_debug_fmt in
  match write_partitions sample_comparator pair_schema (mkDataWriter [] None 0 sample_baselines false)
          [mkPartitionWrite (mkDecoratedKey 5 [1]) ms None [] (fun _ => 100)] with
  | Ok dw => parse_block_for_compaction (fun _ => "ck") sample_parser (Some pair_schema) pair_header 20 (dw_buffer dw)
  | Err e => Some (Err e)
  end.

Definition pair_mutation (ck : ClusteringKey) (ops : list CellOperation) (ts : Z) : Mutation :=
  mkMutation (mkTableId "ks" "t") [] (Some ck) ops ts None None [] None None None.

(** A row deletion that names only the first clustering column, which is what a DELETE with
    a partial key becomes, is written as a row with a shorter clustering prefix. The reader
    takes the column that is missing from the bytes behind it: of this partition it
    recovers nothing, and deletes one of a key that was never written. *)
Example partial_key_row_misread :
  let live := pair_mutation [("c", Integer 3); ("d", Integer 5)] [Write "v" (Integer 7)] 7000000 in
  let of_key key row := bool_decide (cr_key row = key) in
  (exists row, pair_read [live] = Some (Ok [row]) /\ cr_key row = [1]) /\
  match pair_read [pair_mutation [("c", Integer 3)] [DeleteRow] 6000000; live] with
  | Some (Ok rows) => existsb (of_key [1]) rows = false /\
      (exists dt ldt, head rows = Some (mkCompactionRow [6; 15; 207] dt (CPartitionDelete dt ldt)))
  | _ => False
  end.
Proof.
  split; [eexists; split; vm_compute; reflexivity|]. vm_compute. split; [reflexivity|]. do 2 eexists. reflexivity.
Qed.
