(* ===== verification/ItemProps.v ===== *)
(** The order of unfiltereds: the one-pass merge of rows and markers is the stable sort of
    both, boundaries are the adjacent bounds they replace, and what the writer's coverage
    test makes of a bound over a prefix of the clustering columns. *)

From S2P Require Import Prelude Values Keys Mutation Columns Rows Markers Items RangeTombstones.

Open Scope Z_scope.

(** ** Merging two sorted sequences *)

Section Merge.
Context {A : Type} (cmp : A -> A -> comparison) (P : A -> Prop) `{!OrdOn P cmp}.

Lemma merge_by_nil_r l : merge_by cmp l [] = l.
Proof. by destruct l. Qed.

(** A new least element of the first sequence enters by insertion. *)
Lemma merge_by_insert r : forall rows markers,
  P r -> Forall P rows -> Forall P markers -> Forall (le_by cmp r) rows ->
  merge_by cmp (r :: rows) markers = insert_by cmp r (merge_by cmp rows markers).
Proof.
  intros rows markers Hr Hrows Hm Hle. induction Hm as [|m markers Hm Hms IH].
  - rewrite merge_by_nil_r. destruct rows as [|r' rows]; [done|]. cbn.
    apply Forall_cons in Hle as [Hle _]. unfold le_by in Hle. by destruct (cmp r r').
  - cbn [merge_by] in *. destruct (cmp r m) eqn:E.
    3:{ rewrite IH. destruct rows as [|r' rows]; cbn [merge_by insert_by]; [by rewrite E|].
        assert (E' : cmp r' m = Gt).
        { apply Forall_cons in Hrows as [Hr' _], Hle as [Hle _].
          apply (on_gt_lt (P := P)); [done..|]. apply (on_gt_lt (P := P)) in E; [|done..].
          by apply (on_lt_le_trans (P := P) cmp m r r'). }
        rewrite E'. cbn [insert_by]. by rewrite E. }
    all: destruct rows as [|r' rows]; cbn [merge_by insert_by]; [by rewrite E|].
    all: apply Forall_cons in Hle as [Hle _]; unfold le_by in Hle.
    all: destruct (cmp r' m); cbn [insert_by]; rewrite ?E; try done; by destruct (cmp r r').
Qed.

Lemma sort_by_app l1 l2 : sort_by cmp (l1 ++ l2) = foldr (insert_by cmp) (sort_by cmp l2) l1.
Proof. unfold sort_by. by rewrite foldr_app. Qed.

Lemma merge_by_sort rows markers :
  Forall P rows -> Forall P markers -> StronglySorted (le_by cmp) rows ->
  merge_by cmp rows (sort_by cmp markers) = sort_by cmp (rows ++ markers).
Proof.
  intros Hr Hm Hs. rewrite sort_by_app. assert (Hsm : Forall P (sort_by cmp markers)) by by rewrite sort_by_perm.
  induction Hs as [|r rows Hs IH Hle]; [done|]. apply Forall_cons in Hr as [Hr Hrows].
  rewrite merge_by_insert by done. cbn [foldr]. by rewrite IH.
Qed.
End Merge.

(** ** The order of items *)

Section Order.
Context `{DebugFmt} (schema : TableSchema) (ts : list CTy).

(** Rows and bounds at values of the clustering types; the ends of the axis have none. *)
Definition sc_typed (c : SortClass) : Prop :=
  match sc_key c with
  | Some ck => sc_class c = 0 /\ ck_typed schema ts ck
  | None => sc_class c <> 0
  end.

Definition item_typed (item : PartitionItem) : Prop := sc_typed (sort_class item).

Definition key_cmp (a b : option ClusteringKey) : comparison :=
  match a, b with
  | None, None => Eq
  | None, Some _ => Lt
  | Some _, None => Gt
  | Some x, Some y => ck_schema_cmp schema x y
  end.

Definition key_typed (k : option ClusteringKey) : Prop := from_option (ck_typed schema ts) True k.

#[local] Instance key_cmp_ord : OrdOn key_typed key_cmp.
Proof.
  split.
  - intros [x|]; cbn; [|done]. apply (on_refl (P := ck_typed schema ts)).
  - intros [x|] [y|]; cbn; try done. apply (on_sym (P := ck_typed schema ts)).
  - intros [x|] [y|] [z|]; cbn; try done. apply (on_trans (P := ck_typed schema ts)).
  - intros [x|] [y|] [z|]; cbn; try done. apply (on_eq_l (P := ck_typed schema ts)).
Qed.

#[export] Instance sort_class_cmp_ord : OrdOn sc_typed (sort_class_cmp schema).
Proof.
  apply (ord_ext sc_typed
    (fun a b => then_with (sc_class a ?= sc_class b)
       (then_with (key_cmp (sc_key a) (sc_key b))
          (then_with (sc_weight a ?= sc_weight b) (sc_kind a ?= sc_kind b))))).
  { intros a b Ha Hb. unfold sort_class_cmp. destruct (Z.compare_spec (sc_class a) (sc_class b)) as [E|E|E]; try done.
    cbn [then_with]. unfold sc_typed in *. destruct (sc_key a), (sc_key b); try done; exfalso; lia. }
  assert (HZ : forall f : SortClass -> Z, OrdOn sc_typed (fun a b => f a ?= f b)).
  { intros f. by apply (ord_on sc_typed (fun _ => True) f Z.compare). }
  apply @ord_then; [apply HZ|]. apply @ord_then; [|apply @ord_then; apply HZ].
  apply (ord_on sc_typed key_typed sc_key key_cmp). intros c Hc. unfold sc_typed, key_typed in *.
  destruct (sc_key c); [apply Hc|done].
Qed.

#[export] Instance partition_item_cmp_ord : OrdOn item_typed (partition_item_cmp schema).
Proof. by apply (ord_on item_typed sc_typed sort_class (sort_class_cmp schema)). Qed.

(** [merge_rows_and_markers], one pass over the rows and the sorted bounds, yields the
    sequence that sorting rows and bounds together yields: for rows in clustering order and
    bounds over values of the clustering types, it agrees with [sort_partition_items] on the
    rows followed by the bounds. *)
Theorem merge_rows_and_markers_sorts rows range_tombstones :
  Forall item_typed rows -> Forall item_typed (markers_of range_tombstones) ->
  StronglySorted (le_by (partition_item_cmp schema)) rows ->
  merge_rows_and_markers schema rows range_tombstones
  = sort_partition_items schema (rows ++ markers_of range_tombstones).
Proof. intros. by apply (merge_by_sort (partition_item_cmp schema) item_typed). Qed.
End Order.

(** ** Concrete items *)

#[local] Open Scope string_scope.
#[local] Open Scope list_scope.

Lemma merge_rows_and_markers_sorts_witness :
  let DF : DebugFmt := fun _ => [] in
  let row n := IRow (mkRowWrite (Some (sample_ck n)) (Some 1) None None [] []) in
  let rts := [mkRangeTombstone (Inclusive (sample_ck 3)) (Exclusive (sample_ck 5)) 10 1] in
  merge_rows_and_markers asc_schema [row 1; row 4; row 5] rts
    = sort_partition_items asc_schema ([row 1; row 4; row 5] ++ markers_of rts).
Proof.
  intros DF row rts. apply (merge_rows_and_markers_sorts asc_schema [TInt]).
  - repeat apply Forall_cons_2; try apply Forall_nil_2; (split; [done|split; [done|cbn; auto]]).
  - repeat apply Forall_cons_2; try apply Forall_nil_2; (split; [done|split; [done|cbn; auto]]).
  - repeat apply SSorted_cons; try apply SSorted_nil; repeat apply Forall_cons_2; try apply Forall_nil_2; by vm_compute.
Defined.

(** A bound over the first of two clustering columns is compared as if the missing column
    were null, before every value: an exclusive start "c1 > 3" covers the rows with c1 = 3
    and an inclusive end "c1 <= 3" leaves them out, and the end marker goes before those
    rows. The merge, which reads a bound as a cut of the axis, decides both the other way. *)
Definition two_schema : TableSchema :=
  mkTableSchema "ks" "t" [mkKeyColumn "k" "int" 0]
    [mkClusteringColumn "c1" "int" 0 Asc; mkClusteringColumn "c2" "int" 1 Asc] [] ∅ ∅.

Example prefix_bound_misplaced :
  let DF : DebugFmt := fun _ => [] in
  let row : ClusteringKey := [("c1", Integer 3); ("c2", Integer 5)] in
  let above := mkRangeTombstone (Exclusive [("c1", Integer 3)]) Top 10 1 in
  let upto := mkRangeTombstone Bottom (Inclusive [("c1", Integer 3)]) 10 1 in
  Items.range_tombstone_covers two_schema above (Some row) = true /\
  Items.range_tombstone_covers two_schema upto (Some row) = false /\
  range_tombstone_covers_ck two_schema row above = false /\
  range_tombstone_covers_ck two_schema row upto = true /\
  partition_item_cmp two_schema (IMarker (Inclusive [("c1", Integer 3)]) false 10 1)
    (IRow (mkRowWrite (Some row) (Some 1) None None [] [])) = Lt.
Proof. repeat split; vm_compute; reflexivity. Qed.
