(* ===== verification/SessionProps.v ===== *)
(** The session writes what the whole-partition writer writes: whatever is flushed in
    between, the bytes, the index blocks and the counts of a partition fed row by row are
    those of [write_partition_with_index_blocks] on the same mutations. *)

From S2P Require Import Prelude Values VInt Keys Mutation Stats Cells Columns Rows Markers Items RowGroup StaticRows PartitionWriter Session RowProps CellProps MarkerProps RangeTombstones PartitionProps ItemProps PartitionRoundtrip.

Open Scope Z_scope.

(** ** An unfiltered is appended *)

Definition appended {A} (buf : list Z) (r : result Error (list Z * A)) : result Error (list Z * A) :=
  (fun '(bytes, a) => (buf ++ bytes, a)) <$> r.

Section Append.
Context {VS : ValueSerializer} {CW : ComplexWriter}.
Context (from_data_type : string -> result Error ComparatorType) (schema : TableSchema).

Lemma clustering_values_append : forall values keys buf,
  write_clustering_values from_data_type keys values buf
  = app buf <$> write_clustering_values from_data_type keys values [].
Proof.
  induction values as [|v values IH]; intros keys buf; cbn [write_clustering_values].
  - cbn. by rewrite app_nil_r.
  - destruct (is_null v); [apply IH|]. destruct keys as [|c keys]; [done|].
    destruct (from_data_type (cc_data_type c)) as [cmp|e]; cbn [mbind result_bind]; [|done].
    destruct (serialize_value_for_clustering v cmp) as [bytes|e]; cbn [mbind result_bind]; [|done].
    rewrite (IH keys (buf ++ bytes)), (IH keys ([] ++ bytes)).
    destruct (write_clustering_values from_data_type keys values []); cbn; [|done]. by rewrite app_assoc.
Qed.

Lemma clustering_prefix_append ck buf :
  write_clustering_prefix from_data_type ck schema buf = app buf <$> write_clustering_prefix from_data_type ck schema [].
Proof.
  unfold write_clustering_prefix. rewrite encode_unsigned_append, (clustering_values_append _ _ (buf ++ _)).
  rewrite (clustering_values_append _ _ (encode_unsigned _ [])).
  destruct (write_clustering_values _ _ _ []); cbn; [|done]. by rewrite app_assoc.
Qed.

Lemma write_row_append b buf row prev now :
  write_merged_row_with_prev_size from_data_type b buf row schema prev now
  = appended buf (write_merged_row_with_prev_size from_data_type b [] row schema prev now).
Proof.
  unfold write_merged_row_with_prev_size, appended. cbv zeta.
  assert (E : forall buf, match rw_clustering_key row with
                | Some ck => write_clustering_prefix from_data_type ck schema (buf ++ [row_flags schema row])
                | None => Ok (buf ++ [row_flags schema row])
                end = (fun p => buf ++ [row_flags schema row] ++ p)
                      <$> from_option (fun ck => write_clustering_prefix from_data_type ck schema []) (Ok []) (rw_clustering_key row)).
  { intros buf'. destruct (rw_clustering_key row) as [ck|]; cbn [from_option].
    - rewrite clustering_prefix_append. destruct (write_clustering_prefix _ ck schema []); cbn; [|done]. by rewrite <- app_assoc.
    - done. }
  rewrite !E. destruct (from_option _ _ (rw_clustering_key row)) as [pre|e]; cbn [fmap result_fmap mbind result_bind]; [|done].
  destruct (build_merged_row_body b row schema (row_flags schema row) now) as [[body cells]|e]; cbn [mbind result_bind fmap result_fmap]; [|done].
  rewrite encode_unsigned_append, (encode_unsigned_append _ (buf ++ _)).
  rewrite (encode_unsigned_append prev (encode_unsigned _ ([] ++ _))), (encode_unsigned_append _ ([] ++ _)).
  cbn [app]. by rewrite <- !app_assoc.
Qed.

Lemma write_item_append b buf item prev now :
  write_item from_data_type schema b buf item prev now = appended buf (write_item from_data_type schema b [] item prev now).
Proof.
  unfold appended. destruct item as [row|bound is_open dt ldt|kind ck edt eldt sdt sldt]; cbn [write_item].
  - rewrite write_row_append. unfold appended.
    by destruct (write_merged_row_with_prev_size from_data_type b [] row schema prev now) as [[bytes cells]|e].
  - unfold write_range_bound. destruct (bound_kind is_open bound) as [kind clustering]. cbn [app].
    destruct (from_option zlen 0 clustering >? u16_MAX); [done|].
    destruct clustering as [ck|]; cbn [from_option].
    + rewrite clustering_prefix_append, (clustering_prefix_append ck (_ :: _)).
      destruct (write_clustering_prefix from_data_type ck schema []) as [p|e]; cbn [fmap result_fmap mbind result_bind]; [|done].
      destruct (ldt_below b ldt); cbn [fmap result_fmap mbind result_bind]; [done|].
      rewrite marker_body_append, (marker_body_append _ _ (app _ _)). cbn [app]. by rewrite <- !app_assoc.
    + cbn [fmap result_fmap mbind result_bind]. destruct (ldt_below b ldt); cbn [fmap result_fmap mbind result_bind]; [done|].
      rewrite marker_body_append, (marker_body_append _ _ (_ :: _)). cbn [app]. by rewrite <- !app_assoc.
  - unfold write_range_boundary. cbn [app]. destruct (zlen ck >? u16_MAX); [done|].
    rewrite clustering_prefix_append, (clustering_prefix_append ck (_ :: _)).
    destruct (write_clustering_prefix from_data_type ck schema []) as [p|e]; cbn [fmap result_fmap mbind result_bind]; [|done].
    destruct (_ || _); cbn [fmap result_fmap mbind result_bind]; [done|].
    rewrite marker_body_append, (marker_body_append _ _ (app _ _)). cbn [app]. by rewrite <- !app_assoc.
Qed.
End Append.

(** ** The sequence of a session *)

Section Sequence.
Context `{DebugFmt} (schema : TableSchema).

(** A fed row: its position, and the row if anything is left of it. *)
Definition FedRow : Type := option ClusteringKey * option RowWrite.

(** The markers that go before the position. *)
Definition before_position (ck : option ClusteringKey) (marker : PartitionItem) : bool :=
  negb (bool_decide (partition_item_cmp schema marker (position_item ck) = Gt)).

Fixpoint take_while {A} (f : A -> bool) (l : list A) : list A :=
  match l with [] => [] | x :: l => if f x then x :: take_while f l else [] end.

Fixpoint drop_while {A} (f : A -> bool) (l : list A) : list A :=
  match l with [] => [] | x :: l' => if f x then drop_while f l' else l end.

Definition fed_items (row : option RowWrite) : list PartitionItem :=
  match row with Some r => [IRow r] | None => [] end.

Fixpoint session_items (rows : list FedRow) (pending : list PartitionItem) : list PartitionItem :=
  match rows with
  | [] => coalesce_boundaries schema pending
  | (ck, row) :: rows =>
      coalesce_boundaries schema (take_while (before_position ck) pending) ++ fed_items row
      ++ session_items rows (drop_while (before_position ck) pending)
  end.

Lemma take_drop_while {A} (f : A -> bool) l : take_while f l ++ drop_while f l = l.
Proof. induction l as [|x l IH]; cbn; [done|]. destruct (f x); cbn; [by rewrite IH|done]. Qed.

Lemma take_while_all {A} (f : A -> bool) l : Forall (fun x => f x = true) (take_while f l).
Proof. induction l as [|x l IH]; cbn; [constructor|]. destruct (f x) eqn:E; by constructor. Qed.

Lemma drop_while_head {A} (f : A -> bool) l x : head (drop_while f l) = Some x -> f x = false.
Proof. induction l as [|y l IH]; cbn; [done|]. destruct (f y) eqn:E; [done|]. by intros [= ->]. Qed.

(** Coalescing works on both sides of a cut that no pair straddles. *)
Definition no_pair (l1 l2 : list PartitionItem) : Prop :=
  forall x y, last l1 = Some x -> head l2 = Some y -> boundary_of schema x y = None.

Lemma coalesce_app l1 l2 :
  no_pair l1 l2 -> coalesce_boundaries schema (l1 ++ l2) = coalesce_boundaries schema l1 ++ coalesce_boundaries schema l2.
Proof.
  remember (length l1) as n eqn:E. assert (Hlen : (length l1 <= n)%nat) by lia. clear E.
  revert l1 Hlen. induction n as [|n IH]; intros [|x [|y l1]] Hlen Hn; try done; cbn in Hlen; try lia.
  - cbn [app coalesce_boundaries]. destruct l2 as [|y l2]; [done|]. by rewrite (Hn x y).
  - cbn [app]. cbn [coalesce_boundaries]. destruct (boundary_of schema x y).
    + cbn [app]. f_equal. apply IH; [lia|]. intros u v Hu Hv. apply Hn; [|done]. by destruct l1.
    + cbn [app]. f_equal. apply (IH (y :: l1)); [cbn; lia|]. intros u v Hu Hv. by apply Hn.
Qed.

Lemma row_no_pair_l r x : boundary_of schema (IRow r) x = None.
Proof. done. Qed.

Lemma row_no_pair_r x r : boundary_of schema x (IRow r) = None.
Proof. by destruct x as [?|? [] ? ?|]. Qed.

Lemma coalesce_row r l : coalesce_boundaries schema (IRow r :: l) = IRow r :: coalesce_boundaries schema l.
Proof. cbn [coalesce_boundaries]. by destruct l. Qed.

(** ** The order *)

Context (ts : list CTy).

Definition marker_typed (item : PartitionItem) : Prop :=
  match item with
  | IMarker bound _ _ _ =>
      match bound with Inclusive ck | Exclusive ck => ck_typed schema ts ck | _ => True end
  | _ => False
  end.

Lemma marker_item_typed m : marker_typed m -> item_typed schema ts m.
Proof. destruct m as [|bound is_open|]; [done| |done]. by destruct bound; cbn. Qed.

(** A marker is never level with a row. *)
Lemma marker_not_level m r : marker_typed m -> rw_clustering_key r <> None -> partition_item_cmp schema m (IRow r) <> Eq.
Proof.
  destruct m as [|bound is_open dt ldt|]; [done| |done]. intros _ Hr.
  unfold partition_item_cmp, sort_class_cmp. destruct (rw_clustering_key r) as [ck|] eqn:E; [|done].
  destruct bound, is_open; cbn; rewrite ?E; try done; by destruct (ck_schema_cmp _ _ _).
Qed.

(** A pair that coalesces stands on one side of every row. *)
Lemma pair_same_side x y o ck :
  marker_typed x -> marker_typed y -> ck_typed schema ts ck -> boundary_of schema x y = Some o ->
  before_position (Some ck) x = before_position (Some ck) y.
Proof.
  intros Hx Hy Hck Hb. unfold before_position. do 2 f_equal.
  enough (E : partition_item_cmp schema x (position_item (Some ck)) = partition_item_cmp schema y (position_item (Some ck))) by by rewrite E.
  destruct x as [|close [] ? ?|]; try done. destruct y as [|open [] ? ?|]; try done.
  cbn [boundary_of] in Hb.
  assert (Hsame : forall a b kind c, ck_typed schema ts a -> ck_typed schema ts b ->
    (if match ck_compare a b schema with Ok o => bool_decide (o = Eq) | Err _ => false end
     then Some (kind, c) else None) <> (None : option (Z * ClusteringKey)) ->
    ck_schema_cmp schema a ck = ck_schema_cmp schema b ck).
  { intros a b kind c Ha Hb' He. apply (on_eq_l (P := ck_typed schema ts)); [done..|]. unfold ck_schema_cmp.
    destruct (ck_compare a b schema) as [o'|]; [|done]. by case_bool_decide. }
  unfold partition_item_cmp, sort_class_cmp.
  destruct close as [c1|c1| |], open as [c2|c2| |]; cbn in Hb; try done; cbn in Hx, Hy; cbn.
  - rewrite (Hsame c1 c2 INCL_END_EXCL_START_BOUNDARY c1); [by destruct (ck_schema_cmp _ _ _)|done..|].
    intros E. by rewrite E in Hb.
  - rewrite (Hsame c1 c2 EXCL_END_INCL_START_BOUNDARY c2); [by destruct (ck_schema_cmp _ _ _)|done..|].
    intros E. by rewrite E in Hb.
Qed.
(** ** One pass over rows and markers *)

Local Abbreviation cmp := (partition_item_cmp schema).

#[local] Instance item_ord : OrdOn (item_typed schema ts) cmp := partition_item_cmp_ord schema ts.

Lemma merge_by_markers_first rows l1 l2 :
  Forall (fun m => forall r, head rows = Some r -> cmp r m = Gt) l1 ->
  merge_by cmp rows (l1 ++ l2) = l1 ++ merge_by cmp rows l2.
Proof.
  induction 1 as [|m l1 Hm Hl1 IH]; [done|]. destruct rows as [|r rows]; [done|].
  cbn [app merge_by] in *. by rewrite (Hm r), IH.
Qed.

Lemma merge_by_row_first r rows l :
  (forall m, head l = Some m -> cmp r m <> Gt) -> merge_by cmp (r :: rows) l = r :: merge_by cmp rows l.
Proof.
  intros Hl. destruct l as [|m l]; [by destruct rows|]. cbn [merge_by]. specialize (Hl m eq_refl). by destruct (cmp r m).
Qed.

Lemma merge_by_head rows l x : head (merge_by cmp rows l) = Some x -> head rows = Some x \/ head l = Some x.
Proof.
  destruct rows as [|r rows]; [by right|]. destruct l as [|m l]; [by left|]. cbn [merge_by].
  destruct (cmp r m); intros [= <-]; by (left + right).
Qed.

(** Rows at typed positions, in order; what is left of a row is at its position. *)
Definition fed_ok (row : FedRow) : Prop :=
  exists ck, row.1 = Some ck /\ ck_typed schema ts ck /\ (forall r, row.2 = Some r -> rw_clustering_key r = Some ck).

Definition fed_position (row : FedRow) : PartitionItem := position_item row.1.
Definition fed_rows (rows : list FedRow) : list PartitionItem := flat_map (fun row => fed_items row.2) rows.

Lemma fed_position_typed row : fed_ok row -> item_typed schema ts (fed_position row).
Proof. intros (ck & E & Htck & _). unfold fed_position. by rewrite E. Qed.

Lemma cmp_position ck r m : rw_clustering_key r = ck -> cmp (IRow r) m = cmp (position_item ck) m /\ cmp m (IRow r) = cmp m (position_item ck).
Proof. intros <-. done. Qed.

(** A marker before a position is before every row from there on. *)
Lemma before_rows row rows m :
  Forall fed_ok (row :: rows) -> StronglySorted (le_by cmp) (map fed_position (row :: rows)) ->
  marker_typed m -> before_position row.1 m = true ->
  forall r, head (fed_rows (row :: rows)) = Some r -> cmp r m = Gt.
Proof.
  intros Hok Hs Hm Hb r Hr.
  assert (Hin : exists fr, fr ∈ row :: rows /\ exists w, fr.2 = Some w /\ r = IRow w).
  { clear -Hr. revert Hr. generalize (row :: rows). intros l. unfold fed_rows. induction l as [|fr l IH]; [done|].
    cbn [flat_map]. destruct fr as [ck [w|]]; cbn.
    - intros [= <-]. exists (ck, Some w). split; [left|by exists w].
    - intros E. destruct (IH E) as (fr & Hin & H'). exists fr. split; [by right|done]. }
  destruct Hin as (fr & Hin & w & Ew & ->).
  pose proof (proj1 (Forall_forall _ _) Hok fr Hin) as (ck & Eck & Hck & Hkey).
  assert (Hw : cmp (IRow w) m = cmp (fed_position fr) m).
  { apply cmp_position. rewrite (Hkey w Ew). by rewrite Eck. }
  rewrite Hw. apply Forall_cons in Hok as [Hrow Hrows].
  pose proof (fed_position_typed _ Hrow) as Ht0. pose proof (marker_item_typed m Hm) as Htm.
  assert (Htf : item_typed schema ts (fed_position fr)) by (unfold fed_position; by rewrite Eck).
  assert (Hlt : cmp m (fed_position row) = Lt).
  { unfold before_position in Hb. apply negb_true_iff, bool_decide_eq_false in Hb.
    change (position_item row.1) with (fed_position row) in Hb.
    assert (cmp m (fed_position row) <> Eq).
    { destruct Hrow as (ck0 & E0 & _). unfold fed_position. rewrite E0. by apply (marker_not_level m (mkRowWrite (Some ck0) None None None [] []) Hm). }
    by destruct (cmp m (fed_position row)). }
  apply (on_gt_lt (P := item_typed schema ts) cmp); [done..|].
  cbn [map] in Hs. apply StronglySorted_inv in Hs as [_ Hle]. apply elem_of_cons in Hin as [->|Hin]; [done|].
  apply (on_lt_le_trans (P := item_typed schema ts) cmp m (fed_position row)); [done..|].
  rewrite Forall_forall in Hle. apply Hle. by apply list_elem_of_fmap_2.
Qed.

Lemma session_items_merge rows : forall pending,
  Forall fed_ok rows -> StronglySorted (le_by cmp) (map fed_position rows) -> Forall marker_typed pending ->
  session_items rows pending = coalesce_boundaries schema (merge_by cmp (fed_rows rows) pending).
Proof.
  induction rows as [|[ck row] rows IH]; intros pending Hok Hs Hp; [done|].
  cbn [session_items]. pose proof (take_drop_while (before_position ck) pending) as E.
  pose proof (take_while_all (before_position ck) pending) as Ht.
  pose proof (drop_while_head (before_position ck) pending) as Hd.
  revert E Ht Hd. generalize (take_while (before_position ck) pending), (drop_while (before_position ck) pending).
  intros l1 l2 <- Ht Hd.
  apply Forall_app in Hp as [Hp1 Hp2].
  rewrite IH; [|by apply Forall_cons in Hok as [_ ?]|by apply StronglySorted_inv in Hs as [? _]|done].
  assert (H1 : Forall (fun m => forall r, head (fed_rows ((ck, row) :: rows)) = Some r -> cmp r m = Gt) l1).
  { rewrite Forall_forall in Hp1, Ht |- *. intros m Hm. eapply before_rows; eauto. }
  rewrite merge_by_markers_first by done. cbn [fed_rows flat_map snd]. fold (fed_rows rows).
  apply Forall_cons in Hok as [(ck0 & E0 & Hck & Hkey) _]. cbn [fst snd] in *. subst ck.
  destruct row as [r|]; cbn [fed_items app].
  - rewrite merge_by_row_first, coalesce_app, coalesce_row; [done|..].
    + intros x y _ [= <-]. apply row_no_pair_r.
    + intros m Hm. specialize (Hd m Hm).
      assert (Htm : marker_typed m) by (destruct l2; [done|]; injection Hm as ->; by apply Forall_cons in Hp2 as [? _]).
      destruct (cmp_position (Some ck0) r m (Hkey r eq_refl)) as [-> _].
      unfold before_position in Hd. apply negb_false_iff, bool_decide_eq_true in Hd.
      apply (on_gt_lt (P := item_typed schema ts) cmp) in Hd; [by rewrite Hd|by apply marker_item_typed|done].
  - rewrite coalesce_app; [done|]. intros x y Hx Hy. apply merge_by_head in Hy as [Hy|Hy].
    + clear -Hy. induction rows as [|[ck [w|]] rows IH]; [done| |by apply IH]. injection Hy as <-. apply row_no_pair_r.
    + destruct (boundary_of schema x y) as [o|] eqn:Eb; [|done]. exfalso.
      apply last_Some_elem_of in Hx.
      assert (Hy' : marker_typed y) by (destruct l2; [done|]; injection Hy as ->; by apply Forall_cons in Hp2 as [? _]).
      rewrite Forall_forall in Hp1, Ht. pose proof (pair_same_side x y o ck0 (Hp1 x Hx) Hy' Hck Eb) as Hside.
      rewrite (Ht x Hx), (Hd y Hy) in Hside. done.
Qed.
End Sequence.

(** ** The session emits its sequence *)

Section Run.
Context {VS : ValueSerializer} {CW : ComplexWriter} `{DebugFmt} `{HashOrder}.
Context (from_data_type : string -> result Error ComparatorType).
Context (schema : TableSchema) (ts : list CTy) (io : nat -> result Error ()) (now : Z).

Local Abbreviation emit := (emit_item from_data_type schema io).

Fixpoint emit_items (items : list PartitionItem) (dw : DataWriter) (s : PartitionSession) :
    result Error (DataWriter * PartitionSession) :=
  match items with
  | [] => Ok (dw, s)
  | item :: items => '(dw, s) ← emit dw s item now; emit_items items dw s
  end.

Lemma emit_items_app l1 l2 dw s :
  emit_items (l1 ++ l2) dw s = '(dw, s) ← emit_items l1 dw s; emit_items l2 dw s.
Proof.
  revert dw s. induction l1 as [|item l1 IH]; intros dw s; [done|]. cbn [app emit_items].
  destruct (emit dw s item now) as [[dw' s']|e]; [apply IH|done].
Qed.

(** The pending markers are carried along. *)
Definition carrying (pending : list PartitionItem) (r : result Error (DataWriter * PartitionSession)) :
    result Error (DataWriter * PartitionSession) :=
  (fun '(dw, s) => (dw, with_pending pending s)) <$> r.

Lemma emit_item_carrying pending dw s item : emit dw (with_pending pending s) item now = carrying pending (emit dw s item now).
Proof.
  unfold emit_item, open_block. cbn [ps_first with_pending].
  assert (E : forall dw s, close_block io dw (with_pending pending s) = carrying pending (close_block io dw s)).
  { intros dw' s'. unfold close_block, carrying. cbv zeta.
    change (current_rel_offset (with_pending pending s') dw') with (current_rel_offset s' dw').
    change (ps_block_start (with_pending pending s')) with (ps_block_start s').
    change (ps_blocks (with_pending pending s')) with (ps_blocks s').
    destruct (_ >=? _); [|done]. by destruct (flush_partition _ dw'). }
  destruct (ps_first s); cbn [ps_prev_unfiltered_size with_block with_pending];
    (destruct (write_item _ _ _ _ _ _ _) as [[buffer counts]|e]; cbn [mbind result_bind]; [|done]);
    rewrite <- E; done.
Qed.

Lemma emit_items_carrying pending items dw s : emit_items items dw (with_pending pending s) = carrying pending (emit_items items dw s).
Proof.
  revert dw s. induction items as [|item items IH]; intros dw s; [done|]. cbn [emit_items].
  rewrite emit_item_carrying. destruct (emit dw s item now) as [[dw' s']|e]; [apply IH|done].
Qed.

(** What an unfiltered leaves alone. *)
Definition same_frame (s s' : PartitionSession) : Prop :=
  ps_partition_floor s' = ps_partition_floor s /\ ps_range_tombstones s' = ps_range_tombstones s
  /\ ps_pending s' = ps_pending s.

Lemma emit_item_frame dw s item dw' s' : emit dw s item now = Ok (dw', s') -> same_frame s s'.
Proof.
  unfold emit_item. destruct (write_item _ _ _ _ _ _ _) as [[buffer counts]|e]; cbn [mbind result_bind]; [|done].
  unfold close_block. cbv zeta. destruct (_ >=? _).
  - destruct (flush_partition _ _) as [d|e]; cbn [mbind result_bind]; [|done]. intros [= <- <-].
    unfold open_block. by destruct (ps_first s).
  - intros [= <- <-]. unfold open_block. by destruct (ps_first s).
Qed.

Lemma emit_items_frame items : forall dw s dw' s', emit_items items dw s = Ok (dw', s') -> same_frame s s'.
Proof.
  induction items as [|item items IH]; intros dw s dw' s'; cbn [emit_items]; [by intros [= <- <-]|].
  destruct (emit dw s item now) as [[d1 s1]|e] eqn:E; cbn [mbind result_bind]; [|done].
  intros H1%IH. apply emit_item_frame in E. unfold same_frame in *. destruct E as (?&?&?), H1 as (?&?&?). repeat split; congruence.
Qed.

(** The markers of one call are the coalesced markers up to the limit. *)
Definition within (before : option PartitionItem) (marker : PartitionItem) : bool :=
  negb (from_option (fun item => bool_decide (partition_item_cmp schema marker item = Gt)) false before).

Lemma emit_markers_items before pending : forall dw s,
  (forall x y o, x ∈ pending -> y ∈ pending -> boundary_of schema x y = Some o -> within before x = within before y) ->
  emit_markers from_data_type schema io now before pending dw s
  = carrying (drop_while (within before) pending)
      (emit_items (coalesce_boundaries schema (take_while (within before) pending)) dw s).
Proof.
  remember (length pending) as n eqn:E. assert (Hlen : (length pending <= n)%nat) by lia. clear E.
  revert pending Hlen. induction n as [|n IH]; intros [|x pending] Hlen dw s Hpair; try done; cbn in Hlen; try lia.
  assert (Hx : within before x = negb (from_option (fun item => bool_decide (partition_item_cmp schema x item = Gt)) false before)) by done.
  cbn [emit_markers take_while drop_while]. rewrite Hx.
  destruct (from_option _ false before); cbn [negb]; [done|].
  assert (Hsingle : forall l, coalesce_boundaries schema (x :: take_while (within before) pending)
            = x :: coalesce_boundaries schema (take_while (within before) pending) -> l = pending ->
    ('(dw, s) ← emit dw s x now; emit_markers from_data_type schema io now before l dw s)
    = carrying (drop_while (within before) pending)
        (emit_items (coalesce_boundaries schema (x :: take_while (within before) pending)) dw s)).
  { intros l -> ->. cbn [emit_items]. destruct (emit dw s x now) as [[d1 s1]|e]; cbn [mbind result_bind]; [|done].
    apply IH; [lia|]. intros u v o Hu Hv. apply Hpair; by right. }
  destruct pending as [|y rest]; [by apply Hsingle|].
  destruct (boundary_of schema x y) as [o|] eqn:Eb.
  - assert (Hy : within before y = true).
    { rewrite <- (Hpair x y o); [by rewrite Hx|left|right; left|done]. }
    cbn [take_while drop_while]. rewrite Hy. cbn [coalesce_boundaries]. rewrite Eb. cbn [emit_items].
    destruct (emit dw s o now) as [[d1 s1]|e]; cbn [mbind result_bind]; [|done].
    apply IH; [cbn in Hlen; lia|]. intros u v o' Hu Hv. apply Hpair; by do 2 right.
  - apply Hsingle; [|done]. cbn [take_while]. destruct (within before y); [|done].
    cbn [coalesce_boundaries]. by rewrite Eb.
Qed.

(** What [feed_row] makes of a mutation. *)
Definition fed (floor : option Z) (range_tombstones : list RangeTombstone) (m : Mutation) : FedRow :=
  (m_clustering_key m,
   merge_row_group [m] schema false (row_shadow_floor schema (m_clustering_key m) floor range_tombstones)).

Lemma session_run floor range_tombstones rows : forall dw s,
  Forall (marker_typed schema ts) (ps_pending s) ->
  Forall (fun m => exists ck, m_clustering_key m = Some ck /\ ck_typed schema ts ck) rows ->
  ps_partition_floor s = floor -> ps_range_tombstones s = range_tombstones ->
  ('(dw, s) ← feed_rows from_data_type schema io now rows dw s;
   finish from_data_type schema io dw s now)
  = '(dw, s) ← emit_items (session_items schema (map (fed floor range_tombstones) rows) (ps_pending s)) dw s;
    finish from_data_type schema io dw (with_pending [] s) now.
Proof.
  induction rows as [|m rows IH]; intros dw s Hp Hr Hf Ht; cbn [feed_rows map session_items].
  - cbn [mbind result_bind]. unfold finish at 1. rewrite emit_markers_items by done.
    assert (Hall : forall l, take_while (within None) l = l /\ drop_while (within None) l = [])
      by (induction l as [|x l [E1 E2]]; [done|]; cbn; split; [by f_equal|done]).
    destruct (Hall (ps_pending s)) as [-> ->].
    destruct (emit_items _ dw s) as [[d1 s1]|e]; [|done]. by cbn.
  - apply Forall_cons in Hr as [(ck & Eck & Hck) Hr]. unfold feed_row.
    rewrite emit_markers_items.
    2:{ intros x y o Hx Hy Hb. rewrite Forall_forall in Hp. rewrite Eck.
        by eapply (pair_same_side schema ts x y o ck); auto. }
    unfold fed at 1. change (within (Some (position_item (m_clustering_key m)))) with (before_position schema (m_clustering_key m)).
    pose proof (take_drop_while (before_position schema (m_clustering_key m)) (ps_pending s)) as Etd.
    rewrite emit_items_app. destruct (emit_items (coalesce_boundaries _ _) dw s) as [[d1 s1]|e] eqn:E1; cbn [carrying fmap result_fmap mbind result_bind]; [|done].
    apply emit_items_frame in E1 as (F1 & F2 & F3). rewrite Hf, Ht.
    assert (Hrest : Forall (marker_typed schema ts) (drop_while (before_position schema (m_clustering_key m)) (ps_pending s))).
    { rewrite <- Etd in Hp. by apply Forall_app in Hp as [_ ?]. }
    destruct (merge_row_group [m] schema false _) as [row|] eqn:Er; cbn [fed_items app emit_items].
    + rewrite emit_item_carrying. destruct (emit d1 s1 (IRow row) now) as [[d2 s2]|e] eqn:E2; cbn [carrying fmap result_fmap mbind result_bind]; [|done].
      apply emit_item_frame in E2 as (G1 & G2 & G3).
      rewrite (IH _ (with_pending _ s2)) by (cbn; done || congruence). cbn [ps_pending with_pending].
      rewrite emit_items_carrying. by destruct (emit_items _ d2 s2) as [[d3 s3]|e].
    + cbn [mbind result_bind]. rewrite (IH _ (with_pending _ s1)) by (cbn; done || congruence). cbn [ps_pending with_pending].
      rewrite emit_items_carrying. by destruct (emit_items _ d1 s1) as [[d3 s3]|e].
Qed.
End Run.

(** ** The session against the writer of whole partitions *)

(** Two writers that have produced the same bytes, one of them with more of it flushed. *)
Definition same_output (a b : DataWriter) : Prop :=
  dw_stats a = dw_stats b /\ dw_oa_partition_deletion a = dw_oa_partition_deletion b /\
  position a = position b /\
  match dw_sink a, dw_sink b with
  | None, None => dw_buffer a = dw_buffer b /\ dw_position a = dw_position b
  | Some x, Some y => x ++ dw_buffer a = y ++ dw_buffer b
  | _, _ => False
  end.

Lemma same_output_refl a : same_output a a.
Proof. unfold same_output. by destruct (dw_sink a). Qed.

Lemma flush_same_output a b : same_output a b -> flush_partition (Ok ()) a = flush_partition (Ok ()) b.
Proof.
  destruct a as [ba sa pa ea oa], b as [bb sb pb eb ob]. intros (E1 & E2 & E3 & E4). cbn in *. subst.
  unfold flush_partition. cbn. unfold position in E3. cbn in E3.
  destruct sa, sb; try done; [by rewrite E4, E3|]. by destruct E4 as [-> ->].
Qed.

Lemma same_output_append a b bytes :
  same_output a b -> same_output (with_buffer (dw_buffer a ++ bytes) a) (with_buffer (dw_buffer b ++ bytes) b).
Proof.
  intros (E1 & E2 & E3 & E4). repeat split; [done..| |].
  - unfold position in *. cbn. rewrite !zlen_app. lia.
  - cbn. destruct (dw_sink a), (dw_sink b); try done; [by rewrite !app_assoc, E4|]. by destruct E4 as [-> ->].
Qed.

Lemma flush_keeps_output a b d : same_output a b -> flush_partition (Ok ()) a = Ok d -> same_output d b.
Proof.
  intros (E1 & E2 & E3 & E4). unfold flush_partition. destruct (dw_sink a) as [x|] eqn:Ea; cbn.
  - intros [= <-]. unfold same_output, position in *. cbn. split_and!; [done..| |].
    + rewrite <- E3. unfold zlen. cbn. lia.
    + destruct (dw_sink b); [|done]. by rewrite app_nil_r.
  - intros [= <-]. unfold same_output. by rewrite Ea.
Qed.

Section Simulation.
Context {VS : ValueSerializer} {CW : ComplexWriter} `{DebugFmt}.
Context (from_data_type : string -> result Error ComparatorType).
Context (schema : TableSchema) (now : Z).
Context (dw0 : DataWriter) (buf_start : Z).

Local Abbreviation io := (fun _ : nat => Ok () : result Error ()).
Local Abbreviation emits := (emit_items from_data_type schema io now).
Local Abbreviation whole := (write_items_with_blocks from_data_type schema (dw_stats dw0) (fun _ => now)).

(** The session's state for the loop's. *)
Definition simulates (buffer : list Z) (prev : Z) (counts : PartitionEmitCounts) (st : BlockState)
    (dw : DataWriter) (s : PartitionSession) : Prop :=
  same_output dw (with_buffer buffer dw0) /\
  current_rel_offset s dw = zlen buffer - buf_start /\
  ps_prev_unfiltered_size s = prev /\ ps_emit s = counts /\
  ps_blocks s = bs_blocks st /\ ps_first s = bs_first st /\ ps_last s = bs_last st /\ ps_oss50 s = bs_oss50 st /\
  default (current_rel_offset s dw) (ps_block_start s) = bs_start st /\
  (is_some (ps_first s) = true -> is_some (ps_block_start s) = true).

Lemma open_block_simulates item buffer prev counts st dw s :
  simulates buffer prev counts st dw s ->
  simulates buffer prev counts (note_item from_data_type schema item st) dw
    (open_block from_data_type schema item (current_rel_offset s dw) s) /\
  is_some (bs_first (note_item from_data_type schema item st)) = true.
Proof.
  intros (H1 & H2 & H3 & H4 & H5 & H6 & H7 & H8 & H9 & H10). unfold open_block, note_item.
  rewrite H6 in *. destruct (bs_first st) as [f|] eqn:Ef; cbn; (split; [|done]);
    unfold simulates, current_rel_offset in *; cbn; split_and!; done.
Qed.

Lemma close_block_simulates buffer prev counts st dw s :
  simulates buffer prev counts st dw s ->
  exists dw' s', close_block io dw s = Ok (dw', s') /\
    simulates buffer prev counts (close_full_block (zlen buffer - buf_start) st) dw' s'.
Proof.
  intros Hsim. pose proof Hsim as (H1 & H2 & H3 & H4 & H5 & H6 & H7 & H8 & H9 & H10).
  unfold close_block, close_full_block. cbv zeta. rewrite H9, H2. destruct (_ >=? _); [|by eexists _, _].
  rewrite H5, H6, H7, H8.
  assert (Hfl : exists d, flush_partition (Ok ()) dw = Ok d) by (unfold flush_partition; destruct (dw_sink dw); by eexists).
  destruct Hfl as (d & Hd). rewrite Hd. cbn [mbind result_bind]. eexists _, _. split; [done|].
  assert (Hout : same_output d (with_buffer buffer dw0)) by (by eapply flush_keeps_output).
  assert (Hpos : position d = position dw) by (destruct H1 as (_ & _ & E & _), Hout as (_ & _ & E' & _); congruence).
  unfold simulates, current_rel_offset in *. cbn. rewrite Hpos. by split_and!.
Qed.

Lemma emit_item_simulates item buffer prev counts st dw s :
  simulates buffer prev counts st dw s ->
  match write_item from_data_type schema (dw_stats dw0) buffer item prev now with
  | Err e => emit_item from_data_type schema io dw s item now = Err e
  | Ok (buffer', c) =>
      exists dw' s', emit_item from_data_type schema io dw s item now = Ok (dw', s') /\
        simulates buffer' (zlen buffer' - zlen buffer) (add_counts counts c)
          (close_full_block (zlen buffer' - buf_start) (note_item from_data_type schema item st)) dw' s'
  end.
Proof.
  intros Hsim. destruct (open_block_simulates item _ _ _ _ _ _ Hsim) as [Ho Hsome]. unfold emit_item.
  set (s1 := open_block _ _ _ _ _) in *. set (st1 := note_item _ _ _ _) in *.
  pose proof Ho as (H1 & H2 & H3 & H4 & H5 & H6 & H7 & H8 & H9 & H10). rewrite H3.
  assert (Es : dw_stats dw = dw_stats dw0) by apply H1. rewrite Es.
  rewrite write_item_append, (write_item_append _ _ _ (dw_buffer dw)).
  destruct (write_item _ _ _ [] item prev now) as [[bytes c]|e]; cbn [appended fmap result_fmap mbind result_bind]; [|done].
  apply close_block_simulates. unfold simulates, current_rel_offset in *. cbn [ps_partition_offset note_written ps_prev_unfiltered_size ps_emit ps_blocks ps_first ps_last ps_oss50 ps_block_start].
  rewrite !zlen_app. split_and!; try done.
  - by apply (same_output_append _ _ bytes) in H1.
  - unfold position in *. cbn. rewrite zlen_app. lia.
  - lia.
  - by rewrite H4.
  - rewrite <- H6 in Hsome. specialize (H10 Hsome). by destruct (ps_block_start s1).
Qed.

Lemma emit_items_simulates items : forall buffer prev counts st dw s k,
  simulates buffer prev counts st dw s ->
  match whole k buf_start items buffer prev counts st with
  | Err e => emits items dw s = Err e
  | Ok (buffer', counts', st') =>
      exists dw' s' prev', emits items dw s = Ok (dw', s') /\ simulates buffer' prev' counts' st' dw' s'
  end.
Proof.
  induction items as [|item items IH]; intros buffer prev counts st dw s k Hsim; cbn [write_items_with_blocks emit_items].
  - by eexists _, _, _.
  - cbv zeta. pose proof (emit_item_simulates item _ _ _ _ _ _ Hsim) as Hi.
    destruct (write_item _ _ _ buffer item prev now) as [[buffer' c]|e]; cbn [mbind result_bind].
    + destruct Hi as (d & s' & -> & Hs). cbn [mbind result_bind]. by apply IH.
    + by rewrite Hi.
Qed.

(** The end of the partition. *)
Lemma finish_simulates buffer prev counts st dw s :
  simulates buffer prev counts st dw s ->
  finish from_data_type schema io dw (with_pending [] s) now
  = dw ← flush_partition (Ok ()) (with_buffer (buffer ++ [END_OF_PARTITION]) dw0);
    Ok (dw, (ps_partition_offset s, close_last_block (zlen (buffer ++ [END_OF_PARTITION]) - buf_start) st, counts)).
Proof.
  intros (H1 & H2 & H3 & H4 & H5 & H6 & H7 & H8 & H9 & H10). unfold finish. cbn [ps_pending with_pending emit_markers mbind result_bind].
  apply (same_output_append _ _ [END_OF_PARTITION]) in H1. cbn [dw_buffer with_buffer] in H1.
  rewrite (flush_same_output _ _ H1). change (with_buffer _ (with_buffer buffer dw0)) with (with_buffer (buffer ++ [END_OF_PARTITION]) dw0).
  destruct (flush_partition _ _) as [d|e]; cbn [mbind result_bind]; [|done]. do 2 f_equal.
  change (ps_first (with_pending [] (with_pending [] s))) with (ps_first s).
  change (ps_last (with_pending [] (with_pending [] s))) with (ps_last s).
  change (ps_block_start (with_pending [] (with_pending [] s))) with (ps_block_start s).
  change (ps_blocks (with_pending [] (with_pending [] s))) with (ps_blocks s).
  change (ps_oss50 (with_pending [] (with_pending [] s))) with (ps_oss50 s).
  change (ps_emit (with_pending [] (with_pending [] s))) with (ps_emit s).
  assert (Ec : current_rel_offset (with_pending [] (with_pending [] s)) (with_buffer (dw_buffer dw ++ [END_OF_PARTITION]) dw)
               = zlen (buffer ++ [END_OF_PARTITION]) - buf_start).
  { unfold current_rel_offset, position in *. cbn in *. rewrite !zlen_app. lia. }
  rewrite Ec. unfold close_last_block. rewrite H4, H5. change (ps_partition_offset (with_pending [] (with_pending [] s))) with (ps_partition_offset s).
  do 2 f_equal. rewrite H6, H7, H8. destruct (bs_first st) as [f|] eqn:Ef; [|done]. destruct (bs_last st) as [l|]; [|done].
  rewrite H6 in H10. specialize (H10 eq_refl). by destruct (ps_block_start s); cbn in H9; subst.
Qed.
End Simulation.

(** ** Mutations as compaction feeds them *)

Section Fed.
Context `{DebugFmt} `{HashOrder} (schema : TableSchema) (ts : list CTy).

(** A row of its own: a full clustering key, no operation on a static column. *)
Definition row_mutation (m : Mutation) : Prop :=
  (exists ck, m_clustering_key m = Some ck /\ full_ck schema ts ck) /\
  Forall (fun op => is_static_operation op schema = false) (m_operations m).

(** Later in the table's clustering order. *)
Definition row_before (m1 m2 : Mutation) : Prop :=
  partition_item_cmp schema (position_item (m_clustering_key m1)) (position_item (m_clustering_key m2)) = Lt.

Lemma row_mutation_typed m : row_mutation m -> exists ck, m_clustering_key m = Some ck /\ ck_typed schema ts ck.
Proof. intros [(ck & E & Hck & _) _]. by exists ck. Qed.

Lemma feed_mutation_no_static skip deletion_ts g m :
  Forall (fun op => is_static_operation op schema = false) (m_operations m) ->
  feed_mutation schema skip deletion_ts g m = feed_mutation schema false deletion_ts g m.
Proof.
  intros Hops. unfold feed_mutation.
  assert (E1 : feed_shadowed schema skip m g = feed_shadowed schema false m g).
  { unfold feed_shadowed. revert g. induction Hops as [|op ops Hop Hops IH]; intros g; [done|]. cbn [foldl].
    by rewrite Hop, andb_false_r. }
  assert (E2 : forall acc, foldl (feed_op schema skip deletion_ts m) acc (m_operations m)
                         = foldl (feed_op schema false deletion_ts m) acc (m_operations m)).
  { induction Hops as [|op ops Hop Hops IH]; intros acc; [done|]. cbn [foldl]. rewrite IH. f_equal.
    unfold feed_op. by rewrite Hop, andb_false_r. }
  by rewrite E1, E2.
Qed.

Lemma merge_row_group_no_static skip floor m :
  row_mutation m -> merge_row_group [m] schema skip floor = merge_row_group [m] schema false floor.
Proof. intros [_ Hops]. unfold merge_row_group. cbn [foldl]. by rewrite feed_mutation_no_static. Qed.

Lemma merge_row_group_key skip floor m row :
  merge_row_group [m] schema skip floor = Some row -> rw_clustering_key row = m_clustering_key m.
Proof.
  unfold merge_row_group. destruct (reconcile_streams _ _ _) as [[ops elements] whole]. cbv zeta.
  destruct (_ && _); [done|]. by intros [= <-].
Qed.

(** Rows in strict order are groups of one. *)
Lemma singleton_runs rows :
  Forall row_mutation rows -> StronglySorted row_before rows -> group_runs rows = map (fun m => [m]) rows.
Proof.
  intros Hr Hs. destruct rows as [|m rows]; [done|]. cbn [group_runs map].
  revert m Hr Hs. induction rows as [|m' rows IH]; intros m Hr Hs; [done|]. cbn [runs_from map].
  apply Forall_cons in Hr as [Hm Hr]. apply StronglySorted_inv in Hs as [Hs Hlt].
  assert (E : same_clustering_key (m_clustering_key m') (m_clustering_key m) = false).
  { apply Forall_cons in Hr as [Hm' _], Hlt as [Hlt _]. destruct Hm as [(ck & E & Hck) _], Hm' as [(ck' & E' & Hck') _].
    unfold row_before in Hlt. rewrite E, E' in *. cbn [same_clustering_key]. apply bool_decide_eq_false.
    rewrite (ck_cmp_schema_eq schema ts) by done. intros Heq. unfold partition_item_cmp, sort_class_cmp in Hlt. cbn in Hlt.
    rewrite (on_sym (P := ck_typed schema ts) (cmp := ck_schema_cmp schema) ck' ck), Heq in Hlt by (apply Hck || apply Hck'). done. }
  rewrite E. f_equal. by apply IH.
Qed.

Lemma merged_rows statics rows floor range_tombstones :
  Forall (fun m => is_static_row_mutation m schema = true) statics ->
  Forall row_mutation rows -> StronglySorted row_before rows ->
  map IRow (merge_clustering_rows (statics ++ rows) schema (has_static schema) floor range_tombstones)
  = fed_rows (map (fed schema floor range_tombstones) rows).
Proof.
  intros Hst Hr Hs. unfold merge_clustering_rows. rewrite List.filter_app.
  assert (E1 : List.filter (fun m => negb (is_static_row_mutation m schema)) statics = []).
  { induction Hst as [|m l Hm _ IH]; [done|]. cbn. by rewrite Hm. }
  assert (E2 : List.filter (fun m => negb (is_static_row_mutation m schema)) rows = rows).
  { clear Hs. induction Hr as [|m l [(ck & E & _) _] _ IH]; [done|]. cbn. unfold is_static_row_mutation at 1. rewrite E. cbn. by rewrite IH. }
  rewrite E1, E2. cbn [app]. rewrite singleton_runs by done. clear Hs E2.
  induction Hr as [|m l Hm _ IH]; [done|]. cbn [map].
  change (fed_rows (fed schema floor range_tombstones m :: map (fed schema floor range_tombstones) l))
    with (fed_items (fed schema floor range_tombstones m).2 ++ fed_rows (map (fed schema floor range_tombstones) l)).
  unfold fed at 1. cbn [snd omap list_omap head option_bind mbind].
  rewrite merge_row_group_no_static by done.
  destruct (merge_row_group [m] schema false _); cbn [fed_items map app]; by rewrite <- IH.
Qed.

Lemma collect_statics_only statics rows floor :
  Forall row_mutation rows ->
  collect_static_operations (statics ++ rows) schema floor = collect_static_operations statics schema floor.
Proof.
  intros Hr. unfold collect_static_operations. rewrite foldl_app. f_equal.
  generalize (foldl (tracker_feed schema floor) (∅ : StaticOpsTracker) statics). intros best.
  induction Hr as [|m l [_ Hops] _ IH]; [done|]. cbn [foldl]. rewrite <- IH at 2. f_equal. unfold tracker_feed.
  destruct (shadowed _ _); [done|]. induction Hops as [|op ops Hop _ IHo]; [done|]. cbn [foldl].
  unfold tracker_op at 2. by rewrite Hop.
Qed.

(** Any operation gives the static row its time. *)
Lemma static_liveness_some ops : ops <> [] -> exists l, static_liveness_from_ops ops = Some l.
Proof.
  destruct ops as [|op ops]; [done|]. intros _. unfold static_liveness_from_ops. cbn [foldl newest_liveness].
  generalize (smo_timestamp_micros op, smo_row_ttl_seconds op). intros l. revert l.
  induction ops as [|op' ops IH]; intros l; [by exists l|]. cbn [foldl]. unfold newest_liveness at 2.
  destruct l as [t ttl]. destruct (_ >=? t); apply IH.
Qed.
End Fed.

(** ** The partition *)

Section Partition.
Context {VS : ValueSerializer} {CW : ComplexWriter} `{DebugFmt} `{HashOrder}.
Context (from_data_type : string -> result Error ComparatorType).
Context (schema : TableSchema) (ts : list CTy).

Local Abbreviation row_mutation := (row_mutation schema ts).
Local Abbreviation row_before := (row_before schema).

Lemma sorted_markers_typed range_tombstones :
  Forall (marker_typed schema ts) (markers_of range_tombstones) ->
  Forall (marker_typed schema ts) (sort_partition_items schema (markers_of range_tombstones)).
Proof. intros Hm. unfold sort_partition_items. by rewrite sort_by_perm. Qed.

Lemma fed_all_ok floor range_tombstones rows :
  Forall row_mutation rows -> Forall (fed_ok schema ts) (map (fed schema floor range_tombstones) rows).
Proof.
  intros Hr. apply Forall_map. eapply Forall_impl; [exact Hr|]. intros m Hm.
  destruct (row_mutation_typed schema ts m Hm) as (ck & E & Hck). exists ck. split_and!; [done..|].
  intros r Er. unfold fed in Er. cbn [snd] in Er. rewrite (merge_row_group_key _ _ _ _ _ Er). done.
Qed.

Lemma fed_rows_sorted floor range_tombstones rows :
  Forall row_mutation rows -> StronglySorted row_before rows ->
  StronglySorted (le_by (partition_item_cmp schema)) (fed_rows (map (fed schema floor range_tombstones) rows)).
Proof.
  intros Hr. induction 1 as [|m rows Hs IH Hle]; [constructor|]. apply Forall_cons in Hr as [Hm Hr].
  specialize (IH Hr). cbn [map]. unfold fed_rows. cbn [flat_map fed snd]. fold (fed_rows (map (fed schema floor range_tombstones) rows)).
  destruct (merge_row_group [m] schema false _) as [row|] eqn:E; [|done]. cbn [fed_items app].
  apply SSorted_cons; [done|]. apply Forall_forall. intros x Hx. unfold fed_rows in Hx.
  apply list_elem_of_In, in_flat_map in Hx as (fr & Hin & Hx). apply in_map_iff in Hin as (m' & <- & Hin).
  unfold fed in Hx. cbn [snd] in Hx. destruct (merge_row_group [m'] schema false _) as [row'|] eqn:E'; [|done].
  destruct Hx as [<-|[]]. rewrite Forall_forall in Hle. apply list_elem_of_In in Hin. specialize (Hle m' Hin).
  unfold le_by, row_before in *. unfold partition_item_cmp in *. cbn [sort_class position_item rw_clustering_key] in *.
  apply merge_row_group_key in E, E'. by rewrite E, E', Hle.
Qed.

(** The items of the whole partition are the session's. *)
Lemma items_of_session statics rows floor range_tombstones :
  Forall (fun m => is_static_row_mutation m schema = true) statics ->
  Forall row_mutation rows -> StronglySorted row_before rows ->
  Forall (marker_typed schema ts) (markers_of range_tombstones) ->
  partition_items schema (statics ++ rows) floor range_tombstones
  = session_items schema (map (fed schema floor range_tombstones) rows)
      (sort_partition_items schema (markers_of range_tombstones)).
Proof.
  intros Hst Hr Hs Hm. unfold partition_items. rewrite (merged_rows schema ts) by done.
  rewrite (session_items_merge schema ts).
  - f_equal. unfold sort_partition_items.
    symmetry. apply (merge_by_sort (partition_item_cmp schema) (item_typed schema ts)).
    + apply Forall_forall. intros x Hx. unfold fed_rows in Hx.
      apply list_elem_of_In, in_flat_map in Hx as (fr & Hin & Hx).
      pose proof (fed_all_ok floor range_tombstones rows Hr) as Hok. rewrite Forall_forall in Hok.
      apply list_elem_of_In in Hin. destruct (Hok fr Hin) as (ck & E1 & Hck & Hkey).
      destruct fr.2 as [row|] eqn:E; [|done]. destruct Hx as [<-|[]]. unfold item_typed, sc_typed. cbn.
      by rewrite (Hkey row eq_refl).
    + eapply Forall_impl; [exact Hm|]. apply marker_item_typed.
    + by apply fed_rows_sorted.
  - by apply fed_all_ok.
  - clear Hst Hm. induction Hs as [|m rows Hs IH Hle]; [constructor|]. apply Forall_cons in Hr as [_ Hr]. cbn [map].
    apply SSorted_cons; [by apply IH|]. apply Forall_map, Forall_map. eapply Forall_impl; [exact Hle|].
    intros m' Hlt. unfold le_by, row_before in *. 
    change (partition_item_cmp schema (position_item (m_clustering_key m)) (position_item (m_clustering_key m')) <> Gt).
    by rewrite Hlt.
  - by apply sorted_markers_typed.
Qed.

(** The static row, or its absence. *)
Lemma static_prelude_fed dw s statics rows floor first_ts now :
  Forall row_mutation rows ->
  (if has_static schema
   then feed_static_row schema dw s (collect_static_operations statics schema floor) first_ts now else Ok (dw, s))
  = '(buffer, counts) ← write_static_prelude schema (dw_stats dw) (dw_buffer dw) (statics ++ rows) floor now;
    Ok (with_buffer buffer dw,
        note_written (ps_prev_unfiltered_size s + (zlen buffer - zlen (dw_buffer dw))) counts s).
Proof.
  intros Hr. unfold write_static_prelude. rewrite (collect_statics_only schema ts) by done.
  destruct (has_static schema); cbn [negb].
  - unfold feed_static_row. destruct (collect_static_operations statics schema floor) as [|op ops]; cbn [is_empty mbind result_bind]; [done|].
    destruct (static_liveness_some (op :: ops)) as ([t ttl] & ->); [done|]. cbn [default from_option id].
    match goal with |- context [write_static_row_with_prev_size ?a ?b ?c ?d ?e ?f ?g ?h] =>
      by destruct (write_static_row_with_prev_size a b c d e f g h) as [[buffer cells]|e'] end.
  - cbn [mbind result_bind]. destruct dw, s as [? ? ? ? ? [? ?] ? ? ? ? ?]. unfold note_written, with_buffer, add_counts. cbn.
    repeat f_equal; lia.
Qed.

Lemma header_frame dw key tombstone dw' :
  write_partition_header dw key tombstone = Ok dw' ->
  dw_position dw' = dw_position dw /\ exists bytes, dw_buffer dw' = dw_buffer dw ++ bytes.
Proof.
  unfold write_partition_header. destruct (_ >? _); [done|]. intros [= <-]. cbn. split; [done|]. by eexists.
Qed.

(** C5: [StreamingPartitionSession] and [write_partition_with_index_blocks] write the same
    partition. The session opens with the header, takes the reconciled static operations,
    then one clustering row at a time, interleaving the bounds of the range tombstones,
    coalescing an end with the start that meets it, and flushing its scratch after every
    64 KiB block; the whole-partition writer sorts and writes everything at once and flushes
    at the end. For static mutations and rows of full clustering keys in strict
    clustering order and bounds of keys, all of the columns' types, types that
    [compare_values] orders, one reading of the clock and a sink that
    accepts its writes, both return the same result: the same error, or the same bytes, the
    same partition offset, the same promoted-index blocks and the same counts. *)
Theorem session_writes_partition dw key tombstone range_tombstones statics rows first_ts now :
  let floor := pt_deletion_time <$> tombstone in
  Forall (fun m => is_static_row_mutation m schema = true) statics ->
  Forall row_mutation rows -> StronglySorted row_before rows ->
  Forall (marker_typed schema ts) (markers_of range_tombstones) ->
  write_partition_session from_data_type schema (fun _ => Ok ()) now dw key tombstone
    range_tombstones (collect_static_operations statics schema floor) first_ts rows
  = write_partition_with_index_blocks from_data_type schema dw key (statics ++ rows) tombstone
      range_tombstones (fun _ => now) (Ok ()).
Proof.
  intros floor Hst Hr Hs Hm. unfold write_partition_session, write_partition_with_index_blocks, begin_streaming_partition.
  fold floor. destruct (write_partition_header dw key tombstone) as [dwh|e] eqn:Eh; cbn [mbind result_bind]; [|done].
  apply header_frame in Eh as (Hpos & bytes & Hbuf).
  rewrite (static_prelude_fed _ _ statics rows) by done.
  destruct (write_static_prelude _ _ _ _ _ _) as [[buffer counts]|e]; cbn [mbind result_bind]; [|done].
  set (s1 := note_written _ _ _). set (dw1 := with_buffer buffer dwh).
  rewrite (session_run from_data_type schema ts _ now floor range_tombstones rows dw1 s1)
    by (done || by apply sorted_markers_typed || (eapply Forall_impl; [exact Hr|]; apply (row_mutation_typed schema ts))).
  rewrite items_of_session by done. change (ps_pending s1) with (sort_partition_items schema (markers_of range_tombstones)).
  assert (Hsim : simulates dwh (zlen (dw_buffer dw)) buffer (zlen buffer - zlen (dw_buffer dw)) counts
                   (mkBlockState [] (zlen buffer - zlen (dw_buffer dw)) None None None) dw1 s1).
  { unfold simulates. assert (Ec : current_rel_offset s1 dw1 = zlen buffer - zlen (dw_buffer dw))
      by (unfold current_rel_offset, s1, dw1, position; cbn; unfold position; lia).
    split_and!; try done; [apply same_output_refl|unfold s1; cbn; lia|by destruct counts]. }
  pose proof (emit_items_simulates from_data_type schema now dwh (zlen (dw_buffer dw))
    (session_items schema (map (fed schema floor range_tombstones) rows) (sort_partition_items schema (markers_of range_tombstones)))
    _ _ _ _ _ _ 1%nat Hsim) as Hrun.
  destruct (write_items_with_blocks _ _ _ _ _ _ _ _ _ _) as [[[buffer' counts'] st']|e]; cbn [mbind result_bind].
  - destruct Hrun as (dw2 & s2 & prev' & -> & Hsim2). cbn [mbind result_bind].
    rewrite (finish_simulates _ _ _ _ _ _ _ _ _ _ _ Hsim2).
    destruct (flush_partition _ _) as [d|e]; cbn [mbind result_bind]; [|done].
    assert (Eo : ps_partition_offset s2 = position dw); [|by rewrite Eo].
    destruct Hsim2 as ((_ & _ & Hp & _) & Hc & _). unfold current_rel_offset in Hc. unfold position in *. cbn in Hp. lia.
  - by rewrite Hrun.
Qed.
End Partition.

(** ** A concrete partition *)

#[local] Open Scope string_scope.
#[local] Open Scope list_scope.

Definition session_rows : list Mutation := [insert_at (at_text 97) 1 6000000; insert_at (at_text 98) 2 5700000; insert_at (at_text 99) 3 6000000].

Definition session_ranges : list RangeTombstone :=
  [mkRangeTombstone (Inclusive (at_text 98)) Top 5600000 9; mkRangeTombstone (Inclusive (at_text 97)) (Exclusive (at_text 98)) 5500000 8].

Lemma session_writes_partition_witness :
  let VS := scalar_serializer in let CW := no_complex_writer in let HO := listed_order in let DF := sample_debug_fmt in
  let dw := data_writer_with_sink sample_baselines in
  write_partition_session sample_comparator rows_schema (fun _ => Ok ()) 100 dw (mkDecoratedKey 5 [1])
    (Some (mkPartTombstone 5000000 7)) session_ranges (collect_static_operations [] rows_schema (Some 5000000)) 0 session_rows
  = write_partition_with_index_blocks sample_comparator rows_schema dw (mkDecoratedKey 5 [1]) session_rows
      (Some (mkPartTombstone 5000000 7)) session_ranges (fun _ => 100) (Ok ())
  /\ is_ok (write_partition_with_index_blocks sample_comparator rows_schema dw (mkDecoratedKey 5 [1]) session_rows
      (Some (mkPartTombstone 5000000 7)) session_ranges (fun _ => 100) (Ok ())) = true.
Proof.
  intros VS CW HO DF dw. split; [|by vm_compute].
  apply (session_writes_partition sample_comparator rows_schema [TText] dw (mkDecoratedKey 5 [1])
           (Some (mkPartTombstone 5000000 7)) session_ranges [] session_rows 0 100).
  - by apply Forall_nil_2.
  - assert (Hrow : forall c v t, row_mutation rows_schema [TText] (insert_at (at_text c) v t)).
    { intros c v t. split; [exists (at_text c); split; [done|]; repeat split|]; try done. by repeat constructor. }
    by repeat (apply Forall_cons_2; [apply Hrow|]).
  - repeat apply SSorted_cons; try apply SSorted_nil; repeat apply Forall_cons_2; try apply Forall_nil_2; by vm_compute.
  - repeat apply Forall_cons_2; try apply Forall_nil_2; repeat split; done.
Defined.
