(* ===== verification/SSTableProps.v ===== *)
(** The SSTable writer composed: the files of a finished table lead every key that was
    written, and no other, to its partition. *)

From S2P Require Import Prelude Values Murmur3 Keys Bloom Mutation Stats Cells CellProps Rows Markers RowGroup PartitionWriter.
From S2P Require Import MarkerProps RowProps PartitionRoundtrip SessionProps CrcProps IndexDb SummaryDb Crc SSTable IndexProps SummaryProps.

Open Scope Z_scope.

Section Written.
Context {VS : ValueSerializer} {CW : ComplexWriter} `{HashOrder} `{DebugFmt}.
Context (from_data_type : string -> result Error ComparatorType).
Context (schema : TableSchema) (b : EncodingStatsBaselines).

(** A partition to be written. *)
Record Part := mkPart { part_env : PartitionEnv; part_key : DecoratedKey; part_mutations : list Mutation }.

Fixpoint write_parts (parts : list Part) (w : SSTableWriter) : result Error SSTableWriter :=
  match parts with
  | [] => Ok w
  | p :: parts =>
      w ← ssw_write_partition from_data_type (part_env p) (part_key p) (part_mutations p) w;
      write_parts parts w
  end.

(** The bytes of a partition, as a writer in memory makes them, its blocks and its counts. *)
Definition partition_alone (p : Part) (bytes : list Z) (blocks : list PromotedIndexBlock) (emit : PartitionEmitCounts) : Prop :=
  let ms := sort_mutations schema (part_mutations p) in
  write_partition_with_index_blocks from_data_type schema (data_writer_new b) (part_key p) ms
    (newest_tombstone ms) (flat_map m_range_tombstones ms) (pe_row_clock (part_env p)) (Ok ())
  = Ok (mkDataWriter bytes None 0 b false, (0, blocks, emit)).

(** A writer to a file that holds [data], its scratch empty. *)
Definition sink_at (data : list Z) : DataWriter := mkDataWriter [] (Some data) (zlen data) b false.

Lemma streamed_partition p data dw' off blocks emit :
  let ms := sort_mutations schema (part_mutations p) in
  write_partition_with_index_blocks from_data_type schema (sink_at data) (part_key p) ms
    (newest_tombstone ms) (flat_map m_range_tombstones ms) (pe_row_clock (part_env p)) (pe_data_io (part_env p))
  = Ok (dw', (off, blocks, emit)) ->
  exists bytes, partition_alone p bytes blocks emit /\ off = zlen data /\ dw' = sink_at (data ++ bytes) /\
                zlen (key (part_key p)) <= u16_MAX.
Proof.
  cbv zeta. unfold partition_alone, write_partition_with_index_blocks, write_partition_header. cbv zeta.
  destruct (Z.gtb_spec (zlen (key (part_key p))) u16_MAX) as [|Hk]; [done|]. cbn [mbind result_bind].
  cbn [data_writer_new sink_at with_buffer dw_buffer dw_sink dw_position dw_stats dw_oa_partition_deletion].
  destruct (write_static_prelude _ _ _ _ _) as [[buffer counts]|]; [|done]. cbn [mbind result_bind].
  destruct (write_items_with_blocks _ _ _ _ _ _ _ _ _) as [[[buffer' emit'] s]|]; [|done]. cbn [mbind result_bind].
  unfold flush_partition. cbn [dw_sink dw_buffer dw_position dw_stats dw_oa_partition_deletion with_buffer].
  destruct (pe_data_io (part_env p)) as [[]|]; [|done]. cbn [mbind result_bind]. intros [= <- <- <- <-].
  exists (buffer' ++ [END_OF_PARTITION]). split; [done|].
  split; [unfold position; cbn [dw_position dw_buffer sink_at]; change (zlen []) with 0; lia|].
  split; [|done]. unfold sink_at. by rewrite (zlen_app data).
Qed.

(** ** What holds between partitions *)

(** Groups of 128 rows, the last one short. *)
Definition grouped (css : list Chunk) : Prop :=
  forall i c, css !! i = Some c -> zlen (chunk_rows c) <= 128 /\ ((S i < length css)%nat -> zlen (chunk_rows c) = 128).

Lemma grouped_count css c : grouped (css ++ [c]) -> zlen (chunks_rows (css ++ [c])) = 128 * zlen css + zlen (chunk_rows c).
Proof.
  intros Hg. rewrite chunks_rows_app, zlen_app. cbn [chunks_rows flat_map]. rewrite app_nil_r. f_equal.
  assert (Hall : Forall (fun c => zlen (chunk_rows c) = 128) css).
  { apply Forall_lookup. intros i d Hi. destruct (Hg i d) as [_ H1]; [by rewrite lookup_app_l by (by eapply lookup_lt_Some)|].
    apply H1. rewrite length_app. cbn. apply lookup_lt_Some in Hi. lia. }
  clear Hg. induction Hall as [|d css Hd _ IH]; [done|]. cbn [chunks_rows flat_map]. fold (chunks_rows css).
  rewrite zlen_app, zlen_cons, IH, Hd. lia.
Qed.

(** One more row: it opens a group and is sampled when the count is a multiple of 128. *)
Lemma grouped_snoc css r :
  grouped css ->
  exists css', grouped css' /\ chunks_rows css' = chunks_rows css ++ [r] /\
    chunk_samples 0 css'
    = chunk_samples 0 css
      ++ (if zlen (chunks_rows css) mod 128 =? 0
          then [mkSummaryEntry (key (ir_key r)) (zlen (file_bytes (chunks_rows css)))] else []).
Proof.
  intros Hg. destruct css as [|c css _] using rev_ind.
  { exists [(r, [])]. split; [|done]. intros [|i] c; [|done]. intros [= <-]. split; [done|]. cbn. lia. }
  pose proof (grouped_count css c Hg) as Hn.
  assert (Hc : 0 < zlen (chunk_rows c) <= 128).
  { destruct (Hg (length css) c) as [Hc _]; [by rewrite lookup_app_r, Nat.sub_diag by lia|]. split; [|done].
    unfold chunk_rows. rewrite zlen_cons. pose proof (zlen_nonneg c.2). lia. }
  assert (Hfull : forall i d, css !! i = Some d -> zlen (chunk_rows d) = 128).
  { intros i d Hi. destruct (Hg i d) as [_ H1]; [by rewrite lookup_app_l by (by eapply lookup_lt_Some)|].
    apply H1. rewrite length_app. cbn. apply lookup_lt_Some in Hi. lia. }
  destruct (decide (zlen (chunk_rows c) = 128)) as [E|E].
  - exists ((css ++ [c]) ++ [(r, [])]). split; [|split].
    + intros i d Hi. rewrite length_app. cbn [length]. apply lookup_app_Some in Hi as [Hi|[Hge Hi]].
      * assert (zlen (chunk_rows d) = 128); [|lia]. apply lookup_app_Some in Hi as [Hi|[Hge Hi]]; [by eapply Hfull|].
        destruct (i - length css)%nat as [|j]; [|done]. by injection Hi as <-.
      * destruct (i - length (css ++ [c]))%nat as [|j] eqn:Ei; [|done]. injection Hi as <-. split; [done|]. rewrite length_app in *. cbn in *. lia.
    + by rewrite (chunks_rows_app (css ++ [c])).
    + rewrite (chunk_samples_app (css ++ [c])). f_equal. rewrite Hn, E.
      replace (128 * zlen css + 128) with ((zlen css + 1) * 128) by lia. by rewrite Z.mod_mul by lia.
  - exists (css ++ [(c.1, c.2 ++ [r])]). split; [|split].
    + intros i d Hi. rewrite length_app. cbn [length]. apply lookup_app_Some in Hi as [Hi|[Hge Hi]].
      * rewrite (Hfull i d Hi). split; [done|]. done.
      * destruct (i - length css)%nat as [|j] eqn:Ei; [|done]. injection Hi as <-. split; [|lia].
        unfold chunk_rows in *. cbn [fst snd]. rewrite zlen_cons, zlen_app in *. change (zlen [r]) with 1. lia.
    + rewrite !chunks_rows_app. cbn [chunks_rows flat_map chunk_rows fst snd]. by rewrite !app_nil_r, <- app_assoc.
    + rewrite !chunk_samples_app. cbn [chunk_samples fst]. rewrite Hn.
      replace ((128 * zlen css + zlen (chunk_rows c)) mod 128) with (zlen (chunk_rows c)).
      2: { rewrite Z.add_comm, Z.mul_comm, Z.mod_add, Z.mod_small by lia. done. }
      rewrite (proj2 (Z.eqb_neq _ _)) by lia. by rewrite app_nil_r.
Qed.

(** The state after [parts]: their rows of Index.db, the groups of these, and the bytes. *)
Record Between (f0 : option BloomFilter) (parts : list Part) (rows : list IndexRow) (css : list Chunk)
    (data : list Z) (w : SSTableWriter) : Prop := {
  bt_fixed : ssw_schema w = schema /\ ssw_format w = Big /\ ssw_bti_pending w = None /\
             ssw_summary_sample_interval w = 128 /\ ssw_baselines_locked w = true;
  bt_data : ssw_data_writer w = sink_at data;
  bt_index : ssw_index_writer w = streaming_at (file_bytes rows) (zlen rows);
  bt_keys : map ir_key rows = map part_key parts;
  bt_sorted : StronglySorted (fun k k' => token k < token k') (map part_key parts);
  bt_last : ssw_last_token w = token <$> last (map part_key parts);
  bt_groups : grouped css /\ chunks_rows css = rows;
  bt_summary : sw_min_index_interval (ssw_summary_writer w) = 128 /\
               sw_entries (ssw_summary_writer w) = chunk_samples 0 css;
  bt_range : sw_first_key (ssw_summary_writer w) = key <$> head (map part_key parts) /\
             sw_last_key (ssw_summary_writer w) = key <$> last (map part_key parts);
  bt_count : ssw_summary_sample_counter w = zlen rows;
  bt_filter : (ssw_filter_writer w ≫= fw_bloom) = (fun f => foldl Bloom.insert f (map (fun p => key (part_key p)) parts)) <$> f0;
  bt_rows : forall i p r, parts !! i = Some p -> rows !! i = Some r ->
    zlen (key (part_key p)) <= u16_MAX /\
    exists bytes emit pre post, partition_alone p bytes (ir_blocks r) emit /\ data = pre ++ bytes ++ post /\ zlen pre = ir_offset r;
}.

Lemma add_streaming io file n k off blocks iw info :
  add_partition_with_promoted io (streaming_at file n) k off blocks = Ok (iw, info) ->
  iw = streaming_at (file ++ index_entry_bytes k off blocks) (n + 1) /\ iei_index_offset info = zlen file.
Proof.
  unfold add_partition_with_promoted, flush_entry. cbn [iw_counting iw_sink iw_buffer iw_position iw_entry_count streaming_at app].
  destruct io as [[]|]; [|done]. cbn [mbind result_bind]. intros [= <- <-]. cbn [iw_sink iw_buffer iw_counting iw_position iw_entry_count iei_index_offset].
  unfold streaming_at. rewrite zlen_app. split; [done|]. change (zlen []) with 0. lia.
Qed.

Lemma tokens_snoc ks k :
  StronglySorted (fun k k' => token k < token k') ks -> from_option (fun t => token k <=? t) false (token <$> last ks) = false ->
  StronglySorted (fun k k' => token k < token k') (ks ++ [k]).
Proof.
  intros Hs Hl. induction Hs as [|x ks Hs IH Hf]; [repeat constructor|]. cbn [app]. rewrite last_cons in Hl.
  destruct (last ks) as [z|] eqn:Ez; cbn in Hl.
  - assert (token x < token z).
    { rewrite Forall_forall in Hf. apply Hf. apply last_Some in Ez as [l' ->]. apply elem_of_app. right. by left. }
    constructor; [by apply IH|]. apply Forall_app. split; [done|]. apply Forall_singleton. lia.
  - apply last_None in Ez as ->. cbn. constructor; [repeat constructor|]. apply Forall_singleton. lia.
Qed.

Lemma between_step f0 parts rows css data w p w' :
  Between f0 parts rows css data w ->
  ssw_write_partition from_data_type (part_env p) (part_key p) (part_mutations p) w = Ok w' ->
  exists r css' data', Between f0 (parts ++ [p]) (rows ++ [r]) css' data' w'.
Proof.
  intros [(Hsc & Hfm & Hbti & Hint & Hlk) Hdw Hiw Hkeys Hsort Hlast [Hgr Hcss] [Hmi Hse] [Hfk Hlk2] Hcnt Hfil Hrows].
  unfold ssw_write_partition, enter_partition. rewrite Hlast.
  destruct (from_option _ false _) eqn:Etok; [done|]. cbn [mbind result_bind]. cbv zeta.
  unfold fold_mutations. cbn [ssw_schema with_stats with_data_writer ssw_baselines_locked ssw_data_writer ssw_stats].
  rewrite Hlk, Hsc, Hdw. destruct (write_partition_with_index_blocks _ _ _ _ _ _ _ _ _) as [[dw' [[off blocks] emit]]|] eqn:Ew; [|done].
  apply streamed_partition in Ew as (bytes & Halone & -> & -> & Hk). cbn [mbind result_bind].
  unfold register_partition. cbn [ssw_index_writer with_data_writer with_stats ssw_data_writer ssw_stats]. rewrite Hiw.
  destruct (add_partition_with_promoted _ _ _ _ _) as [[iw info]|] eqn:Ei; [|done]. apply add_streaming in Ei as [-> Hoff].
  cbn [mbind result_bind].
  cbn [ssw_schema ssw_summary_writer ssw_summary_sample_counter ssw_summary_sample_interval ssw_filter_writer ssw_last_token ssw_partition_count ssw_baselines_locked ssw_format ssw_bti_pending].
  intros [= <-]. set (r := mkIndexRow (part_key p) (zlen data) blocks).
  destruct (grouped_snoc css r Hgr) as (css' & Hgr' & Hcss' & Hsamp). exists r, css', (data ++ bytes).
  assert (Hlen : length rows = length parts) by (rewrite <- (length_map ir_key), Hkeys, length_map; done).
  constructor; cbn [ssw_schema ssw_data_writer ssw_index_writer ssw_summary_writer ssw_filter_writer ssw_summary_sample_counter ssw_summary_sample_interval ssw_last_token ssw_baselines_locked ssw_format ssw_bti_pending].
  - rewrite Hbti. done.
  - done.
  - rewrite file_bytes_app, zlen_app. cbn [file_bytes flat_map]. by rewrite app_nil_r.
  - by rewrite !map_app, Hkeys.
  - rewrite map_app. by apply tokens_snoc.
  - rewrite map_app. cbn [map]. by rewrite last_snoc.
  - split; [done|]. by rewrite Hcss', Hcss.
  - rewrite Hint, Hcnt, Hsamp, Hcss. destruct (zlen rows mod 128 =? 0); cbn [sw_min_index_interval sw_entries note_partition add_entry].
    + by rewrite Hmi, Hse, Hoff.
    + by rewrite Hmi, Hse, app_nil_r.
  - rewrite map_app. cbn [map]. rewrite last_snoc. destruct (ssw_summary_sample_counter w mod _ =? 0); cbn [sw_first_key sw_last_key note_partition add_entry]; rewrite Hfk;
      (split; [|done]); by destruct parts.
  - by rewrite Hcnt, zlen_app.
  - rewrite map_app. destruct (ssw_filter_writer w) as [fw|]; cbn [fmap option_fmap option_map mbind option_bind] in *.
    + unfold add_key. cbn [fw_bloom]. rewrite Hfil. destruct f0 as [f|]; [|done]. cbn. by rewrite foldl_app.
    + destruct f0; [done|]. done.
  - intros i q s Hi Hj. apply lookup_app_Some in Hi as [Hi|[Hge Hi]].
    + assert (Hlt := lookup_lt_Some _ _ _ Hi). rewrite lookup_app_l in Hj by lia. destruct (Hrows i q s Hi Hj) as (Hkq & bs & em & pre & post & Ha & -> & Hp).
      split; [done|]. exists bs, em, pre, (post ++ bytes). by rewrite <- !app_assoc.
    + destruct (i - length parts)%nat as [|j] eqn:Ei; [|done]. injection Hi as <-.
      rewrite lookup_app_r in Hj by lia. replace (i - length rows)%nat with 0%nat in Hj by lia. injection Hj as <-.
      split; [done|]. exists bytes, emit, data, []. by rewrite app_nil_r.
Qed.

Lemma between_parts f0 more : forall parts rows css data w w',
  Between f0 parts rows css data w -> write_parts more w = Ok w' ->
  exists rows' css' data', Between f0 (parts ++ more) rows' css' data' w'.
Proof.
  induction more as [|p more IH]; intros parts rows css data w w' Hb Hw.
  { injection Hw as <-. exists rows, css, data. by rewrite app_nil_r. }
  cbn [write_parts] in Hw. destruct (ssw_write_partition _ _ _ _ _) as [w1|] eqn:E; [|done]. cbn [mbind result_bind] in Hw.
  destruct (between_step _ _ _ _ _ _ _ _ Hb E) as (r & css1 & data1 & Hb1).
  destruct (IH _ _ _ _ _ _ Hb1 Hw) as (rows' & css' & data' & Hb'). rewrite <- app_assoc in Hb'. by exists rows', css', data'.
Qed.

Lemma between_new `{FloatOps} expected fp f0 w0 ts ldt ttl :
  with_format schema expected fp Big = Ok w0 -> (ssw_filter_writer w0 ≫= fw_bloom) = f0 ->
  b = mkEncodingStatsBaselines ts ttl ldt ->
  Between f0 [] [] [] [] (ssw_pre_seed_encoding_baselines ts ldt ttl w0).
Proof.
  unfold with_format. destruct (filter_writer_new _ _) as [fw|]; [|done]. cbn [mbind result_bind]. intros [= <-] Hf Hb.
  constructor; try done.
  - unfold sink_at. by rewrite Hb.
  - constructor.
  - rewrite <- Hf. cbn. by destruct (fw_bloom fw).
Qed.

(** ** The finished files *)

Lemma payload_within r : zlen (default [] (promoted_payload r)) <= zlen (row_bytes r).
Proof.
  unfold promoted_payload, row_bytes, index_entry_bytes. cbv zeta.
  destruct (zlen (ir_blocks r) >=? 2); cbn [default from_option id]; [|change (zlen []) with 0; apply zlen_nonneg].
  rewrite zlen_app. match goal with |- _ <= zlen ?a + _ => pose proof (zlen_nonneg a) end. lia.
Qed.

Lemma row_within r rows : r ∈ rows -> zlen (row_bytes r) <= zlen (file_bytes rows).
Proof.
  intros Hr. apply list_elem_of_split in Hr as (l1 & l2 & ->). rewrite file_bytes_app, zlen_app. cbn [file_bytes flat_map].
  rewrite zlen_app. fold (file_bytes l2). pose proof (zlen_nonneg (file_bytes l1)). pose proof (zlen_nonneg (file_bytes l2)). lia.
Qed.

Lemma sample_positions css : forall start,
  Forall (fun e => start <= se_position e <= start + zlen (file_bytes (chunks_rows css))) (chunk_samples start css).
Proof.
  induction css as [|c css IH]; intros start; [constructor|]. cbn [chunk_samples chunks_rows flat_map]. fold (chunks_rows css).
  rewrite file_bytes_app, zlen_app. pose proof (zlen_nonneg (file_bytes (chunk_rows c))). pose proof (zlen_nonneg (file_bytes (chunks_rows css))).
  apply Forall_cons_2; [cbn [se_position]; lia|]. eapply Forall_impl; [apply IH|]. cbn [se_position]. intros e He. cbv beta in *. lia.
Qed.

Lemma summary_length w : sw_entries w <> [] ->
  zlen (sw_entries w) * 4 + zlen (entry_data (sw_entries w)) <= zlen (summary_finish w).
Proof.
  intros Hne. unfold summary_finish. destruct (sw_entries w) as [|e es] eqn:E; [done|]. rewrite <- E. replace (is_empty (sw_entries w)) with false by by rewrite E.
  cbv zeta. fold (entry_data (sw_entries w)). rewrite !zlen_app.
  assert (Ho : forall start l, length (entry_offsets start l) = length l) by (intros start l; revert start; induction l; intros; cbn; auto).
  assert (Hf : zlen (flat_map (le_bytes 4) (entry_offsets (zlen (sw_entries w) * 4) (sw_entries w))) = zlen (sw_entries w) * 4).
  { unfold zlen at 1. rewrite (flat_map_constant_length (c := 4)) by (intros; apply le_bytes_length). rewrite Ho. unfold zlen. lia. }
  rewrite Hf. repeat match goal with |- context [zlen (length_prefixed ?k)] => pose proof (zlen_nonneg (length_prefixed k)); generalize dependent (zlen (length_prefixed k)); intros end.
  match goal with |- context [zlen (write_header ?a ?b ?c)] => pose proof (zlen_nonneg (write_header a b c)) end. lia.
Qed.

(** A key with its own token, which is not empty. *)
Definition key_ok (k : DecoratedKey) : Prop :=
  key k <> [] /\ Forall is_byte (key k) /\ token k = cassandra_murmur3_token (key k).

Lemma rows_sorted rows :
  Forall (fun r => key_ok (ir_key r)) rows -> StronglySorted (fun k k' => token k < token k') (map ir_key rows) ->
  StronglySorted row_lt rows.
Proof.
  induction 1 as [|r rows (_ & _ & Hr) Hrows IH]; intros Hs; [constructor|]. cbn [map] in Hs. apply StronglySorted_inv in Hs as [Hs Hf].
  constructor; [by apply IH|]. apply Forall_forall. intros x Hx. rewrite Forall_forall in Hf. rewrite Forall_forall in Hrows. unfold row_lt, cmp_partition_keys_by_token.
  destruct (Hrows x Hx) as (_ & _ & Hxt). specialize (Hf (ir_key x) ltac:(apply list_elem_of_fmap; eauto)).
  rewrite <- Hr, <- Hxt. by apply Z.compare_lt_iff in Hf as ->.
Qed.

Lemma between_sampled f0 parts rows css data w :
  Between f0 parts rows css data w -> parts <> [] -> Forall (fun p => key_ok (part_key p)) parts ->
  zlen data < 2 ^ 63 -> zlen (file_bytes rows) < 2 ^ 63 -> Sampled 128 css.
Proof.
  intros [_ _ _ Hkeys Hsort _ [Hgr Hcss] _ _ _ _ Hrows] Hne Hk Hd Hi.
  assert (Hlen : length rows = length parts) by (rewrite <- (length_map ir_key), Hkeys, length_map; done).
  assert (Hrk : Forall (fun r => key_ok (ir_key r)) rows).
  { apply Forall_forall. intros r Hr. assert (Hin : ir_key r ∈ map part_key parts) by (rewrite <- Hkeys; apply list_elem_of_fmap; eauto).
    apply list_elem_of_fmap in Hin as (p & -> & Hp). rewrite Forall_forall in Hk. by apply Hk. }
  constructor.
  - intros ->. cbn in Hcss. subst rows. destruct parts; [done|discriminate].
  - rewrite Hcss. apply rows_sorted; [done|]. by rewrite Hkeys.
  - rewrite Hcss. apply Forall_lookup. intros i r Hr. assert (Hl : (i < length parts)%nat) by (rewrite <- Hlen; by eapply lookup_lt_Some).
    apply lookup_lt_is_Some in Hl as [p Hp]. destruct (Hrows i p r Hp Hr) as (Hpk & bytes & emit & pre & post & _ & -> & Hoff).
    assert (Er : ir_key r = part_key p).
    { assert (E := f_equal (fun l => l !! i) Hkeys). cbn in E. rewrite !list_lookup_fmap, Hr, Hp in E. by injection E. }
    rewrite Forall_lookup in Hrk. destruct (Hrk i r Hr) as (H1 & H2 & _). rewrite zlen_app in Hd.
    pose proof (zlen_nonneg pre). pose proof (zlen_nonneg (bytes ++ post)).
    constructor; [by rewrite Er|done|done|unfold is_u64, u_range; lia|].
    pose proof (payload_within r). pose proof (row_within r rows ltac:(by eapply list_elem_of_lookup_2)). lia.
  - apply Forall_lookup. intros i c Hc. by destruct (Hgr i c Hc).
  - lia.
Qed.

Lemma find_none_key k rows : (forall r, r ∈ rows -> key (ir_key r) <> k) -> List.find (row_has_key k) rows = None.
Proof.
  induction rows as [|r rows IH]; intros Hn; [done|]. cbn [List.find]. unfold row_has_key at 1.
  rewrite bool_decide_eq_false_2 by (apply Hn; by left). apply IH. intros x Hx. apply Hn. by right.
Qed.

Lemma find_key rows r : StronglySorted row_lt rows -> r ∈ rows -> List.find (row_has_key (key (ir_key r))) rows = Some r.
Proof.
  intros Hs Hr. apply list_elem_of_split in Hr as (l1 & l2 & ->).
  assert (Hbefore : Forall (fun x => row_has_key (key (ir_key r)) x = false) l1).
  { apply Forall_forall. intros x Hx. apply bool_decide_eq_false. intros E.
    pose proof (ss_app_inv _ _ _ x r Hs Hx ltac:(by left)) as Hlt. unfold row_lt in Hlt. rewrite E in Hlt.
    by rewrite (ord_refl cmp_partition_keys_by_token) in Hlt. }
  clear Hs. induction Hbefore as [|x l1 Hx _ IH]; cbn [app List.find].
  - unfold row_has_key. by rewrite bool_decide_eq_true_2.
  - by rewrite Hx.
Qed.

(** A finished BIG table holds what was kept between partitions. *)
Lemma finished_files `{CrcHasher} f0 parts rows css data w data_io index_io compaction files :
  Between f0 parts rows css data w -> ssw_finish data_io index_io compaction w = Ok files ->
  sf_data files = data /\ sf_index files = Some (file_bytes rows) /\
  sf_summary files = Some (summary_finish (ssw_summary_writer w)) /\
  sf_filter files = Bloom.serialize <$> (ssw_filter_writer w ≫= fw_bloom).
Proof.
  intros [(_ & Hfm & Hbti & _) Hdw Hiw _ _ _ _ _ _ _ _ _]. unfold ssw_finish. rewrite Hfm, Hbti, Hdw, Hiw.
  change (bool_decide (Big = Bti)) with false. cbv zeta iota. unfold data_finish_streaming, flush_partition. cbn [dw_sink sink_at dw_buffer dw_position].
  destruct data_io as [[]|]; [|done]. cbn [mbind result_bind dw_sink default from_option id].
  destruct (crc_finalize _) as [digest crcs]. cbn [mbind result_bind].
  unfold index_finish_streaming, flush_entry. cbn [iw_sink iw_counting streaming_at]. destruct index_io as [[]|]; [|done].
  cbn [mbind result_bind iw_sink default from_option id iw_buffer]. intros [= <-]. cbn [sf_data sf_index sf_summary sf_filter].
  rewrite !app_nil_r. split; [done|]. split; [done|]. split; [done|]. by destruct (ssw_filter_writer w).
Qed.

Lemma summary_ok f0 parts rows css data w p0 :
  Between f0 parts rows css data w -> head parts = Some p0 -> Sampled 128 css ->
  zlen (file_bytes rows) < 2 ^ 63 -> zlen (summary_finish (ssw_summary_writer w)) <= 10 ^ 9 ->
  exists first last, SummaryOk (ssw_summary_writer w) first last.
Proof.
  intros Hb Hp0 Hs Hi Hz. assert (Hb' := Hb). destruct Hb' as [_ _ _ Hkeys _ _ [Hgr Hcss] [Hmi Hse] [Hfk Hlk] _ _ Hrows].
  assert (Hlen : length rows = length parts) by (rewrite <- (length_map ir_key), Hkeys, length_map; done).
  assert (Hu : forall p, p ∈ parts -> zlen (key (part_key p)) < 2 ^ 32).
  { intros p Hp. apply list_elem_of_lookup in Hp as [i Hpi]. assert (Hl : (i < length rows)%nat) by (rewrite Hlen; by eapply lookup_lt_Some).
    apply lookup_lt_is_Some in Hl as [r Hr]. destruct (Hrows i p r Hpi Hr) as [Hk _]. unfold u16_MAX in Hk. lia. }
  destruct parts as [|p parts]; [done|]. destruct (last (p :: parts)) as [q|] eqn:Eq; [|by apply last_None in Eq].
  assert (Hq : q ∈ p :: parts) by (apply last_Some in Eq as [l' ->]; apply elem_of_app; right; by left).
  exists (key (part_key p)), (key (part_key q)).
  assert (Hne : sw_entries (ssw_summary_writer w) <> []).
  { rewrite Hse. pose proof (sa_some _ _ Hs). by destruct css. }
  pose proof (summary_length _ Hne) as Hsl.
  assert (Hed : forall es, 8 * zlen es <= zlen (entry_data es)).
  { induction es as [|e es IH]; [done|]. cbn [entry_data flat_map]. fold (entry_data es). rewrite zlen_cons, zlen_app, entry_size.
    pose proof (zlen_nonneg (se_partition_key e)). lia. }
  specialize (Hed (sw_entries (ssw_summary_writer w))). unfold MAX_REASONABLE_ENTRIES.
  constructor.
  - rewrite Hmi. unfold is_u32, u_range. lia.
  - done.
  - unfold MAX_REASONABLE_ENTRIES. lia.
  - lia.
  - rewrite Hse. pose proof (sample_positions css 0) as Hsp. rewrite Hcss in Hsp. eapply Forall_impl; [exact Hsp|].
    cbn [se_position]. intros e He. cbv beta in *. unfold is_u64, u_range. lia.
  - rewrite Hfk. split; [done|]. apply Hu. by left.
  - rewrite Hlk. split; [|by apply Hu]. change (map part_key (p :: parts)) with (part_key <$> (p :: parts)). by rewrite fmap_last, Eq.
Qed.

(** C3: An SSTable leads every key to its partition. Let a writer of BIG tables, its
    baselines seeded, take any non-empty sequence of partitions, each with its own token, and
    finish, every call succeeding. Then its Summary.db parses, its Index.db opens with an
    entry for each partition in order, and looking a key up through the two finds nothing for a
    key that was not written, and for each that was the offset at which Data.db holds the
    very bytes that a writer in memory makes of that partition alone; and Filter.db is the
    serialized filter of exactly these keys. *)
Theorem sstable_lookup `{FloatOps} `{CrcHasher} expected fp w0 ts ldt ttl parts w data_io index_io compaction files :
  with_format schema expected fp Big = Ok w0 -> b = mkEncodingStatsBaselines ts ttl ldt ->
  write_parts parts (ssw_pre_seed_encoding_baselines ts ldt ttl w0) = Ok w ->
  ssw_finish data_io index_io compaction w = Ok files ->
  parts <> [] -> Forall (fun p => key_ok (part_key p)) parts ->
  zlen (sf_data files) < 2 ^ 63 -> zlen (default [] (sf_index files)) < 2 ^ 63 ->
  zlen (default [] (sf_summary files)) <= 10 ^ 9 ->
  exists index summary_bytes summary entries,
    sf_index files = Some index /\ sf_summary files = Some summary_bytes /\
    parse_summary_data summary_bytes = Ok summary /\
    open_index index = Ok (mkIndexData entries true) /\ map pie_key entries = map (fun p => key (part_key p)) parts /\
    (forall k, k ∉ map (fun p => key (part_key p)) parts -> lookup_via_summary summary index k = Ok None) /\
    (forall p, p ∈ parts -> exists bytes blocks emit pre post,
       lookup_via_summary summary index (key (part_key p)) = Ok (Some (zlen pre)) /\
       sf_data files = pre ++ bytes ++ post /\ partition_alone p bytes blocks emit) /\
    sf_filter files
    = (fun f => Bloom.serialize (foldl Bloom.insert f (map (fun p => key (part_key p)) parts)))
      <$> (ssw_filter_writer w0 ≫= fw_bloom).
Proof.
  intros Hw0 Hb Hw Hfin Hne Hk Hd Hi Hz.
  pose proof (between_new expected fp _ w0 ts ldt ttl Hw0 eq_refl Hb) as Hbt0.
  destruct (between_parts _ _ _ _ _ _ _ _ Hbt0 Hw) as (rows & css & data & Hbt). cbn [app] in Hbt.
  destruct (finished_files _ _ _ _ _ _ _ _ _ _ Hbt Hfin) as (Ed & Ei & Es & Ef). rewrite Ed, Ei, Es in *. cbn [default from_option id] in *.
  pose proof (between_sampled _ _ _ _ _ _ Hbt Hne Hk Hd Hi) as Hs.
  destruct (head parts) as [p0|] eqn:Ep0; [|by destruct parts].
  destruct (summary_ok _ _ _ _ _ _ _ Hbt Ep0 Hs Hi Hz) as (first & last & Hso).
  assert (Hbt' := Hbt). destruct Hbt' as [_ _ _ Hkeys _ _ [Hgr Hcss] [Hmi Hse] _ _ Hfil Hrows].
  assert (Hlen : length rows = length parts) by (rewrite <- (length_map ir_key), Hkeys, length_map; done).
  assert (Hlk : forall k, lookup_via_summary (summary_of (ssw_summary_writer w) first last) (file_bytes rows) k
                          = Ok (ir_offset <$> List.find (row_has_key k) rows)).
  { intros k. rewrite <- Hcss. apply (lookup_sampled 128); [done|exact Hse|exact Hmi|done]. }
  assert (Hrne : rows <> []) by (intros ->; by destruct parts).
  exists (file_bytes rows), (summary_finish (ssw_summary_writer w)), (summary_of (ssw_summary_writer w) first last), (map row_entry rows).
  split; [done|]. split; [done|]. split; [by apply summary_reads|]. split; [|split; [|split; [|split]]].
  - apply parse_rows; [|done]. rewrite <- Hcss. apply (sa_rows _ _ Hs).
  - rewrite map_map. cbn [pie_key row_entry]. transitivity (map key (map ir_key rows)); [by rewrite map_map|]. by rewrite Hkeys, map_map.
  - intros k Hnk. rewrite Hlk, find_none_key; [done|]. intros r Hr Ek. apply Hnk.
    assert (Hin : ir_key r ∈ map part_key parts) by (rewrite <- Hkeys; apply list_elem_of_fmap; eauto).
    apply list_elem_of_fmap in Hin as (p & Ep & Hp). apply list_elem_of_fmap. exists p. by rewrite <- Ek, Ep.
  - intros p Hp. apply list_elem_of_lookup in Hp as [i Hpi]. assert (Hl : (i < length rows)%nat) by (rewrite Hlen; by eapply lookup_lt_Some).
    apply lookup_lt_is_Some in Hl as [r Hr]. destruct (Hrows i p r Hpi Hr) as (_ & bytes & emit & pre & post & Ha & -> & Hoff).
    assert (Er : ir_key r = part_key p).
    { assert (E := f_equal (fun l => l !! i) Hkeys). cbn in E. rewrite !list_lookup_fmap, Hr, Hpi in E. by injection E. }
    exists bytes, (ir_blocks r), emit, pre, post. split; [|done]. rewrite Hlk, <- Er, find_key; [by rewrite Hoff| |by eapply list_elem_of_lookup_2].
    rewrite <- Hcss. apply (sa_sorted _ _ Hs).
  - rewrite Ef, Hfil. by destruct (ssw_filter_writer w0 ≫= fw_bloom).
Qed.
End Written.

(** ** Example: two partitions *)

Definition ex_floats : FloatOps := {|
  f64_of_u64 _ := 0; f64_neg _ := 0; f64_mul _ _ := 0; f64_div _ _ := 0; f64_ln _ := 0; f64_powi _ _ := 0; f64_ceil _ := 0;
  f64_to_u64 _ := 128; f64_to_u32 _ := 2;
|}.

Definition ex_env : PartitionEnv := mkPartitionEnv (Ok ()) (Ok ()) (fun _ => 100) (fun _ _ => 100).
Definition ex_parts : list Part :=
  [mkPart ex_env (mkDecoratedKey 7160176530259582706 [2]) [insert_at (at_text 97) 1 6000000];
   mkPart ex_env (mkDecoratedKey 8849112093580131862 [1]) session_rows].

Definition ex_fresh : result BloomError SSTableWriter := @with_format ex_floats rows_schema 10 f64_0_01 Big.

Definition ex_written (w0 : SSTableWriter) : result Error SSTableWriter :=
  let VS := scalar_serializer in let CW := no_complex_writer in let HO := listed_order in let DF := sample_debug_fmt in
  write_parts sample_comparator ex_parts (ssw_pre_seed_encoding_baselines 5000000 6 60 w0).

Definition ex_finished (w : SSTableWriter) : result Error SSTableFiles := @ssw_finish ex_hasher (Ok ()) (Ok ()) false w.

(** Three steps, each if the one before succeeded. *)
Definition steps {E1 E2 E3 A B C} (a : result E1 A) (f : A -> result E2 B) (g : B -> result E3 C) : option C :=
  match a with
  | Ok x => match f x with Ok y => match g y with Ok z => Some z | Err _ => None end | Err _ => None end
  | Err _ => None
  end.

Lemma steps_some {E1 E2 E3 A B C} (a : result E1 A) (f : A -> result E2 B) (g : B -> result E3 C) {D} (h : C -> D) d :
  h <$> steps a f g = Some d -> exists x y z, a = Ok x /\ f x = Ok y /\ g y = Ok z /\ h z = d.
Proof.
  unfold steps. destruct a as [x|]; [|done]. destruct (f x) as [y|] eqn:Ef; [|done]. destruct (g y) as [z|] eqn:Eg; [|done].
  intros [= <-]. by exists x, y, z.
Qed.

Example ex_toc :
  sf_toc <$> steps ex_fresh ex_written ex_finished = Some [Data; Statistics; Digest; TOC; CrcComponent; Filter; Index; Summary].
Proof. vm_compute. reflexivity. Qed.

(** A second partition of the same token is refused. *)
Example equal_tokens_refused :
  match ex_fresh with
  | Ok w0 =>
      let VS := scalar_serializer in let CW := no_complex_writer in let HO := listed_order in let DF := sample_debug_fmt in
      write_parts sample_comparator
        [mkPart ex_env (mkDecoratedKey 7 [2]) [insert_at (at_text 97) 1 6000000];
         mkPart ex_env (mkDecoratedKey 7 [3]) [insert_at (at_text 97) 1 6000000]]
        (ssw_pre_seed_encoding_baselines 5000000 6 60 w0) = Err InvalidInput
  | Err _ => False
  end.
Proof. vm_compute. reflexivity. Qed.

Example ex_sizes :
  (fun f => (zlen (sf_data f), zlen (default [] (sf_index f)), zlen (default [] (sf_summary f)))) <$> steps ex_fresh ex_written ex_finished = Some (92, 10, 47).
Proof. vm_compute. reflexivity. Qed.

Lemma ex_keys_ok : Forall (fun p => key_ok (part_key p)) ex_parts.
Proof.
  assert (Hb : forall x, In x [1; 2] -> is_byte x) by (intros x [<-|[<-|[]]]; unfold is_byte, u_range; lia).
  repeat (apply Forall_cons_2; [split; [done|]; split; [apply Forall_cons_2; [apply Hb; cbn; tauto|apply Forall_nil_2]|vm_compute; reflexivity]|]).
  apply Forall_nil_2.
Qed.

Lemma sstable_lookup_witness :
  exists w0 w files summary index off, ex_fresh = Ok w0 /\ ex_written w0 = Ok w /\ ex_finished w = Ok files /\
    lookup_via_summary summary index [9] = Ok None /\ lookup_via_summary summary index [2] = Ok (Some off).
Proof.
  destruct (steps_some _ _ _ _ _ ex_sizes) as (w0 & w & files & E0 & Ew & Ef & Hsz). injection Hsz as H1 H2 H3.
  edestruct (@sstable_lookup scalar_serializer no_complex_writer listed_order sample_debug_fmt sample_comparator
               rows_schema (mkEncodingStatsBaselines 5000000 60 6) ex_floats ex_hasher 10 f64_0_01 w0 5000000 6 60 ex_parts w
               (Ok ()) (Ok ()) false files E0 eq_refl Ew Ef) as (index & sb & summary & entries & _ & _ & _ & _ & _ & Hno & Hyes & _).
  - done.
  - apply ex_keys_ok.
  - rewrite H1. lia.
  - rewrite H2. lia.
  - rewrite H3. lia.
  - destruct (Hyes (mkPart ex_env (mkDecoratedKey 7160176530259582706 [2]) [insert_at (at_text 97) 1 6000000])) as (bytes & blocks & emit & pre & post & Hl & _).
    { apply list_elem_of_In. by left. }
    exists w0, w, files, summary, index, (zlen pre). repeat (split; [assumption|]). split; [|exact Hl].
    apply Hno. intros Hin. apply list_elem_of_In in Hin. cbn in Hin. destruct Hin as [E|[E|[]]]; discriminate E.
Defined.
