(* ===== verification/ItemRanges.v ===== *)
(** Range tombstones across a flush: the ranges compaction pairs from the bounds of a
    partition are the range tombstones that were written, as long as these do not overlap;
    what becomes of ranges that do. *)

From S2P Require Import Prelude Values VInt Keys MergeModel Mutation Stats Cells CellProps Columns Rows RowProps Markers MarkerProps Items ItemProps RowGroup CompactionRows RowImage PartitionReader PartitionWriter PartitionReaderProps PartitionRoundtrip.

Open Scope Z_scope.

Definition is_marker (item : PartitionItem) : bool :=
  match item with IRow _ => false | _ => true end.

Definition is_range_row (row : CompactionRow) : bool :=
  match cr_row_data row with CRangeMarker _ _ _ _ => true | _ => false end.

Definition rows_of (items : list PartitionItem) : list RowWrite :=
  omap (fun item => match item with IRow row => Some row | _ => None end) items.

(** ** The bounds of a partition, paired *)





Section Ranges.
Context (schema : TableSchema).

(** *** Coalescing *)







Lemma coalesce_two item next items :
  coalesce_boundaries schema (item :: next :: items)
  = match boundary_of schema item next with
    | Some boundary => boundary :: coalesce_boundaries schema items
    | None => item :: coalesce_boundaries schema (next :: items)
    end.
Proof. done. Qed.


Lemma rows_of_cons item items :
  rows_of (item :: items) = match item with IRow row => row :: rows_of items | _ => rows_of items end.
Proof. by destruct item. Qed.

Lemma coalesced_rows items : rows_of (coalesce_boundaries schema items) = rows_of items.
Proof.
  assert (H : forall n items, (length items <= n)%nat -> rows_of (coalesce_boundaries schema items) = rows_of items).
  { clear items. induction n as [|n IH]; intros [|item items] Hl; cbn in Hl; try done; [lia|].
    destruct items as [|next items]; [done|]. rewrite coalesce_two.
    destruct (boundary_of schema item next) as [bd|] eqn:E.
    - cbn in Hl. unfold boundary_of in E. destruct item as [|bound [] ? ?|], next as [|? [] ? ?|]; try done.
      destruct (boundary_kind_for schema bound _) as [[kind ck]|]; [|done]. injection E as <-.
      unfold rows_of. cbn. apply IH. lia.
    - by rewrite !(rows_of_cons item), IH by (cbn in *; lia). }
  by apply (H (length items)).
Qed.


(** *** What the walk hands on *)



Lemma row_image_live now key row : is_range_row (row_image schema now key row) = false.
Proof.
  unfold is_range_row, row_image, image_data. cbn [cr_row_data].
  destruct (rw_row_deletion row) as [[dt ldt]|]; [|done]. by destruct (is_empty _).
Qed.


Lemma walked_rows (ok : Z -> PartitionItem -> Prop) key clock items : forall k st rows,
  (forall i item, items !! i = Some item -> ok (clock (k + i)%nat) item) ->
  exists images,
    List.filter (fun row => negb (is_range_row row)) (items_step schema key clock k items (st, rows)).2
    = List.filter (fun row => negb (is_range_row row)) rows ++ images /\
    Forall2 (fun row image => exists j, ok (clock j) (IRow row) /\ image = row_image schema (clock j) key row)
      (rows_of items) images.
Proof.
  induction items as [|item items IH]; intros k st rows Hok; cbn [items_step].
  { exists []. split; [by rewrite app_nil_r|constructor]. }
  assert (Hok' : forall i item', items !! i = Some item' -> ok (clock (S k + i)%nat) item').
  { intros i item' Hi. replace (S k + i)%nat with (k + S i)%nat by lia. by apply Hok. }
  assert (Hm : forall st' rows', List.filter (fun row => negb (is_range_row row)) rows' =
      List.filter (fun row => negb (is_range_row row)) rows -> exists images,
      List.filter (fun row => negb (is_range_row row)) (items_step schema key clock (S k) items (st', rows')).2
      = List.filter (fun row => negb (is_range_row row)) rows ++ images /\
      Forall2 (fun row image => exists j, ok (clock j) (IRow row) /\ image = row_image schema (clock j) key row)
        (rows_of items) images).
  { intros st' rows' E. destruct (IH (S k) st' rows' Hok') as (images & H1 & H2). exists images. by rewrite H1, E. }
  assert (Hc : forall s e dt ldt, List.filter (fun row => negb (is_range_row row)) (rows ++ [close_range key s e dt ldt])
      = List.filter (fun row => negb (is_range_row row)) rows).
  { intros. rewrite List.filter_app. cbn. by rewrite app_nil_r. }
  destruct item as [row|bound [] dt ldt|kind ck edt eldt sdt sldt]; cbn [item_step fst snd].
  - destruct (IH (S k) st (rows ++ [row_image schema (clock k) key row]) Hok') as (images & H1 & H2).
    exists (row_image schema (clock k) key row :: images). split.
    + rewrite H1, List.filter_app. cbn [List.filter]. rewrite row_image_live. by rewrite <- app_assoc.
    + unfold rows_of. cbn. apply Forall2_cons_2; [|done]. exists k. split; [|done].
      specialize (Hok 0%nat (IRow row) eq_refl). by rewrite Nat.add_0_r in Hok.
  - by apply Hm.
  - apply Hm, Hc.
  - destruct (if kind =? EXCL_END_INCL_START_BOUNDARY then _ else _) as [stop next].
    destruct st as [[[s dt] ldt]|]; cbn [fmap option_fmap option_map]; apply Hm; [apply Hc|done].
Qed.

Lemma walked_keys key clock items : forall k st rows,
  Forall (fun row => cr_key row = key) rows ->
  Forall (fun row => cr_key row = key) (items_step schema key clock k items (st, rows)).2.
Proof.
  induction items as [|item items IH]; intros k st rows Hr; cbn [items_step]; [done|].
  rewrite (surjective_pairing (item_step _ _ _ _ _)). apply IH.
  destruct item as [row|bound [] dt ldt|kind ck edt eldt sdt sldt]; cbn [item_step fst snd]; try done.
  - apply Forall_app. split; [done|by repeat constructor].
  - apply Forall_app. split; [done|by repeat constructor].
  - destruct (if kind =? EXCL_END_INCL_START_BOUNDARY then _ else _) as [stop next].
    destruct st as [[[s dt] ldt]|]; cbn [fmap option_fmap option_map]; [|done]. apply Forall_app. split; [done|by repeat constructor].
Qed.
End Ranges.

Section Survival.
Context `{HashOrder} `{DebugFmt} (schema : TableSchema) (ts : list CTy).


Lemma rows_only l : rows_of l = rows_of (List.filter (fun i => negb (is_marker i)) l).
Proof. induction l as [|i l IH]; [done|]. rewrite rows_of_cons, IH. by destruct i. Qed.

Lemma rows_filtered (rows : list RowWrite) rts :
  List.filter (fun i => negb (is_marker i)) (map IRow rows ++ markers_of rts) = map IRow rows.
Proof.
  rewrite List.filter_app. assert (E : List.filter (fun i => negb (is_marker i)) (markers_of rts) = []).
  { unfold markers_of. induction rts as [|rt rts IH]; [done|exact IH]. }
  rewrite E, app_nil_r. induction rows as [|row rows IH]; cbn; [done|by rewrite IH].
Qed.

(** The merged rows of a partition. *)
Definition pw_rows (w : PartitionWrite) : list RowWrite :=
  merge_clustering_rows (pw_mutations w) schema (has_static schema) (pt_deletion_time <$> pw_tombstone w)
    (pw_range_tombstones w).

End Survival.

(** ** What compaction reads *)

Section Compacted.
Context {VS : ValueSerializer} {CD : ComplexDecoder} {CW : ComplexWriter} {CR : ComplexColumnReader}.
Context `{HashOrder} `{DebugFmt}.
Context (from_data_type : string -> result Error ComparatorType) (ck_name : Z -> string).
Context (marshal : string -> string) (schema : TableSchema) (header : list ColumnInfo).
Context (b : EncodingStatsBaselines) (p : Parser).

(** *** A row *)

(** The time of a row: that of its liveness, else of its deletion. *)
Definition row_time (row : RowWrite) : Z :=
  match rw_liveness_ts row, rw_row_deletion row with
  | Some t, _ => t
  | None, Some d => d.1
  | None, None => 0
  end.

(** The cell [c] is what the operation on column [name] wrote: its value, or a cell
    tombstone; its time; its TTL and expiry. A null is no cell. *)
Definition cell_back (now : Z) (name : string) (mop : MergedOp) (c : SimpleCell) : Prop :=
  sc_column c = name /\ sc_timestamp c = mop_timestamp_micros mop
  /\ match mop_op mop with
     | Write _ v =>
         v <> Null /\ sc_value c = v /\ sc_ttl c = mop_row_ttl_seconds mop
         /\ sc_local_deletion_time c = expiring_ldt now <$> mop_row_ttl_seconds mop
     | WriteWithTtl _ v ttl ldt =>
         v <> Null /\ sc_value c = v /\ sc_ttl c = Some ttl
         /\ sc_local_deletion_time c = Some (default (expiring_ldt now ttl) ldt)
     | Delete _ _ =>
         sc_value c = Tombstone (mkTombstoneInfo (mop_timestamp_micros mop) CellTombstone
                                   (mop_cell_local_deletion_time mop) None None None)
         /\ sc_ttl c = None /\ sc_local_deletion_time c = None
     | _ => False
     end.

(** [c] is the cell of a regular column that the row wrote or deleted. *)
Definition cell_written (now : Z) (row : RowWrite) (c : SimpleCell) : Prop :=
  exists col mop, col ∈ regular schema /\ whole_by_col row (col_name col) = Some mop
    /\ cell_back now (col_name col) mop c.

(** [r] is the row as compaction takes it: its key, time, deletion and liveness, and, each
    once, a cell for each clustering column and each cell the row wrote. Only a deleted row
    that wrote no cell is handed on as its deletion alone. *)
Definition row_back (now : Z) (key : list Z) (row : RowWrite) (r : CompactionRow) : Prop :=
  cr_key r = key /\ cr_row_timestamp r = row_time row
  /\ match cr_row_data r with
     | CLive cells complex deletion live =>
         complex = [] /\ deletion = rw_row_deletion row
         /\ live = mkRowLiveness (is_some (rw_liveness_ts row)) (expiring_ldt now <$> rw_ttl_seconds row) (rw_liveness_ts row)
         /\ NoDup (map sc_column cells)
         /\ forall c, c ∈ cells <->
              (exists name v, (name, v) ∈ clustering_cells schema row /\ c = mkSimpleCell name v (row_time row) None None)
              \/ cell_written now row c
     | CTombstone dt ldt ck =>
         rw_row_deletion row = Some (dt, ldt) /\ ck = clustering_cells schema row
         /\ forall c, ~ cell_written now row c
     | _ => False
     end.

Context (Hp : decodes p b) (Ht : table_ok marshal schema header).
Context (Hck : NoDup (map cc_name (clustering_keys schema))).

Lemma ttl_read now ldt ttl :
  ttl_ok b now ldt ttl -> as_u32 ttl = ttl /\ as_i32 (as_u32 (expiry_of ldt now ttl)) = expiry_of ldt now ttl.
Proof.
  intros (Ht1 & _ & He). destruct Hp as [_ _ _ _ Httl]. split.
  - apply wrap_id. unfold u_range, i32_MAX in *. lia.
  - unfold as_i32, as_u32. rewrite swrap_wrap by lia. apply swrap_id; [lia|exact He].
Qed.

Lemma image_cell_back now row col c :
  row_ok from_data_type schema b now row -> col ∈ regular schema ->
  image_cell now row col = Some c <->
  exists mop, whole_by_col row (col_name col) = Some mop /\ cell_back now (col_name col) mop c.
Proof.
  intros Hr Hcol. unfold image_cell. destruct (whole_by_col row (col_name col)) as [mop|] eqn:Ew; cbn [mbind option_bind].
  2:{ split; [done|]. by intros (? & ? & _). }
  assert (Hop : exists dt, merged_op_ok b now dt mop).
  { unfold whole_by_col in Ew. apply find_some in Ew as [Hin _]. apply in_rev, list_elem_of_In in Hin.
    destruct (proj1 (Forall_forall _ _) (ro_ops _ _ _ _ _ Hr) mop Hin) as (col' & _ & _ & ?). by eexists. }
  destruct Hop as (dt & Hts & Hop).
  assert (Hiff : (v ← op_value mop;
      Some (mkSimpleCell (col_name col) v (mop_timestamp_micros mop) (exp_ttl <$> op_expiration now mop)
              (exp_ldt <$> op_expiration now mop))) = Some c <-> cell_back now (col_name col) mop c).
  { unfold op_value, op_expiration, cell_back. destruct c as [n v t ttl' ldt']. cbn [sc_column sc_value sc_timestamp sc_ttl sc_local_deletion_time].
    destruct (mop_op mop) as [cn v0|cn v0 ttl ldt|cn ldt| | |]; try done.
    - destruct Hop as [Httl _].
      assert (E : exp_ttl <$> ((fun ttl => mkCellExpiration ttl (expiring_ldt now ttl)) <$> mop_row_ttl_seconds mop)
                    = mop_row_ttl_seconds mop /\
                  exp_ldt <$> ((fun ttl => mkCellExpiration ttl (expiring_ldt now ttl)) <$> mop_row_ttl_seconds mop)
                    = expiring_ldt now <$> mop_row_ttl_seconds mop).
      { destruct (mop_row_ttl_seconds mop) as [ttl|]; [|done]. cbn in Httl |- *. destruct (ttl_read _ _ _ Httl) as [E1 E2].
        unfold exp_ttl, exp_ldt. cbn. cbn [expiry_of] in E2. by rewrite E1, E2. }
      destruct E as [-> ->]. destruct v0; cbn; split; intros; simplify_eq; destruct_and?; simplify_eq; try done; by split_and!.
    - destruct Hop as [Httl _]. destruct (ttl_read _ _ _ Httl) as [E1 E2]. cbn [fmap option_fmap option_map].
      unfold exp_ttl, exp_ldt. cbn [ce_ttl_seconds ce_expires_at_seconds]. rewrite E1, E2.
      replace (expiry_of ldt now ttl) with (default (expiring_ldt now ttl) ldt) by by destruct ldt.
      destruct v0; cbn; split; intros; simplify_eq; destruct_and?; simplify_eq; try done; by split_and!.
    - cbn. split; intros; simplify_eq; destruct_and?; simplify_eq; try done; by split_and!. }
  rewrite Hiff. split; [intros Hc; by exists mop|]. by intros (mop' & [= <-] & Hc).
Qed.

Lemma data_cell_back now row c :
  row_ok from_data_type schema b now row -> c ∈ data_cells schema now row <-> cell_written now row c.
Proof.
  intros Hr. unfold data_cells, cell_written. rewrite list_elem_of_omap. split.
  - intros (col & Hcol & E). apply (image_cell_back now row col c Hr Hcol) in E as (mop & ?). by exists col, mop.
  - intros (col & mop & Hcol & ?). exists col. split; [done|]. apply image_cell_back; [done..|]. by exists mop.
Qed.

Lemma row_image_back now key row :
  row_ok from_data_type schema b now row -> row_back now key row (row_image schema now key row).
Proof.
  intros Hr. unfold row_back, row_image. cbn [cr_key cr_row_timestamp cr_row_data].
  assert (Etime : image_timestamp row = row_time row).
  { unfold image_timestamp, row_time. by destruct (rw_liveness_ts row), (rw_row_deletion row). }
  split; [done|]. split; [exact Etime|].
  assert (Hlen : length (clustering_values_of (rw_clustering_key row)) = length (clustering_keys schema)).
  { pose proof (ro_clustering _ _ _ _ _ Hr) as Hk. unfold clustering_key_ok, clustering_values_of in *.
    destruct (rw_clustering_key row); [|by rewrite Hk]. destruct Hk as (_ & _ & Hk). by rewrite (Forall2_length _ _ _ Hk). }
  assert (Hcells : NoDup (map sc_column (image_cells schema now row)) /\ forall c, c ∈ image_cells schema now row <->
      (exists name v, (name, v) ∈ clustering_cells schema row /\ c = mkSimpleCell name v (row_time row) None None)
      \/ cell_written now row c).
  { split.
    - unfold image_cells. rewrite insert_by_name_perm. apply image_cells_nodup; [by eapply regular_names|done..].
    - intros c. unfold image_cells. rewrite insert_by_name_perm, elem_of_app, (data_cell_back now row c Hr).
      unfold key_cells. rewrite list_elem_of_fmap, Etime. split; (intros [Hc|Hc]; [left|by right]).
      + destruct Hc as ([name v] & -> & Hc). by exists name, v.
      + destruct Hc as (name & v & Hc & ->). by exists (name, v). }
  destruct Hcells as [Hnd Hcells]. unfold image_data.
  destruct (rw_row_deletion row) as [[dt ldt]|]; [destruct (data_cells schema now row) as [|c0 cells] eqn:Ed|]; cbn [is_empty].
  - split; [done|]. split; [done|]. intros c Hc%(data_cell_back now row c Hr). rewrite Ed in Hc. by apply elem_of_nil in Hc.
  - by split_and!.
  - by split_and!.
Qed.

(** *** A partition *)

(** The unfiltered rows of a partition, in the order in which they are written. *)
Definition sorted_rows (w : PartitionWrite) : list RowWrite :=
  rows_of (sort_partition_items schema (map IRow (pw_rows schema w) ++ markers_of (pw_range_tombstones w))).

(** The partition's deletion as compaction takes it. *)
Definition deletion_rows (w : PartitionWrite) : list CompactionRow :=
  match pw_tombstone w with
  | Some t => [mkCompactionRow (Keys.key (pw_key w)) (pt_deletion_time t)
                 (CPartitionDelete (pt_deletion_time t) (pt_local_deletion_time t))]
  | None => []
  end.

Lemma items_ok_lookup clock items : forall k,
  items_ok from_data_type schema b clock k items ->
  forall i item, items !! i = Some item -> item_ok from_data_type schema b (clock (k + i)%nat) item.
Proof.
  induction items as [|item items IH]; intros k Hok i item' Hi; [done|]. destruct Hok as [H1 H2].
  destruct i as [|i]; cbn in Hi; [injection Hi as <-; by rewrite Nat.add_0_r|].
  replace (k + S i)%nat with (S k + i)%nat by lia. by apply IH.
Qed.

Lemma partition_rows_back w :
  partition_ok from_data_type schema b p w ->
  Forall (fun r => cr_key r = Keys.key (pw_key w)) (partition_image schema w) /\
  exists rows, List.filter (fun r => negb (is_range_row r)) (partition_image schema w) = deletion_rows w ++ rows /\
    Forall2 (fun row r => exists k, row_back (pw_clock w k) (Keys.key (pw_key w)) row r) (sorted_rows w) rows.
Proof.
  intros [_ _ Hok _]. unfold partition_image.
  change (match pw_tombstone w with Some _ => _ | None => [] end) with (deletion_rows w). split.
  { apply walked_keys. unfold deletion_rows. destruct (pw_tombstone w); by repeat constructor. }
  destruct (walked_rows schema (item_ok from_data_type schema b) (Keys.key (pw_key w)) (pw_clock w) (pw_items schema w)
              1 None (deletion_rows w)) as (images & E & HF); [by apply items_ok_lookup|].
  exists images. rewrite E. split.
  { f_equal. unfold deletion_rows. by destruct (pw_tombstone w). }
  change (pw_items schema w) with (coalesce_boundaries schema (sort_partition_items schema
    (map IRow (pw_rows schema w) ++ markers_of (pw_range_tombstones w)))) in HF.
  rewrite coalesced_rows in HF. eapply Forall2_impl; [exact HF|]. intros row image (k & [Hr _] & ->). exists k. by apply row_image_back.
Qed.

Lemma image_blocks (P : PartitionWrite -> list CompactionRow -> Prop) ws :
  Forall (fun w => P w (partition_image schema w)) ws ->
  flat_map (partition_image schema) ws = concat (map (partition_image schema) ws)
  /\ Forall2 P ws (map (partition_image schema) ws).
Proof.
  intros H'. split; [apply flat_map_concat_map|]. induction H'; by constructor.
Qed.

(** C6: Compaction reads back every partition a flush wrote. The table has no static columns,
    fewer than 64 regular columns, each a single cell and listed in the header, distinct
    column names and distinct, at most 32 clustering columns; the reader works with the
    baselines the header gave back. Of each partition, the key is of 1 to 255 bytes. Its deletion, if
    any, has a 64-bit time and a 32-bit local deletion time, and does not look like the live
    header (in the format with unsigned deletion times the time is not negative, in the other the
    local deletion time is not the greatest integer). Its merged rows have a value, not null, for each
    clustering column, and at most one operation a column, of null or of a scalar of the
    column's type (not varint); a row without clustering columns comes first. The bounds of its ranges hold values for all or the first clustering columns,
    named as in the table, and these columns are of the types int, bigint, timestamp, text, varchar, uuid, timeuuid and
    blob; no range starts at the end of the partition or ends at its beginning. Times are
    64-bit, TTLs and local deletion times 32-bit and at or above the baselines, and the
    expiry of a row's TTL is not negative. Then writing the partitions one after another with [write_partition]
    succeeds, and, if the bytes are at most [i64::MAX], [parse_block_for_compaction] on them, by [drive_partition_sliding], terminates
    and yields for each partition in turn, all under its own key: its deletion if it has one,
    and its merged rows in the order of [sort_partition_items], each with its time, deletion and liveness and
    exactly the cells it wrote, with their values, times, TTLs and expiries; in
    between are only the rows of ranges. One thing is lost: a deleted row that wrote no cell is
    handed on as its deletion alone, without the liveness it may have
    ([PartitionRoundtrip.reinserted_row_lost]). *)
Theorem block_roundtrip ws fuel :
  has_static schema = false -> Forall (partition_ok from_data_type schema b p) ws -> (block_fuel schema ws <= fuel)%nat ->
  let dw := mkDataWriter [] None 0 b (p_has_uint_deletion_time p) in
  exists dw' bytes, write_partitions from_data_type schema dw ws = Ok dw' /\ data_finish dw' = Ok bytes /\
    (zlen bytes <= i64_MAX ->
     exists images, parse_block_for_compaction ck_name p (Some schema) header fuel bytes = Some (Ok (concat images)) /\
       Forall2 (fun w image =>
         Forall (fun r => cr_key r = Keys.key (pw_key w)) image /\
         exists rows, List.filter (fun r => negb (is_range_row r)) image = deletion_rows w ++ rows /\
           Forall2 (fun row r => exists k, row_back (pw_clock w k) (Keys.key (pw_key w)) row r) (sorted_rows w) rows)
         ws images).
Proof.
  intros Hst Hok Hf dw.
  destruct (block_reads from_data_type ck_name marshal schema header b p Hp Ht Hck ws fuel Hst Hok Hf)
    as (dw' & bytes & Hw & Hd & Hr). exists dw', bytes. split; [exact Hw|]. split; [exact Hd|]. intros Hlen.
  destruct (image_blocks (fun w image =>
         Forall (fun r => cr_key r = Keys.key (pw_key w)) image /\
         exists rows, List.filter (fun r => negb (is_range_row r)) image = deletion_rows w ++ rows /\
           Forall2 (fun row r => exists k, row_back (pw_clock w k) (Keys.key (pw_key w)) row r) (sorted_rows w) rows) ws) as [E HF].
  { eapply Forall_impl; [exact Hok|]. exact partition_rows_back. }
  exists (map (partition_image schema) ws). by rewrite <- E, Hr.
Qed.

End Compacted.

(** ** Concrete ranges *)

#[local] Open Scope string_scope.
#[local] Open Scope list_scope.

(** The bytes of the two sample partitions are short. *)
Lemma sample_short dw' bytes :
  let VS := scalar_serializer in let CW := no_complex_writer in
  let HO := listed_order in let DF := sample_debug_fmt in
  write_partitions sample_comparator rows_schema (mkDataWriter [] None 0 sample_baselines false)
    [sample_partition; adjacent_ranges] = Ok dw' ->
  data_finish dw' = Ok bytes -> zlen bytes <= i64_MAX.
Proof.
  intros VS CW HO DF Hw Hf.
  assert (L : match write_partitions sample_comparator rows_schema
                (mkDataWriter [] None 0 sample_baselines false) [sample_partition; adjacent_ranges] with
              | Ok dw => match data_finish dw with Ok bytes => (zlen bytes <=? i64_MAX)%Z | Err _ => false end
              | Err _ => false
              end = true) by (vm_compute; reflexivity).
  rewrite Hw, Hf in L. by apply Z.leb_le.
Qed.

Lemma block_roundtrip_witness :
  let VS := scalar_serializer in let CD := no_complex in let CW := no_complex_writer in
  let CR := no_complex_reader in let HO := listed_order in let DF := sample_debug_fmt in
  exists bytes images, parse_block_for_compaction (fun _ => "ck") sample_parser (Some rows_schema) rows_header 9 bytes
    = Some (Ok (concat images)) /\
    Forall2 (fun w image =>
         Forall (fun r => cr_key r = Keys.key (pw_key w)) image /\
         exists rows, List.filter (fun r => negb (is_range_row r)) image = deletion_rows w ++ rows /\
           Forall2 (fun row r => exists k, row_back rows_schema (pw_clock w k) (Keys.key (pw_key w)) row r)
             (sorted_rows rows_schema w) rows) [sample_partition; adjacent_ranges] images.
Proof.
  intros VS CD CW CR HO DF.
  destruct (block_roundtrip (VS := VS) (CD := CD) (CW := CW) (CR := CR) (H := HO) (H0 := DF) sample_comparator (fun _ => "ck") (fun t => t)
              rows_schema rows_header sample_baselines sample_parser) with (ws := [sample_partition; adjacent_ranges])
              (fuel := 9%nat) as (dw' & bytes & Hw & Hf & Hr).
  - split; done.
  - apply rows_table_ok.
  - apply (bool_decide_unpack _). by vm_compute.
  - done.
  - apply sample_partitions_ok.
  - apply Nat.leb_le. by vm_compute.
  - destruct (Hr (sample_short dw' bytes Hw Hf)) as (images & E & HF). exists bytes, images. split; [exact E|exact HF].
Defined.


(** The rows compaction reads of a flush of these range tombstones. *)
Definition read_ranges (rts : list RangeTombstone) : option (result Error (list CompactionRow)) :=
  written_then_read (mkPartitionWrite (mkDecoratedKey 6 [2]) [] None rts (fun _ => 100)) 10.

Definition range_row_of (start stop : CompactionBound) (dt ldt : Z) : CompactionRow :=
  mkCompactionRow [2] dt (CRangeMarker start stop dt ldt).

(** Two overlapping range deletions of one memtable are flushed as start, start, end, end:
    the first start is forgotten, its range is read from the second start on, and the
    second, newer deletion from the beginning of the partition: everything below "a" is
    deleted as well. *)
Example overlapping_ranges_misread :
  read_ranges [mkRangeTombstone (Inclusive (at_text 97)) (Inclusive (at_text 101)) 5500000 8;
               mkRangeTombstone (Inclusive (at_text 99)) (Inclusive (at_text 103)) 5600000 9]
  = Some (Ok [range_row_of (CInclusive (at_text 99)) (CInclusive (at_text 101)) 5500000 8;
              range_row_of CBottom (CInclusive (at_text 103)) 5600000 9]).
Proof. vm_compute. reflexivity. Qed.

(** The same range deleted twice: the second copy covers everything up to its end. *)
Example repeated_range_misread :
  read_ranges [mkRangeTombstone (Inclusive (at_text 97)) (Inclusive (at_text 101)) 5500000 8;
               mkRangeTombstone (Inclusive (at_text 97)) (Inclusive (at_text 101)) 5600000 9]
  = Some (Ok [range_row_of (CInclusive (at_text 97)) (CInclusive (at_text 101)) 5500000 8;
              range_row_of CBottom (CInclusive (at_text 101)) 5600000 9]).
Proof. vm_compute. reflexivity. Qed.
