(* ===== verification/Flush.v ===== *)
(** From the pre-pass of a flush to the reader's baselines: the seeds, the fold of the
    partitions, [finalize], the serialization header and its parser compose to a parser
    that decodes against what the rows were encoded with. *)

From S2P Require Import Prelude Values Keys VInt Mutation Stats StatsProps Baselines Cells CellProps.

Open Scope Z_scope.

(** Baselines that stand for real values: none of the three ranges is empty, and the local
    deletion time is in the range of the header's 32-bit delta. *)
Record baselines_real (b : Baseline) : Prop := {
  br_ts : is_i64 b.1.1 /\ b.1.1 <> i64_MAX;
  br_ldt : i32_MIN + DELETION_TIME_EPOCH <= b.1.2 < i32_MAX;
  br_ttl : 0 <= b.2 < i32_MAX;
}.

(** The statistics a flush hands to the header. *)
Definition flushed_stats (w : StatsWriter) (b : Baseline) (parts : list (list (Clock * Mutation))) : StatsWriter :=
  foldl fold_partition (pre_seed_encoding_baselines b w) parts.

Lemma flushed_seeded w parts parts' :
  positive_ttls parts -> Forall2 (Forall2 later) parts parts' ->
  let b := flush_baselines parts in
  seeded b (sw_stats (flushed_stats w b parts')) /\ sw_encoding (flushed_stats w b parts') = encoding_of b.
Proof.
  intros Hpos H b. pose proof (flush_baselines_cover_stamps _ _ Hpos H) as Hb. fold b in Hb.
  destruct (fold_partitions_seeded b parts' (pre_seed_encoding_baselines b w)) as [H1 H2].
  - done.
  - unfold pre_seed_encoding_baselines, seeded. by destruct b as [[??]?].
  - unfold pre_seed_encoding_baselines. by destruct b as [[??]?].
  - split; [exact H1|]. unfold flushed_stats. rewrite H2.
    unfold pre_seed_encoding_baselines, encoding_of. by destruct b as [[??]?].
Qed.

Lemma finalize_keeps_minima b s :
  baselines_real b -> seeded b s ->
  min_timestamp (finalize s) = b.1.1 /\ min_local_deletion_time (finalize s) = b.1.2 /\
  min_ttl (finalize s) = b.2.
Proof.
  intros [[_ Ht] Hl Hn] (E1 & E2 & E3). cbn. rewrite E1, E2, E3.
  destruct (Z.eqb_spec b.1.1 i64_MAX); [done|].
  destruct (Z.eqb_spec b.1.2 i32_MAX); [limits; lia|].
  destruct (Z.eqb_spec b.2 i32_MAX); [limits; lia|]. done.
Qed.

(** C29: A flush and the reader agree on the baselines. Seeded by the pre-pass, after every
    partition has been folded at a later clock and the statistics finalized, the header's
    bytes parse, and the parser built from them (for either reading of deletion times)
    decodes against the very baselines the rows and cells were encoded with. The conditions:
    every TTL of the memtable, read as an [i32], is positive; the memtable held a deletion or an expiry, and
    a TTL, so that no range is empty; its least timestamp is an [i64] other than the
    greatest, its least local deletion time lies between [i32::MIN + 1442880000]
    (what the header's 32-bit delta can say) and [i32::MAX], and its least TTL below
    [i32::MAX]. *)
Theorem flush_header_decodes w parts parts' uint rest :
  positive_ttls parts -> Forall2 (Forall2 later) parts parts' -> baselines_real (flush_baselines parts) ->
  let w' := flushed_stats w (flush_baselines parts) parts' in
  exists ts ldt ttl,
    parse_encoding_stats_vuints (write_encoding_stats (finalize (sw_stats w')) ++ rest)
      = Ok (rest, (ts, ldt, ttl)) /\
    decodes (mkParser ts ldt ttl uint) (sw_encoding w').
Proof.
  intros Hpos H Hb w'. destruct (flushed_seeded w parts parts' Hpos H) as [Hs He]. fold w' in Hs, He.
  destruct (finalize_keeps_minima _ _ Hb Hs) as (E1 & E2 & E3). destruct Hb as [[Hi Ht] Hl Hn].
  set (b := flush_baselines parts) in *.
  eexists _, _, _. split.
  - apply parse_write_encoding_stats. split; rewrite ?E1, ?E2, ?E3; [done| |lia].
    unfold DELETION_TIME_EPOCH in Hl. limits. lia.
  - rewrite He. unfold encoding_of.
    split; cbn [p_min_timestamp p_min_local_deletion_time p_min_ttl enc_min_timestamp
                enc_min_local_deletion_time enc_min_ttl].
    + unfold header_ts. rewrite E1. by destruct (Z.eqb_spec b.1.1 i64_MAX).
    + rewrite header_ldt_exact; rewrite E2; [done| |lia]. unfold DELETION_TIME_EPOCH in Hl. limits. lia.
    + unfold header_ttl. rewrite E3. destruct (Z.eqb_spec b.2 i32_MAX); [limits; lia|done].
    + unfold DELETION_TIME_EPOCH in Hl. limits. lia.
    + lia.
Qed.

Lemma flush_header_decodes_witness :
  exists ts ldt ttl,
    parse_encoding_stats_vuints
      (write_encoding_stats (finalize (sw_stats (flushed_stats new_writer (flush_baselines sample_parts)
                                                   sample_parts_later))) ++ [])
      = Ok ([], (ts, ldt, ttl)) /\
    decodes (mkParser ts ldt ttl false) (mkEncodingStatsBaselines 5000000 60 6).
Proof.
  destruct (flush_header_decodes new_writer sample_parts sample_parts_later false []) as (ts & ldt & ttl & H1 & H2).
  - exact sample_positive.
  - exact sample_later.
  - repeat split; by vm_compute.
  - exists ts, ldt, ttl. split; [exact H1|exact H2].
Defined.
